(* ===== verification/_CoqProject ===== *)
-Q . S2P
Prelude.v
Util.v
Emq.v
ClusterState.v
ClusterOps.v
ClusterInv.v
ClusterProps.v
ClusterStore.v
Consumers.v
ConsumersRing.v
ConsumersSystem.v
Segments.v
SegmentsVarint.v
Bytes.v
Proto.v
SegmentsProps.v
SegmentsDir.v
Match.v
Reconciler.v
ReconcilerProps.v
Requests.v
LeaderInv.v
Server.v
ServerLogic.v
LeaderSafe.v
ServerProps.v
ServerSystem.v
Replication.v
NodeLoop.v
OffsetCommit.v
ClusterFsm.v
ClusterCodec.v
GroupTask.v
MessageCodec.v
GroupTaskProps.v
GroupFeed.v
Publish.v
PublishProps.v
Broker.v
BrokerProps.v
ConnPool.v
Interaction.v
SubscribeStream.v
RaftTransport.v
RaftTransportProps.v
Discovery.v
StructValue.v
AmqpValues.v
AmqpV0.v
AmqpV0Fields.v
AmqpV0Methods.v
AmqpV0Frames.v
AmqpV0Header.v
AmqpV0Transport.v
AmqpV0Server.v
AmqpV0ServerProps.v
AmqpV0Conn.v
AmqpV0ConnProps.v
AmqpV1.v
AmqpV1Laws.v
AmqpV1Fields.v
AmqpV1Types.v
AmqpV1TypesLaws.v
AmqpV1Transport.v
AmqpV1Props.v
AmqpV1Total.v
AmqpV1Server.v
AmqpV1ServerProps.v
AmqpV1Assembly.v
AmqpV1Sender.v
AmqpV1SenderProps.v
AmqpV1Flow.v
AmqpV1Relay.v
Listener.v
ListenerProps.v
NodeConfig.v
LiveReload.v
LiveReloadProps.v
LiveReloadMaster.v
LiveReloadMasterProps.v
