(* ===== verification/Prelude.v ===== *)
(** * EventterMQ verification library

    A verification of EventterMQ (src/mq), a clustered message queue written in Go, and of the tool that reloads it during
    development (src/livereload).

    ** The program

    Topics are logs, cut into segments that are files on the nodes of the cluster.  Which namespaces,
    topics, consumer groups, segments and nodes exist is the cluster state, a value replicated by Raft:
    the leader appends commands, every node applies them in the same order.  A node writes published
    messages to the segment it is primary for, replicas copy it, and the primary of the offset segment
    of a consumer group keeps a queue of the messages that match the bindings of the group and leases
    them to subscribers.  The leader reconciles the state with the nodes that are alive.  Clients use gRPC, AMQP 0-9-1 or AMQP 1.0;
    nodes reach each other through a pool of gRPC connections, on which Raft and memberlist run over adapters.

    ** The files, in the order of their dependencies

    - Prelude.v: results of Go functions ([Ok], [Err], [Panic]), fixed-width integers, slices, sorting
      and binary search, the tactics, the hint database and the lemmas shared by all components.
    - Util.v: src/mq/util/math.go and node_id.go.
    - Emq.v: the messages and header values of src/mq/emq/emq.pb.go.
    - ClusterState.v, ClusterOps.v: the data and the queries (cluster_state.pb.go,
      cluster_state_queries.go), the commands (cluster_state_do_*.go) and the store
      (cluster_state_store.go: [Do], [NextSegmentID]).
    - ClusterInv.v, ClusterProps.v: the invariant [cluster_wf], the commands the state machine
      accepts ([admissible]) and the transition system [cluster_step] of its histories.
    - ClusterStore.v: the lock-free store as a step relation of concurrent goroutines that load,
      compute and compare-and-swap.
    - Consumers.v, ConsumersRing.v, ConsumersSystem.v: the queue of a consumer group
      (src/mq/consumers): a ring buffer of leased messages, its refinement to a queue of slots, and the
      group with any number of subscriptions as a step relation, in which the commits of an acknowledgement are sent after
      the mutex is released.
    - Segments.v, SegmentsVarint.v, SegmentsProps.v: a segment file and its iterators
      (src/mq/segments/file.go, iterator.go), with the outcomes of the system calls as parameters.
    - SegmentsDir.v: the pool of open files (src/mq/segments/dir.go).
    - Match.v: the bindings and patterns of src/mq/match.go.
    - Reconciler.v: the four reconcilers (reconciler*.go) over the class [ReconcilerDelegate], which
      is the interface of that name in the source.
    - ReconcilerProps.v: what the reconciler decides for a segment or a group, for every delegate.
    - Requests.v: the requests of clients and their validation (emq/request_validation.go).
    - LeaderInv.v: [leader_inv], what holds of the state besides [cluster_wf] while leaders run the
      cluster, and the commands that keep it ([leader_ok]).
    - Server.v: the handlers of the leader (server_*.go) and its tick (server_loop.go), in a state and
      error monad over [Server]; [Server] is the instance of [ReconcilerDelegate].
    - ServerLogic.v: triples for that monad, with what is assumed of the answers of other nodes as a class ([Answers]).
    - LeaderSafe.v, ServerProps.v, ServerSystem.v: the safety of the reconciler, of every handler and of
      the leader as a whole.
    - Replication.v: the task that copies a segment (task_segment_replication.go) and the handlers of the
      node it copies from (server_segment_read.go, server_segment_sum.go), as a step relation.
    - NodeLoop.v: what a node does on a new state, on completed tasks and for garbage collection
      (server_loop.go, tasks/).
    - ConnPool.v: the pool of connections to other nodes (client_conn_pool.go).
    - ClusterFsm.v: what Raft calls (cluster_state_store_fsm.go): entries of the log and snapshots.
    - Proto.v: the generated marshalling of protocol buffers (the files ending in pb.go): its shape for any list of fields, and the classes [Codec] and
      [CodecLaw], against which the users of an encoding are proved; OffsetCommit.v, ClusterCodec.v and MessageCodec.v: the
      messages of offset segments, of the state with its commands (cluster_state.pb.go), and of topics (segments.pb.go, emq.pb.go).
    - GroupTask.v: the task of a consumer group (task_consumer_group.go) and the tasks that feed it
      (task_consume_segment_local.go, task_consume_segment_remote.go); GroupTaskProps.v: its progress through crashes
      and rotations as a step relation, and its tick; GroupFeed.v: what is offered to the group.
    - Publish.v, PublishProps.v: the handler that publishes a message (server_topic_publish.go).
    - Broker.v, BrokerProps.v: the tables of groups and subscriptions of a node and the handlers of subscriptions and
      acknowledgements (server_consumer_group_subscribe.go, server_consumer_group_wait.go, server_message_ack.go,
      server_message_nack.go, server_subscription_resize.go), which refine the groups of ConsumersSystem.v; SubscribeStream.v: a
      subscription from the request to the last answer, here or relayed from another node, and the streams of the AMQP servers
      (server_consumer_group_subscribe_consumer.go).
    - RaftTransport.v, RaftTransportProps.v: the transport of Raft over gRPC (raft_transport.go), both sides of each call.
    - Discovery.v: the transport of memberlist (discovery_transport.go): packets, tunnels and the shutdown.
    - NodeConfig.v: the configuration of a node and its identifier (config.go).
    - Bytes.v: big-endian integers, strings, errors, readers and writers of bytes, float64.
    - Interaction.v: handlers that interleave their own steps with calls to their environment, as trees of calls and
      answers ([prog], [method]), with the logic for them ([always], [keeps], [no_leak], and [trace] for runs that are not over).
    - StructValue.v: typed values of argument tables (structvalue/structvalue.go).
    - AmqpValues.v: header values on the wire, and the laws that both AMQP codecs share.
    - AmqpV0.v, AmqpV0Fields.v, AmqpV0Methods.v, AmqpV0Frames.v, AmqpV0Header.v: the AMQP 0-9-1 codec
      (amqp/v0/marshal.go, amqp0-9-1.go): tables, fields, the methods, the dispatch, content headers.
    - AmqpV0Transport.v: frames on a connection (amqp/v0/transport.go).
    - AmqpV0Server.v, AmqpV0Conn.v: the AMQP 0-9-1 server (server_amqp_v0*.go): the handlers of a channel, and the loop
      of a connection; AmqpV0ServerProps.v and AmqpV0ConnProps.v: their theorems.
    - AmqpV1.v, AmqpV1Fields.v, AmqpV1Types.v: the AMQP 1.0 codec (amqp/v1/marshal.go, unmarshal.go,
      amqp1-0-0.go): values and arrays, the scheme of composites, the types of the protocol; with their laws in
      AmqpV1Laws.v, AmqpV1Fields.v and AmqpV1TypesLaws.v.
    - AmqpV1Transport.v: frames on a connection (amqp/v1/transport.go); AmqpV1Props.v and AmqpV1Total.v: their
      theorems.
    - AmqpV1Server.v: the AMQP 1.0 server (server_amqp_v1*.go): connections, sessions, links to topics and the frames
      on them; AmqpV1Sender.v: the links to consumer groups, which deliver messages in goroutines of their own.
      AmqpV1ServerProps.v: windows, credit and the release of links; AmqpV1Assembly.v: publishing; AmqpV1SenderProps.v:
      what is sent for a message; AmqpV1Flow.v: flow control, and settling; AmqpV1Relay.v: a delivered message can be
      published again.
    - Listener.v, ListenerProps.v: the listener and SASL (amqp/server*.go, sasl/): the protocol header, authentication,
      the negotiation of limits.
    - LiveReload.v, LiveReloadProps.v: master and worker of src/livereload (livereload.go, worker.go), the URL between them, the routes, the watched
      packages (master_watch.go); LiveReloadMaster.v, LiveReloadMasterProps.v: the main loop of the master with its goroutines and handlers
      (master*.go) as a step relation with a lock and channels.

    ** Modelling

    Pure Go functions are functions; a function that can panic or return an error has a [result];
    state is passed explicitly.  A slice of pointers is a list of values where the code copies before it
    writes, and an object with its own identity (the store, a group, a file) is a record that
    the operations take and return.  A uint32 or uint64 is a [Z] and the code's conversions and
    additions that can wrap are written with [u32], [u64] and [i64].  Times are nanoseconds since the zero time.  Where
    the order of steps of different goroutines matters (the store, the group, the file pool) the
    steps between two acquisitions of a lock, or the single atomic operations, are the steps of a
    relation.

    Code that is not part of the repository is a parameter: Raft's answers are a list in
    the state of the server, about which nothing is assumed (a command may be committed although the
    caller sees an error, and node updates may come in between); the clock, the random choice
    and the results of system calls are arguments.  The codecs of times, durations and structs are those of the protobuf library: a class
    ([WellKnown]) with its law.  A gRPC stream is a relation between the logs of its two ends: what is received is a prefix of what was sent.

    ** The theorems

    - Cluster state: every admissible command is accepted and keeps the invariant; lookups by binary
      search are exact; a segment identifier goes from absent to open to closed to absent; deleting a
      topic leaves no trace; the concurrent store is linearizable and hands out each identifier once; commands and snapshots that are encoded,
      replicated and decoded have the same effect on every node.
    - Consumer groups: the ring refines a queue; every message is leased at most once; its commit is collected in
      the order of the messages, only after it and all before it were acknowledged, and sent at most once (in order if acknowledgements do not overlap); limits are respected; a message that
      is ready can be delivered; closing a subscription returns its messages.
    - Segments: what is written is what an iterator reads; a failed write leaves the file as it
      was; opening a file recovers the complete records and cuts a torn one; the pool closes a
      file only when nobody uses it.
    - Routing: the recursive matcher agrees with the matching of words.
    - Reconciler: replication is restored, the most complete replica is promoted, a segment is deleted
      only when it may be, the offsets of a group follow its bindings.
    - Server: no request and no tick of the leader panics or makes the state machine panic, whatever Raft
      answers, if the request is one of [call_ok] and, for a tick, the other nodes answer the questions for sizes of segments; a request to open a segment is
      answered with an open segment in a free place; validation accepts exactly the
      well-formed requests.
    - Nodes: a replica becomes an exact copy of its segment through lost connections and failing calls; the
      loop of a node runs exactly the tasks that the state asks for; the garbage collection removes exactly the
      files that the state does not place on the node ([placed_on]); the identifier of a node never changes; what Raft sends arrives in order and once, a snapshot that
      is answered has arrived completely, and every connection goes back to the pool.
    - Messages: a message is published once or not at all, to a segment of which the node is the primary node;
      a segment is fed to a group exactly as the bindings say, in order; what a group has committed is where a
      task that starts later resumes, through crashes and rotations, unless the leader dropped the segment and added it again; the groups of a node do not disturb each other; a subscriber is sent what was
      leased for it, and that is acknowledged only after it was sent.
    - AMQP codecs: for both versions, what one side sends the other receives, for the frames of [frame_encodable] and [v1_sendable]; received values are well typed (0-9-1); decoding ends on every input; the inputs that make
      a receiver panic are named.

    - AMQP servers: for every order of events and every answer of the rest of the server, a message that comes in
      several frames is published once and acknowledged only when it was published, deliveries are settled exactly
      (0-9-1), the subscriptions of a connection end with it, the windows stay open and a sender stays within
      what was granted (1.0), and what is delivered is what was published; a handler gets a user's token only after a
      provider verified it, and the cases in which it gets none are named ([refused]).
    - Live reload: a worker finds the master that started it, and the listeners that the master opened, in their order; what is watched is what the program is made of; a worker is replaced only when its successor is
      ready and none is forgotten; clients see events in their order.

    Some lemmas state what the code does not do: [closed_at_limit_waits], [closed_subscription_gets_lease],
    [Open_endless], [pattern_hash_dot], [pattern_empty_word], [replica_close_twice_panics],
    [rotate_by_other_node_changes_offsets], [rotate_after_delete_crashes], [collect_removes_new_segment],
    [two_replications_of_one_segment], [recreated_group_keeps_segment], [infinity_becomes_integer],
    [long_symbol_lost], [null_state_unreadable], [empty_array_panics], [null_footer_panics],
    [short_data_accepted], [extended_header_refused], [heartbeat_unexpected], [v1_Receive_size_underflow],
    [Receive_panics_iff], [SendBody_spec], [publish_without_message], [completed_commits_all], [rotation_shifts_time],
    [ack_unknown_node], [heartbeat_ends_connection], [empty_message_waits], [default_exchange_refused],
    [multiple_zero_refused], [get_not_registered], [disposition_unknown_panics], [disposition_keeps_last],
    [omitted_last_settles_all], [lowered_credit_wraps], [expiration_not_sent], [last_data_section_wins],
    [omitted_delivery_id_detaches], [aborted_uses_credit], [refused_header_is_served], [double_put_closes_held],
    [truncated_snapshot_ends_cleanly], [LocalAddr_ipv6], [resized_socket_leaks], [shutdown_needs_consumer], [huge_length_panics], [blocked_build],
    [unanswered_size_panics], [commits_out_of_order], [rebind_resumes_at_zero], [blocked_ready], [error_leaves_workers], [watch_nothing_silently], [unixpacket_dialed_as_unix], [escaped_path_dialed].

    ** Fuel

    Loops that are not structural take fuel, and lemmas show that what they are called with is
    enough: the ring is walked once ([ring]), a matcher call shortens the pattern or the key
    ([key_matches]), a candidate is used up by each iteration ([add_replicas], [choose_replicas]), a free
    shard exists among one more numbers than there are segments ([free_shard]), a record takes at
    least one byte ([scan], except for the input of [Open_endless]), a varint has at most ten bytes, a value
    on the wire takes a byte for each nesting ([unmarshalValue] of both codecs), each turn of
    [SendBody_loop] sends a byte, and a segment is replayed or consumed in at most one turn for each of its messages
    and one for the end ([replay], [consume_loop]).  The passes of [publish_write] are given as a list; two are enough when a
    rotation gives a segment with room ([publish_write_ends]).  A section of a message takes a byte ([parse_message],
    [parse_message_fuel]) and so does each transfer ([transfer_loop], [transfer_loop_sends]).  The rounds of
    authentication ([authenticate_v0], [authenticate_v1], [initV1]) are as many as the client makes; the theorem is for
    every number of them.  The events of a connection are a list, and its theorems are for all lists.  Decoding a protocol buffer takes a byte for each
    field ([unmarshal_loop], [fields_roundtrip]); the loops of streams ([subscribe_loop], [relay_loop], [DoAppendEntries], [send_snapshot], [pipe_snapshot], [tunnel_to_pipe])
    run as often as their peer makes them, and their theorems are for every number of turns and every moment; each package is queued once ([watch_loop]).

    ** Not modelled

    The stubs and messages of the RPC services (node_rpc.pb.go, raft_rpc.pb.go, discovery_rpc.pb.go, the services of emq.pb.go): gRPC calls their
    marshalling, which has the shape of Proto.v; the getters and descriptors of generated code.  Wiring, flags and printing of the command line (cmd/).  The
    generators of the AMQP codecs, whose output is modelled.  Logging, and the creation of the watcher in the live reload.  The layouts of
    [time.Format], [time.Parse] and [time.ParseDuration] are parameters.  Deadlines of connections, and the errors of sockets other than the end of the
    input, are left out of the AMQP transports. *)
From stdpp Require Export base list strings gmap fin_maps sorting relations.
From Stdlib Require Export ZArith Lia.

(** ** Notations *)

Declare Scope go_scope.
Delimit Scope go_scope with go.
#[global] Open Scope Z_scope.

(** ** Results of Go functions

    A Go function either returns its value, returns an error value, or panics
    (an explicit [panic], a nil dereference or an index out of range). *)

Inductive result (E A : Type) : Type :=
| Ok (a : A)
| Err (e : E)
| Panic (msg : string).
Arguments Ok {E A} _.
Arguments Err {E A} _.
Arguments Panic {E A} _.

#[export] Instance result_ret E : MRet (result E) := λ A a, Ok a.
#[export] Instance result_bind E : MBind (result E) := λ A B f m,
  match m with
  | Ok a => f a
  | Err e => Err e
  | Panic s => Panic s
  end.

(** ** Fixed-width integers *)

Definition wrap (w : Z) (z : Z) : Z := z mod 2 ^ w.
Definition u8 : Z → Z := wrap 8.
Definition u16 : Z → Z := wrap 16.
Definition u32 : Z → Z := wrap 32.
Definition u64 : Z → Z := wrap 64.

(** Two's complement reading of the low [w] bits. *)
Definition signed (w : Z) (z : Z) : Z :=
  let m := z mod 2 ^ w in if m <? 2 ^ (w - 1) then m else m - 2 ^ w.
Definition i64 : Z → Z := signed 64.

Definition MaxUint64 : Z := 18446744073709551615.
Definition MaxUint32 : Z := 4294967295.
Definition MaxInt32 : Z := 2147483647.
Definition MaxInt64 : Z := 9223372036854775807.

(** ** Slices *)

(** [append(s[:i], s[i+1:]...)] as the code spells it with [make] and [copy]. *)
Definition remove_at {A} (i : nat) (l : list A) : list A := take i l ++ drop (S i) l.

(** [for i, x := range l { if p(x) { return x, i } }; return nil, -1] *)
Fixpoint find_first {A} (p : A → bool) (l : list A) : option (nat * A) :=
  match l with
  | [] => None
  | x :: l => if p x then Some (0%nat, x) else prod_map S id <$> find_first p l
  end.

(** [sort.Slice] by a numeric key.  The keys the program sorts by are distinct
    in every reachable state, and [sort_by_unique] shows that the result of any
    correct sort is then this list. *)
Fixpoint insert_by {A} (key : A → Z) (x : A) (l : list A) : list A :=
  match l with
  | [] => [x]
  | y :: l' => if key x <=? key y then x :: l else y :: insert_by key x l'
  end.

Definition sort_by {A} (key : A → Z) (l : list A) : list A := foldr (insert_by key) [] l.

(** [sort.Search(n, f)] of the Go standard library: binary search for the
    smallest index in [0, n) at which [f] is true. *)
Fixpoint search_loop (fuel : nat) (f : nat → bool) (i j : nat) : nat :=
  match fuel with
  | O => i
  | S fuel =>
    if (i <? j)%nat then
      let h := ((i + j) / 2)%nat in
      if f h then search_loop fuel f i h else search_loop fuel f (S h) j
    else i
  end.

Definition sort_Search (n : nat) (f : nat → bool) : nat := search_loop n f 0 n.

(** Strict ordering of a slice by a numeric key. *)
Definition sorted_by {A} (key : A → Z) (l : list A) : Prop := StronglySorted Z.lt (key <$> l).

(** ** Tactics *)

Create HintDb eventter.

(** Destruct every boolean test of a hypothesis or the goal, remembering it. *)
Ltac case_if :=
  match goal with
  | |- context [if ?b then _ else _] =>
    lazymatch type of b with bool => let E := fresh "E" in destruct b eqn:E end
  | H : context [if ?b then _ else _] |- _ =>
    lazymatch type of b with bool => let E := fresh "E" in destruct b eqn:E end
  end.

(** Turn boolean comparisons in hypotheses into propositions. *)
Ltac bool_to_prop :=
  repeat match goal with
  | H : _ && _ = true |- _ => apply andb_true_iff in H; destruct H
  | H : _ || _ = false |- _ => apply orb_false_iff in H; destruct H
  | H : _ && _ = false |- _ => apply andb_false_iff in H
  | H : _ || _ = true |- _ => apply orb_true_iff in H
  | H : negb _ = true |- _ => apply negb_true_iff in H
  | H : negb _ = false |- _ => apply negb_false_iff in H
  | H : (_ =? _) = true |- _ => apply Z.eqb_eq in H
  | H : (_ =? _) = false |- _ => apply Z.eqb_neq in H
  | H : (_ <? _) = true |- _ => apply Z.ltb_lt in H
  | H : (_ <? _) = false |- _ => apply Z.ltb_ge in H
  | H : (_ <=? _) = true |- _ => apply Z.leb_le in H
  | H : (_ <=? _) = false |- _ => apply Z.leb_gt in H
  | H : (_ =? _)%nat = true |- _ => apply Nat.eqb_eq in H
  | H : (_ =? _)%nat = false |- _ => apply Nat.eqb_neq in H
  | H : (_ <? _)%nat = true |- _ => apply Nat.ltb_lt in H
  | H : (_ <? _)%nat = false |- _ => apply Nat.ltb_ge in H
  | H : (_ =? _)%string = true |- _ => apply String.eqb_eq in H
  | H : (_ =? _)%string = false |- _ => apply String.eqb_neq in H
  | H : bool_decide _ = true |- _ => apply bool_decide_eq_true in H
  | H : bool_decide _ = false |- _ => apply bool_decide_eq_false in H
  end.

(** ** Lists *)

Lemma find_first_Some {A} (p : A → bool) l i x :
  find_first p l = Some (i, x) ↔
  l !! i = Some x ∧ p x = true ∧ (∀ j y, (j < i)%nat → l !! j = Some y → p y = false).
Proof.
  revert i. induction l as [|a l IH]; intros i; simpl.
  - split; [done|]. intros [H _]. by rewrite lookup_nil in H.
  - destruct (p a) eqn:Ea.
    + split.
      * intros H. simplify_eq. split_and!; [done..|]. intros j y Hj. lia.
      * intros (H1 & H2 & H3). destruct i as [|i]; [by simplify_eq/=|].
        specialize (H3 0%nat a ltac:(lia) eq_refl). congruence.
    + rewrite fmap_Some. split.
      * intros ([i' x'] & Hf & Heq). simplify_eq/=.
        apply IH in Hf as (H1 & H2 & H3). split_and!; [done..|].
        intros [|j] y Hj Hy; simplify_eq/=; [done|]. eapply H3; [|done]. lia.
      * intros (H1 & H2 & H3). destruct i as [|i]; simplify_eq/=; [congruence|].
        exists (i, x). split; [|done]. apply IH. split_and!; [done..|].
        intros j y Hj Hy. apply (H3 (S j) y); [lia|done].
Qed.

Lemma find_first_fmap {A B} (f : A → B) (p : B → bool) l :
  find_first p (f <$> l) = prod_map id f <$> find_first (λ x, p (f x)) l.
Proof.
  induction l as [|a l IH]; [done|]. rewrite fmap_cons. simpl.
  destruct (p (f a)); [done|]. rewrite IH. by destruct (find_first _ l) as [[??]|].
Qed.

Lemma find_first_None {A} (p : A → bool) l :
  find_first p l = None ↔ ∀ x, x ∈ l → p x = false.
Proof.
  induction l as [|a l IH]; simpl.
  - split; [|done]. intros _ x Hx. by apply elem_of_nil in Hx.
  - destruct (p a) eqn:Ea.
    + split; [done|]. intros H. specialize (H a). rewrite Ea in H.
      discriminate H. left.
    + rewrite fmap_None, IH. setoid_rewrite elem_of_cons. naive_solver.
Qed.

Lemma find_first_lookup {A} (p : A → bool) l i x :
  find_first p l = Some (i, x) → l !! i = Some x ∧ p x = true.
Proof. rewrite find_first_Some. naive_solver. Qed.

Lemma find_first_is_Some {A} (p : A → bool) l x :
  x ∈ l → p x = true → is_Some (find_first p l).
Proof.
  intros Hx Hp. destruct (find_first p l) eqn:E; [eauto|].
  rewrite find_first_None in E. specialize (E x Hx). congruence.
Qed.

Lemma remove_at_delete {A} i (l : list A) : remove_at i l = delete i l.
Proof. unfold remove_at. by rewrite delete_take_drop. Qed.

Lemma elem_of_remove_at {A} i (l : list A) x : x ∈ remove_at i l → x ∈ l.
Proof.
  unfold remove_at. rewrite elem_of_app. intros [H|H].
  - eapply elem_of_sublist; [done|]. apply sublist_take.
  - eapply elem_of_sublist; [done|]. apply sublist_drop.
Qed.

Lemma list_filter_all {A} (P : A → Prop) `{∀ x, Decision (P x)} (l : list A) : (∀ x, x ∈ l → P x) → filter P l = l.
Proof.
  induction l as [|x l IH]; intros HP; [done|]. rewrite filter_cons_True by (apply HP; left). f_equal. apply IH.
  intros y Hy. apply HP. by right.
Qed.

Lemma list_filter_none {A} (P : A → Prop) `{∀ x, Decision (P x)} (l : list A) : (∀ x, x ∈ l → ¬ P x) → filter P l = [].
Proof. intros HP. apply elem_of_nil_inv. intros x [??]%list_elem_of_filter. by eapply HP. Qed.

(** ** Sorting *)

Section sort_by.
Context {A : Type} (key : A → Z).

Lemma insert_by_Permutation x l : insert_by key x l ≡ₚ x :: l.
Proof.
  induction l as [|y l IH]; simpl; [done|].
  case_if; [done|]. rewrite IH. apply Permutation_swap.
Qed.

Lemma sort_by_Permutation l : sort_by key l ≡ₚ l.
Proof.
  induction l as [|x l IH]; simpl; [done|].
  by rewrite insert_by_Permutation, IH.
Qed.

Lemma elem_of_sort_by x l : x ∈ sort_by key l ↔ x ∈ l.
Proof. by rewrite sort_by_Permutation. Qed.

Lemma sorted_by_cons x l :
  sorted_by key (x :: l) ↔ (∀ y, y ∈ l → key x < key y) ∧ sorted_by key l.
Proof.
  unfold sorted_by. rewrite fmap_cons. split.
  - intros H. inversion H as [|? ? H1 H2]; subst. split; [|done].
    intros y Hy. rewrite Forall_forall in H2. apply H2. by apply list_elem_of_fmap_2.
  - intros [H1 H2]. constructor; [done|]. apply Forall_forall.
    intros k Hk. apply list_elem_of_fmap in Hk as (y & -> & Hy). auto.
Qed.

Lemma sorted_by_nil : sorted_by key [].
Proof. constructor. Qed.

Lemma sorted_by_app l k :
  sorted_by key (l ++ k) ↔
  sorted_by key l ∧ sorted_by key k ∧ (∀ x y, x ∈ l → y ∈ k → key x < key y).
Proof.
  induction l as [|a l IH]; simpl.
  - split; [|naive_solver]. intros H. split_and!; [constructor|done|].
    intros x y Hx. by apply elem_of_nil in Hx.
  - rewrite !sorted_by_cons, IH. setoid_rewrite elem_of_app.
    setoid_rewrite elem_of_cons. naive_solver.
Qed.

Lemma insert_by_sorted x l :
  sorted_by key l → (∀ y, y ∈ l → key y ≠ key x) → sorted_by key (insert_by key x l).
Proof.
  induction l as [|y l IH]; simpl; intros Hs Hne.
  - apply sorted_by_cons. split; [|apply sorted_by_nil].
    intros y Hy. by apply elem_of_nil in Hy.
  - pose proof Hs as Hs'. apply sorted_by_cons in Hs as [Hy Hl]. case_if; bool_to_prop.
    + assert (key y ≠ key x) by (apply Hne; left).
      apply sorted_by_cons. split; [|done].
      intros z [->|Hz]%elem_of_cons; [lia|]. specialize (Hy z Hz). lia.
    + apply sorted_by_cons. split.
      * intros z. rewrite insert_by_Permutation. intros [->|Hz]%elem_of_cons; [lia|auto].
      * apply IH; [done|]. intros z Hz. apply Hne. by right.
Qed.

Lemma sort_by_sorted l : NoDup (key <$> l) → sorted_by key (sort_by key l).
Proof.
  induction l as [|x l IH]; intros H; [apply sorted_by_nil|].
  rewrite fmap_cons in H. apply NoDup_cons in H as [Hx Hl].
  change (sorted_by key (insert_by key x (sort_by key l))). apply insert_by_sorted; [auto|].
  intros y Hy Heq. apply Hx. rewrite <-Heq. apply list_elem_of_fmap_2. by rewrite elem_of_sort_by in Hy.
Qed.

Lemma sorted_by_NoDup l : sorted_by key l → NoDup (key <$> l).
Proof.
  induction l as [|x l IH]; [constructor|]. rewrite sorted_by_cons.
  intros [H1 H2]. rewrite fmap_cons. apply NoDup_cons. split; [|auto].
  intros (y & Hy & Hin)%list_elem_of_fmap. specialize (H1 y Hin). lia.
Qed.

Lemma sorted_by_NoDup_elems l : sorted_by key l → NoDup l.
Proof. intros H%sorted_by_NoDup. by eapply NoDup_fmap_1. Qed.

(** Two strictly ordered slices with the same elements are equal: with distinct
    keys the result of [sort.Slice] does not depend on the algorithm. *)
Lemma sorted_by_unique l k : sorted_by key l → sorted_by key k → l ≡ₚ k → l = k.
Proof.
  revert k. induction l as [|x l IH]; intros k Hl Hk HP.
  - by apply Permutation_nil_l in HP.
  - destruct k as [|y k]; [by symmetry in HP; apply Permutation_nil_l in HP|].
    pose proof Hl as [Hx Hl']%sorted_by_cons. pose proof Hk as [Hy Hk']%sorted_by_cons.
    assert (x = y) as ->.
    { assert (Hxk : x ∈ y :: k) by (rewrite <-HP; left).
      assert (Hyl : y ∈ x :: l) by (rewrite HP; left).
      apply elem_of_cons in Hxk as [?|Hxk]; [done|].
      apply elem_of_cons in Hyl as [?|Hyl]; [done|].
      specialize (Hx y Hyl). specialize (Hy x Hxk). lia. }
    f_equal. apply IH; [done..|]. by apply Permutation_cons_inv in HP.
Qed.

Lemma sort_by_unique l k :
  NoDup (key <$> l) → sorted_by key k → k ≡ₚ l → k = sort_by key l.
Proof.
  intros Hn Hk HP. apply sorted_by_unique; [done|by apply sort_by_sorted|].
  by rewrite sort_by_Permutation.
Qed.

Lemma sort_by_id l : sorted_by key l → sort_by key l = l.
Proof. intros H. symmetry. apply sort_by_unique; [by apply sorted_by_NoDup|done..]. Qed.

Lemma sorted_by_sublist l k : sublist l k → sorted_by key k → sorted_by key l.
Proof.
  induction 1 as [|x l k Hs IH|x l k Hs IH]; [done|..]; rewrite ?sorted_by_cons.
  - intros [H1 H2]. split; [|auto]. intros y Hy. apply H1. by eapply elem_of_sublist.
  - intros [H1 H2]. auto.
Qed.

Lemma sorted_by_filter (P : A → Prop) `{∀ x, Decision (P x)} l :
  sorted_by key l → sorted_by key (filter P l).
Proof. apply sorted_by_sublist, sublist_filter. Qed.

Lemma sorted_by_remove_at i l : sorted_by key l → sorted_by key (remove_at i l).
Proof. rewrite remove_at_delete. apply sorted_by_sublist, sublist_delete. Qed.

Lemma sorted_by_lookup_lt l i j x y :
  sorted_by key l → l !! i = Some x → l !! j = Some y → (i < j)%nat → key x < key y.
Proof.
  revert i j. induction l as [|a l IH]; intros i j; [by rewrite lookup_nil|].
  rewrite sorted_by_cons. intros [H1 H2] Hi Hj Hij. destruct j as [|j]; [lia|].
  destruct i as [|i]; simplify_eq/=.
  - apply H1. by eapply list_elem_of_lookup_2.
  - eapply IH; eauto. lia.
Qed.

Lemma sorted_by_key_inj l x y : sorted_by key l → x ∈ l → y ∈ l → key x = key y → x = y.
Proof.
  intros Hs [i Hi]%list_elem_of_lookup [j Hj]%list_elem_of_lookup Heq.
  destruct (lt_eq_lt_dec i j) as [[H| ->]|H].
  - pose proof (sorted_by_lookup_lt l i j x y Hs Hi Hj H). lia.
  - congruence.
  - pose proof (sorted_by_lookup_lt l j i y x Hs Hj Hi H). lia.
Qed.

(** Replacing an element by one with the same key keeps the order. *)
Lemma sorted_by_insert l i x y :
  l !! i = Some x → key y = key x → sorted_by key l → sorted_by key (<[i:=y]> l).
Proof.
  intros Hi Hk. unfold sorted_by. rewrite list_fmap_insert, Hk.
  rewrite list_insert_id; [done|]. by rewrite list_lookup_fmap, Hi.
Qed.

End sort_by.

(** ** Binary search *)

Lemma search_loop_spec fuel (f : nat → bool) i j :
  (j - i ≤ fuel)%nat → (i ≤ j)%nat →
  (∀ a b, (a ≤ b)%nat → (b < j)%nat → f a = true → f b = true) →
  let r := search_loop fuel f i j in
  (i ≤ r ≤ j)%nat ∧ (∀ k, (i ≤ k < r)%nat → f k = false) ∧ ((r < j)%nat → f r = true).
Proof.
  revert i j. induction fuel as [|fuel IH]; intros i j Hf Hij Hmono; cbv zeta; cbn [search_loop].
  - split_and!; [lia..| |]; [intros k Hk|intros]; lia.
  - destruct (i <? j)%nat eqn:E; bool_to_prop; cycle 1.
    { split_and!; [lia..| |]; [intros k Hk|intros]; lia. }
    assert (Hh : (i ≤ (i + j) / 2 < j)%nat).
    { split; [apply Nat.div_le_lower_bound; lia|apply Nat.Div0.div_lt_upper_bound; lia]. }
    cbv zeta. remember ((i + j) / 2)%nat as h eqn:Heqh. clear Heqh. destruct (f h) eqn:Eh.
    + destruct (IH i h) as (H1 & H2 & H3); [lia..| |].
      { intros a b Ha Hb. apply Hmono; lia. }
      cbv zeta in *.
      split; [lia|]. split; [done|]. intros Hr.
      destruct (decide (search_loop fuel f i h < h)%nat); [auto|].
      by replace (search_loop fuel f i h) with h by lia.
    + destruct (IH (S h) j) as (H1 & H2 & H3); [lia..|done|].
      cbv zeta in *. split; [lia|]. split; [|done]. intros k Hk.
      destruct (decide (S h ≤ k)%nat); [apply H2; lia|].
      destruct (f k) eqn:Ek; [|done].
      rewrite (Hmono k h) in Eh; [done|lia..|done].
Qed.

Lemma sort_Search_spec n (f : nat → bool) :
  (∀ a b, (a ≤ b)%nat → (b < n)%nat → f a = true → f b = true) →
  (sort_Search n f ≤ n)%nat ∧
  (∀ k, (k < sort_Search n f)%nat → f k = false) ∧
  ((sort_Search n f < n)%nat → f (sort_Search n f) = true).
Proof.
  intros Hm. destruct (search_loop_spec n f 0 n) as (H1 & H2 & H3); [lia..|done|].
  unfold sort_Search. split_and!; [lia| |done]. intros k Hk. apply H2. lia.
Qed.

(** ** Boolean filters *)

Lemma elem_of_bfilter {A} (f : A → bool) l x :
  x ∈ List.filter f l ↔ f x = true ∧ x ∈ l.
Proof. rewrite !list_elem_of_In, filter_In. tauto. Qed.

Lemma sublist_bfilter {A} (f : A → bool) l : sublist (List.filter f l) l.
Proof.
  induction l as [|x l IH]; simpl; [constructor|].
  destruct (f x); by constructor.
Qed.

Lemma bfilter_id {A} (f : A → bool) l : (∀ x, x ∈ l → f x = true) → List.filter f l = l.
Proof.
  induction l as [|x l IH]; simpl; intros H; [done|].
  rewrite H by left. f_equal. apply IH. intros y Hy. apply H. by right.
Qed.

Lemma existsb_elem_of {A} (f : A → bool) l :
  existsb f l = true ↔ ∃ x, x ∈ l ∧ f x = true.
Proof. rewrite existsb_exists. by setoid_rewrite list_elem_of_In. Qed.

Lemma existsb_false {A} (f : A → bool) l :
  existsb f l = false ↔ ∀ x, x ∈ l → f x = false.
Proof.
  split.
  - intros H x Hx. destruct (f x) eqn:E; [|done].
    assert (existsb f l = true) by (apply existsb_elem_of; eauto). congruence.
  - intros H. destruct (existsb f l) eqn:E; [|done].
    apply existsb_elem_of in E as (x & Hx & Hf). rewrite H in Hf; done.
Qed.

Lemma forallb_elem_of {A} (f : A → bool) l :
  forallb f l = true ↔ ∀ x, x ∈ l → f x = true.
Proof. rewrite forallb_forall. by setoid_rewrite list_elem_of_In. Qed.

(** ** Slices with distinct keys *)

Lemma NoDup_fmap_sublist {A B} (f : A → B) l k :
  sublist l k → NoDup (f <$> k) → NoDup (f <$> l).
Proof.
  induction 1 as [|x l k Hs IH|x l k Hs IH]; [done|..];
    rewrite ?fmap_cons, ?NoDup_cons; intros [H1 H2]; [split|]; auto.
  intros (y & Hy & Hin)%list_elem_of_fmap. apply H1. rewrite Hy.
  apply list_elem_of_fmap_2. by eapply elem_of_sublist.
Qed.

Lemma NoDup_fmap_insert {A B} (f : A → B) l i x y :
  l !! i = Some x → f y = f x → NoDup (f <$> l) → NoDup (f <$> <[i:=y]> l).
Proof.
  intros Hi Hf. rewrite list_fmap_insert, Hf, list_insert_id; [done|].
  by rewrite list_lookup_fmap, Hi.
Qed.

Lemma NoDup_fmap_snoc {A B} (f : A → B) l x :
  (∀ y, y ∈ l → f y ≠ f x) → NoDup (f <$> l) → NoDup (f <$> (l ++ [x])).
Proof.
  intros H Hn. rewrite fmap_app. apply NoDup_app. split_and!; [done| |apply NoDup_singleton].
  intros z (y & -> & Hy)%list_elem_of_fmap Hz. apply list_elem_of_singleton in Hz.
  by apply (H y).
Qed.

Lemma elem_of_list_insert {A} (l : list A) i x y :
  x ∈ <[i:=y]> l → x = y ∨ x ∈ l.
Proof.
  intros (j & Hj)%list_elem_of_lookup.
  apply list_lookup_insert_Some in Hj as [(-> & -> & _)|[_ Hj]]; [by left|].
  right. by eapply list_elem_of_lookup_2.
Qed.

Lemma elem_of_list_insert_ne {A} (l : list A) i x y z :
  l !! i = Some x → z ∈ l → z ≠ x → z ∈ <[i:=y]> l.
Proof.
  intros Hi (j & Hj)%list_elem_of_lookup Hne. apply list_elem_of_lookup. exists j.
  rewrite list_lookup_insert_ne; [done|]. intros ->. congruence.
Qed.

(** With distinct keys, [find_first] by key finds the element that has the key. *)
Lemma find_first_key_eq {A B} (key : A → B) (p : A → bool) l x :
  NoDup (key <$> l) → x ∈ l → (∀ y, p y = true ↔ key y = key x) →
  ∃ i, find_first p l = Some (i, x).
Proof.
  intros Hn Hx Hp. destruct (find_first_is_Some p l x Hx) as [[i y] Hf].
  { by apply Hp. }
  exists i. rewrite Hf. do 2 f_equal. apply find_first_lookup in Hf as [Hi Hy%Hp].
  apply list_elem_of_lookup in Hx as [j Hj].
  assert (i = j); [|congruence].
  eapply NoDup_lookup; [done|..]; rewrite list_lookup_fmap, ?Hi, ?Hj; simpl; by f_equal.
Qed.

Lemma take_drop_lookup {A} i (l : list A) x :
  l !! i = Some x → l = take i l ++ x :: drop (S i) l.
Proof. intros H. by rewrite <-(take_drop_middle l i x) at 1. Qed.

Lemma NoDup_remove_at {A} i (l : list A) x :
  NoDup l → l !! i = Some x → x ∉ remove_at i l.
Proof.
  intros Hn Hi. rewrite (take_drop_lookup i l x Hi) in Hn. unfold remove_at.
  apply NoDup_app in Hn as (H1 & H2 & H3). apply NoDup_cons in H3 as [H3 _].
  rewrite elem_of_app. intros [H|H]; [|done]. apply (H2 x H). left.
Qed.

Lemma elem_of_remove_at_ne {A} i (l : list A) x y :
  l !! i = Some x → y ∈ l → y ≠ x → y ∈ remove_at i l.
Proof.
  intros Hi Hy Hne. rewrite (take_drop_lookup i l x Hi) in Hy. unfold remove_at.
  rewrite elem_of_app, elem_of_cons in Hy. rewrite elem_of_app. naive_solver.
Qed.

(** Lookup by a name field, as in [FindNamespace], [FindTopic], ... *)
Lemma find_by_name_Some {A} (name : A → string) l k i x :
  find_first (λ x, String.eqb (name x) k) l = Some (i, x) → l !! i = Some x ∧ name x = k.
Proof. intros [? ?]%find_first_lookup. bool_to_prop. done. Qed.

Lemma find_by_name_None {A} (name : A → string) l k :
  find_first (λ x, String.eqb (name x) k) l = None ↔ k ∉ name <$> l.
Proof.
  rewrite find_first_None. split.
  - intros H (x & -> & Hx)%list_elem_of_fmap. specialize (H x Hx). bool_to_prop. done.
  - intros H x Hx. apply String.eqb_neq. intros <-. apply H. by apply list_elem_of_fmap_2.
Qed.

Lemma find_by_name_NoDup {A} (name : A → string) l i x :
  NoDup (name <$> l) → l !! i = Some x →
  find_first (λ y, String.eqb (name y) (name x)) l = Some (i, x).
Proof.
  intros Hn Hi. destruct (find_first_key_eq name (λ y, String.eqb (name y) (name x)) l x)
    as [j Hj]; [done|by eapply list_elem_of_lookup_2|intros; apply String.eqb_eq|].
  rewrite Hj. do 2 f_equal. apply find_by_name_Some in Hj as [Hj _].
  eapply NoDup_lookup; [done|..]; rewrite list_lookup_fmap, ?Hi, ?Hj; done.
Qed.

Definition dec_iff {P Q : Prop} (H : P ↔ Q) `{Decision Q} : Decision P :=
  match decide Q with
  | left q => left (proj2 H q)
  | right n => right (λ p, n (proj1 H p))
  end.

Lemma sorted_by_cons_alt {A} (key : A → Z) x l :
  sorted_by key (x :: l) ↔ Forall (λ y, key x < key y) l ∧ sorted_by key l.
Proof. by rewrite sorted_by_cons, Forall_forall. Qed.

#[export] Instance sorted_by_dec {A} (key : A → Z) : ∀ l : list A, Decision (sorted_by key l) :=
  fix go l :=
    match l with
    | [] => left (sorted_by_nil key)
    | x :: l => let _ := go l in dec_iff (sorted_by_cons_alt key x l)
    end.
