(* ===== verification/Util.v ===== *)
(** * Small shared functions

    Identifiers as strings (src/mq/node_id.go, with the parts of strconv it and
    src/mq/segments/dir.go use) and src/mq/util/math.go. *)
From Stdlib Require Import Ascii.
From S2P Require Import Prelude.

(** ** Hexadecimal numbers (strconv) *)

Definition hex_digit (z : Z) : ascii :=
  ascii_of_nat (Z.to_nat (if z <? 10 then 48 + z else 87 + z)).

(** [strconv.FormatUint(id, 16)] *)
Fixpoint format_hex (fuel : nat) (id : Z) (acc : string) : string :=
  match fuel with
  | O => acc
  | S fuel =>
    let acc := String (hex_digit (id mod 16)) acc in
    if id / 16 =? 0 then acc else format_hex fuel (id / 16) acc
  end.

Definition FormatUint16 (id : Z) : string := format_hex 16 id "".

Fixpoint repeat_zero (n : nat) : string :=
  match n with O => "" | S n => String "0" (repeat_zero n) end.

Definition hex_value (c : ascii) : option Z :=
  let z := Z.of_nat (nat_of_ascii c) in
  if (48 <=? z) && (z <=? 57) then Some (z - 48)
  else if (97 <=? z) && (z <=? 102) then Some (z - 87)
  else if (65 <=? z) && (z <=? 70) then Some (z - 55)
  else None.

(** [strconv.ParseUint(s, 16, 64)]: fails on the empty string, a bad digit and a
    value over 64 bits. *)
Fixpoint parse_hex (s : string) (acc : Z) : option Z :=
  match s with
  | EmptyString => Some acc
  | String c s =>
    match hex_value c with
    | Some v => let acc := acc * 16 + v in if MaxUint64 <? acc then None else parse_hex s acc
    | None => None
    end
  end.

Definition ParseUint16 (s : string) : option Z :=
  match s with EmptyString => None | _ => parse_hex s 0 end.

(** Sixteen digits. *)
Definition pad16 (name : string) : string := repeat_zero (16 - String.length name) +:+ name.

(** ** Node identifiers *)

Definition NodeIDToString (id : Z) : string := pad16 (FormatUint16 id).

Definition NodeIDFromString (s : string) : option Z := ParseUint16 s.

Definition MustIDFromString (s : string) : result Empty_set Z :=
  match NodeIDFromString s with Some id => Ok id | None => Panic "invalid syntax" end.

(** ** Powers of two *)

Definition smear (n s : Z) : Z := Z.lor n (Z.shiftr n s).

Definition NextPowerOfTwo32 (n : Z) : Z :=
  let n := u32 (n - 1) in
  let n := smear n 1 in
  let n := smear n 2 in
  let n := smear n 4 in
  let n := smear n 8 in
  let n := smear n 16 in
  u32 (n + 1).

(** ** Lemmas *)

Lemma hex_value_digit z : 0 ≤ z < 16 → hex_value (hex_digit z) = Some z.
Proof.
  intros Hz. assert (Hin : z ∈ (Z.of_nat <$> seq 0 16)).
  { apply list_elem_of_fmap. exists (Z.to_nat z). split; [lia|]. apply elem_of_seq. lia. }
  revert z Hz Hin. change (∀ z, 0 ≤ z < 16 → z ∈ [0;1;2;3;4;5;6;7;8;9;10;11;12;13;14;15] →
    hex_value (hex_digit z) = Some z).
  intros z _. rewrite !elem_of_cons, elem_of_nil. intros Hz.
  repeat (destruct Hz as [->|Hz]; [reflexivity|]). done.
Qed.

Lemma parse_hex_app s1 s2 a :
  parse_hex (s1 +:+ s2) a = a' ← parse_hex s1 a; parse_hex s2 a'.
Proof.
  revert a. induction s1 as [|c s1 IH]; intros a; simpl; [done|].
  destruct (hex_value c); [|done]. case_if; [done|apply IH].
Qed.

Lemma string_app_assoc (s1 s2 s3 : string) : (s1 +:+ s2) +:+ s3 = s1 +:+ (s2 +:+ s3).
Proof. induction s1 as [|c s1 IH]; [done|]. exact (f_equal (String c) IH). Qed.

Lemma parse_zeros n s : parse_hex (repeat_zero n +:+ s) 0 = parse_hex s 0.
Proof. induction n as [|n IH]; [done|]. exact IH. Qed.

Lemma format_hex_parse fuel : ∀ id acc,
  (1 ≤ fuel)%nat → 0 ≤ id < 16 ^ Z.of_nat fuel → id ≤ MaxUint64 →
  ∃ s, format_hex fuel id acc = s +:+ acc ∧ parse_hex s 0 = Some id ∧ s ≠ EmptyString.
Proof.
  induction fuel as [|fuel IH]; intros id acc Hf Hid Hmax; [lia|]. cbn [format_hex].
  pose proof (Z.div_mod id 16 ltac:(lia)) as Hdm. pose proof (Z.mod_pos_bound id 16 ltac:(lia)) as Hm.
  pose proof (Z.div_pos id 16 ltac:(lia) ltac:(lia)) as Hd.
  destruct (Z.eqb_spec (id / 16) 0) as [Hz|Hnz].
  - exists (String (hex_digit (id mod 16)) ""). split; [done|]. split; [|done].
    simpl. rewrite hex_value_digit by done.
    destruct (Z.ltb_spec MaxUint64 (0 * 16 + id mod 16)); [lia|]. f_equal. lia.
  - assert (Hpow : 16 ^ Z.of_nat (S fuel) = 16 * 16 ^ Z.of_nat fuel).
    { rewrite Nat2Z.inj_succ, Z.pow_succ_r by lia. done. }
    assert (Hf1 : (1 ≤ fuel)%nat).
    { destruct fuel; [|lia]. change (16 ^ Z.of_nat 1) with 16 in Hid. lia. }
    destruct (IH (id / 16) (String (hex_digit (id mod 16)) acc)) as (s & H1 & H2 & H3); [lia|lia|lia|].
    exists (s +:+ String (hex_digit (id mod 16)) ""). rewrite H1. split_and!.
    + by rewrite string_app_assoc.
    + rewrite parse_hex_app, H2. simpl. rewrite hex_value_digit by done.
      destruct (Z.ltb_spec MaxUint64 (id / 16 * 16 + id mod 16)); [lia|]. f_equal. lia.
    + by destruct s.
Qed.

Lemma pad16_parse id : 0 ≤ id ≤ MaxUint64 → ParseUint16 (pad16 (FormatUint16 id)) = Some id.
Proof.
  intros Hid.
  destruct (format_hex_parse 16 id "") as (s & H1 & H2 & H3); [lia|unfold MaxUint64 in *; lia|lia|].
  unfold pad16, FormatUint16. rewrite H1. set (n := (16 - _)%nat).
  assert (Hs : s +:+ "" = s)
    by (clear; induction s as [|c s IH]; [done|exact (f_equal (String c) IH)]). rewrite Hs.
  assert (Hp : parse_hex (repeat_zero n +:+ s) 0 = Some id) by (by rewrite parse_zeros).
  unfold ParseUint16. destruct n; [by destruct s|]. exact Hp.
Qed.

(** Bit [i] of [x] is set when one of the [k] bits of [m] from [i] on is. *)
Definition smeared (k x m : Z) : Prop :=
  0 ≤ x ∧ ∀ i, 0 ≤ i → Z.testbit x i = true ↔ ∃ j, i ≤ j < i + k ∧ Z.testbit m j = true.

Lemma smear_step k x m : 1 ≤ k → smeared k x m → smeared (2 * k) (smear x k) m.
Proof.
  intros Hk [Hx H]. unfold smear. split.
  { apply Z.lor_nonneg. split; [done|]. by apply Z.shiftr_nonneg. }
  intros i Hi. rewrite Z.lor_spec, Z.shiftr_spec, orb_true_iff, !H by lia. split.
  - intros [(j & Hj & Hb)|(j & Hj & Hb)]; exists j; (split; [lia|done]).
  - intros (j & Hj & Hb). destruct (Z.ltb_spec j (i + k)); [left|right]; exists j; (split; [lia|done]).
Qed.

Lemma smeared_refl m : 0 ≤ m → smeared 1 m m.
Proof.
  intros Hm. split; [done|]. intros i Hi. split; [intros H; exists i; split; [lia|done]|].
  intros (j & Hj & Hb). by replace i with j by lia.
Qed.

(** Smearing over the whole word fills every bit below the highest. *)
Lemma smeared_ones x m : 0 < m < 2 ^ 32 → smeared 32 x m → x = 2 ^ (Z.log2 m + 1) - 1.
Proof.
  intros Hm [Hx H]. pose proof (Z.log2_nonneg m).
  assert (Hlog : Z.log2 m < 32) by (apply Z.log2_lt_pow2; lia).
  replace (2 ^ (Z.log2 m + 1) - 1) with (Z.ones (Z.log2 m + 1)) by (rewrite Z.ones_equiv; lia).
  apply Z.bits_inj'. intros i Hi.
  destruct (Z.ltb_spec i (Z.log2 m + 1)) as [Hlt|Hge].
  - rewrite Z.ones_spec_low by lia. apply H; [done|]. exists (Z.log2 m). split; [lia|].
    apply Z.bit_log2. lia.
  - rewrite Z.ones_spec_high by lia. apply not_true_is_false. rewrite H by done.
    intros (j & Hj & Hb). rewrite Z.bits_above_log2 in Hb by lia. done.
Qed.

Lemma smear_word m :
  0 < m < 2 ^ 32 →
  smear (smear (smear (smear (smear m 1) 2) 4) 8) 16 = 2 ^ (Z.log2 m + 1) - 1.
Proof.
  intros Hm. apply smeared_ones; [done|]. apply (smear_step 16); [lia|].
  apply (smear_step 8); [lia|]. apply (smear_step 4); [lia|]. apply (smear_step 2); [lia|].
  apply (smear_step 1); [lia|]. apply smeared_refl. lia.
Qed.

(** ** Properties *)

(** Node identifiers survive the trip through their string form: parsing the sixteen digits of
    any 64-bit identifier gives it back, without a panic, so two nodes
    never have the same name. *)
Theorem node_id_roundtrip id :
  0 ≤ id ≤ MaxUint64 →
  NodeIDFromString (NodeIDToString id) = Some id ∧ MustIDFromString (NodeIDToString id) = Ok id.
Proof.
  intros Hid. unfold MustIDFromString, NodeIDFromString, NodeIDToString.
  by rewrite pad16_parse.
Qed.

Lemma node_id_roundtrip_witness : MustIDFromString (NodeIDToString 42) = Ok 42.
Proof. apply node_id_roundtrip. split; vm_compute; discriminate. Defined.

(** [NextPowerOfTwo32] rounds up to a power of two: for every [n] from 1 to 2^31 it
    returns the least power of two that is not below [n]; for zero and above 2^31,
    where no 32-bit result exists, it returns zero. *)
Theorem NextPowerOfTwo32_spec n :
  0 ≤ n < 2 ^ 32 →
  (1 ≤ n ≤ 2 ^ 31 →
   ∃ k, 0 ≤ k ≤ 31 ∧ NextPowerOfTwo32 n = 2 ^ k ∧ n ≤ 2 ^ k ∧ ∀ j, 0 ≤ j → n ≤ 2 ^ j → k ≤ j) ∧
  (n = 0 ∨ 2 ^ 31 < n → NextPowerOfTwo32 n = 0).
Proof.
  intros Hn. unfold NextPowerOfTwo32. cbv zeta. split.
  - intros Hr. unfold u32 at 2, wrap. rewrite (Z.mod_small (n - 1)) by lia.
    destruct (decide (n = 1)) as [->|Hne].
    { exists 0. split_and!; [lia|lia|reflexivity|reflexivity|]. intros; lia. }
    rewrite smear_word by lia.
    replace (2 ^ (Z.log2 (n - 1) + 1) - 1 + 1) with (2 ^ (Z.log2 (n - 1) + 1)) by lia.
    pose proof (Z.log2_nonneg (n - 1)). pose proof (Z.log2_spec (n - 1) ltac:(lia)) as Hlog.
    assert (Hk : Z.log2 (n - 1) < 31) by (apply Z.log2_lt_pow2; lia).
    exists (Z.log2 (n - 1) + 1). split_and!; [lia|lia| |unfold Z.succ in Hlog; lia|].
    + unfold u32, wrap. apply Z.mod_small. split; [apply Z.pow_nonneg; lia|].
      apply Z.pow_lt_mono_r; lia.
    + intros j Hj Hnj. destruct (Z.leb_spec (Z.log2 (n - 1) + 1) j); [done|].
      pose proof (Z.pow_le_mono_r 2 j (Z.log2 (n - 1)) ltac:(lia) ltac:(lia)). lia.
  - intros Hr.
    assert (Hu : 2 ^ 31 ≤ u32 (n - 1) < 2 ^ 32).
    { unfold u32, wrap. destruct Hr as [->|Hr]; [done|]. rewrite Z.mod_small by lia. lia. }
    rewrite smear_word by lia.
    replace (Z.log2 (u32 (n - 1))) with 31; [reflexivity|].
    symmetry. apply Z.log2_unique; [lia|]. change (Z.succ 31) with 32. lia.
Qed.

Lemma NextPowerOfTwo32_spec_witness : NextPowerOfTwo32 0 = 0 ∧ NextPowerOfTwo32 1000 = 1024.
Proof.
  split; [|reflexivity]. apply (proj2 (NextPowerOfTwo32_spec 0 ltac:(vm_compute; split; [discriminate|reflexivity]))).
  left. reflexivity.
Defined.
