(* ===== verification/Emq.v ===== *)
(** * Data of the public protocol

    The protocol-buffer values shared by the cluster state, the message
    matcher, the consumer groups and the AMQP codecs: [types.Struct] and
    [types.Value] (message headers, binding headers) and [emq.Message]
    (src/mq/emq/emq.pb.go), the exchange type names of
    src/mq/emq/constants.go, and [reflect.DeepEqual] on header values. *)
From Stdlib Require Import Floats.SpecFloat.
From S2P Require Import Prelude.

(** ** [types.Value] and [types.Struct]

    A Go map is a list of bindings with distinct keys, in the (unspecified)
    order of iteration; [None] is the nil map.  [KindNil] is a value whose
    oneof is unset.  A float64 is a [spec_float]. *)

Inductive Value : Type :=
| KindNil
| NullValue
| NumberValue (NumberValue : spec_float)
| StringValue (StringValue : string)
| BoolValue (BoolValue : bool)
| StructValue (StructValue : option Struct)
| ListValue (Values : option (list Value))
with Struct : Type :=
| MkStruct (Fields : option (list (string * Value))).

Definition Fields (s : Struct) : option (list (string * Value)) :=
  match s with MkStruct f => f end.

(** [m[k]] on a Go map. *)
Definition map_get {A} (k : string) (m : list (string * A)) : option A :=
  snd ∘ snd <$> find_first (λ p, String.eqb (fst p) k) m.

(** [reflect.DeepEqual] on header values: numbers are compared with [==] (a NaN
    equals nothing), nil and empty maps differ, maps are equal when they have
    the same length and every key of the first is bound to an equal value. *)
Fixpoint DeepEqual (x y : Value) {struct x} : bool :=
  match x, y with
  | KindNil, KindNil => true
  | NullValue, NullValue => true
  | NumberValue a, NumberValue b => SFeqb a b
  | StringValue a, StringValue b => String.eqb a b
  | BoolValue a, BoolValue b => Bool.eqb a b
  | StructValue None, StructValue None => true
  | StructValue (Some a), StructValue (Some b) => DeepEqualStruct a b
  | ListValue None, ListValue None => true
  | ListValue (Some a), ListValue (Some b) =>
    (fix go (a b : list Value) : bool :=
      match a, b with
      | [], [] => true
      | x :: a, y :: b => DeepEqual x y && go a b
      | _, _ => false
      end) a b
  | _, _ => false
  end
with DeepEqualStruct (x y : Struct) {struct x} : bool :=
  match x, y with
  | MkStruct None, MkStruct None => true
  | MkStruct (Some a), MkStruct (Some b) =>
    (length a =? length b)%nat &&
    (fix go (a : list (string * Value)) : bool :=
      match a with
      | [] => true
      | (k, v) :: a =>
        match map_get k b with
        | Some w => DeepEqual v w
        | None => false
        end && go a
      end) a
  | _, _ => false
  end.

(** ** [emq.Message] *)

Record Message_Properties : Type := {
  ContentType : string;
  ContentEncoding : string;
  DeliveryMode : Z;
  Priority : Z;
  CorrelationID : string;
  ReplyTo : string;
  Expiration : string;
  MessageID : string;
  Timestamp : Z;
  MsgType : string;
  UserID : string;
  AppID : string;
  To : string;
  GroupID : string;
  GroupSequence : Z;
  ReplyToGroupID : string;
}.

Record EmqMessage : Type := {
  RoutingKey : string;
  Properties : option Message_Properties;
  Headers : option Struct;
  Data : list Z;
}.

(** ** Constants *)

Definition ExchangeTypeDirect : string := "direct".
Definition ExchangeTypeFanout : string := "fanout".
Definition ExchangeTypeTopic : string := "topic".
Definition ExchangeTypeHeaders : string := "headers".
Definition DefaultNamespace : string := "default".

(** ** Lemmas *)

Lemma map_get_Some {A} k (m : list (string * A)) v :
  map_get k m = Some v → (k, v) ∈ m.
Proof.
  unfold map_get. rewrite fmap_Some. intros ([i [k' v']] & Hf & ->).
  apply find_first_lookup in Hf as [Hi Hk]. simpl in *. bool_to_prop. subst.
  by eapply list_elem_of_lookup_2.
Qed.

Lemma map_get_None {A} k (m : list (string * A)) :
  map_get k m = None ↔ k ∉ m.*1.
Proof.
  unfold map_get. rewrite fmap_None, find_first_None. split.
  - intros H (p & -> & Hp)%list_elem_of_fmap. specialize (H p Hp).
    rewrite String.eqb_refl in H. done.
  - intros H p Hp. destruct (String.eqb_spec p.1 k); [|done]. subst.
    destruct H. by apply list_elem_of_fmap_2.
Qed.

Lemma map_get_NoDup {A} k (m : list (string * A)) v :
  NoDup m.*1 → (k, v) ∈ m → map_get k m = Some v.
Proof.
  intros Hn Hin. destruct (map_get k m) as [w|] eqn:E.
  - apply map_get_Some in E. f_equal.
    apply list_elem_of_lookup in Hin as [i Hi]. apply list_elem_of_lookup in E as [j Hj].
    assert (i = j) as ->.
    { eapply NoDup_lookup; [done|..]; rewrite list_lookup_fmap, ?Hi, ?Hj; done. }
    congruence.
  - apply map_get_None in E. destruct E. by apply (list_elem_of_fmap_2 fst) in Hin.
Qed.
