(* ===== verification/ClusterState.v ===== *)
(** * The replicated cluster state: data and queries

    Models src/mq/cluster_state.proto (and the structures generated from it in
    src/mq/cluster_state.pb.go) and src/mq/cluster_state_queries.go.  Slices of
    pointers are lists of values: the code never mutates a structure that is
    reachable from a published state, it copies before it writes.  Times are
    nanoseconds since Go's zero time, so [IsZero] is [= 0]; a [uint64] is a [Z]. *)
From S2P Require Import Prelude Emq.

(** ** Data

    An enum of proto3 is open: the last constructor stands for the numbers that
    have no name. *)

Inductive ClusterSegment_Type : Type :=
| ClusterSegment_INVALID
| ClusterSegment_TOPIC
| ClusterSegment_CONSUMER_GROUP_OFFSET_COMMITS
| ClusterSegment_Type_other (n : Z).

Inductive ClusterNode_State : Type :=
| ClusterNode_DEAD
| ClusterNode_ALIVE
| ClusterNode_State_other (n : Z).

Inductive Which : Type :=
| Which_INVALID
| Which_OPEN
| Which_CLOSED
| Which_other (n : Z).

#[export] Instance ClusterSegment_Type_eq_dec : EqDecision ClusterSegment_Type.
Proof. solve_decision. Defined.
#[export] Instance ClusterNode_State_eq_dec : EqDecision ClusterNode_State.
Proof. solve_decision. Defined.

Inductive Binding_By : Type :=
| By_nil
| By_RoutingKey (RoutingKey : string)
| By_HeadersAll (HeadersAll : option Struct)
| By_HeadersAny (HeadersAny : option Struct).

Record ClusterConsumerGroup_Binding : Type := {
  b_TopicName : string;
  b_ExchangeType : string;
  b_By : Binding_By;
}.

Record ClusterConsumerGroup_OffsetCommit : Type := {
  oc_SegmentID : Z;
  oc_Offset : Z;
}.

Record ClusterConsumerGroup : Type := {
  cg_Name : string;
  cg_Bindings : list ClusterConsumerGroup_Binding;
  cg_Size : Z;
  cg_Since : Z;
  cg_OffsetCommits : list ClusterConsumerGroup_OffsetCommit;
}.

Record ClusterTopic : Type := {
  topic_Name : string;
  topic_Shards : Z;
  topic_ReplicationFactor : Z;
  topic_Retention : Z;
  topic_DefaultExchangeType : string;
}.

Record ClusterNamespace : Type := {
  ns_Name : string;
  ns_Topics : list ClusterTopic;
  ns_ConsumerGroups : list ClusterConsumerGroup;
}.

Record ClusterSegment_Nodes : Type := {
  PrimaryNodeID : Z;
  DoneNodeIDs : list Z;
  ReplicatingNodeIDs : list Z;
}.

Record ClusterSegment : Type := {
  seg_ID : Z;
  seg_Type : ClusterSegment_Type;
  seg_OwnerNamespace : string;
  seg_OwnerName : string;
  seg_Generation : Z;
  seg_Shard : Z;
  seg_CreatedAt : Z;
  seg_ClosedAt : Z;
  seg_Nodes : ClusterSegment_Nodes;
  seg_Size : Z;
  seg_Sha1 : list Z;
}.

Record ClusterNode : Type := {
  node_ID : Z;
  node_Address : string;
  node_State : ClusterNode_State;
  node_LastSeenAlive : option Z;
}.

Record ClusterState : Type := {
  Index : Z;
  CurrentSegmentID : Z;
  Namespaces : list ClusterNamespace;
  OpenSegments : list ClusterSegment;
  ClosedSegments : list ClusterSegment;
  Nodes : list ClusterNode;
}.

#[export] Instance ClusterSegment_Nodes_eq_dec : EqDecision ClusterSegment_Nodes.
Proof. solve_decision. Defined.
#[export] Instance ClusterSegment_eq_dec : EqDecision ClusterSegment.
Proof. solve_decision. Defined.
#[export] Instance ClusterNode_eq_dec : EqDecision ClusterNode.
Proof. solve_decision. Defined.
#[export] Instance OffsetCommit_eq_dec : EqDecision ClusterConsumerGroup_OffsetCommit.
Proof. solve_decision. Defined.

(** ** Queries *)

Definition FindNamespace (s : ClusterState) (name : string) : option (nat * ClusterNamespace) :=
  find_first (λ namespace, String.eqb (ns_Name namespace) name) (Namespaces s).

Definition FindTopic (n : ClusterNamespace) (name : string) : option (nat * ClusterTopic) :=
  find_first (λ topic, String.eqb (topic_Name topic) name) (ns_Topics n).

Definition FindConsumerGroup (n : ClusterNamespace) (name : string) :
    option (nat * ClusterConsumerGroup) :=
  find_first (λ cg, String.eqb (cg_Name cg) name) (ns_ConsumerGroups n).

Definition ListTopics (n : ClusterNamespace) (topicName : string) : list ClusterTopic :=
  if String.eqb topicName "" then ns_Topics n
  else match FindTopic n topicName with
       | None => []
       | Some (_, topic) => [topic]
       end.

Definition ListConsumerGroups (n : ClusterNamespace) (consumerGroupName : string) :
    list ClusterConsumerGroup :=
  if String.eqb consumerGroupName "" then ns_ConsumerGroups n
  else match FindConsumerGroup n consumerGroupName with
       | None => []
       | Some (_, cg) => [cg]
       end.

Definition AnyConsumerGroupReferencesTopic (n : ClusterNamespace) (topicName : string) : bool :=
  existsb (λ cg, existsb (λ b, String.eqb (b_TopicName b) topicName) (cg_Bindings cg))
    (ns_ConsumerGroups n).

Definition TopicExists (s : ClusterState) (namespaceName topicName : string) : bool :=
  match FindNamespace s namespaceName with
  | None => false
  | Some (_, namespace) =>
    match FindTopic namespace topicName with None => false | Some _ => true end
  end.

Definition GetTopic (s : ClusterState) (namespaceName topicName : string) :
    option ClusterTopic :=
  match FindNamespace s namespaceName with
  | None => None
  | Some (_, namespace) => snd <$> FindTopic namespace topicName
  end.

Definition ConsumerGroupExists (s : ClusterState) (namespaceName consumerGroupName : string) :
    bool :=
  match FindNamespace s namespaceName with
  | None => false
  | Some (_, namespace) =>
    match FindConsumerGroup namespace consumerGroupName with None => false | Some _ => true end
  end.

Definition GetConsumerGroup (s : ClusterState) (namespaceName consumerGroupName : string) :
    option ClusterConsumerGroup :=
  match FindNamespace s namespaceName with
  | None => None
  | Some (_, namespace) => snd <$> FindConsumerGroup namespace consumerGroupName
  end.

(** [segment.Type == t && segment.OwnerNamespace == ns && segment.OwnerName == name] *)
Definition owned_by (t : ClusterSegment_Type) (ns name : string) (segment : ClusterSegment) :
    bool :=
  bool_decide (seg_Type segment = t) && String.eqb (seg_OwnerNamespace segment) ns &&
  String.eqb (seg_OwnerName segment) name.

Definition FindOpenSegmentsFor (s : ClusterState) (segmentType : ClusterSegment_Type)
    (namespaceName name : string) : list ClusterSegment :=
  List.filter (owned_by segmentType namespaceName name) (OpenSegments s).

Definition FindOpenSegmentsIn (s : ClusterState) (nodeID : Z) : list ClusterSegment :=
  List.filter (λ segment, PrimaryNodeID (seg_Nodes segment) =? nodeID) (OpenSegments s).

(** [i := sort.Search(len(l), func(i int) bool { return l[i].ID >= id })] followed
    by [i < len(l) && l[i].ID == id]: index and element, if found. *)
Definition search_segment (l : list ClusterSegment) (id : Z) : option (nat * ClusterSegment) :=
  let i := sort_Search (length l)
             (λ i, match l !! i with Some seg => id <=? seg_ID seg | None => true end) in
  match l !! i with
  | Some seg => if seg_ID seg =? id then Some (i, seg) else None
  | None => None
  end.

Definition GetOpenSegment (s : ClusterState) (id : Z) : option ClusterSegment :=
  snd <$> search_segment (OpenSegments s) id.

Definition GetClosedSegment (s : ClusterState) (id : Z) : option ClusterSegment :=
  snd <$> search_segment (ClosedSegments s) id.

Definition GetSegment (s : ClusterState) (id : Z) : option ClusterSegment :=
  match GetOpenSegment s id with
  | Some segment => Some segment
  | None =>
    match GetClosedSegment s id with
    | Some segment => Some segment
    | None => None
    end
  end.

(** [m[k]++] on a [map[uint64]int] *)
Definition incr (k : Z) (m : gmap Z Z) : gmap Z Z := <[k := default 0 (m !! k) + 1]> m.

Definition count_segment (m : gmap Z Z) (segment : ClusterSegment) : gmap Z Z :=
  let nodes := seg_Nodes segment in
  let m := if 0 <? PrimaryNodeID nodes then incr (PrimaryNodeID nodes) m else m in
  let m := foldl (λ m nodeID, incr nodeID m) m (ReplicatingNodeIDs nodes) in
  foldl (λ m nodeID, incr nodeID m) m (DoneNodeIDs nodes).

Definition CountSegmentsPerNode (s : ClusterState) : gmap Z Z :=
  foldl (foldl count_segment) ∅ [OpenSegments s; ClosedSegments s].

Definition GetNode (s : ClusterState) (nodeID : Z) : option ClusterNode :=
  snd <$> find_first (λ node, node_ID node =? nodeID) (Nodes s).

(** ** Binary search agrees with linear search *)

Lemma search_segment_Some l id i seg :
  search_segment l id = Some (i, seg) → l !! i = Some seg ∧ seg_ID seg = id.
Proof.
  unfold search_segment. destruct (l !! _) as [seg'|] eqn:E; [|done].
  case_if; [|done]. bool_to_prop. intros H. by simplify_eq.
Qed.

Lemma search_segment_complete l id i seg :
  sorted_by seg_ID l → l !! i = Some seg → seg_ID seg = id →
  search_segment l id = Some (i, seg).
Proof.
  intros Hs Hi <-. unfold search_segment.
  set (f := λ i, match l !! i with Some s => seg_ID seg <=? seg_ID s | None => true end).
  destruct (sort_Search_spec (length l) f) as (H1 & H2 & H3).
  { intros a b Hab Hb. unfold f.
    destruct (lookup_lt_is_Some_2 l b Hb) as [y Hy].
    destruct (lookup_lt_is_Some_2 l a ltac:(lia)) as [x Hx]. rewrite Hx, Hy.
    intros Hle. bool_to_prop. apply Z.leb_le.
    destruct (decide (a = b)) as [->|]; [congruence|].
    pose proof (sorted_by_lookup_lt seg_ID l a b x y Hs Hx Hy ltac:(lia)). lia. }
  set (r := sort_Search (length l) f) in *.
  assert (Hil : (i < length l)%nat) by (by eapply lookup_lt_Some).
  assert (Hri : (r ≤ i)%nat).
  { destruct (decide (r ≤ i)%nat); [done|]. specialize (H2 i ltac:(lia)).
    unfold f in H2. rewrite Hi in H2. bool_to_prop. lia. }
  specialize (H3 ltac:(lia)).
  destruct (lookup_lt_is_Some_2 l r ltac:(lia)) as [y Hy].
  unfold f in H3. rewrite Hy in H3. bool_to_prop.
  assert (r = i) as Hr.
  { destruct (decide (r = i)); [done|].
    pose proof (sorted_by_lookup_lt seg_ID l r i y seg Hs Hy Hi ltac:(lia)). lia. }
  rewrite Hr, Hi, Z.eqb_refl. done.
Qed.

Lemma search_segment_linear l id :
  sorted_by seg_ID l → search_segment l id = find_first (λ s, seg_ID s =? id) l.
Proof.
  intros Hs. destruct (find_first _ l) as [[i seg]|] eqn:E.
  - apply find_first_lookup in E as [Hi He]. bool_to_prop.
    by apply search_segment_complete.
  - destruct (search_segment l id) as [[i seg]|] eqn:E2; [|done].
    apply search_segment_Some in E2 as [Hi He]. rewrite find_first_None in E.
    specialize (E seg (list_elem_of_lookup_2 _ _ _ Hi)). bool_to_prop. lia.
Qed.

Lemma search_segment_None l id :
  sorted_by seg_ID l → search_segment l id = None ↔ id ∉ seg_ID <$> l.
Proof.
  intros Hs. rewrite search_segment_linear, find_first_None by done. split.
  - intros H (x & -> & Hx)%list_elem_of_fmap. specialize (H x Hx). bool_to_prop. lia.
  - intros H x Hx. apply Z.eqb_neq. intros <-. apply H. by apply list_elem_of_fmap_2.
Qed.

Lemma owned_by_true t ns name seg :
  owned_by t ns name seg = true ↔
  seg_Type seg = t ∧ seg_OwnerNamespace seg = ns ∧ seg_OwnerName seg = name.
Proof.
  unfold owned_by. rewrite !andb_true_iff, bool_decide_eq_true, !String.eqb_eq. tauto.
Qed.
