(* ===== verification/ClusterOps.v ===== *)
(** * The replicated cluster state: commands

    Models src/mq/cluster_state_do_namespaces.go, cluster_state_do_topics.go,
    cluster_state_do_consumer_groups.go, cluster_state_do_segments.go,
    cluster_state_do_nodes.go (one definition per method) and
    src/mq/cluster_state_store.go ([Do], the dispatch of the replicated state
    machine, and [NextSegmentID]).  Every method copies the state it changes, so a method
    is a function from the old state to the new one; [Panic] is the code's
    [panic] or a nil dereference. *)
From S2P Require Import Prelude Emq ClusterState.

(** ** Commands *)

Record ClusterCommandNamespaceCreate : Type := { nc_Namespace : string }.

Record ClusterCommandNamespaceDelete : Type := { nd_Namespace : string }.

Record ClusterCommandTopicCreate : Type := {
  tc_Namespace : string;
  tc_Topic : option ClusterTopic;
}.

Record ClusterCommandTopicDelete : Type := {
  td_Namespace : string;
  td_Name : string;
}.

Record ClusterCommandConsumerGroupCreate : Type := {
  cgc_Namespace : string;
  cgc_ConsumerGroup : option ClusterConsumerGroup;
}.

Record ClusterCommandConsumerGroupDelete : Type := {
  cgd_Namespace : string;
  cgd_Name : string;
}.

Record ClusterCommandConsumerGroupOffsetCommitsUpdate : Type := {
  ocu_Namespace : string;
  ocu_Name : string;
  ocu_OffsetCommits : list ClusterConsumerGroup_OffsetCommit;
}.

Record ClusterCommandSegmentCreate : Type := {
  sc_ID : Z;
  sc_Type : ClusterSegment_Type;
  sc_OwnerNamespace : string;
  sc_OwnerName : string;
  sc_Generation : Z;
  sc_Shard : Z;
  sc_OpenedAt : Z;
  sc_PrimaryNodeID : Z;
  sc_ReplicatingNodeIDs : list Z;
}.

Record ClusterCommandSegmentClose : Type := {
  scl_ID : Z;
  scl_DoneNodeID : Z;
  scl_ClosedAt : Z;
  scl_Size : Z;
  scl_Sha1 : list Z;
}.

Record ClusterCommandNodeUpdate : Type := {
  nu_ID : Z;
  nu_Address : string;
  nu_State : ClusterNode_State;
  nu_LastSeenAlive : option Z;
}.

Record ClusterCommandSegmentNodesUpdate : Type := {
  snu_ID : Z;
  snu_Which : Which;
  snu_Nodes : ClusterSegment_Nodes;
}.

Record ClusterCommandSegmentDelete : Type := {
  sd_ID : Z;
  sd_Which : Which;
}.

Inductive ClusterCommand : Type :=
| CreateNamespace (cmd : ClusterCommandNamespaceCreate)
| DeleteNamespace (cmd : ClusterCommandNamespaceDelete)
| CreateTopic (cmd : ClusterCommandTopicCreate)
| DeleteTopic (cmd : ClusterCommandTopicDelete)
| CreateConsumerGroup (cmd : ClusterCommandConsumerGroupCreate)
| DeleteConsumerGroup (cmd : ClusterCommandConsumerGroupDelete)
| UpdateConsumerGroupOffsetCommits (cmd : ClusterCommandConsumerGroupOffsetCommitsUpdate)
| CreateSegment (cmd : ClusterCommandSegmentCreate)
| DeleteSegment (cmd : ClusterCommandSegmentDelete)
| CloseSegment (cmd : ClusterCommandSegmentClose)
| UpdateSegmentNodes (cmd : ClusterCommandSegmentNodesUpdate)
| UpdateNode (cmd : ClusterCommandNodeUpdate)
| UnsetCommand.

(** A method of the state machine has no error result, it can only panic. *)
Abbreviation fsm := (result Empty_set).

(** ** Field updates *)

Definition with_Index (s : ClusterState) (i : Z) : ClusterState :=
  {| Index := i; CurrentSegmentID := CurrentSegmentID s; Namespaces := Namespaces s;
     OpenSegments := OpenSegments s; ClosedSegments := ClosedSegments s; Nodes := Nodes s |}.

Definition with_CurrentSegmentID (s : ClusterState) (id : Z) : ClusterState :=
  {| Index := Index s; CurrentSegmentID := id; Namespaces := Namespaces s;
     OpenSegments := OpenSegments s; ClosedSegments := ClosedSegments s; Nodes := Nodes s |}.

Definition with_Namespaces (s : ClusterState) (l : list ClusterNamespace) : ClusterState :=
  {| Index := Index s; CurrentSegmentID := CurrentSegmentID s; Namespaces := l;
     OpenSegments := OpenSegments s; ClosedSegments := ClosedSegments s; Nodes := Nodes s |}.

Definition with_OpenSegments (s : ClusterState) (l : list ClusterSegment) : ClusterState :=
  {| Index := Index s; CurrentSegmentID := CurrentSegmentID s; Namespaces := Namespaces s;
     OpenSegments := l; ClosedSegments := ClosedSegments s; Nodes := Nodes s |}.

Definition with_ClosedSegments (s : ClusterState) (l : list ClusterSegment) : ClusterState :=
  {| Index := Index s; CurrentSegmentID := CurrentSegmentID s; Namespaces := Namespaces s;
     OpenSegments := OpenSegments s; ClosedSegments := l; Nodes := Nodes s |}.

Definition with_Nodes (s : ClusterState) (l : list ClusterNode) : ClusterState :=
  {| Index := Index s; CurrentSegmentID := CurrentSegmentID s; Namespaces := Namespaces s;
     OpenSegments := OpenSegments s; ClosedSegments := ClosedSegments s; Nodes := l |}.

Definition with_Topics (n : ClusterNamespace) (l : list ClusterTopic) : ClusterNamespace :=
  {| ns_Name := ns_Name n; ns_Topics := l; ns_ConsumerGroups := ns_ConsumerGroups n |}.

Definition with_ConsumerGroups (n : ClusterNamespace) (l : list ClusterConsumerGroup) :
    ClusterNamespace :=
  {| ns_Name := ns_Name n; ns_Topics := ns_Topics n; ns_ConsumerGroups := l |}.

Definition with_SegNodes (seg : ClusterSegment) (nodes : ClusterSegment_Nodes) :
    ClusterSegment :=
  {| seg_ID := seg_ID seg; seg_Type := seg_Type seg;
     seg_OwnerNamespace := seg_OwnerNamespace seg; seg_OwnerName := seg_OwnerName seg;
     seg_Generation := seg_Generation seg; seg_Shard := seg_Shard seg;
     seg_CreatedAt := seg_CreatedAt seg; seg_ClosedAt := seg_ClosedAt seg;
     seg_Nodes := nodes; seg_Size := seg_Size seg; seg_Sha1 := seg_Sha1 seg |}.

(** ** Namespaces *)

Definition doCreateNamespace (s : ClusterState) (cmd : ClusterCommandNamespaceCreate) :
    ClusterState :=
  match FindNamespace s (nc_Namespace cmd) with
  | Some _ => s
  | None =>
    with_Namespaces s
      (Namespaces s ++
       [{| ns_Name := nc_Namespace cmd; ns_Topics := []; ns_ConsumerGroups := [] |}])
  end.

Definition doDeleteNamespace (s : ClusterState) (cmd : ClusterCommandNamespaceDelete) :
    ClusterState :=
  match FindNamespace s (nd_Namespace cmd) with
  | None => s
  | Some (namespaceIndex, _) => with_Namespaces s (remove_at namespaceIndex (Namespaces s))
  end.

(** ** Topics *)

Definition doCreateTopic (s : ClusterState) (cmd : ClusterCommandTopicCreate) :
    fsm ClusterState :=
  match FindNamespace s (tc_Namespace cmd) with
  | None => Panic "namespace must exist"
  | Some (namespaceIndex, namespace) =>
    match tc_Topic cmd with
    | None => Panic "nil dereference"
    | Some cmdTopic =>
      let nextTopic := λ name,
        {| topic_Name := name;
           topic_Shards := topic_Shards cmdTopic;
           topic_ReplicationFactor := topic_ReplicationFactor cmdTopic;
           topic_Retention := topic_Retention cmdTopic;
           topic_DefaultExchangeType := topic_DefaultExchangeType cmdTopic |} in
      let nextTopics :=
        match FindTopic namespace (topic_Name cmdTopic) with
        | None => ns_Topics namespace ++ [nextTopic (topic_Name cmdTopic)]
        | Some (topicIndex, topic) =>
          <[topicIndex := nextTopic (topic_Name topic)]> (ns_Topics namespace)
        end in
      Ok (with_Namespaces s
            (<[namespaceIndex := with_Topics namespace nextTopics]> (Namespaces s)))
    end
  end.

(** [segment == nil || (segment.Type == TOPIC && ...)]: the offset commit goes. *)
Definition commit_of_topic (s : ClusterState) (ns name : string)
    (commit : ClusterConsumerGroup_OffsetCommit) : bool :=
  match GetSegment s (oc_SegmentID commit) with
  | None => true
  | Some segment => owned_by ClusterSegment_TOPIC ns name segment
  end.

(** One iteration of the loop over the namespace's consumer groups: the next
    consumer group and whether it changed. *)
Definition unbind_consumer_group (s : ClusterState) (cmd : ClusterCommandTopicDelete)
    (cg : ClusterConsumerGroup) : bool * ClusterConsumerGroup :=
  let refers := λ binding, String.eqb (b_TopicName binding) (td_Name cmd) in
  let gone := commit_of_topic s (td_Namespace cmd) (td_Name cmd) in
  let changed :=
    existsb refers (cg_Bindings cg) || existsb gone (cg_OffsetCommits cg) in
  if changed then
    (true,
     {| cg_Name := cg_Name cg;
        cg_Bindings := List.filter (λ b, negb (refers b)) (cg_Bindings cg);
        cg_Size := cg_Size cg;
        cg_Since := cg_Since cg;
        cg_OffsetCommits := List.filter (λ c, negb (gone c)) (cg_OffsetCommits cg) |})
  else (false, cg).

(** [for segment := range l { if drop(segment) { changed = true } else { append } }],
    keeping the old slice when nothing was dropped. *)
Definition drop_segments (drop : ClusterSegment → bool) (l : list ClusterSegment) :
    list ClusterSegment :=
  if existsb drop l then List.filter (λ seg, negb (drop seg)) l else l.

Definition doDeleteTopic (s : ClusterState) (cmd : ClusterCommandTopicDelete) :
    fsm ClusterState :=
  match FindNamespace s (td_Namespace cmd) with
  | None => Panic "namespace must exist"
  | Some (namespaceIndex, namespace) =>
    match FindTopic namespace (td_Name cmd) with
    | None => Ok s
    | Some (topicIndex, _) =>
      let groups := unbind_consumer_group s cmd <$> ns_ConsumerGroups namespace in
      let nextNamespace :=
        {| ns_Name := ns_Name namespace;
           ns_Topics := remove_at topicIndex (ns_Topics namespace);
           ns_ConsumerGroups :=
             if existsb fst groups then groups.*2 else ns_ConsumerGroups namespace |} in
      let drop := owned_by ClusterSegment_TOPIC (td_Namespace cmd) (td_Name cmd) in
      let next := with_Namespaces s (<[namespaceIndex := nextNamespace]> (Namespaces s)) in
      let next := with_OpenSegments next (drop_segments drop (OpenSegments s)) in
      Ok (with_ClosedSegments next (drop_segments drop (ClosedSegments s)))
    end
  end.

(** ** Consumer groups *)

Definition doCreateConsumerGroup (s : ClusterState) (cmd : ClusterCommandConsumerGroupCreate) :
    fsm ClusterState :=
  match FindNamespace s (cgc_Namespace cmd) with
  | None => Panic "namespace must exist"
  | Some (namespaceIndex, namespace) =>
    match cgc_ConsumerGroup cmd with
    | None => Panic "nil dereference"
    | Some cmdGroup =>
      let nextGroup := λ name commits,
        {| cg_Name := name;
           cg_Bindings := cg_Bindings cmdGroup;
           cg_Size := cg_Size cmdGroup;
           cg_Since := cg_Since cmdGroup;
           cg_OffsetCommits := commits |} in
      let nextGroups :=
        match FindConsumerGroup namespace (cg_Name cmdGroup) with
        | None => ns_ConsumerGroups namespace ++ [nextGroup (cg_Name cmdGroup) []]
        | Some (cgIndex, cg) =>
          <[cgIndex := nextGroup (cg_Name cg) (cg_OffsetCommits cg)]>
            (ns_ConsumerGroups namespace)
        end in
      Ok (with_Namespaces s
            (<[namespaceIndex := with_ConsumerGroups namespace nextGroups]> (Namespaces s)))
    end
  end.

Definition doDeleteConsumerGroup (s : ClusterState) (cmd : ClusterCommandConsumerGroupDelete) :
    fsm ClusterState :=
  match FindNamespace s (cgd_Namespace cmd) with
  | None => Panic "namespace must exist"
  | Some (namespaceIndex, namespace) =>
    match FindConsumerGroup namespace (cgd_Name cmd) with
    | None => Ok s
    | Some (cgIndex, _) =>
      let nextNamespace :=
        with_ConsumerGroups namespace (remove_at cgIndex (ns_ConsumerGroups namespace)) in
      let drop := owned_by ClusterSegment_CONSUMER_GROUP_OFFSET_COMMITS
                    (cgd_Namespace cmd) (cgd_Name cmd) in
      let next := with_Namespaces s (<[namespaceIndex := nextNamespace]> (Namespaces s)) in
      let next := with_OpenSegments next (drop_segments drop (OpenSegments s)) in
      Ok (with_ClosedSegments next (drop_segments drop (ClosedSegments s)))
    end
  end.

Definition with_OffsetCommits (cg : ClusterConsumerGroup)
    (l : list ClusterConsumerGroup_OffsetCommit) : ClusterConsumerGroup :=
  {| cg_Name := cg_Name cg; cg_Bindings := cg_Bindings cg; cg_Size := cg_Size cg;
     cg_Since := cg_Since cg; cg_OffsetCommits := l |}.

Definition doUpdateOffsetCommits (s : ClusterState)
    (cmd : ClusterCommandConsumerGroupOffsetCommitsUpdate) : fsm ClusterState :=
  match FindNamespace s (ocu_Namespace cmd) with
  | None => Panic "namespace must exist"
  | Some (namespaceIndex, namespace) =>
    match FindConsumerGroup namespace (ocu_Name cmd) with
    | None => Ok s
    | Some (cgIndex, cg) =>
      let nextGroup := with_OffsetCommits cg (sort_by oc_SegmentID (ocu_OffsetCommits cmd)) in
      let nextNamespace :=
        with_ConsumerGroups namespace (<[cgIndex := nextGroup]> (ns_ConsumerGroups namespace)) in
      Ok (with_Namespaces s (<[namespaceIndex := nextNamespace]> (Namespaces s)))
    end
  end.

(** ** Segments *)

Definition new_segment (cmd : ClusterCommandSegmentCreate) : ClusterSegment :=
  {| seg_ID := sc_ID cmd; seg_Type := sc_Type cmd;
     seg_OwnerNamespace := sc_OwnerNamespace cmd; seg_OwnerName := sc_OwnerName cmd;
     seg_Generation := sc_Generation cmd; seg_Shard := sc_Shard cmd;
     seg_CreatedAt := sc_OpenedAt cmd; seg_ClosedAt := 0;
     seg_Nodes := {| PrimaryNodeID := sc_PrimaryNodeID cmd; DoneNodeIDs := [];
                     ReplicatingNodeIDs := sc_ReplicatingNodeIDs cmd |};
     seg_Size := 0; seg_Sha1 := [] |}.

Definition doOpenSegment (s : ClusterState) (cmd : ClusterCommandSegmentCreate) :
    ClusterState :=
  let next := if CurrentSegmentID s <? sc_ID cmd then with_CurrentSegmentID s (sc_ID cmd)
              else s in
  with_OpenSegments next (sort_by seg_ID (OpenSegments s ++ [new_segment cmd])).

Definition close_segment (seg : ClusterSegment) (cmd : ClusterCommandSegmentClose) :
    ClusterSegment :=
  {| seg_ID := seg_ID seg; seg_Type := seg_Type seg;
     seg_OwnerNamespace := seg_OwnerNamespace seg; seg_OwnerName := seg_OwnerName seg;
     seg_Generation := seg_Generation seg; seg_Shard := seg_Shard seg;
     seg_CreatedAt := seg_CreatedAt seg; seg_ClosedAt := scl_ClosedAt cmd;
     seg_Nodes := {| PrimaryNodeID := 0; DoneNodeIDs := [scl_DoneNodeID cmd];
                     ReplicatingNodeIDs := ReplicatingNodeIDs (seg_Nodes seg) |};
     seg_Size := scl_Size cmd; seg_Sha1 := scl_Sha1 cmd |}.

Definition doCloseSegment (s : ClusterState) (cmd : ClusterCommandSegmentClose) :
    ClusterState :=
  match find_first (λ seg, seg_ID seg =? scl_ID cmd) (OpenSegments s) with
  | None => s
  | Some (segmentIndex, segment) =>
    let next := with_OpenSegments s (remove_at segmentIndex (OpenSegments s)) in
    with_ClosedSegments next
      (sort_by seg_ID (ClosedSegments s ++ [close_segment segment cmd]))
  end.

Definition doUpdateSegmentNodesIn (segments : list ClusterSegment) (segmentIndex : nat)
    (segment : ClusterSegment) (cmd : ClusterCommandSegmentNodesUpdate) : list ClusterSegment :=
  <[segmentIndex := with_SegNodes segment (snu_Nodes cmd)]> segments.

Definition doUpdateSegmentNodes (s : ClusterState) (cmd : ClusterCommandSegmentNodesUpdate) :
    fsm ClusterState :=
  match snu_Which cmd with
  | Which_OPEN =>
    match search_segment (OpenSegments s) (snu_ID cmd) with
    | Some (i, seg) =>
      Ok (with_OpenSegments s (doUpdateSegmentNodesIn (OpenSegments s) i seg cmd))
    | None => Ok s
    end
  | Which_CLOSED =>
    match search_segment (ClosedSegments s) (snu_ID cmd) with
    | Some (i, seg) =>
      Ok (with_ClosedSegments s (doUpdateSegmentNodesIn (ClosedSegments s) i seg cmd))
    | None => Ok s
    end
  | _ => Panic "unhandled which"
  end.

Definition doDeleteSegment (s : ClusterState) (cmd : ClusterCommandSegmentDelete) :
    fsm ClusterState :=
  match sd_Which cmd with
  | Which_OPEN =>
    match search_segment (OpenSegments s) (sd_ID cmd) with
    | Some (i, _) => Ok (with_OpenSegments s (remove_at i (OpenSegments s)))
    | None => Ok s
    end
  | Which_CLOSED =>
    match search_segment (ClosedSegments s) (sd_ID cmd) with
    | Some (i, _) => Ok (with_ClosedSegments s (remove_at i (ClosedSegments s)))
    | None => Ok s
    end
  | _ => Panic "unhandled which"
  end.

(** ** Nodes *)

Definition doUpdateNode (s : ClusterState) (cmd : ClusterCommandNodeUpdate) : ClusterState :=
  let nextNode := {| node_ID := nu_ID cmd; node_Address := nu_Address cmd;
                     node_State := nu_State cmd;
                     node_LastSeenAlive := nu_LastSeenAlive cmd |} in
  let nextNodes :=
    match find_first (λ node, node_ID node =? nu_ID cmd) (Nodes s) with
    | None => Nodes s ++ [nextNode]
    | Some (nodeIndex, _) => <[nodeIndex := nextNode]> (Nodes s)
    end in
  with_Nodes s (sort_by node_ID nextNodes).

(** ** The store *)

(** The [switch] of [Do]. *)
Definition do_command (s : ClusterState) (cmd : ClusterCommand) : fsm ClusterState :=
  match cmd with
  | CreateNamespace cmd => Ok (doCreateNamespace s cmd)
  | DeleteNamespace cmd => Ok (doDeleteNamespace s cmd)
  | CreateTopic cmd => doCreateTopic s cmd
  | DeleteTopic cmd => doDeleteTopic s cmd
  | CreateConsumerGroup cmd => doCreateConsumerGroup s cmd
  | DeleteConsumerGroup cmd => doDeleteConsumerGroup s cmd
  | UpdateConsumerGroupOffsetCommits cmd => doUpdateOffsetCommits s cmd
  | CreateSegment cmd => Ok (doOpenSegment s cmd)
  | CloseSegment cmd => Ok (doCloseSegment s cmd)
  | UpdateSegmentNodes cmd => doUpdateSegmentNodes s cmd
  | DeleteSegment cmd => doDeleteSegment s cmd
  | UpdateNode cmd => Ok (doUpdateNode s cmd)
  | UnsetCommand => Panic "unhandled command"
  end.

(** [Do(index, cmd)] on the state its compare-and-swap succeeds on; [None] is the
    nil command of a raft entry that carries none. *)
Definition Do (s : ClusterState) (index : Z) (cmd : option ClusterCommand) :
    fsm ClusterState :=
  match cmd with
  | None => Ok (with_Index s index)
  | Some cmd => s' ← do_command s cmd; Ok (with_Index s' index)
  end.

(** [NextSegmentID()] on the state its compare-and-swap succeeds on: the next state
    and the returned identifier ([uint64] addition). *)
Definition NextSegmentID (s : ClusterState) : ClusterState * Z :=
  let next := with_CurrentSegmentID s (u64 (CurrentSegmentID s + 1)) in
  (next, CurrentSegmentID next).
