(* ===== verification/ClusterInv.v ===== *)
(** * The replicated cluster state: invariant

    The well-formedness invariant of the cluster state, the commands the leader
    may append to the log ([admissible], the conditions the request handlers and the
    reconciler establish before they call [Apply]), and the proofs that the state
    machine accepts such a command and preserves the invariant. *)
From S2P Require Import Prelude Emq ClusterState ClusterOps.

(** ** Invariant *)

(** Within a namespace: distinct topic and consumer group names, bindings to
    topics of the namespace, offset commits ordered by segment. *)
Record ns_wf (n : ClusterNamespace) : Prop := {
  ns_wf_topics : NoDup (topic_Name <$> ns_Topics n);
  ns_wf_groups : NoDup (cg_Name <$> ns_ConsumerGroups n);
  ns_wf_bindings : ∀ cg b, cg ∈ ns_ConsumerGroups n → b ∈ cg_Bindings cg →
    b_TopicName b ∈ topic_Name <$> ns_Topics n;
  ns_wf_commits : ∀ cg, cg ∈ ns_ConsumerGroups n →
    sorted_by oc_SegmentID (cg_OffsetCommits cg);
}.

(** Open and closed segments are ordered by identifier, no identifier is both
    open and closed, and none exceeds the identifier counter. *)
Record segs_wf (open closed : list ClusterSegment) (cur : Z) : Prop := {
  segs_wf_open : sorted_by seg_ID open;
  segs_wf_closed : sorted_by seg_ID closed;
  segs_wf_disjoint : ∀ x y, x ∈ open → y ∈ closed → seg_ID x ≠ seg_ID y;
  segs_wf_current : ∀ x, x ∈ open ++ closed → seg_ID x ≤ cur;
}.

Record cluster_wf (s : ClusterState) : Prop := {
  wf_namespaces : NoDup (ns_Name <$> Namespaces s);
  wf_ns : ∀ n, n ∈ Namespaces s → ns_wf n;
  wf_segs : segs_wf (OpenSegments s) (ClosedSegments s) (CurrentSegmentID s);
  wf_nodes : sorted_by node_ID (Nodes s);
}.

(** The state of [NewClusterStateStore]. *)
Definition empty_state : ClusterState :=
  {| Index := 0; CurrentSegmentID := 0; Namespaces := []; OpenSegments := [];
     ClosedSegments := []; Nodes := [] |}.

(** What the leader checks before it appends a command. *)
Definition admissible (s : ClusterState) (cmd : ClusterCommand) : Prop :=
  match cmd with
  | CreateNamespace _ | DeleteNamespace _ | CloseSegment _ | UpdateNode _ => True
  | CreateTopic cmd =>
    is_Some (FindNamespace s (tc_Namespace cmd)) ∧ is_Some (tc_Topic cmd)
  | DeleteTopic cmd => is_Some (FindNamespace s (td_Namespace cmd))
  | CreateConsumerGroup cmd =>
    is_Some (FindNamespace s (cgc_Namespace cmd)) ∧
    ∃ cg, cgc_ConsumerGroup cmd = Some cg ∧
      ∀ b, b ∈ cg_Bindings cg →
        is_Some (GetTopic s (cgc_Namespace cmd) (b_TopicName b))
  | DeleteConsumerGroup cmd => is_Some (FindNamespace s (cgd_Namespace cmd))
  | UpdateConsumerGroupOffsetCommits cmd =>
    is_Some (FindNamespace s (ocu_Namespace cmd)) ∧
    NoDup (oc_SegmentID <$> ocu_OffsetCommits cmd)
  | CreateSegment cmd =>
    ∀ seg, seg ∈ OpenSegments s ++ ClosedSegments s → seg_ID seg ≠ sc_ID cmd
  | UpdateSegmentNodes cmd => snu_Which cmd = Which_OPEN ∨ snu_Which cmd = Which_CLOSED
  | DeleteSegment cmd => sd_Which cmd = Which_OPEN ∨ sd_Which cmd = Which_CLOSED
  | UnsetCommand => False
  end.

(** Histories of the store: log entries with admissible commands, entries without
    a command, and identifiers drawn by [NextSegmentID]. *)
Inductive cluster_step : ClusterState → ClusterState → Prop :=
| step_Do s index cmd s' :
    (∀ c, cmd = Some c → admissible s c) → Do s index cmd = Ok s' → cluster_step s s'
| step_NextSegmentID s :
    CurrentSegmentID s < MaxUint64 → 0 ≤ CurrentSegmentID s →
    cluster_step s (NextSegmentID s).1.

Definition reachable (s : ClusterState) : Prop := rtc cluster_step empty_state s.

(** ** A concrete cluster, for the witnesses: two topics, a consumer group bound to
    one of them, three nodes (one dead), open and closed segments. *)

Definition demo_node (id : Z) (st : ClusterNode_State) : ClusterNode :=
  {| node_ID := id; node_Address := "localhost:16000"; node_State := st;
     node_LastSeenAlive := None |}.

Definition demo_segment (id : Z) (t : ClusterSegment_Type) (name : string) (closedAt size : Z)
    (nodes : ClusterSegment_Nodes) : ClusterSegment :=
  {| seg_ID := id; seg_Type := t; seg_OwnerNamespace := "default"; seg_OwnerName := name;
     seg_Generation := 1; seg_Shard := 1; seg_CreatedAt := 100; seg_ClosedAt := closedAt;
     seg_Nodes := nodes; seg_Size := size; seg_Sha1 := [] |}.

Definition demo_topic (name : string) : ClusterTopic :=
  {| topic_Name := name; topic_Shards := 2; topic_ReplicationFactor := 2;
     topic_Retention := 0; topic_DefaultExchangeType := ExchangeTypeFanout |}.

Definition demo_group : ClusterConsumerGroup :=
  {| cg_Name := "workers";
     cg_Bindings := [{| b_TopicName := "orders"; b_ExchangeType := ExchangeTypeFanout;
                        b_By := By_nil |}];
     cg_Size := 16; cg_Since := 50;
     cg_OffsetCommits := [{| oc_SegmentID := 1; oc_Offset := 40 |};
                          {| oc_SegmentID := 3; oc_Offset := 0 |}] |}.

Definition demo_state : ClusterState :=
  {| Index := 7; CurrentSegmentID := 4;
     Namespaces := [{| ns_Name := "default";
                       ns_Topics := [demo_topic "orders"; demo_topic "audit"];
                       ns_ConsumerGroups := [demo_group] |}];
     OpenSegments :=
       [demo_segment 2 ClusterSegment_CONSUMER_GROUP_OFFSET_COMMITS "workers" 0 0
          {| PrimaryNodeID := 1; DoneNodeIDs := []; ReplicatingNodeIDs := [2] |};
        demo_segment 3 ClusterSegment_TOPIC "orders" 0 0
          {| PrimaryNodeID := 1; DoneNodeIDs := []; ReplicatingNodeIDs := [3] |};
        demo_segment 4 ClusterSegment_TOPIC "audit" 0 0
          {| PrimaryNodeID := 2; DoneNodeIDs := []; ReplicatingNodeIDs := [1] |}];
     ClosedSegments :=
       [demo_segment 1 ClusterSegment_TOPIC "orders" 200 64
          {| PrimaryNodeID := 0; DoneNodeIDs := [1]; ReplicatingNodeIDs := [2] |}];
     Nodes := [demo_node 1 ClusterNode_ALIVE; demo_node 2 ClusterNode_ALIVE;
               demo_node 3 ClusterNode_DEAD] |}.

Definition demo_open : ClusterCommandSegmentCreate :=
  {| sc_ID := 5; sc_Type := ClusterSegment_TOPIC; sc_OwnerNamespace := "default";
     sc_OwnerName := "orders"; sc_Generation := 1; sc_Shard := 2; sc_OpenedAt := 300;
     sc_PrimaryNodeID := 2; sc_ReplicatingNodeIDs := [1] |}.

(** ** Segments *)

Lemma drop_segments_filter p l :
  drop_segments p l = List.filter (λ seg, negb (p seg)) l.
Proof.
  unfold drop_segments. case_if; [done|]. symmetry. apply bfilter_id.
  intros x Hx. rewrite existsb_false in E. by rewrite E.
Qed.

Lemma elem_of_drop_segments p l x :
  x ∈ drop_segments p l ↔ x ∈ l ∧ p x = false.
Proof. rewrite drop_segments_filter, elem_of_bfilter, negb_true_iff. tauto. Qed.

Lemma sublist_drop_segments p l : sublist (drop_segments p l) l.
Proof. rewrite drop_segments_filter. apply sublist_bfilter. Qed.

Lemma segs_wf_sublist open closed open' closed' cur :
  sublist open' open → sublist closed' closed →
  segs_wf open closed cur → segs_wf open' closed' cur.
Proof.
  intros Ho Hc [H1 H2 H3 H4]. split.
  - by eapply sorted_by_sublist.
  - by eapply sorted_by_sublist.
  - intros x y Hx Hy. apply H3; by eapply elem_of_sublist.
  - intros x Hx. apply H4. eapply elem_of_sublist; [done|]. by apply sublist_app.
Qed.

Lemma segs_wf_open_segment open closed cur cmd :
  segs_wf open closed cur →
  (∀ seg, seg ∈ open ++ closed → seg_ID seg ≠ sc_ID cmd) →
  segs_wf (sort_by seg_ID (open ++ [new_segment cmd])) closed (cur `max` sc_ID cmd).
Proof.
  intros [H1 H2 H3 H4] Hfresh. split.
  - apply sort_by_sorted, NoDup_fmap_snoc; [|by apply sorted_by_NoDup].
    intros y Hy. apply Hfresh. set_solver.
  - done.
  - intros x y. rewrite elem_of_sort_by, elem_of_app, list_elem_of_singleton.
    intros [Hx| ->] Hy; [by apply H3|]. simpl. intros Heq.
    apply (Hfresh y); [set_solver|done].
  - intros x. rewrite elem_of_app, elem_of_sort_by, elem_of_app, list_elem_of_singleton.
    intros [[Hx| ->]|Hx]; simpl; [|lia|]; specialize (H4 x ltac:(set_solver)); lia.
Qed.

Lemma segs_wf_close_segment open closed cur i seg cmd :
  segs_wf open closed cur → open !! i = Some seg →
  segs_wf (remove_at i open) (sort_by seg_ID (closed ++ [close_segment seg cmd])) cur.
Proof.
  intros [H1 H2 H3 H4] Hi. pose proof (list_elem_of_lookup_2 _ _ _ Hi) as Hin. split.
  - by apply sorted_by_remove_at.
  - apply sort_by_sorted, NoDup_fmap_snoc; [|by apply sorted_by_NoDup].
    intros y Hy. simpl. intros Heq. by apply (H3 seg y).
  - intros x y Hx. rewrite elem_of_sort_by, elem_of_app, list_elem_of_singleton.
    intros [Hy| ->]; [apply H3; [by eapply elem_of_remove_at|done]|]. simpl. intros Heq.
    assert (x = seg) as ->.
    { eapply (sorted_by_key_inj seg_ID); [exact H1|by eapply elem_of_remove_at|done..]. }
    eapply NoDup_remove_at; [eapply (sorted_by_NoDup_elems seg_ID); exact H1|done..].
  - intros x. rewrite elem_of_app, elem_of_sort_by, elem_of_app, list_elem_of_singleton.
    intros [Hx|[Hx| ->]]; simpl; apply H4;
      [apply elem_of_remove_at in Hx|..]; set_solver.
Qed.

Lemma segs_wf_insert_open open closed cur i seg nodes :
  segs_wf open closed cur → open !! i = Some seg →
  segs_wf (<[i := with_SegNodes seg nodes]> open) closed cur.
Proof.
  intros [H1 H2 H3 H4] Hi. pose proof (list_elem_of_lookup_2 _ _ _ Hi) as Hin. split.
  - by eapply sorted_by_insert.
  - done.
  - intros x y [-> |Hx]%elem_of_list_insert Hy; [by apply (H3 seg)|by apply H3].
  - intros x. rewrite elem_of_app. intros [[-> |Hx]%elem_of_list_insert|Hx]; simpl;
      apply H4; set_solver.
Qed.

Lemma segs_wf_insert_closed open closed cur i seg nodes :
  segs_wf open closed cur → closed !! i = Some seg →
  segs_wf open (<[i := with_SegNodes seg nodes]> closed) cur.
Proof.
  intros [H1 H2 H3 H4] Hi. pose proof (list_elem_of_lookup_2 _ _ _ Hi) as Hin. split.
  - done.
  - by eapply sorted_by_insert.
  - intros x y Hx [-> |Hy]%elem_of_list_insert; [by apply (H3 _ seg)|by apply H3].
  - intros x. rewrite elem_of_app. intros [Hx|[-> |Hx]%elem_of_list_insert]; simpl;
      apply H4; set_solver.
Qed.

(** ** Namespaces *)

Lemma FindNamespace_Some s name i n :
  FindNamespace s name = Some (i, n) → Namespaces s !! i = Some n ∧ ns_Name n = name.
Proof. apply find_by_name_Some. Qed.

Lemma FindNamespace_None s name :
  FindNamespace s name = None ↔ name ∉ ns_Name <$> Namespaces s.
Proof. apply find_by_name_None. Qed.

Lemma FindTopic_Some n name i t :
  FindTopic n name = Some (i, t) → ns_Topics n !! i = Some t ∧ topic_Name t = name.
Proof. apply find_by_name_Some. Qed.

Lemma FindTopic_None n name :
  FindTopic n name = None ↔ name ∉ topic_Name <$> ns_Topics n.
Proof. apply find_by_name_None. Qed.

Lemma FindConsumerGroup_Some n name i cg :
  FindConsumerGroup n name = Some (i, cg) →
  ns_ConsumerGroups n !! i = Some cg ∧ cg_Name cg = name.
Proof. apply find_by_name_Some. Qed.

Lemma FindConsumerGroup_None n name :
  FindConsumerGroup n name = None ↔ name ∉ cg_Name <$> ns_ConsumerGroups n.
Proof. apply find_by_name_None. Qed.

(** Replacing the namespace that [FindNamespace] found. *)
Lemma wf_with_namespace s name i n n' :
  cluster_wf s → FindNamespace s name = Some (i, n) → ns_Name n' = ns_Name n → ns_wf n' →
  cluster_wf (with_Namespaces s (<[i := n']> (Namespaces s))).
Proof.
  intros [H1 H2 H3 H4] [Hi _]%FindNamespace_Some Hn Hwf. split; simpl; [|..|done|done].
  - by eapply NoDup_fmap_insert.
  - intros m [-> |Hm]%elem_of_list_insert; auto.
Qed.

Lemma wf_with_segments s open closed :
  cluster_wf s → segs_wf open closed (CurrentSegmentID s) →
  cluster_wf (with_ClosedSegments (with_OpenSegments s open) closed).
Proof. intros [H1 H2 H3 H4] H. by split. Qed.

Lemma wf_FindNamespace s name i n :
  cluster_wf s → FindNamespace s name = Some (i, n) → ns_wf n.
Proof.
  intros Hwf [Hi _]%FindNamespace_Some. apply (wf_ns s Hwf).
  by eapply list_elem_of_lookup_2.
Qed.

(** ** Preservation, command by command *)

Lemma doCreateNamespace_wf s cmd : cluster_wf s → cluster_wf (doCreateNamespace s cmd).
Proof.
  intros Hwf. unfold doCreateNamespace. destruct (FindNamespace _ _) eqn:E; [done|].
  apply FindNamespace_None in E. destruct Hwf as [H1 H2 H3 H4]. split; simpl; [|..|done|done].
  - apply NoDup_fmap_snoc; [|done]. simpl. intros y Hy Heq. apply E. rewrite <-Heq.
    by apply list_elem_of_fmap_2.
  - intros n. rewrite elem_of_app, list_elem_of_singleton. intros [Hn| ->]; [by apply H2|].
    split; simpl; [constructor..|set_solver|set_solver].
Qed.

Lemma doDeleteNamespace_wf s cmd : cluster_wf s → cluster_wf (doDeleteNamespace s cmd).
Proof.
  intros Hwf. unfold doDeleteNamespace. destruct (FindNamespace _ _) as [[i n]|]; [|done].
  destruct Hwf as [H1 H2 H3 H4]. split; simpl; [|..|done|done].
  - eapply NoDup_fmap_sublist; [|done]. rewrite remove_at_delete. apply sublist_delete.
  - intros m Hm%elem_of_remove_at. auto.
Qed.

(** A namespace whose topic list grew keeps its bindings valid. *)
Lemma ns_wf_topics_superset n topics :
  ns_wf n → NoDup (topic_Name <$> topics) →
  (∀ name, name ∈ topic_Name <$> ns_Topics n → name ∈ topic_Name <$> topics) →
  ns_wf (with_Topics n topics).
Proof. intros [H1 H2 H3 H4] Hn Hsub. split; simpl; eauto. Qed.

Lemma doCreateTopic_wf s cmd s' :
  cluster_wf s → doCreateTopic s cmd = Ok s' → cluster_wf s'.
Proof.
  intros Hwf. unfold doCreateTopic. destruct (FindNamespace _ _) as [[i n]|] eqn:E; [|done].
  destruct (tc_Topic cmd) as [t|]; [|done]. intros H. injection H as <-.
  eapply wf_with_namespace; [done|done|done|].
  pose proof (wf_FindNamespace s _ _ _ Hwf E) as Hn. pose proof Hn as [H1 _ _ _].
  destruct (FindTopic _ _) as [[j u]|] eqn:Et; apply ns_wf_topics_superset; try done.
  - apply FindTopic_Some in Et as [Hj _]. by eapply NoDup_fmap_insert.
  - apply FindTopic_Some in Et as [Hj _]. intros name.
    rewrite list_fmap_insert, list_insert_id; [done|]. by rewrite list_lookup_fmap, Hj.
  - apply FindTopic_None in Et. apply NoDup_fmap_snoc; [|done]. simpl. intros y Hy Heq.
    apply Et. rewrite <-Heq. by apply list_elem_of_fmap_2.
  - intros name Hname. rewrite fmap_app. set_solver.
Qed.

(** A namespace whose consumer groups were replaced. *)
Lemma ns_wf_with_ConsumerGroups n groups :
  ns_wf n → NoDup (cg_Name <$> groups) →
  (∀ cg, cg ∈ groups →
    (∀ b, b ∈ cg_Bindings cg → b_TopicName b ∈ topic_Name <$> ns_Topics n) ∧
    sorted_by oc_SegmentID (cg_OffsetCommits cg)) →
  ns_wf (with_ConsumerGroups n groups).
Proof. intros [H1 H2 H3 H4] Hn Hg. split; simpl; naive_solver. Qed.

Lemma ns_wf_group n cg :
  ns_wf n → cg ∈ ns_ConsumerGroups n →
  (∀ b, b ∈ cg_Bindings cg → b_TopicName b ∈ topic_Name <$> ns_Topics n) ∧
  sorted_by oc_SegmentID (cg_OffsetCommits cg).
Proof. intros [H1 H2 H3 H4] Hcg. eauto. Qed.

Lemma GetTopic_in_namespace s name i n topic :
  FindNamespace s name = Some (i, n) → is_Some (GetTopic s name topic) →
  topic ∈ topic_Name <$> ns_Topics n.
Proof.
  unfold GetTopic. intros -> [t Ht]. apply fmap_Some in Ht as ([j u] & Hf & ->).
  apply FindTopic_Some in Hf as [Hj <-]. apply list_elem_of_fmap_2.
  by eapply list_elem_of_lookup_2.
Qed.

Lemma doCreateConsumerGroup_wf s cmd s' :
  cluster_wf s → admissible s (CreateConsumerGroup cmd) →
  doCreateConsumerGroup s cmd = Ok s' → cluster_wf s'.
Proof.
  intros Hwf (_ & cg & Hcg & Hb). unfold doCreateConsumerGroup. rewrite Hcg.
  destruct (FindNamespace _ _) as [[i n]|] eqn:E; [|done]. intros H. injection H as <-.
  eapply wf_with_namespace; [done|done|done|].
  pose proof (wf_FindNamespace s _ _ _ Hwf E) as Hn. pose proof Hn as [_ H2 _ _].
  assert (Hb' : ∀ b, b ∈ cg_Bindings cg → b_TopicName b ∈ topic_Name <$> ns_Topics n)
    by eauto using GetTopic_in_namespace.
  destruct (FindConsumerGroup _ _) as [[j u]|] eqn:Et; apply ns_wf_with_ConsumerGroups; try done.
  - apply FindConsumerGroup_Some in Et as [Hj _]. by eapply NoDup_fmap_insert.
  - apply FindConsumerGroup_Some in Et as [Hj _].
    intros c [-> |Hc]%elem_of_list_insert; [|by apply ns_wf_group]. simpl. split; [done|].
    by apply (ns_wf_group n u Hn), (list_elem_of_lookup_2 _ j).
  - apply FindConsumerGroup_None in Et. apply NoDup_fmap_snoc; [|done]. simpl.
    intros y Hy Heq. apply Et. rewrite <-Heq. by apply list_elem_of_fmap_2.
  - intros c. rewrite elem_of_app, list_elem_of_singleton.
    intros [Hc| ->]; [by apply ns_wf_group|]. simpl. split; [done|apply sorted_by_nil].
Qed.

Lemma doDeleteConsumerGroup_wf s cmd s' :
  cluster_wf s → doDeleteConsumerGroup s cmd = Ok s' → cluster_wf s'.
Proof.
  intros Hwf. unfold doDeleteConsumerGroup.
  destruct (FindNamespace _ _) as [[i n]|] eqn:E; [|done].
  destruct (FindConsumerGroup _ _) as [[j u]|] eqn:Et; intros H; injection H as <-; [|done].
  apply wf_with_segments.
  - eapply wf_with_namespace; [done|done|done|].
    pose proof (wf_FindNamespace s _ _ _ Hwf E) as Hn. apply ns_wf_with_ConsumerGroups; [done|..].
    + eapply NoDup_fmap_sublist; [|apply Hn]. rewrite remove_at_delete. apply sublist_delete.
    + intros c Hc%elem_of_remove_at. by apply ns_wf_group.
  - simpl. eapply segs_wf_sublist; [apply sublist_drop_segments..|apply Hwf].
Qed.

Lemma doUpdateOffsetCommits_wf s cmd s' :
  cluster_wf s → NoDup (oc_SegmentID <$> ocu_OffsetCommits cmd) →
  doUpdateOffsetCommits s cmd = Ok s' → cluster_wf s'.
Proof.
  intros Hwf Hnd. unfold doUpdateOffsetCommits.
  destruct (FindNamespace _ _) as [[i n]|] eqn:E; [|done].
  destruct (FindConsumerGroup _ _) as [[j u]|] eqn:Et; intros H; injection H as <-; [|done].
  apply FindConsumerGroup_Some in Et as [Hj _].
  pose proof (wf_FindNamespace s _ _ _ Hwf E) as Hn.
  eapply wf_with_namespace; [done|done|done|]. apply ns_wf_with_ConsumerGroups; [done|..].
  - eapply NoDup_fmap_insert; [done|done|apply Hn].
  - intros c [-> |Hc]%elem_of_list_insert; [|by apply ns_wf_group]. simpl. split.
    + by apply (ns_wf_group n u Hn), (list_elem_of_lookup_2 _ j).
    + by apply sort_by_sorted.
Qed.

(** What the loop over the consumer groups of a deleted topic computes. *)
Lemma unbind_consumer_group_spec s cmd cg :
  let cg' := (unbind_consumer_group s cmd cg).2 in
  cg_Name cg' = cg_Name cg ∧ cg_Size cg' = cg_Size cg ∧ cg_Since cg' = cg_Since cg ∧
  cg_Bindings cg' =
    List.filter (λ b, negb (String.eqb (b_TopicName b) (td_Name cmd))) (cg_Bindings cg) ∧
  cg_OffsetCommits cg' =
    List.filter (λ c, negb (commit_of_topic s (td_Namespace cmd) (td_Name cmd) c))
      (cg_OffsetCommits cg).
Proof.
  unfold unbind_consumer_group. case_if; [done|]. simpl. apply orb_false_iff in E as [E1 E2].
  rewrite existsb_false in E1. rewrite existsb_false in E2.
  split_and!; [done..| |]; symmetry; apply bfilter_id; intros x Hx; apply negb_true_iff; auto.
Qed.

Lemma unbind_consumer_groups s cmd groups :
  (if existsb fst (unbind_consumer_group s cmd <$> groups)
   then (unbind_consumer_group s cmd <$> groups).*2 else groups) =
  (λ cg, (unbind_consumer_group s cmd cg).2) <$> groups.
Proof.
  rewrite <-list_fmap_compose. case_if; [done|].
  rewrite existsb_false in E. symmetry. rewrite <-(list_fmap_id groups) at 2.
  apply list_fmap_ext. intros i cg Hcg. apply list_elem_of_lookup_2 in Hcg.
  specialize (E _ (list_elem_of_fmap_2 _ _ _ Hcg)). simpl.
  unfold unbind_consumer_group in *. by case_if.
Qed.

Lemma remove_topic_name n name i t x :
  NoDup (topic_Name <$> ns_Topics n) → FindTopic n name = Some (i, t) →
  x ∈ topic_Name <$> remove_at i (ns_Topics n) ↔ x ∈ topic_Name <$> ns_Topics n ∧ x ≠ name.
Proof.
  intros Hn [Hi <-]%FindTopic_Some.
  assert (Hf : topic_Name <$> remove_at i (ns_Topics n) = remove_at i (topic_Name <$> ns_Topics n)).
  { unfold remove_at. by rewrite fmap_app, fmap_take, fmap_drop. }
  rewrite Hf. assert (Hi' : (topic_Name <$> ns_Topics n) !! i = Some (topic_Name t))
    by by rewrite list_lookup_fmap, Hi.
  split.
  - intros Hx. split; [by eapply elem_of_remove_at|]. intros ->. by eapply NoDup_remove_at.
  - intros [Hx Hne]. by eapply elem_of_remove_at_ne.
Qed.

Lemma doDeleteTopic_wf s cmd s' :
  cluster_wf s → doDeleteTopic s cmd = Ok s' → cluster_wf s'.
Proof.
  intros Hwf. unfold doDeleteTopic.
  destruct (FindNamespace _ _) as [[i n]|] eqn:E; [|done].
  destruct (FindTopic _ _) as [[j t]|] eqn:Et; intros H; injection H as <-; [|done].
  apply wf_with_segments.
  - eapply wf_with_namespace; [done|done|done|].
    pose proof (wf_FindNamespace s _ _ _ Hwf E) as Hn. pose proof Hn as [H1 H2 H3 H4].
    rewrite unbind_consumer_groups. split; simpl.
    + eapply NoDup_fmap_sublist; [|done]. rewrite remove_at_delete. apply sublist_delete.
    + rewrite <-list_fmap_compose. erewrite list_fmap_ext; [exact H2|].
      intros k cg _. apply unbind_consumer_group_spec.
    + intros cg b (cg0 & -> & Hcg)%list_elem_of_fmap Hb.
      destruct (unbind_consumer_group_spec s cmd cg0) as (_ & _ & _ & HB & _).
      rewrite HB, elem_of_bfilter in Hb. destruct Hb as [Hne Hb]. bool_to_prop.
      eapply remove_topic_name; eauto.
    + intros cg (cg0 & -> & Hcg)%list_elem_of_fmap.
      destruct (unbind_consumer_group_spec s cmd cg0) as (_ & _ & _ & _ & ->).
      eapply sorted_by_sublist; [apply sublist_bfilter|auto].
  - simpl. eapply segs_wf_sublist; [apply sublist_drop_segments..|apply Hwf].
Qed.

Lemma doOpenSegment_wf s cmd :
  cluster_wf s → admissible s (CreateSegment cmd) → cluster_wf (doOpenSegment s cmd).
Proof.
  intros Hwf Hfresh. pose proof (segs_wf_open_segment _ _ _ cmd (wf_segs s Hwf) Hfresh) as Hs.
  destruct Hwf as [H1 H2 H3 H4]. unfold doOpenSegment. case_if; bool_to_prop; split; simpl; try done.
  - by rewrite Z.max_r in Hs by lia.
  - by rewrite Z.max_l in Hs by lia.
Qed.

Lemma doCloseSegment_wf s cmd : cluster_wf s → cluster_wf (doCloseSegment s cmd).
Proof.
  intros Hwf. unfold doCloseSegment.
  destruct (find_first _ _) as [[i seg]|] eqn:E; [|done].
  apply find_first_lookup in E as [Hi _]. apply wf_with_segments; [done|].
  apply segs_wf_close_segment; [apply Hwf|done].
Qed.

Lemma doUpdateSegmentNodes_wf s cmd s' :
  cluster_wf s → doUpdateSegmentNodes s cmd = Ok s' → cluster_wf s'.
Proof.
  intros Hwf. unfold doUpdateSegmentNodes, doUpdateSegmentNodesIn.
  pose proof Hwf as [H1 H2 H3 H4].
  destruct (snu_Which cmd); try done; destruct (search_segment _ _) as [[i seg]|] eqn:E;
    intros H; injection H as <-; try done;
    apply search_segment_Some in E as [Hi _]; split; simpl; try done.
  - by apply segs_wf_insert_open.
  - by apply segs_wf_insert_closed.
Qed.

Lemma doDeleteSegment_wf s cmd s' :
  cluster_wf s → doDeleteSegment s cmd = Ok s' → cluster_wf s'.
Proof.
  intros Hwf. unfold doDeleteSegment. pose proof Hwf as [H1 H2 H3 H4].
  destruct (sd_Which cmd); try done; destruct (search_segment _ _) as [[i seg]|];
    intros H; injection H as <-; try done; split; simpl; try done;
    (eapply segs_wf_sublist; [..|apply Hwf]); rewrite ?remove_at_delete;
    try apply sublist_delete; done.
Qed.

Lemma doUpdateNode_wf s cmd : cluster_wf s → cluster_wf (doUpdateNode s cmd).
Proof.
  intros [H1 H2 H3 H4]. unfold doUpdateNode. split; simpl; try done.
  apply sort_by_sorted. apply sorted_by_NoDup in H4.
  destruct (find_first _ _) as [[i n]|] eqn:E.
  - apply find_first_lookup in E as [Hi Hn]. bool_to_prop.
    eapply NoDup_fmap_insert; [done|simpl; congruence|done].
  - rewrite find_first_None in E. apply NoDup_fmap_snoc; [|done]. simpl. intros y Hy.
    specialize (E y Hy). bool_to_prop. done.
Qed.

#[export] Hint Resolve doCreateNamespace_wf doDeleteNamespace_wf doCreateTopic_wf
  doDeleteTopic_wf doCreateConsumerGroup_wf doDeleteConsumerGroup_wf
  doUpdateOffsetCommits_wf doOpenSegment_wf doCloseSegment_wf doUpdateSegmentNodes_wf
  doDeleteSegment_wf doUpdateNode_wf : eventter.

Lemma do_command_wf s cmd s' :
  cluster_wf s → admissible s cmd → do_command s cmd = Ok s' → cluster_wf s'.
Proof.
  intros Hwf Hadm. destruct cmd; simpl; intros H; simplify_eq; eauto with eventter.
  destruct Hadm. eauto with eventter.
Qed.

Lemma do_command_total s cmd : admissible s cmd → ∃ s', do_command s cmd = Ok s'.
Proof.
  destruct cmd as [c|c|c|c|c|c|c|c|c|c|c|c|]; simpl; intros H; eauto; [..|done].
  - destruct H as [[[i n] Hn] [t Ht]]. unfold doCreateTopic. rewrite Hn, Ht. eauto.
  - destruct H as [[i n] Hn]. unfold doDeleteTopic. rewrite Hn. repeat case_match; eauto.
  - destruct H as [[[i n] Hn] (cg & Hc & _)]. unfold doCreateConsumerGroup.
    rewrite Hn, Hc. eauto.
  - destruct H as [[i n] Hn]. unfold doDeleteConsumerGroup. rewrite Hn. repeat case_match; eauto.
  - destruct H as [[[i n] Hn] _]. unfold doUpdateOffsetCommits. rewrite Hn.
    repeat case_match; eauto.
  - unfold doDeleteSegment. destruct H as [-> | ->]; repeat case_match; eauto.
  - unfold doUpdateSegmentNodes. destruct H as [-> | ->]; repeat case_match; eauto.
Qed.

Lemma wf_with_Index s index : cluster_wf s → cluster_wf (with_Index s index).
Proof. intros [H1 H2 H3 H4]. by split. Qed.

Lemma NextSegmentID_wf s :
  0 ≤ CurrentSegmentID s < MaxUint64 → cluster_wf s → cluster_wf (NextSegmentID s).1.
Proof.
  intros Hc [H1 H2 [S1 S2 S3 S4] H4]. split; simpl; [done..| |done].
  split; [done..|]. intros x Hx. specialize (S4 x Hx).
  unfold u64, wrap. rewrite Z.mod_small; [lia|]. unfold MaxUint64 in Hc. lia.
Qed.

(** ** The invariant is decidable *)

Lemma ns_wf_alt n :
  ns_wf n ↔
  NoDup (topic_Name <$> ns_Topics n) ∧ NoDup (cg_Name <$> ns_ConsumerGroups n) ∧
  Forall (λ cg, Forall (λ b, b_TopicName b ∈ topic_Name <$> ns_Topics n) (cg_Bindings cg))
    (ns_ConsumerGroups n) ∧
  Forall (λ cg, sorted_by oc_SegmentID (cg_OffsetCommits cg)) (ns_ConsumerGroups n).
Proof.
  rewrite !Forall_forall. setoid_rewrite Forall_forall. split.
  - intros [H1 H2 H3 H4]. eauto.
  - intros (H1 & H2 & H3 & H4). split; eauto.
Qed.

#[export] Instance ns_wf_dec n : Decision (ns_wf n) := dec_iff (ns_wf_alt n).

Lemma segs_wf_alt open closed cur :
  segs_wf open closed cur ↔
  sorted_by seg_ID open ∧ sorted_by seg_ID closed ∧
  Forall (λ x, Forall (λ y, seg_ID x ≠ seg_ID y) closed) open ∧
  Forall (λ x, seg_ID x ≤ cur) (open ++ closed).
Proof.
  rewrite !Forall_forall. setoid_rewrite Forall_forall. split.
  - intros [H1 H2 H3 H4]. eauto.
  - intros (H1 & H2 & H3 & H4). split; eauto.
Qed.

#[export] Instance segs_wf_dec open closed cur : Decision (segs_wf open closed cur) :=
  dec_iff (segs_wf_alt open closed cur).

Lemma cluster_wf_alt s :
  cluster_wf s ↔
  NoDup (ns_Name <$> Namespaces s) ∧ Forall ns_wf (Namespaces s) ∧
  segs_wf (OpenSegments s) (ClosedSegments s) (CurrentSegmentID s) ∧
  sorted_by node_ID (Nodes s).
Proof.
  rewrite Forall_forall. split.
  - intros [H1 H2 H3 H4]. eauto.
  - intros (H1 & H2 & H3 & H4). by split.
Qed.

#[export] Instance cluster_wf_dec s : Decision (cluster_wf s) := dec_iff (cluster_wf_alt s).

(** ** Properties *)

(** The state machine accepts every admissible command and preserves the
    invariant (C2): on a well-formed state [Do] does not panic, and the state it
    publishes is well-formed and carries the log index. *)
Theorem Do_preserves_wf s index cmd :
  cluster_wf s → (∀ c, cmd = Some c → admissible s c) →
  ∃ s', Do s index cmd = Ok s' ∧ cluster_wf s' ∧ Index s' = index.
Proof.
  intros Hwf Hadm. destruct cmd as [c|]; simpl.
  - specialize (Hadm c eq_refl). destruct (do_command_total s c Hadm) as [s' Hs'].
    exists (with_Index s' index). rewrite Hs'. split_and!; [done| |done].
    apply wf_with_Index. by eapply do_command_wf.
  - eexists. split_and!; [done| |done]. by apply wf_with_Index.
Qed.

Lemma Do_preserves_wf_witness :
  ∃ s', Do demo_state 8 (Some (CreateSegment demo_open)) = Ok s' ∧ cluster_wf s' ∧ Index s' = 8.
Proof.
  apply (Do_preserves_wf demo_state 8 (Some (CreateSegment demo_open))).
  - apply (bool_decide_unpack _). vm_compute. exact I.
  - intros c Hc. injection Hc as <-. simpl. apply Forall_forall.
    repeat constructor; discriminate.
Defined.
