(* ===== verification/ClusterProps.v ===== *)
(** * The replicated cluster state: properties

    Lookup correctness, the effect of deleting a topic, the life cycle of a segment
    identifier, and the reachable states of the store. *)
From S2P Require Import Prelude Emq ClusterState ClusterOps ClusterInv.

(** ** Abstract view: the life cycle of a segment identifier *)

Inductive phase : Type := PhAbsent | PhOpen | PhClosed.

Definition segment_phase (s : ClusterState) (id : Z) : phase :=
  match GetOpenSegment s id with
  | Some _ => PhOpen
  | None => match GetClosedSegment s id with Some _ => PhClosed | None => PhAbsent end
  end.

(** The commands that may take an identifier from one phase to another; every
    other command leaves it where it is. *)
Inductive phase_step (id : Z) : ClusterCommand → phase → phase → Prop :=
| phase_same cmd p : phase_step id cmd p p
| phase_create cmd : sc_ID cmd = id → phase_step id (CreateSegment cmd) PhAbsent PhOpen
| phase_close cmd : scl_ID cmd = id → phase_step id (CloseSegment cmd) PhOpen PhClosed
| phase_delete_open cmd : sd_ID cmd = id → sd_Which cmd = Which_OPEN →
    phase_step id (DeleteSegment cmd) PhOpen PhAbsent
| phase_delete_closed cmd : sd_ID cmd = id → sd_Which cmd = Which_CLOSED →
    phase_step id (DeleteSegment cmd) PhClosed PhAbsent
| phase_delete_topic cmd p : phase_step id (DeleteTopic cmd) p PhAbsent
| phase_delete_group cmd p : phase_step id (DeleteConsumerGroup cmd) p PhAbsent.

(** What never changes about a segment while it exists. *)
Definition segment_identity (seg : ClusterSegment) :
    Z * ClusterSegment_Type * string * string * Z * Z * Z :=
  (seg_ID seg, seg_Type seg, seg_OwnerNamespace seg, seg_OwnerName seg,
   seg_Generation seg, seg_Shard seg, seg_CreatedAt seg).

(** What never changes about a closed segment: its length and checksum. *)
Definition segment_content (seg : ClusterSegment) : Z * Z * list Z :=
  (seg_ClosedAt seg, seg_Size seg, seg_Sha1 seg).

(** ** How a command changes the segment lists *)

Inductive segs_change (s s' : ClusterState) : ClusterCommand → Prop :=
| sg_same cmd :
    OpenSegments s' = OpenSegments s → ClosedSegments s' = ClosedSegments s →
    segs_change s s' cmd
| sg_drop cmd p :
    (∃ c, cmd = DeleteTopic c) ∨ (∃ c, cmd = DeleteConsumerGroup c) →
    OpenSegments s' = drop_segments p (OpenSegments s) →
    ClosedSegments s' = drop_segments p (ClosedSegments s) → segs_change s s' cmd
| sg_create c :
    OpenSegments s' = sort_by seg_ID (OpenSegments s ++ [new_segment c]) →
    ClosedSegments s' = ClosedSegments s → segs_change s s' (CreateSegment c)
| sg_close c i y :
    OpenSegments s !! i = Some y → seg_ID y = scl_ID c →
    OpenSegments s' = remove_at i (OpenSegments s) →
    ClosedSegments s' = sort_by seg_ID (ClosedSegments s ++ [close_segment y c]) →
    segs_change s s' (CloseSegment c)
| sg_nodes_open c i y :
    OpenSegments s !! i = Some y →
    OpenSegments s' = <[i := with_SegNodes y (snu_Nodes c)]> (OpenSegments s) →
    ClosedSegments s' = ClosedSegments s → snu_Which c = Which_OPEN →
    segs_change s s' (UpdateSegmentNodes c)
| sg_nodes_closed c i y :
    ClosedSegments s !! i = Some y →
    OpenSegments s' = OpenSegments s →
    ClosedSegments s' = <[i := with_SegNodes y (snu_Nodes c)]> (ClosedSegments s) →
    snu_Which c = Which_CLOSED → segs_change s s' (UpdateSegmentNodes c)
| sg_delete_open c i y :
    OpenSegments s !! i = Some y → seg_ID y = sd_ID c → sd_Which c = Which_OPEN →
    OpenSegments s' = remove_at i (OpenSegments s) →
    ClosedSegments s' = ClosedSegments s → segs_change s s' (DeleteSegment c)
| sg_delete_closed c i y :
    ClosedSegments s !! i = Some y → seg_ID y = sd_ID c → sd_Which c = Which_CLOSED →
    OpenSegments s' = OpenSegments s →
    ClosedSegments s' = remove_at i (ClosedSegments s) → segs_change s s' (DeleteSegment c).

(** ** Lookup *)

Lemma GetOpenSegment_iff s id seg :
  cluster_wf s →
  GetOpenSegment s id = Some seg ↔ seg ∈ OpenSegments s ∧ seg_ID seg = id.
Proof.
  intros [_ _ [Ho _ _ _] _]. unfold GetOpenSegment. rewrite fmap_Some. split.
  - intros ([i x] & Hx & ->). apply search_segment_Some in Hx as [Hi <-].
    split; [by eapply list_elem_of_lookup_2|done].
  - intros [[i Hi]%list_elem_of_lookup <-]. exists (i, seg). split; [|done].
    by apply search_segment_complete.
Qed.

Lemma GetClosedSegment_iff s id seg :
  cluster_wf s →
  GetClosedSegment s id = Some seg ↔ seg ∈ ClosedSegments s ∧ seg_ID seg = id.
Proof.
  intros [_ _ [_ Hc _ _] _]. unfold GetClosedSegment. rewrite fmap_Some. split.
  - intros ([i x] & Hx & ->). apply search_segment_Some in Hx as [Hi <-].
    split; [by eapply list_elem_of_lookup_2|done].
  - intros [[i Hi]%list_elem_of_lookup <-]. exists (i, seg). split; [|done].
    by apply search_segment_complete.
Qed.

Lemma GetOpenSegment_None s id :
  cluster_wf s → GetOpenSegment s id = None ↔ ∀ seg, seg ∈ OpenSegments s → seg_ID seg ≠ id.
Proof.
  intros Hwf. split.
  - intros H seg Hseg Hid. assert (GetOpenSegment s id = Some seg) by (by apply GetOpenSegment_iff).
    congruence.
  - intros H. destruct (GetOpenSegment s id) as [seg|] eqn:E; [|done].
    apply GetOpenSegment_iff in E as [H1 H2]; [|done]. by destruct (H seg).
Qed.

Lemma GetClosedSegment_None s id :
  cluster_wf s →
  GetClosedSegment s id = None ↔ ∀ seg, seg ∈ ClosedSegments s → seg_ID seg ≠ id.
Proof.
  intros Hwf. split.
  - intros H seg Hseg Hid.
    assert (GetClosedSegment s id = Some seg) by (by apply GetClosedSegment_iff). congruence.
  - intros H. destruct (GetClosedSegment s id) as [seg|] eqn:E; [|done].
    apply GetClosedSegment_iff in E as [H1 H2]; [|done]. by destruct (H seg).
Qed.

Lemma GetSegment_iff s id seg :
  cluster_wf s →
  GetSegment s id = Some seg ↔ seg ∈ OpenSegments s ++ ClosedSegments s ∧ seg_ID seg = id.
Proof.
  intros Hwf. unfold GetSegment. rewrite elem_of_app.
  destruct (GetOpenSegment s id) as [o|] eqn:Eo.
  - apply GetOpenSegment_iff in Eo as [Ho1 Ho2]; [|done]. split.
    + intros ?. simplify_eq. eauto.
    + intros [[H|H] Hid]; f_equal.
      * eapply (sorted_by_key_inj seg_ID); [apply Hwf|done..|congruence].
      * destruct (segs_wf_disjoint _ _ _ (wf_segs s Hwf) o seg); [done..|congruence].
  - rewrite GetOpenSegment_None in Eo by done.
    destruct (GetClosedSegment s id) as [c|] eqn:Ec.
    + rewrite <-Ec, GetClosedSegment_iff by done. naive_solver.
    + rewrite GetClosedSegment_None in Ec by done. naive_solver.
Qed.

Lemma do_command_segs s cmd s' : do_command s cmd = Ok s' → segs_change s s' cmd.
Proof.
  destruct cmd as [c|c|c|c|c|c|c|c|c|c|c|c|]; simpl; intros H; simplify_eq.
  - unfold doCreateNamespace. case_match; by apply sg_same.
  - unfold doDeleteNamespace. repeat case_match; by apply sg_same.
  - unfold doCreateTopic in H. repeat case_match; simplify_eq; by apply sg_same.
  - unfold doDeleteTopic in H. destruct (FindNamespace _ _) as [[??]|]; [|done].
    destruct (FindTopic _ _) as [[??]|]; simplify_eq; [eapply sg_drop; eauto|by apply sg_same].
  - unfold doCreateConsumerGroup in H. repeat case_match; simplify_eq; by apply sg_same.
  - unfold doDeleteConsumerGroup in H. repeat case_match; simplify_eq;
      [eapply sg_drop; eauto|by apply sg_same].
  - unfold doUpdateOffsetCommits in H. repeat case_match; simplify_eq; by apply sg_same.
  - apply sg_create; unfold doOpenSegment; case_match; done.
  - unfold doDeleteSegment in H.
    repeat case_match; simplify_eq; try (by apply sg_same);
      match goal with E : search_segment _ _ = Some _ |- _ =>
        apply search_segment_Some in E as [??] end;
      [eapply sg_delete_open; eauto|eapply sg_delete_closed; eauto].
  - unfold doCloseSegment. destruct (find_first _ _) as [[i y]|] eqn:E; [|by apply sg_same].
    apply find_first_lookup in E as [Hi Hy]. bool_to_prop. eapply sg_close; eauto.
  - unfold doUpdateSegmentNodes in H.
    repeat case_match; simplify_eq; try (by apply sg_same);
      match goal with E : search_segment _ _ = Some _ |- _ =>
        apply search_segment_Some in E as [??] end;
      [eapply sg_nodes_open; eauto|eapply sg_nodes_closed; eauto].
  - by apply sg_same.
Qed.

Lemma elem_of_update_in (segs : list ClusterSegment) i seg nodes x :
  segs !! i = Some seg → x ∈ <[i := with_SegNodes seg nodes]> segs →
  ∃ y, y ∈ segs ∧ segment_identity y = segment_identity x ∧
       segment_content y = segment_content x.
Proof.
  intros Hi [-> |Hx]%elem_of_list_insert; [|by exists x].
  exists seg. split; [by eapply list_elem_of_lookup_2|done].
Qed.

Lemma segs_change_open s cmd s' x :
  segs_change s s' cmd → x ∈ OpenSegments s' →
  (∃ y, y ∈ OpenSegments s ∧ segment_identity y = segment_identity x ∧
        segment_content y = segment_content x) ∨
  (∃ c, cmd = CreateSegment c ∧ x = new_segment c).
Proof.
  intros [? Ho Hc|? p _ Ho Hc|c Ho Hc|c i y Hi Hid Ho Hc|c i y Hi Ho Hc|c i y Hi Ho Hc
    |c i y Hi Hid Hw Ho Hc|c i y Hi Hid Hw Ho Hc]; rewrite Ho; intros Hx;
    try (by left; exists x).
  - apply elem_of_drop_segments in Hx as [Hx _]. by left; exists x.
  - rewrite elem_of_sort_by, elem_of_app, list_elem_of_singleton in Hx.
    destruct Hx as [Hx| ->]; [by left; exists x|by right; exists c].
  - apply elem_of_remove_at in Hx. by left; exists x.
  - left. by eapply elem_of_update_in.
  - apply elem_of_remove_at in Hx. by left; exists x.
Qed.

Lemma segs_change_closed s cmd s' x :
  segs_change s s' cmd → x ∈ ClosedSegments s' →
  (∃ y, y ∈ ClosedSegments s ∧ segment_identity y = segment_identity x ∧
        segment_content y = segment_content x) ∨
  (∃ c y, cmd = CloseSegment c ∧ y ∈ OpenSegments s ∧ seg_ID y = scl_ID c ∧
          x = close_segment y c).
Proof.
  intros [? Ho Hc|? p _ Ho Hc|c Ho Hc|c i y Hi Hid Ho Hc|c i y Hi Ho Hc|c i y Hi Ho Hc
    |c i y Hi Hid Hw Ho Hc|c i y Hi Hid Hw Ho Hc]; rewrite Hc; intros Hx;
    try (by left; exists x).
  - apply elem_of_drop_segments in Hx as [Hx _]. by left; exists x.
  - rewrite elem_of_sort_by, elem_of_app, list_elem_of_singleton in Hx.
    destruct Hx as [Hx| ->]; [by left; exists x|right].
    exists c, y. split_and!; try done. by eapply list_elem_of_lookup_2.
  - left. by eapply elem_of_update_in.
  - apply elem_of_remove_at in Hx. by left; exists x.
Qed.

(** [x] (or its copy) is still among the open, or the closed, segments. *)
Local Ltac still_open x := left; exists x; split; [apply elem_of_app; left|done].
Local Ltac still_closed x := left; exists x; split; [apply elem_of_app; right|done].

(** The segments that leave the state. *)
Lemma segs_change_gone s cmd s' x :
  segs_change s s' cmd → x ∈ OpenSegments s ++ ClosedSegments s →
  (∃ y, y ∈ OpenSegments s' ++ ClosedSegments s' ∧ seg_ID y = seg_ID x) ∨
  (∃ c, cmd = DeleteTopic c) ∨ (∃ c, cmd = DeleteConsumerGroup c) ∨
  (∃ c, cmd = DeleteSegment c ∧ sd_ID c = seg_ID x ∧
     (sd_Which c = Which_OPEN ∧ x ∈ OpenSegments s ∨
      sd_Which c = Which_CLOSED ∧ x ∈ ClosedSegments s)).
Proof.
  intros Hch [Hx|Hx]%elem_of_app; destruct Hch as [? Ho Hc|? p Hcmd Ho Hc|c Ho Hc
    |c i y Hi Hid Ho Hc|c i y Hi Ho Hc|c i y Hi Ho Hc|c i y Hi Hid Hw Ho Hc
    |c i y Hi Hid Hw Ho Hc]; rewrite Ho, Hc;
    try (right; tauto); try (by still_open x); try (by still_closed x).
  - still_open x. apply elem_of_sort_by. set_solver.
  - destruct (decide (x = y)) as [->|].
    + still_closed (close_segment y c). apply elem_of_sort_by. set_solver.
    + still_open x. by eapply elem_of_remove_at_ne.
  - destruct (decide (x = y)) as [->|].
    + still_open (with_SegNodes y (snu_Nodes c)).
      eapply list_elem_of_lookup_2, list_lookup_insert_eq, lookup_lt_Some, Hi.
    + still_open x. by eapply elem_of_list_insert_ne.
  - destruct (decide (x = y)) as [->|]; [right; right; right; exists c; auto|].
    still_open x. by eapply elem_of_remove_at_ne.
  - still_closed x. apply elem_of_sort_by. set_solver.
  - destruct (decide (x = y)) as [->|].
    + still_closed (with_SegNodes y (snu_Nodes c)).
      eapply list_elem_of_lookup_2, list_lookup_insert_eq, lookup_lt_Some, Hi.
    + still_closed x. by eapply elem_of_list_insert_ne.
  - destruct (decide (x = y)) as [->|]; [right; right; right; exists c; auto|].
    still_closed x. by eapply elem_of_remove_at_ne.
Qed.

(** ** The life cycle *)

Lemma segment_phase_spec s id :
  cluster_wf s →
  match segment_phase s id with
  | PhOpen => ∃ x, x ∈ OpenSegments s ∧ seg_ID x = id
  | PhClosed => ∃ x, x ∈ ClosedSegments s ∧ seg_ID x = id
  | PhAbsent => ∀ x, x ∈ OpenSegments s ++ ClosedSegments s → seg_ID x ≠ id
  end.
Proof.
  intros Hwf. unfold segment_phase. destruct (GetOpenSegment s id) as [x|] eqn:Eo.
  { apply GetOpenSegment_iff in Eo; eauto. }
  destruct (GetClosedSegment s id) as [x|] eqn:Ec.
  { apply GetClosedSegment_iff in Ec; eauto. }
  rewrite GetOpenSegment_None in Eo by done. rewrite GetClosedSegment_None in Ec by done.
  intros x [Hx|Hx]%elem_of_app; auto.
Qed.

Lemma wf_not_open_and_closed s x y :
  cluster_wf s → x ∈ OpenSegments s → y ∈ ClosedSegments s → seg_ID x = seg_ID y → False.
Proof. intros Hwf Hx Hy. by apply (segs_wf_disjoint _ _ _ (wf_segs s Hwf)). Qed.

Lemma wf_same_segment s x y :
  cluster_wf s → x ∈ OpenSegments s ++ ClosedSegments s →
  y ∈ OpenSegments s ++ ClosedSegments s → seg_ID x = seg_ID y → x = y.
Proof.
  intros Hwf Hx Hy Hid.
  assert (GetSegment s (seg_ID y) = Some x) by by apply GetSegment_iff.
  assert (GetSegment s (seg_ID y) = Some y) by by apply GetSegment_iff. congruence.
Qed.

Lemma identity_ID x y : segment_identity x = segment_identity y → seg_ID x = seg_ID y.
Proof. unfold segment_identity. congruence. Qed.

Lemma do_command_phase s cmd s' id :
  cluster_wf s → admissible s cmd → do_command s cmd = Ok s' →
  phase_step id cmd (segment_phase s id) (segment_phase s' id).
Proof.
  intros Hwf Hadm H. pose proof (do_command_wf s cmd s' Hwf Hadm H) as Hwf'.
  apply do_command_segs in H. pose proof (segment_phase_spec s id Hwf) as Hp.
  pose proof (segment_phase_spec s' id Hwf') as Hp'.
  destruct (segment_phase s id), (segment_phase s' id); try constructor.
  - destruct Hp' as (x & Hx & Hid).
    apply (segs_change_open _ _ _ x H) in Hx as [(y & Hy & Heq%identity_ID & _)|(c & -> & ->)].
    + destruct (Hp y); [set_solver|congruence].
    + by constructor.
  - destruct Hp' as (x & Hx & Hid).
    apply (segs_change_closed _ _ _ x H) in Hx
      as [(y & Hy & Heq%identity_ID & _)|(c & y & -> & Hy & Heq & ->)];
      destruct (Hp y); set_solver.
  - destruct Hp as (x & Hx & Hid).
    destruct (segs_change_gone _ _ _ x H) as [(y & Hy & Heq)|[[c ->]|[[c ->]|(c & -> & Hc)]]];
      [set_solver|exfalso; apply (Hp' y); [done|congruence]|constructor..|].
    destruct Hc as [Hc [[Hw _]|[_ Hc']]]; [constructor; congruence|].
    exfalso. exact (wf_not_open_and_closed s x x Hwf ltac:(done) ltac:(done) eq_refl).
  - destruct Hp as (z & Hz & Hzid). destruct Hp' as (x & Hx & Hid).
    apply (segs_change_closed _ _ _ x H) in Hx
      as [(y & Hy & Heq%identity_ID & _)|(c & y & -> & Hy & Heq & ->)].
    + exfalso. eapply (wf_not_open_and_closed s z y); eauto. congruence.
    + constructor. simpl in Hid. congruence.
  - destruct Hp as (x & Hx & Hid).
    destruct (segs_change_gone _ _ _ x H) as [(y & Hy & Heq)|[[c ->]|[[c ->]|(c & -> & Hc)]]];
      [set_solver|exfalso; apply (Hp' y); [done|congruence]|constructor..|].
    destruct Hc as [Hc [[_ Hc']|[Hw _]]]; [|constructor; congruence].
    exfalso. exact (wf_not_open_and_closed s x x Hwf ltac:(done) ltac:(done) eq_refl).
  - destruct Hp as (z & Hz & Hzid). destruct Hp' as (x & Hx & Hid).
    apply (segs_change_open _ _ _ x H) in Hx as [(y & Hy & Heq%identity_ID & _)|(c & -> & ->)].
    + exfalso. eapply (wf_not_open_and_closed s y z); eauto. congruence.
    + destruct (Hadm z); [set_solver|]. simpl in Hid. congruence.
Qed.

Lemma do_command_identity s cmd s' x x' :
  cluster_wf s → admissible s cmd → do_command s cmd = Ok s' →
  x ∈ OpenSegments s ++ ClosedSegments s → x' ∈ OpenSegments s' ++ ClosedSegments s' →
  seg_ID x = seg_ID x' →
  segment_identity x = segment_identity x' ∧
  (x ∈ ClosedSegments s → segment_content x = segment_content x').
Proof.
  intros Hwf Hadm H Hx Hx' Hid. apply do_command_segs in H.
  apply elem_of_app in Hx' as [Hx'|Hx'].
  - apply (segs_change_open _ _ _ x' H) in Hx' as [(y & Hy & Heq & Hc)|(c & -> & ->)].
    + rewrite (wf_same_segment s x y), Heq, Hc; [done..|set_solver|].
      by rewrite Hid, (identity_ID _ _ Heq).
    + by destruct (Hadm x).
  - apply (segs_change_closed _ _ _ x' H) in Hx'
      as [(y & Hy & Heq & Hc)|(c & y & -> & Hy & Heq & ->)].
    + rewrite (wf_same_segment s x y), Heq, Hc; [done..|set_solver|].
      by rewrite Hid, (identity_ID _ _ Heq).
    + rewrite (wf_same_segment s x y); [|done|done|set_solver|done]. split; [done|].
      intros Hcl. exfalso. exact (wf_not_open_and_closed s y y Hwf Hy ltac:(done) eq_refl).
Qed.

(** ** Identifier counter *)

Lemma do_command_current s cmd s' :
  do_command s cmd = Ok s' → CurrentSegmentID s ≤ CurrentSegmentID s'.
Proof.
  destruct cmd; simpl; intros H; simplify_eq; try done;
    unfold doCreateNamespace, doDeleteNamespace, doCreateTopic, doDeleteTopic,
      doCreateConsumerGroup, doDeleteConsumerGroup, doUpdateOffsetCommits, doOpenSegment,
      doDeleteSegment, doCloseSegment, doUpdateSegmentNodes in *;
    repeat case_match; simplify_eq/=; bool_to_prop; lia.
Qed.

Lemma cluster_step_current s s' :
  cluster_step s s' → CurrentSegmentID s ≤ CurrentSegmentID s'.
Proof.
  intros [? index [c|] s2 _ H|? Hc1 Hc2]; simpl in *.
  - destruct (do_command _ c) eqn:E; simpl in H; simplify_eq/=.
    by eapply do_command_current.
  - simplify_eq/=. lia.
  - unfold u64, wrap. rewrite Z.mod_small; unfold MaxUint64 in *; lia.
Qed.

Lemma empty_state_wf : cluster_wf empty_state.
Proof.
  split; simpl; [constructor|set_solver| |apply sorted_by_nil].
  split; [apply sorted_by_nil..|set_solver|set_solver].
Qed.

Lemma cluster_step_wf s s' : cluster_wf s → cluster_step s s' → cluster_wf s'.
Proof.
  intros Hwf Hst. destruct Hst as [s index cmd s' Hadm H|s Hc1 Hc2];
    [|apply NextSegmentID_wf; [lia|done]].
  destruct cmd as [c|]; simpl in H; [|simplify_eq; by apply wf_with_Index].
  destruct (do_command _ c) eqn:E; simpl in H; simplify_eq. apply wf_with_Index.
  eapply do_command_wf; eauto.
Qed.

(** ** Deleting a topic *)

Lemma FindNamespace_NoDup s i n :
  NoDup (ns_Name <$> Namespaces s) → Namespaces s !! i = Some n →
  FindNamespace s (ns_Name n) = Some (i, n).
Proof. apply find_by_name_NoDup. Qed.

(** Looking up a namespace after one namespace was replaced. *)
Lemma FindNamespace_insert s i n n' name :
  cluster_wf s → Namespaces s !! i = Some n → ns_Name n' = ns_Name n →
  FindNamespace (with_Namespaces s (<[i := n']> (Namespaces s))) name =
  if String.eqb (ns_Name n) name then Some (i, n') else FindNamespace s name.
Proof.
  intros Hwf Hi Hn. pose proof (wf_namespaces s Hwf) as Hnd.
  set (s' := with_Namespaces s _).
  assert (Hnd' : NoDup (ns_Name <$> Namespaces s')) by by eapply NoDup_fmap_insert.
  assert (Hi' : Namespaces s' !! i = Some n')
    by (apply list_lookup_insert_eq; by eapply lookup_lt_Some).
  case_if; bool_to_prop; subst.
  - rewrite <-Hn. by apply FindNamespace_NoDup.
  - destruct (FindNamespace s name) as [[j m]|] eqn:Ej.
    + apply FindNamespace_Some in Ej as [Hj <-]. apply FindNamespace_NoDup; [done|].
      simpl. rewrite list_lookup_insert_ne; [done|]. intros ->. congruence.
    + apply FindNamespace_None. apply FindNamespace_None in Ej. simpl.
      rewrite list_fmap_insert, Hn, list_insert_id; [done|]. by rewrite list_lookup_fmap, Hi.
Qed.

Lemma find_topic_removed n name i t name' :
  NoDup (topic_Name <$> ns_Topics n) → FindTopic n name = Some (i, t) →
  ∀ groups, snd <$> FindTopic {| ns_Name := ns_Name n;
                                 ns_Topics := remove_at i (ns_Topics n);
                                 ns_ConsumerGroups := groups |} name' =
            if String.eqb name name' then None else snd <$> FindTopic n name'.
Proof.
  intros Hn Hf groups. set (n' := {| ns_Name := _ |}).
  assert (Hn' : NoDup (topic_Name <$> ns_Topics n')).
  { eapply NoDup_fmap_sublist; [|done]. simpl. rewrite remove_at_delete. apply sublist_delete. }
  pose proof (remove_topic_name n name i t name' Hn Hf) as Hrem.
  case_if; bool_to_prop; subst.
  - apply fmap_None, FindTopic_None. simpl. rewrite Hrem. naive_solver.
  - destruct (FindTopic n name') as [[j u]|] eqn:Ej.
    + apply FindTopic_Some in Ej as [Hj <-]. apply FindTopic_Some in Hf as [Hi <-].
      assert (Hu : u ∈ ns_Topics n').
      { simpl. eapply elem_of_remove_at_ne; [done|by eapply list_elem_of_lookup_2|congruence]. }
      apply list_elem_of_lookup in Hu as [k Hk]. unfold FindTopic.
      by rewrite (find_by_name_NoDup topic_Name _ k u Hn' Hk).
    + apply fmap_None, FindTopic_None. simpl. rewrite Hrem.
      apply FindTopic_None in Ej. naive_solver.
Qed.

(** ** Properties *)

(** Every state the store can reach from the empty one is well-formed: names are
    distinct, bindings refer to topics of their namespace, segments are ordered
    by identifier, no identifier is open and closed, and all are covered by the
    identifier counter, whose value never decreases. *)
Theorem reachable_wf s :
  reachable s → cluster_wf s ∧ 0 ≤ CurrentSegmentID s.
Proof.
  revert s. apply (rtc_ind_r (λ s, cluster_wf s ∧ 0 ≤ CurrentSegmentID s) empty_state);
    [split; [apply empty_state_wf|done]|].
  intros s1 s2 _ Hs [IH1 IH2]. split; [by eapply cluster_step_wf|].
  apply cluster_step_current in Hs. lia.
Qed.

Lemma reachable_wf_witness :
  cluster_wf (NextSegmentID (doCreateNamespace empty_state
    {| nc_Namespace := DefaultNamespace |})).1 ∧
  0 ≤ CurrentSegmentID (NextSegmentID (doCreateNamespace empty_state
    {| nc_Namespace := DefaultNamespace |})).1.
Proof.
  apply reachable_wf. eapply rtc_l.
  { eapply (step_Do _ 0 (Some (CreateNamespace {| nc_Namespace := DefaultNamespace |}))).
    - intros c Hc. injection Hc as <-. exact I.
    - reflexivity. }
  eapply rtc_l; [|apply rtc_refl].
  apply (step_NextSegmentID (doCreateNamespace empty_state
    {| nc_Namespace := DefaultNamespace |})); [reflexivity|discriminate].
Defined.

(** Segment lookup by binary search is exact: on a well-formed state
    [GetSegment] returns a segment if and only if it is an open or closed segment with
    that identifier. *)
Theorem GetSegment_correct s id seg :
  cluster_wf s →
  GetSegment s id = Some seg ↔ seg ∈ OpenSegments s ++ ClosedSegments s ∧ seg_ID seg = id.
Proof. apply GetSegment_iff. Qed.

Lemma GetSegment_correct_witness :
  ∃ seg, GetSegment demo_state 3 = Some seg ∧
    seg ∈ OpenSegments demo_state ++ ClosedSegments demo_state ∧ seg_ID seg = 3.
Proof.
  eexists. split; [reflexivity|]. apply GetSegment_correct; [|reflexivity].
  apply (bool_decide_unpack _). vm_compute. exact I.
Defined.

(** Life cycle of a segment: an admissible command moves an identifier only along
    absent -> open -> closed -> absent (or open -> absent), by the one
    command that is about it or by the deletion of its owner; a closed segment is never
    reopened; and while a segment exists its owner, type, generation, shard
    and creation time do not change, nor the size and checksum once it is closed. *)
Theorem segment_lifecycle s cmd s' id :
  cluster_wf s → admissible s cmd → do_command s cmd = Ok s' →
  phase_step id cmd (segment_phase s id) (segment_phase s' id) ∧
  (∀ x x', GetSegment s id = Some x → GetSegment s' id = Some x' →
     segment_identity x = segment_identity x') ∧
  (∀ x x', GetClosedSegment s id = Some x → GetSegment s' id = Some x' →
     segment_content x = segment_content x').
Proof.
  intros Hwf Hadm H. pose proof (do_command_wf s cmd s' Hwf Hadm H) as Hwf'.
  split; [by apply do_command_phase|]. split.
  - intros x x' [Hx Hid]%GetSegment_iff [Hx' Hid']%GetSegment_iff; [|done..].
    apply (do_command_identity s cmd s' x x' Hwf Hadm H Hx Hx'). congruence.
  - intros x x' [Hx Hid]%GetClosedSegment_iff [Hx' Hid']%GetSegment_iff; [|done..].
    assert (Hxa : x ∈ OpenSegments s ++ ClosedSegments s) by (apply elem_of_app; by right).
    apply (do_command_identity s cmd s' x x' Hwf Hadm H Hxa Hx'); [congruence|done].
Qed.

Lemma segment_lifecycle_witness :
  ∃ s', do_command demo_state (CloseSegment
          {| scl_ID := 3; scl_DoneNodeID := 1; scl_ClosedAt := 400; scl_Size := 10;
             scl_Sha1 := [] |}) = Ok s' ∧
        segment_phase demo_state 3 = PhOpen ∧ segment_phase s' 3 = PhClosed ∧
        phase_step 3 (CloseSegment
          {| scl_ID := 3; scl_DoneNodeID := 1; scl_ClosedAt := 400; scl_Size := 10;
             scl_Sha1 := [] |}) (segment_phase demo_state 3) (segment_phase s' 3).
Proof.
  eexists. split; [reflexivity|]. split; [reflexivity|]. split; [vm_compute; reflexivity|].
  apply segment_lifecycle; [|exact I|reflexivity].
  apply (bool_decide_unpack _). vm_compute. exact I.
Defined.

(** Identifiers drawn by the leader are fresh: as long as the 64-bit counter does
    not overflow, [NextSegmentID] returns an identifier above every open and closed
    segment, so that the command that creates a segment with it is admissible, and the
    state that is published covers it. *)
Theorem NextSegmentID_fresh s :
  cluster_wf s → 0 ≤ CurrentSegmentID s < MaxUint64 →
  ∀ cmd, sc_ID cmd = (NextSegmentID s).2 →
    admissible (NextSegmentID s).1 (CreateSegment cmd) ∧
    (∀ seg, seg ∈ OpenSegments s ++ ClosedSegments s → seg_ID seg < sc_ID cmd) ∧
    CurrentSegmentID (NextSegmentID s).1 = sc_ID cmd.
Proof.
  intros Hwf Hc cmd Hid.
  assert (Hcmd : sc_ID cmd = CurrentSegmentID s + 1).
  { rewrite Hid. simpl. unfold u64, wrap. apply Z.mod_small. unfold MaxUint64 in Hc. lia. }
  assert (Hlt : ∀ seg, seg ∈ OpenSegments s ++ ClosedSegments s → seg_ID seg < sc_ID cmd).
  { intros seg Hseg. apply (segs_wf_current _ _ _ (wf_segs s Hwf)) in Hseg. lia. }
  split_and!; [|done|by rewrite Hid].
  intros seg Hseg. apply Hlt in Hseg. lia.
Qed.

Lemma NextSegmentID_fresh_witness :
  admissible (NextSegmentID demo_state).1 (CreateSegment demo_open).
Proof.
  apply (NextSegmentID_fresh demo_state); [|split; [discriminate|reflexivity]|reflexivity].
  apply (bool_decide_unpack _). vm_compute. exact I.
Defined.

(** Deleting a topic leaves no trace of it: when the topic exists, the command
    succeeds; afterwards the topic is gone and every other topic of every namespace is
    as before; exactly the segments of the topic are gone; no consumer group
    of the namespace is bound to it, and every offset commit that is left refers to a segment
    that still exists. *)
Theorem doDeleteTopic_complete s cmd :
  cluster_wf s → TopicExists s (td_Namespace cmd) (td_Name cmd) = true →
  ∃ s', doDeleteTopic s cmd = Ok s' ∧
    (∀ ns name, GetTopic s' ns name =
       if (String.eqb (td_Namespace cmd) ns && String.eqb (td_Name cmd) name)%bool then None
       else GetTopic s ns name) ∧
    (∀ seg, seg ∈ OpenSegments s' ++ ClosedSegments s' ↔
       seg ∈ OpenSegments s ++ ClosedSegments s ∧
       owned_by ClusterSegment_TOPIC (td_Namespace cmd) (td_Name cmd) seg = false) ∧
    (∀ i n cg, FindNamespace s' (td_Namespace cmd) = Some (i, n) → cg ∈ ns_ConsumerGroups n →
       (∀ b, b ∈ cg_Bindings cg → b_TopicName b ≠ td_Name cmd) ∧
       (∀ c, c ∈ cg_OffsetCommits cg → is_Some (GetSegment s' (oc_SegmentID c)))).
Proof.
  intros Hwf Hex. unfold TopicExists in Hex.
  destruct (FindNamespace s (td_Namespace cmd)) as [[i n]|] eqn:En; [|done].
  destruct (FindTopic n (td_Name cmd)) as [[j t]|] eqn:Et; [|done].
  destruct (doDeleteTopic s cmd) as [s'| |] eqn:Ed;
    [|by destruct e|by unfold doDeleteTopic in Ed; rewrite En, Et in Ed].
  pose proof (doDeleteTopic_wf s cmd s' Hwf Ed) as Hwf'.
  unfold doDeleteTopic in Ed. rewrite En, Et, unbind_consumer_groups in Ed.
  injection Ed as Ed. set (n' := {| ns_Name := _ |}) in Ed.
  pose proof (FindNamespace_Some _ _ _ _ En) as [Hi Hname].
  pose proof (wf_FindNamespace _ _ _ _ Hwf En) as Hnwf.
  assert (Hfind : ∀ ns, FindNamespace s' ns =
    if String.eqb (ns_Name n) ns then Some (i, n') else FindNamespace s ns).
  { intros ns. rewrite <-Ed. by apply (FindNamespace_insert s i n n'). }
  assert (Hsegs : ∀ seg, seg ∈ OpenSegments s' ++ ClosedSegments s' ↔
    seg ∈ OpenSegments s ++ ClosedSegments s ∧
    owned_by ClusterSegment_TOPIC (td_Namespace cmd) (td_Name cmd) seg = false).
  { intros seg. rewrite <-Ed. simpl. rewrite !elem_of_app, !elem_of_drop_segments. tauto. }
  exists s'. split_and!; [done| |done|].
  - intros ns name. unfold GetTopic. rewrite Hfind, Hname.
    destruct (String.eqb_spec (td_Namespace cmd) ns) as [<-|]; [|done]. simpl.
    rewrite En. apply (find_topic_removed n (td_Name cmd) j t); [apply Hnwf|done].
  - intros i' m cg Hm Hcg. rewrite Hfind, Hname, String.eqb_refl in Hm. simplify_eq.
    simpl in Hcg. apply list_elem_of_fmap in Hcg as (cg0 & -> & Hcg0).
    destruct (unbind_consumer_group_spec s cmd cg0) as (_ & _ & _ & -> & ->).
    split; [intros b [Hb _]%elem_of_bfilter; by bool_to_prop|].
    intros c [Hc _]%elem_of_bfilter. apply negb_true_iff in Hc. unfold commit_of_topic in Hc.
    destruct (GetSegment s (oc_SegmentID c)) as [seg|] eqn:Eseg; [|done].
    apply GetSegment_iff in Eseg as [Hseg Hid]; [|done].
    exists seg. apply GetSegment_iff; [done|]. split; [by apply Hsegs|done].
Qed.

Lemma doDeleteTopic_complete_witness :
  ∃ s', doDeleteTopic demo_state {| td_Namespace := "default"; td_Name := "orders" |} = Ok s' ∧
        GetTopic s' "default" "orders" = None ∧
        GetTopic s' "default" "audit" = Some (demo_topic "audit").
Proof.
  destruct (doDeleteTopic_complete demo_state
    {| td_Namespace := "default"; td_Name := "orders" |}) as (s' & H1 & H2 & _).
  - apply (bool_decide_unpack _). vm_compute. exact I.
  - reflexivity.
  - exists s'. split; [exact H1|]. rewrite !H2. split; reflexivity.
Defined.
