(* ===== verification/ClusterStore.v ===== *)
(** * The cluster state store under concurrency

    [ClusterStateStore] (src/mq/cluster_state_store.go) keeps the current state
    behind one pointer; [Do] (called by raft) and [NextSegmentID] (called by the
    leader's request handlers) run concurrently, each as a loop of an atomic load, a
    computation on the loaded state and a compare-and-swap of the pointer.  This
    file models the pointer, the published state objects and the interleavings
    of the loops, and shows that every interleaving is equivalent to running the operations
    one after the other, in the order of their successful compare-and-swaps. *)
From S2P Require Import Prelude Emq ClusterState ClusterOps ClusterInv ClusterProps.

(** ** Operations and interleavings *)

Inductive op : Type :=
| OpDo (index : Z) (cmd : option ClusterCommand)
| OpNextSegmentID.

(** The body of an operation on the state it loaded: next state and result. *)
Definition run_op (o : op) (s : ClusterState) : fsm (ClusterState * option Z) :=
  match o with
  | OpDo index cmd => s' ← Do s index cmd; Ok (s', None)
  | OpNextSegmentID => Ok (prod_map id Some (NextSegmentID s))
  end.

(** A goroutine: about to load, holding the pointer it loaded, or returned. *)
Inductive thread : Type :=
| Loading (o : op)
| Swapping (o : op) (loaded : nat)
| Returned (o : op) (result : option Z).

(** [heap]: the published state objects by address (never written again);
    [ptr]: the store's pointer; [log]: the operations whose compare-and-swap succeeded, with
    their results, in order. *)
Record Store : Type := {
  heap : gmap nat ClusterState;
  ptr : nat;
  threads : gmap nat thread;
  log : list (op * option Z);
}.

(** The identifier counter has not reached the top of its range. *)
Definition no_overflow (o : op) (s : ClusterState) : Prop :=
  match o with
  | OpNextSegmentID => 0 ≤ CurrentSegmentID s < MaxUint64
  | _ => True
  end.

Inductive store_step : Store → Store → Prop :=
| step_load h p ts l t o :
    ts !! t = Some (Loading o) →
    store_step {| heap := h; ptr := p; threads := ts; log := l |}
               {| heap := h; ptr := p; threads := <[t := Swapping o p]> ts; log := l |}
| step_cas_ok h p ts l t o s s' r q :
    ts !! t = Some (Swapping o p) → h !! p = Some s →
    no_overflow o s → run_op o s = Ok (s', r) → h !! q = None →
    store_step {| heap := h; ptr := p; threads := ts; log := l |}
               {| heap := <[q := s']> h; ptr := q; threads := <[t := Returned o r]> ts;
                  log := l ++ [(o, r)] |}
| step_cas_fail h p ts l t o a :
    ts !! t = Some (Swapping o a) → a ≠ p →
    store_step {| heap := h; ptr := p; threads := ts; log := l |}
               {| heap := h; ptr := p; threads := <[t := Loading o]> ts; log := l |}.

(** ** Sequential specification *)

(** Running a log of operations one after the other, each with the result it is
    recorded with. *)
Inductive run_log (init : ClusterState) : list (op * option Z) → ClusterState → Prop :=
| run_log_nil : run_log init [] init
| run_log_snoc l s o r s' :
    run_log init l s → no_overflow o s → run_op o s = Ok (s', r) →
    run_log init (l ++ [(o, r)]) s'.

(** The identifiers a log handed out. *)
Definition issued (l : list (op * option Z)) : list Z := omap snd l.

Definition initial_store (init : ClusterState) (ts : gmap nat thread) : Store :=
  {| heap := {[0%nat := init]}; ptr := 0; threads := ts; log := [] |}.

(** Goroutines that have returned, each with its operation and result. *)
Definition returned (ts : gmap nat thread) (t : nat) (o : op) (r : option Z) : Prop :=
  ts !! t = Some (Returned o r).

(** ** Proofs *)

Record store_inv (init : ClusterState) (st : Store) : Prop := {
  inv_current : ∃ s, heap st !! ptr st = Some s ∧ run_log init (log st) s;
  inv_returned : ∀ t o r, returned (threads st) t o r → (o, r) ∈ log st;
}.

Lemma store_step_inv init st st' :
  store_inv init st → store_step st st' → store_inv init st'.
Proof.
  intros [(s & Hs & Hl) Hr] Hst. unfold returned in *.
  destruct Hst as [h p ts l t o Ht|h p ts l t o s1 s2 r q Ht Hp Hno Hrun Hq|h p ts l t o a Ht Ha];
    simpl in *; (split; simpl; [|intros t' o' r'; unfold returned; rewrite lookup_insert_Some]).
  - eauto.
  - intros [[_ ?]|[_ ?]]; [done|eauto].
  - simplify_eq. exists s2. rewrite lookup_insert_eq. split; [done|]. by eapply run_log_snoc.
  - intros [[_ ?]|[_ H]]; [simplify_eq; set_solver|]. apply elem_of_app. left. eauto.
  - eauto.
  - intros [[_ ?]|[_ ?]]; [done|eauto].
Qed.

Lemma run_op_current o s s' r :
  no_overflow o s → run_op o s = Ok (s', r) →
  CurrentSegmentID s ≤ CurrentSegmentID s' ∧
  (∀ id, r = Some id → CurrentSegmentID s < id ∧ id = CurrentSegmentID s').
Proof.
  destruct o as [index cmd|]; simpl; intros Hno H.
  - destruct (Do s index cmd) as [s1| |] eqn:E; simpl in H; simplify_eq. split; [|done].
    destruct cmd as [c|]; simpl in E; [|simplify_eq; simpl; lia].
    destruct (do_command s c) eqn:Ec; simpl in E; simplify_eq. simpl.
    by eapply do_command_current.
  - simplify_eq. simpl. unfold u64, wrap, MaxUint64 in *. rewrite Z.mod_small by lia.
    split; [lia|]. intros id Hid. simplify_eq. lia.
Qed.

Lemma run_log_issued init l s :
  run_log init l s →
  CurrentSegmentID init ≤ CurrentSegmentID s ∧ sorted_by id (issued l) ∧
  (∀ id, id ∈ issued l → CurrentSegmentID init < id ≤ CurrentSegmentID s).
Proof.
  induction 1 as [|l s o r s' Hl IH Hno Hrun].
  - split_and!; [lia|apply sorted_by_nil|]. intros id Hid. by apply elem_of_nil in Hid.
  - destruct IH as (IH1 & IH2 & IH3). apply run_op_current in Hrun as [H1 H2]; [|done].
    unfold issued. rewrite omap_app. simpl. destruct r as [id|]; simpl.
    + destruct (H2 id eq_refl) as [H3 ->]. split_and!; [lia| |].
      * apply sorted_by_app. split_and!; [done| |].
        { apply sorted_by_cons. split; [|apply sorted_by_nil]. set_solver. }
        intros x y Hx ->%list_elem_of_singleton. specialize (IH3 x Hx). cbv [id]. lia.
      * intros id [Hid| ->%list_elem_of_singleton]%elem_of_app; [|lia].
        specialize (IH3 id Hid). lia.
    + rewrite app_nil_r. split_and!; [lia|done|]. intros id Hid. specialize (IH3 id Hid). lia.
Qed.

(** ** Properties *)

(** The store is linearizable (C18): after any interleaving of concurrent [Do] and
    [NextSegmentID] calls, the current state is the result of running the completed
    operations one at a time in the order of their successful compare-and-swaps, every
    goroutine that returned got the result of its operation in that
    sequential run, and the identifiers handed out are strictly increasing (hence
    distinct) and above the initial counter; the counter of 64 bits is assumed not to run out. *)
Theorem store_linearizable init ts st :
  (∀ t o r, ts !! t ≠ Some (Returned o r)) →
  rtc store_step (initial_store init ts) st →
  ∃ s, heap st !! ptr st = Some s ∧ run_log init (log st) s ∧
    (∀ t o r, returned (threads st) t o r → (o, r) ∈ log st) ∧
    sorted_by id (issued (log st)) ∧
    (∀ id, id ∈ issued (log st) → CurrentSegmentID init < id).
Proof.
  intros Hts Hrtc.
  assert (Hinv : store_inv init st).
  { revert st Hrtc. apply (rtc_ind_r (store_inv init) _).
    - split; simpl; [|intros t o r H; by destruct (Hts t o r)].
      exists init. rewrite lookup_singleton_eq. split; [done|constructor].
    - intros y z _ Hstep Hy. by eapply store_step_inv. }
  destruct Hinv as [(s & Hs & Hl) Hr]. exists s.
  destruct (run_log_issued _ _ _ Hl) as (_ & H1 & H2).
  split_and!; [done..|]. intros id Hid. specialize (H2 id Hid). lia.
Qed.

Lemma store_linearizable_witness :
  ∃ st s, rtc store_step
      (initial_store demo_state
         {[0%nat := Loading OpNextSegmentID; 1%nat := Loading OpNextSegmentID]}) st ∧
    returned (threads st) 0 OpNextSegmentID (Some 6) ∧
    returned (threads st) 1 OpNextSegmentID (Some 5) ∧
    heap st !! ptr st = Some s ∧ run_log demo_state (log st) s.
Proof.
  set (ts := {[0%nat := Loading OpNextSegmentID; 1%nat := Loading OpNextSegmentID]}
    : gmap nat thread).
  assert (Hrun : ∃ st, rtc store_step (initial_store demo_state ts) st ∧
    returned (threads st) 0 OpNextSegmentID (Some 6) ∧
    returned (threads st) 1 OpNextSegmentID (Some 5)).
  { eexists. split.
    - eapply rtc_l; [by apply (step_load _ _ _ _ 0%nat)|].
      eapply rtc_l; [by apply (step_load _ _ _ _ 1%nat)|].
      eapply rtc_l; [by eapply (step_cas_ok _ _ _ _ 1%nat) with (q := 1%nat)|].
      eapply rtc_l; [by eapply (step_cas_fail _ _ _ _ 0%nat)|].
      eapply rtc_l; [by apply (step_load _ _ _ _ 0%nat)|].
      eapply rtc_l; [by eapply (step_cas_ok _ _ _ _ 0%nat) with (q := 2%nat)|].
      apply rtc_refl.
    - split; reflexivity. }
  destruct Hrun as (st & H1 & H2 & H3).
  destruct (store_linearizable demo_state ts st) as (s & Hs & Hl & _); [|exact H1|].
  - intros t o r. unfold ts. rewrite lookup_insert_Some, lookup_singleton_Some. naive_solver.
  - exists st, s. split; [exact H1|]. split; [exact H2|]. split; [exact H3|]. by split.
Defined.
