(* ===== verification/Consumers.v ===== *)
(** * Consumer groups: the in-memory queue

    Models src/mq/consumers/message.go, group.go and subscription.go.  A [Group] is a
    ring buffer of messages shared by its subscriptions under one mutex; a message in the
    ring is ready, leased to a subscription, or acknowledged and waiting for the
    messages before it.  A method is the code between [Lock] and [Unlock], so it
    is atomic; where the code waits on the condition variable the method returns [Wait]
    and is run again on a later state. *)
From S2P Require Import Prelude Emq.

(** ** Data *)

Record Message : Type := {
  TopicNamespace : string;
  TopicName : string;
  SegmentID : Z;
  CommitOffset : Z;
  MessageTime : Z;
  Payload : option EmqMessage;
  SubscriptionID : Z;
  SeqNo : Z;
}.

Record Commit : Type := {
  commit_SegmentID : Z;
  commit_CommitOffset : Z;
}.

Record Group : Type := {
  g_n : nat;
  g_messages : list Message;
  g_read : nat;
  g_write : nat;
  g_closed : bool;
  g_Commits : bool; (* the channel is not nil *)
}.

Record Subscription : Type := {
  sub_ID : Z;
  sub_size : Z;
  sub_inflight : Z;
  sub_maxMessages : Z;
  sub_blocking : bool;
  sub_closed : bool;
  sub_seq : Z;
}.

Inductive error : Type :=
| ErrGroupSize
| ErrGroupClosed
| ErrSubscriptionClosed
| ErrNotLeased
| ErrEmpty
| ErrSeqNo.

(** What a run of a critical section does: finish, return an error, or wait. *)
Inductive locked (A : Type) : Type :=
| Done (a : A)
| Fails (e : error)
| Wait.
Arguments Done {A} _.
Arguments Fails {A} _.
Arguments Wait {A}.

Definition ready : Z := MaxUint64.
Definition ack : Z := 0.
Definition zeroSeqNo : Z := 0.

(** ** Messages *)

(** [Message{}], the value [Reset] stores. *)
Definition zero_message : Message :=
  {| TopicNamespace := ""; TopicName := ""; SegmentID := 0; CommitOffset := 0;
     MessageTime := 0; Payload := None; SubscriptionID := 0; SeqNo := 0 |}.

#[export] Instance Message_inhabited : Inhabited Message := populate zero_message.

Definition with_lease (m : Message) (id seq : Z) : Message :=
  {| TopicNamespace := TopicNamespace m; TopicName := TopicName m;
     SegmentID := SegmentID m; CommitOffset := CommitOffset m;
     MessageTime := MessageTime m; Payload := Payload m;
     SubscriptionID := id; SeqNo := seq |}.

(** ** Ring buffer *)

Definition g_len (g : Group) : nat := length (g_messages g).

(** The indices visited by [for j := from; j != g.write; j = (j + 1) % len(g.messages)]. *)
Fixpoint ring (fuel len from write : nat) : list nat :=
  match fuel with
  | O => []
  | S fuel => if (from =? write)%nat then []
              else from :: ring fuel len ((from + 1) mod len)%nat write
  end.

Definition g_ring (g : Group) : list nat := ring (g_len g) (g_len g) (g_read g) (g_write g).

(** The loop that searches the ring for the first message that satisfies [p]. *)
Definition ring_find (p : Message → bool) (g : Group) : option nat :=
  snd <$> find_first (λ j, p (g_messages g !!! j)) (g_ring g).

Definition with_messages (g : Group) (l : list Message) : Group :=
  {| g_n := g_n g; g_messages := l; g_read := g_read g; g_write := g_write g;
     g_closed := g_closed g; g_Commits := g_Commits g |}.

(** [g.messages[i].SubscriptionID = id; g.messages[i].SeqNo = seq] *)
Definition set_lease (g : Group) (i : nat) (id seq : Z) : Group :=
  with_messages g (<[i := with_lease (g_messages g !!! i) id seq]> (g_messages g)).

(** ** Group *)

Definition NewGroup (n : Z) : result error Group :=
  if n <? 1 then Err ErrGroupSize
  else Ok {| g_n := Z.to_nat n; g_messages := replicate (Z.to_nat n + 1) zero_message;
             g_read := 0; g_write := 0; g_closed := false; g_Commits := false |}.

(** [Offer] from the moment it holds the mutex. *)
Definition Offer_locked (g : Group) (message : Message) : locked Group :=
  if ((g_write g + 1) mod g_len g =? g_read g)%nat then
    if g_closed g then Fails ErrGroupClosed else Wait
  else
    Done {| g_n := g_n g;
            g_messages := <[g_write g := with_lease message ready zeroSeqNo]> (g_messages g);
            g_read := g_read g;
            g_write := ((g_write g + 1) mod g_len g)%nat;
            g_closed := g_closed g;
            g_Commits := g_Commits g |}.

Definition Offer (g : Group) (message : Message) : locked Group :=
  if g_closed g then Fails ErrGroupClosed else Offer_locked g message.

Definition Subscribe (currentSubscriptionID : Z) : Z * Subscription :=
  let id := u64 (currentSubscriptionID + 1) in
  (id, {| sub_ID := id; sub_size := 0; sub_inflight := 0; sub_maxMessages := 0;
          sub_blocking := true; sub_closed := false; sub_seq := 0 |}).

Definition Group_Close (g : Group) : Group :=
  {| g_n := g_n g; g_messages := g_messages g; g_read := g_read g; g_write := g_write g;
     g_closed := true; g_Commits := false |}.

(** ** Subscription *)

Definition with_sub (s : Subscription) (size max : Z) (blocking : bool) : Subscription :=
  {| sub_ID := sub_ID s; sub_size := size; sub_inflight := sub_inflight s;
     sub_maxMessages := max; sub_blocking := blocking; sub_closed := sub_closed s;
     sub_seq := sub_seq s |}.

Definition SetSize (s : Subscription) (size : Z) : Subscription :=
  with_sub s size (sub_maxMessages s) (sub_blocking s).

Definition SetMaxMessages (s : Subscription) (maxMessages : Z) : Subscription :=
  with_sub s (sub_size s) maxMessages (sub_blocking s).

Definition SetBlocking (s : Subscription) (blocking : bool) : Subscription :=
  with_sub s (sub_size s) (sub_maxMessages s) blocking.

Definition with_progress (s : Subscription) (inflight seq : Z) (closed : bool) : Subscription :=
  {| sub_ID := sub_ID s; sub_size := sub_size s; sub_inflight := inflight;
     sub_maxMessages := sub_maxMessages s; sub_blocking := sub_blocking s;
     sub_closed := closed; sub_seq := seq |}.

(** The subscription may take another message. *)
Definition has_capacity (s : Subscription) : bool :=
  ((sub_size s =? 0) || (sub_inflight s <? sub_size s)) &&
  ((sub_maxMessages s =? 0) || (sub_seq s <? sub_maxMessages s)).

(** What [Next] does when it found no message: give up or wait. *)
Definition Next_idle {A} (s : Subscription) : locked A :=
  if (sub_inflight s =? 0) &&
     (negb (sub_blocking s) ||
      (negb (sub_maxMessages s =? 0) && (sub_maxMessages s <=? sub_seq s)))
  then Fails ErrEmpty else Wait.

(** One iteration of the loop of [Next] under the mutex, through the lease of the
    message: the group, the subscription and the index of the leased message. *)
Definition Next_locked (s : Subscription) (g : Group) : locked (Group * Subscription * nat) :=
  if has_capacity s then
    match ring_find (λ m, SubscriptionID m =? ready) g with
    | Some i =>
      let seq := u64 (sub_seq s + 1) in
      Done (set_lease g i (sub_ID s) seq,
            with_progress s (u32 (sub_inflight s + 1)) seq (sub_closed s), i)
    | None =>
      if sub_closed s then Fails ErrSubscriptionClosed
      else if ((g_read g =? g_write g)%nat && g_closed g)%bool then Fails ErrGroupClosed
      else Next_idle s
    end
  else Next_idle s.

(** [*message = s.group.messages[i]], which [Next] runs after it released the mutex. *)
Definition Next_copy (g : Group) (i : nat) : Message := g_messages g !!! i.

(** [Next] when nothing else runs: the message it returns is read right after the
    lease. *)
Definition Next (s : Subscription) (g : Group) : locked (Group * Subscription * Message) :=
  if sub_closed s then Fails ErrSubscriptionClosed
  else match Next_locked s g with
       | Done (g', s', i) => Done (g', s', Next_copy g' i)
       | Fails e => Fails e
       | Wait => Wait
       end.

Definition leased_to (id seqNo : Z) (m : Message) : bool :=
  (SubscriptionID m =? id) && (SeqNo m =? seqNo).

(** The loop at the end of [Ack]: from [j], reset the acknowledged messages and collect
    their commits. *)
Fixpoint pop_acked (fuel : nat) (messages : list Message) (j write : nat) :
    list Message * nat * list Commit :=
  match fuel with
  | O => (messages, j, [])
  | S fuel =>
    if (negb (j =? write)%nat && (SubscriptionID (messages !!! j) =? ack))%bool then
      let commit := {| commit_SegmentID := SegmentID (messages !!! j);
                       commit_CommitOffset := CommitOffset (messages !!! j) |} in
      let '(messages', j', commits) :=
        pop_acked fuel (<[j := zero_message]> messages) ((j + 1) mod length messages)%nat write in
      (messages', j', commit :: commits)
    else (messages, j, [])
  end.

(** [Ack]: the group, the subscription and the commits it sends on the channel. *)
Definition Ack (s : Subscription) (g : Group) (seqNo : Z) :
    result error (Group * Subscription * list Commit) :=
  if seqNo =? 0 then Err ErrSeqNo
  else match ring_find (leased_to (sub_ID s) seqNo) g with
       | None => Err ErrNotLeased
       | Some i =>
         let g := set_lease g i ack zeroSeqNo in
         let s := with_progress s (u32 (sub_inflight s - 1)) (sub_seq s) (sub_closed s) in
         let '(messages, read, commits) :=
           pop_acked (g_len g) (g_messages g) (g_read g) (g_write g) in
         Ok ({| g_n := g_n g; g_messages := messages; g_read := read; g_write := g_write g;
                g_closed := g_closed g; g_Commits := g_Commits g |},
             s, if g_Commits g then commits else [])
       end.

Definition Nack (s : Subscription) (g : Group) (seqNo : Z) : result error (Group * Subscription) :=
  if seqNo =? 0 then Err ErrSeqNo
  else match ring_find (leased_to (sub_ID s) seqNo) g with
       | None => Err ErrNotLeased
       | Some i =>
         Ok (set_lease g i ready zeroSeqNo,
             with_progress s (u32 (sub_inflight s - 1)) (sub_seq s) (sub_closed s))
       end.

(** The loop of [Close]: release every message leased to the subscription. *)
Definition release_all (id : Z) (g : Group) : Group :=
  foldl (λ g i, if SubscriptionID (g_messages g !!! i) =? id
                then set_lease g i ready zeroSeqNo else g) g (g_ring g).

Definition Close (s : Subscription) (g : Group) : Group * Subscription :=
  (release_all (sub_ID s) g, with_progress s (sub_inflight s) (sub_seq s) true).
