(* ===== verification/ConsumersRing.v ===== *)
(** * The ring buffer of a consumer group implements a bounded queue

    The specification is a list of messages in the order they were offered; the
    operations of src/mq/consumers/group.go and subscription.go on the
    ring are shown to act on the window between [read] and [write] as the operations of
    the list. *)
From S2P Require Import Prelude Emq Consumers.

(** ** The window of the ring *)

Definition slot (len from k : nat) : nat := ((from + k) mod len)%nat.

Definition count (g : Group) : nat := slot (g_len g) (g_write g) (g_len g - g_read g).

Definition window_of (messages : list Message) (from n : nat) : list Message :=
  (λ k, messages !!! slot (length messages) from k) <$> seq 0 n.

(** The messages of the group, oldest first. *)
Definition window (g : Group) : list Message := window_of (g_messages g) (g_read g) (count g).

Record group_shape (g : Group) : Prop := {
  shape_n : (1 ≤ g_n g)%nat;
  shape_len : g_len g = S (g_n g);
  shape_read : (g_read g < g_len g)%nat;
  shape_write : (g_write g < g_len g)%nat;
}.

(** ** The queue *)

Definition is_ready (m : Message) : bool := SubscriptionID m =? ready.

Definition commit_of (m : Message) : Commit :=
  {| commit_SegmentID := SegmentID m; commit_CommitOffset := CommitOffset m |}.

(** Acknowledged messages at the front, and the rest. *)
Fixpoint split_acked (q : list Message) : list Message * list Message :=
  match q with
  | [] => ([], [])
  | m :: q' => if SubscriptionID m =? ack then (m :: (split_acked q').1, (split_acked q').2)
               else ([], q)
  end.

Definition queue_offer (n : nat) (q : list Message) (m : Message) : option (list Message) :=
  if (length q <? n)%nat then Some (q ++ [with_lease m ready zeroSeqNo]) else None.

(** Lease the oldest ready message. *)
Definition queue_next (id seqNo : Z) (q : list Message) : option (list Message * Message) :=
  '(k, m) ← find_first is_ready q;
  Some (<[k := with_lease m id seqNo]> q, with_lease m id seqNo).

Definition queue_ack (id seqNo : Z) (q : list Message) : option (list Message * list Commit) :=
  '(k, m) ← find_first (leased_to id seqNo) q;
  let '(done, rest) := split_acked (<[k := with_lease m ack zeroSeqNo]> q) in
  Some (rest, commit_of <$> done).

Definition queue_nack (id seqNo : Z) (q : list Message) : option (list Message) :=
  '(k, m) ← find_first (leased_to id seqNo) q;
  Some (<[k := with_lease m ready zeroSeqNo]> q).

Definition release (id : Z) (m : Message) : Message :=
  if SubscriptionID m =? id then with_lease m ready zeroSeqNo else m.

Definition queue_close (id : Z) (q : list Message) : list Message := release id <$> q.

(** ** Slots *)

Lemma slot_cases len from k :
  (from < len)%nat → (k ≤ len)%nat →
  slot len from k = if (from + k <? len)%nat then (from + k)%nat else (from + k - len)%nat.
Proof.
  intros Hf Hk. unfold slot. case_if; bool_to_prop.
  - by apply Nat.mod_small.
  - replace (from + k)%nat with ((from + k - len) + 1 * len)%nat by lia.
    rewrite Nat.Div0.mod_add. destruct (decide (from + k - len = len)%nat); [lia|].
    rewrite Nat.mod_small; lia.
Qed.

Ltac slots := rewrite ?slot_cases in * by lia; repeat case_if; bool_to_prop; try lia.

Lemma slot_lt len from k : (from < len)%nat → (k ≤ len)%nat → (slot len from k < len)%nat.
Proof. intros. slots. Qed.

Lemma slot_inj len from k k' :
  (from < len)%nat → (k < len)%nat → (k' < len)%nat → slot len from k = slot len from k' → k = k'.
Proof. intros. slots. Qed.

Lemma slot_slot len from a b :
  (from < len)%nat → (a + b < len)%nat → slot len (slot len from a) b = slot len from (a + b).
Proof.
  intros Hf Ha. pose proof (slot_lt len from a Hf ltac:(lia)). slots.
Qed.

Lemma slot_step len from k :
  (from < len)%nat → (S k < len)%nat →
  slot len ((from + 1) mod len)%nat k = slot len from (S k).
Proof.
  intros Hf Hk. change (S k) with (1 + k)%nat. by rewrite <- slot_slot by lia.
Qed.

Lemma ring_slots len write c : ∀ fuel from,
  (c ≤ fuel)%nat → (from < len)%nat → (c < len)%nat → write = slot len from c →
  ring fuel len from write = slot len from <$> seq 0 c.
Proof.
  induction c as [|c IH]; intros fuel from Hfuel Hf Hc ->.
  - rewrite slot_cases, Nat.add_0_r by lia. destruct fuel; simpl; [done|].
    apply Nat.ltb_lt in Hf. rewrite Hf. by rewrite Nat.eqb_refl.
  - destruct fuel as [|fuel]; [lia|]. cbn [ring]. case_if; bool_to_prop; [slots|].
    rewrite (IH fuel); [|lia|apply Nat.mod_upper_bound; lia|lia|by rewrite slot_step by lia].
    cbn [seq]. rewrite fmap_cons. f_equal; [slots|].
    rewrite <- seq_shift, <- list_fmap_compose. apply list_fmap_ext. intros i k Hk.
    apply lookup_seq in Hk as [-> Hk]. apply slot_step; lia.
Qed.

(** ** The window *)

Section window.
Context (g : Group) (Hg : group_shape g).

Lemma count_lt : (count g < g_len g)%nat.
Proof using Hg.
  destruct Hg. unfold count. rewrite slot_cases by lia. case_if; bool_to_prop; lia.
Qed.

Lemma slot_count : slot (g_len g) (g_read g) (count g) = g_write g.
Proof using Hg.
  pose proof count_lt. destruct Hg. unfold count in *. slots.
Qed.

Lemma g_ring_slots : g_ring g = slot (g_len g) (g_read g) <$> seq 0 (count g).
Proof using Hg.
  pose proof count_lt. destruct Hg. unfold g_ring. apply ring_slots; [lia..|].
  by rewrite slot_count.
Qed.

Lemma length_window : length (window g) = count g.
Proof. unfold window, window_of. by rewrite length_fmap, length_seq. Qed.

Lemma lookup_window k :
  (k < count g)%nat → window g !! k = Some (g_messages g !!! slot (g_len g) (g_read g) k).
Proof. intros Hk. unfold window, window_of. by rewrite list_lookup_fmap, lookup_seq_lt. Qed.

(** The search loop of the methods is a search of the window. *)
Lemma ring_find_window p :
  ring_find p g = (λ '(k, _), slot (g_len g) (g_read g) k) <$> find_first p (window g).
Proof using Hg.
  unfold ring_find. rewrite g_ring_slots. unfold window, window_of.
  rewrite !find_first_fmap, <- !option_fmap_compose.
  change (length (g_messages g)) with (g_len g).
  destruct (find_first _ (seq 0 (count g))) as [[k x]|] eqn:E; [|done]. simpl.
  apply find_first_lookup in E as [E _]. apply lookup_seq in E as [-> _]. done.
Qed.

Lemma find_window p k m :
  find_first p (window g) = Some (k, m) →
  (k < count g)%nat ∧ m = g_messages g !!! slot (g_len g) (g_read g) k ∧ p m = true.
Proof.
  intros [H1 H2]%find_first_lookup. pose proof (lookup_lt_Some _ _ _ H1) as Hk.
  rewrite length_window in Hk. rewrite lookup_window in H1 by done. by simplify_eq.
Qed.

End window.

Lemma with_messages_shape g l :
  group_shape g → length l = g_len g → group_shape (with_messages g l).
Proof. intros [] Hl. unfold g_len in *. constructor; unfold g_len; simpl; lia. Qed.

Lemma set_lease_shape g j id seq : group_shape g → group_shape (set_lease g j id seq).
Proof. intros Hg. apply with_messages_shape; [done|]. by rewrite length_insert. Qed.

(** A write to a slot of the window is a write to the queue. *)
Lemma window_insert g k m :
  group_shape g → (k < count g)%nat →
  window (with_messages g (<[slot (g_len g) (g_read g) k := m]> (g_messages g))) =
  <[k := m]> (window g).
Proof.
  intros Hg Hk. pose proof (count_lt g Hg) as Hc.
  set (l := <[_ := m]> (g_messages g)).
  assert (Hl : length l = g_len g) by apply length_insert.
  assert (Hcount : count (with_messages g l) = count g).
  { unfold count, g_len at 1 2. simpl. by rewrite Hl. }
  assert (Hg' : group_shape (with_messages g l)) by by apply with_messages_shape.
  destruct Hg. apply list_eq. intros i. destruct (decide (i < count g)%nat) as [Hi|Hi].
  - rewrite lookup_window by (by rewrite Hcount).
    unfold g_len at 1. simpl. rewrite Hl. destruct (decide (i = k)) as [->|Hne].
    + rewrite list_lookup_insert_eq by (by rewrite length_window).
      unfold l. f_equal. apply list_lookup_total_insert_eq. change (length (g_messages g)) with (g_len g).
      apply slot_lt; lia.
    + rewrite list_lookup_insert_ne by done. rewrite lookup_window by done.
      unfold l. f_equal. apply list_lookup_total_insert_ne. intros Heq%slot_inj; lia.
  - rewrite !lookup_ge_None_2; [done|rewrite length_insert, length_window; lia|].
    rewrite length_window, Hcount. lia.
Qed.

(** ** Offer *)

Lemma full_count g :
  group_shape g →
  ((g_write g + 1) mod g_len g =? g_read g)%nat = negb (length (window g) <? g_n g)%nat.
Proof.
  intros Hg. change ((g_write g + 1) mod g_len g)%nat with (slot (g_len g) (g_write g) 1).
  rewrite length_window. pose proof (slot_count g Hg). pose proof (count_lt g Hg). destruct Hg.
  apply eq_true_iff_eq. rewrite Nat.eqb_eq, negb_true_iff, Nat.ltb_ge. slots.
Qed.

Lemma Offer_locked_spec g m :
  group_shape g →
  match queue_offer (g_n g) (window g) m with
  | Some q => ∃ g', Offer_locked g m = Done g' ∧ group_shape g' ∧ window g' = q ∧
      g_n g' = g_n g ∧ g_closed g' = g_closed g ∧ g_Commits g' = g_Commits g
  | None => Offer_locked g m = if g_closed g then Fails ErrGroupClosed else Wait
  end.
Proof.
  intros Hg. unfold Offer_locked, queue_offer. rewrite (full_count g Hg), length_window.
  destruct (count g <? g_n g)%nat eqn:Ec; simpl; [|done]. bool_to_prop.
  eexists. split; [done|]. set (g' := Build_Group _ _ _ _ _ _).
  pose proof (slot_count g Hg) as Hw. destruct Hg.
  assert (Hlen : g_len g' = g_len g) by (unfold g_len; apply length_insert).
  assert (Hw' : g_write g' = slot (g_len g) (g_read g) (S (count g))).
  { change (g_write g') with (slot (g_len g) (g_write g) 1). rewrite <- Hw.
    rewrite slot_slot by lia. f_equal. lia. }
  assert (Hg' : group_shape g').
  { constructor; rewrite ?Hlen, ?Hw'; simpl; [lia..|]. apply slot_lt; lia. }
  assert (Hc : count g' = S (count g)).
  { pose proof (slot_count g' Hg') as H1. pose proof (count_lt g' Hg') as H2.
    rewrite Hw', Hlen in H1. apply slot_inj in H1; simpl; lia. }
  split_and!; try done. apply list_eq. intros i.
  destruct (decide (i < count g)%nat) as [Hi|Hi].
  - rewrite lookup_window by lia. rewrite lookup_app_l by (rewrite length_window; lia).
    rewrite lookup_window by done. f_equal. rewrite Hlen. simpl.
    apply list_lookup_total_insert_ne. rewrite <- Hw. intros Heq%slot_inj; lia.
  - destruct (decide (i = count g)) as [->|Hne].
    + rewrite lookup_window by lia. rewrite <- length_window at 2. rewrite list_lookup_middle by done.
      f_equal. rewrite Hlen. simpl. rewrite Hw. apply list_lookup_total_insert_eq.
      change (length (g_messages g)) with (g_len g). lia.
    + rewrite !lookup_ge_None_2; [done|rewrite length_app, length_window; simpl; lia|].
      rewrite length_window. lia.
Qed.

(** ** Lease changes *)

Lemma set_lease_window g k m id seq :
  group_shape g → (k < count g)%nat → m = g_messages g !!! slot (g_len g) (g_read g) k →
  window (set_lease g (slot (g_len g) (g_read g) k) id seq) = <[k := with_lease m id seq]> (window g).
Proof. intros Hg Hk ->. by apply window_insert. Qed.

Lemma Next_locked_spec s g :
  group_shape g → has_capacity s = true →
  let seq := u64 (sub_seq s + 1) in
  let s' := with_progress s (u32 (sub_inflight s + 1)) seq (sub_closed s) in
  match queue_next (sub_ID s) seq (window g) with
  | Some (q, m) => ∃ g' i, Next_locked s g = Done (g', s', i) ∧ Next_copy g' i = m ∧
      group_shape g' ∧ window g' = q ∧
      g_n g' = g_n g ∧ g_closed g' = g_closed g ∧ g_Commits g' = g_Commits g
  | None => Next_locked s g =
      if sub_closed s then Fails ErrSubscriptionClosed
      else if bool_decide (window g = []) && g_closed g then Fails ErrGroupClosed
      else Next_idle s
  end.
Proof.
  intros Hg Hcap. cbv zeta. unfold Next_locked, queue_next. rewrite Hcap.
  rewrite (ring_find_window g Hg). fold is_ready.
  destruct (find_first is_ready (window g)) as [[k m]|] eqn:E; simpl.
  - apply (find_window g) in E as (Hk & Hm & _). do 2 eexists. split; [done|].
    assert (Hs : (slot (g_len g) (g_read g) k < g_len g)%nat).
    { pose proof (count_lt g Hg). destruct Hg. apply slot_lt; lia. }
    split_and!; [|by apply set_lease_shape|by apply set_lease_window|done..].
    unfold Next_copy, set_lease. simpl. rewrite list_lookup_total_insert_eq by done. by rewrite Hm.
  - destruct (sub_closed s); [done|].
    replace (g_read g =? g_write g)%nat with (bool_decide (window g = [])); [done|].
    apply eq_true_iff_eq. rewrite bool_decide_eq_true, Nat.eqb_eq, <- length_zero_iff_nil.
    rewrite length_window. pose proof (slot_count g Hg). pose proof (count_lt g Hg).
    destruct Hg. slots.
Qed.

Lemma Nack_spec s g seqNo :
  group_shape g → seqNo ≠ 0 →
  let s' := with_progress s (u32 (sub_inflight s - 1)) (sub_seq s) (sub_closed s) in
  match queue_nack (sub_ID s) seqNo (window g) with
  | Some q => ∃ g', Nack s g seqNo = Ok (g', s') ∧ group_shape g' ∧ window g' = q ∧
      g_n g' = g_n g ∧ g_closed g' = g_closed g ∧ g_Commits g' = g_Commits g
  | None => Nack s g seqNo = Err ErrNotLeased
  end.
Proof.
  intros Hg Hs. cbv zeta. unfold Nack, queue_nack. apply Z.eqb_neq in Hs. rewrite Hs.
  rewrite (ring_find_window g Hg).
  destruct (find_first _ (window g)) as [[k m]|] eqn:E; simpl; [|done].
  apply (find_window g) in E as (Hk & Hm & _). eexists. split; [done|].
  split_and!; [by apply set_lease_shape|by apply set_lease_window|done..].
Qed.

(** ** Acknowledgement *)

Lemma window_of_cons messages from c :
  (from < length messages)%nat → (S c < length messages)%nat →
  window_of messages from (S c) =
  messages !!! from :: window_of messages ((from + 1) mod length messages)%nat c.
Proof.
  intros Hf Hc. unfold window_of. cbn [seq]. rewrite fmap_cons. f_equal; [f_equal; slots|].
  rewrite <- seq_shift, <- list_fmap_compose. apply list_fmap_ext. intros i k Hk. simpl.
  apply lookup_seq in Hk as [-> Hk]. f_equal. rewrite slot_step; [done|lia..].
Qed.

Lemma window_of_insert_out messages from c j m :
  (from < length messages)%nat → (c < length messages)%nat → (j < length messages)%nat →
  (∀ k, (k < c)%nat → slot (length messages) from k ≠ j) →
  window_of (<[j := m]> messages) from c = window_of messages from c.
Proof.
  intros Hf Hc Hj Hne. unfold window_of. rewrite length_insert. apply list_fmap_ext.
  intros i k Hk. apply lookup_seq in Hk as [-> Hk]. apply list_lookup_total_insert_ne.
  intros Heq. by eapply Hne.
Qed.

Lemma split_acked_app q : (split_acked q).1 ++ (split_acked q).2 = q.
Proof. induction q as [|m q IH]; simpl; [done|]. case_if; simpl; [by rewrite IH|done]. Qed.

Lemma split_acked_length q : (length (split_acked q).2 ≤ length q)%nat.
Proof. rewrite <- (split_acked_app q) at 2. rewrite length_app. lia. Qed.

Lemma pop_acked_spec c : ∀ fuel messages j write,
  (c ≤ fuel)%nat → (j < length messages)%nat → (c < length messages)%nat →
  write = slot (length messages) j c →
  let '(messages', j', commits) := pop_acked fuel messages j write in
  let q := split_acked (window_of messages j c) in
  length messages' = length messages ∧ (j' < length messages)%nat ∧
  commits = commit_of <$> q.1 ∧ window_of messages' j' (length q.2) = q.2 ∧
  write = slot (length messages) j' (length q.2).
Proof.
  induction c as [|c IH]; intros fuel messages j write Hfuel Hj Hc Hw.
  - assert (write = j) as -> by slots.
    replace (pop_acked fuel messages j j) with (messages, j, @nil Commit);
      [|by destruct fuel; simpl; rewrite ?Nat.eqb_refl].
    simpl. split_and!; [done..|]. slots.
  - destruct fuel as [|fuel]; [lia|]. cbn [pop_acked].
    rewrite (window_of_cons messages j c) by lia. cbn [split_acked].
    assert (Hjw : (j =? write)%nat = false) by (apply Nat.eqb_neq; slots).
    rewrite Hjw. cbn [negb andb]. set (j1 := ((j + 1) mod length messages)%nat).
    assert (Hj1 : (j1 < length messages)%nat) by (apply Nat.mod_upper_bound; lia).
    destruct (SubscriptionID (messages !!! j) =? ack) eqn:Ea; cbn [fst snd].
    + specialize (IH fuel (<[j := zero_message]> messages) j1 write).
      rewrite length_insert in IH. rewrite window_of_insert_out in IH; [|lia..|].
      2:{ intros k Hk. unfold j1. rewrite slot_step by lia. slots. }
      specialize (IH ltac:(lia) ltac:(lia) ltac:(lia)).
      specialize (IH ltac:(unfold j1; by rewrite slot_step by lia)).
      destruct (pop_acked _ _ _ _) as [[messages' j'] commits].
      destruct IH as (H1 & H2 & H3 & H4 & H5).
      split_and!; [done|done| |done|done]. rewrite fmap_cons. by rewrite <- H3.
    + assert (Hl : length (window_of messages j1 c) = c)
        by (unfold window_of; by rewrite length_fmap, length_seq).
      cbn [length]. rewrite Hl. split_and!; [done..|apply window_of_cons; lia|done].
Qed.

Lemma Ack_spec s g seqNo :
  group_shape g → seqNo ≠ 0 →
  let s' := with_progress s (u32 (sub_inflight s - 1)) (sub_seq s) (sub_closed s) in
  match queue_ack (sub_ID s) seqNo (window g) with
  | Some (q, commits) =>
      ∃ g', Ack s g seqNo = Ok (g', s', if g_Commits g then commits else []) ∧
      group_shape g' ∧ window g' = q ∧
      g_n g' = g_n g ∧ g_closed g' = g_closed g ∧ g_Commits g' = g_Commits g
  | None => Ack s g seqNo = Err ErrNotLeased
  end.
Proof.
  intros Hg Hs. cbv zeta. unfold Ack, queue_ack. apply Z.eqb_neq in Hs. rewrite Hs.
  rewrite (ring_find_window g Hg).
  destruct (find_first _ (window g)) as [[k m]|] eqn:E; cbn [mbind option_bind fmap option_fmap option_map]; [|done].
  apply (find_window g) in E as (Hk & Hm & _).
  set (g1 := set_lease g _ ack zeroSeqNo).
  assert (Hg1 : group_shape g1) by by apply set_lease_shape.
  rewrite <- (set_lease_window g k m ack zeroSeqNo Hg Hk Hm). fold g1.
  pose proof (pop_acked_spec (count g1) (g_len g1) (g_messages g1) (g_read g1) (g_write g1)) as Hpop.
  specialize (Hpop ltac:(pose proof (count_lt g1 Hg1); lia) (shape_read _ Hg1) (count_lt g1 Hg1)).
  specialize (Hpop ltac:(symmetry; by apply slot_count)).
  change (window_of (g_messages g1) (g_read g1) (count g1)) with (window g1) in Hpop.
  destruct (pop_acked _ _ _ _) as [[messages' j'] commits].
  destruct (split_acked (window g1)) as [done rest] eqn:Es. cbn [fst snd] in Hpop.
  destruct Hpop as (H1 & H2 & H3 & H4 & H5). subst commits.
  eexists. split; [done|]. set (g' := Build_Group _ _ _ _ _ _).
  assert (Hlen : g_len g' = g_len g1) by exact H1.
  assert (Hrest : (length rest < g_len g1)%nat).
  { pose proof (split_acked_length (window g1)) as Hr. rewrite Es, length_window in Hr. simpl in Hr.
    pose proof (count_lt g1 Hg1). lia. }
  assert (Hg' : group_shape g').
  { destruct Hg1. constructor; rewrite ?Hlen; try done. }
  split_and!; [done| |done..].
  assert (Hc : count g' = length rest).
  { pose proof (slot_count g' Hg') as Hsc. pose proof (count_lt g' Hg') as Hlt.
    rewrite Hlen in Hsc, Hlt. change (g_write g') with (g_write g1) in Hsc.
    change (g_read g') with j' in Hsc. rewrite H5 in Hsc.
    apply slot_inj in Hsc; [done|exact H2|exact Hlt|exact Hrest]. }
  unfold window. rewrite Hc. exact H4.
Qed.

(** ** Close *)

Definition release_at (id : Z) (g : Group) (i : nat) : Group :=
  if SubscriptionID (g_messages g !!! i) =? id then set_lease g i ready zeroSeqNo else g.

Lemma release_at_messages id g i :
  (i < g_len g)%nat →
  g_messages (release_at id g i) = <[i := release id (g_messages g !!! i)]> (g_messages g).
Proof.
  intros Hi. unfold release_at, release. case_if; [done|].
  symmetry. apply list_insert_id. by apply list_lookup_lookup_total_lt.
Qed.

Lemma release_at_slot id g1 c :
  group_shape g1 → (c < count g1)%nat →
  let i := slot (g_len g1) (g_read g1) c in
  let g2 := release_at id g1 i in
  g2 = with_messages g1 (g_messages g2) ∧ g_len g2 = g_len g1 ∧ group_shape g2 ∧
  window g2 = <[c := release id (g_messages g1 !!! i)]> (window g1).
Proof.
  intros Hg Hc i g2. pose proof (count_lt g1 Hg).
  assert (Hi : (i < g_len g1)%nat) by (destruct Hg; apply slot_lt; lia).
  assert (Hm : g2 = with_messages g1 (<[i := release id (g_messages g1 !!! i)]> (g_messages g1))).
  { rewrite <- release_at_messages by done. unfold g2, release_at, set_lease.
    case_if; simpl; [done|by destruct g1]. }
  rewrite Hm. split_and!; [done|apply length_insert| |by apply window_insert].
  apply with_messages_shape; [done|apply length_insert].
Qed.

(** The loop of [Close] after it visited [c] messages. *)
Lemma release_prefix id g c :
  group_shape g → (c ≤ count g)%nat →
  let g' := foldl (release_at id) g (slot (g_len g) (g_read g) <$> seq 0 c) in
  g' = with_messages g (g_messages g') ∧ g_len g' = g_len g ∧ group_shape g' ∧
  window g' = (release id <$> take c (window g)) ++ drop c (window g).
Proof.
  intros Hg. induction c as [|c IH]; intros Hle; cbv zeta.
  { simpl. rewrite drop_0. split_and!; [by destruct g|done..]. }
  specialize (IH ltac:(lia)). cbv zeta in IH. rewrite seq_S, fmap_app, foldl_app. simpl.
  revert IH. generalize (foldl (release_at id) g (slot (g_len g) (g_read g) <$> seq 0 c)).
  intros g1 (H1 & H2 & H3 & H4).
  assert (Hr : g_read g1 = g_read g) by (by rewrite H1).
  assert (Hcnt : count g1 = count g) by (rewrite <- !length_window, H4;
    rewrite length_app, length_fmap, length_take, length_drop; lia).
  destruct (release_at_slot id g1 c H3 ltac:(lia)) as (H5 & H6 & H7 & H8).
  rewrite <- H2, <- Hr. split_and!; [rewrite H5, H1; done|lia|done|]. rewrite H8.
  assert (Hl : window g !! c = Some (g_messages g1 !!! slot (g_len g1) (g_read g1) c)).
  { rewrite <- (lookup_window g1 c) by lia. rewrite H4.
    rewrite lookup_app_r; rewrite length_fmap, length_take, length_window; [|lia].
    rewrite lookup_drop. f_equal. lia. }
  rewrite H4 at 1. rewrite (take_S_r _ _ _ Hl), fmap_app, <- app_assoc. simpl.
  rewrite (drop_S _ _ _ Hl).
  rewrite insert_app_r_alt; rewrite length_fmap, length_take, length_window; [|lia].
  f_equal. replace (c - c `min` count g)%nat with 0%nat by lia. done.
Qed.

Lemma release_all_window id g :
  group_shape g →
  let g' := release_all id g in
  group_shape g' ∧ window g' = queue_close id (window g) ∧
  g_n g' = g_n g ∧ g_closed g' = g_closed g ∧ g_Commits g' = g_Commits g.
Proof.
  intros Hg. cbv zeta. unfold release_all. fold (release_at id). rewrite (g_ring_slots g Hg).
  destruct (release_prefix id g (count g) Hg ltac:(lia)) as (H1 & H2 & H3 & H4).
  split_and!; [done| |by rewrite H1..].
  rewrite H4. rewrite take_ge, drop_ge, app_nil_r by (rewrite length_window; lia). done.
Qed.

(** ** Properties *)

(** The ring buffer refines a bounded queue (C13): on every group of the shape [NewGroup]
    establishes, each operation acts on the messages between [read] and [write] as the
    operation of the list does and keeps the shape. [Offer] appends, and waits
    or reports the closed group exactly when the queue holds [n] messages; [Next] leases
    the oldest ready message and returns it; [Ack] and [Nack] find the leased message and fail with
    [ErrNotLeased] exactly when there is none; [Ack] removes the
    acknowledged messages at the front, in order, and emits their commits; [Close] releases
    exactly the messages of the subscription. *)
Theorem ring_refines_queue g s m seqNo :
  group_shape g → seqNo ≠ 0 →
  let same g' q := group_shape g' ∧ window g' = q ∧ g_n g' = g_n g ∧
    g_closed g' = g_closed g ∧ g_Commits g' = g_Commits g in
  let acked := with_progress s (u32 (sub_inflight s - 1)) (sub_seq s) (sub_closed s) in
  let seq := u64 (sub_seq s + 1) in
  match queue_offer (g_n g) (window g) m with
  | Some q => ∃ g', Offer_locked g m = Done g' ∧ same g' q
  | None => Offer_locked g m = if g_closed g then Fails ErrGroupClosed else Wait
  end ∧
  (has_capacity s = true →
   match queue_next (sub_ID s) seq (window g) with
   | Some (q, leased) => ∃ g' i,
       Next_locked s g =
         Done (g', with_progress s (u32 (sub_inflight s + 1)) seq (sub_closed s), i) ∧
       Next_copy g' i = leased ∧ same g' q
   | None => Next_locked s g =
       if sub_closed s then Fails ErrSubscriptionClosed
       else if bool_decide (window g = []) && g_closed g then Fails ErrGroupClosed
       else Next_idle s
   end) ∧
  match queue_ack (sub_ID s) seqNo (window g) with
  | Some (q, commits) =>
      ∃ g', Ack s g seqNo = Ok (g', acked, if g_Commits g then commits else []) ∧ same g' q
  | None => Ack s g seqNo = Err ErrNotLeased
  end ∧
  match queue_nack (sub_ID s) seqNo (window g) with
  | Some q => ∃ g', Nack s g seqNo = Ok (g', acked) ∧ same g' q
  | None => Nack s g seqNo = Err ErrNotLeased
  end ∧
  same (Close s g).1 (queue_close (sub_ID s) (window g)).
Proof.
  intros Hg Hs. cbv zeta. refine (conj _ (conj _ (conj _ (conj _ _)))).
  - by apply Offer_locked_spec.
  - intros Hcap. by apply Next_locked_spec.
  - by apply Ack_spec.
  - by apply Nack_spec.
  - by apply release_all_window.
Qed.

Definition demo_message (segment offset id seq : Z) : Message :=
  {| TopicNamespace := DefaultNamespace; TopicName := "t"; SegmentID := segment;
     CommitOffset := offset; MessageTime := 0; Payload := None;
     SubscriptionID := id; SeqNo := seq |}.

(** A group of three slots whose window wraps around: the oldest message is leased to
    subscription 1, the second one is ready. *)
Definition demo_ring : Group :=
  {| g_n := 2;
     g_messages := [demo_message 7 20 ready 0; zero_message; demo_message 7 10 1 5];
     g_read := 2; g_write := 1; g_closed := false; g_Commits := true |}.

Definition demo_subscription : Subscription :=
  {| sub_ID := 1; sub_size := 2; sub_inflight := 1; sub_maxMessages := 0;
     sub_blocking := true; sub_closed := false; sub_seq := 5 |}.

Lemma ring_refines_queue_witness :
  ∃ g', Ack demo_subscription demo_ring 5 =
    Ok (g', with_progress demo_subscription 0 5 false,
        [{| commit_SegmentID := 7; commit_CommitOffset := 10 |}]) ∧
    window g' = [demo_message 7 20 ready 0].
Proof.
  destruct (ring_refines_queue demo_ring demo_subscription (demo_message 8 0 0 0) 5)
    as (_ & _ & (g' & Hack & Hsame) & _); [constructor; cbn; lia|discriminate|].
  exists g'. split; [exact Hack|]. destruct Hsame as (_ & Hw & _). rewrite Hw. reflexivity.
Defined.
