(* ===== verification/ConsumersSystem.v ===== *)
(** * A consumer group and its subscriptions at run time

    The goroutines that offer, receive and acknowledge messages interleave at the mutex
    of the group: a step of the system is one critical section of
    src/mq/consumers, or the send of one commit.  [Ack] collects its commits in the critical section and sends them,
    one by one, after it has released the mutex, so that the sends of concurrent calls interleave.  [sys_offered] and
    [sys_commits] record the messages that were put into the ring, the commits that each call of [Ack] collected, in
    the order of the critical sections, and what was sent on the channel. *)
From S2P Require Import Prelude Emq Consumers ConsumersRing.

(** ** Commits between the mutex and the channel *)

(** The calls of [Ack] are numbered in the order of their critical sections: [em_taken] has the commits of each, and
    [em_sent] what went over the channel, each with the call that sent it. *)
Record emission : Type := {
  em_taken : list (list Commit);
  em_sent : list (nat * Commit);
}.

Definition no_commits : emission := {| em_taken := []; em_sent := [] |}.

#[export] Instance emission_inhabited : Inhabited emission := populate no_commits.

(** The critical section of a call. *)
Definition take_commits (e : emission) (commits : list Commit) : emission :=
  {| em_taken := em_taken e ++ [commits]; em_sent := em_sent e |}.

Definition sent_by (i : nat) (sent : list (nat * Commit)) : list Commit :=
  (List.filter (λ p, p.1 =? i)%nat sent).*2.

(** [for _, commit := range commits { c <- commit }]: what the call sends next. *)
Definition next_commit (e : emission) (i : nat) : option Commit :=
  commits ← em_taken e !! i; commits !! length (sent_by i (em_sent e)).

Definition send_commit (e : emission) (i : nat) (c : Commit) : emission :=
  {| em_taken := em_taken e; em_sent := em_sent e ++ [(i, c)] |}.

(** Every call has sent what it collected. *)
Definition all_sent (e : emission) : Prop := ∀ i, sent_by i (em_sent e) = em_taken e !!! i.

Lemma sent_by_app i sent sent' : sent_by i (sent ++ sent') = sent_by i sent ++ sent_by i sent'.
Proof. unfold sent_by. by rewrite List.filter_app, fmap_app. Qed.

Lemma sent_by_cons i j c sent : sent_by i ((j, c) :: sent) = (if decide (j = i) then [c] else []) ++ sent_by i sent.
Proof. unfold sent_by. simpl. case_decide; destruct (Nat.eqb_spec j i); done. Qed.

Lemma sent_by_one i j c : sent_by i [(j, c)] = if decide (j = i) then [c] else [].
Proof. unfold sent_by. simpl. case_decide; destruct (Nat.eqb_spec j i); done. Qed.

(** Each call has sent an initial part of its commits, in their order. *)
Definition emission_ok (e : emission) : Prop := ∀ i, sent_by i (em_sent e) `prefix_of` em_taken e !!! i.

Lemma take_commits_ok e commits : emission_ok e → emission_ok (take_commits e commits).
Proof.
  intros H i. specialize (H i). simpl. rewrite !list_lookup_total_alt, lookup_app in *.
  destruct (em_taken e !! i); [done|]. simpl in H. etrans; [exact H|apply prefix_nil].
Qed.

Lemma next_commit_Some e i c :
  next_commit e i = Some c →
  ∃ commits, em_taken e !! i = Some commits ∧ commits !! length (sent_by i (em_sent e)) = Some c.
Proof. unfold next_commit. by intros (commits & ? & ?)%bind_Some; eauto. Qed.

Lemma send_commit_ok e i c : emission_ok e → next_commit e i = Some c → emission_ok (send_commit e i c).
Proof.
  intros H (commits & Hi & Hc)%next_commit_Some j. specialize (H j). simpl. rewrite sent_by_app, sent_by_one.
  case_decide as Hij; [subst j|by rewrite app_nil_r]. rewrite list_lookup_total_alt, Hi in *. simpl in *.
  destruct H as [k ->]. rewrite lookup_app_r, Nat.sub_diag in Hc by done. destruct k; simplify_eq/=.
  apply prefix_app, prefix_cons, prefix_nil.
Qed.

Lemma sent_by_other n sent i :
  sent_by i (List.filter (λ p, negb (p.1 =? n))%nat sent) = if decide (i = n) then [] else sent_by i sent.
Proof.
  induction sent as [|[j c] sent IH]; [by case_decide|]. rewrite (sent_by_cons i j c sent). cbn [List.filter fst].
  destruct (Nat.eqb_spec j n) as [->|Hn]; cbn [negb]; [|rewrite sent_by_cons]; rewrite IH;
    repeat case_decide; by subst.
Qed.

Lemma sent_split n sent :
  sent.*2 ≡ₚ (List.filter (λ p, negb (p.1 =? n))%nat sent).*2 ++ sent_by n sent.
Proof.
  induction sent as [|[j c] sent IH]; [done|]. rewrite sent_by_cons. cbn [List.filter fst].
  destruct (Nat.eqb_spec j n) as [->|Hn]; cbn [negb]; rewrite !fmap_cons, IH; [|by rewrite decide_False].
  rewrite decide_True by done. simpl. by rewrite Permutation_middle.
Qed.

(** So no commit is sent twice. *)
Lemma sent_once taken : ∀ sent,
  (∀ i, sent_by i sent `prefix_of` taken !!! i) → sent.*2 ⊆+ concat taken.
Proof.
  induction taken as [|b taken IH] using rev_ind; intros sent H.
  - destruct sent as [|[i c] sent]; [done|]. specialize (H i). unfold sent_by in H. simpl in H.
    rewrite Nat.eqb_refl in H. by apply prefix_nil_inv in H.
  - rewrite (sent_split (length taken)), concat_app. apply submseteq_app.
    + apply IH. intros i. rewrite sent_by_other. case_decide; [apply prefix_nil|]. specialize (H i).
      rewrite !list_lookup_total_alt, lookup_app in *. destruct (taken !! i) eqn:E; [done|]. simpl in H.
      apply lookup_ge_None in E. destruct (i - length taken)%nat eqn:Ei; [lia|done].
    + specialize (H (length taken)). rewrite list_lookup_total_middle in H by done. simpl. rewrite app_nil_r.
      destruct H as [k ->]. apply submseteq_inserts_r. done.
Qed.

(** The calls do not overlap: the sends of one end before the critical section of the next, so only the last call may
    have something left to send. *)
Definition one_by_one (e : emission) : Prop :=
  e = no_commits ∨
  ∃ finished last p q, em_taken e = finished ++ [last] ∧ last = p ++ q ∧ (em_sent e).*2 = concat finished ++ p ∧
    sent_by (length finished) (em_sent e) = p ∧
    ∀ i, (i < length finished)%nat → sent_by i (em_sent e) = finished !!! i.

Lemma one_by_one_prefix e : one_by_one e → (em_sent e).*2 `prefix_of` concat (em_taken e).
Proof.
  intros [->|(finished & last & p & q & -> & -> & -> & _)]; [done|]. rewrite concat_app. simpl. rewrite app_nil_r.
  apply prefix_app. by exists q.
Qed.

Lemma take_one_by_one e commits :
  emission_ok e → all_sent e → one_by_one e → one_by_one (take_commits e commits).
Proof.
  intros Hok Hall H. right. exists (em_taken e), commits, [], commits. simpl. split_and!; [done|done| | |by intros i _].
  - rewrite app_nil_r. destruct H as [->|(finished & last & p & q & Ht & -> & Hs & Hp & _)]; [done|].
    specialize (Hall (length finished)). rewrite Ht, list_lookup_total_middle, Hp in Hall by done.
    rewrite Ht, Hs, concat_app. simpl. rewrite app_nil_r. by rewrite <- Hall.
  - specialize (Hok (length (em_taken e))). rewrite list_lookup_total_alt, lookup_ge_None_2 in Hok by done.
    by apply prefix_nil_inv in Hok.
Qed.

Lemma send_one_by_one e i c : next_commit e i = Some c → one_by_one e → one_by_one (send_commit e i c).
Proof.
  intros (commits & Hi & Hc)%next_commit_Some [->|(finished & last & p & q & Ht & Hl & Hs & Hp & Hf)]; [done|].
  rewrite Ht in Hi. assert (i = length finished) as ->.
  { apply lookup_lt_Some in Hi as Hlt. rewrite length_app in Hlt. simpl in Hlt.
    destruct (decide (i < length finished)%nat) as [Hlt'|]; [|lia]. rewrite lookup_app_l in Hi by done.
    rewrite (Hf i Hlt'), list_lookup_total_alt, Hi in Hc. simpl in Hc. apply lookup_lt_Some in Hc. lia. }
  rewrite list_lookup_middle in Hi by done. injection Hi as <-. rewrite Hp, Hl, lookup_app_r, Nat.sub_diag in Hc by done.
  destruct q as [|c' q]; [done|]. injection Hc as ->. right. exists finished, last, (p ++ [c]), q. simpl. split_and!.
  - done.
  - by rewrite Hl, <- app_assoc.
  - by rewrite fmap_app, Hs, <- app_assoc.
  - by rewrite sent_by_app, sent_by_one, decide_True, Hp.
  - intros j Hj. rewrite sent_by_app, sent_by_one, decide_False, app_nil_r by lia. by apply Hf.
Qed.

(** ** The system *)

Record system : Type := {
  sys_group : Group;
  sys_subs : gmap Z Subscription;
  sys_currentID : Z;
  sys_offered : list Message;
  sys_commits : emission;
}.

Definition with_group (st : system) (g : Group) : system :=
  {| sys_group := g; sys_subs := sys_subs st; sys_currentID := sys_currentID st;
     sys_offered := sys_offered st; sys_commits := sys_commits st |}.

Definition with_subs (st : system) (subs : gmap Z Subscription) : system :=
  {| sys_group := sys_group st; sys_subs := subs; sys_currentID := sys_currentID st;
     sys_offered := sys_offered st; sys_commits := sys_commits st |}.

(** [Offer] and [Next] test their closed flag before they take the mutex, so the
    flag may change in between: the steps start at the mutex.  The two 64-bit
    counters are assumed not to run out. *)
Inductive sys_step : system → system → Prop :=
| step_offer st m g' :
    Offer_locked (sys_group st) m = Done g' →
    sys_step st {| sys_group := g'; sys_subs := sys_subs st; sys_currentID := sys_currentID st;
                   sys_offered := sys_offered st ++ [m]; sys_commits := sys_commits st |}
| step_subscribe st id s :
    sys_currentID st + 1 < ready →
    Subscribe (sys_currentID st) = (id, s) →
    sys_step st {| sys_group := sys_group st; sys_subs := <[id := s]> (sys_subs st);
                   sys_currentID := id;
                   sys_offered := sys_offered st; sys_commits := sys_commits st |}
| step_subscribe_elsewhere st id s : (* the counter is shared by all groups *)
    sys_currentID st + 1 < ready →
    Subscribe (sys_currentID st) = (id, s) →
    sys_step st {| sys_group := sys_group st; sys_subs := sys_subs st; sys_currentID := id;
                   sys_offered := sys_offered st; sys_commits := sys_commits st |}
| step_next st id s g' s' i :
    sys_subs st !! id = Some s →
    sub_seq s < MaxUint64 →
    Next_locked s (sys_group st) = Done (g', s', i) →
    sys_step st (with_subs (with_group st g') (<[id := s']> (sys_subs st)))
| step_ack st id s seqNo g' s' commits :
    sys_subs st !! id = Some s →
    Ack s (sys_group st) seqNo = Ok (g', s', commits) →
    sys_step st {| sys_group := g'; sys_subs := <[id := s']> (sys_subs st);
                   sys_currentID := sys_currentID st;
                   sys_offered := sys_offered st; sys_commits := take_commits (sys_commits st) commits |}
| step_send st i c : (* the call of [Ack] with this number, outside the mutex *)
    next_commit (sys_commits st) i = Some c →
    sys_step st {| sys_group := sys_group st; sys_subs := sys_subs st; sys_currentID := sys_currentID st;
                   sys_offered := sys_offered st; sys_commits := send_commit (sys_commits st) i c |}
| step_nack st id s seqNo g' s' :
    sys_subs st !! id = Some s →
    Nack s (sys_group st) seqNo = Ok (g', s') →
    sys_step st (with_subs (with_group st g') (<[id := s']> (sys_subs st)))
| step_configure st id s size max blocking :
    sys_subs st !! id = Some s →
    sys_step st (with_subs st (<[id := SetSize (SetMaxMessages (SetBlocking s blocking) max) size]>
                                 (sys_subs st)))
| step_close st id s g' s' :
    sys_subs st !! id = Some s →
    Close s (sys_group st) = (g', s') →
    sys_step st (with_subs (with_group st g') (<[id := s']> (sys_subs st)))
| step_group_close st :
    sys_step st (with_group st (Group_Close (sys_group st))).

(** A consumer group task creates the group and sets its commit channel. *)
Definition with_commit_channel (g : Group) : Group :=
  {| g_n := g_n g; g_messages := g_messages g; g_read := g_read g; g_write := g_write g;
     g_closed := g_closed g; g_Commits := true |}.

Definition initial (g : Group) (currentID : Z) : system :=
  {| sys_group := with_commit_channel g; sys_subs := ∅; sys_currentID := currentID;
     sys_offered := []; sys_commits := no_commits |}.

Definition sys_reachable (st : system) : Prop :=
  ∃ n g currentID, NewGroup n = Ok g ∧ n < 2 ^ 32 ∧ 0 ≤ currentID < ready ∧
    rtc sys_step (initial g currentID) st.

(** ** Invariant *)

(** The message apart from its lease. *)
Definition content (m : Message) : Message := with_lease m ack zeroSeqNo.

Definition leased (m : Message) : bool :=
  negb (SubscriptionID m =? ready) && negb (SubscriptionID m =? ack).

Definition leases (q : list Message) : list (Z * Z) :=
  (λ m, (SubscriptionID m, SeqNo m)) <$> List.filter leased q.

Definition inflight (id : Z) (q : list Message) : nat :=
  length (List.filter (λ m, SubscriptionID m =? id) q).

(** A lease was given by a subscription. *)
Definition lease_ok (subs : gmap Z Subscription) (m : Message) : Prop :=
  if leased m then ∃ s, subs !! SubscriptionID m = Some s ∧ 1 ≤ SeqNo m ≤ sub_seq s
  else SeqNo m = zeroSeqNo.

Definition sub_ok (currentID : Z) (q : list Message) (id : Z) (s : Subscription) : Prop :=
  sub_ID s = id ∧ 1 ≤ id ≤ currentID ∧ 0 ≤ sub_seq s ≤ MaxUint64 ∧
  (sub_closed s = false → sub_inflight s = Z.of_nat (inflight id q)).

(** No acknowledged message waits at the front. *)
Definition head_ok (q : list Message) : Prop :=
  match q with [] => True | m :: _ => SubscriptionID m ≠ ack end.

Record queue_inv (n : nat) (subs : gmap Z Subscription) (currentID : Z) (q : list Message) :
    Prop := {
  qi_length : (length q ≤ n)%nat;
  qi_n : Z.of_nat n < 2 ^ 32;
  qi_current : 0 ≤ currentID < ready;
  qi_leases : ∀ m, m ∈ q → lease_ok subs m;
  qi_unique : NoDup (leases q);
  qi_head : head_ok q;
  qi_subs : ∀ id s, subs !! id = Some s → sub_ok currentID q id s;
}.

(** The history is the removed messages followed by the ones in the ring; the
    commits collected are those of the removed messages until the group is closed. *)
Definition history_ok (g : Group) (offered : list Message) (taken : list Commit) : Prop :=
  ∃ removed, content <$> offered = removed ++ (content <$> window g) ∧
    taken `prefix_of` (commit_of <$> removed) ∧
    (g_Commits g = true → taken = commit_of <$> removed).

Record sys_inv (st : system) : Prop := {
  inv_shape : group_shape (sys_group st);
  inv_queue : queue_inv (g_n (sys_group st)) (sys_subs st) (sys_currentID st)
                (window (sys_group st));
  inv_channel : g_Commits (sys_group st) = negb (g_closed (sys_group st));
  inv_history : history_ok (sys_group st) (sys_offered st) (concat (em_taken (sys_commits st)));
  inv_emission : emission_ok (sys_commits st);
}.

(** ** Leases of a queue *)

Lemma insert_split {A} (l : list A) k x y :
  l !! k = Some x → ∃ l1 l2, l = l1 ++ x :: l2 ∧ <[k := y]> l = l1 ++ y :: l2.
Proof.
  intros H. exists (take k l), (drop (S k) l). split; [by rewrite take_drop_middle|].
  apply insert_take_drop. by eapply lookup_lt_Some.
Qed.

Lemma inflight_app id q1 q2 : inflight id (q1 ++ q2) = (inflight id q1 + inflight id q2)%nat.
Proof. unfold inflight. by rewrite List.filter_app, length_app. Qed.

Lemma inflight_cons id m q :
  inflight id (m :: q) = ((if (SubscriptionID m =? id)%Z then 1 else 0) + inflight id q)%nat.
Proof. unfold inflight. simpl. by case_if. Qed.

Lemma inflight_le id q : (inflight id q ≤ length q)%nat.
Proof. apply filter_length_le. Qed.

Lemma leases_app q1 q2 : leases (q1 ++ q2) = leases q1 ++ leases q2.
Proof. unfold leases. by rewrite List.filter_app, fmap_app. Qed.

Lemma leases_cons m q :
  leases (m :: q) = if leased m then (SubscriptionID m, SeqNo m) :: leases q else leases q.
Proof. unfold leases. simpl. by case_if. Qed.

Lemma elem_of_leases id seqNo q :
  (id, seqNo) ∈ leases q ↔
  ∃ m, m ∈ q ∧ leased m = true ∧ SubscriptionID m = id ∧ SeqNo m = seqNo.
Proof.
  unfold leases. rewrite list_elem_of_fmap. setoid_rewrite elem_of_bfilter. naive_solver.
Qed.

Lemma leased_id m id : SubscriptionID m = id → 1 ≤ id < ready → leased m = true.
Proof.
  intros <- Hid. unfold leased. apply andb_true_intro. rewrite !negb_true_iff, !Z.eqb_neq.
  unfold ack. lia.
Qed.

Lemma leased_ready m seqNo : leased (with_lease m ready seqNo) = false.
Proof. reflexivity. Qed.

Lemma leased_ack m seqNo : leased (with_lease m ack seqNo) = false.
Proof. reflexivity. Qed.

Lemma is_ready_not_leased m : is_ready m = true → leased m = false.
Proof. unfold is_ready, leased. by intros ->. Qed.

Lemma leased_to_spec id seqNo m :
  leased_to id seqNo m = true ↔ SubscriptionID m = id ∧ SeqNo m = seqNo.
Proof. unfold leased_to. by rewrite andb_true_iff, !Z.eqb_eq. Qed.

(** Messages that were acknowledged hold no lease. *)
Lemma split_acked_acked q m : m ∈ (split_acked q).1 → SubscriptionID m = ack.
Proof.
  induction q as [|a q IH]; simpl; [by intros ?%elem_of_nil|].
  case_if; bool_to_prop; simpl; [|by intros ?%elem_of_nil].
  intros [->|Hm]%elem_of_cons; auto.
Qed.

Lemma split_acked_head q : head_ok (split_acked q).2.
Proof. induction q as [|a q IH]; simpl; [done|]. case_if; bool_to_prop; simpl; done. Qed.

Lemma all_acked_no_lease q id :
  (∀ m, m ∈ q → SubscriptionID m = ack) → id ≠ ack → leases q = [] ∧ inflight id q = 0%nat.
Proof.
  intros H Hid. induction q as [|m q IH]; [done|].
  destruct IH as [IH1 IH2]; [intros; apply H; by right|].
  specialize (H m ltac:(left)). rewrite leases_cons, inflight_cons, IH1, IH2.
  unfold leased. rewrite H, Z.eqb_refl, andb_false_r. split; [done|].
  destruct (Z.eqb_spec ack id); [congruence|done].
Qed.

Lemma split_acked_leases q id :
  id ≠ ack →
  leases (split_acked q).2 = leases q ∧ inflight id (split_acked q).2 = inflight id q.
Proof.
  intros Hid. destruct (all_acked_no_lease (split_acked q).1 id) as [H1 H2]; [|done|].
  { apply split_acked_acked. }
  rewrite <- (split_acked_app q) at 2 4. rewrite leases_app, inflight_app, H1, H2. done.
Qed.

Lemma release_leases id q :
  leases (queue_close id q) = List.filter (λ p, negb (p.1 =? id)) (leases q).
Proof.
  induction q as [|m q IH]; [done|].
  change (queue_close id (m :: q)) with (release id m :: queue_close id q).
  rewrite !leases_cons, IH. unfold release.
  destruct (SubscriptionID m =? id) eqn:E.
  - rewrite leased_ready. case_if; [|done]. simpl. by rewrite E.
  - case_if; [|done]. simpl. by rewrite E.
Qed.

Lemma release_inflight id id' q :
  id' ≠ ready → id ≠ id' → inflight id' (queue_close id q) = inflight id' q.
Proof.
  intros Hr Hne. induction q as [|m q IH]; [done|].
  change (queue_close id (m :: q)) with (release id m :: queue_close id q).
  rewrite !inflight_cons, IH. f_equal. unfold release.
  destruct (Z.eqb_spec (SubscriptionID m) id) as [->|]; [|done].
  cbn [with_lease SubscriptionID].
  destruct (Z.eqb_spec ready id'), (Z.eqb_spec id id'); congruence.
Qed.

Lemma release_none id q : id ≠ ready → inflight id (queue_close id q) = 0%nat.
Proof.
  intros Hr. induction q as [|m q IH]; [done|].
  change (queue_close id (m :: q)) with (release id m :: queue_close id q).
  rewrite inflight_cons, IH. unfold release.
  destruct (SubscriptionID m =? id) eqn:E; cbn [with_lease SubscriptionID].
  - destruct (Z.eqb_spec ready id); [congruence|done].
  - by rewrite E.
Qed.

(** ** The invariant under changes of the queue *)

Lemma lease_ok_insert (subs : gmap Z Subscription) id s s' m :
  subs !! id = Some s → sub_seq s ≤ sub_seq s' → lease_ok subs m → lease_ok (<[id := s']> subs) m.
Proof.
  intros Hs Hseq. unfold lease_ok. case_if; [|done]. intros (t & Ht & Hle).
  destruct (decide (SubscriptionID m = id)) as [Heq|Hne].
  - rewrite Heq in *. rewrite lookup_insert_eq. exists s'. split; [done|].
    assert (t = s) as -> by congruence. lia.
  - rewrite lookup_insert_ne by done. eauto.
Qed.

Section update.
Context (n : nat) (subs : gmap Z Subscription) (cur : Z) (q : list Message).
Context (Hinv : queue_inv n subs cur q).

Lemma sub_bounds id s : subs !! id = Some s → 1 ≤ id < ready ∧ sub_ID s = id.
Proof using Hinv.
  intros Hs. destruct Hinv as [_ _ Hcur _ _ _ Hsubs].
  destruct (Hsubs id s Hs) as (H1 & H2 & _). split; [lia|done].
Qed.

(** A step that changes the leases of one subscription. *)
Lemma queue_inv_update id s s' q' :
  subs !! id = Some s →
  sub_ID s' = sub_ID s → sub_seq s ≤ sub_seq s' ≤ MaxUint64 →
  (length q' ≤ length q)%nat →
  (∀ m, m ∈ q' → lease_ok (<[id := s']> subs) m) →
  NoDup (leases q') → head_ok q' →
  (∀ id', id' ≠ id → 1 ≤ id' < ready → inflight id' q' = inflight id' q) →
  (sub_closed s' = false → sub_inflight s' = Z.of_nat (inflight id q')) →
  queue_inv n (<[id := s']> subs) cur q'.
Proof using Hinv.
  intros Hs HID Hseq Hlen Hlease Hnd Hhead Hother Hinf.
  destruct Hinv as [H1 H2 H3 H4 H5 H6 H7]. constructor; try done; [lia|].
  intros id' t. destruct (decide (id' = id)) as [->|Hne].
  - rewrite lookup_insert_eq. intros ?; simplify_eq.
    destruct (H7 id s Hs) as (H8 & H9 & H10 & _). unfold sub_ok. split_and!; try done; lia.
  - rewrite lookup_insert_ne by done. intros Ht. destruct (H7 id' t Ht) as (H8 & H9 & H10 & H11).
    unfold sub_ok. split_and!; try done; try lia. intros Hc.
    rewrite (Hother id') by (done || lia). auto.
Qed.

Lemma queue_inv_offer m :
  (length q < n)%nat → queue_inv n subs cur (q ++ [with_lease m ready zeroSeqNo]).
Proof using Hinv.
  intros Hlen. destruct Hinv as [H1 H2 H3 H4 H5 H6 H7]. constructor; try done.
  - rewrite length_app. simpl. lia.
  - intros x [Hx| ->%list_elem_of_singleton]%elem_of_app; [auto|]. reflexivity.
  - by rewrite leases_app, leases_cons, app_nil_r.
  - destruct q; [done|exact H6].
  - intros id s Hs. destruct (H7 id s Hs) as (H8 & H9 & H10 & H11). unfold sub_ok.
    split_and!; try done; try lia. intros Hc. rewrite inflight_app, inflight_cons.
    cbn [with_lease SubscriptionID].
    destruct (Z.eqb_spec ready id); [lia|]. rewrite Nat.add_0_r. auto.
Qed.

Lemma queue_inv_next id s k m :
  subs !! id = Some s → sub_seq s < MaxUint64 → find_first is_ready q = Some (k, m) →
  queue_inv n (<[id := with_progress s (u32 (sub_inflight s + 1)) (sub_seq s + 1) (sub_closed s)]> subs)
    cur (<[k := with_lease m id (sub_seq s + 1)]> q).
Proof using Hinv.
  intros Hs Hseq [Hk Hready]%find_first_lookup.
  destruct (sub_bounds id s Hs) as [Hid HID].
  pose proof (is_ready_not_leased m Hready) as Hm. unfold is_ready in Hready. bool_to_prop.
  destruct (qi_subs _ _ _ _ Hinv id s Hs) as (_ & _ & Hpos & Hinf).
  destruct (insert_split q k m (with_lease m id (sub_seq s + 1)) Hk) as (l1 & l2 & Hq & Hq').
  pose proof (leased_id (with_lease m id (sub_seq s + 1)) id eq_refl Hid) as Hm'.
  assert (Hseq_old : ∀ x, (id, x) ∈ leases q → x ≤ sub_seq s).
  { intros x (y & Hy & Hl & Hyid & <-)%elem_of_leases. apply (qi_leases _ _ _ _ Hinv) in Hy.
    unfold lease_ok in Hy. rewrite Hl, Hyid in Hy. destruct Hy as (t & Ht & Hle). simplify_eq. lia. }
  rewrite Hq'. apply queue_inv_update with (s := s); try done; simpl; [lia|..].
  - by rewrite Hq, !length_app.
  - intros x Hx. apply elem_of_app in Hx. rewrite elem_of_cons in Hx. destruct Hx as [Hx|[->|Hx]].
    2:{ unfold lease_ok. rewrite Hm'. cbn [with_lease SubscriptionID SeqNo].
        rewrite lookup_insert_eq. eexists. split; [done|]. simpl. lia. }
    all: eapply lease_ok_insert; [done|simpl; lia|]; apply (qi_leases _ _ _ _ Hinv); rewrite Hq;
      rewrite elem_of_app, elem_of_cons; auto.
  - pose proof (qi_unique _ _ _ _ Hinv) as Hnd. rewrite Hq, leases_app, leases_cons, Hm in Hnd.
    rewrite leases_app, leases_cons, Hm'. rewrite <- Permutation_middle.
    apply NoDup_cons. split; [|done]. cbn [with_lease SubscriptionID SeqNo].
    rewrite <- leases_app. intros Hin. enough (sub_seq s + 1 ≤ sub_seq s) by lia.
    apply Hseq_old. rewrite Hq, leases_app, leases_cons, Hm, <- leases_app. done.
  - pose proof (qi_head _ _ _ _ Hinv) as Hh. rewrite Hq in Hh. destruct l1; simpl in *; [|done].
    unfold ack. lia.
  - intros id' Hne Hid'. rewrite Hq, !inflight_app, !inflight_cons. cbn [with_lease SubscriptionID].
    destruct (Z.eqb_spec (SubscriptionID m) id'), (Z.eqb_spec id id'); lia.
  - intros Hc. rewrite (Hinf Hc). pose proof (qi_length _ _ _ _ Hinv) as Hlen.
    pose proof (qi_n _ _ _ _ Hinv). pose proof (inflight_le id (l1 ++ with_lease m id (sub_seq s + 1) :: l2)) as Hle.
    assert (Hll : length (l1 ++ with_lease m id (sub_seq s + 1) :: l2) = length q)
      by (by rewrite Hq, !length_app).
    rewrite Hq, !inflight_app, !inflight_cons in *. cbn [with_lease SubscriptionID] in *.
    rewrite Z.eqb_refl in *. destruct (Z.eqb_spec (SubscriptionID m) id); [lia|].
    unfold u32, wrap. rewrite Z.mod_small by lia. lia.
Qed.

(** Ending a lease: the message becomes ready or acknowledged. *)
Lemma end_lease id s seqNo k m x :
  subs !! id = Some s → x = ready ∨ x = ack →
  find_first (leased_to id seqNo) q = Some (k, m) →
  let q1 := <[k := with_lease m x zeroSeqNo]> q in
  let s' := with_progress s (u32 (sub_inflight s - 1)) (sub_seq s) (sub_closed s) in
  length q1 = length q ∧ (∀ y, y ∈ q1 → lease_ok (<[id := s']> subs) y) ∧ NoDup (leases q1) ∧
  (∀ id', id' ≠ id → 1 ≤ id' < ready → inflight id' q1 = inflight id' q) ∧
  (sub_closed s' = false → sub_inflight s' = Z.of_nat (inflight id q1)).
Proof using Hinv.
  intros Hs Hx [Hk [Hm1 Hm2]%leased_to_spec]%find_first_lookup. cbv zeta.
  destruct (sub_bounds id s Hs) as [Hid HID].
  destruct (qi_subs _ _ _ _ Hinv id s Hs) as (_ & _ & Hpos & Hinf).
  destruct (insert_split q k m (with_lease m x zeroSeqNo) Hk) as (l1 & l2 & Hq & Hq').
  pose proof (leased_id m id Hm1 Hid) as Hm.
  assert (Hm' : leased (with_lease m x zeroSeqNo) = false) by (by destruct Hx as [->| ->]).
  rewrite Hq'. split_and!.
  - by rewrite Hq, !length_app.
  - intros y Hy. apply elem_of_app in Hy. rewrite elem_of_cons in Hy. destruct Hy as [Hy|[->|Hy]].
    2:{ unfold lease_ok. by rewrite Hm'. }
    all: eapply lease_ok_insert; [done|simpl; lia|]; apply (qi_leases _ _ _ _ Hinv); rewrite Hq;
      rewrite elem_of_app, elem_of_cons; auto.
  - pose proof (qi_unique _ _ _ _ Hinv) as Hnd. rewrite Hq, leases_app, leases_cons, Hm in Hnd.
    rewrite leases_app, leases_cons, Hm'. rewrite <- Permutation_middle in Hnd.
    by apply NoDup_cons in Hnd as [_ Hnd].
  - intros id' Hne Hid'. rewrite Hq, !inflight_app, !inflight_cons. cbn [with_lease SubscriptionID].
    destruct (Z.eqb_spec (SubscriptionID m) id'), (Z.eqb_spec x id');
      destruct Hx; unfold ack in *; lia.
  - cbn [with_progress sub_closed sub_inflight]. intros Hc. rewrite (Hinf Hc).
    pose proof (qi_length _ _ _ _ Hinv) as Hlen. pose proof (qi_n _ _ _ _ Hinv).
    pose proof (inflight_le id q) as Hle. revert Hle Hlen.
    rewrite Hq, !inflight_app, !inflight_cons. cbn [with_lease SubscriptionID]. intros.
    destruct (Z.eqb_spec (SubscriptionID m) id); [|lia].
    destruct (Z.eqb_spec x id); [destruct Hx; unfold ack in *; lia|].
    unfold u32, wrap. rewrite Z.mod_small by lia. lia.
Qed.

Lemma queue_inv_nack id s seqNo k m :
  subs !! id = Some s → find_first (leased_to id seqNo) q = Some (k, m) →
  queue_inv n (<[id := with_progress s (u32 (sub_inflight s - 1)) (sub_seq s) (sub_closed s)]> subs)
    cur (<[k := with_lease m ready zeroSeqNo]> q).
Proof using Hinv.
  intros Hs Hf.
  destruct (end_lease id s seqNo k m ready Hs (or_introl eq_refl) Hf) as (H1 & H2 & H3 & H4 & H5).
  destruct (qi_subs _ _ _ _ Hinv id s Hs) as (_ & _ & Hpos & _).
  eapply queue_inv_update; [done|done|simpl; lia|lia|done|done| |done|done].
  pose proof (qi_head _ _ _ _ Hinv) as Hh. destruct q as [|a q']; [done|].
  by destruct k.
Qed.

Lemma queue_inv_ack id s seqNo k m :
  subs !! id = Some s → find_first (leased_to id seqNo) q = Some (k, m) →
  queue_inv n (<[id := with_progress s (u32 (sub_inflight s - 1)) (sub_seq s) (sub_closed s)]> subs)
    cur (split_acked (<[k := with_lease m ack zeroSeqNo]> q)).2.
Proof using Hinv.
  intros Hs Hf.
  destruct (end_lease id s seqNo k m ack Hs (or_intror eq_refl) Hf) as (H1 & H2 & H3 & H4 & H5).
  destruct (qi_subs _ _ _ _ Hinv id s Hs) as (_ & _ & Hpos & _).
  destruct (sub_bounds id s Hs) as [Hid _].
  set (q1 := <[k := _]> q) in *.
  assert (Hsplit : ∀ id', 1 ≤ id' → leases (split_acked q1).2 = leases q1 ∧
                     inflight id' (split_acked q1).2 = inflight id' q1).
  { intros id' Hid'. apply split_acked_leases. unfold ack. lia. }
  eapply queue_inv_update; [done|done|simpl; lia| | | | | |].
  - pose proof (split_acked_length q1). lia.
  - intros y Hy. apply H2. rewrite <- (split_acked_app q1). apply elem_of_app. by right.
  - by rewrite (proj1 (Hsplit id ltac:(lia))).
  - apply split_acked_head.
  - intros id' Hne Hid'. rewrite (proj2 (Hsplit id' ltac:(lia))). auto.
  - intros Hc. rewrite (proj2 (Hsplit id ltac:(lia))). auto.
Qed.

Lemma queue_inv_close id s :
  subs !! id = Some s →
  queue_inv n (<[id := with_progress s (sub_inflight s) (sub_seq s) true]> subs)
    cur (queue_close id q).
Proof using Hinv.
  intros Hs. destruct (sub_bounds id s Hs) as [Hid _].
  destruct (qi_subs _ _ _ _ Hinv id s Hs) as (_ & _ & Hpos & _).
  eapply queue_inv_update; [done|done|simpl; lia| | | | | |done].
  - unfold queue_close. by rewrite length_fmap.
  - intros y (m & -> & Hm)%list_elem_of_fmap. unfold release. case_if; [done|].
    eapply lease_ok_insert; [done|simpl; lia|]. by apply (qi_leases _ _ _ _ Hinv).
  - rewrite release_leases. eapply sublist_NoDup; [|apply sublist_bfilter].
    apply (qi_unique _ _ _ _ Hinv).
  - pose proof (qi_head _ _ _ _ Hinv) as Hh. destruct q as [|a q']; [done|]. simpl in *.
    unfold release. by case_if.
  - intros id' Hne Hid'. apply release_inflight; [lia|congruence].
Qed.

Lemma queue_inv_configure id s size max blocking :
  subs !! id = Some s → queue_inv n (<[id := with_sub s size max blocking]> subs) cur q.
Proof using Hinv.
  intros Hs. destruct (qi_subs _ _ _ _ Hinv id s Hs) as (_ & _ & Hpos & Hinf).
  eapply queue_inv_update; [done|done|simpl; lia|done| | | |done|done].
  - intros m Hm. eapply lease_ok_insert; [done|simpl; lia|]. by apply (qi_leases _ _ _ _ Hinv).
  - apply (qi_unique _ _ _ _ Hinv).
  - apply (qi_head _ _ _ _ Hinv).
Qed.

Lemma queue_inv_elsewhere id s : cur + 1 < ready → Subscribe cur = (id, s) → queue_inv n subs id q.
Proof using Hinv.
  intros Hcur Hsub. unfold Subscribe in Hsub. cbv zeta in Hsub. destruct Hinv as [H1 H2 H3 H4 H5 H6 H7].
  assert (u64 (cur + 1) = cur + 1) as Hu.
  { unfold u64, wrap. apply Z.mod_small. unfold ready, MaxUint64 in *. lia. }
  rewrite Hu in Hsub. simplify_eq. constructor; try done; [lia|].
  intros id t (H8 & H9 & H10)%H7. split_and!; (done || lia || naive_solver).
Qed.

Lemma queue_inv_subscribe id s :
  cur + 1 < ready → Subscribe cur = (id, s) → queue_inv n (<[id := s]> subs) id q.
Proof using Hinv.
  intros Hcur Hsub. unfold Subscribe in Hsub. cbv zeta in Hsub.
  destruct Hinv as [H1 H2 H3 H4 H5 H6 H7].
  assert (Hu : u64 (cur + 1) = cur + 1).
  { unfold u64, wrap. apply Z.mod_small. unfold ready, MaxUint64 in *. lia. }
  rewrite Hu in Hsub. simplify_eq.
  assert (Hfresh : subs !! (cur + 1) = None).
  { destruct (subs !! (cur + 1)) eqn:E; [|done]. apply H7 in E as (_ & ? & _). lia. }
  assert (Hlease : ∀ m, m ∈ q → SubscriptionID m ≠ cur + 1).
  { intros m Hm Heq. specialize (H4 m Hm). unfold lease_ok in H4.
    rewrite (leased_id m (cur + 1)) in H4 by (done || lia). rewrite Heq, Hfresh in H4.
    by destruct H4 as (? & ? & _). }
  assert (Hzero : inflight (cur + 1) q = 0%nat).
  { clear - Hlease. induction q as [|m l IH]; [done|]. rewrite inflight_cons, IH.
    - destruct (Z.eqb_spec (SubscriptionID m) (cur + 1)); [|done]. by destruct (Hlease m ltac:(left)).
    - intros y Hy. apply Hlease. by right. }
  constructor; try done; [lia|..].
  - intros m Hm. specialize (H4 m Hm). specialize (Hlease m Hm). unfold lease_ok in *.
    case_if; [|done]. by rewrite lookup_insert_ne by congruence.
  - intros id t. destruct (decide (id = cur + 1)) as [->|Hne].
    + rewrite lookup_insert_eq. intros ?; simplify_eq. unfold sub_ok. simpl.
      rewrite Hzero. split_and!; [done|lia|lia|done|done|done].
    + rewrite lookup_insert_ne by done. intros (H8 & H9 & H10 & H11)%H7. unfold sub_ok.
      split_and!; try done; lia.
Qed.

End update.

(** ** History *)

Lemma content_insert (q : list Message) (k : nat) m x y :
  q !! k = Some m → content <$> <[k := with_lease m x y]> q = content <$> q.
Proof.
  intros Hk. rewrite list_fmap_insert. apply list_insert_id. by rewrite list_lookup_fmap, Hk.
Qed.

Lemma content_release id q : content <$> queue_close id q = content <$> q.
Proof.
  unfold queue_close. rewrite <- list_fmap_compose. apply list_fmap_ext. intros _ m _. simpl.
  unfold release. by case_if.
Qed.

Lemma commit_of_content (q : list Message) : commit_of <$> (content <$> q) = commit_of <$> q.
Proof. rewrite <- list_fmap_compose. by apply list_fmap_ext. Qed.

Lemma history_same g g' offered sent :
  content <$> window g' = content <$> window g → g_Commits g' = g_Commits g →
  history_ok g offered sent → history_ok g' offered sent.
Proof.
  intros Hw Hc (removed & H1 & H2 & H3). exists removed. by rewrite Hw, Hc.
Qed.

(** ** Steps *)

Lemma queue_next_find id seqNo q q' m' :
  queue_next id seqNo q = Some (q', m') →
  ∃ k m, find_first is_ready q = Some (k, m) ∧ m' = with_lease m id seqNo ∧ q' = <[k := m']> q.
Proof.
  unfold queue_next. destruct (find_first is_ready q) as [[k m]|]; simpl; [|done].
  intros ?; simplify_eq. eauto.
Qed.

Lemma Next_locked_Done s g g' s' i :
  group_shape g → sub_seq s < MaxUint64 → 0 ≤ sub_seq s →
  Next_locked s g = Done (g', s', i) →
  has_capacity s = true ∧
  s' = with_progress s (u32 (sub_inflight s + 1)) (sub_seq s + 1) (sub_closed s) ∧
  ∃ k m, find_first is_ready (window g) = Some (k, m) ∧
    Next_copy g' i = with_lease m (sub_ID s) (sub_seq s + 1) ∧
    group_shape g' ∧ window g' = <[k := with_lease m (sub_ID s) (sub_seq s + 1)]> (window g) ∧
    g_n g' = g_n g ∧ g_closed g' = g_closed g ∧ g_Commits g' = g_Commits g.
Proof.
  intros Hg Hseq Hpos Hn.
  assert (Hu : u64 (sub_seq s + 1) = sub_seq s + 1).
  { unfold u64, wrap. apply Z.mod_small. unfold MaxUint64 in *. lia. }
  destruct (has_capacity s) eqn:Hcap.
  2:{ unfold Next_locked, Next_idle in Hn. rewrite Hcap in Hn. by case_if. }
  pose proof (Next_locked_spec s g Hg Hcap) as Hspec. cbv zeta in Hspec. rewrite Hu in Hspec.
  destruct (queue_next _ _ _) as [[q m']|] eqn:E.
  - destruct Hspec as (g1 & i1 & H1 & H2 & H3 & H4 & H5 & H6 & H7).
    rewrite H1 in Hn. simplify_eq.
    apply queue_next_find in E as (k & m & Hf & Hm & Hq). split_and!; [done|done|].
    exists k, m. rewrite <- Hm. by split_and!.
  - rewrite Hspec in Hn. unfold Next_idle in Hn. repeat case_if; done.
Qed.

Lemma Ack_Ok s g seqNo g' s' commits :
  group_shape g → Ack s g seqNo = Ok (g', s', commits) →
  s' = with_progress s (u32 (sub_inflight s - 1)) (sub_seq s) (sub_closed s) ∧
  ∃ k m, find_first (leased_to (sub_ID s) seqNo) (window g) = Some (k, m) ∧
    let q := split_acked (<[k := with_lease m ack zeroSeqNo]> (window g)) in
    seqNo ≠ 0 ∧ commits = (if g_Commits g then commit_of <$> q.1 else []) ∧
    group_shape g' ∧ window g' = q.2 ∧
    g_n g' = g_n g ∧ g_closed g' = g_closed g ∧ g_Commits g' = g_Commits g.
Proof.
  intros Hg Ha. destruct (Z.eqb_spec seqNo 0) as [->|Hne]; [done|].
  pose proof (Ack_spec s g seqNo Hg Hne) as Hspec. cbv zeta in Hspec.
  unfold queue_ack in Hspec.
  destruct (find_first _ (window g)) as [[k m]|]; simpl in Hspec; [|congruence].
  destruct (split_acked _) as [done rest] eqn:Es.
  destruct Hspec as (g1 & H1 & H2 & H3 & H4 & H5 & H6). rewrite H1 in Ha. simplify_eq.
  split; [done|]. exists k, m. rewrite Es. by split_and!.
Qed.

Lemma Nack_Ok s g seqNo g' s' :
  group_shape g → Nack s g seqNo = Ok (g', s') →
  s' = with_progress s (u32 (sub_inflight s - 1)) (sub_seq s) (sub_closed s) ∧
  ∃ k m, find_first (leased_to (sub_ID s) seqNo) (window g) = Some (k, m) ∧
    seqNo ≠ 0 ∧ group_shape g' ∧
    window g' = <[k := with_lease m ready zeroSeqNo]> (window g) ∧
    g_n g' = g_n g ∧ g_closed g' = g_closed g ∧ g_Commits g' = g_Commits g.
Proof.
  intros Hg Ha. destruct (Z.eqb_spec seqNo 0) as [->|Hne]; [done|].
  pose proof (Nack_spec s g seqNo Hg Hne) as Hspec. cbv zeta in Hspec.
  unfold queue_nack in Hspec.
  destruct (find_first _ (window g)) as [[k m]|]; simpl in Hspec; [|congruence].
  destruct Hspec as (g1 & H1 & H2 & H3 & H4 & H5 & H6). rewrite H1 in Ha. simplify_eq.
  split; [done|]. exists k, m. by split_and!.
Qed.

Lemma Offer_locked_Done g m g' :
  group_shape g → Offer_locked g m = Done g' →
  (length (window g) < g_n g)%nat ∧ group_shape g' ∧
  window g' = window g ++ [with_lease m ready zeroSeqNo] ∧
  g_n g' = g_n g ∧ g_closed g' = g_closed g ∧ g_Commits g' = g_Commits g.
Proof.
  intros Hg Ho. pose proof (Offer_locked_spec g m Hg) as Hspec. unfold queue_offer in Hspec.
  destruct (length (window g) <? g_n g)%nat eqn:E; bool_to_prop.
  - destruct Hspec as (g1 & H1 & H2). rewrite H1 in Ho. simplify_eq. done.
  - rewrite Hspec in Ho. by case_if.
Qed.

Section steps.
Context (st : system) (Hinv : sys_inv st).

Lemma offer_inv m g' :
  Offer_locked (sys_group st) m = Done g' →
  sys_inv {| sys_group := g'; sys_subs := sys_subs st; sys_currentID := sys_currentID st;
             sys_offered := sys_offered st ++ [m]; sys_commits := sys_commits st |}.
Proof using Hinv.
  destruct Hinv as [Hg Hq Hch Hhist Hem].
  intros (Hlen & Hg' & Hw & Hn & Hc1 & Hc2)%Offer_locked_Done; [|done].
  constructor; simpl; [done|rewrite Hn, Hw; by apply queue_inv_offer|congruence| |done].
  destruct Hhist as (removed & H1 & H2 & H3). exists removed. rewrite Hw, Hc2.
  rewrite !fmap_app, H1, app_assoc. done.
Qed.

(** A step that keeps the contents of the queue. *)
Lemma relabel_inv g' subs' :
  group_shape g' → queue_inv (g_n (sys_group st)) subs' (sys_currentID st) (window g') →
  content <$> window g' = content <$> window (sys_group st) →
  g_n g' = g_n (sys_group st) → g_closed g' = g_closed (sys_group st) →
  g_Commits g' = g_Commits (sys_group st) →
  sys_inv (with_subs (with_group st g') subs').
Proof using Hinv.
  destruct Hinv as [Hg Hq Hch Hhist Hem]. intros Hg' Hq' Hw Hn Hc1 Hc2.
  constructor; simpl; [done|by rewrite Hn|congruence| |done]. by eapply history_same.
Qed.

Lemma next_inv id s g' s' i :
  sys_subs st !! id = Some s → sub_seq s < MaxUint64 →
  Next_locked s (sys_group st) = Done (g', s', i) →
  sys_inv (with_subs (with_group st g') (<[id := s']> (sys_subs st))).
Proof using Hinv.
  pose proof Hinv as [Hg Hq Hch Hhist Hem]. intros Hs Hseq Hn.
  destruct (sub_bounds _ _ _ _ Hq id s Hs) as [_ HID].
  destruct (qi_subs _ _ _ _ Hq id s Hs) as (_ & _ & Hpos & _).
  apply Next_locked_Done in Hn as (_ & -> & k & m & Hf & _ & Hg' & Hw & Hn & Hc1 & Hc2);
    [|done|done|lia]. rewrite HID in Hw.
  apply relabel_inv; try done; rewrite Hw; [by apply queue_inv_next|].
  apply content_insert. by apply find_first_lookup in Hf as [? _].
Qed.

Lemma ack_inv id s seqNo g' s' commits :
  sys_subs st !! id = Some s → Ack s (sys_group st) seqNo = Ok (g', s', commits) →
  sys_inv {| sys_group := g'; sys_subs := <[id := s']> (sys_subs st);
             sys_currentID := sys_currentID st;
             sys_offered := sys_offered st; sys_commits := take_commits (sys_commits st) commits |}.
Proof using Hinv.
  destruct Hinv as [Hg Hq Hch Hhist Hem]. intros Hs Ha.
  destruct (sub_bounds _ _ _ _ Hq id s Hs) as [_ HID].
  apply Ack_Ok in Ha as (-> & k & m & Hf & _ & Hcs & Hg' & Hw & Hn & Hc1 & Hc2); [|done].
  rewrite HID in Hf.
  constructor; simpl; [done|rewrite Hn, Hw; by eapply queue_inv_ack|congruence| |by apply take_commits_ok].
  destruct Hhist as (removed & H1 & H2 & H3).
  set (q1 := <[k := _]> (window (sys_group st))) in *.
  exists (removed ++ (content <$> (split_acked q1).1)). rewrite Hw, Hc2, concat_app. simpl. rewrite app_nil_r. split_and!.
  - rewrite <- app_assoc, <- fmap_app, split_acked_app. unfold q1. rewrite content_insert; [done|].
    by apply find_first_lookup in Hf as [? _].
  - rewrite fmap_app, commit_of_content, Hcs. case_if.
    + rewrite H3 by done. done.
    + rewrite app_nil_r. by apply prefix_app_r.
  - intros Hc. rewrite fmap_app, commit_of_content, Hcs, Hc, H3 by done. done.
Qed.

Lemma nack_inv id s seqNo g' s' :
  sys_subs st !! id = Some s → Nack s (sys_group st) seqNo = Ok (g', s') →
  sys_inv (with_subs (with_group st g') (<[id := s']> (sys_subs st))).
Proof using Hinv.
  pose proof Hinv as [Hg Hq Hch Hhist Hem]. intros Hs Ha.
  destruct (sub_bounds _ _ _ _ Hq id s Hs) as [_ HID].
  apply Nack_Ok in Ha as (-> & k & m & Hf & _ & Hg' & Hw & Hn & Hc1 & Hc2); [|done].
  rewrite HID in Hf. apply relabel_inv; try done; rewrite Hw; [by eapply queue_inv_nack|].
  apply content_insert. by apply find_first_lookup in Hf as [? _].
Qed.

Lemma close_inv id s g' s' :
  sys_subs st !! id = Some s → Close s (sys_group st) = (g', s') →
  sys_inv (with_subs (with_group st g') (<[id := s']> (sys_subs st))).
Proof using Hinv.
  pose proof Hinv as [Hg Hq Hch Hhist Hem]. intros Hs Hc.
  destruct (sub_bounds _ _ _ _ Hq id s Hs) as [_ HID]. unfold Close in Hc. simplify_eq.
  destruct (release_all_window (sub_ID s) (sys_group st) Hg) as (Hg' & Hw & Hn & Hc1 & Hc2).
  apply relabel_inv; try done; rewrite Hw; [by apply queue_inv_close|apply content_release].
Qed.

Lemma group_close_inv : sys_inv (with_group st (Group_Close (sys_group st))).
Proof using Hinv.
  destruct Hinv as [Hg Hq Hch Hhist Hem].
  constructor; simpl; [destruct Hg; constructor; assumption|exact Hq|done| |done].
  destruct Hhist as (removed & H1 & H2 & H3). by exists removed.
Qed.

End steps.

Lemma sys_step_inv st st' : sys_inv st → sys_step st st' → sys_inv st'.
Proof.
  intros Hinv Hstep. destruct Hstep.
  - by apply offer_inv.
  - destruct Hinv. constructor; simpl; [done|by eapply queue_inv_subscribe|done..].
  - destruct Hinv. constructor; simpl; [done|by eapply queue_inv_elsewhere|done..].
  - by eapply next_inv.
  - by eapply ack_inv.
  - destruct Hinv. constructor; simpl; [done..|by apply send_commit_ok].
  - by eapply nack_inv.
  - destruct Hinv as [Hg Hq Hch Hh Hem]. constructor; simpl; [done| |done..].
    exact (queue_inv_configure _ _ _ _ Hq id s size max blocking ltac:(assumption)).
  - by eapply close_inv.
  - by apply group_close_inv.
Qed.

Lemma initial_inv n g currentID :
  NewGroup n = Ok g → n < 2 ^ 32 → 0 ≤ currentID < ready → sys_inv (initial g currentID).
Proof.
  unfold NewGroup. case_if; [done|]. bool_to_prop. intros Hn Hlt Hcur.
  set (g1 := with_commit_channel g).
  assert (Hr : g_read g1 = 0%nat ∧ g_write g1 = 0%nat ∧ g_n g1 = Z.to_nat n ∧
    g_Commits g1 = negb (g_closed g1)) by (unfold g1; by simplify_eq).
  assert (Hg : group_shape g1).
  { unfold g1. simplify_eq. constructor; unfold g_len; simpl; rewrite ?length_replicate; lia. }
  destruct Hr as (Hr & Hwr & Hgn & Hch).
  assert (Hw : window g1 = []).
  { apply nil_length_inv. rewrite length_window. pose proof (slot_count g1 Hg) as Hs.
    pose proof (count_lt g1 Hg). destruct Hg. rewrite slot_cases in Hs by lia.
    case_if; bool_to_prop; lia. }
  constructor; [done| |done| |].
  - change (queue_inv (g_n g1) ∅ currentID (window g1)). rewrite Hw, Hgn.
    constructor; simpl; try done; try lia; [by intros ? ?%elem_of_nil|constructor].
  - exists []. change (sys_group (initial g currentID)) with g1. rewrite Hw. done.
  - intros i. apply prefix_nil.
Qed.

Lemma reachable_inv st : sys_reachable st → sys_inv st.
Proof.
  intros (n & g & cur & Hn & Hlt & Hcur & Hrtc). revert Hrtc.
  apply (rtc_ind_r (λ st, sys_inv st)); [by eapply initial_inv|].
  intros st1 st2 _ Hstep IH. by eapply sys_step_inv.
Qed.

(** ** A run of the system *)

Definition demo_offer (offset : Z) : Message := demo_message 7 offset 0 0.

Definition demo_new : Group :=
  {| g_n := 2; g_messages := replicate 3 zero_message; g_read := 0; g_write := 0;
     g_closed := false; g_Commits := false |}.

Definition demo_sub (id size inflight seq : Z) (closed : bool) : Subscription :=
  {| sub_ID := id; sub_size := size; sub_inflight := inflight; sub_maxMessages := 0;
     sub_blocking := true; sub_closed := closed; sub_seq := seq |}.

(** Two messages were offered and subscription 1, of size 1, holds the first. *)
Definition demo_system : system :=
  {| sys_group := {| g_n := 2;
       g_messages := [demo_message 7 10 1 1; demo_message 7 20 ready 0; zero_message];
       g_read := 0; g_write := 2; g_closed := false; g_Commits := true |};
     sys_subs := {[1 := demo_sub 1 1 1 1 false]};
     sys_currentID := 1;
     sys_offered := [demo_offer 10; demo_offer 20];
     sys_commits := no_commits |}.

Lemma demo_reachable : sys_reachable demo_system.
Proof.
  exists 2, demo_new, 0. split_and!; try done.
  eapply rtc_l; [by eapply (step_offer _ (demo_offer 10))|].
  eapply rtc_l; [by eapply (step_offer _ (demo_offer 20))|].
  eapply rtc_l; [by eapply step_subscribe|].
  eapply rtc_l; [by eapply (step_configure _ 1 _ 1 0 true)|].
  eapply rtc_l; [by eapply (step_next _ 1)|].
  apply rtc_refl.
Qed.

Lemma reachable_sub st id s :
  sys_reachable st → sys_subs st !! id = Some s →
  1 ≤ id < ready ∧ sub_ID s = id ∧ 0 ≤ sub_seq s ≤ MaxUint64 ∧
  (sub_closed s = false →
   sub_inflight s = Z.of_nat (inflight id (window (sys_group st)))).
Proof.
  intros Hr Hs. pose proof (inv_queue _ (reachable_inv st Hr)) as Hq.
  destruct (sub_bounds _ _ _ _ Hq id s Hs) as [H1 H2].
  by destruct (qi_subs _ _ _ _ Hq id s Hs) as (_ & _ & H3 & H4).
Qed.

(** A lease is found by the search of [Ack] and [Nack]. *)
Lemma find_leased st id seqNo :
  sys_reachable st → 1 ≤ id < ready →
  is_Some (find_first (leased_to id seqNo) (window (sys_group st))) ↔
  (id, seqNo) ∈ leases (window (sys_group st)).
Proof.
  intros Hr Hid. rewrite elem_of_leases. split.
  - intros [[k m] [Hk [H1 H2]%leased_to_spec]%find_first_lookup].
    exists m. split_and!; [by eapply list_elem_of_lookup_2|by eapply leased_id|done|done].
  - intros (m & Hm & _ & H1 & H2). eapply find_first_is_Some; [done|]. by apply leased_to_spec.
Qed.

(** The lease that ends is no longer in the queue. *)
Lemma lease_ended id seqNo q k m x :
  x = ready ∨ x = ack → 1 ≤ id < ready → NoDup (leases q) →
  find_first (leased_to id seqNo) q = Some (k, m) →
  (id, seqNo) ∉ leases (<[k := with_lease m x zeroSeqNo]> q).
Proof.
  intros Hx Hid Hnd [Hk [H1 H2]%leased_to_spec]%find_first_lookup.
  destruct (insert_split q k m (with_lease m x zeroSeqNo) Hk) as (l1 & l2 & Hq & Hq').
  rewrite Hq'. rewrite Hq in Hnd. rewrite leases_app, leases_cons in *.
  rewrite (leased_id m id H1 Hid) in Hnd. rewrite <- Permutation_middle in Hnd.
  apply NoDup_cons in Hnd as [Hnd _]. rewrite H1, H2 in Hnd.
  by destruct Hx as [->| ->].
Qed.

(** ** Properties *)

(** Leases are exclusive and accounted for: in every state that the concurrent use of a
    group can reach, the ring holds at most [n] messages; no two messages carry the
    same lease, and each lease belongs to a subscription and carries a sequence
    number that subscription has issued; the in-flight counter of an open subscription is
    the number of messages leased to it; and the oldest message is never one that was
    acknowledged. *)
Theorem group_invariant st :
  sys_reachable st →
  let q := window (sys_group st) in
  (length q ≤ g_n (sys_group st))%nat ∧
  NoDup (leases q) ∧
  (∀ id seqNo, (id, seqNo) ∈ leases q →
     ∃ s, sys_subs st !! id = Some s ∧ sub_ID s = id ∧ 1 ≤ seqNo ≤ sub_seq s) ∧
  (∀ id s, sys_subs st !! id = Some s → sub_closed s = false →
     sub_inflight s = Z.of_nat (inflight id q)) ∧
  (∀ m, head q = Some m → SubscriptionID m ≠ ack).
Proof.
  intros Hr q. pose proof (inv_queue _ (reachable_inv st Hr)) as Hq. fold q in Hq.
  split_and!; [exact (qi_length _ _ _ _ Hq)|exact (qi_unique _ _ _ _ Hq)|..].
  - intros id seqNo (m & Hm & Hl & <- & <-)%elem_of_leases.
    apply (qi_leases _ _ _ _ Hq) in Hm. unfold lease_ok in Hm. rewrite Hl in Hm.
    destruct Hm as (s & Hs & Hle). exists s. split_and!; try done; try lia.
    by eapply sub_bounds.
  - intros id s Hs Hc. by apply (reachable_sub st id s Hr Hs).
  - intros m Hm. pose proof (qi_head _ _ _ _ Hq) as Hh. by destruct q; simplify_eq/=.
Qed.

Lemma group_invariant_witness :
  NoDup (leases (window (sys_group demo_system))) ∧ sys_reachable demo_system.
Proof.
  split; [|exact demo_reachable]. apply (group_invariant demo_system). exact demo_reachable.
Defined.

(** Runs in which the calls of [Ack] do not overlap: a call enters its critical section when the calls before it have
    sent their commits. *)
Definition sequential_step (st st' : system) : Prop :=
  sys_step st st' ∧ (em_taken (sys_commits st') = em_taken (sys_commits st) ∨ all_sent (sys_commits st)).

Definition sys_sequential (st : system) : Prop :=
  ∃ n g currentID, NewGroup n = Ok g ∧ n < 2 ^ 32 ∧ 0 ≤ currentID < ready ∧
    rtc sequential_step (initial g currentID) st.

Lemma sequential_one_by_one st :
  sys_sequential st → sys_inv st ∧ one_by_one (sys_commits st).
Proof.
  intros (n & g & cur & Hn & Hlt & Hcur & Hrtc). revert Hrtc.
  apply (rtc_ind_r (λ st, sys_inv st ∧ one_by_one (sys_commits st))); [split; [by eapply initial_inv|by left]|].
  intros st1 st2 _ [Hstep Hall] [Hinv IH]. split; [by eapply sys_step_inv|].
  destruct Hstep; try exact IH; simpl in *.
  - destruct Hall as [Hall|Hall]; [|apply take_one_by_one; [apply Hinv|done|done]].
    apply (f_equal length) in Hall. rewrite length_app in Hall. simpl in Hall. lia.
  - by apply send_one_by_one.
Qed.


(** The first message was acknowledged and its commit sent. *)
Definition demo_acked (e : emission) : system :=
  {| sys_group := {| g_n := 2; g_messages := [zero_message; demo_message 7 20 ready 0; zero_message];
       g_read := 1; g_write := 2; g_closed := false; g_Commits := true |};
     sys_subs := {[1 := demo_sub 1 1 0 1 false]};
     sys_currentID := 1; sys_offered := [demo_offer 10; demo_offer 20]; sys_commits := e |}.

Definition demo_sent : system :=
  demo_acked {| em_taken := [[commit_of (demo_offer 10)]]; em_sent := [(0%nat, commit_of (demo_offer 10))] |}.

Lemma demo_start : rtc sequential_step (initial demo_new 0) demo_system.
Proof.
  eapply rtc_l; [by split; [eapply (step_offer _ (demo_offer 10))|left]|].
  eapply rtc_l; [by split; [eapply (step_offer _ (demo_offer 20))|left]|].
  eapply rtc_l; [by split; [eapply step_subscribe|left]|].
  eapply rtc_l; [by split; [eapply (step_configure _ 1 _ 1 0 true)|left]|].
  eapply rtc_l; [by split; [eapply (step_next _ 1)|left]|].
  apply rtc_refl.
Qed.

Lemma demo_sent_sequential : sys_sequential demo_sent.
Proof.
  exists 2, demo_new, 0. do 3 (split; [done|]). etrans; [exact demo_start|].
  eapply (rtc_l _ _ (demo_acked (take_commits no_commits [commit_of (demo_offer 10)]))).
  { split; [by apply (step_ack demo_system 1 (demo_sub 1 1 1 1 false) 1)|by right]. }
  apply rtc_once. split; [by apply (step_send (demo_acked (take_commits no_commits [commit_of (demo_offer 10)])) 0 (commit_of (demo_offer 10)))|by left].
Qed.

Lemma sequential_reachable st : sys_sequential st → sys_reachable st.
Proof.
  intros (n & g & cur & H1 & H2 & H3 & H). exists n, g, cur. do 3 (split; [done|]).
  clear -H. induction H as [|x y z [Hs _] _ IH]; [apply rtc_refl|by eapply rtc_l].
Qed.


(** Subscription 1 holds both messages; [messages] are in the ring from [read] on. *)
Definition demo_overlap (messages : list Message) (read : nat) (inflight : Z) (e : emission) : system :=
  {| sys_group := {| g_n := 2; g_messages := messages; g_read := read; g_write := 2; g_closed := false; g_Commits := true |};
     sys_subs := {[1 := demo_sub 1 0 inflight 2 false]};
     sys_currentID := 1; sys_offered := [demo_offer 10; demo_offer 20]; sys_commits := e |}.

Lemma demo_both :
  rtc sys_step (initial demo_new 0)
    (demo_overlap [demo_message 7 10 1 1; demo_message 7 20 1 2; zero_message] 0 2 no_commits).
Proof.
  eapply rtc_l; [by eapply (step_offer _ (demo_offer 10))|].
  eapply rtc_l; [by eapply (step_offer _ (demo_offer 20))|].
  eapply rtc_l; [by eapply step_subscribe|].
  eapply rtc_l; [by eapply (step_next _ 1)|].
  eapply rtc_l; [by eapply (step_next _ 1)|].
  apply rtc_refl.
Qed.

(** Two calls of [Ack] that overlap can send their commits in the other order: the offset of the second message is sent
    before that of the first. *)
Lemma commits_out_of_order :
  let c1 := commit_of (demo_offer 10) in let c2 := commit_of (demo_offer 20) in
  let st := demo_overlap [zero_message; zero_message; zero_message] 2 0
    {| em_taken := [[c1]; [c2]]; em_sent := [(1%nat, c2); (0%nat, c1)] |} in
  sys_reachable st ∧ (em_sent (sys_commits st)).*2 = [c2; c1] ∧ commit_of <$> sys_offered st = [c1; c2].
Proof.
  intros c1 c2 st. split; [|done]. exists 2, demo_new, 0. do 3 (split; [done|]). etrans; [exact demo_both|].
  eapply (rtc_l _ _ (demo_overlap [zero_message; demo_message 7 20 1 2; zero_message] 1 1 (take_commits no_commits [c1])));
    [by apply (step_ack (demo_overlap _ _ _ _) 1 (demo_sub 1 0 2 2 false) 1)|].
  eapply (rtc_l _ _ (demo_overlap [zero_message; zero_message; zero_message] 2 0 (take_commits (take_commits no_commits [c1]) [c2])));
    [by apply (step_ack (demo_overlap _ _ _ _) 1 (demo_sub 1 0 1 2 false) 2)|].
  set (e := take_commits (take_commits no_commits [c1]) [c2]).
  eapply rtc_l; [by apply (step_send (demo_overlap [zero_message; zero_message; zero_message] 2 0 e) 1 c2)|].
  apply rtc_once. by apply (step_send (demo_overlap [zero_message; zero_message; zero_message] 2 0 (send_commit e 1 c2)) 0 c1).
Qed.

(** What [Ack] and [Nack] accept. *)
Lemma lease_exact st id s seqNo :
  sys_reachable st → sys_subs st !! id = Some s →
  let g := sys_group st in
  ((id, seqNo) ∈ leases (window g) →
   (∃ g' s' commits, Ack s g seqNo = Ok (g', s', commits) ∧ (id, seqNo) ∉ leases (window g')) ∧
   (∃ g' s', Nack s g seqNo = Ok (g', s') ∧ ((id, seqNo) ∉ leases (window g')) ∧
      length (window g') = length (window g))) ∧
  ((id, seqNo) ∉ leases (window g) →
   Ack s g seqNo = Err (if seqNo =? 0 then ErrSeqNo else ErrNotLeased) ∧
   Nack s g seqNo = Err (if seqNo =? 0 then ErrSeqNo else ErrNotLeased)).
Proof.
  intros Hr Hs g. destruct (reachable_inv st Hr) as [Hg Hq _ _ _].
  destruct (reachable_sub st id s Hr Hs) as (Hid & HID & _ & _).
  pose proof (qi_unique _ _ _ _ Hq) as Hnd. fold g in Hg, Hq, Hnd. split.
  - intros Hin. destruct (proj2 (find_leased st id seqNo Hr Hid) Hin) as [[k m] Hf]. fold g in Hf.
    assert (Hne : seqNo ≠ 0).
    { apply elem_of_leases in Hin as (x & Hx & Hlx & _ & <-).
      apply (qi_leases _ _ _ _ Hq) in Hx. unfold lease_ok in Hx. rewrite Hlx in Hx.
      destruct Hx as (? & _ & ?). lia. }
    pose proof (Ack_spec s g seqNo Hg Hne) as Ha. pose proof (Nack_spec s g seqNo Hg Hne) as Hn.
    cbv zeta in *. unfold queue_ack, queue_nack in *. rewrite HID in *. rewrite Hf in *.
    simpl in Ha, Hn. destruct (split_acked _) as [done rest] eqn:Es.
    destruct Ha as (g1 & Ha & _ & Hw1 & _). destruct Hn as (g2 & Hn & _ & Hw2 & _). split.
    + do 3 eexists. split; [exact Ha|]. rewrite Hw1.
      replace rest with (split_acked (<[k:=with_lease m ack zeroSeqNo]> (window g))).2 by (by rewrite Es).
      rewrite (proj1 (split_acked_leases _ id ltac:(unfold ack; lia))).
      apply lease_ended; [by right|done..].
    + do 2 eexists. split; [exact Hn|]. rewrite Hw2. split; [|apply length_insert].
      apply lease_ended; [by left|done..].
  - intros Hin. destruct (Z.eqb_spec seqNo 0) as [->|Hne]; [done|].
    pose proof (Ack_spec s g seqNo Hg Hne) as Ha. pose proof (Nack_spec s g seqNo Hg Hne) as Hn.
    cbv zeta in *. unfold queue_ack, queue_nack in *. rewrite HID in *.
    destruct (find_first _ (window g)) as [p|] eqn:E; [|done].
    destruct Hin. apply (proj1 (find_leased st id seqNo Hr Hid)). fold g. rewrite E. eauto.
Qed.

(** [Ack] and [Nack] accept exactly the outstanding leases, once: in a reachable state
    either succeeds with a sequence number if and only if a message is leased under it to the
    subscription, and fails otherwise with [ErrNotLeased] (or, for zero, with the
    sequence number error); after it succeeded the lease is gone. *)
Theorem Ack_Nack_exact st id s seqNo :
  sys_reachable st → sys_subs st !! id = Some s →
  let g := sys_group st in
  ((id, seqNo) ∈ leases (window g) →
   (∃ g' s' commits, Ack s g seqNo = Ok (g', s', commits) ∧ (id, seqNo) ∉ leases (window g')) ∧
   (∃ g' s', Nack s g seqNo = Ok (g', s') ∧ ((id, seqNo) ∉ leases (window g')) ∧
      length (window g') = length (window g))) ∧
  ((id, seqNo) ∉ leases (window g) →
   Ack s g seqNo = Err (if seqNo =? 0 then ErrSeqNo else ErrNotLeased) ∧
   Nack s g seqNo = Err (if seqNo =? 0 then ErrSeqNo else ErrNotLeased)).
Proof. apply lease_exact. Qed.

Lemma Ack_Nack_exact_witness :
  ∃ g' s' commits,
    Ack (demo_sub 1 1 1 1 false) (sys_group demo_system) 1 = Ok (g', s', commits) ∧
    (1, 1) ∉ leases (window g').
Proof.
  refine (proj1 (proj1 (Ack_Nack_exact demo_system 1 (demo_sub 1 1 1 1 false) 1
    demo_reachable eq_refl) _)).
  vm_compute. left.
Defined.

(** A delivery respects the limits of the subscription and the order of the group: when
    [Next] of an open subscription gets a message in a reachable state, that message is the oldest one
    that was not leased or acknowledged, it is now leased under a fresh sequence number, no
    other message changes, and afterwards the subscription holds at most [size]
    messages and was given at most [maxMessages] in total (zero means no limit). *)
Theorem Next_respects_limits st id s g' s' i :
  sys_reachable st → sys_subs st !! id = Some s → sub_closed s = false →
  sub_seq s < MaxUint64 → Next_locked s (sys_group st) = Done (g', s', i) →
  let q := window (sys_group st) in
  (sub_size s' = 0 ∨ Z.of_nat (inflight id (window g')) ≤ sub_size s') ∧
  (sub_maxMessages s' = 0 ∨ sub_seq s' ≤ sub_maxMessages s') ∧
  ∃ k m, q !! k = Some m ∧ SubscriptionID m = ready ∧
    (∀ j x, (j < k)%nat → q !! j = Some x → SubscriptionID x ≠ ready) ∧
    window g' = <[k := with_lease m id (sub_seq s + 1)]> q ∧
    Next_copy g' i = with_lease m id (sub_seq s + 1) ∧
    ((id, sub_seq s + 1) ∉ leases q).
Proof.
  intros Hr Hs Hc Hseq Hn q.
  destruct (reachable_sub st id s Hr Hs) as (Hid & HID & Hpos & Hinf).
  destruct (reachable_inv st Hr) as [Hg Hq _ _ _].
  assert (Hinf' : sub_inflight s' = Z.of_nat (inflight id (window g'))).
  { pose proof (next_inv st (reachable_inv st Hr) id s g' s' i Hs Hseq Hn) as [_ Hq' _ _ _].
    assert (Hc' : sub_closed s' = false).
    { apply Next_locked_Done in Hn as (_ & -> & _); [done|done|done|lia]. }
    destruct (qi_subs _ _ _ _ Hq' id s') as (_ & _ & _ & H); [apply lookup_insert_eq|]. auto. }
  apply Next_locked_Done in Hn as (Hcap & -> & k & m & Hf & Hcopy & Hg' & Hw & Hn & Hc1 & Hc2);
    [|done|done|lia].
  rewrite <- Hinf'. cbn [with_progress sub_inflight sub_size sub_maxMessages sub_seq] in *.
  rewrite HID in *. unfold has_capacity in Hcap.
  apply andb_true_iff in Hcap as [Hsize Hmax]. bool_to_prop. split_and!.
  - destruct Hsize as [Hsize|Hsize]; bool_to_prop; [by left|right].
    rewrite (Hinf Hc) in *. unfold u32, wrap.
    pose proof (Z.mod_le (Z.of_nat (inflight id q) + 1) (2 ^ 32)). unfold q in *. lia.
  - destruct Hmax as [Hmax|Hmax]; bool_to_prop; [by left|right; lia].
  - apply find_first_Some in Hf as (H1 & H2 & H3). unfold is_ready in *. exists k, m.
    split_and!; [done|by bool_to_prop| |done|done|].
    + intros j x Hj Hx. specialize (H3 j x Hj Hx). by bool_to_prop.
    + intros (x & Hx & Hl & Hx1 & Hx2)%elem_of_leases. apply (qi_leases _ _ _ _ Hq) in Hx.
      unfold lease_ok in Hx. rewrite Hl, Hx1 in Hx. destruct Hx as (t & Ht & Hle).
      simplify_eq. lia.
Qed.

(** The same system after the limit of subscription 1 was raised. *)
Definition demo_resized : system :=
  with_subs demo_system (<[1 := demo_sub 1 2 1 1 false]> (sys_subs demo_system)).

Lemma demo_resized_reachable : sys_reachable demo_resized.
Proof.
  destruct demo_reachable as (n & g & cur & H1 & H2 & H3 & H4).
  exists n, g, cur. do 3 (split; [assumption|]). eapply rtc_r; [exact H4|].
  exact (step_configure demo_system 1 (demo_sub 1 1 1 1 false) 2 0 true eq_refl).
Qed.

Lemma Next_respects_limits_witness :
  ∃ g' s' i,
    Next_locked (demo_sub 1 2 1 1 false) (sys_group demo_resized) = Done (g', s', i) ∧
    Z.of_nat (inflight 1 (window g')) ≤ sub_size s'.
Proof.
  do 3 eexists. split; [reflexivity|].
  destruct (Next_respects_limits demo_resized 1 (demo_sub 1 2 1 1 false) _ _ _
    demo_resized_reachable eq_refl eq_refl eq_refl eq_refl) as [[H|H] _].
  - discriminate H.
  - exact H.
Defined.

(** Nothing gets stuck (C15): in a reachable state where no lease is outstanding and the ring
    is not empty, the oldest message is ready, so that [Next] of any subscription with
    capacity returns it without waiting. *)
Theorem no_stuck_message st id s m :
  sys_reachable st → sys_subs st !! id = Some s → sub_seq s < MaxUint64 →
  has_capacity s = true →
  leases (window (sys_group st)) = [] → head (window (sys_group st)) = Some m →
  ∃ g' s' i, Next_locked s (sys_group st) = Done (g', s', i) ∧
    Next_copy g' i = with_lease m id (sub_seq s + 1).
Proof.
  intros Hr Hs Hseq Hcap Hl Hm.
  destruct (reachable_sub st id s Hr Hs) as (Hid & HID & Hpos & _).
  destruct (reachable_inv st Hr) as [Hg Hq _ _ _].
  pose proof (qi_head _ _ _ _ Hq) as Hh.
  assert (Hu : u64 (sub_seq s + 1) = sub_seq s + 1).
  { unfold u64, wrap. apply Z.mod_small. unfold MaxUint64 in *. lia. }
  pose proof (Next_locked_spec s (sys_group st) Hg Hcap) as Hspec. cbv zeta in Hspec.
  rewrite Hu, HID in Hspec. destruct (window (sys_group st)) as [|m' q]; simplify_eq/=.
  assert (Hready : is_ready m = true).
  { rewrite leases_cons in Hl. destruct (leased m) eqn:E; [done|]. unfold leased, is_ready in *.
    bool_to_prop. destruct E as [E|E]; bool_to_prop; [|done]. rewrite E. apply Z.eqb_refl. }
  unfold queue_next in Hspec. simpl in Hspec. rewrite Hready in Hspec. simpl in Hspec.
  destruct Hspec as (g1 & i & H1 & H2 & _). eauto.
Qed.

Lemma no_stuck_message_witness :
  ∃ g' s' i,
    Next_locked (demo_sub 1 0 0 0 false)
      (with_messages (sys_group demo_system)
         [demo_message 7 10 ready 0; demo_message 7 20 ready 0; zero_message]) =
      Done (g', s', i) ∧
    Next_copy g' i = with_lease (demo_message 7 10 ready 0) 1 1.
Proof.
  apply (no_stuck_message
    {| sys_group := with_messages (sys_group demo_system)
         [demo_message 7 10 ready 0; demo_message 7 20 ready 0; zero_message];
       sys_subs := {[1 := demo_sub 1 0 0 0 false]};
       sys_currentID := 1;
       sys_offered := [demo_offer 10; demo_offer 20];
       sys_commits := no_commits |} 1); try reflexivity.
  exists 2, demo_new, 0. split_and!; try done.
  eapply rtc_l; [by eapply (step_offer _ (demo_offer 10))|].
  eapply rtc_l; [by eapply (step_offer _ (demo_offer 20))|].
  eapply rtc_l; [by eapply step_subscribe|].
  apply rtc_refl.
Defined.

(** Closing a subscription returns its messages: after [Close] in a reachable state no
    message is leased to the subscription, the messages that were are ready again at their
    old position, every other lease is as before, and no message is added or
    lost. *)
Theorem Close_returns_messages st id s :
  sys_reachable st → sys_subs st !! id = Some s →
  let q := window (sys_group st) in
  let q' := window (Close s (sys_group st)).1 in
  inflight id q' = 0%nat ∧ content <$> q' = content <$> q ∧
  (∀ k m, q !! k = Some m → SubscriptionID m = id →
     q' !! k = Some (with_lease m ready zeroSeqNo)) ∧
  (∀ k m, q !! k = Some m → SubscriptionID m ≠ id → q' !! k = Some m).
Proof.
  intros Hr Hs q q'. destruct (reachable_sub st id s Hr Hs) as (Hid & HID & _).
  destruct (reachable_inv st Hr) as [Hg _ _ _ _].
  assert (Hw : q' = queue_close id q).
  { unfold q', Close. simpl. rewrite HID. by apply release_all_window. }
  rewrite Hw. split_and!; [|apply content_release|..].
  - apply release_none. lia.
  - intros k m Hk Hm. unfold queue_close. rewrite list_lookup_fmap, Hk. simpl.
    unfold release. by rewrite Hm, Z.eqb_refl.
  - intros k m Hk Hm. unfold queue_close. rewrite list_lookup_fmap, Hk. simpl.
    unfold release. apply Z.eqb_neq in Hm. by rewrite Hm.
Qed.

Lemma Close_returns_messages_witness :
  inflight 1 (window (Close (demo_sub 1 1 1 1 false) (sys_group demo_system)).1) = 0%nat.
Proof.
  apply (Close_returns_messages demo_system 1 (demo_sub 1 1 1 1 false));
    [exact demo_reachable|reflexivity].
Defined.

(** ** Calls that race with [Close]

    [Close] keeps the in-flight counter, and [Next] tests the closed flag only when it has capacity
    and found no message. *)

(** A call of [Next] on a closed subscription that was at its limit waits on every state
    of the group. *)
Lemma closed_at_limit_waits s g :
  0 < sub_size s ≤ sub_inflight s → Next_locked (Close s g).2 (Close s g).1 = Wait.
Proof.
  intros H. unfold Next_locked, Close, has_capacity, Next_idle.
  cbn [fst snd with_progress sub_size sub_inflight sub_maxMessages sub_seq sub_blocking sub_closed].
  destruct (Z.eqb_spec (sub_size s) 0); [lia|].
  destruct (Z.ltb_spec (sub_inflight s) (sub_size s)); [lia|]. simpl.
  destruct (Z.eqb_spec (sub_inflight s) 0); [lia|done].
Qed.

(** A call of [Next] that waited when the subscription was closed leases the next
    message to it. *)
Lemma closed_subscription_gets_lease :
  ∃ st s m, sys_reachable st ∧ sys_subs st !! 1 = Some s ∧ sub_closed s = true ∧
    window (sys_group st) = [m] ∧ SubscriptionID m = 1.
Proof.
  do 3 eexists. split.
  { exists 2, demo_new, 0. do 3 (split; [done|]).
    eapply rtc_l; [by eapply step_subscribe|].
    eapply rtc_l; [by eapply (step_close _ 1)|].
    eapply rtc_l; [by eapply (step_offer _ (demo_offer 10))|].
    eapply rtc_l; [by eapply (step_next _ 1)|].
    apply rtc_refl. }
  by split_and!.
Qed.
