(* ===== verification/Segments.v ===== *)
(** * Segment files

    Models src/mq/segments/file.go and iterator.go.  A segment is a file that holds a version byte
    and then records, each the length of a message as a varint followed by the
    message.  A [File] carries the bytes on disk next to the fields of the
    source; the outcome of a system call that can fail is an argument.  A byte is an integer
    in [0, 256). *)
From S2P Require Import Prelude.

(** ** Varints of the Go standard library (encoding/binary) *)

Definition MaxVarintLen64 : Z := 10.

(** [PutUvarint]; ten bytes hold every 64-bit value. *)
Fixpoint PutUvarint_loop (fuel : nat) (x : Z) : list Z :=
  match fuel with
  | O => []
  | S fuel => if 128 <=? x then Z.lor (u8 x) 128 :: PutUvarint_loop fuel (Z.shiftr x 7) else [u8 x]
  end.

Definition PutUvarint (x : Z) : list Z := PutUvarint_loop 10 x.

(** [Uvarint]: the value and the number of bytes read; zero for a buffer
    that is too small, negative for an overflow. *)
Fixpoint Uvarint_loop (buf : list Z) (i x s : Z) : Z * Z :=
  match buf with
  | [] => (0, 0)
  | b :: buf =>
    if b <? 128 then
      if (9 <? i) || ((i =? 9) && (1 <? b)) then (0, - (i + 1))
      else (Z.lor x (u64 (Z.shiftl b s)), i + 1)
    else Uvarint_loop buf (i + 1) (Z.lor x (u64 (Z.shiftl (Z.land b 127) s))) (s + 7)
  end.

Definition Uvarint (buf : list Z) : Z * Z := Uvarint_loop buf 0 0 0.

(** ** Data *)

Inductive seg_error : Type :=
| ErrFull
| ErrExtend
| ErrIteratorClosed
| ErrIteratorInvalid
| EOF
| ErrOpen
| ErrStat
| ErrWriteVersion
| ErrReadVersion
| ErrBadVersion
| ErrSeek
| ErrRead
| ErrWrongMessageSize
| ErrTruncate
| ErrWrite
| ErrNegativeSize
| ErrOffsetNotPositive
| ErrOffsetOutOfBounds
| ErrPeek
| ErrBadLength
| ErrDiscard.

Definition version : Z := 1.
Definition SumAll : Z := -1.
Definition TruncateAll : Z := 0.
Definition invalidOffset : Z := -1.

Record File : Type := {
  f_data : list Z; (* the bytes on disk *)
  f_opened : bool; (* the descriptor is open *)
  f_maxSize : Z;
  f_offset : Z;
  f_term : Z;
}.

Record Iterator : Type := {
  it_term : Z;
  it_offset : Z;
  it_endOffset : Z;
  it_wait : bool;
  it_pos : Z; (* the section of the file the reader has left *)
  it_end : Z;
  it_closed : bool;
}.

(** The bytes of the file from [from] to [to]. *)
Definition section (data : list Z) (from to : Z) : list Z :=
  take (Z.to_nat (to - from)) (drop (Z.to_nat from) data).

(** ** Opening a file *)

(** The system calls of [Open]; [os] tells which of them succeed. *)
Inductive os_call : Type :=
| CallOpen
| CallStat
| CallWriteVersion
| CallReadVersion
| CallSeek (offset : Z)
| CallRead (offset : Z)
| CallTruncate (offset : Z).

Section Open.
Context (os : os_call → bool).

(** The loop that scans the records; [None] when the fuel runs out. The result is
    the contents of the file and the offset of its end. *)
Fixpoint scan (fuel : nat) (data : list Z) (size offset buflen : Z) :
    option (result seg_error (list Z * Z)) :=
  match fuel with
  | O => None
  | S fuel =>
    if offset <? size then
      if (offset <? 0) || negb (os (CallSeek offset)) then Some (Err ErrSeek)
      else if negb (os (CallRead offset)) then Some (Err ErrRead)
      else
        let buf := take (Z.to_nat buflen) (drop (Z.to_nat offset) data) in
        let '(messageSize, n) := Uvarint buf in
        if n =? 0 then Some (Err ErrWrongMessageSize)
        else
          let increment := i64 (n + i64 messageSize) in
          if size <? i64 (offset + increment) then
            if os (CallTruncate offset) then Some (Ok (take (Z.to_nat offset) data, offset))
            else Some (Err ErrTruncate)
          else scan fuel data size (i64 (offset + increment)) (Z.of_nat (length buf))
    else Some (Ok (data, offset))
  end.

Definition Open (fuel : nat) (data : list Z) (maxSize : Z) : option (result seg_error File) :=
  let file data offset :=
    {| f_data := data; f_opened := true; f_maxSize := maxSize; f_offset := offset; f_term := 1 |} in
  if negb (os CallOpen) then Some (Err ErrOpen)
  else if negb (os CallStat) then Some (Err ErrStat)
  else
    let size := Z.of_nat (length data) in
    if size =? 0 then
      if os CallWriteVersion then Some (Ok (file [version] 1)) else Some (Err ErrWriteVersion)
    else if negb (os CallReadVersion) then Some (Err ErrReadVersion)
    else if negb (hd 0 data =? version) then Some (Err ErrBadVersion)
    else r ← scan fuel data size 1 MaxVarintLen64;
         Some ('(data, offset) ← r; Ok (file data offset)).

End Open.

(** ** Operations of a file *)

Definition with_data (f : File) (data : list Z) (offset term : Z) : File :=
  {| f_data := data; f_opened := f_opened f; f_maxSize := f_maxSize f; f_offset := offset;
     f_term := term |}.

(** The bytes of a record. *)
Definition record (message : list Z) : list Z :=
  PutUvarint (Z.of_nat (length message)) ++ message.

(** What the write system call does: all bytes, or some of them and then the
    outcome of the truncation that undoes it. *)
Inductive write_result : Type :=
| WroteAll
| WroteSome (n : nat) (truncated : bool).

Definition Write (f : File) (message : list Z) (w : write_result) :
    result Empty_set (File * option seg_error) :=
  let currentOffset := f_offset f in
  if f_maxSize f <=? currentOffset then Ok (f, Some ErrFull)
  else
    let buf := record message in
    if negb (f_opened f) then Ok (f, Some ErrWrite)
    else match w with
         | WroteAll =>
           Ok (with_data f (f_data f ++ buf) (i64 (currentOffset + Z.of_nat (length buf))) (f_term f),
               None)
         | WroteSome n truncated =>
           if truncated then
             Ok (with_data f (take (Z.to_nat currentOffset) (f_data f ++ take n buf))
                   currentOffset (f_term f), Some ErrWrite)
           else Panic "segment file might be corrupted, truncate failed"
         end.

Definition IsFull (f : File) : bool := f_maxSize f <=? f_offset f.

(** [Truncate]; [ok] is the outcome of the system call. *)
Definition Truncate (f : File) (size : Z) (ok : bool) : result seg_error File :=
  if size <? 0 then Err ErrNegativeSize
  else
    let size := if size =? TruncateAll then 1 else size in
    let currentOffset := f_offset f in
    if currentOffset <? size then Err ErrExtend
    else if size <? currentOffset then
      if ok && f_opened f then
        Ok (with_data f (take (Z.to_nat size) (f_data f)) size (u32 (f_term f + 1)))
      else Err ErrTruncate
    else Ok (with_data f (f_data f) currentOffset (u32 (f_term f + 1))).

Definition ReadAt (f : File) (offset : Z) (wait : bool) : result seg_error Iterator :=
  if offset <? 1 then Err ErrOffsetNotPositive
  else
    let currentOffset := f_offset f in
    if currentOffset <? offset then Err ErrOffsetOutOfBounds
    else Ok {| it_term := f_term f; it_offset := offset; it_endOffset := currentOffset;
               it_wait := wait; it_pos := offset; it_end := currentOffset; it_closed := false |}.

Definition Read (f : File) (wait : bool) : result seg_error Iterator := ReadAt f 1 wait.

(** [Sum]: the bytes given to the hash and the size. *)
Definition Sum (f : File) (size : Z) : result seg_error (list Z * Z) :=
  let size := if size <? 1 then f_offset f else size in
  if f_opened f then Ok (section (f_data f) 0 size, size) else Err ErrRead.

Definition File_Close (f : File) : File :=
  {| f_data := f_data f; f_opened := false; f_maxSize := f_maxSize f; f_offset := f_offset f;
     f_term := u32 (f_term f + 1) |}.

(** ** Iterators *)

(** What a call of [Next] comes to: a message with its offset and commit offset, an
    error, a call that waits, or a panic. *)
Inductive outcome : Type :=
| Delivered (data : list Z) (offset commitOffset : Z)
| Failed (e : seg_error)
| Waits
| Panics.

Definition with_reader (i : Iterator) (offset endOffset pos end' : Z) : Iterator :=
  {| it_term := it_term i; it_offset := offset; it_endOffset := endOffset; it_wait := it_wait i;
     it_pos := pos; it_end := end'; it_closed := it_closed i |}.

Definition Iterator_Close (i : Iterator) : Iterator :=
  {| it_term := it_term i; it_offset := it_offset i; it_endOffset := it_endOffset i;
     it_wait := it_wait i; it_pos := it_pos i; it_end := it_end i; it_closed := true |}.

(** [nextWait] under the mutex: [None] when it waits. *)
Definition nextWait (i : Iterator) (f : File) : option (result seg_error Iterator) :=
  if f_maxSize f <=? it_endOffset i then Some (Err EOF)
  else
    let currentOffset := f_offset f in
    if (currentOffset =? it_endOffset i) && (f_term f =? it_term i) then
      if it_closed i then Some (Err ErrIteratorClosed) else None
    else if negb (f_term f =? it_term i) then Some (Err ErrIteratorInvalid)
    else Some (Ok (with_reader i (it_offset i) currentOffset (it_endOffset i) currentOffset)).

(** An error closes the iterator. *)
Definition fail_with (i : Iterator) (e : seg_error) : Iterator * outcome :=
  (Iterator_Close i, Failed e).

(** [Next] from the label on; [again] is the jump back to it. *)
Definition Next_pass (again : Iterator → Iterator * outcome) (i : Iterator) (f : File) :
    Iterator * outcome :=
  if negb (f_opened f) then fail_with i ErrPeek
  else
    let rest := section (f_data f) (it_pos i) (it_end i) in
    let buf := take (Z.to_nat MaxVarintLen64) rest in
    let '(messageLength, n) := Uvarint buf in
    if n =? 0 then
      if Z.of_nat (length buf) <? MaxVarintLen64 then (* io.EOF *)
        if it_wait i then
          match nextWait i f with
          | None => (i, Waits)
          | Some (Ok i) => again i
          | Some (Err e) => fail_with i e
          | Some (Panic _) => (i, Panics)
          end
        else fail_with i EOF
      else fail_with i ErrBadLength
    else if n <? 0 then fail_with i ErrDiscard
    else if MaxInt64 <? messageLength then (i, Panics) (* make: len out of range *)
    else if Z.of_nat (length rest) - n <? messageLength then fail_with i ErrRead
    else
      let offset := i64 (it_offset i + i64 (n + messageLength)) in
      (with_reader i offset (it_endOffset i) (it_pos i + n + messageLength) (it_end i),
       Delivered (take (Z.to_nat messageLength) (drop (Z.to_nat n) rest)) (it_offset i) offset).

(** After a wait the reader has new bytes, so the jump is taken at most once per state of
    the file. *)
Fixpoint Next_loop (fuel : nat) (i : Iterator) (f : File) : Iterator * outcome :=
  match fuel with
  | O => (i, Waits)
  | S fuel => Next_pass (λ i, Next_loop fuel i f) i f
  end.

Definition Next_label (i : Iterator) (f : File) : Iterator * outcome := Next_loop 2 i f.

Definition Iterator_Next (i : Iterator) (f : File) : Iterator * outcome :=
  if it_closed i then (i, Failed ErrIteratorClosed)
  else if negb (f_term f =? it_term i) then (i, Failed ErrIteratorInvalid)
  else Next_label i f.
