(* ===== verification/SegmentsVarint.v ===== *)
(** * Varints: encoding and decoding

    Lemmas on [PutUvarint] and [Uvarint] as src/mq/segments/file.go and iterator.go use them. *)
From S2P Require Import Prelude Segments.

(** ** Bytes *)

Definition all_below (n : nat) (p : Z → bool) : bool := forallb (λ k, p (Z.of_nat k)) (seq 0 n).

Lemma all_below_true n p z : all_below n p = true → 0 ≤ z < Z.of_nat n → p z = true.
Proof.
  intros H Hz. unfold all_below in H. rewrite forallb_forall in H.
  specialize (H (Z.to_nat z)). rewrite Z2Nat.id in H by lia. apply H, in_seq. lia.
Qed.

(** The continuation byte of the lowest seven bits. *)
Lemma continuation_byte x : Z.lor (u8 x) 128 = 128 + x mod 128.
Proof.
  unfold u8, wrap. change (2 ^ 8) with 256. pose proof (Z.mod_pos_bound x 256 ltac:(lia)) as Hx.
  assert (H : (Z.lor (x mod 256) 128 =? 128 + (x mod 256) mod 128) = true).
  { by apply (all_below_true 256 (λ y, Z.lor y 128 =? 128 + y mod 128)). }
  apply Z.eqb_eq in H. rewrite H. f_equal. apply Z.mod_mod_divide. by exists 2.
Qed.

Lemma payload_bits y : 0 ≤ y < 128 → Z.land (128 + y) 127 = y.
Proof.
  intros Hy. apply Z.eqb_eq.
  by apply (all_below_true 128 (λ y, Z.land (128 + y) 127 =? y)).
Qed.

Lemma split_bits acc x s :
  0 ≤ s → 0 ≤ x →
  Z.lor (Z.lor acc (Z.shiftl (x mod 128) s)) (Z.shiftl (Z.shiftr x 7) (s + 7)) =
  Z.lor acc (Z.shiftl x s).
Proof.
  intros Hs Hx. apply Z.bits_inj'. intros n Hn. change 128 with (2 ^ 7).
  rewrite !Z.lor_spec, !Z.shiftl_spec by done. rewrite <- orb_assoc. f_equal.
  destruct (Z.ltb_spec (n - s) 7) as [H7|H7].
  - rewrite Z.mod_pow2_bits_low by lia. rewrite (Z.testbit_neg_r _ (n - (s + 7))) by lia.
    apply orb_false_r.
  - rewrite Z.mod_pow2_bits_high by lia. rewrite Z.shiftr_spec by lia. simpl. f_equal. lia.
Qed.

(** ** Round trip *)

Lemma u64_small x : 0 ≤ x < 2 ^ 64 → u64 x = x.
Proof. apply Z.mod_small. Qed.

Lemma shift7 x : 0 ≤ x → x = 128 * Z.shiftr x 7 + x mod 128 ∧ 0 ≤ Z.shiftr x 7 ∧ 0 ≤ x mod 128 < 128.
Proof.
  intros Hx. rewrite Z.shiftr_div_pow2 by lia. change (2 ^ 7) with 128.
  pose proof (Z.div_mod x 128 ltac:(lia)). pose proof (Z.mod_pos_bound x 128 ltac:(lia)).
  split_and!; lia.
Qed.

Lemma Uvarint_loop_Put fuel : ∀ x i acc rest,
  (1 ≤ fuel)%nat → 0 ≤ x → 0 ≤ i → i + Z.of_nat fuel ≤ 10 → x < 2 ^ (7 * Z.of_nat fuel) →
  x * 2 ^ (7 * i) < 2 ^ 64 →
  Uvarint_loop (PutUvarint_loop fuel x ++ rest) i acc (7 * i) =
  (Z.lor acc (Z.shiftl x (7 * i)), i + Z.of_nat (length (PutUvarint_loop fuel x))).
Proof.
  induction fuel as [|fuel IH]; intros x i acc rest Hf Hx Hi Hfuel Hlt Hmax; [lia|].
  assert (Hpow : 0 < 2 ^ (7 * i)) by (apply Z.pow_pos_nonneg; lia).
  cbn [PutUvarint_loop]. destruct (Z.leb_spec 128 x) as [Hge|Hsmall].
  - destruct (shift7 x Hx) as (Heq & Hhi & Hlo).
    assert (Hfuel1 : (1 ≤ fuel)%nat).
    { destruct fuel; [|lia]. change (7 * Z.of_nat 1) with 7 in Hlt. lia. }
    assert (Hlow : 0 ≤ Z.shiftl (x mod 128) (7 * i) < 2 ^ 64).
    { rewrite Z.shiftl_mul_pow2 by lia. split; [nia|]. nia. }
    rewrite <- app_comm_cons. cbn [Uvarint_loop]. rewrite continuation_byte.
    destruct (Z.ltb_spec (128 + x mod 128) 128); [lia|].
    rewrite payload_bits by lia. rewrite u64_small by done.
    replace (7 * i + 7) with (7 * (i + 1)) by lia.
    assert (Hp1 : 2 ^ (7 * (i + 1)) = 128 * 2 ^ (7 * i)).
    { replace (7 * (i + 1)) with (7 + 7 * i) by lia. by rewrite Z.pow_add_r by lia. }
    assert (Hp2 : 2 ^ (7 * Z.of_nat (S fuel)) = 128 * 2 ^ (7 * Z.of_nat fuel)).
    { replace (7 * Z.of_nat (S fuel)) with (7 + 7 * Z.of_nat fuel) by lia.
      by rewrite Z.pow_add_r by lia. }
    rewrite IH; [|lia|lia|lia|lia|lia|nia]. f_equal.
    + replace (7 * (i + 1)) with (7 * i + 7) by lia. apply split_bits; lia.
    + cbn [length]. lia.
  - replace (u8 x) with x by (symmetry; apply Z.mod_small; lia). cbn [app Uvarint_loop].
    destruct (Z.ltb_spec x 128); [|lia].
    assert (Hno : (9 <? i) || ((i =? 9) && (1 <? x)) = false).
    { destruct (Z.ltb_spec 9 i); [lia|]. destruct (Z.eqb_spec i 9) as [->|]; [|done].
      change (2 ^ (7 * 9)) with (2 ^ 63) in Hmax. destruct (Z.ltb_spec 1 x); [lia|done]. }
    rewrite Hno. rewrite u64_small; [done|]. rewrite Z.shiftl_mul_pow2 by lia. nia.
Qed.

Lemma Uvarint_PutUvarint x rest :
  0 ≤ x < 2 ^ 64 → Uvarint (PutUvarint x ++ rest) = (x, Z.of_nat (length (PutUvarint x))).
Proof.
  intros Hx. unfold Uvarint, PutUvarint. change 0 with (7 * 0) at 3.
  rewrite Uvarint_loop_Put by lia. by rewrite Z.shiftl_0_r, Z.lor_0_l.
Qed.

Lemma length_PutUvarint_loop fuel x : (length (PutUvarint_loop fuel x) ≤ fuel)%nat.
Proof.
  revert x. induction fuel as [|fuel IH]; intros x; simpl; [done|].
  case_if; simpl; [specialize (IH (Z.shiftr x 7)); lia|lia].
Qed.

Lemma length_PutUvarint_loop_pos fuel x : (1 ≤ length (PutUvarint_loop (S fuel) x))%nat.
Proof. cbn [PutUvarint_loop]. case_if; simpl; lia. Qed.

Lemma length_PutUvarint x : (1 ≤ length (PutUvarint x) ≤ 10)%nat.
Proof.
  split; [apply (length_PutUvarint_loop_pos 9)|apply length_PutUvarint_loop].
Qed.

(** ** Cut short *)

Lemma Uvarint_loop_continue buf i acc s :
  (∀ b, b ∈ buf → 128 ≤ b) → Uvarint_loop buf i acc s = (0, 0).
Proof.
  revert i acc s. induction buf as [|b buf IH]; intros i acc s H; [done|]. cbn [Uvarint_loop].
  pose proof (H b ltac:(left)). destruct (Z.ltb_spec b 128); [lia|].
  apply IH. intros b' Hb'. apply H. by right.
Qed.

Lemma PutUvarint_loop_continue fuel : ∀ x k b,
  (k < length (PutUvarint_loop fuel x))%nat → b ∈ take k (PutUvarint_loop fuel x) → 128 ≤ b.
Proof.
  induction fuel as [|fuel IH]; intros x k b Hk Hb; simpl in *; [lia|].
  destruct k as [|k]; [by apply elem_of_nil in Hb|]. case_if; simpl in *; [|lia].
  apply elem_of_cons in Hb as [->|Hb].
  - rewrite continuation_byte. pose proof (Z.mod_pos_bound x 128). lia.
  - eapply (IH (Z.shiftr x 7) k); [lia|done].
Qed.

(** A proper prefix of a varint is reported as too short. *)
Lemma Uvarint_prefix x k :
  (k < length (PutUvarint x))%nat → Uvarint (take k (PutUvarint x)) = (0, 0).
Proof.
  intros Hk. apply Uvarint_loop_continue. intros b Hb.
  by eapply PutUvarint_loop_continue.
Qed.
