(* ===== verification/Bytes.v ===== *)
(** * Bytes, buffers and numbers of the wire formats

    What the two AMQP codecs use of the Go standard library: [encoding/binary] in big-endian order,
    strings as bytes, reading from a [bytes.Buffer], and the float64 operations of [math].  A byte is
    an integer in [0, 256); a buffer is the list of the bytes that have not been read. *)
From Stdlib Require Import Ascii Floats.SpecFloat.
From S2P Require Import Prelude.

(** ** Big-endian integers *)

(** [PutUint16], [PutUint32] and [PutUint64]: the low [n] bytes of [z]. *)
Fixpoint put_be (n : nat) (z : Z) : list Z :=
  match n with
  | O => []
  | S n => (z / 2 ^ (8 * Z.of_nat n)) mod 256 :: put_be n z
  end.

(** [Uint16], [Uint32] and [Uint64]. *)
Definition get_be (bytes : list Z) : Z := foldl (λ acc b, acc * 256 + b) 0 bytes.

Definition is_bytes (l : list Z) : Prop := Forall (λ b, 0 ≤ b < 256) l.

(** ** Strings *)

Definition string_bytes (s : string) : list Z :=
  (λ c, Z.of_N (N_of_ascii c)) <$> String.list_ascii_of_string s.

Definition bytes_string (l : list Z) : string :=
  String.string_of_list_ascii ((λ b, ascii_of_N (Z.to_N b)) <$> l).

(** ** Errors

    [errors.New] and [errors.Errorf] (the format without its arguments), [errors.Wrap] and
    [errors.Wrapf]. *)

Inductive go_error : Type :=
| EOF
| ErrNew (msg : string)
| ErrWrap (cause : go_error) (msg : string).

Definition Wrap {A} (msg : string) (r : result go_error A) : result go_error A :=
  match r with
  | Err e => Err (ErrWrap e msg)
  | r => r
  end.

(** ** Readers *)

Definition decoder (A : Type) : Type := list Z → result go_error (A * list Z).

#[export] Instance decoder_ret : MRet decoder := λ A a buf, Ok (a, buf).
#[export] Instance decoder_bind : MBind decoder := λ A B f m buf,
  match m buf with
  | Ok (a, buf) => f a buf
  | Err e => Err e
  | Panic msg => Panic msg
  end.

Definition read_fail {A} (e : go_error) : decoder A := λ _, Err e.

(** A decoder of its own on the bytes that were read. *)
Definition lift_result {A} (r : result go_error A) : decoder A := λ buf,
  match r with
  | Ok a => Ok (a, buf)
  | Err e => Err e
  | Panic msg => Panic msg
  end.

(** [buf.ReadByte()], its error wrapped. *)
Definition ReadByte (msg : string) : decoder Z := λ buf,
  match buf with
  | [] => Err (ErrWrap EOF msg)
  | b :: buf => Ok (b, buf)
  end.

(** [buf.BufRead(x[:n])] for 0 < n: an empty buffer is the end of the file, a short read an error of its own. *)
Definition BufRead (msg : string) (n : nat) : decoder (list Z) := λ buf,
  match buf with
  | [] => Err (ErrWrap EOF msg)
  | _ => if (length buf <? n)%nat then Err (ErrNew msg) else Ok (take n buf, drop n buf)
  end.

(** [buf.BufNext(n)] with the check that as many bytes came. *)
Definition BufNext (msg : string) (n : Z) : decoder (list Z) := λ buf,
  if Z.of_nat (length buf) <? n then Err (ErrNew msg)
  else Ok (take (Z.to_nat n) buf, drop (Z.to_nat n) buf).

(** ** Writers: the bytes that a function appends to its buffer, or its error. *)

Definition writer : Type := result go_error (list Z).

Definition wapp (a b : writer) : writer := l ← a; k ← b; Ok (l ++ k).

Infix "+++" := wapp (at level 60, right associativity).

(** ** float64

    A finite float64 is [S754_finite s m e], that is m * 2^e with sign [s], with a mantissa of 53 bits or, for the
    smallest exponent, fewer.  There is one NaN: its payload is not modelled. *)

Definition f64_ok (f : spec_float) : bool :=
  match f with
  | S754_finite _ m e =>
    (2 ^ 52 <=? Zpos m) && (Zpos m <? 2 ^ 53) && (-1074 <=? e) && (e <=? 971) ||
    (Zpos m <? 2 ^ 52) && (e =? -1074)
  | _ => true
  end.

(** [f == math.Round(f)] *)
Definition f64_is_int (f : spec_float) : bool :=
  match f with
  | S754_zero _ | S754_infinity _ => true
  | S754_nan => false
  | S754_finite _ m e => (0 <=? e) || (Zpos m mod 2 ^ (- e) =? 0)
  end.

(** The value without its fraction. *)
Definition f64_trunc (f : spec_float) : Z :=
  match f with
  | S754_finite s m e =>
    let z := if 0 <=? e then Zpos m * 2 ^ e else Zpos m / 2 ^ (- e) in if s then - z else z
  | _ => 0
  end.

(** [int64(f)]; a value that does not fit gives the smallest integer, as on amd64. *)
Definition f64_int64 (f : spec_float) : Z :=
  match f with
  | S754_infinity _ | S754_nan => - 2 ^ 63
  | _ => let z := f64_trunc f in if (- 2 ^ 63 <=? z) && (z <? 2 ^ 63) then z else - 2 ^ 63
  end.

(** A mantissa of at most 53 bits, scaled to 53 bits. *)
Definition f64_scale (s : bool) (m : Z) (e : Z) : spec_float :=
  let k := 52 - Z.log2 m in S754_finite s (Z.to_pos (m * 2 ^ k)) (e - k).

(** [float64(z)], rounded to the nearest, ties to even. *)
Definition f64_of_Z (z : Z) : spec_float :=
  if z =? 0 then S754_zero false
  else
    let s := z <? 0 in
    let m := Z.abs z in
    let k := Z.log2 m - 52 in
    if k <=? 0 then f64_scale s m 0
    else
      let q := m / 2 ^ k in
      let r := m mod 2 ^ k in
      let q := if (2 ^ (k - 1) <? r) || (2 ^ (k - 1) =? r) && Z.odd q then q + 1 else q in
      if q =? 2 ^ 53 then S754_finite s (Z.to_pos (2 ^ 52)) (k + 1) else S754_finite s (Z.to_pos q) k.

(** [math.Float64bits] and [math.Float64frombits] *)
Definition f64_bits (f : spec_float) : Z :=
  let sign (s : bool) := if s then 2 ^ 63 else 0 in
  match f with
  | S754_zero s => sign s
  | S754_infinity s => sign s + 2047 * 2 ^ 52
  | S754_nan => 2047 * 2 ^ 52 + 2 ^ 51 + 1
  | S754_finite s m e =>
    if Zpos m <? 2 ^ 52 then sign s + Zpos m else sign s + (e + 1075) * 2 ^ 52 + (Zpos m - 2 ^ 52)
  end.

Definition f64_frombits (b : Z) : spec_float :=
  let s := 2 ^ 63 <=? b in
  let e := (b / 2 ^ 52) mod 2 ^ 11 in
  let m := b mod 2 ^ 52 in
  if e =? 0 then if m =? 0 then S754_zero s else S754_finite s (Z.to_pos m) (-1074)
  else if e =? 2047 then if m =? 0 then S754_infinity s else S754_nan
  else S754_finite s (Z.to_pos (2 ^ 52 + m)) (e - 1075).

(** [float64(math.Float32frombits(b))] *)
Definition f64_from_f32bits (b : Z) : spec_float :=
  let s := 2 ^ 31 <=? b in
  let e := (b / 2 ^ 23) mod 2 ^ 8 in
  let m := b mod 2 ^ 23 in
  if e =? 0 then if m =? 0 then S754_zero s else f64_scale s m (-149)
  else if e =? 255 then if m =? 0 then S754_infinity s else S754_nan
  else f64_scale s (2 ^ 23 + m) (e - 150).

Example f64_one : f64_bits (f64_of_Z 1) = 4607182418800017408 ∧ f64_frombits 4607182418800017408 = f64_of_Z 1.
Proof. by vm_compute. Qed.

Example f64_round : f64_trunc (f64_of_Z (2 ^ 53 + 1)) = 2 ^ 53 ∧ f64_trunc (f64_of_Z (2 ^ 53 + 3)) = 2 ^ 53 + 4.
Proof. by vm_compute. Qed.

Example f32_tenth : f64_bits (f64_from_f32bits 1036831949) = 4591870180174331904.
Proof. by vm_compute. Qed.

(** ** Lemmas *)

Lemma length_put_be n z : length (put_be n z) = n.
Proof. induction n as [|n IH]; [done|]. cbn. by rewrite IH. Qed.

Lemma put_be_bytes n z : is_bytes (put_be n z).
Proof.
  induction n as [|n IH]; constructor; [|done]. apply Z.mod_pos_bound. lia.
Qed.

Lemma get_be_fold bytes : ∀ acc, foldl (λ acc b, acc * 256 + b) acc bytes = acc * 2 ^ (8 * Z.of_nat (length bytes)) + get_be bytes.
Proof.
  unfold get_be. induction bytes as [|b bytes IH]; intros acc; cbn [foldl length]; [lia|].
  rewrite (IH (acc * 256 + b)), (IH (0 * 256 + b)). rewrite Nat2Z.inj_succ.
  replace (8 * Z.succ (Z.of_nat (length bytes))) with (8 + 8 * Z.of_nat (length bytes)) by lia.
  rewrite Z.pow_add_r by lia. lia.
Qed.

Lemma get_put_be n z : get_be (put_be n z) = z mod 2 ^ (8 * Z.of_nat n).
Proof.
  induction n as [|n IH]; cbn [put_be]; [by rewrite Z.mod_1_r|].
  unfold get_be. cbn [foldl]. rewrite get_be_fold, length_put_be, IH.
  rewrite Nat2Z.inj_succ. replace (8 * Z.succ (Z.of_nat n)) with (8 * Z.of_nat n + 8) by lia.
  rewrite Z.pow_add_r by lia. rewrite Z.rem_mul_r by lia. change (2 ^ 8) with 256. lia.
Qed.

Lemma get_put_be_small n z : 0 ≤ z < 2 ^ (8 * Z.of_nat n) → get_be (put_be n z) = z.
Proof. intros Hz. rewrite get_put_be. by apply Z.mod_small. Qed.

Lemma get_be_bound l : is_bytes l → 0 ≤ get_be l < 2 ^ (8 * Z.of_nat (length l)).
Proof.
  induction 1 as [|b l Hb Hl IH]; [done|]. unfold get_be. cbn [foldl]. rewrite get_be_fold.
  cbn [length]. rewrite Nat2Z.inj_succ.
  replace (8 * Z.succ (Z.of_nat (length l))) with (8 + 8 * Z.of_nat (length l)) by lia.
  rewrite Z.pow_add_r by lia. change (2 ^ 8) with 256. nia.
Qed.

Lemma put_be_mod n z : put_be n (z mod 2 ^ (8 * Z.of_nat n)) = put_be n z.
Proof.
  assert (∀ m, (m ≤ n)%nat → put_be m (z mod 2 ^ (8 * Z.of_nat n)) = put_be m z) as H; [|by apply H].
  induction m as [|m IH]; intros Hm; cbn [put_be]; [done|]. f_equal; [|apply IH; lia].
  rewrite <- !Z.shiftr_div_pow2 by lia. change 256 with (2 ^ 8). rewrite <- !Z.land_ones by lia.
  apply Z.bits_inj'. intros i Hi. rewrite !Z.land_spec, !Z.shiftr_spec, Z.land_spec by lia.
  rewrite !Z.testbit_ones by lia.
  destruct (Z.ltb_spec i 8); [|by rewrite !andb_false_r].
  destruct (Z.leb_spec 0 i), (Z.leb_spec 0 (i + 8 * Z.of_nat m)), (Z.ltb_spec (i + 8 * Z.of_nat m) (8 * Z.of_nat n)); try lia.
  by rewrite andb_true_r.
Qed.

Lemma put_get_be n l : is_bytes l → length l = n → put_be n (get_be l) = l.
Proof.
  intros Hl <-. induction Hl as [|b l Hb Hl IH]; [done|]. cbn [length put_be].
  unfold get_be. cbn [foldl]. rewrite get_be_fold. pose proof (get_be_bound l Hl) as Hr.
  rewrite Z.mul_0_l, Z.add_0_l. f_equal.
  - rewrite Z.div_add_l by lia. rewrite (Z.div_small (get_be l)) by done. rewrite Z.add_0_r. by apply Z.mod_small.
  - rewrite <- put_be_mod, Z.add_comm, Z.mod_add by lia. by rewrite Z.mod_small.
Qed.

Lemma length_string_bytes s : length (string_bytes s) = String.length s.
Proof. unfold string_bytes. rewrite length_fmap. induction s as [|c s IH]; cbn; congruence. Qed.

Lemma string_bytes_roundtrip s : bytes_string (string_bytes s) = s.
Proof.
  unfold bytes_string, string_bytes. rewrite <- list_fmap_compose.
  transitivity (String.string_of_list_ascii (String.list_ascii_of_string s)).
  - f_equal. rewrite <- (list_fmap_id (String.list_ascii_of_string s)) at 2.
    apply list_fmap_ext. intros i c _. cbn. by rewrite N2Z.id, ascii_N_embedding.
  - apply String.string_of_list_ascii_of_string.
Qed.

(** *** Readers and writers *)

Lemma ReadByte_cons msg b buf : ReadByte msg (b :: buf) = Ok (b, buf).
Proof. done. Qed.

Lemma BufRead_app msg n l buf : length l = n → (0 < n)%nat → BufRead msg n (l ++ buf) = Ok (l, buf).
Proof.
  intros <- Hn. unfold BufRead. destruct (l ++ buf) as [|b k] eqn:E.
  - destruct l; [cbn in Hn; lia|done].
  - rewrite <- E, length_app. destruct (Nat.ltb_spec (length l + length buf) (length l)); [lia|].
    by rewrite take_app_length, drop_app_length.
Qed.

Lemma BufNext_app msg l buf : BufNext msg (Z.of_nat (length l)) (l ++ buf) = Ok (l, buf).
Proof.
  unfold BufNext. rewrite length_app, Nat2Z.id.
  destruct (Z.ltb_spec (Z.of_nat (length l + length buf)) (Z.of_nat (length l))); [lia|].
  by rewrite take_app_length, drop_app_length.
Qed.

Lemma decoder_bind_Ok {A B} (m : decoder A) (f : A → decoder B) buf a rest :
  m buf = Ok (a, rest) → (x ← m; f x) buf = f a rest.
Proof. intros H. unfold mbind, decoder_bind. by rewrite H. Qed.

Lemma decoder_bind_inv {A B} (m : decoder A) (f : A → decoder B) buf r :
  (x ← m; f x) buf = Ok r → ∃ a rest, m buf = Ok (a, rest) ∧ f a rest = Ok r.
Proof. unfold mbind, decoder_bind. destruct (m buf) as [[a rest]| |]; [eauto|done..]. Qed.

Lemma ReadByte_inv msg buf b rest : ReadByte msg buf = Ok (b, rest) → buf = b :: rest.
Proof. destruct buf as [|c buf]; cbn; congruence. Qed.

Lemma BufRead_inv msg n buf l rest : BufRead msg n buf = Ok (l, rest) → buf = l ++ rest ∧ length l = n.
Proof.
  unfold BufRead. destruct buf as [|b buf]; [done|]. destruct (Nat.ltb_spec (length (b :: buf)) n) as [|Hl]; [done|].
  intros [= <- <-]. by rewrite take_drop, length_take_le.
Qed.

Lemma BufNext_inv msg n buf l rest : BufNext msg n buf = Ok (l, rest) → buf = l ++ rest ∧ (0 ≤ n → Z.of_nat (length l) = n).
Proof.
  unfold BufNext. destruct (Z.ltb_spec (Z.of_nat (length buf)) n) as [|Hl]; [done|].
  intros [= <- <-]. rewrite take_drop. split; [done|]. intros Hn. rewrite length_take_le by lia. lia.
Qed.

Lemma Ok_inj {E A} (a b : A) : Ok (E := E) a = Ok b → a = b.
Proof. congruence. Qed.

Lemma wapp_Ok a b l : a +++ b = Ok l → ∃ la lb, a = Ok la ∧ b = Ok lb ∧ l = la ++ lb.
Proof. unfold wapp. destruct a as [la| |]; cbn; [|done..]. destruct b as [lb| |]; cbn; [|done..]. intros [= <-]. eauto. Qed.

Lemma Wrap_Ok {A} msg (r : result go_error A) a : Wrap msg r = Ok a ↔ r = Ok a.
Proof. destruct r; cbn; naive_solver. Qed.

(** *** Readers that always return *)

(** [m] does not panic on [buf] and, when it returns a value, has read at least [k] bytes. *)
Definition total_at {A} (k : nat) (m : decoder A) (buf : list Z) : Prop :=
  match m buf with
  | Ok (_, rest) => (length rest + k ≤ length buf)%nat
  | Err _ => True
  | Panic _ => False
  end.

Lemma total_bind {A B} k k1 k2 (m : decoder A) (f : A → decoder B) buf :
  total_at k1 m buf → (∀ a rest, m buf = Ok (a, rest) → total_at k2 (f a) rest) → (k ≤ k1 + k2)%nat →
  total_at k (x ← m; f x) buf.
Proof.
  unfold total_at, mbind, decoder_bind. destruct (m buf) as [[a rest]| |]; [|done..].
  intros H1 H2 Hk. specialize (H2 a rest eq_refl). destruct (f a rest) as [[b rest']| |]; [lia|done..].
Qed.

Lemma total_ret {A} (a : A) buf : total_at 0 (mret a) buf.
Proof. unfold total_at. cbn. lia. Qed.

Lemma total_ReadByte msg buf : total_at 1 (ReadByte msg) buf.
Proof. unfold total_at, ReadByte. destruct buf; cbn; [done|lia]. Qed.

Lemma total_Read msg n buf : total_at n (BufRead msg n) buf.
Proof.
  unfold total_at, BufRead. destruct buf as [|b buf]; [done|].
  destruct (Nat.ltb_spec (length (b :: buf)) n); [done|]. rewrite length_drop. lia.
Qed.

Lemma total_Next msg n buf : total_at 0 (BufNext msg n) buf.
Proof. unfold total_at, BufNext. destruct (_ <? _); [done|]. rewrite length_drop. lia. Qed.

Lemma total_fail {A} k e buf : total_at k (read_fail (A := A) e) buf.
Proof. done. Qed.

Lemma total_lift {A} (r : result go_error A) buf : (∀ msg, r ≠ Panic msg) → total_at 0 (lift_result r) buf.
Proof. unfold total_at, lift_result. destruct r as [| |msg]; [lia|done|]. intros H. by destruct (H msg). Qed.

Lemma total_weaken {A} k k' (m : decoder A) buf : total_at k m buf → (k' ≤ k)%nat → total_at k' m buf.
Proof. unfold total_at. destruct (m buf) as [[? ?]| |]; [lia|done..]. Qed.

#[export] Hint Resolve total_ret total_ReadByte total_Read total_Next total_fail total_lift : eventter.

Lemma Wrap_Panic {A} msg msg' (r : result go_error A) : Wrap msg r = Panic msg' → r = Panic msg'.
Proof. destruct r; cbn; congruence. Qed.

(** *** Readers of bytes *)

(** From bytes [m] reads a value with [Q] and leaves bytes. *)
Definition reads {A} (Q : A → Prop) (m : decoder A) : Prop :=
  ∀ buf a rest, is_bytes buf → m buf = Ok (a, rest) → Q a ∧ is_bytes rest.

Lemma reads_bind {A B} (P : A → Prop) (Q : B → Prop) (m : decoder A) (f : A → decoder B) :
  reads P m → (∀ a, P a → reads Q (f a)) → reads Q (x ← m; f x).
Proof.
  intros Hm Hf buf b rest Hb (a & rest1 & Ha & Hr)%decoder_bind_inv.
  apply Hm in Ha as [Ha Hb1]; [|done]. by apply (Hf a Ha rest1).
Qed.

Lemma reads_ret {A} (Q : A → Prop) a : Q a → reads Q (mret a).
Proof. intros Ha buf a' rest Hb [= -> ->]. done. Qed.

Lemma reads_fail {A} (Q : A → Prop) e : reads Q (read_fail e).
Proof. intros buf a rest Hb [=]. Qed.

Lemma reads_lift {A} (Q : A → Prop) (r : result go_error A) : (∀ a, r = Ok a → Q a) → reads Q (lift_result r).
Proof. intros Hr buf a rest Hb. unfold lift_result. destruct r; [|done..]. intros [= -> ->]. auto. Qed.

Lemma reads_ReadByte msg : reads (λ b, 0 ≤ b < 2 ^ 8) (ReadByte msg).
Proof. intros buf b rest Hb ->%ReadByte_inv. inversion Hb; subst. split; [lia|done]. Qed.

Lemma reads_Read msg n : reads (λ l, is_bytes l ∧ length l = n) (BufRead msg n).
Proof. intros buf l rest Hb [-> Hl]%BufRead_inv. apply Forall_app in Hb as [Hl' Hr]. done. Qed.

Lemma reads_Next msg n : reads is_bytes (BufNext msg n).
Proof. intros buf l rest Hb [-> Hl]%BufNext_inv. by apply Forall_app in Hb. Qed.

(** *** float64 *)

Lemma f64_fields (s : bool) e m :
  0 ≤ e < 2 ^ 11 → 0 ≤ m < 2 ^ 52 →
  let b := (if s then 2 ^ 63 else 0) + e * 2 ^ 52 + m in
  (2 ^ 63 <=? b) = s ∧ (b / 2 ^ 52) mod 2 ^ 11 = e ∧ b mod 2 ^ 52 = m.
Proof.
  intros He Hm b.
  assert (b = (e + (if s then 2 ^ 11 else 0)) * 2 ^ 52 + m) as Hb by (unfold b; destruct s; lia).
  assert (b / 2 ^ 52 = e + (if s then 2 ^ 11 else 0)) as Hd.
  { rewrite Hb, Z.div_add_l by lia. rewrite Z.div_small by lia. lia. }
  split_and!.
  - destruct s; [apply Z.leb_le|apply Z.leb_gt]; unfold b; lia.
  - rewrite Hd. destruct s.
    + rewrite <- (Z.mul_1_l (2 ^ 11)) at 1. rewrite Z.mod_add by lia. by apply Z.mod_small.
    + rewrite Z.add_0_r. by apply Z.mod_small.
  - rewrite Hb, Z.add_comm, Z.mod_add by lia. by apply Z.mod_small.
Qed.

Lemma f64_ok_finite s m e :
  f64_ok (S754_finite s m e) = true →
  2 ^ 52 ≤ Zpos m < 2 ^ 53 ∧ -1074 ≤ e ≤ 971 ∨ Zpos m < 2 ^ 52 ∧ e = -1074.
Proof. cbn [f64_ok]. intros H. bool_to_prop. lia. Qed.

Lemma f64_frombits_bits f : f64_ok f = true → f64_frombits (f64_bits f) = f.
Proof.
  destruct f as [s|s| |s m e]; intros Hok; [destruct s; by vm_compute..|by vm_compute|].
  apply f64_ok_finite in Hok as [[Hm He]|[Hm ->]]; unfold f64_bits, f64_frombits.
  - destruct (Z.ltb_spec (Zpos m) (2 ^ 52)); [lia|].
    destruct (f64_fields s (e + 1075) (Zpos m - 2 ^ 52)) as (-> & -> & ->); [lia..|].
    destruct (Z.eqb_spec (e + 1075) 0); [lia|]. destruct (Z.eqb_spec (e + 1075) 2047); [lia|].
    f_equal; [|lia]. by replace (2 ^ 52 + (Zpos m - 2 ^ 52)) with (Zpos m) by lia.
  - destruct (Z.ltb_spec (Zpos m) (2 ^ 52)); [|lia].
    destruct (f64_fields s 0 (Zpos m)) as (Hs & He & Hm'); [lia..|].
    rewrite Z.mul_0_l, Z.add_0_r in Hs, He, Hm'. by rewrite Hs, He, Hm'.
Qed.

Lemma f64_bits_range f : f64_ok f = true → 0 ≤ f64_bits f < 2 ^ 64.
Proof.
  destruct f as [s|s| |s m e]; intros Hok; [destruct s; by vm_compute..|by vm_compute|].
  apply f64_ok_finite in Hok. unfold f64_bits. destruct (Z.ltb_spec (Zpos m) (2 ^ 52)); destruct s; lia.
Qed.

Lemma f64_ok_intro s m e :
  2 ^ 52 ≤ m < 2 ^ 53 → -1074 ≤ e ≤ 971 → f64_ok (S754_finite s (Z.to_pos m) e) = true.
Proof.
  intros Hm He. cbn [f64_ok]. rewrite Z2Pos.id by lia. apply orb_true_iff. left.
  rewrite !andb_true_iff, !Z.leb_le, Z.ltb_lt. lia.
Qed.

Lemma f64_scale_ok s m e : 0 < m < 2 ^ 53 → -1022 ≤ e ≤ 971 → f64_ok (f64_scale s m e) = true.
Proof.
  intros Hm He. unfold f64_scale.
  assert (0 ≤ Z.log2 m ≤ 52) as Hl.
  { split; [apply Z.log2_nonneg|]. apply Z.lt_succ_r, Z.log2_lt_pow2; lia. }
  apply f64_ok_intro; [|lia].
  destruct (Z.log2_spec m) as [H1 H2]; [lia|]. set (k := Z.log2 m) in *.
  replace (2 ^ 52) with (2 ^ k * 2 ^ (52 - k)) by (rewrite <- Z.pow_add_r by lia; f_equal; lia).
  replace (2 ^ 53) with (2 ^ Z.succ k * 2 ^ (52 - k)) by (rewrite <- Z.pow_add_r by lia; f_equal; lia).
  assert (0 < 2 ^ (52 - k)) by (apply Z.pow_pos_nonneg; lia). nia.
Qed.

Lemma f64_frombits_ok b : 0 ≤ b < 2 ^ 64 → f64_ok (f64_frombits b) = true.
Proof.
  intros Hb. unfold f64_frombits.
  pose proof (Z.mod_pos_bound b (2 ^ 52) ltac:(lia)) as Hm.
  pose proof (Z.mod_pos_bound (b / 2 ^ 52) (2 ^ 11) ltac:(lia)) as He.
  destruct (Z.eqb_spec ((b / 2 ^ 52) mod 2 ^ 11) 0); [|destruct (Z.eqb_spec ((b / 2 ^ 52) mod 2 ^ 11) 2047)].
  - destruct (Z.eqb_spec (b mod 2 ^ 52) 0); [done|]. cbn [f64_ok]. rewrite Z2Pos.id by lia.
    apply orb_true_iff. right. apply andb_true_iff. split; [apply Z.ltb_lt; lia|done].
  - by destruct (_ =? _).
  - apply f64_ok_intro; lia.
Qed.

Lemma f64_from_f32bits_ok b : 0 ≤ b < 2 ^ 32 → f64_ok (f64_from_f32bits b) = true.
Proof.
  intros Hb. unfold f64_from_f32bits.
  pose proof (Z.mod_pos_bound b (2 ^ 23) ltac:(lia)) as Hm.
  pose proof (Z.mod_pos_bound (b / 2 ^ 23) (2 ^ 8) ltac:(lia)) as He.
  destruct (Z.eqb_spec ((b / 2 ^ 23) mod 2 ^ 8) 0); [|destruct (Z.eqb_spec ((b / 2 ^ 23) mod 2 ^ 8) 255)].
  - destruct (Z.eqb_spec (b mod 2 ^ 23) 0); [done|]. apply f64_scale_ok; lia.
  - by destruct (_ =? _).
  - apply f64_scale_ok; lia.
Qed.

Lemma f64_of_Z_ok z : Z.abs z < 2 ^ 64 → f64_ok (f64_of_Z z) = true.
Proof.
  intros Hz. unfold f64_of_Z. destruct (Z.eqb_spec z 0); [done|]. cbv zeta.
  set (m := Z.abs z) in *. assert (0 < m) as Hm by lia. destruct (Z.log2_spec m Hm) as [H1 H2].
  assert (Z.log2 m < 64) as Hl by (apply Z.log2_lt_pow2; lia).
  destruct (Z.leb_spec (Z.log2 m - 52) 0) as [Hk|Hk].
  - apply f64_scale_ok; [|lia]. split; [done|]. apply Z.log2_lt_pow2; lia.
  - set (k := Z.log2 m - 52) in *. replace (Z.log2 m) with (52 + k) in * by lia.
    assert (0 < 2 ^ k) as Hp by (apply Z.pow_pos_nonneg; lia).
    assert (2 ^ 52 ≤ m / 2 ^ k < 2 ^ 53) as Hq.
    { replace (Z.succ (52 + k)) with (53 + k) in H2 by lia. rewrite Z.pow_add_r in H1, H2 by lia.
      split; [apply Z.div_le_lower_bound; lia|apply Z.div_lt_upper_bound; lia]. }
    destruct (_ || _); [destruct (Z.eqb_spec (m / 2 ^ k + 1) (2 ^ 53))|destruct (Z.eqb_spec (m / 2 ^ k) (2 ^ 53))];
      apply f64_ok_intro; lia.
Qed.

Lemma f64_of_Z_exact s m e :
  2 ^ 52 ≤ m < 2 ^ 53 → 0 < e → f64_of_Z (if s : bool then - (m * 2 ^ e) else m * 2 ^ e) = S754_finite s (Z.to_pos m) e.
Proof.
  intros Hm He. set (z := m * 2 ^ e). assert (0 < 2 ^ e) as Hp by (apply Z.pow_pos_nonneg; lia).
  assert (0 < z) as Hz by (unfold z; nia). unfold f64_of_Z.
  destruct (Z.eqb_spec (if s then - z else z) 0); [destruct s; lia|]. cbv zeta.
  replace ((if s then - z else z) <? 0) with s by (destruct s; symmetry; [apply Z.ltb_lt|apply Z.ltb_ge]; lia).
  replace (Z.abs (if s then - z else z)) with z by (destruct s; lia).
  assert (Z.log2 z = 52 + e) as ->.
  { apply Z.log2_unique; [lia|]. unfold z. replace (Z.succ (52 + e)) with (53 + e) by lia.
    rewrite !Z.pow_add_r by lia. nia. }
  replace (52 + e - 52) with e by lia. destruct (Z.leb_spec e 0); [lia|].
  unfold z. rewrite Z.div_mul, Z.mod_mul by lia.
  assert (0 < 2 ^ (e - 1)) by (apply Z.pow_pos_nonneg; lia).
  destruct (Z.ltb_spec (2 ^ (e - 1)) 0); [lia|]. destruct (Z.eqb_spec (2 ^ (e - 1)) 0); [lia|]. cbn [orb andb].
  destruct (Z.eqb_spec m (2 ^ 53)); [lia|done].
Qed.

Lemma f64_of_Z_small (s : bool) z k :
  2 ^ 52 ≤ z * 2 ^ k < 2 ^ 53 → 0 ≤ k → 0 < z →
  f64_of_Z (if s then - z else z) = S754_finite s (Z.to_pos (z * 2 ^ k)) (- k).
Proof.
  intros Hm Hk Hz. assert (0 < 2 ^ k) as Hp by (apply Z.pow_pos_nonneg; lia).
  assert (Z.log2 z + k = 52) as Hl.
  { rewrite Z.add_comm, <- Z.log2_mul_pow2 by lia. apply Z.log2_unique; lia. }
  unfold f64_of_Z. destruct (Z.eqb_spec (if s then - z else z) 0); [destruct s; lia|]. cbv zeta.
  replace ((if s then - z else z) <? 0) with s by (destruct s; symmetry; [apply Z.ltb_lt|apply Z.ltb_ge]; lia).
  replace (Z.abs (if s then - z else z)) with z by (destruct s; lia).
  destruct (Z.leb_spec (Z.log2 z - 52) 0); [|lia]. unfold f64_scale.
  replace (52 - Z.log2 z) with k by lia. f_equal.
Qed.

(** A finite whole number survives the conversion to an integer and back. *)
Lemma f64_of_trunc s m e :
  f64_ok (S754_finite s m e) = true → f64_is_int (S754_finite s m e) = true →
  f64_of_Z (f64_trunc (S754_finite s m e)) = S754_finite s m e.
Proof.
  intros Hok Hint. apply f64_ok_finite in Hok. unfold f64_trunc, f64_is_int in *. bool_to_prop.
  destruct (Z.leb_spec 0 e) as [He|He].
  - destruct (decide (e = 0)) as [->|]; [|rewrite f64_of_Z_exact by lia; done].
    rewrite Z.mul_1_r. rewrite (f64_of_Z_small s (Zpos m) 0) by lia. by rewrite Z.mul_1_r.
  - destruct Hint as [Hint|Hmod%Z.eqb_eq]; [done|]. set (k := - e) in *.
    assert (0 < 2 ^ k) as Hp by (apply Z.pow_pos_nonneg; lia).
    pose proof (Z.div_mod (Zpos m) (2 ^ k) ltac:(lia)) as Hd. rewrite Hmod in Hd.
    set (q := Zpos m / 2 ^ k) in *. assert (q * 2 ^ k = Zpos m) as Hq by lia.
    assert (2 ^ 52 ≤ Zpos m < 2 ^ 53) as Hm.
    { destruct Hok as [?|[Hlt ->]]; [lia|]. exfalso. assert (2 ^ 52 ≤ 2 ^ k) by (by apply Z.pow_le_mono_r).
      assert (0 < q) by nia. nia. }
    rewrite (f64_of_Z_small s q k) by nia. rewrite Hq. f_equal. unfold k. lia.
Qed.
