(* ===== verification/Proto.v ===== *)
(** * Generated marshalling

    The code that protoc-gen-gogo generates for every message (src/mq/*.pb.go, src/mq/emq/emq.pb.go) has one shape: [MarshalTo] and [Size] go
    through the fields in the order of their numbers, [Unmarshal] is a loop over tags with a case for each number.  A message is a list of
    fields ([field]), each with the way in which it is written and read ([fieldc]); the shape is written down once
    ([put_fields], [size_fields], [unmarshal_loop]), and so is the proof that what is written is read back ([fields_roundtrip]).
    Well-known types of the library (times, durations, structs) are parameters of the messages that use them. *)
From S2P Require Import Prelude Bytes SegmentsVarint.

Inductive proto_error : Type :=
| ErrIntOverflow
| ErrUnexpectedEOF
| ErrInvalidLength
| ErrProto (msg : string).

(** What one component relies on when another one encodes for it. *)
Class Codec (A : Type) : Type := {
  Marshal : A → result proto_error (list Z);
  Unmarshal : list Z → result proto_error A;
}.
Class CodecLaw (A : Type) `{Codec A} (ok : A → Prop) : Prop :=
  codec_roundtrip : ∀ a, ok a → ∃ bytes, Marshal a = Ok bytes ∧ Unmarshal bytes = Ok a.

(** ** Variable-length integers *)

(** [encodeVarintClusterState]; ten bytes hold every 64-bit value. *)
Fixpoint encode_varint_loop (fuel : nat) (v : Z) : list Z :=
  match fuel with
  | O => []
  | S fuel => if 128 <=? v then Z.lor (Z.land v 127) 128 :: encode_varint_loop fuel (Z.shiftr v 7) else [u8 v]
  end.
Definition encodeVarint (v : Z) : list Z := encode_varint_loop 10 v.

(** [sovClusterState]: the length of a varint. *)
Fixpoint sov_loop (fuel : nat) (x : Z) : Z :=
  match fuel with
  | O => 0
  | S fuel => let x := Z.shiftr x 7 in if x =? 0 then 1 else 1 + sov_loop fuel x
  end.
Definition sov (x : Z) : Z := sov_loop 10 x.
#[global] Arguments encodeVarint : simpl never.
#[global] Arguments sov : simpl never.

Fixpoint varint (buf : list Z) (shift acc : Z) : result proto_error (Z * list Z) :=
  if 64 <=? shift then Err ErrIntOverflow
  else
    match buf with
    | [] => Err ErrUnexpectedEOF
    | b :: buf =>
      let acc := Z.lor acc (u64 (Z.shiftl (Z.land b 127) shift)) in
      if b <? 128 then Ok (acc, buf) else varint buf (shift + 7) acc
    end.

(** [skipClusterState]: how many bytes the field at the start of [data] takes, as far as its length says. *)
Fixpoint skip (fuel : nat) (data : list Z) : result proto_error Z :=
  match fuel with
  | O => Panic "out of fuel"
  | S fuel =>
    if (length data =? 0)%nat then Panic "unreachable"
    else
      '(wire, rest) ← varint data 0 0;
      let l := Z.of_nat (length data) in
      let iNdEx := l - Z.of_nat (length rest) in
      let wireType := wire mod 8 in
      if wireType =? 0 then '(_, rest) ← varint rest 0 0; Ok (l - Z.of_nat (length rest))
      else if wireType =? 1 then Ok (iNdEx + 8)
      else if wireType =? 2 then
        '(v, rest) ← varint rest 0 0;
        let len := i64 v in
        if len <? 0 then Err ErrInvalidLength else Ok (i64 (l - Z.of_nat (length rest) + len))
      else if wireType =? 3 then
        (fix group (n : nat) (iNdEx : Z) : result proto_error Z :=
           match n with
           | O => Panic "out of fuel"
           | S n =>
             if iNdEx <? 0 then Panic "index out of range"
             else
               '(innerWire, rest) ← varint (drop (Z.to_nat iNdEx) data) 0 0;
               if innerWire mod 8 =? 4 then Ok (l - Z.of_nat (length rest))
               else next ← skip fuel (drop (Z.to_nat iNdEx) data); group n (i64 (iNdEx + next))
           end) (S (length data)) iNdEx
      else if wireType =? 4 then Ok iNdEx
      else if wireType =? 5 then Ok (iNdEx + 4)
      else Err (ErrProto "proto: illegal wireType %d")
  end.

(** ** Fields *)

(** How a field is written after its tag, and read: [fc_read] gets the length of the buffer of the message, the wire type, the value so far and
    what follows the tag; [None] is a wrong wire type. *)
Record fieldc (V : Type) : Type := {
  fc_wire : Z;
  fc_default : V;
  fc_put : list Z → V → result proto_error (list Z);
  fc_size : Z → V → Z; (* with the length of the tag *)
  fc_read : Z → Z → V → list Z → option (result proto_error (V * list Z));
}.
Arguments fc_wire {V} _.
Arguments fc_default {V} _.
Arguments fc_put {V} _ _ _.
Arguments fc_size {V} _ _ _.
Arguments fc_read {V} _ _ _ _ _.

(** A message: [mc_get] reads into a message that exists. *)
Record msgc (M : Type) : Type := {
  mc_default : M;
  mc_put : M → result proto_error (list Z); (* [MarshalTo] *)
  mc_size : M → Z; (* [Size] *)
  mc_get : M → list Z → result proto_error M; (* [Unmarshal] *)
}.
Arguments mc_default {M} _.
Arguments mc_put {M} _ _.
Arguments mc_size {M} _ _.
Arguments mc_get {M} _ _ _.

(** A length and as many bytes.  The end is computed in an int: for a length near its maximum it is negative, which passes the check. *)
Definition read_slice (L : Z) (rest : list Z) : result proto_error (list Z * list Z) :=
  '(v, rest) ← varint rest 0 0;
  let len := i64 v in
  if len <? 0 then Err ErrInvalidLength
  else
    let iNdEx := L - Z.of_nat (length rest) in
    let postIndex := i64 (iNdEx + len) in
    if L <? postIndex then Err ErrUnexpectedEOF
    else if postIndex <? iNdEx then Panic "slice bounds out of range"
    else Ok (take (Z.to_nat len) rest, drop (Z.to_nat len) rest).

Definition put_slice (tag bytes : list Z) : list Z := tag ++ encodeVarint (u64 (Z.of_nat (length bytes))) ++ bytes.

(** Integers, booleans and enums: [to] and [from] are the conversions of the code. *)
Definition varint_field {V} (dflt : V) (to : V → Z) (from : Z → V) : fieldc V :=
  {| fc_wire := 0;
     fc_default := dflt;
     fc_put := λ tag v, Ok (if negb (to v =? 0) then tag ++ encodeVarint (u64 (to v)) else []);
     fc_size := λ n v, if negb (to v =? 0) then n + sov (u64 (to v)) else 0;
     fc_read := λ L wireType _ rest, if wireType =? 0 then Some ('(v, rest) ← varint rest 0 0; Ok (from v, rest)) else None |}.

Definition uint64_field : fieldc Z := varint_field 0 id id.
Definition uint32_field : fieldc Z := varint_field 0 id u32.
Definition int64_field : fieldc Z := varint_field 0 id i64.
Definition int32_field : fieldc Z := varint_field 0 id (signed 32).
Definition bool_field : fieldc bool := varint_field false (λ b : bool, if b then 1 else 0) (λ v, negb (v =? 0)).

Definition slice_field {V} (dflt : V) (to : V → list Z) (from : list Z → V) : fieldc V :=
  {| fc_wire := 2;
     fc_default := dflt;
     fc_put := λ tag v, Ok (if (0 <? length (to v))%nat then put_slice tag (to v) else []);
     fc_size := λ n v, let l := Z.of_nat (length (to v)) in if 0 <? l then n + l + sov (u64 l) else 0;
     fc_read := λ L wireType _ rest, if wireType =? 2 then Some ('(bytes, rest) ← read_slice L rest; Ok (from bytes, rest)) else None |}.

Definition bytes_field : fieldc (list Z) := slice_field [] id id.
Definition string_field : fieldc string := slice_field ""%string string_bytes bytes_string.

(** The length in front of a message is what [Size] gives. *)
Definition put_message {M} (c : msgc M) (tag : list Z) (m : M) : result proto_error (list Z) :=
  bytes ← mc_put c m; Ok (tag ++ encodeVarint (u64 (mc_size c m)) ++ bytes).
Definition size_message {M} (c : msgc M) (n : Z) (m : M) : Z := n + mc_size c m + sov (u64 (mc_size c m)).

(** A message that is there or not. *)
Definition pointer_field {M} (c : msgc M) : fieldc (option M) :=
  {| fc_wire := 2;
     fc_default := None;
     fc_put := λ tag v, match v with None => Ok [] | Some m => put_message c tag m end;
     fc_size := λ n v, match v with None => 0 | Some m => size_message c n m end;
     fc_read := λ L wireType v rest,
       if wireType =? 2 then Some ('(bytes, rest) ← read_slice L rest; m ← mc_get c (default (mc_default c) v) bytes; Ok (Some m, rest)) else None |}.

(** A message that is part of another. *)
Definition value_field {M} (c : msgc M) : fieldc M :=
  {| fc_wire := 2;
     fc_default := mc_default c;
     fc_put := put_message c;
     fc_size := size_message c;
     fc_read := λ L wireType v rest,
       if wireType =? 2 then Some ('(bytes, rest) ← read_slice L rest; m ← mc_get c v bytes; Ok (m, rest)) else None |}.

(** A message of a oneof is always a new one. *)
Definition oneof_field {M} (c : msgc M) : fieldc (option M) :=
  {| fc_wire := 2;
     fc_default := None;
     fc_put := λ tag v, match v with None => Ok [] | Some m => put_message c tag m end;
     fc_size := λ n v, match v with None => 0 | Some m => size_message c n m end;
     fc_read := λ L wireType _ rest,
       if wireType =? 2 then Some ('(bytes, rest) ← read_slice L rest; m ← mc_get c (mc_default c) bytes; Ok (Some m, rest)) else None |}.

Definition oneof_string : fieldc (option string) :=
  {| fc_wire := 2;
     fc_default := None;
     fc_put := λ tag v, Ok (match v with None => [] | Some s => put_slice tag (string_bytes s) end);
     fc_size := λ n v, match v with None => 0 | Some s => let l := Z.of_nat (length (string_bytes s)) in n + l + sov (u64 l) end;
     fc_read := λ L wireType _ rest,
       if wireType =? 2 then Some ('(bytes, rest) ← read_slice L rest; Ok (Some (bytes_string bytes), rest)) else None |}.

(** Repeated messages. *)
Fixpoint put_messages {M} (c : msgc M) (tag : list Z) (l : list M) : result proto_error (list Z) :=
  match l with
  | [] => Ok []
  | m :: l => bytes ← put_message c tag m; more ← put_messages c tag l; Ok (bytes ++ more)
  end.

Definition repeated_field {M} (c : msgc M) : fieldc (list M) :=
  {| fc_wire := 2;
     fc_default := [];
     fc_put := put_messages c;
     fc_size := λ n l, foldr (λ m k, size_message c n m + k) 0 l;
     fc_read := λ L wireType v rest,
       if wireType =? 2 then Some ('(bytes, rest) ← read_slice L rest; m ← mc_get c (mc_default c) bytes; Ok (v ++ [m], rest)) else None |}.

(** Packed integers: numbers are read up to the end that the length gives, or one by one. *)
Fixpoint read_packed (fuel : nat) (L postIndex : Z) (v rest : list Z) : result proto_error (list Z * list Z) :=
  if L - Z.of_nat (length rest) <? postIndex then
    match fuel with
    | O => Panic "out of fuel"
    | S fuel => '(x, rest) ← varint rest 0 0; read_packed fuel L postIndex (v ++ [x]) rest
    end
  else Ok (v, rest).

Fixpoint packed_bytes (l : list Z) : list Z :=
  match l with
  | [] => []
  | num :: l => encodeVarint (u64 num) ++ packed_bytes l
  end.

Definition packed_field : fieldc (list Z) :=
  {| fc_wire := 2;
     fc_default := [];
     fc_put := λ tag l, Ok (if (0 <? length l)%nat then put_slice tag (packed_bytes l) else []);
     fc_size := λ n l, if (0 <? length l)%nat then let k := foldr (λ x k, sov (u64 x) + k) 0 l in n + sov (u64 k) + k else 0;
     fc_read := λ L wireType v rest,
       if wireType =? 0 then Some ('(x, rest) ← varint rest 0 0; Ok (v ++ [x], rest))
       else if wireType =? 2 then
         Some ('(x, rest) ← varint rest 0 0;
               let packedLen := i64 x in
               if packedLen <? 0 then Err ErrInvalidLength
               else
                 let postIndex := i64 (L - Z.of_nat (length rest) + packedLen) in
                 if L <? postIndex then Err ErrUnexpectedEOF else read_packed (length rest) L postIndex v rest)
       else None |}.

(** ** Messages *)

Record field (M : Type) : Type := {
  fd_type : Type;
  fd_num : Z;
  fd_c : fieldc fd_type;
  fd_get : M → fd_type;
  fd_set : fd_type → M → M;
}.
Arguments fd_type {M} _.
Arguments fd_num {M} _.
Arguments fd_c {M} _.
Arguments fd_get {M} _ _.
Arguments fd_set {M} _ _ _.
Definition mk_field {M V} (num : Z) (c : fieldc V) (get : M → V) (set : V → M → M) : field M :=
  {| fd_type := V; fd_num := num; fd_c := c; fd_get := get; fd_set := set |}.

Definition tag_of {M} (f : field M) : list Z := encodeVarint (8 * fd_num f + fc_wire (fd_c f)).

Fixpoint put_fields {M} (fs : list (field M)) (m : M) : result proto_error (list Z) :=
  match fs with
  | [] => Ok []
  | f :: fs => bytes ← fc_put (fd_c f) (tag_of f) (fd_get f m); more ← put_fields fs m; Ok (bytes ++ more)
  end.

Definition size_fields {M} (fs : list (field M)) (m : M) : Z :=
  foldr (λ f k, fc_size (fd_c f) (Z.of_nat (length (tag_of f))) (fd_get f m) + k) 0 fs.

Fixpoint unmarshal_loop {M} (fs : list (field M)) (L : Z) (fuel : nat) (m : M) (buf : list Z) : result proto_error M :=
  if (length buf =? 0)%nat then Ok m
  else
    match fuel with
    | O => Panic "out of fuel"
    | S fuel =>
      '(wire, rest) ← varint buf 0 0;
      let fieldNum := signed 32 (Z.shiftr wire 3) in
      let wireType := Z.land wire 7 in
      if wireType =? 4 then Err (ErrProto "proto: wiretype end group for non-group")
      else if fieldNum <=? 0 then Err (ErrProto "proto: illegal tag %d (wire type %d)")
      else
        match find_first (λ f, fd_num f =? fieldNum) fs with
        | Some (_, f) =>
          match fc_read (fd_c f) L wireType (fd_get f m) rest with
          | None => Err (ErrProto "proto: wrong wireType = %d")
          | Some r => '(v, rest) ← r; unmarshal_loop fs L fuel (fd_set f v m) rest
          end
        | None =>
          skippy ← skip (S (length buf)) buf;
          if skippy <? 0 then Err ErrInvalidLength
          else
            let iNdEx := i64 (L - Z.of_nat (length buf) + skippy) in
            if L <? iNdEx then Err ErrUnexpectedEOF
            else if iNdEx <? 0 then Panic "index out of range"
            else unmarshal_loop fs L fuel m (drop (Z.to_nat skippy) buf)
        end
    end.

Definition fields_codec {M} (dflt : M) (fs : list (field M)) : msgc M :=
  {| mc_default := dflt;
     mc_put := put_fields fs;
     mc_size := size_fields fs;
     mc_get := λ m buf, unmarshal_loop fs (Z.of_nat (length buf)) (length buf) m buf |}.

(** [Marshal] writes into a buffer of [Size] bytes; [proto.Unmarshal] resets the message first. *)
Definition msg_Marshal {M} (c : msgc M) (m : M) : result proto_error (list Z) :=
  bytes ← mc_put c m; if mc_size c m <? Z.of_nat (length bytes) then Panic "index out of range" else Ok bytes.
Definition msg_Unmarshal {M} (c : msgc M) (buf : list Z) : result proto_error M := mc_get c (mc_default c) buf.

(** ** Laws: integers *)

Lemma high_bit y : 0 ≤ y < 128 → Z.lor y 128 = 128 + y ∧ Z.land (128 + y) 127 = y.
Proof.
  intros Hy. split; [|by apply payload_bits]. apply Z.eqb_eq. by apply (all_below_true 128 (λ y, Z.lor y 128 =? 128 + y)).
Qed.

Lemma land_127 x : Z.land x 127 = x mod 128.
Proof. change 127 with (Z.ones 7). by rewrite Z.land_ones by lia. Qed.

Lemma varint_encode_loop fuel : ∀ x s acc rest,
  (1 ≤ fuel)%nat → 0 ≤ x → 0 ≤ s → s < 64 → x < 2 ^ (7 * Z.of_nat fuel) → x * 2 ^ s < 2 ^ 64 →
  varint (encode_varint_loop fuel x ++ rest) s acc = Ok (Z.lor acc (Z.shiftl x s), rest).
Proof.
  induction fuel as [|fuel IH]; intros x s acc rest Hf Hx Hs Hs64 Hb Hr; [lia|]. cbn [encode_varint_loop].
  destruct (Z.leb_spec 128 x) as [Hge|Hlt].
  - destruct (shift7 x Hx) as (Ex & Hq & Hm). cbn [app varint]. destruct (Z.leb_spec 64 s); [lia|].
    rewrite (land_127 x). destruct (high_bit (x mod 128) Hm) as [-> ->].
    destruct (Z.ltb_spec (128 + x mod 128) 128); [lia|].
    assert (0 < 2 ^ s) by (apply Z.pow_pos_nonneg; lia).
    rewrite u64_small by (rewrite Z.shiftl_mul_pow2 by lia; nia).
    assert (s + 7 < 64) as Hs7.
    { destruct (Z.lt_ge_cases (s + 7) 64); [done|]. assert (2 ^ 64 ≤ 2 ^ (s + 7)) by (apply Z.pow_le_mono_r; lia).
      rewrite Z.pow_add_r in * by lia. change (2 ^ 7) with 128 in *. nia. }
    rewrite IH; [by rewrite split_bits by lia| |lia|lia|lia| |].
    + destruct fuel; [|lia]. change (2 ^ (7 * Z.of_nat 1)) with 128 in Hb. lia.
    + rewrite Nat2Z.inj_succ in Hb. replace (7 * Z.succ (Z.of_nat fuel)) with (7 * Z.of_nat fuel + 7) in Hb by lia.
      rewrite Z.pow_add_r in Hb by lia. change (2 ^ 7) with 128 in Hb. lia.
    + rewrite Z.pow_add_r by lia. change (2 ^ 7) with 128. nia.
  - cbn [app varint]. destruct (Z.leb_spec 64 s); [lia|]. assert (u8 x = x) as -> by (apply Z.mod_small; lia).
    rewrite land_127, Z.mod_small by lia. destruct (Z.ltb_spec x 128); [|lia].
    by rewrite u64_small by (rewrite Z.shiftl_mul_pow2 by lia; assert (0 < 2 ^ s) by (apply Z.pow_pos_nonneg; lia); nia).
Qed.

Lemma varint_encode x rest : 0 ≤ x < 2 ^ 64 → varint (encodeVarint x ++ rest) 0 0 = Ok (x, rest).
Proof.
  intros Hx. unfold encodeVarint. rewrite varint_encode_loop; [by rewrite Z.lor_0_l, Z.shiftl_0_r|lia..].
Qed.

Lemma sov_loop_length fuel x : 0 ≤ x → Z.of_nat (length (encode_varint_loop fuel x)) = sov_loop fuel x.
Proof.
  revert x. induction fuel as [|fuel IH]; intros x Hx; [done|]. cbn [encode_varint_loop sov_loop].
  destruct (shift7 x Hx) as (Ex & Hq & Hm). destruct (Z.leb_spec 128 x); destruct (Z.eqb_spec (Z.shiftr x 7) 0); try lia.
  - cbn [length]. rewrite Nat2Z.inj_succ, IH by done. lia.
  - done.
Qed.

Lemma u64_range z : 0 ≤ u64 z < 2 ^ 64.
Proof. apply Z.mod_pos_bound. lia. Qed.

Lemma sov_length z : Z.of_nat (length (encodeVarint (u64 z))) = sov (u64 z).
Proof. apply sov_loop_length, u64_range. Qed.

Lemma varint_u64 z rest : varint (encodeVarint (u64 z) ++ rest) 0 0 = Ok (u64 z, rest).
Proof. apply varint_encode, u64_range. Qed.

Lemma encodeVarint_pos x : (1 ≤ length (encodeVarint x))%nat.
Proof. unfold encodeVarint. generalize 9%nat as n. intros n. cbn [encode_varint_loop]. destruct (_ <=? _); cbn [length]; lia. Qed.

Lemma i64_u64 z : - 2 ^ 63 ≤ z ≤ MaxInt64 → i64 (u64 z) = z.
Proof.
  unfold MaxInt64. intros Hz. unfold i64, signed, u64, wrap. rewrite Z.mod_mod by lia.
  destruct (Z.ltb_spec (z mod 2 ^ 64) (2 ^ (64 - 1))) as [H|H]; change (2 ^ (64 - 1)) with (2 ^ 63) in H;
    pose proof (Z.div_mod z (2 ^ 64) ltac:(lia)); pose proof (Z.mod_pos_bound z (2 ^ 64) ltac:(lia)); nia.
Qed.

Lemma i64_of_small z : 0 ≤ z < 2 ^ 63 → i64 z = z.
Proof. intros Hz. rewrite <- (u64_small z) at 1 by lia. apply i64_u64. unfold MaxInt64. lia. Qed.

Lemma i32_u64 z : - 2 ^ 31 ≤ z < 2 ^ 31 → signed 32 (u64 z) = z.
Proof.
  intros Hz. unfold signed, u64, wrap. change (2 ^ (32 - 1)) with (2 ^ 31).
  assert ((z mod 2 ^ 64) mod 2 ^ 32 = z mod 2 ^ 32) as ->.
  { symmetry. apply (Znumtheory.Zmod_div_mod (2 ^ 32) (2 ^ 64)); [lia..|]. by exists (2 ^ 32). }
  destruct (Z.ltb_spec (z mod 2 ^ 32) (2 ^ 31)) as [H|H]; pose proof (Z.div_mod z (2 ^ 32) ltac:(lia)); pose proof (Z.mod_pos_bound z (2 ^ 32) ltac:(lia)); nia.
Qed.

(** ** Laws: slices *)

Lemma read_slice_put L bytes rest :
  L < 2 ^ 63 → Z.of_nat (length ((encodeVarint (u64 (Z.of_nat (length bytes))) ++ bytes) ++ rest)) ≤ L →
  read_slice L ((encodeVarint (u64 (Z.of_nat (length bytes))) ++ bytes) ++ rest) = Ok (bytes, rest).
Proof.
  intros HL Hlen. rewrite !length_app in Hlen. unfold read_slice. rewrite <- app_assoc, varint_u64. cbn [mbind result_bind].
  rewrite i64_u64 by (unfold MaxInt64; lia). destruct (Z.ltb_spec (Z.of_nat (length bytes)) 0); [lia|].
  rewrite length_app. rewrite i64_of_small by lia. destruct (Z.ltb_spec L (L - Z.of_nat (length bytes + length rest) + Z.of_nat (length bytes))); [lia|].
  destruct (Z.ltb_spec (L - Z.of_nat (length bytes + length rest) + Z.of_nat (length bytes)) (L - Z.of_nat (length bytes + length rest))); [lia|].
  rewrite Nat2Z.id, take_app_length, drop_app_length. done.
Qed.

(** ** Laws: fields *)

(** Chunks of a tag and what follows it take the value of a field from one value to another. *)
Inductive reads_to {V} (c : fieldc V) (tag : list Z) : V → list Z → V → Prop :=
| reads_nil v : reads_to c tag v [] v
| reads_chunk v payload v' bytes v'' :
    (∀ L rest, L < 2 ^ 63 → Z.of_nat (length (payload ++ rest)) ≤ L →
       fc_read c L (fc_wire c) v (payload ++ rest) = Some (Ok (v', rest))) →
    reads_to c tag v' bytes v'' → (v'' = fc_default c → v' = fc_default c) → reads_to c tag v (tag ++ payload ++ bytes) v''.

Lemma reads_one {V} (c : fieldc V) tag v payload v' :
  (∀ L rest, L < 2 ^ 63 → Z.of_nat (length (payload ++ rest)) ≤ L → fc_read c L (fc_wire c) v (payload ++ rest) = Some (Ok (v', rest))) →
  reads_to c tag v (tag ++ payload) v'.
Proof. intros H. rewrite <- (app_nil_r payload). eapply reads_chunk; [done|constructor|done]. Qed.

(** A value that is written is read back, and takes the size that was computed. *)
Definition writes {V} (c : fieldc V) (v : V) : Prop := ∀ tag, ∃ bytes,
  fc_put c tag v = Ok bytes ∧ Z.of_nat (length bytes) = fc_size c (Z.of_nat (length tag)) v ∧ reads_to c tag (fc_default c) bytes v.

(** A message that is written is read back. *)
Definition msg_writes {M} (c : msgc M) (m : M) : Prop := ∃ bytes,
  mc_put c m = Ok bytes ∧ Z.of_nat (length bytes) = mc_size c m ∧
  (Z.of_nat (length bytes) < 2 ^ 63 → mc_get c (mc_default c) bytes = Ok m).

Lemma varint_field_writes {V} (dflt : V) to from v :
  from (u64 (to v)) = v → (to v = 0 → v = dflt) → writes (varint_field dflt to from) v.
Proof.
  intros Hfrom Hd tag. cbn. destruct (Z.eqb_spec (to v) 0) as [E|E]; cbn.
  - exists []. split_and!; [done..|]. rewrite (Hd E). constructor.
  - eexists. split; [done|]. split; [rewrite length_app, Nat2Z.inj_add, sov_length; lia|]. apply reads_one. intros L rest _ _. cbn. rewrite varint_u64. cbn. by rewrite Hfrom.
Qed.

Lemma uint64_writes z : 0 ≤ z < 2 ^ 64 → writes uint64_field z.
Proof. intros Hz. apply varint_field_writes; [by apply u64_small|done]. Qed.
Lemma uint32_writes z : 0 ≤ z < 2 ^ 32 → writes uint32_field z.
Proof. intros Hz. apply varint_field_writes; [|done]. cbn. rewrite u64_small by lia. apply Z.mod_small. lia. Qed.
Lemma int64_writes z : - 2 ^ 63 ≤ z < 2 ^ 63 → writes int64_field z.
Proof. intros Hz. apply varint_field_writes; [|done]. apply i64_u64. unfold MaxInt64. lia. Qed.
Lemma int32_writes z : - 2 ^ 31 ≤ z < 2 ^ 31 → writes int32_field z.
Proof. intros Hz. apply varint_field_writes; [by apply i32_u64|done]. Qed.
Lemma bool_writes b : writes bool_field b.
Proof. by destruct b; apply varint_field_writes. Qed.

Lemma slice_field_writes {V} (dflt : V) to from v :
  from (to v) = v → (to v = [] → v = dflt) → writes (slice_field dflt to from) v.
Proof.
  intros Hfrom Hd tag. cbn [fc_put fc_size slice_field fc_default]. destruct (to v) as [|b l] eqn:E.
  - exists []. cbn. rewrite (Hd eq_refl). split_and!; [done..|constructor].
  - rewrite <- E in *. assert (0 < length (to v))%nat by (rewrite E; cbn; lia).
    destruct (Nat.ltb_spec 0 (length (to v))); [|lia]. destruct (Z.ltb_spec 0 (Z.of_nat (length (to v)))); [|lia].
    eexists. split; [done|]. unfold put_slice. split; [rewrite !length_app, !Nat2Z.inj_add, sov_length; lia|].
    apply reads_one. intros L rest HL Hlen. cbn. rewrite read_slice_put by done. cbn. by rewrite Hfrom.
Qed.

Lemma bytes_writes l : writes bytes_field l.
Proof. by apply slice_field_writes. Qed.
Lemma string_writes s : writes string_field s.
Proof.
  apply slice_field_writes; [apply string_bytes_roundtrip|]. intros E. apply (f_equal bytes_string) in E. by rewrite string_bytes_roundtrip in E.
Qed.

(** A message in a field: what follows the tag is read as that message. *)
Lemma message_payload {M} (c : msgc M) m tag : msg_writes c m → ∃ payload bytes,
  mc_put c m = Ok bytes ∧ put_message c tag m = Ok (tag ++ payload) ∧
  Z.of_nat (length (tag ++ payload)) = size_message c (Z.of_nat (length tag)) m ∧
  ∀ L rest, L < 2 ^ 63 → Z.of_nat (length (payload ++ rest)) ≤ L →
    read_slice L (payload ++ rest) = Ok (bytes, rest) ∧ mc_get c (mc_default c) bytes = Ok m.
Proof.
  intros (bytes & Hp & Hs & Hg). exists (encodeVarint (u64 (mc_size c m)) ++ bytes), bytes. unfold put_message, size_message. rewrite Hp.
  split_and!; [done|done|rewrite !length_app, !Nat2Z.inj_add, sov_length, Hs; lia|]. intros L rest HL Hlen. rewrite <- Hs in *.
  split; [by apply read_slice_put|]. apply Hg. rewrite !length_app in Hlen. lia.
Qed.

Lemma pointer_writes {M} (c : msgc M) o : (∀ m, o = Some m → msg_writes c m) → writes (pointer_field c) o.
Proof.
  intros Ho tag. destruct o as [m|]; [|exists []; split_and!; [done..|constructor]].
  destruct (message_payload c m tag (Ho m eq_refl)) as (payload & bytes & _ & Hp & Hs & Hr). exists (tag ++ payload). split_and!; [done..|].
  apply reads_one. intros L rest HL Hlen. destruct (Hr L rest HL Hlen) as [E1 E2]. cbn. rewrite E1. cbn. by rewrite E2.
Qed.

Lemma value_writes {M} (c : msgc M) m : msg_writes c m → writes (value_field c) m.
Proof.
  intros Hm tag. destruct (message_payload c m tag Hm) as (payload & bytes & _ & Hp & Hs & Hr). exists (tag ++ payload). split_and!; [done..|].
  apply reads_one. intros L rest HL Hlen. destruct (Hr L rest HL Hlen) as [E1 E2]. cbn. rewrite E1. cbn. by rewrite E2.
Qed.

Lemma oneof_writes {M} (c : msgc M) o : (∀ m, o = Some m → msg_writes c m) → writes (oneof_field c) o.
Proof.
  intros Ho tag. destruct o as [m|]; [|exists []; split_and!; [done..|constructor]].
  destruct (message_payload c m tag (Ho m eq_refl)) as (payload & bytes & _ & Hp & Hs & Hr). exists (tag ++ payload). split_and!; [done..|].
  apply reads_one. intros L rest HL Hlen. destruct (Hr L rest HL Hlen) as [E1 E2]. cbn. rewrite E1. cbn. by rewrite E2.
Qed.

Lemma oneof_string_writes o : writes oneof_string o.
Proof.
  intros tag. destruct o as [s|]; [|exists []; split_and!; [done..|constructor]].
  exists (put_slice tag (string_bytes s)). unfold put_slice. split_and!; [done|cbn; rewrite !length_app, !Nat2Z.inj_add, sov_length; lia|].
  apply reads_one. intros L rest HL Hlen. cbn. rewrite read_slice_put by done. cbn. by rewrite string_bytes_roundtrip.
Qed.

Lemma repeated_writes {M} (c : msgc M) l : Forall (msg_writes c) l → writes (repeated_field c) l.
Proof.
  intros Hl tag. assert (∀ seen, ∃ bytes, put_messages c tag l = Ok bytes ∧
    Z.of_nat (length bytes) = foldr (λ m k, size_message c (Z.of_nat (length tag)) m + k) 0 l ∧ reads_to (repeated_field c) tag seen bytes (seen ++ l)) as Hgen.
  { induction Hl as [|m l Hm Hl IH]; intros seen; [exists []; split_and!; [done..|rewrite app_nil_r; constructor]|].
    destruct (message_payload c m tag Hm) as (payload & bytes & _ & Hp & Hs & Hr).
    destruct (IH (seen ++ [m])) as (more & Hmore & Hsize & Hreads). exists ((tag ++ payload) ++ more). cbn. rewrite Hp. cbn. rewrite Hmore.
    split_and!; [done|rewrite length_app, Nat2Z.inj_add, Hsize, Hs; done|]. rewrite <- app_assoc. rewrite <- app_assoc in Hreads. eapply reads_chunk; [|exact Hreads|by destruct seen].
    intros L rest HL Hlen. destruct (Hr L rest HL Hlen) as [E1 E2]. cbn. rewrite E1. cbn. by rewrite E2. }
  destruct (Hgen []) as (bytes & H1 & H2 & H3). by exists bytes.
Qed.

(** Packed integers are read up to the end. *)
Lemma read_packed_app L rest l : ∀ fuel seen, Forall (λ z, 0 ≤ z < 2 ^ 64) l →
  (length (packed_bytes l) ≤ fuel)%nat →
  read_packed fuel L (L - Z.of_nat (length rest)) seen (packed_bytes l ++ rest) = Ok (seen ++ l, rest).
Proof.
  induction l as [|z l IH]; intros fuel seen Hl Hf.
  - cbn. rewrite app_nil_r. destruct fuel; cbn; by rewrite Z.ltb_irrefl.
  - apply Forall_cons in Hl as [Hz Hl]. cbn [packed_bytes] in *. rewrite length_app in Hf.
    pose proof (encodeVarint_pos (u64 z)). destruct fuel as [|fuel]; [lia|]. cbn [read_packed].
    destruct (Z.ltb_spec (L - Z.of_nat (length ((encodeVarint (u64 z) ++ packed_bytes l) ++ rest))) (L - Z.of_nat (length rest))) as [Hlt|Hge];
      [|rewrite !length_app in Hge; lia].
    rewrite <- app_assoc, varint_u64. cbn [mbind result_bind]. rewrite IH; [|done|lia]. rewrite u64_small by done. by rewrite <- app_assoc.
Qed.

Lemma packed_length l : Z.of_nat (length (packed_bytes l)) = foldr (λ x k, sov (u64 x) + k) 0 l.
Proof. induction l as [|z l IH]; [done|]. cbn [packed_bytes foldr]. by rewrite length_app, Nat2Z.inj_add, <- IH, sov_length. Qed.

Lemma packed_writes l : Forall (λ z, 0 ≤ z < 2 ^ 64) l → writes packed_field l.
Proof.
  intros Hl tag. cbn [fc_put fc_size packed_field fc_default]. destruct l as [|z l]; [exists []; split_and!; [done..|constructor]|].
  set (l' := z :: l) in *. assert (0 <? length l' = true)%nat as -> by done.
  eexists. split; [done|]. unfold put_slice. split; [rewrite !length_app, !Nat2Z.inj_add, sov_length, packed_length; lia|].
  apply reads_one. intros L rest HL Hlen. cbn [fc_read packed_field fc_wire Z.eqb]. rewrite !length_app in Hlen. change (2 =? 0) with false. change (2 =? 2) with true. cbn match. f_equal.
  rewrite <- app_assoc, varint_u64. cbn [mbind result_bind]. rewrite i64_u64 by (unfold MaxInt64; lia).
  set (bytes := packed_bytes l') in *. destruct (Z.ltb_spec (Z.of_nat (length bytes)) 0); [lia|].
  rewrite length_app. rewrite i64_of_small by lia. replace (L - Z.of_nat (length bytes + length rest) + Z.of_nat (length bytes)) with (L - Z.of_nat (length rest)) by lia.
  destruct (Z.ltb_spec L (L - Z.of_nat (length rest))); [lia|]. apply (read_packed_app L rest l' _ []); [done|]. fold bytes. lia.
Qed.

(** ** Laws: messages *)

(** Getting and setting a field; a member of a oneof that is unset again may have replaced another one. *)
Record lens_ok {M} (f : field M) : Prop := {
  lens_set_get m : fd_set f (fd_get f m) m = m;
  lens_get_set v m : fd_get f (fd_set f v m) = v;
  lens_set_set v w m : (v = fc_default (fd_c f) → w = fc_default (fd_c f)) → fd_set f v (fd_set f w m) = fd_set f v m;
}.

(** From [acc], setting the fields one after the other gives [m], and each was not set before. *)
Fixpoint builds {M} (fs : list (field M)) (acc m : M) : Prop :=
  match fs with
  | [] => acc = m
  | f :: fs => fd_get f acc = fc_default (fd_c f) ∧ builds fs (fd_set f (fd_get f m) acc) m
  end.

(** What is fixed for a type of message: the numbers are different and small, the wire types those of the kinds. *)
Record schema_ok {M} (fs : list (field M)) : Prop := {
  so_lenses : Forall lens_ok fs;
  so_nums : NoDup (fd_num <$> fs);
  so_range : Forall (λ f, 0 < fd_num f < 2 ^ 28 ∧ (fc_wire (fd_c f) = 0 ∨ fc_wire (fd_c f) = 2)) fs;
}.

(** For a list of fields that is written out. *)
Ltac solve_lens :=
  match goal with m : ?M |- @eq ?T _ _ => first [reflexivity | destruct m; first [reflexivity | lazy; repeat case_match; simplify_eq; reflexivity | by lazy; repeat case_match; naive_solver]] end.

Ltac solve_schema :=
  split; [repeat (apply Forall_cons; split; [split; intros; solve_lens|]); apply Forall_nil; exact I
         |apply (bool_decide_unpack _); vm_compute; exact I
         |repeat (apply Forall_cons; split; [cbn; lia|]); apply Forall_nil; exact I].

Lemma find_by_num {M} (fs : list (field M)) f : f ∈ fs → NoDup (fd_num <$> fs) →
  snd <$> find_first (λ g, fd_num g =? fd_num f) fs = Some f.
Proof.
  intros [i Hi]%list_elem_of_lookup Hn. assert (find_first (λ g, fd_num g =? fd_num f) fs = Some (i, f)) as ->; [|done].
  apply find_first_Some. split_and!; [done|apply Z.eqb_refl|]. intros j g Hj Hg. apply Z.eqb_neq. intros E.
  assert (j = i) as ->; [|lia]. eapply (NoDup_lookup _ j i (fd_num f)); [exact Hn|by rewrite list_lookup_fmap, Hg, <- E|by rewrite list_lookup_fmap, Hi].
Qed.

(** The loop takes a tag and what follows it as a step. *)
Lemma loop_chunk {M} (fs : list (field M)) f L fuel acc payload v' more :
  schema_ok fs → f ∈ fs →
  fc_read (fd_c f) L (fc_wire (fd_c f)) (fd_get f acc) (payload ++ more) = Some (Ok (v', more)) →
  unmarshal_loop fs L (S fuel) acc (tag_of f ++ payload ++ more) = unmarshal_loop fs L fuel (fd_set f v' acc) more.
Proof.
  intros [_ Hn Hr] Hf Hread. rewrite Forall_forall in Hr. destruct (Hr f Hf) as [Hnum Hwire]. cbn [unmarshal_loop].
  pose proof (encodeVarint_pos (8 * fd_num f + fc_wire (fd_c f))) as Hpos.
  destruct (Nat.eqb_spec (length (tag_of f ++ payload ++ more)) 0) as [E|_]; [rewrite length_app in E; unfold tag_of in E; lia|].
  unfold tag_of. rewrite varint_encode by lia. cbn [mbind result_bind].
  assert (Z.land (8 * fd_num f + fc_wire (fd_c f)) 7 = fc_wire (fd_c f)) as ->.
  { change 7 with (Z.ones 3). rewrite Z.land_ones by lia. change (2 ^ 3) with 8. rewrite Z.add_comm, Z.mul_comm, Z.mod_add by lia. apply Z.mod_small. lia. }
  assert (signed 32 (Z.shiftr (8 * fd_num f + fc_wire (fd_c f)) 3) = fd_num f) as ->.
  { rewrite Z.shiftr_div_pow2 by lia. change (2 ^ 3) with 8. rewrite Z.add_comm, Z.mul_comm, Z.div_add by lia. rewrite (Z.div_small (fc_wire _)) by lia.
    unfold signed. rewrite Z.add_0_l, Z.mod_small by lia. destruct (Z.ltb_spec (fd_num f) (2 ^ (32 - 1))); lia. }
  destruct (Z.eqb_spec (fc_wire (fd_c f)) 4); [lia|]. destruct (Z.leb_spec (fd_num f) 0); [lia|].
  pose proof (find_by_num fs f Hf Hn) as E. destruct (find_first (λ g, fd_num g =? fd_num f) fs) as [[i g]|]; [|done].
  cbn in E. injection E as ->. by rewrite Hread.
Qed.

Lemma loop_field {M} (fs : list (field M)) f L v bytes v' : schema_ok fs → f ∈ fs → L < 2 ^ 63 →
  reads_to (fd_c f) (tag_of f) v bytes v' → ∀ acc, fd_get f acc = v →
  ∃ k, (k ≤ length bytes)%nat ∧ ∀ fuel more, Z.of_nat (length (bytes ++ more)) ≤ L →
    unmarshal_loop fs L (k + fuel) acc (bytes ++ more) = unmarshal_loop fs L fuel (fd_set f v' acc) more.
Proof.
  intros Hs Hf HL Hr. assert (lens_ok f) as [Hsg Hgs Hss] by (eapply Forall_forall; [apply so_lenses, Hs|done]).
  induction Hr as [v|v payload v' bytes v'' Hread Hr IH Hd]; intros acc Hacc.
  - exists 0%nat. split; [done|]. intros fuel more _. by rewrite <- Hacc, Hsg.
  - destruct (IH (fd_set f v' acc) (Hgs _ _)) as (k & Hk & Hloop). exists (S k). split.
    + pose proof (encodeVarint_pos (8 * fd_num f + fc_wire (fd_c f))). rewrite !length_app. unfold tag_of. lia.
    + intros fuel more Hlen. rewrite <- !app_assoc. cbn [Nat.add]. rewrite !length_app in Hlen.
      rewrite (loop_chunk fs f L (k + fuel) acc payload v'); [|done|done|].
      * rewrite Hloop by (rewrite length_app; lia). by rewrite Hss.
      * rewrite Hacc. apply Hread; [done|]. rewrite !length_app. lia.
Qed.

Lemma loop_fields {M} (all : list (field M)) L m : schema_ok all → L < 2 ^ 63 → ∀ fs acc,
  (∀ f, f ∈ fs → f ∈ all) → builds fs acc m → Forall (λ f, writes (fd_c f) (fd_get f m)) fs →
  ∃ bytes, put_fields fs m = Ok bytes ∧ Z.of_nat (length bytes) = size_fields fs m ∧
    ∃ k, (k ≤ length bytes)%nat ∧ ∀ fuel more, Z.of_nat (length (bytes ++ more)) ≤ L →
      unmarshal_loop all L (k + fuel) acc (bytes ++ more) = unmarshal_loop all L fuel m more.
Proof.
  intros Hs HL. induction fs as [|f fs IH]; intros acc Hin Hb Hw.
  - cbn in Hb. subst acc. exists []. split_and!; [done..|]. by exists 0%nat.
  - apply Forall_cons in Hw as [Hf Hw]. destruct Hb as [Hd Hb].
    destruct (Hf (tag_of f)) as (bytes & Hput & Hsize & Hr).
    destruct (IH (fd_set f (fd_get f m) acc)) as (more & Hmore & Hsizes & k2 & Hk2 & Hloop2); [intros g Hg; apply Hin; by right|done|done|].
    destruct (loop_field all f L _ _ _ Hs (Hin f (list_elem_of_here _ _)) HL Hr acc Hd) as (k1 & Hk1 & Hloop1).
    exists (bytes ++ more). cbn [put_fields size_fields foldr]. rewrite Hput. cbn [mbind result_bind]. rewrite Hmore. cbn.
    split_and!; [done|rewrite length_app, Nat2Z.inj_add, Hsize, Hsizes; done|]. exists (k1 + k2)%nat. split; [rewrite length_app; lia|].
    intros fuel rest Hlen. rewrite <- app_assoc in *. rewrite !length_app in Hlen. rewrite <- Nat.add_assoc, Hloop1 by (rewrite !length_app; lia).
    apply Hloop2. rewrite length_app. lia.
Qed.

(** The generated code of a message: for every list of fields with different numbers, what [MarshalTo] writes has the length that [Size]
    announces, and [Unmarshal] reads it back as the same message. *)
Theorem fields_roundtrip {M} (dflt : M) (fs : list (field M)) m :
  schema_ok fs → builds fs dflt m → Forall (λ f, writes (fd_c f) (fd_get f m)) fs → msg_writes (fields_codec dflt fs) m.
Proof.
  intros Hs Hb Hw. destruct (loop_fields fs 0 m Hs ltac:(lia) fs dflt ltac:(done) Hb Hw) as (bytes & Hput & Hsize & _).
  exists bytes. split_and!; [done..|]. intros Hlen.
  destruct (loop_fields fs (Z.of_nat (length bytes)) m Hs Hlen fs dflt ltac:(done) Hb Hw) as (bytes' & Hput' & _ & k & Hk & Hloop).
  rewrite Hput in Hput'. injection Hput' as <-. specialize (Hloop (length bytes - k)%nat [] ltac:(rewrite app_nil_r; lia)).
  rewrite app_nil_r in Hloop. replace (k + (length bytes - k))%nat with (length bytes) in Hloop by lia.
  cbn [mc_get fields_codec mc_default]. rewrite Hloop. by destruct (length bytes - k)%nat.
Qed.

(** The fields of a message one by one: strings, bytes and booleans are always written. *)
Create HintDb proto.
#[export] Hint Resolve string_writes bytes_writes bool_writes oneof_string_writes : proto.
#[export] Hint Resolve uint64_writes uint32_writes int64_writes int32_writes pointer_writes value_writes oneof_writes repeated_writes packed_writes : proto.
#[export] Hint Extern 3 (_ ≤ _ < _) => lia : proto.
#[export] Hint Extern 3 (_ ≤ _ ≤ _) => lia : proto.

Ltac write_fields := repeat (apply Forall_cons; split; [cbn [fd_type fd_c fd_get mk_field]; eauto with proto|]); [..|apply Forall_nil; exact I].

(** The top-level functions. *)
Lemma msg_roundtrip {M} (c : msgc M) m : msg_writes c m → mc_size c m < 2 ^ 63 → ∃ bytes, msg_Marshal c m = Ok bytes ∧ msg_Unmarshal c bytes = Ok m.
Proof.
  intros (bytes & Hput & Hsize & Hget) Hlen. exists bytes. unfold msg_Marshal, msg_Unmarshal. rewrite Hput. cbn. rewrite Hsize, Z.ltb_irrefl. split; [done|]. apply Hget. lia.
Qed.

(** A length near the maximum of an int makes the end of a slice negative, and the slice expression panics. *)
Lemma huge_length_panics : msg_Unmarshal (fields_codec ""%string [mk_field 1 string_field id (λ v _, v)])
  [10; 255; 255; 255; 255; 255; 255; 255; 255; 127] = Panic "slice bounds out of range".
Proof. by vm_compute. Qed.
