(* ===== verification/SegmentsProps.v ===== *)
(** * Segment files hold a log of messages

    The abstract state of a segment is the list of its messages.  The theorems relate the bytes that
    src/mq/segments/file.go writes, recovers and truncates, and the positions of
    src/mq/segments/iterator.go, to that list. *)
From S2P Require Import Prelude Segments SegmentsVarint.

(** ** Logs *)

Definition body (msgs : list (list Z)) : list Z := concat (record <$> msgs).

(** The offset at which message [k] starts. *)
Definition boundary (msgs : list (list Z)) (k : nat) : Z :=
  1 + Z.of_nat (length (body (take k msgs))).

Record file_log (f : File) (msgs : list (list Z)) : Prop := {
  log_data : f_data f = version :: body msgs;
  log_offset : f_offset f = Z.of_nat (length (f_data f));
  log_size : Z.of_nat (length (f_data f)) ≤ MaxInt64;
}.

(** ** Records *)

Lemma i64_small z : 0 ≤ z ≤ MaxInt64 → i64 z = z.
Proof.
  intros Hz. unfold i64, signed, MaxInt64 in *. rewrite Z.mod_small by lia.
  destruct (Z.ltb_spec z (2 ^ (64 - 1))); [done|]. change (2 ^ (64 - 1)) with (2 ^ 63) in *. lia.
Qed.

Lemma body_app m1 m2 : body (m1 ++ m2) = body m1 ++ body m2.
Proof. unfold body. by rewrite fmap_app, concat_app. Qed.

Lemma body_cons m msgs : body (m :: msgs) = record m ++ body msgs.
Proof. done. Qed.

Lemma length_record m :
  Z.of_nat (length (record m)) =
  Z.of_nat (length (PutUvarint (Z.of_nat (length m)))) + Z.of_nat (length m).
Proof. unfold record. rewrite length_app. lia. Qed.

Lemma record_nonempty m : (1 ≤ length (record m))%nat.
Proof.
  unfold record. rewrite length_app. pose proof (length_PutUvarint (Z.of_nat (length m))). lia.
Qed.

(** The length of a record is read back from any window of at least ten bytes. *)
Lemma peek_record m rest :
  Z.of_nat (length m) < 2 ^ 64 →
  Uvarint (take 10 (record m ++ rest)) =
  (Z.of_nat (length m), Z.of_nat (length (PutUvarint (Z.of_nat (length m))))).
Proof.
  intros Hm. pose proof (length_PutUvarint (Z.of_nat (length m))).
  unfold record. rewrite <- app_assoc, take_app_ge by lia. apply Uvarint_PutUvarint. lia.
Qed.

Lemma drop_record m rest :
  drop (length (PutUvarint (Z.of_nat (length m)))) (record m ++ rest) = m ++ rest.
Proof. unfold record. by rewrite <- app_assoc, drop_app_length. Qed.

Lemma boundary_le msgs k : boundary msgs k ≤ 1 + Z.of_nat (length (body msgs)).
Proof.
  unfold boundary. rewrite <- (take_drop k msgs) at 2. rewrite body_app, length_app. lia.
Qed.

Lemma boundary_pos msgs k : 1 ≤ boundary msgs k.
Proof. unfold boundary. lia. Qed.

Lemma boundary_S msgs k m :
  msgs !! k = Some m → boundary msgs (S k) = boundary msgs k + Z.of_nat (length (record m)).
Proof.
  intros Hm. unfold boundary. rewrite (take_S_r _ _ _ Hm), body_app, length_app.
  unfold body at 2. simpl. rewrite app_nil_r. lia.
Qed.

Lemma boundary_all msgs k :
  (length msgs ≤ k)%nat → boundary msgs k = 1 + Z.of_nat (length (body msgs)).
Proof. intros Hk. unfold boundary. by rewrite take_ge. Qed.

Lemma boundary_app msgs k more : (k ≤ length msgs)%nat → boundary (msgs ++ more) k = boundary msgs k.
Proof. intros Hk. unfold boundary. by rewrite take_app_le. Qed.

(** The bytes between two boundaries are the records between them. *)
Lemma section_boundary msgs k e :
  (k ≤ e)%nat →
  section (version :: body msgs) (boundary msgs k) (boundary msgs e) =
  body (drop k (take e msgs)).
Proof.
  intros Hke. unfold section, boundary.
  set (a := body (take k msgs)). set (b := body (drop k (take e msgs))).
  assert (Hab : body (take e msgs) = a ++ b).
  { unfold a, b. rewrite <- body_app. f_equal. rewrite <- (take_drop k (take e msgs)) at 1.
    by rewrite take_take, Nat.min_l by lia. }
  assert (Hall : body msgs = a ++ b ++ body (drop e msgs)).
  { rewrite app_assoc, <- Hab, <- body_app, take_drop. done. }
  rewrite Hall, Hab, length_app. rewrite Z2Nat.inj_add, Nat2Z.id by lia.
  change (drop (Z.to_nat 1 + length a) (version :: a ++ b ++ body (drop e msgs)))
    with (drop (length a) (a ++ b ++ body (drop e msgs))).
  rewrite drop_app_length. replace (Z.to_nat _) with (length b) by lia. apply take_app_length.
Qed.

Lemma file_log_boundary f msgs k : file_log f msgs → boundary msgs k ≤ f_offset f ≤ MaxInt64.
Proof.
  intros [H1 H2 H3]. rewrite H2. split; [|done]. rewrite H1. cbn [length].
  pose proof (boundary_le msgs k). lia.
Qed.

(** ** Reading a message *)

(** An iterator that stands at message [k] and whose reader ends at message [e]. *)
Record iter_at (i : Iterator) (msgs : list (list Z)) (k e : nat) : Prop := {
  at_offset : it_offset i = boundary msgs k;
  at_pos : it_pos i = boundary msgs k;
  at_end : it_end i = boundary msgs e;
  at_endOffset : it_endOffset i = boundary msgs e;
  at_range : (k ≤ e ≤ length msgs)%nat;
}.

Definition advance (i : Iterator) (msgs : list (list Z)) (k e : nat) : Iterator :=
  with_reader i (boundary msgs k) (boundary msgs e) (boundary msgs k) (boundary msgs e).

Lemma advance_at i msgs k e : (k ≤ e ≤ length msgs)%nat → iter_at (advance i msgs k e) msgs k e.
Proof. by constructor. Qed.

Lemma Next_loop_delivers fuel i f msgs k e m :
  file_log f msgs → f_opened f = true → iter_at i msgs k e → (k < e)%nat → msgs !! k = Some m →
  Next_loop (S fuel) i f =
  (advance i msgs (S k) e, Delivered m (boundary msgs k) (boundary msgs (S k))).
Proof.
  intros Hlog Hopen [H1 H2 H3 H4 H5] Hke Hm. cbn [Next_loop]. unfold Next_pass. rewrite Hopen. cbn [negb].
  pose proof (file_log_boundary f msgs (S k) Hlog) as Hb. pose proof (boundary_pos msgs k) as Hp.
  rewrite (log_data _ _ Hlog), H1, H2, H3, section_boundary by lia.
  assert (Hd : drop k (take e msgs) = m :: drop (S k) (take e msgs)).
  { apply drop_S. by rewrite lookup_take_lt. }
  rewrite Hd, body_cons. set (rest := body (drop (S k) (take e msgs))).
  pose proof (boundary_S msgs k m Hm) as HS. rewrite length_record in HS.
  pose proof (length_PutUvarint (Z.of_nat (length m))) as Hn.
  set (n := Z.of_nat (length (PutUvarint (Z.of_nat (length m))))) in *.
  change (Z.to_nat MaxVarintLen64) with 10%nat.
  rewrite peek_record by (unfold MaxInt64 in *; lia). fold n.
  destruct (Z.eqb_spec n 0); [lia|]. destruct (Z.ltb_spec n 0); [lia|].
  destruct (Z.ltb_spec MaxInt64 (Z.of_nat (length m))); [lia|].
  rewrite length_app, Nat2Z.inj_add, length_record. fold n.
  destruct (Z.ltb_spec (n + Z.of_nat (length m) + Z.of_nat (length rest) - n) (Z.of_nat (length m)));
    [lia|].
  replace (i64 (n + Z.of_nat (length m))) with (n + Z.of_nat (length m))
    by (symmetry; apply i64_small; lia).
  rewrite i64_small by lia.
  replace (Z.to_nat n) with (length (PutUvarint (Z.of_nat (length m)))) by (unfold n; lia).
  rewrite Nat2Z.id, drop_record, take_app_length, H4.
  unfold advance. f_equal; [f_equal; lia|f_equal; lia].
Qed.

(** At the end of its section an iterator that does not wait reports the end. *)
Lemma Next_loop_end fuel i f msgs k :
  file_log f msgs → f_opened f = true → iter_at i msgs k k → it_wait i = false →
  Next_loop (S fuel) i f = fail_with i EOF.
Proof.
  intros Hlog Hopen [H1 H2 H3 H4 H5] Hw. cbn [Next_loop]. unfold Next_pass. rewrite Hopen. cbn [negb].
  rewrite (log_data _ _ Hlog), H2, H3, section_boundary by lia.
  rewrite drop_ge by (rewrite length_take; lia). simpl. by rewrite Hw.
Qed.

(** ** Waiting for messages *)

(** The jump back of [Next] is taken at most once: more fuel changes nothing. *)
Lemma Next_loop_fuel fuel i f : Next_loop (S (S fuel)) i f = Next_loop 2 i f.
Proof.
  assert (Hagain : ∀ again again' j, it_endOffset j = f_offset f →
    Next_pass again j f = Next_pass again' j f).
  { intros again again' j Hj. unfold Next_pass. destruct (negb (f_opened f)); [done|].
    destruct (Uvarint _) as [len k]. destruct (k =? 0); [|done].
    destruct (_ <? MaxVarintLen64); [|done]. destruct (it_wait j); [|done].
    unfold nextWait. rewrite Hj, Z.eqb_refl. destruct (f_maxSize f <=? f_offset f); [done|].
    cbn [andb]. destruct (f_term f =? it_term j) eqn:E; [|done]. by destruct (it_closed j). }
  cbn [Next_loop]. unfold Next_pass at 1 3.
  destruct (negb (f_opened f)); [done|]. destruct (Uvarint _) as [len k].
  destruct (k =? 0); [|done]. destruct (_ <? MaxVarintLen64); [|done].
  destruct (it_wait i); [|done]. destruct (nextWait i f) as [[j|e|s]|] eqn:E; try done.
  apply Hagain. unfold nextWait in E. repeat case_if; try done. by simplify_eq/=.
Qed.

Lemma f_offset_boundary f msgs : file_log f msgs → f_offset f = boundary msgs (length msgs).
Proof.
  intros [H1 H2 H3]. rewrite H2, H1, boundary_all by done. cbn [length]. lia.
Qed.

(** ** Draining an iterator *)

Fixpoint drain (fuel : nat) (i : Iterator) (f : File) : list (list Z * Z * Z) * outcome :=
  match fuel with
  | O => ([], Waits)
  | S fuel =>
    match Iterator_Next i f with
    | (i', Delivered m offset commitOffset) =>
      ((m, offset, commitOffset) :: (drain fuel i' f).1, (drain fuel i' f).2)
    | (_, o) => ([], o)
    end
  end.

Lemma drain_S n i f :
  drain (S n) i f =
  match Iterator_Next i f with
  | (i', Delivered m offset commitOffset) =>
    ((m, offset, commitOffset) :: (drain n i' f).1, (drain n i' f).2)
  | (_, o) => ([], o)
  end.
Proof. done. Qed.

(** Messages with their offset and commit offset. *)
Definition indexed (msgs : list (list Z)) (k : nat) : list (list Z * Z * Z) :=
  imap (λ j m, (m, boundary msgs (k + j), boundary msgs (S (k + j)))) (drop k msgs).

Lemma indexed_S msgs k m :
  msgs !! k = Some m →
  indexed msgs k = (m, boundary msgs k, boundary msgs (S k)) :: indexed msgs (S k).
Proof.
  intros Hm. unfold indexed. rewrite (drop_S _ _ _ Hm). simpl. rewrite Nat.add_0_r. f_equal.
  apply imap_ext. intros j x _. simpl. by rewrite Nat.add_succ_r.
Qed.

Lemma drain_log f msgs : file_log f msgs → f_opened f = true →
  ∀ n k i, (n = length msgs - k)%nat → iter_at i msgs k (length msgs) → it_closed i = false →
    it_term i = f_term f → it_wait i = false →
    drain (S n) i f = (indexed msgs k, Failed EOF).
Proof.
  intros Hlog Hopen. induction n as [|n IH]; intros k i Hn Hi Hc Ht Hw;
    pose proof (at_range _ _ _ _ Hi) as Hr; rewrite drain_S; unfold Iterator_Next, Next_label;
    rewrite Hc, Ht, Z.eqb_refl; cbn [negb].
  - assert (k = length msgs) as -> by lia. rewrite (Next_loop_end 1 i f msgs (length msgs)) by done.
    unfold indexed. rewrite drop_all. done.
  - destruct (lookup_lt_is_Some_2 msgs k ltac:(lia)) as [m Hm].
    rewrite (Next_loop_delivers 1 i f msgs k (length msgs) m) by (done || lia).
    rewrite (IH (S k)); [|lia|apply advance_at; lia|done..]. by rewrite (indexed_S msgs k m).
Qed.

Lemma ReadAt_boundary f msgs k wait :
  file_log f msgs → (k ≤ length msgs)%nat →
  ∃ i, ReadAt f (boundary msgs k) wait = Ok i ∧ iter_at i msgs k (length msgs) ∧
    it_closed i = false ∧ it_term i = f_term f ∧ it_wait i = wait.
Proof.
  intros Hlog Hk. unfold ReadAt. pose proof (boundary_pos msgs k).
  pose proof (file_log_boundary f msgs k Hlog). destruct (Z.ltb_spec (boundary msgs k) 1); [lia|].
  destruct (Z.ltb_spec (f_offset f) (boundary msgs k)); [lia|].
  eexists. split; [done|]. split_and!; try done.
  by constructor; simpl; rewrite ?(f_offset_boundary f msgs Hlog).
Qed.

(** ** Writing *)

Lemma Write_all_log f msgs m :
  file_log f msgs → f_opened f = true → f_offset f < f_maxSize f →
  f_offset f + Z.of_nat (length (record m)) ≤ MaxInt64 →
  ∃ f', Write f m WroteAll = Ok (f', None) ∧ file_log f' (msgs ++ [m]) ∧
    f_opened f' = true ∧ f_term f' = f_term f ∧ f_maxSize f' = f_maxSize f.
Proof.
  intros [H1 H2 H3] Hopen Hfull Hfits. unfold Write.
  destruct (Z.leb_spec (f_maxSize f) (f_offset f)); [lia|]. rewrite Hopen. cbn [negb].
  eexists. split; [done|]. split_and!; try done.
  assert (Hlen : Z.of_nat (length (f_data f ++ record m)) =
                 f_offset f + Z.of_nat (length (record m))) by (rewrite length_app; lia).
  constructor; simpl.
  - rewrite H1, body_app. unfold body at 3. simpl. by rewrite app_nil_r.
  - rewrite Hlen, i64_small by lia. done.
  - lia.
Qed.

Lemma Write_some_log f msgs m n :
  file_log f msgs → f_opened f = true → f_offset f < f_maxSize f →
  ∃ f', Write f m (WroteSome n true) = Ok (f', Some ErrWrite) ∧ file_log f' msgs ∧
    f_opened f' = true ∧ f_term f' = f_term f ∧ f_maxSize f' = f_maxSize f.
Proof.
  intros [H1 H2 H3] Hopen Hfull. unfold Write.
  destruct (Z.leb_spec (f_maxSize f) (f_offset f)); [lia|]. rewrite Hopen. cbn [negb].
  eexists. split; [done|]. rewrite H2, Nat2Z.id, take_app_length. by split_and!.
Qed.

(** ** Truncating *)

Lemma Truncate_log f msgs k :
  file_log f msgs → f_opened f = true → (k ≤ length msgs)%nat →
  ∃ f', Truncate f (boundary msgs k) true = Ok f' ∧ file_log f' (take k msgs) ∧
    f_opened f' = true ∧ f_term f' = u32 (f_term f + 1) ∧ f_maxSize f' = f_maxSize f.
Proof.
  intros Hlog Hopen Hk. pose proof (file_log_boundary f msgs k Hlog) as Hb.
  pose proof (boundary_pos msgs k). pose proof Hlog as [H1 H2 H3].
  unfold Truncate. destruct (Z.ltb_spec (boundary msgs k) 0); [lia|].
  unfold TruncateAll. destruct (Z.eqb_spec (boundary msgs k) 0); [lia|].
  destruct (Z.ltb_spec (f_offset f) (boundary msgs k)); [lia|].
  assert (Htake : take (Z.to_nat (boundary msgs k)) (f_data f) = version :: body (take k msgs)).
  { assert (Hb2 : body msgs = body (take k msgs) ++ body (drop k msgs))
      by (by rewrite <- body_app, take_drop).
    rewrite H1, Hb2. unfold boundary.
    rewrite Z2Nat.inj_add, Nat2Z.id by lia.
    change (take (Z.to_nat 1 + length (body (take k msgs)))
      (version :: body (take k msgs) ++ body (drop k msgs)))
      with (version :: take (length (body (take k msgs))) (body (take k msgs) ++ body (drop k msgs))).
    by rewrite take_app_length. }
  destruct (Z.ltb_spec (boundary msgs k) (f_offset f)) as [Hlt|Hge].
  - rewrite Hopen. cbn [andb]. eexists. split; [done|]. split_and!; try done. rewrite Htake.
    constructor; simpl; [done|unfold boundary; lia|]. unfold boundary in *. lia.
  - eexists. split; [done|]. split_and!; try done.
    assert (Heq : boundary msgs k = f_offset f) by lia.
    rewrite Heq, H2, Nat2Z.id, firstn_all in Htake. by constructor.
Qed.

(** ** Recovery *)

(** The read buffer, which the loop of [Open] shrinks to the bytes it got, still holds a length. *)
Definition buf_ok (buflen size offset : Z) : Prop := 10 ≤ buflen ∨ size - offset ≤ buflen.

Section recovery.
Context (os : os_call → bool) (Hos : ∀ c, os c = true).

(** The loop reads a length whose bytes are all in the file. *)
Lemma scan_length fuel data offset buflen m rest :
  let size := Z.of_nat (length data) in
  let len := PutUvarint (Z.of_nat (length m)) in
  0 ≤ offset → drop (Z.to_nat offset) data = len ++ rest → offset < size →
  buf_ok buflen size offset → offset + Z.of_nat (length (record m)) ≤ MaxInt64 →
  ∃ buflen', buf_ok buflen' size (offset + 1) ∧
  scan os (S fuel) data size offset buflen =
  if size <? offset + Z.of_nat (length (record m))
  then Some (Ok (take (Z.to_nat offset) data, offset))
  else scan os fuel data size (offset + Z.of_nat (length (record m))) buflen'.
Proof using Hos.
  intros size len Hpos Hdrop Hlt Hbuf Hmax. pose proof (length_PutUvarint (Z.of_nat (length m))) as Hn.
  assert (Hlen : size - offset = Z.of_nat (length (len ++ rest))).
  { rewrite <- Hdrop, length_drop. unfold size. lia. }
  fold len in Hn. pose proof (length_record m) as Hrec. fold len in Hrec.
  assert (Hb : (length len ≤ Z.to_nat buflen)%nat).
  { rewrite length_app in Hlen. destruct Hbuf; lia. }
  exists (Z.of_nat (length (take (Z.to_nat buflen) (len ++ rest)))). split.
  { rewrite length_take. unfold buf_ok in *. lia. }
  cbn [scan]. destruct (Z.ltb_spec offset size); [|lia]. rewrite !Hos.
  destruct (Z.ltb_spec offset 0); [lia|]. cbn [negb orb]. rewrite Hdrop.
  rewrite (take_app_ge len rest) by done. unfold len at 1. rewrite Uvarint_PutUvarint.
  2:{ unfold MaxInt64 in *. lia. }
  fold len. destruct (Z.eqb_spec (Z.of_nat (length len)) 0); [lia|].
  rewrite (i64_small (Z.of_nat (length m))) by lia.
  rewrite (i64_small (Z.of_nat (length len) + Z.of_nat (length m))) by lia.
  rewrite <- Hrec. rewrite (i64_small (offset + _)) by lia. done.
Qed.

(** Complete records are skipped. *)
Lemma scan_records fuel pre msgs tail buflen :
  let data := version :: body (pre ++ msgs) ++ tail in
  let size := Z.of_nat (length data) in
  size ≤ MaxInt64 → buf_ok buflen size (1 + Z.of_nat (length (body pre))) →
  ∃ buflen', buf_ok buflen' size (1 + Z.of_nat (length (body (pre ++ msgs)))) ∧
    scan os (length msgs + fuel) data size (1 + Z.of_nat (length (body pre))) buflen =
    scan os fuel data size (1 + Z.of_nat (length (body (pre ++ msgs)))) buflen'.
Proof using Hos.
  revert pre buflen. induction msgs as [|m msgs IH]; intros pre buflen data size Hsize Hbuf.
  { rewrite app_nil_r. eauto. }
  assert (Hdata : data = version :: body ((pre ++ [m]) ++ msgs) ++ tail).
  { unfold data. by rewrite <- app_assoc. }
  assert (Hbody : body (pre ++ [m]) = body pre ++ record m).
  { rewrite body_app. f_equal. unfold body. simpl. by rewrite app_nil_r. }
  assert (Hsz : size = 1 + Z.of_nat (length (body pre)) + Z.of_nat (length (record m)) +
                Z.of_nat (length (body msgs ++ tail))).
  { unfold size. rewrite Hdata, body_app, Hbody. cbn [length]. rewrite !length_app. lia. }
  pose proof (record_nonempty m).
  destruct (scan_length (length msgs + fuel) data (1 + Z.of_nat (length (body pre))) buflen m
    (m ++ body msgs ++ tail)) as (buflen1 & Hbuf1 & Hscan); fold size; try lia; [|done|].
  { unfold data. rewrite Z2Nat.inj_add, Nat2Z.id by lia. rewrite body_app, <- app_assoc.
    change (Z.to_nat 1 + length (body pre))%nat with (S (length (body pre))). cbn [drop].
    rewrite drop_app_length, body_cons. unfold record. by rewrite <- !app_assoc. }
  fold size in Hscan. cbn [length Nat.add]. rewrite Hscan.
  destruct (Z.ltb_spec size (1 + Z.of_nat (length (body pre)) + Z.of_nat (length (record m)))); [lia|].
  specialize (IH (pre ++ [m]) buflen1). cbv zeta in IH. rewrite <- Hdata in IH. fold size in IH.
  rewrite Hbody, length_app in IH.
  replace ((pre ++ [m]) ++ msgs) with (pre ++ m :: msgs) in IH by (by rewrite <- app_assoc).
  destruct IH as (buflen2 & Hbuf2 & IH); [done|unfold buf_ok in *; lia|].
  exists buflen2. split; [done|]. rewrite <- IH. f_equal. lia.
Qed.

End recovery.

(** A file that ends in the middle of a record, after [j] bytes of it. *)
Definition torn (msgs : list (list Z)) (m : list Z) (j : nat) : list Z :=
  version :: body msgs ++ take j (record m).

(** The log of an open file as [Open] leaves it. *)
Definition opened_log (f : File) (msgs : list (list Z)) (maxSize : Z) : Prop :=
  file_log f msgs ∧ f_opened f = true ∧ f_maxSize f = maxSize ∧ f_term f = 1.

Lemma Open_scan os fuel data maxSize :
  (∀ c, os c = true) →
  Open os fuel (version :: data) maxSize =
  (r ← scan os fuel (version :: data) (Z.of_nat (length (version :: data))) 1 MaxVarintLen64;
   Some ('(data, offset) ← r;
         Ok {| f_data := data; f_opened := true; f_maxSize := maxSize; f_offset := offset;
               f_term := 1 |})).
Proof.
  intros Hos. unfold Open. rewrite !Hos. cbn [negb].
  destruct (Z.eqb_spec (Z.of_nat (length (version :: data))) 0) as [E|]; [cbn [length] in E; lia|].
  done.
Qed.

Section torn.
Context (os : os_call → bool) (Hos : ∀ c, os c = true).
Context (msgs : list (list Z)) (m : list Z) (j fuel : nat).
Context (Hsize : Z.of_nat (length (torn msgs m j)) + Z.of_nat (length (record m)) ≤ MaxInt64).
Context (Hj : (j < length (record m))%nat).

Let size := Z.of_nat (length (torn msgs m j)).
Let offset := 1 + Z.of_nat (length (body msgs)).

Lemma torn_size : size = offset + Z.of_nat j.
Proof using Hj.
  unfold size, offset, torn. cbn [length]. rewrite length_app, length_take. lia.
Qed.

Lemma torn_drop : drop (Z.to_nat offset) (torn msgs m j) = take j (record m).
Proof.
  unfold offset, torn. rewrite Z2Nat.inj_add, Nat2Z.id by lia.
  change (Z.to_nat 1 + length (body msgs))%nat with (S (length (body msgs))). cbn [drop].
  apply drop_app_length.
Qed.

Lemma torn_take : take (Z.to_nat offset) (torn msgs m j) = version :: body msgs.
Proof.
  unfold offset, torn. rewrite Z2Nat.inj_add, Nat2Z.id by lia.
  change (Z.to_nat 1 + length (body msgs))%nat with (S (length (body msgs))). cbn [take].
  f_equal. apply take_app_length.
Qed.

(** The loop reaches the torn record. *)
Lemma torn_scan : ∃ buflen, buf_ok buflen size offset ∧
  scan os (length msgs + S (S fuel)) (torn msgs m j) size 1 MaxVarintLen64 =
  scan os (S (S fuel)) (torn msgs m j) size offset buflen.
Proof using Hos Hsize Hj.
  destruct (scan_records os Hos (S (S fuel)) [] msgs (take j (record m)) MaxVarintLen64)
    as (buflen & Hbuf & Hscan).
  - change (size ≤ MaxInt64). unfold size. lia.
  - left. unfold MaxVarintLen64. lia.
  - exists buflen. split; [exact Hbuf|exact Hscan].
Qed.

Lemma torn_scan_ok :
  j = 0%nat ∨ (length (PutUvarint (Z.of_nat (length m))) ≤ j)%nat →
  scan os (length msgs + S (S fuel)) (torn msgs m j) size 1 MaxVarintLen64 =
  Some (Ok (version :: body msgs, offset)).
Proof using Hos Hsize Hj.
  intros Hcase. destruct torn_scan as (buflen & Hbuf & ->). pose proof torn_size as Hs.
  destruct (decide (j = 0%nat)) as [Hj0|Hj0].
  - unfold scan at 1. destruct (Z.ltb_spec offset size); [lia|].
    unfold torn. by rewrite Hj0, take_0, app_nil_r.
  - destruct Hcase as [?|Hcase]; [done|].
    set (len := PutUvarint (Z.of_nat (length m))) in *.
    destruct (scan_length os Hos (S fuel) (torn msgs m j) offset buflen m (take (j - length len) m))
      as (buflen' & _ & Hscan); try done.
    + unfold offset. lia.
    + rewrite torn_drop. unfold record. fold len. by rewrite take_app_ge.
    + fold size. lia.
    + fold size in Hsize. lia.
    + fold size in Hscan. rewrite Hscan.
      destruct (Z.ltb_spec size (offset + Z.of_nat (length (record m)))); [|lia].
      by rewrite torn_take.
Qed.

Lemma torn_scan_err :
  (0 < j < length (PutUvarint (Z.of_nat (length m))))%nat →
  scan os (length msgs + S (S fuel)) (torn msgs m j) size 1 MaxVarintLen64 =
  Some (Err ErrWrongMessageSize).
Proof using Hos Hsize Hj.
  intros Hcase. destruct torn_scan as (buflen & Hbuf & ->). pose proof torn_size as Hs.
  pose proof (length_PutUvarint (Z.of_nat (length m))).
  unfold scan at 1. destruct (Z.ltb_spec offset size); [|lia]. rewrite !Hos.
  destruct (Z.ltb_spec offset 0); [unfold offset in *; lia|]. cbn [negb orb]. rewrite torn_drop.
  assert (Hbuf' : take (Z.to_nat buflen) (take j (record m)) =
                  take j (PutUvarint (Z.of_nat (length m)))).
  { rewrite take_ge by (rewrite length_take; unfold buf_ok in *; lia).
    unfold record. by rewrite take_app_le by lia. }
  rewrite Hbuf', Uvarint_prefix by lia. done.
Qed.

End torn.

(** ** Writing a sequence of messages *)

Fixpoint write_all (f : File) (ms : list (list Z)) : option File :=
  match ms with
  | [] => Some f
  | m :: ms => match Write f m WroteAll with Ok (f', None) => write_all f' ms | _ => None end
  end.

Lemma write_all_log ms : ∀ f msgs,
  file_log f msgs → f_opened f = true →
  f_offset f + Z.of_nat (length (body ms)) ≤ f_maxSize f ≤ MaxInt64 →
  ∃ f', write_all f ms = Some f' ∧ file_log f' (msgs ++ ms) ∧ f_opened f' = true ∧
    f_term f' = f_term f ∧ f_maxSize f' = f_maxSize f.
Proof.
  induction ms as [|m ms IH]; intros f msgs Hlog Hopen Hfits; cbn [write_all].
  { exists f. by rewrite app_nil_r. }
  pose proof (record_nonempty m). rewrite body_cons, length_app in Hfits.
  destruct (Write_all_log f msgs m) as (f1 & Hw & Hlog1 & Hopen1 & Ht & Hmax); [done|done|lia|lia|].
  rewrite Hw. destruct (IH f1 (msgs ++ [m])) as (f2 & H1 & H2 & H3 & H4 & H5); [done|done| |].
  { rewrite Hmax. enough (f_offset f1 = f_offset f + Z.of_nat (length (record m))) by lia.
    rewrite (log_offset _ _ Hlog), (log_offset _ _ Hlog1).
    rewrite (log_data _ _ Hlog), (log_data _ _ Hlog1), body_app. cbn [length].
    rewrite length_app. unfold body at 2. simpl. rewrite app_nil_r. lia. }
  exists f2. rewrite <- app_assoc in H2. split_and!; congruence || done.
Qed.

Lemma Open_log os f msgs fuel maxSize :
  (∀ c, os c = true) → file_log f msgs → f_offset f < MaxInt64 → (length msgs + 2 ≤ fuel)%nat →
  ∃ f', Open os fuel (f_data f) maxSize = Some (Ok f') ∧ f_data f' = f_data f ∧ file_log f' msgs.
Proof.
  intros Hos [H1 H2 H3] Hmax Hfuel.
  replace fuel with (length msgs + S (S (fuel - length msgs - 2)))%nat by lia.
  rewrite H1, Open_scan by done.
  pose proof (torn_scan_ok os Hos msgs [] 0 (fuel - length msgs - 2)) as Hscan.
  unfold torn in Hscan. rewrite take_0, app_nil_r, <- H1 in Hscan.
  change (Z.of_nat (length (record []))) with 1 in Hscan.
  change (length (record [])) with 1%nat in Hscan.
  rewrite <- H1. rewrite Hscan by (lia || by left). eexists. split; [done|]. split; [done|].
  constructor; simpl; [done|rewrite H1; cbn [length]; lia|lia].
Qed.

(** ** Concurrent readers *)

(** The file, an iterator on it, and the messages the iterator has delivered. *)
Record reader : Type := {
  rd_file : File;
  rd_iter : Iterator;
  rd_delivered : list (list Z);
}.

Definition deliver (o : outcome) : list (list Z) :=
  match o with Delivered m _ _ => [m] | _ => [] end.

(** Writes, whether they succeed or fail, truncations to the end of a message, and calls of [Next]:
    a new one, or one that waited for more messages in [nextWait]. *)
Inductive reader_step : reader → reader → Prop :=
| rs_write f i d m w f' r :
    Write f m w = Ok (f', r) →
    f_offset f + Z.of_nat (length (record m)) ≤ MaxInt64 →
    reader_step {| rd_file := f; rd_iter := i; rd_delivered := d |}
                {| rd_file := f'; rd_iter := i; rd_delivered := d |}
| rs_truncate f i d msgs k f' :
    file_log f msgs → (k ≤ length msgs)%nat → f_term f + 1 < 2 ^ 32 →
    Truncate f (boundary msgs k) true = Ok f' →
    reader_step {| rd_file := f; rd_iter := i; rd_delivered := d |}
                {| rd_file := f'; rd_iter := i; rd_delivered := d |}
| rs_next f i d i' o :
    Iterator_Next i f = (i', o) →
    reader_step {| rd_file := f; rd_iter := i; rd_delivered := d |}
                {| rd_file := f; rd_iter := i'; rd_delivered := d ++ deliver o |}
| rs_resume f i d i' o :
    it_pos i = it_end i → it_wait i = true → Next_label i f = (i', o) →
    reader_step {| rd_file := f; rd_iter := i; rd_delivered := d |}
                {| rd_file := f; rd_iter := i'; rd_delivered := d ++ deliver o |}
| rs_close f i d :
    reader_step {| rd_file := f; rd_iter := i; rd_delivered := d |}
                {| rd_file := f; rd_iter := Iterator_Close i; rd_delivered := d |}.

(** As long as the term of the file is that of the iterator, the iterator delivered the
    messages from number [k0] on, without a gap, and stands at the next one. *)
Record reader_inv (k0 : nat) (r : reader) : Prop := {
  ri_log : ∃ msgs, file_log (rd_file r) msgs ∧
    (it_term (rd_iter r) = f_term (rd_file r) →
     let k := (k0 + length (rd_delivered r))%nat in
     rd_delivered r = take (length (rd_delivered r)) (drop k0 msgs) ∧
     ∃ e, iter_at (rd_iter r) msgs k e);
  ri_open : f_opened (rd_file r) = true;
  ri_term : 0 ≤ it_term (rd_iter r) ≤ f_term (rd_file r) ∧ f_term (rd_file r) < 2 ^ 32;
}.

Lemma Write_log f msgs m w f' r :
  file_log f msgs → f_opened f = true → Write f m w = Ok (f', r) →
  f_offset f + Z.of_nat (length (record m)) ≤ MaxInt64 →
  ∃ more, file_log f' (msgs ++ more) ∧ f_opened f' = true ∧ f_term f' = f_term f ∧
    more = match r with None => [m] | Some _ => [] end.
Proof.
  intros Hlog Hopen Hw Hfits.
  destruct (Z.leb_spec (f_maxSize f) (f_offset f)) as [Hfull|Hfull].
  - unfold Write in Hw. destruct (Z.leb_spec (f_maxSize f) (f_offset f)); [|lia]. simplify_eq.
    exists []. rewrite app_nil_r. by split_and!.
  - destruct w as [|n []].
    + destruct (Write_all_log f msgs m) as (f1 & H1 & H2 & H3 & H4 & _); try done; try lia.
      rewrite H1 in Hw. simplify_eq. exists [m]. by split_and!.
    + destruct (Write_some_log f msgs m n) as (f1 & H1 & H2 & H3 & H4 & _); try done; try lia.
      rewrite H1 in Hw. simplify_eq. exists []. rewrite app_nil_r. by split_and!.
    + unfold Write in Hw. destruct (Z.leb_spec (f_maxSize f) (f_offset f)); [lia|].
      by rewrite Hopen in Hw.
Qed.

Lemma iter_at_app i msgs k e more : iter_at i msgs k e → iter_at i (msgs ++ more) k e.
Proof.
  intros [H1 H2 H3 H4 H5]. constructor; rewrite ?boundary_app, ?length_app by lia; try done. lia.
Qed.

Lemma iter_at_Close i msgs k e : iter_at i msgs k e → iter_at (Iterator_Close i) msgs k e.
Proof. intros []. by constructor. Qed.

Lemma empty_section data z : section data z z = [].
Proof. unfold section. by rewrite Z.sub_diag. Qed.

(** [Next] when the reader is at its end. *)
Lemma Next_pass_empty again i f :
  f_opened f = true → it_pos i = it_end i →
  Next_pass again i f =
  if it_wait i then
    match nextWait i f with
    | None => (i, Waits)
    | Some (Ok i) => again i
    | Some (Err e) => fail_with i e
    | Some (Panic _) => (i, Panics)
    end
  else fail_with i EOF.
Proof. intros Hopen Hpos. unfold Next_pass. by rewrite Hopen, Hpos, empty_section. Qed.

(** [Next] at a message delivers it; otherwise it stays where it is. *)
Lemma Next_label_at i f msgs k e i' o :
  file_log f msgs → f_opened f = true → iter_at i msgs k e → it_term i = f_term f →
  Next_label i f = (i', o) →
  it_term i' = it_term i ∧
  ((∃ m e', msgs !! k = Some m ∧ o = Delivered m (boundary msgs k) (boundary msgs (S k)) ∧
      iter_at i' msgs (S k) e') ∨
   (deliver o = [] ∧ ∃ e', iter_at i' msgs k e')).
Proof.
  intros Hlog Hopen Hi Ht Hn. pose proof Hi as [H1 H2 H3 H4 H5]. unfold Next_label in Hn.
  destruct (decide (k < e)%nat) as [Hke|Hke].
  { destruct (lookup_lt_is_Some_2 msgs k ltac:(lia)) as [m Hm].
    rewrite (Next_loop_delivers 1 i f msgs k e m) in Hn by done. simplify_eq.
    split; [done|]. left. exists m, e. split_and!; try done. apply advance_at. lia. }
  assert (e = k) as -> by lia. cbn [Next_loop] in Hn. rewrite Next_pass_empty in Hn by congruence.
  destruct (it_wait i) eqn:Hw.
  2:{ unfold fail_with in Hn. simplify_eq. split; [done|]. right. split; [done|].
      exists k. by apply iter_at_Close. }
  destruct (nextWait i f) as [[i1|err|s]|] eqn:E.
  - unfold nextWait in E. rewrite Ht, Z.eqb_refl, andb_true_r in E. cbn [negb] in E.
    repeat case_if; try done. simplify_eq. bool_to_prop.
    pose proof (f_offset_boundary f msgs Hlog) as Hcur.
    assert (Hk : (k < length msgs)%nat).
    { destruct (decide (k = length msgs)) as [->|]; [congruence|lia]. }
    destruct (lookup_lt_is_Some_2 msgs k Hk) as [m Hm].
    change (Next_pass _ ?j f) with (Next_loop 1 j f) in Hn.
    erewrite (Next_loop_delivers 0 _ f msgs k (length msgs) m) in Hn; [|done|done| |lia|done].
    + simplify_eq. split; [done|]. left. exists m, (length msgs). split_and!; try done; lia.
    + constructor; simpl; rewrite ?Hcur; done || lia.
  - unfold fail_with in Hn. simplify_eq. split; [done|]. right. split; [done|].
    exists k. by apply iter_at_Close.
  - simplify_eq. split; [done|]. right. eauto.
  - simplify_eq. split; [done|]. right. eauto.
Qed.

(** A call that waited fails when the term has changed. *)
Lemma resume_stale i f i' o :
  it_pos i = it_end i → it_wait i = true → it_term i ≠ f_term f → f_opened f = true →
  Next_label i f = (i', o) → it_term i' = it_term i ∧ deliver o = [].
Proof.
  intros Hpos Hw Ht Hopen Hn. unfold Next_label in Hn. cbn [Next_loop] in Hn.
  rewrite Next_pass_empty, Hw in Hn by done. unfold nextWait in Hn. apply not_eq_sym, Z.eqb_neq in Ht. rewrite Ht, andb_false_r in Hn.
  case_if; cbn in Hn; unfold fail_with in Hn; by simplify_eq.
Qed.

Lemma reader_next k0 f i d i' o :
  reader_inv k0 {| rd_file := f; rd_iter := i; rd_delivered := d |} →
  it_term i = f_term f → Next_label i f = (i', o) →
  reader_inv k0 {| rd_file := f; rd_iter := i'; rd_delivered := d ++ deliver o |}.
Proof.
  intros [(msgs & Hlog & Hat) Hopen Hterm] Ht Hn. simpl in *.
  destruct (Hat Ht) as (Hd & e & Hi).
  destruct (Next_label_at i f msgs _ e i' o Hlog Hopen Hi Ht Hn) as (Ht' & Hcase).
  constructor; simpl; [|done|by rewrite Ht']. exists msgs. split; [done|]. intros _.
  destruct Hcase as [(m & e' & Hm & -> & Hi')|(-> & e' & Hi')].
  - simpl. rewrite length_app. cbn [length]. rewrite (Nat.add_1_r (length d)), Nat.add_succ_r. split; [|eauto].
    rewrite (take_S_r _ _ m); [by rewrite <- Hd|]. by rewrite lookup_drop.
  - rewrite app_nil_r. eauto.
Qed.

Lemma reader_step_inv k0 r r' : reader_inv k0 r → reader_step r r' → reader_inv k0 r'.
Proof.
  intros Hinv Hstep. destruct Hstep as [f i d m w f' r Hw Hfits|f i d msgs' k f' Hlog' Hk Hlt Htr
    |f i d i' o Hn|f i d i' o Hpos Hwait Hn|f i d].
  - destruct Hinv as [(msgs & Hlog & Hat) Hopen Hterm]. simpl in *.
    destruct (Write_log f msgs m w f' r) as (more & H1 & H2 & H3 & _); try done.
    constructor; simpl; [|done|by rewrite H3]. exists (msgs ++ more). split; [done|].
    rewrite H3. intros Ht. destruct (Hat Ht) as (Hd & e & Hi). split.
    + pose proof (at_range _ _ _ _ Hi). rewrite drop_app_le by lia.
      rewrite take_app_le by (rewrite length_drop; lia). done.
    + exists e. by apply iter_at_app.
  - destruct Hinv as [_ Hopen Hterm]. simpl in *.
    destruct (Truncate_log f msgs' k) as (f1 & H1 & H2 & H3 & H4 & _); try done.
    rewrite H1 in Htr. simplify_eq. unfold u32, wrap in H4. rewrite Z.mod_small in H4 by lia.
    constructor; simpl; [|done|lia]. exists (take k msgs'). split; [done|]. lia.
  - unfold Iterator_Next in Hn. case_if; [simplify_eq; simpl; by rewrite app_nil_r|].
    destruct (f_term f =? it_term i) eqn:Et; cbn [negb] in Hn.
    + bool_to_prop. by apply (reader_next k0 f i d i' o).
    + simplify_eq. simpl. by rewrite app_nil_r.
  - destruct (decide (it_term i = f_term f)) as [Ht|Ht]; [by apply (reader_next k0 f i d i' o)|].
    destruct Hinv as [(msgs & Hlog & Hat) Hopen Hterm]. simpl in *.
    destruct (resume_stale i f i' o) as [Ht' ->]; try done.
    constructor; simpl; [|done|by rewrite Ht']. exists msgs. split; [done|]. congruence.
  - destruct Hinv as [(msgs & Hlog & Hat) Hopen Hterm]. simpl in *.
    constructor; simpl; [|done|done]. exists msgs. split; [done|]. intros Ht.
    destruct (Hat Ht) as (Hd & e & Hi). split; [done|]. exists e. by apply iter_at_Close.
Qed.

(** ** Properties *)

(** Recovery after a torn write (C14): opening a file that holds a version byte, complete records
    and a cut-off record succeeds when the cut is after the length of that record or
    there is nothing of it, and then yields exactly the complete messages, with the torn
    bytes removed from the file; the scan needs one iteration per
    record and one more.  When the cut is inside the length, [Open] fails with the
    message size error. *)
Theorem Open_recovers os msgs m j maxSize fuel :
  (∀ c, os c = true) →
  Z.of_nat (length (torn msgs m j)) + Z.of_nat (length (record m)) ≤ MaxInt64 →
  (j < length (record m))%nat → (length msgs + 2 ≤ fuel)%nat →
  let n := length (PutUvarint (Z.of_nat (length m))) in
  (j = 0%nat ∨ (n ≤ j)%nat →
   ∃ f, Open os fuel (torn msgs m j) maxSize = Some (Ok f) ∧ opened_log f msgs maxSize) ∧
  ((0 < j < n)%nat →
   Open os fuel (torn msgs m j) maxSize = Some (Err ErrWrongMessageSize)).
Proof.
  intros Hos Hsize Hj Hfuel n.
  replace fuel with (length msgs + S (S (fuel - length msgs - 2)))%nat by lia.
  pose proof (Open_scan os (length msgs + S (S (fuel - length msgs - 2)))
    (body msgs ++ take j (record m)) maxSize Hos) as Hopen.
  change (version :: body msgs ++ take j (record m)) with (torn msgs m j) in Hopen.
  rewrite Hopen. split; intros Hcase.
  - rewrite torn_scan_ok by done. eexists. split; [done|]. unfold opened_log. split_and!; try done.
    constructor; simpl; [done|lia|]. unfold torn in Hsize. cbn [length] in Hsize.
    rewrite length_app in Hsize. lia.
  - by rewrite torn_scan_err.
Qed.

Lemma Open_recovers_witness :
  ∃ f, Open (λ _, true) 3 [1; 2; 7; 8; 3; 9] 100 = Some (Ok f) ∧ opened_log f [[7; 8]] 100.
Proof.
  apply (Open_recovers (λ _, true) [[7; 8]] [9; 9; 9] 2 100 3);
    [done|vm_compute; discriminate|vm_compute; lia|done|right; vm_compute; lia].
Defined.

(** What is written is read back, now and after a restart: on an open segment with
    room for the messages, writing them succeeds and appends exactly them to
    the log; a reader that starts at the old end of the file gets exactly those messages, in order, each with
    the offsets at which it starts and ends, and then the end of file; and opening the
    bytes again gives the same log. *)
Theorem write_read_roundtrip os f msgs ms :
  (∀ c, os c = true) → file_log f msgs → f_opened f = true →
  f_offset f + Z.of_nat (length (body ms)) ≤ f_maxSize f < MaxInt64 →
  ∃ f', write_all f ms = Some f' ∧ file_log f' (msgs ++ ms) ∧
    (∃ i, ReadAt f' (f_offset f) false = Ok i ∧
       drain (S (length ms)) i f' = (indexed (msgs ++ ms) (length msgs), Failed EOF)) ∧
    (∃ f'', Open os (length (msgs ++ ms) + 2) (f_data f') (f_maxSize f) = Some (Ok f'') ∧
       f_data f'' = f_data f' ∧ file_log f'' (msgs ++ ms)).
Proof.
  intros Hos Hlog Hopen Hfits.
  destruct (write_all_log ms f msgs) as (f' & H1 & H2 & H3 & H4 & H5); [done|done|lia|].
  exists f'. split; [done|]. split; [done|]. split.
  - destruct (ReadAt_boundary f' (msgs ++ ms) (length msgs) false) as (i & Hr & Hi & Hc & Ht & Hw);
      [done|rewrite length_app; lia|].
    rewrite (f_offset_boundary f msgs Hlog), <- (boundary_app msgs (length msgs) ms) by done.
    exists i. split; [done|]. apply drain_log; try done. rewrite length_app. lia.
  - apply Open_log; try done. rewrite (f_offset_boundary f' _ H2), boundary_all by done.
    rewrite (f_offset_boundary f msgs Hlog), boundary_all in Hfits by done.
    rewrite body_app, length_app. lia.
Qed.

Definition demo_file : File :=
  {| f_data := [1; 2; 7; 8]; f_opened := true; f_maxSize := 100; f_offset := 4; f_term := 1 |}.

Lemma demo_file_log : file_log demo_file [[7; 8]].
Proof. constructor; [reflexivity|reflexivity|vm_compute; discriminate]. Qed.

Lemma write_read_roundtrip_witness :
  ∃ f', write_all demo_file [[5]; []] = Some f' ∧ file_log f' [[7; 8]; [5]; []] ∧
    ∃ i, ReadAt f' 4 false = Ok i ∧ drain 3 i f' = ([([5], 4, 6); ([], 6, 7)], Failed EOF).
Proof.
  destruct (write_read_roundtrip (λ _, true) demo_file [[7; 8]] [[5]; []])
    as (f' & H1 & H2 & H3 & _); [done|exact demo_file_log|done|by vm_compute|].
  exists f'. split; [exact H1|]. split; [exact H2|exact H3].
Defined.

(** A write happens completely or not at all (C32): on an open segment a call of [Write] that
    does not panic appends the message to the log if it returns no error; with an
    error (a full segment, or a write that stopped after any number of bytes and was undone) the log is as
    before.  The error is [ErrFull] exactly when the size limit is reached. *)
Theorem Write_atomic f msgs m w f' r :
  file_log f msgs → f_opened f = true →
  f_offset f + Z.of_nat (length (record m)) ≤ MaxInt64 →
  Write f m w = Ok (f', r) →
  file_log f' (match r with None => msgs ++ [m] | Some _ => msgs end) ∧
  (r = Some ErrFull ↔ IsFull f = true) ∧ (r = None ↔ IsFull f = false ∧ w = WroteAll).
Proof.
  intros Hlog Hopen Hfits Hw.
  destruct (Write_log f msgs m w f' r) as (more & H1 & _ & _ & Hmore); try done.
  split; [destruct r; subst more; by rewrite ?app_nil_r in H1|].
  unfold IsFull, Write in *. rewrite Hopen in Hw.
  destruct (f_maxSize f <=? f_offset f); [simplify_eq; naive_solver|].
  destruct w as [|n []]; simpl in Hw; simplify_eq; naive_solver.
Qed.

Lemma Write_atomic_witness :
  ∃ f', Write demo_file [5] (WroteSome 1 true) = Ok (f', Some ErrWrite) ∧ file_log f' [[7; 8]].
Proof.
  eexists. split; [reflexivity|].
  apply (Write_atomic demo_file [[7; 8]] [5] (WroteSome 1 true) _ (Some ErrWrite));
    [exact demo_file_log|reflexivity|vm_compute; discriminate|reflexivity].
Defined.

(** Truncating to the end of a message keeps exactly the messages before it and ends every
    iterator: the log becomes the first [k] messages, the term advances, and an iterator of the
    old term fails, with [ErrIteratorInvalid] unless it was closed. *)
Theorem Truncate_prefix f msgs k i :
  file_log f msgs → f_opened f = true → (k ≤ length msgs)%nat →
  0 ≤ f_term f → f_term f + 1 < 2 ^ 32 → it_term i = f_term f →
  ∃ f', Truncate f (boundary msgs k) true = Ok f' ∧ file_log f' (take k msgs) ∧
    f_term f' = f_term f + 1 ∧
    (Iterator_Next i f').2 = Failed (if it_closed i then ErrIteratorClosed else ErrIteratorInvalid).
Proof.
  intros Hlog Hopen Hk Hpos Hterm Hi.
  destruct (Truncate_log f msgs k) as (f' & H1 & H2 & H3 & H4 & _); try done.
  assert (Ht : f_term f' = f_term f + 1).
  { rewrite H4. apply Z.mod_small. lia. }
  exists f'. split_and!; try done. unfold Iterator_Next. destruct (it_closed i); [done|].
  destruct (Z.eqb_spec (f_term f') (it_term i)); [lia|done].
Qed.

Lemma Truncate_prefix_witness :
  ∃ f', Truncate demo_file 1 true = Ok f' ∧ file_log f' [].
Proof.
  destruct (Truncate_prefix demo_file [[7; 8]] 0
    {| it_term := 1; it_offset := 1; it_endOffset := 4; it_wait := false; it_pos := 1; it_end := 4;
       it_closed := false |}) as (f' & H1 & H2 & _);
    [exact demo_file_log|reflexivity|vm_compute; lia|done|done|reflexivity|].
  exists f'. split; [exact H1|exact H2].
Defined.

(** A reader sees every message once and in order: start an iterator at message [k0] of a
    segment and let writers (whose writes succeed or fail), truncations, [Next], calls of [Next] that
    waited, and [Close] run in any order.  As long as no truncation
    happened, the messages the iterator delivered are exactly the messages of
    the log from [k0] on, without gap or repetition, and the offset it commits is that of the next message. *)
Theorem iterator_exact f0 msgs0 k0 wait i0 r :
  file_log f0 msgs0 → f_opened f0 = true → (k0 ≤ length msgs0)%nat →
  0 ≤ f_term f0 < 2 ^ 32 → ReadAt f0 (boundary msgs0 k0) wait = Ok i0 →
  rtc reader_step {| rd_file := f0; rd_iter := i0; rd_delivered := [] |} r →
  ∃ msgs, file_log (rd_file r) msgs ∧
    (it_term (rd_iter r) = f_term (rd_file r) →
     let n := length (rd_delivered r) in
     rd_delivered r = take n (drop k0 msgs) ∧
     it_offset (rd_iter r) = boundary msgs (k0 + n) ∧ (k0 + n ≤ length msgs)%nat).
Proof.
  intros Hlog Hopen Hk Ht Hr Hrtc.
  destruct (ReadAt_boundary f0 msgs0 k0 wait Hlog Hk) as (i & Hr' & Hi & Hc & Hti & Hw).
  rewrite Hr' in Hr. simplify_eq.
  assert (Hinv : reader_inv k0 r).
  { revert Hrtc. apply (rtc_ind_r (reader_inv k0)).
    - constructor; simpl; [|done|lia]. exists msgs0. split; [done|]. intros _.
      rewrite Nat.add_0_r. eauto.
    - intros r1 r2 _ Hstep IH. by eapply reader_step_inv. }
  destruct Hinv as [(msgs & H1 & H2) _ _]. exists msgs. split; [done|]. intros Hterm n.
  destruct (H2 Hterm) as (Hd & e & Hat). split; [done|].
  split; [apply Hat|]. pose proof (at_range _ _ _ _ Hat). unfold n. lia.
Qed.

Lemma iterator_exact_witness :
  ∃ i, ReadAt demo_file 1 true = Ok i ∧
  ∃ r msgs, rd_delivered r = [[7; 8]] ∧ file_log (rd_file r) msgs ∧
    rd_delivered r = take 1 (drop 0 msgs).
Proof.
  eexists. split; [reflexivity|].
  eexists {| rd_delivered := [[7; 8]] |}.
  edestruct (iterator_exact demo_file [[7; 8]] 0 true) as (msgs & H1 & H2);
    [exact demo_file_log|reflexivity|vm_compute; lia|done|reflexivity| |].
  { eapply rtc_l; [eapply (rs_next demo_file); reflexivity|]. apply rtc_refl. }
  exists msgs. split; [reflexivity|]. split; [exact H1|]. by apply H2.
Defined.

(** ** A file on which [Open] does not return

    A length near 2^64 makes the increment of the scan zero. *)

Definition endless : list Z := version :: PutUvarint (2 ^ 64 - 10).

Lemma Open_endless fuel maxSize : Open (λ _, true) fuel endless maxSize = None.
Proof.
  assert (Hscan : scan (λ _, true) fuel endless 11 1 10 = None).
  { induction fuel as [|fuel IH]; [done|]. exact IH. }
  unfold endless. rewrite Open_scan by done. fold endless.
  change (Z.of_nat (length endless)) with 11. change MaxVarintLen64 with 10. by rewrite Hscan.
Qed.
