(* ===== verification/SegmentsDir.v ===== *)
(** * The pool of segment files

    Models src/mq/segments/dir.go.  The pool maps segment identifiers to shared [*File] values: a
    location stands for the pointer a client holds.  The contents of a file are the
    subject of Segments.v; here a file is its descriptor, reference count and
    idle time, and the directory is the set of identifiers whose path exists.  Each
    operation runs under the lock of one bucket, so it is a step. *)
From Stdlib Require Import Ascii.
From S2P Require Import Prelude Util.

(** ** Data *)

Definition dirBuckets : Z := 64.
Definition fileExt : string := ".seg".

Inductive dir_error : Type :=
| ErrInvalidID
| ErrInUse
| ErrNotBelongs
| ErrIdleTimeout
| ErrMkdir
| ErrCreate
| ErrFileClose
| ErrRemove
| ErrWalk.

(** The fields of [File] that belong to the pool, and whether the descriptor is open. *)
Record PoolFile : Type := {
  pf_id : Z;
  pf_rc : Z;
  pf_idle : option Z; (* [None] is the zero time *)
  pf_open : bool;
}.

#[export] Instance PoolFile_inhabited : Inhabited PoolFile :=
  populate {| pf_id := 0; pf_rc := 0; pf_idle := None; pf_open := false |}.

Record Dir : Type := {
  d_idleTimeout : Z;
  d_fileMaps : list (gmap Z nat);
  d_files : gmap nat PoolFile; (* the [File] values, by location *)
  d_next : nat;
  d_disk : gset Z; (* identifiers whose path exists *)
}.

Record FileInfo : Type := {
  info_ID : Z;
  info_Path : string;
  info_ReferenceCount : Z;
}.

Definition bucket_of (id : Z) : nat := Z.to_nat (id mod dirBuckets).

Definition file_map (d : Dir) (b : nat) : gmap Z nat := d_fileMaps d !!! b.

Definition with_maps (d : Dir) (maps : list (gmap Z nat)) (files : gmap nat PoolFile) : Dir :=
  {| d_idleTimeout := d_idleTimeout d; d_fileMaps := maps; d_files := files;
     d_next := d_next d; d_disk := d_disk d |}.

Definition with_disk (d : Dir) (disk : gset Z) : Dir :=
  {| d_idleTimeout := d_idleTimeout d; d_fileMaps := d_fileMaps d; d_files := d_files d;
     d_next := d_next d; d_disk := disk |}.

Definition set_file (d : Dir) (l : nat) (f : PoolFile) : Dir :=
  with_maps d (d_fileMaps d) (<[l := f]> (d_files d)).

(** ** Paths *)

(** The name of the file of a segment. *)
Definition segment_name (id : Z) : string := pad16 (FormatUint16 id).

(** The path below a clean directory name. *)
Definition getPath (dirName : string) (id : Z) : string :=
  let name := segment_name id in
  dirName +:+ "/" +:+ String.substring 14 2 name +:+ "/" +:+ name +:+ fileExt.

(** ** Operations *)

Definition NewDir (idleTimeout : Z) (mkdir : bool) (disk : gset Z) : result dir_error Dir :=
  if idleTimeout <? 0 then Err ErrIdleTimeout
  else if negb mkdir then Err ErrMkdir
  else Ok {| d_idleTimeout := idleTimeout; d_fileMaps := replicate (Z.to_nat dirBuckets) ∅;
             d_files := ∅; d_next := 0; d_disk := disk |}.

(** [closeFile]: [File.Close] closes the descriptor. *)
Definition closeFile (d : Dir) (bucket : nat) (l : nat) (f : PoolFile) : Dir :=
  with_maps d (<[bucket := delete (pf_id f) (file_map d bucket)]> (d_fileMaps d))
    (<[l := {| pf_id := pf_id f; pf_rc := pf_rc f; pf_idle := pf_idle f; pf_open := false |}]>
       (d_files d)).

(** [Open]; [mkdir] and [opened] are the outcomes of the system call and of the [Open] of
    file.go, which creates the file. *)
Definition Dir_Open (d : Dir) (id : Z) (mkdir opened : bool) : result dir_error (Dir * nat) :=
  if id =? 0 then Err ErrInvalidID
  else
    let bucket := bucket_of id in
    match file_map d bucket !! id with
    | Some l =>
      let f := d_files d !!! l in
      Ok (set_file d l {| pf_id := pf_id f; pf_rc := pf_rc f + 1; pf_idle := None;
                          pf_open := pf_open f |}, l)
    | None =>
      if negb mkdir then Err ErrMkdir
      else if negb opened then Err ErrCreate
      else
        let l := d_next d in
        Ok ({| d_idleTimeout := d_idleTimeout d;
               d_fileMaps := <[bucket := <[id := l]> (file_map d bucket)]> (d_fileMaps d);
               d_files := <[l := {| pf_id := id; pf_rc := 1; pf_idle := None; pf_open := true |}]>
                            (d_files d);
               d_next := S l;
               d_disk := {[id]} ∪ d_disk d |}, l)
    end.

Definition Exists (d : Dir) (id : Z) : bool :=
  if id =? 0 then false
  else match file_map d (bucket_of id) !! id with
       | Some _ => true
       | None => bool_decide (id ∈ d_disk d)
       end.

Definition Release (d : Dir) (l : nat) (now : Z) : result dir_error Dir :=
  let f := d_files d !!! l in
  if pf_id f =? 0 then Err ErrInvalidID
  else
    let bucket := bucket_of (pf_id f) in
    match file_map d bucket !! pf_id f with
    | None => Err ErrNotBelongs
    | Some _ =>
      let f := {| pf_id := pf_id f; pf_rc := pf_rc f - 1; pf_idle := pf_idle f;
                  pf_open := pf_open f |} in
      if 0 <? pf_rc f then Ok (set_file d l f)
      else if 0 <? d_idleTimeout d then
        Ok (set_file d l {| pf_id := pf_id f; pf_rc := pf_rc f; pf_idle := Some now;
                            pf_open := pf_open f |})
      else Ok (closeFile (set_file d l f) bucket l f)
    end.

(** [List]; [walk] is the identifiers in the order the directory is walked. *)
Definition Dir_List (d : Dir) (dirName : string) (walk : list Z) : list FileInfo :=
  (λ id, {| info_ID := id; info_Path := getPath dirName id;
            info_ReferenceCount :=
              match file_map d (bucket_of id) !! id with
              | Some l => pf_rc (d_files d !!! l)
              | None => -1
              end |}) <$> walk.

(** [Remove]; [closed] and [removed] are the outcomes of closing the descriptor and of
    removing the path. *)
Definition Remove (d : Dir) (id : Z) (closed removed : bool) : Dir * option dir_error :=
  if id =? 0 then (d, Some ErrInvalidID)
  else
    let bucket := bucket_of id in
    let unlink d :=
      if removed && bool_decide (id ∈ d_disk d) then (with_disk d (d_disk d ∖ {[id]}), None)
      else (d, Some ErrRemove) in
    match file_map d bucket !! id with
    | Some l =>
      let f := d_files d !!! l in
      if 0 <? pf_rc f then (d, Some ErrInUse)
      else
        let d := closeFile d bucket l f in
        if closed then unlink d else (d, Some ErrFileClose)
    | None => unlink d
    end.

(** The file was released before [t]. *)
Definition idle_before (d : Dir) (t : Z) (l : nat) : bool :=
  match pf_idle (d_files d !!! l) with Some i => i <? t | None => false end.

Definition close_in (bucket : nat) (d : Dir) (l : nat) : Dir :=
  closeFile d bucket l (d_files d !!! l).

(** What [closeIdle] does on a tick for one bucket. *)
Definition closeIdle_bucket (d : Dir) (bucket : nat) (now : Z) : Dir :=
  let t := now - d_idleTimeout d in
  let filesToClose := List.filter (idle_before d t) (map_to_list (file_map d bucket)).*2 in
  foldl (close_in bucket) d filesToClose.

(** [Close] for one bucket. *)
Definition Close_bucket (d : Dir) (bucket : nat) : Dir :=
  foldl (close_in bucket) d (map_to_list (file_map d bucket)).*2.

Definition Dir_Close (d : Dir) : Dir := foldl Close_bucket d (seq 0 (Z.to_nat dirBuckets)).

(** ** Invariant *)

(** References that clients hold, by location. *)
Abbreviation held := (gmap nat nat).

Definition holds (h : held) (l : nat) : nat := default 0%nat (h !! l).

Inductive pool_step : Dir * held → Dir * held → Prop :=
| ps_open d h id mkdir opened d' l :
    Dir_Open d id mkdir opened = Ok (d', l) → pool_step (d, h) (d', <[l := S (holds h l)]> h)
| ps_release d h l n now d' :
    h !! l = Some (S n) → Release d l now = Ok d' → pool_step (d, h) (d', <[l := n]> h)
| ps_remove d h id closed removed d' e :
    Remove d id closed removed = (d', e) → pool_step (d, h) (d', h)
| ps_idle d h bucket now :
    (bucket < 64)%nat → pool_step (d, h) (closeIdle_bucket d bucket now, h).

(** An entry of the pool. *)
Record entry_ok (d : Dir) (h : held) (bucket : nat) (id : Z) (l : nat) : Prop := {
  eo_bucket : bucket = bucket_of id;
  eo_id : id ≠ 0;
  eo_disk : id ∈ d_disk d;
  eo_file : ∃ f, d_files d !! l = Some f ∧ pf_id f = id ∧ pf_open f = true ∧
    pf_rc f = Z.of_nat (holds h l) ∧ (pf_idle f ≠ None → holds h l = 0%nat);
}.

Record pool_inv (s : Dir * held) : Prop := {
  pi_buckets : length (d_fileMaps s.1) = 64%nat;
  pi_entries : ∀ bucket id l, file_map s.1 bucket !! id = Some l → entry_ok s.1 s.2 bucket id l;
  pi_held : ∀ l n, s.2 !! l = Some (S n) →
    ∃ id, file_map s.1 (bucket_of id) !! id = Some l;
  pi_next : ∀ l, is_Some (d_files s.1 !! l) ∨ is_Some (s.2 !! l) → (l < d_next s.1)%nat;
}.

Lemma bucket_lt id : (bucket_of id < 64)%nat.
Proof. unfold bucket_of, dirBuckets. pose proof (Z.mod_pos_bound id 64). lia. Qed.

Lemma file_map_insert d maps files bucket m b :
  length (d_fileMaps d) = 64%nat → (bucket < 64)%nat → maps = <[bucket := m]> (d_fileMaps d) →
  file_map (with_maps d maps files) b = if decide (b = bucket) then m else file_map d b.
Proof.
  intros Hlen Hb ->. unfold file_map. simpl. case_decide as Hcase.
  - subst b. apply list_lookup_total_insert_eq. lia.
  - by apply list_lookup_total_insert_ne.
Qed.

(** Two entries with the same file are the same. *)
Lemma entry_inj d h b b' id id' l :
  entry_ok d h b id l → entry_ok d h b' id' l → id = id' ∧ b = b'.
Proof.
  intros [H1 _ _ (f & Hf & Hid & _)] [H1' _ _ (f' & Hf' & Hid' & _)].
  assert (id = id') as -> by congruence. by rewrite H1, H1'.
Qed.

Lemma closeFile_inv d h id l f :
  pool_inv (d, h) → file_map d (bucket_of id) !! id = Some l → d_files d !! l = Some f →
  holds h l = 0%nat → pool_inv (closeFile d (bucket_of id) l f, h).
Proof.
  intros [H1 H2 H3 H4] Hm Hf Hh. simpl in *. pose proof (bucket_lt id) as Hb.
  destruct (H2 _ _ _ Hm) as [_ _ _ (f1 & Hf1 & Hid & _)]. simplify_eq.
  assert (Hmap : ∀ b, file_map (closeFile d (bucket_of (pf_id f)) l f) b =
    if decide (b = bucket_of (pf_id f)) then delete (pf_id f) (file_map d b) else file_map d b).
  { intros b. unfold closeFile. erewrite (file_map_insert d); [|done|exact Hb|done].
    case_decide; by subst. }
  assert (Hsub : ∀ b id' l', file_map (closeFile d (bucket_of (pf_id f)) l f) b !! id' = Some l' →
    file_map d b !! id' = Some l' ∧ l' ≠ l).
  { intros b id' l'. rewrite Hmap. intros Hl'.
    assert (Hl : file_map d b !! id' = Some l').
    { case_decide; [|done]. by apply lookup_delete_Some in Hl' as [_ ?]. }
    split; [done|]. intros ->.
    destruct (entry_inj _ _ _ _ _ _ _ (H2 _ _ _ Hl) (H2 _ _ _ Hm)) as [-> ->].
    rewrite decide_True, lookup_delete_eq in Hl' by done. done. }
  constructor; simpl.
  - by rewrite length_insert.
  - intros b id' l' [Hl' Hne]%Hsub. destruct (H2 _ _ _ Hl') as [H5 H6 H7 (f' & Hf' & H8)].
    constructor; simpl; try done. exists f'. by rewrite lookup_insert_ne.
  - intros l' n Hl'. destruct (H3 l' n Hl') as [id' Hid']. exists id'. rewrite Hmap.
    case_decide as Hcase; [|done]. rewrite lookup_delete_ne; [done|]. intros <-.
    simplify_eq. unfold holds in Hh. by rewrite Hl' in Hh.
  - intros l' [Hl'|Hl']; [|by apply H4; right]. apply H4. left.
    destruct (decide (l' = l)) as [->|]; [done|]. by rewrite lookup_insert_ne in Hl'.
Qed.

Lemma set_file_inv d h l f f' n :
  pool_inv (d, h) → d_files d !! l = Some f → pf_id f' = pf_id f → pf_open f' = pf_open f →
  pf_rc f' = Z.of_nat n → (pf_idle f' ≠ None → n = 0%nat) →
  file_map d (bucket_of (pf_id f)) !! pf_id f = Some l →
  pool_inv (set_file d l f', <[l := n]> h).
Proof.
  intros [H1 H2 H3 H4] Hf Hid Hopen Hrc Hidle Hm. simpl in *. constructor; simpl.
  - done.
  - intros b id' l' Hl'. destruct (H2 b id' l' Hl') as [H5 H6 H7 (f1 & Hf1 & H8 & H9 & H10 & H11)].
    constructor; simpl; try done. unfold holds. destruct (decide (l' = l)) as [->|Hne].
    + exists f'. rewrite !lookup_insert_eq. simplify_eq. by rewrite Hid, Hopen.
    + exists f1. by rewrite !lookup_insert_ne.
  - intros l' n' Hl'. destruct (decide (l' = l)) as [->|Hne]; [eauto|].
    rewrite lookup_insert_ne in Hl' by done. eauto.
  - intros l' Hl'. destruct (decide (l' = l)) as [->|Hne]; [apply H4; left; eauto|].
    rewrite !lookup_insert_ne in Hl' by done. auto.
Qed.

Lemma lookup_total_file d h b id l :
  pool_inv (d, h) → file_map d b !! id = Some l →
  ∃ f, d_files d !! l = Some f ∧ d_files d !!! l = f ∧ pf_id f = id ∧ b = bucket_of id ∧
    pf_open f = true ∧ pf_rc f = Z.of_nat (holds h l) ∧
    (pf_idle f ≠ None → holds h l = 0%nat).
Proof.
  intros Hinv Hm. destruct (pi_entries _ Hinv _ _ _ Hm) as [H1 _ _ (f & Hf & H2)].
  exists f. split; [done|]. split; [by apply lookup_total_correct|]. naive_solver.
Qed.

Lemma Dir_Open_inv d h id mkdir opened d' l :
  pool_inv (d, h) → Dir_Open d id mkdir opened = Ok (d', l) →
  pool_inv (d', <[l := S (holds h l)]> h).
Proof.
  intros Hinv. unfold Dir_Open. destruct (Z.eqb_spec id 0) as [|Hid]; [done|].
  destruct (file_map d (bucket_of id) !! id) as [l0|] eqn:Hm.
  - destruct (lookup_total_file _ _ _ _ _ Hinv Hm) as (f & Hf & Hf' & Hfid & _ & Ho & Hrc & _).
    rewrite Hf'. intros ?; simplify_eq. eapply set_file_inv; [done|done|done|done| |done|done].
    simpl. lia.
  - destruct mkdir, opened; try done. cbn [negb]. intros ?; simplify_eq.
    destruct Hinv as [H1 H2 H3 H4]. simpl in *. pose proof (bucket_lt id) as Hb.
    set (d' := Build_Dir _ _ _ _ _).
    assert (Hmap : ∀ b, file_map d' b =
      if decide (b = bucket_of id) then <[id := d_next d]> (file_map d (bucket_of id))
      else file_map d b).
    { intros b. unfold file_map, d'. simpl. case_decide as Hcase.
      - subst b. apply list_lookup_total_insert_eq. lia.
      - by apply list_lookup_total_insert_ne. }
    assert (Hnew : holds h (d_next d) = 0%nat).
    { unfold holds. destruct (h !! d_next d) eqn:E; [|done].
      specialize (H4 (d_next d) ltac:(right; eauto)). lia. }
    assert (Hold : ∀ b id' l', file_map d b !! id' = Some l' → entry_ok d' (<[d_next d := 1%nat]> h) b id' l').
    { intros b id' l' Hl'. destruct (H2 _ _ _ Hl') as [H5 H6 H7 (f & Hf & H8)].
      assert (Hne : d_next d ≠ l') by (specialize (H4 l' ltac:(left; eauto)); lia).
      constructor; [done|done|simpl; set_solver|]. exists f. unfold holds. simpl.
      by rewrite !lookup_insert_ne by done. }
    rewrite Hnew. constructor; simpl.
    + by rewrite length_insert.
    + intros b id' l'. rewrite Hmap. case_decide as Hcase; [|by apply Hold]. subst b.
      destruct (decide (id' = id)) as [->|Hne]; [|rewrite lookup_insert_ne by done; by apply Hold].
      rewrite lookup_insert_eq. intros ?; simplify_eq. constructor; [done|done|simpl; set_solver|].
      eexists. unfold holds. simpl. rewrite !lookup_insert_eq. by split_and!.
    + intros l' n. destruct (decide (l' = d_next d)) as [->|Hne].
      * intros _. exists id. by rewrite Hmap, decide_True, lookup_insert_eq.
      * rewrite lookup_insert_ne by done. intros [id' Hid']%H3. exists id'. rewrite Hmap.
        case_decide as Hcase; [|done]. rewrite lookup_insert_ne; [by rewrite <- Hcase|]. congruence.
    + intros l'. destruct (decide (l' = d_next d)) as [->|Hne]; [lia|].
      rewrite !lookup_insert_ne by done. intros Hl'%H4. lia.
Qed.

Lemma Release_inv d h l n now d' :
  pool_inv (d, h) → h !! l = Some (S n) → Release d l now = Ok d' →
  pool_inv (d', <[l := n]> h).
Proof.
  intros Hinv Hh. destruct (pi_held _ Hinv l n Hh) as [id Hm]. simpl in Hm.
  destruct (lookup_total_file _ _ _ _ _ Hinv Hm) as (f & Hf & Hf' & Hfid & _ & Ho & Hrc & Hidle).
  unfold holds in Hrc, Hidle. rewrite Hh in Hrc, Hidle. simpl in Hrc, Hidle.
  unfold Release. rewrite Hf'. destruct (Z.eqb_spec (pf_id f) 0); [done|].
  rewrite <- Hfid in Hm. clear Hf'. rewrite Hm. cbv zeta. cbn [pf_rc pf_id pf_idle pf_open].
  destruct (Z.ltb_spec 0 (pf_rc f - 1)) as [Hpos|Hzero].
  - intros ?; simplify_eq. eapply set_file_inv; [done|done|done|done| | |done].
    + simpl. lia.
    + simpl. intros Hi. by specialize (Hidle Hi).
  - assert (n = 0%nat) as -> by lia. destruct (Z.ltb_spec 0 (d_idleTimeout d)).
    + intros ?; simplify_eq. eapply set_file_inv; [done|done|done|done| |done|done]. simpl. lia.
    + intros ?; simplify_eq.
      eapply (closeFile_inv (set_file d l _) _ (pf_id f)).
      * eapply set_file_inv; [done|done|done|done| |done|done]. simpl. lia.
      * done.
      * simpl. apply lookup_insert_eq.
      * unfold holds. by rewrite lookup_insert_eq.
Qed.

Lemma with_disk_inv d h id :
  pool_inv (d, h) → file_map d (bucket_of id) !! id = None →
  pool_inv (with_disk d (d_disk d ∖ {[id]}), h).
Proof.
  intros [H1 H2 H3 H4] Hm. constructor; try done. simpl in *. intros b id' l Hl.
  destruct (H2 b id' l Hl) as [H5 H6 H7 H8]. constructor; try done. simpl.
  apply elem_of_difference. split; [done|]. rewrite elem_of_singleton. intros ->.
  subst b. change (file_map d (bucket_of id) !! id = Some l) in Hl. congruence.
Qed.

Lemma closeFile_unmapped d id l f :
  length (d_fileMaps d) = 64%nat → pf_id f = id →
  file_map (closeFile d (bucket_of id) l f) (bucket_of id) !! id = None.
Proof.
  intros Hlen <-. unfold closeFile.
  erewrite (file_map_insert d); [|done|apply bucket_lt|done].
  rewrite decide_True by done. apply lookup_delete_eq.
Qed.

Lemma Remove_inv d h id closed removed d' e :
  pool_inv (d, h) → Remove d id closed removed = (d', e) → pool_inv (d', h).
Proof.
  intros Hinv. unfold Remove. destruct (id =? 0); [by intros ?; simplify_eq|].
  destruct (file_map d (bucket_of id) !! id) as [l|] eqn:Hm.
  - destruct (lookup_total_file _ _ _ _ _ Hinv Hm) as (f & Hf & Hf' & Hfid & _ & _ & Hrc & _).
    rewrite Hf'. destruct (Z.ltb_spec 0 (pf_rc f)); [by intros ?; simplify_eq|].
    assert (Hc : pool_inv (closeFile d (bucket_of id) l f, h)).
    { apply closeFile_inv; try done. lia. }
    pose proof (closeFile_unmapped d id l f (pi_buckets _ Hinv) Hfid) as Hu.
    destruct closed; [|by intros ?; simplify_eq].
    destruct removed; cbn [andb]; [|by intros ?; simplify_eq].
    case_bool_decide; intros ?; simplify_eq; [by apply with_disk_inv|done].
  - destruct removed; cbn [andb]; [|by intros ?; simplify_eq].
    case_bool_decide; intros ?; simplify_eq; [by apply with_disk_inv|done].
Qed.

Lemma close_in_fold bucket h ls : ∀ d,
  pool_inv (d, h) → NoDup ls →
  (∀ l, l ∈ ls → (∃ id, file_map d bucket !! id = Some l) ∧ holds h l = 0%nat) →
  pool_inv (foldl (close_in bucket) d ls, h).
Proof.
  induction ls as [|l ls IH]; intros d Hinv Hnd Hls; [done|]. simpl.
  apply NoDup_cons in Hnd as [Hl Hnd]. destruct (Hls l ltac:(left)) as [[id Hm] Hh].
  destruct (lookup_total_file _ _ _ _ _ Hinv Hm) as (f & Hf & Hf' & Hfid & -> & _).
  unfold close_in at 2. rewrite Hf'. apply IH; [by apply closeFile_inv|done|].
  intros l' Hl'. destruct (Hls l' ltac:(by right)) as [[id' Hm'] Hh']. split; [|done].
  exists id'. unfold closeFile.
  erewrite (file_map_insert d); [|exact (pi_buckets _ Hinv)|apply bucket_lt|done].
  rewrite decide_True by done. rewrite lookup_delete_ne; [done|]. intros Heq.
  assert (id' = id) as -> by congruence. assert (l' = l) as -> by congruence. done.
Qed.

Lemma closeIdle_inv d h bucket now :
  pool_inv (d, h) → pool_inv (closeIdle_bucket d bucket now, h).
Proof.
  intros Hinv. unfold closeIdle_bucket. apply close_in_fold; [done| |].
  - eapply sublist_NoDup; [|apply sublist_bfilter].
    apply NoDup_fmap_2_strong; [|apply NoDup_map_to_list].
    intros [id1 l1] [id2 l2] H1%elem_of_map_to_list H2%elem_of_map_to_list Heq. simpl in Heq. subst.
    destruct (entry_inj _ _ _ _ _ _ _ (pi_entries _ Hinv _ _ _ H1) (pi_entries _ Hinv _ _ _ H2))
      as [-> _]. done.
  - intros l [Hidle Hl]%elem_of_bfilter. apply list_elem_of_fmap in Hl as ([id l'] & -> & Hl).
    apply elem_of_map_to_list in Hl. simpl. split; [eauto|].
    destruct (lookup_total_file _ _ _ _ _ Hinv Hl) as (f & Hf & Hf' & _ & _ & _ & _ & Hi).
    unfold idle_before in Hidle. simpl in Hidle. rewrite Hf' in Hidle. apply Hi.
    by destruct (pf_idle f).
Qed.

Lemma pool_step_inv s s' : pool_inv s → pool_step s s' → pool_inv s'.
Proof.
  intros Hinv Hstep. destruct Hstep.
  - by eapply Dir_Open_inv.
  - by eapply Release_inv.
  - by eapply Remove_inv.
  - by apply closeIdle_inv.
Qed.

Lemma NewDir_inv idleTimeout disk d : NewDir idleTimeout true disk = Ok d → pool_inv (d, ∅).
Proof.
  unfold NewDir. case_if; [done|]. cbn [negb]. intros ?; simplify_eq.
  assert (Hmap : ∀ b, (replicate (Z.to_nat dirBuckets) ∅ : list (gmap Z nat)) !!! b = ∅).
  { intros b. destruct (decide (b < 64)%nat).
    - apply list_lookup_total_correct, lookup_replicate_2. done.
    - rewrite list_lookup_total_alt, lookup_ge_None_2; [done|].
      rewrite length_replicate. change (Z.to_nat dirBuckets) with 64%nat. lia. }
  constructor.
  - reflexivity.
  - intros b id l. unfold file_map. cbn [fst d_fileMaps]. rewrite Hmap. by rewrite lookup_empty.
  - intros l n. simpl. by rewrite lookup_empty.
  - intros l. simpl. rewrite !lookup_empty. intros [[? H]|[? H]]; discriminate H.
Qed.

(** ** Properties *)

(** A held segment file stays open and shared: from a new pool, in any order of [Open], [Release]
    by a client that holds the file, [Remove] and idle closing, every file that a client
    holds is open, is the file the pool has for its segment, counts
    exactly the references clients hold, and its path exists; clients of one segment
    hold the same file; a client that holds a file can release it; and [Exists] tells whether the path exists. *)
Theorem pool_safe idleTimeout disk d0 d h :
  NewDir idleTimeout true disk = Ok d0 → rtc pool_step (d0, ∅) (d, h) →
  (∀ l n, h !! l = Some (S n) → ∃ f, d_files d !! l = Some f ∧ pf_open f = true ∧
     pf_rc f = Z.of_nat (S n) ∧ file_map d (bucket_of (pf_id f)) !! pf_id f = Some l ∧
     pf_id f ∈ d_disk d ∧
     (∀ l' n' f', h !! l' = Some (S n') → d_files d !! l' = Some f' → pf_id f' = pf_id f → l' = l) ∧
     (∀ now, ∃ d', Release d l now = Ok d') ∧
     (∀ closed removed, (Remove d (pf_id f) closed removed) = (d, Some ErrInUse))) ∧
  (∀ id, id ≠ 0 → Exists d id = bool_decide (id ∈ d_disk d)).
Proof.
  intros Hnew Hrtc.
  assert (Hinv : pool_inv (d, h)).
  { revert Hrtc. apply (rtc_ind_r pool_inv); [by eapply NewDir_inv|].
    intros s1 s2 _ Hstep IH. by eapply pool_step_inv. }
  assert (Hheld : ∀ l n, h !! l = Some (S n) → ∃ f, d_files d !! l = Some f ∧
    d_files d !!! l = f ∧ pf_open f = true ∧ pf_rc f = Z.of_nat (S n) ∧ pf_id f ≠ 0 ∧
    file_map d (bucket_of (pf_id f)) !! pf_id f = Some l ∧ pf_id f ∈ d_disk d).
  { intros l n Hl. destruct (pi_held _ Hinv l n Hl) as [id Hm]. simpl in Hm.
    destruct (pi_entries _ Hinv _ _ _ Hm) as [_ Hne Hdisk _].
    destruct (lookup_total_file _ _ _ _ _ Hinv Hm) as (f & Hf & Hf' & <- & _ & Ho & Hrc & _).
    unfold holds in Hrc. rewrite Hl in Hrc. exists f. by split_and!. }
  split.
  - intros l n Hl. destruct (Hheld l n Hl) as (f & Hf & Hf' & Ho & Hrc & Hne & Hm & Hdisk).
    exists f. split_and!; try done.
    + intros l' n' f' Hl' Hfl' Heq. destruct (Hheld l' n' Hl') as (f1 & Hf1 & _ & _ & _ & _ & Hm' & _).
      simplify_eq. congruence.
    + intros now. unfold Release. rewrite Hf'. destruct (Z.eqb_spec (pf_id f) 0); [done|].
      rewrite Hm. repeat case_if; eauto.
    + intros closed removed. unfold Remove. destruct (Z.eqb_spec (pf_id f) 0); [done|].
      rewrite Hm, Hf'. destruct (Z.ltb_spec 0 (pf_rc f)); [done|lia].
  - intros id Hid. unfold Exists. destruct (Z.eqb_spec id 0); [done|].
    destruct (file_map d (bucket_of id) !! id) eqn:E; [|done].
    apply (pi_entries _ Hinv) in E as [_ _ Hdisk _]. by rewrite bool_decide_true.
Qed.

Lemma pool_safe_witness :
  ∃ d0 d l, NewDir 10 true ∅ = Ok d0 ∧ Dir_Open d0 7 true true = Ok (d, l) ∧
    ∃ f, d_files d !! l = Some f ∧ pf_open f = true ∧ pf_rc f = 1.
Proof.
  do 3 eexists. split; [reflexivity|]. split; [reflexivity|].
  edestruct (pool_safe 10 ∅) as [Hheld _]; [reflexivity| |].
  { eapply rtc_l; [|apply rtc_refl]. by eapply (ps_open _ _ 7 true true). }
  destruct (Hheld 0%nat 0%nat eq_refl) as (f & H1 & H2 & H3 & _).
  exists f. split; [exact H1|]. split; [exact H2|exact H3].
Defined.

(** Segment files have distinct names from which [List] recovers the identifier: for every
    64-bit identifier, parsing the base name of its path as a hexadecimal number gives the
    identifier back, so two segments never share a file. *)
Theorem segment_name_roundtrip dirName id id' :
  0 ≤ id ≤ MaxUint64 → 0 ≤ id' ≤ MaxUint64 →
  ParseUint16 (segment_name id) = Some id ∧
  (segment_name id = segment_name id' → id = id') ∧
  (∃ prefix, getPath dirName id = prefix +:+ segment_name id +:+ fileExt).
Proof.
  intros Hid Hid'. split_and!.
  - by apply pad16_parse.
  - intros Heq. apply pad16_parse in Hid. apply pad16_parse in Hid'. unfold segment_name in Heq. congruence.
  - unfold getPath. exists (dirName +:+ "/" +:+ String.substring 14 2 (segment_name id) +:+ "/").
    by rewrite !string_app_assoc.
Qed.

Lemma segment_name_roundtrip_witness :
  ParseUint16 (segment_name 255) = Some 255 ∧ segment_name 255 = "00000000000000ff".
Proof.
  split; [|reflexivity].
  apply (segment_name_roundtrip "d" 255 255); vm_compute; split; discriminate.
Defined.
