(* ===== verification/Match.v ===== *)
(** * Message routing

    Models src/mq/match.go: whether a message is for a consumer group, by the bindings of the
    group, and the pattern matching of topic exchanges.  A pattern is related to
    the words between its dots, which is how the documentation describes it. *)
From Stdlib Require Import Ascii.
From S2P Require Import Prelude Emq ClusterState.

(** ** Patterns *)

Definition patternSeparator : ascii := ".".
Definition patternWildcard : string := "*".
Definition patternZeroOrMore : string := "#".

(** The parts around the first separator: [s[:i]] and [s[i+1:]] for
    [i := strings.IndexByte(s, '.')], and [None] when [i] is -1. *)
Fixpoint cut (s : string) : option (string * string) :=
  match s with
  | EmptyString => None
  | String c s =>
    if Ascii.eqb c patternSeparator then Some (EmptyString, s)
    else '(a, b) ← cut s; Some (String c a, b)
  end.

(** [routingKeyMatches]; every call has a shorter pattern or a shorter key, so the sum of
    the lengths bounds the calls.  The loop of the "#" part is the last call of that case. *)
Fixpoint key_matches (fuel : nat) (pattern routingKey : string) : bool :=
  match fuel with
  | O => false
  | S fuel =>
    if String.eqb pattern "" then String.eqb routingKey ""
    else match cut pattern with
         | None =>
           if String.eqb pattern patternWildcard then
             negb (String.eqb routingKey "") &&
             match cut routingKey with None => true | Some _ => false end
           else if String.eqb pattern patternZeroOrMore then
             match cut routingKey with
             | None => true
             | Some (_, routingKey) =>
               if String.eqb routingKey "" then false else key_matches fuel pattern routingKey
             end
           else String.eqb routingKey pattern
         | Some (part, rest) =>
           if String.eqb part patternWildcard then
             match cut routingKey with
             | None => if String.eqb routingKey "" then false else key_matches fuel rest ""
             | Some (_, routingKey) =>
               if String.eqb routingKey "" then false else key_matches fuel rest routingKey
             end
           else if String.eqb part patternZeroOrMore then
             if key_matches fuel rest routingKey then true
             else match cut routingKey with
                  | None => false
                  | Some (_, routingKey) =>
                    if String.eqb routingKey "" then false
                    else key_matches fuel pattern routingKey
                  end
           else
             match cut routingKey with
             | None => String.eqb routingKey part && key_matches fuel rest ""
             | Some (word, routingKey) =>
               if negb (String.eqb word part) then false
               else if String.eqb routingKey "" then false
               else key_matches fuel rest routingKey
             end
         end
  end.

Definition routingKeyMatches (pattern routingKey : string) : bool :=
  key_matches (S (String.length pattern + String.length routingKey)) pattern routingKey.

(** ** Bindings *)

(** The loops over the expected headers; the order of a Go map is not specified. *)
Definition headers_all (expected got : list (string * Value)) : bool :=
  forallb (λ '(headerName, expectedHeaderValue),
    match map_get headerName got with
    | Some gotHeaderValue => DeepEqual expectedHeaderValue gotHeaderValue
    | None => false
    end) expected.

Definition headers_any (expected got : list (string * Value)) : bool :=
  existsb (λ '(headerName, expectedHeaderValue),
    match map_get headerName got with
    | Some gotHeaderValue => DeepEqual expectedHeaderValue gotHeaderValue
    | None => false
    end) expected.

(** The fields of a pointer to a struct; a nil pointer is dereferenced. *)
Definition fields_of (s : option Struct) : result Empty_set (list (string * Value)) :=
  match s with
  | Some s => Ok (default [] (Fields s))
  | None => Panic "nil pointer dereference"
  end.

(** One iteration of the loop over the bindings. *)
Definition binding_matches (message : EmqMessage) (topicName : string)
    (binding : ClusterConsumerGroup_Binding) : result Empty_set bool :=
  if negb (String.eqb (b_TopicName binding) topicName) then Ok false
  else if String.eqb (b_ExchangeType binding) ExchangeTypeDirect then
    Ok match b_By binding with
       | By_RoutingKey key => String.eqb key (RoutingKey message)
       | _ => false
       end
  else if String.eqb (b_ExchangeType binding) ExchangeTypeFanout then Ok true
  else if String.eqb (b_ExchangeType binding) ExchangeTypeTopic then
    Ok match b_By binding with
       | By_RoutingKey key => routingKeyMatches key (RoutingKey message)
       | _ => false
       end
  else if String.eqb (b_ExchangeType binding) ExchangeTypeHeaders then
    match Headers message ≫= Fields with
    | None => Ok false
    | Some got =>
      match b_By binding with
      | By_HeadersAll expected => expected ← fields_of expected; Ok (headers_all expected got)
      | By_HeadersAny expected => expected ← fields_of expected; Ok (headers_any expected got)
      | _ => Ok false
      end
    end
  else Panic "unhandled exchange type".

Fixpoint any_binding (message : EmqMessage) (topicName : string)
    (bindings : list ClusterConsumerGroup_Binding) : result Empty_set bool :=
  match bindings with
  | [] => Ok false
  | binding :: bindings =>
    matches ← binding_matches message topicName binding;
    if matches : bool then Ok true else any_binding message topicName bindings
  end.

Definition messageMatches (message : EmqMessage) (messageTime : Z) (topicName : string)
    (consumerGroup : ClusterConsumerGroup) : result Empty_set bool :=
  if messageTime <? cg_Since consumerGroup then Ok false
  else any_binding message topicName (cg_Bindings consumerGroup).

(** ** Words *)

(** The words of a key, those between its dots. *)
Fixpoint split_dots (s : string) : list string :=
  match s with
  | EmptyString => [EmptyString]
  | String c s =>
    if Ascii.eqb c patternSeparator then EmptyString :: split_dots s
    else match split_dots s with
         | w :: ws => String c w :: ws
         | [] => [String c EmptyString]
         end
  end.

Definition words (s : string) : list string := if String.eqb s "" then [] else split_dots s.

(** A "*" stands for one word and a "#" for any number of words. *)
Inductive topic_matches : list string → list string → Prop :=
| tm_nil : topic_matches [] []
| tm_wildcard p w k : topic_matches p k → topic_matches ("*" :: p) (w :: k)
| tm_zero_or_more p k1 k2 : topic_matches p k2 → topic_matches ("#" :: p) (k1 ++ k2)
| tm_word w p k : w ≠ "*" → w ≠ "#" → topic_matches p k → topic_matches (w :: p) (w :: k).

Fixpoint ends_with_dot (s : string) : bool :=
  match s with
  | EmptyString => false
  | String c EmptyString => Ascii.eqb c patternSeparator
  | String _ s => ends_with_dot s
  end.

(** ** Lemmas on words *)

Lemma split_dots_nonempty s : split_dots s ≠ [].
Proof. destruct s as [|c s]; simpl; [done|]. case_if; [done|]. by destruct (split_dots s). Qed.

Lemma cut_None_split s : cut s = None → split_dots s = [s].
Proof.
  induction s as [|c s IH]; simpl; [done|]. case_if; [done|].
  destruct (cut s) as [[a b]|]; simpl; [done|]. intros _. by rewrite IH.
Qed.

Lemma cut_Some_split s a b : cut s = Some (a, b) → split_dots s = a :: split_dots b.
Proof.
  revert a. induction s as [|c s IH]; intros a; simpl; [done|]. case_if; [by intros ?; simplify_eq|].
  destruct (cut s) as [[a' b']|]; simpl; [|done]. intros ?; simplify_eq. by rewrite (IH a').
Qed.

Lemma cut_Some_length s a b : cut s = Some (a, b) → (String.length b < String.length s)%nat.
Proof.
  revert a. induction s as [|c s IH]; intros a; simpl; [done|]. case_if; [intros ?; simplify_eq; lia|].
  destruct (cut s) as [[a' b']|]; simpl; [|done]. intros ?; simplify_eq.
  specialize (IH a' eq_refl). lia.
Qed.

Lemma ends_with_dot_cons c s : s ≠ "" → ends_with_dot (String c s) = ends_with_dot s.
Proof. by destruct s. Qed.

Lemma cut_Some_ends s a b :
  cut s = Some (a, b) → ends_with_dot s = String.eqb b "" || ends_with_dot b.
Proof.
  revert a. induction s as [|c s IH]; intros a; [done|]. cbn [cut]. case_if.
  - intros ?; simplify_eq. destruct b; [by simpl; rewrite E|]. by rewrite ends_with_dot_cons.
  - destruct (cut s) as [[a' b']|] eqn:Ec; simpl; [|done]. intros ?; simplify_eq.
    rewrite <- (IH a' eq_refl). by destruct s.
Qed.

Lemma cut_None_ends s : cut s = None → ends_with_dot s = false.
Proof.
  induction s as [|c s IH]; [done|]. cbn [cut]. case_if; [done|].
  destruct (cut s) as [[? ?]|] eqn:Ec; simpl; [done|]. intros _. destruct s; [done|]. auto.
Qed.

Lemma words_empty s : words s = [] ↔ s = "".
Proof.
  unfold words. destruct (String.eqb_spec s ""); [done|]. split; [|done].
  intros H. by apply split_dots_nonempty in H.
Qed.

Lemma words_cut_None s : cut s = None → s ≠ "" → words s = [s].
Proof.
  intros Hc Hs. unfold words. destruct (String.eqb_spec s ""); [done|]. by apply cut_None_split.
Qed.

Lemma words_cut_Some s a b :
  cut s = Some (a, b) → ends_with_dot s = false →
  words s = a :: words b ∧ ends_with_dot b = false ∧ b ≠ "".
Proof.
  intros Hc He. rewrite (cut_Some_ends s a b Hc) in He. bool_to_prop.
  split_and!; [|done|done]. unfold words.
  destruct (String.eqb_spec s "") as [->|]; [done|].
  destruct (String.eqb_spec b ""); [done|]. by apply cut_Some_split.
Qed.

Lemma no_empty_word s : "" ∉ words s → ends_with_dot s = false.
Proof.
  enough (H : ∀ n s, (String.length s < n)%nat → ends_with_dot s = true → "" ∈ split_dots s).
  { intros Hw. destruct (ends_with_dot s) eqn:E; [|done]. destruct Hw. unfold words.
    destruct (String.eqb_spec s "") as [->|]; [done|]. by apply (H (S (String.length s))); [lia|]. }
  clear s. induction n as [|n IH]; intros s Hn He; [lia|].
  destruct (cut s) as [[a b]|] eqn:Ec; [|by rewrite (cut_None_ends s Ec) in He].
  rewrite (cut_Some_split s a b Ec). rewrite (cut_Some_ends s a b Ec) in He.
  pose proof (cut_Some_length s a b Ec). destruct (String.eqb_spec b "") as [Hb|]; [rewrite Hb; right; left|].
  right. apply IH; [lia|done].
Qed.

(** ** Lemmas on word patterns *)

Lemma topic_matches_nil k : topic_matches [] k ↔ k = [].
Proof. split; [by inversion 1|]. intros ->. constructor. Qed.

Lemma topic_matches_wildcard p k :
  topic_matches ("*" :: p) k ↔ ∃ w k', k = w :: k' ∧ topic_matches p k'.
Proof.
  split.
  - inversion 1; subst; naive_solver.
  - intros (w & k' & -> & H). by constructor.
Qed.

Lemma topic_matches_hash p k :
  topic_matches ("#" :: p) k ↔
  topic_matches p k ∨ ∃ w k', k = w :: k' ∧ topic_matches ("#" :: p) k'.
Proof.
  split.
  - inversion 1 as [| |p' k1 k2 Hm|]; subst; [|naive_solver]. destruct k1 as [|w k1]; [by left|].
    right. exists w, (k1 ++ k2). split; [done|]. by constructor.
  - intros [H|(w & k' & -> & H)]; [by apply (tm_zero_or_more p [])|].
    inversion H as [| |p' k1 k2 Hm|]; subst; [|naive_solver]. by apply (tm_zero_or_more p (w :: k1)).
Qed.

Lemma topic_matches_word w p k :
  w ≠ "*" → w ≠ "#" → topic_matches (w :: p) k ↔ ∃ k', k = w :: k' ∧ topic_matches p k'.
Proof.
  intros H1 H2. split.
  - inversion 1; subst; naive_solver.
  - intros (k' & -> & H). by constructor.
Qed.

Lemma topic_matches_hash_all k : topic_matches ["#"] k.
Proof. rewrite <- (app_nil_r k). constructor. constructor. Qed.

(** Only patterns of "#" match no words, and those match everything. *)
Lemma topic_matches_empty p k : p ≠ [] → topic_matches p [] → topic_matches p k.
Proof.
  intros Hp H. remember ([] : list string) as e eqn:He.
  destruct H as [| |p k1 k2 H|]; try done. apply app_eq_nil in He as [-> ->].
  rewrite <- (app_nil_r k). by constructor.
Qed.

(** A key with more words after the first one. *)
Lemma words_cons_nonempty s a b :
  cut s = Some (a, b) → ends_with_dot s = false → ∃ w ws, words s = a :: w :: ws.
Proof.
  intros Hc He. destruct (words_cut_Some s a b Hc He) as (Hw & _ & Hb).
  destruct (words b) as [|w ws] eqn:E; [by apply words_empty in E|]. eauto.
Qed.

Lemma no_dot_neq s p a b : cut s = Some (a, b) → cut p = None → s ≠ p.
Proof. congruence. Qed.

Ltac key_case k := (* the first word of the key *)
  let Ek := fresh "Ek" in let a := fresh "a" in let b := fresh "b" in
  destruct (cut k) as [[a b]|] eqn:Ek.

(** The last part of a pattern. *)
Lemma last_part_wildcard k :
  ends_with_dot k = false →
  negb (String.eqb k "") && match cut k with None => true | Some _ => false end = true ↔
  topic_matches ["*"] (words k).
Proof.
  intros Hk. rewrite topic_matches_wildcard. key_case k.
  - destruct (words_cons_nonempty k a b Ek Hk) as (w & ws & ->).
    rewrite andb_false_r. split; [done|]. intros (? & ? & ? & H%topic_matches_nil). simplify_eq.
  - destruct (String.eqb_spec k "") as [->|Hne]; [simpl; naive_solver|].
    rewrite (words_cut_None k Ek Hne). split; [|done]. intros _. exists k, []. split; [done|constructor].
Qed.

Lemma last_part_word p k :
  cut p = None → p ≠ "" → p ≠ "*" → p ≠ "#" → ends_with_dot k = false →
  String.eqb k p = true ↔ topic_matches [p] (words k).
Proof.
  intros Hp Hne H1 H2 Hk. rewrite topic_matches_word by done. rewrite String.eqb_eq. key_case k.
  - destruct (words_cons_nonempty k a b Ek Hk) as (w & ws & ->). split; [congruence|].
    intros (? & ? & H%topic_matches_nil). simplify_eq.
  - destruct (decide (k = "")) as [->|Hk0]; [simpl; naive_solver|].
    rewrite (words_cut_None k Ek Hk0). split.
    + intros ->. exists []. split; [done|constructor].
    + intros (k' & ? & ?). by simplify_eq.
Qed.

Lemma key_matches_spec fuel : ∀ p k,
  (String.length p + String.length k < fuel)%nat →
  "" ∉ words p → ends_with_dot k = false →
  key_matches fuel p k = true ↔ topic_matches (words p) (words k).
Proof.
  induction fuel as [|fuel IH]; intros p k Hf Hok Hk; [lia|].
  pose proof (no_empty_word p Hok) as Hp. cbn [key_matches].
  destruct (String.eqb_spec p "") as [->|Hp0].
  { rewrite String.eqb_eq. change (words "") with (@nil string).
    by rewrite topic_matches_nil, words_empty. }
  destruct (cut p) as [[part rest]|] eqn:Ep.
  - destruct (words_cut_Some p part rest Ep Hp) as (Hwp & Hrest & Hrest0).
    pose proof (cut_Some_length p part rest Ep) as Hlp.
    assert (Hokr : "" ∉ words rest) by (rewrite Hwp in Hok; set_solver). rewrite Hwp.
    destruct (String.eqb_spec part patternWildcard) as [->|H1];
      [|destruct (String.eqb_spec part patternZeroOrMore) as [->|H2]].
    + rewrite topic_matches_wildcard. key_case k.
      * destruct (words_cut_Some k a b Ek Hk) as (Hwk & Hb & Hb0).
        pose proof (cut_Some_length k a b Ek). rewrite Hwk.
        destruct (String.eqb_spec b ""); [done|]. rewrite IH by (done || lia). naive_solver.
      * destruct (String.eqb_spec k "") as [->|Hk0]; [simpl; naive_solver|].
        rewrite (words_cut_None k Ek Hk0), IH by (done || simpl; lia).
        change (words "") with (@nil string). naive_solver.
    + rewrite topic_matches_hash. rewrite <- (IH rest k) by (done || lia).
      destruct (key_matches fuel rest k) eqn:Er; [naive_solver|]. key_case k.
      * destruct (words_cut_Some k a b Ek Hk) as (Hwk & Hb & Hb0).
        pose proof (cut_Some_length k a b Ek). rewrite Hwk.
        destruct (String.eqb_spec b ""); [done|]. rewrite IH by (done || lia).
        rewrite Hwp. naive_solver.
      * split; [done|]. intros [?|(w & k' & Hw & Hm)]; [done|].
        destruct (decide (k = "")) as [->|Hk0]; [done|].
        rewrite (words_cut_None k Ek Hk0) in Hw. simplify_eq.
        assert (Hrest' : topic_matches (words rest) []).
        { rewrite topic_matches_hash in Hm. naive_solver. }
        assert (Hall : key_matches fuel rest w = true).
        { apply IH; [lia|done..|]. apply topic_matches_empty; [|done].
          by rewrite words_empty. }
        congruence.
    + rewrite topic_matches_word by done. key_case k.
      * destruct (words_cut_Some k a b Ek Hk) as (Hwk & Hb & Hb0).
        pose proof (cut_Some_length k a b Ek). rewrite Hwk.
        destruct (String.eqb_spec a part) as [->|Hne]; cbn [negb]; [|naive_solver].
        destruct (String.eqb_spec b ""); [done|]. rewrite IH by (done || lia). naive_solver.
      * rewrite andb_true_iff, String.eqb_eq, IH by (done || simpl; lia).
        change (words "") with (@nil string).
        destruct (decide (k = "")) as [->|Hk0].
        { change (words "") with (@nil string). split; [|naive_solver]. intros [<- Hm].
          destruct Hok. rewrite Hwp. left. }
        rewrite (words_cut_None k Ek Hk0). naive_solver.
  - rewrite (words_cut_None p Ep Hp0).
    destruct (String.eqb_spec p patternWildcard) as [->|H1]; [by apply last_part_wildcard|].
    destruct (String.eqb_spec p patternZeroOrMore) as [->|H2]; [|by apply last_part_word].
    split; [intros _; apply topic_matches_hash_all|]. intros _. key_case k; [|done].
    destruct (words_cut_Some k a b Ek Hk) as (Hwk & Hb & Hb0).
    pose proof (cut_Some_length k a b Ek). destruct (String.eqb_spec b ""); [done|].
    apply IH; [simpl in *; lia|done..|]. apply topic_matches_hash_all.
Qed.

(** The fuel of [routingKeyMatches] is enough: any larger amount gives the same answer. *)
Lemma key_matches_fuel n m : ∀ p k,
  (String.length p + String.length k < n)%nat → (String.length p + String.length k < m)%nat →
  key_matches n p k = key_matches m p k.
Proof.
  revert m. induction n as [|n IH]; intros m p k Hn Hm; [lia|]. destruct m as [|m]; [lia|].
  cbn [key_matches]. destruct (String.eqb_spec p "") as [|Hp0]; [done|].
  assert (Hrec : ∀ p' k', (String.length p' + String.length k' < String.length p + String.length k)%nat →
    key_matches n p' k' = key_matches m p' k') by (intros; apply IH; lia).
  assert (Hp1 : (0 < String.length p)%nat) by (destruct p; [done|simpl; lia]).
  destruct (cut p) as [[part rest]|] eqn:Ep; [apply cut_Some_length in Ep|];
    key_case k; try apply cut_Some_length in Ek;
    rewrite ?(Hrec rest k), ?(Hrec rest ""), ?(Hrec rest b), ?(Hrec p b) by (simpl; lia); done.
Qed.

(** A key that ends in a dot is never matched. *)
Lemma key_matches_trailing_dot fuel : ∀ p k,
  ends_with_dot k = true → key_matches fuel p k = false.
Proof.
  induction fuel as [|fuel IH]; intros p k Hk; [done|]. cbn [key_matches].
  destruct (cut k) as [[a b]|] eqn:Ek; [|by rewrite (cut_None_ends k Ek) in Hk].
  pose proof Hk as Hb. rewrite (cut_Some_ends k a b Ek) in Hb.
  assert (Hb' : ∀ p, (if String.eqb b "" then false else key_matches fuel p b) = false).
  { intros p'. destruct (String.eqb b ""); [done|]. by apply IH. }
  assert (Hk0 : String.eqb k "" = false) by (by destruct k).
  rewrite Hk0. destruct (String.eqb p ""); [done|]. destruct (cut p) as [[part rest]|] eqn:Ep.
  - rewrite !Hb', (IH rest k Hk). repeat case_if; done.
  - rewrite !Hb', andb_false_r. clear Hb'. repeat case_if; try done.
    apply String.eqb_neq. by eapply no_dot_neq.
Qed.

(** ** Bindings *)

(** The bindings that a consumer group can have. *)
Definition binding_ok (binding : ClusterConsumerGroup_Binding) : Prop :=
  (b_ExchangeType binding = ExchangeTypeDirect ∨ b_ExchangeType binding = ExchangeTypeFanout ∨
   b_ExchangeType binding = ExchangeTypeTopic ∨ b_ExchangeType binding = ExchangeTypeHeaders) ∧
  b_By binding ≠ By_HeadersAll None ∧ b_By binding ≠ By_HeadersAny None.

(** A header of the message equals the expected one. *)
Definition has_header (message : EmqMessage) (header : string * Value) : Prop :=
  ∃ got v, Headers message ≫= Fields = Some got ∧ map_get header.1 got = Some v ∧
    DeepEqual header.2 v = true.

(** What the kinds of bindings ask of a message. *)
Inductive accepts (message : EmqMessage) : ClusterConsumerGroup_Binding → Prop :=
| accepts_direct topic :
    accepts message {| b_TopicName := topic; b_ExchangeType := ExchangeTypeDirect;
                       b_By := By_RoutingKey (RoutingKey message) |}
| accepts_fanout topic by_ :
    accepts message {| b_TopicName := topic; b_ExchangeType := ExchangeTypeFanout; b_By := by_ |}
| accepts_topic topic pattern :
    routingKeyMatches pattern (RoutingKey message) = true →
    accepts message {| b_TopicName := topic; b_ExchangeType := ExchangeTypeTopic;
                       b_By := By_RoutingKey pattern |}
| accepts_all topic s :
    is_Some (Headers message ≫= Fields) →
    (∀ header, header ∈ default [] (Fields s) → has_header message header) →
    accepts message {| b_TopicName := topic; b_ExchangeType := ExchangeTypeHeaders;
                       b_By := By_HeadersAll (Some s) |}
| accepts_any topic s header :
    header ∈ default [] (Fields s) → has_header message header →
    accepts message {| b_TopicName := topic; b_ExchangeType := ExchangeTypeHeaders;
                       b_By := By_HeadersAny (Some s) |}.

Lemma headers_all_true expected message got :
  Headers message ≫= Fields = Some got →
  headers_all expected got = true ↔ ∀ header, header ∈ expected → has_header message header.
Proof.
  intros Hgot. unfold headers_all. rewrite forallb_elem_of. split; intros H [name v] Hin.
  - specialize (H _ Hin). simpl in H. destruct (map_get name got) as [v'|] eqn:E; [|done].
    by exists got, v'.
  - destruct (H _ Hin) as (got' & v' & H1 & H2 & H3). simpl in *.
    assert (got' = got) as -> by congruence. by rewrite H2.
Qed.

Lemma headers_any_true expected message got :
  Headers message ≫= Fields = Some got →
  headers_any expected got = true ↔ ∃ header, header ∈ expected ∧ has_header message header.
Proof.
  intros Hgot. unfold headers_any. rewrite existsb_elem_of. split.
  - intros ([name v] & Hin & H). destruct (map_get name got) as [v'|] eqn:E; [|done].
    exists (name, v). split; [done|]. by exists got, v'.
  - intros ([name v] & Hin & got' & v' & H1 & H2 & H3). exists (name, v). split; [done|].
    simpl in *. assert (got' = got) as -> by congruence. by rewrite H2.
Qed.

Lemma binding_matches_spec message topicName binding :
  binding_ok binding →
  ∃ b, binding_matches message topicName binding = Ok b ∧
    (b = true ↔ b_TopicName binding = topicName ∧ accepts message binding).
Proof.
  destruct binding as [topic type by_]. intros (Htype & Hall & Hany). simpl in *.
  unfold binding_matches. cbn [b_TopicName b_ExchangeType b_By].
  destruct (String.eqb_spec topic topicName) as [->|Hne]; cbn [negb]; [|exists false; naive_solver].
  destruct Htype as [->|[->|[->| ->]]]; cbn [String.eqb Ascii.eqb Bool.eqb].
  - eexists. split; [reflexivity|]. split.
    + destruct by_; try done. intros ->%String.eqb_eq. split; [done|constructor].
    + intros [_ H]. inversion H; subst. apply String.eqb_refl.
  - exists true. split; [done|]. split; [|done]. intros _. split; [done|constructor].
  - eexists. split; [reflexivity|]. split.
    + destruct by_; try done. intros H. split; [done|by constructor].
    + intros [_ H]. by inversion H; subst.
  - change (ExchangeTypeHeaders =? ExchangeTypeDirect)%string with false.
    change (ExchangeTypeHeaders =? ExchangeTypeFanout)%string with false.
    change (ExchangeTypeHeaders =? ExchangeTypeTopic)%string with false.
    rewrite String.eqb_refl. cbn [negb].
    destruct (Headers message ≫= Fields) as [got|] eqn:Eg.
    + destruct by_ as [|key|[s|]|[s|]]; try done; simpl.
      * exists false. split; [done|]. split; [done|]. intros [_ H]. inversion H.
      * exists false. split; [done|]. split; [done|]. intros [_ H]. inversion H.
      * eexists. split; [reflexivity|]. rewrite (headers_all_true _ message got Eg). split.
        -- intros H. split; [done|]. constructor; [|done]. rewrite Eg. eauto.
        -- intros [_ H]. by inversion H; subst.
      * eexists. split; [reflexivity|]. rewrite (headers_any_true _ message got Eg). split.
        -- intros (h & H1 & H2). split; [done|]. by apply (accepts_any message topicName s h).
        -- intros [_ H]. inversion H; subst. eauto.
    + exists false. split; [done|]. split; [done|]. intros [_ H].
      inversion H as [| | |? s Hh _|? s h _ (got & v & Hg & _)]; subst; [|congruence].
      rewrite Eg in Hh. by destruct Hh.
Qed.

Lemma any_binding_spec message topicName bindings :
  (∀ binding, binding ∈ bindings → binding_ok binding) →
  ∃ b, any_binding message topicName bindings = Ok b ∧
    (b = true ↔ ∃ binding, binding ∈ bindings ∧ b_TopicName binding = topicName ∧
                  accepts message binding).
Proof.
  induction bindings as [|binding bindings IH]; intros Hok; simpl.
  { exists false. split; [done|]. split; [done|]. intros (? & ?%elem_of_nil & _). done. }
  destruct (binding_matches_spec message topicName binding) as ([] & -> & Hspec);
    [apply Hok; left|..]; simpl.
  - exists true. split; [done|]. split; [|done]. intros _. exists binding. split; [left|]. by apply Hspec.
  - destruct IH as (b & Hb & Hiff); [intros; apply Hok; by right|]. exists b. split; [done|].
    rewrite Hiff. setoid_rewrite elem_of_cons. naive_solver.
Qed.

(** ** Properties *)

(** Topic patterns match word by word (C25): for a pattern without empty words and a routing key that does
    not end in a dot, [routingKeyMatches] is true exactly when the words of the
    key can be read off the pattern with "*" standing for one word and "#" for any
    number of words. *)
Theorem routingKeyMatches_correct pattern routingKey :
  "" ∉ words pattern → ends_with_dot routingKey = false →
  routingKeyMatches pattern routingKey = true ↔ topic_matches (words pattern) (words routingKey).
Proof. intros Hp Hk. apply key_matches_spec; [lia|done..]. Qed.

Lemma routingKeyMatches_correct_witness :
  topic_matches ["foo"; "#"; "bar"] ["foo"; "qux"; "xyz"; "bar"].
Proof.
  apply (routingKeyMatches_correct "foo.#.bar" "foo.qux.xyz.bar"); [|reflexivity|reflexivity].
  apply (bool_decide_unpack _). vm_compute. exact I.
Defined.

(** Delivery follows the bindings: for a consumer group whose bindings have one of the four
    exchange types and non-nil header arguments, [messageMatches] does not
    panic, and a message is for the group exactly when it is not older than the group's start and some
    binding of the topic accepts it: the same routing key for direct, anything for fanout, a
    matching pattern for topic, all or any of the expected headers for headers. *)
Theorem messageMatches_correct message messageTime topicName group :
  (∀ binding, binding ∈ cg_Bindings group → binding_ok binding) →
  ∃ b, messageMatches message messageTime topicName group = Ok b ∧
    (b = true ↔ cg_Since group ≤ messageTime ∧
       ∃ binding, binding ∈ cg_Bindings group ∧ b_TopicName binding = topicName ∧
         accepts message binding).
Proof.
  intros Hok. unfold messageMatches. destruct (Z.ltb_spec messageTime (cg_Since group)).
  - exists false. split; [done|]. split; [done|]. intros [? _]. lia.
  - destruct (any_binding_spec message topicName (cg_Bindings group) Hok) as (b & Hb & Hiff).
    exists b. split; [done|]. naive_solver.
Qed.

Lemma messageMatches_correct_witness :
  let group := {| cg_Name := "g"; cg_Bindings := [{| b_TopicName := "t";
                    b_ExchangeType := ExchangeTypeTopic; b_By := By_RoutingKey "a.*" |}];
                  cg_Size := 1; cg_Since := 5; cg_OffsetCommits := [] |} in
  let message := {| RoutingKey := "a.b"; Properties := None; Headers := None; Data := [] |} in
  ∃ b, messageMatches message 7 "t" group = Ok b ∧ b = true.
Proof.
  intros group message.
  destruct (messageMatches_correct message 7 "t" group) as (b & Hb & Hiff).
  - intros binding ->%list_elem_of_singleton. split; [naive_solver|]. split; discriminate.
  - exists b. split; [exact Hb|]. apply Hiff. split; [vm_compute; discriminate|].
    eexists. split; [left|]. split; [reflexivity|]. constructor. reflexivity.
Defined.

(** A routing key that ends in a dot matches no pattern. *)
Theorem routingKeyMatches_trailing_dot pattern routingKey :
  ends_with_dot routingKey = true → routingKeyMatches pattern routingKey = false.
Proof. apply key_matches_trailing_dot. Qed.

Lemma routingKeyMatches_trailing_dot_witness : routingKeyMatches "#" "foo." = false.
Proof. apply (routingKeyMatches_trailing_dot "#" "foo."). reflexivity. Defined.

(** Patterns outside the documented form: a "#" before a final dot matches no word, and an
    empty word at the end of the key is skipped. *)
Example pattern_hash_dot : routingKeyMatches "#." "foo" = false.
Proof. reflexivity. Qed.

Example pattern_empty_word : routingKeyMatches "a..#" "a" = true.
Proof. reflexivity. Qed.
