(* ===== verification/Reconciler.v ===== *)
(** * The reconciler

    Models src/mq/reconciler.go and the four reconciler_*.go files: the leader periodically compares the
    cluster state with the live nodes and issues the commands that create
    the default namespace, track nodes, re-replicate, promote, trim and delete segments, and
    open the offset segments of consumer groups.  The source reaches the rest of the
    server through the interface [ReconcilerDelegate]; it is a type class here, with the state of the
    implementation passed through.  [now] is the time read from the clock. *)
From S2P Require Import Prelude Util Emq ClusterState ClusterOps.

(** ** The delegate *)

Record Member : Type := { member_Name : string; member_Address : string }.

Class ReconcilerDelegate (D : Type) : Type := {
  Apply : D → ClusterCommand → D * option Z;
  Members : D → list Member;
  AddVoter : D → string → string → D * bool;
  GetSegmentSizeFromNode : D → Z → Z → string → D * result () Z;
  delegate_NextSegmentID : D → D * Z;
}.

Definition defaultReplicationFactor : Z := 3.

(** [m[k]--] on a [map[uint64]int] *)
Definition decr (k : Z) (m : gmap Z Z) : gmap Z Z := <[k := default 0 (m !! k) - 1]> m.

Abbreviation counts := (gmap Z Z).
Abbreviation node_map := (gmap Z ClusterNode).

(** [nodeMap[id].State == ClusterNode_ALIVE], which panics when the node is unknown. *)
Definition is_alive (nodeMap : node_map) (id : Z) : result Empty_set bool :=
  match nodeMap !! id with
  | Some node => Ok (bool_decide (node_State node = ClusterNode_ALIVE))
  | None => Panic "nil pointer dereference"
  end.

(** The loop that keeps the live nodes of a list. *)
Fixpoint alive_of (nodeMap : node_map) (ids : list Z) : result Empty_set (list Z) :=
  match ids with
  | [] => Ok []
  | id :: ids =>
    alive ← is_alive nodeMap id;
    rest ← alive_of nodeMap ids;
    Ok (if alive : bool then id :: rest else rest)
  end.

(** ** Choosing nodes *)

(** [nodeSegmentCounts[id]] *)
Definition count_of (m : counts) (id : Z) : Z := default 0 (m !! id).

(** The loop that finds the candidate with the fewest segments, the first of them. *)
Fixpoint min_candidate (m : counts) (ids : list Z) (i : nat) (best : option (nat * Z)) : option (nat * Z) :=
  match ids with
  | [] => best
  | id :: ids =>
    min_candidate m ids (S i)
      match best with
      | None => Some (i, id)
      | Some (_, b) => if count_of m id <? count_of m b then Some (i, id) else best
      end
  end.

(** The loop that adds replicas while there are candidates and, with the [others], fewer than
    [limit] replicas: the counts, the replicas and whether one was added.  Each iteration uses
    up a candidate. *)
Fixpoint add_replicas (fuel : nat) (m : counts) (candidates : list Z) (others : Z)
    (replicas : list Z) (limit : Z) (added : bool) : counts * list Z * bool :=
  match fuel with
  | O => (m, replicas, added)
  | S fuel =>
    if u32 (others + Z.of_nat (length replicas)) <? limit then
      match min_candidate m candidates 0 None with
      | Some (i, id) =>
        add_replicas fuel (incr id m) (remove_at i candidates) others (replicas ++ [id]) limit true
      | None => (m, replicas, added)
      end
    else (m, replicas, added)
  end.

(** The loop that keeps live replicas up to the limit and uncounts the others. *)
Fixpoint keep_replicas (nodeMap : node_map) (ids : list Z) (others : Z) (kept : list Z) (limit : Z)
    (m : counts) : result Empty_set (list Z * counts) :=
  match ids with
  | [] => Ok (kept, m)
  | id :: ids =>
    alive ← is_alive nodeMap id;
    if (alive : bool) && (u32 (others + Z.of_nat (length kept)) <? limit)
    then keep_replicas nodeMap ids others (kept ++ [id]) limit m
    else keep_replicas nodeMap ids others kept limit (decr id m)
  end.

Section reconciler.
Context {D : Type} `{ReconcilerDelegate D}.

(** ** Namespaces *)

Definition ReconcileNamespaces (d : D) (state : ClusterState) : D :=
  match FindNamespace state DefaultNamespace with
  | Some _ => d
  | None => (Apply d (CreateNamespace {| nc_Namespace := DefaultNamespace |})).1
  end.

(** ** Nodes *)

Definition alive_node (id : Z) (member : Member) : ClusterCommandNodeUpdate :=
  {| nu_ID := id; nu_Address := member_Address member; nu_State := ClusterNode_ALIVE;
     nu_LastSeenAlive := None |}.

(** The loop over the members. *)
Fixpoint reconcile_members (d : D) (state : ClusterState) (members : list Member) (alive : gset Z) :
    result Empty_set (D * gset Z) :=
  match members with
  | [] => Ok (d, alive)
  | member :: members =>
    id ← MustIDFromString (member_Name member);
    let uptodate :=
      match GetNode state id with
      | None => false
      | Some node => String.eqb (node_Address node) (member_Address member) &&
                     bool_decide (node_State node = ClusterNode_ALIVE)
      end in
    let d :=
      if uptodate then d
      else match Apply d (UpdateNode (alive_node id member)) with
           | (d, None) => d
           | (d, Some _) => (AddVoter d (member_Name member) (member_Address member)).1
           end in
    reconcile_members d state members ({[id]} ∪ alive)
  end.

(** The loop over the known nodes; a failed command ends it. *)
Fixpoint reconcile_dead (d : D) (now : Z) (alive : gset Z) (nodes : list ClusterNode) : D :=
  match nodes with
  | [] => d
  | node :: nodes =>
    if bool_decide (node_ID node ∈ alive) || bool_decide (node_State node = ClusterNode_DEAD)
    then reconcile_dead d now alive nodes
    else match Apply d (UpdateNode {| nu_ID := node_ID node; nu_Address := node_Address node;
                                      nu_State := ClusterNode_DEAD; nu_LastSeenAlive := Some now |}) with
         | (d, None) => d
         | (d, Some _) => reconcile_dead d now alive nodes
         end
  end.

Definition ReconcileNodes (d : D) (now : Z) (state : ClusterState) : result Empty_set D :=
  '(d, alive) ← reconcile_members d state (Members d) ∅;
  Ok (reconcile_dead d now alive (Nodes state)).

(** ** Segments *)

Definition update_nodes (segment : ClusterSegment) (which : Which) (primary : Z)
    (replicating done : list Z) : ClusterCommand :=
  UpdateSegmentNodes
    {| snu_ID := seg_ID segment; snu_Which := which;
       snu_Nodes := {| PrimaryNodeID := primary; DoneNodeIDs := done;
                       ReplicatingNodeIDs := replicating |} |}.

Definition delete_segment (segment : ClusterSegment) (which : Which) : ClusterCommand :=
  DeleteSegment {| sd_ID := seg_ID segment; sd_Which := which |}.

(** The candidates: live nodes that do not hold the segment. *)
Definition candidates_without (allCandidateNodeIDs used : list Z) : list Z :=
  List.filter (λ id, negb (bool_decide (id ∈ used))) allCandidateNodeIDs.

Definition reconcileOpenSegmentWithAlivePrimary (d : D) (segment : ClusterSegment)
    (replicationFactor : Z) (m : counts) (nodeMap : node_map) (allCandidateNodeIDs : list Z) :
    result Empty_set (D * counts) :=
  if replicationFactor <? 1 then Panic "replication factor is zero"
  else
    let nodes := seg_Nodes segment in
    alive ← alive_of nodeMap (ReplicatingNodeIDs nodes);
    let aliveReplicas := u32 (1 + Z.of_nat (length alive)) in
    if replicationFactor <? aliveReplicas then
      '(kept, m) ←
        (if 0 <? u32 (replicationFactor - 1)
         then keep_replicas nodeMap (ReplicatingNodeIDs nodes) 1 [] replicationFactor m
         else Ok ([], m));
      Ok ((Apply d (update_nodes segment Which_OPEN (PrimaryNodeID nodes) kept [])).1, m)
    else if aliveReplicas <? replicationFactor then
      let candidates := candidates_without allCandidateNodeIDs (PrimaryNodeID nodes :: alive) in
      let '(m, replicas, added) :=
        add_replicas (length candidates) m candidates 0 alive (u32 (replicationFactor - 1)) false in
      if added then
        Ok ((Apply d (update_nodes segment Which_OPEN (PrimaryNodeID nodes) replicas [])).1, m)
      else Ok (d, m)
    else Ok (d, m).

(** The loop that asks the live replicas for their size: the identifier and size of the
    largest, or [None] when a node could not be asked. *)
Fixpoint largest_replica (d : D) (segment : ClusterSegment) (nodeMap : node_map) (ids : list Z)
    (best : Z * Z) : result Empty_set (D * option (Z * Z)) :=
  match ids with
  | [] => Ok (d, Some best)
  | id :: ids =>
    match nodeMap !! id with
    | None => Panic "nil pointer dereference"
    | Some replica =>
      if negb (bool_decide (node_State replica = ClusterNode_ALIVE))
      then largest_replica d segment nodeMap ids best
      else match GetSegmentSizeFromNode d (seg_ID segment) id (node_Address replica) with
           | (d, Ok size) =>
             largest_replica d segment nodeMap ids (if best.2 <? size then (id, size) else best)
           | (d, Err _) => Ok (d, None)
           | (d, Panic msg) => Panic msg
           end
    end
  end.

Definition reconcileOpenSegmentWithDeadPrimary (d : D) (segment : ClusterSegment)
    (nodeMap : node_map) : result Empty_set D :=
  let replicating := ReplicatingNodeIDs (seg_Nodes segment) in
  if bool_decide (replicating = []) then Ok d
  else
    '(d, best) ← largest_replica d segment nodeMap replicating (0, -1);
    match best with
    | None => Ok d
    | Some (newPrimaryNodeID, _) =>
      if newPrimaryNodeID =? 0 then Ok d
      else
        alive ← alive_of nodeMap
                  (List.filter (λ id, negb (id =? newPrimaryNodeID)) replicating);
        Ok (Apply d (update_nodes segment Which_OPEN newPrimaryNodeID alive [])).1
    end.

Definition reconcileOpenSegment (d : D) (segment : ClusterSegment) (state : ClusterState)
    (m : counts) (nodeMap : node_map) (allCandidateNodeIDs : list Z) :
    result Empty_set (D * counts) :=
  let with_nodes replicationFactor :=
    match nodeMap !! PrimaryNodeID (seg_Nodes segment) with
    | None => Panic "nil pointer dereference"
    | Some primaryNode =>
      match node_State primaryNode with
      | ClusterNode_ALIVE =>
        reconcileOpenSegmentWithAlivePrimary d segment replicationFactor m nodeMap
          allCandidateNodeIDs
      | ClusterNode_DEAD =>
        d ← reconcileOpenSegmentWithDeadPrimary d segment nodeMap; Ok (d, m)
      | _ => Panic "unhandled primary node state"
      end
    end in
  match seg_Type segment with
  | ClusterSegment_TOPIC =>
    match GetTopic state (seg_OwnerNamespace segment) (seg_OwnerName segment) with
    | None => Ok ((Apply d (delete_segment segment Which_OPEN)).1, m)
    | Some topic => with_nodes (topic_ReplicationFactor topic)
    end
  | ClusterSegment_CONSUMER_GROUP_OFFSET_COMMITS =>
    match GetConsumerGroup state (seg_OwnerNamespace segment) (seg_OwnerName segment) with
    | None => Ok ((Apply d (delete_segment segment Which_OPEN)).1, m)
    | Some _ => with_nodes defaultReplicationFactor
    end
  | _ => with_nodes defaultReplicationFactor
  end.

(** A consumer group has not consumed the whole segment. *)
Definition segment_needed (state : ClusterState) (segment : ClusterSegment) : bool :=
  existsb (λ namespace, existsb (λ cg, existsb (λ commit,
      (oc_SegmentID commit =? seg_ID segment) && (oc_Offset commit <? seg_Size segment))
    (cg_OffsetCommits cg)) (ns_ConsumerGroups namespace)) (Namespaces state).

(** Live nodes of a list up to the replication factor. *)
Fixpoint take_alive (nodeMap : node_map) (ids taken : list Z) (replicationFactor : Z) :
    result Empty_set (list Z) :=
  match ids with
  | [] => Ok taken
  | id :: ids =>
    alive ← is_alive nodeMap id;
    if (alive : bool) then
      let taken := taken ++ [id] in
      if replicationFactor <=? u32 (Z.of_nat (length taken)) then Ok taken
      else take_alive nodeMap ids taken replicationFactor
    else take_alive nodeMap ids taken replicationFactor
  end.

(** The part of [reconcileClosedSegment] after the checks on the owner. *)
Definition replicate_closed (d : D) (segment : ClusterSegment) (replicationFactor : Z) (m : counts)
    (nodeMap : node_map) (allCandidateNodeIDs : list Z) : result Empty_set (D * counts) :=
  let nodes := seg_Nodes segment in
  aliveDone ← alive_of nodeMap (DoneNodeIDs nodes);
  aliveReplicating ← alive_of nodeMap (ReplicatingNodeIDs nodes);
  let aliveReplicas := u32 (Z.of_nat (length aliveDone) + Z.of_nat (length aliveReplicating)) in
  if replicationFactor <? 1 then Panic "replication factor is zero"
  else if replicationFactor <? aliveReplicas then
    if u32 (Z.of_nat (length aliveDone)) =? 0 then Ok (d, m)
    else
      done ← take_alive nodeMap (DoneNodeIDs nodes) [] replicationFactor;
      '(replicating, m) ←
        (if u32 (Z.of_nat (length done)) <? replicationFactor
         then keep_replicas nodeMap (ReplicatingNodeIDs nodes) (Z.of_nat (length done)) []
                replicationFactor m
         else Ok ([], m));
      Ok ((Apply d (update_nodes segment Which_CLOSED 0 replicating done)).1, m)
  else if aliveReplicas <? replicationFactor then
    if u32 (Z.of_nat (length aliveDone)) =? 0 then Ok (d, m)
    else
      let candidates := candidates_without allCandidateNodeIDs (aliveDone ++ aliveReplicating) in
      let '(m, replicating, added) :=
        add_replicas (length candidates) m candidates (Z.of_nat (length aliveDone))
          aliveReplicating replicationFactor false in
      if added then
        Ok ((Apply d (update_nodes segment Which_CLOSED 0 replicating aliveDone)).1, m)
      else Ok (d, m)
  else Ok (d, m).

Definition reconcileClosedSegment (d : D) (now : Z) (segment : ClusterSegment) (state : ClusterState)
    (m : counts) (nodeMap : node_map) (allCandidateNodeIDs : list Z) :
    result Empty_set (D * counts) :=
  let delete := Ok ((Apply d (delete_segment segment Which_CLOSED)).1, m) in
  match seg_Type segment with
  | ClusterSegment_TOPIC =>
    match GetTopic state (seg_OwnerNamespace segment) (seg_OwnerName segment) with
    | None => delete
    | Some topic =>
      if (0 <? topic_Retention topic) &&
         (seg_ClosedAt segment <? now - topic_Retention topic) &&
         negb (segment_needed state segment)
      then delete
      else replicate_closed d segment (topic_ReplicationFactor topic) m nodeMap allCandidateNodeIDs
    end
  | ClusterSegment_CONSUMER_GROUP_OFFSET_COMMITS => delete
  | _ => replicate_closed d segment defaultReplicationFactor m nodeMap allCandidateNodeIDs
  end.

(** The loops over the segments. *)
Fixpoint reconcileOpenSegments (d : D) (segments : list ClusterSegment) (state : ClusterState)
    (m : counts) (nodeMap : node_map) (allCandidateNodeIDs : list Z) :
    result Empty_set (D * counts) :=
  match segments with
  | [] => Ok (d, m)
  | segment :: segments =>
    '(d, m) ← reconcileOpenSegment d segment state m nodeMap allCandidateNodeIDs;
    reconcileOpenSegments d segments state m nodeMap allCandidateNodeIDs
  end.

Fixpoint reconcileClosedSegments (d : D) (now : Z) (segments : list ClusterSegment)
    (state : ClusterState) (m : counts) (nodeMap : node_map) (allCandidateNodeIDs : list Z) :
    result Empty_set (D * counts) :=
  match segments with
  | [] => Ok (d, m)
  | segment :: segments =>
    '(d, m) ← reconcileClosedSegment d now segment state m nodeMap allCandidateNodeIDs;
    reconcileClosedSegments d now segments state m nodeMap allCandidateNodeIDs
  end.

Definition nodeMap_of (nodes : list ClusterNode) : node_map :=
  foldl (λ nodeMap node, <[node_ID node := node]> nodeMap) ∅ nodes.

Definition alive_ids (nodes : list ClusterNode) : list Z :=
  node_ID <$> List.filter (λ node, bool_decide (node_State node = ClusterNode_ALIVE)) nodes.

Definition ReconcileSegments (d : D) (now : Z) (state : ClusterState) : result Empty_set D :=
  let nodeMap := nodeMap_of (Nodes state) in
  let aliveNodeIDs := alive_ids (Nodes state) in
  '(d, m) ← reconcileOpenSegments d (OpenSegments state) state (CountSegmentsPerNode state)
              nodeMap aliveNodeIDs;
  '(d, _) ← reconcileClosedSegments d now (ClosedSegments state) state m nodeMap aliveNodeIDs;
  Ok d.

(** ** Consumer groups *)

(** The loop that picks the live node with the fewest segments. *)
Fixpoint select_primary (m : counts) (nodes : list ClusterNode) (best : Z * Z) : Z * Z :=
  match nodes with
  | [] => best
  | node :: nodes =>
    select_primary m nodes
      (if bool_decide (node_State node = ClusterNode_ALIVE) &&
          (count_of m (node_ID node) <? best.2)
       then (node_ID node, count_of m (node_ID node)) else best)
  end.

Definition reconcileConsumerGroupOffsetCommitsSegment (d : D) (now : Z) (state : ClusterState)
    (namespace : ClusterNamespace) (consumerGroup : ClusterConsumerGroup) (m : counts) :
    result Empty_set (D * counts) :=
  match FindOpenSegmentsFor state ClusterSegment_CONSUMER_GROUP_OFFSET_COMMITS
          (ns_Name namespace) (cg_Name consumerGroup) with
  | [_] => Ok (d, m)
  | _ :: _ :: _ => Panic "there must be at most one open segment per consumer group"
  | [] =>
    let '(primaryNodeID, _) := select_primary m (Nodes state) (0, MaxInt32) in
    if primaryNodeID =? 0 then Ok (d, m)
    else
      let '(d, id) := delegate_NextSegmentID d in
      match Apply d (CreateSegment
              {| sc_ID := id; sc_Type := ClusterSegment_CONSUMER_GROUP_OFFSET_COMMITS;
                 sc_OwnerNamespace := ns_Name namespace; sc_OwnerName := cg_Name consumerGroup;
                 sc_Generation := 0; sc_Shard := 0; sc_OpenedAt := now;
                 sc_PrimaryNodeID := primaryNodeID; sc_ReplicatingNodeIDs := [] |}) with
      | (d, None) => Ok (d, m)
      | (d, Some _) => Ok (d, incr primaryNodeID m)
      end
  end.

(** The segments a consumer group reads. *)
Definition bound_segment (namespace : ClusterNamespace) (consumerGroup : ClusterConsumerGroup)
    (segment : ClusterSegment) : bool :=
  bool_decide (seg_Type segment = ClusterSegment_TOPIC) &&
  String.eqb (seg_OwnerNamespace segment) (ns_Name namespace) &&
  bool_decide (seg_OwnerName segment ∈ (b_TopicName <$> cg_Bindings consumerGroup)).

(** The new offset commits, or [None] when there is nothing to change. *)
Definition offset_commits (state : ClusterState) (namespace : ClusterNamespace)
    (consumerGroup : ClusterConsumerGroup) : option (list ClusterConsumerGroup_OffsetCommit) :=
  let m : gset Z := list_to_set (oc_SegmentID <$> cg_OffsetCommits consumerGroup) in
  let bound := List.filter (bound_segment namespace consumerGroup)
                 (OpenSegments state ++ ClosedSegments state) in
  let n : gset Z := list_to_set (seg_ID <$> bound) in
  let newOffsetCommits :=
    (λ segment, {| oc_SegmentID := seg_ID segment; oc_Offset := 0 |}) <$>
      List.filter (λ segment, negb (bool_decide (seg_ID segment ∈ m))) bound in
  if bool_decide (newOffsetCommits = []) && (size m =? size n)%nat then None
  else Some (List.filter (λ commit, bool_decide (oc_SegmentID commit ∈ n))
               (cg_OffsetCommits consumerGroup) ++ newOffsetCommits).

(** The returned index is zero when nothing changed or the command failed. *)
Definition reconcileConsumerGroupOffsetCommits (d : D) (state : ClusterState)
    (namespace : ClusterNamespace) (consumerGroup : ClusterConsumerGroup) : D * Z :=
  match offset_commits state namespace consumerGroup with
  | None => (d, 0)
  | Some commits =>
    let '(d, index) := Apply d (UpdateConsumerGroupOffsetCommits
      {| ocu_Namespace := ns_Name namespace; ocu_Name := cg_Name consumerGroup;
         ocu_OffsetCommits := commits |}) in
    (d, default 0 index)
  end.

Definition ReconcileConsumerGroup (d : D) (now : Z) (state : ClusterState)
    (namespace : ClusterNamespace) (consumerGroup : ClusterConsumerGroup) :
    result Empty_set (D * Z) :=
  '(d, _) ← reconcileConsumerGroupOffsetCommitsSegment d now state namespace consumerGroup
              (CountSegmentsPerNode state);
  Ok (reconcileConsumerGroupOffsetCommits d state namespace consumerGroup).

Fixpoint reconcile_groups (d : D) (now : Z) (state : ClusterState) (namespace : ClusterNamespace)
    (groups : list ClusterConsumerGroup) (m : counts) : result Empty_set (D * counts) :=
  match groups with
  | [] => Ok (d, m)
  | consumerGroup :: groups =>
    '(d, m) ← reconcileConsumerGroupOffsetCommitsSegment d now state namespace consumerGroup m;
    reconcile_groups (reconcileConsumerGroupOffsetCommits d state namespace consumerGroup).1
      now state namespace groups m
  end.

Fixpoint reconcile_namespace_groups (d : D) (now : Z) (state : ClusterState)
    (namespaces : list ClusterNamespace) (m : counts) : result Empty_set (D * counts) :=
  match namespaces with
  | [] => Ok (d, m)
  | namespace :: namespaces =>
    '(d, m) ← reconcile_groups d now state namespace (ns_ConsumerGroups namespace) m;
    reconcile_namespace_groups d now state namespaces m
  end.

Definition ReconcileConsumerGroups (d : D) (now : Z) (state : ClusterState) : result Empty_set D :=
  '(d, _) ← reconcile_namespace_groups d now state (Namespaces state) (CountSegmentsPerNode state);
  Ok d.

End reconciler.
