(* ===== verification/ReconcilerProps.v ===== *)
(** * What the reconciler decides

    The commands issued by src/mq/reconciler_segments.go and reconciler_consumer_groups.go
    for one segment or group, for every delegate. *)
From S2P Require Import Prelude Util Emq ClusterState ClusterOps ClusterInv Reconciler.

(** ** Live nodes *)

Lemma empty_members {A} (l : list A) : (∀ x, x ∉ l) → l = [].
Proof. destruct l as [|x l]; [done|]. intros H. destruct (H x). left. Qed.

Lemma bfilter_comm {A} (f g : A → bool) l :
  List.filter f (List.filter g l) = List.filter g (List.filter f l).
Proof.
  induction l as [|x l IH]; [done|]. cbn [List.filter].
  destruct (f x) eqn:Hf, (g x) eqn:Hg; cbn [List.filter]; rewrite ?Hf, ?Hg, IH; done.
Qed.

Definition node_alive (nodeMap : gmap Z ClusterNode) (id : Z) : bool :=
  match nodeMap !! id with
  | Some node => bool_decide (node_State node = ClusterNode_ALIVE)
  | None => false
  end.

Definition known (nodeMap : gmap Z ClusterNode) (ids : list Z) : Prop :=
  ∀ id, id ∈ ids → is_Some (nodeMap !! id).

Lemma known_cons nodeMap id ids : known nodeMap (id :: ids) ↔ is_Some (nodeMap !! id) ∧ known nodeMap ids.
Proof. unfold known. setoid_rewrite elem_of_cons. naive_solver. Qed.

Lemma is_alive_known nodeMap id :
  is_Some (nodeMap !! id) → is_alive nodeMap id = Ok (node_alive nodeMap id).
Proof. unfold is_alive, node_alive. by intros [node ->]. Qed.

Lemma alive_of_known nodeMap ids :
  known nodeMap ids → alive_of nodeMap ids = Ok (List.filter (node_alive nodeMap) ids).
Proof.
  induction ids as [|id ids IH]; [done|]. intros [Hid Hids]%known_cons. cbn [alive_of].
  rewrite (is_alive_known _ _ Hid), (IH Hids). simpl. by case_if.
Qed.

(** ** Adding replicas *)

Lemma min_candidate_spec m ids : ∀ i best,
  (∀ k id, best = Some (k, id) → (k < i)%nat) →
  best ≠ None ∨ ids ≠ [] →
  ∃ k id, min_candidate m ids i best = Some (k, id) ∧
    (best = Some (k, id) ∨ ((i ≤ k)%nat ∧ ids !! (k - i)%nat = Some id)).
Proof.
  induction ids as [|x ids IH]; intros i best Hlt Hne; cbn [min_candidate].
  { destruct best as [[k id]|]; [eauto 10|naive_solver]. }
  set (best' := match best with None => _ | Some (_, b) => _ end).
  assert (Hcase : best' = best ∨ best' = Some (i, x)).
  { unfold best'. destruct best as [[k b]|]; [case_if|]; auto. }
  destruct (IH (S i) best') as (k & id & Hmin & Hor).
  { intros k id Hb. destruct Hcase as [Hc|Hc]; rewrite Hc in Hb; [apply Hlt in Hb; lia|]. simplify_eq. lia. }
  { left. unfold best'. destruct best as [[? ?]|]; [case_if|]; done. }
  exists k, id. split; [done|]. destruct Hor as [Hb|[Hk Hl]].
  - destruct Hcase as [Hc|Hc]; rewrite Hc in Hb; [by left|]. simplify_eq. right.
    rewrite Nat.sub_diag. split; [lia|done].
  - right. split; [lia|]. replace (k - i)%nat with (S (k - S i)) by lia. done.
Qed.

(** The candidate has the fewest segments. *)
Lemma min_candidate_least m ids : ∀ i best k id,
  min_candidate m ids i best = Some (k, id) →
  (∀ j b, best = Some (j, b) → count_of m id ≤ count_of m b) ∧
  (∀ x, x ∈ ids → count_of m id ≤ count_of m x).
Proof.
  induction ids as [|x ids IH]; intros i best k id; cbn [min_candidate].
  { intros ->. split; [naive_solver|]. by intros ? ?%elem_of_nil. }
  intros [H1 H2]%IH. split.
  - intros j b ->. destruct (Z.ltb_spec (count_of m x) (count_of m b)).
    + specialize (H1 _ _ eq_refl). lia.
    + by apply (H1 j).
  - intros y [->|Hy]%elem_of_cons; [|auto]. destruct best as [[j b]|].
    + destruct (Z.ltb_spec (count_of m x) (count_of m b)).
      * by apply (H1 i).
      * specialize (H1 _ _ eq_refl). lia.
    + by apply (H1 i).
Qed.

Lemma min_candidate_elem m ids :
  ids ≠ [] → ∃ i id, min_candidate m ids 0 None = Some (i, id) ∧ ids !! i = Some id.
Proof.
  intros Hne. destruct (min_candidate_spec m ids 0 None) as (k & id & Hm & [?|[_ Hk]]);
    [done|by right|done|]. exists k, id. by rewrite Nat.sub_0_r in Hk.
Qed.

Lemma add_replicas_spec fuel : ∀ m candidates others replicas limit added,
  length candidates = fuel → NoDup (replicas ++ candidates) →
  0 ≤ others → others + Z.of_nat (length replicas + length candidates) < 2 ^ 32 →
  ∃ m' new, add_replicas fuel m candidates others replicas limit added =
      (m', replicas ++ new, added || negb (bool_decide (new = []))) ∧
    (∀ id, id ∈ new → id ∈ candidates) ∧ NoDup (replicas ++ new) ∧
    Z.of_nat (length new) =
      Z.min (Z.of_nat (length candidates)) (Z.max 0 (limit - others - Z.of_nat (length replicas))).
Proof.
  induction fuel as [|fuel IH]; intros m candidates others replicas limit added Hf Hnd Hpos Hmax;
    cbn [add_replicas].
  { apply nil_length_inv in Hf as ->. exists m, []. rewrite app_nil_r in *.
    rewrite bool_decide_true, orb_false_r by done. split_and!; [done|done|done|simpl; lia]. }
  unfold u32, wrap. rewrite Z.mod_small by lia.
  destruct (Z.ltb_spec (others + Z.of_nat (length replicas)) limit).
  2:{ exists m, []. rewrite app_nil_r, bool_decide_true, orb_false_r by done.
      split_and!; [done|by intros ? ?%elem_of_nil| |simpl; lia].
      by apply NoDup_app in Hnd as [? _]. }
  destruct (min_candidate_elem m candidates) as (i & id & -> & Hi); [by destruct candidates|].
  pose proof (lookup_lt_Some _ _ _ Hi) as Hlt.
  assert (Hperm : candidates ≡ₚ id :: remove_at i candidates).
  { rewrite remove_at_delete. by apply delete_Permutation. }
  assert (Hlen : length (remove_at i candidates) = fuel).
  { apply Permutation_length in Hperm. simpl in Hperm. lia. }
  destruct (IH (incr id m) (remove_at i candidates) others (replicas ++ [id]) limit true)
    as (m' & new & Heq & Hsub & Hnd' & Hl); [done| |done|rewrite length_app; simpl; lia|].
  { rewrite <- app_assoc. simpl. by rewrite <- Hperm. }
  exists m', (id :: new). rewrite Heq, <- !app_assoc. cbn [app]. split_and!.
  - f_equal. by rewrite orb_true_r.
  - intros x [->|Hx]%elem_of_cons; [by eapply list_elem_of_lookup_2|].
    rewrite Hperm. right. auto.
  - by rewrite <- app_assoc in Hnd'.
  - rewrite length_app in Hl. cbn [length] in *. lia.
Qed.

(** A replica was added exactly when the list changed. *)
Lemma add_replicas_alive m free others alive limit :
  NoDup (alive ++ free) → 0 ≤ others →
  others + Z.of_nat (length alive + length free) < 2 ^ 32 →
  ∃ m' new, add_replicas (length free) m free others alive limit false =
      (m', alive ++ new, negb (bool_decide (alive ++ new = alive))) ∧
    (∀ id, id ∈ new → id ∈ free) ∧ NoDup (alive ++ new) ∧
    Z.of_nat (length new) =
      Z.min (Z.of_nat (length free)) (Z.max 0 (limit - others - Z.of_nat (length alive))).
Proof.
  intros Hnd Hpos Hmax.
  destruct (add_replicas_spec (length free) m free others alive limit false)
    as (m' & new & -> & Hsub & Hnd' & Hl); [done..|].
  exists m', new. split_and!; try done. f_equal. cbn [orb]. f_equal. apply bool_decide_ext. split.
  - intros ->. by rewrite app_nil_r.
  - intros He. apply (f_equal length) in He. rewrite length_app in He. apply nil_length_inv. lia.
Qed.

(** ** Dropping replicas *)

Lemma keep_replicas_spec nodeMap ids : ∀ others kept limit m,
  known nodeMap ids → 0 ≤ others → others + Z.of_nat (length kept + length ids) < 2 ^ 32 →
  ∃ m', keep_replicas nodeMap ids others kept limit m =
    Ok (kept ++ take (Z.to_nat (limit - others - Z.of_nat (length kept)))
                  (List.filter (node_alive nodeMap) ids), m').
Proof.
  induction ids as [|id ids IH]; intros others kept limit m Hk Hpos Hmax; cbn [keep_replicas].
  { exists m. cbn [List.filter]. by rewrite take_nil, app_nil_r. }
  apply known_cons in Hk as [Hid Hk]. rewrite (is_alive_known _ _ Hid). simpl.
  unfold u32, wrap. rewrite Z.mod_small by (cbn [length] in Hmax; lia).
  destruct (node_alive nodeMap id); cbn [andb].
  - destruct (Z.ltb_spec (others + Z.of_nat (length kept)) limit).
    + destruct (IH others (kept ++ [id]) limit m) as [m' ->];
        [done|done|rewrite length_app; cbn [length] in *; lia|].
      exists m'. rewrite <- app_assoc, length_app. cbn [length].
      replace (Z.to_nat (limit - others - Z.of_nat (length kept)))
        with (S (Z.to_nat (limit - others - Z.of_nat (length kept + 1)))) by lia. done.
    + destruct (IH others kept limit (decr id m)) as [m' ->]; [done|done|cbn [length] in *; lia|].
      exists m'. by replace (Z.to_nat (limit - others - Z.of_nat (length kept))) with 0%nat by lia.
  - destruct (IH others kept limit (decr id m)) as [m' ->]; [done|done|cbn [length] in *; lia|]. eauto.
Qed.

Lemma take_alive_spec nodeMap ids : ∀ taken replicationFactor,
  known nodeMap ids → Z.of_nat (length taken + length ids) < 2 ^ 32 →
  Z.of_nat (length taken) < replicationFactor →
  take_alive nodeMap ids taken replicationFactor =
  Ok (taken ++ take (Z.to_nat (replicationFactor - Z.of_nat (length taken)))
                (List.filter (node_alive nodeMap) ids)).
Proof.
  induction ids as [|id ids IH]; intros taken rf Hk Hmax Hlt; cbn [take_alive].
  { cbn [List.filter]. by rewrite take_nil, app_nil_r. }
  apply known_cons in Hk as [Hid Hk]. rewrite (is_alive_known _ _ Hid). simpl.
  destruct (node_alive nodeMap id); [|apply IH; [done|cbn [length] in *; lia|done]].
  unfold u32, wrap. rewrite length_app. cbn [length] in *. rewrite Z.mod_small by lia.
  destruct (Z.leb_spec rf (Z.of_nat (length taken + 1))).
  - replace (Z.to_nat (rf - Z.of_nat (length taken))) with 1%nat by lia. simpl. by rewrite take_0.
  - rewrite IH by (rewrite ?length_app; cbn [length]; (done || lia)).
    rewrite <- app_assoc, length_app. cbn [length].
    replace (Z.to_nat (rf - Z.of_nat (length taken)))
      with (S (Z.to_nat (rf - Z.of_nat (length taken + 1)))) by lia. done.
Qed.

(** ** Placement of a segment *)

(** The nodes of a segment are known and distinct, and the candidates are the live nodes. *)
Record placed (nodeMap : gmap Z ClusterNode) (cands holders : list Z) : Prop := {
  placed_known : known nodeMap holders;
  placed_distinct : NoDup holders;
  placed_cands : NoDup cands;
  placed_alive : ∀ id, id ∈ cands → node_alive nodeMap id = true;
  placed_bound : Z.of_nat (length holders + length cands) < 2 ^ 32 - 1;
}.

Lemma candidates_without_spec cands used id :
  id ∈ candidates_without cands used ↔ id ∈ cands ∧ id ∉ used.
Proof.
  unfold candidates_without. rewrite elem_of_bfilter, negb_true_iff, bool_decide_eq_false. naive_solver.
Qed.

Lemma NoDup_candidates cands used : NoDup cands → NoDup (candidates_without cands used).
Proof. intros H. eapply sublist_NoDup; [done|apply sublist_bfilter]. Qed.

Lemma length_bfilter {A} (f : A → bool) l : (length (List.filter f l) ≤ length l)%nat.
Proof. apply filter_length_le. Qed.

(** Replicas after adding candidates to the live ones. *)
Lemma replicas_extended nodeMap used alive cands new :
  (∀ id, id ∈ alive → node_alive nodeMap id = true) →
  (∀ id, id ∈ cands → node_alive nodeMap id = true) →
  (∀ id, id ∈ new → id ∈ candidates_without cands used) →
  ∀ id, id ∈ alive ++ new → node_alive nodeMap id = true.
Proof.
  intros H1 H2 H3 id [Hid|Hid]%elem_of_app; [auto|].
  apply H3, candidates_without_spec in Hid as [Hid _]. auto.
Qed.

Section placement.
Context {D : Type} `{ReconcilerDelegate D}.
Context (nodeMap : gmap Z ClusterNode) (cands : list Z) (segment : ClusterSegment).

Let nodes := seg_Nodes segment.
Let primary := PrimaryNodeID nodes.
Let replicating := ReplicatingNodeIDs nodes.
Let alive := List.filter (node_alive nodeMap) replicating.

Lemma alive_alive id : id ∈ alive → node_alive nodeMap id = true.
Proof. by intros [? _]%elem_of_bfilter. Qed.

(** ** Open segments *)

Definition open_free : list Z := candidates_without cands (primary :: alive).

(** How many replicas an open segment should have. *)
Definition open_target (replicationFactor : Z) : Z :=
  Z.min (replicationFactor - 1) (Z.of_nat (length alive + length open_free)).

Lemma open_disjoint : placed nodeMap cands (primary :: replicating) → NoDup (alive ++ open_free).
Proof.
  intros [_ Hnd Hcands _ _]. apply NoDup_cons in Hnd as [_ Hnd]. apply NoDup_app. split_and!.
  - eapply sublist_NoDup; [exact Hnd|apply sublist_bfilter].
  - intros id Hid [_ Hno]%candidates_without_spec. set_solver.
  - by apply NoDup_candidates.
Qed.

Lemma alive_primary : NoDup (primary :: replicating) → primary ∉ alive.
Proof.
  intros [Hp _]%NoDup_cons Hin. apply elem_of_bfilter in Hin as [_ Hin]. done.
Qed.

(** An over-replicated segment keeps its first live replicas. *)
Lemma open_kept replicationFactor m :
  known nodeMap replicating → Z.of_nat (length replicating) + 1 < 2 ^ 32 → 1 ≤ replicationFactor →
  ∃ m', (if 0 <? replicationFactor - 1
         then keep_replicas nodeMap replicating 1 [] replicationFactor m else Ok ([], m)) =
    Ok (take (Z.to_nat (replicationFactor - 1)) alive, m').
Proof.
  intros Hk Hb Hrf. destruct (Z.ltb_spec 0 (replicationFactor - 1)).
  - destruct (keep_replicas_spec nodeMap replicating 1 [] replicationFactor m) as [m' ->];
      [done|lia|simpl; lia|]. exists m'. cbn [app length]. fold alive. do 3 f_equal. lia.
  - exists m. by replace (Z.to_nat (replicationFactor - 1)) with 0%nat by lia.
Qed.

Lemma open_alive_spec (d : D) replicationFactor m :
  placed nodeMap cands (primary :: replicating) → 1 ≤ replicationFactor < 2 ^ 32 →
  ∃ replicas m',
    reconcileOpenSegmentWithAlivePrimary d segment replicationFactor m nodeMap cands =
      Ok (if bool_decide (replicas = alive) then d
          else (Apply d (update_nodes segment Which_OPEN primary replicas [])).1, m') ∧
    NoDup (primary :: replicas) ∧ (∀ id, id ∈ replicas → node_alive nodeMap id = true) ∧
    Z.of_nat (length replicas) = open_target replicationFactor ∧
    (replicas `prefix_of` alive ∨ alive `prefix_of` replicas).
Proof.
  intros Hp Hrf. pose proof Hp as [Hk Hnd Hcands Halive Hbound].
  apply known_cons in Hk as [_ Hk]. pose proof (open_disjoint Hp) as Hdis.
  pose proof (alive_primary Hnd) as Hpa.
  assert (Hlen : (length alive ≤ length replicating)%nat) by apply length_bfilter.
  assert (Hfree : (length open_free ≤ length cands)%nat) by apply length_bfilter.
  cbn [length] in Hbound. unfold reconcileOpenSegmentWithAlivePrimary.
  fold nodes primary replicating. destruct (Z.ltb_spec replicationFactor 1); [lia|].
  rewrite (alive_of_known _ _ Hk). fold alive. cbn [mbind result_bind].
  replace (u32 (1 + Z.of_nat (length alive))) with (1 + Z.of_nat (length alive))
    by (symmetry; apply Z.mod_small; lia).
  replace (u32 (replicationFactor - 1)) with (replicationFactor - 1)
    by (symmetry; apply Z.mod_small; lia).
  pose proof (NoDup_app alive open_free) as [Happ _]. destruct (Happ Hdis) as (Hnda & _ & _).
  destruct (Z.ltb_spec replicationFactor (1 + Z.of_nat (length alive))) as [Hover|Hover].
  - destruct (open_kept replicationFactor m Hk) as (m' & ->); [lia..|].
    set (kept := take _ alive). exists kept, m'. cbn [mbind result_bind].
    assert (Hkl : length kept = Z.to_nat (replicationFactor - 1)) by (apply length_take_le; lia).
    rewrite bool_decide_false by (intros Heq; rewrite <- Heq in Hover; lia).
    split_and!; [done| | |unfold open_target; lia|left; apply prefix_take].
    + apply NoDup_cons. split; [|eapply sublist_NoDup; [exact Hnda|apply sublist_take]].
      intros Hin. apply Hpa. eapply elem_of_sublist; [done|apply sublist_take].
    + intros id Hid. apply alive_alive. eapply elem_of_sublist; [done|apply sublist_take].
  - destruct (Z.ltb_spec (1 + Z.of_nat (length alive)) replicationFactor) as [Hunder|Hexact].
    + fold open_free.
      destruct (add_replicas_alive m open_free 0 alive (replicationFactor - 1))
        as (m' & new & -> & Hsub & Hnd' & Hl); [done|lia|lia|].
      exists (alive ++ new), m'. split_and!.
      * by destruct (bool_decide (alive ++ new = alive)).
      * apply NoDup_cons. split; [|done]. rewrite elem_of_app. intros [?|Hin%Hsub]; [done|].
        apply candidates_without_spec in Hin as [_ Hin]. set_solver.
      * eapply replicas_extended; [apply alive_alive|done|done].
      * unfold open_target. rewrite length_app. lia.
      * right. by apply prefix_app_r.
    + exists alive, m. rewrite bool_decide_true by done.
      split_and!; [done|by apply NoDup_cons|apply alive_alive|unfold open_target; lia|by left].
Qed.

(** ** Closed segments *)

Let done := DoneNodeIDs nodes.
Let alive_done := List.filter (node_alive nodeMap) done.

Definition closed_free : list Z := candidates_without cands (alive_done ++ alive).

(** How many copies a closed segment should have. *)
Definition closed_target (replicationFactor : Z) : Z :=
  Z.min replicationFactor
    (Z.of_nat (length alive_done + length alive + length closed_free)).

Definition keep_done (replicationFactor : Z) : list Z :=
  take (Z.to_nat replicationFactor) alive_done.

Lemma alive_done_alive id : id ∈ alive_done → node_alive nodeMap id = true.
Proof. by intros [? _]%elem_of_bfilter. Qed.

Lemma closed_disjoint :
  placed nodeMap cands (done ++ replicating) → NoDup ((alive_done ++ alive) ++ closed_free).
Proof.
  intros [_ Hnd Hcands _ _]. apply NoDup_app. split_and!.
  - eapply sublist_NoDup; [exact Hnd|]. apply sublist_app; apply sublist_bfilter.
  - intros id Hid [_ Hno]%candidates_without_spec. done.
  - by apply NoDup_candidates.
Qed.

(** The copies of an over-replicated closed segment. *)
Lemma closed_kept replicationFactor m :
  known nodeMap (done ++ replicating) → Z.of_nat (length (done ++ replicating)) < 2 ^ 32 →
  1 ≤ replicationFactor →
  take_alive nodeMap done [] replicationFactor = Ok (keep_done replicationFactor) ∧
  ∃ m', (if u32 (Z.of_nat (length (keep_done replicationFactor))) <? replicationFactor
         then keep_replicas nodeMap replicating (Z.of_nat (length (keep_done replicationFactor))) []
                replicationFactor m
         else Ok ([], m)) =
    Ok (take (Z.to_nat (replicationFactor - Z.of_nat (length (keep_done replicationFactor)))) alive, m').
Proof.
  intros Hk Hb Hrf. rewrite length_app in Hb.
  assert (Hd : (length (keep_done replicationFactor) ≤ length done)%nat).
  { unfold keep_done. rewrite length_take.
    assert ((length alive_done ≤ length done)%nat) by apply length_bfilter. lia. }
  split.
  - rewrite take_alive_spec; [by rewrite Z.sub_0_r|intros id Hid; apply Hk; set_solver|simpl; lia|simpl; lia].
  - unfold u32, wrap. rewrite Z.mod_small by lia.
    destruct (Z.ltb_spec (Z.of_nat (length (keep_done replicationFactor))) replicationFactor).
    + destruct (keep_replicas_spec nodeMap replicating (Z.of_nat (length (keep_done replicationFactor)))
        [] replicationFactor m) as [m' ->]; [intros id Hid; apply Hk; set_solver|lia|simpl; lia|].
      exists m'. cbn [app length]. fold alive. do 3 f_equal. lia.
    + exists m. replace (Z.to_nat _) with 0%nat by lia. done.
Qed.

(** The copies are distinct and live. *)
Definition copies_ok (copies : list Z) (n : Z) : Prop :=
  NoDup copies ∧ (∀ id, id ∈ copies → node_alive nodeMap id = true) ∧ Z.of_nat (length copies) = n.

Lemma closed_alive id : id ∈ alive_done ++ alive → node_alive nodeMap id = true.
Proof. intros [?|?]%elem_of_app; [by apply alive_done_alive|by apply alive_alive]. Qed.

Lemma closed_over replicationFactor :
  placed nodeMap cands (done ++ replicating) → 1 ≤ replicationFactor →
  replicationFactor < Z.of_nat (length alive_done) + Z.of_nat (length alive) →
  let kept := keep_done replicationFactor in
  let replicas := take (Z.to_nat (replicationFactor - Z.of_nat (length kept))) alive in
  copies_ok (kept ++ replicas) (closed_target replicationFactor) ∧
  kept ++ replicas ≠ alive_done ++ alive.
Proof.
  intros Hp Hrf Hover kept replicas.
  pose proof (closed_disjoint Hp) as (Hnda & _ & _)%NoDup_app.
  assert (Hsub : sublist (kept ++ replicas) (alive_done ++ alive)).
  { apply sublist_app; apply sublist_take. }
  assert (Hlen : Z.of_nat (length (kept ++ replicas)) = replicationFactor).
  { unfold replicas, kept, keep_done. rewrite length_app, !length_take. lia. }
  split.
  - split_and!; [by eapply sublist_NoDup| |unfold closed_target; lia].
    intros id Hid. apply closed_alive. by eapply elem_of_sublist.
  - intros Heq. rewrite Heq, length_app in Hlen. lia.
Qed.

Lemma closed_under replicationFactor new :
  placed nodeMap cands (done ++ replicating) →
  Z.of_nat (length alive_done) + Z.of_nat (length alive) < replicationFactor →
  (∀ id, id ∈ new → id ∈ closed_free) → NoDup (alive ++ new) →
  Z.of_nat (length new) = Z.min (Z.of_nat (length closed_free))
    (Z.max 0 (replicationFactor - Z.of_nat (length alive_done) - Z.of_nat (length alive))) →
  copies_ok (alive_done ++ alive ++ new) (closed_target replicationFactor).
Proof.
  intros Hp Hunder Hsub Hnd Hl. pose proof Hp as [_ _ _ Halive _].
  pose proof (closed_disjoint Hp) as (Hnda & _ & _)%NoDup_app.
  apply NoDup_app in Hnda as (Hnd1 & Hdis & _). split_and!.
  - apply NoDup_app. split_and!; [done| |done]. intros id Hid. rewrite elem_of_app.
    intros [Hin|Hin%Hsub]; [by eapply Hdis|].
    apply candidates_without_spec in Hin as [_ Hin]. set_solver.
  - intros id. rewrite !elem_of_app. intros [Hid|[Hid|Hid%Hsub]].
    + by apply alive_done_alive.
    + by apply alive_alive.
    + apply candidates_without_spec in Hid as [Hid _]. auto.
  - unfold closed_target. rewrite !length_app. lia.
Qed.

Lemma closed_spec (d : D) replicationFactor m :
  placed nodeMap cands (done ++ replicating) → 1 ≤ replicationFactor < 2 ^ 32 →
  (alive_done = [] → replicate_closed d segment replicationFactor m nodeMap cands = Ok (d, m)) ∧
  (alive_done ≠ [] → ∃ replicas m',
    let kept := keep_done replicationFactor in
    replicate_closed d segment replicationFactor m nodeMap cands =
      Ok (if bool_decide (kept ++ replicas = alive_done ++ alive) then d
          else (Apply d (update_nodes segment Which_CLOSED 0 replicas kept)).1, m') ∧
    copies_ok (kept ++ replicas) (closed_target replicationFactor) ∧ kept ≠ []).
Proof.
  intros Hp Hrf. pose proof Hp as [Hk Hnd Hcands Halive Hbound]. rewrite length_app in Hbound.
  assert (Hl1 : (length alive_done ≤ length done)%nat) by apply length_bfilter.
  assert (Hl2 : (length alive ≤ length replicating)%nat) by apply length_bfilter.
  assert (Hl3 : (length closed_free ≤ length cands)%nat) by apply length_bfilter.
  assert (Hk1 : known nodeMap done) by (intros id Hid; apply Hk; set_solver).
  assert (Hk2 : known nodeMap replicating) by (intros id Hid; apply Hk; set_solver).
  pose proof (closed_disjoint Hp) as Hdis. unfold replicate_closed. fold nodes done replicating.
  rewrite (alive_of_known _ _ Hk1). cbn [mbind result_bind]. rewrite (alive_of_known _ _ Hk2).
  cbn [mbind result_bind]. fold alive_done alive.
  replace (u32 (Z.of_nat (length alive_done) + Z.of_nat (length alive)))
    with (Z.of_nat (length alive_done) + Z.of_nat (length alive)) by (symmetry; apply Z.mod_small; lia).
  replace (u32 (Z.of_nat (length alive_done))) with (Z.of_nat (length alive_done))
    by (symmetry; apply Z.mod_small; lia).
  destruct (Z.ltb_spec replicationFactor 1); [lia|]. split.
  { intros ->. simpl. by repeat case_if. }
  intros Hne. assert (Hpos : (1 ≤ length alive_done)%nat) by (destruct alive_done; [done|simpl; lia]).
  destruct (Z.eqb_spec (Z.of_nat (length alive_done)) 0); [lia|].
  assert (Hkept : keep_done replicationFactor ≠ []).
  { unfold keep_done. intros He. apply (f_equal length) in He. rewrite length_take in He. simpl in He. lia. }
  destruct (Z.ltb_spec replicationFactor (Z.of_nat (length alive_done) + Z.of_nat (length alive)))
    as [Hover|Hover].
  - destruct (closed_kept replicationFactor m Hk) as (-> & m' & Hm'); [rewrite length_app; lia|lia|].
    cbn [mbind result_bind]. rewrite Hm'. cbn [mbind result_bind].
    destruct (closed_over replicationFactor Hp ltac:(lia) Hover) as [Hok Hdiff].
    eexists _, m'. cbv zeta. rewrite bool_decide_false by done. done.
  - assert (Hall : keep_done replicationFactor = alive_done) by (apply take_ge; lia).
    rewrite Hall in *.
    destruct (Z.ltb_spec (Z.of_nat (length alive_done) + Z.of_nat (length alive)) replicationFactor)
      as [Hunder|Hexact].
    + fold closed_free.
      destruct (add_replicas_alive m closed_free (Z.of_nat (length alive_done)) alive replicationFactor)
        as (m' & new & -> & Hsub & Hnd' & Hl); [|lia|lia|].
      { rewrite <- app_assoc in Hdis. by apply NoDup_app in Hdis as (_ & _ & ?). }
      exists (alive ++ new), m'. cbv zeta. split_and!; [|by apply closed_under..|done].
      replace (bool_decide (alive_done ++ alive ++ new = alive_done ++ alive))
        with (bool_decide (alive ++ new = alive)); [by case_bool_decide|].
      apply bool_decide_ext. split; [congruence|]. by intros ?%app_inv_head.
    + exists alive, m. cbv zeta. rewrite bool_decide_true by done.
      split; [done|]. split; [|done]. apply NoDup_app in Hdis as (? & _ & _).
      split_and!; [done|apply closed_alive|unfold closed_target; rewrite length_app; lia].
Qed.

End placement.

(** ** Promotion of a replica *)

Section promotion.
Context {D : Type} `{ReconcilerDelegate D}.
Context (sizes : Z → result () Z).

Lemma largest_replica_answers segment nodeMap ids :
  (∀ (d : D) id addr, GetSegmentSizeFromNode d (seg_ID segment) id addr = (d, sizes id)) →
  known nodeMap ids →
  (∀ id, id ∈ ids → node_alive nodeMap id = true → ∃ z, sizes id = Ok z) →
  ∀ (d : D) best, ∃ r, largest_replica d segment nodeMap ids best = Ok (d, Some r) ∧ best.2 ≤ r.2 ∧
    (∀ id z, id ∈ ids → node_alive nodeMap id = true → sizes id = Ok z → z ≤ r.2) ∧
    (r = best ∨ (r.1 ∈ ids ∧ node_alive nodeMap r.1 = true ∧ sizes r.1 = Ok r.2)).
Proof.
  intros Hpure. induction ids as [|id ids IH]; intros Hk Hans d best; cbn [largest_replica].
  { exists best. split_and!; [done|lia|by intros ? ? ?%elem_of_nil|by left]. }
  apply known_cons in Hk as [[node Hnode] Hk].
  specialize (IH Hk ltac:(intros; apply Hans; [by right|done])).
  assert (Ha : node_alive nodeMap id = bool_decide (node_State node = ClusterNode_ALIVE))
    by (unfold node_alive; by rewrite Hnode).
  rewrite Hnode. destruct (bool_decide (node_State node = ClusterNode_ALIVE)) eqn:Eb; cbn [negb].
  - destruct (Hans id ltac:(left) Ha) as [z Hz]. rewrite Hpure, Hz.
    destruct (IH d (if best.2 <? z then (id, z) else best)) as (r & -> & H1 & H2 & H3).
    exists r. split; [done|]. destruct (Z.ltb_spec best.2 z); simpl in H1.
    + split_and!; [lia| |].
      * intros id' z' [->|Hin]%elem_of_cons Ha' Hz'; [|by eapply H2]. assert (z' = z) by congruence. lia.
      * right. destruct H3 as [->|(H3 & H4)]; [split; [left|done]|split; [by right|done]].
    + split_and!; [lia| |].
      * intros id' z' [->|Hin]%elem_of_cons Ha' Hz'; [|by eapply H2]. assert (z' = z) by congruence. lia.
      * destruct H3 as [->|(H3 & H4)]; [by left|right; split; [by right|done]].
  - destruct (IH d best) as (r & -> & H1 & H2 & H3). exists r. split_and!; [done|lia| |].
    + intros id' z' [->|Hin]%elem_of_cons Ha' Hz'; [congruence|by eapply H2].
    + destruct H3 as [->|(H3 & H4)]; [by left|right; split; [by right|done]].
Qed.

End promotion.

(** ** Offset commits of a consumer group *)

Section offset_commits.
Context (s : ClusterState) (ns : ClusterNamespace) (cg : ClusterConsumerGroup).
Context (Hwf : cluster_wf s) (Hns : ns ∈ Namespaces s) (Hcg : cg ∈ ns_ConsumerGroups ns).

(** The identifiers of the segments the group reads. *)
Definition bound_id (id : Z) : Prop :=
  ∃ seg, seg ∈ OpenSegments s ++ ClosedSegments s ∧ bound_segment ns cg seg = true ∧ seg_ID seg = id.

Let old := oc_SegmentID <$> cg_OffsetCommits cg.
Let bound := List.filter (bound_segment ns cg) (OpenSegments s ++ ClosedSegments s).
Let fresh := List.filter (λ seg, negb (bool_decide (seg_ID seg ∈ (list_to_set old : gset Z)))) bound.

Lemma bound_id_spec id : id ∈ (list_to_set (seg_ID <$> bound) : gset Z) ↔ bound_id id.
Proof.
  rewrite elem_of_list_to_set, list_elem_of_fmap. unfold bound_id, bound.
  setoid_rewrite elem_of_bfilter. naive_solver.
Qed.

Lemma fresh_spec seg : seg ∈ fresh ↔ seg ∈ bound ∧ seg_ID seg ∉ old.
Proof.
  unfold fresh. rewrite elem_of_bfilter, negb_true_iff, bool_decide_eq_false, elem_of_list_to_set.
  naive_solver.
Qed.

Lemma NoDup_segments : NoDup (seg_ID <$> OpenSegments s ++ ClosedSegments s).
Proof using Hwf.
  destruct (wf_segs s Hwf) as [H1 H2 H3 _]. rewrite fmap_app. apply NoDup_app. split_and!.
  - by apply sorted_by_NoDup.
  - intros id (x & -> & Hx)%list_elem_of_fmap (y & Heq & Hy)%list_elem_of_fmap. by eapply H3.
  - by apply sorted_by_NoDup.
Qed.

Lemma NoDup_old : NoDup old.
Proof using Hwf Hns Hcg.
  apply sorted_by_NoDup, (ns_wf_commits ns); [by apply (wf_ns s)|done].
Qed.

Lemma NoDup_fresh : NoDup (seg_ID <$> fresh).
Proof using Hwf.
  eapply sublist_NoDup; [apply NoDup_segments|]. apply fmap_sublist.
  etrans; [apply sublist_bfilter|apply sublist_bfilter].
Qed.

Lemma offset_commits_None : offset_commits s ns cg = None → ∀ id, id ∈ old ↔ bound_id id.
Proof using Type.
  unfold offset_commits. fold old bound. fold fresh. case_if; [|done]. intros _ id. bool_to_prop.
  assert (Hfresh : fresh = []) by (by apply fmap_nil_inv in H).
  assert (Hsub : (list_to_set (seg_ID <$> bound) : gset Z) ⊆ list_to_set old).
  { intros x Hx. apply elem_of_list_to_set in Hx. apply list_elem_of_fmap in Hx as (seg & -> & Hseg).
    rewrite elem_of_list_to_set. destruct (decide (seg_ID seg ∈ old)); [done|].
    assert (Hin : seg ∈ fresh) by (by apply fresh_spec). rewrite Hfresh in Hin. by apply elem_of_nil in Hin. }
  assert (Heq : (list_to_set (seg_ID <$> bound) : gset Z) = list_to_set old).
  { apply set_subseteq_size_eq; [done|]. lia. }
  rewrite <- bound_id_spec, Heq. by rewrite elem_of_list_to_set.
Qed.

Lemma offset_commits_stable : (∀ id, id ∈ old ↔ bound_id id) → offset_commits s ns cg = None.
Proof using Type.
  intros Hall. unfold offset_commits. fold old bound. fold fresh.
  assert (Hfresh : fresh = []).
  { apply empty_members. intros seg [Hseg Hold]%fresh_spec. apply Hold, Hall.
    apply bound_id_spec, elem_of_list_to_set. by apply list_elem_of_fmap_2. }
  assert (Heq : (list_to_set old : gset Z) = list_to_set (seg_ID <$> bound)).
  { apply set_eq. intros id. by rewrite bound_id_spec, elem_of_list_to_set. }
  by rewrite Hfresh, Heq, Nat.eqb_refl.
Qed.

Lemma offset_commits_Some commits :
  offset_commits s ns cg = Some commits →
  NoDup (oc_SegmentID <$> commits) ∧
  (∀ id, id ∈ oc_SegmentID <$> commits ↔ bound_id id) ∧
  (∀ c, c ∈ commits → c ∈ cg_OffsetCommits cg ∨ (oc_Offset c = 0 ∧ oc_SegmentID c ∉ old)) ∧
  (∀ c, c ∈ cg_OffsetCommits cg → bound_id (oc_SegmentID c) → c ∈ commits).
Proof using Hwf Hns Hcg.
  unfold offset_commits. fold old bound. fold fresh. case_if; [done|]. intros Heq. injection Heq as <-.
  set (keep := List.filter _ (cg_OffsetCommits cg)).
  assert (Hkeep : ∀ c, c ∈ keep ↔ bound_id (oc_SegmentID c) ∧ c ∈ cg_OffsetCommits cg).
  { intros c. unfold keep. by rewrite elem_of_bfilter, bool_decide_eq_true, bound_id_spec. }
  set (new := _ <$> fresh).
  assert (Hnew : oc_SegmentID <$> new = seg_ID <$> fresh).
  { unfold new. rewrite <- list_fmap_compose. by apply list_fmap_ext. }
  split_and!.
  - rewrite fmap_app, Hnew. apply NoDup_app. split_and!; [| |apply NoDup_fresh].
    + eapply sublist_NoDup; [apply NoDup_old|]. apply fmap_sublist, sublist_bfilter.
    + intros id (c & -> & Hc)%list_elem_of_fmap (seg & Heq & [_ Hseg]%fresh_spec)%list_elem_of_fmap.
      apply Hkeep in Hc as [_ Hc]. destruct Hseg. rewrite <- Heq. by apply list_elem_of_fmap_2.
  - intros id. rewrite fmap_app, elem_of_app, Hnew. split.
    + intros [(c & -> & Hc)%list_elem_of_fmap|(seg & -> & [Hseg _]%fresh_spec)%list_elem_of_fmap].
      * by apply Hkeep in Hc as [? _].
      * apply bound_id_spec, elem_of_list_to_set. by apply list_elem_of_fmap_2.
    + intros Hid. destruct (decide (id ∈ old)) as [(c & -> & Hc)%list_elem_of_fmap|Hold].
      * left. apply list_elem_of_fmap_2, Hkeep. done.
      * right. apply bound_id_spec, elem_of_list_to_set, list_elem_of_fmap in Hid as (seg & -> & Hseg).
        apply list_elem_of_fmap_2. by apply fresh_spec.
  - intros c [[_ ?]%Hkeep|(seg & -> & [_ Hseg]%fresh_spec)%list_elem_of_fmap]%elem_of_app; [by left|].
    by right.
  - intros c Hc Hb. apply elem_of_app. left. by apply Hkeep.
Qed.

End offset_commits.

(** ** A delegate that records the commands, for the witnesses *)

Definition recorder : ReconcilerDelegate (list ClusterCommand) :=
  {| Apply := λ d cmd, (d ++ [cmd], Some 1);
     Members := λ _, [];
     AddVoter := λ d _ _, (d, true);
     GetSegmentSizeFromNode := λ d _ id _, (d, Ok (10 * id));
     delegate_NextSegmentID := λ d, (d, 100) |}.

Definition demo_nodes : list ClusterNode :=
  [demo_node 1 ClusterNode_ALIVE; demo_node 2 ClusterNode_ALIVE; demo_node 3 ClusterNode_DEAD;
   demo_node 4 ClusterNode_ALIVE].

Definition demo_placed (primary : Z) (replicating done : list Z) : ClusterSegment :=
  demo_segment 3 ClusterSegment_TOPIC "t" 0 0
    {| PrimaryNodeID := primary; DoneNodeIDs := done; ReplicatingNodeIDs := replicating |}.

Definition placed_b (nodeMap : gmap Z ClusterNode) (cands holders : list Z) : bool :=
  forallb (λ id, bool_decide (is_Some (nodeMap !! id))) holders &&
  bool_decide (NoDup holders) && bool_decide (NoDup cands) &&
  forallb (node_alive nodeMap) cands &&
  (Z.of_nat (length holders + length cands) <? 2 ^ 32 - 1).

Lemma placed_b_true nodeMap cands holders :
  placed_b nodeMap cands holders = true → placed nodeMap cands holders.
Proof.
  unfold placed_b. rewrite !andb_true_iff, !forallb_elem_of, !bool_decide_eq_true, Z.ltb_lt.
  intros [[[[H1 H2] H3] H4] H5]. constructor; try done.
  intros id Hid. specialize (H1 id Hid). by apply bool_decide_eq_true in H1.
Qed.

(** The demo cluster with a group that lacks an offset and has one of a segment it does not read. *)
Definition stale_group : ClusterConsumerGroup :=
  with_OffsetCommits demo_group [{| oc_SegmentID := 1; oc_Offset := 40 |};
                                 {| oc_SegmentID := 4; oc_Offset := 7 |}].

Definition stale_namespace : ClusterNamespace :=
  {| ns_Name := "default"; ns_Topics := [demo_topic "orders"; demo_topic "audit"];
     ns_ConsumerGroups := [stale_group] |}.

Definition stale_state : ClusterState := with_Namespaces demo_state [stale_namespace].

(** ** Properties *)

(** Replication of an open segment is restored (C27): when the primary is alive, the nodes of the segment are known and
    distinct and the candidates are the live nodes, reconciling the segment does not panic and aims
    at replicas that are alive, distinct and different from the primary, and
    that number one less than the replication factor or, when there are not enough live
    nodes, as many as there are; live replicas are kept, extra ones are dropped from the end;
    a command is issued exactly when this changes the live replicas, and the primary stays. *)
Theorem open_replication_restored {D} `{ReconcilerDelegate D} (d : D) segment nodeMap cands rf m :
  let nodes := seg_Nodes segment in
  let primary := PrimaryNodeID nodes in
  let alive := List.filter (node_alive nodeMap) (ReplicatingNodeIDs nodes) in
  placed nodeMap cands (primary :: ReplicatingNodeIDs nodes) → 1 ≤ rf < 2 ^ 32 →
  ∃ replicas m',
    reconcileOpenSegmentWithAlivePrimary d segment rf m nodeMap cands =
      Ok (if bool_decide (replicas = alive) then d
          else (Apply d (update_nodes segment Which_OPEN primary replicas [])).1, m') ∧
    NoDup (primary :: replicas) ∧ (∀ id, id ∈ replicas → node_alive nodeMap id = true) ∧
    Z.of_nat (length replicas) =
      Z.min (rf - 1) (Z.of_nat (length alive +
        length (List.filter (λ id, negb (bool_decide (id ∈ primary :: alive))) cands))) ∧
    (replicas `prefix_of` alive ∨ alive `prefix_of` replicas).
Proof. intros nodes primary alive Hp Hrf. by apply open_alive_spec. Qed.

Lemma open_replication_restored_witness :
  ∃ replicas m', @reconcileOpenSegmentWithAlivePrimary _ recorder [] (demo_placed 1 [3] []) 3 ∅
      (nodeMap_of demo_nodes) (alive_ids demo_nodes) =
    Ok ([update_nodes (demo_placed 1 [3] []) Which_OPEN 1 replicas []], m') ∧
    NoDup (1 :: replicas) ∧ length replicas = 2%nat.
Proof.
  destruct (@open_replication_restored _ recorder [] (demo_placed 1 [3] []) (nodeMap_of demo_nodes)
    (alive_ids demo_nodes) 3 ∅) as (replicas & m' & H1 & H2 & H3 & H4 & H5);
    [apply placed_b_true; vm_compute; reflexivity|lia|].
  assert (Hl : length replicas = 2%nat).
  { apply Nat2Z.inj. rewrite H4. vm_compute. reflexivity. }
  exists replicas, m'. split_and!; [|exact H2|exact Hl]. rewrite H1.
  destruct replicas as [|x replicas]; [discriminate Hl|]. reflexivity.
Defined.

(** Copies of a closed segment: when no live node has a complete copy, reconciling leaves the segment alone;
    otherwise it aims at live and distinct nodes, of which at least one has a complete
    copy, numbering the replication factor or as many as there are live nodes; nodes with a complete
    copy are preferred, and a command is issued exactly when the live copies change. *)
Theorem closed_replication_restored {D} `{ReconcilerDelegate D} (d : D) segment nodeMap cands rf m :
  let nodes := seg_Nodes segment in
  let alive := List.filter (node_alive nodeMap) (ReplicatingNodeIDs nodes) in
  let alive_done := List.filter (node_alive nodeMap) (DoneNodeIDs nodes) in
  placed nodeMap cands (DoneNodeIDs nodes ++ ReplicatingNodeIDs nodes) → 1 ≤ rf < 2 ^ 32 →
  (alive_done = [] → replicate_closed d segment rf m nodeMap cands = Ok (d, m)) ∧
  (alive_done ≠ [] → ∃ replicas m',
    let kept := take (Z.to_nat rf) alive_done in
    replicate_closed d segment rf m nodeMap cands =
      Ok (if bool_decide (kept ++ replicas = alive_done ++ alive) then d
          else (Apply d (update_nodes segment Which_CLOSED 0 replicas kept)).1, m') ∧
    NoDup (kept ++ replicas) ∧ (∀ id, id ∈ kept ++ replicas → node_alive nodeMap id = true) ∧
    Z.of_nat (length (kept ++ replicas)) =
      Z.min rf (Z.of_nat (length alive_done + length alive +
        length (List.filter (λ id, negb (bool_decide (id ∈ alive_done ++ alive))) cands))) ∧
    kept ≠ []).
Proof.
  intros nodes alive alive_done Hp Hrf.
  destruct (closed_spec nodeMap cands segment d rf m Hp Hrf) as [H1 H2]. split; [exact H1|].
  intros Hne. destruct (H2 Hne) as (replicas & m' & H3 & (H4 & H5 & H6) & H7).
  exists replicas, m'. by split_and!.
Qed.

Lemma closed_replication_restored_witness :
  ∃ replicas m', @replicate_closed _ recorder [] (demo_placed 0 [4] [1; 2]) 2 ∅
      (nodeMap_of demo_nodes) (alive_ids demo_nodes) =
    Ok ([update_nodes (demo_placed 0 [4] [1; 2]) Which_CLOSED 0 replicas [1; 2]], m').
Proof.
  destruct (@closed_replication_restored _ recorder [] (demo_placed 0 [4] [1; 2])
    (nodeMap_of demo_nodes) (alive_ids demo_nodes) 2 ∅) as [_ H];
    [apply placed_b_true; vm_compute; reflexivity|lia|].
  destruct H as (replicas & m' & H1 & _ & _ & H4 & _); [vm_compute; discriminate|].
  exists replicas, m'. rewrite H1. change (take (Z.to_nat 2) _) with [1; 2] in *.
  rewrite bool_decide_false; [reflexivity|]. intros Heq. rewrite Heq in H4.
  vm_compute in H4. discriminate H4.
Defined.

(** Promotion picks the most complete live replica: when the primary of an open segment is dead and every live
    replica tells its size, then if some replica is alive the new primary is a live
    replica of the greatest size and the other live replicas stay; otherwise nothing is done. *)
Theorem dead_primary_promotion {D} `{ReconcilerDelegate D} (d : D) segment nodeMap (sizes : Z → result () Z) :
  let replicating := ReplicatingNodeIDs (seg_Nodes segment) in
  let alive := List.filter (node_alive nodeMap) replicating in
  known nodeMap replicating → 0 ∉ replicating →
  (∀ (d : D) id addr, GetSegmentSizeFromNode d (seg_ID segment) id addr = (d, sizes id)) →
  (∀ id, id ∈ alive → ∃ z, sizes id = Ok z ∧ 0 ≤ z) →
  (alive = [] → reconcileOpenSegmentWithDeadPrimary d segment nodeMap = Ok d) ∧
  (alive ≠ [] → ∃ new size,
     new ∈ alive ∧ sizes new = Ok size ∧ (∀ id z, id ∈ alive → sizes id = Ok z → z ≤ size) ∧
     reconcileOpenSegmentWithDeadPrimary d segment nodeMap =
       Ok (Apply d (update_nodes segment Which_OPEN new
                      (List.filter (λ id, negb (id =? new)) alive) [])).1).
Proof.
  intros replicating alive Hk H0 Hpure Hans. unfold reconcileOpenSegmentWithDeadPrimary.
  fold replicating. case_bool_decide as Hempty.
  { assert (alive = []) as Ha by (unfold alive; by rewrite Hempty). split; [done|congruence]. }
  assert (Halive : ∀ id, id ∈ alive ↔ node_alive nodeMap id = true ∧ id ∈ replicating).
  { intros id. apply elem_of_bfilter. }
  destruct (largest_replica_answers sizes segment nodeMap replicating Hpure Hk) with (d := d)
    (best := (0, -1)) as ([new size] & -> & Hge & Hmax & Hor).
  { intros id Hid Ha. destruct (Hans id) as (z & Hz & _); [by apply Halive|]. eauto. }
  cbn [mbind result_bind fst snd] in *. split.
  - intros Ha. destruct Hor as [Heq|(Hin & Hal & _)]; [by simplify_eq|].
    assert (Hc : new ∈ alive) by (by apply Halive). rewrite Ha in Hc. by apply elem_of_nil in Hc.
  - intros Ha. destruct alive as [|a rest] eqn:Ealive; [done|].
    destruct (Hans a ltac:(left)) as (za & Hza & Hpos).
    assert (Hin_a : node_alive nodeMap a = true ∧ a ∈ replicating) by (apply Halive; left).
    pose proof (Hmax a za (proj2 Hin_a) (proj1 Hin_a) Hza).
    destruct Hor as [Heq|(Hin & Hal & Hsz)]; [simplify_eq; lia|].
    exists new, size. split_and!; [by apply Halive|done| |].
    + intros id z [? ?]%Halive Hz. by eapply Hmax.
    + destruct (Z.eqb_spec new 0) as [->|]; [done|].
      rewrite alive_of_known by (intros id Hid; apply elem_of_bfilter in Hid as [_ Hid]; auto).
      cbn [mbind result_bind]. rewrite <- Ealive. unfold alive. by rewrite bfilter_comm.
Qed.

Lemma dead_primary_promotion_witness :
  ∃ new, @reconcileOpenSegmentWithDeadPrimary _ recorder [] (demo_placed 3 [4; 1; 2] [])
           (nodeMap_of demo_nodes) =
    Ok [update_nodes (demo_placed 3 [4; 1; 2] []) Which_OPEN new
          (List.filter (λ id, negb (id =? new)) [4; 1; 2]) []] ∧ 40 ≤ 10 * new.
Proof.
  destruct (@dead_primary_promotion _ recorder [] (demo_placed 3 [4; 1; 2] [])
    (nodeMap_of demo_nodes) (λ id, Ok (10 * id))) as [_ H].
  - intros id. cbn [demo_placed demo_segment seg_Nodes ReplicatingNodeIDs].
    rewrite !elem_of_cons. intros [->|[->|[->|[]%not_elem_of_nil]]]; by eexists.
  - apply (bool_decide_unpack _). vm_compute. exact I.
  - reflexivity.
  - intros id. change (List.filter _ _) with [4; 1; 2]. rewrite !elem_of_cons.
    intros [->|[->|[->|[]%not_elem_of_nil]]]; eexists; (split; [reflexivity|lia]).
  - destruct H as (new & size & H1 & H2 & H3 & H4); [vm_compute; discriminate|].
    exists new. split; [exact H4|]. injection H2 as <-. apply (H3 4 40); [left|reflexivity].
Defined.

(** The reasons for which a closed segment may go: its topic is gone; or the topic keeps messages for a
    limited time, that time has passed since the segment was closed, and every consumer
    group with an offset in it has read all of it. *)
Definition expired (now : Z) (state : ClusterState) (segment : ClusterSegment) : Prop :=
  match GetTopic state (seg_OwnerNamespace segment) (seg_OwnerName segment) with
  | None => True
  | Some topic =>
    0 < topic_Retention topic ∧ seg_ClosedAt segment < now - topic_Retention topic ∧
    ∀ ns cg commit, ns ∈ Namespaces state → cg ∈ ns_ConsumerGroups ns →
      commit ∈ cg_OffsetCommits cg → oc_SegmentID commit = seg_ID segment →
      seg_Size segment ≤ oc_Offset commit
  end.

Lemma segment_needed_false state segment :
  segment_needed state segment = false ↔
  ∀ ns cg commit, ns ∈ Namespaces state → cg ∈ ns_ConsumerGroups ns →
    commit ∈ cg_OffsetCommits cg → oc_SegmentID commit = seg_ID segment →
    seg_Size segment ≤ oc_Offset commit.
Proof.
  unfold segment_needed. rewrite existsb_false. setoid_rewrite existsb_false.
  setoid_rewrite existsb_false. setoid_rewrite andb_false_iff.
  setoid_rewrite Z.eqb_neq. setoid_rewrite Z.ltb_ge. split.
  - intros H ns cg commit H1 H2 H3 H4. by destruct (H ns H1 cg H2 commit H3).
  - intros H ns H1 cg H2 commit H3.
    destruct (Z.eq_dec (oc_SegmentID commit) (seg_ID segment)); [right|left]; eauto.
Qed.

(** Retention (C28): a closed segment of a topic is deleted when it has [expired], and otherwise it
    is kept and its replication is looked after, with the replication factor of the topic. In particular a
    segment that a consumer group has not read to its end is never deleted while its topic exists. *)
Theorem retention_exact {D} `{ReconcilerDelegate D} (d : D) now segment state m nodeMap cands :
  seg_Type segment = ClusterSegment_TOPIC →
  (expired now state segment →
     reconcileClosedSegment d now segment state m nodeMap cands =
       Ok ((Apply d (delete_segment segment Which_CLOSED)).1, m)) ∧
  (¬ expired now state segment → ∃ topic,
     GetTopic state (seg_OwnerNamespace segment) (seg_OwnerName segment) = Some topic ∧
     reconcileClosedSegment d now segment state m nodeMap cands =
       replicate_closed d segment (topic_ReplicationFactor topic) m nodeMap cands).
Proof.
  intros Ht. unfold expired, reconcileClosedSegment. rewrite Ht.
  destruct (GetTopic _ _ _) as [topic|]; [|tauto]. rewrite <- segment_needed_false.
  destruct (Z.ltb_spec 0 (topic_Retention topic)), (Z.ltb_spec (seg_ClosedAt segment) (now - topic_Retention topic)),
    (segment_needed state segment); cbn [negb andb]; (split; [intros (? & ? & ?); (done || lia)|intros Hn]);
    try (exists topic; split; reflexivity). by destruct Hn.
Qed.

Lemma retention_exact_witness :
  reconcileClosedSegment (H := recorder) [] 1000 (demo_segment 1 ClusterSegment_TOPIC "orders" 200 64
      {| PrimaryNodeID := 0; DoneNodeIDs := [1]; ReplicatingNodeIDs := [2] |}) demo_state ∅
      (nodeMap_of (Nodes demo_state)) [1; 2] = Ok ([], ∅).
Proof.
  destruct (retention_exact (H := recorder) [] 1000 (demo_segment 1 ClusterSegment_TOPIC "orders" 200 64
      {| PrimaryNodeID := 0; DoneNodeIDs := [1]; ReplicatingNodeIDs := [2] |}) demo_state ∅
      (nodeMap_of (Nodes demo_state)) [1; 2] eq_refl) as [_ H].
  destruct H as (topic & Ht & ->); [intros [H _]; by vm_compute in H|].
  vm_compute in Ht. injection Ht as <-. vm_compute. reflexivity.
Defined.

(** The offset commits of a group follow its bindings: after reconciling, the group has exactly one offset
    for each open or closed segment of the topics it is bound to; offsets it had are kept, new
    ones start at zero, and reconciling again changes nothing. *)
Theorem offset_commits_exact s ns cg :
  cluster_wf s → ns ∈ Namespaces s → cg ∈ ns_ConsumerGroups ns →
  let commits := default (cg_OffsetCommits cg) (offset_commits s ns cg) in
  let cg' := with_OffsetCommits cg (sort_by oc_SegmentID commits) in
  NoDup (oc_SegmentID <$> commits) ∧
  (∀ id, id ∈ oc_SegmentID <$> commits ↔ ∃ seg, seg ∈ OpenSegments s ++ ClosedSegments s ∧
     bound_segment ns cg seg = true ∧ seg_ID seg = id) ∧
  (∀ c, c ∈ commits → c ∈ cg_OffsetCommits cg ∨
     (oc_Offset c = 0 ∧ oc_SegmentID c ∉ oc_SegmentID <$> cg_OffsetCommits cg)) ∧
  offset_commits s ns cg' = None.
Proof.
  intros Hwf Hns Hcg commits cg'.
  assert (Hspec : NoDup (oc_SegmentID <$> commits) ∧
    (∀ id, id ∈ oc_SegmentID <$> commits ↔ bound_id s ns cg id) ∧
    (∀ c, c ∈ commits → c ∈ cg_OffsetCommits cg ∨
       (oc_Offset c = 0 ∧ oc_SegmentID c ∉ oc_SegmentID <$> cg_OffsetCommits cg))).
  { unfold commits. destruct (offset_commits s ns cg) as [l|] eqn:E; cbn [default].
    - destruct (offset_commits_Some s ns cg Hwf Hns Hcg l E) as (H1 & H2 & H3 & _). done.
    - split_and!; [by eapply NoDup_old|by apply offset_commits_None|auto]. }
  destruct Hspec as (H1 & H2 & H3). split_and!; [done..|]. apply offset_commits_stable.
  intros id. change (bound_id s ns cg' id) with (bound_id s ns cg id). rewrite <- H2.
  unfold cg', with_OffsetCommits. cbn [cg_OffsetCommits]. by rewrite sort_by_Permutation.
Qed.

Lemma offset_commits_exact_witness :
  ∃ commits, offset_commits stale_state stale_namespace stale_group = Some commits ∧
    In {| oc_SegmentID := 1; oc_Offset := 40 |} commits ∧
    NoDup (oc_SegmentID <$> commits) ∧
    offset_commits stale_state stale_namespace
      (with_OffsetCommits stale_group (sort_by oc_SegmentID commits)) = None.
Proof.
  destruct (offset_commits_exact stale_state stale_namespace stale_group) as (H1 & _ & _ & H2).
  - apply (bool_decide_unpack _). vm_compute. exact I.
  - left.
  - left.
  - eexists. split; [vm_compute; reflexivity|]. split; [left; reflexivity|]. split; [exact H1|exact H2].
Defined.
