(* ===== verification/Requests.v ===== *)
(** * Requests of the public protocol and their validation

    Models the request messages of src/mq/emq/emq.pb.go and
    src/mq/emq/request_validation.go: the names of namespaces, topics and consumer groups
    (the two regular expressions), the exchange types and the other checks.  A
    [RequestValidationError] is the list of the errors it collects. *)
From S2P Require Import Prelude Emq ClusterState.

(** ** Requests *)

Record Topic : Type := {
  Topic_Namespace : string; Topic_Name : string; Topic_Shards : Z; Topic_ReplicationFactor : Z;
  Topic_Retention : Z; Topic_DefaultExchangeType : string }.

(** [By] has the constructors of the binding of the cluster state. *)
Record ConsumerGroup_Binding : Type := {
  Binding_TopicName : string; Binding_ExchangeType : string; Binding_by : Binding_By }.

Record ConsumerGroup : Type := {
  ConsumerGroup_Namespace : string; ConsumerGroup_Name : string;
  ConsumerGroup_Bindings : list ConsumerGroup_Binding; ConsumerGroup_Size : Z;
  ConsumerGroup_Since : Z }.

Record NamespaceCreateRequest : Type := { ncr_LeaderOnly : bool; ncr_Namespace : string }.
Record NamespaceDeleteRequest : Type := { ndr_LeaderOnly : bool; ndr_Namespace : string }.
Record TopicCreateRequest : Type := { tcr_LeaderOnly : bool; tcr_Topic : Topic }.
Record TopicListRequest : Type := { tlr_LeaderOnly : bool; tlr_Namespace : string; tlr_Name : string }.
Record TopicDeleteRequest : Type := {
  tdr_LeaderOnly : bool; tdr_Namespace : string; tdr_Name : string; tdr_IfUnused : bool }.
Record ConsumerGroupCreateRequest : Type := {
  gcr_LeaderOnly : bool; gcr_ConsumerGroup : ConsumerGroup }.
Record ConsumerGroupListRequest : Type := {
  glr_LeaderOnly : bool; glr_Namespace : string; glr_Name : string }.
Record ConsumerGroupDeleteRequest : Type := {
  gdr_LeaderOnly : bool; gdr_Namespace : string; gdr_Name : string }.
Record TopicPublishRequest : Type := {
  tpr_DoNotForward : bool; tpr_Namespace : string; tpr_Name : string; tpr_Message : option EmqMessage }.
Record ConsumerGroupSubscribeRequest : Type := {
  gsr_DoNotForward : bool; gsr_Namespace : string; gsr_Name : string; gsr_Size : Z;
  gsr_AutoAck : bool; gsr_DoNotBlock : bool; gsr_MaxMessages : Z }.

(** ** Regular expressions *)

Definition in_range (lo hi : Z) (c : Ascii.ascii) : bool :=
  (lo <=? Z.of_N (Ascii.N_of_ascii c)) && (Z.of_N (Ascii.N_of_ascii c) <=? hi).

(** [[a-zA-Z]], [_], [[0-9]] and [-]. *)
Definition letter (c : Ascii.ascii) : bool := in_range 97 122 c || in_range 65 90 c.
Definition underscore (c : Ascii.ascii) : bool := in_range 95 95 c.
Definition name_char (c : Ascii.ascii) : bool :=
  in_range 48 57 c || letter c || in_range 45 45 c || underscore c.

Fixpoint all_chars (p : Ascii.ascii → bool) (s : string) : bool :=
  match s with
  | EmptyString => true
  | String c s => p c && all_chars p s
  end.

(** [^[a-zA-Z_][0-9a-zA-Z-_]*$] *)
Definition nameRegex (s : string) : bool :=
  match s with
  | EmptyString => false
  | String c s => (letter c || underscore c) && all_chars name_char s
  end.

(** [^_] *)
Definition reservedNameRegex (s : string) : bool :=
  match s with
  | EmptyString => false
  | String c _ => underscore c
  end.

Definition validExchangeTypes (s : string) : bool :=
  bool_decide (s ∈ [ExchangeTypeDirect; ExchangeTypeFanout; ExchangeTypeTopic; ExchangeTypeHeaders]).

Definition nameMaxLength : Z := 64.

(** ** Errors *)

Inductive validation_error : Type :=
| BlankError (field : string)
| NameInvalidError (field : string)
| ReservedNameError (field : string)
| StringLengthError (field : string) (max : Z)
| ListError (field value : string)
| NegativeError (field : string)
| DefaultNamespaceError
| BindingError (i : nat) (e : validation_error).

(** The checks every name goes through. *)
Definition check_chars (field name : string) : list validation_error :=
  if negb (nameRegex name) then [NameInvalidError field]
  else if reservedNameRegex name then [ReservedNameError field]
  else if nameMaxLength <? Z.of_nat (String.length name) then [StringLengthError field nameMaxLength]
  else [].

Definition check_name (field name : string) : list validation_error :=
  if String.eqb name "" then [BlankError field] else check_chars field name.

(** The name in a request to list may be blank. *)
Definition check_filter (field name : string) : list validation_error :=
  if String.eqb name "" then [] else check_chars field name.

Definition check_exchange (type : string) : list validation_error :=
  if String.eqb type "" then [BlankError "exchange type"]
  else if negb (validExchangeTypes type) then [ListError "exchange type" type]
  else [].

(** [if len(errs) > 0 { return &RequestValidationError{errs} }] *)
Definition validation (errs : list validation_error) : result (list validation_error) () :=
  match errs with
  | [] => Ok ()
  | _ => Err errs
  end.

(** ** The checks of each request *)

Definition NamespaceCreateRequest_Validate (r : NamespaceCreateRequest) :=
  validation (check_name "namespace" (ncr_Namespace r)).

Definition NamespaceDeleteRequest_Validate (r : NamespaceDeleteRequest) :=
  validation
    match check_name "namespace" (ndr_Namespace r) with
    | [] => if String.eqb (ndr_Namespace r) DefaultNamespace then [DefaultNamespaceError] else []
    | errs => errs
    end.

Definition TopicCreateRequest_Validate (r : TopicCreateRequest) :=
  validation
    (check_name "namespace" (Topic_Namespace (tcr_Topic r)) ++
     check_name "topic name" (Topic_Name (tcr_Topic r)) ++
     check_exchange (Topic_DefaultExchangeType (tcr_Topic r)) ++
     if Topic_Retention (tcr_Topic r) <? 0 then [NegativeError "retention"] else []).

Definition TopicListRequest_Validate (r : TopicListRequest) :=
  validation (check_name "namespace" (tlr_Namespace r) ++ check_filter "topic name" (tlr_Name r)).

Definition TopicDeleteRequest_Validate (r : TopicDeleteRequest) :=
  validation (check_name "namespace" (tdr_Namespace r) ++ check_name "topic name" (tdr_Name r)).

Definition ConsumerGroupCreateRequest_Validate (r : ConsumerGroupCreateRequest) :=
  validation
    (check_name "namespace" (ConsumerGroup_Namespace (gcr_ConsumerGroup r)) ++
     check_name "consumer group name" (ConsumerGroup_Name (gcr_ConsumerGroup r)) ++
     mjoin (imap (λ i clientBinding,
                    BindingError i <$> check_exchange (Binding_ExchangeType clientBinding))
              (ConsumerGroup_Bindings (gcr_ConsumerGroup r)))).

Definition ConsumerGroupListRequest_Validate (r : ConsumerGroupListRequest) :=
  validation
    (check_name "namespace" (glr_Namespace r) ++ check_filter "consumer group name" (glr_Name r)).

Definition ConsumerGroupDeleteRequest_Validate (r : ConsumerGroupDeleteRequest) :=
  validation
    (check_name "namespace" (gdr_Namespace r) ++ check_name "consumer group name" (gdr_Name r)).

Definition TopicPublishRequest_Validate (r : TopicPublishRequest) :=
  validation (check_name "namespace" (tpr_Namespace r) ++ check_name "topic name" (tpr_Name r)).

Definition ConsumerGroupSubscribeRequest_Validate (r : ConsumerGroupSubscribeRequest) :=
  validation
    (check_name "namespace" (gsr_Namespace r) ++ check_name "consumer group name" (gsr_Name r)).

(** ** Valid names *)

(** A name the requests accept: a letter followed by letters, digits, hyphens and underscores,
    at most 64 bytes. *)
Definition valid_name (s : string) : Prop :=
  ∃ c t, s = String c t ∧ letter c = true ∧ all_chars name_char t = true ∧
    Z.of_nat (String.length s) ≤ 64.

Lemma letter_not_underscore c : letter c = true → underscore c = false.
Proof.
  unfold letter, underscore, in_range. destruct (Z.of_N (Ascii.N_of_ascii c)) eqn:E; try done.
  intros H. apply andb_false_iff. rewrite orb_true_iff, !andb_true_iff, !Z.leb_le in H.
  rewrite !Z.leb_gt. lia.
Qed.

Lemma letter_name_char c : letter c = true → name_char c = true.
Proof. unfold name_char. intros ->. by rewrite !orb_true_r. Qed.

Lemma check_name_valid field s : check_name field s = [] ↔ valid_name s.
Proof.
  unfold check_name, check_chars, valid_name. destruct s as [|c t].
  { split; [done|]. by intros (c & t & Hs & _). }
  cbn [String.eqb nameRegex reservedNameRegex]. unfold nameMaxLength. split.
  - destruct (letter c) eqn:Hc, (all_chars name_char t) eqn:Ht; cbn [orb andb negb]; try done.
    + rewrite (letter_not_underscore c Hc). intros H. exists c, t. split_and!; [done..|].
      destruct (Z.ltb_spec 64 (Z.of_nat (String.length (String c t)))); [done|lia].
    + destruct (underscore c); done.
    + rewrite andb_false_r. done.
  - intros (c' & t' & [= <- <-] & Hc & Ht & Hl). rewrite Hc, Ht, (letter_not_underscore c Hc).
    cbn [orb andb negb]. destruct (Z.ltb_spec 64 (Z.of_nat (String.length (String c t)))); [lia|done].
Qed.

Lemma validation_Ok errs : validation errs = Ok () ↔ errs = [].
Proof. by destruct errs. Qed.

Lemma validation_not_Panic errs msg : validation errs ≠ Panic msg.
Proof. by destruct errs. Qed.

(** ** Keys of consumer groups *)

(** [Server.makeConsumerGroupMapKey] *)
Definition makeConsumerGroupMapKey (namespace name : string) : string :=
  namespace +:+ "/" +:+ name.

Lemma valid_name_chars s : valid_name s → all_chars name_char s = true.
Proof. intros (c & t & -> & Hc & Ht & _). cbn [all_chars]. by rewrite Ht, letter_name_char. Qed.

Lemma key_inj ns1 : ∀ ns2 n1 n2,
  all_chars name_char ns1 = true → all_chars name_char ns2 = true →
  makeConsumerGroupMapKey ns1 n1 = makeConsumerGroupMapKey ns2 n2 → ns1 = ns2 ∧ n1 = n2.
Proof.
  unfold makeConsumerGroupMapKey.
  induction ns1 as [|c ns1 IH]; intros [|c' ns2] n1 n2; cbn [all_chars String.app];
    rewrite ?andb_true_iff; intros H1 H2 Heq.
  - by injection Heq.
  - injection Heq as <- _. by destruct H2.
  - injection Heq as -> _. by destruct H1.
  - injection Heq as -> Heq. destruct (IH ns2 n1 n2) as [-> ->]; tauto.
Qed.

Lemma check_exchange_nil type : check_exchange type = [] ↔ validExchangeTypes type = true.
Proof.
  unfold check_exchange. destruct (String.eqb_spec type "") as [->|]; [done|].
  by destruct (validExchangeTypes type).
Qed.

Lemma join_nil {A} (ls : list (list A)) : mjoin ls = [] ↔ ∀ l, l ∈ ls → l = [].
Proof.
  induction ls as [|l ls IH]; cbn [mjoin list_join].
  { split; [|done]. by intros _ l Hl%elem_of_nil. }
  change (l ++ mjoin ls = [] ↔ ∀ l', l' ∈ l :: ls → l' = []).
  setoid_rewrite elem_of_cons. rewrite app_nil, IH. naive_solver.
Qed.

Lemma check_bindings_nil bindings :
  mjoin (imap (λ i b, BindingError i <$> check_exchange (Binding_ExchangeType b)) bindings) = [] ↔
  ∀ b, b ∈ bindings → validExchangeTypes (Binding_ExchangeType b) = true.
Proof.
  rewrite join_nil. setoid_rewrite <- check_exchange_nil. split.
  - intros H b [i Hi]%list_elem_of_lookup.
    apply (fmap_nil_inv (BindingError i)), H. apply list_elem_of_lookup. exists i.
    by rewrite list_lookup_imap, Hi.
  - intros H l [i Hi]%list_elem_of_lookup. rewrite list_lookup_imap in Hi.
    apply fmap_Some in Hi as (b & Hb & ->). by rewrite (H b) by (by eapply list_elem_of_lookup_2).
Qed.

(** ** Properties *)

(** Validation accepts exactly the well-formed requests: a topic or consumer group can be created only
    under a valid name in a validly named namespace, with known exchange types and a retention that
    is not negative, and every such request is accepted; the namespace [default] cannot be deleted;
    only requests to list may leave the name blank. *)
Theorem validation_exact :
  (∀ r, NamespaceCreateRequest_Validate r = Ok () ↔ valid_name (ncr_Namespace r)) ∧
  (∀ r, NamespaceDeleteRequest_Validate r = Ok () ↔
     valid_name (ndr_Namespace r) ∧ ndr_Namespace r ≠ DefaultNamespace) ∧
  (∀ r, TopicCreateRequest_Validate r = Ok () ↔
     valid_name (Topic_Namespace (tcr_Topic r)) ∧ valid_name (Topic_Name (tcr_Topic r)) ∧
     validExchangeTypes (Topic_DefaultExchangeType (tcr_Topic r)) = true ∧
     0 ≤ Topic_Retention (tcr_Topic r)) ∧
  (∀ r, ConsumerGroupCreateRequest_Validate r = Ok () ↔
     valid_name (ConsumerGroup_Namespace (gcr_ConsumerGroup r)) ∧
     valid_name (ConsumerGroup_Name (gcr_ConsumerGroup r)) ∧
     ∀ b, b ∈ ConsumerGroup_Bindings (gcr_ConsumerGroup r) →
       validExchangeTypes (Binding_ExchangeType b) = true) ∧
  (∀ r, TopicDeleteRequest_Validate r = Ok () ↔ valid_name (tdr_Namespace r) ∧ valid_name (tdr_Name r)) ∧
  (∀ r, ConsumerGroupDeleteRequest_Validate r = Ok () ↔
     valid_name (gdr_Namespace r) ∧ valid_name (gdr_Name r)) ∧
  (∀ r, TopicPublishRequest_Validate r = Ok () ↔ valid_name (tpr_Namespace r) ∧ valid_name (tpr_Name r)) ∧
  (∀ r, ConsumerGroupSubscribeRequest_Validate r = Ok () ↔
     valid_name (gsr_Namespace r) ∧ valid_name (gsr_Name r)) ∧
  (∀ r, TopicListRequest_Validate r = Ok () ↔
     valid_name (tlr_Namespace r) ∧ (tlr_Name r = EmptyString ∨ valid_name (tlr_Name r))) ∧
  (∀ r, ConsumerGroupListRequest_Validate r = Ok () ↔
     valid_name (glr_Namespace r) ∧ (glr_Name r = EmptyString ∨ valid_name (glr_Name r))).
Proof.
  assert (Hfilter : ∀ field s, check_filter field s = [] ↔ s = EmptyString ∨ valid_name s).
  { intros field s. rewrite <- (check_name_valid field). unfold check_filter, check_name.
    destruct (String.eqb_spec s "") as [->|]; naive_solver. }
  split_and!; intros r; unfold NamespaceCreateRequest_Validate, NamespaceDeleteRequest_Validate,
    TopicCreateRequest_Validate, ConsumerGroupCreateRequest_Validate, TopicDeleteRequest_Validate,
    ConsumerGroupDeleteRequest_Validate, TopicPublishRequest_Validate, TopicListRequest_Validate,
    ConsumerGroupSubscribeRequest_Validate, ConsumerGroupListRequest_Validate;
    rewrite validation_Ok, ?app_nil, ?check_name_valid, ?Hfilter; try done.
  - rewrite <- (check_name_valid "namespace"). destruct (check_name _ _); [|naive_solver].
    destruct (String.eqb_spec (ndr_Namespace r) DefaultNamespace); naive_solver.
  - rewrite check_exchange_nil. destruct (Z.ltb_spec (Topic_Retention (tcr_Topic r)) 0); naive_solver lia.
  - by rewrite check_bindings_nil.
Qed.

(** The keys of consumer groups do not collide: two groups that can be created have the same
    key in the tables of the server only if they have the same namespace and name. *)
Theorem consumer_group_key_injective r1 r2 :
  let g1 := gcr_ConsumerGroup r1 in let g2 := gcr_ConsumerGroup r2 in
  ConsumerGroupCreateRequest_Validate r1 = Ok () → ConsumerGroupCreateRequest_Validate r2 = Ok () →
  makeConsumerGroupMapKey (ConsumerGroup_Namespace g1) (ConsumerGroup_Name g1) =
    makeConsumerGroupMapKey (ConsumerGroup_Namespace g2) (ConsumerGroup_Name g2) →
  ConsumerGroup_Namespace g1 = ConsumerGroup_Namespace g2 ∧ ConsumerGroup_Name g1 = ConsumerGroup_Name g2.
Proof.
  intros g1 g2. unfold ConsumerGroupCreateRequest_Validate. rewrite !validation_Ok, !app_nil, !check_name_valid.
  intros [H1 _] [H2 _]. apply key_inj; by apply valid_name_chars.
Qed.

Definition demo_create (name : string) : ConsumerGroupCreateRequest :=
  {| gcr_LeaderOnly := false;
     gcr_ConsumerGroup :=
       {| ConsumerGroup_Namespace := "default"; ConsumerGroup_Name := name;
          ConsumerGroup_Bindings :=
            [{| Binding_TopicName := "orders"; Binding_ExchangeType := ExchangeTypeFanout;
                Binding_by := By_nil |}];
          ConsumerGroup_Size := 0; ConsumerGroup_Since := 0 |} |}.

Lemma consumer_group_key_injective_witness :
  ConsumerGroup_Name (gcr_ConsumerGroup (demo_create "workers")) = "workers".
Proof.
  apply (consumer_group_key_injective (demo_create "workers") (demo_create "workers"));
    vm_compute; reflexivity.
Defined.
