(* ===== verification/LeaderInv.v ===== *)
(** * What holds of the cluster while leaders run it

    [admissible] is what the state machine needs of a command.  The leader keeps more: segments are
    placed on known nodes, a closed segment is complete on some node, nodes are dead or alive, replication factors are
    positive, a consumer group has at most one open offset segment.  [leader_ok] is what the leader
    guarantees of its commands, and [leader_inv] the invariant that follows. *)
From S2P Require Import Prelude Emq ClusterState ClusterOps ClusterInv ClusterProps.

(** ** The invariant *)

Definition node_known (st : ClusterState) (id : Z) : Prop := id ∈ node_ID <$> Nodes st.

Definition group_segment (x : ClusterSegment) : Prop :=
  seg_Type x = ClusterSegment_CONSUMER_GROUP_OFFSET_COMMITS.

Definition same_owner (x y : ClusterSegment) : Prop :=
  seg_OwnerNamespace x = seg_OwnerNamespace y ∧ seg_OwnerName x = seg_OwnerName y.

Definition has_commit (st : ClusterState) (c : ClusterConsumerGroup_OffsetCommit) : Prop :=
  ∃ ns cg, ns ∈ Namespaces st ∧ cg ∈ ns_ConsumerGroups ns ∧ c ∈ cg_OffsetCommits cg.

Record leader_inv (st : ClusterState) : Prop := {
  li_wf : cluster_wf st;
  li_open : ∀ x, x ∈ OpenSegments st →
    node_known st (PrimaryNodeID (seg_Nodes x)) ∧ Forall (node_known st) (ReplicatingNodeIDs (seg_Nodes x));
  li_closed : ∀ x, x ∈ ClosedSegments st →
    Forall (node_known st) (DoneNodeIDs (seg_Nodes x) ++ ReplicatingNodeIDs (seg_Nodes x));
  li_states : ∀ n, n ∈ Nodes st → node_State n = ClusterNode_ALIVE ∨ node_State n = ClusterNode_DEAD;
  li_topics : ∀ ns t, ns ∈ Namespaces st → t ∈ ns_Topics ns → 1 ≤ topic_ReplicationFactor t;
  li_groups : ∀ x y, x ∈ OpenSegments st → y ∈ OpenSegments st →
    group_segment x → group_segment y → same_owner x y → seg_ID x = seg_ID y;
  li_commits : ∀ c, has_commit st c → oc_SegmentID c ≤ CurrentSegmentID st;
  li_done : ∀ x, x ∈ ClosedSegments st → DoneNodeIDs (seg_Nodes x) ≠ [];
}.

#[export] Instance node_known_dec st id : Decision (node_known st id) := decide (id ∈ node_ID <$> Nodes st).
#[export] Instance group_segment_dec x : Decision (group_segment x) :=
  decide (seg_Type x = ClusterSegment_CONSUMER_GROUP_OFFSET_COMMITS).
#[export] Instance same_owner_dec x y : Decision (same_owner x y) :=
  decide (seg_OwnerNamespace x = seg_OwnerNamespace y ∧ seg_OwnerName x = seg_OwnerName y).

(** The invariant as it can be decided. *)
Definition leader_check (st : ClusterState) : Prop :=
  cluster_wf st ∧
  Forall (λ x, node_known st (PrimaryNodeID (seg_Nodes x)) ∧
               Forall (node_known st) (ReplicatingNodeIDs (seg_Nodes x))) (OpenSegments st) ∧
  Forall (λ x, Forall (node_known st) (DoneNodeIDs (seg_Nodes x) ++ ReplicatingNodeIDs (seg_Nodes x)))
    (ClosedSegments st) ∧
  Forall (λ n, node_State n = ClusterNode_ALIVE ∨ node_State n = ClusterNode_DEAD) (Nodes st) ∧
  Forall (λ ns, Forall (λ t, 1 ≤ topic_ReplicationFactor t) (ns_Topics ns)) (Namespaces st) ∧
  Forall (λ x, Forall (λ y, group_segment x → group_segment y → same_owner x y → seg_ID x = seg_ID y)
                 (OpenSegments st)) (OpenSegments st) ∧
  Forall (λ ns, Forall (λ cg, Forall (λ c, oc_SegmentID c ≤ CurrentSegmentID st) (cg_OffsetCommits cg))
                  (ns_ConsumerGroups ns)) (Namespaces st) ∧
  Forall (λ x, DoneNodeIDs (seg_Nodes x) ≠ []) (ClosedSegments st).

Lemma leader_inv_alt st : leader_inv st ↔ leader_check st.
Proof.
  split.
  - intros [H1 H2 H3 H4 H5 H6 H7 H8]. split_and!; [done|by apply Forall_forall..| | | |by apply Forall_forall].
    + apply Forall_forall. intros ns Hns. apply Forall_forall. by eauto.
    + apply Forall_forall. intros x Hx. apply Forall_forall. by eauto.
    + apply Forall_forall. intros ns Hns. apply Forall_forall. intros cg Hcg. apply Forall_forall.
      intros c Hc. apply H7. by exists ns, cg.
  - intros (H1 & H2 & H3 & H4 & H5 & H6 & H7 & H8). split; [done|by apply Forall_forall..| | | |by apply Forall_forall].
    + intros ns t Hns. rewrite Forall_forall in H5. specialize (H5 ns Hns).
      rewrite Forall_forall in H5. auto.
    + intros x y Hx. rewrite Forall_forall in H6. specialize (H6 x Hx). rewrite Forall_forall in H6. auto.
    + intros c (ns & cg & Hns & Hcg & Hc). rewrite Forall_forall in H7. specialize (H7 ns Hns).
      rewrite Forall_forall in H7. specialize (H7 cg Hcg). rewrite Forall_forall in H7. auto.
Qed.

#[export] Instance leader_inv_dec st : Decision (leader_inv st) := dec_iff (leader_inv_alt st).

(** ** The commands of the leader *)

Definition leader_ok (st : ClusterState) (cmd : ClusterCommand) : Prop :=
  admissible st cmd ∧
  match cmd with
  | CreateTopic c => ∀ t, tc_Topic c = Some t → 1 ≤ topic_ReplicationFactor t
  | CreateSegment c =>
    node_known st (sc_PrimaryNodeID c) ∧ Forall (node_known st) (sc_ReplicatingNodeIDs c) ∧
    (group_segment (new_segment c) → ∀ x, x ∈ OpenSegments st → group_segment x →
       same_owner x (new_segment c) → False)
  | UpdateConsumerGroupOffsetCommits c =>
    ∀ x, x ∈ ocu_OffsetCommits c → oc_SegmentID x ≤ CurrentSegmentID st
  | CloseSegment c => node_known st (scl_DoneNodeID c)
  | UpdateSegmentNodes c =>
    Forall (node_known st) (DoneNodeIDs (snu_Nodes c) ++ ReplicatingNodeIDs (snu_Nodes c)) ∧
    (snu_Which c = Which_OPEN → node_known st (PrimaryNodeID (snu_Nodes c))) ∧
    (snu_Which c = Which_CLOSED → DoneNodeIDs (snu_Nodes c) ≠ [])
  | UpdateNode c => nu_State c = ClusterNode_ALIVE ∨ nu_State c = ClusterNode_DEAD
  | _ => True
  end.

(** ** Preservation *)

Lemma do_command_Nodes st cmd st' :
  do_command st cmd = Ok st' → (∀ c, cmd ≠ UpdateNode c) → Nodes st' = Nodes st.
Proof.
  intros H Hne. destruct cmd; simpl in H; simplify_eq; try done;
    unfold doCreateNamespace, doDeleteNamespace, doCreateTopic, doDeleteTopic,
      doCreateConsumerGroup, doDeleteConsumerGroup, doUpdateOffsetCommits, doOpenSegment,
      doDeleteSegment, doCloseSegment, doUpdateSegmentNodes in *;
    repeat case_match; simplify_eq/=; try done. by destruct (Hne cmd).
Qed.

Lemma doUpdateNode_elem st c n :
  n ∈ Nodes (doUpdateNode st c) →
  n ∈ Nodes st ∨ (node_ID n = nu_ID c ∧ node_State n = nu_State c).
Proof.
  unfold doUpdateNode. cbn [Nodes with_Nodes]. rewrite elem_of_sort_by.
  destruct (find_first _ _) as [[i x]|].
  - intros [->|?]%elem_of_list_insert; auto.
  - rewrite elem_of_app, list_elem_of_singleton. intros [?| ->]; auto.
Qed.

Lemma doUpdateNode_known st c id : node_known st id → node_known (doUpdateNode st c) id.
Proof.
  unfold node_known, doUpdateNode. cbn [Nodes with_Nodes]. rewrite sort_by_Permutation.
  destruct (find_first _ _) as [[i x]|] eqn:E; [|rewrite fmap_app; set_solver].
  apply find_first_lookup in E as [Hi He]. bool_to_prop.
  rewrite list_fmap_insert, list_insert_id; [done|]. cbn [node_ID].
  by rewrite list_lookup_fmap, Hi, <- He.
Qed.

Lemma do_command_known st cmd st' id :
  do_command st cmd = Ok st' → node_known st id → node_known st' id.
Proof.
  intros H Hk. destruct cmd; try (unfold node_known;
    rewrite (do_command_Nodes _ _ _ H) by (intros ? [=]); exact Hk).
  simpl in H. simplify_eq. by apply doUpdateNode_known.
Qed.

Lemma Forall_known st cmd st' ids :
  do_command st cmd = Ok st' → Forall (node_known st) ids → Forall (node_known st') ids.
Proof. intros H Hids. eapply Forall_impl; [exact Hids|]. intros id. by eapply do_command_known. Qed.

(** Topics after a command: the old ones, and the one that is created. *)
Lemma replaced_topics st i ns' ns t name n :
  FindNamespace st name = Some (i, n) → ns ∈ <[i := ns']> (Namespaces st) → t ∈ ns_Topics ns →
  (∃ ns0, ns0 ∈ Namespaces st ∧ t ∈ ns_Topics ns0) ∨ (n ∈ Namespaces st ∧ t ∈ ns_Topics ns').
Proof.
  intros [Hi _]%FindNamespace_Some [->|Hns]%elem_of_list_insert Ht; [|by eauto].
  right. split; [by eapply list_elem_of_lookup_2|done].
Qed.

Lemma do_command_topics st cmd st' ns t :
  do_command st cmd = Ok st' → ns ∈ Namespaces st' → t ∈ ns_Topics ns →
  (∃ ns', ns' ∈ Namespaces st ∧ t ∈ ns_Topics ns') ∨
  (∃ c t', cmd = CreateTopic c ∧ tc_Topic c = Some t' ∧
     topic_ReplicationFactor t = topic_ReplicationFactor t').
Proof.
  intros H. destruct cmd as [c|c|c|c|c|c|c|c|c|c|c|c|]; simpl in H; simplify_eq;
    unfold doCreateNamespace, doDeleteNamespace, doCreateTopic, doDeleteTopic,
      doCreateConsumerGroup, doDeleteConsumerGroup, doUpdateOffsetCommits, doOpenSegment,
      doDeleteSegment, doCloseSegment, doUpdateSegmentNodes in *; intros Hns Ht;
    repeat case_match; simplify_eq/=; eauto;
    try (edestruct replaced_topics as [?|[Hn Ht']]; [done..|by left|simpl in Ht'; by eauto]);
    try (edestruct replaced_topics as [?|[Hn Ht']]; [done..|by left|simpl in Ht']).
  - rewrite elem_of_app, list_elem_of_singleton in Hns. destruct Hns as [?| ->]; [by eauto|].
    by apply elem_of_nil in Ht.
  - apply elem_of_remove_at in Hns. eauto.
  - apply elem_of_list_insert in Ht' as [->|Ht']; [|by eauto].
    right. do 2 eexists. split; [reflexivity|]. split; [eassumption|reflexivity].
  - rewrite elem_of_app, list_elem_of_singleton in Ht'.
    destruct Ht' as [?| ->]; [by eauto|].
    right. do 2 eexists. split; [reflexivity|]. split; [eassumption|reflexivity].
  - apply elem_of_remove_at in Ht'. eauto.
  - apply elem_of_remove_at in Ht'. eauto.
Qed.

(** Offset commits after a command: old ones, and those of an update. *)
Lemma replaced_commits st i ns' c name n :
  FindNamespace st name = Some (i, n) → has_commit (with_Namespaces st (<[i := ns']> (Namespaces st))) c →
  has_commit st c ∨ (n ∈ Namespaces st ∧ ∃ cg, cg ∈ ns_ConsumerGroups ns' ∧ c ∈ cg_OffsetCommits cg).
Proof.
  intros [Hi _]%FindNamespace_Some (ns & cg & Hns & Hcg & Hc). simpl in Hns.
  apply elem_of_list_insert in Hns as [->|Hns]; [|left; by exists ns, cg].
  right. split; [by eapply list_elem_of_lookup_2|eauto].
Qed.

Lemma unbind_commits st c cg x :
  x ∈ cg_OffsetCommits (unbind_consumer_group st c cg).2 → x ∈ cg_OffsetCommits cg.
Proof.
  unfold unbind_consumer_group. cbv zeta. case_if; [|done]. cbn [snd cg_OffsetCommits].
  by intros [_ ?]%elem_of_bfilter.
Qed.

Lemma do_command_commits st cmd st' x :
  do_command st cmd = Ok st' → has_commit st' x →
  has_commit st x ∨ (∃ c, cmd = UpdateConsumerGroupOffsetCommits c ∧ x ∈ ocu_OffsetCommits c).
Proof.
  intros H. destruct cmd as [c|c|c|c|c|c|c|c|c|c|c|c|]; simpl in H; simplify_eq;
    unfold doCreateNamespace, doDeleteNamespace, doCreateTopic, doDeleteTopic,
      doCreateConsumerGroup, doDeleteConsumerGroup, doUpdateOffsetCommits, doOpenSegment,
      doDeleteSegment, doCloseSegment, doUpdateSegmentNodes in *; intros Hx;
    repeat case_match; simplify_eq/=; try (by left);
    try (edestruct replaced_commits as [?|(Hn & cg & Hcg & Hc)]; [done|exact Hx|by left|simpl in Hcg]);
    try (left; do 2 eexists; split_and!; eassumption).
  - left. destruct Hx as (ns & cg & Hns & Hcg & Hc). simpl in Hns.
    rewrite elem_of_app, list_elem_of_singleton in Hns. destruct Hns as [?| ->]; [by exists ns, cg|].
    by apply elem_of_nil in Hcg.
  - left. destruct Hx as (ns & cg & Hns & Hcg & Hc). apply elem_of_remove_at in Hns. by exists ns, cg.
  - left. apply list_elem_of_fmap in Hcg as ([b cg'] & -> & Hcg).
    apply list_elem_of_fmap in Hcg as (cg & Heq & Hcg). do 2 eexists. split_and!; [done..|].
    apply (unbind_commits st c). by rewrite <- Heq.
  - apply elem_of_list_insert in Hcg as [->|Hcg]; [|left; do 2 eexists; split_and!; eassumption].
    match goal with H : FindConsumerGroup _ _ = Some _ |- _ => apply FindConsumerGroup_Some in H as [Hi _] end.
    left. do 2 eexists. split_and!; [done|by eapply list_elem_of_lookup_2|done].
  - rewrite elem_of_app, list_elem_of_singleton in Hcg.
    destruct Hcg as [?| ->]; [left; do 2 eexists; split_and!; eassumption|by apply elem_of_nil in Hc].
  - apply elem_of_remove_at in Hcg. left; do 2 eexists; split_and!; eassumption.
  - apply elem_of_list_insert in Hcg as [->|Hcg]; [|left; do 2 eexists; split_and!; eassumption].
    simpl in Hc. rewrite elem_of_sort_by in Hc. right. eauto.
Qed.

Lemma same_owner_identity x y x' y' :
  segment_identity x = segment_identity x' → segment_identity y = segment_identity y' →
  same_owner x y → same_owner x' y'.
Proof. unfold segment_identity, same_owner. intros [=] [=] [? ?]. split; congruence. Qed.

Lemma group_segment_identity x x' :
  segment_identity x = segment_identity x' → group_segment x' → group_segment x.
Proof. unfold segment_identity, group_segment. intros [=] ?. congruence. Qed.

Lemma leader_groups st cmd st' x y :
  leader_inv st → leader_ok st cmd → do_command st cmd = Ok st' →
  x ∈ OpenSegments st' → y ∈ OpenSegments st' →
  group_segment x → group_segment y → same_owner x y → seg_ID x = seg_ID y.
Proof.
  intros Hinv [_ Hok] H%do_command_segs Hx Hy Gx Gy Ho.
  destruct (segs_change_open _ _ _ _ H Hx) as [(x0 & Hx0 & Ix & _)|(c & -> & ->)],
    (segs_change_open _ _ _ _ H Hy) as [(y0 & Hy0 & Iy & _)|(c' & Heq & ->)].
  - rewrite <- (identity_ID _ _ Ix), <- (identity_ID _ _ Iy).
    apply (li_groups st Hinv); [done..| | |].
    + by eapply group_segment_identity.
    + by eapply group_segment_identity.
    + by apply (same_owner_identity x y x0 y0).
  - rewrite Heq in Hok. destruct Hok as (_ & _ & Hok). destruct (Hok Gy x0 Hx0).
    + by eapply group_segment_identity.
    + by apply (same_owner_identity x (new_segment c')).
  - destruct Hok as (_ & _ & Hok). destruct (Hok Gx y0 Hy0).
    + by eapply group_segment_identity.
    + destruct Ho. apply (same_owner_identity y (new_segment c)); done.
  - by simplify_eq.
Qed.

Lemma leader_open_nodes st cmd st' x :
  leader_inv st → leader_ok st cmd → do_command st cmd = Ok st' → x ∈ OpenSegments st' →
  node_known st' (PrimaryNodeID (seg_Nodes x)) ∧
  Forall (node_known st') (ReplicatingNodeIDs (seg_Nodes x)).
Proof.
  intros Hinv [_ Hok] Hdo Hx.
  cut (node_known st (PrimaryNodeID (seg_Nodes x)) ∧
       Forall (node_known st) (ReplicatingNodeIDs (seg_Nodes x))).
  { intros [? ?]. split; [by eapply do_command_known|by eapply Forall_known]. }
  pose proof (do_command_segs _ _ _ Hdo) as H. pose proof (li_open st Hinv) as Hold.
  destruct H as [? Ho Hc|? p _ Ho Hc|c Ho Hc|c i y Hi Hid Ho Hc|c i y Hi Ho Hc Hw|c i y Hi Ho Hc
    |c i y Hi Hid Hw Ho Hc|c i y Hi Hid Hw Ho Hc]; rewrite Ho in Hx; auto.
  - apply elem_of_drop_segments in Hx as [Hx _]. auto.
  - rewrite elem_of_sort_by, elem_of_app, list_elem_of_singleton in Hx.
    destruct Hx as [Hx| ->]; [auto|]. by destruct Hok as (? & ? & _).
  - apply elem_of_remove_at in Hx. auto.
  - apply elem_of_list_insert in Hx as [->|Hx]; [|auto]. destruct Hok as (Hall & Hp & _).
    apply Forall_app in Hall as [_ ?]. split; [by apply Hp|done].
  - apply elem_of_remove_at in Hx. auto.
Qed.

Lemma leader_closed_nodes st cmd st' x :
  leader_inv st → leader_ok st cmd → do_command st cmd = Ok st' → x ∈ ClosedSegments st' →
  Forall (node_known st') (DoneNodeIDs (seg_Nodes x) ++ ReplicatingNodeIDs (seg_Nodes x)).
Proof.
  intros Hinv [_ Hok] Hdo Hx. eapply Forall_known; [exact Hdo|].
  pose proof (do_command_segs _ _ _ Hdo) as H. pose proof (li_closed st Hinv) as Hold.
  destruct H as [? Ho Hc|? p _ Ho Hc|c Ho Hc|c i y Hi Hid Ho Hc|c i y Hi Ho Hc|c i y Hi Ho Hc Hw
    |c i y Hi Hid Hw Ho Hc|c i y Hi Hid Hw Ho Hc]; rewrite Hc in Hx; auto.
  - apply elem_of_drop_segments in Hx as [Hx _]. auto.
  - rewrite elem_of_sort_by, elem_of_app, list_elem_of_singleton in Hx.
    destruct Hx as [Hx| ->]; [auto|]. cbn [close_segment seg_Nodes DoneNodeIDs ReplicatingNodeIDs app].
    constructor; [done|]. apply (li_open st Hinv). by eapply list_elem_of_lookup_2.
  - apply elem_of_list_insert in Hx as [->|Hx]; [|auto]. by destruct Hok as [? _].
  - apply elem_of_remove_at in Hx. auto.
Qed.

Lemma leader_closed_done st cmd st' x :
  leader_inv st → leader_ok st cmd → do_command st cmd = Ok st' → x ∈ ClosedSegments st' →
  DoneNodeIDs (seg_Nodes x) ≠ [].
Proof.
  intros Hinv [_ Hok] Hdo Hx.
  pose proof (do_command_segs _ _ _ Hdo) as H. pose proof (li_done st Hinv) as Hold.
  destruct H as [? Ho Hc|? p _ Ho Hc|c Ho Hc|c i y Hi Hid Ho Hc|c i y Hi Ho Hc|c i y Hi Ho Hc Hw
    |c i y Hi Hid Hw Ho Hc|c i y Hi Hid Hw Ho Hc]; rewrite Hc in Hx; auto.
  - apply elem_of_drop_segments in Hx as [Hx _]. auto.
  - rewrite elem_of_sort_by, elem_of_app, list_elem_of_singleton in Hx.
    destruct Hx as [Hx| ->]; [auto|done].
  - apply elem_of_list_insert in Hx as [->|Hx]; [|auto]. destruct Hok as (_ & _ & Hd). by apply Hd.
  - apply elem_of_remove_at in Hx. auto.
Qed.

(** The commands of the leader keep the invariant. *)
Lemma leader_step st cmd st' :
  leader_inv st → leader_ok st cmd → do_command st cmd = Ok st' → leader_inv st'.
Proof.
  intros Hinv Hok H. split.
  - eapply do_command_wf; [apply Hinv|apply Hok|done].
  - intros x. by eapply leader_open_nodes.
  - intros x. by eapply leader_closed_nodes.
  - intros n Hn. destruct cmd as [c|c|c|c|c|c|c|c|c|c|c|c|];
      try (rewrite (do_command_Nodes _ _ _ H) in Hn by (intros ? [=]); by apply (li_states st Hinv)).
    simpl in H. simplify_eq. apply doUpdateNode_elem in Hn as [Hn|[_ ->]]; [by apply (li_states st Hinv)|].
    apply Hok.
  - intros ns t Hns Ht. destruct (do_command_topics _ _ _ _ _ H Hns Ht) as [(ns' & ? & ?)|(c & t' & -> & ? & ->)].
    + by eapply (li_topics st Hinv).
    + by apply Hok.
  - intros x y. by eapply leader_groups.
  - intros x Hx. pose proof (do_command_current _ _ _ H) as Hcur.
    destruct (do_command_commits _ _ _ _ H Hx) as [Hold|(c & -> & Hin)].
    + apply (li_commits st Hinv) in Hold. lia.
    + apply (proj2 Hok) in Hin. lia.
  - intros x. by eapply leader_closed_done.
Qed.

Lemma leader_inv_Index st index : leader_inv st → leader_inv (with_Index st index).
Proof. intros [H1 H2 H3 H4 H5 H6 H7 H8]. split; try done. by apply wf_with_Index. Qed.

Lemma leader_Do st index cmd :
  leader_inv st → leader_ok st cmd →
  ∃ st', do_command st cmd = Ok st' ∧ Do st index (Some cmd) = Ok (with_Index st' index) ∧
    leader_inv (with_Index st' index) ∧ cluster_step st (with_Index st' index).
Proof.
  intros Hinv Hok. destruct (do_command_total st cmd (proj1 Hok)) as [st' Hst'].
  assert (Hdo : Do st index (Some cmd) = Ok (with_Index st' index)) by (simpl; by rewrite Hst').
  exists st'. split_and!; [done..| |].
  - by eapply leader_inv_Index, leader_step.
  - apply (step_Do st index (Some cmd)); [|done]. intros c [= <-]. apply Hok.
Qed.

(** Drawing an identifier. *)
Lemma leader_NextSegmentID st :
  leader_inv st → 0 ≤ CurrentSegmentID st < MaxUint64 →
  leader_inv (NextSegmentID st).1 ∧ cluster_step st (NextSegmentID st).1 ∧
  CurrentSegmentID (NextSegmentID st).1 = CurrentSegmentID st + 1 ∧
  (NextSegmentID st).2 = CurrentSegmentID st + 1.
Proof.
  intros [H1 H2 H3 H4 H5 H6 H7 H8] Hc. assert (Hn : u64 (CurrentSegmentID st + 1) = CurrentSegmentID st + 1).
  { apply Z.mod_small. unfold MaxUint64 in Hc. lia. }
  split_and!; [|by apply step_NextSegmentID; lia|done|done].
  split; try done; [apply NextSegmentID_wf; [lia|done]|].
  intros c Hcm. cbn [CurrentSegmentID with_CurrentSegmentID NextSegmentID fst]. rewrite Hn.
  specialize (H7 c Hcm). lia.
Qed.
