(* ===== verification/Server.v ===== *)
(** * The server: requests handled by the leader

    Models src/mq/server.go, server_apply.go and the handlers that read and change the cluster
    state: server_namespace_*.go, server_topic_create/delete/list.go,
    server_consumer_group_create/delete/list.go, server_segment_create/close/replica_close/rotate.go.

    A handler runs in a state and error monad over [Server].  The Raft library is not part of the repository:
    what it answers to each call ([Apply], [Barrier], [AddVoter]) is taken from the list [srv_answers],
    about which nothing is assumed.  An entry may be committed although
    the caller gets an error (a timeout), and entries of other goroutines that are not
    under the transaction mutex (the node updates of member events) may come in between. *)
From S2P Require Import Prelude Util Emq ClusterState ClusterOps Requests Reconciler.

(** ** The state *)

Inductive raft_outcome : Type :=
| Committed (index : Z) (* the future has no error *)
| TimedOut (index : Z)  (* the future has an error, the entry is committed all the same *)
| Refused.              (* the future has an error, the entry is not committed *)

(** The member event that [Loop] turns into a command, its name parsed. *)
Record member_event : Type := {
  ev_ID : Z;
  ev_Address : string;
  ev_alive : bool; (* [NodeJoin] or [NodeUpdate] *)
  ev_now : Z;
}.

Definition member_update (ev : member_event) : ClusterCommandNodeUpdate :=
  if ev_alive ev
  then {| nu_ID := ev_ID ev; nu_Address := ev_Address ev; nu_State := ClusterNode_ALIVE;
          nu_LastSeenAlive := None |}
  else {| nu_ID := ev_ID ev; nu_Address := ev_Address ev; nu_State := ClusterNode_DEAD;
          nu_LastSeenAlive := Some (ev_now ev) |}.

Record raft_answer : Type := {
  ans_before : list (Z * member_event); (* entries that were committed before *)
  ans_outcome : raft_outcome;
}.

Record Server : Type := {
  srv_nodeID : Z;
  srv_isLeader : bool; (* [raftNode.State() == raft.Leader] *)
  srv_leader : string; (* [raftNode.Leader()] *)
  srv_state : ClusterState; (* [clusterState.Current()] *)
  srv_crashed : bool; (* the state machine panicked *)
  srv_answers : list raft_answer;
  srv_members : list Member;
  srv_dials : string → bool; (* [pool.Get] succeeds *)
  srv_sizes : Z → Z → option Z; (* the answers to [SegmentSum] by segment and node *)
}.

Definition with_state (s : Server) (st : ClusterState) : Server :=
  {| srv_nodeID := srv_nodeID s; srv_isLeader := srv_isLeader s; srv_leader := srv_leader s;
     srv_state := st; srv_crashed := srv_crashed s; srv_answers := srv_answers s;
     srv_members := srv_members s; srv_dials := srv_dials s; srv_sizes := srv_sizes s |}.

Definition with_answers (s : Server) (answers : list raft_answer) : Server :=
  {| srv_nodeID := srv_nodeID s; srv_isLeader := srv_isLeader s; srv_leader := srv_leader s;
     srv_state := srv_state s; srv_crashed := srv_crashed s; srv_answers := answers;
     srv_members := srv_members s; srv_dials := srv_dials s; srv_sizes := srv_sizes s |}.

Definition crash (s : Server) : Server :=
  {| srv_nodeID := srv_nodeID s; srv_isLeader := srv_isLeader s; srv_leader := srv_leader s;
     srv_state := srv_state s; srv_crashed := true; srv_answers := srv_answers s;
     srv_members := srv_members s; srv_dials := srv_dials s; srv_sizes := srv_sizes s |}.

(** ** Errors *)

Inductive server_error : Type :=
| errNotALeader
| errNoLeaderElected
| couldNotDialLeaderError
| validationFailed (errs : list validation_error)
| txBeginFailed
| applyFailed
| barrierFailed
| namespaceNotFound (namespace : string)
| topicNotFound (namespace name : string)
| consumerGroupNotFound (namespace name : string)
| topicTypeCannotChange (request cluster : string)
| topicReferenced (namespace name : string)
| noRoutingKey (topic type : string)
| noHeaders (topic type : string)
| unhandledTopicType (type : string)
| nodeNotFound (id : Z)
| segmentNotFound (id : Z)
| nodeNotPrimary (node segment : Z)
| commitsUpdateWithClose
| segmentReplicaCorrupted
| segmentDeleted.

(** ** The monad *)

Definition handler (A : Type) : Type := Server → result server_error A * Server.

#[export] Instance handler_ret : MRet handler := λ A a s, (Ok a, s).
#[export] Instance handler_bind : MBind handler := λ A B f m s,
  match m s with
  | (Ok a, s) => f a s
  | (Err e, s) => (Err e, s)
  | (Panic msg, s) => (Panic msg, s)
  end.

Definition fail {A} (e : server_error) : handler A := λ s, (Err e, s).
Definition panic {A} (msg : string) : handler A := λ s, (Panic msg, s).
Definition current : handler ClusterState := λ s, (Ok (srv_state s), s).

(** ** Raft *)

(** Entries of other goroutines. *)
Definition apply_before (st : ClusterState) (entries : list (Z * member_event)) : ClusterState :=
  foldl (λ st entry, with_Index (doUpdateNode st (member_update entry.2)) entry.1) st entries.

(** The state machine applies a committed entry; a panic of the state machine ends the process. *)
Definition commit (index : Z) (cmd : ClusterCommand) : handler () := λ s,
  match Do (srv_state s) index (Some cmd) with
  | Ok st => (Ok (), with_state s st)
  | Err e => match (e : Empty_set) with end
  | Panic msg => (Panic msg, crash s)
  end.

(** The next answer of Raft. *)
Definition ask_raft : handler raft_outcome := λ s,
  match srv_answers s with
  | [] => (Ok Refused, s)
  | answer :: answers =>
    (Ok (ans_outcome answer),
     with_state (with_answers s answers) (apply_before (srv_state s) (ans_before answer)))
  end.

(** [Server.Apply] *)
Definition Server_Apply (cmd : ClusterCommand) : handler Z :=
  outcome ← ask_raft;
  match outcome with
  | Committed index => commit index cmd;; mret index
  | TimedOut index => commit index cmd;; fail applyFailed
  | Refused => fail applyFailed
  end.

(** [raftNode.Barrier(barrierTimeout).Error()] *)
Definition Barrier (e : server_error) : handler () :=
  outcome ← ask_raft;
  match outcome with
  | Committed _ => mret ()
  | _ => fail e
  end.

(** [beginTransaction], the body and [releaseTransaction]; the mutex makes sure that one body runs at
    a time, and it is released on every path. *)
Definition transaction {A} (body : handler A) : handler A := Barrier txBeginFailed;; body.

(** [Server.NextSegmentID] *)
Definition Server_NextSegmentID : handler Z := λ s,
  let '(st, id) := NextSegmentID (srv_state s) in (Ok id, with_state s st).

(** [Server.GetSegmentSizeFromNode]; [srv_sizes] tells what [SegmentSum] answers.  An error of another node is assigned to the variable that the
    inner scope declares: it is not seen, and the response is nil. *)
Definition Server_GetSegmentSizeFromNode (s : Server) (segmentID nodeID : Z) (nodeAddr : string) : result () Z :=
  if nodeID =? srv_nodeID s then match srv_sizes s segmentID nodeID with Some size => Ok size | None => Err () end
  else if negb (srv_dials s nodeAddr) then Err ()
  else match srv_sizes s segmentID nodeID with Some size => Ok size | None => Panic "nil pointer dereference" end.

(** The server as the delegate of its reconciler. *)
Definition Server_delegate : ReconcilerDelegate Server := {|
  Apply s cmd :=
    match Server_Apply cmd s with
    | (Ok index, s) => (s, Some index)
    | (_, s) => (s, None)
    end;
  Members := srv_members;
  AddVoter s _ _ :=
    match ask_raft s with
    | (Ok (Committed _), s) => (s, true)
    | (_, s) => (s, false)
    end;
  GetSegmentSizeFromNode s segment node addr := (s, Server_GetSegmentSizeFromNode s segment node addr);
  delegate_NextSegmentID s :=
    let '(st, id) := NextSegmentID (srv_state s) in (with_state s st, id);
|}.
#[export] Existing Instance Server_delegate.

(** Code of the reconciler called by a handler. *)
Definition reconcile {A} (f : Server → result Empty_set (Server * A)) : handler A := λ s,
  match f s with
  | Ok (s, a) => (Ok a, s)
  | Err e => match (e : Empty_set) with end
  | Panic msg => (Panic msg, s)
  end.

(** ** Requests that only the leader serves *)

Inductive reply (A R : Type) : Type :=
| Done (a : A)
| Forward (addr : string) (request : R). (* the answer is that of the leader *)
Arguments Done {A R} _.
Arguments Forward {A R} _ _.

(** The preamble of the handlers: [forwarded] is the request with [LeaderOnly] set. *)
Definition on_leader {A R} (leaderOnly : bool) (forwarded : R) (body : handler A) :
    handler (reply A R) := λ s,
  if srv_isLeader s then (a ← body; mret (Done a)) s
  else if leaderOnly then fail errNotALeader s
  else if String.eqb (srv_leader s) "" then fail errNoLeaderElected s
  else if negb (srv_dials s (srv_leader s)) then fail couldNotDialLeaderError s
  else (Ok (Forward (srv_leader s) forwarded), s).

Definition validate (v : result (list validation_error) ()) : handler () :=
  match v with
  | Ok _ => mret ()
  | Err errs => fail (validationFailed errs)
  | Panic msg => panic msg
  end.

Record Response : Type := { resp_OK : bool; resp_Index : Z }.
Definition ok (index : Z) : Response := {| resp_OK := true; resp_Index := index |}.

(** ** Namespaces *)

Definition CreateNamespace_handler (request : NamespaceCreateRequest) :
    handler (reply Response NamespaceCreateRequest) :=
  on_leader (ncr_LeaderOnly request)
    {| ncr_LeaderOnly := true; ncr_Namespace := ncr_Namespace request |}
    (validate (NamespaceCreateRequest_Validate request);;
     transaction (
       index ← Server_Apply (CreateNamespace {| nc_Namespace := ncr_Namespace request |});
       mret (ok index))).

Definition DeleteNamespace_handler (request : NamespaceDeleteRequest) :
    handler (reply Response NamespaceDeleteRequest) :=
  on_leader (ndr_LeaderOnly request)
    {| ndr_LeaderOnly := true; ndr_Namespace := ndr_Namespace request |}
    (validate (NamespaceDeleteRequest_Validate request);;
     transaction (
       state ← current;
       match FindNamespace state (ndr_Namespace request) with
       | None => fail (namespaceNotFound (ndr_Namespace request))
       | Some _ =>
         index ← Server_Apply (DeleteNamespace {| nd_Namespace := ndr_Namespace request |});
         mret (ok index)
       end)).

(** ** Topics *)

Definition new_topic (topic : Topic) : ClusterTopic :=
  {| topic_Name := Topic_Name topic; topic_Shards := Topic_Shards topic;
     topic_ReplicationFactor :=
       if Topic_ReplicationFactor topic =? 0 then defaultReplicationFactor
       else Topic_ReplicationFactor topic;
     topic_Retention := Topic_Retention topic;
     topic_DefaultExchangeType := Topic_DefaultExchangeType topic |}.

Definition CreateTopic_handler (request : TopicCreateRequest) :
    handler (reply Response TopicCreateRequest) :=
  let topic := tcr_Topic request in
  on_leader (tcr_LeaderOnly request) {| tcr_LeaderOnly := true; tcr_Topic := topic |}
    (validate (TopicCreateRequest_Validate request);;
     transaction (
       state ← current;
       match FindNamespace state (Topic_Namespace topic) with
       | None => fail (namespaceNotFound (Topic_Namespace topic))
       | Some _ =>
         match GetTopic state (Topic_Namespace topic) (Topic_Name topic) with
         | Some old =>
           if negb (String.eqb (Topic_DefaultExchangeType topic) (topic_DefaultExchangeType old))
           then fail (topicTypeCannotChange (Topic_DefaultExchangeType topic)
                        (topic_DefaultExchangeType old))
           else mret ()
         | None => mret ()
         end;;
         index ← Server_Apply (CreateTopic {| tc_Namespace := Topic_Namespace topic;
                                              tc_Topic := Some (new_topic topic) |});
         mret (ok index)
       end)).

Definition DeleteTopic_handler (request : TopicDeleteRequest) :
    handler (reply Response TopicDeleteRequest) :=
  on_leader (tdr_LeaderOnly request)
    {| tdr_LeaderOnly := true; tdr_Namespace := tdr_Namespace request;
       tdr_Name := tdr_Name request; tdr_IfUnused := tdr_IfUnused request |}
    (validate (TopicDeleteRequest_Validate request);;
     transaction (
       state ← current;
       match FindNamespace state (tdr_Namespace request) with
       | None => fail (namespaceNotFound (tdr_Namespace request))
       | Some (_, namespace) =>
         match FindTopic namespace (tdr_Name request) with
         | None => fail (topicNotFound (tdr_Namespace request) (tdr_Name request))
         | Some _ =>
           (if tdr_IfUnused request && AnyConsumerGroupReferencesTopic namespace (tdr_Name request)
            then fail (topicReferenced (tdr_Namespace request) (tdr_Name request))
            else mret ());;
           index ← Server_Apply (DeleteTopic {| td_Namespace := tdr_Namespace request;
                                                td_Name := tdr_Name request |});
           mret (ok index)
         end
       end)).

Record TopicListResponse : Type := { tl_OK : bool; tl_Index : Z; tl_Topics : list Topic }.

Definition list_topic (namespace : ClusterNamespace) (t : ClusterTopic) : Topic :=
  {| Topic_Namespace := ns_Name namespace; Topic_Name := topic_Name t;
     Topic_Shards := topic_Shards t; Topic_ReplicationFactor := topic_ReplicationFactor t;
     Topic_Retention := topic_Retention t;
     Topic_DefaultExchangeType := topic_DefaultExchangeType t |}.

Definition ListTopics_handler (request : TopicListRequest) :
    handler (reply TopicListResponse TopicListRequest) :=
  on_leader (tlr_LeaderOnly request)
    {| tlr_LeaderOnly := true; tlr_Namespace := tlr_Namespace request; tlr_Name := tlr_Name request |}
    (validate (TopicListRequest_Validate request);;
     state ← current;
     match FindNamespace state (tlr_Namespace request) with
     | None => fail (namespaceNotFound (tlr_Namespace request))
     | Some (_, namespace) =>
       mret {| tl_OK := true; tl_Index := Index state;
               tl_Topics := list_topic namespace <$> ListTopics namespace (tlr_Name request) |}
     end).

(** ** Consumer groups *)

(** [1024 * 1024 / uint32(unsafe.Sizeof(consumers.Message{}))] with the 96 bytes that the structure
    takes on 64-bit platforms. *)
Definition defaultConsumerGroupSize : Z := 1024 * 1024 / 96.

(** The loop over the bindings. *)
Definition new_binding (state : ClusterState) (namespace : string)
    (clientBinding : ConsumerGroup_Binding) : result server_error ClusterConsumerGroup_Binding :=
  let topic := Binding_TopicName clientBinding in
  let type := Binding_ExchangeType clientBinding in
  let bind how := Ok {| b_TopicName := topic; b_ExchangeType := type; b_By := how |} in
  match GetTopic state namespace topic with
  | None => Err (topicNotFound namespace topic)
  | Some _ =>
    if bool_decide (type = ExchangeTypeDirect) || bool_decide (type = ExchangeTypeTopic) then
      match Binding_by clientBinding with
      | By_RoutingKey key => bind (By_RoutingKey key)
      | _ => Err (noRoutingKey topic type)
      end
    else if bool_decide (type = ExchangeTypeHeaders) then
      match Binding_by clientBinding with
      | By_HeadersAny h => bind (By_HeadersAny h)
      | By_HeadersAll h => bind (By_HeadersAll h)
      | _ => Err (noHeaders topic type)
      end
    else if bool_decide (type = ExchangeTypeFanout) then bind By_nil
    else Err (unhandledTopicType type)
  end.

Fixpoint new_bindings (state : ClusterState) (namespace : string)
    (clientBindings : list ConsumerGroup_Binding) :
    result server_error (list ClusterConsumerGroup_Binding) :=
  match clientBindings with
  | [] => Ok []
  | clientBinding :: clientBindings =>
    binding ← new_binding state namespace clientBinding;
    bindings ← new_bindings state namespace clientBindings;
    Ok (binding :: bindings)
  end.

Definition lift {A} (r : result server_error A) : handler A := λ s, (r, s).

Definition CreateConsumerGroup_handler (now : Z) (request : ConsumerGroupCreateRequest) :
    handler (reply Response ConsumerGroupCreateRequest) :=
  let group := gcr_ConsumerGroup request in
  on_leader (gcr_LeaderOnly request) {| gcr_LeaderOnly := true; gcr_ConsumerGroup := group |}
    (validate (ConsumerGroupCreateRequest_Validate request);;
     transaction (
       state ← current;
       match FindNamespace state (ConsumerGroup_Namespace group) with
       | None => fail (namespaceNotFound (ConsumerGroup_Namespace group))
       | Some (_, namespace) =>
         let since :=
           if ConsumerGroup_Since group =? 0 then
             match FindConsumerGroup namespace (ConsumerGroup_Name group) with
             | None => now
             | Some (_, cg) => cg_Since cg
             end
           else ConsumerGroup_Since group in
         bindings ← lift (new_bindings state (ConsumerGroup_Namespace group)
                            (ConsumerGroup_Bindings group));
         let size := if ConsumerGroup_Size group =? 0 then defaultConsumerGroupSize
                     else ConsumerGroup_Size group in
         index ← Server_Apply (CreateConsumerGroup
           {| cgc_Namespace := ConsumerGroup_Namespace group;
              cgc_ConsumerGroup := Some {| cg_Name := ConsumerGroup_Name group;
                cg_Bindings := bindings; cg_Size := size; cg_Since := since;
                cg_OffsetCommits := [] |} |});
         Barrier barrierFailed;;
         state ← current;
         match FindNamespace state (ConsumerGroup_Namespace group) with
         | None => panic "nil pointer dereference"
         | Some (_, namespace) =>
           match FindConsumerGroup namespace (ConsumerGroup_Name group) with
           | None => panic "nil pointer dereference"
           | Some (_, consumerGroup) =>
             newIndex ← reconcile (λ s, ReconcileConsumerGroup s now state namespace consumerGroup);
             mret (ok (if 0 <? newIndex then newIndex else index))
           end
         end
       end)).

(** The loop that deletes the offset segments of a group. *)
Fixpoint delete_segments (segments : list ClusterSegment) (index : Z) : handler Z :=
  match segments with
  | [] => mret index
  | segment :: segments =>
    index ← Server_Apply (DeleteSegment {| sd_ID := seg_ID segment; sd_Which := Which_OPEN |});
    delete_segments segments index
  end.

Definition DeleteConsumerGroup_handler (request : ConsumerGroupDeleteRequest) :
    handler (reply Response ConsumerGroupDeleteRequest) :=
  on_leader (gdr_LeaderOnly request)
    {| gdr_LeaderOnly := true; gdr_Namespace := gdr_Namespace request; gdr_Name := gdr_Name request |}
    (validate (ConsumerGroupDeleteRequest_Validate request);;
     transaction (
       state ← current;
       match FindNamespace state (gdr_Namespace request) with
       | None => fail (namespaceNotFound (gdr_Namespace request))
       | Some (_, namespace) =>
         match FindConsumerGroup namespace (gdr_Name request) with
         | None => fail (consumerGroupNotFound (gdr_Namespace request) (gdr_Name request))
         | Some _ =>
           index ← Server_Apply (DeleteConsumerGroup
             {| cgd_Namespace := gdr_Namespace request; cgd_Name := gdr_Name request |});
           index ← delete_segments
             (FindOpenSegmentsFor state ClusterSegment_CONSUMER_GROUP_OFFSET_COMMITS
                (gdr_Namespace request) (gdr_Name request)) index;
           mret (ok index)
         end
       end)).

Record ConsumerGroupListResponse : Type := {
  gl_OK : bool; gl_Index : Z; gl_ConsumerGroups : list ConsumerGroup }.

Definition convertClusterBinding (clusterBinding : ClusterConsumerGroup_Binding) :
    ConsumerGroup_Binding :=
  {| Binding_TopicName := b_TopicName clusterBinding;
     Binding_ExchangeType := b_ExchangeType clusterBinding;
     Binding_by := b_By clusterBinding |}.

Definition list_group (namespace : ClusterNamespace) (cg : ClusterConsumerGroup) : ConsumerGroup :=
  {| ConsumerGroup_Namespace := ns_Name namespace; ConsumerGroup_Name := cg_Name cg;
     ConsumerGroup_Bindings := convertClusterBinding <$> cg_Bindings cg;
     ConsumerGroup_Size := cg_Size cg; ConsumerGroup_Since := cg_Since cg |}.

Definition ListConsumerGroups_handler (request : ConsumerGroupListRequest) :
    handler (reply ConsumerGroupListResponse ConsumerGroupListRequest) :=
  on_leader (glr_LeaderOnly request)
    {| glr_LeaderOnly := true; glr_Namespace := glr_Namespace request; glr_Name := glr_Name request |}
    (validate (ConsumerGroupListRequest_Validate request);;
     state ← current;
     match FindNamespace state (glr_Namespace request) with
     | None => fail (namespaceNotFound (glr_Namespace request))
     | Some (_, namespace) =>
       mret {| gl_OK := true; gl_Index := Index state;
               gl_ConsumerGroups :=
                 list_group namespace <$> ListConsumerGroups namespace (glr_Name request) |}
     end).

(** ** Opening segments *)

Record SegmentOpenRequest : Type := {
  sor_LeaderOnly : bool; sor_NodeID : Z; sor_Type : ClusterSegment_Type;
  sor_OwnerNamespace : string; sor_OwnerName : string }.

Record SegmentOpenResponse : Type := { so_SegmentID : Z; so_PrimaryNodeID : Z }.

(** The loop that finds the segments of the latest generation. *)
Definition latest_step (owned : ClusterSegment → bool) (acc : Z * list ClusterSegment)
    (segment : ClusterSegment) : Z * list ClusterSegment :=
  if owned segment then
    let acc := if acc.1 <? seg_Generation segment then (seg_Generation segment, []) else acc in
    if seg_Generation segment =? acc.1 then (acc.1, acc.2 ++ [segment]) else acc
  else acc.

Definition latest_generation (state : ClusterState) (owned : ClusterSegment → bool) :
    Z * list ClusterSegment :=
  foldl (foldl (latest_step owned)) (1, []) [ClosedSegments state; OpenSegments state].

(** The node has or had the segment of a shard. *)
Definition node_in (id : Z) (segment : ClusterSegment) : bool :=
  (PrimaryNodeID (seg_Nodes segment) =? id) || bool_decide (id ∈ DoneNodeIDs (seg_Nodes segment)).

(** The loop that finds a free shard: among one more numbers than there are segments
    one is free, so that the loop ends within that many iterations. *)
Fixpoint free_shard (fuel : nat) (i shards : Z) (segments : list ClusterSegment) : Z :=
  match fuel with
  | O => 1
  | S fuel =>
    if i <=? shards then
      if existsb (λ segment, seg_Shard segment =? i) segments
      then free_shard fuel (u32 (i + 1)) shards segments
      else i
    else 1
  end.

(** Generation and shard of a new segment. *)
Definition next_place (state : ClusterState) (owned : ClusterSegment → bool)
    (primaryNodeID shards : Z) : Z * Z :=
  let '(generation, generationSegments) := latest_generation state owned in
  if (0 <? shards) && (shards <=? u32 (Z.of_nat (length generationSegments)))
  then (u32 (generation + 1), 1)
  else if existsb (node_in primaryNodeID) generationSegments then (u32 (generation + 1), 1)
  else (generation, free_shard (S (length generationSegments)) 1 shards generationSegments).

(** The loop that chooses replicas; unlike the reconciler it does not count them. *)
Fixpoint choose_replicas (fuel : nat) (m : gmap Z Z) (candidates replicas : list Z) (limit : Z) :
    list Z :=
  match fuel with
  | O => replicas
  | S fuel =>
    if u32 (Z.of_nat (length replicas)) <? limit then
      match min_candidate m candidates 0 None with
      | Some (i, id) => choose_replicas fuel m (remove_at i candidates) (replicas ++ [id]) limit
      | None => replicas
      end
    else replicas
  end.

Definition new_replicas (state : ClusterState) (primaryNodeID replicationFactor : Z) : list Z :=
  if 1 <? replicationFactor then
    let candidates := node_ID <$> List.filter (λ node, negb (node_ID node =? primaryNodeID) &&
                        bool_decide (node_State node = ClusterNode_ALIVE)) (Nodes state) in
    choose_replicas (length candidates) (CountSegmentsPerNode state) candidates []
      (u32 (replicationFactor - 1))
  else [].

(** The loop that gives the groups bound to the topic an offset in the new segment; an error is only
    logged. *)
Fixpoint add_offset_commits (namespace : string) (groups : list ClusterConsumerGroup)
    (ownerName : string) (segmentID : Z) : handler () :=
  match groups with
  | [] => mret ()
  | consumerGroup :: groups =>
    (if existsb (λ binding, String.eqb (b_TopicName binding) ownerName) (cg_Bindings consumerGroup)
     then λ s, (Ok (), (Apply s (UpdateConsumerGroupOffsetCommits
            {| ocu_Namespace := namespace; ocu_Name := cg_Name consumerGroup;
               ocu_OffsetCommits := cg_OffsetCommits consumerGroup ++
                 [{| oc_SegmentID := segmentID; oc_Offset := 0 |}] |})).1)
     else mret ());;
    add_offset_commits namespace groups ownerName segmentID
  end.

Section segments.
Context (Intn : nat → nat) (now : Z). (* [rand.Intn] and the clock *)

(** The part of [txSegmentOpen] that opens a new segment. *)
Definition open_new_segment (state : ClusterState) (primaryNodeID : Z)
    (segmentType : ClusterSegment_Type) (ownerNamespace ownerName : string)
    (shards replicationFactor : Z) : handler SegmentOpenResponse :=
  let '(generation, shard) :=
    next_place state (owned_by segmentType ownerNamespace ownerName) primaryNodeID shards in
  let replicatingNodeIDs := new_replicas state primaryNodeID replicationFactor in
  segmentID ← Server_NextSegmentID;
  _ ← Server_Apply (CreateSegment
    {| sc_ID := segmentID; sc_Type := segmentType; sc_OwnerNamespace := ownerNamespace;
       sc_OwnerName := ownerName; sc_Generation := generation; sc_Shard := shard;
       sc_OpenedAt := now; sc_PrimaryNodeID := primaryNodeID;
       sc_ReplicatingNodeIDs := replicatingNodeIDs |});
  (if bool_decide (segmentType = ClusterSegment_TOPIC) then
     match FindNamespace state ownerNamespace with
     | None => panic "nil pointer dereference"
     | Some (_, namespace) =>
       add_offset_commits (ns_Name namespace) (ns_ConsumerGroups namespace) ownerName segmentID
     end
   else mret ());;
  mret {| so_SegmentID := segmentID; so_PrimaryNodeID := primaryNodeID |}.

Definition txSegmentOpen (state : ClusterState) (primaryNodeID : Z)
    (segmentType : ClusterSegment_Type) (ownerNamespace ownerName : string) :
    handler SegmentOpenResponse :=
  match GetNode state primaryNodeID with
  | None => fail (nodeNotFound primaryNodeID)
  | Some _ =>
    '(shards, replicationFactor) ←
      match segmentType with
      | ClusterSegment_TOPIC =>
        match GetTopic state ownerNamespace ownerName with
        | None => fail (topicNotFound ownerNamespace ownerName)
        | Some topic => mret (topic_Shards topic, topic_ReplicationFactor topic)
        end
      | ClusterSegment_CONSUMER_GROUP_OFFSET_COMMITS =>
        match GetConsumerGroup state ownerNamespace ownerName with
        | None => fail (consumerGroupNotFound ownerNamespace ownerName)
        | Some _ => mret (1, defaultReplicationFactor)
        end
      | _ => mret (1, defaultReplicationFactor)
      end;
    let openSegments := FindOpenSegmentsFor state segmentType ownerNamespace ownerName in
    match find_first (λ segment, PrimaryNodeID (seg_Nodes segment) =? primaryNodeID) openSegments with
    | Some (_, segment) =>
      mret {| so_SegmentID := seg_ID segment; so_PrimaryNodeID := primaryNodeID |}
    | None =>
      if (0 <? shards) && (shards <=? u32 (Z.of_nat (length openSegments))) then
        match openSegments !! Intn (length openSegments) with
        | None => panic "index out of range"
        | Some segment =>
          mret {| so_SegmentID := seg_ID segment;
                  so_PrimaryNodeID := PrimaryNodeID (seg_Nodes segment) |}
        end
      else open_new_segment state primaryNodeID segmentType ownerNamespace ownerName shards
             replicationFactor
    end
  end.

Definition SegmentOpen (request : SegmentOpenRequest) :
    handler (reply SegmentOpenResponse SegmentOpenRequest) :=
  on_leader (sor_LeaderOnly request)
    {| sor_LeaderOnly := true; sor_NodeID := sor_NodeID request; sor_Type := sor_Type request;
       sor_OwnerNamespace := sor_OwnerNamespace request; sor_OwnerName := sor_OwnerName request |}
    (transaction (
       state ← current;
       txSegmentOpen state (sor_NodeID request) (sor_Type request) (sor_OwnerNamespace request)
         (sor_OwnerName request))).

(** ** Closing segments *)

Record SegmentCloseRequest : Type := {
  scr_LeaderOnly : bool; scr_SegmentID : Z; scr_NodeID : Z; scr_Size : Z; scr_Sha1 : list Z;
  scr_OffsetCommitsUpdate : option ClusterCommandConsumerGroupOffsetCommitsUpdate }.

Definition forwarded_close (request : SegmentCloseRequest) : SegmentCloseRequest :=
  {| scr_LeaderOnly := true; scr_SegmentID := scr_SegmentID request; scr_NodeID := scr_NodeID request;
     scr_Size := scr_Size request; scr_Sha1 := scr_Sha1 request;
     scr_OffsetCommitsUpdate := scr_OffsetCommitsUpdate request |}.

Definition txSegmentClose (state : ClusterState) (request : SegmentCloseRequest) : handler () :=
  match GetOpenSegment state (scr_SegmentID request) with
  | None =>
    match GetClosedSegment state (scr_SegmentID request) with
    | None => fail (segmentNotFound (scr_SegmentID request))
    | Some _ => mret ()
    end
  | Some oldSegment =>
    if negb (PrimaryNodeID (seg_Nodes oldSegment) =? scr_NodeID request)
    then fail (nodeNotPrimary (scr_NodeID request) (scr_SegmentID request))
    else
      _ ← Server_Apply (CloseSegment
        {| scl_ID := seg_ID oldSegment; scl_DoneNodeID := scr_NodeID request;
           scl_ClosedAt := if now <? seg_CreatedAt oldSegment then seg_CreatedAt oldSegment else now;
           scl_Size := scr_Size request; scl_Sha1 := scr_Sha1 request |});
      mret ()
  end.

Definition SegmentClose (request : SegmentCloseRequest) : handler (reply () SegmentCloseRequest) :=
  on_leader (scr_LeaderOnly request) (forwarded_close request)
    (transaction (
       match scr_OffsetCommitsUpdate request with
       | Some _ => fail commitsUpdateWithClose
       | None => state ← current; txSegmentClose state request
       end)).

Definition SegmentReplicaClose (request : SegmentCloseRequest) :
    handler (reply () SegmentCloseRequest) :=
  on_leader (scr_LeaderOnly request) (forwarded_close request)
    (transaction (
       state ← current;
       match GetClosedSegment state (scr_SegmentID request) with
       | None => fail (segmentNotFound (scr_SegmentID request))
       | Some segment =>
         if negb (scr_Size request =? seg_Size segment) ||
            negb (bool_decide (scr_Sha1 request = seg_Sha1 segment))
         then fail segmentReplicaCorrupted
         else
           let nodes := seg_Nodes segment in
           let others := List.filter (λ nodeID, negb (nodeID =? scr_NodeID request)) in
           if Z.of_nat (length (ReplicatingNodeIDs nodes)) - 1 <? 0
           then panic "makeslice: cap out of range"
           else
             _ ← Server_Apply (UpdateSegmentNodes
               {| snu_ID := seg_ID segment; snu_Which := Which_CLOSED;
                  snu_Nodes := {| PrimaryNodeID := 0;
                    DoneNodeIDs := others (DoneNodeIDs nodes) ++ [scr_NodeID request];
                    ReplicatingNodeIDs := others (ReplicatingNodeIDs nodes) |} |});
             mret ()
       end)).

Definition SegmentRotate (request : SegmentCloseRequest) :
    handler (reply SegmentOpenResponse SegmentCloseRequest) :=
  on_leader (scr_LeaderOnly request) (forwarded_close request)
    (transaction (
       match scr_OffsetCommitsUpdate request with
       | Some update => _ ← Server_Apply (UpdateConsumerGroupOffsetCommits update); mret ()
       | None => mret ()
       end;;
       state ← current;
       txSegmentClose state request;;
       Barrier barrierFailed;;
       state ← current;
       match GetClosedSegment state (scr_SegmentID request) with
       | None => fail segmentDeleted
       | Some oldSegment =>
         txSegmentOpen state (scr_NodeID request) (seg_Type oldSegment)
           (seg_OwnerNamespace oldSegment) (seg_OwnerName oldSegment)
       end)).

End segments.

(** ** The loop of the leader *)

(** The branch of [Loop] for a tick of the leader: [return] in it ends the tick. *)
Definition leader_tick (now : Z) : handler () :=
  transaction (
    state ← current;
    reconcile (λ s, s' ← ReconcileNodes s now state; Ok (s', ()));;
    Barrier barrierFailed;;
    state ← current;
    reconcile (λ s, Ok (ReconcileNamespaces s state, ()));;
    Barrier barrierFailed;;
    state ← current;
    reconcile (λ s, s' ← ReconcileSegments s now state; Ok (s', ()));;
    Barrier barrierFailed;;
    state ← current;
    reconcile (λ s, s' ← ReconcileConsumerGroups s now state; Ok (s', ()))).

(** The branch for an event of the member list, on a leader; [continue] after an error ends it. *)
Definition member_tick (ev : member_event) : handler () := λ s,
  if negb (srv_isLeader s) then (Ok (), s)
  else (_ ← Server_Apply (UpdateNode (member_update ev));
        if ev_alive ev then _ ← ask_raft; mret () else mret ()) s.
