(* ===== verification/ServerLogic.v ===== *)
(** * Reasoning about handlers

    Triples for the monad of the handlers of Server.v: a precondition on the cluster state, a
    postcondition for a result, and one for an error; a panic is excluded.  An assertion
    that survives the node updates of other goroutines is [Stable]. *)
From S2P Require Import Prelude Util Emq ClusterState ClusterOps ClusterInv ClusterProps Requests Reconciler LeaderInv Server.

(** ** Assertions *)

Definition named (m : Member) : Prop := ∃ id, MustIDFromString (member_Name m) = Ok id.

(** What a proof assumes of the answers of the other nodes: of the sizes of segments they report to the node with
    this identifier. *)
Class Answers := answers_ok : Z → (Z → Z → option Z) → Prop.

(** Every other node that is asked for the size of a segment answers. *)
Definition all_answered : Answers := λ nodeID sizes, ∀ segment node, node ≠ nodeID → is_Some (sizes segment node).

Section rules.
Context {env : Answers}.

(** The names of the members are node identifiers, and the other nodes answer as assumed. *)
Definition surroundings (s : Server) : Prop :=
  Forall named (srv_members s) ∧ answers_ok (srv_nodeID s) (srv_sizes s).

(** The server has not crashed, its surroundings are as assumed, and the state satisfies the assertion. *)
Definition holds (P : ClusterState → Prop) (s : Server) : Prop :=
  srv_crashed s = false ∧ surroundings s ∧ P (srv_state s).

Definition triple {A} (P : ClusterState → Prop) (m : handler A) (Q : A → ClusterState → Prop)
    (E : ClusterState → Prop) : Prop :=
  ∀ s, holds P s →
    match m s with
    | (Ok a, s') => holds (Q a) s'
    | (Err _, s') => holds E s'
    | (Panic _, _) => False
    end.

Class Stable (P : ClusterState → Prop) : Prop :=
  stable : ∀ st index ev, P st → P (with_Index (doUpdateNode st (member_update ev)) index).

Lemma holds_mono (P Q : ClusterState → Prop) s : (∀ st, P st → Q st) → holds P s → holds Q s.
Proof. intros H (? & ? & ?). split_and!; auto. Qed.

#[export] Instance Stable_and P Q : Stable P → Stable Q → Stable (λ st, P st ∧ Q st).
Proof. intros HP HQ st index ev [? ?]. split; [by apply HP|by apply HQ]. Qed.

#[export] Instance Stable_pure (φ : Prop) : Stable (λ _, φ).
Proof. intros st index ev H. exact H. Qed.

#[export] Instance Stable_forall {A} (P : A → ClusterState → Prop) :
  (∀ a, Stable (P a)) → Stable (λ st, ∀ a, P a st).
Proof. intros HP st index ev H a. by apply HP. Qed.

Lemma stable_before P `{!Stable P} entries : ∀ st, P st → P (apply_before st entries).
Proof.
  unfold apply_before. induction entries as [|[index ev] entries IH]; intros st H; [done|].
  apply IH. by apply Stable0.
Qed.

(** An assertion on the parts of the state that node updates leave alone. *)
Definition same_data (st st' : ClusterState) : Prop :=
  Namespaces st' = Namespaces st ∧ OpenSegments st' = OpenSegments st ∧
  ClosedSegments st' = ClosedSegments st ∧ CurrentSegmentID st' = CurrentSegmentID st.

Lemma stable_data (P : ClusterState → Prop) :
  (∀ st st', same_data st st' → P st → P st') → Stable P.
Proof. intros H st index ev HP. by apply (H st). Qed.

#[export] Instance Stable_known id : Stable (λ st, node_known st id).
Proof. intros st index ev H. by apply (doUpdateNode_known st (member_update ev)). Qed.

#[export] Instance Stable_leader_inv : Stable leader_inv.
Proof.
  intros st index ev H. apply leader_inv_Index, (leader_step st (UpdateNode (member_update ev))); [done| |done].
  split; [done|]. unfold member_update. destruct (ev_alive ev); auto.
Qed.

(** ** Rules *)

Implicit Types (P E : ClusterState → Prop).

Lemma triple_ret {A} P (a : A) Q E : (∀ st, P st → Q a st) → triple P (mret a) Q E.
Proof. intros H s Hs. by eapply holds_mono. Qed.

Lemma triple_fail {A} P (Q : A → ClusterState → Prop) e E : (∀ st, P st → E st) → triple P (fail e) Q E.
Proof. intros H s Hs. by eapply holds_mono. Qed.

Lemma triple_bind {A B} P (m : handler A) (f : A → handler B) R Q E :
  triple P m R E → (∀ a, triple (R a) (f a) Q E) → triple P (a ← m; f a) Q E.
Proof.
  intros Hm Hf s Hs. specialize (Hm s Hs). unfold mbind, handler_bind.
  destruct (m s) as [[a|e|msg] s']; [by apply Hf|done|done].
Qed.

Lemma triple_conseq {A} P P' (m : handler A) Q Q' E E' :
  triple P m Q E → (∀ st, P' st → P st) → (∀ a st, Q a st → Q' a st) → (∀ st, E st → E' st) →
  triple P' m Q' E'.
Proof.
  intros Hm HP HQ HE s Hs. specialize (Hm s (holds_mono _ _ _ HP Hs)).
  destruct (m s) as [[a|e|msg] s']; [|by eapply holds_mono|done].
  eapply holds_mono; [apply HQ|done].
Qed.

(** A fact of the state may be used to show the triple. *)
Lemma triple_pure {A} P (φ : Prop) (m : handler A) Q E :
  (∀ st, P st → φ) → (φ → triple P m Q E) → triple P m Q E.
Proof. intros H Hm s Hs. by apply Hm; [apply (H (srv_state s)), Hs|]. Qed.

Lemma triple_current P E : triple P current (λ a st, a = st ∧ P st) E.
Proof. intros s (H1 & H2 & H3). by split_and!. Qed.

Lemma triple_ask P E : Stable P → triple P ask_raft (λ _, P) E.
Proof.
  intros HP s (H1 & H2 & H3). unfold ask_raft. destruct (srv_answers s) as [|answer answers].
  - by split_and!.
  - split_and!; [done|done|]. by apply stable_before.
Qed.

Lemma triple_Barrier P e E : Stable P → (∀ st, P st → E st) → triple P (Barrier e) (λ _, P) E.
Proof.
  intros HP HE. eapply triple_bind; [by apply triple_ask|].
  intros [index|index|]; [by apply triple_ret|by apply triple_fail..].
Qed.

Lemma triple_transaction {A} P (m : handler A) Q E :
  Stable P → (∀ st, P st → E st) → triple P m Q E → triple P (transaction m) Q E.
Proof. intros HP HE Hm. eapply triple_bind; [by apply triple_Barrier|done]. Qed.

Lemma triple_on_leader {A R} P leaderOnly (forwarded : R) (m : handler A) Q E :
  (∀ st, P st → E st) →
  triple P m Q E →
  triple P (on_leader leaderOnly forwarded m)
    (λ a st, match a with Done a => Q a st | Forward _ _ => P st end) E.
Proof.
  intros HE Hm s Hs. unfold on_leader. destruct (srv_isLeader s).
  - specialize (Hm s Hs). unfold mbind, handler_bind. destruct (m s) as [[a|e|msg] s']; done.
  - repeat case_if; by eapply holds_mono.
Qed.

Lemma triple_validate P errs E :
  (∀ st, P st → E st) →
  triple P (validate (validation errs)) (λ _ st, P st ∧ validation errs = Ok ()) E.
Proof.
  intros HE. destruct errs; simpl; [|by apply triple_fail]. by apply triple_ret.
Qed.


(** ** Commands *)

Lemma commit_safe P s index cmd :
  (∀ st, P st → leader_inv st ∧ leader_ok st cmd) → holds P s →
  ∃ st', do_command (srv_state s) cmd = Ok st' ∧
    commit index cmd s = (Ok (), with_state s (with_Index st' index)).
Proof.
  intros Hok (Hc & Hm & HP). destruct (Hok _ HP) as [Hinv Hcmd].
  destruct (leader_Do _ index _ Hinv Hcmd) as (st' & H1 & H2 & _). exists st'. split; [done|].
  unfold commit. by rewrite H2.
Qed.

Lemma triple_Apply (P E : ClusterState → Prop) cmd Q :
  Stable P → (∀ st, P st → leader_inv st ∧ leader_ok st cmd) →
  (∀ st index st', P st → do_command st cmd = Ok st' →
     Q index (with_Index st' index) ∧ E (with_Index st' index)) →
  (∀ st, P st → E st) →
  triple P (Server_Apply cmd) Q E.
Proof.
  intros HP Hok HQ HE. unfold Server_Apply.
  eapply (triple_bind _ _ _ (λ _, P)); [by apply triple_ask|].
  intros [index|index|]; [| |by apply triple_fail]; intros s Hs;
    destruct (commit_safe P s index cmd Hok Hs) as (st' & Hdo & Hcm);
    unfold mbind, handler_bind; rewrite Hcm; destruct Hs as (H1 & H2 & H3);
    destruct (HQ _ index _ H3 Hdo); by split_and!.
Qed.

(** The same for the calls of the reconciler, which carries on after an error. *)
Lemma Apply_to (P R : ClusterState → Prop) cmd s :
  Stable P → (∀ st, P st → leader_inv st ∧ leader_ok st cmd) →
  (∀ st index st', P st → do_command st cmd = Ok st' → R (with_Index st' index)) →
  (∀ st, P st → R st) →
  holds P s → holds R (Apply s cmd).1.
Proof.
  intros HP Hok Hstep HR Hs.
  pose proof (triple_Apply P R cmd (λ _, R) HP Hok ltac:(eauto) HR s Hs) as H.
  simpl. destruct (Server_Apply cmd s) as [[a|e|msg] s']; done.
Qed.

Lemma Apply_safe (P : ClusterState → Prop) cmd s :
  Stable P → (∀ st, P st → leader_inv st ∧ leader_ok st cmd) →
  (∀ st index st', P st → do_command st cmd = Ok st' → P (with_Index st' index)) →
  holds P s → holds P (Apply s cmd).1.
Proof. intros HP Hok Hstep. by apply Apply_to. Qed.

Lemma AddVoter_safe (P : ClusterState → Prop) s id addr :
  Stable P → holds P s → holds P (AddVoter s id addr).1.
Proof.
  intros HP Hs. pose proof (triple_ask P P HP s Hs) as H. simpl.
  destruct (ask_raft s) as [[[i|i|]|e|msg] s']; done.
Qed.

End rules.
