(* ===== verification/LeaderSafe.v ===== *)
(** * The reconciler never breaks the cluster

    The reconciler of Reconciler.v with the server as its delegate: from a state with the
    invariant [leader_inv] no branch of it panics, every command it issues is one the state machine
    accepts, and the invariant is kept, whatever Raft answers. *)
From S2P Require Import Prelude Util Emq ClusterState ClusterOps ClusterInv ClusterProps Requests Reconciler ReconcilerProps LeaderInv Server ServerLogic.

(** ** Histories *)

(** The state is reached from [st0], the invariant holds, and [k] identifiers are left. *)
Definition from (st0 : ClusterState) (k : Z) (st : ClusterState) : Prop :=
  rtc cluster_step st0 st ∧ leader_inv st ∧ 0 ≤ CurrentSegmentID st ∧
  CurrentSegmentID st + k ≤ MaxUint64.

#[export] Instance Stable_from st0 k : Stable (from st0 k).
Proof.
  intros st index ev (H1 & H2 & H3 & H4). split_and!; [|by apply Stable_leader_inv|done|done].
  eapply rtc_r; [done|]. apply (step_Do st index (Some (UpdateNode (member_update ev)))); [|done].
  by intros c [= <-].
Qed.

Lemma from_inv st0 k st : from st0 k st → leader_inv st.
Proof. intros H. apply H. Qed.

Lemma from_fewer st0 k k' st : k' ≤ k → from st0 k st → from st0 k' st.
Proof. intros Hk (H1 & H2 & H3 & H4). split_and!; (done || lia). Qed.

Lemma do_command_same_current st cmd st' :
  do_command st cmd = Ok st' → (∀ c, cmd = CreateSegment c → sc_ID c ≤ CurrentSegmentID st) →
  CurrentSegmentID st' = CurrentSegmentID st.
Proof.
  destruct cmd; simpl; intros H Hc; simplify_eq; try done;
    unfold doCreateNamespace, doDeleteNamespace, doCreateTopic, doDeleteTopic,
      doCreateConsumerGroup, doDeleteConsumerGroup, doUpdateOffsetCommits, doOpenSegment,
      doDeleteSegment, doCloseSegment, doUpdateSegmentNodes in *;
    repeat case_match; simplify_eq/=; try done.
  bool_to_prop. specialize (Hc _ eq_refl). lia.
Qed.

Lemma from_step st0 k st cmd index st' :
  from st0 k st → leader_ok st cmd → do_command st cmd = Ok st' →
  (∀ c, cmd = CreateSegment c → sc_ID c ≤ CurrentSegmentID st) → from st0 k (with_Index st' index).
Proof.
  intros (H1 & H2 & H3 & H4) Hok Hdo Hc.
  destruct (leader_Do st index cmd H2 Hok) as (st1 & Hdo' & _ & Hinv & Hstep).
  rewrite Hdo in Hdo'. injection Hdo' as <-.
  pose proof (do_command_same_current _ _ _ Hdo Hc) as Hcur.
  split_and!; [by eapply rtc_r|done|simpl; lia|simpl; lia].
Qed.

(** ** Commands that leave the consumer groups alone *)

Definition groups_of (st : ClusterState) : list (string * string) :=
  Namespaces st ≫= λ ns, (λ cg, (ns_Name ns, cg_Name cg)) <$> ns_ConsumerGroups ns.

Definition quiet (cmd : ClusterCommand) : Prop :=
  match cmd with
  | CreateNamespace _ | UpdateNode _ | UpdateSegmentNodes _ | DeleteSegment _ => True
  | _ => False
  end.

Lemma quiet_groups st cmd st' :
  quiet cmd → do_command st cmd = Ok st' → groups_of st' = groups_of st.
Proof.
  destruct cmd; simpl; intros Hq H; simplify_eq; try done;
    unfold doCreateNamespace, doDeleteSegment, doUpdateSegmentNodes in *;
    repeat case_match; simplify_eq/=; try done.
  unfold groups_of. simpl. rewrite bind_app. simpl. by rewrite !app_nil_r.
Qed.

Lemma bind_data st st' : same_data st st' → groups_of st' = groups_of st.
Proof. unfold groups_of. by intros (-> & _). Qed.

(** ** Membership in what the loops return *)

Lemma min_candidate_mem m candidates i id :
  min_candidate m candidates 0 None = Some (i, id) → candidates !! i = Some id.
Proof.
  intros H. destruct candidates as [|c candidates]; [done|].
  destruct (min_candidate_elem m (c :: candidates)) as (i' & id' & H' & Hl); [done|]. congruence.
Qed.

Lemma add_replicas_mem fuel : ∀ m candidates others replicas limit added id,
  id ∈ (add_replicas fuel m candidates others replicas limit added).1.2 →
  id ∈ replicas ∨ id ∈ candidates.
Proof.
  induction fuel as [|fuel IH]; intros m candidates others replicas limit added id; cbn [add_replicas].
  { by left. }
  case_if; [|by left]. destruct (min_candidate m candidates 0 None) as [[i x]|] eqn:Em; [|by left].
  apply min_candidate_mem in Em. intros [Hin|Hin]%IH.
  - rewrite elem_of_app, list_elem_of_singleton in Hin. destruct Hin as [?| ->]; [by left|].
    right. by eapply list_elem_of_lookup_2.
  - right. by eapply elem_of_remove_at.
Qed.

Lemma keep_replicas_mem nodeMap ids : ∀ others kept limit m,
  known nodeMap ids →
  ∃ kept' m', keep_replicas nodeMap ids others kept limit m = Ok (kept', m') ∧
    ∀ id, id ∈ kept' → id ∈ kept ∨ id ∈ ids.
Proof.
  induction ids as [|x ids IH]; intros others kept limit m Hk; cbn [keep_replicas]; [by eauto|].
  apply known_cons in Hk as [Hx Hk]. rewrite (is_alive_known _ _ Hx). cbn [mbind result_bind].
  case_if.
  - destruct (IH others (kept ++ [x]) limit m Hk) as (kept' & m' & -> & H).
    exists kept', m'. split; [done|]. intros id Hid%H. set_solver.
  - destruct (IH others kept limit (decr x m) Hk) as (kept' & m' & -> & H).
    exists kept', m'. split; [done|]. intros id Hid%H. set_solver.
Qed.

Lemma take_alive_mem nodeMap ids : ∀ taken replicationFactor,
  known nodeMap ids →
  ∃ taken', take_alive nodeMap ids taken replicationFactor = Ok taken' ∧
    (∀ id, id ∈ taken' → id ∈ taken ∨ id ∈ ids) ∧
    (taken ≠ [] ∨ List.filter (node_alive nodeMap) ids ≠ [] → taken' ≠ []).
Proof.
  induction ids as [|x ids IH]; intros taken rf Hk; cbn [take_alive].
  { eexists. split; [done|]. split; [auto|naive_solver]. }
  apply known_cons in Hk as [Hx Hk]. rewrite (is_alive_known _ _ Hx). cbn [mbind result_bind List.filter].
  assert (Hne : taken ++ [x] ≠ []) by by destruct taken.
  case_if; cbv zeta; [case_if; [exists (taken ++ [x]); set_solver|]|].
  - destruct (IH (taken ++ [x]) rf Hk) as (taken' & -> & H & Hn). exists taken'. split; [done|].
    split; [intros id Hid%H; set_solver|auto].
  - destruct (IH taken rf Hk) as (taken' & -> & H & Hn). exists taken'. split; [done|].
    split; [intros id Hid%H; set_solver|auto].
Qed.

Lemma count_nonzero {A} (l : list A) : (u32 (Z.of_nat (length l)) =? 0) = false → l ≠ [].
Proof. by destruct l. Qed.

Lemma size_answered s segment node addr :
  all_answered (srv_nodeID s) (srv_sizes s) →
  (∃ size, Server_GetSegmentSizeFromNode s segment node addr = Ok size) ∨
  Server_GetSegmentSizeFromNode s segment node addr = Err ().
Proof.
  intros Hans. unfold Server_GetSegmentSizeFromNode. destruct (Z.eqb_spec node (srv_nodeID s)) as [->|Hne].
  - destruct (srv_sizes s segment (srv_nodeID s)); eauto.
  - destruct (Hans segment node Hne) as [size ->]. destruct (srv_dials s addr); simpl; eauto.
Qed.

Lemma largest_replica_mem (s : Server) segment nodeMap ids : ∀ best,
  all_answered (srv_nodeID s) (srv_sizes s) → known nodeMap ids →
  ∃ r, largest_replica s segment nodeMap ids best = Ok (s, r) ∧
    ∀ id size, r = Some (id, size) → id = best.1 ∨ id ∈ ids.
Proof.
  intros best Hans. revert best.
  induction ids as [|x ids IH]; intros best Hk; cbn [largest_replica].
  { exists (Some best). split; [done|]. intros id size [= ->]. by left. }
  apply known_cons in Hk as [[node Hx] Hk]. rewrite Hx. case_if.
  - destruct (IH best Hk) as (r & -> & H). exists r. split; [done|].
    intros id size [?|?]%H; [by left|right; by right].
  - cbn [GetSegmentSizeFromNode Server_delegate].
    destruct (size_answered s (seg_ID segment) x (node_Address node) Hans) as [[size ->]| ->]; [|by exists None].
    destruct (IH (if best.2 <? size then (x, size) else best) Hk) as (r & -> & H).
    exists r. split; [done|]. intros id size' [Hid|?]%H; [|right; by right].
    case_if; [right; subst; left|by left].
Qed.

(** ** The node map *)

Lemma nodeMap_of_snoc nodes n : nodeMap_of (nodes ++ [n]) = <[node_ID n := n]> (nodeMap_of nodes).
Proof. unfold nodeMap_of. by rewrite foldl_app. Qed.

Lemma nodeMap_of_elem nodes : ∀ id n, nodeMap_of nodes !! id = Some n → n ∈ nodes.
Proof.
  induction nodes as [|x nodes IH] using rev_ind; intros id n; [done|]. rewrite nodeMap_of_snoc.
  intros [[_ <-]|[_ H]]%lookup_insert_Some; [|apply IH in H]; set_solver.
Qed.

Lemma nodeMap_of_known nodes id : id ∈ node_ID <$> nodes → is_Some (nodeMap_of nodes !! id).
Proof.
  induction nodes as [|x nodes IH] using rev_ind; [by intros ?%elem_of_nil|]. rewrite nodeMap_of_snoc.
  destruct (decide (id = node_ID x)) as [->|]; [by rewrite lookup_insert_eq|].
  rewrite lookup_insert_ne by done. intros H. apply IH. rewrite fmap_app in H. set_solver.
Qed.

Lemma alive_ids_known nodes id : id ∈ alive_ids nodes → id ∈ node_ID <$> nodes.
Proof.
  unfold alive_ids. intros (n & -> & [_ Hn]%elem_of_bfilter)%list_elem_of_fmap.
  by apply list_elem_of_fmap_2.
Qed.

(** ** Nodes and segments *)

Section quiet.
Context {env : Answers} (st0 a : ClusterState) (k : Z) (g : list (string * string)).

(** [a] is the state the reconciler was called with. *)
Definition seg_inv (st : ClusterState) : Prop :=
  from st0 k st ∧ groups_of st = g ∧ ∀ id, node_known a id → node_known st id.

#[local] Instance Stable_seg_inv : Stable seg_inv.
Proof.
  intros st index ev (H1 & H2 & H3). split_and!; [by apply Stable_from| |].
  - by rewrite (bind_data st).
  - intros id Hid. by apply (Stable_known id), H3.
Qed.

Lemma seg_Apply (s : Server) cmd :
  quiet cmd → (∀ st, seg_inv st → leader_ok st cmd) → holds seg_inv s → holds seg_inv (Apply s cmd).1.
Proof.
  intros Hq Hok. apply Apply_safe; [apply _| |].
  - intros st Hst. split; [apply Hst|auto].
  - intros st index st' Hst Hdo. pose proof Hst as (H1 & H2 & H3). split_and!.
    + eapply from_step; [done|by apply Hok|done|]. by intros c ->.
    + rewrite <- H2. by apply (quiet_groups st cmd st').
    + intros id Hid. apply (do_command_known st cmd st' id Hdo). by apply H3.
Qed.

Lemma update_nodes_safe s segment which primary replicating done :
  which = Which_OPEN ∧ node_known a primary ∨ which = Which_CLOSED ∧ done ≠ [] →
  (∀ id, id ∈ done ++ replicating → node_known a id) →
  holds seg_inv s → holds seg_inv (Apply s (update_nodes segment which primary replicating done)).1.
Proof.
  intros Hw Hids. apply seg_Apply; [done|]. intros st (_ & _ & Hk). split; [simpl; naive_solver|]. split.
  - apply Forall_forall. intros id Hid. by apply Hk, Hids.
  - split; intros Ho; simpl in Ho; [apply Hk|simpl]; destruct Hw as [[Hw ?]|[Hw ?]]; try done;
      by rewrite Ho in Hw.
Qed.

Lemma delete_segment_safe s segment which :
  which = Which_OPEN ∨ which = Which_CLOSED →
  holds seg_inv s → holds seg_inv (Apply s (delete_segment segment which)).1.
Proof. intros Hw. apply seg_Apply; [done|]. intros st _. by split. Qed.

(** ** Segments *)

Context (Ha : leader_inv a).
Let nodeMap := nodeMap_of (Nodes a).
Let cands := alive_ids (Nodes a).

Lemma known_nodes ids : Forall (node_known a) ids → known nodeMap ids.
Proof.
  intros H id Hid. apply nodeMap_of_known. by eapply (proj1 (Forall_forall _ _) H).
Qed.

Lemma filter_known ids id :
  Forall (node_known a) ids → id ∈ List.filter (node_alive nodeMap) ids → node_known a id.
Proof. intros H [_ Hid]%elem_of_bfilter. by eapply (proj1 (Forall_forall _ _) H). Qed.

Lemma candidates_known used id : id ∈ candidates_without cands used → node_known a id.
Proof. intros [Hid _]%candidates_without_spec. by apply alive_ids_known. Qed.

Lemma open_alive_safe s segment replicationFactor m :
  1 ≤ replicationFactor → node_known a (PrimaryNodeID (seg_Nodes segment)) →
  Forall (node_known a) (ReplicatingNodeIDs (seg_Nodes segment)) → holds seg_inv s →
  ∃ s' m', reconcileOpenSegmentWithAlivePrimary s segment replicationFactor m nodeMap cands = Ok (s', m') ∧
    holds seg_inv s'.
Proof.
  intros Hrf Hp Hrep Hs. unfold reconcileOpenSegmentWithAlivePrimary.
  destruct (Z.ltb_spec replicationFactor 1); [lia|].
  pose proof (known_nodes _ Hrep) as Hk. rewrite (alive_of_known _ _ Hk). cbn [mbind result_bind].
  case_if; [|case_if; [|by eauto]].
  - assert (Hkeep : ∃ kept m', (if 0 <? u32 (replicationFactor - 1)
        then keep_replicas nodeMap (ReplicatingNodeIDs (seg_Nodes segment)) 1 [] replicationFactor m
        else Ok ([], m)) = Ok (kept, m') ∧
        ∀ id, id ∈ kept → id ∈ ReplicatingNodeIDs (seg_Nodes segment)).
    { case_if; [|by exists [], m; split; [|intros ? ?%elem_of_nil]].
      destruct (keep_replicas_mem nodeMap _ 1 [] replicationFactor m Hk) as (kept & m' & -> & Hin).
      exists kept, m'. split; [done|]. intros id [?%elem_of_nil|?]%Hin; done. }
    destruct Hkeep as (kept & m' & -> & Hin). cbn [mbind result_bind]. eexists _, _. split; [done|].
    apply update_nodes_safe; [by left| |done]. intros id Hid%Hin. by eapply (proj1 (Forall_forall _ _) Hrep).
  - set (alive := List.filter _ _). set (free := candidates_without cands _).
    destruct (add_replicas (length free) m free 0 alive _ false) as [[m' replicas] added] eqn:Eadd.
    destruct added; [|by eauto]. eexists _, _. split; [done|].
    apply update_nodes_safe; [by left| |done]. cbn [app]. intros id Hid.
    destruct (add_replicas_mem (length free) m free 0 alive (u32 (replicationFactor - 1)) false id)
      as [H1|H1]; [by rewrite Eadd|by eapply filter_known|by eapply candidates_known].
Qed.

Context (Hans : ∀ id sizes, answers_ok id sizes → all_answered id sizes).

Lemma open_dead_safe s segment :
  Forall (node_known a) (ReplicatingNodeIDs (seg_Nodes segment)) → holds seg_inv s →
  ∃ s', reconcileOpenSegmentWithDeadPrimary s segment nodeMap = Ok s' ∧ holds seg_inv s'.
Proof.
  intros Hrep Hs. unfold reconcileOpenSegmentWithDeadPrimary. case_bool_decide; [by eauto|].
  pose proof (known_nodes _ Hrep) as Hk.
  destruct (largest_replica_mem s segment nodeMap _ (0, -1) (Hans _ _ (proj2 (proj1 (proj2 Hs)))) Hk) as (r & -> & Hin).
  cbn [mbind result_bind]. destruct r as [[new size]|]; [|by eauto]. destruct (Z.eqb_spec new 0); [by eauto|].
  rewrite alive_of_known by (intros id [_ Hid]%elem_of_bfilter; auto). cbn [mbind result_bind].
  eexists. split; [done|]. destruct (Hin new size eq_refl) as [|Hnew]; [done|].
  apply update_nodes_safe; [left; split; [done|by eapply (proj1 (Forall_forall _ _) Hrep)]| |done].
  intros id [_ [_ Hid]%elem_of_bfilter]%elem_of_bfilter. by eapply (proj1 (Forall_forall _ _) Hrep).
Qed.

Lemma open_nodes_safe s segment replicationFactor m :
  1 ≤ replicationFactor → segment ∈ OpenSegments a → holds seg_inv s →
  ∃ s' m', match nodeMap !! PrimaryNodeID (seg_Nodes segment) with
    | None => Panic "nil pointer dereference"
    | Some primaryNode =>
      match node_State primaryNode with
      | ClusterNode_ALIVE =>
        reconcileOpenSegmentWithAlivePrimary s segment replicationFactor m nodeMap cands
      | ClusterNode_DEAD =>
        d ← reconcileOpenSegmentWithDeadPrimary s segment nodeMap; Ok (d, m)
      | _ => Panic "unhandled primary node state"
      end
    end = Ok (s', m') ∧ holds seg_inv s'.
Proof using Ha Hans.
  intros Hrf Hseg Hs. destruct (li_open a Ha segment Hseg) as [Hp Hrep].
  destruct (nodeMap_of_known _ _ Hp) as [node Hnode]. fold nodeMap in Hnode. rewrite Hnode.
  destruct (li_states a Ha node) as [-> | ->]; [by eapply nodeMap_of_elem|by apply open_alive_safe|].
  destruct (open_dead_safe s segment Hrep Hs) as (s' & -> & Hs'). cbn [mbind result_bind]. by eauto.
Qed.

Lemma GetTopic_elem st ns name t :
  GetTopic st ns name = Some t → ∃ n, n ∈ Namespaces st ∧ t ∈ ns_Topics n.
Proof.
  unfold GetTopic. destruct (FindNamespace st ns) as [[i n]|] eqn:E; [|done].
  apply FindNamespace_Some in E as [Hi _]. rewrite fmap_Some. intros ([j t'] & Ht & ->).
  apply FindTopic_Some in Ht as [Hj _]. exists n. split; by eapply list_elem_of_lookup_2.
Qed.

Lemma open_segment_safe s segment m :
  segment ∈ OpenSegments a → holds seg_inv s →
  ∃ s' m', reconcileOpenSegment s segment a m nodeMap cands = Ok (s', m') ∧ holds seg_inv s'.
Proof using Ha Hans.
  intros Hseg Hs. unfold reconcileOpenSegment. cbv zeta.
  assert (Hdefault : 1 ≤ defaultReplicationFactor) by done.
  assert (Hdel : holds seg_inv (Apply s (delete_segment segment Which_OPEN)).1)
    by (apply delete_segment_safe; [by left|done]).
  destruct (seg_Type segment); try by apply open_nodes_safe.
  - destruct (GetTopic a _ _) as [t|] eqn:Et; [|by eauto].
    apply GetTopic_elem in Et as (n & Hn & Ht). apply open_nodes_safe; [|done..].
    by eapply (li_topics a Ha).
  - destruct (GetConsumerGroup a _ _); [by apply open_nodes_safe|by eauto].
Qed.

Lemma closed_nodes_safe s segment replicationFactor m :
  1 ≤ replicationFactor → segment ∈ ClosedSegments a → holds seg_inv s →
  ∃ s' m', replicate_closed s segment replicationFactor m nodeMap cands = Ok (s', m') ∧ holds seg_inv s'.
Proof using Ha Hans.
  intros Hrf Hseg Hs. pose proof (li_closed a Ha segment Hseg) as Hall.
  pose proof Hall as [Hd Hrep]%Forall_app. unfold replicate_closed.
  pose proof (known_nodes _ Hd) as Hkd. pose proof (known_nodes _ Hrep) as Hkr.
  rewrite (alive_of_known _ _ Hkd). cbn [mbind result_bind]. rewrite (alive_of_known _ _ Hkr).
  cbn [mbind result_bind]. destruct (Z.ltb_spec replicationFactor 1); [lia|].
  destruct (replicationFactor <? _); [|destruct (_ <? replicationFactor); [|by eauto]];
    (destruct (u32 (Z.of_nat (length (List.filter (node_alive nodeMap) (DoneNodeIDs (seg_Nodes segment))))) =? 0)
       eqn:Ealive; [by eauto|]); apply count_nonzero in Ealive.
  - destruct (take_alive_mem nodeMap _ [] replicationFactor Hkd) as (done & -> & Hdone & Hsome).
    cbn [mbind result_bind].
    assert (Hkeep : ∃ kept m', (if u32 (Z.of_nat (length done)) <? replicationFactor
        then keep_replicas nodeMap (ReplicatingNodeIDs (seg_Nodes segment)) (Z.of_nat (length done)) []
               replicationFactor m
        else Ok ([], m)) = Ok (kept, m') ∧
        ∀ id, id ∈ kept → id ∈ ReplicatingNodeIDs (seg_Nodes segment)).
    { case_if; [|by exists [], m; split; [|intros ? ?%elem_of_nil]].
      destruct (keep_replicas_mem nodeMap _ (Z.of_nat (length done)) [] replicationFactor m Hkr)
        as (kept & m' & -> & Hin).
      exists kept, m'. split; [done|]. intros id [?%elem_of_nil|?]%Hin; done. }
    destruct Hkeep as (kept & m' & -> & Hin). cbn [mbind result_bind]. eexists _, _. split; [done|].
    apply update_nodes_safe; [right; by auto| |done]. intros id [Hid|Hid]%elem_of_app.
    + apply Hdone in Hid as [?%elem_of_nil|Hid]; [done|]. by eapply (proj1 (Forall_forall _ _) Hd).
    + apply Hin in Hid. by eapply (proj1 (Forall_forall _ _) Hrep).
  - set (alive := List.filter _ (ReplicatingNodeIDs _)). set (free := candidates_without cands _).
    destruct (add_replicas (length free) m free _ alive _ false) as [[m' replicas] added] eqn:Eadd.
    destruct added; [|by eauto]. eexists _, _. split; [done|].
    apply update_nodes_safe; [by right| |done]. intros id [Hid|Hid]%elem_of_app.
    + apply (filter_known _ _ Hd Hid).
    + edestruct (add_replicas_mem (length free) m free) as [H1|H1];
        [rewrite Eadd; exact Hid|exact (filter_known _ _ Hrep H1)|exact (candidates_known _ _ H1)].
Qed.

Lemma closed_segment_safe s now segment m :
  segment ∈ ClosedSegments a → holds seg_inv s →
  ∃ s' m', reconcileClosedSegment s now segment a m nodeMap cands = Ok (s', m') ∧ holds seg_inv s'.
Proof using Ha Hans.
  intros Hseg Hs. unfold reconcileClosedSegment. cbv zeta.
  assert (Hdefault : 1 ≤ defaultReplicationFactor) by done.
  assert (Hdel : holds seg_inv (Apply s (delete_segment segment Which_CLOSED)).1)
    by (apply delete_segment_safe; [by right|done]).
  destruct (seg_Type segment); try by apply closed_nodes_safe.
  - destruct (GetTopic a _ _) as [t|] eqn:Et; [|by eauto].
    apply GetTopic_elem in Et as (n & Hn & Ht). case_if; [by eauto|]. apply closed_nodes_safe; [|done..].
    by eapply (li_topics a Ha).
  - by eauto.
Qed.

Lemma open_segments_safe segments : ∀ s m,
  (∀ x, x ∈ segments → x ∈ OpenSegments a) → holds seg_inv s →
  ∃ s' m', reconcileOpenSegments s segments a m nodeMap cands = Ok (s', m') ∧ holds seg_inv s'.
Proof using Ha Hans.
  induction segments as [|x segments IH]; intros s m Hsub Hs; cbn [reconcileOpenSegments]; [by eauto|].
  destruct (open_segment_safe s x m (Hsub x ltac:(left)) Hs) as (s' & m' & -> & Hs').
  cbn [mbind result_bind]. apply IH; [|done]. intros y Hy. apply Hsub. by right.
Qed.

Lemma closed_segments_safe now segments : ∀ s m,
  (∀ x, x ∈ segments → x ∈ ClosedSegments a) → holds seg_inv s →
  ∃ s' m', reconcileClosedSegments s now segments a m nodeMap cands = Ok (s', m') ∧ holds seg_inv s'.
Proof using Ha Hans.
  induction segments as [|x segments IH]; intros s m Hsub Hs; cbn [reconcileClosedSegments]; [by eauto|].
  destruct (closed_segment_safe s now x m (Hsub x ltac:(left)) Hs) as (s' & m' & -> & Hs').
  cbn [mbind result_bind]. apply IH; [|done]. intros y Hy. apply Hsub. by right.
Qed.

Lemma ReconcileSegments_safe s now :
  holds seg_inv s → ∃ s', ReconcileSegments s now a = Ok s' ∧ holds seg_inv s'.
Proof using Ha Hans.
  intros Hs. unfold ReconcileSegments. cbv zeta. fold nodeMap cands.
  destruct (open_segments_safe (OpenSegments a) s (CountSegmentsPerNode a)) as (s1 & m1 & -> & Hs1); [done..|].
  cbn [mbind result_bind].
  destruct (closed_segments_safe now (ClosedSegments a) s1 m1) as (s2 & m2 & -> & Hs2); [done..|].
  cbn [mbind result_bind]. by eauto.
Qed.

(** ** Nodes and namespaces *)

Lemma update_node_safe s c :
  nu_State c = ClusterNode_ALIVE ∨ nu_State c = ClusterNode_DEAD →
  holds seg_inv s → holds seg_inv (Apply s (UpdateNode c)).1.
Proof using Type. intros Hc. apply seg_Apply; [done|]. intros st _. by split. Qed.

Lemma reconcile_members_safe members : ∀ s alive,
  Forall named members → holds seg_inv s →
  ∃ s' alive', reconcile_members s a members alive = Ok (s', alive') ∧ holds seg_inv s'.
Proof using Type.
  induction members as [|m members IH]; intros s alive Hm Hs; cbn [reconcile_members]; [by eauto|].
  apply Forall_cons in Hm as [[id Hid] Hm]. rewrite Hid. cbn [mbind result_bind]. cbv zeta.
  apply IH; [done|]. case_if; [done|].
  pose proof (update_node_safe s (alive_node id m) ltac:(by left) Hs) as H.
  destruct (Apply s (UpdateNode (alive_node id m))) as [s' [index|]]; [|done].
  by apply AddVoter_safe; [apply _|].
Qed.

Lemma reconcile_dead_safe now alive nodes : ∀ s,
  holds seg_inv s → holds seg_inv (reconcile_dead s now alive nodes).
Proof using Type.
  induction nodes as [|n nodes IH]; intros s Hs; cbn [reconcile_dead]; [done|]. case_if; [by apply IH|].
  set (c := {| nu_ID := _ |}). pose proof (update_node_safe s c ltac:(by right) Hs) as H.
  destruct (Apply s (UpdateNode c)) as [s' [index|]]; [by apply IH|done].
Qed.

Lemma ReconcileNodes_safe s now :
  holds seg_inv s → ∃ s', ReconcileNodes s now a = Ok s' ∧ holds seg_inv s'.
Proof using Type.
  intros Hs. unfold ReconcileNodes.
  destruct (reconcile_members_safe (Members s) s ∅) as (s' & alive & -> & Hs'); [apply (proj1 (proj1 (proj2 Hs)))|done|].
  cbn [mbind result_bind]. eexists. split; [done|]. by apply reconcile_dead_safe.
Qed.

Lemma ReconcileNamespaces_safe s : holds seg_inv s → holds seg_inv (ReconcileNamespaces s a).
Proof using Type.
  intros Hs. unfold ReconcileNamespaces. case_match; [done|].
  apply seg_Apply; [done| |done]. intros st _. by split.
Qed.

End quiet.

(** ** Consumer groups *)

Section groups.
Context {env : Answers} (st0 a : ClusterState) (Ha : leader_inv a).

(** The groups of [todo] have no offset segments but those they had in [a]. *)
Definition grp_inv (k : Z) (todo : list (string * string)) (st : ClusterState) : Prop :=
  from st0 k st ∧ ns_Name <$> Namespaces st = ns_Name <$> Namespaces a ∧
  (∀ id, node_known a id → node_known st id) ∧ CurrentSegmentID a ≤ CurrentSegmentID st ∧
  (∀ x, x ∈ OpenSegments st → group_segment x →
     (seg_OwnerNamespace x, seg_OwnerName x) ∈ todo → x ∈ OpenSegments a).

#[local] Instance Stable_grp_inv k todo : Stable (grp_inv k todo).
Proof.
  intros st index ev (H1 & H2 & H3 & H4 & H5). split_and!; [by apply Stable_from|done| |done|done].
  intros id Hid. by apply (Stable_known id), H3.
Qed.

Lemma grp_weaken k k' todo todo' st :
  k' ≤ k → (∀ p, p ∈ todo' → p ∈ todo) → grp_inv k todo st → grp_inv k' todo' st.
Proof.
  intros Hk Hsub (H1 & H2 & H3 & H4 & H5). split_and!; [by eapply from_fewer|done..|eauto].
Qed.

Lemma one_open_segment ns name x y l :
  FindOpenSegmentsFor a ClusterSegment_CONSUMER_GROUP_OFFSET_COMMITS ns name ≠ x :: y :: l.
Proof using Ha.
  intros Heq. unfold FindOpenSegmentsFor in Heq.
  assert (Hmem : ∀ z, z ∈ x :: y :: l → z ∈ OpenSegments a ∧ group_segment z ∧
    seg_OwnerNamespace z = ns ∧ seg_OwnerName z = name).
  { intros z Hz. rewrite <- Heq in Hz. apply elem_of_bfilter in Hz as [(? & ? & ?)%owned_by_true ?]. done. }
  destruct (Hmem x ltac:(set_solver)) as (Hx & Gx & Nx & Ox).
  destruct (Hmem y ltac:(set_solver)) as (Hy & Gy & Ny & Oy).
  assert (Hid : seg_ID x = seg_ID y).
  { apply (li_groups a Ha); [done..|]. unfold same_owner. split; congruence. }
  assert (Hnd : NoDup (seg_ID <$> x :: y :: l)).
  { rewrite <- Heq. eapply sublist_NoDup; [|apply fmap_sublist, sublist_bfilter].
    apply sorted_by_NoDup, (wf_segs a (li_wf a Ha)). }
  rewrite !fmap_cons, Hid in Hnd. apply NoDup_cons in Hnd as [Hnd _]. set_solver.
Qed.

Lemma select_primary_known m nodes : ∀ best,
  (select_primary m nodes best).1 = best.1 ∨ (select_primary m nodes best).1 ∈ node_ID <$> nodes.
Proof using Type.
  induction nodes as [|n nodes IH]; intros best; cbn [select_primary]; [by left|].
  destruct (IH (if bool_decide (node_State n = ClusterNode_ALIVE) && (count_of m (node_ID n) <? best.2)
    then (node_ID n, count_of m (node_ID n)) else best)) as [->|H]; [|right; by right].
  case_if; [right; left|by left].
Qed.

(** The command that opens the offset segment of a group. *)
Definition group_create (ns name : string) (now primary id : Z) : ClusterCommandSegmentCreate :=
  {| sc_ID := id; sc_Type := ClusterSegment_CONSUMER_GROUP_OFFSET_COMMITS;
     sc_OwnerNamespace := ns; sc_OwnerName := name; sc_Generation := 0; sc_Shard := 0;
     sc_OpenedAt := now; sc_PrimaryNodeID := primary; sc_ReplicatingNodeIDs := [] |}.

(** Between drawing the identifier and creating the segment. *)
Definition drawn (k : Z) (todo : list (string * string)) (id : Z) (st : ClusterState) : Prop :=
  grp_inv k todo st ∧ CurrentSegmentID st = id ∧
  ∀ x, x ∈ OpenSegments st ++ ClosedSegments st → seg_ID x < id.

#[local] Instance Stable_drawn k todo id : Stable (drawn k todo id).
Proof. intros st index ev (? & ? & ?). split_and!; [by apply Stable_grp_inv|done|done]. Qed.

Lemma draw_safe s k todo :
  holds (grp_inv k todo) s → 1 ≤ k →
  holds (drawn (k - 1) todo (delegate_NextSegmentID s).2) (delegate_NextSegmentID s).1.
Proof using Type.
  intros (Hc & Hm & (F1 & F2 & F3 & F4) & I2 & I3 & I4 & I5) Hk.
  destruct (leader_NextSegmentID _ F2 ltac:(lia)) as (N1 & N2 & N3 & N4).
  pose proof (segs_wf_current _ _ _ (wf_segs _ (li_wf _ F2))) as Hcur.
  cbn [delegate_NextSegmentID Server_delegate].
  destruct (NextSegmentID (srv_state s)) as [st1 id] eqn:En. cbn [fst snd] in *.
  assert (Hsame : same_data (srv_state s) (with_CurrentSegmentID st1 (CurrentSegmentID (srv_state s))) ∧
    Nodes st1 = Nodes (srv_state s)) by (by injection En as <- _).
  destruct Hsame as [(S1 & S2 & S3 & _) S4]. simpl in S1, S2, S3.
  split; [done|]. split; [done|]. split; [|split; [cbn [srv_state with_state]; lia|]].
  - cbn [srv_state with_state]. split_and!.
    + split_and!; [by eapply rtc_r|done|lia|lia].
    + by rewrite S1.
    + unfold node_known. by rewrite S4.
    + lia.
    + by rewrite S2.
  - cbn [srv_state with_state]. rewrite S2, S3. intros x Hx%Hcur. lia.
Qed.

Lemma group_create_ok k todo ns name now primary id st :
  node_known a primary →
  FindOpenSegmentsFor a ClusterSegment_CONSUMER_GROUP_OFFSET_COMMITS ns name = [] →
  drawn k ((ns, name) :: todo) id st →
  leader_inv st ∧ leader_ok st (CreateSegment (group_create ns name now primary id)).
Proof using Type.
  intros Hp Hnone ((J1 & J2 & J3 & _ & J4) & Hcur & Hlt). split; [apply J1|]. split; [|split_and!].
  - intros x Hx. simpl. apply Hlt in Hx. lia.
  - by apply J3.
  - done.
  - intros _ x Hx Gx [O1 O2]. simpl in O1, O2. assert (Hxa : x ∈ OpenSegments a).
    { apply J4; [done..|]. rewrite O1, O2. left. }
    assert (Hin : x ∈ FindOpenSegmentsFor a ClusterSegment_CONSUMER_GROUP_OFFSET_COMMITS ns name).
    { apply elem_of_bfilter. split; [by apply owned_by_true|done]. }
    rewrite Hnone in Hin. by apply elem_of_nil in Hin.
Qed.

Lemma open_group_segment s k todo ns name now primary id :
  NoDup ((ns, name) :: todo) → node_known a primary →
  FindOpenSegmentsFor a ClusterSegment_CONSUMER_GROUP_OFFSET_COMMITS ns name = [] →
  holds (drawn k ((ns, name) :: todo) id) s →
  holds (grp_inv k todo) (Apply s (CreateSegment (group_create ns name now primary id))).1.
Proof using Type.
  intros [Hnd _]%NoDup_cons Hp Hnone.
  assert (Hweak : ∀ st, drawn k ((ns, name) :: todo) id st → grp_inv k todo st).
  { intros st [Hst _]. eapply grp_weaken; [| |exact Hst]; [lia|]. intros p Hin. by right. }
  apply Apply_to; [apply _|by intros st; apply group_create_ok| |done].
  intros st index st' Hst Hdo. pose proof Hst as ((J1 & J2 & J3 & J5 & J4) & Hcur & Hlt).
  assert (Hfrom : from st0 k (with_Index st' index)).
  { eapply from_step; [done|by eapply group_create_ok|done|]. intros c [= <-]. simpl. lia. }
  simpl in Hdo. injection Hdo as <-. unfold doOpenSegment in *. cbn [sc_ID group_create] in *.
  destruct (Z.ltb_spec (CurrentSegmentID st) id); [lia|]. split; [done|].
  split; [done|]. split; [exact J3|]. split; [exact J5|]. intros x. cbn [OpenSegments with_Index with_OpenSegments].
  rewrite elem_of_sort_by, elem_of_app, list_elem_of_singleton.
  intros [Hx| ->] Gx Hin; [apply J4; [done..|by right]|]. by destruct Hnd.
Qed.

Lemma group_segment_safe s now ns cg m k todo :
  NoDup ((ns_Name ns, cg_Name cg) :: todo) → 1 ≤ k →
  holds (grp_inv k ((ns_Name ns, cg_Name cg) :: todo)) s →
  ∃ s' m', reconcileConsumerGroupOffsetCommitsSegment s now a ns cg m = Ok (s', m') ∧
    holds (grp_inv (k - 1) todo) s'.
Proof using Ha.
  intros Hnd Hk Hs. unfold reconcileConsumerGroupOffsetCommitsSegment.
  assert (Hsame : holds (grp_inv (k - 1) todo) s).
  { eapply holds_mono; [|exact Hs]. intros st. apply grp_weaken; [lia|]. intros p Hp. by right. }
  destruct (FindOpenSegmentsFor a _ _ _) as [|x [|y l]] eqn:Efind; [|by eauto|by apply one_open_segment in Efind].
  destruct (select_primary m (Nodes a) (0, MaxInt32)) as [primary size] eqn:Esel.
  destruct (Z.eqb_spec primary 0) as [|Hne]; [by eauto|].
  assert (Hp : node_known a primary).
  { destruct (select_primary_known m (Nodes a) (0, MaxInt32)) as [H|H]; rewrite Esel in H; [done|exact H]. }
  pose proof (draw_safe s k _ Hs Hk) as Hdraw.
  destruct (delegate_NextSegmentID s) as [s1 id]. cbn [fst snd] in Hdraw.
  pose proof (open_group_segment s1 (k - 1) todo (ns_Name ns) (cg_Name cg) now primary id
    Hnd Hp Efind Hdraw) as H. unfold group_create in H.
  destruct (Apply s1 _) as [s2 [index|]]; by eauto.
Qed.

Lemma FindNamespace_names st name :
  is_Some (FindNamespace st name) ↔ name ∈ ns_Name <$> Namespaces st.
Proof using Type.
  destruct (FindNamespace st name) as [[i n]|] eqn:E.
  - apply FindNamespace_Some in E as [Hi <-]. split; [|by eauto]. intros _.
    by eapply list_elem_of_fmap_2, list_elem_of_lookup_2.
  - apply FindNamespace_None in E. split; [by intros [? ?]|done].
Qed.

Lemma update_commits_names st c st' :
  do_command st (UpdateConsumerGroupOffsetCommits c) = Ok st' →
  ns_Name <$> Namespaces st' = ns_Name <$> Namespaces st ∧ OpenSegments st' = OpenSegments st.
Proof using Type.
  simpl. unfold doUpdateOffsetCommits. destruct (FindNamespace st _) as [[i n]|] eqn:E; [|done].
  apply FindNamespace_Some in E as [Hi _]. case_match; [|intros [= <-]; done].
  destruct p as [j cg]. intros [= <-]. simpl. split; [|done].
  rewrite list_fmap_insert, list_insert_id; [done|]. by rewrite list_lookup_fmap, Hi.
Qed.

Lemma group_commits_safe s ns cg k todo :
  ns ∈ Namespaces a → cg ∈ ns_ConsumerGroups ns → holds (grp_inv k todo) s →
  holds (grp_inv k todo) (reconcileConsumerGroupOffsetCommits s a ns cg).1.
Proof using Ha.
  intros Hns Hcg Hs. unfold reconcileConsumerGroupOffsetCommits.
  destruct (offset_commits a ns cg) as [commits|] eqn:E; [|done].
  destruct (offset_commits_Some a ns cg (li_wf a Ha) Hns Hcg commits E) as (Hnd & Hbound & _).
  assert (Hcur : ∀ x, x ∈ commits → oc_SegmentID x ≤ CurrentSegmentID a).
  { intros x Hx%(list_elem_of_fmap_2 oc_SegmentID). apply Hbound in Hx as (seg & Hseg & _ & <-).
    by apply (segs_wf_current _ _ _ (wf_segs a (li_wf a Ha))). }
  set (c := {| ocu_Namespace := _ |}).
  assert (Hok : ∀ st, grp_inv k todo st →
    leader_inv st ∧ leader_ok st (UpdateConsumerGroupOffsetCommits c)).
  { intros st (J1 & J2 & J3 & J5 & J4). split; [apply J1|].
    split; [split; [|done]|intros x Hx; specialize (Hcur x Hx); lia].
    apply FindNamespace_names. rewrite J2. simpl. by apply list_elem_of_fmap_2. }
  assert (Hgoal : holds (grp_inv k todo) (Apply s (UpdateConsumerGroupOffsetCommits c)).1).
  { apply Apply_safe; [apply _|done| |done]. intros st index st' Hst Hdo.
    destruct (update_commits_names _ _ _ Hdo) as [Hn Ho]. pose proof Hst as (J1 & J2 & J3 & J5 & J4).
    pose proof (do_command_current _ _ _ Hdo) as Hmono. split_and!.
    - eapply from_step; [done|by apply Hok|done|]. by intros ? [=].
    - simpl. congruence.
    - intros id Hid. apply (do_command_known st _ st' id Hdo). by apply J3.
    - simpl. lia.
    - simpl. rewrite Ho. exact J4. }
  by destruct (Apply s _).
Qed.

Definition group_names (ns : ClusterNamespace) (groups : list ClusterConsumerGroup) :
    list (string * string) := (λ cg, (ns_Name ns, cg_Name cg)) <$> groups.

Lemma groups_safe now ns k todo groups : ∀ s m,
  ns ∈ Namespaces a → (∀ cg, cg ∈ groups → cg ∈ ns_ConsumerGroups ns) → 0 ≤ k →
  NoDup (group_names ns groups ++ todo) →
  holds (grp_inv (Z.of_nat (length groups) + k) (group_names ns groups ++ todo)) s →
  ∃ s' m', reconcile_groups s now a ns groups m = Ok (s', m') ∧ holds (grp_inv k todo) s'.
Proof using Ha.
  induction groups as [|cg groups IH]; intros s m Hns Hsub Hk Hnd Hs; cbn [reconcile_groups].
  { eexists _, _. split; [done|]. by rewrite Z.add_0_l in Hs. }
  destruct (group_segment_safe s now ns cg m (Z.of_nat (length (cg :: groups)) + k) _ Hnd
    ltac:(cbn [length]; lia) Hs) as (s' & m' & -> & Hs').
  cbn [mbind result_bind]. apply NoDup_cons in Hnd as [_ Hnd].
  apply IH; [done| |done|done|].
  { intros x Hx. apply Hsub. by right. }
  apply group_commits_safe; [done|apply Hsub; left|]. cbn [length] in Hs'.
  by replace (Z.of_nat (length groups) + k) with (Z.of_nat (S (length groups)) + k - 1) by lia.
Qed.

Lemma namespaces_safe now k namespaces : ∀ s m,
  (∀ ns, ns ∈ namespaces → ns ∈ Namespaces a) → 0 ≤ k →
  let todo := namespaces ≫= λ ns, group_names ns (ns_ConsumerGroups ns) in
  NoDup todo → holds (grp_inv (Z.of_nat (length todo) + k) todo) s →
  ∃ s' m', reconcile_namespace_groups s now a namespaces m = Ok (s', m') ∧ holds (grp_inv k []) s'.
Proof using Ha.
  induction namespaces as [|ns namespaces IH]; intros s m Hsub Hk todo Hnd Hs;
    cbn [reconcile_namespace_groups]; [by eauto|]. unfold todo in *. clear todo.
  rewrite bind_cons in Hnd, Hs. rewrite length_app in Hs.
  unfold group_names at 1 in Hs. rewrite length_fmap in Hs.
  destruct (groups_safe now ns (Z.of_nat (length (namespaces ≫= λ ns, group_names ns (ns_ConsumerGroups ns))) + k)
    (namespaces ≫= λ ns, group_names ns (ns_ConsumerGroups ns)) (ns_ConsumerGroups ns) s m)
    as (s' & m' & -> & Hs'); [apply Hsub; left|done|lia|done| |].
  { eapply holds_mono; [|exact Hs]. intros st. apply grp_weaken; [lia|done]. }
  cbn [mbind result_bind]. apply IH; [|done| |done].
  - intros x Hx. apply Hsub. by right.
  - by apply NoDup_app in Hnd as (_ & _ & ?).
Qed.

Lemma NoDup_groups : NoDup (groups_of a).
Proof using Ha.
  unfold groups_of. pose proof (wf_namespaces a (li_wf a Ha)) as Hnd.
  pose proof (wf_ns a (li_wf a Ha)) as Hwf. induction (Namespaces a) as [|ns l IH]; [constructor|].
  rewrite bind_cons. rewrite fmap_cons, NoDup_cons in Hnd. destruct Hnd as [Hn Hnd]. apply NoDup_app. split_and!.
  - apply (NoDup_fmap_1 snd). rewrite <- list_fmap_compose. apply (ns_wf_groups ns), Hwf. left.
  - intros p (cg & -> & _)%list_elem_of_fmap (ns' & (cg' & Heq & _)%list_elem_of_fmap & Hns')%list_elem_of_bind.
    injection Heq as Heq _. apply Hn. rewrite Heq. by apply list_elem_of_fmap_2.
  - apply IH; [done|]. intros n Hin. apply Hwf. by right.
Qed.

Lemma ReconcileConsumerGroups_safe s now k :
  0 ≤ k → holds (grp_inv (Z.of_nat (length (groups_of a)) + k) (groups_of a)) s →
  ∃ s', ReconcileConsumerGroups s now a = Ok s' ∧ holds (grp_inv k []) s'.
Proof using Ha.
  intros Hk Hs. unfold ReconcileConsumerGroups.
  destruct (namespaces_safe now k (Namespaces a) s (CountSegmentsPerNode a)) as (s' & m' & -> & Hs');
    [done..|apply NoDup_groups|done|]. cbn [mbind result_bind]. by eauto.
Qed.

Lemma ReconcileConsumerGroup_safe s now ns cg k :
  ns ∈ Namespaces a → cg ∈ ns_ConsumerGroups ns → 1 ≤ k →
  holds (grp_inv k [(ns_Name ns, cg_Name cg)]) s →
  ∃ s' index, ReconcileConsumerGroup s now a ns cg = Ok (s', index) ∧ holds (grp_inv (k - 1) []) s'.
Proof using Ha.
  intros Hns Hcg Hk Hs. unfold ReconcileConsumerGroup.
  destruct (group_segment_safe s now ns cg (CountSegmentsPerNode a) k []) as (s' & m' & -> & Hs');
    [apply NoDup_singleton|done|done|]. cbn [mbind result_bind].
  pose proof (group_commits_safe s' ns cg (k - 1) [] Hns Hcg Hs') as H.
  destruct (reconcileConsumerGroupOffsetCommits s' a ns cg) as [s2 index]. by eauto.
Qed.

End groups.
