(* ===== verification/ServerProps.v ===== *)
(** * What the handlers of the leader guarantee

    Safety of every handler of Server.v and of the tick of the leader, and the placement of new
    segments. *)
From S2P Require Import Prelude Util Emq ClusterState ClusterOps ClusterInv ClusterProps Requests Reconciler ReconcilerProps LeaderInv Server ServerLogic LeaderSafe.

(** ** Snapshots *)

(** What is known of the current state when [a] was read in the same transaction. *)
Definition seen (a st : ClusterState) : Prop :=
  same_data a st ∧ ∀ id, node_known a id → node_known st id.

#[export] Instance Stable_seen a : Stable (seen a).
Proof.
  intros st index ev [(H1 & H2 & H3 & H4) H5]. split; [by split_and!|].
  intros id Hid. by apply (Stable_known id), H5.
Qed.

Lemma seen_refl st : seen st st.
Proof. by split. Qed.

Definition with_seen (st0 : ClusterState) (k : Z) (a st : ClusterState) : Prop :=
  from st0 k st ∧ seen a st.

#[export] Instance Stable_with_seen st0 k a : Stable (with_seen st0 k a).
Proof. apply Stable_and; apply _. Qed.

Section answers.
Context {env : Answers}.

Section handlers.
Context (st0 : ClusterState) (k : Z).

Lemma triple_snapshot {A} (P : ClusterState → Prop) (f : ClusterState → handler A) Q E :
  (∀ st, P st → from st0 k st) →
  (∀ a, leader_inv a → P a → triple (with_seen st0 k a) (f a) Q E) →
  triple P (a ← current; f a) Q E.
Proof.
  intros HP Hf s Hs. pose proof Hs as (H1 & H2 & H3). unfold mbind, handler_bind, current.
  apply Hf; [apply (HP _ H3)|done|]. split_and!; [done|done|]. split; [by apply HP|apply seen_refl].
Qed.

Lemma triple_reconcile {A} P (f : Server → result Empty_set (Server * A)) (Q : ClusterState → Prop) E :
  (∀ s, holds P s → ∃ s' a, f s = Ok (s', a) ∧ holds Q s') → triple P (reconcile f) (λ _, Q) E.
Proof. intros H s Hs. unfold reconcile. by destruct (H s Hs) as (s' & a & -> & ?). Qed.

Lemma seen_from a st : with_seen st0 k a st → from st0 k st.
Proof. by intros [? _]. Qed.

(** A command other than the creation of a segment. *)
Lemma triple_command (P : ClusterState → Prop) cmd (R : ClusterState → Prop) :
  Stable P → (∀ st, P st → from st0 k st ∧ leader_ok st cmd) → (∀ c, cmd ≠ CreateSegment c) →
  (∀ st index st', P st → do_command st cmd = Ok st' → R (with_Index st' index)) →
  triple P (Server_Apply cmd) (λ _ st, from st0 k st ∧ R st) (from st0 k).
Proof.
  intros HP Hok Hne HR. apply triple_Apply; [done| | |].
  - intros st Hst. destruct (Hok st Hst) as [Hf ?]. split; [apply Hf|done].
  - intros st index st' Hst Hdo. destruct (Hok st Hst) as [Hf Hl].
    assert (from st0 k (with_Index st' index))
      by (eapply from_step; [done..|]; intros c ->; by destruct (Hne c)). eauto.
  - intros st Hst. by destruct (Hok st Hst).
Qed.

Lemma triple_command_seen a cmd :
  (∀ st, with_seen st0 k a st → leader_ok st cmd) → (∀ c, cmd ≠ CreateSegment c) →
  triple (with_seen st0 k a) (Server_Apply cmd) (λ _, from st0 k) (from st0 k).
Proof.
  intros Hok Hne. eapply triple_conseq; [apply (triple_command (with_seen st0 k a) cmd (λ _, True));
    [apply _| |done|done]|done| |done].
  - intros st Hst. split; [by eapply seen_from|auto].
  - by intros x st [? _].
Qed.

(** A handler that applies one command and replies. *)
Lemma triple_apply_reply a cmd :
  (∀ st, with_seen st0 k a st → leader_ok st cmd) → (∀ c, cmd ≠ CreateSegment c) →
  triple (with_seen st0 k a) (index ← Server_Apply cmd; mret (ok index)) (λ _, from st0 k) (from st0 k).
Proof. intros Hok Hne. eapply triple_bind; [by apply triple_command_seen|]. intros index. by apply triple_ret. Qed.

Lemma seen_namespace a st name :
  seen a st → is_Some (FindNamespace a name) → is_Some (FindNamespace st name).
Proof. intros [(H & _) _]. unfold FindNamespace. by rewrite H. Qed.

Lemma seen_topic a st ns name t :
  seen a st → GetTopic a ns name = Some t → GetTopic st ns name = Some t.
Proof. intros [(H & _) _]. unfold GetTopic, FindNamespace. by rewrite H. Qed.

(** The preamble and the transaction of a request that changes the state. *)
Lemma triple_leader {A R} k' leaderOnly (forwarded : R) (m : handler A) :
  k' ≤ k → triple (from st0 k) m (λ _, from st0 k') (from st0 k') →
  triple (from st0 k) (on_leader leaderOnly forwarded m) (λ _, from st0 k') (from st0 k').
Proof.
  intros Hk Hm. assert (Hw : ∀ st, from st0 k st → from st0 k' st) by (intros st; by apply from_fewer).
  eapply triple_conseq; [apply (triple_on_leader (from st0 k) leaderOnly forwarded _ _ _ Hw Hm)
    |done|intros [x|addr r] st; [done|apply Hw]|done].
Qed.

Lemma triple_request {A R} k' leaderOnly (forwarded : R) errs (m : handler A) :
  k' ≤ k → (validation errs = Ok () → triple (from st0 k) m (λ _, from st0 k') (from st0 k')) →
  triple (from st0 k)
    (on_leader leaderOnly forwarded (validate (validation errs);; transaction m))
    (λ _, from st0 k') (from st0 k').
Proof.
  intros Hk Hm. assert (Hw : ∀ st, from st0 k st → from st0 k' st) by (intros st; by apply from_fewer).
  apply triple_leader; [done|].
  eapply triple_bind; [by apply triple_validate|]. intros []. simpl.
  apply (triple_pure _ (validation errs = Ok ())); [by intros st [_ ?]|]. intros Hv.
  eapply triple_conseq; [apply (triple_transaction (from st0 k)); [apply _|done|by apply Hm]
    |by intros st [? _]|done|done].
Qed.

(** ** Namespaces and topics *)

Lemma CreateNamespace_safe request :
  triple (from st0 k) (CreateNamespace_handler request) (λ _, from st0 k) (from st0 k).
Proof.
  apply triple_request; [done|]. intros _.
  eapply triple_bind; [apply (triple_command (from st0 k) _ (λ _, True));
    [apply _|by intros st Hst; split; [|split]|done|done]|].
  intros index. apply triple_ret. by intros st [? _].
Qed.

Lemma DeleteNamespace_safe request :
  triple (from st0 k) (DeleteNamespace_handler request) (λ _, from st0 k) (from st0 k).
Proof.
  apply triple_request; [done|]. intros _. apply triple_snapshot; [done|]. intros a Ha _.
  destruct (FindNamespace a _); [|apply triple_fail, seen_from]. apply triple_apply_reply; [|done].
  intros st _. done.
Qed.

Lemma CreateTopic_safe request :
  0 ≤ Topic_ReplicationFactor (tcr_Topic request) →
  triple (from st0 k) (CreateTopic_handler request) (λ _, from st0 k) (from st0 k).
Proof.
  intros Hrf. apply triple_request; [done|]. intros _. apply triple_snapshot; [done|]. intros a Ha _.
  destruct (FindNamespace a _) eqn:En; [|apply triple_fail, seen_from].
  eapply (triple_bind _ _ _ (λ _, with_seen st0 k a)).
  { case_match; [case_if; [apply triple_fail, seen_from|by apply triple_ret]|by apply triple_ret]. }
  intros _. apply triple_apply_reply; [|done]. intros st [_ Hseen]. split; [split; [|done]|].
  - simpl. by eapply seen_namespace; [|rewrite En].
  - simpl. intros t [= <-]. unfold new_topic. cbn [topic_ReplicationFactor]. unfold defaultReplicationFactor.
    destruct (Z.eqb_spec (Topic_ReplicationFactor (tcr_Topic request)) 0); lia.
Qed.

Lemma DeleteTopic_safe request :
  triple (from st0 k) (DeleteTopic_handler request) (λ _, from st0 k) (from st0 k).
Proof.
  apply triple_request; [done|]. intros _. apply triple_snapshot; [done|]. intros a Ha _.
  destruct (FindNamespace a _) as [[i n]|] eqn:En; [|apply triple_fail, seen_from].
  destruct (FindTopic n _); [|apply triple_fail, seen_from].
  eapply (triple_bind _ _ _ (λ _, with_seen st0 k a)).
  { case_if; [apply triple_fail, seen_from|by apply triple_ret]. }
  intros _. apply triple_apply_reply; [|done]. intros st [_ Hseen]. split; [|done]. simpl.
  by eapply seen_namespace; [|rewrite En].
Qed.

Lemma delete_segments_safe segments : ∀ index,
  triple (from st0 k) (delete_segments segments index) (λ _, from st0 k) (from st0 k).
Proof.
  induction segments as [|x segments IH]; intros index; [by apply triple_ret|].
  eapply triple_bind; [|intros i; apply IH].
  eapply triple_conseq; [apply (triple_command (from st0 k) _ (λ _, True)); [apply _| |done|done]|done| |done].
  - intros st Hst. split; [done|]. split; [by left|done].
  - by intros i st [? _].
Qed.

Lemma DeleteConsumerGroup_safe request :
  triple (from st0 k) (DeleteConsumerGroup_handler request) (λ _, from st0 k) (from st0 k).
Proof.
  apply triple_request; [done|]. intros _. apply triple_snapshot; [done|]. intros a Ha _.
  destruct (FindNamespace a _) as [[i n]|] eqn:En; [|apply triple_fail, seen_from].
  destruct (FindConsumerGroup n _); [|apply triple_fail, seen_from].
  eapply triple_bind; [apply triple_command_seen; [|done]|].
  - intros st [_ Hseen]. split; [|done]. simpl. by eapply seen_namespace; [|rewrite En].
  - intros index. eapply triple_bind; [apply delete_segments_safe|]. intros i'. by apply triple_ret.
Qed.

(** ** Consumer groups *)

Definition has_group (ns name : string) (st : ClusterState) : Prop :=
  ∃ i n j cg, FindNamespace st ns = Some (i, n) ∧ FindConsumerGroup n name = Some (j, cg).

#[export] Instance Stable_has_group ns name : Stable (has_group ns name).
Proof. apply stable_data. unfold has_group, FindNamespace. by intros st st' (-> & _). Qed.

Lemma find_first_app_new {A} (p : A → bool) l x :
  p x = true → is_Some (find_first p (l ++ [x])).
Proof.
  intros Hx. destruct (find_first p (l ++ [x])) eqn:E; [by eauto|]. rewrite find_first_None in E.
  rewrite (E x) in Hx by set_solver. done.
Qed.

Lemma find_first_insert_new {A} (p : A → bool) l i x :
  (i < length l)%nat → p x = true → is_Some (find_first p (<[i := x]> l)).
Proof.
  intros Hi Hx. destruct (find_first p (<[i := x]> l)) eqn:E; [by eauto|]. rewrite find_first_None in E.
  rewrite (E x) in Hx; [done|]. eapply list_elem_of_lookup_2. by apply list_lookup_insert_eq.
Qed.

Lemma create_group_found st ns g st' :
  cluster_wf st →
  do_command st (CreateConsumerGroup {| cgc_Namespace := ns; cgc_ConsumerGroup := Some g |}) = Ok st' →
  has_group ns (cg_Name g) st'.
Proof.
  intros Hwf. simpl. unfold doCreateConsumerGroup. cbn [cgc_Namespace cgc_ConsumerGroup].
  destruct (FindNamespace st _) as [[i n]|] eqn:En; [|done]. apply FindNamespace_Some in En as [Hi Hn].
  set (groups := match FindConsumerGroup n (cg_Name g) with None => _ | Some _ => _ end).
  intros [= <-]. unfold has_group.
  rewrite (FindNamespace_insert st i n) by done. rewrite Hn, String.eqb_refl.
  assert (Hf : is_Some (FindConsumerGroup (with_ConsumerGroups n groups) (cg_Name g))).
  { unfold FindConsumerGroup at 1, groups. cbn [ns_ConsumerGroups with_ConsumerGroups].
    destruct (FindConsumerGroup n (cg_Name g)) as [[j cg]|] eqn:Eg.
    - apply FindConsumerGroup_Some in Eg as [Hj Hname]. apply find_first_insert_new.
      + by eapply lookup_lt_Some.
      + simpl. rewrite Hname. apply String.eqb_refl.
    - apply find_first_app_new. simpl. apply String.eqb_refl. }
  destruct Hf as [[j cg] Hf]. by eauto 10.
Qed.

Lemma new_bindings_topics a ns client : ∀ bindings,
  new_bindings a ns client = Ok bindings →
  ∀ b, b ∈ bindings → is_Some (GetTopic a ns (b_TopicName b)).
Proof.
  induction client as [|cb client IH]; intros bindings; cbn [new_bindings].
  { intros [= <-] b Hb. by apply elem_of_nil in Hb. }
  destruct (new_binding a ns cb) as [b0|e|msg] eqn:E; [|done|done]. cbn [mbind result_bind].
  destruct (new_bindings a ns client) as [bs|e|msg]; [|done|done]. cbn [mbind result_bind].
  intros [= <-] b [->|Hb]%elem_of_cons; [|by eapply IH].
  unfold new_binding in E. cbv zeta in E. destruct (GetTopic a ns _) as [t|] eqn:Et; [|done].
  assert (b_TopicName b0 = Binding_TopicName cb) as ->.
  { repeat case_match; by simplify_eq. }
  by rewrite Et.
Qed.

Lemma new_bindings_no_panic a ns client msg : new_bindings a ns client ≠ Panic msg.
Proof.
  induction client as [|cb client IH]; cbn [new_bindings]; [done|].
  assert (Hb : ∀ m, new_binding a ns cb ≠ Panic m).
  { intros m. unfold new_binding. cbv zeta. by repeat case_match. }
  destruct (new_binding a ns cb); cbn [mbind result_bind]; [|done|by edestruct Hb].
  destruct (new_bindings a ns client); by cbn [mbind result_bind].
Qed.

End handlers.

Lemma triple_lift {A} P (r : result server_error A) (E : ClusterState → Prop) :
  (∀ msg, r ≠ Panic msg) → (∀ st, P st → E st) → triple P (lift r) (λ a st, P st ∧ r = Ok a) E.
Proof.
  intros Hr HE s (H1 & H2 & H3). unfold lift. destruct r as [a|e|msg]; [|by split_and!; auto|by destruct (Hr msg)].
  by split_and!.
Qed.

(** The triple may promise less on errors. *)
Lemma triple_error {A} P (m : handler A) Q (E E' : ClusterState → Prop) :
  triple P m Q E → (∀ st, E st → E' st) → triple P m Q E'.
Proof. intros Hm HE. by eapply triple_conseq; [exact Hm| | |]. Qed.

Lemma seen_grp_inv st0 k a todo st : with_seen st0 k a st → grp_inv st0 a k todo st.
Proof.
  intros [Hf [(H1 & H2 & H3 & H4) H5]]. split_and!; [done|by rewrite H1|done|lia|by rewrite H2].
Qed.

Lemma fewer_0 st0 st : from st0 1 st → from st0 0 st.
Proof. by apply from_fewer. Qed.

Lemma CreateConsumerGroup_safe st0 now request :
  triple (from st0 1) (CreateConsumerGroup_handler now request) (λ _, from st0 0) (from st0 0).
Proof.
  pose proof (fewer_0 st0) as Hw. apply triple_request; [done|]. intros _.
  apply (triple_snapshot st0 1); [done|]. intros a Ha _.
  destruct (FindNamespace a _) as [[i n]|] eqn:En; [|apply triple_fail; intros st [? _]; auto].
  cbv zeta. eapply triple_bind; [apply triple_lift; [apply new_bindings_no_panic|intros st [? _]; auto]|].
  intros bindings.
  apply (triple_pure _ (new_bindings a (ConsumerGroup_Namespace (gcr_ConsumerGroup request))
    (ConsumerGroup_Bindings (gcr_ConsumerGroup request)) = Ok bindings)); [by intros st [_ ?]|]. intros Hb.
  set (cmd := CreateConsumerGroup _).
  set (found := has_group (ConsumerGroup_Namespace (gcr_ConsumerGroup request))
                  (ConsumerGroup_Name (gcr_ConsumerGroup request))).
  eapply (triple_bind _ _ _ (λ _ st, from st0 1 st ∧ found st)).
  { eapply triple_error; [|exact Hw].
    eapply triple_conseq; [apply (triple_command st0 1 (with_seen st0 1 a) _ found); [apply _| |done|]
      |by intros st [? _]|done|done].
    - intros st [Hf Hseen]. split; [done|]. split; [|done]. split.
      { apply (seen_namespace a st _ Hseen). simpl. rewrite En. by eauto. }
      eexists. split; [reflexivity|]. intros b Hin. cbn [cg_Bindings] in Hin.
      destruct (new_bindings_topics _ _ _ _ Hb b Hin) as [t Ht]. exists t. by eapply seen_topic.
    - intros st index st' [Hf _] Hdo. pose proof (li_wf st (from_inv _ _ _ Hf)) as Hwf.
      exact (create_group_found _ _ _ _ Hwf Hdo). }
  intros index. eapply triple_bind; [apply triple_Barrier; [unfold found; apply _|intros st [? _]; auto]|]. intros [].
  apply (triple_snapshot st0 1); [by intros st [? _]|]. intros a' Ha' [_ (i' & n' & j & cg & Hn & Hg)].
  rewrite Hn, Hg. apply FindNamespace_Some in Hn as [Hi' _]. apply FindConsumerGroup_Some in Hg as [Hj _].
  apply list_elem_of_lookup_2 in Hi', Hj.
  eapply (triple_bind _ _ _ (λ _, from st0 0)); [|intros newIndex; by apply triple_ret].
  apply triple_reconcile. intros s Hs.
  destruct (ReconcileConsumerGroup_safe st0 a' Ha' s now n' cg 1 Hi' Hj) as (s' & idx & -> & Hs'); [done| |].
  - eapply holds_mono; [|exact Hs]. intros st. apply seen_grp_inv.
  - eexists _, _. split; [done|]. eapply holds_mono; [|exact Hs']. by intros st [? _].
Qed.

(** ** Opening a segment *)

Lemma choose_replicas_mem fuel : ∀ m candidates replicas limit id,
  id ∈ choose_replicas fuel m candidates replicas limit → id ∈ replicas ∨ id ∈ candidates.
Proof.
  induction fuel as [|fuel IH]; intros m candidates replicas limit id; cbn [choose_replicas]; [by left|].
  case_if; [|by left]. destruct (min_candidate m candidates 0 None) as [[i x]|] eqn:Em; [|by left].
  apply min_candidate_mem in Em. intros [Hin|Hin]%IH.
  - rewrite elem_of_app, list_elem_of_singleton in Hin. destruct Hin as [?| ->]; [by left|].
    right. by eapply list_elem_of_lookup_2.
  - right. by eapply elem_of_remove_at.
Qed.

Lemma new_replicas_known a primary replicationFactor :
  Forall (node_known a) (new_replicas a primary replicationFactor).
Proof.
  apply Forall_forall. unfold new_replicas. intros id. case_if; [|by intros ?%elem_of_nil].
  cbv zeta. intros [?%elem_of_nil|Hid]%choose_replicas_mem; [done|].
  apply list_elem_of_fmap in Hid as (n & -> & [_ Hn]%elem_of_bfilter). by apply list_elem_of_fmap_2.
Qed.

Section opening.
Context (st0 a : ClusterState) (Ha : leader_inv a).

(** The identifier [id] has been drawn. *)
Definition fresh_id (id : Z) (st : ClusterState) : Prop :=
  from st0 0 st ∧ Namespaces st = Namespaces a ∧
  OpenSegments st ++ ClosedSegments st = OpenSegments a ++ ClosedSegments a ∧
  OpenSegments st = OpenSegments a ∧
  (∀ n, node_known a n → node_known st n) ∧ CurrentSegmentID st = id ∧ id = CurrentSegmentID a + 1.

(** The segment of the command has been created. *)
Definition created (c : ClusterCommandSegmentCreate) (st : ClusterState) : Prop :=
  from st0 0 st ∧ ns_Name <$> Namespaces st = ns_Name <$> Namespaces a ∧
  sc_ID c ≤ CurrentSegmentID st ∧ sc_ID c = CurrentSegmentID a + 1 ∧
  OpenSegments st ≡ₚ new_segment c :: OpenSegments a.

#[local] Instance Stable_fresh_id id : Stable (fresh_id id).
Proof.
  intros st index ev (H1 & H2 & H3 & H4 & H5 & H6 & H7).
  split_and!; [by apply Stable_from|done|done|done| |done|done].
  intros n Hn. by apply (Stable_known n), H5.
Qed.

#[local] Instance Stable_created c : Stable (created c).
Proof. intros st index ev (H1 & H2 & H3 & H4 & H5). split_and!; [by apply Stable_from|done..]. Qed.

Lemma triple_draw E :
  triple (with_seen st0 1 a) Server_NextSegmentID (λ id, fresh_id id) E.
Proof using Type.
  intros s (Hc & Hm & (F1 & F2 & F3 & F4) & (S1 & S2 & S3 & S4) & S5).
  destruct (leader_NextSegmentID _ F2 ltac:(lia)) as (N1 & N2 & N3 & N4).
  unfold Server_NextSegmentID. destruct (NextSegmentID (srv_state s)) as [st1 id] eqn:En.
  cbn [fst snd] in *. split; [done|]. split; [done|]. cbn [srv_state with_state].
  assert (Hst1 : st1 = with_CurrentSegmentID (srv_state s) (CurrentSegmentID st1))
    by (injection En as <- _; done).
  unfold fresh_id. rewrite Hst1.
  cbn [Namespaces OpenSegments ClosedSegments Nodes CurrentSegmentID with_CurrentSegmentID].
  rewrite <- Hst1, S1, S2, S3. split_and!; try done; [| |lia|lia].
  - split_and!; [by eapply rtc_r|done|lia|lia].
  - intros n Hn%S5. unfold node_known in *. by rewrite Hst1.
Qed.

Lemma create_ok c st :
  node_known a (sc_PrimaryNodeID c) → Forall (node_known a) (sc_ReplicatingNodeIDs c) →
  (sc_Type c = ClusterSegment_CONSUMER_GROUP_OFFSET_COMMITS →
     FindOpenSegmentsFor a (sc_Type c) (sc_OwnerNamespace c) (sc_OwnerName c) = []) →
  fresh_id (sc_ID c) st → leader_ok st (CreateSegment c).
Proof using Ha.
  intros Hp Hrep Hgrp (F1 & F2 & F3 & F4 & F5 & F6 & F7). split; [|split_and!].
  - intros x. rewrite F3. intros Hx. apply (segs_wf_current _ _ _ (wf_segs a (li_wf a Ha))) in Hx. lia.
  - by apply F5.
  - eapply Forall_impl; [exact Hrep|]. done.
  - intros Gc x Hx Gx [O1 O2]. simpl in O1, O2. rewrite F4 in Hx.
    assert (Hin : x ∈ FindOpenSegmentsFor a (sc_Type c) (sc_OwnerNamespace c) (sc_OwnerName c)).
    { apply elem_of_bfilter. split; [|done]. apply owned_by_true. split_and!; [|done..].
      unfold group_segment in *. simpl in Gc. congruence. }
    rewrite (Hgrp Gc) in Hin. by apply elem_of_nil in Hin.
Qed.

Lemma triple_create c :
  node_known a (sc_PrimaryNodeID c) → Forall (node_known a) (sc_ReplicatingNodeIDs c) →
  (sc_Type c = ClusterSegment_CONSUMER_GROUP_OFFSET_COMMITS →
     FindOpenSegmentsFor a (sc_Type c) (sc_OwnerNamespace c) (sc_OwnerName c) = []) →
  triple (fresh_id (sc_ID c)) (Server_Apply (CreateSegment c)) (λ _, created c) (from st0 0).
Proof using Ha.
  intros Hp Hrep Hgrp. apply triple_Apply; [apply _| | |by intros st [? _]].
  - intros st Hst. split; [apply Hst|by apply create_ok].
  - intros st index st' Hst Hdo. pose proof Hst as (F1 & F2 & F3 & F4 & F5 & F6 & F7).
    assert (Hfrom : from st0 0 (with_Index st' index)).
    { eapply from_step; [done|by apply create_ok|done|]. intros c' [= <-]. lia. }
    pose proof (do_command_current _ _ _ Hdo) as Hcur. split; [|done]. split_and!; [done| |simpl; lia|done|];
      simpl in Hdo; injection Hdo as <-; unfold doOpenSegment.
    + rewrite <- F2. by case_if.
    + rewrite <- F4. cbn [OpenSegments with_Index with_OpenSegments].
      rewrite sort_by_Permutation. by rewrite Permutation_app_comm.
Qed.

(** Giving the bound groups an offset in the new segment. *)
Lemma commits_ok ns cg c0 c st :
  ns ∈ Namespaces a → cg ∈ ns_ConsumerGroups ns → ocu_Namespace c = ns_Name ns →
  ocu_OffsetCommits c = cg_OffsetCommits cg ++ [{| oc_SegmentID := sc_ID c0; oc_Offset := 0 |}] →
  created c0 st → leader_ok st (UpdateConsumerGroupOffsetCommits c).
Proof using Ha.
  intros Hns Hcg Hn Hc (F1 & F2 & F3 & F4 & _).
  assert (Hold : ∀ x, x ∈ cg_OffsetCommits cg → oc_SegmentID x ≤ CurrentSegmentID a).
  { intros x Hx. apply (li_commits a Ha). by exists ns, cg. }
  split; [split|].
  - apply FindNamespace_names. rewrite F2, Hn. by apply list_elem_of_fmap_2.
  - rewrite Hc, fmap_app. apply NoDup_app. split_and!; [| |apply NoDup_singleton].
    + apply sorted_by_NoDup, (ns_wf_commits ns); [by apply (wf_ns a (li_wf a Ha))|done].
    + intros y (x & -> & Hx)%list_elem_of_fmap Hy%list_elem_of_singleton.
      apply Hold in Hx. simpl in Hy. lia.
  - rewrite Hc. intros x [Hx|Hx]%elem_of_app; [apply Hold in Hx; lia|].
    apply list_elem_of_singleton in Hx as ->. simpl. lia.
Qed.

Lemma add_offset_commits_safe ns ownerName c0 groups :
  ns ∈ Namespaces a → (∀ cg, cg ∈ groups → cg ∈ ns_ConsumerGroups ns) →
  triple (created c0) (add_offset_commits (ns_Name ns) groups ownerName (sc_ID c0))
    (λ _, created c0) (from st0 0).
Proof using Ha.
  intros Hns. induction groups as [|cg groups IH]; intros Hsub; cbn [add_offset_commits].
  { by apply triple_ret. }
  eapply (triple_bind _ _ _ (λ _, created c0)); [|intros _; apply IH; intros x Hx; apply Hsub; by right].
  case_if; [|by apply triple_ret]. intros s Hs. set (c := {| ocu_Namespace := _ |}).
  assert (Hok : ∀ st, created c0 st → leader_ok st (UpdateConsumerGroupOffsetCommits c)).
  { intros st. apply (commits_ok ns cg c0 c st); [done|apply Hsub; left|done..]. }
  apply (Apply_safe (created c0)); [apply _| | |done].
  - intros st Hst. split; [apply Hst|auto].
  - intros st index st' Hst Hdo. destruct (update_commits_names _ _ _ Hdo) as [Hn Ho].
    pose proof (do_command_current _ _ _ Hdo) as Hcur. pose proof Hst as (F1 & F2 & F3 & F4 & F5). split_and!.
    + eapply from_step; [done|by apply Hok|done|]. by intros ? [=].
    + simpl. congruence.
    + simpl. lia.
    + done.
    + simpl. by rewrite Ho.
Qed.

(** The command that opens a segment, but for its identifier. *)
Definition open_command (now primary : Z) (type : ClusterSegment_Type) (ns name : string)
    (shards replicationFactor id : Z) : ClusterCommandSegmentCreate :=
  let '(generation, shard) := next_place a (owned_by type ns name) primary shards in
  {| sc_ID := id; sc_Type := type; sc_OwnerNamespace := ns; sc_OwnerName := name;
     sc_Generation := generation; sc_Shard := shard; sc_OpenedAt := now;
     sc_PrimaryNodeID := primary;
     sc_ReplicatingNodeIDs := new_replicas a primary replicationFactor |}.

Lemma open_new_segment_safe now primary type ns name shards replicationFactor :
  node_known a primary →
  (type = ClusterSegment_CONSUMER_GROUP_OFFSET_COMMITS → FindOpenSegmentsFor a type ns name = []) →
  (type = ClusterSegment_TOPIC → is_Some (FindNamespace a ns)) →
  triple (with_seen st0 1 a) (open_new_segment now a primary type ns name shards replicationFactor)
    (λ r st, created (open_command now primary type ns name shards replicationFactor (so_SegmentID r)) st ∧
       so_PrimaryNodeID r = primary) (from st0 0).
Proof using Ha.
  intros Hp Hgrp Htop. unfold open_new_segment, open_command.
  destruct (next_place a _ primary shards) as [generation shard]. cbv zeta.
  eapply triple_bind; [apply triple_draw|]. intros id.
  set (c := {| sc_ID := id |}).
  eapply (triple_bind _ _ _ (λ _, created c)).
  { apply (triple_create c); [done|apply new_replicas_known|done]. }
  intros _. eapply (triple_bind _ _ _ (λ _, created c)); [|intros _; apply triple_ret; done].
  case_bool_decide as Ht; [|by apply triple_ret]. destruct (Htop Ht) as [[i n] Hn]. rewrite Hn.
  apply FindNamespace_Some in Hn as [Hi _]. apply (add_offset_commits_safe n name c); [|done].
  by eapply list_elem_of_lookup_2.
Qed.

(** How many open segments the owner may have; zero is no limit. *)
Definition shards_of (type : ClusterSegment_Type) (ns name : string) : Z :=
  match type with
  | ClusterSegment_TOPIC => match GetTopic a ns name with Some topic => topic_Shards topic | None => 0 end
  | _ => 1
  end.

(** What the reply says of the state: an existing segment, or a new one. *)
Definition opened (now primary : Z) (type : ClusterSegment_Type) (ns name : string)
    (r : SegmentOpenResponse) (st : ClusterState) : Prop :=
  from st0 0 st ∧
  ((OpenSegments st = OpenSegments a ∧ ∃ x, x ∈ FindOpenSegmentsFor a type ns name ∧
      seg_ID x = so_SegmentID r ∧ PrimaryNodeID (seg_Nodes x) = so_PrimaryNodeID r) ∨
   (∃ replicationFactor, let c := open_command now primary type ns name (shards_of type ns name)
                                   replicationFactor (so_SegmentID r) in
      OpenSegments st ≡ₚ new_segment c :: OpenSegments a ∧ sc_ID c = CurrentSegmentID a + 1 ∧
      so_PrimaryNodeID r = primary ∧
      (∀ x, x ∈ FindOpenSegmentsFor a type ns name → PrimaryNodeID (seg_Nodes x) ≠ primary) ∧
      (0 < shards_of type ns name →
         u32 (Z.of_nat (length (FindOpenSegmentsFor a type ns name))) < shards_of type ns name))).

Lemma GetNode_known primary n : GetNode a primary = Some n → node_known a primary.
Proof using Type.
  unfold GetNode. intros ([i n'] & Hf & ->)%fmap_Some.
  apply find_first_lookup in Hf as [Hi He]. bool_to_prop. rewrite <- He.
  by eapply list_elem_of_fmap_2, list_elem_of_lookup_2.
Qed.

Lemma txSegmentOpen_safe Intn now primary type ns name :
  (∀ n, (0 < n)%nat → (Intn n < n)%nat) →
  triple (with_seen st0 1 a) (txSegmentOpen Intn now a primary type ns name)
    (opened now primary type ns name) (from st0 0).
Proof using Ha.
  intros HIntn. assert (Hw : ∀ st, with_seen st0 1 a st → from st0 0 st).
  { intros st [Hst _]. by apply fewer_0. }
  unfold txSegmentOpen. destruct (GetNode a primary) as [n|] eqn:Enode; [|by apply triple_fail].
  set (facts := λ shards, shards = shards_of type ns name ∧
    (type = ClusterSegment_TOPIC → is_Some (FindNamespace a ns))).
  eapply (triple_bind _ _ _ (λ x st, with_seen st0 1 a st ∧ facts x.1)).
  { destruct type; try (by apply triple_ret).
    - destruct (GetTopic a ns name) as [t|] eqn:Et; [|by apply triple_fail]. apply triple_ret.
      intros st Hst. split; [done|]. split; [simpl; by rewrite Et|]. intros _. unfold GetTopic in Et.
      by destruct (FindNamespace a ns).
    - destruct (GetConsumerGroup a ns name); [|by apply triple_fail]. by apply triple_ret. }
  intros [shards rf]. cbn [fst].
  apply (triple_pure _ (facts shards)); [by intros st (_ & ?)|]. intros [-> Htop].
  apply (triple_conseq (with_seen st0 1 a) _ _ (opened now primary type ns name) _ (from st0 0) (from st0 0));
    [|by intros st [? _]|done|done].
  cbv zeta. set (open := FindOpenSegmentsFor a type ns name).
  assert (Hexist : ∀ x id p, x ∈ open → seg_ID x = id → PrimaryNodeID (seg_Nodes x) = p →
    triple (with_seen st0 1 a) (mret {| so_SegmentID := id; so_PrimaryNodeID := p |})
      (opened now primary type ns name) (from st0 0)).
  { intros x id p Hx Hid Hp. apply triple_ret. intros st Hst. split; [by apply Hw|]. left.
    split; [apply Hst|]. by exists x. }
  destruct (find_first _ open) as [[i x]|] eqn:Ef.
  { apply find_first_lookup in Ef as [Hi He]. bool_to_prop.
    by eapply Hexist; [eapply list_elem_of_lookup_2| |]. }
  destruct ((0 <? shards_of type ns name) && (shards_of type ns name <=? u32 (Z.of_nat (length open)))) eqn:Eb.
  - destruct (open !! Intn (length open)) as [x|] eqn:Ex.
    { by eapply Hexist; [eapply list_elem_of_lookup_2| |]. }
    exfalso. apply lookup_ge_None in Ex. bool_to_prop. destruct open as [|x rest] eqn:Eo.
    + change (u32 (Z.of_nat (length (@nil ClusterSegment)))) with 0 in *. lia.
    + specialize (HIntn (length (x :: rest)) ltac:(simpl; lia)). lia.
  - eapply triple_conseq; [apply open_new_segment_safe; [by eapply GetNode_known| |done]|done| |done].
    + intros Ht. fold open. destruct open as [|x [|y l]] eqn:Eo; [done|..].
      * exfalso. rewrite Ht in Eb. done.
      * exfalso. unfold open in Eo. rewrite Ht in Eo. by apply (one_open_segment a Ha) in Eo.
    + intros r st [(F1 & F2 & F3 & F4 & F5) Hr]. split; [done|]. right. exists rf. split_and!; [done..| |].
      * intros x Hx Hp. rewrite find_first_None in Ef. specialize (Ef x Hx). bool_to_prop. done.
      * intros Hpos. bool_to_prop. fold open. lia.
Qed.

End opening.

(** ** Requests about segments *)

Lemma SegmentOpen_safe st0 Intn now request :
  (∀ n, (0 < n)%nat → (Intn n < n)%nat) →
  triple (from st0 1) (SegmentOpen Intn now request) (λ _, from st0 0) (from st0 0).
Proof.
  intros HIntn. apply triple_leader; [done|].
  apply triple_transaction; [apply _|apply fewer_0|].
  apply (triple_snapshot st0 1); [done|]. intros a Ha _.
  eapply triple_conseq; [by apply txSegmentOpen_safe|done|by intros r st [? _]|done].
Qed.

Lemma txSegmentClose_safe st0 k now a request :
  leader_inv a →
  triple (with_seen st0 k a) (txSegmentClose now a request) (λ _, from st0 k) (from st0 k).
Proof.
  intros Ha. unfold txSegmentClose.
  destruct (GetOpenSegment a (scr_SegmentID request)) as [old|] eqn:Eo.
  - destruct (Z.eqb_spec (PrimaryNodeID (seg_Nodes old)) (scr_NodeID request)) as [Hp|];
      [|apply triple_fail, seen_from]. cbn [negb].
    apply GetOpenSegment_iff in Eo as [Hin _]; [|apply Ha].
    destruct (li_open a Ha old Hin) as [Hk _]. rewrite Hp in Hk.
    eapply triple_bind; [apply triple_command_seen; [|done]|intros i; by apply triple_ret].
    intros st [_ [_ Hs]]. split; [done|]. simpl. auto.
  - destruct (GetClosedSegment a _); [apply triple_ret|apply triple_fail]; intros st; apply seen_from.
Qed.

Lemma SegmentClose_safe st0 k now request :
  triple (from st0 k) (SegmentClose now request) (λ _, from st0 k) (from st0 k).
Proof.
  apply triple_leader; [done|]. apply triple_transaction; [apply _|done|].
  destruct (scr_OffsetCommitsUpdate request); [by apply triple_fail|].
  apply (triple_snapshot st0 k); [done|]. intros a Ha _. by apply txSegmentClose_safe.
Qed.

(** A replica may report a segment that is still being replicated, from a known node. *)
Definition replica_ok (request : SegmentCloseRequest) (st : ClusterState) : Prop :=
  node_known st (scr_NodeID request) ∧
  ∀ segment, GetClosedSegment st (scr_SegmentID request) = Some segment →
    ReplicatingNodeIDs (seg_Nodes segment) ≠ [].

#[export] Instance Stable_replica_ok request : Stable (replica_ok request).
Proof. intros st index ev [H1 H2]. split; [by apply Stable_known|done]. Qed.

(** An assertion that implies the history. *)
Lemma triple_leader_with {A R} (P E : ClusterState → Prop) leaderOnly (forwarded : R) (m : handler A) :
  Stable P → (∀ st, P st → E st) → triple P m (λ _, E) E →
  triple P (on_leader leaderOnly forwarded (transaction m)) (λ _, E) E.
Proof.
  intros HP HE Hm. eapply triple_conseq; [apply (triple_on_leader P leaderOnly forwarded _ (λ _, E) E HE)
    |done|intros [x|addr r] st; [done|apply HE]|done]. by apply triple_transaction.
Qed.

Lemma SegmentReplicaClose_safe st0 k request :
  triple (λ st, from st0 k st ∧ replica_ok request st) (SegmentReplicaClose request)
    (λ _, from st0 k) (from st0 k).
Proof.
  apply triple_leader_with; [apply _|by intros st [? _]|].
  apply (triple_snapshot st0 k); [by intros st [? _]|]. intros a Ha [_ [Hk Hrep]].
  destruct (GetClosedSegment a (scr_SegmentID request)) as [seg|] eqn:Eg; [|apply triple_fail, seen_from].
  specialize (Hrep seg eq_refl). case_if; [apply triple_fail, seen_from|]. cbv zeta.
  destruct (Z.ltb_spec (Z.of_nat (length (ReplicatingNodeIDs (seg_Nodes seg))) - 1) 0).
  { destruct (ReplicatingNodeIDs (seg_Nodes seg)); [done|simpl in *; lia]. }
  apply GetClosedSegment_iff in Eg as [Hin _]; [|apply Ha].
  pose proof (li_closed a Ha seg Hin) as Hall.
  eapply triple_bind; [apply triple_command_seen; [|done]|intros i; by apply triple_ret].
  intros st [_ [_ Hs]]. split; [by right|].
  split; [|split; [done|intros _; by destruct (List.filter _ (DoneNodeIDs _))]].
  apply Forall_forall. intros id. simpl.
  rewrite !elem_of_app, list_elem_of_singleton. intros Hid. apply Hs.
  destruct Hid as [[[_ Hid]%elem_of_bfilter| ->]|[_ Hid]%elem_of_bfilter]; [|done|];
    apply (proj1 (Forall_forall _ _) Hall); set_solver.
Qed.

(** The offsets a node sends when it rotates its segment. *)
Definition rotate_ok (request : SegmentCloseRequest) (st : ClusterState) : Prop :=
  ∀ update, scr_OffsetCommitsUpdate request = Some update →
    is_Some (FindNamespace st (ocu_Namespace update)) ∧
    NoDup (oc_SegmentID <$> ocu_OffsetCommits update) ∧
    ∀ x, x ∈ ocu_OffsetCommits update → oc_SegmentID x ≤ CurrentSegmentID st.

#[export] Instance Stable_rotate_ok request : Stable (rotate_ok request).
Proof. intros st index ev H update Hu. by apply H. Qed.

Lemma SegmentRotate_safe st0 Intn now request :
  (∀ n, (0 < n)%nat → (Intn n < n)%nat) →
  triple (λ st, from st0 1 st ∧ rotate_ok request st) (SegmentRotate Intn now request)
    (λ _, from st0 0) (from st0 0).
Proof.
  intros HIntn. pose proof (fewer_0 st0) as Hw.
  apply triple_leader_with; [apply _|intros st [? _]; auto|].
  eapply (triple_bind _ _ _ (λ _, from st0 1)).
  { destruct (scr_OffsetCommitsUpdate request) as [update|] eqn:Eu; [|apply triple_ret; by intros st [? _]].
    eapply triple_bind; [|intros i; apply triple_ret; intros st Hst; exact Hst].
    eapply triple_error; [|exact Hw].
    eapply triple_conseq; [apply (triple_command st0 1 (λ st, from st0 1 st ∧ rotate_ok request st) _ (λ _, True));
      [apply _| |done|done]|done|by intros i st [? _]|done].
    intros st [Hf Hr]. split; [done|]. destruct (Hr update Eu) as (H1 & H2 & H3). by split. }
  intros _. apply (triple_snapshot st0 1); [done|]. intros a Ha _.
  eapply triple_bind; [eapply triple_error; [by apply txSegmentClose_safe|exact Hw]|]. intros [].
  eapply triple_bind; [by apply triple_Barrier; [apply _|]|]. intros [].
  apply (triple_snapshot st0 1); [done|]. intros a' Ha' _.
  destruct (GetClosedSegment a' _).
  { eapply triple_conseq; [by apply txSegmentOpen_safe|done|by intros r st [? _]|done]. }
  apply triple_fail. intros st [? _]. auto.
Qed.

(** ** Requests that read *)

Lemma ListTopics_safe st0 k request :
  triple (from st0 k) (ListTopics_handler request) (λ _, from st0 k) (from st0 k).
Proof.
  apply triple_leader; [done|]. eapply triple_bind; [by apply triple_validate|]. intros []. simpl.
  apply (triple_snapshot st0 k); [by intros st [? _]|]. intros a Ha _.
  destruct (FindNamespace a _) as [[i n]|]; [apply triple_ret|apply triple_fail]; intros st; apply seen_from.
Qed.

Lemma ListConsumerGroups_safe st0 k request :
  triple (from st0 k) (ListConsumerGroups_handler request) (λ _, from st0 k) (from st0 k).
Proof.
  apply triple_leader; [done|]. eapply triple_bind; [by apply triple_validate|]. intros []. simpl.
  apply (triple_snapshot st0 k); [by intros st [? _]|]. intros a Ha _.
  destruct (FindNamespace a _) as [[i n]|]; [apply triple_ret|apply triple_fail]; intros st; apply seen_from.
Qed.

(** ** The tick of the leader *)

Lemma leader_tick_safe st0 now g :
  (∀ id sizes, answers_ok id sizes → all_answered id sizes) →
  triple (λ st, from st0 (Z.of_nat (length g)) st ∧ groups_of st = g) (leader_tick now)
    (λ _, from st0 0) (from st0 0).
Proof.
  intros Hans. set (K := Z.of_nat (length g)). set (P := λ st, from st0 K st ∧ groups_of st = g).
  assert (HP : Stable P).
  { apply Stable_and; [apply _|]. apply stable_data. intros st st' Hd <-. by apply bind_data. }
  assert (Hw : ∀ st, P st → from st0 0 st) by (intros st [? _]; eapply from_fewer; [|done]; lia).
  assert (Hseg : ∀ a st, groups_of a = g → with_seen st0 K a st → seg_inv st0 a K g st).
  { intros a st Hg [Hf [Hd Hk]]. split_and!; [done| |done]. rewrite <- Hg. by apply bind_data. }
  assert (Hback : ∀ a st, seg_inv st0 a K g st → P st) by (by intros a st (? & ? & _)).
  assert (HK : ∀ st, P st → from st0 K st) by (by intros st [? _]).
  apply triple_transaction; [done|done|].
  apply (triple_snapshot st0 K); [done|]. intros a Ha [_ Hg].
  eapply (triple_bind _ _ _ (λ _, P)).
  { apply triple_reconcile. intros s Hs.
    destruct (ReconcileNodes_safe st0 a K g s now (holds_mono _ _ _ (λ st, Hseg a st Hg) Hs)) as (s' & -> & Hs').
    eexists _, _. split; [done|]. eapply holds_mono; [apply (Hback a)|exact Hs']. }
  intros []. eapply triple_bind; [by apply triple_Barrier|]. intros []. clear a Ha Hg.
  apply (triple_snapshot st0 K); [done|]. intros a Ha [_ Hg].
  eapply (triple_bind _ _ _ (λ _, P)).
  { apply triple_reconcile. intros s Hs. eexists _, _. split; [done|].
    eapply holds_mono; [apply (Hback a)|]. apply (ReconcileNamespaces_safe st0 a K g).
    by eapply holds_mono; [apply (λ st, Hseg a st Hg)|]. }
  intros []. eapply triple_bind; [by apply triple_Barrier|]. intros []. clear a Ha Hg.
  apply (triple_snapshot st0 K); [done|]. intros a Ha [_ Hg].
  eapply (triple_bind _ _ _ (λ _, P)).
  { apply triple_reconcile. intros s Hs.
    destruct (ReconcileSegments_safe st0 a K g Ha Hans s now (holds_mono _ _ _ (λ st, Hseg a st Hg) Hs)) as (s' & -> & Hs').
    eexists _, _. split; [done|]. eapply holds_mono; [apply (Hback a)|exact Hs']. }
  intros []. eapply triple_bind; [by apply triple_Barrier|]. intros []. clear a Ha Hg.
  apply (triple_snapshot st0 K); [done|]. intros a Ha [_ Hg].
  apply triple_reconcile. intros s Hs.
  destruct (ReconcileConsumerGroups_safe st0 a Ha s now 0) as (s' & -> & Hs'); [done| |].
  - eapply holds_mono; [|exact Hs]. intros st Hst. rewrite Hg, Z.add_0_r. by apply seen_grp_inv.
  - eexists _, _. split; [done|]. eapply holds_mono; [|exact Hs']. by intros st [? _].
Qed.

(** An event of the member list. *)
Lemma member_tick_safe st0 k ev : triple (from st0 k) (member_tick ev) (λ _, from st0 k) (from st0 k).
Proof.
  intros s Hs. unfold member_tick. destruct (srv_isLeader s); cbn [negb]; [|exact Hs]. revert s Hs.
  apply (triple_bind _ _ _ (λ _, from st0 k)); [|intros i; destruct (ev_alive ev)].
  - eapply triple_conseq; [apply (triple_command st0 k (from st0 k) _ (λ _, True))|done|by intros ? ? [? _]|done];
      [apply _| |done|done].
    intros st Hst. split; [done|]. split; [done|]. unfold member_update. destruct (ev_alive ev); auto.
  - eapply triple_bind; [apply triple_ask; apply _|]. intros o. by apply triple_ret.
  - by apply triple_ret.
Qed.

End answers.
