(* ===== verification/ServerSystem.v ===== *)
(** * The leader as a whole

    Every request and every tick from every state with the invariant; where a new segment goes; and
    the requests that break the assumptions. *)
From S2P Require Import Prelude Util Emq ClusterState ClusterOps ClusterInv ClusterProps Requests Reconciler ReconcilerProps LeaderInv Server ServerLogic LeaderSafe ServerProps.

(** ** Requests *)

Inductive call : Type :=
| CallCreateNamespace (request : NamespaceCreateRequest)
| CallDeleteNamespace (request : NamespaceDeleteRequest)
| CallCreateTopic (request : TopicCreateRequest)
| CallDeleteTopic (request : TopicDeleteRequest)
| CallListTopics (request : TopicListRequest)
| CallCreateConsumerGroup (request : ConsumerGroupCreateRequest)
| CallDeleteConsumerGroup (request : ConsumerGroupDeleteRequest)
| CallListConsumerGroups (request : ConsumerGroupListRequest)
| CallSegmentOpen (request : SegmentOpenRequest)
| CallSegmentClose (request : SegmentCloseRequest)
| CallSegmentReplicaClose (request : SegmentCloseRequest)
| CallSegmentRotate (request : SegmentCloseRequest)
| CallTick
| CallMember (ev : member_event).

Definition discard {A} (m : handler A) : handler () := _ ← m; mret ().

Definition run_call (Intn : nat → nat) (now : Z) (c : call) : handler () :=
  match c with
  | CallCreateNamespace r => discard (CreateNamespace_handler r)
  | CallDeleteNamespace r => discard (DeleteNamespace_handler r)
  | CallCreateTopic r => discard (CreateTopic_handler r)
  | CallDeleteTopic r => discard (DeleteTopic_handler r)
  | CallListTopics r => discard (ListTopics_handler r)
  | CallCreateConsumerGroup r => discard (CreateConsumerGroup_handler now r)
  | CallDeleteConsumerGroup r => discard (DeleteConsumerGroup_handler r)
  | CallListConsumerGroups r => discard (ListConsumerGroups_handler r)
  | CallSegmentOpen r => discard (SegmentOpen Intn now r)
  | CallSegmentClose r => discard (SegmentClose now r)
  | CallSegmentReplicaClose r => discard (SegmentReplicaClose r)
  | CallSegmentRotate r => discard (SegmentRotate Intn now r)
  | CallTick => leader_tick now
  | CallMember ev => member_tick ev
  end.

(** The requests the leader can serve safely: unsigned fields, a replica that reports a segment
    that is still being replicated, offsets of a namespace that exists. *)
Definition call_ok (st : ClusterState) (c : call) : Prop :=
  match c with
  | CallCreateTopic r => 0 ≤ Topic_ReplicationFactor (tcr_Topic r)
  | CallSegmentReplicaClose r => replica_ok r st
  | CallSegmentRotate r => rotate_ok r st
  | _ => True
  end.

Lemma triple_discard {env : Answers} {A} P (m : handler A) (R E : ClusterState → Prop) :
  triple P m (λ _, R) E → triple P (discard m) (λ _, R) E.
Proof. intros Hm. eapply triple_bind; [exact Hm|]. intros a. by apply triple_ret. Qed.

Lemma run_call_safe {env : Answers} st0 Intn now c g :
  (c = CallTick → ∀ id sizes, answers_ok id sizes → all_answered id sizes) →
  (∀ n, (0 < n)%nat → (Intn n < n)%nat) →
  triple (λ st, from st0 (1 + Z.of_nat (length g)) st ∧ groups_of st = g ∧ call_ok st c)
    (run_call Intn now c) (λ _, from st0 0) (from st0 0).
Proof.
  intros Hans HIntn.
  assert (H0 : ∀ st, from st0 (1 + Z.of_nat (length g)) st → from st0 0 st)
    by (intros st; apply from_fewer; lia).
  assert (H1 : ∀ st, from st0 (1 + Z.of_nat (length g)) st → from st0 1 st)
    by (intros st; apply from_fewer; lia).
  destruct c; cbn [run_call call_ok]; try apply triple_discard.
  - eapply triple_conseq; [apply (CreateNamespace_safe st0 0)|intros st (? & _); auto|done|done].
  - eapply triple_conseq; [apply (DeleteNamespace_safe st0 0)|intros st (? & _); auto|done|done].
  - apply (triple_pure _ (0 ≤ Topic_ReplicationFactor (tcr_Topic request))); [by intros st (_ & _ & ?)|].
    intros Hrf. eapply triple_conseq; [by apply (CreateTopic_safe st0 0)|intros st (? & _); auto|done|done].
  - eapply triple_conseq; [apply (DeleteTopic_safe st0 0)|intros st (? & _); auto|done|done].
  - eapply triple_conseq; [apply (ListTopics_safe st0 0)|intros st (? & _); auto|done|done].
  - eapply triple_conseq; [apply CreateConsumerGroup_safe|intros st (? & _); auto|done|done].
  - eapply triple_conseq; [apply (DeleteConsumerGroup_safe st0 0)|intros st (? & _); auto|done|done].
  - eapply triple_conseq; [apply (ListConsumerGroups_safe st0 0)|intros st (? & _); auto|done|done].
  - eapply triple_conseq; [by apply SegmentOpen_safe|intros st (? & _); auto|done|done].
  - eapply triple_conseq; [apply (SegmentClose_safe st0 0)|intros st (? & _); auto|done|done].
  - eapply triple_conseq; [apply (SegmentReplicaClose_safe st0 0)|intros st (? & _ & ?); auto|done|done].
  - eapply triple_conseq; [by apply SegmentRotate_safe|intros st (? & _ & ?); auto|done|done].
  - eapply triple_conseq; [apply (leader_tick_safe st0 now g (Hans eq_refl))|intros st (Hf & Hg & _)|done|done].
    split; [|exact Hg]. eapply from_fewer; [|exact Hf]. lia.
  - eapply triple_conseq; [apply (member_tick_safe st0 0)|intros st (? & _); auto|done|done].
Qed.

(** ** The place of a new segment *)

Lemma members_snoc {A} (P : A → Prop) l x :
  (∀ y, y ∈ l → P y) → P x → ∀ y, y ∈ l ++ [x] → P y.
Proof. intros Hl Hx y. rewrite elem_of_app, list_elem_of_singleton. intros [?| ->]; auto. Qed.

Lemma keep_witness {A} (φ : Prop) (P : A → Prop) l x :
  φ ∨ (∃ y, y ∈ l ∧ P y) → φ ∨ (∃ y, y ∈ l ++ [x] ∧ P y).
Proof. intros [?|(y & Hy & HP)]; [by left|]. right. exists y. rewrite elem_of_app. auto. Qed.

Lemma latest_fold owned l :
  let '(g, gs) := foldl (latest_step owned) (1, []) l in
  1 ≤ g ∧ (∀ x, x ∈ l → owned x = true → seg_Generation x ≤ g) ∧
  (g = 1 ∨ ∃ x, x ∈ l ∧ owned x = true ∧ seg_Generation x = g) ∧
  (∀ x, x ∈ gs ↔ x ∈ l ∧ owned x = true ∧ seg_Generation x = g) ∧ (length gs ≤ length l)%nat.
Proof.
  induction l as [|x l IH] using rev_ind.
  { simpl. split_and!; [lia|by intros ? ?%elem_of_nil|by left| |lia]. set_solver. }
  rewrite foldl_app, length_app. cbn [foldl length]. destruct (foldl (latest_step owned) (1, []) l) as [g gs].
  destruct IH as (H1 & H2 & H3 & H4 & H5). unfold latest_step. destruct (owned x) eqn:Eo; cbn [fst snd].
  - destruct (Z.ltb_spec g (seg_Generation x)) as [Hlt|Hge]; cbn [fst snd].
    + rewrite Z.eqb_refl. split_and!; [lia| | | |simpl; lia].
      * apply (members_snoc (λ y, owned y = true → seg_Generation y ≤ seg_Generation x)); [|lia]. intros y Hy Hoy. specialize (H2 y Hy Hoy). lia.
      * right. exists x. set_solver.
      * intros y. cbn [app]. rewrite list_elem_of_singleton, elem_of_app, list_elem_of_singleton.
        split; [intros ->; auto|]. intros ([Hy| ->] & Hoy & Hg); [specialize (H2 y Hy Hoy); lia|done].
    + destruct (Z.eqb_spec (seg_Generation x) g) as [Heq|Hne].
      * split_and!; [lia| |by apply keep_witness| |rewrite length_app; simpl; lia].
        -- apply (members_snoc (λ y, owned y = true → seg_Generation y ≤ g)); [done|lia].
        -- intros y. rewrite !elem_of_app, list_elem_of_singleton, H4. naive_solver.
      * split_and!; [lia| |by apply keep_witness| |lia].
        -- apply (members_snoc (λ y, owned y = true → seg_Generation y ≤ g)); [done|lia].
        -- intros y. rewrite elem_of_app, list_elem_of_singleton, H4. naive_solver.
  - split_and!; [lia| |by apply keep_witness| |lia].
    + apply (members_snoc (λ y, owned y = true → seg_Generation y ≤ g)); [done|congruence].
    + intros y. rewrite elem_of_app, list_elem_of_singleton, H4. split; [tauto|]. intros ([?| ->] & ? & ?); [done|congruence].
Qed.

(** Distinct numbers of a list are at most as many as the list is long. *)
Lemma NoDup_length_le (l l' : list Z) : NoDup l → (∀ x, x ∈ l → x ∈ l') → (length l ≤ length l')%nat.
Proof. intros Hnd Hsub. by apply submseteq_length, NoDup_submseteq. Qed.

Lemma free_shard_spec segments shards : ∀ fuel i,
  1 ≤ i → shards ≤ MaxUint32 → Z.of_nat (length segments) < shards →
  Z.of_nat fuel + i = Z.of_nat (length segments) + 2 →
  (∀ j, 1 ≤ j < i → j ∈ seg_Shard <$> segments) →
  1 ≤ free_shard fuel i shards segments ≤ shards ∧
  free_shard fuel i shards segments ∉ seg_Shard <$> segments.
Proof.
  assert (Hlen : ∀ i, 1 ≤ i → (∀ j, 1 ≤ j < i → j ∈ seg_Shard <$> segments) →
    i - 1 ≤ Z.of_nat (length segments)).
  { intros i Hi Hall. pose proof (NoDup_length_le (seqZ 1 (i - 1)) (seg_Shard <$> segments)) as H.
    rewrite length_seqZ, length_fmap in H. specialize (H ltac:(apply NoDup_seqZ)).
    assert (∀ x, x ∈ seqZ 1 (i - 1) → x ∈ seg_Shard <$> segments)
      by (intros x Hx%elem_of_seqZ; apply Hall; lia). specialize (H ltac:(done)). lia. }
  induction fuel as [|fuel IH]; intros i Hi Hmax Hlt Hf Hall; cbn [free_shard].
  { specialize (Hlen i Hi Hall). lia. }
  pose proof (Hlen i Hi Hall) as Hl. destruct (Z.leb_spec i shards); [|lia].
  destruct (existsb (λ segment, seg_Shard segment =? i) segments) eqn:Ee.
  - apply existsb_exists in Ee as (x & Hx & He). bool_to_prop.
    assert (Hin : i ∈ seg_Shard <$> segments).
    { rewrite <- He. apply list_elem_of_fmap_2. by apply list_elem_of_In. }
    unfold u32, wrap. destruct (Z.eq_dec i MaxUint32) as [->|].
    + exfalso. pose proof (Hlen (MaxUint32 + 1) ltac:(lia)) as Hl'.
      assert (Hall' : ∀ j, 1 ≤ j < MaxUint32 + 1 → j ∈ seg_Shard <$> segments).
      { intros j Hj. destruct (Z.eq_dec j MaxUint32) as [->|]; [done|apply Hall; lia]. }
      specialize (Hl' Hall'). lia.
    + rewrite Z.mod_small by (unfold MaxUint32 in *; lia). apply IH; [lia|done|done|lia|].
      intros j Hj. destruct (Z.eq_dec j i) as [->|]; [done|apply Hall; lia].
  - split; [lia|]. intros (x & -> & Hx)%list_elem_of_fmap. rewrite existsb_false in Ee.
    specialize (Ee x Hx). bool_to_prop. done.
Qed.

Lemma latest_generation_spec st owned :
  let '(g, gs) := latest_generation st owned in
  1 ≤ g ∧ (∀ x, x ∈ OpenSegments st ++ ClosedSegments st → owned x = true → seg_Generation x ≤ g) ∧
  (g = 1 ∨ ∃ x, x ∈ OpenSegments st ++ ClosedSegments st ∧ owned x = true ∧ seg_Generation x = g) ∧
  (∀ x, x ∈ gs ↔ x ∈ OpenSegments st ++ ClosedSegments st ∧ owned x = true ∧ seg_Generation x = g) ∧
  (length gs ≤ length (OpenSegments st ++ ClosedSegments st))%nat.
Proof.
  unfold latest_generation. cbn [foldl]. rewrite <- foldl_app.
  pose proof (latest_fold owned (ClosedSegments st ++ OpenSegments st)) as H.
  destruct (foldl _ _ _) as [g gs]. destruct H as (H1 & H2 & H3 & H4 & H5).
  setoid_rewrite elem_of_app. setoid_rewrite elem_of_app in H2. setoid_rewrite elem_of_app in H3.
  setoid_rewrite elem_of_app in H4. rewrite length_app in *. split_and!; [done| | | |lia].
  - intros x Hx. apply H2. tauto.
  - destruct H3 as [?|(x & Hx & ?)]; [by left|right; exists x; tauto].
  - intros x. rewrite H4. tauto.
Qed.

(** The place of a new segment is free if the shards are limited, and the node has no other in its generation. *)
Lemma next_place_spec st owned primary shards :
  let segments := OpenSegments st ++ ClosedSegments st in
  0 ≤ shards ≤ MaxUint32 → Z.of_nat (length segments) ≤ MaxUint32 →
  (∀ x, x ∈ segments → owned x = true → seg_Generation x < MaxUint32) →
  let place := next_place st owned primary shards in
  (0 < shards → 1 ≤ place.2 ≤ shards) ∧
  ∀ x, x ∈ segments → owned x = true →
    seg_Generation x ≤ place.1 ∧
    (seg_Generation x = place.1 → node_in primary x = false ∧ (0 < shards → seg_Shard x ≠ place.2)).
Proof.
  intros segments Hs Hlen Hgen. unfold next_place. pose proof (latest_generation_spec st owned) as Hl.
  destruct (latest_generation st owned) as [g gs]. destruct Hl as (H1 & H2 & H3 & H4 & H5).
  assert (Hg : u32 (g + 1) = g + 1).
  { apply Z.mod_small. assert (g < MaxUint32); [|unfold MaxUint32 in *; lia].
    destruct H3 as [->|(x & Hx & Ho & <-)]; [done|by apply Hgen]. }
  assert (Hgs : u32 (Z.of_nat (length gs)) = Z.of_nat (length gs)).
  { apply Z.mod_small. unfold MaxUint32, segments in *. lia. }
  rewrite Hg, Hgs.
  assert (Hnew : (0 < shards → 1 ≤ 1 ≤ shards) ∧ ∀ x, x ∈ segments → owned x = true → seg_Generation x ≤ g + 1 ∧
    (seg_Generation x = g + 1 → node_in primary x = false ∧ (0 < shards → seg_Shard x ≠ 1))).
  { split; [lia|]. intros x Hx Ho. specialize (H2 x Hx Ho). split; [lia|intros; lia]. }
  destruct (_ && _) eqn:Ef; [done|]. destruct (existsb (node_in primary) gs) eqn:Ee; [done|]. cbn [fst snd].
  assert (Hfree : 0 < shards → 1 ≤ free_shard (S (length gs)) 1 shards gs ≤ shards ∧
    free_shard (S (length gs)) 1 shards gs ∉ seg_Shard <$> gs).
  { intros Hpos. destruct (Z.ltb_spec 0 shards); [|lia]. cbn [andb] in Ef. apply Z.leb_gt in Ef.
    apply free_shard_spec; [lia..|]. intros j Hj. lia. }
  split; [by intros [? _]%Hfree|]. intros x Hx Ho. split; [by apply H2|]. intros Heq.
  assert (Hin : x ∈ gs) by (by apply H4). split.
  - rewrite existsb_false in Ee. by apply Ee.
  - intros [_ Hf]%Hfree Hsh. apply Hf. rewrite <- Hsh. by apply list_elem_of_fmap_2.
Qed.

(** ** Opening a segment *)

(** The outcome of a request to open a segment, for the state [a] the leader decided on. *)
Lemma SegmentOpen_outcome {env : Answers} st0 Intn now request :
  (∀ n, (0 < n)%nat → (Intn n < n)%nat) →
  triple (with_seen st0 1 st0) (SegmentOpen Intn now request)
    (λ reply st, match reply with
       | Done r => ∃ a, seen st0 a ∧ opened st0 a now (sor_NodeID request) (sor_Type request)
                                      (sor_OwnerNamespace request) (sor_OwnerName request) r st
       | Forward _ _ => True
       end) (λ _, True).
Proof.
  intros HIntn. eapply triple_conseq; [apply (triple_on_leader (with_seen st0 1 st0) _ _ _ (λ r st,
    ∃ a, seen st0 a ∧ opened st0 a now (sor_NodeID request) (sor_Type request)
           (sor_OwnerNamespace request) (sor_OwnerName request) r st) (λ _, True)); [done|]
    |done|by intros [r|addr r] st|done].
  apply triple_transaction; [apply _|done|].
  apply (triple_snapshot st0 1); [by intros st [? _]|]. intros a Ha [_ Hseen].
  eapply triple_conseq; [by apply txSegmentOpen_safe|done|by eauto|done].
Qed.

Lemma bfilter_Permutation {A} (f : A → bool) l l' : l ≡ₚ l' → List.filter f l ≡ₚ List.filter f l'.
Proof.
  induction 1 as [|x l l' _ IH|x y l|l l' l'' _ IH1 _ IH2]; cbn [List.filter]; [done| | |by etrans].
  - by destruct (f x); rewrite IH.
  - destruct (f x), (f y); try done. apply perm_swap.
Qed.

Lemma count_open st st' c type ns name :
  OpenSegments st' ≡ₚ new_segment c :: OpenSegments st →
  (length (FindOpenSegmentsFor st' type ns name) ≤ S (length (FindOpenSegmentsFor st type ns name)))%nat.
Proof.
  intros Hp. unfold FindOpenSegmentsFor.
  assert (Hf : List.filter (owned_by type ns name) (OpenSegments st') ≡ₚ
    List.filter (owned_by type ns name) (new_segment c :: OpenSegments st)).
  { by apply bfilter_Permutation. }
  rewrite Hf. cbn [List.filter]. case_if; simpl; lia.
Qed.

Lemma seen_shards st a type ns name : seen st a → shards_of a type ns name = shards_of st type ns name.
Proof.
  intros [(H & _) _]. unfold shards_of, GetTopic, FindNamespace. by rewrite H.
Qed.

(** ** A server, for the witnesses *)

Definition demo_answer : raft_answer := {| ans_before := []; ans_outcome := Committed 8 |}.

Definition demo_server (st : ClusterState) : Server :=
  {| srv_nodeID := 1; srv_isLeader := true; srv_leader := "localhost:16000"; srv_state := st;
     srv_crashed := false; srv_answers := replicate 20 demo_answer; srv_members := [];
     srv_dials := λ _, true; srv_sizes := λ _ _, Some 0 |}.

Lemma demo_named : Forall named (srv_members (demo_server demo_state)).
Proof. constructor. Qed.

Lemma demo_leader_inv : leader_inv demo_state.
Proof. apply (bool_decide_unpack _). vm_compute. exact I. Qed.

(** ** Properties *)

(** The leader never breaks the cluster (C1): from a state with the invariant, every request and every tick of the
    leader, whatever Raft answers and whatever node updates come in between, ends without a panic of the handler or of
    the state machine; it takes the cluster through steps of the state machine with admissible commands only, and the
    invariant holds afterwards.  The conditions: the names of the members are node identifiers, and the identifiers of
    segments do not run out (one for the request and one for every consumer group are left); the replication factor of a new topic is not negative, as its type
    says; the node that reports a finished replica is known, and the segment, if it is closed, has a node that still replicates it; the
    offsets sent with a rotation are those of an existing namespace, one for each segment, of segments that have been
    created; and during a tick every node that is asked for the size of a segment answers.  What the code does where a
    replica reports twice, the namespace is gone or a node does not answer is shown at the end of the file: it panics. *)
Theorem leader_safe Intn now c s :
  (∀ n, (0 < n)%nat → (Intn n < n)%nat) →
  srv_crashed s = false → Forall named (srv_members s) → leader_inv (srv_state s) →
  0 ≤ CurrentSegmentID (srv_state s) →
  CurrentSegmentID (srv_state s) + 1 + Z.of_nat (length (groups_of (srv_state s))) ≤ MaxUint64 →
  call_ok (srv_state s) c →
  (c = CallTick → all_answered (srv_nodeID s) (srv_sizes s)) →
  let '(r, s') := run_call Intn now c s in
  (∀ msg, r ≠ Panic msg) ∧ srv_crashed s' = false ∧ leader_inv (srv_state s') ∧
  rtc cluster_step (srv_state s) (srv_state s').
Proof.
  intros HIntn Hc Hm Hinv H0 Hmax Hok Hans.
  set (env := (λ id sizes, c = CallTick → all_answered id sizes) : Answers).
  assert (Hs : holds (env := env) (λ st, from (srv_state s) (1 + Z.of_nat (length (groups_of (srv_state s)))) st ∧
    groups_of st = groups_of (srv_state s) ∧ call_ok st c) s).
  { split; [done|]. split; [done|]. split_and!; try done. split_and!; [apply rtc_refl|done|done|lia]. }
  pose proof (run_call_safe (env := env) (srv_state s) Intn now c _ (λ Hc id sizes H, H Hc) HIntn s Hs) as H.
  destruct (run_call Intn now c s) as [[a|e|msg] s']; [| |done]; destruct H as (H1 & _ & H2 & H3 & _); done.
Qed.

Lemma leader_safe_witness :
  leader_inv (srv_state (run_call (λ _, 0%nat) 1000 CallTick (demo_server demo_state)).2).
Proof.
  pose proof (leader_safe (λ _, 0%nat) 1000 CallTick (demo_server demo_state)) as H.
  destruct (run_call (λ _, 0%nat) 1000 CallTick (demo_server demo_state)) as [r s'].
  apply H; [intros n Hn; exact Hn|reflexivity|exact demo_named|exact demo_leader_inv|discriminate
    |vm_compute; discriminate|exact I|intros _ segment node _; eexists; reflexivity].
Defined.


Definition demo_open_request : SegmentOpenRequest :=
  {| sor_LeaderOnly := false; sor_NodeID := 2; sor_Type := ClusterSegment_TOPIC;
     sor_OwnerNamespace := "default"; sor_OwnerName := "orders" |}.


(** ** Requests that break the assumptions *)

Definition demo_close (node : Z) (update : option ClusterCommandConsumerGroupOffsetCommitsUpdate) :
    SegmentCloseRequest :=
  {| scr_LeaderOnly := false; scr_SegmentID := 1; scr_NodeID := node; scr_Size := 64; scr_Sha1 := [];
     scr_OffsetCommitsUpdate := update |}.

(** A replica that reports a segment as done twice (the first reply was lost, say) makes the
    leader panic the second time: [make] is called with capacity -1. *)
Lemma replica_close_twice_panics :
  let '(r1, s1) := SegmentReplicaClose (demo_close 2 None) (demo_server demo_state) in
  let '(r2, _) := SegmentReplicaClose (demo_close 2 None) s1 in
  r1 = Ok (Done ()) ∧ r2 = Panic "makeslice: cap out of range".
Proof. vm_compute. split; reflexivity. Qed.

Definition demo_update (namespace : string) : ClusterCommandConsumerGroupOffsetCommitsUpdate :=
  {| ocu_Namespace := namespace; ocu_Name := "workers";
     ocu_OffsetCommits := [{| oc_SegmentID := 1; oc_Offset := 0 |}] |}.

Definition demo_rotate (namespace : string) : SegmentCloseRequest :=
  {| scr_LeaderOnly := false; scr_SegmentID := 2; scr_NodeID := 2; scr_Size := 64; scr_Sha1 := [];
     scr_OffsetCommitsUpdate := Some (demo_update namespace) |}.

(** A node that is not (or no longer) the primary of an offset segment is refused when it rotates the
    segment, but the offsets it sent have been stored before the check: here the group falls back from
    offset 40 to 0. *)
Lemma rotate_by_other_node_changes_offsets :
  let '(r, s') := SegmentRotate (λ _, 0%nat) 1000 (demo_rotate "default") (demo_server demo_state) in
  r = Err (nodeNotPrimary 2 2) ∧
  cg_OffsetCommits <$> GetConsumerGroup demo_state "default" "workers" =
    Some [{| oc_SegmentID := 1; oc_Offset := 40 |}; {| oc_SegmentID := 3; oc_Offset := 0 |}] ∧
  cg_OffsetCommits <$> GetConsumerGroup (srv_state s') "default" "workers" =
    Some [{| oc_SegmentID := 1; oc_Offset := 0 |}].
Proof. vm_compute. split_and!; reflexivity. Qed.

(** When the namespace of the group has been deleted in the meantime, the committed command makes the
    state machine panic, on the leader and on every node that applies the log. *)
Lemma rotate_after_delete_crashes :
  let '(r, s') := SegmentRotate (λ _, 0%nat) 1000 (demo_rotate "gone") (demo_server demo_state) in
  r = Panic "namespace must exist" ∧ srv_crashed s' = true.
Proof. vm_compute. split; reflexivity. Qed.

(** A node that does not answer the question for the size of its replica makes the leader panic: the error of the call
    is assigned to a variable of the inner scope, and the response is nil.  Here node 1, the primary of the offset segment, is
    gone, and node 2, which has a replica, does not answer node 3, the leader. *)
Lemma unanswered_size_panics :
  let s := {| srv_nodeID := 3; srv_isLeader := true; srv_leader := "localhost:16000"; srv_state := demo_state;
              srv_crashed := false; srv_answers := replicate 20 demo_answer;
              srv_members := [{| member_Name := NodeIDToString 2; member_Address := "localhost:16002" |};
                              {| member_Name := NodeIDToString 3; member_Address := "localhost:16003" |}];
              srv_dials := λ _, true; srv_sizes := λ _ _, None |} in
  (run_call (λ _, 0%nat) 1000 CallTick s).1 = Panic "nil pointer dereference".
Proof. vm_compute. reflexivity. Qed.
