(* ===== verification/Replication.v ===== *)
(** * Replication of a segment

    Models src/mq/task_segment_replication.go and the two calls it makes to the node it copies from,
    src/mq/server_segment_sum.go and server_segment_read.go.  The task compares a checksum, keeps its
    copy or starts again, and appends what the other node streams.  The copy, the file of the other
    node, the stream between them and the position in the task are one state; the steps of the
    task, of the handler that sends, of writers at the other node and of the network interleave freely. *)
From S2P Require Import Prelude Segments SegmentsVarint SegmentsProps.

(** ** The calls to the other node *)

Record SegmentSumResponse : Type := { ssr_Size : Z; ssr_Sha1 : list Z }.

Inductive stream_error : Type :=
| NoSuchSegment
| IteratorError (e : seg_error)
| Disconnected.

(** What a call of [stream.Recv] returns. *)
Inductive stream_item : Type :=
| Data (message : list Z)
| End (e : option stream_error). (* [None] is [io.EOF] *)

(** [SegmentRead] up to its loop. *)
Definition SegmentRead_open (exists_ : bool) (f : File) (offset : Z) (wait : bool) :
    result stream_error Iterator :=
  if negb exists_ then Err NoSuchSegment
  else match (if 0 <? offset then ReadAt f offset wait else Read f wait) with
       | Ok i => Ok i
       | Err e => Err (IteratorError e)
       | Panic msg => Panic msg
       end.

(** An iteration of the loop: the iterator, unless the handler returned, and what is sent. *)
Definition SegmentRead_next (r : Iterator * outcome) : option Iterator * list stream_item :=
  match r with
  | (i, Delivered m _ _) => (Some i, [Data m])
  | (_, Failed EOF) => (None, [End None])
  | (_, Failed e) => (None, [End (Some (IteratorError e))])
  | (i, Waits) => (Some i, [])
  | (_, Panics) => (None, [End (Some Disconnected)])
  end.

(** ** The task *)

Inductive task_error : Type :=
| NodeNotFound
| OpenFailed
| DialFailed
| LocalSumFailed (e : seg_error)
| RemoteSumFailed
| TruncateFailed (e : seg_error)
| RequestFailed
| ReceiveFailed (e : stream_error)
| WriteFailed (e : seg_error)
| Canceled
| FinalSumFailed (e : seg_error)
| CloseReplicaFailed.

Inductive phase : Type :=
| Starting
| Summed (sha1Sum : list Z) (size : Z)
| Truncated (size : Z)
| Streaming
| AwaitClosed
| Closing
| Reported (size : Z) (sha1Sum : list Z) (* [SegmentReplicaClose] is called with these *)
| Completed
| TaskFailed (e : task_error)
| TaskPanics.

Record replication : Type := {
  rp_local : File;
  rp_remote : File;
  rp_iter : option Iterator; (* of the handler at the other node, while it runs *)
  rp_stream : list stream_item; (* sent and not received *)
  rp_phase : phase;
}.

Section task.
Context (sha1 : list Z → list Z) (exists_ wait : bool).

(** [SegmentSum] *)
Definition SegmentSum (f : File) (size : Z) : result seg_error SegmentSumResponse :=
  if negb exists_ then Ok {| ssr_Size := -1; ssr_Sha1 := [] |}
  else '(bytes, size) ← Sum f size; Ok {| ssr_Size := size; ssr_Sha1 := sha1 bytes |}.

(** Up to the checksum of the copy; the node is known, the file opens and the connection is there, or not. *)
Definition task_start (known opens dials : bool) (local : File) : phase :=
  if negb known then TaskFailed NodeNotFound
  else if negb opens then TaskFailed OpenFailed
  else if negb dials then TaskFailed DialFailed
  else match Sum local SumAll with
       | Ok (bytes, size) => Summed (sha1 bytes) size
       | Err e => TaskFailed (LocalSumFailed e)
       | Panic _ => TaskPanics
       end.

(** The checksum of the other node and the truncation of the copy; [answers] and [truncates] are the
    outcomes of the call and of the system call. *)
Definition task_resume (answers truncates : bool) (local remote : File) (sha1Sum : list Z) (size : Z) :
    File * phase :=
  match SegmentSum remote size with
  | Ok sumResponse =>
    if negb answers then (local, TaskFailed RemoteSumFailed)
    else
      let size := if bool_decide (sha1Sum = ssr_Sha1 sumResponse) then size else TruncateAll in
      match Truncate local size truncates with
      | Ok local => (local, Truncated size)
      | Err e => (local, TaskFailed (TruncateFailed e))
      | Panic _ => (local, TaskPanics)
      end
  | _ => (local, TaskFailed RemoteSumFailed)
  end.

(** The request that opens the stream, served by the other node. *)
Definition task_request (connects : bool) (remote : File) (size : Z) :
    option Iterator * list stream_item * phase :=
  if negb connects then (None, [], TaskFailed RequestFailed)
  else match SegmentRead_open exists_ remote size wait with
       | Ok i => (Some i, [], Streaming)
       | Err e => (None, [End (Some e)], Streaming)
       | Panic _ => (None, [End (Some Disconnected)], Streaming)
       end.

(** An iteration of the loop that receives. *)
Definition task_receive (local : File) (item : stream_item) (w : write_result) : File * phase :=
  match item with
  | Data message =>
    match Write local message w with
    | Ok (local, None) => (local, Streaming)
    | Ok (local, Some e) => (local, TaskFailed (WriteFailed e))
    | _ => (local, TaskPanics)
    end
  | End None => (local, if wait then AwaitClosed else Closing)
  | End (Some e) => (local, TaskFailed (ReceiveFailed e))
  end.

(** The final checksum. *)
Definition task_finish (local : File) : phase :=
  match Sum local SumAll with
  | Ok (bytes, size) => Reported size (sha1 bytes)
  | Err e => TaskFailed (FinalSumFailed e)
  | Panic _ => TaskPanics
  end.

Inductive replication_step : replication → replication → Prop :=
| step_remote_write l r it q p m w r' e :
    Write r m w = Ok (r', e) → f_offset r + Z.of_nat (length (record m)) ≤ MaxInt64 →
    replication_step {| rp_local := l; rp_remote := r; rp_iter := it; rp_stream := q; rp_phase := p |}
      {| rp_local := l; rp_remote := r'; rp_iter := it; rp_stream := q; rp_phase := p |}
| step_start l r it q known opens dials :
    replication_step
      {| rp_local := l; rp_remote := r; rp_iter := it; rp_stream := q; rp_phase := Starting |}
      {| rp_local := l; rp_remote := r; rp_iter := it; rp_stream := q;
         rp_phase := task_start known opens dials l |}
| step_resume l r it q sha size answers truncates l' p' :
    task_resume answers truncates l r sha size = (l', p') →
    replication_step
      {| rp_local := l; rp_remote := r; rp_iter := it; rp_stream := q; rp_phase := Summed sha size |}
      {| rp_local := l'; rp_remote := r; rp_iter := it; rp_stream := q; rp_phase := p' |}
| step_request l r it q size connects it' q' p' :
    task_request connects r size = (it', q', p') →
    replication_step
      {| rp_local := l; rp_remote := r; rp_iter := it; rp_stream := q; rp_phase := Truncated size |}
      {| rp_local := l; rp_remote := r; rp_iter := it'; rp_stream := q'; rp_phase := p' |}
| step_send l r i q p it' items :
    SegmentRead_next (Iterator_Next i r) = (it', items) →
    replication_step
      {| rp_local := l; rp_remote := r; rp_iter := Some i; rp_stream := q; rp_phase := p |}
      {| rp_local := l; rp_remote := r; rp_iter := it'; rp_stream := q ++ items; rp_phase := p |}
| step_send_waited l r i q p it' items :
    it_pos i = it_end i → it_wait i = true →
    SegmentRead_next (Next_label i r) = (it', items) →
    replication_step
      {| rp_local := l; rp_remote := r; rp_iter := Some i; rp_stream := q; rp_phase := p |}
      {| rp_local := l; rp_remote := r; rp_iter := it'; rp_stream := q ++ items; rp_phase := p |}
| step_disconnect l r it q n :
    replication_step
      {| rp_local := l; rp_remote := r; rp_iter := it; rp_stream := q; rp_phase := Streaming |}
      {| rp_local := l; rp_remote := r; rp_iter := None;
         rp_stream := take n q ++ [End (Some Disconnected)]; rp_phase := Streaming |}
| step_receive l r it item q w l' p' :
    task_receive l item w = (l', p') →
    replication_step
      {| rp_local := l; rp_remote := r; rp_iter := it; rp_stream := item :: q; rp_phase := Streaming |}
      {| rp_local := l'; rp_remote := r; rp_iter := it; rp_stream := q; rp_phase := p' |}
| step_closed l r it q (canceled : bool) :
    replication_step
      {| rp_local := l; rp_remote := r; rp_iter := it; rp_stream := q; rp_phase := AwaitClosed |}
      {| rp_local := l; rp_remote := r; rp_iter := it; rp_stream := q;
         rp_phase := if canceled then TaskFailed Canceled else Closing |}
| step_finish l r it q :
    replication_step
      {| rp_local := l; rp_remote := r; rp_iter := it; rp_stream := q; rp_phase := Closing |}
      {| rp_local := l; rp_remote := r; rp_iter := it; rp_stream := q; rp_phase := task_finish l |}
| step_report l r it q size sha (accepted : bool) :
    replication_step
      {| rp_local := l; rp_remote := r; rp_iter := it; rp_stream := q; rp_phase := Reported size sha |}
      {| rp_local := l; rp_remote := r; rp_iter := it; rp_stream := q;
         rp_phase := if accepted then Completed else TaskFailed CloseReplicaFailed |}.

End task.

(** ** Records are decoded in one way *)

Lemma record_inj m m' x y :
  Z.of_nat (length m) < 2 ^ 64 → Z.of_nat (length m') < 2 ^ 64 →
  record m ++ x = record m' ++ y → m = m' ∧ x = y.
Proof.
  intros Hm Hm' Heq. pose proof (peek_record m x Hm) as H1. pose proof (peek_record m' y Hm') as H2.
  rewrite Heq, H2 in H1. injection H1 as Hlen _. unfold record in Heq. rewrite Hlen, <- !app_assoc in Heq.
  apply app_inv_head in Heq. apply app_inj_1 in Heq; [done|]. by apply Nat2Z.inj.
Qed.

Lemma body_prefix ms msgs rest :
  Z.of_nat (length (body msgs)) ≤ MaxInt64 → body msgs = body ms ++ rest →
  ∃ k, (k ≤ length msgs)%nat ∧ ms = take k msgs.
Proof.
  revert msgs. induction ms as [|m ms IH]; intros msgs Hsize Heq.
  { exists 0%nat. split; [lia|done]. }
  rewrite body_cons in Heq. pose proof (record_nonempty m) as Hne. destruct msgs as [|m' msgs].
  { apply (f_equal length) in Heq. rewrite !length_app in Heq. change (length (body [])) with 0%nat in Heq. lia. }
  assert (Hm : Z.of_nat (length m) ≤ MaxInt64).
  { rewrite Heq, !length_app in Hsize. pose proof (length_record m). lia. }
  assert (Hm' : Z.of_nat (length m') ≤ MaxInt64).
  { rewrite body_cons, length_app in Hsize. pose proof (length_record m'). lia. }
  unfold MaxInt64 in Hm, Hm'. rewrite body_cons, <- app_assoc in Heq.
  apply record_inj in Heq as [<- Heq]; [|lia..].
  destruct (IH msgs) as (k & Hk & ->); [|done|].
  { rewrite body_cons, length_app in Hsize. lia. }
  exists (S k). split; [cbn; lia|done].
Qed.

(** A copy whose bytes are a prefix of the bytes of a log holds a prefix of its messages. *)
Lemma prefix_log l r ms msgs n :
  file_log l ms → file_log r msgs → section (f_data r) 0 n = f_data l →
  ∃ k, (k ≤ length msgs)%nat ∧ ms = take k msgs.
Proof.
  intros Hl Hr Heq. unfold section in Heq. cbn [drop Z.to_nat] in Heq.
  rewrite (log_data _ _ Hl), (log_data _ _ Hr) in Heq.
  pose proof (log_size _ _ Hr) as Hsize. rewrite (log_data _ _ Hr) in Hsize. cbn [length] in Hsize.
  destruct (Z.to_nat (n - 0)) as [|n']; [done|]. cbn [take] in Heq. injection Heq as Heq.
  apply (body_prefix ms msgs (drop n' (body msgs))); [lia|]. by rewrite <- Heq, take_drop.
Qed.

(** ** The iterator of the handler *)

(** The writer refuses messages at or after the size limit. *)
Definition starts_below (maxSize : Z) (msgs : list (list Z)) : Prop :=
  ∀ k, (k < length msgs)%nat → boundary msgs k < maxSize.

Lemma starts_below_full maxSize msgs k :
  starts_below maxSize msgs → (k ≤ length msgs)%nat → maxSize ≤ boundary msgs k → k = length msgs.
Proof.
  intros Hs Hk Hfull. destruct (decide (k < length msgs)%nat) as [Hlt|]; [|lia].
  specialize (Hs k Hlt). lia.
Qed.

(** The three things a call of [Next] can come to. *)
Lemma Next_label_outcome i f msgs k e i' o :
  file_log f msgs → f_opened f = true → iter_at i msgs k e → it_term i = f_term f →
  it_closed i = false → Next_label i f = (i', o) →
  (∃ m e', msgs !! k = Some m ∧ o = Delivered m (boundary msgs k) (boundary msgs (S k)) ∧
     iter_at i' msgs (S k) e' ∧ (e ≤ e')%nat ∧
     it_closed i' = false ∧ it_term i' = it_term i ∧ it_wait i' = it_wait i) ∨
  (k = e ∧ o = Failed EOF ∧ (it_wait i = true → f_maxSize f ≤ boundary msgs k)) ∨
  (k = e ∧ o = Waits ∧ i' = i ∧ f_offset f = boundary msgs k ∧ f_offset f < f_maxSize f).
Proof.
  intros Hlog Hopen Hi Ht Hc Hn. pose proof Hi as [H1 H2 H3 H4 H5]. unfold Next_label in Hn.
  destruct (decide (k < e)%nat) as [Hke|Hke].
  { destruct (lookup_lt_is_Some_2 msgs k ltac:(lia)) as [m Hm].
    rewrite (Next_loop_delivers 1 i f msgs k e m) in Hn by done. simplify_eq.
    left. exists m, e. split_and!; try done. apply advance_at. lia. }
  assert (e = k) as -> by lia. cbn [Next_loop] in Hn. rewrite Next_pass_empty in Hn by congruence.
  destruct (it_wait i) eqn:Hw.
  2:{ unfold fail_with in Hn. simplify_eq. right. left. by split_and!. }
  destruct (nextWait i f) as [[i1|err|s]|] eqn:E; unfold nextWait in E;
    rewrite Ht, Z.eqb_refl, andb_true_r, ?Hc in E; cbn [negb] in E; repeat case_if; try done.
  - simplify_eq. bool_to_prop. pose proof (f_offset_boundary f msgs Hlog) as Hcur.
    assert (Hk : (k < length msgs)%nat).
    { destruct (decide (k = length msgs)) as [->|]; [congruence|lia]. }
    destruct (lookup_lt_is_Some_2 msgs k Hk) as [m Hm].
    change (Next_pass _ ?j f) with (Next_loop 1 j f) in Hn.
    erewrite (Next_loop_delivers 0 _ f msgs k (length msgs) m) in Hn; [|done|done| |lia|done].
    + simplify_eq. left. exists m, (length msgs). split_and!; try done; lia.
    + constructor; simpl; rewrite ?Hcur; done || lia.
  - simplify_eq. unfold fail_with in Hn. simplify_eq. bool_to_prop. right. left.
    split_and!; try done. intros _. lia.
  - simplify_eq. bool_to_prop. right. right. split_and!; try done; congruence || lia.
Qed.

(** ** The invariant *)

Section invariant.
Context (sha1 : list Z → list Z) (exists_ wait : bool) (local0 : File) (r0 : list (list Z)) (maxSize : Z).

(** The outcomes of calls and system calls that end the task. *)
Definition environment (e : task_error) : Prop :=
  match e with
  | LocalSumFailed _ | FinalSumFailed _ => False
  | TruncateFailed e => e = ErrTruncate
  | WriteFailed e => e = ErrWrite
  | ReceiveFailed NoSuchSegment => exists_ = false
  | ReceiveFailed (IteratorError _) => False
  | _ => True
  end.

(** The copy holds the first [j] messages. *)
Definition copies (local : File) (msgs : list (list Z)) (j : nat) : Prop :=
  file_log local (take j msgs) ∧ (j ≤ length msgs)%nat.

(** The first [j] messages are what the stream had to send. *)
Definition done_at (msgs : list (list Z)) (j : nat) : Prop :=
  (length r0 ≤ j ≤ length msgs)%nat ∧ (wait = true → maxSize ≤ boundary msgs j).

(** The end of the stream after message [k]. *)
Inductive tail_ok (term : Z) (msgs : list (list Z)) (k : nat) : option Iterator → list stream_item → Prop :=
| tail_running i e :
    iter_at i msgs k e → (length r0 ≤ e)%nat → it_term i = term → it_closed i = false →
    it_wait i = wait → tail_ok term msgs k (Some i) []
| tail_end rest : done_at msgs k → tail_ok term msgs k None (End None :: rest)
| tail_error e rest :
    environment (ReceiveFailed e) → tail_ok term msgs k None (End (Some e) :: rest).

Definition stream_ok (term : Z) (msgs : list (list Z)) (j : nat) (it : option Iterator)
    (q : list stream_item) : Prop :=
  ∃ n tail, (j + n ≤ length msgs)%nat ∧ q = (Data <$> take n (drop j msgs)) ++ tail ∧
    tail_ok term msgs (j + n) it tail.

Definition phase_inv (local : File) (term : Z) (msgs : list (list Z)) (it : option Iterator)
    (q : list stream_item) (p : phase) : Prop :=
  match p with
  | Starting => local = local0
  | Summed sha size => local = local0 ∧ sha = sha1 (f_data local0) ∧ size = f_offset local0
  | Truncated size => ∃ k, copies local msgs k ∧ (size = boundary msgs k ∨ size = 0 ∧ k = 0%nat)
  | Streaming => ∃ j, copies local msgs j ∧ stream_ok term msgs j it q
  | AwaitClosed | Closing | Completed => ∃ j, copies local msgs j ∧ done_at msgs j
  | Reported size sha =>
    (∃ j, copies local msgs j ∧ done_at msgs j) ∧ size = f_offset local ∧ sha = sha1 (f_data local)
  | TaskFailed e => environment e
  | TaskPanics => True
  end.

Record rep_inv (s : replication) (msgs : list (list Z)) : Prop := {
  re_log : file_log (rp_remote s) msgs;
  re_old : r0 `prefix_of` msgs;
  re_open : f_opened (rp_remote s) = true;
  re_max : f_maxSize (rp_remote s) = maxSize;
  re_below : starts_below maxSize msgs;
  re_local : f_opened (rp_local s) = true ∧ f_maxSize (rp_local s) = maxSize;
  re_phase : phase_inv (rp_local s) (f_term (rp_remote s)) msgs (rp_iter s) (rp_stream s) (rp_phase s);
}.

(** *** The other node appends *)

Lemma copies_app local msgs more j : copies local msgs j → copies local (msgs ++ more) j.
Proof. intros [H Hj]. split; [by rewrite take_app_le|rewrite length_app; lia]. Qed.

Lemma done_at_app msgs more j : done_at msgs j → done_at (msgs ++ more) j.
Proof.
  intros [Hj Hw]. split; [rewrite length_app; lia|]. intros H. rewrite boundary_app by lia. auto.
Qed.

Lemma tail_ok_app term msgs more k it q :
  tail_ok term msgs k it q → tail_ok term (msgs ++ more) k it q.
Proof.
  destruct 1 as [i e H|rest H|e rest H]; [eapply tail_running; [by apply iter_at_app|done..]| |].
  - by apply tail_end, done_at_app.
  - by apply tail_error.
Qed.

Lemma stream_ok_app term msgs more j it q :
  stream_ok term msgs j it q → stream_ok term (msgs ++ more) j it q.
Proof.
  intros (n & tail & Hn & -> & Ht). exists n, tail. split; [rewrite length_app; lia|].
  split; [|by apply tail_ok_app]. rewrite drop_app_le by lia.
  by rewrite take_app_le by (rewrite length_drop; lia).
Qed.

Lemma phase_inv_app local term msgs more it q p :
  phase_inv local term msgs it q p → phase_inv local term (msgs ++ more) it q p.
Proof.
  destruct p; simpl; try done.
  - intros (k & Hk & Hsize). exists k. split; [by apply copies_app|].
    destruct Hk as [_ Hk]. by rewrite boundary_app.
  - intros (j & Hj & Hs). exists j. eauto using copies_app, stream_ok_app.
  - intros (j & Hj & Hd). exists j. eauto using copies_app, done_at_app.
  - intros (j & Hj & Hd). exists j. eauto using copies_app, done_at_app.
  - intros ((j & Hj & Hd) & H). split; [|done]. exists j. eauto using copies_app, done_at_app.
  - intros (j & Hj & Hd). exists j. eauto using copies_app, done_at_app.
Qed.

Lemma Write_below f msgs m w f' r :
  file_log f msgs → starts_below (f_maxSize f) msgs → Write f m w = Ok (f', r) →
  f_maxSize f' = f_maxSize f ∧
  starts_below (f_maxSize f) (msgs ++ match r with None => [m] | Some _ => [] end).
Proof.
  intros Hlog Hs Hw. pose proof (f_offset_boundary f msgs Hlog) as Hoff. unfold Write in Hw.
  destruct (Z.leb_spec (f_maxSize f) (f_offset f)) as [|Hlt]; [simplify_eq; by rewrite app_nil_r|].
  destruct (negb (f_opened f)); [simplify_eq; by rewrite app_nil_r|].
  destruct w as [|n []]; simplify_eq; (split; [done|]); [|by rewrite app_nil_r].
  intros k Hk. rewrite length_app in Hk. cbn [length] in Hk. rewrite boundary_app by lia.
  destruct (decide (k = length msgs)) as [->|]; [lia|]. apply Hs. lia.
Qed.

(** *** The steps of the task *)

Lemma Sum_log f msgs :
  file_log f msgs → f_opened f = true → Sum f SumAll = Ok (f_data f, f_offset f).
Proof.
  intros Hlog Hopen. unfold Sum. cbn. rewrite Hopen. unfold section. cbn [drop Z.to_nat].
  rewrite (log_offset _ _ Hlog), Z.sub_0_r, Nat2Z.id. by rewrite firstn_all.
Qed.

Lemma Truncate_ok f size ok :
  Truncate f size ok = Err ErrTruncate ∨ Truncate f size ok = Truncate f size true.
Proof.
  destruct ok; [by right|]. unfold Truncate. destruct (size <? 0); [by right|].
  set (n := if size =? TruncateAll then 1 else size). destruct (f_offset f <? n); [by right|].
  destruct (n <? f_offset f); [by left|by right].
Qed.

Lemma Truncate_cases f msgs k size ok :
  file_log f msgs → f_opened f = true → (k ≤ length msgs)%nat →
  size = boundary msgs k ∨ size = 0 ∧ k = 0%nat →
  (∃ f', Truncate f size ok = Ok f' ∧ file_log f' (take k msgs) ∧ f_opened f' = true ∧
     f_maxSize f' = f_maxSize f) ∨ Truncate f size ok = Err ErrTruncate.
Proof.
  intros Hlog Hopen Hk Hsize. destruct (Truncate_ok f size ok) as [|Heq]; [by right|]. left.
  destruct (Truncate_log f msgs k) as (f' & H1 & H2 & H3 & _ & H5); [done..|].
  exists f'. split_and!; try done. rewrite Heq, <- H1. destruct Hsize as [->|[-> ->]]; done.
Qed.

Lemma copies_all l msgs j : copies l msgs j → j = length msgs → file_log l msgs.
Proof. intros [H _] ->. by rewrite take_ge in H. Qed.

Lemma start_inv l l0 known opens dials term msgs it q :
  l = local0 → file_log l l0 → f_opened l = true →
  phase_inv l term msgs it q (task_start sha1 known opens dials l).
Proof.
  intros -> Hl Hopen. unfold task_start. rewrite (Sum_log local0 l0) by done.
  destruct known, opens, dials; (done || by split_and!).
Qed.

Lemma resume_inv r l0 msgs answers truncates l' p' :
  (∀ bytes, sha1 bytes ≠ []) → (∀ bytes, sha1 bytes = sha1 (f_data local0) → bytes = f_data local0) →
  file_log r msgs → f_opened r = true → file_log local0 l0 → f_opened local0 = true →
  task_resume sha1 exists_ answers truncates local0 r (sha1 (f_data local0)) (f_offset local0) = (l', p') →
  (f_opened l' = true ∧ f_maxSize l' = f_maxSize local0) ∧
  ∀ term it q, phase_inv l' term msgs it q p'.
Proof.
  intros Hlen Hcoll Hr Hro Hl Hlo H. unfold task_resume in H.
  destruct (SegmentSum _ _ _ _) as [[size' sha']|e|msg] eqn:E; [|by simplify_eq..].
  destruct answers; cbn [negb] in H; [|by simplify_eq]. cbn [ssr_Sha1] in H.
  assert (Hk : ∃ k size, (k ≤ length msgs ∧ k ≤ length l0)%nat ∧ take k l0 = take k msgs ∧
    (if bool_decide (sha1 (f_data local0) = sha') then f_offset local0 else TruncateAll) = size ∧
    (size = boundary l0 k ∨ size = 0 ∧ k = 0%nat)).
  { case_bool_decide as Hsha; [|exists 0%nat, 0; split_and!; auto with lia].
    unfold SegmentSum in E. destruct exists_; cbn [negb] in E; [|].
    - unfold Sum in E. rewrite Hro in E. cbn in E. injection E as _ Hs. subst sha'.
      apply eq_sym, Hcoll in Hsha.
      destruct (prefix_log local0 r l0 msgs _ Hl Hr Hsha) as (k & Hk & Hl0).
      exists k, (f_offset local0). assert (k = length l0) as Hkl by (rewrite Hl0, length_take; lia).
      split_and!; [done|lia|by rewrite Hl0, take_take, Nat.min_id|done|].
      left. by rewrite (f_offset_boundary local0 l0 Hl), Hkl.
    - simplify_eq. by destruct (Hlen (f_data local0)). }
  destruct Hk as (k & size & [Hk Hk0] & Htake & Hsize & Hcase). rewrite Hsize in H.
  destruct (Truncate_cases local0 l0 k size truncates) as [(f' & Ht & H1 & H2 & H3)|Ht]; [done..| |];
    rewrite Ht in H; simplify_eq; (split; [done|]); [|done].
  intros term it q. exists k. split; [split; [by rewrite <- Htake|done]|].
  destruct Hcase as [->|[-> ->]]; [left|by right]. unfold boundary. by rewrite Htake.
Qed.

Lemma request_inv l r msgs k connects size it' q' p' :
  file_log r msgs → r0 `prefix_of` msgs → copies l msgs k → size = boundary msgs k ∨ size = 0 ∧ k = 0%nat →
  task_request exists_ wait connects r size = (it', q', p') →
  phase_inv l (f_term r) msgs it' q' p'.
Proof.
  intros Hr Hold Hl Hsize H. unfold task_request in H. destruct connects; cbn [negb] in H; [|by simplify_eq].
  assert (Hstart : (if 0 <? size then ReadAt r size wait else Read r wait) = ReadAt r (boundary msgs k) wait).
  { pose proof (boundary_pos msgs k). destruct Hsize as [->|[-> ->]]; [|done].
    by destruct (Z.ltb_spec 0 (boundary msgs k)); [|lia]. }
  unfold SegmentRead_open in H. rewrite Hstart in H.
  destruct (ReadAt_boundary r msgs k wait Hr) as (i & Hi & Hat & Hc & Ht & Hw); [apply Hl|].
  rewrite Hi in H. destruct exists_ eqn:Hex; cbn [negb] in H; simplify_eq; exists k; (split; [done|]);
    exists 0%nat.
  - exists []. rewrite Nat.add_0_r. destruct Hl as [_ Hk]. split; [done|]. split; [by rewrite take_0|].
    eapply tail_running; [done| |done..]. by apply prefix_length.
  - exists [End (Some NoSuchSegment)]. rewrite Nat.add_0_r. destruct Hl as [_ Hk].
    split; [done|]. split; [by rewrite take_0|]. by apply tail_error.
Qed.

(** *** The stream *)

Lemma send_inv r msgs j i q it' items o :
  file_log r msgs → f_opened r = true → f_maxSize r = maxSize →
  stream_ok (f_term r) msgs j (Some i) q →
  Next_label i r = o ∨ Iterator_Next i r = o → SegmentRead_next o = (it', items) →
  stream_ok (f_term r) msgs j it' (q ++ items).
Proof.
  intros Hr Hro Hmax (n & tail & Hn & -> & Ht) Ho H. inversion Ht as [i0 e Hat He Hti Hci Hwi| |]; subst.
  assert (Hnext : Next_label i r = o).
  { destruct Ho as [|Ho]; [done|]. unfold Iterator_Next in Ho.
    by rewrite Hci, Hti, Z.eqb_refl in Ho. }
  clear Ho. destruct o as [i' o].
  destruct (Next_label_outcome i r msgs (j + n) e i' o Hr Hro Hat Hti Hci Hnext)
    as [(m & e' & Hm & -> & Hat' & He' & Hc' & Ht' & Hw')|[(<- & -> & Hfull)|(<- & -> & -> & _)]];
    cbn in H; simplify_eq.
  - apply lookup_lt_Some in Hm as Hlt. exists (S n), []. split; [lia|]. split.
    + rewrite app_nil_r, app_nil_r. rewrite (take_S_r _ _ m) by (by rewrite lookup_drop).
      by rewrite fmap_app.
    + rewrite Nat.add_succ_r. eapply tail_running; [done|lia|congruence|done|congruence].
  - exists n, [End None]. rewrite app_nil_r. split; [done|]. split; [done|]. apply tail_end. split; [lia|].
    rewrite Hwi in Hfull. by rewrite Hmax in Hfull.
  - exists n, []. rewrite app_nil_r. by split_and!.
Qed.

Lemma disconnect_inv term msgs j it q n :
  stream_ok term msgs j it q → stream_ok term msgs j None (take n q ++ [End (Some Disconnected)]).
Proof.
  intros (n0 & tail & Hn & -> & Ht). set (xs := take n0 (drop j msgs)).
  assert (Hxs : length xs = n0) by (unfold xs; rewrite length_take, length_drop; lia).
  destruct (decide (n ≤ n0)%nat) as [Hle|Hgt].
  - exists n, [End (Some Disconnected)]. split; [lia|]. split; [|by apply tail_error].
    rewrite take_app_le by (rewrite length_fmap; lia).
    rewrite <- fmap_take. unfold xs. by rewrite take_take, Nat.min_l.
  - rewrite take_app_ge by (rewrite length_fmap; lia). rewrite length_fmap, Hxs, <- app_assoc.
    exists n0. destruct Ht as [i e|rest Hd|e rest He].
    + exists [End (Some Disconnected)]. rewrite take_nil. split; [done|]. split; [done|]. by apply tail_error.
    + destruct (n - n0)%nat as [|n'] eqn:En; [lia|]. cbn [take app]. eexists. split; [done|].
      split; [done|]. by apply tail_end.
    + destruct (n - n0)%nat as [|n'] eqn:En; [lia|]. cbn [take app]. eexists. split; [done|].
      split; [done|]. by apply tail_error.
Qed.

Lemma receive_inv l term msgs j it item q w l' p' :
  starts_below maxSize msgs → Z.of_nat (length (version :: body msgs)) ≤ MaxInt64 →
  f_opened l = true → f_maxSize l = maxSize →
  copies l msgs j → stream_ok term msgs j it (item :: q) →
  task_receive wait l item w = (l', p') →
  (f_opened l' = true ∧ f_maxSize l' = maxSize) ∧ phase_inv l' term msgs it q p'.
Proof.
  intros Hs Hmax Hopen Hlm Hl (n & tail & Hn & Hq & Ht) H. destruct n as [|n].
  { rewrite take_0, Nat.add_0_r in *. cbn in Hq. subst tail.
    inversion Ht; subst; cbn in H; simplify_eq; (split; [done|]); [|done].
    destruct wait; exists j; by split. }
  destruct (lookup_lt_is_Some_2 msgs j ltac:(lia)) as [m Hm]. rewrite (drop_S _ _ _ Hm) in Hq.
  cbn in Hq. injection Hq as -> ->. cbn [task_receive] in H. destruct Hl as [Hl Hj].
  pose proof (Hs j ltac:(lia)) as Hbelow. pose proof (f_offset_boundary l _ Hl) as Hoff.
  assert (Hb : f_offset l = boundary msgs j).
  { rewrite Hoff. rewrite length_take, Nat.min_l by lia. unfold boundary. by rewrite take_take, Nat.min_id. }
  pose proof (boundary_S msgs j m Hm) as HS. pose proof (boundary_le msgs (S j)). cbn [length] in Hmax.
  destruct w as [|k []].
  - destruct (Write_all_log l (take j msgs) m) as (l1 & H1 & H2 & H3 & _ & H5); [done..|lia|lia|].
    rewrite H1 in H. simplify_eq. split; [split; [done|congruence]|]. exists (S j). split.
    + split; [by rewrite (take_S_r _ _ m)|lia].
    + exists n, tail. split; [lia|]. split; [done|]. by replace (S j + n)%nat with (j + S n)%nat by lia.
  - destruct (Write_some_log l (take j msgs) m k) as (l1 & H1 & H2 & H3 & _ & H5); [done..|lia|].
    rewrite H1 in H. simplify_eq. split; [split; [done|congruence]|]. done.
  - unfold Write in H. destruct (Z.leb_spec (f_maxSize l) (f_offset l)); [lia|].
    rewrite Hopen in H. by simplify_eq/=.
Qed.

(** *** Every step *)

Lemma phase_inv_stream local term msgs it q it' q' p :
  p ≠ Streaming → phase_inv local term msgs it q p → phase_inv local term msgs it' q' p.
Proof. by destruct p. Qed.

Lemma phase_inv_send local r msgs i q it' items o p :
  file_log r msgs → f_opened r = true → f_maxSize r = maxSize →
  Next_label i r = o ∨ Iterator_Next i r = o → SegmentRead_next o = (it', items) →
  phase_inv local (f_term r) msgs (Some i) q p →
  phase_inv local (f_term r) msgs it' (q ++ items) p.
Proof.
  intros Hr Hro Hmax Ho H Hp. destruct p; try exact Hp. destruct Hp as (j & Hj & Hs).
  exists j. split; [done|]. by eapply send_inv.
Qed.

Lemma finish_inv l term msgs it q j :
  f_opened l = true → copies l msgs j → done_at msgs j →
  phase_inv l term msgs it q (task_finish sha1 l).
Proof.
  intros Hopen Hj Hd. unfold task_finish. rewrite (Sum_log l (take j msgs)) by (done || apply Hj).
  split; [by exists j|done].
Qed.

Lemma step_inv l0 s s' msgs :
  (∀ bytes, sha1 bytes ≠ []) → (∀ bytes, sha1 bytes = sha1 (f_data local0) → bytes = f_data local0) →
  file_log local0 l0 → rep_inv s msgs → replication_step sha1 exists_ wait s s' →
  ∃ more, rep_inv s' (msgs ++ more).
Proof.
  intros Hlen Hcoll Hl0 [Hlog Hold Hopen Hmax Hbelow [Hlo Hlm] Hp] Hstep.
  destruct Hstep as [l r it q p m w r' e Hw Hfits|l r it q known opens dials
    |l r it q sha size answers truncates l' p' H|l r it q size connects it' q' p' H
    |l r i q p it' items H|l r i q p it' items _ _ H|l r it q n|l r it item q w l' p' H
    |l r it q canceled|l r it q|l r it q size sha accepted]; simpl in *.
  { destruct (Write_log r msgs m w r' e) as (more & H1 & H2 & H3 & ->); [done..|].
    destruct (Write_below r msgs m w r' e) as [H4 H5]; [done|by rewrite Hmax|done|].
    rewrite Hmax in H4, H5. eexists. constructor; simpl; try done; [by apply prefix_app_r|].
    rewrite H3. by apply phase_inv_app. }
  all: exists []; rewrite app_nil_r; constructor; simpl; try done.
  - apply (start_inv l l0); by rewrite ?Hp in *.
  - destruct Hp as (-> & -> & ->).
    destruct (resume_inv r l0 msgs answers truncates l' p') as [[H1 H2] _]; [done..|].
    split; [done|congruence].
  - destruct Hp as (-> & -> & ->).
    destruct (resume_inv r l0 msgs answers truncates l' p') as [_ H1]; [done..|]. apply H1.
  - destruct Hp as (k & Hk & Hsize). by eapply request_inv.
  - by eapply (phase_inv_send l r msgs i); [| | | |exact H|]; eauto.
  - by eapply (phase_inv_send l r msgs i); [| | | |exact H|]; eauto.
  - destruct Hp as (j & Hj & Hs). exists j. split; [done|]. by eapply disconnect_inv.
  - destruct Hp as (j & Hj & Hs).
    apply (receive_inv l (f_term r) msgs j it item q w l' p'); try done.
    rewrite <- (log_data _ _ Hlog). apply Hlog.
  - destruct Hp as (j & Hj & Hs).
    apply (receive_inv l (f_term r) msgs j it item q w l' p'); try done.
    rewrite <- (log_data _ _ Hlog). apply Hlog.
  - destruct canceled; [exact I|exact Hp].
  - destruct Hp as (j & Hj & Hd). by eapply finish_inv.
  - destruct accepted; [apply Hp|exact I].
Qed.

End invariant.

(** ** The theorem *)

Definition initial_replication (local remote : File) : replication :=
  {| rp_local := local; rp_remote := remote; rp_iter := None; rp_stream := []; rp_phase := Starting |}.

(** The copy has been compared with the other node. *)
Definition resumed (p : phase) : bool :=
  match p with
  | Truncated _ | Streaming | AwaitClosed | Closing | Reported _ _ | Completed => true
  | _ => false
  end.

(** The stream has ended. *)
Definition streamed (p : phase) : bool :=
  match p with AwaitClosed | Closing | Reported _ _ | Completed => true | _ => false end.

Lemma boundary_inj msgs k :
  (k ≤ length msgs)%nat → boundary msgs k = boundary msgs (length msgs) → k = length msgs.
Proof.
  intros Hk Heq. destruct (decide (k < length msgs)%nat) as [Hlt|]; [|lia].
  destruct (lookup_lt_is_Some_2 msgs k Hlt) as [m Hm]. pose proof (boundary_S msgs k m Hm) as HS.
  pose proof (record_nonempty m). pose proof (boundary_le msgs (S k)).
  rewrite (boundary_all msgs (length msgs)) in Heq by done. lia.
Qed.

Lemma log_unique f m1 m2 : file_log f m1 → file_log f m2 → m1 = m2.
Proof.
  intros H1 H2. pose proof (log_size _ _ H2) as Hsize. rewrite (log_data _ _ H2) in Hsize.
  cbn [length] in Hsize. pose proof (log_data _ _ H1) as Hd. rewrite (log_data _ _ H2) in Hd.
  injection Hd as Hd. destruct (body_prefix m1 m2 []) as (k & Hk & ->);
    [lia|by rewrite app_nil_r|]. apply (f_equal length) in Hd.
  rewrite (boundary_inj m2 k Hk); [by rewrite firstn_all|]. unfold boundary. rewrite firstn_all. lia.
Qed.

Lemma phase_resumed sha1 ex wait local0 r0 maxSize l term msgs it q p :
  phase_inv sha1 ex wait local0 r0 maxSize l term msgs it q p → resumed p = true →
  ∃ j, copies l msgs j.
Proof. destruct p; try done; intros Hp _; simpl in Hp; naive_solver. Qed.

Lemma phase_streamed sha1 ex wait local0 r0 maxSize l term msgs it q p :
  phase_inv sha1 ex wait local0 r0 maxSize l term msgs it q p → streamed p = true →
  ∃ j, copies l msgs j ∧ done_at wait r0 maxSize msgs j.
Proof. destruct p; try done; intros Hp _; simpl in Hp; naive_solver. Qed.

Section replication.
Context (sha1 : list Z → list Z) (exists_ wait : bool) (local0 remote0 : File).
Context (l0 r0 : list (list Z)).
Context (Hsum : ∀ bytes, sha1 bytes ≠ []).
Context (Hcoll : ∀ bytes, sha1 bytes = sha1 (f_data local0) → bytes = f_data local0).
Context (Hl : file_log local0 l0) (Hlo : f_opened local0 = true).
Context (Hr : file_log remote0 r0) (Hro : f_opened remote0 = true).
Context (Hmax : f_maxSize local0 = f_maxSize remote0) (Hbelow : starts_below (f_maxSize remote0) r0).

Lemma replication_inv s :
  rtc (replication_step sha1 exists_ wait) (initial_replication local0 remote0) s →
  ∃ msgs, rep_inv sha1 exists_ wait local0 r0 (f_maxSize remote0) s msgs.
Proof using All.
  apply (rtc_ind_r (λ s, ∃ msgs, rep_inv sha1 exists_ wait local0 r0 (f_maxSize remote0) s msgs)).
  - exists r0. by constructor.
  - intros s1 s2 _ Hstep (msgs & IH).
    destruct (step_inv sha1 exists_ wait local0 r0 (f_maxSize remote0) l0 s1 s2 msgs) as (more & H);
      [done..|]. by exists (msgs ++ more).
Qed.

(** A call that waits has sent everything. *)
Lemma waits_complete s msgs i :
  rep_inv sha1 exists_ wait local0 r0 (f_maxSize remote0) s msgs →
  rp_phase s = Streaming → rp_stream s = [] → rp_iter s = Some i →
  (Iterator_Next i (rp_remote s)).2 = Waits →
  file_log (rp_local s) msgs ∧ f_offset (rp_remote s) < f_maxSize (rp_remote s).
Proof.
  intros Hinv Hph Hq Hi Hw. pose proof (re_phase _ _ _ _ _ _ _ _ Hinv) as Hp.
  rewrite Hph, Hq, Hi in Hp. destruct Hp as (j & Hj & n & tail & Hn & Hstream & Ht).
  symmetry in Hstream. apply app_nil in Hstream as [Hd ->]. apply fmap_nil_inv in Hd.
  inversion Ht as [i0 e Hat He Hti Hci Hwi| |]; subst. unfold Iterator_Next in Hw.
  rewrite Hci, Hti, Z.eqb_refl in Hw. cbn [negb] in Hw.
  destruct (Next_label i (rp_remote s)) as [i' o] eqn:E. cbn in Hw. subst o.
  destruct (Next_label_outcome i (rp_remote s) msgs (j + n) e i' Waits)
    as [(m & e' & _ & ? & _)|[(_ & ? & _)|(<- & _ & -> & H4 & H5)]]; try done; try apply Hinv.
  rewrite (f_offset_boundary _ msgs) in H4 by apply Hinv. symmetry in H4.
  apply (f_equal length) in Hd. rewrite length_take, length_drop in Hd. cbn in Hd.
  apply boundary_inj in H4; [|done]. split; [|done]. apply (copies_all _ _ j); [done|lia].
Qed.

End replication.

(** A replica becomes an exact copy of the segment (C16).  Start the task with any well-formed local
    file and any well-formed file at the other node, and let it run with writers at the other node, the
    handler that streams, lost connections and failing system calls in any order; the checksum is
    assumed not to collide with that of the local file.  Once the copy has been compared it
    holds a prefix of the messages of the other node at all times.  When
    the stream ends, the copy of an open segment ([wait]), or of one that was not written meanwhile, has the
    same bytes, and the size and checksum reported to the leader are those of the other node.
    The task waits only for messages that are not written yet, on a segment that is not full, and it
    fails only by an error of a call or a system call. *)
Theorem replication_exact sha1 exists_ wait local0 remote0 l0 r0 s :
  (∀ bytes, sha1 bytes ≠ []) → (∀ bytes, sha1 bytes = sha1 (f_data local0) → bytes = f_data local0) →
  file_log local0 l0 → f_opened local0 = true → file_log remote0 r0 → f_opened remote0 = true →
  f_maxSize local0 = f_maxSize remote0 → starts_below (f_maxSize remote0) r0 →
  rtc (replication_step sha1 exists_ wait) (initial_replication local0 remote0) s →
  ∃ msgs, file_log (rp_remote s) msgs ∧ r0 `prefix_of` msgs ∧
    (resumed (rp_phase s) = true → ∃ j, file_log (rp_local s) (take j msgs)) ∧
    (streamed (rp_phase s) = true → wait = true ∨ rp_remote s = remote0 →
       f_data (rp_local s) = f_data (rp_remote s) ∧
       ∀ size sha, rp_phase s = Reported size sha →
         Sum (rp_remote s) SumAll = Ok (f_data (rp_remote s), size) ∧
         sha = sha1 (f_data (rp_remote s))) ∧
    (∀ i, rp_phase s = Streaming → rp_stream s = [] → rp_iter s = Some i →
       (Iterator_Next i (rp_remote s)).2 = Waits →
       file_log (rp_local s) msgs ∧ f_offset (rp_remote s) < f_maxSize (rp_remote s)) ∧
    (∀ e, rp_phase s = TaskFailed e → environment exists_ e).
Proof.
  intros Hsum Hcoll Hl Hlo Hr Hro Hmax Hbelow Hrtc.
  destruct (replication_inv sha1 exists_ wait local0 remote0 l0 r0 Hsum Hcoll Hl Hlo Hr Hro Hmax Hbelow
    s Hrtc) as (msgs & Hinv). pose proof Hinv as [H1 H2 H3 H4 H5 H6 H7].
  exists msgs. split; [done|]. split; [done|]. split.
  { intros Hres. destruct (phase_resumed _ _ _ _ _ _ _ _ _ _ _ _ H7 Hres) as (j & Hj & _). by exists j. }
  split; [|split].
  - intros Hst Hall. destruct (phase_streamed _ _ _ _ _ _ _ _ _ _ _ _ H7 Hst) as (j & Hj & [Hj1 Hj2]).
    assert (Hlog : file_log (rp_local s) msgs).
    { apply (copies_all _ _ j Hj). destruct Hall as [Hw|Heq].
      - apply (starts_below_full _ _ _ H5); [lia|auto].
      - rewrite Heq in H1. rewrite (log_unique _ _ _ H1 Hr) in *. lia. }
    assert (Hdata : f_data (rp_local s) = f_data (rp_remote s))
      by (by rewrite (log_data _ _ Hlog), (log_data _ _ H1)).
    split; [done|]. intros size sha Hph. rewrite Hph in H7. destruct H7 as (_ & -> & ->).
    rewrite (Sum_log _ msgs) by done. by rewrite (log_offset _ _ Hlog), (log_offset _ _ H1), Hdata.
  - intros i. by apply (waits_complete sha1 exists_ wait local0 remote0 r0 s msgs i).
  - intros e He. by rewrite He in H7.
Qed.

Definition demo_sha1 (bytes : list Z) : list Z := 0 :: bytes.

Definition demo_full (data : list Z) (offset : Z) : File :=
  {| f_data := data; f_opened := true; f_maxSize := 5; f_offset := offset; f_term := 1 |}.

Lemma replication_exact_witness :
  ∃ s msgs, rp_phase s = Reported 6 [0; 1; 2; 7; 8; 1; 5] ∧ file_log (rp_remote s) msgs ∧
    f_data (rp_local s) = f_data (rp_remote s).
Proof.
  set (local := demo_full [1; 2; 7; 8] 4). set (remote := demo_full [1; 2; 7; 8; 1; 5] 6).
  eexists {| rp_remote := remote; rp_phase := Reported 6 [0; 1; 2; 7; 8; 1; 5] |}.
  edestruct (replication_exact demo_sha1 true true local remote [[7; 8]] [[7; 8]; [5]])
    as (msgs & H1 & _ & _ & H2 & _).
  - intros bytes. discriminate.
  - intros bytes. by intros [= ->].
  - constructor; [reflexivity|reflexivity|vm_compute; discriminate].
  - reflexivity.
  - constructor; [reflexivity|reflexivity|vm_compute; discriminate].
  - reflexivity.
  - reflexivity.
  - intros [|[|k]] Hk; [reflexivity|reflexivity|cbn in Hk; lia].
  - eapply rtc_l; [eapply (step_start demo_sha1 true true) with (known := true) (opens := true) (dials := true)|].
    eapply rtc_l; [eapply (step_resume demo_sha1 true true) with (answers := true) (truncates := true); reflexivity|].
    eapply rtc_l; [eapply (step_request demo_sha1 true true) with (connects := true); reflexivity|].
    eapply rtc_l; [eapply (step_send demo_sha1 true true); reflexivity|].
    eapply rtc_l; [eapply (step_send demo_sha1 true true); reflexivity|].
    eapply rtc_l; [eapply (step_receive demo_sha1 true true) with (w := WroteAll); reflexivity|].
    eapply rtc_l; [eapply (step_receive demo_sha1 true true) with (w := WroteAll); reflexivity|].
    eapply rtc_l; [eapply (step_closed demo_sha1 true true) with (canceled := false)|].
    eapply rtc_l; [eapply (step_finish demo_sha1 true true)|]. apply rtc_refl.
  - exists msgs. split; [reflexivity|]. split; [exact H1|]. apply H2; [reflexivity|by left].
Defined.
