(* ===== verification/NodeLoop.v ===== *)
(** * The loop of a node: tasks and garbage collection

    Models the branches of [Loop] in src/mq/server_loop.go that follow the cluster state: the tick that
    starts and cancels tasks, the branch for a completed task, and the garbage collection of
    local segments; and the bookkeeping of src/mq/tasks.  A task is what [TaskManager.Start]
    returns; what it runs is the subject of other files.  A cluster state comes with the pointer
    the loop compares. *)
From S2P Require Import Prelude Util Emq ClusterState ClusterOps ClusterInv ClusterProps LeaderInv SegmentsDir.

(** ** Tasks *)

Inductive task_run : Type :=
| RunConsumerGroup (namespace name : string) (segmentID : Z)
| RunReplication (segmentID nodeID : Z) (wait : bool).

(** [Task.Data] *)
Inductive task_data : Type :=
| GroupData (name : string)
| SegmentData (id : Z).

Record Task : Type := { task_ID : Z; task_Data : task_data; task_runs : task_run }.

Record NodeLoop : Type := {
  nl_state : option nat; (* the pointer to the last state, [None] is nil *)
  nl_groups : gmap string Task; (* [runningConsumerGroups] *)
  nl_open : gmap Z Task; (* [runningOpenSegmentReplications] *)
  nl_closed : gmap Z Task; (* [runningClosedSegmentReplications] *)
  nl_currentTaskID : Z; (* the counter of the package [tasks] *)
  nl_started : list Task; (* tasks whose completion has not been received *)
  nl_canceled : gset Z; (* tasks whose [Cancel] was called *)
}.

Definition set_groups (l : NodeLoop) (m : gmap string Task) : NodeLoop :=
  {| nl_state := nl_state l; nl_groups := m; nl_open := nl_open l; nl_closed := nl_closed l;
     nl_currentTaskID := nl_currentTaskID l; nl_started := nl_started l; nl_canceled := nl_canceled l |}.
Definition set_open (l : NodeLoop) (m : gmap Z Task) : NodeLoop :=
  {| nl_state := nl_state l; nl_groups := nl_groups l; nl_open := m; nl_closed := nl_closed l;
     nl_currentTaskID := nl_currentTaskID l; nl_started := nl_started l; nl_canceled := nl_canceled l |}.
Definition set_closed (l : NodeLoop) (m : gmap Z Task) : NodeLoop :=
  {| nl_state := nl_state l; nl_groups := nl_groups l; nl_open := nl_open l; nl_closed := m;
     nl_currentTaskID := nl_currentTaskID l; nl_started := nl_started l; nl_canceled := nl_canceled l |}.
Definition set_pointer (l : NodeLoop) (p : option nat) : NodeLoop :=
  {| nl_state := p; nl_groups := nl_groups l; nl_open := nl_open l; nl_closed := nl_closed l;
     nl_currentTaskID := nl_currentTaskID l; nl_started := nl_started l; nl_canceled := nl_canceled l |}.

(** [TaskManager.Start] *)
Definition Start (l : NodeLoop) (run : task_run) (data : task_data) : NodeLoop * Task :=
  let task := {| task_ID := u64 (nl_currentTaskID l + 1); task_Data := data; task_runs := run |} in
  ({| nl_state := nl_state l; nl_groups := nl_groups l; nl_open := nl_open l; nl_closed := nl_closed l;
      nl_currentTaskID := task_ID task; nl_started := nl_started l ++ [task];
      nl_canceled := nl_canceled l |}, task).

(** The loops that cancel what is not wanted any more. *)
Definition cancel_unwanted {K} `{Countable K} (l : NodeLoop) (running : gmap K Task) (wanted : gset K) :
    NodeLoop :=
  {| nl_state := nl_state l; nl_groups := nl_groups l; nl_open := nl_open l; nl_closed := nl_closed l;
     nl_currentTaskID := nl_currentTaskID l; nl_started := nl_started l;
     nl_canceled := list_to_set (task_ID <$>
         (List.filter (λ p, negb (bool_decide (p.1 ∈ wanted))) (map_to_list running)).*2) ∪
       nl_canceled l |}.

(** ** The tick *)

Section tick.
Context (nodeID : Z) (Intn : nat → nat).

Definition group_name (segment : ClusterSegment) : string :=
  seg_OwnerNamespace segment +:+ "/" +:+ seg_OwnerName segment.

(** This node keeps the offsets of a consumer group. *)
Definition runs_group (segment : ClusterSegment) : bool :=
  bool_decide (seg_Type segment = ClusterSegment_CONSUMER_GROUP_OFFSET_COMMITS) &&
  (PrimaryNodeID (seg_Nodes segment) =? nodeID).

Definition group_tick (l : NodeLoop) (segment : ClusterSegment) : NodeLoop :=
  if runs_group segment then
    let name := group_name segment in
    match nl_groups l !! name with
    | Some _ => l
    | None =>
      let '(l, task) := Start l (RunConsumerGroup (seg_OwnerNamespace segment) (seg_OwnerName segment)
                                   (seg_ID segment)) (GroupData name) in
      set_groups l (<[name := task]> (nl_groups l))
    end
  else l.

(** The loop over [ReplicatingNodeIDs] of an open segment. *)
Fixpoint open_replicas_tick (l : NodeLoop) (segment : ClusterSegment) (ids : list Z) : NodeLoop :=
  match ids with
  | [] => l
  | id :: ids =>
    let l :=
      if id =? nodeID then
        match nl_open l !! seg_ID segment with
        | Some _ => l
        | None =>
          let '(l, task) := Start l (RunReplication (seg_ID segment)
                                       (PrimaryNodeID (seg_Nodes segment)) true)
                                  (SegmentData (seg_ID segment)) in
          set_open l (<[seg_ID segment := task]> (nl_open l))
        end
      else l in
    open_replicas_tick l segment ids
  end.

(** The same for a closed segment, which is copied from a random complete replica. *)
Fixpoint closed_replicas_tick (l : NodeLoop) (segment : ClusterSegment) (ids : list Z) :
    result Empty_set NodeLoop :=
  match ids with
  | [] => Ok l
  | id :: ids =>
    l ←
      if id =? nodeID then
        match nl_closed l !! seg_ID segment with
        | Some _ => Ok l
        | None =>
          let done := DoneNodeIDs (seg_Nodes segment) in
          match done !! Intn (length done) with
          | None => Panic "invalid argument to Intn"
          | Some source =>
            let '(l, task) := Start l (RunReplication (seg_ID segment) source false)
                                    (SegmentData (seg_ID segment)) in
            Ok (set_closed l (<[seg_ID segment := task]> (nl_closed l)))
          end
        end
      else Ok l;
    closed_replicas_tick l segment ids
  end.

Definition open_tick (l : NodeLoop) (segment : ClusterSegment) : NodeLoop :=
  open_replicas_tick (group_tick l segment) segment (ReplicatingNodeIDs (seg_Nodes segment)).

Fixpoint closed_tick (l : NodeLoop) (segments : list ClusterSegment) : result Empty_set NodeLoop :=
  match segments with
  | [] => Ok l
  | segment :: segments =>
    l ← closed_replicas_tick l segment (ReplicatingNodeIDs (seg_Nodes segment));
    closed_tick l segments
  end.

(** This node copies the segment. *)
Definition replicates (segment : ClusterSegment) : bool :=
  bool_decide (nodeID ∈ ReplicatingNodeIDs (seg_Nodes segment)).

(** [consumerGroups], [replicatingOpenSegmentIDs] and [replicatingClosedSegmentIDs] at the end of
    their loops. *)
Definition wanted_groups (state : ClusterState) : gset string :=
  list_to_set (group_name <$> List.filter runs_group (OpenSegments state)).
Definition wanted_copies (segments : list ClusterSegment) : gset Z :=
  list_to_set (seg_ID <$> List.filter replicates segments).

(** The branch for a tick of the node. *)
Definition node_tick (l : NodeLoop) (pointer : nat) (state : ClusterState) : result Empty_set NodeLoop :=
  if bool_decide (nl_state l = Some pointer) then Ok l
  else
    let l := set_pointer l (Some pointer) in
    let l := foldl open_tick l (OpenSegments state) in
    let l := cancel_unwanted l (nl_open l) (wanted_copies (OpenSegments state)) in
    let l := cancel_unwanted l (nl_groups l) (wanted_groups state) in
    l ← closed_tick l (ClosedSegments state);
    Ok (cancel_unwanted l (nl_closed l) (wanted_copies (ClosedSegments state))).

(** The branch for a completed task. *)
Definition forget {K} `{Countable K} (running : gmap K Task) (key : K) (id : Z) : gmap K Task :=
  match running !! key with
  | Some task => if id =? task_ID task then delete key running else running
  | None => running
  end.

Definition task_completed (l : NodeLoop) (task : Task) (failed : bool) : NodeLoop :=
  let l :=
    match task_Data task with
    | GroupData name => set_groups l (forget (nl_groups l) name (task_ID task))
    | SegmentData id =>
      let l := set_open l (forget (nl_open l) id (task_ID task)) in
      set_closed l (forget (nl_closed l) id (task_ID task))
    end in
  let l := {| nl_state := nl_state l; nl_groups := nl_groups l; nl_open := nl_open l;
              nl_closed := nl_closed l; nl_currentTaskID := nl_currentTaskID l;
              nl_started := List.filter (λ t, negb (task_ID t =? task_ID task)) (nl_started l);
              nl_canceled := nl_canceled l |} in
  if failed then set_pointer l None else l.

(** ** Garbage collection *)

(** The node has or copies the segment. *)
Definition on_node (segment : ClusterSegment) : bool :=
  (PrimaryNodeID (seg_Nodes segment) =? nodeID) ||
  bool_decide (nodeID ∈ ReplicatingNodeIDs (seg_Nodes segment)) ||
  bool_decide (nodeID ∈ DoneNodeIDs (seg_Nodes segment)).

Definition active_segments (state : ClusterState) : gset Z :=
  list_to_set (seg_ID <$> List.filter on_node (OpenSegments state ++ ClosedSegments state)).

(** The loop over the files; [outcome] tells for each of them whether the system calls succeed. *)
Fixpoint collect (active : gset Z) (infos : list FileInfo) (outcome : Z → bool * bool) (d : Dir) : Dir :=
  match infos with
  | [] => d
  | info :: infos =>
    collect active infos outcome
      (if bool_decide (info_ID info ∈ active) then d
       else if 0 <? info_ReferenceCount info then d
       else (Remove d (info_ID info) (outcome (info_ID info)).1 (outcome (info_ID info)).2).1)
  end.

(** The branch for the garbage collection; [state] was read before the directory is walked. *)
Definition garbage_collect (state : ClusterState) (dirName : string) (walk : option (list Z))
    (outcome : Z → bool * bool) (d : Dir) : Dir :=
  match walk with
  | None => d
  | Some walk => collect (active_segments state) (Dir_List d dirName walk) outcome d
  end.

End tick.

(** ** The invariant of the tables *)

(** The table that holds a task, by what it runs. *)
Definition registered (l : NodeLoop) (t : Task) : Prop :=
  match task_Data t, task_runs t with
  | GroupData k, RunConsumerGroup ns name _ => nl_groups l !! k = Some t ∧ k = ns +:+ "/" +:+ name
  | SegmentData k, RunReplication id _ true => nl_open l !! k = Some t ∧ k = id
  | SegmentData k, RunReplication id _ false => nl_closed l !! k = Some t ∧ k = id
  | _, _ => False
  end.

(** The tables hold exactly the tasks that have not been reported as completed. *)
Record loop_inv (l : NodeLoop) : Prop := {
  ln_ids : NoDup (task_ID <$> nl_started l);
  ln_counter : 0 ≤ nl_currentTaskID l ≤ MaxUint64 ∧
    ∀ t, t ∈ nl_started l → 0 < task_ID t ≤ nl_currentTaskID l;
  ln_registered : ∀ t, t ∈ nl_started l → registered l t;
  ln_groups : ∀ k t, nl_groups l !! k = Some t →
    t ∈ nl_started l ∧ task_Data t = GroupData k ∧ ∃ ns name id, task_runs t = RunConsumerGroup ns name id;
  ln_open : ∀ k t, nl_open l !! k = Some t →
    t ∈ nl_started l ∧ task_Data t = SegmentData k ∧ ∃ node, task_runs t = RunReplication k node true;
  ln_closed : ∀ k t, nl_closed l !! k = Some t →
    t ∈ nl_started l ∧ task_Data t = SegmentData k ∧ ∃ node, task_runs t = RunReplication k node false;
}.

Lemma same_task l t t' : loop_inv l → t ∈ nl_started l → t' ∈ nl_started l → task_ID t = task_ID t' → t = t'.
Proof.
  intros Hinv [i Hi]%list_elem_of_lookup [j Hj]%list_elem_of_lookup Heq.
  assert (i = j) as ->; [|congruence]. eapply NoDup_lookup; [apply (ln_ids l Hinv)| |];
    rewrite list_lookup_fmap; [by rewrite Hi|by rewrite Hj, Heq].
Qed.

(** *** Starting a task *)

Lemma Start_ids l run data :
  loop_inv l → nl_currentTaskID l < MaxUint64 →
  let '(l', t) := Start l run data in
  nl_currentTaskID l' = nl_currentTaskID l + 1 ∧ task_ID t = nl_currentTaskID l + 1 ∧
  NoDup (task_ID <$> nl_started l') ∧ 0 ≤ nl_currentTaskID l' ≤ MaxUint64 ∧
  (∀ t, t ∈ nl_started l' → 0 < task_ID t ≤ nl_currentTaskID l').
Proof.
  intros Hinv Hmax. pose proof (ln_counter l Hinv) as [Hc Hids]. cbn.
  assert (Hid : u64 (nl_currentTaskID l + 1) = nl_currentTaskID l + 1).
  { apply Z.mod_small. unfold MaxUint64 in *. lia. }
  rewrite Hid. split_and!; try done; try lia.
  - rewrite fmap_app. apply NoDup_app. split; [apply Hinv|]. split; [|apply NoDup_singleton].
    intros id (t & -> & Ht)%list_elem_of_fmap. apply Hids in Ht. cbn.
    rewrite list_elem_of_singleton. lia.
  - intros t [Ht| ->%list_elem_of_singleton]%elem_of_app; [apply Hids in Ht|cbn]; lia.
Qed.

Section start.
Context (l : NodeLoop) (Hinv : loop_inv l) (Hmax : nl_currentTaskID l < MaxUint64).

Lemma start_group_inv ns name id :
  let k := ns +:+ "/" +:+ name in
  let '(l', t) := Start l (RunConsumerGroup ns name id) (GroupData k) in
  nl_groups l !! k = None → loop_inv (set_groups l' (<[k := t]> (nl_groups l'))).
Proof using Hinv Hmax.
  intros k. pose proof (Start_ids l (RunConsumerGroup ns name id) (GroupData k) Hinv Hmax) as Hs.
  cbn [Start] in *. intros Hk. destruct Hs as (_ & _ & H1 & H2 & H3). constructor; simpl; [done|done| | | |].
  - intros t [Ht| ->%list_elem_of_singleton]%elem_of_app; cbn; [|by rewrite lookup_insert_eq].
    apply (ln_registered l Hinv) in Ht. unfold registered in *. simpl.
    destruct (task_Data t) as [k'|k'], (task_runs t) as [ns' name' id'|id' node []]; try done.
    destruct Ht as [Ht ->]. split; [|done]. rewrite lookup_insert_ne; [done|]. intros Heq. by rewrite <- Heq in Ht; simplify_eq.
  - intros k' t [[<- <-]|[_ Ht]]%lookup_insert_Some; [set_solver|].
    apply (ln_groups l Hinv) in Ht. set_solver.
  - intros k' t Ht%(ln_open l Hinv). set_solver.
  - intros k' t Ht%(ln_closed l Hinv). set_solver.
Qed.

Lemma start_open_inv k node :
  let '(l', t) := Start l (RunReplication k node true) (SegmentData k) in
  nl_open l !! k = None → loop_inv (set_open l' (<[k := t]> (nl_open l'))).
Proof using Hinv Hmax.
  pose proof (Start_ids l (RunReplication k node true) (SegmentData k) Hinv Hmax) as Hs.
  cbn [Start] in *. intros Hk. destruct Hs as (_ & _ & H1 & H2 & H3). constructor; simpl; [done|done| | | |].
  - intros t [Ht| ->%list_elem_of_singleton]%elem_of_app; cbn; [|by rewrite lookup_insert_eq].
    apply (ln_registered l Hinv) in Ht. unfold registered in *. simpl.
    destruct (task_Data t) as [k'|k'], (task_runs t) as [ns' name' id'|id' node' []]; try done.
    destruct Ht as [Ht ->]. split; [|done]. rewrite lookup_insert_ne; [done|]. intros ->. congruence.
  - intros k' t Ht%(ln_groups l Hinv). set_solver.
  - intros k' t [[<- <-]|[_ Ht]]%lookup_insert_Some; [set_solver|].
    apply (ln_open l Hinv) in Ht. set_solver.
  - intros k' t Ht%(ln_closed l Hinv). set_solver.
Qed.

Lemma start_closed_inv k node :
  let '(l', t) := Start l (RunReplication k node false) (SegmentData k) in
  nl_closed l !! k = None → loop_inv (set_closed l' (<[k := t]> (nl_closed l'))).
Proof using Hinv Hmax.
  pose proof (Start_ids l (RunReplication k node false) (SegmentData k) Hinv Hmax) as Hs.
  cbn [Start] in *. intros Hk. destruct Hs as (_ & _ & H1 & H2 & H3). constructor; simpl; [done|done| | | |].
  - intros t [Ht| ->%list_elem_of_singleton]%elem_of_app; cbn; [|by rewrite lookup_insert_eq].
    apply (ln_registered l Hinv) in Ht. unfold registered in *. simpl.
    destruct (task_Data t) as [k'|k'], (task_runs t) as [ns' name' id'|id' node' []]; try done.
    destruct Ht as [Ht ->]. split; [|done]. rewrite lookup_insert_ne; [done|]. intros ->. congruence.
  - intros k' t Ht%(ln_groups l Hinv). set_solver.
  - intros k' t Ht%(ln_open l Hinv). set_solver.
  - intros k' t [[<- <-]|[_ Ht]]%lookup_insert_Some; [set_solver|].
    apply (ln_closed l Hinv) in Ht. set_solver.
Qed.

End start.

(** *** The loops that start tasks *)

(** [l'] has what [l] has and at most [n] new tasks, all of them wanted. *)
Record grown (wg : gset string) (wo wc : gset Z) (n : Z) (l l' : NodeLoop) : Prop := {
  gr_inv : loop_inv l';
  gr_current : nl_currentTaskID l' ≤ nl_currentTaskID l + n;
  gr_state : nl_state l' = nl_state l;
  gr_canceled : nl_canceled l' = nl_canceled l;
  gr_groups : nl_groups l ⊆ nl_groups l' ∧ dom (nl_groups l') ⊆ dom (nl_groups l) ∪ wg;
  gr_open : nl_open l ⊆ nl_open l' ∧ dom (nl_open l') ⊆ dom (nl_open l) ∪ wo;
  gr_closed : nl_closed l ⊆ nl_closed l' ∧ dom (nl_closed l') ⊆ dom (nl_closed l) ∪ wc;
}.

Lemma grown_refl wg wo wc n l : 0 ≤ n → loop_inv l → grown wg wo wc n l l.
Proof. intros Hn Hl. split; try done; try (split; [done|set_solver]). lia. Qed.

Lemma grown_trans wg wo wc n n' l l' l'' :
  grown wg wo wc n l l' → grown wg wo wc n' l' l'' → grown wg wo wc (n + n') l l''.
Proof.
  intros [H1 H2 H3 H4 [H5 H5'] [H6 H6'] [H7 H7']] [G1 G2 G3 G4 [G5 G5'] [G6 G6'] [G7 G7']].
  split; [done|lia|congruence|congruence|..]; (split; [by etrans|set_solver]).
Qed.

Lemma grown_mono wg wo wc wg' wo' wc' n l l' :
  wg ⊆ wg' → wo ⊆ wo' → wc ⊆ wc' → grown wg wo wc n l l' → grown wg' wo' wc' n l l'.
Proof.
  intros Hg Ho Hc [H1 H2 H3 H4 [H5 H5'] [H6 H6'] [H7 H7']].
  split; try done; (split; [done|set_solver]).
Qed.

Lemma grown_some {K} `{Countable K} (m m' : gmap K Task) k : m ⊆ m' → is_Some (m !! k) → is_Some (m' !! k).
Proof. intros Hsub [t Ht]. exists t. by eapply lookup_weaken. Qed.

Section ticks.
Context (nodeID : Z) (Intn : nat → nat).

Lemma group_tick_spec l segment :
  loop_inv l → nl_currentTaskID l + 1 ≤ MaxUint64 →
  let l' := group_tick nodeID l segment in
  grown (list_to_set (group_name <$> List.filter (runs_group nodeID) [segment])) ∅ ∅ 1 l l' ∧
  (runs_group nodeID segment = true → is_Some (nl_groups l' !! group_name segment)).
Proof.
  intros Hl Hmax. cbv zeta. unfold group_tick. cbn [List.filter].
  destruct (runs_group nodeID segment); [|split; [by apply grown_refl|done]].
  destruct (nl_groups l !! group_name segment) as [t|] eqn:E.
  { split; [by apply grown_refl|intros _; by rewrite E]. }
  pose proof (start_group_inv l Hl ltac:(lia) (seg_OwnerNamespace segment) (seg_OwnerName segment)
    (seg_ID segment)) as Hs.
  pose proof (Start_ids l (RunConsumerGroup (seg_OwnerNamespace segment) (seg_OwnerName segment)
    (seg_ID segment)) (GroupData (group_name segment)) Hl ltac:(lia)) as Hi.
  cbn [Start] in *. specialize (Hs E). destruct Hi as (Hi & _).
  split; [|intros _; cbn; by rewrite lookup_insert_eq].
  split; [exact Hs|cbn in *; lia|done|done| | |]; cbn; [|by split; [|set_solver]..].
  split; [by apply insert_subseteq|]. rewrite dom_insert_L. set_solver.
Qed.

Lemma open_replicas_running l segment ids :
  is_Some (nl_open l !! seg_ID segment) → open_replicas_tick nodeID l segment ids = l.
Proof.
  intros [t Ht]. induction ids as [|id ids IH]; [done|]. cbn [open_replicas_tick]. rewrite Ht.
  by destruct (id =? nodeID).
Qed.

Lemma open_replicas_spec l segment ids :
  loop_inv l → nl_currentTaskID l + 1 ≤ MaxUint64 →
  let l' := open_replicas_tick nodeID l segment ids in
  grown ∅ (if bool_decide (nodeID ∈ ids) then {[seg_ID segment]} else ∅) ∅ 1 l l' ∧
  (nodeID ∈ ids → is_Some (nl_open l' !! seg_ID segment)).
Proof.
  intros Hl Hmax. cbv zeta. induction ids as [|id ids [IH1 IH2]]; cbn [open_replicas_tick].
  { split; [by apply grown_refl|by intros ?%elem_of_nil]. }
  destruct (Z.eqb_spec id nodeID) as [->|Hne].
  2:{ split; [|set_solver]. eapply grown_mono; [..|exact IH1]; try done.
      repeat case_bool_decide; set_solver. }
  rewrite bool_decide_true by set_solver.
  destruct (nl_open l !! seg_ID segment) as [t|] eqn:E.
  { rewrite open_replicas_running by done. split; [by apply grown_refl|intros _; by rewrite E]. }
  pose proof (start_open_inv l Hl ltac:(lia) (seg_ID segment) (PrimaryNodeID (seg_Nodes segment))) as Hs.
  pose proof (Start_ids l (RunReplication (seg_ID segment) (PrimaryNodeID (seg_Nodes segment)) true)
    (SegmentData (seg_ID segment)) Hl ltac:(lia)) as Hi.
  cbn [Start] in *. specialize (Hs E). destruct Hi as (Hi & _).
  rewrite open_replicas_running by (cbn; by rewrite lookup_insert_eq).
  split; [|intros _; cbn; by rewrite lookup_insert_eq].
  split; [exact Hs|cbn in *; lia|done|done| | |]; cbn; [by split; [|set_solver]| |by split; [|set_solver]].
  split; [by apply insert_subseteq|]. rewrite dom_insert_L. set_solver.
Qed.

Lemma closed_replicas_running l segment ids :
  is_Some (nl_closed l !! seg_ID segment) → closed_replicas_tick nodeID Intn l segment ids = Ok l.
Proof.
  intros [t Ht]. induction ids as [|id ids IH]; [done|]. cbn [closed_replicas_tick]. rewrite Ht.
  by destruct (id =? nodeID).
Qed.

Lemma closed_replicas_spec l segment ids :
  (∀ n, (0 < n)%nat → (Intn n < n)%nat) → DoneNodeIDs (seg_Nodes segment) ≠ [] →
  loop_inv l → nl_currentTaskID l + 1 ≤ MaxUint64 →
  ∃ l', closed_replicas_tick nodeID Intn l segment ids = Ok l' ∧
    grown ∅ ∅ (if bool_decide (nodeID ∈ ids) then {[seg_ID segment]} else ∅) 1 l l' ∧
    (nodeID ∈ ids → is_Some (nl_closed l' !! seg_ID segment)).
Proof.
  intros Hrand Hdone Hl Hmax. induction ids as [|id ids (l' & IH0 & IH1 & IH2)]; cbn [closed_replicas_tick].
  { eexists. split; [done|]. split; [by apply grown_refl|by intros ?%elem_of_nil]. }
  destruct (Z.eqb_spec id nodeID) as [->|Hne].
  2:{ exists l'. split; [done|]. split; [|set_solver]. eapply grown_mono; [..|exact IH1]; try done.
      repeat case_bool_decide; set_solver. }
  rewrite bool_decide_true by set_solver.
  destruct (nl_closed l !! seg_ID segment) as [t|] eqn:E.
  { exists l. cbn [mbind result_bind]. rewrite closed_replicas_running by done.
    split; [done|]. split; [by apply grown_refl|intros _; by rewrite E]. }
  cbv zeta. destruct (lookup_lt_is_Some_2 (DoneNodeIDs (seg_Nodes segment))
    (Intn (length (DoneNodeIDs (seg_Nodes segment))))) as [source Hsource].
  { apply Hrand. destruct (DoneNodeIDs _); [done|cbn; lia]. }
  rewrite Hsource. pose proof (start_closed_inv l Hl ltac:(lia) (seg_ID segment) source) as Hs.
  pose proof (Start_ids l (RunReplication (seg_ID segment) source false)
    (SegmentData (seg_ID segment)) Hl ltac:(lia)) as Hi.
  cbn [Start] in *. specialize (Hs E). destruct Hi as (Hi & _). cbn [mbind result_bind].
  rewrite closed_replicas_running by (cbn; by rewrite lookup_insert_eq).
  eexists. split; [done|]. split; [|intros _; cbn; by rewrite lookup_insert_eq].
  split; [exact Hs|cbn in *; lia|done|done| | |]; cbn; [by split; [|set_solver]..|].
  split; [by apply insert_subseteq|]. rewrite dom_insert_L. set_solver.
Qed.

(** *** The tick *)

Definition group_names (segments : list ClusterSegment) : gset string :=
  list_to_set (group_name <$> List.filter (runs_group nodeID) segments).

Lemma group_names_cons x segments : group_names (x :: segments) = group_names [x] ∪ group_names segments.
Proof. unfold group_names. cbn [List.filter]. destruct (runs_group nodeID x); set_solver. Qed.

Lemma wanted_copies_cons x segments :
  wanted_copies nodeID (x :: segments) =
  (if bool_decide (nodeID ∈ ReplicatingNodeIDs (seg_Nodes x)) then {[seg_ID x]} else ∅) ∪
  wanted_copies nodeID segments.
Proof.
  unfold wanted_copies, replicates. cbn [List.filter]. by case_bool_decide; set_solver.
Qed.

Lemma open_tick_spec segments : ∀ l,
  loop_inv l → nl_currentTaskID l + 2 * Z.of_nat (length segments) ≤ MaxUint64 →
  let l' := foldl (open_tick nodeID) l segments in
  grown (group_names segments) (wanted_copies nodeID segments) ∅ (2 * Z.of_nat (length segments)) l l' ∧
  group_names segments ⊆ dom (nl_groups l') ∧ wanted_copies nodeID segments ⊆ dom (nl_open l').
Proof.
  induction segments as [|x segments IH]; intros l Hl Hmax; cbv zeta.
  { split; [by apply grown_refl|]. split; [done|done]. }
  cbn [foldl length] in *. set (l2 := open_tick nodeID l x).
  destruct (group_tick_spec l x Hl ltac:(lia)) as [G1 G2]. fold (group_names [x]) in G1.
  pose proof (gr_current _ _ _ _ _ _ G1) as C1.
  destruct (open_replicas_spec (group_tick nodeID l x) x (ReplicatingNodeIDs (seg_Nodes x)))
    as [O1 O2]; [apply G1|lia|]. fold (open_tick nodeID l x) in O1, O2. fold l2 in O1, O2.
  pose proof (gr_current _ _ _ _ _ _ O1) as C2.
  destruct (IH l2) as (I1 & I2 & I3); [apply O1|lia|]. set (l3 := foldl (open_tick nodeID) l2 segments) in *.
  rewrite group_names_cons, wanted_copies_cons. split; [|split].
  - replace (2 * Z.of_nat (S (length segments))) with (1 + (1 + 2 * Z.of_nat (length segments))) by lia.
    apply (grown_trans _ _ _ _ _ l (group_tick nodeID l x) l3);
      [|apply (grown_trans _ _ _ _ _ (group_tick nodeID l x) l2 l3)].
    + eapply grown_mono; [..|exact G1]; set_solver.
    + eapply grown_mono; [..|exact O1]; set_solver.
    + eapply grown_mono; [..|exact I1]; set_solver.
  - apply union_subseteq. split; [|done]. intros k. unfold group_names. cbn [List.filter].
    destruct (runs_group nodeID x) eqn:E; [|set_solver]. cbn. rewrite elem_of_union, elem_of_singleton. intros [->|?%elem_of_empty]; [|done].
    apply elem_of_dom. apply (grown_some (nl_groups l2)); [apply I1|].
    apply (grown_some (nl_groups (group_tick nodeID l x))); [apply O1|]. by apply G2.
  - apply union_subseteq. split; [|done]. case_bool_decide as E; [|set_solver].
    intros k ->%elem_of_singleton. apply elem_of_dom, (grown_some (nl_open l2)); [apply I1|]. by apply O2.
Qed.

Lemma closed_tick_spec segments : ∀ l,
  (∀ n, (0 < n)%nat → (Intn n < n)%nat) → (∀ x, x ∈ segments → DoneNodeIDs (seg_Nodes x) ≠ []) →
  loop_inv l → nl_currentTaskID l + Z.of_nat (length segments) ≤ MaxUint64 →
  ∃ l', closed_tick nodeID Intn l segments = Ok l' ∧
    grown ∅ ∅ (wanted_copies nodeID segments) (Z.of_nat (length segments)) l l' ∧
    wanted_copies nodeID segments ⊆ dom (nl_closed l').
Proof.
  induction segments as [|x segments IH]; intros l Hrand Hdone Hl Hmax; cbn [closed_tick].
  { eexists. split; [done|]. split; [by apply grown_refl|done]. }
  cbn [length] in *.
  destruct (closed_replicas_spec l x (ReplicatingNodeIDs (seg_Nodes x))) as (l2 & -> & O1 & O2);
    [done|apply Hdone; left|done|lia|]. cbn [mbind result_bind].
  pose proof (gr_current _ _ _ _ _ _ O1) as C2.
  destruct (IH l2) as (l3 & -> & I1 & I2); [done|intros y Hy; apply Hdone; by right|apply O1|lia|].
  exists l3. split; [done|]. rewrite wanted_copies_cons. split.
  - replace (Z.of_nat (S (length segments))) with (1 + Z.of_nat (length segments)) by lia.
    apply (grown_trans _ _ _ _ _ l l2 l3).
    + eapply grown_mono; [..|exact O1]; set_solver.
    + eapply grown_mono; [..|exact I1]; set_solver.
  - apply union_subseteq. split; [|done]. case_bool_decide as E; [|set_solver].
    intros k ->%elem_of_singleton. apply elem_of_dom, (grown_some (nl_closed l2)); [apply I1|]. by apply O2.
Qed.

(** What holds of a table after the tick. *)
Definition table_ok {K} `{Countable K} (wanted : gset K) (canceled canceled' : gset Z)
    (running running' : gmap K Task) : Prop :=
  wanted ⊆ dom running' ∧ running ⊆ running' ∧
  ∀ k t, running' !! k = Some t →
    (k ∉ wanted → task_ID t ∈ canceled' ∧ running !! k = Some t) ∧
    (k ∈ wanted → task_ID t ∈ canceled' → task_ID t ∈ canceled).

Lemma elem_of_unwanted {K} `{Countable K} (running : gmap K Task) (wanted : gset K) id :
  id ∈ (list_to_set (task_ID <$> (List.filter (λ p, negb (bool_decide (p.1 ∈ wanted)))
    (map_to_list running)).*2) : gset Z) ↔
  ∃ k t, running !! k = Some t ∧ k ∉ wanted ∧ task_ID t = id.
Proof.
  rewrite elem_of_list_to_set, list_elem_of_fmap. split.
  - intros (t & -> & ([k t'] & -> & [Hw Hin]%elem_of_bfilter)%list_elem_of_fmap).
    exists k, t'. split_and!; [by apply elem_of_map_to_list| |done].
    cbn in Hw. by case_bool_decide.
  - intros (k & t & Ht & Hk & <-). exists t. split; [done|]. apply list_elem_of_fmap. exists (k, t).
    split; [done|]. apply elem_of_bfilter. split; [|by apply elem_of_map_to_list].
    cbn. by rewrite bool_decide_false.
Qed.

Lemma cancel_inv {K} `{Countable K} l (running : gmap K Task) wanted :
  loop_inv l → loop_inv (cancel_unwanted l running wanted).
Proof. intros []. by split. Qed.

(** Two entries with the same identifier are the same entry of the same table. *)
Ltac same_entry Hinv H H' Heq :=
  first [apply (ln_groups _ Hinv) in H|apply (ln_open _ Hinv) in H|apply (ln_closed _ Hinv) in H];
  first [apply (ln_groups _ Hinv) in H'|apply (ln_open _ Hinv) in H'|apply (ln_closed _ Hinv) in H'];
  let Hi := fresh in let Hi' := fresh in let Hd := fresh in let Hd' := fresh in
  let Hr := fresh in let Hr' := fresh in let Ht := fresh in
  destruct H as (Hi & Hd & Hr); destruct H' as (Hi' & Hd' & Hr');
  pose proof (same_task _ _ _ Hinv Hi Hi' Heq) as Ht; rewrite Ht in *; rewrite Hd in Hd';
  first [discriminate Hd'
        |injection Hd' as <-;
         first [contradiction|destruct Hr as [? Hr]; destruct Hr' as [? Hr']; congruence]].

Lemma table_same {K} `{Countable K} (m m' : gmap K Task) :
  m ⊆ m' ∧ dom m' ⊆ dom m ∪ ∅ → m' = m.
Proof.
  intros [Hsub Hdom]. apply map_eq. intros k. destruct (m !! k) as [t|] eqn:E.
  - by eapply lookup_weaken.
  - apply not_elem_of_dom. apply not_elem_of_dom in E. set_solver.
Qed.

(** A table after its loop, and identifiers canceled in it or elsewhere. *)
Lemma table_ok_intro {K} `{Countable K} (wanted : gset K) (canceled canceled' : gset Z)
    (running running' : gmap K Task) :
  wanted ⊆ dom running' → running ⊆ running' → dom running' ⊆ dom running ∪ wanted →
  (∀ k t, running' !! k = Some t → k ∉ wanted → task_ID t ∈ canceled') →
  (∀ k t, running' !! k = Some t → k ∈ wanted → task_ID t ∈ canceled' → task_ID t ∈ canceled) →
  table_ok wanted canceled canceled' running running'.
Proof.
  intros H1 H2 H3 H4 H5. split; [done|]. split; [done|]. intros k t Hk.
  split; [|by eauto]. intros Hw. split; [by eauto|].
  assert (Hdom : k ∈ dom running). { apply elem_of_dom_2 in Hk. set_solver. }
  apply elem_of_dom in Hdom as [t' Ht']. pose proof (lookup_weaken _ _ _ _ Ht' H2). congruence.
Qed.

Lemma node_tick_spec l pointer state :
  (∀ n, (0 < n)%nat → (Intn n < n)%nat) → loop_inv l → leader_inv state →
  nl_currentTaskID l + 2 * Z.of_nat (length (OpenSegments state)) +
    Z.of_nat (length (ClosedSegments state)) ≤ MaxUint64 →
  nl_state l ≠ Some pointer →
  ∃ l', node_tick nodeID Intn l pointer state = Ok l' ∧ loop_inv l' ∧ nl_state l' = Some pointer ∧
    table_ok (wanted_groups nodeID state) (nl_canceled l) (nl_canceled l') (nl_groups l) (nl_groups l') ∧
    table_ok (wanted_copies nodeID (OpenSegments state)) (nl_canceled l) (nl_canceled l')
      (nl_open l) (nl_open l') ∧
    table_ok (wanted_copies nodeID (ClosedSegments state)) (nl_canceled l) (nl_canceled l')
      (nl_closed l) (nl_closed l').
Proof.
  intros Hrand Hl Hst Hmax Hp. unfold node_tick. rewrite bool_decide_false by done. cbv zeta.
  assert (Hl1 : loop_inv (set_pointer l (Some pointer))) by (destruct Hl; by split).
  destruct (open_tick_spec (OpenSegments state) _ Hl1) as ([I2 C2 S2 X2 [G2 G2'] [O2 O2'] [D2 D2']] & W2 & W2');
    [cbn; lia|].
  change (group_names (OpenSegments state)) with (wanted_groups nodeID state) in *.
  set (l2 := foldl _ _ _) in *. cbn in C2, S2, X2, G2, G2', O2, O2', D2, D2'.
  set (l3 := cancel_unwanted l2 _ _). set (l4 := cancel_unwanted l3 _ _).
  assert (Hl4 : loop_inv l4) by (by apply cancel_inv, cancel_inv).
  destruct (closed_tick_spec (ClosedSegments state) l4) as (l5 & -> & [I5 C5 S5 X5 G5 O5 [D5 D5']] & W5);
    [done|apply Hst|done|cbn; lia|].
  apply table_same in G5, O5. cbn in G5, O5, D5, D5', X5, S5. cbn [mbind result_bind].
  pose proof (table_same _ _ (conj D2 D2')) as D2''. rewrite D2'' in D5, D5'.
  eexists. split; [done|]. split; [by apply cancel_inv|]. split; [cbn; congruence|]. cbn.
  rewrite X5, X2. rewrite <- G5 in *. rewrite <- O5 in *.
  assert (Hin : ∀ id C D E, id ∈ C ∪ (D ∪ (E ∪ nl_canceled l)) ↔
    id ∈ C ∨ id ∈ D ∨ id ∈ E ∨ id ∈ nl_canceled l) by set_solver.
  split_and!; (apply table_ok_intro; [done|done|done| |]).
  - intros k t Hk Hw. apply Hin. right. left. apply elem_of_unwanted. by eauto.
  - intros k t Hk Hw Hc. apply Hin in Hc as [Hc|[Hc|[Hc|Hc]]]; [..|done];
      apply elem_of_unwanted in Hc as (k' & t' & Hk' & Hw' & Heq); exfalso; same_entry I5 Hk' Hk Heq.
  - intros k t Hk Hw. apply Hin. right. right. left. apply elem_of_unwanted. by eauto.
  - intros k t Hk Hw Hc. apply Hin in Hc as [Hc|[Hc|[Hc|Hc]]]; [..|done];
      apply elem_of_unwanted in Hc as (k' & t' & Hk' & Hw' & Heq); exfalso; same_entry I5 Hk' Hk Heq.
  - intros k t Hk Hw. apply Hin. left. apply elem_of_unwanted. by eauto.
  - intros k t Hk Hw Hc. apply Hin in Hc as [Hc|[Hc|[Hc|Hc]]]; [..|done];
      apply elem_of_unwanted in Hc as (k' & t' & Hk' & Hw' & Heq); exfalso; same_entry I5 Hk' Hk Heq.
Qed.

End ticks.

(** *** Completed tasks *)

Lemma forget_lookup {K} `{Countable K} (m : gmap K Task) k id k' t :
  forget m k id !! k' = Some t ↔ m !! k' = Some t ∧ (k' ≠ k ∨ task_ID t ≠ id).
Proof.
  unfold forget. destruct (m !! k) as [t0|] eqn:E; [destruct (Z.eqb_spec id (task_ID t0)) as [->|Hne]|].
  - rewrite lookup_delete_Some. split; [naive_solver|]. intros [Ht Hor]. split; [|done]. intros <-.
    destruct Hor as [|Hor]; [done|]. congruence.
  - split; [|naive_solver]. intros Ht. split; [done|].
    destruct (decide (k' = k)) as [->|]; [right; congruence|by left].
  - split; [|naive_solver]. intros Ht. split; [done|]. left. congruence.
Qed.

Lemma task_completed_inv l task failed :
  loop_inv l → task ∈ nl_started l → loop_inv (task_completed l task failed).
Proof.
  intros Hl Htask. set (l' := task_completed l task failed).
  assert (Hstarted : ∀ t, t ∈ nl_started l' ↔ t ∈ nl_started l ∧ task_ID t ≠ task_ID task).
  { intros t. assert (nl_started l' = List.filter (λ t, negb (task_ID t =? task_ID task)) (nl_started l)) as ->.
    { unfold l', task_completed. by destruct failed, (task_Data task). }
    rewrite elem_of_bfilter, negb_true_iff, Z.eqb_neq. naive_solver. }
  assert (Hsame : ∀ t, t ∈ nl_started l → task_ID t = task_ID task → t = task)
    by (intros t Ht Heq; by apply (same_task l)).
  assert (Hg : ∀ k t, nl_groups l' !! k = Some t ↔ nl_groups l !! k = Some t ∧ task_ID t ≠ task_ID task).
  { intros k t. assert (Hkey : nl_groups l !! k = Some t → task_ID t = task_ID task → task_Data task = GroupData k).
    { intros (Hin & <- & _)%(ln_groups l Hl) Heq. by rewrite (Hsame t Hin Heq). }
    unfold l', task_completed.
    destruct failed, (task_Data task); cbn; rewrite ?forget_lookup; naive_solver. }
  assert (Ho : ∀ k t, nl_open l' !! k = Some t ↔ nl_open l !! k = Some t ∧ task_ID t ≠ task_ID task).
  { intros k t. assert (Hkey : nl_open l !! k = Some t → task_ID t = task_ID task → task_Data task = SegmentData k).
    { intros (Hin & <- & _)%(ln_open l Hl) Heq. by rewrite (Hsame t Hin Heq). }
    unfold l', task_completed.
    destruct failed, (task_Data task); cbn; rewrite ?forget_lookup; naive_solver. }
  assert (Hc : ∀ k t, nl_closed l' !! k = Some t ↔ nl_closed l !! k = Some t ∧ task_ID t ≠ task_ID task).
  { intros k t. assert (Hkey : nl_closed l !! k = Some t → task_ID t = task_ID task → task_Data task = SegmentData k).
    { intros (Hin & <- & _)%(ln_closed l Hl) Heq. by rewrite (Hsame t Hin Heq). }
    unfold l', task_completed.
    destruct failed, (task_Data task); cbn; rewrite ?forget_lookup; naive_solver. }
  assert (Hcur : nl_currentTaskID l' = nl_currentTaskID l)
    by (unfold l', task_completed; by destruct failed, (task_Data task)).
  constructor.
  - eapply sublist_NoDup; [apply (ln_ids l Hl)|]. apply fmap_sublist. unfold l', task_completed.
    destruct failed, (task_Data task); apply sublist_bfilter.
  - rewrite Hcur. split; [apply Hl|]. intros t [Ht _]%Hstarted. by apply (ln_counter l Hl).
  - intros t [Ht Hne]%Hstarted. apply (ln_registered l Hl) in Ht. unfold registered in *.
    destruct (task_Data t), (task_runs t) as [|? ? []]; try done; rewrite ?Hg, ?Ho, ?Hc; naive_solver.
  - intros k t [Ht Hne]%Hg. apply (ln_groups l Hl) in Ht as (H1 & H2). split; [by apply Hstarted|done].
  - intros k t [Ht Hne]%Ho. apply (ln_open l Hl) in Ht as (H1 & H2). split; [by apply Hstarted|done].
  - intros k t [Ht Hne]%Hc. apply (ln_closed l Hl) in Ht as (H1 & H2). split; [by apply Hstarted|done].
Qed.

(** *** Garbage collection *)

(** A client holds the file of the segment. *)
Definition in_use (d : Dir) (id : Z) : bool :=
  match file_map d (bucket_of id) !! id with
  | Some l => 0 <? pf_rc (d_files d !!! l)
  | None => false
  end.

Lemma Remove_disk d id closed removed :
  d_disk (Remove d id closed removed).1 ⊆ d_disk d ∧ d_disk d ∖ {[id]} ⊆ d_disk (Remove d id closed removed).1.
Proof.
  unfold Remove. repeat case_match; cbn; set_solver.
Qed.

Lemma Remove_in_use d id closed removed :
  in_use d id = true → (Remove d id closed removed).1 = d.
Proof.
  unfold in_use, Remove. destruct (id =? 0); [done|].
  destruct (file_map d (bucket_of id) !! id); [|done]. by intros ->.
Qed.

Lemma Remove_frame d h id id' closed removed :
  pool_inv (d, h) → id' ≠ id → in_use (Remove d id closed removed).1 id' = in_use d id'.
Proof.
  intros Hinv Hne. unfold Remove. destruct (id =? 0); [done|].
  destruct (file_map d (bucket_of id) !! id) as [l|] eqn:E; [|by repeat case_match].
  destruct (0 <? pf_rc (d_files d !!! l)); [done|].
  destruct (lookup_total_file _ _ _ _ _ Hinv E) as (f & Hf & Hf' & Hid & _).
  assert (Hclose : in_use (closeFile d (bucket_of id) l (d_files d !!! l)) id' = in_use d id').
  { unfold in_use, closeFile. rewrite Hf', Hid.
    erewrite (file_map_insert d); [|apply (pi_buckets _ Hinv)|apply bucket_lt|done].
    assert (Hmap : (if decide (bucket_of id' = bucket_of id) then delete id (file_map d (bucket_of id))
      else file_map d (bucket_of id')) !! id' = file_map d (bucket_of id') !! id').
    { case_decide as Hb; [|done]. rewrite lookup_delete_ne by done. by rewrite Hb. }
    rewrite Hmap. destruct (file_map d (bucket_of id') !! id') as [l'|] eqn:E'; [|done].
    assert (Hl : l' ≠ l).
    { intros ->. destruct (entry_inj _ _ _ _ _ _ _ (pi_entries _ Hinv _ _ _ E) (pi_entries _ Hinv _ _ _ E')).
      congruence. }
    cbn. by rewrite lookup_total_insert_ne. }
  destruct closed; [|done]. by case_match.
Qed.

Lemma Remove_done d h id :
  pool_inv (d, h) → id ≠ 0 → id ∈ d_disk d → in_use d id = false →
  d_disk (Remove d id true true).1 = d_disk d ∖ {[id]}.
Proof.
  intros Hinv Hid Hdisk Huse. unfold Remove, in_use in *. destruct (Z.eqb_spec id 0); [done|].
  destruct (file_map d (bucket_of id) !! id) as [l|]; [rewrite Huse|]; cbn; by rewrite bool_decide_true.
Qed.

(** The loop of the collection, when nobody interferes. *)
Lemma collect_spec active outcome h infos : ∀ d,
  pool_inv (d, h) → NoDup (info_ID <$> infos) →
  (∀ x, x ∈ infos → info_ID x ≠ 0 ∧ info_ID x ∈ d_disk d ∧
     (0 <? info_ReferenceCount x) = in_use d (info_ID x)) →
  let d' := collect active infos outcome d in
  pool_inv (d', h) ∧ d_disk d' ⊆ d_disk d ∧
  (∀ id, id ∈ d_disk d → id ∈ active ∨ in_use d id = true ∨ id ∉ info_ID <$> infos → id ∈ d_disk d') ∧
  ((∀ id, outcome id = (true, true)) →
   ∀ id, id ∈ d_disk d' → id ∈ info_ID <$> infos → id ∈ active ∨ in_use d id = true).
Proof.
  induction infos as [|x infos IH]; intros d Hinv Hnd Hinfos; cbv zeta; cbn [collect].
  { split_and!; [done|done|done|set_solver]. }
  rewrite fmap_cons in Hnd. apply NoDup_cons in Hnd as [Hx Hnd].
  destruct (Hinfos x ltac:(left)) as (Hx0 & Hxd & Hxr).
  set (id := info_ID x) in *. set (o := outcome id).
  set (d1 := if bool_decide (id ∈ active) then d else if 0 <? info_ReferenceCount x then d
             else (Remove d id o.1 o.2).1).
  assert (Hcase : d1 = d ∧ (id ∈ active ∨ in_use d id = true) ∨
    d1 = (Remove d id o.1 o.2).1 ∧ id ∉ active ∧ in_use d id = false).
  { unfold d1. case_bool_decide; [auto|]. rewrite Hxr. destruct (in_use d id); auto. }
  assert (Hframe : ∀ id', id' ≠ id → in_use d1 id' = in_use d id').
  { intros id' Hne. destruct Hcase as [[-> _]|[-> _]]; [done|]. by eapply Remove_frame. }
  assert (Hdisk : d_disk d1 ⊆ d_disk d ∧ d_disk d ∖ {[id]} ⊆ d_disk d1).
  { destruct Hcase as [[-> _]|[-> _]]; [set_solver|apply Remove_disk]. }
  assert (Hinv1 : pool_inv (d1, h)).
  { destruct Hcase as [[-> _]|[-> _]]; [done|]. destruct (Remove d id o.1 o.2) eqn:E. by eapply Remove_inv. }
  destruct (IH d1 Hinv1 Hnd) as (I1 & I2 & I3 & I4).
  { intros y Hy. destruct (Hinfos y ltac:(by right)) as (H1 & H2 & H3).
    assert (Hne : info_ID y ≠ id). { intros Heq. apply Hx. rewrite <- Heq. by apply list_elem_of_fmap_2. }
    rewrite Hframe by done. split_and!; [done|set_solver|done]. }
  split_and!; [done|set_solver| |].
  - intros id' Hd' Hkeep. destruct (decide (id' = id)) as [->|Hne].
    + apply I3; [|set_solver]. destruct Hcase as [[-> _]|(_ & Hna & Hnu)]; [done|].
      destruct Hkeep as [?|[?|Hn]]; [done|congruence|set_solver].
    + apply I3; [set_solver|]. rewrite Hframe by done. set_solver.
  - intros Hok id' Hd' Hin. destruct (decide (id' = id)) as [->|Hne].
    + destruct Hcase as [[_ ?]|(Hd1 & Hna & Hnu)]; [done|].
      assert (Hgone : d_disk d1 = d_disk d ∖ {[id]}).
      { rewrite Hd1. unfold o. rewrite Hok. cbn. by eapply Remove_done. }
      apply I2 in Hd'. set_solver.
    + rewrite <- (Hframe id' Hne). apply I4; [done|done|set_solver].
Qed.

(** A client that holds the file is counted. *)
Lemma in_use_held d h id :
  pool_inv (d, h) →
  in_use d id = true ↔ ∃ l n, h !! l = Some (S n) ∧ file_map d (bucket_of id) !! id = Some l.
Proof.
  intros Hinv. unfold in_use. destruct (file_map d (bucket_of id) !! id) as [l|] eqn:E; [|naive_solver].
  destruct (lookup_total_file _ _ _ _ _ Hinv E) as (f & _ & -> & _ & _ & _ & Hrc & _).
  rewrite Hrc, Z.ltb_lt. unfold SegmentsDir.holds. split.
  - intros Hpos. exists l. destruct (h !! l) as [[|n]|]; cbn in Hpos; [lia|by exists n|lia].
  - intros (l' & n & Hl' & [= <-]). rewrite Hl'. cbn. lia.
Qed.

(** ** The loop as a system *)

Definition initial_loop (counter : Z) : NodeLoop :=
  {| nl_state := None; nl_groups := ∅; nl_open := ∅; nl_closed := ∅; nl_currentTaskID := counter;
     nl_started := []; nl_canceled := ∅ |}.

(** The counter leaves room for the tasks of a tick. *)
Definition room (l : NodeLoop) (state : ClusterState) : Prop :=
  nl_currentTaskID l + 2 * Z.of_nat (length (OpenSegments state)) +
    Z.of_nat (length (ClosedSegments state)) ≤ MaxUint64.

Definition set_counter (l : NodeLoop) (c : Z) : NodeLoop :=
  {| nl_state := nl_state l; nl_groups := nl_groups l; nl_open := nl_open l; nl_closed := nl_closed l;
     nl_currentTaskID := c; nl_started := nl_started l; nl_canceled := nl_canceled l |}.

(** Ticks, completed tasks, and other task managers that draw from the counter. *)
Inductive loop_step (nodeID : Z) : NodeLoop → NodeLoop → Prop :=
| ls_tick l Intn pointer state l' :
    (∀ n, (0 < n)%nat → (Intn n < n)%nat) → leader_inv state → room l state →
    node_tick nodeID Intn l pointer state = Ok l' → loop_step nodeID l l'
| ls_completed l t failed :
    t ∈ nl_started l → loop_step nodeID l (task_completed l t failed)
| ls_other l c :
    nl_currentTaskID l ≤ c ≤ MaxUint64 → loop_step nodeID l (set_counter l c).

Lemma loop_step_inv nodeID l l' : loop_inv l → loop_step nodeID l l' → loop_inv l'.
Proof.
  intros Hl Hstep. destruct Hstep as [l Intn p st l' Hrand Hst Hroom Htick|l t failed Ht|l c Hc].
  - destruct (decide (nl_state l = Some p)) as [Heq|Hne].
    + unfold node_tick in Htick. rewrite bool_decide_true in Htick by done. by simplify_eq.
    + destruct (node_tick_spec nodeID Intn l p st) as (l1 & H1 & H2 & _); [done..|].
      rewrite H1 in Htick. by simplify_eq.
  - by apply task_completed_inv.
  - destruct Hl as [H1 [H2 H2'] H3 H4 H5 H6]. split; try done. cbn. split; [lia|].
    intros t Ht. apply H2' in Ht. lia.
Qed.

(** What kind of task it is. *)
Definition task_kind (t : Task) : option bool :=
  match task_runs t with RunConsumerGroup _ _ _ => None | RunReplication _ _ wait => Some wait end.

Lemma one_task l t t' :
  loop_inv l → t ∈ nl_started l → t' ∈ nl_started l → task_Data t = task_Data t' →
  task_kind t = task_kind t' → t = t'.
Proof.
  intros Hl H%(ln_registered l Hl) H'%(ln_registered l Hl) Hd Hk. unfold registered, task_kind in *.
  rewrite Hd in H. destruct (task_Data t'), (task_runs t) as [|? ? []], (task_runs t') as [|? ? []];
    try done; destruct H as [H _], H' as [H' _]; congruence.
Qed.

(** ** Properties *)

(** The tasks of a node follow the cluster state (C23).  In every history of ticks, completed
    tasks and task identifiers drawn elsewhere, there is at most one uncompleted task of each kind for a consumer
    group or segment.  A tick on a new state of the cluster does not panic; after it
    every consumer group whose offsets the node keeps and every segment the node copies has its task, no task was
    started for anything else, every task that is not wanted any more is canceled and no wanted one was canceled by the tick. *)
Theorem node_loop_correct nodeID Intn counter l pointer state :
  0 ≤ counter ≤ MaxUint64 → rtc (loop_step nodeID) (initial_loop counter) l →
  (∀ n, (0 < n)%nat → (Intn n < n)%nat) → leader_inv state → room l state → nl_state l ≠ Some pointer →
  (∀ t t', t ∈ nl_started l → t' ∈ nl_started l → task_Data t = task_Data t' →
     task_kind t = task_kind t' → t = t') ∧
  ∃ l', node_tick nodeID Intn l pointer state = Ok l' ∧ nl_state l' = Some pointer ∧
    table_ok (wanted_groups nodeID state) (nl_canceled l) (nl_canceled l') (nl_groups l) (nl_groups l') ∧
    table_ok (wanted_copies nodeID (OpenSegments state)) (nl_canceled l) (nl_canceled l')
      (nl_open l) (nl_open l') ∧
    table_ok (wanted_copies nodeID (ClosedSegments state)) (nl_canceled l) (nl_canceled l')
      (nl_closed l) (nl_closed l').
Proof.
  intros Hc Hrtc Hrand Hst Hroom Hp.
  assert (Hl : loop_inv l).
  { revert Hrtc. apply (rtc_ind_r loop_inv); [|intros l1 l2 _ Hs IH; by eapply loop_step_inv].
    split; cbn; try done; [constructor|split; [done|]; by intros t ?%elem_of_nil|by intros t ?%elem_of_nil]. }
  split; [intros t t'; by apply one_task|].
  destruct (node_tick_spec nodeID Intn l pointer state) as (l' & H1 & _ & H2); [done..|]. by exists l'.
Qed.

(** The cluster state places a segment on a node: an open or a closed one, of which the node is the primary, copies it, or has
    a complete copy. *)
Inductive placed_on (nodeID : Z) (state : ClusterState) (id : Z) : Prop :=
| Placed segment :
    segment ∈ OpenSegments state ∨ segment ∈ ClosedSegments state → seg_ID segment = id →
    PrimaryNodeID (seg_Nodes segment) = nodeID ∨ nodeID ∈ ReplicatingNodeIDs (seg_Nodes segment) ∨ nodeID ∈ DoneNodeIDs (seg_Nodes segment) →
    placed_on nodeID state id.

Lemma active_segments_placed nodeID state id : id ∈ active_segments nodeID state ↔ placed_on nodeID state id.
Proof.
  unfold active_segments. rewrite elem_of_list_to_set, list_elem_of_fmap.
  assert (∀ x, on_node nodeID x = true ↔ PrimaryNodeID (seg_Nodes x) = nodeID ∨ nodeID ∈ ReplicatingNodeIDs (seg_Nodes x) ∨
    nodeID ∈ DoneNodeIDs (seg_Nodes x)) as Hon.
  { intros x. unfold on_node. rewrite !orb_true_iff, Z.eqb_eq, !bool_decide_eq_true. tauto. }
  split.
  - intros (x & -> & [Hx%Hon Hin%elem_of_app]%elem_of_bfilter). by exists x.
  - intros [x Hin <- Hx%Hon]. exists x. split; [done|]. apply elem_of_bfilter. by rewrite elem_of_app.
Qed.

(** Garbage collection removes exactly what is not needed (C31).  Let nobody else use the directory during a
    pass over all files of it.  A file is needed if it is that of an open or closed segment of the cluster state of which the node is the
    primary, that it copies or has a complete copy of, or if a client holds the file.  Needed files stay, whatever the system calls
    answer, and held files stay open; if the system calls succeed, every other file is removed. *)
Theorem garbage_collect_exact nodeID state dirName walk outcome d h :
  pool_inv (d, h) → NoDup walk → (∀ id, id ∈ walk ↔ id ∈ d_disk d) → 0 ∉ d_disk d →
  let d' := garbage_collect nodeID state dirName (Some walk) outcome d in
  let needed id := placed_on nodeID state id ∨
    ∃ l n, h !! l = Some (S n) ∧ file_map d (bucket_of id) !! id = Some l in
  pool_inv (d', h) ∧ d_disk d' ⊆ d_disk d ∧
  (∀ id, id ∈ d_disk d → needed id → id ∈ d_disk d') ∧
  ((∀ id, outcome id = (true, true)) → ∀ id, id ∈ d_disk d' → needed id).
Proof.
  intros Hinv Hnd Hwalk H0. cbv zeta. unfold garbage_collect.
  assert (Hids : info_ID <$> Dir_List d dirName walk = walk).
  { unfold Dir_List. rewrite <- list_fmap_compose. apply list_fmap_id. }
  destruct (collect_spec (active_segments nodeID state) outcome h (Dir_List d dirName walk) d)
    as (H1 & H2 & H3 & H4); [done|by rewrite Hids| |].
  { intros x (id & -> & Hid%Hwalk)%list_elem_of_fmap. cbn. split_and!; [by intros ->|done|].
    unfold in_use. by destruct (file_map d (bucket_of id) !! id). }
  split_and!; [done|done| |].
  - intros id Hd [Ha%active_segments_placed|Hu]; apply H3; [done|by left|done|]. right. left. by apply (in_use_held d h).
  - intros Hok id Hd. destruct (H4 Hok id Hd) as [?|Hu]; [rewrite Hids; by apply Hwalk, H2|left; by apply active_segments_placed|].
    right. by apply (in_use_held d h).
Qed.

(** ** A node, for the witnesses *)

Definition loop_segment (id : Z) (type : ClusterSegment_Type) (primary : Z) (done replicating : list Z) :
    ClusterSegment :=
  {| seg_ID := id; seg_Type := type; seg_OwnerNamespace := "default"; seg_OwnerName := "g";
     seg_Generation := 1; seg_Shard := 1; seg_CreatedAt := 0; seg_ClosedAt := 0;
     seg_Nodes := {| PrimaryNodeID := primary; DoneNodeIDs := done; ReplicatingNodeIDs := replicating |};
     seg_Size := 0; seg_Sha1 := [] |}.

Definition loop_node (id : Z) : ClusterNode :=
  {| node_ID := id; node_Address := ""; node_State := ClusterNode_ALIVE; node_LastSeenAlive := None |}.

Definition loop_state (open closed : list ClusterSegment) : ClusterState :=
  {| Index := 1; CurrentSegmentID := 9; Namespaces := []; OpenSegments := open; ClosedSegments := closed;
     Nodes := [loop_node 1; loop_node 2] |}.

(** Node 2 keeps the offsets of a group and copies a closed segment. *)
Definition loop_demo : ClusterState :=
  loop_state [loop_segment 5 ClusterSegment_CONSUMER_GROUP_OFFSET_COMMITS 2 [] []]
    [loop_segment 3 ClusterSegment_TOPIC 0 [1] [2]].

Lemma loop_demo_inv : leader_inv loop_demo.
Proof. apply (bool_decide_unpack _). vm_compute. exact I. Qed.

Lemma node_loop_correct_witness :
  ∃ l', node_tick 2 (λ _, 0%nat) (initial_loop 0) 7 loop_demo = Ok l' ∧
    task_runs <$> nl_started l' = [RunConsumerGroup "default" "g" 5; RunReplication 3 1 false] ∧
    wanted_groups 2 loop_demo ⊆ dom (nl_groups l').
Proof.
  destruct (node_loop_correct 2 (λ _, 0%nat) 0 (initial_loop 0) 7 loop_demo) as (_ & l' & H1 & _ & H2 & _);
    [by vm_compute|apply rtc_refl|done|exact loop_demo_inv|by vm_compute|done|].
  exists l'. split; [exact H1|]. split; [|apply H2]. vm_compute in H1. injection H1 as <-. reflexivity.
Defined.

Definition loop_dir : Dir :=
  {| d_idleTimeout := 10; d_fileMaps := replicate 64 ∅; d_files := ∅; d_next := 0; d_disk := {[3; 4; 5]} |}.

Lemma garbage_collect_exact_witness :
  let d' := garbage_collect 2 loop_demo "d" (Some [3; 4; 5]) (λ _, (true, true)) loop_dir in
  3 ∈ d_disk d' ∧ 4 ∉ d_disk d' ∧ 5 ∈ d_disk d'.
Proof.
  cbv zeta. destruct (garbage_collect_exact 2 loop_demo "d" [3; 4; 5] (λ _, (true, true)) loop_dir ∅)
    as (_ & _ & H1 & H2).
  - apply (NewDir_inv 10 {[3; 4; 5]}). reflexivity.
  - apply (bool_decide_unpack _). vm_compute. exact I.
  - intros id. cbn. set_solver.
  - apply (bool_decide_unpack _). vm_compute. exact I.
  - split_and!.
    + apply H1; [by apply (bool_decide_unpack _)|left]. exists (loop_segment 3 ClusterSegment_TOPIC 0 [1] [2]);
        [right; left|reflexivity|right; left; left].
    + intros H4. destruct (H2 (λ _, eq_refl) 4 H4) as [Ha|(l & n & Hl & _)]; [|discriminate Hl].
      apply active_segments_placed in Ha. by apply (bool_decide_pack _) in Ha.
    + apply H1; [by apply (bool_decide_unpack _)|left]. exists (loop_segment 5 ClusterSegment_CONSUMER_GROUP_OFFSET_COMMITS 2 [] []);
        [left; left|reflexivity|left; reflexivity].
Defined.

(** ** What the loop does not ensure *)

(** The state was read before the directory is listed: the file of a segment that was opened,
    written and released in between is removed although the new state places the segment on this node. *)
Lemma collect_removes_new_segment :
  let new := loop_state [loop_segment 5 ClusterSegment_CONSUMER_GROUP_OFFSET_COMMITS 2 [] [];
                         loop_segment 7 ClusterSegment_TOPIC 2 [] []]
               [loop_segment 3 ClusterSegment_TOPIC 0 [1] [2]] in
  7 ∈ active_segments 2 new ∧
  ∃ d1 l d2, Dir_Open loop_dir 7 true true = Ok (d1, l) ∧ Release d1 l 100 = Ok d2 ∧
    7 ∈ d_disk d2 ∧
    7 ∉ d_disk (garbage_collect 2 loop_demo "d" (Some [3; 4; 5; 7]) (λ _, (true, true)) d2).
Proof.
  cbv zeta. split; [by apply (bool_decide_unpack _); vm_compute|].
  do 3 eexists. split; [reflexivity|]. split; [reflexivity|].
  split; [by apply (bool_decide_unpack _); vm_compute|]. apply (bool_decide_unpack _). by vm_compute.
Qed.

(** When a segment that is copied is closed, the task for the closed segment starts while the task for the
    open one has only been told to stop: two tasks write the same file. *)
Lemma two_replications_of_one_segment :
  let open := loop_state [loop_segment 5 ClusterSegment_TOPIC 1 [] [2]] [] in
  let closed := loop_state [] [loop_segment 5 ClusterSegment_TOPIC 0 [1] [2]] in
  ∃ l1 l2, node_tick 2 (λ _, 0%nat) (initial_loop 0) 1 open = Ok l1 ∧
    node_tick 2 (λ _, 0%nat) l1 2 closed = Ok l2 ∧
    task_runs <$> nl_started l2 = [RunReplication 5 1 true; RunReplication 5 1 false].
Proof.
  do 2 eexists. split; [vm_compute; reflexivity|]. split; [vm_compute; reflexivity|]. by vm_compute.
Qed.

(** A consumer group that is deleted and created again between two ticks keeps its task, which writes to the
    offset segment of the deleted group. *)
Lemma recreated_group_keeps_segment :
  let before := loop_state [loop_segment 5 ClusterSegment_CONSUMER_GROUP_OFFSET_COMMITS 2 [] []] [] in
  let after := loop_state [loop_segment 7 ClusterSegment_CONSUMER_GROUP_OFFSET_COMMITS 2 [] []] [] in
  ∃ l1 l2, node_tick 2 (λ _, 0%nat) (initial_loop 0) 1 before = Ok l1 ∧
    node_tick 2 (λ _, 0%nat) l1 2 after = Ok l2 ∧
    task_runs <$> nl_started l2 = [RunConsumerGroup "default" "g" 5] ∧ nl_canceled l2 = ∅.
Proof.
  do 2 eexists. split; [vm_compute; reflexivity|]. split; [vm_compute; reflexivity|].
  split; [by vm_compute|]. by vm_compute.
Qed.
