(* ===== verification/OffsetCommit.v ===== *)
(** * Offset commits on disk

    The protocol buffers encoding of [ClusterConsumerGroup_OffsetCommit] (src/mq/cluster_state.pb.go), in which
    the task of a consumer group writes its progress to the offset segment. *)
From S2P Require Import Prelude ClusterState.
From S2P Require Export Proto.

Definition set_oc_SegmentID (v : Z) (m : ClusterConsumerGroup_OffsetCommit) : ClusterConsumerGroup_OffsetCommit :=
  {| oc_SegmentID := v; oc_Offset := oc_Offset m |}.
Definition set_oc_Offset (v : Z) (m : ClusterConsumerGroup_OffsetCommit) : ClusterConsumerGroup_OffsetCommit :=
  {| oc_SegmentID := oc_SegmentID m; oc_Offset := v |}.

Definition OffsetCommit_fields : list (field ClusterConsumerGroup_OffsetCommit) :=
  [mk_field 1 uint64_field oc_SegmentID set_oc_SegmentID; mk_field 2 int64_field oc_Offset set_oc_Offset].

Definition OffsetCommit_msg : msgc ClusterConsumerGroup_OffsetCommit :=
  fields_codec {| oc_SegmentID := 0; oc_Offset := 0 |} OffsetCommit_fields.

Definition OffsetCommit_MarshalTo (m : ClusterConsumerGroup_OffsetCommit) : result proto_error (list Z) := mc_put OffsetCommit_msg m.
Definition OffsetCommit_Size (m : ClusterConsumerGroup_OffsetCommit) : Z := mc_size OffsetCommit_msg m.
Definition OffsetCommit_Marshal (m : ClusterConsumerGroup_OffsetCommit) : result proto_error (list Z) := msg_Marshal OffsetCommit_msg m.
Definition OffsetCommit_Unmarshal (buf : list Z) : result proto_error ClusterConsumerGroup_OffsetCommit := msg_Unmarshal OffsetCommit_msg buf.

#[export] Instance OffsetCommit_codec : Codec ClusterConsumerGroup_OffsetCommit :=
  {| Marshal := OffsetCommit_Marshal; Unmarshal := OffsetCommit_Unmarshal |}.

(** ** Round trip *)

Definition commit_ok (m : ClusterConsumerGroup_OffsetCommit) : Prop :=
  0 ≤ oc_SegmentID m ≤ MaxUint64 ∧ - 2 ^ 63 ≤ oc_Offset m ≤ MaxInt64.

Lemma OffsetCommit_schema : schema_ok OffsetCommit_fields.
Proof. solve_schema. Qed.

Lemma OffsetCommit_writes m : commit_ok m → msg_writes OffsetCommit_msg m.
Proof.
  intros [Hs Ho]. unfold MaxUint64, MaxInt64 in *. apply fields_roundtrip; [apply OffsetCommit_schema|by destruct m|].
  write_fields.
Qed.

Lemma encode_varint_loop_length fuel : ∀ x, (length (encode_varint_loop fuel x) ≤ fuel)%nat.
Proof. induction fuel as [|fuel IH]; intros x; cbn [encode_varint_loop]; [done|]. destruct (_ <=? _); cbn [length]; [specialize (IH (Z.shiftr x 7))|]; lia. Qed.

(** Two numbers and their tags. *)
Lemma OffsetCommit_Size_bound m : OffsetCommit_Size m ≤ 40.
Proof.
  assert (∀ x, Z.of_nat (length (encodeVarint x)) ≤ 10) as Hlen by (intros x; pose proof (encode_varint_loop_length 10 x); unfold encodeVarint; lia).
  assert (∀ z, sov (u64 z) ≤ 10) as Hsov by (intros z; rewrite <- sov_length; apply Hlen).
  pose proof (Hsov (oc_SegmentID m)). pose proof (Hsov (oc_Offset m)).
  unfold OffsetCommit_Size, OffsetCommit_msg, OffsetCommit_fields. cbn -[tag_of Z.of_nat]. unfold id, tag_of.
  repeat match goal with |- context [length (encodeVarint ?x)] => let n := fresh "n" in pose proof (Hlen x); set (n := length (encodeVarint x)) in * end.
  repeat case_if; lia.
Qed.

#[export] Instance OffsetCommit_law : CodecLaw ClusterConsumerGroup_OffsetCommit commit_ok.
Proof.
  intros m Hm. apply msg_roundtrip; [by apply OffsetCommit_writes|]. pose proof (OffsetCommit_Size_bound m). unfold OffsetCommit_Size in *. lia.
Qed.
