(* ===== verification/ClusterFsm.v ===== *)
(** * The state machine that Raft drives

    Models src/mq/cluster_state_store_fsm.go: entries of the log are decoded and applied, the state is written to a
    snapshot and restored from one.  The encodings are those of the classes [Codec] and [CodecLaw]. *)
From S2P Require Import Prelude Emq ClusterState ClusterOps ClusterInv ClusterProps OffsetCommit.

(** An entry of the log: [Data] is the command of an entry of type [LogCommand]. *)
Record LogEntry : Type := {
  le_Index : Z;
  le_Command : bool;
  le_Data : list Z;
}.

Section fsm.

Context `{Codec ClusterCommand, Codec ClusterState}.

(** A command that cannot be decoded panics. *)
Definition fsm_Apply (s : ClusterState) (entry : LogEntry) : fsm ClusterState :=
  if le_Command entry then
    match Unmarshal (le_Data entry) with
    | Ok cmd => Do s (le_Index entry) (Some cmd)
    | Err _ => Panic "unmarshal command failed"
    | Panic msg => Panic msg
    end
  else Do s (le_Index entry) None.

Definition fsm_Snapshot (s : ClusterState) : result proto_error (list Z) := Marshal s.

Inductive restore_error : Type :=
| ErrReadSnapshot
| ErrUnmarshalSnapshot (e : proto_error)
| ErrCloseSnapshot.

(** [read] is what reading the snapshot gives, [None] an error; [closed] is whether closing it succeeds. *)
Definition fsm_Restore (read : option (list Z)) (closed : bool) : result restore_error ClusterState :=
  match read with
  | None => Err ErrReadSnapshot
  | Some buf =>
    match Unmarshal buf with
    | Ok state => if closed then Ok state else Err ErrCloseSnapshot
    | Err e => Err (ErrUnmarshalSnapshot e)
    | Panic msg => Panic msg
    end
  end.

Inductive sink_call : Type :=
| SinkWrite (bytes : list Z)
| SinkClose
| SinkCancel.

(** [Persist]: the calls on the sink; [written] and [closed] are whether they succeed.  The error of the write is declared
    in the scope of the statement and still returned, so that the deferred function sees it. *)
Definition Persist (snapshot : list Z) (written closed : bool) : list sink_call * bool :=
  if negb written then ([SinkWrite snapshot; SinkCancel], false)
  else if negb closed then ([SinkWrite snapshot; SinkClose; SinkCancel], false)
  else ([SinkWrite snapshot; SinkClose], true).

(** ** The log *)

Fixpoint apply_log (s : ClusterState) (entries : list LogEntry) : fsm ClusterState :=
  match entries with
  | [] => Ok s
  | entry :: entries => s ← fsm_Apply s entry; apply_log s entries
  end.

Lemma apply_log_app entries entries' : ∀ s, apply_log s (entries ++ entries') = (s' ← apply_log s entries; apply_log s' entries').
Proof.
  induction entries as [|entry entries IH]; intros s; [done|]. cbn [apply_log app]. destruct (fsm_Apply s entry) as [s1| |]; [apply IH|done..].
Qed.

(** An entry that was made from a command is that command. *)
Lemma Apply_command `{!CodecLaw ClusterCommand ok_command} s cmd index :
  ok_command cmd → ∃ data, Marshal cmd = Ok data ∧
    fsm_Apply s {| le_Index := index; le_Command := true; le_Data := data |} = Do s index (Some cmd).
Proof.
  intros Hc. destruct (codec_roundtrip cmd Hc) as (data & Hm & Hu). exists data. split; [done|]. unfold fsm_Apply. cbn. by rewrite Hu.
Qed.

(** A node that starts from a snapshot has the state of a node that applied the whole log. *)
Theorem snapshot_replay `{!CodecLaw ClusterState ok_state} s0 before after s :
  apply_log s0 (before ++ after) = Ok s → (∀ s1, apply_log s0 before = Ok s1 → ok_state s1) →
  ∃ s1 bytes, apply_log s0 before = Ok s1 ∧ fsm_Snapshot s1 = Ok bytes ∧ fsm_Restore (Some bytes) true = Ok s1 ∧ apply_log s1 after = Ok s.
Proof.
  rewrite apply_log_app. intros Hl Hok. destruct (apply_log s0 before) as [s1| |]; [|done..]. cbn in Hl.
  destruct (codec_roundtrip s1 (Hok s1 eq_refl)) as (bytes & Hm & Hu). exists s1, bytes. unfold fsm_Restore. rewrite Hu. done.
Qed.

(** A snapshot is either written and closed, or cancelled. *)
Lemma Persist_cancels snapshot written closed :
  let '(calls, ok) := Persist snapshot written closed in
  (ok = true ↔ written = true ∧ closed = true) ∧ (SinkCancel ∈ calls ↔ ok = false).
Proof. unfold Persist. destruct written, closed; cbn; rewrite ?elem_of_cons, ?elem_of_nil; naive_solver. Qed.

End fsm.
