(* ===== verification/ClusterCodec.v ===== *)
(** * The encoding of the cluster state and of its commands

    The generated code of src/mq/cluster_state.pb.go for the messages of the replicated state machine: what Raft writes to its log, and what is
    in a snapshot.  Each message is the list of its fields (Proto.v).  Times, durations and structs are encoded by the protobuf library:
    their codecs are a class, with the law that they read back what they write.  The theorems: what Raft writes to its log and to snapshots is read
    back as the same command and the same state, for all values that fit the types of their fields. *)
From S2P Require Import Prelude Emq ClusterState ClusterOps ClusterInv ClusterProps OffsetCommit ClusterFsm.

(** ** Types of the library *)

Class WellKnown : Type := {
  std_time : msgc Z; (* [SizeOfStdTime], [StdTimeMarshalTo], [StdTimeUnmarshal] *)
  std_duration : msgc Z;
  std_struct : msgc Struct;
}.

(** What is encoded is decoded; a time has a range, and the order of the keys of a map is not specified. *)
Class WellKnownLaw `{WellKnown} (time_ok : Z → Prop) (struct_ok : Struct → Prop) : Prop := {
  time_writes t : time_ok t → msg_writes std_time t;
  duration_writes d : - 2 ^ 63 ≤ d < 2 ^ 63 → msg_writes std_duration d;
  struct_writes s : struct_ok s → msg_writes std_struct s;
}.

(** ** Enums *)

Definition ClusterSegment_Type_to (t : ClusterSegment_Type) : Z :=
  match t with
  | ClusterSegment_INVALID => 0
  | ClusterSegment_TOPIC => 1
  | ClusterSegment_CONSUMER_GROUP_OFFSET_COMMITS => 2
  | ClusterSegment_Type_other n => n
  end.
Definition ClusterSegment_Type_from (v : Z) : ClusterSegment_Type :=
  let v := signed 32 v in
  if v =? 0 then ClusterSegment_INVALID
  else if v =? 1 then ClusterSegment_TOPIC
  else if v =? 2 then ClusterSegment_CONSUMER_GROUP_OFFSET_COMMITS
  else ClusterSegment_Type_other v.
Definition ClusterSegment_Type_field : fieldc ClusterSegment_Type :=
  varint_field ClusterSegment_INVALID ClusterSegment_Type_to ClusterSegment_Type_from.

Definition ClusterNode_State_to (t : ClusterNode_State) : Z :=
  match t with
  | ClusterNode_DEAD => 0
  | ClusterNode_ALIVE => 1
  | ClusterNode_State_other n => n
  end.
Definition ClusterNode_State_from (v : Z) : ClusterNode_State :=
  let v := signed 32 v in
  if v =? 0 then ClusterNode_DEAD else if v =? 1 then ClusterNode_ALIVE else ClusterNode_State_other v.
Definition ClusterNode_State_field : fieldc ClusterNode_State := varint_field ClusterNode_DEAD ClusterNode_State_to ClusterNode_State_from.

Definition Which_to (t : Which) : Z :=
  match t with
  | Which_INVALID => 0
  | Which_OPEN => 1
  | Which_CLOSED => 2
  | Which_other n => n
  end.
Definition Which_from (v : Z) : Which :=
  let v := signed 32 v in
  if v =? 0 then Which_INVALID else if v =? 1 then Which_OPEN else if v =? 2 then Which_CLOSED else Which_other v.
Definition Which_field : fieldc Which := varint_field Which_INVALID Which_to Which_from.

(** The numbers that have no name. *)
Definition segment_type_ok (t : ClusterSegment_Type) : Prop :=
  match t with ClusterSegment_Type_other n => - 2 ^ 31 ≤ n < 2 ^ 31 ∧ (n < 0 ∨ 2 < n) | _ => True end.
Definition node_state_ok (t : ClusterNode_State) : Prop :=
  match t with ClusterNode_State_other n => - 2 ^ 31 ≤ n < 2 ^ 31 ∧ (n < 0 ∨ 1 < n) | _ => True end.
Definition which_ok (t : Which) : Prop :=
  match t with Which_other n => - 2 ^ 31 ≤ n < 2 ^ 31 ∧ (n < 0 ∨ 2 < n) | _ => True end.

Section codec.

Context `{WellKnown}.

(** ** The state *)

Definition set_topic_Name (v : string) (m : ClusterTopic) : ClusterTopic :=
  {| topic_Name := v; topic_Shards := topic_Shards m; topic_ReplicationFactor := topic_ReplicationFactor m; topic_Retention := topic_Retention m;
     topic_DefaultExchangeType := topic_DefaultExchangeType m |}.
Definition set_topic_Shards (v : Z) (m : ClusterTopic) : ClusterTopic :=
  {| topic_Name := topic_Name m; topic_Shards := v; topic_ReplicationFactor := topic_ReplicationFactor m; topic_Retention := topic_Retention m;
     topic_DefaultExchangeType := topic_DefaultExchangeType m |}.
Definition set_topic_ReplicationFactor (v : Z) (m : ClusterTopic) : ClusterTopic :=
  {| topic_Name := topic_Name m; topic_Shards := topic_Shards m; topic_ReplicationFactor := v; topic_Retention := topic_Retention m;
     topic_DefaultExchangeType := topic_DefaultExchangeType m |}.
Definition set_topic_Retention (v : Z) (m : ClusterTopic) : ClusterTopic :=
  {| topic_Name := topic_Name m; topic_Shards := topic_Shards m; topic_ReplicationFactor := topic_ReplicationFactor m; topic_Retention := v;
     topic_DefaultExchangeType := topic_DefaultExchangeType m |}.
Definition set_topic_DefaultExchangeType (v : string) (m : ClusterTopic) : ClusterTopic :=
  {| topic_Name := topic_Name m; topic_Shards := topic_Shards m; topic_ReplicationFactor := topic_ReplicationFactor m;
     topic_Retention := topic_Retention m; topic_DefaultExchangeType := v |}.

Definition ClusterTopic_fields : list (field ClusterTopic) :=
  [mk_field 1 string_field topic_Name set_topic_Name;
   mk_field 2 uint32_field topic_Shards set_topic_Shards;
   mk_field 3 uint32_field topic_ReplicationFactor set_topic_ReplicationFactor;
   mk_field 4 (value_field std_duration) topic_Retention set_topic_Retention;
   mk_field 5 string_field topic_DefaultExchangeType set_topic_DefaultExchangeType].
Definition ClusterTopic_msg : msgc ClusterTopic :=
  fields_codec {| topic_Name := ""; topic_Shards := 0; topic_ReplicationFactor := 0; topic_Retention := (mc_default std_duration);
     topic_DefaultExchangeType := "" |} ClusterTopic_fields.

(** The oneof [by]: setting a member replaces the one before. *)
Definition set_b_TopicName (v : string) (m : ClusterConsumerGroup_Binding) : ClusterConsumerGroup_Binding :=
  {| b_TopicName := v; b_ExchangeType := b_ExchangeType m; b_By := b_By m |}.
Definition set_b_ExchangeType (v : string) (m : ClusterConsumerGroup_Binding) : ClusterConsumerGroup_Binding :=
  {| b_TopicName := b_TopicName m; b_ExchangeType := v; b_By := b_By m |}.
Definition set_b_By (v : Binding_By) (m : ClusterConsumerGroup_Binding) : ClusterConsumerGroup_Binding :=
  {| b_TopicName := b_TopicName m; b_ExchangeType := b_ExchangeType m; b_By := v |}.
Definition b_RoutingKey (m : ClusterConsumerGroup_Binding) : option string := match b_By m with By_RoutingKey s => Some s | _ => None end.
Definition b_HeadersAll (m : ClusterConsumerGroup_Binding) : option Struct := match b_By m with By_HeadersAll s => s | _ => None end.
Definition b_HeadersAny (m : ClusterConsumerGroup_Binding) : option Struct := match b_By m with By_HeadersAny s => s | _ => None end.
Definition set_b_RoutingKey (v : option string) (m : ClusterConsumerGroup_Binding) : ClusterConsumerGroup_Binding :=
  match v with
  | Some s => set_b_By (By_RoutingKey s) m
  | None => match b_By m with By_RoutingKey _ => set_b_By By_nil m | _ => m end
  end.
Definition set_b_HeadersAll (v : option Struct) (m : ClusterConsumerGroup_Binding) : ClusterConsumerGroup_Binding :=
  match v with
  | Some s => set_b_By (By_HeadersAll (Some s)) m
  | None => match b_By m with By_HeadersAll (Some _) => set_b_By By_nil m | _ => m end
  end.
Definition set_b_HeadersAny (v : option Struct) (m : ClusterConsumerGroup_Binding) : ClusterConsumerGroup_Binding :=
  match v with
  | Some s => set_b_By (By_HeadersAny (Some s)) m
  | None => match b_By m with By_HeadersAny (Some _) => set_b_By By_nil m | _ => m end
  end.

Definition Binding_fields : list (field ClusterConsumerGroup_Binding) :=
  [mk_field 1 string_field b_TopicName set_b_TopicName;
   mk_field 2 string_field b_ExchangeType set_b_ExchangeType;
   mk_field 3 oneof_string b_RoutingKey set_b_RoutingKey;
   mk_field 4 (oneof_field std_struct) b_HeadersAll set_b_HeadersAll;
   mk_field 5 (oneof_field std_struct) b_HeadersAny set_b_HeadersAny].
Definition Binding_msg : msgc ClusterConsumerGroup_Binding :=
  fields_codec {| b_TopicName := ""; b_ExchangeType := ""; b_By := By_nil |} Binding_fields.

Definition set_cg_Name (v : string) (m : ClusterConsumerGroup) : ClusterConsumerGroup :=
  {| cg_Name := v; cg_Bindings := cg_Bindings m; cg_Size := cg_Size m; cg_Since := cg_Since m; cg_OffsetCommits := cg_OffsetCommits m |}.
Definition set_cg_Bindings (v : list ClusterConsumerGroup_Binding) (m : ClusterConsumerGroup) : ClusterConsumerGroup :=
  {| cg_Name := cg_Name m; cg_Bindings := v; cg_Size := cg_Size m; cg_Since := cg_Since m; cg_OffsetCommits := cg_OffsetCommits m |}.
Definition set_cg_Size (v : Z) (m : ClusterConsumerGroup) : ClusterConsumerGroup :=
  {| cg_Name := cg_Name m; cg_Bindings := cg_Bindings m; cg_Size := v; cg_Since := cg_Since m; cg_OffsetCommits := cg_OffsetCommits m |}.
Definition set_cg_Since (v : Z) (m : ClusterConsumerGroup) : ClusterConsumerGroup :=
  {| cg_Name := cg_Name m; cg_Bindings := cg_Bindings m; cg_Size := cg_Size m; cg_Since := v; cg_OffsetCommits := cg_OffsetCommits m |}.
Definition set_cg_OffsetCommits (v : list ClusterConsumerGroup_OffsetCommit) (m : ClusterConsumerGroup) : ClusterConsumerGroup :=
  {| cg_Name := cg_Name m; cg_Bindings := cg_Bindings m; cg_Size := cg_Size m; cg_Since := cg_Since m; cg_OffsetCommits := v |}.

Definition ClusterConsumerGroup_fields : list (field ClusterConsumerGroup) :=
  [mk_field 1 string_field cg_Name set_cg_Name;
   mk_field 2 (repeated_field Binding_msg) cg_Bindings set_cg_Bindings;
   mk_field 3 uint32_field cg_Size set_cg_Size;
   mk_field 4 (value_field std_time) cg_Since set_cg_Since;
   mk_field 5 (repeated_field OffsetCommit_msg) cg_OffsetCommits set_cg_OffsetCommits].
Definition ClusterConsumerGroup_msg : msgc ClusterConsumerGroup :=
  fields_codec {| cg_Name := ""; cg_Bindings := []; cg_Size := 0; cg_Since := (mc_default std_time);
     cg_OffsetCommits := [] |} ClusterConsumerGroup_fields.

Definition set_ns_Name (v : string) (m : ClusterNamespace) : ClusterNamespace :=
  {| ns_Name := v; ns_Topics := ns_Topics m; ns_ConsumerGroups := ns_ConsumerGroups m |}.
Definition set_ns_Topics (v : list ClusterTopic) (m : ClusterNamespace) : ClusterNamespace :=
  {| ns_Name := ns_Name m; ns_Topics := v; ns_ConsumerGroups := ns_ConsumerGroups m |}.
Definition set_ns_ConsumerGroups (v : list ClusterConsumerGroup) (m : ClusterNamespace) : ClusterNamespace :=
  {| ns_Name := ns_Name m; ns_Topics := ns_Topics m; ns_ConsumerGroups := v |}.

Definition ClusterNamespace_fields : list (field ClusterNamespace) :=
  [mk_field 1 string_field ns_Name set_ns_Name;
   mk_field 2 (repeated_field ClusterTopic_msg) ns_Topics set_ns_Topics;
   mk_field 3 (repeated_field ClusterConsumerGroup_msg) ns_ConsumerGroups set_ns_ConsumerGroups].
Definition ClusterNamespace_msg : msgc ClusterNamespace :=
  fields_codec {| ns_Name := ""; ns_Topics := []; ns_ConsumerGroups := [] |} ClusterNamespace_fields.

Definition set_PrimaryNodeID (v : Z) (m : ClusterSegment_Nodes) : ClusterSegment_Nodes :=
  {| PrimaryNodeID := v; DoneNodeIDs := DoneNodeIDs m; ReplicatingNodeIDs := ReplicatingNodeIDs m |}.
Definition set_DoneNodeIDs (v : list Z) (m : ClusterSegment_Nodes) : ClusterSegment_Nodes :=
  {| PrimaryNodeID := PrimaryNodeID m; DoneNodeIDs := v; ReplicatingNodeIDs := ReplicatingNodeIDs m |}.
Definition set_ReplicatingNodeIDs (v : list Z) (m : ClusterSegment_Nodes) : ClusterSegment_Nodes :=
  {| PrimaryNodeID := PrimaryNodeID m; DoneNodeIDs := DoneNodeIDs m; ReplicatingNodeIDs := v |}.

Definition ClusterSegment_Nodes_fields : list (field ClusterSegment_Nodes) :=
  [mk_field 1 uint64_field PrimaryNodeID set_PrimaryNodeID;
   mk_field 2 packed_field DoneNodeIDs set_DoneNodeIDs;
   mk_field 3 packed_field ReplicatingNodeIDs set_ReplicatingNodeIDs].
Definition ClusterSegment_Nodes_msg : msgc ClusterSegment_Nodes :=
  fields_codec {| PrimaryNodeID := 0; DoneNodeIDs := []; ReplicatingNodeIDs := [] |} ClusterSegment_Nodes_fields.

Definition set_seg_ID (v : Z) (m : ClusterSegment) : ClusterSegment :=
  {| seg_ID := v; seg_Type := seg_Type m; seg_OwnerNamespace := seg_OwnerNamespace m; seg_OwnerName := seg_OwnerName m;
     seg_Generation := seg_Generation m; seg_Shard := seg_Shard m; seg_CreatedAt := seg_CreatedAt m; seg_ClosedAt := seg_ClosedAt m;
     seg_Nodes := seg_Nodes m; seg_Size := seg_Size m; seg_Sha1 := seg_Sha1 m |}.
Definition set_seg_Type (v : ClusterSegment_Type) (m : ClusterSegment) : ClusterSegment :=
  {| seg_ID := seg_ID m; seg_Type := v; seg_OwnerNamespace := seg_OwnerNamespace m; seg_OwnerName := seg_OwnerName m;
     seg_Generation := seg_Generation m; seg_Shard := seg_Shard m; seg_CreatedAt := seg_CreatedAt m; seg_ClosedAt := seg_ClosedAt m;
     seg_Nodes := seg_Nodes m; seg_Size := seg_Size m; seg_Sha1 := seg_Sha1 m |}.
Definition set_seg_OwnerNamespace (v : string) (m : ClusterSegment) : ClusterSegment :=
  {| seg_ID := seg_ID m; seg_Type := seg_Type m; seg_OwnerNamespace := v; seg_OwnerName := seg_OwnerName m; seg_Generation := seg_Generation m;
     seg_Shard := seg_Shard m; seg_CreatedAt := seg_CreatedAt m; seg_ClosedAt := seg_ClosedAt m; seg_Nodes := seg_Nodes m; seg_Size := seg_Size m;
     seg_Sha1 := seg_Sha1 m |}.
Definition set_seg_OwnerName (v : string) (m : ClusterSegment) : ClusterSegment :=
  {| seg_ID := seg_ID m; seg_Type := seg_Type m; seg_OwnerNamespace := seg_OwnerNamespace m; seg_OwnerName := v;
     seg_Generation := seg_Generation m; seg_Shard := seg_Shard m; seg_CreatedAt := seg_CreatedAt m; seg_ClosedAt := seg_ClosedAt m;
     seg_Nodes := seg_Nodes m; seg_Size := seg_Size m; seg_Sha1 := seg_Sha1 m |}.
Definition set_seg_Generation (v : Z) (m : ClusterSegment) : ClusterSegment :=
  {| seg_ID := seg_ID m; seg_Type := seg_Type m; seg_OwnerNamespace := seg_OwnerNamespace m; seg_OwnerName := seg_OwnerName m; seg_Generation := v;
     seg_Shard := seg_Shard m; seg_CreatedAt := seg_CreatedAt m; seg_ClosedAt := seg_ClosedAt m; seg_Nodes := seg_Nodes m; seg_Size := seg_Size m;
     seg_Sha1 := seg_Sha1 m |}.
Definition set_seg_Shard (v : Z) (m : ClusterSegment) : ClusterSegment :=
  {| seg_ID := seg_ID m; seg_Type := seg_Type m; seg_OwnerNamespace := seg_OwnerNamespace m; seg_OwnerName := seg_OwnerName m;
     seg_Generation := seg_Generation m; seg_Shard := v; seg_CreatedAt := seg_CreatedAt m; seg_ClosedAt := seg_ClosedAt m;
     seg_Nodes := seg_Nodes m; seg_Size := seg_Size m; seg_Sha1 := seg_Sha1 m |}.
Definition set_seg_CreatedAt (v : Z) (m : ClusterSegment) : ClusterSegment :=
  {| seg_ID := seg_ID m; seg_Type := seg_Type m; seg_OwnerNamespace := seg_OwnerNamespace m; seg_OwnerName := seg_OwnerName m;
     seg_Generation := seg_Generation m; seg_Shard := seg_Shard m; seg_CreatedAt := v; seg_ClosedAt := seg_ClosedAt m; seg_Nodes := seg_Nodes m;
     seg_Size := seg_Size m; seg_Sha1 := seg_Sha1 m |}.
Definition set_seg_ClosedAt (v : Z) (m : ClusterSegment) : ClusterSegment :=
  {| seg_ID := seg_ID m; seg_Type := seg_Type m; seg_OwnerNamespace := seg_OwnerNamespace m; seg_OwnerName := seg_OwnerName m;
     seg_Generation := seg_Generation m; seg_Shard := seg_Shard m; seg_CreatedAt := seg_CreatedAt m; seg_ClosedAt := v; seg_Nodes := seg_Nodes m;
     seg_Size := seg_Size m; seg_Sha1 := seg_Sha1 m |}.
Definition set_seg_Nodes (v : ClusterSegment_Nodes) (m : ClusterSegment) : ClusterSegment :=
  {| seg_ID := seg_ID m; seg_Type := seg_Type m; seg_OwnerNamespace := seg_OwnerNamespace m; seg_OwnerName := seg_OwnerName m;
     seg_Generation := seg_Generation m; seg_Shard := seg_Shard m; seg_CreatedAt := seg_CreatedAt m; seg_ClosedAt := seg_ClosedAt m;
     seg_Nodes := v; seg_Size := seg_Size m; seg_Sha1 := seg_Sha1 m |}.
Definition set_seg_Size (v : Z) (m : ClusterSegment) : ClusterSegment :=
  {| seg_ID := seg_ID m; seg_Type := seg_Type m; seg_OwnerNamespace := seg_OwnerNamespace m; seg_OwnerName := seg_OwnerName m;
     seg_Generation := seg_Generation m; seg_Shard := seg_Shard m; seg_CreatedAt := seg_CreatedAt m; seg_ClosedAt := seg_ClosedAt m;
     seg_Nodes := seg_Nodes m; seg_Size := v; seg_Sha1 := seg_Sha1 m |}.
Definition set_seg_Sha1 (v : list Z) (m : ClusterSegment) : ClusterSegment :=
  {| seg_ID := seg_ID m; seg_Type := seg_Type m; seg_OwnerNamespace := seg_OwnerNamespace m; seg_OwnerName := seg_OwnerName m;
     seg_Generation := seg_Generation m; seg_Shard := seg_Shard m; seg_CreatedAt := seg_CreatedAt m; seg_ClosedAt := seg_ClosedAt m;
     seg_Nodes := seg_Nodes m; seg_Size := seg_Size m; seg_Sha1 := v |}.

Definition ClusterSegment_fields : list (field ClusterSegment) :=
  [mk_field 1 uint64_field seg_ID set_seg_ID;
   mk_field 2 (ClusterSegment_Type_field) seg_Type set_seg_Type;
   mk_field 3 string_field seg_OwnerNamespace set_seg_OwnerNamespace;
   mk_field 4 string_field seg_OwnerName set_seg_OwnerName;
   mk_field 5 uint32_field seg_Generation set_seg_Generation;
   mk_field 6 uint32_field seg_Shard set_seg_Shard;
   mk_field 7 (value_field std_time) seg_CreatedAt set_seg_CreatedAt;
   mk_field 8 (value_field std_time) seg_ClosedAt set_seg_ClosedAt;
   mk_field 9 (value_field ClusterSegment_Nodes_msg) seg_Nodes set_seg_Nodes;
   mk_field 10 int64_field seg_Size set_seg_Size;
   mk_field 11 bytes_field seg_Sha1 set_seg_Sha1].
Definition ClusterSegment_msg : msgc ClusterSegment :=
  fields_codec {| seg_ID := 0; seg_Type := (ClusterSegment_Type_from 0); seg_OwnerNamespace := ""; seg_OwnerName := ""; seg_Generation := 0;
     seg_Shard := 0; seg_CreatedAt := (mc_default std_time); seg_ClosedAt := (mc_default std_time);
     seg_Nodes := (mc_default ClusterSegment_Nodes_msg); seg_Size := 0; seg_Sha1 := [] |} ClusterSegment_fields.

Definition set_node_ID (v : Z) (m : ClusterNode) : ClusterNode :=
  {| node_ID := v; node_Address := node_Address m; node_State := node_State m; node_LastSeenAlive := node_LastSeenAlive m |}.
Definition set_node_Address (v : string) (m : ClusterNode) : ClusterNode :=
  {| node_ID := node_ID m; node_Address := v; node_State := node_State m; node_LastSeenAlive := node_LastSeenAlive m |}.
Definition set_node_State (v : ClusterNode_State) (m : ClusterNode) : ClusterNode :=
  {| node_ID := node_ID m; node_Address := node_Address m; node_State := v; node_LastSeenAlive := node_LastSeenAlive m |}.
Definition set_node_LastSeenAlive (v : option Z) (m : ClusterNode) : ClusterNode :=
  {| node_ID := node_ID m; node_Address := node_Address m; node_State := node_State m; node_LastSeenAlive := v |}.

Definition ClusterNode_fields : list (field ClusterNode) :=
  [mk_field 1 uint64_field node_ID set_node_ID;
   mk_field 2 string_field node_Address set_node_Address;
   mk_field 3 (ClusterNode_State_field) node_State set_node_State;
   mk_field 4 (pointer_field std_time) node_LastSeenAlive set_node_LastSeenAlive].
Definition ClusterNode_msg : msgc ClusterNode :=
  fields_codec {| node_ID := 0; node_Address := ""; node_State := (ClusterNode_State_from 0); node_LastSeenAlive := None |} ClusterNode_fields.

Definition set_Index (v : Z) (m : ClusterState) : ClusterState :=
  {| Index := v; CurrentSegmentID := CurrentSegmentID m; Namespaces := Namespaces m; OpenSegments := OpenSegments m;
     ClosedSegments := ClosedSegments m; Nodes := Nodes m |}.
Definition set_CurrentSegmentID (v : Z) (m : ClusterState) : ClusterState :=
  {| Index := Index m; CurrentSegmentID := v; Namespaces := Namespaces m; OpenSegments := OpenSegments m; ClosedSegments := ClosedSegments m;
     Nodes := Nodes m |}.
Definition set_Namespaces (v : list ClusterNamespace) (m : ClusterState) : ClusterState :=
  {| Index := Index m; CurrentSegmentID := CurrentSegmentID m; Namespaces := v; OpenSegments := OpenSegments m; ClosedSegments := ClosedSegments m;
     Nodes := Nodes m |}.
Definition set_OpenSegments (v : list ClusterSegment) (m : ClusterState) : ClusterState :=
  {| Index := Index m; CurrentSegmentID := CurrentSegmentID m; Namespaces := Namespaces m; OpenSegments := v; ClosedSegments := ClosedSegments m;
     Nodes := Nodes m |}.
Definition set_ClosedSegments (v : list ClusterSegment) (m : ClusterState) : ClusterState :=
  {| Index := Index m; CurrentSegmentID := CurrentSegmentID m; Namespaces := Namespaces m; OpenSegments := OpenSegments m; ClosedSegments := v;
     Nodes := Nodes m |}.
Definition set_Nodes (v : list ClusterNode) (m : ClusterState) : ClusterState :=
  {| Index := Index m; CurrentSegmentID := CurrentSegmentID m; Namespaces := Namespaces m; OpenSegments := OpenSegments m;
     ClosedSegments := ClosedSegments m; Nodes := v |}.

Definition ClusterState_fields : list (field ClusterState) :=
  [mk_field 1 uint64_field Index set_Index;
   mk_field 2 uint64_field CurrentSegmentID set_CurrentSegmentID;
   mk_field 3 (repeated_field ClusterNamespace_msg) Namespaces set_Namespaces;
   mk_field 4 (repeated_field ClusterSegment_msg) OpenSegments set_OpenSegments;
   mk_field 5 (repeated_field ClusterSegment_msg) ClosedSegments set_ClosedSegments;
   mk_field 6 (repeated_field ClusterNode_msg) Nodes set_Nodes].
Definition ClusterState_msg : msgc ClusterState :=
  fields_codec {| Index := 0; CurrentSegmentID := 0; Namespaces := []; OpenSegments := []; ClosedSegments := []; Nodes := [] |} ClusterState_fields.

(** ** The commands *)

Definition set_nc_Namespace (v : string) (m : ClusterCommandNamespaceCreate) : ClusterCommandNamespaceCreate :=
  {| nc_Namespace := v |}.

Definition NamespaceCreate_fields : list (field ClusterCommandNamespaceCreate) :=
  [mk_field 1 string_field nc_Namespace set_nc_Namespace].
Definition NamespaceCreate_msg : msgc ClusterCommandNamespaceCreate :=
  fields_codec {| nc_Namespace := "" |} NamespaceCreate_fields.

Definition set_nd_Namespace (v : string) (m : ClusterCommandNamespaceDelete) : ClusterCommandNamespaceDelete :=
  {| nd_Namespace := v |}.

Definition NamespaceDelete_fields : list (field ClusterCommandNamespaceDelete) :=
  [mk_field 1 string_field nd_Namespace set_nd_Namespace].
Definition NamespaceDelete_msg : msgc ClusterCommandNamespaceDelete :=
  fields_codec {| nd_Namespace := "" |} NamespaceDelete_fields.

Definition set_tc_Namespace (v : string) (m : ClusterCommandTopicCreate) : ClusterCommandTopicCreate :=
  {| tc_Namespace := v; tc_Topic := tc_Topic m |}.
Definition set_tc_Topic (v : option ClusterTopic) (m : ClusterCommandTopicCreate) : ClusterCommandTopicCreate :=
  {| tc_Namespace := tc_Namespace m; tc_Topic := v |}.

Definition TopicCreate_fields : list (field ClusterCommandTopicCreate) :=
  [mk_field 1 string_field tc_Namespace set_tc_Namespace;
   mk_field 2 (pointer_field ClusterTopic_msg) tc_Topic set_tc_Topic].
Definition TopicCreate_msg : msgc ClusterCommandTopicCreate :=
  fields_codec {| tc_Namespace := ""; tc_Topic := None |} TopicCreate_fields.

Definition set_td_Namespace (v : string) (m : ClusterCommandTopicDelete) : ClusterCommandTopicDelete :=
  {| td_Namespace := v; td_Name := td_Name m |}.
Definition set_td_Name (v : string) (m : ClusterCommandTopicDelete) : ClusterCommandTopicDelete :=
  {| td_Namespace := td_Namespace m; td_Name := v |}.

Definition TopicDelete_fields : list (field ClusterCommandTopicDelete) :=
  [mk_field 1 string_field td_Namespace set_td_Namespace;
   mk_field 2 string_field td_Name set_td_Name].
Definition TopicDelete_msg : msgc ClusterCommandTopicDelete :=
  fields_codec {| td_Namespace := ""; td_Name := "" |} TopicDelete_fields.

Definition set_cgc_Namespace (v : string) (m : ClusterCommandConsumerGroupCreate) : ClusterCommandConsumerGroupCreate :=
  {| cgc_Namespace := v; cgc_ConsumerGroup := cgc_ConsumerGroup m |}.
Definition set_cgc_ConsumerGroup (v : option ClusterConsumerGroup) (m : ClusterCommandConsumerGroupCreate) : ClusterCommandConsumerGroupCreate :=
  {| cgc_Namespace := cgc_Namespace m; cgc_ConsumerGroup := v |}.

Definition ConsumerGroupCreate_fields : list (field ClusterCommandConsumerGroupCreate) :=
  [mk_field 1 string_field cgc_Namespace set_cgc_Namespace;
   mk_field 2 (pointer_field ClusterConsumerGroup_msg) cgc_ConsumerGroup set_cgc_ConsumerGroup].
Definition ConsumerGroupCreate_msg : msgc ClusterCommandConsumerGroupCreate :=
  fields_codec {| cgc_Namespace := ""; cgc_ConsumerGroup := None |} ConsumerGroupCreate_fields.

Definition set_cgd_Namespace (v : string) (m : ClusterCommandConsumerGroupDelete) : ClusterCommandConsumerGroupDelete :=
  {| cgd_Namespace := v; cgd_Name := cgd_Name m |}.
Definition set_cgd_Name (v : string) (m : ClusterCommandConsumerGroupDelete) : ClusterCommandConsumerGroupDelete :=
  {| cgd_Namespace := cgd_Namespace m; cgd_Name := v |}.

Definition ConsumerGroupDelete_fields : list (field ClusterCommandConsumerGroupDelete) :=
  [mk_field 1 string_field cgd_Namespace set_cgd_Namespace;
   mk_field 2 string_field cgd_Name set_cgd_Name].
Definition ConsumerGroupDelete_msg : msgc ClusterCommandConsumerGroupDelete :=
  fields_codec {| cgd_Namespace := ""; cgd_Name := "" |} ConsumerGroupDelete_fields.

Definition set_ocu_Namespace (v : string) (m : ClusterCommandConsumerGroupOffsetCommitsUpdate) : ClusterCommandConsumerGroupOffsetCommitsUpdate :=
  {| ocu_Namespace := v; ocu_Name := ocu_Name m; ocu_OffsetCommits := ocu_OffsetCommits m |}.
Definition set_ocu_Name (v : string) (m : ClusterCommandConsumerGroupOffsetCommitsUpdate) : ClusterCommandConsumerGroupOffsetCommitsUpdate :=
  {| ocu_Namespace := ocu_Namespace m; ocu_Name := v; ocu_OffsetCommits := ocu_OffsetCommits m |}.
Definition set_ocu_OffsetCommits (v : list ClusterConsumerGroup_OffsetCommit) (m : ClusterCommandConsumerGroupOffsetCommitsUpdate) : ClusterCommandConsumerGroupOffsetCommitsUpdate :=
  {| ocu_Namespace := ocu_Namespace m; ocu_Name := ocu_Name m; ocu_OffsetCommits := v |}.

Definition OffsetCommitsUpdate_fields : list (field ClusterCommandConsumerGroupOffsetCommitsUpdate) :=
  [mk_field 1 string_field ocu_Namespace set_ocu_Namespace;
   mk_field 2 string_field ocu_Name set_ocu_Name;
   mk_field 3 (repeated_field OffsetCommit_msg) ocu_OffsetCommits set_ocu_OffsetCommits].
Definition OffsetCommitsUpdate_msg : msgc ClusterCommandConsumerGroupOffsetCommitsUpdate :=
  fields_codec {| ocu_Namespace := ""; ocu_Name := ""; ocu_OffsetCommits := [] |} OffsetCommitsUpdate_fields.

Definition set_sc_ID (v : Z) (m : ClusterCommandSegmentCreate) : ClusterCommandSegmentCreate :=
  {| sc_ID := v; sc_Type := sc_Type m; sc_OwnerNamespace := sc_OwnerNamespace m; sc_OwnerName := sc_OwnerName m; sc_Generation := sc_Generation m;
     sc_Shard := sc_Shard m; sc_OpenedAt := sc_OpenedAt m; sc_PrimaryNodeID := sc_PrimaryNodeID m;
     sc_ReplicatingNodeIDs := sc_ReplicatingNodeIDs m |}.
Definition set_sc_Type (v : ClusterSegment_Type) (m : ClusterCommandSegmentCreate) : ClusterCommandSegmentCreate :=
  {| sc_ID := sc_ID m; sc_Type := v; sc_OwnerNamespace := sc_OwnerNamespace m; sc_OwnerName := sc_OwnerName m; sc_Generation := sc_Generation m;
     sc_Shard := sc_Shard m; sc_OpenedAt := sc_OpenedAt m; sc_PrimaryNodeID := sc_PrimaryNodeID m;
     sc_ReplicatingNodeIDs := sc_ReplicatingNodeIDs m |}.
Definition set_sc_OwnerNamespace (v : string) (m : ClusterCommandSegmentCreate) : ClusterCommandSegmentCreate :=
  {| sc_ID := sc_ID m; sc_Type := sc_Type m; sc_OwnerNamespace := v; sc_OwnerName := sc_OwnerName m; sc_Generation := sc_Generation m;
     sc_Shard := sc_Shard m; sc_OpenedAt := sc_OpenedAt m; sc_PrimaryNodeID := sc_PrimaryNodeID m;
     sc_ReplicatingNodeIDs := sc_ReplicatingNodeIDs m |}.
Definition set_sc_OwnerName (v : string) (m : ClusterCommandSegmentCreate) : ClusterCommandSegmentCreate :=
  {| sc_ID := sc_ID m; sc_Type := sc_Type m; sc_OwnerNamespace := sc_OwnerNamespace m; sc_OwnerName := v; sc_Generation := sc_Generation m;
     sc_Shard := sc_Shard m; sc_OpenedAt := sc_OpenedAt m; sc_PrimaryNodeID := sc_PrimaryNodeID m;
     sc_ReplicatingNodeIDs := sc_ReplicatingNodeIDs m |}.
Definition set_sc_Generation (v : Z) (m : ClusterCommandSegmentCreate) : ClusterCommandSegmentCreate :=
  {| sc_ID := sc_ID m; sc_Type := sc_Type m; sc_OwnerNamespace := sc_OwnerNamespace m; sc_OwnerName := sc_OwnerName m; sc_Generation := v;
     sc_Shard := sc_Shard m; sc_OpenedAt := sc_OpenedAt m; sc_PrimaryNodeID := sc_PrimaryNodeID m;
     sc_ReplicatingNodeIDs := sc_ReplicatingNodeIDs m |}.
Definition set_sc_Shard (v : Z) (m : ClusterCommandSegmentCreate) : ClusterCommandSegmentCreate :=
  {| sc_ID := sc_ID m; sc_Type := sc_Type m; sc_OwnerNamespace := sc_OwnerNamespace m; sc_OwnerName := sc_OwnerName m;
     sc_Generation := sc_Generation m; sc_Shard := v; sc_OpenedAt := sc_OpenedAt m; sc_PrimaryNodeID := sc_PrimaryNodeID m;
     sc_ReplicatingNodeIDs := sc_ReplicatingNodeIDs m |}.
Definition set_sc_OpenedAt (v : Z) (m : ClusterCommandSegmentCreate) : ClusterCommandSegmentCreate :=
  {| sc_ID := sc_ID m; sc_Type := sc_Type m; sc_OwnerNamespace := sc_OwnerNamespace m; sc_OwnerName := sc_OwnerName m;
     sc_Generation := sc_Generation m; sc_Shard := sc_Shard m; sc_OpenedAt := v; sc_PrimaryNodeID := sc_PrimaryNodeID m;
     sc_ReplicatingNodeIDs := sc_ReplicatingNodeIDs m |}.
Definition set_sc_PrimaryNodeID (v : Z) (m : ClusterCommandSegmentCreate) : ClusterCommandSegmentCreate :=
  {| sc_ID := sc_ID m; sc_Type := sc_Type m; sc_OwnerNamespace := sc_OwnerNamespace m; sc_OwnerName := sc_OwnerName m;
     sc_Generation := sc_Generation m; sc_Shard := sc_Shard m; sc_OpenedAt := sc_OpenedAt m; sc_PrimaryNodeID := v;
     sc_ReplicatingNodeIDs := sc_ReplicatingNodeIDs m |}.
Definition set_sc_ReplicatingNodeIDs (v : list Z) (m : ClusterCommandSegmentCreate) : ClusterCommandSegmentCreate :=
  {| sc_ID := sc_ID m; sc_Type := sc_Type m; sc_OwnerNamespace := sc_OwnerNamespace m; sc_OwnerName := sc_OwnerName m;
     sc_Generation := sc_Generation m; sc_Shard := sc_Shard m; sc_OpenedAt := sc_OpenedAt m; sc_PrimaryNodeID := sc_PrimaryNodeID m;
     sc_ReplicatingNodeIDs := v |}.

Definition SegmentCreate_fields : list (field ClusterCommandSegmentCreate) :=
  [mk_field 1 uint64_field sc_ID set_sc_ID;
   mk_field 2 (ClusterSegment_Type_field) sc_Type set_sc_Type;
   mk_field 3 string_field sc_OwnerNamespace set_sc_OwnerNamespace;
   mk_field 4 string_field sc_OwnerName set_sc_OwnerName;
   mk_field 5 uint32_field sc_Generation set_sc_Generation;
   mk_field 6 uint32_field sc_Shard set_sc_Shard;
   mk_field 7 (value_field std_time) sc_OpenedAt set_sc_OpenedAt;
   mk_field 8 uint64_field sc_PrimaryNodeID set_sc_PrimaryNodeID;
   mk_field 9 packed_field sc_ReplicatingNodeIDs set_sc_ReplicatingNodeIDs].
Definition SegmentCreate_msg : msgc ClusterCommandSegmentCreate :=
  fields_codec {| sc_ID := 0; sc_Type := (ClusterSegment_Type_from 0); sc_OwnerNamespace := ""; sc_OwnerName := ""; sc_Generation := 0;
     sc_Shard := 0; sc_OpenedAt := (mc_default std_time); sc_PrimaryNodeID := 0; sc_ReplicatingNodeIDs := [] |} SegmentCreate_fields.

Definition set_scl_ID (v : Z) (m : ClusterCommandSegmentClose) : ClusterCommandSegmentClose :=
  {| scl_ID := v; scl_DoneNodeID := scl_DoneNodeID m; scl_ClosedAt := scl_ClosedAt m; scl_Size := scl_Size m; scl_Sha1 := scl_Sha1 m |}.
Definition set_scl_DoneNodeID (v : Z) (m : ClusterCommandSegmentClose) : ClusterCommandSegmentClose :=
  {| scl_ID := scl_ID m; scl_DoneNodeID := v; scl_ClosedAt := scl_ClosedAt m; scl_Size := scl_Size m; scl_Sha1 := scl_Sha1 m |}.
Definition set_scl_ClosedAt (v : Z) (m : ClusterCommandSegmentClose) : ClusterCommandSegmentClose :=
  {| scl_ID := scl_ID m; scl_DoneNodeID := scl_DoneNodeID m; scl_ClosedAt := v; scl_Size := scl_Size m; scl_Sha1 := scl_Sha1 m |}.
Definition set_scl_Size (v : Z) (m : ClusterCommandSegmentClose) : ClusterCommandSegmentClose :=
  {| scl_ID := scl_ID m; scl_DoneNodeID := scl_DoneNodeID m; scl_ClosedAt := scl_ClosedAt m; scl_Size := v; scl_Sha1 := scl_Sha1 m |}.
Definition set_scl_Sha1 (v : list Z) (m : ClusterCommandSegmentClose) : ClusterCommandSegmentClose :=
  {| scl_ID := scl_ID m; scl_DoneNodeID := scl_DoneNodeID m; scl_ClosedAt := scl_ClosedAt m; scl_Size := scl_Size m; scl_Sha1 := v |}.

Definition SegmentClose_fields : list (field ClusterCommandSegmentClose) :=
  [mk_field 1 uint64_field scl_ID set_scl_ID;
   mk_field 2 uint64_field scl_DoneNodeID set_scl_DoneNodeID;
   mk_field 4 (value_field std_time) scl_ClosedAt set_scl_ClosedAt;
   mk_field 5 int64_field scl_Size set_scl_Size;
   mk_field 6 bytes_field scl_Sha1 set_scl_Sha1].
Definition SegmentClose_msg : msgc ClusterCommandSegmentClose :=
  fields_codec {| scl_ID := 0; scl_DoneNodeID := 0; scl_ClosedAt := (mc_default std_time); scl_Size := 0; scl_Sha1 := [] |} SegmentClose_fields.

Definition set_nu_ID (v : Z) (m : ClusterCommandNodeUpdate) : ClusterCommandNodeUpdate :=
  {| nu_ID := v; nu_Address := nu_Address m; nu_State := nu_State m; nu_LastSeenAlive := nu_LastSeenAlive m |}.
Definition set_nu_Address (v : string) (m : ClusterCommandNodeUpdate) : ClusterCommandNodeUpdate :=
  {| nu_ID := nu_ID m; nu_Address := v; nu_State := nu_State m; nu_LastSeenAlive := nu_LastSeenAlive m |}.
Definition set_nu_State (v : ClusterNode_State) (m : ClusterCommandNodeUpdate) : ClusterCommandNodeUpdate :=
  {| nu_ID := nu_ID m; nu_Address := nu_Address m; nu_State := v; nu_LastSeenAlive := nu_LastSeenAlive m |}.
Definition set_nu_LastSeenAlive (v : option Z) (m : ClusterCommandNodeUpdate) : ClusterCommandNodeUpdate :=
  {| nu_ID := nu_ID m; nu_Address := nu_Address m; nu_State := nu_State m; nu_LastSeenAlive := v |}.

Definition NodeUpdate_fields : list (field ClusterCommandNodeUpdate) :=
  [mk_field 1 uint64_field nu_ID set_nu_ID;
   mk_field 2 string_field nu_Address set_nu_Address;
   mk_field 3 (ClusterNode_State_field) nu_State set_nu_State;
   mk_field 4 (pointer_field std_time) nu_LastSeenAlive set_nu_LastSeenAlive].
Definition NodeUpdate_msg : msgc ClusterCommandNodeUpdate :=
  fields_codec {| nu_ID := 0; nu_Address := ""; nu_State := (ClusterNode_State_from 0); nu_LastSeenAlive := None |} NodeUpdate_fields.

Definition set_snu_ID (v : Z) (m : ClusterCommandSegmentNodesUpdate) : ClusterCommandSegmentNodesUpdate :=
  {| snu_ID := v; snu_Which := snu_Which m; snu_Nodes := snu_Nodes m |}.
Definition set_snu_Which (v : Which) (m : ClusterCommandSegmentNodesUpdate) : ClusterCommandSegmentNodesUpdate :=
  {| snu_ID := snu_ID m; snu_Which := v; snu_Nodes := snu_Nodes m |}.
Definition set_snu_Nodes (v : ClusterSegment_Nodes) (m : ClusterCommandSegmentNodesUpdate) : ClusterCommandSegmentNodesUpdate :=
  {| snu_ID := snu_ID m; snu_Which := snu_Which m; snu_Nodes := v |}.

Definition SegmentNodesUpdate_fields : list (field ClusterCommandSegmentNodesUpdate) :=
  [mk_field 1 uint64_field snu_ID set_snu_ID;
   mk_field 2 (Which_field) snu_Which set_snu_Which;
   mk_field 3 (value_field ClusterSegment_Nodes_msg) snu_Nodes set_snu_Nodes].
Definition SegmentNodesUpdate_msg : msgc ClusterCommandSegmentNodesUpdate :=
  fields_codec {| snu_ID := 0; snu_Which := (Which_from 0); snu_Nodes := (mc_default ClusterSegment_Nodes_msg) |} SegmentNodesUpdate_fields.

Definition set_sd_ID (v : Z) (m : ClusterCommandSegmentDelete) : ClusterCommandSegmentDelete :=
  {| sd_ID := v; sd_Which := sd_Which m |}.
Definition set_sd_Which (v : Which) (m : ClusterCommandSegmentDelete) : ClusterCommandSegmentDelete :=
  {| sd_ID := sd_ID m; sd_Which := v |}.

Definition SegmentDelete_fields : list (field ClusterCommandSegmentDelete) :=
  [mk_field 1 uint64_field sd_ID set_sd_ID;
   mk_field 2 (Which_field) sd_Which set_sd_Which].
Definition SegmentDelete_msg : msgc ClusterCommandSegmentDelete :=
  fields_codec {| sd_ID := 0; sd_Which := (Which_from 0) |} SegmentDelete_fields.

(** The oneof [command]. *)
Definition get_CreateNamespace (m : ClusterCommand) : option ClusterCommandNamespaceCreate := match m with CreateNamespace cmd => Some cmd | _ => None end.
Definition set_CreateNamespace (v : option ClusterCommandNamespaceCreate) (m : ClusterCommand) : ClusterCommand :=
  match v with
  | Some cmd => CreateNamespace cmd
  | None => match m with CreateNamespace _ => UnsetCommand | _ => m end
  end.
Definition get_DeleteNamespace (m : ClusterCommand) : option ClusterCommandNamespaceDelete := match m with DeleteNamespace cmd => Some cmd | _ => None end.
Definition set_DeleteNamespace (v : option ClusterCommandNamespaceDelete) (m : ClusterCommand) : ClusterCommand :=
  match v with
  | Some cmd => DeleteNamespace cmd
  | None => match m with DeleteNamespace _ => UnsetCommand | _ => m end
  end.
Definition get_CreateTopic (m : ClusterCommand) : option ClusterCommandTopicCreate := match m with CreateTopic cmd => Some cmd | _ => None end.
Definition set_CreateTopic (v : option ClusterCommandTopicCreate) (m : ClusterCommand) : ClusterCommand :=
  match v with
  | Some cmd => CreateTopic cmd
  | None => match m with CreateTopic _ => UnsetCommand | _ => m end
  end.
Definition get_DeleteTopic (m : ClusterCommand) : option ClusterCommandTopicDelete := match m with DeleteTopic cmd => Some cmd | _ => None end.
Definition set_DeleteTopic (v : option ClusterCommandTopicDelete) (m : ClusterCommand) : ClusterCommand :=
  match v with
  | Some cmd => DeleteTopic cmd
  | None => match m with DeleteTopic _ => UnsetCommand | _ => m end
  end.
Definition get_CreateConsumerGroup (m : ClusterCommand) : option ClusterCommandConsumerGroupCreate := match m with CreateConsumerGroup cmd => Some cmd | _ => None end.
Definition set_CreateConsumerGroup (v : option ClusterCommandConsumerGroupCreate) (m : ClusterCommand) : ClusterCommand :=
  match v with
  | Some cmd => CreateConsumerGroup cmd
  | None => match m with CreateConsumerGroup _ => UnsetCommand | _ => m end
  end.
Definition get_DeleteConsumerGroup (m : ClusterCommand) : option ClusterCommandConsumerGroupDelete := match m with DeleteConsumerGroup cmd => Some cmd | _ => None end.
Definition set_DeleteConsumerGroup (v : option ClusterCommandConsumerGroupDelete) (m : ClusterCommand) : ClusterCommand :=
  match v with
  | Some cmd => DeleteConsumerGroup cmd
  | None => match m with DeleteConsumerGroup _ => UnsetCommand | _ => m end
  end.
Definition get_UpdateConsumerGroupOffsetCommits (m : ClusterCommand) : option ClusterCommandConsumerGroupOffsetCommitsUpdate := match m with UpdateConsumerGroupOffsetCommits cmd => Some cmd | _ => None end.
Definition set_UpdateConsumerGroupOffsetCommits (v : option ClusterCommandConsumerGroupOffsetCommitsUpdate) (m : ClusterCommand) : ClusterCommand :=
  match v with
  | Some cmd => UpdateConsumerGroupOffsetCommits cmd
  | None => match m with UpdateConsumerGroupOffsetCommits _ => UnsetCommand | _ => m end
  end.
Definition get_CreateSegment (m : ClusterCommand) : option ClusterCommandSegmentCreate := match m with CreateSegment cmd => Some cmd | _ => None end.
Definition set_CreateSegment (v : option ClusterCommandSegmentCreate) (m : ClusterCommand) : ClusterCommand :=
  match v with
  | Some cmd => CreateSegment cmd
  | None => match m with CreateSegment _ => UnsetCommand | _ => m end
  end.
Definition get_DeleteSegment (m : ClusterCommand) : option ClusterCommandSegmentDelete := match m with DeleteSegment cmd => Some cmd | _ => None end.
Definition set_DeleteSegment (v : option ClusterCommandSegmentDelete) (m : ClusterCommand) : ClusterCommand :=
  match v with
  | Some cmd => DeleteSegment cmd
  | None => match m with DeleteSegment _ => UnsetCommand | _ => m end
  end.
Definition get_CloseSegment (m : ClusterCommand) : option ClusterCommandSegmentClose := match m with CloseSegment cmd => Some cmd | _ => None end.
Definition set_CloseSegment (v : option ClusterCommandSegmentClose) (m : ClusterCommand) : ClusterCommand :=
  match v with
  | Some cmd => CloseSegment cmd
  | None => match m with CloseSegment _ => UnsetCommand | _ => m end
  end.
Definition get_UpdateSegmentNodes (m : ClusterCommand) : option ClusterCommandSegmentNodesUpdate := match m with UpdateSegmentNodes cmd => Some cmd | _ => None end.
Definition set_UpdateSegmentNodes (v : option ClusterCommandSegmentNodesUpdate) (m : ClusterCommand) : ClusterCommand :=
  match v with
  | Some cmd => UpdateSegmentNodes cmd
  | None => match m with UpdateSegmentNodes _ => UnsetCommand | _ => m end
  end.
Definition get_UpdateNode (m : ClusterCommand) : option ClusterCommandNodeUpdate := match m with UpdateNode cmd => Some cmd | _ => None end.
Definition set_UpdateNode (v : option ClusterCommandNodeUpdate) (m : ClusterCommand) : ClusterCommand :=
  match v with
  | Some cmd => UpdateNode cmd
  | None => match m with UpdateNode _ => UnsetCommand | _ => m end
  end.

Definition ClusterCommand_fields : list (field ClusterCommand) :=
  [mk_field 10 (oneof_field NamespaceCreate_msg) get_CreateNamespace set_CreateNamespace;
   mk_field 11 (oneof_field NamespaceDelete_msg) get_DeleteNamespace set_DeleteNamespace;
   mk_field 20 (oneof_field TopicCreate_msg) get_CreateTopic set_CreateTopic;
   mk_field 21 (oneof_field TopicDelete_msg) get_DeleteTopic set_DeleteTopic;
   mk_field 30 (oneof_field ConsumerGroupCreate_msg) get_CreateConsumerGroup set_CreateConsumerGroup;
   mk_field 31 (oneof_field ConsumerGroupDelete_msg) get_DeleteConsumerGroup set_DeleteConsumerGroup;
   mk_field 32 (oneof_field OffsetCommitsUpdate_msg) get_UpdateConsumerGroupOffsetCommits set_UpdateConsumerGroupOffsetCommits;
   mk_field 40 (oneof_field SegmentCreate_msg) get_CreateSegment set_CreateSegment;
   mk_field 41 (oneof_field SegmentDelete_msg) get_DeleteSegment set_DeleteSegment;
   mk_field 42 (oneof_field SegmentClose_msg) get_CloseSegment set_CloseSegment;
   mk_field 43 (oneof_field SegmentNodesUpdate_msg) get_UpdateSegmentNodes set_UpdateSegmentNodes;
   mk_field 50 (oneof_field NodeUpdate_msg) get_UpdateNode set_UpdateNode].
Definition ClusterCommand_msg : msgc ClusterCommand := fields_codec UnsetCommand ClusterCommand_fields.

#[export] Instance ClusterState_codec : Codec ClusterState :=
  {| Marshal := msg_Marshal ClusterState_msg; Unmarshal := msg_Unmarshal ClusterState_msg |}.
#[export] Instance ClusterCommand_codec : Codec ClusterCommand :=
  {| Marshal := msg_Marshal ClusterCommand_msg; Unmarshal := msg_Unmarshal ClusterCommand_msg |}.

End codec.

(** ** What is written is read back *)

Ltac by_fields schema := apply fields_roundtrip; [apply schema|by match goal with m : _ |- builds _ _ ?m => destruct m end|write_fields].

Lemma segment_type_writes t : segment_type_ok t → writes ClusterSegment_Type_field t.
Proof.
  intros Ht. apply varint_field_writes; [|destruct t; [done..|cbn in *; lia]]. unfold ClusterSegment_Type_from. rewrite i32_u64 by (destruct t; cbn in *; lia).
  destruct t as [| | |n]; [done..|]. cbn in *. repeat case_if; bool_to_prop; [lia..|done].
Qed.

Lemma node_state_writes t : node_state_ok t → writes ClusterNode_State_field t.
Proof.
  intros Ht. apply varint_field_writes; [|destruct t; [done..|cbn in *; lia]]. unfold ClusterNode_State_from. rewrite i32_u64 by (destruct t; cbn in *; lia).
  destruct t as [| |n]; [done..|]. cbn in *. repeat case_if; bool_to_prop; [lia..|done].
Qed.

Lemma which_writes t : which_ok t → writes Which_field t.
Proof.
  intros Ht. apply varint_field_writes; [|destruct t; [done..|cbn in *; lia]]. unfold Which_from. rewrite i32_u64 by (destruct t; cbn in *; lia).
  destruct t as [| | |n]; [done..|]. cbn in *. repeat case_if; bool_to_prop; [lia..|done].
Qed.

#[export] Hint Resolve segment_type_writes node_state_writes which_writes OffsetCommit_writes : proto.

Section codec.

Context `{WellKnown} (time_ok : Z → Prop) (struct_ok : Struct → Prop) `{!WellKnownLaw time_ok struct_ok}.

(** ** Values that fit their types *)

Definition u32_ok (z : Z) : Prop := 0 ≤ z < 2 ^ 32.
Definition u64_ok (z : Z) : Prop := 0 ≤ z < 2 ^ 64.
Definition i64_ok (z : Z) : Prop := - 2 ^ 63 ≤ z < 2 ^ 63.

Record topic_fits (t : ClusterTopic) : Prop := {
  tf_shards : u32_ok (topic_Shards t); tf_factor : u32_ok (topic_ReplicationFactor t); tf_retention : i64_ok (topic_Retention t) }.

(** A oneof that holds a nil struct is written as an unset one. *)
Definition by_fits (b : Binding_By) : Prop :=
  match b with
  | By_nil | By_RoutingKey _ => True
  | By_HeadersAll o | By_HeadersAny o => ∃ s, o = Some s ∧ struct_ok s
  end.

Definition binding_fits (b : ClusterConsumerGroup_Binding) : Prop := by_fits (b_By b).

Record group_fits (g : ClusterConsumerGroup) : Prop := {
  gf_bindings : Forall binding_fits (cg_Bindings g); gf_size : u32_ok (cg_Size g); gf_since : time_ok (cg_Since g);
  gf_commits : Forall commit_ok (cg_OffsetCommits g) }.

Record namespace_fits (n : ClusterNamespace) : Prop := {
  nf_topics : Forall topic_fits (ns_Topics n); nf_groups : Forall group_fits (ns_ConsumerGroups n) }.

Record nodes_fit (n : ClusterSegment_Nodes) : Prop := {
  nof_primary : u64_ok (PrimaryNodeID n); nof_done : Forall u64_ok (DoneNodeIDs n); nof_replicating : Forall u64_ok (ReplicatingNodeIDs n) }.

Record segment_fits (s : ClusterSegment) : Prop := {
  sf_id : u64_ok (seg_ID s); sf_type : segment_type_ok (seg_Type s); sf_generation : u32_ok (seg_Generation s); sf_shard : u32_ok (seg_Shard s);
  sf_created : time_ok (seg_CreatedAt s); sf_closed : time_ok (seg_ClosedAt s); sf_nodes : nodes_fit (seg_Nodes s); sf_size : i64_ok (seg_Size s) }.

Record node_fits (n : ClusterNode) : Prop := {
  ndf_id : u64_ok (node_ID n); ndf_state : node_state_ok (node_State n); ndf_seen : ∀ t, node_LastSeenAlive n = Some t → time_ok t }.

Record state_fits (s : ClusterState) : Prop := {
  stf_index : u64_ok (Index s); stf_current : u64_ok (CurrentSegmentID s); stf_namespaces : Forall namespace_fits (Namespaces s);
  stf_open : Forall segment_fits (OpenSegments s); stf_closed : Forall segment_fits (ClosedSegments s); stf_nodes : Forall node_fits (Nodes s) }.

Definition command_fits (c : ClusterCommand) : Prop :=
  match c with
  | CreateNamespace _ | DeleteNamespace _ | DeleteTopic _ | DeleteConsumerGroup _ | UnsetCommand => True
  | CreateTopic cmd => ∀ t, tc_Topic cmd = Some t → topic_fits t
  | CreateConsumerGroup cmd => ∀ g, cgc_ConsumerGroup cmd = Some g → group_fits g
  | UpdateConsumerGroupOffsetCommits cmd => Forall commit_ok (ocu_OffsetCommits cmd)
  | CreateSegment cmd =>
    u64_ok (sc_ID cmd) ∧ segment_type_ok (sc_Type cmd) ∧ u32_ok (sc_Generation cmd) ∧ u32_ok (sc_Shard cmd) ∧ time_ok (sc_OpenedAt cmd) ∧
    u64_ok (sc_PrimaryNodeID cmd) ∧ Forall u64_ok (sc_ReplicatingNodeIDs cmd)
  | DeleteSegment cmd => u64_ok (sd_ID cmd) ∧ which_ok (sd_Which cmd)
  | CloseSegment cmd => u64_ok (scl_ID cmd) ∧ u64_ok (scl_DoneNodeID cmd) ∧ time_ok (scl_ClosedAt cmd) ∧ i64_ok (scl_Size cmd)
  | UpdateSegmentNodes cmd => u64_ok (snu_ID cmd) ∧ which_ok (snu_Which cmd) ∧ nodes_fit (snu_Nodes cmd)
  | UpdateNode cmd => u64_ok (nu_ID cmd) ∧ node_state_ok (nu_State cmd) ∧ ∀ t, nu_LastSeenAlive cmd = Some t → time_ok t
  end.

(** ** Messages *)

Lemma time_hint t : time_ok t → msg_writes std_time t.
Proof. apply time_writes. Qed.
Lemma duration_hint d : i64_ok d → msg_writes std_duration d.
Proof. apply duration_writes. Qed.
Lemma struct_hint s : struct_ok s → msg_writes std_struct s.
Proof. apply struct_writes. Qed.
#[local] Hint Resolve time_hint duration_hint struct_hint : proto.
#[local] Hint Unfold u32_ok u64_ok i64_ok : proto.

(** A list of messages that fit. *)
Lemma repeated_fits {M} (c : msgc M) (fits : M → Prop) l : Forall fits l → (∀ m, fits m → msg_writes c m) → writes (repeated_field c) l.
Proof. intros Hl Hc. apply repeated_writes. eapply Forall_impl; [exact Hl|exact Hc]. Qed.

Lemma pointer_fits {M} (c : msgc M) (fits : M → Prop) o : (∀ m, o = Some m → fits m) → (∀ m, fits m → msg_writes c m) → writes (pointer_field c) o.
Proof. intros Ho Hc. apply pointer_writes. auto. Qed.

Lemma packed_fits l : Forall u64_ok l → writes packed_field l.
Proof. apply packed_writes. Qed.
#[local] Hint Resolve repeated_fits pointer_fits packed_fits : proto.

Lemma topic_writes t : topic_fits t → msg_writes ClusterTopic_msg t.
Proof. intros []. by_fields (ltac:(solve_schema) : schema_ok ClusterTopic_fields). Qed.

Lemma binding_writes b : binding_fits b → msg_writes Binding_msg b.
Proof.
  unfold binding_fits. intros Hb. apply fields_roundtrip; [solve_schema|destruct b as [t e []]; cbn in Hb; [done|done|destruct Hb as (s & -> & _); done..]|].
  write_fields; apply oneof_writes; destruct b as [t e []]; cbn in *; try done; destruct Hb as (s & -> & Hs); intros m [= <-]; eauto with proto.
Qed.
#[local] Hint Resolve topic_writes binding_writes : proto.

Lemma nodes_writes m : nodes_fit m → msg_writes ClusterSegment_Nodes_msg m.
Proof. intros []. by_fields (ltac:(solve_schema) : schema_ok ClusterSegment_Nodes_fields). Qed.
#[local] Hint Resolve nodes_writes : proto.

Lemma group_writes m : group_fits m → msg_writes ClusterConsumerGroup_msg m.
Proof. intros []. by_fields (ltac:(solve_schema) : schema_ok ClusterConsumerGroup_fields). Qed.
#[local] Hint Resolve group_writes : proto.

Lemma namespace_writes m : namespace_fits m → msg_writes ClusterNamespace_msg m.
Proof. intros []. by_fields (ltac:(solve_schema) : schema_ok ClusterNamespace_fields). Qed.
#[local] Hint Resolve namespace_writes : proto.

Lemma segment_writes m : segment_fits m → msg_writes ClusterSegment_msg m.
Proof. intros []. by_fields (ltac:(solve_schema) : schema_ok ClusterSegment_fields). Qed.
#[local] Hint Resolve segment_writes : proto.

Lemma node_writes m : node_fits m → msg_writes ClusterNode_msg m.
Proof. intros []. by_fields (ltac:(solve_schema) : schema_ok ClusterNode_fields). Qed.
#[local] Hint Resolve node_writes : proto.

Lemma state_writes m : state_fits m → msg_writes ClusterState_msg m.
Proof. intros []. by_fields (ltac:(solve_schema) : schema_ok ClusterState_fields). Qed.
#[local] Hint Resolve state_writes : proto.

(** ** Commands *)

Lemma TopicCreate_writes cmd : command_fits (CreateTopic cmd) → msg_writes TopicCreate_msg cmd.
Proof. cbn. intros; destruct_and?. by_fields (ltac:(solve_schema) : schema_ok TopicCreate_fields). Qed.
Lemma ConsumerGroupCreate_writes cmd : command_fits (CreateConsumerGroup cmd) → msg_writes ConsumerGroupCreate_msg cmd.
Proof. cbn. intros; destruct_and?. by_fields (ltac:(solve_schema) : schema_ok ConsumerGroupCreate_fields). Qed.
Lemma OffsetCommitsUpdate_writes cmd : command_fits (UpdateConsumerGroupOffsetCommits cmd) → msg_writes OffsetCommitsUpdate_msg cmd.
Proof. cbn. intros; destruct_and?. by_fields (ltac:(solve_schema) : schema_ok OffsetCommitsUpdate_fields). Qed.
Lemma SegmentCreate_writes cmd : command_fits (CreateSegment cmd) → msg_writes SegmentCreate_msg cmd.
Proof. cbn. intros; destruct_and?. by_fields (ltac:(solve_schema) : schema_ok SegmentCreate_fields). Qed.
Lemma SegmentDelete_writes cmd : command_fits (DeleteSegment cmd) → msg_writes SegmentDelete_msg cmd.
Proof. cbn. intros; destruct_and?. by_fields (ltac:(solve_schema) : schema_ok SegmentDelete_fields). Qed.
Lemma SegmentClose_writes cmd : command_fits (CloseSegment cmd) → msg_writes SegmentClose_msg cmd.
Proof. cbn. intros; destruct_and?. by_fields (ltac:(solve_schema) : schema_ok SegmentClose_fields). Qed.
Lemma SegmentNodesUpdate_writes cmd : command_fits (UpdateSegmentNodes cmd) → msg_writes SegmentNodesUpdate_msg cmd.
Proof. cbn. intros; destruct_and?. by_fields (ltac:(solve_schema) : schema_ok SegmentNodesUpdate_fields). Qed.
Lemma NodeUpdate_writes cmd : command_fits (UpdateNode cmd) → msg_writes NodeUpdate_msg cmd.
Proof. cbn. intros; destruct_and?. by_fields (ltac:(solve_schema) : schema_ok NodeUpdate_fields). Qed.
Lemma NamespaceCreate_writes cmd : command_fits (CreateNamespace cmd) → msg_writes NamespaceCreate_msg cmd.
Proof. cbn. intros; destruct_and?. by_fields (ltac:(solve_schema) : schema_ok NamespaceCreate_fields). Qed.
Lemma NamespaceDelete_writes cmd : command_fits (DeleteNamespace cmd) → msg_writes NamespaceDelete_msg cmd.
Proof. cbn. intros; destruct_and?. by_fields (ltac:(solve_schema) : schema_ok NamespaceDelete_fields). Qed.
Lemma TopicDelete_writes cmd : command_fits (DeleteTopic cmd) → msg_writes TopicDelete_msg cmd.
Proof. cbn. intros; destruct_and?. by_fields (ltac:(solve_schema) : schema_ok TopicDelete_fields). Qed.
Lemma ConsumerGroupDelete_writes cmd : command_fits (DeleteConsumerGroup cmd) → msg_writes ConsumerGroupDelete_msg cmd.
Proof. cbn. intros; destruct_and?. by_fields (ltac:(solve_schema) : schema_ok ConsumerGroupDelete_fields). Qed.
#[local] Hint Resolve TopicCreate_writes ConsumerGroupCreate_writes OffsetCommitsUpdate_writes SegmentCreate_writes SegmentDelete_writes SegmentClose_writes SegmentNodesUpdate_writes NodeUpdate_writes NamespaceCreate_writes NamespaceDelete_writes TopicDelete_writes ConsumerGroupDelete_writes : proto.

Lemma command_writes c : command_fits c → msg_writes ClusterCommand_msg c.
Proof.
  intros Hc. apply fields_roundtrip; [solve_schema|by destruct c|]. write_fields; apply oneof_writes; destruct c; try done; intros m [= <-]; eauto with proto.
Qed.

(** What fits, in a buffer that can be allocated. *)
Definition state_ok (s : ClusterState) : Prop := state_fits s ∧ mc_size ClusterState_msg s < 2 ^ 63.
Definition command_ok (c : ClusterCommand) : Prop := command_fits c ∧ mc_size ClusterCommand_msg c < 2 ^ 63.

#[export] Instance ClusterState_law : CodecLaw ClusterState state_ok.
Proof. intros s [Hs Hl]. apply msg_roundtrip; [by apply state_writes|done]. Qed.

#[export] Instance ClusterCommand_law : CodecLaw ClusterCommand command_ok.
Proof. intros c [Hc Hl]. apply msg_roundtrip; [by apply command_writes|done]. Qed.

End codec.

(** ** The log and the snapshots of Raft *)

(** What the commands of the log do to the state. *)
Fixpoint do_log (s : ClusterState) (log : list (Z * ClusterCommand)) : fsm ClusterState :=
  match log with
  | [] => Ok s
  | (index, cmd) :: log => s ← Do s index (Some cmd); do_log s log
  end.

(** The entry that was made from a command. *)
Definition entry_of `{WellKnown} (c : Z * ClusterCommand) (e : LogEntry) : Prop :=
  le_Index e = c.1 ∧ le_Command e = true ∧ Marshal c.2 = Ok (le_Data e).

Lemma apply_entries `{WellKnown} time_ok struct_ok `{!WellKnownLaw time_ok struct_ok} log entries :
  Forall (λ c, command_ok time_ok struct_ok c.2) log → Forall2 entry_of log entries → ∀ s, apply_log s entries = do_log s log.
Proof.
  intros Hok H2. induction H2 as [|[index cmd] [i command data] log entries (Hi & Hc & Hm) H2 IH]; intros s; [done|].
  cbn [le_Index le_Command le_Data fst snd] in Hi, Hc, Hm. subst i command. apply Forall_cons in Hok as [Hcmd Hok]. cbn [apply_log do_log]. destruct (codec_roundtrip cmd Hcmd) as (bytes & Hm' & Hu).
  rewrite Hm in Hm'. injection Hm' as <-. unfold fsm_Apply. cbn [le_Command le_Data le_Index]. rewrite Hu.
  destruct (Do s index (Some cmd)) as [s'|e|msg]; [|done..]. by apply IH.
Qed.

(** (C36) Nodes agree: commands that are encoded into the entries of the log do the same on every node that decodes and applies them, and a node that
    starts from a snapshot, taken after any part of the log, encoded and decoded again, has the same state after the rest of it. *)
Theorem replicated_log_exact `{WellKnown} time_ok struct_ok `{!WellKnownLaw time_ok struct_ok} s0 log entries s :
  Forall (λ c, command_ok time_ok struct_ok c.2) log → Forall2 entry_of log entries → do_log s0 log = Ok s →
  apply_log s0 entries = Ok s ∧
  ∀ k s1, do_log s0 (take k log) = Ok s1 → state_ok time_ok struct_ok s1 →
    ∃ bytes, fsm_Snapshot s1 = Ok bytes ∧ fsm_Restore (Some bytes) true = Ok s1 ∧ apply_log s1 (drop k entries) = Ok s.
Proof.
  intros Hok H2 Hs. split; [by rewrite (apply_entries time_ok struct_ok log)|]. intros k s1 Hk Hs1.
  destruct (codec_roundtrip s1 Hs1) as (bytes & Hm & Hu). exists bytes. split_and!; [done|by unfold fsm_Restore; rewrite Hu|].
  rewrite (apply_entries time_ok struct_ok (drop k log)); [|by apply Forall_drop|by apply Forall2_drop].
  rewrite <- (take_drop k log) in Hs. revert Hk Hs. generalize (take k log) as l1, (drop k log) as l2. clear. intros l1 l2. revert s0.
  induction l1 as [|[i c] l1 IH]; intros s0; cbn [app do_log]; [by intros [= ->]|]. destruct (Do s0 i (Some c)) as [s'|e|msg]; [|done..]. apply IH.
Qed.

(** A library that writes a time as a number, and structs without fields. *)
#[local] Instance demo_library : WellKnown :=
  {| std_time := fields_codec 0 [mk_field 1 int64_field id (λ v _, v)]; std_duration := fields_codec 0 [mk_field 1 int64_field id (λ v _, v)];
     std_struct := fields_codec (MkStruct None) [] |}.

#[local] Instance demo_library_law : WellKnownLaw i64_ok (eq (MkStruct None)).
Proof.
  assert (∀ d, i64_ok d → msg_writes (fields_codec 0 [mk_field 1 int64_field id (λ v _, v)]) d) as Hint.
  { intros d Hd. apply fields_roundtrip; [solve_schema|done|]. write_fields. }
  split; [done|done|]. intros s <-. by apply fields_roundtrip; [solve_schema|..].
Qed.

Definition demo_commands : list (Z * ClusterCommand) :=
  [(8, CreateNamespace {| nc_Namespace := "shop" |});
   (9, CreateTopic {| tc_Namespace := "shop"; tc_Topic := Some (demo_topic "orders") |});
   (10, UpdateNode {| nu_ID := 4; nu_Address := "10.0.0.4:16000"; nu_State := ClusterNode_ALIVE; nu_LastSeenAlive := Some 77 |})].

Definition encoded (c : Z * ClusterCommand) : LogEntry :=
  {| le_Index := c.1; le_Command := true; le_Data := match Marshal c.2 with Ok data => data | _ => [] end |}.

Definition demo_final : ClusterState := match do_log demo_state demo_commands with Ok s => s | _ => demo_state end.

Lemma replicated_log_exact_witness : apply_log demo_state (encoded <$> demo_commands) = Ok demo_final.
Proof.
  refine (proj1 (replicated_log_exact i64_ok (eq (MkStruct None)) demo_state demo_commands (encoded <$> demo_commands) demo_final _ _ _)).
  - apply Forall_cons; split; [split; [exact I|by vm_compute]|]. apply Forall_cons; split; [split; [|by vm_compute]|].
    { intros t [= <-]. split; split; by vm_compute. }
    apply Forall_cons; split; [|apply Forall_nil; exact I]. split; [|by vm_compute]. split_and!; [split; by vm_compute|exact I|].
    intros t [= <-]. split; by vm_compute.
  - apply Forall2_fmap_r, Forall_Forall2_diag. repeat (apply Forall_cons; split; [split_and!; by vm_compute|]). apply Forall_nil; exact I.
  - by vm_compute.
Defined.
