(* ===== verification/GroupTask.v ===== *)
(** * The task of a consumer group

    Models [taskConsumerGroup] (src/mq/task_consumer_group.go), which runs on the primary node of the offset
    segment of the group, and the tasks that feed the group from the segments of topics
    (task_consume_segment_local.go, task_consume_segment_remote.go).  The offset segment is a log of offset commits;
    [committed] is the map of the task, the group with its subscriptions is the subject of Consumers.  The iteration
    order of maps, the answers of other nodes and the outcomes of system calls are arguments. *)
From S2P Require Import Prelude Emq ClusterState ClusterOps Match Consumers Segments Server OffsetCommit.

Inductive group_error : Type :=
| GroupNotFound
| GroupOpenFailed
| GroupReadFailed (e : seg_error)
| GroupUnmarshalFailed (e : proto_error)
| GroupMarshalFailed (e : proto_error)
| GroupCreateFailed (e : Consumers.error)
| UnknownTopic (id : Z)
| GroupSumFailed (e : seg_error)
| GroupReleaseFailed
| GroupWriteFailed (e : seg_error)
| IteratorFailed (e : seg_error)
| OfferFailed
| RemoteNodeNotFound (id : Z)
| RemoteDialFailed
| RemoteReceiveFailed.

Abbreviation offset_commit := ClusterConsumerGroup_OffsetCommit.

(** ** Starting: the offsets of the state, then those of the offset segment *)

Definition init_offsets (commits : list offset_commit) : gmap Z Z :=
  foldl (λ m c, <[oc_SegmentID c := oc_Offset c]> m) ∅ commits.

(** [if offset, ok := committedOffsets[commit.SegmentID]; ok && commit.Offset > offset] *)
Definition replay_commit (committed : gmap Z Z) (commit : offset_commit) : gmap Z Z :=
  match committed !! oc_SegmentID commit with
  | Some offset => if offset <? oc_Offset commit then <[oc_SegmentID commit := oc_Offset commit]> committed else committed
  | None => committed
  end.

Section codec.

Context `{Codec ClusterConsumerGroup_OffsetCommit}.

(** The loop that reads the offset segment; a reader that does not wait ends. *)
Fixpoint replay (fuel : nat) (i : Iterator) (f : File) (committed : gmap Z Z) : result group_error (gmap Z Z) :=
  match fuel with
  | O => Panic "out of fuel"
  | S fuel =>
    match Iterator_Next i f with
    | (i, Delivered buf _ _) =>
      match Unmarshal buf with
      | Ok commit => replay fuel i f (replay_commit committed commit)
      | Err e => Err (GroupUnmarshalFailed e)
      | Panic msg => Panic msg
      end
    | (_, Failed EOF) => Ok committed
    | (_, Failed e) => Err (GroupReadFailed e)
    | (_, Waits) => Panic "blocked"
    | (_, Panics) => Panic "makeslice: len out of range"
    end
  end.

(** Steps 1 and 2: [opened] is the file of the offset segment. *)
Definition start_offsets (state : ClusterState) (namespaceName consumerGroupName : string) (opened : option File) :
    result group_error (ClusterConsumerGroup * gmap Z Z) :=
  match GetConsumerGroup state namespaceName consumerGroupName with
  | None => Err GroupNotFound
  | Some consumerGroup =>
    match opened with
    | None => Err GroupOpenFailed
    | Some f =>
      match Read f false with
      | Ok i =>
        committed ← replay (S (length (f_data f))) i f (init_offsets (cg_OffsetCommits consumerGroup));
        Ok (consumerGroup, committed)
      | Err e => Err (GroupReadFailed e)
      | Panic msg => Panic msg
      end
    end
  end.

(** ** The state of the task *)

(** A task that feeds the group: from the local file, or from the node. *)
Inductive consume_from : Type :=
| ConsumeLocal
| ConsumeRemote (nodeID : Z).

Record consume_task : Type := { ct_ID : Z; ct_SegmentID : Z; ct_from : consume_from; ct_offset : Z }.

Record GroupTask : Type := {
  gt_segmentID : Z; (* the offset segment *)
  gt_file : File; (* its handle *)
  gt_committed : gmap Z Z; (* [committedOffsets] *)
  gt_state : option nat; (* the pointer to the last state, [None] is nil *)
  gt_running : gmap Z consume_task;
  gt_canceled : gset Z; (* tasks whose [Cancel] was called *)
  gt_currentTaskID : Z;
  gt_ackImmediately : list Commit;
}.

Definition with_committed (t : GroupTask) (committed : gmap Z Z) : GroupTask :=
  {| gt_segmentID := gt_segmentID t; gt_file := gt_file t; gt_committed := committed; gt_state := gt_state t;
     gt_running := gt_running t; gt_canceled := gt_canceled t; gt_currentTaskID := gt_currentTaskID t;
     gt_ackImmediately := gt_ackImmediately t |}.

Definition with_handle (t : GroupTask) (segmentID : Z) (f : File) : GroupTask :=
  {| gt_segmentID := segmentID; gt_file := f; gt_committed := gt_committed t; gt_state := gt_state t;
     gt_running := gt_running t; gt_canceled := gt_canceled t; gt_currentTaskID := gt_currentTaskID t;
     gt_ackImmediately := gt_ackImmediately t |}.

Definition with_running (t : GroupTask) (running : gmap Z consume_task) (state : option nat) : GroupTask :=
  {| gt_segmentID := gt_segmentID t; gt_file := gt_file t; gt_committed := gt_committed t; gt_state := state;
     gt_running := running; gt_canceled := gt_canceled t; gt_currentTaskID := gt_currentTaskID t;
     gt_ackImmediately := gt_ackImmediately t |}.

Definition with_acks (t : GroupTask) (acks : list Commit) : GroupTask :=
  {| gt_segmentID := gt_segmentID t; gt_file := gt_file t; gt_committed := gt_committed t; gt_state := gt_state t;
     gt_running := gt_running t; gt_canceled := gt_canceled t; gt_currentTaskID := gt_currentTaskID t;
     gt_ackImmediately := acks |}.

(** Step 3, and what precedes the loop: the group with its channel, and the task. *)
Definition start_task (state : ClusterState) (namespaceName consumerGroupName : string) (segmentID : Z)
    (opened : option File) (currentTaskID : Z) : result group_error (GroupTask * Group) :=
  '(consumerGroup, committed) ← start_offsets state namespaceName consumerGroupName opened;
  match opened, NewGroup (cg_Size consumerGroup) with
  | Some f, Ok group =>
    Ok ({| gt_segmentID := segmentID; gt_file := f; gt_committed := committed; gt_state := None; gt_running := ∅;
           gt_canceled := ∅; gt_currentTaskID := currentTaskID; gt_ackImmediately := [] |},
        {| g_n := g_n group; g_messages := g_messages group; g_read := g_read group; g_write := g_write group;
           g_closed := g_closed group; g_Commits := true |})
  | _, Err e => Err (GroupCreateFailed e)
  | _, Panic msg => Panic msg
  | None, _ => Err GroupOpenFailed
  end.

(** ** The tick *)

(** The offset of a segment is the larger of the state's and the task's. *)
Definition merge_commit (committed : gmap Z Z) (commit : offset_commit) : Z :=
  match committed !! oc_SegmentID commit with
  | Some offset => if oc_Offset commit <? offset then offset else oc_Offset commit
  | None => oc_Offset commit
  end.

Definition next_offsets (committed : gmap Z Z) (commits : list offset_commit) : gmap Z Z :=
  foldl (λ m c, <[oc_SegmentID c := merge_commit committed c]> m) ∅ commits.

Definition cancel_gone (t : GroupTask) : GroupTask :=
  {| gt_segmentID := gt_segmentID t; gt_file := gt_file t; gt_committed := gt_committed t; gt_state := gt_state t;
     gt_running := gt_running t;
     gt_canceled := list_to_set (ct_ID <$>
       (List.filter (λ p, negb (bool_decide (is_Some (gt_committed t !! p.1)))) (map_to_list (gt_running t))).*2) ∪ gt_canceled t;
     gt_currentTaskID := gt_currentTaskID t; gt_ackImmediately := gt_ackImmediately t |}.

Section tick.

Context (nodeID : Z) (Intn : nat → nat).

Definition is_local (segment : ClusterSegment) : bool :=
  (PrimaryNodeID (seg_Nodes segment) =? nodeID) || existsb (Z.eqb nodeID) (DoneNodeIDs (seg_Nodes segment)).

Definition start_consume (t : GroupTask) (id offset : Z) (from : consume_from) : GroupTask :=
  let task := {| ct_ID := u64 (gt_currentTaskID t + 1); ct_SegmentID := id; ct_from := from; ct_offset := offset |} in
  {| gt_segmentID := gt_segmentID t; gt_file := gt_file t; gt_committed := gt_committed t; gt_state := gt_state t;
     gt_running := <[id := task]> (gt_running t); gt_canceled := gt_canceled t; gt_currentTaskID := ct_ID task;
     gt_ackImmediately := gt_ackImmediately t |}.

(** A closed segment from before the group is acknowledged as a whole. *)
Definition ack_old (consumerGroup : ClusterConsumerGroup) (segment : ClusterSegment) (id : Z) (t : GroupTask) : GroupTask :=
  if negb (seg_ClosedAt segment =? 0) && (seg_ClosedAt segment <? cg_Since consumerGroup) then
    with_acks t (gt_ackImmediately t ++ [{| commit_SegmentID := id; commit_CommitOffset := seg_Size segment |}])
  else t.

(** One iteration over the committed offsets. *)
Definition consume_segment (state : ClusterState) (consumerGroup : ClusterConsumerGroup) (t : GroupTask) (id offset : Z) :
    result group_error GroupTask :=
  match gt_running t !! id with
  | Some _ => Ok t
  | None =>
    match GetSegment state id with
    | None => Ok t
    | Some segment =>
      if negb (seg_ClosedAt segment =? 0) && (seg_Size segment <=? offset) then Ok t
      else
        let t := ack_old consumerGroup segment id t in
        if negb (bool_decide (seg_Type segment = ClusterSegment_TOPIC)) then Panic "must not happen"
        else
          match GetTopic state (seg_OwnerNamespace segment) (seg_OwnerName segment) with
          | None => Err (UnknownTopic (seg_ID segment))
          | Some _ =>
            if is_local segment then Ok (start_consume t id offset ConsumeLocal)
            else if seg_ClosedAt segment =? 0 then
              Ok (start_consume t id offset (ConsumeRemote (PrimaryNodeID (seg_Nodes segment))))
            else
              let done := DoneNodeIDs (seg_Nodes segment) in
              match done with
              | [] => Panic "invalid argument to Intn"
              | _ => Ok (start_consume t id offset (ConsumeRemote (done !!! Intn (length done))))
              end
          end
    end
  end.

Fixpoint consume_segments (state : ClusterState) (consumerGroup : ClusterConsumerGroup) (t : GroupTask)
    (offsets : list (Z * Z)) : result group_error GroupTask :=
  match offsets with
  | [] => Ok t
  | (id, offset) :: offsets =>
    t ← consume_segment state consumerGroup t id offset;
    consume_segments state consumerGroup t offsets
  end.

(** The branch for a tick; [order] is the order in which the map of offsets is walked. *)
Definition task_tick (namespaceName consumerGroupName : string) (pointer : nat) (state : ClusterState)
    (order : gmap Z Z → list (Z * Z)) (t : GroupTask) : result group_error GroupTask :=
  if bool_decide (gt_state t = Some pointer) then Ok t
  else
    match GetConsumerGroup state namespaceName consumerGroupName with
    | None => Err GroupNotFound
    | Some consumerGroup =>
      let committed := next_offsets (gt_committed t) (cg_OffsetCommits consumerGroup) in
      let t := cancel_gone (with_running (with_committed t committed) (gt_running t) (Some pointer)) in
      consume_segments state consumerGroup t (order committed)
    end.

End tick.

(** ** Completed tasks *)

(** The branch for a completed task.  A task that ended without an error waits for the segment to close
    ([closed] is the segment in the state that ended the wait), and the whole segment is committed.  The
    assignment that should force a new look at the state is to a variable of an inner scope there. *)
Definition consume_completed (t : GroupTask) (id taskID : Z) (failed : bool) (closed : option ClusterSegment) :
    GroupTask * option Commit :=
  match gt_running t !! id with
  | Some task =>
    if ct_ID task =? taskID then
      let running := delete id (gt_running t) in
      if failed then (with_running t running None, None)
      else
        (with_running t running (gt_state t),
         match closed with
         | Some segment => Some {| commit_SegmentID := id; commit_CommitOffset := seg_Size segment |}
         | None => None
         end)
    else (t, None)
  | None => (t, None)
  end.

(** ** Committing *)

(** The head of the loop: what waits in [ackImmediately] is committed first. *)
Definition next_ack (t : GroupTask) : option (Commit * GroupTask) :=
  match gt_ackImmediately t with
  | ack :: acks => Some (ack, with_acks t acks)
  | [] => None
  end.

(** [if ack.CommitOffset > committedOffsets[ack.SegmentID]]: an absent offset reads as zero. *)
Definition commit_ack (t : GroupTask) (ack : Commit) : GroupTask :=
  if default 0 (gt_committed t !! commit_SegmentID ack) <? commit_CommitOffset ack then
    with_committed t (<[commit_SegmentID ack := commit_CommitOffset ack]> (gt_committed t))
  else t.

Inductive commit_result : Type :=
| CommitWritten (t : GroupTask)
| CommitFull (t : GroupTask) (* the offset segment is full *)
| CommitFails (t : GroupTask) (e : group_error)
| CommitPanics.

(** A pass from the label [Write]. *)
Definition write_commit (t : GroupTask) (ack : Commit) (w : write_result) : commit_result :=
  match Marshal {| oc_SegmentID := commit_SegmentID ack; oc_Offset := commit_CommitOffset ack |} with
  | Ok buf =>
    match Write (gt_file t) buf w with
    | Ok (f, None) => CommitWritten (with_handle t (gt_segmentID t) f)
    | Ok (f, Some ErrFull) => CommitFull t
    | Ok (f, Some e) => CommitFails (with_handle t (gt_segmentID t) f) (GroupWriteFailed e)
    | _ => CommitPanics
    end
  | Err e => CommitFails t (GroupMarshalFailed e)
  | Panic _ => CommitPanics
  end.

(** The request that rotates the offset segment; [order] walks the map of offsets. *)
Definition rotate_request (sha1 : list Z → list Z) (nodeID : Z) (namespaceName consumerGroupName : string)
    (order : gmap Z Z → list (Z * Z)) (t : GroupTask) : result group_error SegmentCloseRequest :=
  match Sum (gt_file t) SumAll with
  | Ok (bytes, size) =>
    Ok {| scr_LeaderOnly := false; scr_SegmentID := gt_segmentID t; scr_NodeID := nodeID; scr_Size := size; scr_Sha1 := sha1 bytes;
          scr_OffsetCommitsUpdate := Some {| ocu_Namespace := namespaceName; ocu_Name := consumerGroupName;
            ocu_OffsetCommits := (λ p, {| oc_SegmentID := p.1; oc_Offset := p.2 |}) <$> order (gt_committed t) |} |}
  | Err e => Err (GroupSumFailed e)
  | Panic msg => Panic msg
  end.

Inductive rotate_result : Type :=
| Rotated (t : GroupTask) (* back to the label [Write] *)
| RotatedAway (* another node has the new segment *)
| RotateFails (e : group_error)
| RotatePanics.

(** What follows the call of [SegmentRotate]: its error is not looked at, so that without a response the
    task dereferences nil. *)
Definition rotated (nodeID : Z) (response : option SegmentOpenResponse) (released : bool) (opened : option File) (t : GroupTask) :
    rotate_result :=
  match response with
  | None => RotatePanics
  | Some response =>
    if negb (so_PrimaryNodeID response =? nodeID) then RotatedAway
    else if negb released then RotateFails GroupReleaseFailed
    else
      match opened with
      | None => RotateFails GroupOpenFailed
      | Some f => Rotated (with_handle t (so_SegmentID response) f)
      end
  end.

End codec.

(** ** Feeding the group *)

Record Publishing : Type := { pub_Message : option EmqMessage; pub_Delta : Z }.

Section consume.

Context `{Codec Publishing}.

(** [messageMatches] on a nil message: it is dereferenced by a binding that looks at the routing key or the headers. *)
Fixpoint nil_any_binding (topicName : string) (bindings : list ClusterConsumerGroup_Binding) : result Empty_set bool :=
  match bindings with
  | [] => Ok false
  | binding :: bindings =>
    if negb (String.eqb (b_TopicName binding) topicName) then nil_any_binding topicName bindings
    else if String.eqb (b_ExchangeType binding) ExchangeTypeFanout then Ok true
    else if String.eqb (b_ExchangeType binding) ExchangeTypeDirect || String.eqb (b_ExchangeType binding) ExchangeTypeTopic then
      match b_By binding with
      | By_RoutingKey _ => Panic "nil pointer dereference"
      | _ => nil_any_binding topicName bindings
      end
    else if String.eqb (b_ExchangeType binding) ExchangeTypeHeaders then Panic "nil pointer dereference"
    else Panic "unhandled exchange type"
  end.

Definition matches (message : option EmqMessage) (messageTime : Z) (topicName : string) (consumerGroup : ClusterConsumerGroup) :
    result Empty_set bool :=
  match message with
  | Some message => messageMatches message messageTime topicName consumerGroup
  | None =>
    if messageTime <? cg_Since consumerGroup then Ok false else nil_any_binding topicName (cg_Bindings consumerGroup)
  end.

(** What the loops of both tasks do with a message: [None] when the group is not interested.  The group is the one of
    the current state. *)
Definition consume_message (state : ClusterState) (namespaceName consumerGroupName topicName : string)
    (segment : ClusterSegment) (data : list Z) (commitOffset : Z) : result group_error (option Message) :=
  match Unmarshal data with
  | Err e => Err (GroupUnmarshalFailed e)
  | Panic msg => Panic msg
  | Ok publishing =>
    match GetConsumerGroup state namespaceName consumerGroupName with
    | None => Err GroupNotFound
    | Some consumerGroup =>
      let messageTime := seg_CreatedAt segment + pub_Delta publishing in
      match matches (pub_Message publishing) messageTime topicName consumerGroup with
      | Ok true =>
        Ok (Some {| TopicNamespace := seg_OwnerNamespace segment; TopicName := seg_OwnerName segment;
          SegmentID := seg_ID segment; CommitOffset := commitOffset; MessageTime := messageTime;
          Payload := pub_Message publishing; SubscriptionID := 0; SeqNo := 0 |})
      | Ok false => Ok None
      | Err e => match e : Empty_set with end
      | Panic msg => Panic msg
      end
    end
  end.

(** The iterator of a local task. *)
Definition consume_iterator (f : File) (segment : ClusterSegment) (startOffset : Z) : result seg_error Iterator :=
  let wait := seg_ClosedAt segment =? 0 in
  if 0 <? startOffset then ReadAt f startOffset wait else Read f wait.

Inductive consume_outcome : Type :=
| ConsumeOffers (m : Message)
| ConsumeSkips
| ConsumeReturns (err : option group_error)
| ConsumeWaits
| ConsumePanics.

(** One turn of the loop of a local task. *)
Definition consume_next (state : ClusterState) (namespaceName consumerGroupName topicName : string) (segment : ClusterSegment)
    (f : File) (i : Iterator) : Iterator * consume_outcome :=
  match Iterator_Next i f with
  | (i, Delivered data _ commitOffset) =>
    (i, match consume_message state namespaceName consumerGroupName topicName segment data commitOffset with
        | Ok (Some m) => ConsumeOffers m
        | Ok None => ConsumeSkips
        | Err e => ConsumeReturns (Some e)
        | Panic _ => ConsumePanics
        end)
  | (i, Failed EOF) => (i, ConsumeReturns None)
  | (i, Failed e) => (i, ConsumeReturns (Some (IteratorFailed e)))
  | (i, Waits) => (i, ConsumeWaits)
  | (i, Panics) => (i, ConsumePanics)
  end.

(** The loop of a local task: [states] are the current states and [accepted] the answers of [Offer], by turn. *)
Fixpoint consume_loop (fuel : nat) (states : nat → ClusterState) (accepted : nat → bool)
    (namespaceName consumerGroupName topicName : string) (segment : ClusterSegment) (f : File) (turn : nat) (i : Iterator) :
    list Message * consume_outcome :=
  match fuel with
  | O => ([], ConsumeWaits)
  | S fuel =>
    match consume_next (states turn) namespaceName consumerGroupName topicName segment f i with
    | (i, ConsumeOffers m) =>
      if accepted turn then
        let '(ms, o) := consume_loop fuel states accepted namespaceName consumerGroupName topicName segment f (S turn) i in
        (m :: ms, o)
      else ([], ConsumeReturns (Some OfferFailed))
    | (i, ConsumeSkips) => consume_loop fuel states accepted namespaceName consumerGroupName topicName segment f (S turn) i
    | (_, o) => ([], o)
    end
  end.

(** ** A segment of another node *)

Record SegmentReadRequest : Type := { srr_SegmentID : Z; srr_Offset : Z; srr_Wait : bool }.

Definition remote_request (state : ClusterState) (nodeID : Z) (dialed : bool) (segment : ClusterSegment) (startOffset : Z) :
    result group_error SegmentReadRequest :=
  match GetNode state nodeID with
  | None => Err (RemoteNodeNotFound nodeID)
  | Some _ =>
    if negb dialed then Err RemoteDialFailed
    else Ok {| srr_SegmentID := seg_ID segment; srr_Offset := startOffset; srr_Wait := seg_ClosedAt segment =? 0 |}
  end.

(** What [stream.Recv] returns. *)
Inductive received : Type :=
| ReceivedData (data : list Z) (commitOffset : Z)
| ReceivedEOF
| ReceivedError.

(** What the handler [SegmentRead] of the other node sends for a request. *)
Fixpoint read_stream (fuel : nat) (f : File) (i : Iterator) : list received :=
  match fuel with
  | O => []
  | S fuel =>
    match Iterator_Next i f with
    | (i, Delivered data _ commitOffset) => ReceivedData data commitOffset :: read_stream fuel f i
    | (_, Failed EOF) => [ReceivedEOF]
    | (_, Waits) => []
    | (_, _) => [ReceivedError]
    end
  end.

Definition remote_stream (fuel : nat) (f : File) (request : SegmentReadRequest) : list received :=
  match (if 0 <? srr_Offset request then ReadAt f (srr_Offset request) (srr_Wait request) else Read f (srr_Wait request)) with
  | Ok i => read_stream fuel f i
  | _ => [ReceivedError]
  end.

(** The loop of a remote task. *)
Fixpoint consume_stream (items : list received) (states : nat → ClusterState) (accepted : nat → bool)
    (namespaceName consumerGroupName topicName : string) (segment : ClusterSegment) (turn : nat) : list Message * consume_outcome :=
  match items with
  | [] => ([], ConsumeWaits)
  | ReceivedEOF :: _ => ([], ConsumeReturns None)
  | ReceivedError :: _ => ([], ConsumeReturns (Some RemoteReceiveFailed))
  | ReceivedData data commitOffset :: items =>
    match consume_message (states turn) namespaceName consumerGroupName topicName segment data commitOffset with
    | Ok (Some m) =>
      if accepted turn then
        let '(ms, o) := consume_stream items states accepted namespaceName consumerGroupName topicName segment (S turn) in
        (m :: ms, o)
      else ([], ConsumeReturns (Some OfferFailed))
    | Ok None => consume_stream items states accepted namespaceName consumerGroupName topicName segment (S turn)
    | Err e => ([], ConsumeReturns (Some e))
    | Panic _ => ([], ConsumePanics)
    end
  end.

End consume.
