(* ===== verification/MessageCodec.v ===== *)
(** * The encoding of messages

    The generated code for what is in a segment of a topic: [Publishing] of src/mq/segments.pb.go, with [Message] and [Message_Properties] of
    src/mq/emq/emq.pb.go.  It implements the codec that publishing and consuming rely on. *)
From S2P Require Import Prelude Emq ClusterState OffsetCommit ClusterCodec GroupTask.

Section codec.

Context `{WellKnown}.

Definition with_ContentType (v : string) (m : Message_Properties) : Message_Properties :=
  {| ContentType := v; ContentEncoding := ContentEncoding m; DeliveryMode := DeliveryMode m; Priority := Priority m;
     CorrelationID := CorrelationID m; ReplyTo := ReplyTo m; Expiration := Expiration m; MessageID := MessageID m; Timestamp := Timestamp m;
     MsgType := MsgType m; UserID := UserID m; AppID := AppID m; To := To m; GroupID := GroupID m; GroupSequence := GroupSequence m;
     ReplyToGroupID := ReplyToGroupID m |}.
Definition with_ContentEncoding (v : string) (m : Message_Properties) : Message_Properties :=
  {| ContentType := ContentType m; ContentEncoding := v; DeliveryMode := DeliveryMode m; Priority := Priority m; CorrelationID := CorrelationID m;
     ReplyTo := ReplyTo m; Expiration := Expiration m; MessageID := MessageID m; Timestamp := Timestamp m; MsgType := MsgType m;
     UserID := UserID m; AppID := AppID m; To := To m; GroupID := GroupID m; GroupSequence := GroupSequence m;
     ReplyToGroupID := ReplyToGroupID m |}.
Definition with_DeliveryMode (v : Z) (m : Message_Properties) : Message_Properties :=
  {| ContentType := ContentType m; ContentEncoding := ContentEncoding m; DeliveryMode := v; Priority := Priority m;
     CorrelationID := CorrelationID m; ReplyTo := ReplyTo m; Expiration := Expiration m; MessageID := MessageID m; Timestamp := Timestamp m;
     MsgType := MsgType m; UserID := UserID m; AppID := AppID m; To := To m; GroupID := GroupID m; GroupSequence := GroupSequence m;
     ReplyToGroupID := ReplyToGroupID m |}.
Definition with_Priority (v : Z) (m : Message_Properties) : Message_Properties :=
  {| ContentType := ContentType m; ContentEncoding := ContentEncoding m; DeliveryMode := DeliveryMode m; Priority := v;
     CorrelationID := CorrelationID m; ReplyTo := ReplyTo m; Expiration := Expiration m; MessageID := MessageID m; Timestamp := Timestamp m;
     MsgType := MsgType m; UserID := UserID m; AppID := AppID m; To := To m; GroupID := GroupID m; GroupSequence := GroupSequence m;
     ReplyToGroupID := ReplyToGroupID m |}.
Definition with_CorrelationID (v : string) (m : Message_Properties) : Message_Properties :=
  {| ContentType := ContentType m; ContentEncoding := ContentEncoding m; DeliveryMode := DeliveryMode m; Priority := Priority m;
     CorrelationID := v; ReplyTo := ReplyTo m; Expiration := Expiration m; MessageID := MessageID m; Timestamp := Timestamp m;
     MsgType := MsgType m; UserID := UserID m; AppID := AppID m; To := To m; GroupID := GroupID m; GroupSequence := GroupSequence m;
     ReplyToGroupID := ReplyToGroupID m |}.
Definition with_ReplyTo (v : string) (m : Message_Properties) : Message_Properties :=
  {| ContentType := ContentType m; ContentEncoding := ContentEncoding m; DeliveryMode := DeliveryMode m; Priority := Priority m;
     CorrelationID := CorrelationID m; ReplyTo := v; Expiration := Expiration m; MessageID := MessageID m; Timestamp := Timestamp m;
     MsgType := MsgType m; UserID := UserID m; AppID := AppID m; To := To m; GroupID := GroupID m; GroupSequence := GroupSequence m;
     ReplyToGroupID := ReplyToGroupID m |}.
Definition with_Expiration (v : string) (m : Message_Properties) : Message_Properties :=
  {| ContentType := ContentType m; ContentEncoding := ContentEncoding m; DeliveryMode := DeliveryMode m; Priority := Priority m;
     CorrelationID := CorrelationID m; ReplyTo := ReplyTo m; Expiration := v; MessageID := MessageID m; Timestamp := Timestamp m;
     MsgType := MsgType m; UserID := UserID m; AppID := AppID m; To := To m; GroupID := GroupID m; GroupSequence := GroupSequence m;
     ReplyToGroupID := ReplyToGroupID m |}.
Definition with_MessageID (v : string) (m : Message_Properties) : Message_Properties :=
  {| ContentType := ContentType m; ContentEncoding := ContentEncoding m; DeliveryMode := DeliveryMode m; Priority := Priority m;
     CorrelationID := CorrelationID m; ReplyTo := ReplyTo m; Expiration := Expiration m; MessageID := v; Timestamp := Timestamp m;
     MsgType := MsgType m; UserID := UserID m; AppID := AppID m; To := To m; GroupID := GroupID m; GroupSequence := GroupSequence m;
     ReplyToGroupID := ReplyToGroupID m |}.
Definition with_Timestamp (v : Z) (m : Message_Properties) : Message_Properties :=
  {| ContentType := ContentType m; ContentEncoding := ContentEncoding m; DeliveryMode := DeliveryMode m; Priority := Priority m;
     CorrelationID := CorrelationID m; ReplyTo := ReplyTo m; Expiration := Expiration m; MessageID := MessageID m; Timestamp := v;
     MsgType := MsgType m; UserID := UserID m; AppID := AppID m; To := To m; GroupID := GroupID m; GroupSequence := GroupSequence m;
     ReplyToGroupID := ReplyToGroupID m |}.
Definition with_MsgType (v : string) (m : Message_Properties) : Message_Properties :=
  {| ContentType := ContentType m; ContentEncoding := ContentEncoding m; DeliveryMode := DeliveryMode m; Priority := Priority m;
     CorrelationID := CorrelationID m; ReplyTo := ReplyTo m; Expiration := Expiration m; MessageID := MessageID m; Timestamp := Timestamp m;
     MsgType := v; UserID := UserID m; AppID := AppID m; To := To m; GroupID := GroupID m; GroupSequence := GroupSequence m;
     ReplyToGroupID := ReplyToGroupID m |}.
Definition with_UserID (v : string) (m : Message_Properties) : Message_Properties :=
  {| ContentType := ContentType m; ContentEncoding := ContentEncoding m; DeliveryMode := DeliveryMode m; Priority := Priority m;
     CorrelationID := CorrelationID m; ReplyTo := ReplyTo m; Expiration := Expiration m; MessageID := MessageID m; Timestamp := Timestamp m;
     MsgType := MsgType m; UserID := v; AppID := AppID m; To := To m; GroupID := GroupID m; GroupSequence := GroupSequence m;
     ReplyToGroupID := ReplyToGroupID m |}.
Definition with_AppID (v : string) (m : Message_Properties) : Message_Properties :=
  {| ContentType := ContentType m; ContentEncoding := ContentEncoding m; DeliveryMode := DeliveryMode m; Priority := Priority m;
     CorrelationID := CorrelationID m; ReplyTo := ReplyTo m; Expiration := Expiration m; MessageID := MessageID m; Timestamp := Timestamp m;
     MsgType := MsgType m; UserID := UserID m; AppID := v; To := To m; GroupID := GroupID m; GroupSequence := GroupSequence m;
     ReplyToGroupID := ReplyToGroupID m |}.
Definition with_To (v : string) (m : Message_Properties) : Message_Properties :=
  {| ContentType := ContentType m; ContentEncoding := ContentEncoding m; DeliveryMode := DeliveryMode m; Priority := Priority m;
     CorrelationID := CorrelationID m; ReplyTo := ReplyTo m; Expiration := Expiration m; MessageID := MessageID m; Timestamp := Timestamp m;
     MsgType := MsgType m; UserID := UserID m; AppID := AppID m; To := v; GroupID := GroupID m; GroupSequence := GroupSequence m;
     ReplyToGroupID := ReplyToGroupID m |}.
Definition with_GroupID (v : string) (m : Message_Properties) : Message_Properties :=
  {| ContentType := ContentType m; ContentEncoding := ContentEncoding m; DeliveryMode := DeliveryMode m; Priority := Priority m;
     CorrelationID := CorrelationID m; ReplyTo := ReplyTo m; Expiration := Expiration m; MessageID := MessageID m; Timestamp := Timestamp m;
     MsgType := MsgType m; UserID := UserID m; AppID := AppID m; To := To m; GroupID := v; GroupSequence := GroupSequence m;
     ReplyToGroupID := ReplyToGroupID m |}.
Definition with_GroupSequence (v : Z) (m : Message_Properties) : Message_Properties :=
  {| ContentType := ContentType m; ContentEncoding := ContentEncoding m; DeliveryMode := DeliveryMode m; Priority := Priority m;
     CorrelationID := CorrelationID m; ReplyTo := ReplyTo m; Expiration := Expiration m; MessageID := MessageID m; Timestamp := Timestamp m;
     MsgType := MsgType m; UserID := UserID m; AppID := AppID m; To := To m; GroupID := GroupID m; GroupSequence := v;
     ReplyToGroupID := ReplyToGroupID m |}.
Definition with_ReplyToGroupID (v : string) (m : Message_Properties) : Message_Properties :=
  {| ContentType := ContentType m; ContentEncoding := ContentEncoding m; DeliveryMode := DeliveryMode m; Priority := Priority m;
     CorrelationID := CorrelationID m; ReplyTo := ReplyTo m; Expiration := Expiration m; MessageID := MessageID m; Timestamp := Timestamp m;
     MsgType := MsgType m; UserID := UserID m; AppID := AppID m; To := To m; GroupID := GroupID m; GroupSequence := GroupSequence m;
     ReplyToGroupID := v |}.

Definition Message_Properties_fields : list (field Message_Properties) :=
  [mk_field 1 string_field ContentType with_ContentType;
   mk_field 2 string_field ContentEncoding with_ContentEncoding;
   mk_field 3 int32_field DeliveryMode with_DeliveryMode;
   mk_field 4 int32_field Priority with_Priority;
   mk_field 5 string_field CorrelationID with_CorrelationID;
   mk_field 6 string_field ReplyTo with_ReplyTo;
   mk_field 7 string_field Expiration with_Expiration;
   mk_field 8 string_field MessageID with_MessageID;
   mk_field 9 (value_field std_time) Timestamp with_Timestamp;
   mk_field 10 string_field MsgType with_MsgType;
   mk_field 11 string_field UserID with_UserID;
   mk_field 12 string_field AppID with_AppID;
   mk_field 13 string_field To with_To;
   mk_field 14 string_field GroupID with_GroupID;
   mk_field 15 uint32_field GroupSequence with_GroupSequence;
   mk_field 16 string_field ReplyToGroupID with_ReplyToGroupID].
Definition Message_Properties_msg : msgc Message_Properties :=
  fields_codec {| ContentType := ""; ContentEncoding := ""; DeliveryMode := 0; Priority := 0; CorrelationID := ""; ReplyTo := ""; Expiration := "";
     MessageID := ""; Timestamp := (mc_default std_time); MsgType := ""; UserID := ""; AppID := ""; To := ""; GroupID := ""; GroupSequence := 0;
     ReplyToGroupID := "" |} Message_Properties_fields.

Definition with_RoutingKey (v : string) (m : EmqMessage) : EmqMessage :=
  {| RoutingKey := v; Properties := Properties m; Headers := Headers m; Data := Data m |}.
Definition with_Properties (v : option Message_Properties) (m : EmqMessage) : EmqMessage :=
  {| RoutingKey := RoutingKey m; Properties := v; Headers := Headers m; Data := Data m |}.
Definition with_Headers (v : option Struct) (m : EmqMessage) : EmqMessage :=
  {| RoutingKey := RoutingKey m; Properties := Properties m; Headers := v; Data := Data m |}.
Definition with_Data (v : list Z) (m : EmqMessage) : EmqMessage :=
  {| RoutingKey := RoutingKey m; Properties := Properties m; Headers := Headers m; Data := v |}.

Definition Message_fields : list (field EmqMessage) :=
  [mk_field 1 string_field RoutingKey with_RoutingKey;
   mk_field 2 (pointer_field Message_Properties_msg) Properties with_Properties;
   mk_field 3 (pointer_field std_struct) Headers with_Headers;
   mk_field 4 bytes_field Data with_Data].
Definition Message_msg : msgc EmqMessage :=
  fields_codec {| RoutingKey := ""; Properties := None; Headers := None; Data := [] |} Message_fields.

Definition with_pub_Message (v : option EmqMessage) (m : Publishing) : Publishing :=
  {| pub_Message := v; pub_Delta := pub_Delta m |}.
Definition with_pub_Delta (v : Z) (m : Publishing) : Publishing :=
  {| pub_Message := pub_Message m; pub_Delta := v |}.

Definition Publishing_fields : list (field Publishing) :=
  [mk_field 1 (pointer_field Message_msg) pub_Message with_pub_Message;
   mk_field 2 int64_field pub_Delta with_pub_Delta].
Definition Publishing_msg : msgc Publishing :=
  fields_codec {| pub_Message := None; pub_Delta := 0 |} Publishing_fields.

#[export] Instance Publishing_codec : Codec Publishing :=
  {| Marshal := msg_Marshal Publishing_msg; Unmarshal := msg_Unmarshal Publishing_msg |}.

End codec.

(** ** What is written is read back *)

Section laws.

Context `{WellKnown} (time_ok : Z → Prop) (struct_ok : Struct → Prop) `{!WellKnownLaw time_ok struct_ok}.

Definition i32_ok (z : Z) : Prop := - 2 ^ 31 ≤ z < 2 ^ 31.

Record properties_fit (p : Message_Properties) : Prop := {
  pf_mode : i32_ok (DeliveryMode p); pf_priority : i32_ok (Priority p); pf_timestamp : time_ok (Timestamp p); pf_sequence : u32_ok (GroupSequence p) }.

Record message_fits (m : EmqMessage) : Prop := {
  mf_properties : ∀ p, Properties m = Some p → properties_fit p; mf_headers : ∀ s, Headers m = Some s → struct_ok s }.

Definition publishing_fits (p : Publishing) : Prop := (∀ m, pub_Message p = Some m → message_fits m) ∧ i64_ok (pub_Delta p).

Definition publishing_ok (p : Publishing) : Prop := publishing_fits p ∧ mc_size Publishing_msg p < 2 ^ 63.

Lemma time_library t : time_ok t → msg_writes std_time t.
Proof. apply time_writes. Qed.
Lemma struct_library s : struct_ok s → msg_writes std_struct s.
Proof. apply struct_writes. Qed.
#[local] Hint Resolve time_library struct_library : proto.
#[local] Hint Unfold u32_ok i32_ok i64_ok : proto.

Lemma properties_writes m : properties_fit m → msg_writes Message_Properties_msg m.
Proof. intros []. by_fields (ltac:(solve_schema) : schema_ok Message_Properties_fields). Qed.
#[local] Hint Resolve properties_writes : proto.

Lemma message_writes m : message_fits m → msg_writes Message_msg m.
Proof. intros []. by_fields (ltac:(solve_schema) : schema_ok Message_fields). Qed.
#[local] Hint Resolve message_writes : proto.

Lemma publishing_writes m : publishing_fits m → msg_writes Publishing_msg m.
Proof. intros []. by_fields (ltac:(solve_schema) : schema_ok Publishing_fields). Qed.

#[export] Instance Publishing_law : CodecLaw Publishing publishing_ok.
Proof. intros p [Hp Hl]. apply msg_roundtrip; [by apply publishing_writes|done]. Qed.

End laws.
