(* ===== verification/GroupTaskProps.v ===== *)
(** * Consumer group task: progress survives a restart

    What the task commits is what a task that starts later resumes from: the offset segment is replayed over the
    offsets of the cluster state ([recovered]), through rotations, ticks, changes by the leader and restarts; and what
    a tick starts. *)
From S2P Require Import Prelude Emq ClusterState ClusterOps ClusterInv ClusterProps Reconciler ReconcilerProps LeaderInv Match Consumers Segments SegmentsProps Server OffsetCommit GroupTask.

(** ** Replay *)

Definition recovered (stored log : list offset_commit) : gmap Z Z := foldl replay_commit (init_offsets stored) log.

(** The largest offset of a segment in a log, at least [from]. *)
Fixpoint max_offset (k from : Z) (log : list offset_commit) : Z :=
  match log with
  | [] => from
  | c :: log => max_offset k (if oc_SegmentID c =? k then Z.max from (oc_Offset c) else from) log
  end.

Lemma replay_commit_lookup m c k :
  replay_commit m c !! k = (λ o, if oc_SegmentID c =? k then Z.max o (oc_Offset c) else o) <$> m !! k.
Proof.
  unfold replay_commit. destruct (Z.eqb_spec (oc_SegmentID c) k) as [->|Hne].
  - destruct (m !! k) as [o|] eqn:E; [|done]. destruct (Z.ltb_spec o (oc_Offset c)).
    + rewrite lookup_insert_eq. cbn. f_equal. lia.
    + rewrite E. cbn. f_equal. lia.
  - rewrite option_fmap_id. destruct (m !! oc_SegmentID c) as [o|]; [|done].
    destruct (o <? _); [by rewrite lookup_insert_ne|done].
Qed.

Lemma replay_lookup log : ∀ m k, foldl replay_commit m log !! k = (λ o, max_offset k o log) <$> m !! k.
Proof.
  induction log as [|c log IH]; intros m k; cbn [foldl max_offset]; [by rewrite option_fmap_id|].
  rewrite IH, replay_commit_lookup. by destruct (m !! k).
Qed.

Lemma recovered_lookup stored log k : recovered stored log !! k = (λ o, max_offset k o log) <$> init_offsets stored !! k.
Proof. apply replay_lookup. Qed.

Lemma max_offset_app k log1 log2 : ∀ from, max_offset k from (log1 ++ log2) = max_offset k (max_offset k from log1) log2.
Proof. induction log1 as [|c log1 IH]; intros from; cbn [app max_offset]; auto. Qed.

Lemma max_offset_ge k log : ∀ from, from ≤ max_offset k from log.
Proof.
  induction log as [|c log IH]; intros from; cbn [max_offset]; [lia|]. etrans; [|apply IH]. case_match; lia.
Qed.

Lemma max_offset_mono k log : ∀ from from', from ≤ from' → max_offset k from log ≤ max_offset k from' log.
Proof. induction log as [|c log IH]; intros from from' Hle; cbn [max_offset]; [done|]. apply IH. case_match; lia. Qed.

(** The result comes from somewhere. *)
Lemma max_offset_source k log : ∀ from,
  max_offset k from log = from ∨ {| oc_SegmentID := k; oc_Offset := max_offset k from log |} ∈ log.
Proof.
  induction log as [|c log IH]; intros from; cbn [max_offset]; [by left|].
  destruct (Z.eqb_spec (oc_SegmentID c) k) as [<-|Hne].
  - destruct (IH (Z.max from (oc_Offset c))) as [E|Hin]; [|right; by apply list_elem_of_further].
    rewrite E. destruct (Z.max_spec from (oc_Offset c)) as [[_ ->]|[_ ->]]; [right|by left]. destruct c. apply list_elem_of_here.
  - destruct (IH from) as [E|Hin]; [by left|right; by apply list_elem_of_further].
Qed.

(** Offsets of a list of commits, one for each segment. *)
Definition offsets_of (f : offset_commit → Z) (l : list offset_commit) : gmap Z Z :=
  foldl (λ m c, <[oc_SegmentID c := f c]> m) ∅ l.

Lemma offsets_lookup f l k v :
  NoDup (oc_SegmentID <$> l) → offsets_of f l !! k = Some v ↔ ∃ c, c ∈ l ∧ oc_SegmentID c = k ∧ f c = v.
Proof.
  unfold offsets_of. induction l as [|c l IH] using rev_ind; intros Hnd.
  { cbn. split; [done|]. intros (c & Hc & _). by apply elem_of_nil in Hc. }
  rewrite fmap_app in Hnd. apply NoDup_app in Hnd as (Hnd & Hc & _). rewrite foldl_app. cbn [foldl].
  rewrite lookup_insert_Some, IH by done. split.
  - intros [[<- <-]|[Hne (x & Hx & Hk & Hv)]]; eexists; rewrite elem_of_app, list_elem_of_singleton; eauto.
  - intros (x & Hx & Hk & Hv). apply elem_of_app in Hx as [Hx | ->%list_elem_of_singleton]; [|by left].
    right. split; [|by exists x]. intros E. apply (Hc k); [subst k; by apply list_elem_of_fmap_2|].
    rewrite <- E. by apply list_elem_of_singleton.
Qed.

Lemma init_lookup l k o :
  NoDup (oc_SegmentID <$> l) → init_offsets l !! k = Some o ↔ {| oc_SegmentID := k; oc_Offset := o |} ∈ l.
Proof.
  intros Hnd. unfold init_offsets. fold (offsets_of oc_Offset l). rewrite offsets_lookup by done. split.
  - intros ([k' o'] & Hc & <- & <-). done.
  - intros Hc. by eexists.
Qed.

Lemma next_lookup committed l k v :
  NoDup (oc_SegmentID <$> l) →
  next_offsets committed l !! k = Some v ↔ ∃ o, {| oc_SegmentID := k; oc_Offset := o |} ∈ l ∧
    v = match committed !! k with Some x => Z.max x o | None => o end.
Proof.
  intros Hnd. unfold next_offsets. fold (offsets_of (merge_commit committed) l). rewrite offsets_lookup by done.
  assert (∀ c, merge_commit committed c = match committed !! oc_SegmentID c with Some x => Z.max x (oc_Offset c) | None => oc_Offset c end) as Hm.
  { intros c. unfold merge_commit. destruct (_ !! _) as [x|]; [|done]. destruct (Z.ltb_spec (oc_Offset c) x); lia. }
  split.
  - intros ([k' o'] & Hc & <- & <-). rewrite Hm. by exists o'.
  - intros (o & Hc & ->). eexists. split; [exact Hc|]. by rewrite Hm.
Qed.

(** ** Reading the offset segment *)

Section replay.

Context `{Codec ClusterConsumerGroup_OffsetCommit}.

(** The messages of the offset segment are commits. *)
Definition commit_log (msgs : list (list Z)) (log : list offset_commit) : Prop := Forall2 (λ m c, Unmarshal m = Ok c) msgs log.

Lemma replay_drain f n : ∀ fuel i committed entries log,
  drain n i f = (entries, Failed EOF) → (n ≤ fuel)%nat → commit_log ((λ e, e.1.1) <$> entries) log →
  replay fuel i f committed = Ok (foldl replay_commit committed log).
Proof.
  induction n as [|n IH]; intros fuel i committed entries log Hd Hf Hl; [done|]. destruct fuel as [|fuel]; [lia|].
  rewrite drain_S in Hd. cbn [replay]. destruct (Iterator_Next i f) as [i' o]. destruct o as [m offset commitOffset|e| |].
  - injection Hd as <- Hd. cbn in Hl. apply Forall2_cons_inv_l in Hl as (c & log' & Hc & Hl & ->). rewrite Hc. cbn [foldl].
    apply (IH fuel i' _ (drain n i' f).1); [|lia|done]. rewrite <- Hd. by destruct (drain n i' f).
  - injection Hd as <- ->. by apply Forall2_nil_inv_l in Hl as ->.
  - done.
  - done.
Qed.

Lemma indexed_messages msgs k : (λ e, e.1.1) <$> indexed msgs k = drop k msgs.
Proof.
  unfold indexed. rewrite fmap_imap. rewrite <- (list_fmap_id (drop k msgs)) at 2. rewrite <- imap_const. by apply imap_ext.
Qed.

Lemma length_body_ge msgs : (length msgs ≤ length (body msgs))%nat.
Proof.
  induction msgs as [|m msgs IH]; [done|]. rewrite body_cons, length_app. cbn [length]. pose proof (record_nonempty m). lia.
Qed.

Lemma start_offsets_log state ns name cg f msgs log :
  GetConsumerGroup state ns name = Some cg → file_log f msgs → f_opened f = true → commit_log msgs log →
  start_offsets state ns name (Some f) = Ok (cg, recovered (cg_OffsetCommits cg) log).
Proof.
  intros Hg Hlog Hopen Hc. unfold start_offsets. rewrite Hg. unfold Read.
  destruct (ReadAt_boundary f msgs 0 false Hlog ltac:(lia)) as (i & Hi & Hat & Hcl & Ht & Hw).
  change (boundary msgs 0) with 1 in Hi. rewrite Hi.
  pose proof (drain_log f msgs Hlog Hopen (length msgs) 0 i ltac:(lia) Hat Hcl Ht Hw) as Hd.
  rewrite (replay_drain f _ _ _ _ _ log Hd).
  - done.
  - rewrite (log_data f msgs Hlog). cbn [length]. pose proof (length_body_ge msgs). lia.
  - by rewrite indexed_messages, drop_0.
Qed.

End replay.

(** ** The task and the cluster around it *)

Inductive task_phase : Type :=
| Idle
| Writing (ack : Commit) (* at the label [Write] *)
| Stopped. (* returned or crashed *)

Record progress : Type := {
  pg_stored : list offset_commit; (* the offset commits of the group in the cluster state *)
  pg_task : GroupTask;
  pg_phase : task_phase;
  pg_acks : list Commit; (* every commit the task was given *)
  pg_given : list offset_commit; (* every offset the leader put into the state by itself *)
  pg_reset : gset Z; (* segments the leader dropped and added again while the task still had an offset *)
}.

(** The segments of which the task has an offset that are added to the offsets of the group. *)
Definition added_again (t : GroupTask) (old stored : list offset_commit) : gset Z :=
  (dom (gt_committed t) ∩ list_to_set (oc_SegmentID <$> stored)) ∖ list_to_set (oc_SegmentID <$> old).

Definition ack_ok (ack : Commit) : Prop :=
  0 ≤ commit_SegmentID ack ≤ MaxUint64 ∧ - 2 ^ 63 ≤ commit_CommitOffset ack ≤ MaxInt64.

Definition as_commit (ack : Commit) : offset_commit :=
  {| oc_SegmentID := commit_SegmentID ack; oc_Offset := commit_CommitOffset ack |}.

Section progress.

Context `{Codec ClusterConsumerGroup_OffsetCommit} `{!CodecLaw ClusterConsumerGroup_OffsetCommit commit_ok}.
Context (sha1 : list Z → list Z) (nodeID : Z) (ns name : string).

(** The offset segment stays below 2^63 bytes. *)
Definition fits (t : GroupTask) (ack : Commit) : Prop :=
  ∀ buf, Marshal (as_commit ack) = Ok buf → f_offset (gt_file t) + Z.of_nat (length (record buf)) ≤ MaxInt64.

(** The ways to the label [Commit]: an acknowledgement that waits, a completed segment, one of the group. *)
Inductive to_commit (t : GroupTask) : Commit → GroupTask → Prop :=
| commit_now ack t' : next_ack t = Some (ack, t') → to_commit t ack t'
| commit_completed id taskID closed ack t' : consume_completed t id taskID false closed = (t', Some ack) → to_commit t ack t'
| commit_group ack : next_ack t = None → to_commit t ack t.

(** The steps of the loop and of the cluster.  The leader changes the offsets of the group when its bindings or the
    segments change, as [reconcileConsumerGroupOffsetCommits] does: it drops segments, keeps the offsets of others, and
    adds segments that have no offset, at 0.  Only this task rotates the offset segment. *)
Inductive progress_step : progress → progress → Prop :=
| step_ack s ack t :
    pg_phase s = Idle → to_commit (pg_task s) ack t → ack_ok ack →
    progress_step s {| pg_stored := pg_stored s; pg_task := commit_ack t ack; pg_phase := Writing ack;
                       pg_acks := pg_acks s ++ [ack]; pg_given := pg_given s; pg_reset := pg_reset s |}
| step_write s ack w t :
    pg_phase s = Writing ack → fits (pg_task s) ack → write_commit (pg_task s) ack w = CommitWritten t →
    progress_step s {| pg_stored := pg_stored s; pg_task := t; pg_phase := Idle; pg_acks := pg_acks s; pg_given := pg_given s; pg_reset := pg_reset s |}
| step_write_fails s ack w t e :
    pg_phase s = Writing ack → fits (pg_task s) ack → write_commit (pg_task s) ack w = CommitFails t e →
    progress_step s {| pg_stored := pg_stored s; pg_task := t; pg_phase := Stopped; pg_acks := pg_acks s; pg_given := pg_given s; pg_reset := pg_reset s |}
| step_rotate s ack w t request update order response f t' :
    pg_phase s = Writing ack → write_commit (pg_task s) ack w = CommitFull t →
    (∀ m, order m ≡ₚ map_to_list m) → rotate_request sha1 nodeID ns name order t = Ok request →
    scr_OffsetCommitsUpdate request = Some update →
    file_log f [] → f_opened f = true → rotated nodeID (Some response) true (Some f) t = Rotated t' →
    progress_step s {| pg_stored := sort_by oc_SegmentID (ocu_OffsetCommits update); pg_task := t'; pg_phase := Writing ack;
                       pg_acks := pg_acks s; pg_given := pg_given s; pg_reset := ∅ |}
| step_rotate_lost s ack w t request update order segmentID f :
    pg_phase s = Writing ack → write_commit (pg_task s) ack w = CommitFull t →
    (∀ m, order m ≡ₚ map_to_list m) → rotate_request sha1 nodeID ns name order t = Ok request →
    scr_OffsetCommitsUpdate request = Some update → file_log f [] → f_opened f = true →
    progress_step s {| pg_stored := sort_by oc_SegmentID (ocu_OffsetCommits update); pg_task := with_handle t segmentID f; pg_phase := Stopped;
                       pg_acks := pg_acks s; pg_given := pg_given s; pg_reset := ∅ |}
| step_tick s Intn pointer state order cg t :
    pg_phase s = Idle → GetConsumerGroup state ns name = Some cg → cg_OffsetCommits cg = pg_stored s →
    task_tick nodeID Intn ns name pointer state order (pg_task s) = Ok t →
    progress_step s {| pg_stored := pg_stored s; pg_task := t; pg_phase := Idle; pg_acks := pg_acks s; pg_given := pg_given s; pg_reset := pg_reset s ∩ dom (gt_committed t) |}
| step_completed s id taskID failed closed t :
    pg_phase s = Idle → consume_completed (pg_task s) id taskID failed closed = (t, None) →
    progress_step s {| pg_stored := pg_stored s; pg_task := t; pg_phase := Idle; pg_acks := pg_acks s; pg_given := pg_given s; pg_reset := pg_reset s |}
| step_leader s stored :
    NoDup (oc_SegmentID <$> stored) →
    (∀ c, c ∈ stored → c ∈ pg_stored s ∨ oc_Offset c = 0 ∧ oc_SegmentID c ∉ oc_SegmentID <$> pg_stored s) →
    progress_step s {| pg_stored := stored; pg_task := pg_task s; pg_phase := pg_phase s; pg_acks := pg_acks s;
                       pg_given := pg_given s ++ stored; pg_reset := pg_reset s ∪ added_again (pg_task s) (pg_stored s) stored |}
| step_crash s :
    progress_step s {| pg_stored := pg_stored s; pg_task := pg_task s; pg_phase := Stopped; pg_acks := pg_acks s;
                       pg_given := pg_given s; pg_reset := pg_reset s |}
| step_restart s state cg t group counter :
    pg_phase s = Stopped → GetConsumerGroup state ns name = Some cg → cg_OffsetCommits cg = pg_stored s →
    start_task state ns name (gt_segmentID (pg_task s)) (Some (gt_file (pg_task s))) counter = Ok (t, group) →
    progress_step s {| pg_stored := pg_stored s; pg_task := t; pg_phase := Idle; pg_acks := pg_acks s; pg_given := pg_given s; pg_reset := ∅ |}.

(** An offset that the leader stored or the task was given. *)
Definition justified (s : progress) (c : offset_commit) : Prop :=
  c ∈ pg_given s ∨ ∃ ack, ack ∈ pg_acks s ∧ as_commit ack = c.

(** What is in memory but may not be on disk yet. *)
Definition pending (p : task_phase) (k : Z) (o : Z) : Prop :=
  match p with
  | Idle => False
  | Writing ack => commit_SegmentID ack = k ∧ commit_CommitOffset ack = o
  | Stopped => True
  end.

Record progress_inv (s : progress) : Prop := {
  pi_keys : NoDup (oc_SegmentID <$> pg_stored s);
  pi_log : ∃ msgs log, file_log (gt_file (pg_task s)) msgs ∧ f_opened (gt_file (pg_task s)) = true ∧ commit_log msgs log ∧
    (∀ c, c ∈ log → justified s c) ∧
    ∀ k o r, gt_committed (pg_task s) !! k = Some o → recovered (pg_stored s) log !! k = Some r →
      o ≤ r ∨ pending (pg_phase s) k o ∨ k ∈ pg_reset s;
  pi_stored : ∀ c, c ∈ pg_stored s → justified s c;
  pi_committed : ∀ k o, gt_committed (pg_task s) !! k = Some o → justified s {| oc_SegmentID := k; oc_Offset := o |};
  pi_writing : ∀ ack, pg_phase s = Writing ack → ack_ok ack ∧ ack ∈ pg_acks s;
}.

Lemma recovered_justified s log k r :
  NoDup (oc_SegmentID <$> pg_stored s) → (∀ c, c ∈ pg_stored s → justified s c) → (∀ c, c ∈ log → justified s c) →
  recovered (pg_stored s) log !! k = Some r → justified s {| oc_SegmentID := k; oc_Offset := r |}.
Proof.
  intros Hnd Hs Hl. rewrite recovered_lookup. intros (o & Ho & ->)%fmap_Some. apply init_lookup in Ho; [|done].
  destruct (max_offset_source k log o) as [->|Hin]; auto.
Qed.

Lemma commit_ack_committed t ack k o :
  gt_committed (commit_ack t ack) !! k = Some o →
  gt_committed t !! k = Some o ∨ (commit_SegmentID ack = k ∧ commit_CommitOffset ack = o).
Proof.
  unfold commit_ack. destruct (_ <? _); [|by left]. cbn. rewrite lookup_insert_Some. intros [[<- <-]|[_ ?]]; auto.
Qed.

Lemma commit_ack_file t ack : gt_file (commit_ack t ack) = gt_file t ∧ gt_segmentID (commit_ack t ack) = gt_segmentID t.
Proof. unfold commit_ack. by destruct (_ <? _). Qed.

Lemma consume_segment_kept Intn state cg t id offset t' :
  consume_segment nodeID Intn state cg t id offset = Ok t' → gt_committed t' = gt_committed t ∧ gt_file t' = gt_file t.
Proof.
  unfold consume_segment, ack_old. repeat case_match; intros [= <-]; done.
Qed.

Lemma consume_segments_kept Intn state cg offsets : ∀ t t',
  consume_segments nodeID Intn state cg t offsets = Ok t' → gt_committed t' = gt_committed t ∧ gt_file t' = gt_file t.
Proof.
  induction offsets as [|[id offset] offsets IH]; intros t t'; cbn [consume_segments]; [by intros [= ->]|].
  destruct (consume_segment _ _ _ _ t id offset) as [t1| |] eqn:E; cbn; [|done..]. apply consume_segment_kept in E as [E1 E2].
  intros [H1 H2]%IH. by rewrite <- E1, <- E2.
Qed.

Lemma tick_kept Intn pointer state order t t' :
  task_tick nodeID Intn ns name pointer state order t = Ok t' →
  gt_file t' = gt_file t ∧
  (gt_committed t' = gt_committed t ∨
   ∃ cg, GetConsumerGroup state ns name = Some cg ∧ gt_committed t' = next_offsets (gt_committed t) (cg_OffsetCommits cg)).
Proof.
  unfold task_tick. case_bool_decide; [intros [= ->]; auto|]. destruct (GetConsumerGroup state ns name) as [cg|] eqn:Hg; [|done].
  intros [H1 H2]%consume_segments_kept. split; [done|]. right. by exists cg.
Qed.

Lemma write_commit_log t ack w msgs :
  file_log (gt_file t) msgs → f_opened (gt_file t) = true → fits t ack → ack_ok ack →
  match write_commit t ack w with
  | CommitWritten t' =>
      ∃ m, file_log (gt_file t') (msgs ++ [m]) ∧ f_opened (gt_file t') = true ∧ Unmarshal m = Ok (as_commit ack) ∧
        gt_committed t' = gt_committed t
  | CommitFails t' _ => file_log (gt_file t') msgs ∧ f_opened (gt_file t') = true ∧ gt_committed t' = gt_committed t
  | _ => True
  end.
Proof.
  intros Hlog Hopen Hfits Hok. unfold write_commit. fold (as_commit ack).
  destruct (codec_roundtrip (as_commit ack) Hok) as (m & Hm & Hu). rewrite Hm.
  destruct (Write (gt_file t) m w) as [[f r]|[]|] eqn:Hw; [|done..].
  destruct (Write_log _ msgs m w f r Hlog Hopen Hw (Hfits m Hm)) as (more & H1 & H2 & _ & ->).
  destruct r as [e|]; [rewrite app_nil_r in H1|by exists m]. by destruct e.
Qed.

Lemma write_commit_full t ack w t' : write_commit t ack w = CommitFull t' → t' = t.
Proof. unfold write_commit. repeat case_match; by intros [= <-]. Qed.

Lemma rotate_update order t request update :
  (∀ m, order m ≡ₚ map_to_list m) → rotate_request sha1 nodeID ns name order t = Ok request →
  scr_OffsetCommitsUpdate request = Some update →
  NoDup (oc_SegmentID <$> ocu_OffsetCommits update) ∧
  ∀ c, c ∈ ocu_OffsetCommits update ↔ gt_committed t !! oc_SegmentID c = Some (oc_Offset c).
Proof.
  intros Ho. unfold rotate_request. destruct (Sum _ _) as [[bytes size]| |]; [|done..]. intros [= <-] [= <-].
  cbn [ocu_OffsetCommits]. split.
  - rewrite <- list_fmap_compose. rewrite (list_fmap_ext _ fst) by done. rewrite Ho. apply NoDup_fst_map_to_list.
  - intros [k o]. rewrite list_elem_of_fmap. cbn. split.
    + intros ([k' o'] & [= -> ->] & Hin). rewrite Ho in Hin. by apply elem_of_map_to_list.
    + intros Hin. exists (k, o). split; [done|]. rewrite Ho. by apply elem_of_map_to_list.
Qed.

Lemma sorted_update update :
  NoDup (oc_SegmentID <$> ocu_OffsetCommits update) → NoDup (oc_SegmentID <$> sort_by oc_SegmentID (ocu_OffsetCommits update)).
Proof. by rewrite sort_by_Permutation. Qed.

Lemma recovered_snoc stored log c k :
  recovered stored (log ++ [c]) !! k = (λ r, if oc_SegmentID c =? k then Z.max r (oc_Offset c) else r) <$> recovered stored log !! k.
Proof. unfold recovered. rewrite foldl_app. cbn [foldl]. apply replay_commit_lookup. Qed.

Lemma recovered_nil stored k : recovered stored [] !! k = init_offsets stored !! k.
Proof. done. Qed.

(** The state keeps its justification when only more is given. *)
Lemma justified_more s s' c :
  pg_given s ⊆ pg_given s' → pg_acks s ⊆ pg_acks s' → justified s c → justified s' c.
Proof. intros Hg Ha [Hc|(ack & Hin & E)]; [by left; apply Hg|right; eauto]. Qed.

Lemma completed_kept t id taskID failed closed t' ack :
  consume_completed t id taskID failed closed = (t', ack) → gt_committed t' = gt_committed t ∧ gt_file t' = gt_file t.
Proof. unfold consume_completed. repeat case_match; by intros [= <- _]. Qed.

Lemma to_commit_kept t ack t' : to_commit t ack t' → gt_committed t' = gt_committed t ∧ gt_file t' = gt_file t.
Proof.
  intros [? ? H'|? ? ? ? ? H'|]; [|by apply completed_kept in H'|done].
  unfold next_ack in H'. destruct (gt_ackImmediately t); [done|]. by injection H' as _ <-.
Qed.

Lemma inv_ack s ack t :
  progress_inv s → pg_phase s = Idle → to_commit (pg_task s) ack t → ack_ok ack →
  progress_inv {| pg_stored := pg_stored s; pg_task := commit_ack t ack; pg_phase := Writing ack;
                  pg_acks := pg_acks s ++ [ack]; pg_given := pg_given s; pg_reset := pg_reset s |}.
Proof.
  intros [Hk (msgs & log & Hlog & Hopen & Hc & Hj & Hle) Hs Hm _] Hp [Ht1 Ht2]%to_commit_kept Hok. set (s' := {| pg_stored := _ |}).
  assert (∀ c, justified s c → justified s' c) as Hmore by (intros c; apply justified_more; cbn; set_solver).
  assert (justified s' (as_commit ack)) as Hack by (right; exists ack; cbn; set_solver).
  rewrite <- Ht1 in Hle, Hm. rewrite <- Ht2 in Hlog, Hopen. destruct (commit_ack_file t ack) as [Hf _].
  constructor; cbn [s' pg_stored pg_task pg_phase]; [done| |by auto| |].
  - exists msgs, log. rewrite Hf. split_and!; [done..|by auto|]. intros k o r [Ho|[<- <-]]%commit_ack_committed Hr; [|by right; left].
    destruct (Hle k o r Ho Hr) as [?|[Hpd|?]]; [by left|by rewrite Hp in Hpd|by right; right].
  - intros k o [Ho|[<- <-]]%commit_ack_committed; [by apply Hmore, Hm|done].
  - intros ack' [= <-]. split; [done|]. cbn. set_solver.
Qed.

Lemma inv_write s ack w t :
  progress_inv s → pg_phase s = Writing ack → fits (pg_task s) ack → write_commit (pg_task s) ack w = CommitWritten t →
  progress_inv {| pg_stored := pg_stored s; pg_task := t; pg_phase := Idle; pg_acks := pg_acks s; pg_given := pg_given s; pg_reset := pg_reset s |}.
Proof.
  intros [Hk (msgs & log & Hlog & Hopen & Hc & Hj & Hle) Hs Hm Hwr] Hp Hfits Hw. destruct (Hwr ack Hp) as [Hok Hin].
  pose proof (write_commit_log (pg_task s) ack w msgs Hlog Hopen Hfits Hok) as Hl. rewrite Hw in Hl.
  destruct Hl as (m & Hlog' & Hopen' & Hu & Hcm). set (s' := {| pg_stored := _ |}).
  assert (∀ c, justified s c → justified s' c) as Hmore by (intros c; by apply justified_more).
  constructor; cbn [s' pg_stored pg_task pg_phase]; [done| |by auto|rewrite Hcm; by auto|done].
  exists (msgs ++ [m]), (log ++ [as_commit ack]). split_and!; [done|done|by apply Forall2_app; [|constructor]| |].
  - intros c [Hin2 | ->%list_elem_of_singleton]%elem_of_app; [by auto|]. right. by exists ack.
  - intros k o r Ho. rewrite Hcm in Ho. rewrite recovered_snoc. intros (r0 & Hr0 & ->)%fmap_Some.
    destruct (Hle k o r0 Ho Hr0) as [?|[Hpd|?]]; [left; case_match; lia| |by right; right]. left. rewrite Hp in Hpd. destruct Hpd as [<- <-].
    cbn [as_commit oc_SegmentID oc_Offset]. rewrite Z.eqb_refl. lia.
Qed.

(** The task ends; nothing on disk or in the cluster state has changed. *)
Lemma inv_stopped s t :
  progress_inv s → gt_committed t = gt_committed (pg_task s) →
  (∀ msgs, file_log (gt_file (pg_task s)) msgs → f_opened (gt_file (pg_task s)) = true → file_log (gt_file t) msgs ∧ f_opened (gt_file t) = true) →
  progress_inv {| pg_stored := pg_stored s; pg_task := t; pg_phase := Stopped; pg_acks := pg_acks s; pg_given := pg_given s; pg_reset := pg_reset s |}.
Proof.
  intros [Hk (msgs & log & Hlog & Hopen & Hc & Hj & Hle) Hs Hm _] Hcm Hf. destruct (Hf msgs Hlog Hopen) as [Hlog' Hopen'].
  set (s' := {| pg_stored := _ |}). assert (∀ c, justified s c → justified s' c) as Hmore by (intros c; by apply justified_more).
  constructor; cbn [s' pg_stored pg_task pg_phase]; [done| |by auto|rewrite Hcm; by auto|done].
  exists msgs, log. split_and!; [done..|by auto|]. intros k o r _ _. by right; left.
Qed.

(** After the leader stored the offsets of the task, with the new offset segment. *)
Lemma inv_rotated s t update order request phase :
  progress_inv s → (∀ m, order m ≡ₚ map_to_list m) → rotate_request sha1 nodeID ns name order (pg_task s) = Ok request →
  scr_OffsetCommitsUpdate request = Some update → gt_committed t = gt_committed (pg_task s) →
  phase = Stopped ∨ phase = pg_phase s → file_log (gt_file t) [] → f_opened (gt_file t) = true →
  progress_inv {| pg_stored := sort_by oc_SegmentID (ocu_OffsetCommits update); pg_task := t; pg_phase := phase;
                  pg_acks := pg_acks s; pg_given := pg_given s; pg_reset := ∅ |}.
Proof.
  intros [Hk (msgs & log & Hlog & Hopen & Hc & Hj & Hle) Hs Hm Hwr] Ho Hr Hu Hcm Hphase Hlog' Hopen'.
  destruct (rotate_update order (pg_task s) request update Ho Hr Hu) as [Hnd Hin]. set (s' := {| pg_stored := _ |}).
  assert (∀ c, justified s c → justified s' c) as Hmore by (intros c; by apply justified_more).
  constructor; cbn [s' pg_stored pg_task pg_phase]; [by apply sorted_update| | |rewrite Hcm; by auto|].
  - exists [], []. split_and!; [done|done|constructor|by intros c Hx%elem_of_nil|]. intros k o r Hko Hkr. left.
    rewrite recovered_nil in Hkr. apply init_lookup in Hkr; [|by apply sorted_update].
    rewrite elem_of_sort_by in Hkr. apply Hin in Hkr. cbn in Hkr. rewrite Hcm in Hko. rewrite Hko in Hkr. by simplify_eq.
  - intros c Hx. rewrite elem_of_sort_by in Hx. apply Hin in Hx. apply Hmore. destruct c. by apply Hm.
  - intros ack E. destruct Hphase as [-> | ->]; [done|by apply Hwr].
Qed.

Lemma inv_tick s Intn pointer state order cg t :
  progress_inv s → pg_phase s = Idle → GetConsumerGroup state ns name = Some cg → cg_OffsetCommits cg = pg_stored s →
  task_tick nodeID Intn ns name pointer state order (pg_task s) = Ok t →
  progress_inv {| pg_stored := pg_stored s; pg_task := t; pg_phase := Idle; pg_acks := pg_acks s; pg_given := pg_given s; pg_reset := pg_reset s ∩ dom (gt_committed t) |}.
Proof.
  intros [Hk (msgs & log & Hlog & Hopen & Hc & Hj & Hle) Hs Hm _] Hp Hg Hcg [Hf Hcm]%tick_kept. set (s' := {| pg_stored := _ |}).
  assert (∀ c, justified s c → justified s' c) as Hmore by (intros c; by apply justified_more).
  assert (∀ k o', gt_committed t !! k = Some o' →
    gt_committed (pg_task s) !! k = Some o' ∨ {| oc_SegmentID := k; oc_Offset := o' |} ∈ pg_stored s) as Hnew.
  { intros k o' Ho. destruct Hcm as [E|(cg' & Hg' & E)]; rewrite E in Ho; [by left|]. rewrite Hg in Hg'. simplify_eq.
    rewrite Hcg in Ho. apply next_lookup in Ho as (o & Hin & ->); [|done]. destruct (gt_committed (pg_task s) !! k) as [x|] eqn:Ex; [|by right].
    destruct (Z.max_spec x o) as [[_ ->]|[_ ->]]; [by right|by left]. }
  constructor; cbn [s' pg_stored pg_task pg_phase]; [done| |by auto| |done].
  - exists msgs, log. rewrite Hf. split_and!; [done..|by auto|]. intros k o r Hko. pose proof Hko as [Ho|Hin]%Hnew; intros Hr.
    + destruct (Hle k o r Ho Hr) as [?|[Hpd|Hres]]; [by left|by rewrite Hp in Hpd|]. right; right.
      apply elem_of_intersection. split; [done|by apply elem_of_dom].
    + left. rewrite recovered_lookup in Hr. rewrite (proj2 (init_lookup _ k o Hk) Hin) in Hr. cbn in Hr. injection Hr as <-. apply max_offset_ge.
  - intros k o [Ho|Hin]%Hnew; auto.
Qed.

Lemma inv_leader s stored :
  progress_inv s → NoDup (oc_SegmentID <$> stored) →
  (∀ c, c ∈ stored → c ∈ pg_stored s ∨ oc_Offset c = 0 ∧ oc_SegmentID c ∉ oc_SegmentID <$> pg_stored s) →
  progress_inv {| pg_stored := stored; pg_task := pg_task s; pg_phase := pg_phase s; pg_acks := pg_acks s;
                  pg_given := pg_given s ++ stored; pg_reset := pg_reset s ∪ added_again (pg_task s) (pg_stored s) stored |}.
Proof.
  intros [Hk (msgs & log & Hlog & Hopen & Hc & Hj & Hle) Hs Hm Hwr] Hnd Hst. set (s' := {| pg_stored := _ |}).
  assert (∀ c, justified s c → justified s' c) as Hmore by (intros c; apply justified_more; cbn; set_solver).
  constructor; cbn [s' pg_stored pg_task pg_phase pg_acks]; [done| |intros c Hin; left; cbn; set_solver|by auto|done].
  exists msgs, log. split_and!; [done..|by auto|]. intros k o r Ho Hr.
  assert (recovered (pg_stored s) log !! k = Some r ∨ k ∈ added_again (pg_task s) (pg_stored s) stored) as [Hr'|Hagain].
  { rewrite recovered_lookup in *. apply fmap_Some in Hr as (o1 & Ho1 & ->). apply init_lookup in Ho1; [|done].
    destruct (Hst _ Ho1) as [Hin|[_ Hno]]; [left; by rewrite (proj2 (init_lookup _ k o1 Hk) Hin)|right].
    apply (list_elem_of_fmap_2 oc_SegmentID) in Ho1. unfold added_again.
    rewrite elem_of_difference, elem_of_intersection, !elem_of_list_to_set, elem_of_dom. by split_and!. }
  - destruct (Hle k o r Ho Hr') as [?|[?|?]]; [by left|by right; left|right; right; set_solver].
  - right; right. set_solver.
Qed.

Lemma inv_restart s state cg t group counter :
  progress_inv s → GetConsumerGroup state ns name = Some cg → cg_OffsetCommits cg = pg_stored s →
  start_task state ns name (gt_segmentID (pg_task s)) (Some (gt_file (pg_task s))) counter = Ok (t, group) →
  progress_inv {| pg_stored := pg_stored s; pg_task := t; pg_phase := Idle; pg_acks := pg_acks s; pg_given := pg_given s; pg_reset := ∅ |}.
Proof.
  intros [Hk (msgs & log & Hlog & Hopen & Hc & Hj & Hle) Hs Hm _] Hg Hcg Hst. unfold start_task in Hst.
  rewrite (start_offsets_log state ns name cg _ msgs log Hg Hlog Hopen Hc) in Hst. cbn [mbind result_bind] in Hst.
  destruct (NewGroup _); [|done..]. injection Hst as <- _. rewrite Hcg. set (s' := {| pg_stored := _ |}).
  assert (∀ c, justified s c → justified s' c) as Hmore by (intros c; by apply justified_more).
  constructor; cbn [s' pg_stored pg_task pg_phase gt_file gt_committed]; [done| |by auto| |done].
  - exists msgs, log. split_and!; [done..|by auto|]. intros k o r Ho Hr. left. simplify_eq. lia.
  - intros k o Ho. apply Hmore. by eapply (recovered_justified s log).
Qed.

Lemma progress_step_inv s s' : progress_inv s → progress_step s s' → progress_inv s'.
Proof.
  intros Hinv Hstep. destruct Hstep as [s ack t Hp Ht Hok|s ack w t Hp Hf Hw|s ack w t e Hp Hf Hw|s ack w t request update order response f t' Hp Hw Ho Hr Hu Hl Hop Hrot
    
    |s ack w t request update order segmentID f Hp Hw Ho Hr Hu Hl Hop|s Intn pointer state order cg t Hp Hg Hcg Ht|s id taskID failed closed t Hp Hc|s stored Hnd Hst|s|s state cg t group counter Hp Hg Hcg Hst].
  - by apply inv_ack.
  - by eapply inv_write.
  - apply inv_stopped; [done|..].
    + destruct (pi_writing s Hinv ack Hp) as [Hok _]. destruct (pi_log s Hinv) as (msgs & log & Hlog & Hopen & _).
      pose proof (write_commit_log (pg_task s) ack w msgs Hlog Hopen Hf Hok) as Hl. rewrite Hw in Hl. by destruct Hl as (_ & _ & ?).
    + intros msgs Hlog Hopen. destruct (pi_writing s Hinv ack Hp) as [Hok _].
      pose proof (write_commit_log (pg_task s) ack w msgs Hlog Hopen Hf Hok) as Hl. rewrite Hw in Hl. by destruct Hl as (? & ? & _).
  - apply write_commit_full in Hw as ->. unfold rotated in Hrot. destruct (negb _); [done|]. cbn in Hrot. injection Hrot as <-.
    rewrite <- Hp. eapply inv_rotated; eauto.
  - apply write_commit_full in Hw as ->. eapply inv_rotated; eauto.
  - by eapply inv_tick.
  - apply completed_kept in Hc as [E1 E2].
    destruct Hinv as [Hk (msgs & log & Hlog & Hopen & Hcl & Hj & Hle) Hs Hm _].
    constructor; cbn [pg_stored pg_task pg_phase]; rewrite ?E1, ?E2; [done| |done..]. exists msgs, log. rewrite Hp in Hle. by split_and!.
  - by apply inv_leader.
  - by apply inv_stopped.
  - by eapply inv_restart.
Qed.

Lemma progress_rtc_inv s s' : rtc progress_step s s' → progress_inv s → progress_inv s'.
Proof. induction 1 as [|x y z Hxy _ IH]; [done|]. intros Hx. apply IH. by eapply progress_step_inv. Qed.

End progress.

(** Before the first start: an empty offset segment, and offsets that the leader stored. *)
Definition before_start (f : File) (segmentID : Z) (stored : list offset_commit) : progress :=
  {| pg_stored := stored;
     pg_task := {| gt_segmentID := segmentID; gt_file := f; gt_committed := ∅; gt_state := None; gt_running := ∅; gt_canceled := ∅;
       gt_currentTaskID := 0; gt_ackImmediately := [] |};
     pg_phase := Stopped; pg_acks := []; pg_given := stored; pg_reset := ∅ |}.

Lemma before_start_inv `{Codec ClusterConsumerGroup_OffsetCommit} f segmentID stored :
  NoDup (oc_SegmentID <$> stored) → file_log f [] → f_opened f = true → progress_inv (before_start f segmentID stored).
Proof.
  intros Hnd Hlog Hopen. constructor; cbn; [done| |by intros c Hc; left|done|done].
  exists [], []. split_and!; [done|done|constructor|by intros c Hc%elem_of_nil|]. intros k o r _ _. by right; left.
Qed.

(** What the reconciler of the leader computes for the offsets of a group is a step of the leader. *)
Lemma reconciled_step `{Codec ClusterConsumerGroup_OffsetCommit} sha1 nodeID ns name s state namespace cg commits :
  cluster_wf state → namespace ∈ Namespaces state → cg ∈ ns_ConsumerGroups namespace → cg_OffsetCommits cg = pg_stored s →
  offset_commits state namespace cg = Some commits →
  ∃ given reset, progress_step sha1 nodeID ns name s
    {| pg_stored := sort_by oc_SegmentID commits; pg_task := pg_task s; pg_phase := pg_phase s; pg_acks := pg_acks s;
       pg_given := given; pg_reset := reset |}.
Proof.
  intros Hwf Hns Hcg Hst Hoc. destruct (offset_commits_Some state namespace cg Hwf Hns Hcg commits Hoc) as (Hnd & _ & Hin & _).
  eexists _, _. apply step_leader; [by rewrite sort_by_Permutation|]. intros c Hc. rewrite elem_of_sort_by in Hc.
  rewrite <- Hst. destruct (Hin c Hc) as [?|[? ?]]; auto.
Qed.

(** The order in which commits arrive does not matter: the task keeps the largest offset of each segment. *)
Lemma commit_ack_lookup t ack k :
  default 0 (gt_committed (commit_ack t ack) !! k) =
  if commit_SegmentID ack =? k then Z.max (default 0 (gt_committed t !! k)) (commit_CommitOffset ack)
  else default 0 (gt_committed t !! k).
Proof.
  unfold commit_ack. destruct (Z.ltb_spec (default 0 (gt_committed t !! commit_SegmentID ack)) (commit_CommitOffset ack)) as [Hlt|Hge];
    destruct (Z.eqb_spec (commit_SegmentID ack) k) as [<-|Hne]; cbn [gt_committed with_committed];
    rewrite ?lookup_insert_eq, ?lookup_insert_ne by done; cbn [default id]; lia.
Qed.

Lemma commit_acks_lookup acks : ∀ t k,
  default 0 (gt_committed (foldl commit_ack t acks) !! k) = max_offset k (default 0 (gt_committed t !! k)) (as_commit <$> acks).
Proof.
  induction acks as [|ack acks IH]; intros t k; cbn [foldl fmap list_fmap max_offset]; [done|].
  by rewrite IH, commit_ack_lookup.
Qed.

Lemma max_offset_Permutation k log log' : log ≡ₚ log' → ∀ from, max_offset k from log = max_offset k from log'.
Proof.
  induction 1 as [|c log log' _ IH|c c' log|log1 log2 log3 _ IH1 _ IH2]; intros from; cbn [max_offset]; [done|by rewrite IH| |by rewrite IH1].
  f_equal. repeat case_match; lia.
Qed.

Lemma commit_order_irrelevant t acks acks' k :
  acks ≡ₚ acks' →
  default 0 (gt_committed (foldl commit_ack t acks) !! k) = default 0 (gt_committed (foldl commit_ack t acks') !! k).
Proof. intros Hp. rewrite !commit_acks_lookup. apply max_offset_Permutation. by rewrite Hp. Qed.


Definition empty_file : File := {| f_data := [1]; f_opened := true; f_maxSize := 100; f_offset := 1; f_term := 1 |}.

Lemma empty_file_log : file_log empty_file [].
Proof. constructor; [reflexivity|reflexivity|vm_compute; discriminate]. Qed.

Definition demo_ack : Commit := {| commit_SegmentID := 1; commit_CommitOffset := 50 |}.

(** The task after its start, in phase [phase] with the offset of segment 1 and the file. *)
Definition demo_progress (phase : task_phase) (offset : Z) (f : File) (acks : list Commit) : progress :=
  {| pg_stored := cg_OffsetCommits demo_group;
     pg_task := {| gt_segmentID := 2; gt_file := f; gt_committed := <[1 := offset]> {[3 := 0]}; gt_state := None; gt_running := ∅;
       gt_canceled := ∅; gt_currentTaskID := 7; gt_ackImmediately := [] |};
     pg_phase := phase; pg_acks := acks; pg_given := cg_OffsetCommits demo_group; pg_reset := ∅ |}.

Definition written_file : File :=
  {| f_data := [1; 4; 8; 1; 16; 50]; f_opened := true; f_maxSize := 100; f_offset := 6; f_term := 1 |}.


(** The excepted case: the group is unbound from the topic of segment 1 and bound again before the task looks at the
    state.  The task is at offset 40, and a task that starts resumes at 0. *)
Lemma rebind_resumes_at_zero :
  let dropped := [{| oc_SegmentID := 3; oc_Offset := 0 |}] in
  let again := [{| oc_SegmentID := 1; oc_Offset := 0 |}; {| oc_SegmentID := 3; oc_Offset := 0 |}] in
  ∃ s, rtc (progress_step (λ _, []) 1 "default" "workers") (demo_progress Idle 40 empty_file []) s ∧ pg_phase s = Idle ∧
    pg_stored s = again ∧ 1 ∈ pg_reset s ∧ gt_committed (pg_task s) !! 1 = Some 40 ∧ recovered (pg_stored s) [] !! 1 = Some 0.
Proof.
  intros dropped again. eexists. split.
  { eapply rtc_l; [apply (step_leader _ _ _ _ _ dropped)|apply rtc_once, (step_leader _ _ _ _ _ again)].
    + apply (bool_decide_unpack _). by vm_compute.
    + intros c ->%list_elem_of_singleton. left. cbn. set_solver.
    + apply (bool_decide_unpack _). by vm_compute.
    + intros c [-> | ->%list_elem_of_singleton]%elem_of_cons; [right|left; cbn; set_solver].
      split; [done|]. apply (bool_decide_unpack _). by vm_compute. }
  split_and!; [reflexivity|reflexivity| |reflexivity|reflexivity]. apply (bool_decide_unpack _). by vm_compute.
Qed.

(** ** What a tick starts *)

Section starting.

Context (nodeID : Z) (Intn : nat → nat) (state : ClusterState) (cg : ClusterConsumerGroup).

(** The segment has messages past the offset, or may get some. *)
Definition has_more (id offset : Z) : option ClusterSegment :=
  match GetSegment state id with
  | Some segment => if negb (seg_ClosedAt segment =? 0) && (seg_Size segment <=? offset) then None else Some segment
  | None => None
  end.

(** Where a segment is read: here if it is complete here, else from a node that has it. *)
Definition source_ok (segment : ClusterSegment) (from : consume_from) : Prop :=
  match from with
  | ConsumeLocal => is_local nodeID segment = true
  | ConsumeRemote node =>
    is_local nodeID segment = false ∧
    if seg_ClosedAt segment =? 0 then node = PrimaryNodeID (seg_Nodes segment) else node ∈ DoneNodeIDs (seg_Nodes segment)
  end.

(** The segments in the offsets are segments of topics, and a closed one is complete somewhere. *)
Definition offsets_ok (id : Z) : Prop :=
  ∀ segment, GetSegment state id = Some segment →
    seg_Type segment = ClusterSegment_TOPIC ∧ is_Some (GetTopic state (seg_OwnerNamespace segment) (seg_OwnerName segment)) ∧
    (seg_ClosedAt segment ≠ 0 → DoneNodeIDs (seg_Nodes segment) ≠ []).

Definition task_for (id offset : Z) (task : consume_task) : Prop :=
  ct_SegmentID task = id ∧ ct_offset task = offset ∧ ∃ segment, has_more id offset = Some segment ∧ source_ok segment (ct_from task).

Lemma consume_segment_spec t id offset :
  (∀ n, (0 < n)%nat → (Intn n < n)%nat) → offsets_ok id → gt_running t !! id = None →
  ∃ t', consume_segment nodeID Intn state cg t id offset = Ok t' ∧ gt_canceled t' = gt_canceled t ∧
    match has_more id offset with
    | Some segment => ∃ task, gt_running t' = <[id := task]> (gt_running t) ∧ task_for id offset task
    | None => gt_running t' = gt_running t
    end.
Proof.
  intros HI Hok Hr. unfold consume_segment. rewrite Hr. unfold task_for, has_more.
  destruct (GetSegment state id) as [segment|] eqn:Hs; [|by eexists].
  destruct (negb _ && _) eqn:Hmore; [by eexists|]. destruct (Hok segment Hs) as (Hty & [topic Ht] & Hd).
  rewrite bool_decide_true by done. cbn [negb]. rewrite Ht. cbv zeta.
  assert (∀ t0, gt_running (ack_old cg segment id t0) = gt_running t0 ∧ gt_canceled (ack_old cg segment id t0) = gt_canceled t0) as Hold
    by (intros t0; unfold ack_old; by case_match). destruct (Hold t) as [H1 H2].
  assert (∀ from, source_ok segment from →
    ∃ t', Ok (E := group_error) (start_consume (ack_old cg segment id t) id offset from) = Ok t' ∧ gt_canceled t' = gt_canceled t ∧
      ∃ task, gt_running t' = <[id:=task]> (gt_running t) ∧ ct_SegmentID task = id ∧ ct_offset task = offset ∧
        ∃ segment0, Some segment = Some segment0 ∧ source_ok segment0 (ct_from task)) as Hstart.
  { intros from Hfrom. eexists. split; [done|]. cbn. rewrite H1, H2. split; [done|]. eexists. split; [done|]. cbn. eauto. }
  destruct (is_local nodeID segment) eqn:Hl; [apply (Hstart ConsumeLocal); exact Hl|].
  destruct (Z.eqb_spec (seg_ClosedAt segment) 0) as [E|E].
  - apply Hstart. split; [done|]. by rewrite (proj2 (Z.eqb_eq _ _) E).
  - specialize (Hd E). destruct (DoneNodeIDs (seg_Nodes segment)) as [|n ids] eqn:Ed; [done|].
    apply Hstart. split; [done|]. rewrite (proj2 (Z.eqb_neq _ _) E), Ed. apply list_elem_of_lookup_total_2. apply HI. cbn. lia.
Qed.

Lemma consume_segments_spec offsets : ∀ t,
  (∀ n, (0 < n)%nat → (Intn n < n)%nat) → (∀ p, p ∈ offsets → offsets_ok p.1) → NoDup offsets.*1 →
  ∃ t', consume_segments nodeID Intn state cg t offsets = Ok t' ∧ gt_canceled t' = gt_canceled t ∧
    (∀ k task, gt_running t !! k = Some task → gt_running t' !! k = Some task) ∧
    (∀ k task, gt_running t !! k = None → gt_running t' !! k = Some task → ∃ o, (k, o) ∈ offsets ∧ task_for k o task) ∧
    (∀ k o, (k, o) ∈ offsets → is_Some (has_more k o) → is_Some (gt_running t' !! k)).
Proof.
  induction offsets as [|[id offset] offsets IH]; intros t HI Hok Hnd; cbn [consume_segments].
  { exists t. split_and!; [done..|congruence|]. intros k o Hx. by apply elem_of_nil in Hx. }
  cbn in Hnd. apply NoDup_cons in Hnd as [Hid Hnd].
  assert (∃ t1, consume_segment nodeID Intn state cg t id offset = Ok t1 ∧ gt_canceled t1 = gt_canceled t ∧
    (∀ k, k ≠ id → gt_running t1 !! k = gt_running t !! k) ∧
    (∀ task, gt_running t !! id = Some task → gt_running t1 !! id = Some task) ∧
    (∀ task, gt_running t !! id = None → gt_running t1 !! id = Some task → task_for id offset task) ∧
    (is_Some (has_more id offset) → is_Some (gt_running t1 !! id))) as (t1 & E1 & Hc1 & Hne & Hsome & Hnone & Hmore).
  { destruct (gt_running t !! id) as [task|] eqn:Hr.
    - exists t. unfold consume_segment. rewrite Hr. by split_and!.
    - destruct (consume_segment_spec t id offset HI) as (t1 & E1 & Hc1 & Hm); [apply (Hok (id, offset)); set_solver|done|].
      exists t1. split_and!; [done|done|..]; destruct (has_more id offset) as [segment|] eqn:Hm'.
      + destruct Hm as (task & -> & _). intros k Hk. by rewrite lookup_insert_ne.
      + by rewrite Hm.
      + done.
      + done.
      + destruct Hm as (task & -> & Hf). intros task' _. rewrite lookup_insert_eq. by intros [= <-].
      + rewrite Hm, Hr. done.
      + destruct Hm as (task & -> & _). rewrite lookup_insert_eq. eauto.
      + by intros [? ?]. }
  rewrite E1. cbn [mbind result_bind].
  destruct (IH t1 HI ltac:(intros p Hp; apply Hok; set_solver) Hnd) as (t' & E2 & Hc2 & Hs2 & Hn2 & Hm2).
  exists t'. split_and!; [done|congruence|..].
  - intros k task Hk. apply Hs2. destruct (decide (k = id)) as [->|]; [by apply Hsome|by rewrite Hne].
  - intros k task Hk Hk'. destruct (gt_running t1 !! k) as [task1|] eqn:Ht1.
    + destruct (decide (k = id)) as [->|Hkid]; [|rewrite Hne in Ht1 by done; congruence].
      rewrite (Hs2 _ _ Ht1) in Hk'. injection Hk' as <-. exists offset. split; [set_solver|by apply Hnone].
    + destruct (Hn2 k task Ht1 Hk') as (o & Hin & Hf). exists o. split; [set_solver|done].
  - intros k o [[= -> ->]|Hin]%elem_of_cons Hm; [|by apply (Hm2 k o)].
    destruct (Hmore Hm) as [task Ht]. exists task. by apply Hs2.
Qed.

End starting.

(** Every task that [cancel_gone] cancels is for a segment that the group no longer follows. *)
Lemma cancel_gone_spec t k task :
  gt_running t !! k = Some task → gt_committed t !! k = None → ct_ID task ∈ gt_canceled (cancel_gone t).
Proof.
  intros Hr Hc. cbn. apply elem_of_union_l, elem_of_list_to_set, list_elem_of_fmap_2.
  apply list_elem_of_fmap. exists (k, task). split; [done|]. apply list_elem_of_In, filter_In. split.
  - apply list_elem_of_In. by apply elem_of_map_to_list.
  - cbn. by rewrite Hc.
Qed.

(** What a tick on a changed state does.  When the offsets of the group name segments of existing topics and closed
    ones are complete on some node, the tick succeeds; the offset of each segment of the group is the larger of the
    state's and the task's, and other offsets are dropped; running tasks are left alone and those of dropped segments
    are cancelled; every segment with something left to read has a task; and every new task reads a segment of the group
    from its offset, here when this node has it, from the primary node while it is open, else from a node that has it all. *)
Theorem tick_correct nodeID Intn ns name pointer state order t cg :
  GetConsumerGroup state ns name = Some cg → NoDup (oc_SegmentID <$> cg_OffsetCommits cg) →
  (∀ c, c ∈ cg_OffsetCommits cg → offsets_ok state (oc_SegmentID c)) →
  (∀ m, order m ≡ₚ map_to_list m) → (∀ n, (0 < n)%nat → (Intn n < n)%nat) → gt_state t ≠ Some pointer →
  ∃ t', task_tick nodeID Intn ns name pointer state order t = Ok t' ∧
    (∀ k v, gt_committed t' !! k = Some v ↔ ∃ o, {| oc_SegmentID := k; oc_Offset := o |} ∈ cg_OffsetCommits cg ∧
       v = match gt_committed t !! k with Some x => Z.max x o | None => o end) ∧
    (∀ k task, gt_running t !! k = Some task → gt_running t' !! k = Some task ∧
       (k ∉ oc_SegmentID <$> cg_OffsetCommits cg → ct_ID task ∈ gt_canceled t')) ∧
    (∀ k o, gt_committed t' !! k = Some o → is_Some (has_more state k o) → is_Some (gt_running t' !! k)) ∧
    (∀ k task, gt_running t !! k = None → gt_running t' !! k = Some task →
       ∃ o, gt_committed t' !! k = Some o ∧ task_for nodeID state k o task).
Proof.
  intros Hg Hnd Hok Ho HI Hst. unfold task_tick. rewrite bool_decide_false, Hg by done. cbv zeta.
  set (m := next_offsets _ _). set (t1 := cancel_gone _).
  assert (∀ k v, m !! k = Some v ↔ ∃ o, {| oc_SegmentID := k; oc_Offset := o |} ∈ cg_OffsetCommits cg ∧
    v = match gt_committed t !! k with Some x => Z.max x o | None => o end) as Hm by (intros k v; by apply next_lookup).
  assert (∀ k o, (k, o) ∈ order m ↔ m !! k = Some o) as Hin by (intros k o; rewrite Ho; apply elem_of_map_to_list).
  destruct (consume_segments_spec nodeID Intn state cg (order m) t1 HI) as (t' & E & Hc & Hs & Hn & Hmore).
  { intros [k o] (o' & Hc & _)%Hin%Hm. apply (Hok _ Hc). }
  { rewrite Ho. apply NoDup_fst_map_to_list. }
  exists t'. destruct (consume_segments_kept nodeID Intn state cg _ _ _ E) as [Ek _]. change (gt_committed t1) with m in Ek.
  rewrite Ek. split_and!; [done|done|..].
  - intros k task Hk. split; [by apply Hs|]. intros Hno. rewrite Hc. apply (cancel_gone_spec _ k); [done|].
    cbn. apply eq_None_not_Some. intros [v (o & Hx & _)%Hm]. apply Hno. by apply (list_elem_of_fmap_2 oc_SegmentID) in Hx.
  - intros k o Hk. by apply Hmore, Hin.
  - intros k task Hk Hk'. destruct (Hn k task Hk Hk') as (o & Hx & Hf). exists o. by rewrite <- Hin.
Qed.

Lemma tick_correct_witness :
  ∃ t', task_tick 1 (λ _, 0%nat) "default" "workers" 5 demo_state (λ m, map_to_list m)
      (pg_task (demo_progress Idle 40 empty_file [])) = Ok t' ∧
    is_Some (gt_running t' !! 1) ∧ is_Some (gt_running t' !! 3).
Proof.
  destruct (tick_correct 1 (λ _, 0%nat) "default" "workers" 5 demo_state (λ m, map_to_list m)
    (pg_task (demo_progress Idle 40 empty_file [])) demo_group) as (t' & E & Hc & _ & Hm & _).
  - reflexivity.
  - apply (bool_decide_unpack _). by vm_compute.
  - intros c [-> | ->%list_elem_of_singleton]%elem_of_cons segment; vm_compute; intros [= <-]; split_and!; (done || eauto).
  - done.
  - intros n. lia.
  - discriminate.
  - exists t'. split; [exact E|]. split.
    + apply (Hm 1 40); [apply Hc; exists 40; split; [left|reflexivity]|]. vm_compute. eauto.
    + apply (Hm 3 0); [apply Hc; exists 0; split; [right; left|reflexivity]|]. vm_compute. eauto.
Defined.
