(* ===== verification/GroupFeed.v ===== *)
(** * Feeding a consumer group from a segment

    A task that consumes a local segment offers to the group exactly the messages that the bindings accept, in the
    order of the segment and with the offset to commit; and two behaviours of consumption that lose or stop
    deliveries. *)
From S2P Require Import Prelude Emq ClusterState ClusterOps ClusterInv Match Consumers Segments SegmentsProps Requests OffsetCommit GroupTask GroupTaskProps.

Section feed.

Context `{Codec Publishing}.
Context (states : nat → ClusterState) (ns name topicName : string) (segment : ClusterSegment).

Definition message_time (p : Publishing) : Z := seg_CreatedAt segment + pub_Delta p.

Definition offer_of (p : Publishing) (commitOffset : Z) : Message :=
  {| TopicNamespace := seg_OwnerNamespace segment; TopicName := seg_OwnerName segment; SegmentID := seg_ID segment;
     CommitOffset := commitOffset; MessageTime := message_time p; Payload := pub_Message p; SubscriptionID := 0; SeqNo := 0 |}.

(** The group of the state wants the message. *)
Definition interested (state : ClusterState) (p : Publishing) : Prop :=
  ∃ cg message binding, GetConsumerGroup state ns name = Some cg ∧ pub_Message p = Some message ∧
    cg_Since cg ≤ message_time p ∧ binding ∈ cg_Bindings cg ∧ b_TopicName binding = topicName ∧ accepts message binding.

(** What is offered for messages with their commit offsets, from a turn on. *)
Inductive fed : nat → list (Publishing * Z) → list Message → Prop :=
| fed_nil turn : fed turn [] []
| fed_offer turn p c l ms : interested (states turn) p → fed (S turn) l ms → fed turn ((p, c) :: l) (offer_of p c :: ms)
| fed_skip turn p c l ms : ¬ interested (states turn) p → fed (S turn) l ms → fed turn ((p, c) :: l) ms.

(** The group exists, with bindings that [messageMatches] handles. *)
Definition group_ok (state : ClusterState) : Prop :=
  ∃ cg, GetConsumerGroup state ns name = Some cg ∧ ∀ binding, binding ∈ cg_Bindings cg → binding_ok binding.

Definition decodes (bytes : list Z) (p : Publishing) : Prop := Unmarshal bytes = Ok p ∧ is_Some (pub_Message p).

Lemma consume_message_spec state data p c :
  group_ok state → decodes data p →
  (interested state p ∧ consume_message state ns name topicName segment data c = Ok (Some (offer_of p c))) ∨
  (¬ interested state p ∧ consume_message state ns name topicName segment data c = Ok None).
Proof.
  intros (cg & Hg & Hok) (Hu & [message Hm]). unfold consume_message, interested. rewrite Hu, Hg, Hm. cbv zeta. cbn [matches].
  unfold messageMatches. fold (message_time p). destruct (Z.ltb_spec (message_time p) (cg_Since cg)).
  - right. split; [|done]. intros (? & ? & ? & ? & ? & ? & _). simplify_eq. lia.
  - destruct (any_binding_spec message topicName (cg_Bindings cg) Hok) as (b & -> & Hiff). destruct b.
    + left. destruct (proj1 Hiff eq_refl) as (binding & ? & ? & ?). split; [by exists cg, message, binding|].
      unfold offer_of. by rewrite Hm.
    + right. split; [|done]. intros (cg' & m' & binding & ? & ? & _ & ? & ? & ?). simplify_eq.
      assert (false = true) as [=] by (apply Hiff; eauto).
Qed.

Lemma consume_loop_drain f accepted n : ∀ fuel turn i entries pubs,
  (∀ j, group_ok (states j)) → (∀ j, accepted j = true) → drain n i f = (entries, Failed EOF) → (n ≤ fuel)%nat →
  Forall2 decodes ((λ e, e.1.1) <$> entries) pubs →
  ∃ ms, consume_loop fuel states accepted ns name topicName segment f turn i = (ms, ConsumeReturns None) ∧
    fed turn (zip pubs (snd <$> entries)) ms.
Proof.
  induction n as [|n IH]; intros fuel turn i entries pubs Hg Ha Hd Hf Hp; [done|]. destruct fuel as [|fuel]; [lia|].
  rewrite drain_S in Hd. cbn [consume_loop]. unfold consume_next. destruct (Iterator_Next i f) as [i' o].
  destruct o as [m offset commitOffset|e| |]; [|injection Hd as <- ->|done..].
  - injection Hd as <- Hd. cbn in Hp. apply Forall2_cons_inv_l in Hp as (p & pubs' & Hu & Hp & ->).
    destruct (IH fuel (S turn) i' (drain n i' f).1 pubs' Hg Ha ltac:(rewrite <- Hd; by destruct (drain n i' f)) ltac:(lia) Hp) as (ms & E & Hfed).
    destruct (consume_message_spec (states turn) m p commitOffset (Hg turn) Hu) as [[Hi ->]|[Hi ->]].
    + rewrite Ha, E. eexists. split; [done|]. by constructor.
    + rewrite E. eexists. split; [done|]. by constructor.
  - apply Forall2_nil_inv_l in Hp as ->. eexists. split; [done|]. constructor.
Qed.

(** A remote task does with the stream what a local one does with the file. *)
Lemma consume_stream_local f accepted m : ∀ n turn i,
  (drain m i f).2 = Failed EOF → (m ≤ n)%nat →
  consume_stream (read_stream n f i) states accepted ns name topicName segment turn =
  consume_loop n states accepted ns name topicName segment f turn i.
Proof.
  induction m as [|m IH]; intros n turn i; [done|]. rewrite drain_S. destruct n as [|n]; [lia|].
  cbn [read_stream consume_loop]. unfold consume_next.
  destruct (Iterator_Next i f) as [i' o]. destruct o as [data offset commitOffset|e| |]; cbn [snd]; [|intros [= ->]; done|done..].
  intros Hd Hn. cbn [consume_stream]. destruct (consume_message _ _ _ _ _ _ _) as [[msg|]| |]; [|apply IH; [done|lia]|done..].
  destruct (accepted turn); [|done]. by rewrite IH by (done || lia).
Qed.

End feed.

(** (C24) Consuming a closed segment.  Let the messages of the segment decode, the group exist throughout with
    bindings of the known kinds, and the group accept what it is offered.  From the start of the segment, or from the
    offset of its [k]-th message, the task offers, in the order of the segment, exactly the messages from there on
    that some binding of the group in the state of that moment accepts and that are not older than the group, each
    with the time of publishing and with the offset after it as the offset to commit; then it returns without an error.  A
    task that reads the segment from another node that has it offers the same. *)
Theorem consume_exact `{Codec Publishing} states accepted ns name topicName segment f msgs pubs k startOffset :
  file_log f msgs → f_opened f = true → Forall2 decodes msgs pubs → seg_ClosedAt segment ≠ 0 → (k ≤ length msgs)%nat →
  startOffset = boundary msgs k ∨ (k = 0%nat ∧ startOffset = 0) →
  (∀ turn, group_ok ns name (states turn)) → (∀ turn, accepted turn = true) →
  ∃ i ms, consume_iterator f segment startOffset = Ok i ∧
    consume_loop (S (length msgs)) states accepted ns name topicName segment f 0 i = (ms, ConsumeReturns None) ∧
    fed states ns name topicName segment 0 (zip (drop k pubs) ((λ j, boundary msgs (S j)) <$> seq k (length msgs - k))) ms ∧
    ∀ state nodeID, is_Some (GetNode state nodeID) →
      ∃ request, remote_request state nodeID true segment startOffset = Ok request ∧
        consume_stream (remote_stream (S (length msgs)) f request) states accepted ns name topicName segment 0 = (ms, ConsumeReturns None).
Proof.
  intros Hlog Hopen Hd Hcl Hk Hs Hg Ha. destruct (ReadAt_boundary f msgs k false Hlog Hk) as (i & Hi & Hat & Hic & Ht & Hw).
  assert (consume_iterator f segment startOffset = Ok i) as Hci.
  { unfold consume_iterator. rewrite (proj2 (Z.eqb_neq _ _) Hcl). pose proof (boundary_pos msgs k). destruct Hs as [->|[-> ->]].
    - by rewrite (proj2 (Z.ltb_lt _ _)) by lia.
    - exact Hi. }
  pose proof (drain_log f msgs Hlog Hopen (length msgs - k) k i eq_refl Hat Hic Ht Hw) as Hdr.
  destruct (consume_loop_drain states ns name topicName segment f accepted _ (S (length msgs)) 0 i _ (drop k pubs) Hg Ha Hdr)
    as (ms & E & Hfed); [lia|rewrite indexed_messages; by apply Forall2_drop|].
  exists i, ms. split_and!; [done|done| |].
  2: { intros state nodeID [node Hn]. eexists. unfold remote_request. rewrite Hn. split; [done|]. unfold remote_stream. cbn [srr_Offset srr_Wait].
       unfold consume_iterator in Hci. cbv zeta in Hci. rewrite Hci, <- E.
       apply (consume_stream_local states ns name topicName segment f accepted (S (length msgs - k))); [by rewrite Hdr|lia]. }
  replace ((λ j, boundary msgs (S j)) <$> seq k (length msgs - k)) with (snd <$> indexed msgs k); [done|].
  apply list_eq. intros j. unfold indexed. rewrite !list_lookup_fmap, list_lookup_imap, lookup_drop.
  destruct (decide (j < length msgs - k)%nat).
  - rewrite lookup_seq_lt by done. destruct (lookup_lt_is_Some_2 msgs (k + j) ltac:(lia)) as [m ->]. done.
  - rewrite lookup_ge_None_2 by lia. by rewrite lookup_seq_ge by lia.
Qed.

(** A codec for the witnesses: the routing key as bytes, and no message for no bytes. *)
#[local] Instance demo_codec : Codec Publishing := {
  Marshal p := Ok [];
  Unmarshal bytes :=
    Ok {| pub_Message := match bytes with
                         | [] => None
                         | _ => Some {| RoutingKey := String.string_of_list_ascii (map (λ b, Ascii.ascii_of_nat (Z.to_nat b)) bytes);
                                        Properties := None; Headers := None; Data := [] |}
                         end;
          pub_Delta := Z.of_nat (length bytes) |};
}.

Definition closed_orders : ClusterSegment :=
  demo_segment 1 ClusterSegment_TOPIC "orders" 200 64 {| PrimaryNodeID := 0; DoneNodeIDs := [1]; ReplicatingNodeIDs := [2] |}.

Definition demo_publishing (key : string) (delta : Z) : Publishing :=
  {| pub_Message := Some {| RoutingKey := key; Properties := None; Headers := None; Data := [] |}; pub_Delta := delta |}.

Lemma consume_exact_witness :
  ∃ i ms, consume_iterator demo_file closed_orders 0 = Ok i ∧
    consume_loop 2 (λ _, demo_state) (λ _, true) "default" "workers" "orders" closed_orders demo_file 0 i = (ms, ConsumeReturns None) ∧
    (length ms = 1)%nat.
Proof.
  destruct (consume_exact (λ _, demo_state) (λ _, true) "default" "workers" "orders" closed_orders demo_file [[7; 8]]
    [demo_publishing (String (Ascii.ascii_of_nat 7) (String (Ascii.ascii_of_nat 8) "")) 2] 0 0) as (i & ms & Hi & E & Hfed & _).
  - exact demo_file_log.
  - reflexivity.
  - constructor; [|constructor]. split; [reflexivity|]. eexists. reflexivity.
  - discriminate.
  - lia.
  - by right.
  - intros turn. exists demo_group. split; [reflexivity|]. intros binding ->%list_elem_of_singleton.
    split; [naive_solver|]. split; discriminate.
  - done.
  - exists i, ms. split; [exact Hi|]. split; [exact E|]. inversion Hfed as [|turn p c l ms' _ Hn|turn p c l ms' Hno _]; subst.
    + inversion Hn; subst. reflexivity.
    + destruct Hno. exists demo_group. do 2 eexists. split_and!; [reflexivity|reflexivity| |left|reflexivity|constructor].
      vm_compute. discriminate.
Defined.

(** ** Behaviours that stop or lose deliveries *)

(** A request without a message is valid; the task of a group with a direct binding panics on it. *)
Lemma publish_without_message :
  TopicPublishRequest_Validate {| tpr_DoNotForward := false; tpr_Namespace := "default"; tpr_Name := "orders"; tpr_Message := None |} =
    Ok () ∧
  ∀ key, matches None 100 "orders" {| cg_Name := "workers"; cg_Bindings := [{| b_TopicName := "orders";
      b_ExchangeType := ExchangeTypeDirect; b_By := By_RoutingKey key |}]; cg_Size := 16; cg_Since := 50; cg_OffsetCommits := [] |} =
      Panic "nil pointer dereference".
Proof. split; [vm_compute; reflexivity|]. reflexivity. Qed.

(** The end of a closed segment commits all of it, whatever is still waiting to be acknowledged; after that no tick
    consumes the segment again, in this task or in one that starts later. *)
Lemma completed_commits_all nodeID Intn state cg t id taskID segment t' ack offset :
  GetSegment state id = Some segment → seg_ClosedAt segment ≠ 0 → gt_committed t !! id = Some offset → offset < seg_Size segment →
  consume_completed t id taskID false (Some segment) = (t', Some ack) →
  gt_committed (commit_ack t' ack) !! id = Some (seg_Size segment) ∧
  ∀ t2, consume_segment nodeID Intn state cg t2 id (seg_Size segment) = Ok t2.
Proof.
  intros Hs Hcl Ho Hlt Hc. split.
  - unfold consume_completed in Hc. destruct (gt_running t !! id) as [task|]; [|done]. destruct (_ =? _); [|done].
    injection Hc as <- <-. unfold commit_ack. cbn. rewrite Ho. cbn. rewrite (proj2 (Z.ltb_lt _ _) Hlt). cbn.
    by rewrite lookup_insert_eq.
  - intros t2. unfold consume_segment. rewrite Hs. destruct (gt_running t2 !! id); [done|].
    rewrite (proj2 (Z.eqb_neq _ _) Hcl), Z.leb_refl. done.
Qed.
