(* ===== verification/Publish.v ===== *)
(** * Publishing

    Models [Publish] (src/mq/server_topic_publish.go) on one node: the choice of a segment or of a node to forward to,
    the write with rotations of full segments, the closing of a segment that became full.  The files are those that the
    directory of segments opens by identifier (an empty file for a segment that is new here).  The states that the
    node sees while it waits, the outcomes of writes and the answers of other calls are arguments. *)
From S2P Require Import Prelude Emq ClusterState ClusterOps Segments Requests Server OffsetCommit GroupTask.

Inductive publish_error : Type :=
| PublishInvalid (errs : list validation_error)
| PublishNoNamespace (namespace : string)
| PublishNoTopic (namespace name : string)
| PublishSegmentOpenFailed
| PublishCanceled (* [ctx.Err()] *)
| PublishFileOpenFailed
| PublishMarshalFailed (e : proto_error)
| PublishSumFailed (e : seg_error)
| PublishRotateFailed
| PublishRotatedOpenFailed
| PublishWriteFailed (e : seg_error)
| PublishCloseFailed
| PublishWontForward
| PublishForwardNodeDead
| PublishDialFailed.

(** ** Where to publish *)

Inductive target : Type :=
| TargetLocal (segmentID : Z)
| TargetForward (nodeID : Z)
| TargetOpen. (* a new segment is asked for *)

(** The target and [publishForwardRR] after the choice. *)
Definition choose_target (nodeID : Z) (openSegments : list ClusterSegment) (topic : ClusterTopic) (publishForwardRR : Z) :
    result publish_error (target * Z) :=
  let localSegmentID := match List.find (λ s, PrimaryNodeID (seg_Nodes s) =? nodeID) openSegments with
                        | Some openSegment => seg_ID openSegment
                        | None => 0
                        end in
  if localSegmentID =? 0 then
    let len := u32 (Z.of_nat (length openSegments)) in
    if (0 <? topic_Shards topic) && (topic_Shards topic <=? len) then
      let publishForwardRR := u32 (publishForwardRR + 1) in
      match openSegments !! Z.to_nat (publishForwardRR mod len) with
      | Some segment => Ok (TargetForward (PrimaryNodeID (seg_Nodes segment)), publishForwardRR)
      | None => Panic "index out of range"
      end
    else Ok (TargetOpen, publishForwardRR)
  else Ok (TargetLocal localSegmentID, publishForwardRR).

(** A busy wait: the first state in which something is found; the context ends after the given states. *)
Fixpoint wait_for {A} (look : ClusterState → option A) (state : ClusterState) (later : list ClusterState) :
    option (A * ClusterState * list ClusterState) :=
  match look state, later with
  | Some a, _ => Some (a, state, later)
  | None, state :: later => wait_for look state later
  | None, [] => None
  end.

(** ** Writing *)

(** A pass from the label [Write]: the outcome of the write and, if the segment is full, of the rotation. *)
Record write_pass : Type := { wp_write : write_result; wp_rotated : option SegmentOpenResponse }.

Inductive write_outcome : Type :=
| WriteDone (segmentID : Z) (f : File)
| WriteForward (nodeID : Z)
| WriteErr (e : publish_error)
| WriteCrash
| WriteRunning. (* still rotating *)

Definition close_request (sha1 : list Z → list Z) (nodeID segmentID : Z) (f : File) : result publish_error SegmentCloseRequest :=
  match Sum f SumAll with
  | Ok (bytes, size) =>
    Ok {| scr_LeaderOnly := false; scr_SegmentID := segmentID; scr_NodeID := nodeID; scr_Size := size; scr_Sha1 := sha1 bytes;
          scr_OffsetCommitsUpdate := None |}
  | Err e => Err (PublishSumFailed e)
  | Panic msg => Panic msg
  end.

(** The loop of writes and rotations: the files, the requests of rotations, and how it ends. *)
Fixpoint publish_write (sha1 : list Z → list Z) (nodeID : Z) (passes : list write_pass) (files : gmap Z File)
    (segmentID : Z) (f : File) (buf : list Z) : gmap Z File * list SegmentCloseRequest * write_outcome :=
  match passes with
  | [] => (files, [], WriteRunning)
  | pass :: passes =>
    match Write f buf (wp_write pass) with
    | Ok (f, None) => (<[segmentID := f]> files, [], WriteDone segmentID f)
    | Ok (f, Some ErrFull) =>
      match close_request sha1 nodeID segmentID f with
      | Ok request =>
        match wp_rotated pass with
        | None => (files, [request], WriteErr PublishRotateFailed)
        | Some response =>
          if negb (so_PrimaryNodeID response =? nodeID) then (files, [request], WriteForward (so_PrimaryNodeID response))
          else
            match files !! so_SegmentID response with
            | None => (files, [request], WriteErr PublishRotatedOpenFailed)
            | Some f =>
              let '(files, requests, o) := publish_write sha1 nodeID passes files (so_SegmentID response) f buf in
              (files, request :: requests, o)
            end
        end
      | Err e => (files, [], WriteErr e)
      | Panic _ => (files, [], WriteCrash)
      end
    | Ok (f, Some e) => (<[segmentID := f]> files, [], WriteErr (PublishWriteFailed e))
    | _ => (files, [], WriteCrash)
    end
  end.

(** ** The handler *)

(** What the calls of [Publish] answer. *)
Record publish_env : Type := {
  pe_states : list ClusterState; (* the states seen after the first one *)
  pe_opened : option SegmentOpenResponse; (* [SegmentOpen] *)
  pe_now : Z;
  pe_passes : list write_pass;
  pe_closed : bool; (* [SegmentClose] *)
  pe_dialed : bool; (* [pool.Get] *)
}.

Inductive publish_outcome : Type :=
| Published
| PublishFails (e : publish_error)
| PublishForwards (address : string) (request : TopicPublishRequest) (* its answer is the answer *)
| PublishPanics
| PublishRuns.

Record publish_result : Type := {
  pr_files : gmap Z File;
  pr_rotations : list SegmentCloseRequest;
  pr_close : option SegmentCloseRequest;
  pr_outcome : publish_outcome;
}.

(** [int64(time.Now().Sub(segment.CreatedAt))], which saturates, and then not below zero. *)
Definition delta_of (now createdAt : Z) : Z :=
  let delta := Z.max (- 2 ^ 63) (Z.min MaxInt64 (now - createdAt)) in
  if delta <? 0 then 0 else delta.

(** The block at the label [Forward]. *)
Definition publish_forward (env : publish_env) (state : ClusterState) (later : list ClusterState) (request : TopicPublishRequest)
    (forwardNodeID : Z) : publish_outcome :=
  if tpr_DoNotForward request then PublishFails PublishWontForward
  else
    match wait_for (λ s, GetNode s forwardNodeID) state later with
    | None => PublishFails PublishCanceled
    | Some (node, _, _) =>
      if negb (bool_decide (node_State node = ClusterNode_ALIVE)) then PublishFails PublishForwardNodeDead
      else if negb (pe_dialed env) then PublishFails PublishDialFailed
      else PublishForwards (node_Address node)
        {| tpr_DoNotForward := true; tpr_Namespace := tpr_Namespace request; tpr_Name := tpr_Name request;
           tpr_Message := tpr_Message request |}
    end.

Section handler.

Context `{Codec Publishing} (sha1 : list Z → list Z) (nodeID : Z) (env : publish_env) (files : gmap Z File).

Definition nothing_written (o : publish_outcome) : publish_result :=
  {| pr_files := files; pr_rotations := []; pr_close := None; pr_outcome := o |}.

(** The block that publishes to the local segment. *)
Definition publish_local (state : ClusterState) (request : TopicPublishRequest) (localSegmentID : Z) : publish_result :=
  match wait_for (λ s, GetOpenSegment s localSegmentID) state (pe_states env) with
  | None => nothing_written (PublishFails PublishCanceled)
  | Some (segment, state, later) =>
    match files !! localSegmentID with
    | None => nothing_written (PublishFails PublishFileOpenFailed)
    | Some f =>
      match Marshal {| pub_Message := tpr_Message request; pub_Delta := delta_of (pe_now env) (seg_CreatedAt segment) |} with
      | Err e => nothing_written (PublishFails (PublishMarshalFailed e))
      | Panic _ => nothing_written PublishPanics
      | Ok buf =>
        let '(files, rotations, o) := publish_write sha1 nodeID (pe_passes env) files localSegmentID f buf in
        let ended := λ close outcome, {| pr_files := files; pr_rotations := rotations; pr_close := close; pr_outcome := outcome |} in
        match o with
        | WriteDone segmentID f =>
          if IsFull f then
            match close_request sha1 nodeID segmentID f with
            | Ok request => ended (Some request) (if pe_closed env then Published else PublishFails PublishCloseFailed)
            | Err e => ended None (PublishFails e)
            | Panic _ => ended None PublishPanics
            end
          else ended None Published
        | WriteForward node => ended None (publish_forward env state later request node)
        | WriteErr e => ended None (PublishFails e)
        | WriteCrash => ended None PublishPanics
        | WriteRunning => ended None PublishRuns
        end
      end
    end
  end.

(** The result and [publishForwardRR]. *)
Definition Publish (state : ClusterState) (request : TopicPublishRequest) (publishForwardRR : Z) : publish_result * Z :=
  match TopicPublishRequest_Validate request with
  | Err errs => (nothing_written (PublishFails (PublishInvalid errs)), publishForwardRR)
  | Panic _ => (nothing_written PublishPanics, publishForwardRR)
  | Ok () =>
    match FindNamespace state (tpr_Namespace request) with
    | None => (nothing_written (PublishFails (PublishNoNamespace (tpr_Namespace request))), publishForwardRR)
    | Some (_, namespace) =>
      match FindTopic namespace (tpr_Name request) with
      | None => (nothing_written (PublishFails (PublishNoTopic (tpr_Namespace request) (tpr_Name request))), publishForwardRR)
      | Some (_, topic) =>
        let openSegments := FindOpenSegmentsFor state ClusterSegment_TOPIC (tpr_Namespace request) (tpr_Name request) in
        match choose_target nodeID openSegments topic publishForwardRR with
        | Ok (TargetLocal id, rr) => (publish_local state request id, rr)
        | Ok (TargetForward node, rr) => (nothing_written (publish_forward env state (pe_states env) request node), rr)
        | Ok (TargetOpen, rr) =>
          (match pe_opened env with
           | None => nothing_written (PublishFails PublishSegmentOpenFailed)
           | Some response =>
             if negb (so_PrimaryNodeID response =? nodeID)
             then nothing_written (publish_forward env state (pe_states env) request (so_PrimaryNodeID response))
             else publish_local state request (so_SegmentID response)
           end, rr)
        | Err e => (nothing_written (PublishFails e), publishForwardRR)
        | Panic _ => (nothing_written PublishPanics, publishForwardRR)
        end
      end
    end
  end.

End handler.
