(* ===== verification/PublishProps.v ===== *)
(** * Publishing writes a message once

    What a call of [Publish] leaves behind on each of its ways: one message appended to one segment, or nothing; what it
    tells the leader about full segments; and when it passes the request on. *)
From S2P Require Import Prelude Emq ClusterState ClusterOps ClusterInv Segments SegmentsProps Requests Server OffsetCommit GroupTask GroupTaskProps GroupFeed Publish.

Definition logs (files : gmap Z File) : Prop :=
  ∀ id f, files !! id = Some f → (∃ msgs, file_log f msgs) ∧ f_opened f = true.

(** The files can take the message and stay below 2^63 bytes. *)
Definition room (files : gmap Z File) (buf : list Z) : Prop :=
  ∀ id f, files !! id = Some f → f_offset f + Z.of_nat (length (record buf)) ≤ MaxInt64.

(** No message was added or removed. *)
Definition unchanged (files files' : gmap Z File) : Prop :=
  ∀ id, match files !! id, files' !! id with
        | Some f, Some f' => ∀ msgs, file_log f msgs → file_log f' msgs
        | None, None => True
        | _, _ => False
        end.

(** One message was added, at the end of one file. *)
Definition appended (files files' : gmap Z File) (id : Z) (m : list Z) : Prop :=
  ∃ f f', files !! id = Some f ∧ files' = <[id := f']> files ∧ f_opened f' = true ∧ ∀ msgs, file_log f msgs → file_log f' (msgs ++ [m]).

(** The request tells the size and the checksum of a full file. *)
Definition describes (sha1 : list Z → list Z) (nodeID : Z) (files : gmap Z File) (request : SegmentCloseRequest) : Prop :=
  ∃ f, files !! scr_SegmentID request = Some f ∧ IsFull f = true ∧ scr_NodeID request = nodeID ∧ scr_Size request = f_offset f ∧
    scr_Sha1 request = sha1 (f_data f) ∧ scr_OffsetCommitsUpdate request = None.

Lemma unchanged_refl files : unchanged files files.
Proof. intros id. by destruct (files !! id). Qed.

Lemma appended_logs files files' id m : logs files → appended files files' id m → logs files'.
Proof.
  intros Hlogs (f & f' & Hf & -> & Hopen & Hl) k g. rewrite lookup_insert_Some. intros [[<- <-]|[_ Hk]]; [|by eapply Hlogs].
  destruct (Hlogs id f Hf) as [[msgs Hlog] _]. eauto.
Qed.

(** Full files stay as they are. *)
Definition full_kept (files files' : gmap Z File) : Prop :=
  ∀ id f, files !! id = Some f → IsFull f = true → files' !! id = Some f.

Lemma full_kept_insert files id f f' : files !! id = Some f → IsFull f = false → full_kept files (<[id := f']> files).
Proof.
  intros Hf Hn k g Hk Hfull. rewrite lookup_insert_ne; [done|]. intros ->. congruence.
Qed.

Lemma describes_kept sha1 nodeID files files' request :
  full_kept files files' → describes sha1 nodeID files request → describes sha1 nodeID files' request.
Proof. intros Hk (f & Hf & Hfull & H). exists f. split; [by apply Hk|done]. Qed.

Lemma close_request_spec sha1 nodeID files id f :
  logs files → files !! id = Some f → IsFull f = true →
  ∃ request, close_request sha1 nodeID id f = Ok request ∧ describes sha1 nodeID files request.
Proof.
  intros Hlogs Hf Hfull. destruct (Hlogs id f Hf) as [[msgs Hlog] Hopen]. unfold close_request, Sum. rewrite Hopen.
  change (SumAll <? 1) with true. cbn iota. eexists. split; [done|]. exists f. cbn. split_and!; [done..| |done].
  f_equal. unfold section. rewrite drop_0, take_ge; [done|]. destruct Hlog. lia.
Qed.

(** What a write does to the files, by its answer. *)
Lemma write_files files id f buf w f' r :
  logs files → room files buf → files !! id = Some f → Write f buf w = Ok (f', r) →
  match r with
  | None => IsFull f = false ∧ appended files (<[id := f']> files) id buf
  | Some ErrFull => f' = f ∧ IsFull f = true
  | Some _ => IsFull f = false ∧ unchanged files (<[id := f']> files)
  end.
Proof.
  intros Hlogs Hroom Hf Hw. destruct (Hlogs id f Hf) as [[msgs0 Hlog0] Hopen].
  assert (f_opened f' = true) as Hopen'.
  { by destruct (Write_log f msgs0 buf w f' r Hlog0 Hopen Hw (Hroom id f Hf)) as (_ & _ & ? & _). }
  assert (∀ msgs, file_log f msgs → file_log f' (msgs ++ match r with None => [buf] | Some _ => [] end)) as Hl.
  { intros msgs Hlog. by destruct (Write_log f msgs buf w f' r Hlog Hopen Hw (Hroom id f Hf)) as (more & H1 & _ & _ & ->). }
  assert (match r with Some ErrFull => f' = f ∧ IsFull f = true | _ => IsFull f = false end) as Hfull.
  { revert Hw. unfold Write, IsFull. rewrite Hopen. repeat case_match; intros; simplify_eq; done. }
  destruct r as [e|].
  - assert (unchanged files (<[id := f']> files)).
    { intros k. destruct (decide (k = id)) as [->|]; [|rewrite lookup_insert_ne by done; by destruct (files !! k)].
      rewrite Hf, lookup_insert_eq. intros msgs Hlog. specialize (Hl msgs Hlog). by rewrite app_nil_r in Hl. }
    by destruct e.
  - split; [done|]. by exists f, f'.
Qed.

(** A rotation gave the segment to this node. *)
Definition rotated_to (nodeID : Z) (passes : list write_pass) (id : Z) : Prop :=
  ∃ pass response, pass ∈ passes ∧ wp_rotated pass = Some response ∧ so_SegmentID response = id ∧ so_PrimaryNodeID response = nodeID.

Lemma rotated_to_cons nodeID pass passes id : rotated_to nodeID passes id → rotated_to nodeID (pass :: passes) id.
Proof. intros (p & r & ? & ?). exists p, r. split; [by right|done]. Qed.

(** A write failed, and so did the system call that should have undone it: [File.Write] panics then. *)
Definition truncate_failed (passes : list write_pass) : Prop := ∃ pass n, pass ∈ passes ∧ wp_write pass = WroteSome n false.

Lemma truncate_failed_cons pass passes : truncate_failed passes → truncate_failed (pass :: passes).
Proof. intros (p & n & ? & ?). exists p, n. split; [by right|done]. Qed.

Lemma Write_Panic f buf w msg : Write f buf w = Panic msg → ∃ n, w = WroteSome n false.
Proof. unfold Write. repeat case_match; try done. eauto. Qed.

Definition write_spec (nodeID : Z) (passes : list write_pass) (files : gmap Z File) (id : Z) (buf : list Z)
    (files' : gmap Z File) (o : write_outcome) : Prop :=
  match o with
  | WriteDone id' f' => appended files files' id' buf ∧ files' !! id' = Some f' ∧ (id' = id ∨ rotated_to nodeID passes id')
  | WriteErr e => unchanged files files' ∧ e ≠ PublishCloseFailed
  | WriteCrash => unchanged files files' ∧ truncate_failed passes
  | _ => unchanged files files'
  end.

Lemma publish_write_spec sha1 nodeID files buf passes : ∀ id f,
  logs files → room files buf → files !! id = Some f →
  let '(files', rotations, o) := publish_write sha1 nodeID passes files id f buf in
  full_kept files files' ∧ Forall (describes sha1 nodeID files') rotations ∧ write_spec nodeID passes files id buf files' o.
Proof.
  induction passes as [|pass passes IH]; intros id f Hlogs Hroom Hf; cbn [publish_write].
  { split_and!; [by intros ? ? ? ?|done|apply unchanged_refl]. }
  destruct (Write f buf (wp_write pass)) as [[f' r]|[]|msg] eqn:Hw.
  2: { apply Write_Panic in Hw as [n Hn]. split_and!; [by intros ? ? ? ?|done|]. split; [apply unchanged_refl|]. exists pass, n. split; [left|done]. }
  pose proof (write_files files id f buf _ f' r Hlogs Hroom Hf Hw) as Hr.
  destruct r as [e|]; [|destruct Hr as [Hn Ha]; split_and!; [by eapply full_kept_insert|done|]; cbn; rewrite lookup_insert_eq; auto].
  assert (e = ErrFull ∨ (e ≠ ErrFull ∧ IsFull f = false ∧ unchanged files (<[id := f']> files))) as [->|(Hne & Hn & Hun)]
    by (destruct e; auto).
  - destruct Hr as [-> Hfull]. destruct (close_request_spec sha1 nodeID files id f Hlogs Hf Hfull) as (request & -> & Hd).
    assert (full_kept files files) as Hid by (by intros ? ? ? ?). pose proof (unchanged_refl files).
    assert (Forall (describes sha1 nodeID files) [request]) by (by constructor).
    destruct (wp_rotated pass) as [response|] eqn:Hrot; [|by split_and!].
    destruct (negb _) eqn:Hnode; [by split_and!|]. apply negb_false_iff, Z.eqb_eq in Hnode.
    destruct (files !! so_SegmentID response) as [f2|] eqn:Hf2; [|by split_and!].
    specialize (IH (so_SegmentID response) f2 Hlogs Hroom Hf2). destruct (publish_write _ _ _ _ _ _ _) as [[files' rotations] o].
    destruct IH as (Hk & Hrs & Ho). split_and!; [done| |].
    + constructor; [by eapply describes_kept|done].
    + destruct o; cbn in Ho |- *; [|done..|split; [|apply truncate_failed_cons]; apply Ho|done]. destruct Ho as (? & ? & Hto). split_and!; [done..|right].
      destruct Hto as [->|?]; [|by apply rotated_to_cons]. exists pass, response. split_and!; [left|done..].
  - assert (full_kept files (<[id := f']> files)) by (by eapply full_kept_insert).
    destruct e; try done; by split_and!.
Qed.

(** ** Waiting, forwarding, choosing *)

Lemma wait_for_spec {A} (look : ClusterState → option A) later : ∀ state a s l,
  wait_for look state later = Some (a, s, l) → look s = Some a ∧ ∀ x, x ∈ s :: l → x ∈ state :: later.
Proof.
  induction later as [|s2 later IH]; intros state a s l; cbn [wait_for]; destruct (look state) eqn:E; try done.
  - by intros [= -> <- <-].
  - by intros [= -> <- <-].
  - intros [H1 H2]%IH. split; [done|]. intros x Hx. right. by apply H2.
Qed.

(** The request goes to a live node, marked so that it stops there. *)
Definition passed_on (states : list ClusterState) (request : TopicPublishRequest) (address : string) (request' : TopicPublishRequest) : Prop :=
  tpr_DoNotForward request = false ∧
  request' = {| tpr_DoNotForward := true; tpr_Namespace := tpr_Namespace request; tpr_Name := tpr_Name request;
                tpr_Message := tpr_Message request |} ∧
  ∃ state nodeID node, state ∈ states ∧ GetNode state nodeID = Some node ∧ node_State node = ClusterNode_ALIVE ∧ node_Address node = address.

Lemma publish_forward_spec env state later request nodeID states :
  (∀ s, s ∈ state :: later → s ∈ states) →
  match publish_forward env state later request nodeID with
  | PublishForwards address request' => passed_on states request address request'
  | PublishFails e => e ≠ PublishCloseFailed
  | _ => False
  end.
Proof.
  intros Hin. unfold publish_forward. destruct (tpr_DoNotForward request) eqn:Hd; [done|].
  destruct (wait_for _ _ _) as [[[node s] l]|] eqn:Hw; [|done]. apply wait_for_spec in Hw as [Hn Hs].
  destruct (negb (bool_decide _)) eqn:Ha; [done|]. apply negb_false_iff, bool_decide_eq_true in Ha. destruct (negb _); [done|].
  split_and!; [done..|]. exists s, nodeID, node. split_and!; [|done..]. apply Hin, Hs. left.
Qed.

(** The index into the open segments is in range. *)
Lemma forward_index {A} (l : list A) shards rr :
  0 < shards → shards ≤ u32 (Z.of_nat (length l)) → is_Some (l !! Z.to_nat (u32 (rr + 1) mod u32 (Z.of_nat (length l)))).
Proof.
  intros Hs Hle. apply lookup_lt_is_Some_2. pose proof (Z.mod_pos_bound (u32 (rr + 1)) (u32 (Z.of_nat (length l))) ltac:(lia)).
  assert (u32 (Z.of_nat (length l)) ≤ Z.of_nat (length l)) by (unfold u32, wrap; apply Z.mod_le; lia). lia.
Qed.

Lemma choose_target_spec nodeID openSegments topic rr :
  ∃ target rr', choose_target nodeID openSegments topic rr = Ok (target, rr') ∧
    match target with
    | TargetLocal id => ∃ s, s ∈ openSegments ∧ seg_ID s = id ∧ PrimaryNodeID (seg_Nodes s) = nodeID
    | TargetForward node => ∃ s, s ∈ openSegments ∧ PrimaryNodeID (seg_Nodes s) = node
    | TargetOpen => True
    end.
Proof.
  unfold choose_target. cbv zeta. set (id := match List.find _ _ with Some _ => _ | None => _ end).
  assert (id ≠ 0 → ∃ s, s ∈ openSegments ∧ seg_ID s = id ∧ PrimaryNodeID (seg_Nodes s) = nodeID) as Hid.
  { unfold id. destruct (List.find _ openSegments) as [s|] eqn:Hfind; [|done]. apply find_some in Hfind as [Hin Hn%Z.eqb_eq].
    intros _. exists s. by rewrite list_elem_of_In. }
  destruct (Z.eqb_spec id 0) as [_|Hne]; [|do 2 eexists; split; [done|by apply Hid]].
  destruct (_ && _) eqn:Hsh; [|by do 2 eexists].
  apply andb_true_iff in Hsh as [?%Z.ltb_lt ?%Z.leb_le]. destruct (forward_index openSegments (topic_Shards topic) rr) as [s Hs]; [done..|].
  rewrite Hs. do 2 eexists. split; [done|]. exists s. split; [by eapply list_elem_of_lookup_2|done].
Qed.

(** ** The handler *)

Section handler.

Context `{Codec Publishing} (ok : Publishing → Prop) `{!CodecLaw Publishing ok}.
Context (sha1 : list Z → list Z) (nodeID : Z) (env : publish_env) (files : gmap Z File) (state : ClusterState)
  (request : TopicPublishRequest).

(** This node is the primary node of the segment, by the state or by an answer of the leader. *)
Definition granted (id : Z) : Prop :=
  (∃ s, s ∈ FindOpenSegmentsFor state ClusterSegment_TOPIC (tpr_Namespace request) (tpr_Name request) ∧ seg_ID s = id ∧
     PrimaryNodeID (seg_Nodes s) = nodeID) ∨
  (∃ response, pe_opened env = Some response ∧ so_SegmentID response = id ∧ so_PrimaryNodeID response = nodeID) ∨
  rotated_to nodeID (pe_passes env) id.

Definition publishing (delta : Z) : Publishing := {| pub_Message := tpr_Message request; pub_Delta := delta |}.

Definition publish_spec (r : publish_result) : Prop :=
  Forall (describes sha1 nodeID (pr_files r)) (pr_rotations r ++ option_list (pr_close r)) ∧
  match pr_outcome r with
  | Published | PublishFails PublishCloseFailed =>
    ∃ id m delta, granted id ∧ appended files (pr_files r) id m ∧ 0 ≤ delta ∧ Unmarshal m = Ok (publishing delta)
  | PublishForwards address request' =>
    unchanged files (pr_files r) ∧ passed_on (state :: pe_states env) request address request'
  | PublishPanics => unchanged files (pr_files r) ∧ truncate_failed (pe_passes env)
  | _ => unchanged files (pr_files r)
  end.

Definition encodable : Prop :=
  ∀ delta, 0 ≤ delta ≤ MaxInt64 → ok (publishing delta) ∧ ∀ buf, Marshal (publishing delta) = Ok buf → room files buf.

Lemma forward_spec s later node rotations files' :
  (∀ x, x ∈ s :: later → x ∈ state :: pe_states env) → unchanged files files' → Forall (describes sha1 nodeID files') rotations →
  publish_spec {| pr_files := files'; pr_rotations := rotations; pr_close := None; pr_outcome := publish_forward env s later request node |}.
Proof.
  intros Hin Hun Hr. pose proof (publish_forward_spec env s later request node _ Hin) as Hf. split; cbn; [by rewrite app_nil_r|].
  destruct (publish_forward _ _ _ _ _) as [|[]| | |]; done.
Qed.

Lemma nothing_spec o :
  match o with Published | PublishFails PublishCloseFailed | PublishForwards _ _ | PublishPanics => False | _ => True end →
  publish_spec (nothing_written files o).
Proof. intros Ho. split; [constructor|]. cbn. pose proof (unchanged_refl files). destruct o as [|[]| | |]; done. Qed.

Lemma delta_range now createdAt : 0 ≤ delta_of now createdAt ≤ MaxInt64.
Proof.
  unfold delta_of, MaxInt64. cbv zeta. match goal with |- context [Z.ltb ?a ?b] => destruct (Z.ltb_spec a b) end; lia.
Qed.

Lemma publish_local_spec id : logs files → encodable → granted id → publish_spec (publish_local sha1 nodeID env files state request id).
Proof.
  intros Hlogs Henc Hid. unfold publish_local. destruct (wait_for _ _ _) as [[[segment s] later]|] eqn:Hw; [|by apply nothing_spec].
  apply wait_for_spec in Hw as [_ Hin]. destruct (files !! id) as [f|] eqn:Hf; [|by apply nothing_spec].
  pose proof (delta_range (pe_now env) (seg_CreatedAt segment)) as Hd. set (delta := delta_of _ _) in *. clearbody delta.
  fold (publishing delta). destruct (Henc delta Hd) as [Hok Hroom].
  destruct (codec_roundtrip (publishing delta) Hok) as (buf & Hm & Hu). rewrite Hm. specialize (Hroom buf Hm).
  pose proof (publish_write_spec sha1 nodeID files buf (pe_passes env) id f Hlogs Hroom Hf) as Hspec.
  destruct (publish_write _ _ _ _ _ _ _) as [[files' rotations] o]. destruct Hspec as (Hk & Hr & Ho).
  assert (Forall (describes sha1 nodeID files') (rotations ++ option_list None)) as Hr0 by (by rewrite app_nil_r).
  destruct o as [id' f'|node|e| |]; cbn in Ho; [|by apply forward_spec|..].
  - destruct Ho as (Ha & Hf' & Hto).
    assert (∃ id m delta, granted id ∧ appended files files' id m ∧ 0 ≤ delta ∧ Unmarshal m = Ok (publishing delta)) as Hdone.
    { exists id', buf, delta. split_and!; [|done|lia|done]. destruct Hto as [->|Hto]; [done|]. by right; right. }
    destruct (IsFull f') eqn:Hfull; [|by split].
    destruct (close_request_spec sha1 nodeID files' id' f' ltac:(eapply appended_logs; eauto) Hf' Hfull) as (rq & -> & Hdr).
    split; cbn; [apply Forall_app; split; [done|by constructor]|by destruct (pe_closed env)].
  - destruct Ho as [Hun Hne]. split; [done|]. cbn. by destruct e.
  - by split.
  - by split.
Qed.

End handler.

(** (C3) A message is published once or not at all.  On a node whose segment files are intact and have room below 2^63 bytes, for a message that the encoding can carry, [Publish] that reports success
    has appended one message to one file and left all others alone: a segment of which this node is the primary
    node, by its state or by an answer of the leader; and the message decodes to the one of the request, with a
    time that is not before the start of the segment it was written for.  A call that passes the request on has written nothing,
    sends it to a live node with the same contents and marked not to be passed on again, and never does so for a
    request so marked.  Any other error leaves every file with the messages it had, except an error of the
    final closing, when the message is written.  Every segment that is reported as full is full, and is
    reported with its size and its checksum.  The handler panics only when a write failed and the file could not be
    cut back to its messages, which the file panics about itself; the choice of a segment to pass the request on to, in
    particular, does not index past the open segments. *)
Theorem publish_exact `{Codec Publishing} ok `{!CodecLaw Publishing ok} sha1 nodeID env files state request rr :
  logs files → encodable ok files request →
  publish_spec sha1 nodeID env files state request (Publish sha1 nodeID env files state request rr).1.
Proof.
  intros Hlogs Henc. unfold Publish. destruct (TopicPublishRequest_Validate request) as [[]| |] eqn:Hv; [|by apply nothing_spec|].
  2: { revert Hv. unfold TopicPublishRequest_Validate, validation. by case_match. }
  destruct (FindNamespace _ _) as [[i namespace]|]; [|by apply nothing_spec]. destruct (FindTopic _ _) as [[j topic]|]; [|by apply nothing_spec].
  cbv zeta. set (open := FindOpenSegmentsFor _ _ _ _). destruct (choose_target_spec nodeID open topic rr) as (t & rr' & -> & Ht).
  assert (∀ x, x ∈ state :: pe_states env → x ∈ state :: pe_states env) as Hid by done. pose proof (unchanged_refl files) as Hun.
  destruct t as [id|node|]; cbn.
  - eapply publish_local_spec; [done..|]. by left.
  - by apply forward_spec.
  - destruct (pe_opened env) as [response|] eqn:Ho; [|by apply nothing_spec].
    destruct (negb _) eqn:Hn; [by apply forward_spec|]. apply negb_false_iff, Z.eqb_eq in Hn.
    eapply publish_local_spec; [done..|]. right. left. by exists response.
Qed.

(** Two passes are enough when a rotation gives a segment that is not full. *)
Lemma publish_write_ends sha1 nodeID files id f buf passes :
  (2 ≤ length passes)%nat →
  (∀ pass response g, pass ∈ passes → wp_rotated pass = Some response → files !! so_SegmentID response = Some g → IsFull g = false) →
  (publish_write sha1 nodeID passes files id f buf).2 ≠ WriteRunning.
Proof.
  intros Hlen Hnew. destruct passes as [|p1 [|p2 passes]]; [cbn in Hlen; lia..|]. cbn [publish_write].
  destruct (Write f buf (wp_write p1)) as [[f1 [[]|]]|[]|]; try done.
  destruct (close_request _ _ _ _); try done. destruct (wp_rotated p1) as [response|] eqn:Hr; [|done].
  destruct (negb _); [done|]. destruct (files !! so_SegmentID response) as [g|] eqn:Hg; [|done].
  specialize (Hnew p1 response g ltac:(left) Hr Hg).
  assert (match Write g buf (wp_write p2) with Ok (_, Some ErrFull) => False | _ => True end) as Hw.
  { revert Hnew. unfold Write, IsFull. intros ->. by repeat case_match; simplify_eq. }
  by destruct (Write g buf (wp_write p2)) as [[f2 [[]|]]|[]|].
Qed.

(** ** A concrete node *)

Definition demo_message : EmqMessage := {| RoutingKey := "a"; Properties := None; Headers := None; Data := [1; 2] |}.

(** A codec for publishings of one message, by the codec of offset commits. *)
#[local] Instance one_codec : Codec Publishing := {
  Marshal p := Marshal {| oc_SegmentID := match pub_Message p with Some _ => 1 | None => 0 end; oc_Offset := pub_Delta p |};
  Unmarshal bytes :=
    c ← Unmarshal bytes;
    Ok {| pub_Message := if oc_SegmentID c =? 0 then None else Some demo_message; pub_Delta := oc_Offset c |};
}.

Definition one_ok (p : Publishing) : Prop :=
  (pub_Message p = None ∨ pub_Message p = Some demo_message) ∧ 0 ≤ pub_Delta p ≤ MaxInt64.

#[local] Instance one_law : CodecLaw Publishing one_ok.
Proof.
  intros [m d] [Hm Hd]. cbn in Hm, Hd.
  assert (commit_ok {| oc_SegmentID := match m with Some _ => 1 | None => 0 end; oc_Offset := d |}) as Hok.
  { unfold commit_ok, MaxInt64, MaxUint64 in *. cbn. destruct m; lia. }
  destruct (codec_roundtrip _ Hok) as (bytes & H1 & H2). exists bytes. split; [exact H1|].
  cbn [Unmarshal one_codec]. rewrite H2. cbn. by destruct Hm as [-> | ->].
Qed.

Definition demo_request : TopicPublishRequest :=
  {| tpr_DoNotForward := false; tpr_Namespace := "default"; tpr_Name := "orders"; tpr_Message := Some demo_message |}.

(** Segment 3 of the demo state is open, with node 1 as its primary node; segment 5 will follow it. *)
Definition demo_env : publish_env :=
  {| pe_states := []; pe_opened := None; pe_now := 1000;
     pe_passes := [{| wp_write := WroteAll; wp_rotated := Some {| so_SegmentID := 5; so_PrimaryNodeID := 1 |} |};
                   {| wp_write := WroteAll; wp_rotated := None |}];
     pe_closed := true; pe_dialed := true |}.

Definition demo_files : gmap Z File := {[3 := empty_file; 5 := empty_file]}.

Lemma PutUvarint_length_le fuel : ∀ x, (length (PutUvarint_loop fuel x) ≤ S fuel)%nat.
Proof. induction fuel as [|fuel IH]; intros x; cbn [PutUvarint_loop]; [cbn; lia|]. case_match; cbn [length]; [|lia]. specialize (IH (Z.shiftr x 7)). lia. Qed.

(** The record of a commit is short. *)
Lemma commit_record_le (m : offset_commit) buf : Marshal m = Ok buf → Z.of_nat (length (record buf)) ≤ 100.
Proof.
  cbn [Marshal OffsetCommit_codec]. unfold OffsetCommit_Marshal, msg_Marshal. destruct (mc_put OffsetCommit_msg m) as [bytes|e|msg]; [|done..]. cbn [mbind result_bind].
  destruct (Z.ltb_spec (mc_size OffsetCommit_msg m) (Z.of_nat (length bytes))) as [|Hle]; [intros [=]|]. intros [= <-].
  pose proof (OffsetCommit_Size_bound m) as Hb. unfold OffsetCommit_Size in Hb. rewrite length_record.
  pose proof (PutUvarint_length_le 10 (Z.of_nat (length bytes))). unfold PutUvarint. lia.
Qed.

Lemma demo_logs : logs demo_files.
Proof.
  intros id f. unfold demo_files. rewrite lookup_insert_Some, lookup_singleton_Some.
  intros [[_ <-]|[_ [_ <-]]]; (split; [exists []; exact empty_file_log|reflexivity]).
Qed.

Lemma demo_encodable : encodable one_ok demo_files demo_request.
Proof.
  intros delta Hd. split; [split; [by right|done]|]. intros buf Hm%commit_record_le id f.
  unfold demo_files. rewrite lookup_insert_Some, lookup_singleton_Some. unfold MaxInt64.
  intros [[_ <-]|[_ [_ <-]]]; cbn [f_offset empty_file]; lia.
Qed.

Lemma publish_exact_witness :
  let r := (Publish (λ _, []) 1 demo_env demo_files demo_state demo_request 0).1 in
  pr_outcome r = Published ∧ ∃ id m, appended demo_files (pr_files r) id m.
Proof.
  intros r. destruct (publish_exact one_ok (λ _, []) 1 demo_env demo_files demo_state demo_request 0 demo_logs demo_encodable) as [_ H].
  fold r in H. assert (pr_outcome r = Published) as E by (vm_compute; reflexivity). split; [exact E|]. rewrite E in H.
  destruct H as (id & m & delta & _ & Ha & _). exists id, m. exact Ha.
Defined.

(** ** The time of a message that follows a rotation

    The time is encoded relative to the segment that turned out to be full, and read relative to the one it is
    written to.  Here segment 3, of time 100, is full; the message of time 1000 goes to segment 5, of time 1000,
    and is read with the time 1900. *)
Definition full_file : File := {| f_data := [1; 1; 0]; f_opened := true; f_maxSize := 3; f_offset := 3; f_term := 1 |}.

Definition rotated_segment : ClusterSegment :=
  {| seg_ID := 5; seg_Type := ClusterSegment_TOPIC; seg_OwnerNamespace := "default"; seg_OwnerName := "orders";
     seg_Generation := 1; seg_Shard := 1; seg_CreatedAt := 1000; seg_ClosedAt := 0;
     seg_Nodes := {| PrimaryNodeID := 1; DoneNodeIDs := []; ReplicatingNodeIDs := [] |}; seg_Size := 0; seg_Sha1 := [] |}.

Lemma rotation_shifts_time :
  let r := (Publish (λ _, []) 1 demo_env {[3 := full_file; 5 := empty_file]} demo_state demo_request 0).1 in
  pr_outcome r = Published ∧
  match pr_files r !! 5 with
  | Some f => match Read f false with
              | Ok i => match Iterator_Next i f with
                        | (_, Delivered m _ _) => Unmarshal m ≫= (λ p, Ok (message_time rotated_segment p)) = Ok (pe_now demo_env + 900)
                        | _ => False
                        end
              | _ => False
              end
  | None => False
  end.
Proof. vm_compute. split; reflexivity. Qed.
