(* ===== verification/Broker.v ===== *)
(** * Subscriptions and acknowledgements of a node

    Models the tables of running groups and subscriptions of [Server] (src/mq/server.go) and the handlers that use
    them: server_consumer_group_subscribe.go, server_consumer_group_wait.go, server_message_ack.go,
    server_message_nack.go and server_subscription_resize.go, with the registration of a group by its task
    (task_consumer_group.go).  Groups and subscriptions are shared objects: the tables hold references, and a
    subscription refers to its group also after the group left the table. *)
From S2P Require Import Prelude Emq ClusterState ClusterOps Requests Consumers.

Inductive rpc_error : Type :=
| RpcInvalid (errs : list validation_error)
| RpcNoNamespace (namespace : string)
| RpcNoGroup (namespace name : string)
| RpcNotAssigned
| RpcAssignedTwice
| RpcWontForward
| RpcDialFailed
| RpcNotRunning (namespace name : string)
| RpcNoSubscription (id : Z)
| RpcFailed (e : error).

(** ** The tables *)

Record Broker : Type := {
  br_heap : gmap nat Group; (* every group, by reference *)
  br_groups : gmap string nat; (* [groups] *)
  br_objects : gmap Z (nat * Subscription); (* every subscription by its ID, with its group *)
  br_subscriptions : gset Z; (* the keys of [subscriptions] *)
  br_currentID : Z; (* [currentSubscriptionID] *)
}.

Definition with_heap (b : Broker) (heap : gmap nat Group) (objects : gmap Z (nat * Subscription)) : Broker :=
  {| br_heap := heap; br_groups := br_groups b; br_objects := objects; br_subscriptions := br_subscriptions b;
     br_currentID := br_currentID b |}.

(** The group and the subscription behind a reference. *)
Definition deref (b : Broker) (id : Z) : option (nat * Subscription * Group) :=
  match br_objects b !! id with
  | Some (p, s) => match br_heap b !! p with Some g => Some (p, s, g) | None => None end
  | None => None
  end.

Definition put_object (b : Broker) (id : Z) (p : nat) (s : Subscription) (g : Group) : Broker :=
  with_heap b (<[p := g]> (br_heap b)) (<[id := (p, s)]> (br_objects b)).

(** ** The task of a group *)

(** [s.groups[mapKey] = group], for a group at a new reference. *)
Definition register_group (b : Broker) (key : string) (p : nat) (g : Group) : Broker :=
  {| br_heap := <[p := g]> (br_heap b); br_groups := <[key := p]> (br_groups b); br_objects := br_objects b;
     br_subscriptions := br_subscriptions b; br_currentID := br_currentID b |}.

(** The deferred function of the task: [group.Close()], then [delete(s.groups, mapKey)]. *)
Definition close_group (b : Broker) (p : nat) : Broker :=
  match br_heap b !! p with
  | Some g => with_heap b (<[p := Group_Close g]> (br_heap b)) (br_objects b)
  | None => b
  end.

Definition unregister_group (b : Broker) (key : string) : Broker :=
  {| br_heap := br_heap b; br_groups := delete key (br_groups b); br_objects := br_objects b;
     br_subscriptions := br_subscriptions b; br_currentID := br_currentID b |}.

(** ** Routing *)

Inductive route : Type :=
| Here
| ForwardTo (address : string).

(** What the handlers have in common: a request for another node is forwarded unless it may not be. *)
Definition route_to (state : ClusterState) (nodeID target : Z) (doNotForward dialed : bool) : result rpc_error route :=
  if target =? nodeID then Ok Here
  else if doNotForward then Err RpcWontForward
  else
    match GetNode state target with
    | None => Panic "nil pointer dereference"
    | Some node => if dialed then Ok (ForwardTo (node_Address node)) else Err RpcDialFailed
    end.

(** The node that runs a group: the primary node of its offset segment. *)
Definition group_node (state : ClusterState) (namespaceName name : string) : result rpc_error Z :=
  match FindNamespace state namespaceName with
  | None => Err (RpcNoNamespace namespaceName)
  | Some (_, namespace) =>
    match FindConsumerGroup namespace name with
    | None => Err (RpcNoGroup namespaceName name)
    | Some _ =>
      match FindOpenSegmentsFor state ClusterSegment_CONSUMER_GROUP_OFFSET_COMMITS namespaceName name with
      | [] => Err RpcNotAssigned
      | [segment] => Ok (PrimaryNodeID (seg_Nodes segment))
      | _ => Err RpcAssignedTwice
      end
    end
  end.

(** ** Subscribe *)

Definition Subscribe_route (state : ClusterState) (nodeID : Z) (request : ConsumerGroupSubscribeRequest) (dialed : bool) :
    result rpc_error route :=
  match ConsumerGroupSubscribeRequest_Validate request with
  | Err errs => Err (RpcInvalid errs)
  | Panic msg => Panic msg
  | Ok () =>
    node ← group_node state (gsr_Namespace request) (gsr_Name request);
    route_to state nodeID node (gsr_DoNotForward request) dialed
  end.

(** The settings of the request; zero values are left at their defaults. *)
Definition configure (s : Subscription) (request : ConsumerGroupSubscribeRequest) : Subscription :=
  let s := if negb (gsr_Size request =? 0) then SetSize s (gsr_Size request) else s in
  let s := if negb (gsr_MaxMessages request =? 0) then SetMaxMessages s (gsr_MaxMessages request) else s in
  if gsr_DoNotBlock request then SetBlocking s false else s.

(** From the look-up of the group to the loop: the tables and the ID of the subscription. *)
Definition Subscribe_open (b : Broker) (request : ConsumerGroupSubscribeRequest) : result rpc_error (Broker * Z) :=
  match br_groups b !! makeConsumerGroupMapKey (gsr_Namespace request) (gsr_Name request) with
  | None => Err (RpcNotRunning (gsr_Namespace request) (gsr_Name request))
  | Some p =>
    let '(id, s) := Subscribe (br_currentID b) in
    Ok ({| br_heap := br_heap b; br_groups := br_groups b; br_objects := <[id := (p, configure s request)]> (br_objects b);
           br_subscriptions := {[id]} ∪ br_subscriptions b; br_currentID := id |}, id)
  end.

Record SubscribeResponse : Type := {
  resp_NodeID : Z; resp_SubscriptionID : Z; resp_TopicNamespace : string; resp_TopicName : string;
  resp_Message : option EmqMessage; resp_SeqNo : Z }.

Inductive turn : Type :=
| TurnSends (response : SubscribeResponse) (seqNo : Z) (b : Broker)
| TurnReturns (err : option rpc_error)
| TurnWaits.

(** A turn of the loop up to [stream.Send]. *)
Definition Subscribe_next (nodeID : Z) (b : Broker) (id : Z) (autoAck : bool) : turn :=
  match deref b id with
  | None => TurnWaits
  | Some (p, s, g) =>
    match Next s g with
    | Done (g, s, message) =>
      TurnSends {| resp_NodeID := nodeID; resp_SubscriptionID := sub_ID s; resp_TopicNamespace := TopicNamespace message;
                   resp_TopicName := TopicName message; resp_Message := Payload message;
                   resp_SeqNo := if negb autoAck then SeqNo message else 0 |} (SeqNo message) (put_object b id p s g)
    | Fails ErrSubscriptionClosed | Fails ErrEmpty => TurnReturns None
    | Fails e => TurnReturns (Some (RpcFailed e))
    | Wait => TurnWaits
    end
  end.

(** [subscription.Ack], by a handler or by the loop of [Subscribe]: the tables and the commits for the task of the group. *)
Definition broker_ack (b : Broker) (id seqNo : Z) : result rpc_error (Broker * list Commit) :=
  match deref b id with
  | None => Err (RpcNoSubscription id)
  | Some (p, s, g) =>
    match Ack s g seqNo with
    | Ok (g, s, commits) => Ok (put_object b id p s g, commits)
    | Err e => Err (RpcFailed e)
    | Panic msg => Panic msg
    end
  end.

Definition broker_nack (b : Broker) (id seqNo : Z) : result rpc_error Broker :=
  match deref b id with
  | None => Err (RpcNoSubscription id)
  | Some (p, s, g) =>
    match Nack s g seqNo with
    | Ok (g, s) => Ok (put_object b id p s g)
    | Err e => Err (RpcFailed e)
    | Panic msg => Panic msg
    end
  end.

(** [subscription.Close()], when the context ends or the handler returns. *)
Definition broker_close (b : Broker) (id : Z) : Broker :=
  match deref b id with
  | None => b
  | Some (p, s, g) => let '(g, s) := Close s g in put_object b id p s g
  end.

(** [delete(s.subscriptions, subscription.ID)] *)
Definition broker_forget (b : Broker) (id : Z) : Broker :=
  {| br_heap := br_heap b; br_groups := br_groups b; br_objects := br_objects b;
     br_subscriptions := br_subscriptions b ∖ {[id]}; br_currentID := br_currentID b |}.

(** ** Handlers by subscription *)

Record MessageAckRequest : Type := {
  mar_NodeID : Z; mar_SubscriptionID : Z; mar_SeqNo : Z; mar_DoNotForward : bool }.

Inductive rpc_reply (A R : Type) : Type :=
| Replies (a : A)
| Forwards (address : string) (request : R).
Arguments Replies {A R} _.
Arguments Forwards {A R} _ _.

Definition forwarded_ack (request : MessageAckRequest) : MessageAckRequest :=
  {| mar_NodeID := mar_NodeID request; mar_SubscriptionID := mar_SubscriptionID request; mar_SeqNo := mar_SeqNo request;
     mar_DoNotForward := true |}.

Definition Server_Ack (state : ClusterState) (nodeID : Z) (dialed : bool) (b : Broker) (request : MessageAckRequest) :
    result rpc_error (rpc_reply (Broker * list Commit) MessageAckRequest) :=
  r ← route_to state nodeID (mar_NodeID request) (mar_DoNotForward request) dialed;
  match r with
  | ForwardTo address => Ok (Forwards address (forwarded_ack request))
  | Here =>
    if bool_decide (mar_SubscriptionID request ∈ br_subscriptions b) then
      b ← broker_ack b (mar_SubscriptionID request) (mar_SeqNo request); Ok (Replies b)
    else Err (RpcNoSubscription (mar_SubscriptionID request))
  end.

Definition Server_Nack (state : ClusterState) (nodeID : Z) (dialed : bool) (b : Broker) (request : MessageAckRequest) :
    result rpc_error (rpc_reply Broker MessageAckRequest) :=
  r ← route_to state nodeID (mar_NodeID request) (mar_DoNotForward request) dialed;
  match r with
  | ForwardTo address => Ok (Forwards address (forwarded_ack request))
  | Here =>
    if bool_decide (mar_SubscriptionID request ∈ br_subscriptions b) then
      b ← broker_nack b (mar_SubscriptionID request) (mar_SeqNo request); Ok (Replies b)
    else Err (RpcNoSubscription (mar_SubscriptionID request))
  end.

Record SubscriptionResizeRequest : Type := {
  rsr_NodeID : Z; rsr_SubscriptionID : Z; rsr_Size : Z; rsr_DoNotForward : bool }.

Definition SubscriptionResize (state : ClusterState) (nodeID : Z) (dialed : bool) (b : Broker) (request : SubscriptionResizeRequest) :
    result rpc_error (rpc_reply Broker SubscriptionResizeRequest) :=
  r ← route_to state nodeID (rsr_NodeID request) (rsr_DoNotForward request) dialed;
  match r with
  | ForwardTo address =>
    Ok (Forwards address {| rsr_NodeID := rsr_NodeID request; rsr_SubscriptionID := rsr_SubscriptionID request;
                            rsr_Size := rsr_Size request; rsr_DoNotForward := true |})
  | Here =>
    if bool_decide (rsr_SubscriptionID request ∈ br_subscriptions b) then
      match deref b (rsr_SubscriptionID request) with
      | Some (p, s, g) => Ok (Replies (put_object b (rsr_SubscriptionID request) p (SetSize s (rsr_Size request)) g))
      | None => Err (RpcNoSubscription (rsr_SubscriptionID request))
      end
    else Err (RpcNoSubscription (rsr_SubscriptionID request))
  end.

(** [ConsumerGroupWait]: where it waits, and one look at the table. *)
Definition ConsumerGroupWait_route (state : ClusterState) (nodeID : Z) (namespace name : string) (doNotForward dialed : bool) :
    result rpc_error route :=
  node ← group_node state namespace name;
  route_to state nodeID node doNotForward dialed.

Definition ConsumerGroupWait_poll (b : Broker) (namespace name : string) : bool :=
  bool_decide (is_Some (br_groups b !! makeConsumerGroupMapKey namespace name)).
