(* ===== verification/BrokerProps.v ===== *)
(** * The groups of a node behave like groups

    The handlers and the tasks of a node work on many groups and subscriptions through two tables and a shared counter.
    Seen from one group, what they do is a run of the system of ConsumersSystem. *)
From S2P Require Import Prelude Emq ClusterState ClusterOps ClusterInv Requests Consumers ConsumersRing ConsumersSystem Broker.

(** A node, with what was offered to each group and the commits of its messages. *)
Record broker_state : Type := {
  bs_broker : Broker;
  bs_offered : gmap nat (list Message);
  bs_commits : gmap nat emission;
}.

Definition with_broker (st : broker_state) (b : Broker) : broker_state :=
  {| bs_broker := b; bs_offered := bs_offered st; bs_commits := bs_commits st |}.

(** The commits of the group at [p] change. *)
Definition with_emission (st : broker_state) (b : Broker) (p : nat) (e : emission) : broker_state :=
  {| bs_broker := b; bs_offered := bs_offered st; bs_commits := <[p := e]> (bs_commits st) |}.

Definition took (st : broker_state) (b : Broker) (p : nat) (commits : list Commit) : broker_state :=
  with_emission st b p (take_commits (bs_commits st !!! p) commits).

Section steps.

Context (nodeID : Z).

(** Steps of tasks, of handlers and of the loops of subscriptions.  The two 64-bit counters are assumed not to run out. *)
Inductive broker_step : broker_state → broker_state → Prop :=
| bstep_register st key p n g :
    br_heap (bs_broker st) !! p = None → NewGroup n = Ok g → n < 2 ^ 32 →
    broker_step st (with_broker st (register_group (bs_broker st) key p (with_commit_channel g)))
| bstep_offer st p m g g' :
    br_heap (bs_broker st) !! p = Some g → Offer_locked g m = Done g' →
    broker_step st {| bs_broker := with_heap (bs_broker st) (<[p := g']> (br_heap (bs_broker st))) (br_objects (bs_broker st));
                      bs_offered := <[p := (bs_offered st !!! p) ++ [m]]> (bs_offered st); bs_commits := bs_commits st |}
| bstep_close_group st p : broker_step st (with_broker st (close_group (bs_broker st) p))
| bstep_unregister st key : broker_step st (with_broker st (unregister_group (bs_broker st) key))
| bstep_subscribe st request b id :
    br_currentID (bs_broker st) + 1 < ready → Subscribe_open (bs_broker st) request = Ok (b, id) →
    broker_step st (with_broker st b)
| bstep_next st id autoAck response seqNo b p s g :
    deref (bs_broker st) id = Some (p, s, g) → sub_seq s < MaxUint64 →
    Subscribe_next nodeID (bs_broker st) id autoAck = TurnSends response seqNo b → broker_step st (with_broker st b)
| bstep_auto_ack st id seqNo b commits p s g :
    deref (bs_broker st) id = Some (p, s, g) → broker_ack (bs_broker st) id seqNo = Ok (b, commits) →
    broker_step st (took st b p commits)
| bstep_ack st state dialed request b commits p s g :
    deref (bs_broker st) (mar_SubscriptionID request) = Some (p, s, g) →
    Server_Ack state nodeID dialed (bs_broker st) request = Ok (Replies (b, commits)) →
    broker_step st (took st b p commits)
| bstep_send st p i c : (* a call of [Ack] on the group at [p], outside the mutex *)
    is_Some (br_heap (bs_broker st) !! p) → next_commit (bs_commits st !!! p) i = Some c →
    broker_step st (with_emission st (bs_broker st) p (send_commit (bs_commits st !!! p) i c))
| bstep_nack st state dialed request b :
    Server_Nack state nodeID dialed (bs_broker st) request = Ok (Replies b) → broker_step st (with_broker st b)
| bstep_resize st state dialed request b :
    SubscriptionResize state nodeID dialed (bs_broker st) request = Ok (Replies b) → broker_step st (with_broker st b)
| bstep_close st id : broker_step st (with_broker st (broker_close (bs_broker st) id))
| bstep_forget st id : broker_step st (with_broker st (broker_forget (bs_broker st) id)).

End steps.

Definition start_broker (currentID : Z) : broker_state :=
  {| bs_broker := {| br_heap := ∅; br_groups := ∅; br_objects := ∅; br_subscriptions := ∅; br_currentID := currentID |};
     bs_offered := ∅; bs_commits := ∅ |}.

(** ** One group *)

Definition subs_of (p : nat) (objects : gmap Z (nat * Subscription)) : gmap Z Subscription :=
  omap (λ x, if decide (x.1 = p) then Some x.2 else None) objects.

(** The node as the group at [p] sees it. *)
Definition project (st : broker_state) (p : nat) (g : Group) : system :=
  {| sys_group := g; sys_subs := subs_of p (br_objects (bs_broker st)); sys_currentID := br_currentID (bs_broker st);
     sys_offered := bs_offered st !!! p; sys_commits := bs_commits st !!! p |}.

Lemma subs_of_lookup p objects id s : subs_of p objects !! id = Some s ↔ objects !! id = Some (p, s).
Proof.
  unfold subs_of. rewrite lookup_omap_Some. split.
  - intros ([q t] & H1 & H2). cbn in H2. case_decide; naive_solver.
  - intros H. exists (p, s). split; [|done]. cbn. by rewrite decide_True.
Qed.

Lemma subs_of_insert p objects id s : subs_of p (<[id := (p, s)]> objects) = <[id := s]> (subs_of p objects).
Proof.
  apply map_eq. intros k. apply option_eq. intros t. rewrite subs_of_lookup, !lookup_insert_Some, subs_of_lookup. naive_solver.
Qed.

Lemma subs_of_insert_ne p q objects id s :
  p ≠ q → (∀ t, objects !! id ≠ Some (q, t)) → subs_of q (<[id := (p, s)]> objects) = subs_of q objects.
Proof.
  intros Hne Hno. apply map_eq. intros k. apply option_eq. intros t. rewrite !subs_of_lookup, lookup_insert_Some.
  split; [naive_solver|]. intros Hk. right. split; [|done]. intros ->. by apply (Hno t).
Qed.

Record broker_inv (st : broker_state) : Prop := {
  bi_current : 0 ≤ br_currentID (bs_broker st) < ready;
  bi_groups : ∀ p g, br_heap (bs_broker st) !! p = Some g → sys_reachable (project st p g);
  bi_objects : ∀ id p s, br_objects (bs_broker st) !! id = Some (p, s) → is_Some (br_heap (bs_broker st) !! p);
  bi_table : ∀ id, id ∈ br_subscriptions (bs_broker st) → is_Some (br_objects (bs_broker st) !! id);
  bi_running : ∀ key p, br_groups (bs_broker st) !! key = Some p → is_Some (br_heap (bs_broker st) !! p);
  bi_fresh : ∀ p, br_heap (bs_broker st) !! p = None → bs_offered st !! p = None ∧ bs_commits st !! p = None;
}.

Lemma reachable_step st st' : sys_reachable st → sys_step st st' → sys_reachable st'.
Proof. intros (n & g & cur & Hn & Hlt & Hc & Hrtc) Hs. exists n, g, cur. do 3 (split; [done|]). by eapply rtc_r. Qed.

Lemma deref_Some b id p s g : deref b id = Some (p, s, g) ↔ br_objects b !! id = Some (p, s) ∧ br_heap b !! p = Some g.
Proof.
  unfold deref. split.
  - destruct (br_objects b !! id) as [[q t]|]; [|done]. destruct (br_heap b !! q) eqn:E; [|done]. intros [= <- <- <-]. done.
  - by intros [-> ->].
Qed.

Lemma deref_table st id : broker_inv st → id ∈ br_subscriptions (bs_broker st) → ∃ p s g, deref (bs_broker st) id = Some (p, s, g).
Proof.
  intros Hinv [[p s] Hs]%(bi_table st Hinv). destruct (bi_objects st Hinv id p s Hs) as [g Hg]. exists p, s, g. by apply deref_Some.
Qed.

Lemma project_sub st id p s g :
  deref (bs_broker st) id = Some (p, s, g) → sys_subs (project st p g) !! id = Some s.
Proof. intros [Hs _]%deref_Some. by apply subs_of_lookup. Qed.

(** A step of one subscription and its group. *)
Lemma put_inv st st' id p s g s' g' :
  broker_inv st → deref (bs_broker st) id = Some (p, s, g) →
  bs_broker st' = put_object (bs_broker st) id p s' g' → bs_offered st' = bs_offered st →
  (∀ q, q ≠ p → bs_commits st' !! q = bs_commits st !! q) →
  sys_step (project st p g) (project st' p g') → broker_inv st'.
Proof.
  intros Hinv [Hs Hg]%deref_Some Hb Hoff Hsent Hstep.
  constructor; rewrite ?Hb; cbn [put_object with_heap br_heap br_groups br_objects br_subscriptions br_currentID].
  - apply (bi_current st Hinv).
  - intros q h. rewrite lookup_insert_Some. intros [[<- <-]|[Hne Hq]]; [eapply reachable_step; [by apply (bi_groups st Hinv p g)|done]|].
    pose proof (bi_groups st Hinv q h Hq) as Hr. unfold project in *. rewrite Hb, Hoff.
    cbn [put_object with_heap br_objects br_currentID]. rewrite subs_of_insert_ne by (done || congruence).
    unfold lookup_total, map_lookup_total in *. by rewrite (Hsent q) by done.
  - intros k q t. rewrite !lookup_insert_Some, lookup_insert_is_Some'. intros [[<- [= <- <-]]|[_ Hk]]; [by left|].
    right. by eapply (bi_objects st Hinv).
  - intros k Hk. rewrite lookup_insert_is_Some'. right. by apply (bi_table st Hinv).
  - intros key q Hq. rewrite lookup_insert_is_Some'. right. by eapply (bi_running st Hinv).
  - intros q. rewrite lookup_insert_None. intros [Hq Hne]. rewrite Hoff, (Hsent q) by done. by apply (bi_fresh st Hinv).
Qed.

(** What is projected after such a step. *)
Lemma project_put st id p s' g' :
  project (with_broker st (put_object (bs_broker st) id p s' g')) p g' =
  {| sys_group := g'; sys_subs := <[id := s']> (subs_of p (br_objects (bs_broker st))); sys_currentID := br_currentID (bs_broker st);
     sys_offered := bs_offered st !!! p; sys_commits := bs_commits st !!! p |}.
Proof. unfold project. cbn [with_broker bs_broker bs_offered bs_commits put_object with_heap br_objects br_currentID]. by rewrite subs_of_insert. Qed.

Lemma project_sent st id p s' g' commits :
  project (took st (put_object (bs_broker st) id p s' g') p commits) p g' =
  {| sys_group := g'; sys_subs := <[id := s']> (subs_of p (br_objects (bs_broker st))); sys_currentID := br_currentID (bs_broker st);
     sys_offered := bs_offered st !!! p; sys_commits := take_commits (bs_commits st !!! p) commits |}.
Proof.
  unfold project. cbn [took with_emission bs_broker bs_offered bs_commits put_object with_heap br_objects br_currentID].
  by rewrite subs_of_insert, lookup_total_insert_eq.
Qed.

Lemma broker_ack_inv st id seqNo b commits p s g :
  broker_inv st → deref (bs_broker st) id = Some (p, s, g) → broker_ack (bs_broker st) id seqNo = Ok (b, commits) →
  broker_inv (took st b p commits).
Proof.
  intros Hinv Hd. unfold broker_ack. rewrite Hd. destruct (Ack s g seqNo) as [[[g' s'] cs]| |] eqn:Ha; [|done..]. intros [= <- <-].
  eapply put_inv; [done..| |]; [intros q Hq; cbn; by rewrite lookup_insert_ne|].
  rewrite project_sent. by apply (step_ack (project st p g) id s seqNo); [apply project_sub|].
Qed.

Lemma broker_send_inv st p i c :
  broker_inv st → is_Some (br_heap (bs_broker st) !! p) → next_commit (bs_commits st !!! p) i = Some c →
  broker_inv (with_emission st (bs_broker st) p (send_commit (bs_commits st !!! p) i c)).
Proof.
  intros Hinv [g Hg] Hc. constructor; cbn [with_emission bs_broker bs_offered bs_commits]; try apply Hinv.
  - intros q h Hq. pose proof (bi_groups st Hinv q h Hq) as Hr. unfold project in *. cbn [with_emission bs_broker bs_offered bs_commits].
    destruct (decide (q = p)) as [->|Hne].
    + rewrite lookup_total_insert_eq. eapply reachable_step; [exact Hr|]. by apply (step_send (project st p h) i c).
    + by rewrite lookup_total_insert_ne.
  - intros q Hq. destruct (decide (q = p)) as [->|Hne]; [congruence|]. rewrite lookup_insert_ne by done. by apply (bi_fresh st Hinv).
Qed.

Lemma broker_nack_inv st id seqNo b :
  broker_inv st → broker_nack (bs_broker st) id seqNo = Ok b → broker_inv (with_broker st b).
Proof.
  intros Hinv. unfold broker_nack. destruct (deref (bs_broker st) id) as [[[p s] g]|] eqn:Hd; [|done].
  destruct (Nack s g seqNo) as [[g' s']| |] eqn:Ha; [|done..]. intros [= <-]. eapply put_inv; [done..|].
  rewrite project_put. by apply (step_nack (project st p g) id s seqNo); [apply project_sub|].
Qed.

Lemma broker_close_inv st id : broker_inv st → broker_inv (with_broker st (broker_close (bs_broker st) id)).
Proof.
  intros Hinv. unfold broker_close. destruct (deref (bs_broker st) id) as [[[p s] g]|] eqn:Hd; [|by destruct st].
  destruct (Close s g) as [g' s'] eqn:Hc. eapply put_inv; [done..|].
  rewrite project_put. by apply (step_close (project st p g) id s); [apply project_sub|].
Qed.

Lemma broker_resize_inv st id p s g size :
  broker_inv st → deref (bs_broker st) id = Some (p, s, g) →
  broker_inv (with_broker st (put_object (bs_broker st) id p (SetSize s size) g)).
Proof.
  intros Hinv Hd. eapply put_inv; [done..|]. rewrite project_put.
  pose proof (step_configure (project st p g) id s size (sub_maxMessages s) (sub_blocking s) (project_sub st id p s g Hd)) as Hstep.
  by destruct s.
Qed.

Lemma broker_next_inv nodeID st id autoAck response seqNo b p s g :
  broker_inv st → deref (bs_broker st) id = Some (p, s, g) → sub_seq s < MaxUint64 →
  Subscribe_next nodeID (bs_broker st) id autoAck = TurnSends response seqNo b → broker_inv (with_broker st b).
Proof.
  intros Hinv Hd Hseq. unfold Subscribe_next, Next. rewrite Hd. destruct (sub_closed s); [done|].
  destruct (Next_locked s g) as [[[g' s'] i]|[]|] eqn:Hn; [|done..]. intros [= _ _ <-]. eapply put_inv; [done..|].
  rewrite project_put. by apply (step_next (project st p g) id s g' s' i); [apply project_sub|..].
Qed.

(** A step of the group at [p] alone. *)
Lemma group_inv st st' p g g' :
  broker_inv st → br_heap (bs_broker st) !! p = Some g →
  bs_broker st' = with_heap (bs_broker st) (<[p := g']> (br_heap (bs_broker st))) (br_objects (bs_broker st)) →
  (∀ q, q ≠ p → bs_offered st' !! q = bs_offered st !! q) → bs_commits st' = bs_commits st →
  sys_step (project st p g) (project st' p g') → broker_inv st'.
Proof.
  intros Hinv Hg Hb Hoff Hsent Hstep.
  constructor; rewrite ?Hb; cbn [with_heap br_heap br_groups br_objects br_subscriptions br_currentID].
  - apply (bi_current st Hinv).
  - intros q h. rewrite lookup_insert_Some. intros [[<- <-]|[Hne Hq]]; [eapply reachable_step; [by apply (bi_groups st Hinv p g)|done]|].
    pose proof (bi_groups st Hinv q h Hq) as Hr. unfold project in *. rewrite Hb, Hsent. cbn [with_heap br_objects br_currentID].
    unfold lookup_total, map_lookup_total in *. by rewrite (Hoff q) by done.
  - intros k q t Hk. rewrite lookup_insert_is_Some'. right. by eapply (bi_objects st Hinv).
  - apply (bi_table st Hinv).
  - intros key q Hq. rewrite lookup_insert_is_Some'. right. by eapply (bi_running st Hinv).
  - intros q. rewrite lookup_insert_None. intros [Hq Hne]. rewrite Hsent, (Hoff q) by done. by apply (bi_fresh st Hinv).
Qed.

Lemma broker_close_group_inv st p : broker_inv st → broker_inv (with_broker st (close_group (bs_broker st) p)).
Proof.
  intros Hinv. unfold close_group. destruct (br_heap (bs_broker st) !! p) as [g|] eqn:Hg; [|by destruct st].
  eapply group_inv; [done..|]. apply (step_group_close (project st p g)).
Qed.

Lemma broker_register_inv st key p n g :
  broker_inv st → br_heap (bs_broker st) !! p = None → NewGroup n = Ok g → n < 2 ^ 32 →
  broker_inv (with_broker st (register_group (bs_broker st) key p (with_commit_channel g))).
Proof.
  intros Hinv Hp Hn Hlt. destruct (bi_fresh st Hinv p Hp) as [Hoff Hsent].
  constructor; cbn [with_broker bs_broker bs_offered bs_commits register_group br_heap br_groups br_objects br_subscriptions br_currentID].
  - apply (bi_current st Hinv).
  - intros q h. rewrite lookup_insert_Some. intros [[<- <-]|[Hne Hq]]; [|by apply (bi_groups st Hinv q h)].
    exists n, g, (br_currentID (bs_broker st)). split; [done|]. split; [done|]. split; [apply (bi_current st Hinv)|].
    match goal with |- rtc _ ?x ?y => replace y with x; [apply rtc_refl|] end. symmetry. unfold project, initial.
    cbn [with_broker bs_broker bs_offered bs_commits register_group br_objects br_currentID].
    rewrite !lookup_total_alt, Hoff, Hsent. f_equal. apply map_empty. intros id. apply eq_None_not_Some.
    intros [s Hs%subs_of_lookup]. apply (bi_objects st Hinv) in Hs as [? ?]. congruence.
  - intros k q t Hk. rewrite lookup_insert_is_Some'. right. by eapply (bi_objects st Hinv).
  - apply (bi_table st Hinv).
  - intros k q. rewrite lookup_insert_Some, lookup_insert_is_Some'. intros [[_ <-]|[_ Hq]]; [by left|].
    right. by eapply (bi_running st Hinv).
  - intros q [Hq _]%lookup_insert_None. by apply (bi_fresh st Hinv).
Qed.

Lemma configure_settings s request :
  ∃ size max blocking, configure s request = SetSize (SetMaxMessages (SetBlocking s blocking) max) size.
Proof.
  exists (if negb (gsr_Size request =? 0) then gsr_Size request else sub_size s),
    (if negb (gsr_MaxMessages request =? 0) then gsr_MaxMessages request else sub_maxMessages s),
    (if gsr_DoNotBlock request then false else sub_blocking s).
  unfold configure. destruct s. by repeat case_match.
Qed.

(** The new identifier was given to no subscription. *)
Lemma fresh_id st p s :
  broker_inv st → br_currentID (bs_broker st) + 1 < ready → br_objects (bs_broker st) !! (Subscribe (br_currentID (bs_broker st))).1 ≠ Some (p, s).
Proof.
  intros Hinv Hlt Hs. pose proof (bi_current st Hinv).
  assert ((Subscribe (br_currentID (bs_broker st))).1 = br_currentID (bs_broker st) + 1) as E.
  { cbn. unfold u64, wrap. apply Z.mod_small. unfold ready, MaxUint64 in *. lia. }
  rewrite E in Hs. destruct (bi_objects st Hinv _ _ _ Hs) as [g Hg]. pose proof (bi_groups st Hinv p g Hg) as Hr.
  pose proof (inv_queue _ (reachable_inv _ Hr)) as Hq. apply subs_of_lookup in Hs.
  destruct (qi_subs _ _ _ _ Hq _ s Hs) as (_ & Hb & _). cbn [project sys_currentID] in Hb. lia.
Qed.

Lemma broker_subscribe_inv st request b id :
  broker_inv st → br_currentID (bs_broker st) + 1 < ready → Subscribe_open (bs_broker st) request = Ok (b, id) →
  broker_inv (with_broker st b).
Proof.
  intros Hinv Hlt. unfold Subscribe_open. destruct (br_groups (bs_broker st) !! _) as [p|] eqn:Hp; [|done].
  destruct (Subscribe (br_currentID (bs_broker st))) as [id' s] eqn:Hsub. intros [= <- <-].
  assert (∀ q t, br_objects (bs_broker st) !! id' ≠ Some (q, t)) as Hfresh.
  { intros q t. pose proof (fresh_id st q t Hinv Hlt) as Hf. by rewrite Hsub in Hf. }
  constructor; cbn [with_broker bs_broker bs_offered bs_commits br_heap br_groups br_objects br_subscriptions br_currentID].
  - pose proof (bi_current st Hinv). injection Hsub as <- _. unfold u64, wrap. unfold ready, MaxUint64 in *. rewrite Z.mod_small by lia. lia.
  - intros q h Hq. pose proof (bi_groups st Hinv q h Hq) as Hr.
    unfold project. cbn [with_broker bs_broker bs_offered bs_commits br_objects br_currentID].
    destruct (decide (q = p)) as [->|Hne].
    + rewrite subs_of_insert. eapply reachable_step in Hr; [|by apply (step_subscribe _ id' s)].
      destruct (configure_settings s request) as (size & max & blocking & ->).
      eapply reachable_step in Hr; [|apply (step_configure _ id' s size max blocking); cbn; by rewrite lookup_insert_eq].
      revert Hr. unfold with_subs, project. cbn [sys_group sys_subs sys_currentID sys_offered sys_commits]. by rewrite insert_insert_eq.
    + rewrite subs_of_insert_ne by done. eapply reachable_step; [exact Hr|]. by apply (step_subscribe_elsewhere (project st q h) id' s).
  - intros k q t. rewrite lookup_insert_Some. intros [[_ [= <- _]]|[_ Hk]]; [by eapply (bi_running st Hinv)|by eapply (bi_objects st Hinv)].
  - intros k Hk. rewrite lookup_insert_is_Some'. destruct (decide (id' = k)) as [|Hne]; [by left|right].
    apply (bi_table st Hinv). set_solver.
  - apply (bi_running st Hinv).
  - apply (bi_fresh st Hinv).
Qed.

Lemma broker_step_inv nodeID st st' : broker_inv st → broker_step nodeID st st' → broker_inv st'.
Proof.
  intros Hinv Hstep. destruct Hstep as [st key p n g Hp Hn Hlt|st p m g g' Hg Ho|st p|st key|st request b id Hlt Hs
    |st id autoAck response seqNo b p s g Hd Hseq Hn|st id seqNo b commits p s g Hd Ha|st state dialed request b commits p s g Hd Ha
    |st p i c Hp Hc|st state dialed request b Ha|st state dialed request b Ha|st id|st id].
  - by eapply broker_register_inv.
  - eapply group_inv; [done..| | |]; [intros q Hq; cbn; by rewrite lookup_insert_ne|done|].
    unfold project. cbn [bs_broker bs_offered bs_commits with_heap br_objects br_currentID]. rewrite lookup_total_insert_eq.
    by apply (step_offer (project st p g) m g').
  - by apply broker_close_group_inv.
  - destruct Hinv. constructor; try done. intros k q. cbn. rewrite lookup_delete_Some. intros [_ Hq]. eauto.
  - by eapply broker_subscribe_inv.
  - by eapply broker_next_inv.
  - by eapply broker_ack_inv.
  - unfold Server_Ack in Ha. destruct (route_to _ _ _ _ _) as [[]| |]; cbn in Ha; [|done..]. case_bool_decide; [|done].
    destruct (broker_ack _ _ _) as [x| |] eqn:E; cbn in Ha; [|done..]. injection Ha as ->. by eapply broker_ack_inv.
  - by apply broker_send_inv.
  - unfold Server_Nack in Ha. destruct (route_to _ _ _ _ _) as [[]| |]; cbn in Ha; [|done..]. case_bool_decide; [|done].
    destruct (broker_nack _ _ _) as [x| |] eqn:E; cbn in Ha; [|done..]. injection Ha as ->. by eapply broker_nack_inv.
  - unfold SubscriptionResize in Ha. destruct (route_to _ _ _ _ _) as [[]| |]; cbn in Ha; [|done..]. case_bool_decide; [|done].
    destruct (deref _ _) as [[[p s] g]|] eqn:E; [|done]. injection Ha as <-. by apply broker_resize_inv.
  - by apply broker_close_inv.
  - destruct Hinv. constructor; try done. intros k. cbn. set_solver.
Qed.

Lemma broker_reachable_inv nodeID currentID st :
  0 ≤ currentID < ready → rtc (broker_step nodeID) (start_broker currentID) st → broker_inv st.
Proof.
  intros Hc. apply (rtc_ind_r broker_inv); [|intros st1 st2 _ Hstep IH; by eapply broker_step_inv].
  constructor; cbn; [done|..]; intros; set_solver.
Qed.

(** An acknowledgement for this node ends exactly the lease that it names. *)
Definition ack_spec (b : Broker) (id seqNo : Z) (r : result rpc_error (rpc_reply (Broker * list Commit) MessageAckRequest)) : Prop :=
  match r with
  | Ok (Replies (b', commits)) =>
    ∃ p s g s' g', id ∈ br_subscriptions b ∧ deref b id = Some (p, s, g) ∧ (id, seqNo) ∈ leases (window g) ∧
      b' = put_object b id p s' g' ∧ (id, seqNo) ∉ leases (window g')
  | Ok (Forwards _ _) | Panic _ => False
  | Err _ => id ∉ br_subscriptions b ∨ ∃ p s g, deref b id = Some (p, s, g) ∧ (id, seqNo) ∉ leases (window g)
  end.

Lemma Server_Ack_spec st state nodeID dialed request :
  broker_inv st → mar_NodeID request = nodeID →
  ack_spec (bs_broker st) (mar_SubscriptionID request) (mar_SeqNo request) (Server_Ack state nodeID dialed (bs_broker st) request).
Proof.
  intros Hinv Hn. unfold Server_Ack, route_to. rewrite Hn, Z.eqb_refl. cbn [mbind result_bind].
  set (id := mar_SubscriptionID request). set (seqNo := mar_SeqNo request). case_bool_decide as Hid; [|by left].
  destruct (deref_table st id Hinv Hid) as (p & s & g & Hd). unfold broker_ack. rewrite Hd.
  pose proof (proj1 (deref_Some _ _ _ _ _) Hd) as [_ Hg]. pose proof (bi_groups st Hinv p g Hg) as Hr.
  destruct (lease_exact _ id s seqNo Hr (project_sub st id p s g Hd)) as [Hyes Hno]. cbn [project sys_group] in Hyes, Hno.
  destruct (decide ((id, seqNo) ∈ leases (window g))) as [Hin|Hin].
  - destruct (Hyes Hin) as ((g' & s' & commits & -> & Hl) & _). by exists p, s, g, s', g'.
  - destruct (Hno Hin) as [-> _]. right. by exists p, s, g.
Qed.

(** (C12) The groups of a node do not disturb each other.  Run the handlers [Subscribe], [Ack], [Nack] and [SubscriptionResize], the
    loops of subscriptions and the tasks of groups of a node in any order.  Every group, seen with its own
    subscriptions, is in a state that the concurrent use of this group alone can reach, so that all that is proved of one group
    holds of each; every entry of the tables refers to an existing object, with the identifier that it is filed under; and
    an acknowledgement for this node is accepted exactly when its subscription is in the table and holds the lease
    that it names, it ends that lease, and it changes no other group or subscription. *)
Theorem broker_refines_groups nodeID currentID st :
  0 ≤ currentID < ready → rtc (broker_step nodeID) (start_broker currentID) st →
  (∀ p g, br_heap (bs_broker st) !! p = Some g → sys_reachable (project st p g)) ∧
  (∀ id, id ∈ br_subscriptions (bs_broker st) → ∃ p s g, deref (bs_broker st) id = Some (p, s, g) ∧ sub_ID s = id) ∧
  (∀ key p, br_groups (bs_broker st) !! key = Some p → is_Some (br_heap (bs_broker st) !! p)) ∧
  (∀ state dialed request, mar_NodeID request = nodeID →
     ack_spec (bs_broker st) (mar_SubscriptionID request) (mar_SeqNo request) (Server_Ack state nodeID dialed (bs_broker st) request)).
Proof.
  intros Hc Hrtc. pose proof (broker_reachable_inv _ _ _ Hc Hrtc) as Hinv. split_and!.
  - apply (bi_groups st Hinv).
  - intros id Hid. destruct (deref_table st id Hinv Hid) as (p & s & g & Hd). exists p, s, g. split; [done|].
    pose proof (proj1 (deref_Some _ _ _ _ _) Hd) as [_ Hg].
    by destruct (reachable_sub _ id s (bi_groups st Hinv p g Hg) (project_sub st id p s g Hd)) as (_ & ? & _).
  - apply (bi_running st Hinv).
  - intros state dialed request. by apply Server_Ack_spec.
Qed.

Definition demo_subscribe : ConsumerGroupSubscribeRequest :=
  {| gsr_DoNotForward := false; gsr_Namespace := "default"; gsr_Name := "workers"; gsr_Size := 1; gsr_AutoAck := false;
     gsr_DoNotBlock := false; gsr_MaxMessages := 0 |}.

(** A group with one message, which subscription 1 holds. *)
Definition demo_broker : broker_state :=
  {| bs_broker :=
       {| br_heap := {[0%nat := {| g_n := 2; g_messages := [demo_message 7 10 1 1; zero_message; zero_message];
            g_read := 0; g_write := 1; g_closed := false; g_Commits := true |}]};
          br_groups := {["default/workers" := 0%nat]}; br_objects := {[1 := (0%nat, demo_sub 1 1 1 1 false)]};
          br_subscriptions := {[1]}; br_currentID := 1 |};
     bs_offered := {[0%nat := [demo_offer 10]]}; bs_commits := ∅ |}.

Lemma broker_refines_groups_witness :
  ack_spec (bs_broker demo_broker) 1 1
    (Server_Ack demo_state 1 true (bs_broker demo_broker) {| mar_NodeID := 1; mar_SubscriptionID := 1; mar_SeqNo := 1; mar_DoNotForward := false |}).
Proof.
  destruct (broker_refines_groups 1 0 demo_broker) as (_ & _ & _ & H).
  - split; [lia|reflexivity].
  - eapply rtc_l; [apply (bstep_register 1 _ "default/workers" 0%nat 2 demo_new); reflexivity|].
    eapply rtc_l; [eapply (bstep_offer 1 _ 0%nat (demo_offer 10)); reflexivity|].
    eapply rtc_l; [eapply (bstep_subscribe 1 _ demo_subscribe); reflexivity|].
    eapply rtc_l; [eapply (bstep_next 1 _ 1 false); reflexivity|].
    match goal with |- rtc _ ?x ?y => replace y with x; [apply rtc_refl|] end. by vm_compute.
  - apply (H demo_state true {| mar_NodeID := 1; mar_SubscriptionID := 1; mar_SeqNo := 1; mar_DoNotForward := false |}). reflexivity.
Defined.

(** A request that names a node which the state does not have is not refused: the handler dereferences nil. *)
Lemma ack_unknown_node state nodeID dialed b request :
  mar_NodeID request ≠ nodeID → mar_DoNotForward request = false → GetNode state (mar_NodeID request) = None →
  Server_Ack state nodeID dialed b request = Panic "nil pointer dereference" ∧
  Server_Nack state nodeID dialed b request = Panic "nil pointer dereference".
Proof.
  intros Hn Hd Hg. unfold Server_Ack, Server_Nack, route_to. by rewrite (proj2 (Z.eqb_neq _ _) Hn), Hd, Hg.
Qed.
