(* ===== verification/ConnPool.v ===== *)
(** * The pool of client connections

    Models src/mq/client_conn_pool.go.  A connection is known by a location; the tables of the pool are maps, as in the
    source.  Every operation holds the mutex of the pool, so it is a step.  Dialling, the state of a connection and
    the clock are arguments.  The theorem is about every history in which a client gives back only what it holds. *)
From S2P Require Import Prelude Bytes.

(** ** Data *)

Record ClientConnPool : Type := {
  cp_idleTimeout : Z;
  cp_clients : gmap string nat;
  cp_targets : gmap nat string;
  cp_referenceCounts : gmap nat Z;
  cp_idlingSince : gmap nat Z;
  cp_closed : bool; (* [closeC] *)
}.

Definition with_tables (clients : gmap string nat) (targets : gmap nat string) (counts idling : gmap nat Z) (p : ClientConnPool) : ClientConnPool :=
  {| cp_idleTimeout := cp_idleTimeout p; cp_clients := clients; cp_targets := targets; cp_referenceCounts := counts;
     cp_idlingSince := idling; cp_closed := cp_closed p |}.

Definition NewClientConnPool (idleTimeout : Z) : result go_error ClientConnPool :=
  if idleTimeout <? 0 then Panic "idle timeout must not be negative"
  else Ok {| cp_idleTimeout := idleTimeout; cp_clients := ∅; cp_targets := ∅; cp_referenceCounts := ∅; cp_idlingSince := ∅; cp_closed := false |}.

(** ** Operations *)

(** The connection is taken from the tables; the caller closes it. *)
Definition closeClient (client : nat) (p : ClientConnPool) : ClientConnPool :=
  let target := default ""%string (cp_targets p !! client) in
  with_tables (delete target (cp_clients p)) (delete client (cp_targets p)) (delete client (cp_referenceCounts p))
    (delete client (cp_idlingSince p)) p.

(** [grpc.DialContext]: a connection that did not exist before, or an error. *)
Definition Get (dial : result go_error nat) (target : string) (p : ClientConnPool) : result go_error (ClientConnPool * nat) :=
  match cp_clients p !! target with
  | Some client =>
    Ok (with_tables (cp_clients p) (cp_targets p) (<[client := default 0 (cp_referenceCounts p !! client) + 1]> (cp_referenceCounts p))
          (delete client (cp_idlingSince p)) p, client)
  | None =>
    client ← dial;
    Ok (with_tables (<[target := client]> (cp_clients p)) (<[client := target]> (cp_targets p)) (<[client := 1]> (cp_referenceCounts p))
          (delete client (cp_idlingSince p)) p, client)
  end.

(** [reusable]: the connection is idle or ready.  The list is what was closed. *)
Definition Put (now : Z) (reusable : bool) (client : nat) (p : ClientConnPool) : result go_error (ClientConnPool * list nat) :=
  match cp_referenceCounts p !! client with
  | None => Err (ErrNew "connection does not belong to this pool")
  | Some rc =>
    let rc := rc - 1 in
    if 0 <? rc then Ok (with_tables (cp_clients p) (cp_targets p) (<[client := rc]> (cp_referenceCounts p)) (cp_idlingSince p) p, [])
    else if (0 <? cp_idleTimeout p) && reusable then
      Ok (with_tables (cp_clients p) (cp_targets p) (<[client := rc]> (cp_referenceCounts p)) (<[client := now]> (cp_idlingSince p)) p, [])
    else Ok (closeClient client p, [client])
  end.

(** A tick of [closeIdle]. *)
Definition closeIdle (now : Z) (p : ClientConnPool) : ClientConnPool * list nat :=
  let t := now - cp_idleTimeout p in
  let clients := (base.filter (λ q : nat * Z, q.2 < t) (map_to_list (cp_idlingSince p))).*1 in
  (foldr closeClient p clients, clients).

(** Closing twice closes a closed channel. *)
Definition pool_Close (p : ClientConnPool) : result go_error (ClientConnPool * list nat) :=
  let clients := (map_to_list (cp_clients p)).*2 in
  let p := foldr closeClient p clients in
  if cp_closed p then Panic "close of closed channel"
  else Ok ({| cp_idleTimeout := cp_idleTimeout p; cp_clients := cp_clients p; cp_targets := cp_targets p;
              cp_referenceCounts := cp_referenceCounts p; cp_idlingSince := cp_idlingSince p; cp_closed := true |}, clients).

(** ** Histories *)

(** [held]: how many clients hold a connection; [open]: the connections that were dialled and not closed. *)
Record PoolSystem : Type := {
  ps_pool : ClientConnPool;
  ps_held : gmap nat nat;
  ps_open : gset nat;
}.

Definition holders (held : gmap nat nat) (client : nat) : nat := default 0%nat (held !! client).

Inductive conn_step : PoolSystem → PoolSystem → Prop :=
| step_get p held opened dial target p' client :
    (∀ c, dial = Ok c → c ∉ opened ∧ held !! c = None) → Get dial target p = Ok (p', client) →
    conn_step {| ps_pool := p; ps_held := held; ps_open := opened |}
      {| ps_pool := p'; ps_held := <[client := S (holders held client)]> held; ps_open := {[client]} ∪ opened |}
| step_put p held opened now reusable client n p' cs :
    held !! client = Some (S n) → Put now reusable client p = Ok (p', cs) →
    conn_step {| ps_pool := p; ps_held := held; ps_open := opened |}
      {| ps_pool := p'; ps_held := <[client := n]> held; ps_open := opened ∖ list_to_set cs |}
| step_idle p held opened now p' cs :
    closeIdle now p = (p', cs) →
    conn_step {| ps_pool := p; ps_held := held; ps_open := opened |}
      {| ps_pool := p'; ps_held := held; ps_open := opened ∖ list_to_set cs |}.

(** ** The invariant *)

Record conns_inv (x : PoolSystem) : Prop := {
  cv_targets c t : cp_targets (ps_pool x) !! c = Some t ↔ cp_clients (ps_pool x) !! t = Some c;
  cv_counts c : cp_referenceCounts (ps_pool x) !! c = (λ _, Z.of_nat (holders (ps_held x) c)) <$> cp_targets (ps_pool x) !! c;
  cv_idle c : is_Some (cp_idlingSince (ps_pool x) !! c) ↔ cp_referenceCounts (ps_pool x) !! c = Some 0;
  cv_open c : is_Some (cp_targets (ps_pool x) !! c) ↔ c ∈ ps_open x;
  cv_held c : holders (ps_held x) c ≠ 0%nat → c ∈ ps_open x;
}.

Lemma closeClient_inv p held opened c t :
  conns_inv {| ps_pool := p; ps_held := held; ps_open := opened |} → cp_targets p !! c = Some t → holders held c = 0%nat →
  conns_inv {| ps_pool := closeClient c p; ps_held := held; ps_open := opened ∖ {[c]} |}.
Proof.
  intros [Ht Hc Hi Ho Hh] Hct Hheld. cbn in *. unfold closeClient. rewrite Hct. cbn [default].
  pose proof (proj1 (Ht c t) Hct) as Htc. split; cbn; intros c'.
  - intros t'. rewrite !lookup_delete_Some, Ht. split; intros [Hne E]; (split; [|done]); intros ->; [congruence|].
    apply Ht in E. congruence.
  - destruct (decide (c = c')) as [<-|Hne]; [by rewrite !lookup_delete_eq|]. by rewrite !lookup_delete_ne, Hc.
  - destruct (decide (c = c')) as [<-|Hne]; [rewrite !lookup_delete_eq; split; [by intros []|done]|]. by rewrite !lookup_delete_ne.
  - destruct (decide (c = c')) as [<-|Hne]; [rewrite lookup_delete_eq; split; [by intros []|set_solver]|].
    rewrite lookup_delete_ne, Ho by done. set_solver.
  - intros Hn. specialize (Hh c' Hn). assert (c ≠ c') by congruence. set_solver.
Qed.

Lemma closeClient_targets c c' p : c ≠ c' → cp_targets (closeClient c p) !! c' = cp_targets p !! c'.
Proof. intros Hne. cbn. by rewrite lookup_delete_ne. Qed.

Lemma close_all_inv held cs : ∀ p opened,
  conns_inv {| ps_pool := p; ps_held := held; ps_open := opened |} → NoDup cs →
  (∀ c, c ∈ cs → is_Some (cp_targets p !! c) ∧ holders held c = 0%nat) →
  conns_inv {| ps_pool := foldr closeClient p cs; ps_held := held; ps_open := opened ∖ list_to_set cs |} ∧
  ∀ c, c ∉ cs → cp_targets (foldr closeClient p cs) !! c = cp_targets p !! c.
Proof.
  induction cs as [|c cs IH]; intros p opened Hp Hn Hcs; cbn [foldr list_to_set].
  - split; [|done]. by replace (opened ∖ ∅) with opened by set_solver.
  - apply NoDup_cons in Hn as [Hc Hn]. destruct (IH p opened Hp Hn) as [Hi Ht]; [intros c' Hc'; apply Hcs; by right|].
    destruct (Hcs c) as [[t Hct] Hh]; [by left|]. split.
    + replace (opened ∖ ({[c]} ∪ list_to_set cs)) with (opened ∖ list_to_set cs ∖ {[c]}) by set_solver.
      eapply closeClient_inv; [done|by rewrite Ht|done].
    + intros c' [Hne Hc']%not_elem_of_cons. rewrite closeClient_targets by done. by apply Ht.
Qed.

Lemma holders_insert held c n c' : holders (<[c := n]> held) c' = if decide (c = c') then n else holders held c'.
Proof. unfold holders. destruct (decide (c = c')) as [<-|Hne]; [by rewrite lookup_insert_eq|by rewrite lookup_insert_ne]. Qed.

(** The client that is put is one of those that hold the connection. *)
Lemma put_counts held c n : held !! c = Some (S n) → holders held c = S n.
Proof. intros H. unfold holders. by rewrite H. Qed.

Lemma Get_inv p held opened dial target p' client :
  conns_inv {| ps_pool := p; ps_held := held; ps_open := opened |} → (∀ c, dial = Ok c → c ∉ opened ∧ held !! c = None) →
  Get dial target p = Ok (p', client) →
  conns_inv {| ps_pool := p'; ps_held := <[client := S (holders held client)]> held; ps_open := {[client]} ∪ opened |}.
Proof.
  intros Hx Hfresh Hget. destruct Hx as [Ht Hc Hi Ho Hh]. cbn in *. unfold Get in Hget. destruct (cp_clients p !! target) as [c|] eqn:Htc.
  - injection Hget as <- <-. pose proof (proj2 (Ht c target) Htc) as Hct. pose proof (Hc c) as Hcc. rewrite Hct in Hcc. cbn in Hcc.
    split; cbn; intros c'.
    * apply Ht.
    * rewrite holders_insert. destruct (decide (c = c')) as [<-|Hne]; [rewrite lookup_insert_eq, Hct, Hcc; cbn; f_equal; lia|].
      by rewrite lookup_insert_ne.
    * destruct (decide (c = c')) as [<-|Hne]; [|by rewrite lookup_delete_ne, lookup_insert_ne].
      rewrite lookup_delete_eq, lookup_insert_eq, Hcc. cbn. split; [by intros []|]. intros [= E]. lia.
    * rewrite Ho. assert (c ∈ opened) by (apply Ho; by eexists). set_solver.
    * rewrite holders_insert. destruct (decide (c = c')) as [<-|Hne]; [set_solver|]. intros Hn. specialize (Hh c' Hn). set_solver.
  - destruct dial as [c| |]; [|done..]. injection Hget as <- <-. destruct (Hfresh c eq_refl) as [Hnew Hheld].
    assert (cp_targets p !! c = None) as Hct by (apply eq_None_not_Some; by rewrite Ho).
    split; cbn; intros c'.
    * intros t'. rewrite !lookup_insert_Some, Ht. split; intros [[-> ->]|[Hne E]]; [by left| |by left|]; right; (split; [|done]); intros ->; [congruence|].
      apply Ht in E. congruence.
    * rewrite holders_insert. destruct (decide (c = c')) as [<-|Hne].
      -- rewrite !lookup_insert_eq. cbn. unfold holders. by rewrite Hheld.
      -- by rewrite !lookup_insert_ne, Hc.
    * destruct (decide (c = c')) as [<-|Hne]; [|by rewrite lookup_delete_ne, lookup_insert_ne].
      rewrite lookup_delete_eq, lookup_insert_eq. split; [by intros []|done].
    * destruct (decide (c = c')) as [<-|Hne]; [rewrite lookup_insert_eq; split; [set_solver|by eexists]|].
      rewrite lookup_insert_ne, Ho by done. set_solver.
    * rewrite holders_insert. destruct (decide (c = c')) as [<-|Hne]; [set_solver|]. intros Hn. specialize (Hh c' Hn). set_solver.
Qed.

(** One holder less; a connection without holders is idle. *)
Lemma give_back_inv p held opened now client n :
  conns_inv {| ps_pool := p; ps_held := held; ps_open := opened |} → held !! client = Some (S n) →
  conns_inv {| ps_pool := with_tables (cp_clients p) (cp_targets p) (<[client := Z.of_nat n]> (cp_referenceCounts p))
                 (if decide (n = 0%nat) then <[client := now]> (cp_idlingSince p) else cp_idlingSince p) p;
               ps_held := <[client := n]> held; ps_open := opened |}.
Proof.
  intros Hx Hn. pose proof (put_counts _ _ _ Hn) as Hhold.
  assert (client ∈ opened) as Hop by (apply (cv_held _ Hx); cbn; lia).
  pose proof (proj2 (cv_open _ Hx client) Hop) as [t Ht]. destruct Hx as [Htt Hcc Hii Hoo Hhh]. cbn in *.
  split; cbn; intros c.
  - apply Htt.
  - rewrite holders_insert. destruct (decide (client = c)) as [<-|Hne]; [by rewrite lookup_insert_eq, Ht|by rewrite lookup_insert_ne].
  - destruct (decide (client = c)) as [<-|Hne].
    + rewrite lookup_insert_eq. destruct (decide (n = 0%nat)) as [->|Hnz]; [rewrite lookup_insert_eq; split; [done|by eexists]|].
      rewrite Hii, Hcc, Ht. cbn. rewrite Hhold. split; intros [= E]; lia.
    + rewrite lookup_insert_ne by done. destruct (decide (n = 0%nat)); [by rewrite lookup_insert_ne|done].
  - apply Hoo.
  - rewrite holders_insert. destruct (decide (client = c)) as [<-|Hne]; [done|apply Hhh].
Qed.

Lemma closeClient_again client p counts idling :
  (∀ c, c ≠ client → counts !! c = cp_referenceCounts p !! c) → (∀ c, c ≠ client → idling !! c = cp_idlingSince p !! c) →
  closeClient client (with_tables (cp_clients p) (cp_targets p) counts idling p) = closeClient client p.
Proof.
  intros Hc Hi. unfold closeClient, with_tables. cbn. f_equal; apply map_eq; intros c;
    (destruct (decide (client = c)) as [<-|Hne]; [by rewrite !lookup_delete_eq|rewrite !lookup_delete_ne by done; auto]).
Qed.

Lemma conn_step_inv x y : conn_step x y → conns_inv x → conns_inv y.
Proof.
  intros Hs Hx. destruct Hs as [p held opened dial target p' client Hfresh Hget|p held opened now reusable client n p' cs Hn Hput|p held opened now p' cs Hidle].
  - by eapply Get_inv.
  - pose proof (give_back_inv p held opened now client n Hx Hn) as Hy. pose proof (put_counts _ _ _ Hn) as Hhold.
    assert (client ∈ opened) as Hop by (apply (cv_held _ Hx); cbn; lia).
    pose proof (proj2 (cv_open _ Hx client) Hop) as [t Ht]. pose proof (cv_counts _ Hx client) as Hc. cbn in Ht, Hc. rewrite Ht, Hhold in Hc.
    unfold Put in Hput. rewrite Hc in Hput. cbn [fmap option_fmap option_map] in Hput. replace (Z.of_nat (S n) - 1) with (Z.of_nat n) in Hput by lia.
    destruct (Z.ltb_spec 0 (Z.of_nat n)) as [Hpos|Hz]; [|destruct (_ && _)]; injection Hput as <- <-; cbn [list_to_set].
    1-2: replace (opened ∖ ∅) with opened by set_solver; destruct (decide (n = 0%nat)); (exact Hy || lia).
    eapply (closeClient_inv _ _ _ client t) in Hy; [|done|rewrite holders_insert, decide_True by done; lia].
    replace (opened ∖ ({[client]} ∪ ∅)) with (opened ∖ {[client]}) by set_solver.
    rewrite closeClient_again in Hy; [exact Hy|intros c Hne; by rewrite lookup_insert_ne|].
    intros c Hne. destruct (decide _); [by rewrite lookup_insert_ne|done].
  - unfold closeIdle in Hidle. injection Hidle as <- <-. apply close_all_inv; [done| |].
    + eapply sublist_NoDup; [apply (NoDup_fst_map_to_list (cp_idlingSince p))|apply fmap_sublist, sublist_filter].
    + intros c ([c' since] & -> & [_ Hin]%list_elem_of_filter)%list_elem_of_fmap. apply elem_of_map_to_list in Hin. cbn.
      assert (cp_referenceCounts p !! c' = Some 0) as Hz by (apply (cv_idle _ Hx c'); by eexists).
      pose proof (cv_counts _ Hx c') as Hc. cbn in Hc. rewrite Hz in Hc. destruct (cp_targets p !! c') as [t|]; [|done]. cbn in Hc.
      injection Hc as Hc. split; [by eexists|lia].
Qed.

(** ** The theorem *)

Definition initial_pool (idleTimeout : Z) : PoolSystem :=
  {| ps_pool := {| cp_idleTimeout := idleTimeout; cp_clients := ∅; cp_targets := ∅; cp_referenceCounts := ∅; cp_idlingSince := ∅; cp_closed := false |};
     ps_held := ∅; ps_open := ∅ |}.

Lemma initial_pool_inv idleTimeout : conns_inv (initial_pool idleTimeout).
Proof. split; cbn; intros c; rewrite ?lookup_empty; [done|done|split; [by intros []|done]|split; [by intros []|set_solver]|done]. Qed.

Lemma reachable_conns idleTimeout x : rtc conn_step (initial_pool idleTimeout) x → conns_inv x.
Proof.
  intros Hr. pose proof (initial_pool_inv idleTimeout) as H0. induction Hr as [|x y z Hs _ IH]; [done|]. by apply IH, (conn_step_inv x).
Qed.

(** A connection that somebody holds is open, and is the one that everybody else gets for its target; its reference
    count is the number of holders.  A connection that nobody holds is closed, or waits to be reused. *)
Theorem conn_pool_safe idleTimeout x client :
  rtc conn_step (initial_pool idleTimeout) x →
  (holders (ps_held x) client ≠ 0%nat → client ∈ ps_open x ∧ ∃ target, ∀ dial,
     ∃ p', Get dial target (ps_pool x) = Ok (p', client)) ∧
  (client ∈ ps_open x → cp_referenceCounts (ps_pool x) !! client = Some (Z.of_nat (holders (ps_held x) client)) ∧
     (holders (ps_held x) client = 0%nat → is_Some (cp_idlingSince (ps_pool x) !! client))).
Proof.
  intros Hx%reachable_conns. split.
  - intros Hh. pose proof (cv_held _ Hx client Hh) as Ho. split; [done|]. destruct (proj2 (cv_open _ Hx client) Ho) as [t Ht].
    exists t. intros dial. unfold Get. rewrite (proj1 (cv_targets _ Hx client t) Ht). by eexists.
  - intros Ho. destruct (proj2 (cv_open _ Hx client) Ho) as [t Ht]. pose proof (cv_counts _ Hx client) as Hc. rewrite Ht in Hc. cbn in Hc.
    split; [done|]. intros Hz. apply (cv_idle _ Hx). by rewrite Hc, Hz.
Qed.

(** ** What the pool does not do *)

(** A connection that is put once too often is counted below zero, and is closed under a client that holds it. *)
Lemma double_put_closes_held :
  let p0 := ps_pool (initial_pool 10) in
  ∃ p1 p2 p3 p4 p5 p6, Get (Ok 1%nat) "a" p0 = Ok (p1, 1%nat) ∧ Put 0 true 1 p1 = Ok (p2, []) ∧ Put 0 true 1 p2 = Ok (p3, []) ∧
    Get (Ok 2%nat) "a" p3 = Ok (p4, 1%nat) ∧ Get (Ok 2%nat) "a" p4 = Ok (p5, 1%nat) ∧ Put 0 true 1 p5 = Ok (p6, []) ∧ (closeIdle 20 p6).2 = [1%nat].
Proof. intros p0. do 6 eexists. repeat (split; [vm_compute; reflexivity|]). vm_compute. reflexivity. Qed.
