(* ===== verification/Interaction.v ===== *)
(** * Programs that call their environment

    The handlers of the protocol servers interleave their own steps with calls: frames are sent, requests are made to the
    rest of the server, the current state is read.  Such a handler is a tree of calls and answers ([prog]); a theorem
    about it speaks of every sequence of answers ([always]), and an example fixes them ([run]).  A handler that changes an
    object and can fail is a [method] of that object. *)
From S2P Require Import Prelude Bytes.

(** ** Errors *)

(** [err.Error()] *)
Fixpoint Error_text (e : go_error) : string :=
  match e with
  | EOF => "EOF"
  | ErrNew msg => msg
  | ErrWrap cause msg => msg +:+ ": " +:+ Error_text cause
  end.

(** [errors.Wrap(err, msg)], which is nil for nil. *)
Definition wrap_opt (msg : string) (err : option go_error) : option go_error := (λ e, ErrWrap e msg) <$> err.

(** ** Programs *)

Section prog.

Context {E : Type} (ans : E → Type).

(** A call with its answer. *)
Definition call : Type := sigT ans.

Inductive prog (A : Type) : Type :=
| Ret (a : A)
| Vis (e : E) (k : ans e → prog A).

End prog.

Arguments Ret {E ans A} _.
Arguments Vis {E ans A} _ _.

Fixpoint prog_bind_aux {E} {ans : E → Type} {A B} (f : A → prog ans B) (p : prog ans A) : prog ans B :=
  match p with
  | Ret a => f a
  | Vis e k => Vis e (λ x, prog_bind_aux f (k x))
  end.

#[export] Instance prog_ret {E} (ans : E → Type) : MRet (prog ans) := λ A, Ret.
#[export] Instance prog_bind {E} (ans : E → Type) : MBind (prog ans) := λ A B, prog_bind_aux.

Definition perform {E} {ans : E → Type} (e : E) : prog ans (ans e) := Vis e Ret.

(** What holds of the calls and the result of every run. *)
Fixpoint always {E} {ans : E → Type} {A} (p : prog ans A) (Q : list (call ans) → A → Prop) : Prop :=
  match p with
  | Ret a => Q [] a
  | Vis e k => ∀ x, always (k x) (λ log a, Q (existT e x :: log) a)
  end.

(** The calls up to some moment of a run, and the result if the run has ended. *)
Fixpoint trace {E} {ans : E → Type} {A} (p : prog ans A) (log : list (call ans)) (o : option A) : Prop :=
  match p with
  | Ret a => log = [] ∧ o = Some a
  | Vis e k => (log = [] ∧ o = None) ∨ ∃ x log', log = existT e x :: log' ∧ trace (k x) log' o
  end.

(** A run in a world that answers. *)
Fixpoint run {E} {ans : E → Type} {A W} (world : ∀ e, W → ans e * W) (p : prog ans A) (w : W) : list (call ans) * A * W :=
  match p with
  | Ret a => ([], a, w)
  | Vis e k =>
    let '(x, w) := world e w in
    let '(log, a, w) := run world (k x) w in
    (existT e x :: log, a, w)
  end.

Section laws.

Context {E : Type} {ans : E → Type}.

Lemma always_mono {A} (p : prog ans A) : ∀ (Q R : list (call ans) → A → Prop),
  (∀ log a, Q log a → R log a) → always p Q → always p R.
Proof.
  induction p as [a|e k IH]; intros Q R HQR; cbn [always]; [apply HQR|]. intros H x. eapply IH; [|apply H]. cbn. auto.
Qed.

Lemma always_bind {A B} (f : A → prog ans B) (p : prog ans A) : ∀ Q,
  always (p ≫= f) Q ↔ always p (λ log a, always (f a) (λ log', Q (log ++ log'))).
Proof.
  induction p as [a|e k IH]; intros Q; [done|]. split; intros H x; by apply (IH x (λ log, Q (existT e x :: log))), H.
Qed.

(** A moment of a composition is one of its first part, or its first part has ended. *)
Lemma trace_bind {A B} (f : A → prog ans B) (p : prog ans A) : ∀ log o,
  trace (p ≫= f) log o ↔
  (trace p log None ∧ o = None) ∨ ∃ log1 a log2, log = log1 ++ log2 ∧ trace p log1 (Some a) ∧ trace (f a) log2 o.
Proof.
  induction p as [a|e k IH]; intros log o; cbn [trace mbind prog_bind prog_bind_aux].
  - split.
    + intros H. right. by exists [], a, log.
    + intros [[[_ Ho] _]|(log1 & a' & log2 & -> & [-> Ho] & Ht)]; by simplify_eq.
  - split.
    + intros [[-> ->]|(x & log' & -> & H)]; [left; tauto|]. apply IH in H as [[H ->]|(log1 & a & log2 & -> & H1 & H2)].
      * left. split; [|done]. right. by exists x, log'.
      * right. exists (existT e x :: log1), a, log2. split_and!; [done| |done]. right. by exists x, log1.
    + intros [[[[-> _]|(x & log' & -> & H)] ->]|(log1 & a & log2 & -> & [[_ Ho]|(x & log' & -> & H1)] & H2)]; [by left| |done|].
      * right. exists x, log'. split; [done|]. apply IH. by left.
      * right. exists x, (log' ++ log2). split; [done|]. apply IH. right. by exists log', a, log2.
Qed.

Lemma trace_always {A} (p : prog ans A) : ∀ Q log a, always p Q → trace p log (Some a) → Q log a.
Proof.
  induction p as [a|e k IH]; intros Q log a'; cbn [always trace]; [by intros H [-> [= ->]]|].
  intros H [[_ [=]]|(x & log' & -> & Ht)]. by apply (IH x (λ log, Q (existT e x :: log))).
Qed.

Lemma always_and {A} (p : prog ans A) : ∀ Q R, always p Q → always p R → always p (λ log a, Q log a ∧ R log a).
Proof. induction p as [a|e k IH]; intros Q R; cbn [always]; [done|]. intros HQ HR x. by apply (IH x). Qed.

Lemma always_run {A W} (world : ∀ e, W → ans e * W) (p : prog ans A) : ∀ (w : W) (Q : list (call ans) → A → Prop),
  always p Q → Q (run world p w).1.1 (run world p w).1.2.
Proof.
  induction p as [a|e k IH]; intros w Q H; [done|]. cbn [run]. destruct (world e w) as [x w'].
  specialize (IH x w' _ (H x)). by destruct (run world (k x) w') as [[log a] w''].
Qed.

End laws.

(** ** Methods

    The object is changed in place: what was changed before an error stays changed. *)

Definition method {E} (ans : E → Type) (S Er A : Type) : Type := S → prog ans (S * result Er A).

Section method.

Context {E : Type} {ans : E → Type} {S Er : Type}.

#[export] Instance method_ret : MRet (method ans S Er) := λ A a s, Ret (s, Ok a).
#[export] Instance method_bind : MBind (method ans S Er) := λ A B f m s,
  prog_bind_aux (λ '(s, r), match r with
                            | Ok a => f a s
                            | Err e => Ret (s, Err e)
                            | Panic msg => Ret (s, Panic msg)
                            end) (m s).

Definition get : method ans S Er S := λ s, Ret (s, Ok s).
Definition modify (f : S → S) : method ans S Er unit := λ s, Ret (f s, Ok ()).
Definition throw {A} (e : Er) : method ans S Er A := λ s, Ret (s, Err e).
Definition crash {A} (msg : string) : method ans S Er A := λ s, Ret (s, Panic msg).
Definition ask (e : E) : method ans S Er (ans e) := λ s, Vis e (λ x, Ret (s, Ok x)).

(** Calls that leave the object as it is. *)
Definition calls {A} (p : prog ans A) : method ans S Er A := λ s, prog_bind_aux (λ a, Ret (s, Ok a)) p.

(** [if b { return err }] *)
Definition guard_not (b : bool) (e : Er) : method ans S Er unit := if b then throw e else mret ().

(** A call that returns an error, which the handler returns. *)
Definition fail_on {X} (e : option X) (f : X → Er) : method ans S Er unit :=
  match e with
  | None => mret ()
  | Some x => throw (f x)
  end.

End method.

(** ** Reasoning about methods *)

Section method_laws.

Context {E : Type} {ans : E → Type} {S Er : Type}.

(** A method after another. *)
Lemma always_method_bind {A B} (f : A → method ans S Er B) (m : method ans S Er A) s Q :
  always ((m ≫= f) s) Q ↔
  always (m s) (λ log '(s', r), match r with
                                | Ok a => always (f a s') (λ log', Q (log ++ log'))
                                | Err e => Q log (s', Err e)
                                | Panic msg => Q log (s', Panic msg)
                                end).
Proof.
  etransitivity; [apply (always_bind _ (m s) Q)|].
  split; apply always_mono; intros log [s' [a|e|msg]]; cbn [always]; rewrite ?app_nil_r; done.
Qed.

(** What holds of the calls so far and the object is kept, whether the method fails or not. *)
Definition keeps (I : list (call ans) → S → Prop) {A} (m : method ans S Er A) : Prop :=
  ∀ log s, I log s → always (m s) (λ log' x, I (log ++ log') x.1).

Context (I : list (call ans) → S → Prop).

Lemma keeps_bind {A B} (m : method ans S Er A) (f : A → method ans S Er B) :
  keeps I m → (∀ a, keeps I (f a)) → keeps I (m ≫= f).
Proof.
  intros Hm Hf log s Hs. apply always_method_bind. eapply always_mono; [|by apply Hm].
  intros log' [s' [a|e|msg]]; cbn [fst]; [|done..]. intros Hs'. eapply always_mono; [|by apply Hf].
  intros log'' x. cbn beta. by rewrite <-app_assoc.
Qed.

Lemma keeps_get {A} (f : S → method ans S Er A) :
  (∀ log s, I log s → always (f s s) (λ log' x, I (log ++ log') x.1)) → keeps I (get ≫= f).
Proof. intros Hf log s Hs. apply always_method_bind. by apply Hf. Qed.

Lemma keeps_ret {A} (a : A) : keeps I (mret a).
Proof. intros log s Hs. cbn. by rewrite app_nil_r. Qed.

Lemma keeps_throw {A} e : keeps I (A := A) (throw e).
Proof. intros log s Hs. cbn. by rewrite app_nil_r. Qed.

Lemma keeps_crash {A} msg : keeps I (A := A) (crash msg).
Proof. intros log s Hs. cbn. by rewrite app_nil_r. Qed.

Lemma keeps_guard b e : keeps I (guard_not b e).
Proof. destruct b; [apply keeps_throw|apply keeps_ret]. Qed.

Lemma keeps_fail_on {X} (o : option X) f : keeps I (fail_on o f).
Proof. destruct o; [apply keeps_throw|apply keeps_ret]. Qed.

Lemma keeps_modify f : (∀ log s, I log s → I log (f s)) → keeps I (modify f).
Proof. intros Hf log s Hs. cbn. rewrite app_nil_r. by apply Hf. Qed.

Lemma keeps_ask e : (∀ log x s, I log s → I (log ++ [existT e x]) s) → keeps I (ask e).
Proof. intros He log s Hs x. cbn. by apply He. Qed.

End method_laws.

(** Case analysis along the text of a method; what depends on the invariant is left. *)
Ltac keeps_step :=
  match goal with
  | |- ∀ _, _ => intros ?
  | |- keeps _ (mret _) => apply keeps_ret
  | |- keeps _ (throw _) => apply keeps_throw
  | |- keeps _ (crash _) => apply keeps_crash
  | |- keeps _ (guard_not _ _) => apply keeps_guard
  | |- keeps _ (fail_on _ _) => apply keeps_fail_on
  | |- keeps _ (get ≫= _) => apply keeps_get; intros ? ? ?
  | |- keeps _ (_ ≫= _) => apply keeps_bind
  | |- keeps _ (if ?b then _ else _) => destruct b
  | |- keeps _ (match ?x with _ => _ end) => destruct x
  end.

Ltac keeps_call := match goal with |- keeps ?I (ask ?e) => refine (keeps_ask I e _) end.

(** ** Resources

    Calls that start something and calls that close it; what was started is held by the object until it is closed. *)

Section resources.

Context {E : Type} {ans : E → Type} (started_of closed_of : call ans → option nat).

Definition started (log : list (call ans)) (n : nat) : Prop := n ∈ omap started_of log.
Definition closed (log : list (call ans)) (n : nat) : Prop := n ∈ omap closed_of log.

Lemma started_app log log' n : started (log ++ log') n ↔ started log n ∨ started log' n.
Proof. unfold started. by rewrite omap_app, elem_of_app. Qed.

Lemma closed_app log log' n : closed (log ++ log') n ↔ closed log n ∨ closed log' n.
Proof. unfold closed. by rewrite omap_app, elem_of_app. Qed.

(** Nothing is lost: what was held at first or started since is still held, or was closed. *)
Definition no_leak {S} (held : S → nat → Prop) (first : nat → Prop) (log : list (call ans)) (s : S) : Prop :=
  ∀ n, first n ∨ started log n → held s n ∨ closed log n.

Lemma no_leak_calls {S} (held : S → nat → Prop) first log more s :
  omap started_of more = [] → no_leak held first log s → no_leak held first (log ++ more) s.
Proof.
  intros Hm Hl n. rewrite started_app, closed_app. unfold started at 2. rewrite Hm, elem_of_nil. intros Hn.
  destruct (Hl n); tauto.
Qed.

Lemma no_leak_weaken {S} (held : S → nat → Prop) first log s s' :
  (∀ n, held s n → held s' n) → no_leak held first log s → no_leak held first log s'.
Proof. intros Hh Hl n Hn. destruct (Hl n Hn); [left; by apply Hh|by right]. Qed.

(** A part of the object is replaced, and the calls of its method are added: what the part held is held or closed. *)
Lemma no_leak_part {S P} (held : S → nat → Prop) (part_held : P → nat → Prop) first log log' s s' p p' :
  no_leak held first log s → no_leak part_held (part_held p) log' p' →
  (∀ n, held s n → part_held p n ∨ held s' n) → (∀ n, part_held p' n → held s' n) → no_leak held first (log ++ log') s'.
Proof.
  intros Hl Hp Hs Hs' n. rewrite started_app, closed_app. intros Hn.
  assert (held s n ∨ closed log n ∨ started log' n) as [Hh|[Hc|Hst]] by (destruct Hn as [Hn|[Hn|Hn]]; [destruct (Hl n)..|]; tauto).
  - destruct (Hs n Hh) as [Hpn|Hn']; [|tauto]. destruct (Hp n); [tauto| |tauto]. left. by apply Hs'.
  - tauto.
  - destruct (Hp n); [tauto| |tauto]. left. by apply Hs'.
Qed.

End resources.
