(* ===== verification/SubscribeStream.v ===== *)
(** * The handler of subscriptions as a whole

    Models [Server.Subscribe] (src/mq/server_consumer_group_subscribe.go) from the request to its end: a subscription to a group
    of another node is relayed, one to a group of this node is served by a loop; and [subscribeConsumer]
    (server_consumer_group_subscribe_consumer.go), the stream on which the AMQP servers subscribe without a network.
    What the tables of groups do (Broker.v), gRPC and the pool are the answers of calls. *)
From S2P Require Import Prelude Emq ClusterState ClusterInv Requests Consumers Broker Bytes Interaction.

(** ** Calls *)

Inductive next_result : Type :=
| NextMessage (response : SubscribeResponse) (seqNo : Z)
| NextEnds (* [ErrSubscriptionClosed] or [ErrEmpty] *)
| NextFails (e : rpc_error).

Inductive u_call : Type :=
| UGet (address : string)
| UPut (conn : nat)
| UCall (conn : nat) (request : ConsumerGroupSubscribeRequest) (* [Subscribe] of the other node *)
| URecv
| USend (response : SubscribeResponse) (* [stream.Send] *)
| UOpen (request : ConsumerGroupSubscribeRequest) (* [Subscribe_open] *)
| UNext (id : Z) (* [Subscribe_next] *)
| UAck (id seqNo : Z)
| UClose (id : Z)
| UForget (id : Z).

Definition u_answer (e : u_call) : Type :=
  match e with
  | UGet _ => result go_error nat
  | UPut _ => unit
  | UCall _ _ => option go_error
  | URecv => result go_error SubscribeResponse
  | USend _ => option go_error
  | UOpen _ => result rpc_error Z
  | UNext _ => next_result
  | UAck _ _ => option rpc_error
  | UClose _ => unit
  | UForget _ => unit
  end.

Abbreviation u_prog := (prog u_answer).
Abbreviation u_log := (list (call u_answer)).

Inductive subscribe_error : Type :=
| SubRpc (e : rpc_error)
| SubDial (e : go_error)
| SubRequest (e : go_error)
| SubReceive (e : go_error)
| SubSend (e : go_error)
| SubNext (e : rpc_error)
| SubAck (e : rpc_error).

(** ** The handler *)

Definition forwarded_subscribe (request : ConsumerGroupSubscribeRequest) : ConsumerGroupSubscribeRequest :=
  {| gsr_DoNotForward := true; gsr_Namespace := gsr_Namespace request; gsr_Name := gsr_Name request; gsr_Size := gsr_Size request;
     gsr_AutoAck := gsr_AutoAck request; gsr_DoNotBlock := gsr_DoNotBlock request; gsr_MaxMessages := gsr_MaxMessages request |}.

(** The loop of the relay; [fuel] is the number of responses. *)
Fixpoint relay_loop (fuel : nat) : u_prog (result subscribe_error unit) :=
  match fuel with
  | O => mret (Panic "out of fuel")
  | S fuel =>
    r ← perform URecv;
    match r : result go_error SubscribeResponse with
    | Err EOF => mret (Ok ())
    | Err e => mret (Err (SubReceive e))
    | Panic msg => mret (Panic msg)
    | Ok response =>
      err ← perform (USend response);
      match err : option go_error with
      | Some e => mret (Err (SubSend e))
      | None => relay_loop fuel
      end
    end
  end.

Definition Subscribe_relay (fuel : nat) (address : string) (request : ConsumerGroupSubscribeRequest) : u_prog (result subscribe_error unit) :=
  r ← perform (UGet address);
  match r : result go_error nat with
  | Err e => mret (Err (SubDial e))
  | Panic msg => mret (Panic msg)
  | Ok conn =>
    err ← perform (UCall conn (forwarded_subscribe request));
    match err : option go_error with
    | Some e => _ ← perform (UPut conn); mret (Err (SubRequest e))
    | None => x ← relay_loop fuel; _ ← perform (UPut conn); mret x
    end
  end.

(** The loop over the messages of a group. *)
Fixpoint subscribe_loop (fuel : nat) (id : Z) (autoAck : bool) : u_prog (result subscribe_error unit) :=
  match fuel with
  | O => mret (Panic "out of fuel")
  | S fuel =>
    r ← perform (UNext id);
    match r : next_result with
    | NextEnds => mret (Ok ())
    | NextFails e => mret (Err (SubNext e))
    | NextMessage response seqNo =>
      err ← perform (USend response);
      match err : option go_error with
      | Some e => mret (Err (SubSend e))
      | None =>
        if autoAck then
          err ← perform (UAck id seqNo);
          match err : option rpc_error with
          | Some e => mret (Err (SubAck e))
          | None => subscribe_loop fuel id autoAck
          end
        else subscribe_loop fuel id autoAck
      end
    end
  end.

Definition Subscribe_serve (fuel : nat) (request : ConsumerGroupSubscribeRequest) : u_prog (result subscribe_error unit) :=
  r ← perform (UOpen request);
  match r : result rpc_error Z with
  | Err e => mret (Err (SubRpc e))
  | Panic msg => mret (Panic msg)
  | Ok id => x ← subscribe_loop fuel id (gsr_AutoAck request); _ ← perform (UClose id); _ ← perform (UForget id); mret x
  end.

(** [Server.Subscribe].  The failure to dial is an answer of the relay. *)
Definition Server_Subscribe (fuel : nat) (state : ClusterState) (nodeID : Z) (request : ConsumerGroupSubscribeRequest) :
    u_prog (result subscribe_error unit) :=
  match Subscribe_route state nodeID request true with
  | Err e => mret (Err (SubRpc e))
  | Panic msg => mret (Panic msg)
  | Ok Here => Subscribe_serve fuel request
  | Ok (ForwardTo address) => Subscribe_relay fuel address request
  end.

(** ** Streams without a network *)

Record subscribeConsumer : Type := {
  sc_own : bool; (* [closeDelivery]: the channel was made for this consumer *)
  sc_channel : Z;
  sc_consumerTag : string;
  sc_cancelled : bool; (* the context *)
  sc_closed : bool; (* the channel [C] *)
}.

Record subscribeDelivery : Type := { sd_Channel : Z; sd_ConsumerTag : string; sd_Response : SubscribeResponse }.

(** [shared]: a channel for deliveries was passed. *)
Definition newSubscribeConsumer (shared : bool) (channel : Z) (consumerTag : string) : subscribeConsumer :=
  {| sc_own := negb shared; sc_channel := channel; sc_consumerTag := consumerTag; sc_cancelled := false; sc_closed := false |}.

(** [Send]: what is put on the channel, when the other side takes it. *)
Definition consumer_Send (s : subscribeConsumer) (response : SubscribeResponse) : result go_error subscribeDelivery :=
  if sc_closed s then Panic "send on closed channel"
  else Ok {| sd_Channel := sc_channel s; sd_ConsumerTag := sc_consumerTag s; sd_Response := response |}.

Definition consumer_Close (s : subscribeConsumer) : result go_error subscribeConsumer :=
  if sc_own s && sc_closed s then Panic "close of closed channel"
  else Ok {| sc_own := sc_own s; sc_channel := sc_channel s; sc_consumerTag := sc_consumerTag s; sc_cancelled := true;
             sc_closed := sc_own s || sc_closed s |}.

(** The other methods of the stream interface. *)
Definition consumer_unsupported : result go_error unit := Panic "local".

(** ** Theorems *)

(** A request is relayed once: the node that gets it answers or refuses. *)
Lemma relayed_once state nodeID request dialed address :
  Subscribe_route state nodeID (forwarded_subscribe request) dialed ≠ Ok (ForwardTo address).
Proof.
  unfold Subscribe_route. destruct (ConsumerGroupSubscribeRequest_Validate _) as [[]|e|msg]; [|done..].
  destruct (group_node _ _ _) as [node|e|msg]; [|done..]. cbn. unfold route_to. cbn. by destruct (node =? nodeID).
Qed.

(** The owner of the group serves what is relayed to it, under the same cluster state. *)
Lemma relayed_is_served state nodeID owner request address :
  Subscribe_route state nodeID request true = Ok (ForwardTo address) →
  group_node state (gsr_Namespace request) (gsr_Name request) = Ok owner →
  (∃ node, GetNode state owner = Some node ∧ node_Address node = address) ∧
  Subscribe_route state owner (forwarded_subscribe request) true = Ok Here.
Proof.
  unfold Subscribe_route. assert (ConsumerGroupSubscribeRequest_Validate (forwarded_subscribe request) = ConsumerGroupSubscribeRequest_Validate request) as -> by done.
  cbn [forwarded_subscribe gsr_Namespace gsr_Name gsr_DoNotForward].
  destruct (ConsumerGroupSubscribeRequest_Validate request) as [[]|e|msg]; [|done..]. intros H Hn. rewrite Hn in H |- *. cbn in *. unfold route_to in *.
  rewrite Z.eqb_refl. split; [|done]. destruct (owner =? nodeID); [done|]. destruct (gsr_DoNotForward request); [done|].
  destruct (GetNode state owner) as [node|]; [|done]. injection H as <-. by exists node.
Qed.

Definition u_received (c : call u_answer) : option SubscribeResponse := match c with existT URecv (Ok r) => Some r | _ => None end.
Definition u_next (c : call u_answer) : option (SubscribeResponse * Z) := match c with existT (UNext _) (NextMessage r n) => Some (r, n) | _ => None end.
Definition u_sent (c : call u_answer) : option SubscribeResponse := match c with existT (USend r) _ => Some r | _ => None end.
Definition u_delivered (c : call u_answer) : option SubscribeResponse := match c with existT (USend r) None => Some r | _ => None end.
Definition u_acked (c : call u_answer) : option Z := match c with existT (UAck _ n) _ => Some n | _ => None end.
Definition u_opened (c : call u_answer) : option Z := match c with existT (UOpen _) (Ok id) => Some id | _ => None end.
Definition u_closed (c : call u_answer) : option Z := match c with existT (UClose id) _ => Some id | _ => None end.
Definition u_forgotten (c : call u_answer) : option Z := match c with existT (UForget id) _ => Some id | _ => None end.
Definition u_taken (c : call u_answer) : option nat := match c with existT (UGet _) (Ok conn) => Some conn | _ => None end.
Definition u_put (c : call u_answer) : option nat := match c with existT (UPut conn) _ => Some conn | _ => None end.
Definition u_ended (c : call u_answer) : option unit := match c with existT URecv (Err EOF) | existT (UNext _) NextEnds => Some () | _ => None end.

(** What a loop does with messages; it leaves subscriptions and connections alone. *)
Record passes_on (autoAck : bool) (log : u_log) : Prop := {
  po_sent : omap u_sent log `prefix_of` omap u_received log ++ (omap u_next log).*1;
  po_acked : omap u_acked log `prefix_of` (omap u_next log).*2;
  po_after : (length (omap u_acked log) ≤ length (omap u_delivered log))%nat;
  po_manual : autoAck = false → omap u_acked log = [];
  po_one : (length (omap u_received log) + length (omap u_next log) ≤ S (length (omap u_sent log)))%nat;
}.

(** A subscription that has ended by itself. *)
Definition complete (autoAck : bool) (log : u_log) : Prop :=
  omap u_sent log = omap u_received log ++ (omap u_next log).*1 ∧ (autoAck = true → omap u_acked log = (omap u_next log).*2) ∧ omap u_ended log ≠ [].

Definition leaves_alone (log : u_log) : Prop :=
  omap u_opened log = [] ∧ omap u_closed log = [] ∧ omap u_forgotten log = [] ∧ omap u_taken log = [] ∧ omap u_put log = [].

Lemma passes_nil autoAck : passes_on autoAck [].
Proof. split; [apply prefix_nil..|done|done|cbn; lia]. Qed.

(** One message has been taken and is not sent yet, or could not be sent. *)
Ltac taken_one := split; cbn; try apply prefix_nil; try apply prefix_cons, prefix_nil; try done; lia.

Lemma relay_loop_passes autoAck fuel : ∀ log o, trace (relay_loop fuel) log o →
  passes_on autoAck log ∧ leaves_alone log ∧ omap u_next log = [] ∧ omap u_acked log = [] ∧ (o = Some (Ok ()) → complete autoAck log).
Proof.
  induction fuel as [|fuel IH]; intros log o H; cbn in H; [destruct H as [-> ->]; by split; [apply passes_nil|]|].
  destruct H as [[-> ->]|(r & log1 & -> & H)]; [by split; [apply passes_nil|]|].
  destruct r as [response|e|msg].
  2: { destruct e; destruct H as [-> ->]; split; by try taken_one. }
  2: { destruct H as [-> ->]. by split; [taken_one|]. }
  destruct H as [[-> ->]|([e|] & log2 & -> & H)]; [by split; [taken_one|]|destruct H as [-> ->]; by split; [taken_one|]|].
  destruct (IH _ _ H) as ([P1 P2 P3 P4 P5] & Hl & Hn & Ha & Hc). split; [split; [by apply prefix_cons|done|cbn; lia|done|cbn; lia]|].
  split_and!; [apply Hl..|done|done|]. intros (C1 & C2 & C3)%Hc. split_and!; [cbn; by rewrite C1|done|done].
Qed.

Lemma subscribe_loop_passes fuel id autoAck : ∀ log o, trace (subscribe_loop fuel id autoAck) log o →
  passes_on autoAck log ∧ leaves_alone log ∧ omap u_received log = [] ∧ (o = Some (Ok ()) → complete autoAck log).
Proof.
  induction fuel as [|fuel IH]; intros log o H; cbn in H; [destruct H as [-> ->]; by split; [apply passes_nil|]|].
  destruct H as [[-> ->]|(r & log1 & -> & H)]; [by split; [apply passes_nil|]|].
  destruct r as [response seqNo| |e]; [|destruct H as [-> ->]; split; [taken_one|]; by repeat split|destruct H as [-> ->]; by split; [taken_one|]].
  destruct H as [[-> ->]|([e|] & log2 & -> & H)]; [by split; [taken_one|]|destruct H as [-> ->]; by split; [taken_one|]|].
  destruct autoAck.
  - destruct H as [[-> ->]|([e|] & log3 & -> & H)]; [by split; [taken_one|]|destruct H as [-> ->]; by split; [taken_one|]|].
    destruct (IH _ _ H) as ([P1 P2 P3 P4 P5] & Hl & Hn & Hc). cbn in *. rewrite Hn in *. cbn in *.
    split; [split; cbn; rewrite ?Hn; [by apply prefix_cons|by apply prefix_cons|lia|done|cbn; lia]|]. split_and!; [apply Hl..|done|].
    intros (C1 & C2 & C3)%Hc. rewrite Hn in C1. split_and!; cbn; [by rewrite Hn, C1|intros _; by rewrite C2|done].
  - destruct (IH _ _ H) as ([P1 P2 P3 P4 P5] & Hl & Hn & Hc). specialize (P4 eq_refl). cbn in *. rewrite Hn in *. cbn in *.
    split; [split; cbn; rewrite ?Hn, ?P4; [by apply prefix_cons|apply prefix_nil|cbn; lia|done|cbn; lia]|]. split_and!; [apply Hl..|done|].
    intros (C1 & C2 & C3)%Hc. rewrite Hn in C1. split_and!; cbn; [by rewrite Hn, C1|done|done].
Qed.

(** Calls that have nothing to do with messages. *)
Definition no_message (log : u_log) : Prop :=
  omap u_sent log = [] ∧ omap u_received log = [] ∧ omap u_next log = [] ∧ omap u_acked log = [] ∧ omap u_delivered log = [] ∧ omap u_ended log = [].

Lemma passes_within autoAck before log after : no_message before → no_message after → passes_on autoAck log → passes_on autoAck (before ++ log ++ after).
Proof.
  intros (B1 & B2 & B3 & B4 & B5 & _) (A1 & A2 & A3 & A4 & A5 & _) [P1 P2 P3 P4 P5].
  split; rewrite !omap_app, ?B1, ?B2, ?B3, ?B4, ?B5, ?A1, ?A2, ?A3, ?A4, ?A5, ?app_nil_r; done.
Qed.

Lemma complete_within autoAck before log after : no_message before → no_message after → complete autoAck log → complete autoAck (before ++ log ++ after).
Proof.
  intros (B1 & B2 & B3 & B4 & B5 & B6) (A1 & A2 & A3 & A4 & A5 & A6) (C1 & C2 & C3).
  split_and!; rewrite !omap_app, ?B1, ?B2, ?B3, ?B4, ?B6, ?A1, ?A2, ?A3, ?A4, ?A6, ?app_nil_r; done.
Qed.

(** What is held at the end. *)
Definition released (log : u_log) : Prop :=
  omap u_closed log = omap u_opened log ∧ omap u_forgotten log = omap u_opened log ∧ omap u_put log = omap u_taken log.

Lemma Subscribe_relay_passes fuel address request log o : trace (Subscribe_relay fuel address request) log o →
  passes_on (gsr_AutoAck request) log ∧ (∀ r, o = Some r → released log) ∧ (o = Some (Ok ()) → complete (gsr_AutoAck request) log).
Proof.
  unfold Subscribe_relay. intros H.
  destruct H as [[-> ->]|([conn|e|msg] & log1 & -> & H)]; [by split; [apply passes_nil|]| |destruct H as [-> ->]; by split; [taken_one|]..].
  destruct H as [[-> ->]|([e|] & log2 & -> & H)]; [by split; [taken_one|]|destruct H as [[-> ->]|([] & log3 & -> & -> & ->)]; by split; [taken_one|]|].
  change (trace (x ← relay_loop fuel; _ ← perform (UPut conn); mret x) log2 o) in H. set (before := [existT (UGet address) (Ok conn); existT (UCall conn (forwarded_subscribe request)) None] : u_log).
  apply trace_bind in H as [[H ->]|(log3 & x & log4 & -> & H1 & H2)].
  - destruct (relay_loop_passes (gsr_AutoAck request) fuel _ _ H) as (Hp & _). split; [|done]. rewrite <- (app_nil_r log2). by apply (passes_within _ before).
  - destruct (relay_loop_passes (gsr_AutoAck request) fuel _ _ H1) as (Hp & (L1 & L2 & L3 & L4 & L5) & _ & _ & Hc).
    destruct H2 as [[-> ->]|([] & log5 & -> & -> & ->)]; (split; [by apply (passes_within _ before)|]); [done|].
    split; [|intros [= ->]; apply (complete_within _ before); [done..|by apply Hc]].
    intros r _. unfold released. cbn [omap list_omap u_closed u_opened u_forgotten u_put u_taken]. by rewrite !omap_app, L1, L2, L3, L4, L5.
Qed.

Lemma Subscribe_serve_passes fuel request log o : trace (Subscribe_serve fuel request) log o →
  passes_on (gsr_AutoAck request) log ∧ (∀ r, o = Some r → released log) ∧ (o = Some (Ok ()) → complete (gsr_AutoAck request) log).
Proof.
  unfold Subscribe_serve. intros H.
  destruct H as [[-> ->]|([id|e|msg] & log1 & -> & H)]; [by split; [apply passes_nil|]| |destruct H as [-> ->]; by split; [taken_one|]..].
  change (trace (x ← subscribe_loop fuel id (gsr_AutoAck request); _ ← perform (UClose id); _ ← perform (UForget id); mret x) log1 o) in H.
  set (before := [existT (UOpen request) (Ok id)] : u_log).
  apply trace_bind in H as [[H ->]|(log3 & x & log4 & -> & H1 & H2)].
  - destruct (subscribe_loop_passes _ _ _ _ _ H) as (Hp & _). split; [|done]. rewrite <- (app_nil_r log1). by apply (passes_within _ before).
  - destruct (subscribe_loop_passes _ _ _ _ _ H1) as (Hp & (L1 & L2 & L3 & L4 & L5) & _ & Hc).
    destruct H2 as [[-> ->]|([] & log5 & -> & H2)]; [split; [by apply (passes_within _ before)|done]|].
    destruct H2 as [[-> ->]|([] & log6 & -> & -> & ->)]; (split; [by apply (passes_within _ before)|]); [done|].
    split; [|intros [= ->]; apply (complete_within _ before); [done..|by apply Hc]].
    intros r _. unfold released. cbn [omap list_omap u_closed u_opened u_forgotten u_put u_taken]. by rewrite !omap_app, L1, L2, L3, L4, L5.
Qed.

(** (C35) A subscription.  At every moment, whatever the group, the other node and the subscriber answer: the subscriber is sent the messages that the
    group leased, or that the node of the group sent, in order, and none is taken before the one before it was sent; messages are acknowledged for the
    subscriber only if it asked for that, in order and each after it was sent.  When the handler returns, the subscription is closed and forgotten and
    the connection to the other node given back; it returns without an error only when the group or the other node has ended the messages, and all that were
    taken have been sent, and acknowledged if that was asked for. *)
Theorem subscribe_exact fuel state nodeID request log o : trace (Server_Subscribe fuel state nodeID request) log o →
  omap u_sent log `prefix_of` omap u_received log ++ (omap u_next log).*1 ∧
  (length (omap u_received log) + length (omap u_next log) ≤ S (length (omap u_sent log)))%nat ∧
  omap u_acked log `prefix_of` (omap u_next log).*2 ∧
  (length (omap u_acked log) ≤ length (omap u_delivered log))%nat ∧
  (gsr_AutoAck request = false → omap u_acked log = []) ∧
  (∀ r, o = Some r → omap u_closed log = omap u_opened log ∧ omap u_forgotten log = omap u_opened log ∧ omap u_put log = omap u_taken log) ∧
  (o = Some (Ok ()) →
    omap u_sent log = omap u_received log ++ (omap u_next log).*1 ∧ (gsr_AutoAck request = true → omap u_acked log = (omap u_next log).*2) ∧
    omap u_ended log ≠ []).
Proof.
  unfold Server_Subscribe. intros H.
  assert (passes_on (gsr_AutoAck request) log ∧ (∀ r, o = Some r → released log) ∧ (o = Some (Ok ()) → complete (gsr_AutoAck request) log)) as ([P1 P2 P3 P4 P5] & Hr & Hc); [|by split_and!].
  destruct (Subscribe_route state nodeID request true) as [[|address]|e|msg];
    [by eapply Subscribe_serve_passes|by eapply Subscribe_relay_passes|destruct H as [-> ->]; split; [apply passes_nil|done]..].
Qed.

Definition demo_subscription_request : ConsumerGroupSubscribeRequest :=
  {| gsr_DoNotForward := false; gsr_Namespace := "default"; gsr_Name := "workers"; gsr_Size := 1; gsr_AutoAck := true; gsr_DoNotBlock := true;
     gsr_MaxMessages := 0 |}.
Definition demo_response : SubscribeResponse :=
  {| resp_NodeID := 1; resp_SubscriptionID := 4; resp_TopicNamespace := "default"; resp_TopicName := "orders"; resp_Message := None; resp_SeqNo := 0 |}.

Definition demo_served : u_log :=
  [existT (UOpen demo_subscription_request) (Ok 4); existT (UNext 4) (NextMessage demo_response 1); existT (USend demo_response) None;
   existT (UAck 4 1) None; existT (UNext 4) NextEnds; existT (UClose 4) (); existT (UForget 4) ()].

Lemma subscribe_exact_witness : omap u_acked demo_served `prefix_of` (omap u_next demo_served).*2.
Proof.
  refine (proj1 (proj2 (proj2 (subscribe_exact 2 demo_state 1 demo_subscription_request demo_served (Some (Ok ())) _)))).
  unfold Server_Subscribe. replace (Subscribe_route demo_state 1 demo_subscription_request true) with (Ok (E := rpc_error) Here) by (by vm_compute).
  repeat first [done | right; eexists _, _; split; [reflexivity|]; cbn].
Defined.

(** A consumer of its own channel is closed once; the channel that the consumers of a connection share is not closed by any of them. *)
Lemma consumer_close shared channel tag s :
  consumer_Close (newSubscribeConsumer shared channel tag) = Ok s →
  sc_cancelled s = true ∧ sc_closed s = negb shared ∧
  consumer_Close s = if shared then Ok s else Panic "close of closed channel".
Proof. destruct shared; by intros [= <-]. Qed.
