(* ===== verification/RaftTransport.v ===== *)
(** * The Raft transport

    Models src/mq/raft_transport.go: the calls that Raft makes to other nodes, as gRPC calls on pooled connections, and
    the handlers that pass the calls of other nodes to Raft.  The types of the Raft library and of raft_rpc.proto are
    records; what the library, gRPC, the pool, the reader of a snapshot and the clock answer are the answers of calls. *)
From stdpp Require pretty.
From S2P Require Import Prelude Bytes Interaction.

(** ** Data

    A slice of bytes that may be nil is an option. *)

Record raft_Log : Type := { rl_Index : Z; rl_Term : Z; rl_Type : Z; rl_Data : list Z }.

Record raft_AppendEntriesRequest : Type := {
  ra_ProtocolVersion : Z; (* of [RPCHeader] *)
  ra_Term : Z;
  ra_Leader : option (list Z);
  ra_PrevLogEntry : Z;
  ra_PrevLogTerm : Z;
  ra_Entries : list raft_Log;
  ra_LeaderCommitIndex : Z;
}.

Record raft_AppendEntriesResponse : Type := { rar_Term : Z; rar_LastLog : Z; rar_Success : bool; rar_NoRetryBackoff : bool }.

Record raft_RequestVoteRequest : Type := {
  rv_ProtocolVersion : Z; rv_Term : Z; rv_Candidate : list Z; rv_LastLogIndex : Z; rv_LastLogTerm : Z }.

Record raft_RequestVoteResponse : Type := { rvr_Term : Z; rvr_Granted : bool }.

Record raft_InstallSnapshotRequest : Type := {
  ri_ProtocolVersion : Z; ri_Term : Z; ri_Leader : list Z; ri_LastLogIndex : Z; ri_LastLogTerm : Z;
  ri_Configuration : list Z; ri_ConfigurationIndex : Z; ri_Size : Z }.

Record raft_InstallSnapshotResponse : Type := { rir_Term : Z; rir_Success : bool }.

(** What is passed to Raft; a snapshot comes with the reader of its bytes. *)
Inductive raft_RPC : Type :=
| RPC_AppendEntries (command : raft_AppendEntriesRequest)
| RPC_RequestVote (command : raft_RequestVoteRequest)
| RPC_InstallSnapshot (command : raft_InstallSnapshotRequest).

(** [raft.RPCResponse]: the response is of any type. *)
Inductive raft_Response : Type :=
| Resp_nil
| Resp_AppendEntries (r : raft_AppendEntriesResponse)
| Resp_RequestVote (r : raft_RequestVoteResponse)
| Resp_InstallSnapshot (r : raft_InstallSnapshotResponse).

Record raft_RPCResponse : Type := { resp_Response : raft_Response; resp_Error : option go_error }.

(** [raft.ProtocolVersionMax] of the library. *)
Definition ProtocolVersionMax : Z := 3.

(** *** Messages of raft_rpc.proto *)

Record AppendEntriesRequest_Entry : Type := { ae_Index : Z; ae_Term : Z; ae_Type : Z; ae_Data : list Z }.

Record AppendEntriesRequest : Type := {
  ar_Term : Z;
  ar_Leader : option (list Z);
  ar_PrevLogEntry : Z;
  ar_PrevLogTerm : Z;
  ar_Entries : list AppendEntriesRequest_Entry;
  ar_LeaderCommitIndex : Z;
}.

Record AppendEntriesResponse : Type := { aresp_Term : Z; aresp_LastLog : Z; aresp_Success : bool; aresp_NoRetryBackoff : bool }.

Record RequestVoteRequest : Type := { vr_Term : Z; vr_Candidate : list Z; vr_LastLogIndex : Z; vr_LastLogTerm : Z }.

Record RequestVoteResponse : Type := { vresp_Term : Z; vresp_Granted : bool }.

Record InstallSnapshotRequest_Request : Type := {
  ir_Term : Z; ir_Leader : list Z; ir_LastLogIndex : Z; ir_LastLogTerm : Z;
  ir_Configuration : list Z; ir_ConfigurationIndex : Z; ir_Size : Z }.

Inductive InstallSnapshotRequest : Type :=
| Body_nil
| Body_Request (r : InstallSnapshotRequest_Request)
| Body_Data (data : list Z).

Record InstallSnapshotResponse : Type := { iresp_Term : Z; iresp_Success : bool }.

(** ** Conversions *)

(** [AppendEntriesRequest_Entry_Type] is an int32, so the conversion of a byte does not change it. *)
Definition to_entry (entry : raft_Log) : AppendEntriesRequest_Entry :=
  {| ae_Index := rl_Index entry; ae_Term := rl_Term entry; ae_Type := rl_Type entry; ae_Data := rl_Data entry |}.

Definition to_AppendEntriesRequest (request : raft_AppendEntriesRequest) : AppendEntriesRequest :=
  {| ar_Term := ra_Term request; ar_Leader := ra_Leader request; ar_PrevLogEntry := ra_PrevLogEntry request;
     ar_PrevLogTerm := ra_PrevLogTerm request; ar_Entries := to_entry <$> ra_Entries request;
     ar_LeaderCommitIndex := ra_LeaderCommitIndex request |}.

Definition from_AppendEntriesResponse (r : AppendEntriesResponse) : raft_AppendEntriesResponse :=
  {| rar_Term := aresp_Term r; rar_LastLog := aresp_LastLog r; rar_Success := aresp_Success r; rar_NoRetryBackoff := aresp_NoRetryBackoff r |}.

(** [raft.LogType] is a byte. *)
Definition from_entry (entry : AppendEntriesRequest_Entry) : raft_Log :=
  {| rl_Index := ae_Index entry; rl_Term := ae_Term entry; rl_Type := u8 (ae_Type entry); rl_Data := ae_Data entry |}.

Definition from_AppendEntriesRequest (request : AppendEntriesRequest) : raft_AppendEntriesRequest :=
  {| ra_ProtocolVersion := ProtocolVersionMax; ra_Term := ar_Term request; ra_Leader := ar_Leader request;
     ra_PrevLogEntry := ar_PrevLogEntry request; ra_PrevLogTerm := ar_PrevLogTerm request;
     ra_Entries := from_entry <$> ar_Entries request; ra_LeaderCommitIndex := ar_LeaderCommitIndex request |}.

Definition to_AppendEntriesResponse (r : raft_AppendEntriesResponse) : AppendEntriesResponse :=
  {| aresp_Term := rar_Term r; aresp_LastLog := rar_LastLog r; aresp_Success := rar_Success r; aresp_NoRetryBackoff := rar_NoRetryBackoff r |}.

Definition to_RequestVoteRequest (request : raft_RequestVoteRequest) : RequestVoteRequest :=
  {| vr_Term := rv_Term request; vr_Candidate := rv_Candidate request; vr_LastLogIndex := rv_LastLogIndex request;
     vr_LastLogTerm := rv_LastLogTerm request |}.

Definition from_RequestVoteRequest (request : RequestVoteRequest) : raft_RequestVoteRequest :=
  {| rv_ProtocolVersion := ProtocolVersionMax; rv_Term := vr_Term request; rv_Candidate := vr_Candidate request;
     rv_LastLogIndex := vr_LastLogIndex request; rv_LastLogTerm := vr_LastLogTerm request |}.

Definition to_InstallSnapshotRequest (request : raft_InstallSnapshotRequest) : InstallSnapshotRequest_Request :=
  {| ir_Term := ri_Term request; ir_Leader := ri_Leader request; ir_LastLogIndex := ri_LastLogIndex request;
     ir_LastLogTerm := ri_LastLogTerm request; ir_Configuration := ri_Configuration request;
     ir_ConfigurationIndex := ri_ConfigurationIndex request; ir_Size := ri_Size request |}.

Definition from_InstallSnapshotRequest (request : InstallSnapshotRequest_Request) : raft_InstallSnapshotRequest :=
  {| ri_ProtocolVersion := ProtocolVersionMax; ri_Term := ir_Term request; ri_Leader := ir_Leader request;
     ri_LastLogIndex := ir_LastLogIndex request; ri_LastLogTerm := ir_LastLogTerm request;
     ri_Configuration := ir_Configuration request; ri_ConfigurationIndex := ir_ConfigurationIndex request;
     ri_Size := ir_Size request |}.

(** ** Addresses *)

(** [strconv.Itoa] on a port. *)
Definition Itoa (n : Z) : string := pretty.pretty n.

(** [ip] is [t.advertiseIP.String()]. *)
Definition LocalAddr (ip : string) (port : Z) : string := ip +:+ ":" +:+ Itoa port.

Definition EncodePeer (id addr : string) : list Z := string_bytes (id +:+ "@" +:+ addr).

(** [bytes.IndexByte] *)
Fixpoint IndexByte (b : Z) (l : list Z) : Z :=
  match l with
  | [] => -1
  | x :: l => if x =? b then 0 else let i := IndexByte b l in if i <? 0 then -1 else i + 1
  end.

Definition DecodePeer (peer : list Z) : string :=
  let index := IndexByte 64 peer in bytes_string (drop (Z.to_nat (index + 1)) peer).

(** ** Calls of the client side *)

Inductive read_status : Type :=
| ReadMore
| ReadEOF
| ReadFailed (e : go_error).

Inductive rc_call : Type :=
| RGet (target : string) (* [pool.Get] *)
| RPut (conn : nat)
| RNow
| ROpenAppend (conn : nat) (* [client.DoAppendEntries] *)
| RSendAppend (m : AppendEntriesRequest)
| RRecvAppend
| RCloseSend
| RFuture (start : Z) (request : raft_AppendEntriesRequest) (response : raft_AppendEntriesResponse) (* [p.ch <- ...] *)
| RVote (conn : nat) (m : RequestVoteRequest)
| ROpenSnapshot (conn : nat)
| RSendSnapshot (m : InstallSnapshotRequest)
| RRead (n : Z) (* [data.Read(buf)], with the length of the buffer *)
| RCloseAndRecv.

Definition rc_answer (e : rc_call) : Type :=
  match e with
  | RGet _ => result go_error nat
  | RPut _ => option go_error
  | RNow => Z
  | ROpenAppend _ => option go_error
  | RSendAppend _ => option go_error
  | RRecvAppend => result go_error AppendEntriesResponse
  | RCloseSend => unit
  | RFuture _ _ _ => unit
  | RVote _ _ => result go_error RequestVoteResponse
  | ROpenSnapshot _ => option go_error
  | RSendSnapshot _ => option go_error
  | RRead _ => list Z * read_status
  | RCloseAndRecv => result go_error InstallSnapshotResponse
  end.

Abbreviation rc_prog := (prog rc_answer).

(** [defer f()] for a body that returns. *)
Definition deferred {A} (f : A → rc_prog unit) (p : rc_prog A) : rc_prog A := a ← p; _ ← f a; mret a.

Definition rc_defer (e : rc_call) {A} (_ : A) : rc_prog unit := _ ← perform e; mret ().

(** [defer func() { if err != nil { ... } }()] *)
Definition rc_defer_err (e : rc_call) {A} (r : result go_error A) : rc_prog unit :=
  match r with
  | Err _ => _ ← perform e; mret ()
  | _ => mret ()
  end.

(** ** Sending to other nodes *)

Section client.

(** The body of both functions that append entries: the request is sent and the response awaited. *)
Definition append_exchange (request : raft_AppendEntriesRequest) : rc_prog (result go_error raft_AppendEntriesResponse) :=
  err ← perform (RSendAppend (to_AppendEntriesRequest request));
  match err with
  | Some e => mret (Err e)
  | None =>
    rpcResponse ← perform RRecvAppend;
    mret (match rpcResponse : result go_error AppendEntriesResponse with
          | Ok r => Ok (from_AppendEntriesResponse r)
          | Err e => Err e
          | Panic msg => Panic msg
          end)
  end.

(** [RaftRPCTransport.AppendEntriesPipeline]: the connection of the pipeline. *)
Definition AppendEntriesPipeline (target : string) : rc_prog (result go_error nat) :=
  r ← perform (RGet target);
  match r : result go_error nat with
  | Err e => mret (Err e)
  | Panic msg => mret (Panic msg)
  | Ok conn =>
    deferred (rc_defer_err (RPut conn))
      (err ← perform (ROpenAppend conn);
       mret (match err : option go_error with Some e => Err e | None => Ok conn end))
  end.

(** [raftRPCTransportAppendPipeline.AppendEntries]; the future itself is returned as nil. *)
Definition pipeline_AppendEntries (request : raft_AppendEntriesRequest) : rc_prog (result go_error raft_AppendEntriesResponse) :=
  start ← perform RNow;
  r ← append_exchange request;
  match r with
  | Ok response => _ ← perform (RFuture start request response); mret (Ok response)
  | r => mret r
  end.

Definition pipeline_Close (conn : nat) : rc_prog (option go_error) :=
  _ ← perform RCloseSend; perform (RPut conn).

Definition AppendEntries (target : string) (request : raft_AppendEntriesRequest) : rc_prog (result go_error raft_AppendEntriesResponse) :=
  r ← perform (RGet target);
  match r : result go_error nat with
  | Err e => mret (Err e)
  | Panic msg => mret (Panic msg)
  | Ok conn =>
    deferred (rc_defer (RPut conn))
      (err ← perform (ROpenAppend conn);
       match err : option go_error with
       | Some e => mret (Err e)
       | None => deferred (rc_defer RCloseSend) (append_exchange request)
       end)
  end.

Definition RequestVote (target : string) (request : raft_RequestVoteRequest) : rc_prog (result go_error raft_RequestVoteResponse) :=
  r ← perform (RGet target);
  match r : result go_error nat with
  | Err e => mret (Err e)
  | Panic msg => mret (Panic msg)
  | Ok conn =>
    deferred (rc_defer (RPut conn))
      (rpcResponse ← perform (RVote conn (to_RequestVoteRequest request));
       mret (match rpcResponse : result go_error RequestVoteResponse with
             | Ok r => Ok {| rvr_Term := vresp_Term r; rvr_Granted := vresp_Granted r |}
             | Err e => Err e
             | Panic msg => Panic msg
             end))
  end.

Definition installSnapshotBufferSize : Z := 65536.

(** The loop that sends the bytes of a snapshot; [fuel] is the number of reads. *)
Fixpoint send_snapshot (fuel : nat) : rc_prog (result go_error unit) :=
  match fuel with
  | O => mret (Panic "out of fuel")
  | S fuel =>
    r ← perform (RRead installSnapshotBufferSize);
    let '(data, status) := r : list Z * read_status in
    match status with
    | ReadFailed e => mret (Err e)
    | _ =>
      err ← perform (RSendSnapshot (Body_Data data));
      match err : option go_error with
      | Some e => mret (Err e)
      | None => match status with ReadEOF => mret (Ok ()) | _ => send_snapshot fuel end
      end
    end
  end.

Definition InstallSnapshot (fuel : nat) (target : string) (request : raft_InstallSnapshotRequest) :
    rc_prog (result go_error raft_InstallSnapshotResponse) :=
  r ← perform (RGet target);
  match r : result go_error nat with
  | Err e => mret (Err e)
  | Panic msg => mret (Panic msg)
  | Ok conn =>
    deferred (rc_defer (RPut conn))
      (err ← perform (ROpenSnapshot conn);
       match err : option go_error with
       | Some e => mret (Err e)
       | None =>
         deferred (rc_defer_err RCloseSend)
           (err ← perform (RSendSnapshot (Body_Request (to_InstallSnapshotRequest request)));
            match err : option go_error with
            | Some e => mret (Err e)
            | None =>
              sent ← send_snapshot fuel;
              match sent with
              | Err e => mret (Err e)
              | Panic msg => mret (Panic msg)
              | Ok _ =>
                rpcResponse ← perform RCloseAndRecv;
                mret (match rpcResponse : result go_error InstallSnapshotResponse with
                      | Ok r => Ok {| rir_Term := iresp_Term r; rir_Success := iresp_Success r |}
                      | Err e => Err e
                      | Panic msg => Panic msg
                      end)
              end
            end)
       end)
  end.

End client.

(** ** Calls of the server side *)

Inductive rs_call : Type :=
| SRecvAppend
| SLoadHandler (* [t.heartbeatHandler], under the lock *)
| SHeartbeat (rpc : raft_RPC)
| SOffer (rpc : raft_RPC) (* [t.ch <- call] or the end of the context *)
| SForward (rpc : raft_RPC) (* [t.ch <- call] *)
| SAwait (* [<-responseC] or the end of the context *)
| SSendAppend (m : AppendEntriesResponse)
| SRecvSnapshot
| SPipeWrite (data : list Z)
| SPipeClose
| SPipeCloseWithError (e : go_error)
| SSendAndClose (m : InstallSnapshotResponse).

Definition rs_answer (e : rs_call) : Type :=
  match e with
  | SRecvAppend => result go_error AppendEntriesRequest
  | SLoadHandler => bool (* whether a handler is set *)
  | SHeartbeat _ => unit
  | SOffer _ => option go_error (* [ctx.Err()] *)
  | SForward _ => unit
  | SAwait => result go_error raft_RPCResponse
  | SSendAppend _ => option go_error
  | SRecvSnapshot => result go_error InstallSnapshotRequest
  | SPipeWrite _ => option go_error
  | SPipeClose => unit
  | SPipeCloseWithError _ => unit
  | SSendAndClose _ => option go_error
  end.

Abbreviation rs_prog := (prog rs_answer).

(** ** Receiving from other nodes *)

Definition isHeartbeat (request : AppendEntriesRequest) : bool :=
  negb (ar_Term request =? 0) && bool_decide (is_Some (ar_Leader request)) && (ar_PrevLogEntry request =? 0) &&
  (ar_PrevLogTerm request =? 0) && (length (ar_Entries request) =? 0)%nat && (ar_LeaderCommitIndex request =? 0).

(** From the request to Raft: by the handler of heartbeats if there is one, or by the channel. *)
Definition pass_request (request : AppendEntriesRequest) : rs_prog (option go_error) :=
  let call := RPC_AppendEntries (from_AppendEntriesRequest request) in
  if isHeartbeat request then
    handler ← perform SLoadHandler;
    if handler : bool then _ ← perform (SHeartbeat call); mret None else perform (SOffer call)
  else perform (SOffer call).

(** From the label [Response] to the end of the loop. *)
Definition send_response : rs_prog (result go_error unit) :=
  r ← perform SAwait;
  match r : result go_error raft_RPCResponse with
  | Err e => mret (Err e)
  | Panic msg => mret (Panic msg)
  | Ok responseOrError =>
    match resp_Error responseOrError with
    | Some e => mret (Err e)
    | None =>
      match resp_Response responseOrError with
      | Resp_AppendEntries response =>
        err ← perform (SSendAppend (to_AppendEntriesResponse response));
        mret (match err : option go_error with Some e => Err e | None => Ok () end)
      | _ => mret (Panic "interface conversion")
      end
    end
  end.

(** [fuel] is the number of requests that are received. *)
Fixpoint DoAppendEntries (fuel : nat) : rs_prog (result go_error unit) :=
  match fuel with
  | O => mret (Panic "out of fuel")
  | S fuel =>
    r ← perform SRecvAppend;
    match r : result go_error AppendEntriesRequest with
    | Err EOF => mret (Ok ())
    | Err e => mret (Err e)
    | Panic msg => mret (Panic msg)
    | Ok request =>
      done ← pass_request request;
      match done with
      | Some e => mret (Err e)
      | None =>
        sent ← send_response;
        match sent with
        | Ok _ => DoAppendEntries fuel
        | r => mret r
        end
      end
    end
  end.

Definition DoRequestVote (request : RequestVoteRequest) : rs_prog (result go_error RequestVoteResponse) :=
  _ ← perform (SForward (RPC_RequestVote (from_RequestVoteRequest request)));
  r ← perform SAwait;
  mret (match r : result go_error raft_RPCResponse with
        | Err e => Err e
        | Panic msg => Panic msg
        | Ok responseOrError =>
          match resp_Error responseOrError with
          | Some e => Err e
          | None =>
            match resp_Response responseOrError with
            | Resp_RequestVote response => Ok {| vresp_Term := rvr_Term response; vresp_Granted := rvr_Granted response |}
            | _ => Panic "interface conversion"
            end
          end
        end).

(** The loop that writes the bytes of a snapshot to the pipe. *)
Fixpoint pipe_snapshot (fuel : nat) : rs_prog (result go_error unit) :=
  match fuel with
  | O => mret (Panic "out of fuel")
  | S fuel =>
    r ← perform SRecvSnapshot;
    match r : result go_error InstallSnapshotRequest with
    | Err EOF => _ ← perform SPipeClose; mret (Ok ())
    | Err e => _ ← perform (SPipeCloseWithError e); mret (Err e)
    | Panic msg => mret (Panic msg)
    | Ok (Body_Data data) =>
      err ← perform (SPipeWrite data);
      match err : option go_error with
      | Some e => mret (Err e)
      | None => pipe_snapshot fuel
      end
    | Ok _ => let e := ErrNew "expected to receive data" in _ ← perform (SPipeCloseWithError e); mret (Err e)
    end
  end.

(** The response of Raft to a snapshot.  The end of the context is reported as [context.Canceled]; the error of
    [SendAndClose] is dropped. *)
Definition answer_snapshot : rs_prog (result go_error unit) :=
  r ← perform SAwait;
  match r : result go_error raft_RPCResponse with
  | Err _ => mret (Err (ErrNew "context canceled"))
  | Panic msg => mret (Panic msg)
  | Ok responseOrError =>
    match resp_Error responseOrError with
    | Some e => mret (Err e)
    | None =>
      match resp_Response responseOrError with
      | Resp_InstallSnapshot response =>
        _ ← perform (SSendAndClose {| iresp_Term := rir_Term response; iresp_Success := rir_Success response |});
        mret (Ok ())
      | _ => mret (Panic "interface conversion")
      end
    end
  end.

Definition DoInstallSnapshot (fuel : nat) : rs_prog (result go_error unit) :=
  r ← perform SRecvSnapshot;
  match r : result go_error InstallSnapshotRequest with
  | Err e => mret (Err e)
  | Panic msg => mret (Panic msg)
  | Ok (Body_Request request) =>
    _ ← perform (SForward (RPC_InstallSnapshot (from_InstallSnapshotRequest request)));
    piped ← pipe_snapshot fuel;
    match piped with
    | Ok _ => answer_snapshot
    | r => mret r
    end
  | Ok _ => mret (Err (ErrNew "expected to receive request first"))
  end.
