(* ===== verification/RaftTransportProps.v ===== *)
(** * The Raft transport: theorems

    Both ends of a stream are programs with their own logs.  What gRPC promises is a relation between the logs
    ([append_stream], [snapshot_stream]): messages arrive in order, without gaps and only once, but the stream may break
    anywhere.  The theorems are for every pair of logs that are so related, at every moment of both runs. *)
From S2P Require Import Prelude Bytes Interaction RaftTransport.

Abbreviation rc_log := (list (call rc_answer)).
Abbreviation rs_log := (list (call rs_answer)).

(** Walk along a run: the call that is awaited, or its answer. *)
Ltac trace_step H :=
  cbn [trace mbind prog_bind prog_bind_aux perform mret prog_ret] in H;
  lazymatch type of H with
  | (_ ∧ _) ∨ _ => let x := fresh "x" in let log := fresh "log" in destruct H as [[-> ->]|(x & log & -> & H)]
  | _ ∧ _ => destruct H as [-> ->]
  end.

Lemma fmap_prefix {A B} (f : A → B) l k : l `prefix_of` k → (f <$> l) `prefix_of` (f <$> k).
Proof. intros [m ->]. exists (f <$> m). by rewrite fmap_app. Qed.

(** ** What a log tells *)

Definition sent_request (c : call rc_answer) : option AppendEntriesRequest :=
  match c with existT (RSendAppend m) _ => Some m | _ => None end.
Definition received_response (c : call rc_answer) : option AppendEntriesResponse :=
  match c with existT RRecvAppend (Ok r) => Some r | _ => None end.
Definition future (c : call rc_answer) : option (raft_AppendEntriesRequest * raft_AppendEntriesResponse) :=
  match c with existT (RFuture _ request response) _ => Some (request, response) | _ => None end.

(** A call of the stream that fails. *)
Definition stream_failed (c : call rc_answer) : option unit :=
  match c with existT (RSendAppend _) (Some _) | existT RRecvAppend (Err _) | existT RRecvAppend (Panic _) => Some () | _ => None end.

Definition received_request (c : call rs_answer) : option AppendEntriesRequest :=
  match c with existT SRecvAppend (Ok m) => Some m | _ => None end.
Definition sent_response (c : call rs_answer) : option AppendEntriesResponse :=
  match c with existT (SSendAppend m) _ => Some m | _ => None end.

(** What Raft gets, and what it answers. *)
Definition passed (c : call rs_answer) : option raft_RPC :=
  match c with
  | existT (SHeartbeat rpc) _ | existT (SOffer rpc) None | existT (SForward rpc) _ => Some rpc
  | _ => None
  end.
Definition answered (c : call rs_answer) : option raft_AppendEntriesResponse :=
  match c with
  | existT SAwait (Ok {| resp_Response := Resp_AppendEntries r; resp_Error := None |}) => Some r
  | _ => None
  end.

(** A message as it is decoded: an empty slice is not on the wire. *)
Definition decoded (m : AppendEntriesRequest) : AppendEntriesRequest :=
  {| ar_Term := ar_Term m; ar_Leader := match ar_Leader m with Some [] => None | l => l end; ar_PrevLogEntry := ar_PrevLogEntry m;
     ar_PrevLogTerm := ar_PrevLogTerm m; ar_Entries := ar_Entries m; ar_LeaderCommitIndex := ar_LeaderCommitIndex m |}.

(** A stream of gRPC between the two logs. *)
Record append_stream (lc : rc_log) (ls : rs_log) : Prop := {
  as_requests : omap received_request ls `prefix_of` (decoded <$> omap sent_request lc);
  as_responses : omap received_response lc `prefix_of` omap sent_response ls;
}.

(** Raft's use of a pipeline: one request after the other, up to the first error. *)
Fixpoint pipeline_calls (requests : list raft_AppendEntriesRequest) : rc_prog bool :=
  match requests with
  | [] => mret true
  | request :: requests =>
    r ← pipeline_AppendEntries request;
    match r with Ok _ => pipeline_calls requests | _ => mret false end
  end.

(** ** One side at a time *)

Lemma client_sends requests : ∀ lc o, trace (pipeline_calls requests) lc o →
  omap sent_request lc `prefix_of` (to_AppendEntriesRequest <$> requests) ∧
  omap future lc `prefix_of` zip requests (from_AppendEntriesResponse <$> omap received_response lc) ∧
  (o = Some true → length (omap future lc) = length requests) ∧ (o = Some false → omap stream_failed lc ≠ []).
Proof.
  induction requests as [|request requests IH]; intros lc o H; cbn [pipeline_calls] in H; [by trace_step H; split_and!; [apply prefix_nil..|done|done]|].
  unfold pipeline_AppendEntries, append_exchange in H.
  trace_step H; [by split_and!; [apply prefix_nil..|done|done]|]. trace_step H; [by split_and!; [apply prefix_nil..|done|done]|].
  destruct x0 as [e|]; [by trace_step H; split_and!; [by apply prefix_cons, prefix_nil|apply prefix_nil|done|done]|].
  trace_step H; [by split_and!; [by apply prefix_cons, prefix_nil|apply prefix_nil|done|done]|].
  destruct x0 as [r|e|msg]; [|by trace_step H; split_and!; [by apply prefix_cons, prefix_nil|apply prefix_nil|done|done]..].
  trace_step H; [by split_and!; [by apply prefix_cons, prefix_nil|apply prefix_nil|done|done]|].
  destruct (IH _ _ H) as (H1 & H2 & H3 & H4). cbn. split_and!; [by apply prefix_cons..| |done]. intros Ho. by rewrite H3.
Qed.

Lemma pass_request_passes request log o : trace (pass_request request) log o →
  omap received_request log = [] ∧ omap answered log = [] ∧ omap sent_response log = [] ∧
  omap passed log = match o with Some None => [RPC_AppendEntries (from_AppendEntriesRequest request)] | _ => [] end.
Proof.
  unfold pass_request. intros H. destruct (isHeartbeat request).
  - trace_step H; [done|]. destruct x; [do 2 (trace_step H; try done)|]. trace_step H; [done|]. trace_step H. by destruct x.
  - trace_step H; [done|]. trace_step H. by destruct x.
Qed.

Lemma send_response_sends log o : trace send_response log o →
  omap received_request log = [] ∧ omap passed log = [] ∧
  omap sent_response log `prefix_of` (to_AppendEntriesResponse <$> omap answered log) ∧ (length (omap answered log) ≤ 1)%nat ∧
  (∀ u, o = Some (Ok u) → length (omap sent_response log) = 1%nat).
Proof.
  unfold send_response. intros H. trace_step H; [by split_and!; [..|apply prefix_nil|cbn; lia|]|].
  destruct x as [[response err]|e|msg]; cbn in H; [|by trace_step H; split_and!; [..|apply prefix_nil|cbn; lia|]..].
  destruct err as [e|]; [by trace_step H; split_and!; [..|apply prefix_nil|cbn; destruct response; cbn; lia|]|].
  destruct response as [|r|r|r]; [by trace_step H; split_and!; [..|apply prefix_nil|cbn; lia|]| |by trace_step H; split_and!; [..|apply prefix_nil|cbn; lia|]..].
  trace_step H; [by split_and!; [..|apply prefix_nil|cbn; lia|]|]. trace_step H. by split_and!; [..|cbn; lia|].
Qed.

Lemma server_passes fuel : ∀ ls o, trace (DoAppendEntries fuel) ls o →
  omap passed ls `prefix_of` (RPC_AppendEntries ∘ from_AppendEntriesRequest <$> omap received_request ls) ∧
  omap sent_response ls `prefix_of` (to_AppendEntriesResponse <$> omap answered ls) ∧
  (length (omap answered ls) ≤ length (omap passed ls))%nat.
Proof.
  induction fuel as [|fuel IH]; intros ls o H; cbn [DoAppendEntries] in H; [by trace_step H; split_and!; [apply prefix_nil..|]|].
  trace_step H; [by split_and!; [apply prefix_nil..|]|].
  destruct x as [request|e|msg]; [|destruct e; trace_step H; by split_and!; [apply prefix_nil..|]|trace_step H; by split_and!; [apply prefix_nil..|]].
  apply trace_bind in H as [[H ->]|(log1 & done & log2 & -> & H1 & H2)].
  - apply pass_request_passes in H as (E1 & E2 & E3 & E4). cbn. rewrite E1, E2, E3, E4. cbn. by split_and!; [apply prefix_nil..|].
  - apply pass_request_passes in H1 as (E1 & E2 & E3 & E4). cbn [omap list_omap received_request passed sent_response answered]. rewrite !omap_app, E1, E2, E3, E4.
    destruct done as [e|]; [trace_step H2; by split_and!; [apply prefix_nil..|]|].
    apply trace_bind in H2 as [[H ->]|(log3 & sent & log4 & -> & H3 & H4)].
    + apply send_response_sends in H as (F1 & F2 & F3 & F4 & _). cbn. rewrite F1, F2. split_and!; [done|done|cbn; lia].
    + apply send_response_sends in H3 as (F1 & F2 & F3 & F4 & F5). rewrite !omap_app, F1, F2. cbn [app fmap list_fmap length].
      destruct sent as [[]|e|msg]; [|trace_step H4; rewrite ?app_nil_r; cbn; split_and!; [done|done|cbn; lia]..].
      specialize (F5 () eq_refl). destruct (IH _ _ H4) as (I1 & I2 & I3).
      destruct (omap sent_response log3) as [|m [|]]; [done| |done].
      destruct (omap answered log3) as [|a [|]]; [by destruct F3 as [? [=]]| |cbn in F4; lia].
      cbn in F3. destruct F3 as [? [= <- _]]. cbn. split_and!; [by apply prefix_cons..|lia].
Qed.

(** ** Both sides *)

(** A request as it arrives at the Raft of the other node. *)
Definition arrives (request : raft_AppendEntriesRequest) : raft_AppendEntriesRequest :=
  from_AppendEntriesRequest (decoded (to_AppendEntriesRequest request)).

(** The fields that Raft sets: types of entries are bytes, and the leader has a name. *)
Record request_ok (request : raft_AppendEntriesRequest) : Prop := {
  rok_version : ra_ProtocolVersion request = ProtocolVersionMax;
  rok_leader : ra_Leader request ≠ Some [];
  rok_types : Forall (λ entry, 0 ≤ rl_Type entry < 256) (ra_Entries request);
}.

Lemma arrives_ok request : request_ok request → arrives request = request.
Proof.
  intros [Hv Hl Ht]. destruct request as [v t l pe pt es ci]. unfold arrives, from_AppendEntriesRequest, to_AppendEntriesRequest, decoded. cbn in *. f_equal; [done|by destruct l as [[]|]|].
  rewrite <- list_fmap_compose. (induction Ht as [|[i t' ty d] es Hty Ht IH]; [done|]; cbn in *; f_equal; [unfold from_entry; cbn; f_equal; by apply Z.mod_small|done]).
Qed.

Lemma response_roundtrip r : from_AppendEntriesResponse (to_AppendEntriesResponse r) = r.
Proof. by destruct r. Qed.

(** (C33) On a pipeline of append requests, whatever breaks and whenever one looks: Raft of the other node gets the requests
    in order, each at most once, and a response that is delivered to the sender is what Raft answered to that request.  When all calls of the
    sender have succeeded, Raft there got all the requests and a response was delivered for each; a call fails only when the stream does.
    The requests are those that Raft makes: of the latest protocol version, with a leader that is nil or not empty, and entry types of one byte. *)
Theorem append_entries_exact requests fuel lc oc ls os :
  trace (pipeline_calls requests) lc oc → trace (DoAppendEntries fuel) ls os → append_stream lc ls → Forall request_ok requests →
  omap passed ls `prefix_of` (RPC_AppendEntries <$> requests) ∧
  (∀ i request response, omap future lc !! i = Some (request, response) →
    requests !! i = Some request ∧ omap passed ls !! i = Some (RPC_AppendEntries request) ∧ omap answered ls !! i = Some response) ∧
  (oc = Some true → omap passed ls = RPC_AppendEntries <$> requests ∧ length (omap future lc) = length requests) ∧
  (oc = Some false → omap stream_failed lc ≠ []).
Proof.
  intros Hc Hs [Hq Hr] Hok. apply client_sends in Hc as (Hc1 & Hc2 & Hc3 & Hc4). apply server_passes in Hs as (Hs1 & Hs2 & Hs3).
  assert (omap passed ls `prefix_of` (RPC_AppendEntries <$> requests)) as Hp.
  { etrans; [exact Hs1|]. etrans; [exact (fmap_prefix _ _ _ Hq)|]. etrans; [exact (fmap_prefix _ _ _ (fmap_prefix _ _ _ Hc1))|].
    rewrite <- !list_fmap_compose. rewrite (list_fmap_ext _ RPC_AppendEntries requests); [done|].
    intros i request Hi. cbn. f_equal. apply arrives_ok. by eapply Forall_lookup. }
  assert (∀ i request response, omap future lc !! i = Some (request, response) →
    requests !! i = Some request ∧ omap passed ls !! i = Some (RPC_AppendEntries request) ∧ omap answered ls !! i = Some response) as Hfut.
  { intros i request response Hf. eapply prefix_lookup_Some in Hf; [|exact Hc2].
    apply lookup_zip_Some in Hf as [Hi Hresp]. split; [done|]. apply list_lookup_fmap_Some in Hresp as (r & -> & Hresp).
    eapply prefix_lookup_Some in Hresp; [|exact Hr]. eapply prefix_lookup_Some in Hresp; [|exact Hs2].
    apply list_lookup_fmap_Some in Hresp as (a & -> & Ha). rewrite response_roundtrip. split; [|done].
    apply lookup_lt_Some in Ha as Hlt. destruct (lookup_lt_is_Some_2 (omap passed ls) i) as [rpc Hrpc]; [lia|].
    rewrite Hrpc. eapply prefix_lookup_Some in Hrpc; [|exact Hp]. rewrite list_lookup_fmap, Hi in Hrpc. done. }
  split_and!; [done|done| |done]. intros Ho. specialize (Hc3 Ho). split; [|done]. apply prefix_length_eq; [done|]. rewrite length_fmap, <- Hc3.
  destruct (omap future lc) as [|f l] eqn:E; [cbn; lia|]. destruct (lookup_lt_is_Some_2 (f :: l) (length l)) as [[request response] Hf]; [cbn; lia|].
  destruct (Hfut _ _ _ Hf) as (_ & Hl%lookup_lt_Some & _). cbn. lia.
Qed.

(** ** Snapshots *)

Definition sent_snapshot (c : call rc_answer) : option InstallSnapshotRequest :=
  match c with existT (RSendSnapshot m) _ => Some m | _ => None end.

(** The bytes of a read; those that come with an error are not sent. *)
Definition read_data (c : call rc_answer) : option (list Z) :=
  match c with
  | existT (RRead _) (_, ReadFailed _) => None
  | existT (RRead _) (data, _) => Some data
  | _ => None
  end.

Definition received_reply (c : call rc_answer) : option InstallSnapshotResponse :=
  match c with existT RCloseAndRecv (Ok r) => Some r | _ => None end.

Definition received_snapshot (c : call rs_answer) : option InstallSnapshotRequest :=
  match c with existT SRecvSnapshot (Ok m) => Some m | _ => None end.

Definition input_end (c : call rs_answer) : option unit :=
  match c with existT SRecvSnapshot (Err EOF) => Some () | _ => None end.

(** What Raft reads: the bytes in the pipe, and its end without an error. *)
Definition written (c : call rs_answer) : option (list Z) :=
  match c with existT (SPipeWrite data) _ => Some data | _ => None end.
Definition pipe_closed (c : call rs_answer) : option unit :=
  match c with existT SPipeClose _ => Some () | _ => None end.

Definition installed (c : call rs_answer) : option InstallSnapshotResponse :=
  match c with
  | existT SAwait (Ok {| resp_Response := Resp_InstallSnapshot r; resp_Error := None |}) =>
    Some {| iresp_Term := rir_Term r; iresp_Success := rir_Success r |}
  | _ => None
  end.
Definition replied (c : call rs_answer) : option InstallSnapshotResponse :=
  match c with existT (SSendAndClose m) _ => Some m | _ => None end.

(** The end of the input comes after all that was sent, and a response that is received was sent. *)
Record snapshot_stream (lc : rc_log) (ls : rs_log) : Prop := {
  ss_requests : omap received_snapshot ls `prefix_of` omap sent_snapshot lc;
  ss_end : omap input_end ls ≠ [] → omap received_snapshot ls = omap sent_snapshot lc;
  ss_response : omap received_reply lc `prefix_of` omap replied ls;
}.

Lemma send_snapshot_sends fuel : ∀ log o, trace (send_snapshot fuel) log o →
  omap sent_snapshot log `prefix_of` (Body_Data <$> omap read_data log) ∧ omap received_reply log = [] ∧
  (∀ u, o = Some (Ok u) → omap sent_snapshot log = Body_Data <$> omap read_data log).
Proof.
  induction fuel as [|fuel IH]; intros log o H; cbn [send_snapshot] in H; [trace_step H; by split_and!; [apply prefix_nil|..]|].
  trace_step H; [by split_and!; [apply prefix_nil|..]|]. destruct x as [data status].
  destruct status as [| |e]; [| |trace_step H; by split_and!; [apply prefix_nil|..]];
    (trace_step H; [by split_and!; [apply prefix_nil|..]|]);
    (destruct x as [e|]; [trace_step H; by split_and!; [apply prefix_cons, prefix_nil|..]|]).
  - destruct (IH _ _ H) as (H1 & H2 & H3). split_and!; [by apply prefix_cons|done|]. intros u Hu. cbn. f_equal. by apply (H3 u).
  - trace_step H. done.
Qed.

Lemma pipe_snapshot_pipes fuel : ∀ log o, trace (pipe_snapshot fuel) log o →
  omap passed log = [] ∧ omap replied log = [] ∧ omap installed log = [] ∧
  (Body_Data <$> omap written log) `prefix_of` omap received_snapshot log ∧
  (∀ u, o = Some (Ok u) →
     Body_Data <$> omap written log = omap received_snapshot log ∧ omap input_end log = [()] ∧ omap pipe_closed log = [()]).
Proof.
  induction fuel as [|fuel IH]; intros log o H; cbn [pipe_snapshot] in H; [trace_step H; by split_and!; [..|apply prefix_nil|]|].
  trace_step H; [by split_and!; [..|apply prefix_nil|]|].
  destruct x as [[|r|data]|e|msg].
  1,2: (trace_step H; [|trace_step H]); by split_and!; [..|apply prefix_nil|].
  - trace_step H; [by split_and!; [..|apply prefix_nil|]|]. destruct x as [e|]; [by trace_step H|].
    destruct (IH _ _ H) as (H1 & H2 & H2' & H3 & H4). cbn [omap list_omap passed replied installed input_end pipe_closed received_snapshot written].
    split_and!; [done..|by apply prefix_cons|]. intros u Hu. destruct (H4 u Hu) as (E & E1 & E2). cbn [fmap list_fmap]. by rewrite E.
  - destruct e; (trace_step H; [|trace_step H]); by split_and!; [..|apply prefix_nil|].
  - trace_step H. by split_and!; [..|apply prefix_nil|].
Qed.

Lemma answer_snapshot_answers log o : trace answer_snapshot log o →
  omap passed log = [] ∧ omap written log = [] ∧ omap received_snapshot log = [] ∧ omap input_end log = [] ∧
  omap replied log `prefix_of` omap installed log.
Proof.
  unfold answer_snapshot. intros H. trace_step H; [by split_and!; [..|apply prefix_nil]|].
  destruct x as [[response [e|]]|e|msg]; cbn in H; [| |by trace_step H; split_and!; [..|apply prefix_nil]..];
    [trace_step H; by split_and!; [..|apply prefix_nil]|].
  destruct response as [|r|r|r]; [by trace_step H; split_and!; [..|apply prefix_nil]..|].
  trace_step H; [by split_and!; [..|apply prefix_nil]|]. by trace_step H.
Qed.

(** What the receiving side of a snapshot does. *)
Lemma DoInstallSnapshot_pipes fuel ls os : trace (DoInstallSnapshot fuel) ls os →
  (omap passed ls = [] ∧ omap written ls = [] ∧ omap replied ls = []) ∨
  ∃ request rest, omap received_snapshot ls = Body_Request request :: rest ∧
    omap passed ls = [RPC_InstallSnapshot (from_InstallSnapshotRequest request)] ∧
    (Body_Data <$> omap written ls) `prefix_of` rest ∧
    omap replied ls `prefix_of` omap installed ls ∧
    (omap replied ls ≠ [] → Body_Data <$> omap written ls = rest ∧ omap input_end ls ≠ [] ∧ omap pipe_closed ls ≠ []).
Proof.
  unfold DoInstallSnapshot. intros H. trace_step H; [by left|].
  destruct x as [[|request|data]|e|msg]; [by trace_step H; left| |by trace_step H; left..].
  trace_step H; [by left|]. right. exists request. apply trace_bind in H as [[H ->]|(log1 & piped & log2 & -> & H1 & H2)].
  - apply pipe_snapshot_pipes in H as (E1 & E2 & _ & E3 & _). eexists. split; [done|]. cbn. rewrite E1, E2. split_and!; [done..|apply prefix_nil|done].
  - apply pipe_snapshot_pipes in H1 as (E1 & E2 & E0 & E3 & E4). exists (omap received_snapshot (log1 ++ log2)). split; [done|].
    cbn [omap list_omap passed written replied installed input_end pipe_closed]. rewrite !omap_app, E1, E2, E0.
    destruct piped as [[]|e|msg]; [|trace_step H2; cbn; rewrite !app_nil_r; split_and!; [done..|apply prefix_nil|done]..].
    destruct (E4 () eq_refl) as (E5 & E6 & E7). apply answer_snapshot_answers in H2 as (F1 & F2 & F3 & F4 & F5).
    rewrite F1, F2, F3, F4, E6, E7, !app_nil_r, E5. by split_and!.
Qed.

(** A deferred call comes after all others and does not change the result. *)
Lemma deferred_trace e {A} (f : A → rc_prog unit) (p : rc_prog A) log o :
  (∀ a, f a = rc_defer e a ∨ f a = mret ()) → trace (deferred f p) log o →
  ∃ log1 log2 o1, log = log1 ++ log2 ∧ trace p log1 o1 ∧ (∀ a, o = Some a → o1 = Some a) ∧ (log2 = [] ∨ ∃ x, log2 = [existT e x]).
Proof.
  intros Hf [[H ->]|(log1 & a & log2 & -> & H1 & H2)]%trace_bind; [by exists log, [], None; rewrite app_nil_r; split_and!; [..|left]|].
  exists log1, log2, (Some a). split_and!; [done|done|..]; destruct (Hf a) as [E|E]; rewrite E in H2; unfold rc_defer in H2; trace_step H2; try trace_step H2;
    first [by intros ? [= ->]|by left|right; by eexists|done].
Qed.

Lemma rc_defer_err_cases e {A} (r : result go_error A) : rc_defer_err e r = rc_defer e r ∨ rc_defer_err e r = mret ().
Proof. destruct r; [by right|by left|by right]. Qed.

(** What the sending side of a snapshot does. *)
Lemma InstallSnapshot_sends fuel target request lc oc : trace (InstallSnapshot fuel target request) lc oc →
  omap sent_snapshot lc `prefix_of` (Body_Request (to_InstallSnapshotRequest request) :: (Body_Data <$> omap read_data lc)) ∧
  ∀ response, oc = Some (Ok response) →
    omap sent_snapshot lc = Body_Request (to_InstallSnapshotRequest request) :: (Body_Data <$> omap read_data lc) ∧
    omap received_reply lc = [{| iresp_Term := rir_Term response; iresp_Success := rir_Success response |}].
Proof.
  unfold InstallSnapshot. intros H. trace_step H; [by split; [apply prefix_nil|]|].
  destruct x as [conn|e|msg]; [|by trace_step H; split; [apply prefix_nil|]..].
  apply (deferred_trace (RPut conn)) in H as (log1 & log2 & o1 & -> & H & Ho & Hl2); [|by left].
  assert (omap sent_snapshot log2 = [] ∧ omap read_data log2 = [] ∧ omap received_reply log2 = []) as (E1 & E2 & E3) by (by destruct Hl2 as [->|[x ->]]).
  cbn [omap list_omap sent_snapshot read_data received_reply]. rewrite !omap_app, E1, E2, E3, !app_nil_r.
  trace_step H; [by split; [apply prefix_nil|]; intros r [=]%Ho|].
  destruct x as [e|]; [trace_step H; by split; [apply prefix_nil|]; intros r [=]%Ho|].
  apply (deferred_trace RCloseSend) in H as (log3 & log4 & o3 & -> & H & Ho3 & Hl4); [|intros r; apply rc_defer_err_cases].
  assert (omap sent_snapshot log4 = [] ∧ omap read_data log4 = [] ∧ omap received_reply log4 = []) as (F1 & F2 & F3) by (by destruct Hl4 as [->|[x ->]]).
  cbn [omap list_omap sent_snapshot read_data received_reply]. rewrite !omap_app, F1, F2, F3, !app_nil_r.
  assert (∀ r, oc = Some r → o3 = Some r) as Hr by (intros r Hr; by apply Ho3, Ho). clear Ho Ho3 Hl2 Hl4 E1 E2 E3 F1 F2 F3.
  trace_step H; [by split; [apply prefix_nil|]; intros r [=]%Hr|].
  destruct x as [e|]; [trace_step H; by split; [apply prefix_cons, prefix_nil|]; intros r [=]%Hr|].
  apply trace_bind in H as [[H ->]|(log1' & sent & log2' & -> & H1 & H2)].
  - apply send_snapshot_sends in H as (H1 & _ & _). split; [by apply prefix_cons|]. by intros r [=]%Hr.
  - apply send_snapshot_sends in H1 as (H1 & H1' & H3). cbn [omap list_omap sent_snapshot read_data received_reply]. rewrite !omap_app, H1'.
    destruct sent as [[]|e|msg]; [|trace_step H2; rewrite !app_nil_r; split; [by apply prefix_cons|]; by intros r [=]%Hr..].
    specialize (H3 () eq_refl). trace_step H2; [cbn; rewrite !app_nil_r, H3; by split; [|intros r [=]%Hr]|]. trace_step H2. rewrite H3. cbn.
    rewrite !app_nil_r. split; [done|]. intros response Hresp%Hr. destruct x as [r| |]; [|done..]. injection Hresp as <-. by destruct r.
Qed.

(** (C34) A snapshot that is sent to another node: whatever breaks and whenever one looks, Raft there is given the request that
    was sent, and the bytes it can read are a prefix of those read from the snapshot; when the sender gets a response,
    they are all the bytes, the end was signalled, and it is the response of Raft. *)
Theorem install_snapshot_exact fuel target request lc oc fuel' ls os :
  trace (InstallSnapshot fuel target request) lc oc → trace (DoInstallSnapshot fuel') ls os → snapshot_stream lc ls →
  ri_ProtocolVersion request = ProtocolVersionMax →
  omap passed ls `prefix_of` [RPC_InstallSnapshot request] ∧
  omap written ls `prefix_of` omap read_data lc ∧
  ∀ response, oc = Some (Ok response) →
    omap written ls = omap read_data lc ∧ omap pipe_closed ls ≠ [] ∧
    {| iresp_Term := rir_Term response; iresp_Success := rir_Success response |} ∈ omap installed ls.
Proof.
  intros Hc Hs [Hq Hend Hr] Hv. apply InstallSnapshot_sends in Hc as [Hc1 Hc2].
  apply DoInstallSnapshot_pipes in Hs as [(E1 & E2 & E3)|(request' & rest & E1 & E2 & E3 & E4 & E5)].
  - rewrite E1, E2. split_and!; [apply prefix_nil..|]. intros response [_ Hrep]%Hc2. rewrite Hrep, E3 in Hr. by apply prefix_nil_not in Hr.
  - rewrite E1 in Hq. assert (Body_Request request' :: rest `prefix_of` Body_Request (to_InstallSnapshotRequest request) :: (Body_Data <$> omap read_data lc)) as Hp by (by etrans).
    apply prefix_cons_inv_1 in Hp as Heq. apply prefix_cons_inv_2 in Hp. injection Heq as ->.
    assert (omap written ls `prefix_of` omap read_data lc) as Hw.
    { assert ((Body_Data <$> omap written ls) `prefix_of` (Body_Data <$> omap read_data lc)) as [k Hk] by (by etrans).
      apply (fmap_app_inv Body_Data) in Hk as (k1 & k2 & Hk1 & _ & ->). exists k2. f_equal.
      apply (list_fmap_eq_inj Body_Data); [by intros ?? [=]|done]. }
    split_and!; [rewrite E2; destruct request as []; cbn in Hv; subst; done|done|].
    intros response Hresp. destruct (Hc2 response Hresp) as [Hsent Hrep]. rewrite Hrep in Hr.
    assert (omap replied ls ≠ []) as Hne by (intros E; rewrite E in Hr; by apply prefix_nil_not in Hr).
    destruct (E5 Hne) as (E6 & E7 & E8). split_and!; [|done|].
    + apply (list_fmap_eq_inj Body_Data); [by intros ?? [=]|]. rewrite E6. apply Hend in E7. rewrite E1, Hsent in E7. by injection E7.
    + destruct (E4) as [k ->]. destruct Hr as [k' ->]. by left.
Qed.

(** The reader of the snapshot fails after the first bytes: the sender closes its side, and what Raft on the other node reads
    ends as if it were complete.  Only the size in the request tells the difference. *)
Lemma truncated_snapshot_ends_cleanly target request (conn : nat) (data : list Z) (e : go_error) :
  ∃ lc ls os, trace (InstallSnapshot 2 target request) lc (Some (Err e)) ∧ trace (DoInstallSnapshot 2) ls os ∧ snapshot_stream lc ls ∧
    omap written ls = [data] ∧ omap pipe_closed ls = [()].
Proof.
  set (m := Body_Request (to_InstallSnapshotRequest request)).
  exists [existT (RGet target) (Ok conn); existT (ROpenSnapshot conn) None; existT (RSendSnapshot m) None;
     existT (RRead installSnapshotBufferSize) (data, ReadMore); existT (RSendSnapshot (Body_Data data)) None;
     existT (RRead installSnapshotBufferSize) ([], ReadFailed e); existT RCloseSend (); existT (RPut conn) None].
  exists [existT SRecvSnapshot (Ok m); existT (SForward (RPC_InstallSnapshot (from_InstallSnapshotRequest (to_InstallSnapshotRequest request)))) ();
     existT SRecvSnapshot (Ok (Body_Data data)); existT (SPipeWrite data) None; existT SRecvSnapshot (Err EOF); existT SPipeClose ()].
  exists None. split_and!; [repeat (right; eexists _, _; split; [done|]; cbn); done| |by split|done..].
  do 6 (right; eexists _, _; split; [done|]; cbn). by left.
Qed.

(** ** Connections *)

Definition taken (c : call rc_answer) : option nat := match c with existT (RGet _) (Ok conn) => Some conn | _ => None end.
Definition given_back (c : call rc_answer) : option nat := match c with existT (RPut conn) _ => Some conn | _ => None end.

(** A program that leaves the pool alone. *)
Definition no_pool {A} (p : rc_prog A) : Prop := always p (λ log _, omap taken log = [] ∧ omap given_back log = []).

Lemma no_pool_bind {A B} (p : rc_prog A) (f : A → rc_prog B) : no_pool p → (∀ a, no_pool (f a)) → no_pool (p ≫= f).
Proof.
  intros Hp Hf. apply always_bind. eapply always_mono; [|exact Hp]. intros log a [H1 H2]. eapply always_mono; [|apply Hf].
  intros log' b [H3 H4]. by rewrite !omap_app, H1, H2, H3, H4.
Qed.

Lemma no_pool_send fuel : no_pool (send_snapshot fuel).
Proof.
  induction fuel as [|fuel IH]; [done|]. apply (no_pool_bind (perform _)); [done|]. intros [data [| |e]]; [..|done];
    apply (no_pool_bind (perform _)); [done| |done|]; by intros [e|].
Qed.

Lemma deferred_put {A} conn (p : rc_prog A) : no_pool p →
  always (deferred (rc_defer (RPut conn)) p) (λ log _, omap taken log = [] ∧ omap given_back log = [conn]).
Proof.
  intros Hp. apply always_bind. eapply always_mono; [|exact Hp]. intros log a [H1 H2] x. cbn [always prog_bind_aux mbind prog_bind mret prog_ret]. by rewrite !omap_app, H1, H2.
Qed.

(** A connection is taken, used and given back. *)
Lemma with_connection {A} target (p : nat → rc_prog (result go_error A)) : (∀ conn, no_pool (p conn)) →
  always (r ← perform (RGet target);
          match r : result go_error nat with
          | Err e => mret (Err e)
          | Panic msg => mret (Panic msg)
          | Ok conn => deferred (rc_defer (RPut conn)) (p conn)
          end) (λ log _, omap taken log = omap given_back log).
Proof.
  intros Hp [conn|e|msg]; [|done..]. eapply always_mono; [|apply deferred_put, Hp]. cbn. by intros log a [-> ->].
Qed.

(** Every connection that the Raft transport takes from the pool is given back once, on every path; that of a pipeline when
    the pipeline is closed. *)
Theorem raft_connections_returned target request vote snapshot fuel :
  always (AppendEntries target request) (λ log _, omap taken log = omap given_back log) ∧
  always (RequestVote target vote) (λ log _, omap taken log = omap given_back log) ∧
  always (InstallSnapshot fuel target snapshot) (λ log _, omap taken log = omap given_back log) ∧
  always (pipeline ← AppendEntriesPipeline target;
          match pipeline with
          | Ok conn => _ ← pipeline_AppendEntries request; _ ← pipeline_Close conn; mret ()
          | _ => mret ()
          end) (λ log _, omap taken log = omap given_back log).
Proof.
  assert (no_pool (append_exchange request)) as Hx by (intros [e|]; [done|]; by intros []).
  split_and!.
  - apply with_connection. intros conn. apply (no_pool_bind (perform _)); [done|]. intros [e|]; [done|].
    apply no_pool_bind; [done|]. by intros r [].
  - apply with_connection. intros conn. by intros [].
  - apply with_connection. intros conn. apply (no_pool_bind (perform _)); [done|]. intros [e|]; [done|].
    apply no_pool_bind; [|intros [| |]; done].
    apply (no_pool_bind (perform _)); [done|]. intros [e|]; [done|]. apply no_pool_bind; [apply no_pool_send|]. by intros [[]| |]; [intros []|..].
  - intros [conn|e|msg]; [|done..]. intros [e|]; [done|]. cbn. intros start [e|]; cbn; [done|]. intros [r|e|msg]; cbn; done.
Qed.

(** ** Peers *)

Lemma IndexByte_app b l k : b ∉ l → IndexByte b (l ++ b :: k) = Z.of_nat (length l).
Proof.
  induction l as [|x l IH]; intros Hb; cbn [app IndexByte length]; [by rewrite Z.eqb_refl|]. apply not_elem_of_cons in Hb as [Hx Hb].
  destruct (Z.eqb_spec x b); [congruence|]. rewrite IH by done. destruct (Z.ltb_spec (Z.of_nat (length l)) 0); lia.
Qed.

Lemma string_bytes_app s s' : string_bytes (s +:+ s') = string_bytes s ++ string_bytes s'.
Proof. unfold string_bytes. rewrite <- fmap_app. f_equal. induction s as [|c s IH]; [done|]. change (String c s +:+ s') with (String c (s +:+ s')). cbn. by rewrite IH. Qed.

(** The address of a peer is read back when the name of the node has no at sign. *)
Lemma DecodePeer_EncodePeer id addr : 64 ∉ string_bytes id → DecodePeer (EncodePeer id addr) = addr.
Proof.
  intros Hid. unfold DecodePeer, EncodePeer. rewrite !string_bytes_app. change (string_bytes "@") with [64]. cbn [app].
  rewrite IndexByte_app by done. rewrite Z.add_1_r, <- Nat2Z.inj_succ, Nat2Z.id.
  replace (drop (S (length (string_bytes id))) (string_bytes id ++ 64 :: string_bytes addr)) with (string_bytes addr); [apply string_bytes_roundtrip|].
  by rewrite drop_app_ge, Nat.sub_succ_l, Nat.sub_diag by lia.
Qed.

(** The address of an IPv6 node is written without the brackets that a port needs. *)
Lemma LocalAddr_ipv6 : LocalAddr "::1" 16000 = "::1:16000"%string.
Proof. by vm_compute. Qed.

(** ** Examples *)

Definition demo_append (index : Z) : raft_AppendEntriesRequest :=
  {| ra_ProtocolVersion := 3; ra_Term := 2; ra_Leader := Some [49; 64; 50]; ra_PrevLogEntry := index; ra_PrevLogTerm := 2;
     ra_Entries := [{| rl_Index := index + 1; rl_Term := 2; rl_Type := 0; rl_Data := [7] |}]; ra_LeaderCommitIndex := index |}.

Definition demo_appended (index : Z) : raft_AppendEntriesResponse :=
  {| rar_Term := 2; rar_LastLog := index; rar_Success := true; rar_NoRetryBackoff := false |}.

(** Two requests, the second of which is with Raft. *)
Definition demo_sender : rc_log :=
  [existT RNow 0; existT (RSendAppend (to_AppendEntriesRequest (demo_append 5))) None;
   existT RRecvAppend (Ok (to_AppendEntriesResponse (demo_appended 6))); existT (RFuture 0 (demo_append 5) (demo_appended 6)) ();
   existT RNow 1; existT (RSendAppend (to_AppendEntriesRequest (demo_append 6))) None].

Definition demo_receiver : rs_log :=
  [existT SRecvAppend (Ok (to_AppendEntriesRequest (demo_append 5))); existT (SOffer (RPC_AppendEntries (demo_append 5))) None;
   existT SAwait (Ok {| resp_Response := Resp_AppendEntries (demo_appended 6); resp_Error := None |});
   existT (SSendAppend (to_AppendEntriesResponse (demo_appended 6))) None;
   existT SRecvAppend (Ok (to_AppendEntriesRequest (demo_append 6))); existT (SOffer (RPC_AppendEntries (demo_append 6))) None].

Ltac run_trace := cbn; repeat first [done | by left | right; eexists _, _; split; [reflexivity|]; cbn].

Lemma append_entries_exact_witness :
  omap passed demo_receiver `prefix_of` (RPC_AppendEntries <$> [demo_append 5; demo_append 6]) ∧
  omap answered demo_receiver !! 0%nat = Some (demo_appended 6).
Proof.
  destruct (append_entries_exact [demo_append 5; demo_append 6] 2 demo_sender None demo_receiver None) as (H1 & H2 & _).
  - run_trace.
  - run_trace.
  - split; vm_compute; [by exists []|by exists []].
  - apply Forall_cons; split; [|apply Forall_cons; split; [|apply Forall_nil; exact I]]; (split; [done|done|]; apply Forall_singleton; cbn; lia).
  - split; [exact H1|]. by destruct (H2 0%nat (demo_append 5) (demo_appended 6) eq_refl) as (_ & _ & H).
Defined.

Definition demo_snapshot : raft_InstallSnapshotRequest :=
  {| ri_ProtocolVersion := 3; ri_Term := 2; ri_Leader := [49]; ri_LastLogIndex := 9; ri_LastLogTerm := 2; ri_Configuration := [0];
     ri_ConfigurationIndex := 1; ri_Size := 3 |}.

Definition demo_snapshot_sender : rc_log :=
  [existT (RGet "10.0.0.2:16000") (Ok 0%nat); existT (ROpenSnapshot 0) None;
   existT (RSendSnapshot (Body_Request (to_InstallSnapshotRequest demo_snapshot))) None;
   existT (RRead installSnapshotBufferSize) ([1; 2; 3], ReadMore); existT (RSendSnapshot (Body_Data [1; 2; 3])) None;
   existT (RRead installSnapshotBufferSize) ([], ReadEOF); existT (RSendSnapshot (Body_Data [])) None;
   existT RCloseAndRecv (Ok {| iresp_Term := 2; iresp_Success := true |}); existT (RPut 0) None].

Definition demo_snapshot_receiver : rs_log :=
  [existT SRecvSnapshot (Ok (Body_Request (to_InstallSnapshotRequest demo_snapshot))); existT (SForward (RPC_InstallSnapshot demo_snapshot)) ();
   existT SRecvSnapshot (Ok (Body_Data [1; 2; 3])); existT (SPipeWrite [1; 2; 3]) None;
   existT SRecvSnapshot (Ok (Body_Data [])); existT (SPipeWrite []) None;
   existT SRecvSnapshot (Err EOF); existT SPipeClose ();
   existT SAwait (Ok {| resp_Response := Resp_InstallSnapshot {| rir_Term := 2; rir_Success := true |}; resp_Error := None |});
   existT (SSendAndClose {| iresp_Term := 2; iresp_Success := true |}) None].

Lemma install_snapshot_exact_witness :
  omap written demo_snapshot_receiver = [[1; 2; 3]; []] ∧ omap passed demo_snapshot_receiver `prefix_of` [RPC_InstallSnapshot demo_snapshot].
Proof.
  destruct (install_snapshot_exact 2 "10.0.0.2:16000" demo_snapshot demo_snapshot_sender (Some (Ok {| rir_Term := 2; rir_Success := true |}))
    3 demo_snapshot_receiver (Some (Ok ()))) as (H1 & _ & H2).
  - run_trace.
  - run_trace.
  - split; vm_compute; [by exists []|done|by exists []].
  - reflexivity.
  - destruct (H2 _ eq_refl) as (H3 & _ & _). split; [exact H3|exact H1].
Defined.
