(* ===== verification/Discovery.v ===== *)
(** * The discovery transport

    Models src/mq/discovery_transport.go: the UDP sockets on which packets of memberlist come and go, and the tunnels
    of its streams over gRPC.  The functions are programs whose calls are answered by the network, the pool of
    connections and gRPC; the goroutines that share a counter or a flag are the steps of a relation.  The theorems: what comes
    out of a tunnel is what went in, the connection below a tunnel is given back once, packets are passed on in order,
    and [Shutdown] waits for exactly the listeners. *)
From S2P Require Import Prelude Bytes Interaction.

Definition discoveryBufferSize : Z := 65536.
Definition udpReadBufferSize : Z := 2 * 1024 * 1024.

(** ** Calls *)

Record Packet : Type := { pk_Buf : list Z; pk_From : string; pk_Timestamp : Z }.

Inductive d_call : Type :=
| DLookupIP (host : string)
| DListenUDP (ip : option string) (port : Z)
| DSetReadBuffer (sock : nat) (size : Z)
| DCloseSocket (sock : nat)
| DGoListen (sock : nat) (* [t.wg.Add(1)] and [go t.listenUDP] *)
| DReadFrom (sock : nat) (n : Z)
| DNow
| DLoadShutdown (* whether the flag is 1 *)
| DPacket (p : Packet) (* [t.packetCh <- ...] *)
| DResolve (addr : string)
| DWriteTo (sock : nat) (b : list Z) (addr : string)
| DGet (addr : string) (timeout : Z) (* [pool.Get] *)
| DPut (conn : nat)
| DTunnel (conn : nat) (* [client.Tunnel] *)
| DStreamCh (* [t.streamCh <- conn] *)
| DPipeRead (n : Z)
| DPipeWrite (data : list Z)
| DPipeClose
| DTunnelSend (data : list Z)
| DTunnelRecv
| DCloseSend.

Definition d_answer (e : d_call) : Type :=
  match e with
  | DLookupIP _ => result go_error (list string)
  | DListenUDP _ _ => result go_error nat
  | DSetReadBuffer _ _ => option go_error
  | DCloseSocket _ => unit
  | DGoListen _ => unit
  | DReadFrom _ _ => result go_error (list Z * string)
  | DNow => Z
  | DLoadShutdown => bool
  | DPacket _ => unit
  | DResolve _ => option go_error
  | DWriteTo _ _ _ => option go_error
  | DGet _ _ => result go_error nat
  | DPut _ => unit
  | DTunnel _ => option go_error
  | DStreamCh => unit
  | DPipeRead _ => result go_error (list Z)
  | DPipeWrite _ => option go_error
  | DPipeClose => unit
  | DTunnelSend _ => option go_error
  | DTunnelRecv => result go_error (list Z)
  | DCloseSend => unit
  end.

Abbreviation d_prog := (prog d_answer).
Abbreviation d_log := (list (call d_answer)).

(** ** Sockets *)

(** The sizes are tried from two megabytes down: twenty-two of them. *)
Fixpoint setUDPReadBuffer_loop (fuel : nat) (sock : nat) (size : Z) (err : option go_error) : d_prog (option go_error) :=
  if size <=? 0 then mret err
  else
    match fuel with
    | O => mret err
    | S fuel =>
      err ← perform (DSetReadBuffer sock size);
      match err : option go_error with
      | None => mret None
      | Some e => setUDPReadBuffer_loop fuel sock (size / 2) (Some e)
      end
    end.
Definition setUDPReadBuffer (sock : nat) : d_prog (option go_error) := setUDPReadBuffer_loop 22 sock udpReadBufferSize None.

(** The loop that opens the sockets: those in the transport when it ends, and the error. *)
Fixpoint open_sockets (port : Z) (ips : list (option string)) (listeners : list nat) : d_prog (list nat * option go_error) :=
  match ips with
  | [] => mret (listeners, None)
  | ip :: ips =>
    r ← perform (DListenUDP ip port);
    match r : result go_error nat with
    | Ok sock =>
      err ← setUDPReadBuffer sock;
      match err with
      | Some e => mret (listeners, Some (ErrWrap e "could not resize UDP read buffer"))
      | None => open_sockets port ips (listeners ++ [sock])
      end
    | Err e => mret (listeners, Some (ErrWrap e "could not start UDP on [%s:%d]"))
    | Panic msg => mret (listeners, Some (ErrNew msg))
    end
  end.

(** A call for each element. *)
Fixpoint each (f : nat → d_call) (l : list nat) : d_prog unit :=
  match l with
  | [] => mret ()
  | x :: l => _ ← perform (f x); each f l
  end.

(** [NewDiscoveryRPCTransport]: the sockets of the transport.  The deferred function closes those it knows; no listener runs
    yet, so that [Shutdown] does not wait. *)
Definition NewDiscoveryRPCTransport (host : string) (port : Z) : d_prog (result go_error (list nat)) :=
  ips ← (if String.eqb host "" then mret (Ok [None])
         else r ← perform (DLookupIP host);
              mret (match r : result go_error (list string) with Ok l => Ok (Some <$> l) | Err e => Err e | Panic msg => Panic msg end));
  match ips with
  | Err e => mret (Err e)
  | Panic msg => mret (Panic msg)
  | Ok ips =>
    opened ← open_sockets port ips [];
    match opened with
    | (listeners, Some e) => _ ← each DCloseSocket listeners; mret (Err e)
    | (listeners, None) => _ ← each DGoListen listeners; mret (Ok listeners)
    end
  end.

(** The loop of a listener; [fuel] is the number of reads. *)
Fixpoint listenUDP (fuel : nat) (sock : nat) : d_prog bool :=
  match fuel with
  | O => mret false
  | S fuel =>
    r ← perform (DReadFrom sock discoveryBufferSize);
    ts ← perform DNow;
    match r : result go_error (list Z * string) with
    | Ok (buf, addr) =>
      if (length buf <? 1)%nat then listenUDP fuel sock
      else _ ← perform (DPacket {| pk_Buf := buf; pk_From := addr; pk_Timestamp := ts |}); listenUDP fuel sock
    | _ =>
      s ← perform DLoadShutdown;
      if s : bool then mret true else listenUDP fuel sock
    end
  end.

(** [parsed] is [net.ParseIP(addr)]. *)
Definition FinalAdvertiseAddr (parsed : option string) (port : Z) : result go_error (string * Z) :=
  match parsed with
  | None => Err (ErrNew "could not parse address: %q")
  | Some ip => Ok (ip, port)
  end.

(** The zero time is returned with an error of the address. *)
Definition WriteTo (listeners : list nat) (b : list Z) (addr : string) : d_prog (result go_error (Z * option go_error)) :=
  err ← perform (DResolve addr);
  match err : option go_error with
  | Some e => mret (Ok (0, Some e))
  | None =>
    match listeners with
    | [] => mret (Panic "index out of range")
    | sock :: _ =>
      err ← perform (DWriteTo sock b addr);
      now ← perform DNow;
      mret (Ok (now, err))
    end
  end.

(** ** Tunnels *)

(** [DialTimeout] up to the goroutines: the connection below the tunnel. *)
Definition DialTimeout (addr : string) (timeout : Z) : d_prog (result go_error nat) :=
  r ← perform (DGet addr timeout);
  match r : result go_error nat with
  | Err e => mret (Err e)
  | Panic msg => mret (Panic msg)
  | Ok conn =>
    err ← perform (DTunnel conn);
    match err : option go_error with
    | Some e => _ ← perform (DPut conn); mret (Err e)
    | None => mret (Ok conn)
    end
  end.

(** From the tunnel to the pipe, up to the first error. *)
Fixpoint tunnel_to_pipe (fuel : nat) : d_prog (result go_error unit) :=
  match fuel with
  | O => mret (Panic "out of fuel")
  | S fuel =>
    r ← perform DTunnelRecv;
    match r : result go_error (list Z) with
    | Ok data =>
      err ← perform (DPipeWrite data);
      match err : option go_error with
      | Some _ => mret (Ok ())
      | None => tunnel_to_pipe fuel
      end
    | Err EOF => mret (Ok ())
    | Err e => mret (Err e)
    | Panic msg => mret (Panic msg)
    end
  end.

(** From the pipe to the tunnel.  The buffer is used again: [Send] has encoded it when it returns. *)
Fixpoint pipe_to_tunnel (fuel : nat) : d_prog unit :=
  match fuel with
  | O => mret ()
  | S fuel =>
    r ← perform (DPipeRead discoveryBufferSize);
    match r : result go_error (list Z) with
    | Ok data =>
      err ← perform (DTunnelSend data);
      match err : option go_error with
      | Some _ => mret ()
      | None => pipe_to_tunnel fuel
      end
    | _ => mret ()
    end
  end.

(** The goroutines of [DialTimeout], up to the counter. *)
Definition dial_receiver (fuel : nat) : d_prog unit := _ ← tunnel_to_pipe fuel; _ ← perform DPipeClose; mret ().
Definition dial_sender (fuel : nat) : d_prog unit := _ ← pipe_to_tunnel fuel; _ ← perform DCloseSend; mret ().

(** [Tunnel]: the handler and its goroutine. *)
Definition Tunnel (fuel : nat) : d_prog (result go_error unit) :=
  _ ← perform DStreamCh; r ← tunnel_to_pipe fuel; _ ← perform DPipeClose; mret r.
Definition Tunnel_sender (fuel : nat) : d_prog unit := _ ← pipe_to_tunnel fuel; _ ← perform DPipeClose; mret ().

(** *** The counter of pending goroutines

    [atomic.AddInt32] and then, for the goroutine that gets zero, [pool.Put]. *)

Inductive pump : Type :=
| Pumping
| Counted (value : Z)
| Finished.

Record Dial : Type := { dl_pending : Z; dl_receiver : pump; dl_sender : pump; dl_puts : nat }.

Definition dial_start : Dial := {| dl_pending := 2; dl_receiver := Pumping; dl_sender := Pumping; dl_puts := 0 |}.

Inductive dial_step : Dial → Dial → Prop :=
| receiver_counts d : dl_receiver d = Pumping →
    dial_step d {| dl_pending := dl_pending d - 1; dl_receiver := Counted (dl_pending d - 1); dl_sender := dl_sender d; dl_puts := dl_puts d |}
| sender_counts d : dl_sender d = Pumping →
    dial_step d {| dl_pending := dl_pending d - 1; dl_receiver := dl_receiver d; dl_sender := Counted (dl_pending d - 1); dl_puts := dl_puts d |}
| receiver_finishes d v : dl_receiver d = Counted v →
    dial_step d {| dl_pending := dl_pending d; dl_receiver := Finished; dl_sender := dl_sender d; dl_puts := if v =? 0 then S (dl_puts d) else dl_puts d |}
| sender_finishes d v : dl_sender d = Counted v →
    dial_step d {| dl_pending := dl_pending d; dl_receiver := dl_receiver d; dl_sender := Finished; dl_puts := if v =? 0 then S (dl_puts d) else dl_puts d |}.

(** ** Shutdown *)

Inductive listener : Type :=
| Reading
| Passing (* a packet to [packetCh] *)
| Checking (* the flag, after an error *)
| Stopped.

#[export] Instance listener_eq_dec : EqDecision listener.
Proof. solve_decision. Defined.

Inductive closer : Type :=
| NotCalled
| Closing (n : nat) (* the flag is set, and [n] sockets are closed *)
| Waiting
| Returned.

Record Transport : Type := { dt_shutdown : bool; dt_listeners : list listener; dt_closed : gset nat; dt_closer : closer }.

Definition with_listener (t : Transport) (i : nat) (l : listener) : Transport :=
  {| dt_shutdown := dt_shutdown t; dt_listeners := <[i := l]> (dt_listeners t); dt_closed := dt_closed t; dt_closer := dt_closer t |}.

(** A read of a closed socket fails; one of an open socket may. *)
Inductive discovery_step : Transport → Transport → Prop :=
| read_packet t i : dt_listeners t !! i = Some Reading → i ∉ dt_closed t → discovery_step t (with_listener t i Passing)
| read_fails t i : dt_listeners t !! i = Some Reading → discovery_step t (with_listener t i Checking)
| packet_taken t i : dt_listeners t !! i = Some Passing → discovery_step t (with_listener t i Reading)
| flag_read t i : dt_listeners t !! i = Some Checking → discovery_step t (with_listener t i (if dt_shutdown t then Stopped else Reading))
| shutdown_called t : dt_closer t = NotCalled →
    discovery_step t {| dt_shutdown := true; dt_listeners := dt_listeners t; dt_closed := dt_closed t; dt_closer := Closing 0 |}
| socket_closed t n : dt_closer t = Closing n → (n < length (dt_listeners t))%nat →
    discovery_step t {| dt_shutdown := dt_shutdown t; dt_listeners := dt_listeners t; dt_closed := {[n]} ∪ dt_closed t; dt_closer := Closing (S n) |}
| sockets_closed t n : dt_closer t = Closing n → (length (dt_listeners t) ≤ n)%nat →
    discovery_step t {| dt_shutdown := dt_shutdown t; dt_listeners := dt_listeners t; dt_closed := dt_closed t; dt_closer := Waiting |}
| all_done t : dt_closer t = Waiting → Forall (eq Stopped) (dt_listeners t) →
    discovery_step t {| dt_shutdown := dt_shutdown t; dt_listeners := dt_listeners t; dt_closed := dt_closed t; dt_closer := Returned |}.

Definition discovery_start (n : nat) : Transport :=
  {| dt_shutdown := false; dt_listeners := replicate n Reading; dt_closed := ∅; dt_closer := NotCalled |}.

(** ** Theorems: tunnels *)

Definition pipe_read (c : call d_answer) : option (list Z) := match c with existT (DPipeRead _) (Ok data) => Some data | _ => None end.
Definition pipe_written (c : call d_answer) : option (list Z) := match c with existT (DPipeWrite data) _ => Some data | _ => None end.
Definition tunnel_sent (c : call d_answer) : option (list Z) := match c with existT (DTunnelSend data) _ => Some data | _ => None end.
Definition tunnel_received (c : call d_answer) : option (list Z) := match c with existT DTunnelRecv (Ok data) => Some data | _ => None end.

Lemma pipe_to_tunnel_sends fuel : ∀ log o, trace (pipe_to_tunnel fuel) log o →
  omap tunnel_sent log `prefix_of` omap pipe_read log ∧ (length (omap pipe_read log) ≤ S (length (omap tunnel_sent log)))%nat.
Proof.
  induction fuel as [|fuel IH]; intros log o H; cbn in H; [destruct H as [-> _]; by split; [apply prefix_nil|cbn; lia]|].
  destruct H as [[-> _]|([data|e|msg] & log' & -> & H)]; [by split; [apply prefix_nil|cbn; lia]| |destruct H as [-> _]; by split; [apply prefix_nil|cbn; lia]..].
  destruct H as [[-> _]|([e|] & log'' & -> & H)]; [by split; [apply prefix_nil|cbn; lia]|destruct H as [-> _]; by split; [|cbn; lia]|].
  destruct (IH _ _ H) as (H1 & H2). split; [by apply prefix_cons|cbn; lia].
Qed.

Lemma tunnel_to_pipe_writes fuel : ∀ log o, trace (tunnel_to_pipe fuel) log o →
  omap pipe_written log `prefix_of` omap tunnel_received log ∧ (length (omap tunnel_received log) ≤ S (length (omap pipe_written log)))%nat.
Proof.
  induction fuel as [|fuel IH]; intros log o H; cbn in H; [destruct H as [-> _]; by split; [apply prefix_nil|cbn; lia]|].
  destruct H as [[-> _]|([data|e|msg] & log' & -> & H)]; [by split; [apply prefix_nil|cbn; lia]| |destruct e; destruct H as [-> _]; by split; [apply prefix_nil|cbn; lia]|destruct H as [-> _]; by split; [apply prefix_nil|cbn; lia]].
  destruct H as [[-> _]|([e|] & log'' & -> & H)]; [by split; [apply prefix_nil|cbn; lia]|destruct H as [-> _]; by split; [|cbn; lia]|].
  destruct (IH _ _ H) as (H1 & H2). split; [by apply prefix_cons|cbn; lia].
Qed.

(** What comes after the loop of a goroutine neither reads nor writes. *)
Lemma trace_then {A B} (p : d_prog A) (f : A → d_prog B) log o :
  (∀ a log2 o2, trace (f a) log2 o2 → omap pipe_read log2 = [] ∧ omap pipe_written log2 = [] ∧ omap tunnel_sent log2 = [] ∧ omap tunnel_received log2 = []) →
  trace (p ≫= f) log o →
  ∃ log1 o1, trace p log1 o1 ∧ omap pipe_read log = omap pipe_read log1 ∧ omap pipe_written log = omap pipe_written log1 ∧
    omap tunnel_sent log = omap tunnel_sent log1 ∧ omap tunnel_received log = omap tunnel_received log1.
Proof.
  intros Hf [[H _]|(log1 & a & log2 & -> & H1 & H2)]%trace_bind; [by eauto 10|].
  destruct (Hf a log2 o H2) as (E1 & E2 & E3 & E4). exists log1, (Some a). by rewrite !omap_app, E1, E2, E3, E4, !app_nil_r.
Qed.

Lemma closing_quiet e {A} (a : A) log o :
  match e with DPipeClose | DCloseSend => True | _ => False end →
  trace (_ ← perform e; mret a) log o → omap pipe_read log = [] ∧ omap pipe_written log = [] ∧ omap tunnel_sent log = [] ∧ omap tunnel_received log = [].
Proof. intros He [[-> _]|(x & log' & -> & -> & _)]; [done|]. by destruct e. Qed.

(** A stream of memberlist over a tunnel, between a node that dialled and the node that answers: at every moment, and whatever
    breaks, what was written to the pipe of one end is a prefix of what was read from the pipe of the other, in both directions, and
    neither end holds back more than the chunk that it has just read or received. *)
Theorem tunnel_exact n1 n2 n3 n4 ds dr ts tr os or os' or' :
  trace (dial_sender n1) ds os → trace (dial_receiver n2) dr or → trace (Tunnel_sender n3) ts os' → trace (Tunnel n4) tr or' →
  omap tunnel_received tr `prefix_of` omap tunnel_sent ds → omap tunnel_received dr `prefix_of` omap tunnel_sent ts →
  (omap pipe_written tr `prefix_of` omap pipe_read ds ∧ omap pipe_written dr `prefix_of` omap pipe_read ts) ∧
  (length (omap pipe_read ds) ≤ S (length (omap tunnel_sent ds)) ∧ length (omap tunnel_received tr) ≤ S (length (omap pipe_written tr)))%nat ∧
  (length (omap pipe_read ts) ≤ S (length (omap tunnel_sent ts)) ∧ length (omap tunnel_received dr) ≤ S (length (omap pipe_written dr)))%nat.
Proof.
  intros Hds Hdr Hts Htr H1 H2.
  apply trace_then in Hds as (ds1 & o2 & Hds & E1 & _ & E2 & _); [|intros ???; by apply closing_quiet].
  apply trace_then in Hdr as (dr1 & o3 & Hdr & _ & E3 & _ & E4); [|intros ???; by apply closing_quiet].
  apply trace_then in Hts as (ts1 & o4 & Hts & E5 & _ & E6 & _); [|intros ???; by apply closing_quiet].
  assert (∃ tr1 o1, trace (tunnel_to_pipe n4) tr1 o1 ∧ omap pipe_written tr = omap pipe_written tr1 ∧ omap tunnel_received tr = omap tunnel_received tr1) as (tr1 & o1 & Htr1 & E7 & E8).
  { destruct Htr as [[-> _]|(x & log & -> & H)].
    - destruct n4; [exists [], (Some (Panic "out of fuel"))|exists [], None]; split_and!; try done; by left.
    - change (trace (tunnel_to_pipe n4 ≫= λ r, _ ← perform DPipeClose; mret r) log or') in H. apply trace_then in H as (l & o & Hl & _ & E7 & _ & E8); [|intros ???; by apply closing_quiet]. by exists l, o. }
  apply pipe_to_tunnel_sends in Hds as (F1 & G1). apply tunnel_to_pipe_writes in Hdr as (F2 & G2).
  apply pipe_to_tunnel_sends in Hts as (F3 & G3). apply tunnel_to_pipe_writes in Htr1 as (F4 & G4).
  rewrite E1, E2, E3, E4, E5, E6, E7, E8 in *. split_and!; [by etrans; [exact F4|etrans]|by etrans; [exact F2|etrans]|done..].
Qed.

Definition demo_bytes : d_log := [existT (DPipeRead discoveryBufferSize) (Ok [1; 2]); existT (DTunnelSend [1; 2]) None].
Definition demo_tunnelled : d_log := [existT DStreamCh (); existT DTunnelRecv (Ok [1; 2]); existT (DPipeWrite [1; 2]) None].

Lemma tunnel_exact_witness : omap pipe_written demo_tunnelled `prefix_of` omap pipe_read demo_bytes.
Proof.
  refine (proj1 (proj1 (tunnel_exact 2 1 1 2 demo_bytes [] [] demo_tunnelled None None None None _ _ _ _ _ _))).
  - cbn. do 2 (right; eexists _, _; split; [reflexivity|]; cbn). by left.
  - by left.
  - by left.
  - cbn. do 3 (right; eexists _, _; split; [reflexivity|]; cbn). by left.
  - by exists [].
  - by exists [].
Defined.

(** *** The connection below a tunnel *)

(** The counter is what is still pumping; the one that counted to zero is the one that gives the connection back. *)
Definition pumping (p : pump) : Z := match p with Pumping => 1 | _ => 0 end.
Definition counted (p : pump) : bool := match p with Counted v => v =? 0 | _ => false end.

Record dial_inv (d : Dial) : Prop := {
  di_pending : dl_pending d = pumping (dl_receiver d) + pumping (dl_sender d);
  di_values : ∀ v, dl_receiver d = Counted v ∨ dl_sender d = Counted v → v = 0 ∨ v = 1;
  di_puts : Z.of_nat (dl_puts d) + (if counted (dl_receiver d) then 1 else 0) + (if counted (dl_sender d) then 1 else 0) =
            if dl_pending d =? 0 then 1 else 0;
}.

Lemma dial_step_inv d d' : dial_inv d → dial_step d d' → dial_inv d'.
Proof.
  intros [Hp Hv Hn] Hs. destruct Hs as [d E|d E|d v E|d v E]; destruct d as [pe re se pu]; cbn in *; subst.
  - split; [destruct se; cbn in *; lia| |destruct se; cbn in *; repeat case_if; lia].
    cbn. intros v [[= <-]|H]; [destruct se; cbn; lia|apply Hv; by right].
  - split; [destruct re; cbn in *; lia| |destruct re; cbn in *; repeat case_if; lia].
    cbn. intros v [H|[= <-]]; [apply Hv; by left|destruct re; cbn; lia].
  - split; cbn in *; [done|intros v' [[=]|H]; apply Hv; by right|]. repeat case_if; lia.
  - split; cbn in *; [done|intros v' [H|[=]]; apply Hv; by left|]. repeat case_if; lia.
Qed.

(** The connection below a dialled tunnel is given back exactly once, by whichever goroutine ends last, and not while one of them
    still uses it. *)
Theorem dial_put_once d : rtc dial_step dial_start d →
  (dl_puts d ≤ 1)%nat ∧ (dl_puts d = 1%nat → dl_receiver d ≠ Pumping ∧ dl_sender d ≠ Pumping) ∧
  (dl_receiver d = Finished → dl_sender d = Finished → dl_puts d = 1%nat).
Proof.
  intros Hr. assert (dial_inv d) as [Hp Hv Hn].
  { apply (rtc_ind_r dial_inv dial_start) with (2 := λ x y _ H Hi, dial_step_inv x y Hi H); [|done]. split; [done| |done]. by intros v [[=]|[=]]. }
  destruct d as [pe re se pu]; cbn in *. destruct re, se; cbn in *; subst; repeat case_if;
    split_and!; try lia; try done; intros ->; lia.
Qed.

Definition demo_dial : Dial := {| dl_pending := 0; dl_receiver := Finished; dl_sender := Counted 0; dl_puts := 0 |}.

Lemma dial_put_once_witness : (dl_puts demo_dial ≤ 1)%nat.
Proof.
  refine (proj1 (dial_put_once demo_dial _)).
  eapply rtc_l; [by apply (receiver_counts dial_start)|]. eapply rtc_l; [by eapply sender_counts|].
  eapply rtc_l; [by eapply receiver_finishes|]. apply rtc_refl.
Defined.

(** ** Theorems: shutdown *)

Record discovery_inv (t : Transport) : Prop := {
  dv_flag : dt_shutdown t = true ↔ dt_closer t ≠ NotCalled;
  dv_stopped i : dt_listeners t !! i = Some Stopped → dt_shutdown t = true;
  dv_closing n : dt_closer t = Closing n → ∀ i, (i < n)%nat → i ∈ dt_closed t;
  dv_waiting : dt_closer t = Waiting → ∀ i, (i < length (dt_listeners t))%nat → i ∈ dt_closed t;
  dv_returned : dt_closer t = Returned → Forall (eq Stopped) (dt_listeners t);
}.

Lemma with_listener_inv t i l l' : discovery_inv t → dt_listeners t !! i = Some l → l ≠ Stopped →
  (l' = Stopped → dt_shutdown t = true) → discovery_inv (with_listener t i l').
Proof.
  intros [H1 H2 H3 H4 H5] Hi Hl Hl'. split; cbn; [done| |done|by rewrite length_insert|].
  - intros j Hj. destruct (decide (i = j)) as [<-|Hne]; [|rewrite list_lookup_insert_ne in Hj by done; by eapply H2].
    rewrite list_lookup_insert_eq in Hj by (by eapply lookup_lt_Some). apply Hl'. congruence.
  - intros Hr. specialize (H5 Hr). eapply Forall_lookup_1 in H5; [|exact Hi]. congruence.
Qed.

Lemma discovery_step_inv t t' : discovery_inv t → discovery_step t t' → discovery_inv t'.
Proof.
  intros Hi Hs. destruct Hs as [t i E Hc|t i E|t i E|t i E|t E|t n E Hn|t n E Hn|t E Hf];
    [by eapply with_listener_inv..| | | | |]; [eapply with_listener_inv; [done..|]; by destruct (dt_shutdown t)|..]; destruct Hi as [H1 H2 H3 H4 H5].
  - split; cbn; [done|done|intros n [= <-]; lia|done|done].
  - split; cbn; [by rewrite H1, E|done| |done|done]. intros m [= <-] i Hi. destruct (decide (i = n)) as [->|Hne]; [set_solver|].
    apply elem_of_union_r, (H3 n); [done|lia].
  - split; cbn; [by rewrite H1, E|done|done| |done]. intros _ i Hi. apply (H3 n); [done|lia].
  - split; cbn; [by rewrite H1, E|done|done|done|done].
Qed.

Lemma discovery_reachable n t : rtc discovery_step (discovery_start n) t → discovery_inv t.
Proof.
  intros Hr. apply (rtc_ind_r discovery_inv (discovery_start n)) with (2 := λ x y _ H Hi, discovery_step_inv x y Hi H); [|done].
  split; cbn; [done| |done|done|done]. intros i Hi. by apply lookup_replicate in Hi as [? _].
Qed.

(** What a listener has still to do once its socket is closed. *)
Definition todo (l : listener) : nat := match l with Passing => 3 | Reading => 2 | Checking => 1 | Stopped => 0 end.
Fixpoint todo_all (l : list listener) : nat := match l with [] => 0 | x :: l => todo x + todo_all l end.
Definition shutdown_measure (t : Transport) : nat :=
  todo_all (dt_listeners t) + match dt_closer t with Waiting => 1 | _ => 0 end.

Lemma todo_insert (l : list listener) (i : nat) x y :
  l !! i = Some x → (todo_all (<[i := y]> l) + todo x = todo_all l + todo y)%nat.
Proof.
  revert i. induction l as [|z l IH]; intros [|i] Hi; [done|done|injection Hi as ->; cbn; lia|].
  specialize (IH i Hi). change (<[S i := y]> (z :: l)) with (z :: <[i := y]> l). cbn [todo_all]. lia.
Qed.

(** Once [Shutdown] waits, it returns when the packets that were read are taken: no run goes on forever, a run that cannot go on has
    ended with all listeners stopped, and no listener stops before [Shutdown] is called. *)
Theorem shutdown_returns n t : rtc discovery_step (discovery_start n) t →
  (∀ i, dt_listeners t !! i = Some Stopped → dt_closer t ≠ NotCalled) ∧
  (dt_closer t = Waiting → sn discovery_step t ∧ ∀ t', rtc discovery_step t t' → nf discovery_step t' → dt_closer t' = Returned ∧ Forall (eq Stopped) (dt_listeners t')).
Proof.
  intros Hr. pose proof (discovery_reachable n t Hr) as Hi. split; [intros i Hs; apply dv_flag; [done|by eapply dv_stopped]|].
  intros Hw. clear Hr.
  assert (∀ t, discovery_inv t → dt_closer t = Waiting ∨ dt_closer t = Returned → ∀ t', discovery_step t t' →
    (shutdown_measure t' < shutdown_measure t)%nat ∧ (dt_closer t' = Waiting ∨ dt_closer t' = Returned)) as Hdec.
  { clear. intros t [H1 H2 H3 H4 H5] Hw t' Hs. assert (dt_shutdown t = true) as Hsh by (apply H1; by destruct Hw as [-> | ->]).
    unfold shutdown_measure. destruct Hs as [t i E Hc|t i E|t i E|t i E|t E|t m E Hn|t m E Hn|t E Hf]; try (destruct Hw; congruence); cbn.
    - destruct Hw as [Hw|Hw]; [destruct Hc; apply H4; [done|by eapply lookup_lt_Some]|]. specialize (H5 Hw). eapply Forall_lookup_1 in H5; [|exact E]. done.
    - pose proof (todo_insert _ _ _ Checking E). cbn in *. split; [lia|done].
    - pose proof (todo_insert _ _ _ Reading E). cbn in *. split; [lia|done].
    - rewrite Hsh. pose proof (todo_insert _ _ _ Stopped E). cbn in *. split; [lia|done].
    - rewrite E. split; [lia|by right]. }
  assert (∀ t t', rtc discovery_step t t' → discovery_inv t → dt_closer t = Waiting ∨ dt_closer t = Returned →
    discovery_inv t' ∧ (dt_closer t' = Waiting ∨ dt_closer t' = Returned)) as Hrtc.
  { clear -Hdec. induction 1 as [t|t1 t2 t3 H12 _ IH]; [done|]. intros Hi Hw. apply IH; [by eapply discovery_step_inv|by eapply Hdec]. }
  split.
  - assert (∀ k t, (shutdown_measure t < k)%nat → discovery_inv t → dt_closer t = Waiting ∨ dt_closer t = Returned → sn discovery_step t) as Hsn.
    { clear -Hdec. induction k as [|k IH]; intros t Hk Hi Hw; [lia|]. constructor. intros t' Hs. destruct (Hdec t Hi Hw t' Hs) as [Hm Hw'].
      apply IH; [lia|by eapply discovery_step_inv|done]. }
    apply (Hsn (S (shutdown_measure t))); [lia|done|by left].
  - intros t' Ht Hn. destruct (Hrtc t t' Ht Hi (or_introl Hw)) as [[H1 H2 H3 H4 H5] [Hw'|Hw']]; [|split; [done|by apply H5]]. destruct Hn.
    destruct (decide (Forall (eq Stopped) (dt_listeners t'))) as [Hf|Hf]; [eexists; by apply all_done|].
    apply not_Forall_Exists, Exists_exists in Hf as (l & [i Hl]%list_elem_of_lookup & Hne); [|intros l; apply _].
    destruct l; [eexists; by apply (read_fails t' i)|eexists; by apply (packet_taken t' i)|eexists; by apply (flag_read t' i)|done].
Qed.

Definition demo_transport : Transport := {| dt_shutdown := true; dt_listeners := [Passing]; dt_closed := {[0%nat]}; dt_closer := Waiting |}.

Lemma demo_transport_reachable : rtc discovery_step (discovery_start 1) demo_transport.
Proof.
  eapply rtc_l; [by apply (read_packet _ 0)|]. eapply rtc_l; [by apply shutdown_called|].
  eapply rtc_l; [by apply (socket_closed _ 0); [|cbn; lia]|]. eapply rtc_l; [by eapply (sockets_closed _ 1)|].
  replace demo_transport with (with_listener demo_transport 0 Passing) by done. unfold with_listener, discovery_start. cbn. unfold demo_transport.
  replace ({[0%nat]} ∪ ∅ : gset nat) with ({[0%nat]} : gset nat) by set_solver. apply rtc_refl.
Qed.

Lemma shutdown_returns_witness : sn discovery_step demo_transport.
Proof. refine (proj1 (proj2 (shutdown_returns 1 demo_transport demo_transport_reachable) eq_refl)). Defined.

(** A packet that nobody takes: [Shutdown] waits for its listener. *)
Lemma shutdown_needs_consumer t : discovery_step demo_transport t → t = with_listener demo_transport 0 Reading.
Proof.
  intros Hs. inversion Hs as [? i E|? i E|? i E|? i E|? E|? n E|? n E|? E Hf]; subst; try done;
    try (destruct i as [|[|i]]; cbn in E; by simplify_eq).
  apply Forall_cons in Hf as [Hf _]. done.
Qed.

(** ** Sockets and packets *)

Definition opened (c : call d_answer) : option nat := match c with existT (DListenUDP _ _) (Ok sock) => Some sock | _ => None end.
Definition closed_socket (c : call d_answer) : option nat := match c with existT (DCloseSocket sock) _ => Some sock | _ => None end.
Definition listening (c : call d_answer) : option nat := match c with existT (DGoListen sock) _ => Some sock | _ => None end.

(** A program that only changes settings of sockets. *)
Definition no_sockets {A} (p : d_prog A) : Prop :=
  always p (λ log _, omap opened log = [] ∧ omap closed_socket log = [] ∧ omap listening log = []).

Lemma setUDPReadBuffer_quiet fuel sock : ∀ size err, no_sockets (setUDPReadBuffer_loop fuel sock size err).
Proof.
  induction fuel as [|fuel IH]; intros size err; cbn; destruct (size <=? 0); [done..|]. intros [e|]; [|done]. apply IH.
Qed.

Lemma open_sockets_opens port ips : ∀ listeners,
  always (open_sockets port ips listeners) (λ log '(l, err), omap closed_socket log = [] ∧ omap listening log = [] ∧
    match err with
    | None => l = listeners ++ omap opened log
    | Some _ => listeners ++ omap opened log = l ∨ ∃ sock, listeners ++ omap opened log = l ++ [sock]
    end).
Proof.
  induction ips as [|ip ips IH]; intros listeners; cbn [open_sockets]; [cbn; by rewrite app_nil_r|].
  intros [sock|e|msg]; [|cbn; rewrite app_nil_r; by auto..]. apply always_bind. eapply always_mono; [|apply setUDPReadBuffer_quiet].
  intros log [e|] (E1 & E2 & E3).
  - cbn. rewrite app_nil_r, E1, E2, E3. split_and!; [done..|]. right. by exists sock.
  - eapply always_mono; [|apply (IH (listeners ++ [sock]))]. intros log' [l [e|]] (F1 & F2 & F3);
      cbn [omap list_omap opened closed_socket listening]; rewrite !omap_app, E1, E2, E3, F1, F2;
      rewrite <- app_assoc in F3; done.
Qed.

Lemma each_close l : always (each DCloseSocket l) (λ log _, omap opened log = [] ∧ omap closed_socket log = l ∧ omap listening log = []).
Proof. induction l as [|x l IH]; [done|]. intros []. eapply always_mono; [|exact IH]. cbn. by intros log _ (-> & -> & ->). Qed.

Lemma each_listen l : always (each DGoListen l) (λ log _, omap opened log = [] ∧ omap closed_socket log = [] ∧ omap listening log = l).
Proof. induction l as [|x l IH]; [done|]. intros []. eapply always_mono; [|exact IH]. cbn. by intros log _ (-> & -> & ->). Qed.

(** A transport that was made listens on all its sockets; after an error all sockets are closed, but for the one whose
    buffer could not be resized. *)
Lemma transport_sockets host port : always (NewDiscoveryRPCTransport host port) (λ log r,
  match r with
  | Ok l => omap opened log = l ∧ omap listening log = l ∧ omap closed_socket log = []
  | _ => omap listening log = [] ∧ (omap opened log = omap closed_socket log ∨ ∃ sock, omap opened log = omap closed_socket log ++ [sock])
  end).
Proof.
  unfold NewDiscoveryRPCTransport. apply always_bind.
  apply (always_mono _ (λ log _, omap opened log = [] ∧ omap closed_socket log = [] ∧ omap listening log = [])).
  2: by destruct (host =? "")%string; [|intros [| |]].
  intros log [ips|e|msg] (E1 & E2 & E3); [|cbn; rewrite app_nil_r, E1, E2, E3; by auto..].
  apply always_bind. eapply always_mono; [|apply (open_sockets_opens port ips [])].
  intros log' [l [e|]] (F1 & F2 & F3); apply always_bind.
  - eapply always_mono; [|apply each_close]. intros log'' [] (G1 & G2 & G3). cbn. rewrite !omap_app, E1, E2, E3, F1, F2, G1, G2, G3. cbn in F3 |- *.
    rewrite !app_nil_r. done.
  - eapply always_mono; [|apply each_listen]. intros log'' [] (G1 & G2 & G3). cbn. rewrite !omap_app, E1, E2, E3, F1, F2, G1, G2, G3. cbn in F3 |- *.
    rewrite !app_nil_r. by subst l.
Qed.

(** The socket that is not closed. *)
Lemma resized_socket_leaks : ∃ log e, trace (NewDiscoveryRPCTransport "" 16001) log (Some (Err e)) ∧
  omap opened log = [7%nat] ∧ omap closed_socket log = [].
Proof.
  exists (existT (DListenUDP None 16001) (Ok 7%nat) ::
     ((λ k : Z, existT (P := d_answer) (DSetReadBuffer 7 (2 ^ k)) (Some (ErrNew "no buffer"))) <$> [21; 20; 19; 18; 17; 16; 15; 14; 13; 12; 11; 10; 9; 8; 7; 6; 5; 4; 3; 2; 1; 0])).
  eexists. split; [|by vm_compute]. vm_compute. repeat (right; eexists _, _; split; [reflexivity|]). done.
Qed.

Definition read_packet_of (c : call d_answer) : option (list Z) :=
  match c with existT (DReadFrom _ _) (Ok (b :: buf, _)) => Some (b :: buf) | _ => None end.
Definition passed_packet (c : call d_answer) : option (list Z) := match c with existT (DPacket p) _ => Some (pk_Buf p) | _ => None end.

Definition stop_seen (c : call d_answer) : option unit := match c with existT DLoadShutdown true => Some () | _ => None end.

Definition packets_ok (log : d_log) (o : option bool) : Prop :=
  omap passed_packet log `prefix_of` omap read_packet_of log ∧ (o = Some true → omap stop_seen log ≠ []).

(** The packets that memberlist gets are those that were read, in order, without the empty ones; a listener stops only after it saw
    the flag. *)
Lemma listenUDP_packets fuel sock : ∀ log o, trace (listenUDP fuel sock) log o → packets_ok log o.
Proof.
  induction fuel as [|fuel IH]; intros log o H; cbn [listenUDP] in H; [destruct H as [-> ->]; by split; [apply prefix_nil|]|].
  destruct H as [[-> ->]|(r & log1 & -> & H)]; [by split; [apply prefix_nil|]|].
  destruct H as [[-> ->]|(ts & log2 & -> & H)]; [by split; [apply prefix_nil|]|]. cbn [mbind prog_bind prog_bind_aux] in H.
  assert (trace (s ← perform DLoadShutdown; if s : bool then mret true else listenUDP fuel sock) log2 o → packets_ok log2 o) as Hflag.
  { intros [[-> ->]|([] & log3 & -> & H3)]; [by split; [apply prefix_nil|]|destruct H3 as [-> ->]; by split; [apply prefix_nil|]|].
    by destruct (IH _ _ H3). }
  destruct r as [[buf addr]|e|msg]; [|by destruct (Hflag H)..]. clear Hflag. destruct buf as [|b buf]; cbn [length] in H; [by destruct (IH _ _ H)|].
  destruct H as [[-> ->]|([] & log3 & -> & H)]; [by split; [apply prefix_nil|]|]. destruct (IH _ _ H) as [I1 I2].
  split; [by apply prefix_cons|done].
Qed.
