(* ===== verification/StructValue.v ===== *)
(** * Fields of argument tables

    Models src/mq/structvalue/structvalue.go: a field of a table as an integer, a duration or a string, with a default for
    a table or a field that is absent. *)
From S2P Require Import Prelude Emq Bytes.

(** [time.ParseDuration] of the Go library. *)
Class DurationFormat : Type := ParseDuration : string → result go_error Z.

(** ** [strconv.ParseUint(s, 10, 32)] *)

Definition digit (c : Z) : option Z := if (48 <=? c) && (c <=? 57) then Some (c - 48) else None.

(** The loop over the digits; a value that does not fit is a range error. *)
Fixpoint parse_digits (l : list Z) (n : Z) : result go_error Z :=
  match l with
  | [] => Ok n
  | c :: l =>
    match digit c with
    | None => Err (ErrNew "invalid syntax")
    | Some d => if MaxUint32 <? n * 10 + d then Err (ErrNew "value out of range") else parse_digits l (n * 10 + d)
    end
  end.

Definition ParseUint32 (s : string) : result go_error Z :=
  match string_bytes s with
  | [] => Err (ErrNew "invalid syntax")
  | l => parse_digits l 0
  end.

(** ** Fields *)

(** [s == nil || s.Fields == nil], or the field is not there. *)
Definition field_of (s : option Struct) (field : string) : option Value :=
  match s ≫= Fields with
  | Some fields => map_get field fields
  | None => None
  end.

Definition errKind : go_error := ErrNew "unexpected value kind %T".

(** [uint32(f)] truncates the 64-bit integer of the conversion, as on amd64. *)
Definition Uint32 (s : option Struct) (field : string) (defaultValue : Z) : result go_error Z :=
  match field_of s field with
  | None => Ok defaultValue
  | Some (NumberValue f) => Ok (u32 (f64_int64 f))
  | Some (StringValue v) => Wrap "parse number failed" (ParseUint32 v)
  | Some _ => Err errKind
  end.

Definition Duration `{DurationFormat} (s : option Struct) (field : string) (defaultValue : Z) : result go_error Z :=
  match field_of s field with
  | None => Ok defaultValue
  | Some (NumberValue f) => Ok (f64_int64 f)
  | Some (StringValue v) => Wrap "parse duration failed" (ParseDuration v)
  | Some _ => Err errKind
  end.

Definition String_ (s : option Struct) (field : string) (defaultValue : string) : result go_error string :=
  match field_of s field with
  | None => Ok defaultValue
  | Some (StringValue v) => Ok v
  | Some _ => Err errKind
  end.

(** ** Bounds *)

Lemma parse_digits_range l : ∀ n z, 0 ≤ n ≤ MaxUint32 → parse_digits l n = Ok z → 0 ≤ z ≤ MaxUint32.
Proof.
  induction l as [|c l IH]; intros n z Hn; cbn [parse_digits]; [by intros [= <-]|].
  unfold digit. destruct (_ && _) eqn:Hc; [|done]. bool_to_prop.
  match goal with |- context [Z.ltb ?a ?b] => destruct (Z.ltb_spec a b) end; [done|]. apply IH. lia.
Qed.

(** Whatever the field holds, the number fits in 32 bits. *)
Lemma Uint32_range s field d z : 0 ≤ d ≤ MaxUint32 → Uint32 s field d = Ok z → 0 ≤ z ≤ MaxUint32.
Proof.
  intros Hd. unfold Uint32. destruct (field_of s field) as [[| |f|v| | |]|]; try done; [| |by intros [= <-]].
  - intros <-%Ok_inj. unfold u32, wrap. pose proof (Z.mod_pos_bound (f64_int64 f) (2 ^ 32) ltac:(lia)). unfold MaxUint32. lia.
  - unfold ParseUint32. destruct (string_bytes v) as [|c l]; [done|]. destruct (parse_digits _ _) as [n| |] eqn:E; [|done..].
    intros <-%Ok_inj. eapply parse_digits_range; [|done]. unfold MaxUint32. lia.
Qed.

Example parse_zero : ParseUint32 "007" = Ok 7.
Proof. reflexivity. Qed.

Example parse_overflow : ParseUint32 "4294967296" = Err (ErrNew "value out of range").
Proof. reflexivity. Qed.
