(* ===== verification/AmqpValues.v ===== *)
(** * Values and codecs shared by the two AMQP protocols

    The integers of the wire in two's complement, times, well-typed header values, updates of a table, and
    the laws of an encoder and a decoder that the proofs for both protocols use. *)
From Stdlib Require Import Floats.SpecFloat.
From S2P Require Import Prelude Emq Bytes.

Definition MaxUint8 : Z := 255.

(** ** [time.Unix(sec, 0)] and [t.Unix()]

    A [time.Time] is the nanoseconds since the zero time, its location left out. *)

Definition unixToInternal : Z := 62135596800.
Definition time_Unix (sec : Z) : Z := i64 (sec + unixToInternal) * 10 ^ 9.
Definition Unix (t : Z) : Z := i64 (t / 10 ^ 9 - unixToInternal).

(** [fields[name] = value] *)
Fixpoint set_field (name : string) (value : Value) (fields : list (string * Value)) : list (string * Value) :=
  match fields with
  | [] => [(name, value)]
  | (n, v) :: fields => if String.eqb n name then (n, value) :: fields else (n, v) :: set_field name value fields
  end.

(** ** Well-typed values *)

Section Typed.

Context (number_ok : spec_float → bool).

(** No unset kind, no nil list, distinct keys. *)
Fixpoint value_all (v : Value) : bool :=
  match v with
  | KindNil | ListValue None => false
  | NullValue | BoolValue _ | StringValue _ | StructValue None | StructValue (Some (MkStruct None)) => true
  | NumberValue f => number_ok f
  | StructValue (Some (MkStruct (Some fields))) => bool_decide (NoDup fields.*1) && forallb (λ p, value_all p.2) fields
  | ListValue (Some values) => forallb value_all values
  end.

Definition table_all (table : option Struct) : bool := value_all (StructValue table).

End Typed.

(** Every number is a float64. *)
Definition value_typed : Value → bool := value_all f64_ok.
Definition table_typed : option Struct → bool := table_all f64_ok.

(** The whole numbers are those of an int64. *)
Definition number_exact (f : spec_float) : bool :=
  f64_ok f &&
  match f with
  | S754_infinity _ => false
  | S754_finite _ _ _ => negb (f64_is_int f) || (- 2 ^ 63 <=? f64_trunc f) && (f64_trunc f <? 2 ^ 63)
  | _ => true
  end.
Definition value_exact : Value → bool := value_all number_exact.
Definition table_exact : option Struct → bool := table_all number_exact.

Definition number_canon (f : spec_float) : spec_float :=
  match f with
  | S754_zero _ => S754_zero false
  | f => f
  end.

(** Induction through the lists of a value. *)
Section ValueInd.

Context (P : Value → Prop).
Context (Hkind : P KindNil) (Hnull : P NullValue) (Hnum : ∀ f, P (NumberValue f)).
Context (Hstr : ∀ s, P (StringValue s)) (Hbool : ∀ b, P (BoolValue b)).
Context (Hnil : P (StructValue None)) (Hnil' : P (StructValue (Some (MkStruct None)))).
Context (Hstruct : ∀ fields, Forall (λ p, P p.2) fields → P (StructValue (Some (MkStruct (Some fields))))).
Context (Hlnil : P (ListValue None)) (Hlist : ∀ values, Forall P values → P (ListValue (Some values))).

Fixpoint Value_nested_ind (v : Value) : P v :=
  match v with
  | KindNil => Hkind
  | NullValue => Hnull
  | NumberValue f => Hnum f
  | StringValue s => Hstr s
  | BoolValue b => Hbool b
  | StructValue None => Hnil
  | StructValue (Some (MkStruct None)) => Hnil'
  | StructValue (Some (MkStruct (Some fields))) =>
    Hstruct fields ((fix go (l : list (string * Value)) : Forall (λ p, P p.2) l :=
      match l with
      | [] => Forall_nil_2 _
      | p :: l => Forall_cons_2 (λ p, P p.2) p l (Value_nested_ind p.2) (go l)
      end) fields)
  | ListValue None => Hlnil
  | ListValue (Some values) =>
    Hlist values ((fix go (l : list Value) : Forall P l :=
      match l with
      | [] => Forall_nil_2 _
      | v :: l => Forall_cons_2 _ v l (Value_nested_ind v) (go l)
      end) values)
  end.

End ValueInd.

(** ** Tables *)

Definition fields_all (number_ok : spec_float → bool) (fields : list (string * Value)) : Prop :=
  NoDup fields.*1 ∧ Forall (λ p, value_all number_ok p.2 = true) fields.

Lemma value_all_fields number_ok fields :
  value_all number_ok (StructValue (Some (MkStruct (Some fields)))) = true ↔ fields_all number_ok fields.
Proof.
  cbn [value_all]. unfold fields_all. rewrite andb_true_iff, bool_decide_eq_true, forallb_forall, Forall_forall.
  setoid_rewrite list_elem_of_In. done.
Qed.

Lemma value_all_list number_ok values :
  value_all number_ok (ListValue (Some values)) = true ↔ Forall (λ v, value_all number_ok v = true) values.
Proof. cbn [value_all]. rewrite forallb_forall, Forall_forall. setoid_rewrite list_elem_of_In. done. Qed.

Lemma set_field_new name v fields : name ∉ fields.*1 → set_field name v fields = fields ++ [(name, v)].
Proof.
  induction fields as [|[n w] fields IH]; intros Hn; [done|]. cbn [set_field]. rewrite fmap_cons, elem_of_cons in Hn.
  destruct (String.eqb_spec n name) as [->|]; [naive_solver|]. cbn. f_equal. apply IH. tauto.
Qed.

Lemma elem_of_set_field name v fields n : n ∈ (set_field name v fields).*1 ↔ n = name ∨ n ∈ fields.*1.
Proof.
  induction fields as [|[m w] fields IH]; cbn [set_field]; [cbn; by rewrite list_elem_of_singleton, elem_of_nil; tauto|].
  destruct (String.eqb_spec m name) as [->|]; rewrite !fmap_cons, !elem_of_cons; [cbn; tauto|]. rewrite IH. cbn. tauto.
Qed.

Lemma set_field_all number_ok name v fields :
  fields_all number_ok fields → value_all number_ok v = true → fields_all number_ok (set_field name v fields).
Proof.
  intros [Hn Ha] Hv. induction fields as [|[m w] fields IH]; cbn [set_field].
  { split; [apply NoDup_singleton|by constructor]. }
  rewrite fmap_cons, NoDup_cons in Hn. rewrite Forall_cons in Ha. destruct Hn as [Hm Hn], Ha as [Hw Ha].
  destruct (String.eqb_spec m name) as [->|Hne]; [by split; [by constructor|by constructor]|].
  destruct IH as [IH1 IH2]; [done..|]. split; [|by constructor].
  rewrite fmap_cons, NoDup_cons. split; [|done]. rewrite elem_of_set_field. naive_solver.
Qed.

(** ** Integers *)

Lemma u32_small z : 0 ≤ z ≤ MaxUint32 → u32 z = z.
Proof. intros Hz. apply Z.mod_small. unfold MaxUint32 in Hz. lia. Qed.

Lemma get_be_range l n : is_bytes l ∧ length l = n → 0 ≤ get_be l < 2 ^ (8 * Z.of_nat n).
Proof. intros [Hb <-]. by apply get_be_bound. Qed.

Lemma signed_wrap w z : 0 < w → - 2 ^ (w - 1) ≤ z < 2 ^ (w - 1) → signed w (z mod 2 ^ w) = z.
Proof.
  intros Hw Hz. assert (2 ^ w = 2 * 2 ^ (w - 1)) as Hp.
  { rewrite <- Z.pow_succ_r by lia. f_equal. lia. }
  unfold signed. rewrite Zmod_mod. destruct (decide (0 ≤ z)) as [H0|H0].
  - rewrite Z.mod_small by lia. destruct (Z.ltb_spec z (2 ^ (w - 1))); lia.
  - rewrite <- (Z.mod_add z 1) by lia. rewrite Z.mod_small by lia.
    destruct (Z.ltb_spec (z + 1 * 2 ^ w) (2 ^ (w - 1))); lia.
Qed.

Lemma mod_range w z : 0 < w → 0 ≤ z mod 2 ^ w < 2 ^ w.
Proof. intros Hw. apply Z.mod_pos_bound, Z.pow_pos_nonneg; lia. Qed.

Lemma signed_mod w z : 0 < w → signed w z mod 2 ^ w = z mod 2 ^ w.
Proof.
  intros Hw. unfold signed. assert (0 < 2 ^ w) by (apply Z.pow_pos_nonneg; lia).
  destruct (_ <? _); [apply Zmod_mod|]. rewrite <- (Z.mod_add _ 1) by lia.
  replace (z mod 2 ^ w - 2 ^ w + 1 * 2 ^ w) with (z mod 2 ^ w) by lia. apply Zmod_mod.
Qed.

Lemma signed_unique w z y : 0 < w → - 2 ^ (w - 1) ≤ z < 2 ^ (w - 1) → y mod 2 ^ w = z mod 2 ^ w → signed w y = z.
Proof. intros Hw Hz Hy. rewrite <- (signed_wrap w z Hw Hz), <- Hy. unfold signed. by rewrite Zmod_mod. Qed.

Lemma signed_range w z : 0 < w → - 2 ^ (w - 1) ≤ signed w z < 2 ^ (w - 1).
Proof.
  intros Hw. unfold signed. pose proof (mod_range w z Hw) as Hz.
  assert (2 ^ w = 2 * 2 ^ (w - 1)) by (rewrite <- Z.pow_succ_r by lia; f_equal; lia).
  destruct (Z.ltb_spec (z mod 2 ^ w) (2 ^ (w - 1))); lia.
Qed.

Lemma signed_abs w z : 0 < w ≤ 64 → Z.abs (signed w z) < 2 ^ 64.
Proof.
  intros Hw. unfold signed. assert (0 < 2 ^ w ≤ 2 ^ 64) as Hp.
  { split; [apply Z.pow_pos_nonneg|apply Z.pow_le_mono_r]; lia. }
  pose proof (Z.mod_pos_bound z (2 ^ w) ltac:(lia)). destruct (Z.ltb_spec (z mod 2 ^ w) (2 ^ (w - 1))); lia.
Qed.

(** ** Laws of a writer and a decoder: [w] writes bytes from which [r] reads [a], whatever follows. *)

Definition codec_law {A} (w : writer) (r : decoder A) (a : A) : Prop :=
  ∃ l, w = Ok l ∧ ∀ rest, r (l ++ rest) = Ok (a, rest).

Lemma codec_bind {A B} w1 w2 (r1 : decoder A) (f : A → decoder B) a b :
  codec_law w1 r1 a → codec_law w2 (f a) b → codec_law (w1 +++ w2) (x ← r1; f x) b.
Proof.
  intros (l1 & -> & H1) (l2 & -> & H2). exists (l1 ++ l2). split; [done|]. intros rest.
  rewrite <- app_assoc. erewrite decoder_bind_Ok by apply H1. apply H2.
Qed.

Lemma codec_ret {A} (a : A) : codec_law (Ok []) (mret a) a.
Proof. by exists []. Qed.

Lemma codec_be msg n v :
  (0 < n)%nat → 0 ≤ v < 2 ^ (8 * Z.of_nat n) → codec_law (Ok (put_be n v)) (x ← BufRead msg n; mret (get_be x)) v.
Proof.
  intros Hn Hv. exists (put_be n v). split; [done|]. intros rest.
  erewrite decoder_bind_Ok by (apply BufRead_app; [apply length_put_be|done]). by rewrite get_put_be_small.
Qed.

(** ** Decoders *)

Lemma reads_weaken {A} (P Q : A → Prop) (m : decoder A) : reads P m → (∀ a, P a → Q a) → reads Q m.
Proof. intros Hm HQ buf a rest Hb Ha. apply Hm in Ha as [HP ?]; [|done]. auto. Qed.

Lemma reads_be msg n : reads (λ v, 0 ≤ v < 2 ^ (8 * Z.of_nat n)) (x ← BufRead msg n; mret (get_be x)).
Proof. eapply reads_bind; [apply reads_Read|]. intros x Hx%get_be_range. by apply reads_ret. Qed.

Lemma length_bytes_string l : String.length (bytes_string l) = length l.
Proof.
  unfold bytes_string. rewrite <- (length_fmap (λ b, Ascii.ascii_of_N (Z.to_N b)) l).
  induction ((λ b, Ascii.ascii_of_N (Z.to_N b)) <$> l) as [|c k IH]; cbn; congruence.
Qed.

Lemma total0 {A} k (m : decoder A) buf : total_at k m buf → total_at 0 m buf.
Proof. intros H. eapply total_weaken; [done|lia]. Qed.

Lemma total0_bind {A B} (m : decoder A) (f : A → decoder B) buf :
  total_at 0 m buf → (∀ a rest, total_at 0 (f a) rest) → total_at 0 (x ← m; f x) buf.
Proof. intros Hm Hf. eapply total_bind; [done|by intros; apply Hf|lia]. Qed.

Lemma total_be msg n buf : total_at 0 (x ← BufRead msg n; mret (get_be x)) buf.
Proof. apply total0_bind; [eapply total0, total_Read|intros; apply total_ret]. Qed.

