(* ===== verification/AmqpV0.v ===== *)
(** * AMQP 0-9-1: field tables

    The encoding of header values, arrays and tables (src/mq/amqp/v0/marshal.go).  A decoder that calls
    itself on a part of its input has the nesting it can still follow as its argument; [UnmarshalTable]
    gives it the length of the input, and [unmarshalValue_total] shows that this is always enough. *)
From Stdlib Require Import Floats.SpecFloat.
From S2P Require Import Prelude Emq Bytes AmqpValues.

(** ** Encoding *)

Section Marshal.

Context (marshalValue : Value → writer).

(** The loop of [MarshalTable] over the fields, in the order of the iteration. *)
Fixpoint marshal_fields (fields : list (string * Value)) : writer :=
  match fields with
  | [] => Ok []
  | (name, value) :: fields =>
    let l := Z.of_nat (String.length name) in
    if MaxUint8 <? l then Err (ErrNew "field name can be at most %d bytes long, got %d bytes")
    else Ok (l :: string_bytes name) +++ Wrap ("field " ++ name) (marshalValue value) +++ marshal_fields fields
  end.

Definition marshal_table (table : option Struct) : writer :=
  match table with
  | None | Some (MkStruct None) => Ok []
  | Some (MkStruct (Some fields)) => marshal_fields fields
  end.

Fixpoint marshalArray (values : list Value) : writer :=
  match values with
  | [] => Ok []
  | value :: values => Wrap "index %d" (marshalValue value) +++ marshalArray values
  end.

End Marshal.

(** The type byte, the length in four bytes and the contents of a table or an array. *)
Definition marshal_sized (type : Z) (msg : string) (contents : writer) : writer :=
  buf ← Wrap (msg ++ " marshal failed") contents;
  let l := Z.of_nat (length buf) in
  if MaxUint32 <? l then Err (ErrNew (msg ++ " value can be at most %d bytes long, got %d bytes"))
  else Ok (type :: put_be 4 l ++ buf).

Definition marshalNumber (number : spec_float) : list Z :=
  if f64_is_int number then
    let intValue := f64_int64 number in
    if (- 2 ^ 7 <=? intValue) && (intValue <? 2 ^ 7) then [98; u8 intValue]
    else if (- 2 ^ 15 <=? intValue) && (intValue <? 2 ^ 15) then 115 :: put_be 2 (u16 intValue)
    else if (- 2 ^ 31 <=? intValue) && (intValue <? 2 ^ 31) then 73 :: put_be 4 (u32 intValue)
    else 108 :: put_be 8 (u64 intValue)
  else 100 :: put_be 8 (f64_bits number).

Definition marshalString (s : string) : writer :=
  let l := Z.of_nat (String.length s) in
  if l <=? MaxUint32 then Ok (83 :: put_be 4 l ++ string_bytes s)
  else Err (ErrNew "string value can be at most %d bytes long, got %d bytes").

Fixpoint marshalValue (value : Value) : writer :=
  match value with
  | NullValue => Ok [86]
  | NumberValue number => Ok (marshalNumber number)
  | StringValue s => marshalString s
  | BoolValue b => Ok [116; if b then 1 else 0]
  | StructValue table => marshal_sized 70 "table" (
      match table with
      | None | Some (MkStruct None) => Ok []
      | Some (MkStruct (Some fields)) => marshal_fields marshalValue fields
      end)
  | ListValue (Some values) => marshal_sized 65 "array" (marshalArray marshalValue values)
  | ListValue None => Panic "nil pointer dereference"
  | KindNil => Err (ErrNew "unhandled kind %T")
  end.

Definition MarshalTable : option Struct → writer := marshal_table marshalValue.

(** ** Decoding *)

Section Unmarshal.

Context (unmarshalValue : decoder Value).

(** The loop of [UnmarshalTable]: [n] bounds the number of fields. *)
Fixpoint unmarshal_fields (n : nat) (fields : list (string * Value)) (buf : list Z)
    : result go_error (list (string * Value)) :=
  match buf with
  | [] => Ok fields
  | lb :: buf =>
    match n with
    | O => Panic "out of fuel"
    | S n =>
      '(nameBytes, buf) ← BufNext "read field name failed" lb buf;
      let name := bytes_string nameBytes in
      '(value, buf) ← Wrap ("field " ++ name) (unmarshalValue buf);
      unmarshal_fields n (set_field name value fields) buf
    end
  end.

Definition unmarshal_table (data : list Z) : result go_error (option Struct) :=
  if (length data =? 0)%nat then Ok None
  else fields ← unmarshal_fields (length data) [] data; Ok (Some (MkStruct (Some fields))).

(** The loop of [unmarshalArray]. *)
Fixpoint unmarshal_values (n : nat) (values : list Value) (buf : list Z) : result go_error (list Value) :=
  match buf with
  | [] => Ok values
  | _ =>
    match n with
    | O => Panic "out of fuel"
    | S n =>
      '(value, buf) ← Wrap "index %d" (unmarshalValue buf);
      unmarshal_values n (values ++ [value]) buf
    end
  end.

Definition unmarshalArray (data : list Z) : result go_error (list Value) :=
  if (length data =? 0)%nat then Ok [] else unmarshal_values (length data) [] data.

End Unmarshal.

Definition read_int (msg : string) (n : nat) (convert : Z → Z) : decoder Value :=
  x ← BufRead msg n; mret (NumberValue (f64_of_Z (convert (get_be x)))).

(** The length in four bytes and as many bytes. *)
Definition read_sized (msg : string) : decoder (list Z) :=
  x ← BufRead msg 4; BufNext msg (get_be x).

Fixpoint unmarshalValue (nesting : nat) : decoder Value :=
  match nesting with
  | O => λ _, Panic "out of fuel"
  | S nesting =>
    tb ← ReadByte "read field type failed";
    if tb =? 116 then bb ← ReadByte "read bool failed"; mret (BoolValue (negb (bb =? 0)))
    else if tb =? 98 then bb ← ReadByte "read int8 failed"; mret (NumberValue (f64_of_Z (signed 8 bb)))
    else if tb =? 66 then bb ← ReadByte "read uint8 failed"; mret (NumberValue (f64_of_Z bb))
    else if (tb =? 85) || (tb =? 115) then read_int "read int16 failed" 2 (signed 16)
    else if tb =? 117 then read_int "read uint16 failed" 2 id
    else if tb =? 73 then read_int "read int32 failed" 4 (signed 32)
    else if tb =? 105 then read_int "read uint32 failed" 4 id
    else if tb =? 108 then read_int "read int64 failed" 8 i64
    else if tb =? 76 then read_int "read uint64 failed" 8 id
    else if tb =? 102 then
      x ← BufRead "read float32 failed" 4; mret (NumberValue (f64_from_f32bits (get_be x)))
    else if tb =? 100 then
      x ← BufRead "read float64 failed" 8; mret (NumberValue (f64_frombits (get_be x)))
    else if tb =? 68 then read_fail (ErrNew "decimal not implemented")
    else if (tb =? 120) || (tb =? 83) then
      s ← read_sized "read longstr failed"; mret (StringValue (bytes_string s))
    else if tb =? 65 then
      data ← read_sized "read array failed";
      values ← lift_result (Wrap "read array failed" (unmarshalArray (unmarshalValue nesting) data));
      mret (ListValue (Some values))
    else if tb =? 84 then read_fail (ErrNew "timestamp not implemented")
    else if tb =? 70 then
      data ← read_sized "read table failed";
      table ← lift_result (Wrap "read table failed" (unmarshal_table (unmarshalValue nesting) data));
      mret (StructValue table)
    else if tb =? 86 then mret NullValue
    else read_fail (ErrNew "unhandled field type %c")
  end.

Definition UnmarshalTable (data : list Z) : result go_error (option Struct) :=
  unmarshal_table (unmarshalValue (length data)) data.

Definition example_table : option Struct := Some (MkStruct (Some [
  ("x-match"%string, StringValue "all"); ("n"%string, NumberValue (f64_of_Z (-70000)));
  ("l"%string, ListValue (Some [BoolValue true; NullValue; NumberValue (S754_finite false 5404319552844596 (-54))]));
  ("t"%string, StructValue (Some (MkStruct (Some [("u"%string, NumberValue (f64_of_Z 200))]))))])).

Example example_table_roundtrip :
  match MarshalTable example_table with
  | Ok data => UnmarshalTable data = Ok example_table
  | _ => False
  end.
Proof. vm_compute. reflexivity. Qed.

(** ** The canonical form

    What decoding the encoding of a value gives: the negative zero becomes zero and an empty table nil. *)

Fixpoint value_canon (v : Value) : Value :=
  match v with
  | NumberValue f => NumberValue (number_canon f)
  | StructValue (Some (MkStruct (Some ((_ :: _) as fields)))) =>
    StructValue (Some (MkStruct (Some (prod_map id value_canon <$> fields))))
  | StructValue _ => StructValue None
  | ListValue (Some values) => ListValue (Some (value_canon <$> values))
  | v => v
  end.

Definition table_canon (table : option Struct) : option Struct :=
  match value_canon (StructValue table) with
  | StructValue table => table
  | _ => None
  end.

(** ** Decoding always returns *)

Lemma read_sized_inv msg buf data rest :
  read_sized msg buf = Ok (data, rest) → ∃ x, buf = x ++ data ++ rest ∧ length x = 4%nat ∧ (0 ≤ get_be x → Z.of_nat (length data) = get_be x).
Proof.
  intros (x & rest1 & Hx & Hd)%decoder_bind_inv. apply BufRead_inv in Hx as [-> Hl]. apply BufNext_inv in Hd as [-> Hd]. eauto.
Qed.

Lemma total_read_int msg n convert buf : total_at n (read_int msg n convert) buf.
Proof. eapply total_bind; [apply total_Read|intros; apply total_ret|lia]. Qed.

Lemma total_read_sized msg buf : total_at 4 (read_sized msg) buf.
Proof. eapply total_bind; [apply total_Read|intros; apply total_Next|lia]. Qed.

Lemma unmarshal_fields_total rv n : ∀ fields buf msg,
  (∀ buf', (length buf' < length buf)%nat → total_at 1 rv buf') → (length buf ≤ n)%nat →
  unmarshal_fields rv n fields buf ≠ Panic msg.
Proof.
  induction n as [|n IH]; intros fields [|lb buf] msg Hrv Hn; cbn [unmarshal_fields]; [done|cbn in Hn; lia|done|].
  pose proof (total_Next "read field name failed" lb buf) as Ht. unfold total_at in Ht.
  destruct (BufNext _ _ _) as [[name buf1]| |]; [|done..]. cbn.
  assert (total_at 1 rv buf1) as Hv by (apply Hrv; cbn; lia). unfold total_at in Hv.
  destruct (rv buf1) as [[v buf2]| |]; [|done..]. cbn. apply IH; [|cbn in Hn; lia].
  intros buf' Hb. apply Hrv. cbn. lia.
Qed.

Lemma unmarshal_values_total rv n : ∀ values buf msg,
  (∀ buf', (length buf' ≤ length buf)%nat → total_at 1 rv buf') → (length buf ≤ n)%nat →
  unmarshal_values rv n values buf ≠ Panic msg.
Proof.
  induction n as [|n IH]; intros values [|b buf] msg Hrv Hn; cbn [unmarshal_values]; [done|cbn in Hn; lia|done|].
  assert (total_at 1 rv (b :: buf)) as Hv by (by apply Hrv). unfold total_at in Hv.
  destruct (rv (b :: buf)) as [[v buf2]| |]; [|done..]. cbn in *. apply IH; [|lia].
  intros buf' Hb. apply Hrv. lia.
Qed.

Lemma unmarshal_table_total rv data msg :
  (∀ buf, (length buf < length data)%nat → total_at 1 rv buf) → unmarshal_table rv data ≠ Panic msg.
Proof.
  intros Hrv. unfold unmarshal_table. destruct (_ =? _)%nat; [done|].
  pose proof (unmarshal_fields_total rv (length data) [] data) as H.
  destruct (unmarshal_fields _ _ _ _) as [| |m]; [done..|]. destruct (H m); auto.
Qed.

Lemma unmarshalArray_total rv data msg :
  (∀ buf, (length buf ≤ length data)%nat → total_at 1 rv buf) → unmarshalArray rv data ≠ Panic msg.
Proof. intros Hrv. unfold unmarshalArray. destruct (_ =? _)%nat; [done|]. by apply unmarshal_values_total. Qed.

(** A value is decoded, or rejected, whatever the bytes are, and at least its type byte is read. *)
Lemma unmarshalValue_total nesting : ∀ buf, (length buf < nesting)%nat → total_at 1 (unmarshalValue nesting) buf.
Proof.
  induction nesting as [|nesting IH]; intros buf Hn; [lia|]. cbn [unmarshalValue].
  eapply (total_bind 1 1 0); [apply total_ReadByte| |lia]. intros tb rest ->%ReadByte_inv. cbn in Hn.
  repeat case_match; try apply total_ret; try apply total_fail;
    try (eapply total_weaken; [apply total_read_int|lia]);
    try (eapply total_bind; [apply total_ReadByte|intros; apply total_ret|lia]);
    try (eapply total_bind; [apply total_Read|intros; apply total_ret|lia]);
    (eapply (total_bind 0 4 0); [apply total_read_sized| |lia]); intros data rest' Hd; try apply total_ret;
    apply read_sized_inv in Hd as (x & -> & Hx & _); rewrite !length_app in Hn;
    (eapply total_bind; [apply total_lift|intros; apply total_ret|lia]); intros msg Hp%Wrap_Panic; revert Hp.
  - apply unmarshalArray_total. intros buf Hb. apply IH. lia.
  - apply unmarshal_table_total. intros buf Hb. apply IH. lia.
Qed.

(** *** The decoded values are well typed *)

Lemma unmarshal_fields_typed rv n : ∀ fields buf fields',
  reads (λ v, value_typed v = true) rv → is_bytes buf → fields_all f64_ok fields →
  unmarshal_fields rv n fields buf = Ok fields' → fields_all f64_ok fields'.
Proof.
  induction n as [|n IH]; intros fields [|lb buf] fields' Hrv Hb Hf; cbn [unmarshal_fields]; try (by intros [= <-]).
  inversion Hb as [|? ? _ Hb']; subst.
  destruct (BufNext _ _ _) as [[name buf1]| |] eqn:En; cbn; [|done..].
  apply reads_Next in En as [_ Hb1]; [|done].
  destruct (rv buf1) as [[v buf2]| |] eqn:Ev; cbn; [|done..].
  apply Hrv in Ev as [Hv Hb2]; [|done]. apply IH; [done..|]. by apply set_field_all.
Qed.

Lemma unmarshal_values_typed rv n : ∀ values buf values',
  reads (λ v, value_typed v = true) rv → is_bytes buf → Forall (λ v, value_typed v = true) values →
  unmarshal_values rv n values buf = Ok values' → Forall (λ v, value_typed v = true) values'.
Proof.
  induction n as [|n IH]; intros values [|b buf] values' Hrv Hb Hf; cbn [unmarshal_values]; try (by intros [= <-]).
  destruct (rv (b :: buf)) as [[v buf2]| |] eqn:Ev; cbn; [|done..].
  apply Hrv in Ev as [Hv Hb2]; [|done]. apply IH; [done..|]. apply Forall_app. by split; [|constructor].
Qed.

Lemma unmarshal_table_typed rv data table :
  reads (λ v, value_typed v = true) rv → is_bytes data → unmarshal_table rv data = Ok table → table_typed table = true.
Proof.
  intros Hrv Hb. unfold unmarshal_table. destruct (_ =? _)%nat; [by intros [= <-]|].
  destruct (unmarshal_fields _ _ _ _) as [fields| |] eqn:E; cbn; [|done..]. intros [= <-].
  apply value_all_fields. eapply (unmarshal_fields_typed rv); [done|exact Hb| |exact E]. by split; [apply NoDup_nil|].
Qed.

Lemma unmarshalArray_typed rv data values :
  reads (λ v, value_typed v = true) rv → is_bytes data → unmarshalArray rv data = Ok values →
  value_typed (ListValue (Some values)) = true.
Proof.
  intros Hrv Hb. unfold unmarshalArray. destruct (_ =? _)%nat; [by intros [= <-]|]. intros E.
  apply value_all_list. eapply (unmarshal_values_typed rv); [done|exact Hb| |exact E]. constructor.
Qed.

Lemma reads_read_int msg n convert :
  (∀ z, 0 ≤ z < 2 ^ (8 * Z.of_nat n) → Z.abs (convert z) < 2 ^ 64) →
  reads (λ v, value_typed v = true) (read_int msg n convert).
Proof.
  intros Hc. eapply reads_bind; [apply reads_Read|]. intros x Hx%get_be_range.
  apply reads_ret. by apply f64_of_Z_ok, Hc.
Qed.

Lemma reads_read_sized msg : reads is_bytes (read_sized msg).
Proof. eapply reads_bind; [apply reads_Read|]. intros x _. apply reads_Next. Qed.

Lemma unmarshalValue_typed nesting : reads (λ v, value_typed v = true) (unmarshalValue nesting).
Proof.
  induction nesting as [|nesting IH]; [by intros ? ? ? ?|]. cbn [unmarshalValue].
  eapply reads_bind; [apply reads_ReadByte|]. intros tb _.
  repeat case_match; try (by apply reads_ret); try apply reads_fail;
    try (apply reads_read_int; intros z Hz; (apply signed_abs || unfold id); lia);
    try (eapply reads_bind; [apply reads_ReadByte|]; intros bb Hbb; cbn beta in Hbb; apply reads_ret;
      first [done | apply f64_of_Z_ok; first [lia | apply signed_abs; lia]]);
    try (eapply reads_bind; [apply reads_Read|]; intros x Hx%get_be_range; apply reads_ret;
      first [by apply f64_frombits_ok | by apply f64_from_f32bits_ok]);
    (eapply reads_bind; [apply reads_read_sized|]); intros data Hd; try (by apply reads_ret).
  - eapply (reads_bind (λ values, value_typed (ListValue (Some values)) = true)); [|by intros; apply reads_ret].
    apply reads_lift. intros values. rewrite Wrap_Ok. by apply unmarshalArray_typed.
  - eapply (reads_bind (λ table, table_typed table = true)); [|by intros; apply reads_ret].
    apply reads_lift. intros table. rewrite Wrap_Ok. by apply unmarshal_table_typed.
Qed.

(** *** Decoding undoes encoding *)

Lemma read_int_put msg n convert z rest :
  (0 < n)%nat → 0 ≤ z < 2 ^ (8 * Z.of_nat n) →
  read_int msg n convert (put_be n z ++ rest) = Ok (NumberValue (f64_of_Z (convert z)), rest).
Proof.
  intros Hn Hz. unfold read_int. erewrite decoder_bind_Ok by (apply BufRead_app; [apply length_put_be|done]).
  by rewrite get_put_be_small.
Qed.

Lemma unmarshal_int n z rest :
  - 2 ^ 63 ≤ z < 2 ^ 63 →
  unmarshalValue (S n) ((if (- 2 ^ 7 <=? z) && (z <? 2 ^ 7) then [98; u8 z]
    else if (- 2 ^ 15 <=? z) && (z <? 2 ^ 15) then 115 :: put_be 2 (u16 z)
    else if (- 2 ^ 31 <=? z) && (z <? 2 ^ 31) then 73 :: put_be 4 (u32 z)
    else 108 :: put_be 8 (u64 z)) ++ rest) = Ok (NumberValue (f64_of_Z z), rest).
Proof.
  intros Hz. cbn [unmarshalValue].
  destruct ((- 2 ^ 7 <=? z) && (z <? 2 ^ 7)) eqn:E7; [|destruct ((- 2 ^ 15 <=? z) && (z <? 2 ^ 15)) eqn:E15;
    [|destruct ((- 2 ^ 31 <=? z) && (z <? 2 ^ 31)) eqn:E31]]; bool_to_prop; rewrite <- ?app_comm_cons;
    (erewrite decoder_bind_Ok by (apply ReadByte_cons)); cbv beta; cbn [Z.eqb Pos.eqb orb];
    unfold u8, u16, u32, u64, i64, wrap; rewrite ?read_int_put by (first [lia|by apply mod_range]); 
    try (erewrite decoder_bind_Ok by (apply ReadByte_cons)); by rewrite signed_wrap by lia.
Qed.

Lemma unmarshal_number n f rest :
  number_exact f = true → unmarshalValue (S n) (marshalNumber f ++ rest) = Ok (NumberValue (number_canon f), rest).
Proof.
  unfold number_exact. intros [Hok Hf]%andb_true_iff. unfold marshalNumber. destruct (f64_is_int f) eqn:Ei.
  - destruct f as [s|s| |s m e]; [done..|]. rewrite unmarshal_int.
    + unfold f64_int64. cbn [negb orb] in Hf. rewrite Hf. by rewrite f64_of_trunc.
    + unfold f64_int64. cbn [negb orb] in Hf. rewrite Hf. bool_to_prop. lia.
  - cbn [unmarshalValue]. rewrite <- app_comm_cons. erewrite decoder_bind_Ok by (apply ReadByte_cons).
    cbv beta. cbn [Z.eqb Pos.eqb orb].
    erewrite decoder_bind_Ok by (apply BufRead_app; [apply length_put_be|lia]).
    rewrite get_put_be_small by (by apply f64_bits_range). rewrite f64_frombits_bits by done.
    by destruct f.
Qed.

(** Four bytes of length and the contents are read back. *)
Lemma read_sized_put msg l rest :
  Z.of_nat (length l) ≤ MaxUint32 → read_sized msg (put_be 4 (Z.of_nat (length l)) ++ l ++ rest) = Ok (l, rest).
Proof.
  intros Hl. unfold read_sized. erewrite decoder_bind_Ok by (apply BufRead_app; [apply length_put_be|lia]).
  rewrite get_put_be_small by (unfold MaxUint32 in Hl; lia). apply BufNext_app.
Qed.

Lemma unmarshal_string n s l rest :
  marshalString s = Ok l → unmarshalValue (S n) (l ++ rest) = Ok (StringValue s, rest).
Proof.
  unfold marshalString. destruct (Z.leb_spec (Z.of_nat (String.length s)) MaxUint32) as [Hs|]; [|done].
  intros <-%Ok_inj. cbn [unmarshalValue]. rewrite <- app_comm_cons, <- app_assoc, <- length_string_bytes.
  erewrite decoder_bind_Ok by (apply ReadByte_cons). cbv beta. cbn [Z.eqb Pos.eqb orb].
  erewrite decoder_bind_Ok by (apply read_sized_put; by rewrite length_string_bytes).
  by rewrite string_bytes_roundtrip.
Qed.

(** [unmarshalValue] undoes [marshalValue] on [v]. *)
Definition value_roundtrips (v : Value) : Prop :=
  ∀ l nesting rest, value_exact v = true → marshalValue v = Ok l → (length l ≤ nesting)%nat →
    unmarshalValue nesting (l ++ rest) = Ok (value_canon v, rest) ∧ (0 < length l)%nat.

Lemma unmarshal_marshal_values values : ∀ n nesting l acc,
  Forall value_roundtrips values → Forall (λ v, value_exact v = true) values →
  marshalArray marshalValue values = Ok l → (length l ≤ n)%nat → (length l ≤ nesting)%nat →
  unmarshal_values (unmarshalValue nesting) n acc l = Ok (acc ++ (value_canon <$> values)).
Proof.
  induction values as [|v values IH]; intros n nesting l acc Hr Hv Hm Hn Hl.
  { cbn in Hm. injection Hm as <-. cbn. rewrite app_nil_r. by destruct n. }
  inversion Hr as [|? ? Hr1 Hr2]; subst. inversion Hv as [|? ? Hv1 Hv2]; subst.
  cbn [marshalArray] in Hm. apply wapp_Ok in Hm as (l1 & l2 & H1 & H2 & ->). apply Wrap_Ok in H1.
  rewrite length_app in Hn, Hl. destruct (Hr1 l1 nesting l2) as [Hu Hpos]; [done..|lia|].
  destruct l1 as [|b l1]; [cbn in Hpos; lia|]. destruct n as [|n]; [cbn in Hn; lia|].
  cbn [unmarshal_values app]. rewrite <- app_comm_cons in Hu. rewrite Hu. cbn in *.
  rewrite (IH n nesting l2 (acc ++ [value_canon v])); [|done..|lia|lia]. by rewrite <- app_assoc.
Qed.

Lemma unmarshal_marshal_fields fields : ∀ n nesting l acc,
  Forall (λ p, value_roundtrips p.2) fields → Forall (λ p, value_exact p.2 = true) fields →
  NoDup (acc.*1 ++ fields.*1) →
  marshal_fields marshalValue fields = Ok l → (length l ≤ n)%nat → (length l ≤ nesting)%nat →
  unmarshal_fields (unmarshalValue nesting) n acc l = Ok (acc ++ (prod_map id value_canon <$> fields)).
Proof.
  induction fields as [|[name v] fields IH]; intros n nesting l acc Hr Hv Hnd Hm Hn Hl.
  { cbn in Hm. injection Hm as <-. cbn. rewrite app_nil_r. by destruct n. }
  inversion Hr as [|? ? Hr1 Hr2]; subst. inversion Hv as [|? ? Hv1 Hv2]; subst. cbn [snd] in *.
  cbn [marshal_fields] in Hm. destruct (Z.ltb_spec MaxUint8 (Z.of_nat (String.length name))) as [|Hname]; [done|].
  apply wapp_Ok in Hm as (l0 & l12 & [= <-] & H12 & ->). apply wapp_Ok in H12 as (l1 & l2 & H1 & H2 & ->).
  apply Wrap_Ok in H1. rewrite <- length_string_bytes. cbn [app length] in Hn, Hl.
  rewrite !length_app in Hn, Hl. destruct (Hr1 l1 nesting l2) as [Hu Hpos]; [done..|lia|].
  destruct n as [|n]; [lia|]. cbn [unmarshal_fields app]. rewrite BufNext_app. cbn [mbind result_bind].
  rewrite string_bytes_roundtrip, Hu. cbn -[value_canon unmarshal_fields].
  assert (name ∉ acc.*1) as Hnew.
  { intros Hin. apply NoDup_app in Hnd as (_ & Hd & _). apply (Hd name Hin). rewrite fmap_cons. left. }
  rewrite set_field_new by done. rewrite (IH n nesting l2 (acc ++ [(name, value_canon v)])); [|done|done| |done|lia|lia].
  - by rewrite <- app_assoc.
  - rewrite fmap_app. cbn. rewrite <- app_assoc. done.
Qed.

Lemma marshal_sized_Ok type msg w l :
  marshal_sized type msg w = Ok l →
  ∃ buf, w = Ok buf ∧ l = type :: put_be 4 (Z.of_nat (length buf)) ++ buf ∧ Z.of_nat (length buf) ≤ MaxUint32.
Proof.
  unfold marshal_sized. destruct w as [buf| |]; [|done..]. cbn [Wrap mbind result_bind].
  destruct (Z.ltb_spec MaxUint32 (Z.of_nat (length buf))); [done|]. intros <-%Ok_inj. eauto.
Qed.

Lemma unmarshal_marshal_table nesting fields l :
  Forall (λ p, value_roundtrips p.2) fields → fields_all number_exact fields →
  marshal_fields marshalValue fields = Ok l → (length l ≤ nesting)%nat →
  unmarshal_table (unmarshalValue nesting) l = Ok (table_canon (Some (MkStruct (Some fields)))).
Proof.
  intros Hr [Hnd Hv] Hm Hl. unfold unmarshal_table. destruct (Nat.eqb_spec (length l) 0) as [H0|H0].
  - destruct fields as [|[name v] fields]; [done|]. exfalso. cbn [marshal_fields] in Hm.
    destruct (_ <? _); [done|]. apply wapp_Ok in Hm as (? & ? & [= <-] & _ & ->). cbn in H0. lia.
  - rewrite (unmarshal_marshal_fields fields (length l) nesting l []); [|done..]. cbn [mbind result_bind app].
    destruct fields as [|p fields]; [|done]. cbn in Hm. injection Hm as <-. done.
Qed.

Lemma unmarshal_struct nesting buf rest table :
  Z.of_nat (length buf) ≤ MaxUint32 → unmarshal_table (unmarshalValue nesting) buf = Ok table →
  unmarshalValue (S nesting) ((70 :: put_be 4 (Z.of_nat (length buf)) ++ buf) ++ rest) = Ok (StructValue table, rest).
Proof.
  intros Hb Ht. cbn [unmarshalValue].
  rewrite <- app_comm_cons, <- app_assoc. erewrite decoder_bind_Ok by (apply ReadByte_cons).
  cbv beta. cbn [Z.eqb Pos.eqb orb]. erewrite decoder_bind_Ok by (by apply read_sized_put). by rewrite Ht.
Qed.

Lemma unmarshal_marshal_value v : value_roundtrips v.
Proof.
  induction v as [| |f|s|b| | |fields IH| |values IH] using Value_nested_ind;
    intros l nesting rest Hv Hm Hn; cbn [marshalValue] in Hm; try done.
  - apply Ok_inj in Hm as <-. destruct nesting as [|nesting]; [cbn in Hn; lia|]. split; [done|cbn; lia].
  - apply Ok_inj in Hm as <-. assert (0 < length (marshalNumber f))%nat as Hpos.
    { unfold marshalNumber. repeat case_match; cbn; lia. }
    destruct nesting as [|nesting]; [lia|]. split; [by apply unmarshal_number|done].
  - assert (0 < length l)%nat as Hpos.
    { unfold marshalString in Hm. destruct (_ <=? _); [|done]. apply Ok_inj in Hm as <-. cbn. lia. }
    destruct nesting as [|nesting]; [lia|]. split; [by apply unmarshal_string|done].
  - apply Ok_inj in Hm as <-. destruct nesting as [|nesting]; [cbn in Hn; lia|]. split; [by destruct b|cbn; lia].
  - apply marshal_sized_Ok in Hm as (buf & [= <-] & -> & Hb). destruct nesting as [|nesting]; [cbn in Hn; lia|].
    split; [by apply unmarshal_struct|cbn; lia].
  - apply marshal_sized_Ok in Hm as (buf & [= <-] & -> & Hb). destruct nesting as [|nesting]; [cbn in Hn; lia|].
    split; [by apply unmarshal_struct|cbn; lia].
  - apply marshal_sized_Ok in Hm as (buf & Hm & -> & Hb). cbn [length] in Hn. rewrite length_app, length_put_be in Hn.
    split; [|cbn; lia]. destruct nesting as [|nesting]; [lia|].
    unfold value_exact in Hv. rewrite value_all_fields in Hv. erewrite unmarshal_struct; [|done|].
    2: apply unmarshal_marshal_table; (done || lia). unfold table_canon. by destruct fields.
  - apply marshal_sized_Ok in Hm as (buf & Hm & -> & Hb). cbn [length] in Hn. rewrite length_app, length_put_be in Hn.
    split; [|cbn; lia]. destruct nesting as [|nesting]; [lia|]. cbn [unmarshalValue].
    rewrite <- app_comm_cons, <- app_assoc. erewrite decoder_bind_Ok by (apply ReadByte_cons).
    cbv beta. cbn [Z.eqb Pos.eqb orb]. erewrite decoder_bind_Ok by (by apply read_sized_put).
    unfold value_exact in Hv. rewrite value_all_list in Hv. unfold unmarshalArray.
    destruct (Nat.eqb_spec (length buf) 0) as [H0|H0].
    + destruct buf; [|done]. destruct values as [|v values]; [done|]. exfalso. cbn [marshalArray] in Hm.
      apply wapp_Ok in Hm as (l1 & l2 & H1%Wrap_Ok & _ & H). inversion IH as [|? ? Hr _]; inversion Hv as [|? ? Hv1 _]; subst.
      destruct (Hr l1 (length l1) []) as [_ Hpos]; [done..|]. destruct l1; [cbn in Hpos; lia|done].
    + by rewrite (unmarshal_marshal_values values (length buf) nesting buf []) by (done || lia).
Qed.

(** Decoding the bytes of a table gives the table, up to the canonical form. *)
Lemma table_roundtrip table data :
  table_exact table = true → MarshalTable table = Ok data → UnmarshalTable data = Ok (table_canon table).
Proof.
  intros Ht Hm. unfold UnmarshalTable. destruct table as [[[fields|]]|]; cbn in Hm; try (by injection Hm as <-).
  apply unmarshal_marshal_table; [|by apply value_all_fields|done..].
  apply Forall_forall. intros p _. apply unmarshal_marshal_value.
Qed.

(** Whatever the bytes are, decoding returns a table or an error: the nesting suffices and nothing panics. *)
Lemma UnmarshalTable_total data msg : UnmarshalTable data ≠ Panic msg.
Proof. apply unmarshal_table_total. intros buf Hb. by apply unmarshalValue_total. Qed.

Lemma UnmarshalTable_typed data table : is_bytes data → UnmarshalTable data = Ok table → table_typed table = true.
Proof. apply unmarshal_table_typed, unmarshalValue_typed. Qed.

(** *** What the conversion to an integer loses

    An infinite number is equal to its rounding, so it is written as an integer, and comes back as the
    smallest int64; so does every number beyond the range of an int64. *)
Lemma infinity_becomes_integer :
  (data ← MarshalTable (Some (MkStruct (Some [("x"%string, NumberValue (S754_infinity false))]))); UnmarshalTable data) =
    Ok (Some (MkStruct (Some [("x"%string, NumberValue (f64_of_Z (- 2 ^ 63)))]))) ∧
  (data ← MarshalTable (Some (MkStruct (Some [("x"%string, NumberValue (f64_of_Z (2 ^ 63)))]))); UnmarshalTable data) =
    Ok (Some (MkStruct (Some [("x"%string, NumberValue (f64_of_Z (- 2 ^ 63)))]))).
Proof. split; vm_compute; reflexivity. Qed.
