(* ===== verification/AmqpV0Fields.v ===== *)
(** * AMQP 0-9-1: the fields of a method

    The statements that the generated [Unmarshal] and [MarshalBuffer] methods of
    src/mq/amqp/v0/amqp0-9-1.go repeat for every field of a given type, with the name of the field in
    their errors, and the laws that tie reading to writing. *)
From S2P Require Import Prelude Emq Bytes AmqpValues AmqpV0.

(** ** Reading *)

Definition read_msg (name kind : string) : string := "field " ++ name ++ ": read " ++ kind ++ " failed".

Definition read_octet (name : string) : decoder Z := ReadByte (read_msg name "octet").

Definition read_short (name : string) : decoder Z := x ← BufRead (read_msg name "short") 2; mret (get_be x).
Definition read_long (name : string) : decoder Z := x ← BufRead (read_msg name "long") 4; mret (get_be x).
Definition read_longlong (name : string) : decoder Z := x ← BufRead (read_msg name "longlong") 8; mret (get_be x).

Definition read_shortstr (name : string) : decoder string :=
  b ← ReadByte (read_msg name "shortstr");
  s ← BufNext (read_msg name "shortstr") b;
  mret (bytes_string s).

Definition read_longstr (name : string) : decoder string :=
  s ← read_sized (read_msg name "longstr"); mret (bytes_string s).

Definition read_table (name : string) : decoder (option Struct) :=
  b ← read_sized (read_msg name "table"); lift_result (Wrap (read_msg name "table") (UnmarshalTable b)).

Definition read_bits : decoder Z := ReadByte "read bits failed".

(** [bits&m == m] *)
Definition bit (bits m : Z) : bool := Z.land bits m =? m.

(** A decoder reads its whole input. *)
Definition read_all {A} (m : decoder A) (data : list Z) : result go_error A :=
  '(a, buf) ← m data;
  if negb (length buf =? 0)%nat then Err (ErrNew "buffer not fully read, remains %d bytes") else Ok a.

(** ** Writing *)

Definition write_octet (v : Z) : writer := Ok [v].
Definition write_short (v : Z) : writer := Ok (put_be 2 v).
Definition write_long (v : Z) : writer := Ok (put_be 4 v).
Definition write_longlong (v : Z) : writer := Ok (put_be 8 v).

Definition write_shortstr (name : string) (s : string) : writer :=
  let l := Z.of_nat (String.length s) in
  if MaxUint8 <? l then Err (ErrNew (name ++ " can be at most %d bytes long, got %d bytes"))
  else Ok (l :: string_bytes s).

Definition write_longstr (name : string) (s : string) : writer :=
  let l := Z.of_nat (String.length s) in
  if MaxUint32 <? l then Err (ErrNew (name ++ " can be at most %d bytes long, got %d bytes"))
  else Ok (put_be 4 (u32 l) ++ string_bytes s).

Definition write_table (name : string) (table : option Struct) : writer :=
  tableBuf ← Wrap (name ++ " table marshal failed") (MarshalTable table);
  Ok (put_be 4 (u32 (Z.of_nat (length tableBuf))) ++ tableBuf).

(** [if b { bits |= m }] *)
Definition set_bit (b : bool) (m bits : Z) : Z := if b then Z.lor bits m else bits.

(** ** What a field can hold *)

Definition is_octet (v : Z) : Prop := 0 ≤ v < 2 ^ 8.
Definition is_short (v : Z) : Prop := 0 ≤ v < 2 ^ 16.
Definition is_long (v : Z) : Prop := 0 ≤ v < 2 ^ 32.
Definition is_longlong (v : Z) : Prop := 0 ≤ v < 2 ^ 64.
Definition is_shortstr (s : string) : Prop := Z.of_nat (String.length s) ≤ MaxUint8.
Definition is_longstr (s : string) : Prop := Z.of_nat (String.length s) ≤ MaxUint32.

(** A table that the encoder accepts, with numbers that the encoding keeps. *)
Definition table_encodable (table : option Struct) : Prop :=
  table_exact table = true ∧ ∃ data, MarshalTable table = Ok data ∧ Z.of_nat (length data) ≤ MaxUint32.

Lemma codec_octet name v : is_octet v → codec_law (write_octet v) (read_octet name) v.
Proof. intros Hv. by exists [v]. Qed.

Lemma codec_short name v : is_short v → codec_law (write_short v) (read_short name) v.
Proof. intros Hv. by apply codec_be; [lia|]. Qed.

Lemma codec_long name v : is_long v → codec_law (write_long v) (read_long name) v.
Proof. intros Hv. by apply codec_be; [lia|]. Qed.

Lemma codec_longlong name v : is_longlong v → codec_law (write_longlong v) (read_longlong name) v.
Proof. intros Hv. by apply codec_be; [lia|]. Qed.

Lemma codec_shortstr name s : is_shortstr s → codec_law (write_shortstr name s) (read_shortstr name) s.
Proof.
  intros Hs. exists (Z.of_nat (String.length s) :: string_bytes s). unfold write_shortstr.
  destruct (Z.ltb_spec MaxUint8 (Z.of_nat (String.length s))); [unfold is_shortstr in Hs; lia|]. split; [done|].
  intros rest. cbn [app]. unfold read_shortstr. erewrite decoder_bind_Ok by apply ReadByte_cons.
  rewrite <- length_string_bytes. erewrite decoder_bind_Ok by apply BufNext_app. by rewrite string_bytes_roundtrip.
Qed.

Lemma codec_longstr name s : is_longstr s → codec_law (write_longstr name s) (read_longstr name) s.
Proof.
  intros Hs. unfold is_longstr in Hs. eexists. unfold write_longstr.
  destruct (Z.ltb_spec MaxUint32 (Z.of_nat (String.length s))); [lia|]. split; [done|].
  intros rest. rewrite u32_small by lia. rewrite <- length_string_bytes, <- app_assoc. unfold read_longstr.
  erewrite decoder_bind_Ok by (apply read_sized_put; by rewrite length_string_bytes). by rewrite string_bytes_roundtrip.
Qed.

Lemma codec_table name table : table_encodable table → codec_law (write_table name table) (read_table name) (table_canon table).
Proof.
  intros (Ht & data & Hm & Hl). eexists. unfold write_table. rewrite Hm. split; [done|].
  intros rest. rewrite u32_small by lia. rewrite <- app_assoc. unfold read_table.
  erewrite decoder_bind_Ok by (by apply read_sized_put). by rewrite (table_roundtrip table data).
Qed.

Lemma codec_bits bits : codec_law (Ok [bits]) read_bits bits.
Proof. by exists [bits]. Qed.

(** A decoder of the whole input. *)
Lemma codec_all {A} w (r : decoder A) a : codec_law w r a → ∃ l, w = Ok l ∧ read_all r l = Ok a.
Proof.
  intros (l & Hw & Hr). exists l. split; [done|]. unfold read_all.
  specialize (Hr []). rewrite app_nil_r in Hr. by rewrite Hr.
Qed.

(** ** What is read is what a field can hold *)

Lemma reads_octet name : reads is_octet (read_octet name).
Proof. apply reads_ReadByte. Qed.

Lemma reads_short name : reads is_short (read_short name).
Proof. apply reads_be. Qed.

Lemma reads_long name : reads is_long (read_long name).
Proof. apply reads_be. Qed.

Lemma reads_longlong name : reads is_longlong (read_longlong name).
Proof. apply reads_be. Qed.

Lemma reads_shortstr name : reads is_shortstr (read_shortstr name).
Proof.
  eapply reads_bind; [apply reads_ReadByte|]. intros b Hb. cbn beta in Hb. intros buf s rest Hbuf (l & rest' & Hl & [= <- <-])%decoder_bind_inv.
  pose proof (reads_Next _ _ _ _ _ Hbuf Hl) as [_ Hr]. apply BufNext_inv in Hl as [-> Hl]. split; [|done].
  unfold is_shortstr, MaxUint8. rewrite length_bytes_string, Hl; lia.
Qed.

Lemma read_sized_range msg : reads (λ l, is_bytes l ∧ Z.of_nat (length l) ≤ MaxUint32) (read_sized msg).
Proof.
  eapply reads_bind; [apply reads_Read|]. intros x Hx%get_be_range. intros buf l rest Hb Hl.
  pose proof (reads_Next _ _ _ _ _ Hb Hl) as [Hl' Hr]. apply BufNext_inv in Hl as [-> Hl]. split_and!; [done| |done].
  rewrite Hl by lia. unfold MaxUint32. lia.
Qed.

Lemma reads_longstr name : reads is_longstr (read_longstr name).
Proof.
  eapply reads_bind; [apply read_sized_range|]. intros l [_ Hl]. apply reads_ret.
  unfold is_longstr. by rewrite length_bytes_string.
Qed.

Lemma reads_table name : reads (λ t, table_typed t = true) (read_table name).
Proof.
  eapply reads_bind; [apply reads_read_sized|]. intros b Hb. apply reads_lift. intros t. rewrite Wrap_Ok.
  by apply UnmarshalTable_typed.
Qed.

Lemma reads_bits : reads is_octet read_bits.
Proof. apply reads_ReadByte. Qed.

Lemma reads_all {A} (Q : A → Prop) (m : decoder A) data a : reads Q m → is_bytes data → read_all m data = Ok a → Q a.
Proof.
  intros Hm Hb. unfold read_all. destruct (m data) as [[a' rest]| |] eqn:E; cbn; [|done..].
  destruct (negb _); [done|]. intros [= ->]. by apply Hm in E as [? _].
Qed.

(** ** No field panics *)

Lemma total_octet name buf : total_at 0 (read_octet name) buf.
Proof. eapply total0, total_ReadByte. Qed.

Lemma total_short name buf : total_at 0 (read_short name) buf.
Proof. apply total_be. Qed.

Lemma total_long name buf : total_at 0 (read_long name) buf.
Proof. apply total_be. Qed.

Lemma total_longlong name buf : total_at 0 (read_longlong name) buf.
Proof. apply total_be. Qed.

Lemma total_shortstr name buf : total_at 0 (read_shortstr name) buf.
Proof.
  apply total0_bind; [eapply total0, total_ReadByte|]. intros b rest.
  apply total0_bind; [apply total_Next|intros; apply total_ret].
Qed.

Lemma total_longstr name buf : total_at 0 (read_longstr name) buf.
Proof. apply total0_bind; [eapply total0, total_read_sized|intros; apply total_ret]. Qed.

Lemma total_table name buf : total_at 0 (read_table name) buf.
Proof.
  apply total0_bind; [eapply total0, total_read_sized|]. intros b rest. apply total_lift.
  intros msg H%Wrap_Panic. by apply UnmarshalTable_total in H.
Qed.

Lemma total_bits buf : total_at 0 read_bits buf.
Proof. eapply total0, total_ReadByte. Qed.

Lemma total_all {A} (m : decoder A) data msg : total_at 0 m data → read_all m data ≠ Panic msg.
Proof.
  unfold total_at, read_all. destruct (m data) as [[a rest]| |]; cbn; [|done..]. by destruct (negb _).
Qed.

Create HintDb amqp.
#[export] Hint Resolve codec_octet codec_short codec_long codec_longlong codec_shortstr codec_longstr codec_table codec_bits : amqp.
#[export] Hint Resolve reads_octet reads_short reads_long reads_longlong reads_shortstr reads_longstr reads_table reads_bits : amqp.
#[export] Hint Resolve total_octet total_short total_long total_longlong total_shortstr total_longstr total_table total_bits : amqp.
