(* ===== verification/AmqpV0Methods.v ===== *)
(** * AMQP 0-9-1: methods

    The methods of the protocol, as src/mq/amqp/v0/amqp0-9-1.go has them: for each method its struct, its
    identifiers ([FixMethodMeta]), [Unmarshal] and [MarshalBuffer], in the order of the file.  The two
    embedded structs [FrameMeta] and [MethodMeta] are the frame's (AmqpV0Frames.v); a field has its struct's
    name as prefix. *)
From S2P Require Import Prelude Emq Bytes AmqpValues AmqpV0 AmqpV0Fields.

Record MethodMeta : Type := { ClassID : Z; MethodID : Z }.

Definition FrameMethod : Z := 1.
Definition FrameHeader : Z := 2.
Definition FrameBody : Z := 3.
Definition FrameHeartbeat : Z := 8.
Definition FrameMinSize : Z := 4096.
Definition FrameEnd : Z := 206.

(** ** Connection *)

Definition ConnectionClass : Z := 10.
Definition ConnectionStartMethod : Z := 10.
Definition ConnectionStartOkMethod : Z := 11.
Definition ConnectionSecureMethod : Z := 20.
Definition ConnectionSecureOkMethod : Z := 21.
Definition ConnectionTuneMethod : Z := 30.
Definition ConnectionTuneOkMethod : Z := 31.
Definition ConnectionOpenMethod : Z := 40.
Definition ConnectionOpenOkMethod : Z := 41.
Definition ConnectionCloseMethod : Z := 50.
Definition ConnectionCloseOkMethod : Z := 51.

Record ConnectionStart : Type := {
  ConnectionStart_VersionMajor : Z;
  ConnectionStart_VersionMinor : Z;
  ConnectionStart_ServerProperties : option Struct;
  ConnectionStart_Mechanisms : string;
  ConnectionStart_Locales : string;
}.

Definition ConnectionStart_FixMethodMeta : MethodMeta := {| ClassID := ConnectionClass; MethodID := ConnectionStartMethod |}.

Definition ConnectionStart_Unmarshal (data : list Z) : result go_error ConnectionStart :=
  read_all (
    versionMajor_ ← read_octet "version-major";
    versionMinor_ ← read_octet "version-minor";
    serverProperties_ ← read_table "server-properties";
    mechanisms_ ← read_longstr "mechanisms";
    locales_ ← read_longstr "locales";
    mret {| ConnectionStart_VersionMajor := versionMajor_;
      ConnectionStart_VersionMinor := versionMinor_;
      ConnectionStart_ServerProperties := serverProperties_;
      ConnectionStart_Mechanisms := mechanisms_;
      ConnectionStart_Locales := locales_ |}) data.

Definition ConnectionStart_MarshalBuffer (f : ConnectionStart) : writer :=
  write_octet f.(ConnectionStart_VersionMajor) +++
  write_octet f.(ConnectionStart_VersionMinor) +++
  write_table "server-properties" f.(ConnectionStart_ServerProperties) +++
  write_longstr "mechanisms" f.(ConnectionStart_Mechanisms) +++
  write_longstr "locales" f.(ConnectionStart_Locales) +++
  Ok [].

Definition ConnectionStart_all (T : option Struct → Prop) (f : ConnectionStart) : Prop :=
  is_octet f.(ConnectionStart_VersionMajor) ∧
  is_octet f.(ConnectionStart_VersionMinor) ∧
  T f.(ConnectionStart_ServerProperties) ∧
  is_longstr f.(ConnectionStart_Mechanisms) ∧
  is_longstr f.(ConnectionStart_Locales).

Definition ConnectionStart_canon (f : ConnectionStart) : ConnectionStart := {|
  ConnectionStart_VersionMajor := f.(ConnectionStart_VersionMajor);
  ConnectionStart_VersionMinor := f.(ConnectionStart_VersionMinor);
  ConnectionStart_ServerProperties := table_canon f.(ConnectionStart_ServerProperties);
  ConnectionStart_Mechanisms := f.(ConnectionStart_Mechanisms);
  ConnectionStart_Locales := f.(ConnectionStart_Locales) |}.

Record ConnectionStartOk : Type := {
  ConnectionStartOk_ClientProperties : option Struct;
  ConnectionStartOk_Mechanism : string;
  ConnectionStartOk_Response : string;
  ConnectionStartOk_Locale : string;
}.

Definition ConnectionStartOk_FixMethodMeta : MethodMeta := {| ClassID := ConnectionClass; MethodID := ConnectionStartOkMethod |}.

Definition ConnectionStartOk_Unmarshal (data : list Z) : result go_error ConnectionStartOk :=
  read_all (
    clientProperties_ ← read_table "client-properties";
    mechanism_ ← read_shortstr "mechanism";
    response_ ← read_longstr "response";
    locale_ ← read_shortstr "locale";
    mret {| ConnectionStartOk_ClientProperties := clientProperties_;
      ConnectionStartOk_Mechanism := mechanism_;
      ConnectionStartOk_Response := response_;
      ConnectionStartOk_Locale := locale_ |}) data.

Definition ConnectionStartOk_MarshalBuffer (f : ConnectionStartOk) : writer :=
  write_table "client-properties" f.(ConnectionStartOk_ClientProperties) +++
  write_shortstr "mechanism" f.(ConnectionStartOk_Mechanism) +++
  write_longstr "response" f.(ConnectionStartOk_Response) +++
  write_shortstr "locale" f.(ConnectionStartOk_Locale) +++
  Ok [].

Definition ConnectionStartOk_all (T : option Struct → Prop) (f : ConnectionStartOk) : Prop :=
  T f.(ConnectionStartOk_ClientProperties) ∧
  is_shortstr f.(ConnectionStartOk_Mechanism) ∧
  is_longstr f.(ConnectionStartOk_Response) ∧
  is_shortstr f.(ConnectionStartOk_Locale).

Definition ConnectionStartOk_canon (f : ConnectionStartOk) : ConnectionStartOk := {|
  ConnectionStartOk_ClientProperties := table_canon f.(ConnectionStartOk_ClientProperties);
  ConnectionStartOk_Mechanism := f.(ConnectionStartOk_Mechanism);
  ConnectionStartOk_Response := f.(ConnectionStartOk_Response);
  ConnectionStartOk_Locale := f.(ConnectionStartOk_Locale) |}.

Record ConnectionSecure : Type := {
  ConnectionSecure_Challenge : string;
}.

Definition ConnectionSecure_FixMethodMeta : MethodMeta := {| ClassID := ConnectionClass; MethodID := ConnectionSecureMethod |}.

Definition ConnectionSecure_Unmarshal (data : list Z) : result go_error ConnectionSecure :=
  read_all (
    challenge_ ← read_longstr "challenge";
    mret {| ConnectionSecure_Challenge := challenge_ |}) data.

Definition ConnectionSecure_MarshalBuffer (f : ConnectionSecure) : writer :=
  write_longstr "challenge" f.(ConnectionSecure_Challenge) +++
  Ok [].

Definition ConnectionSecure_all (T : option Struct → Prop) (f : ConnectionSecure) : Prop :=
  is_longstr f.(ConnectionSecure_Challenge).

Record ConnectionSecureOk : Type := {
  ConnectionSecureOk_Response : string;
}.

Definition ConnectionSecureOk_FixMethodMeta : MethodMeta := {| ClassID := ConnectionClass; MethodID := ConnectionSecureOkMethod |}.

Definition ConnectionSecureOk_Unmarshal (data : list Z) : result go_error ConnectionSecureOk :=
  read_all (
    response_ ← read_longstr "response";
    mret {| ConnectionSecureOk_Response := response_ |}) data.

Definition ConnectionSecureOk_MarshalBuffer (f : ConnectionSecureOk) : writer :=
  write_longstr "response" f.(ConnectionSecureOk_Response) +++
  Ok [].

Definition ConnectionSecureOk_all (T : option Struct → Prop) (f : ConnectionSecureOk) : Prop :=
  is_longstr f.(ConnectionSecureOk_Response).

Record ConnectionTune : Type := {
  ConnectionTune_ChannelMax : Z;
  ConnectionTune_FrameMax : Z;
  ConnectionTune_Heartbeat : Z;
}.

Definition ConnectionTune_FixMethodMeta : MethodMeta := {| ClassID := ConnectionClass; MethodID := ConnectionTuneMethod |}.

Definition ConnectionTune_Unmarshal (data : list Z) : result go_error ConnectionTune :=
  read_all (
    channelMax_ ← read_short "channel-max";
    frameMax_ ← read_long "frame-max";
    heartbeat_ ← read_short "heartbeat";
    mret {| ConnectionTune_ChannelMax := channelMax_;
      ConnectionTune_FrameMax := frameMax_;
      ConnectionTune_Heartbeat := heartbeat_ |}) data.

Definition ConnectionTune_MarshalBuffer (f : ConnectionTune) : writer :=
  write_short f.(ConnectionTune_ChannelMax) +++
  write_long f.(ConnectionTune_FrameMax) +++
  write_short f.(ConnectionTune_Heartbeat) +++
  Ok [].

Definition ConnectionTune_all (T : option Struct → Prop) (f : ConnectionTune) : Prop :=
  is_short f.(ConnectionTune_ChannelMax) ∧
  is_long f.(ConnectionTune_FrameMax) ∧
  is_short f.(ConnectionTune_Heartbeat).

Record ConnectionTuneOk : Type := {
  ConnectionTuneOk_ChannelMax : Z;
  ConnectionTuneOk_FrameMax : Z;
  ConnectionTuneOk_Heartbeat : Z;
}.

Definition ConnectionTuneOk_FixMethodMeta : MethodMeta := {| ClassID := ConnectionClass; MethodID := ConnectionTuneOkMethod |}.

Definition ConnectionTuneOk_Unmarshal (data : list Z) : result go_error ConnectionTuneOk :=
  read_all (
    channelMax_ ← read_short "channel-max";
    frameMax_ ← read_long "frame-max";
    heartbeat_ ← read_short "heartbeat";
    mret {| ConnectionTuneOk_ChannelMax := channelMax_;
      ConnectionTuneOk_FrameMax := frameMax_;
      ConnectionTuneOk_Heartbeat := heartbeat_ |}) data.

Definition ConnectionTuneOk_MarshalBuffer (f : ConnectionTuneOk) : writer :=
  write_short f.(ConnectionTuneOk_ChannelMax) +++
  write_long f.(ConnectionTuneOk_FrameMax) +++
  write_short f.(ConnectionTuneOk_Heartbeat) +++
  Ok [].

Definition ConnectionTuneOk_all (T : option Struct → Prop) (f : ConnectionTuneOk) : Prop :=
  is_short f.(ConnectionTuneOk_ChannelMax) ∧
  is_long f.(ConnectionTuneOk_FrameMax) ∧
  is_short f.(ConnectionTuneOk_Heartbeat).

Record ConnectionOpen : Type := {
  ConnectionOpen_VirtualHost : string;
  ConnectionOpen_Reserved1 : string;
  ConnectionOpen_Reserved2 : bool;
}.

Definition ConnectionOpen_FixMethodMeta : MethodMeta := {| ClassID := ConnectionClass; MethodID := ConnectionOpenMethod |}.

Definition ConnectionOpen_Unmarshal (data : list Z) : result go_error ConnectionOpen :=
  read_all (
    virtualHost_ ← read_shortstr "virtual-host";
    reserved1_ ← read_shortstr "reserved-1";
    bits ← read_bits;
    mret {| ConnectionOpen_VirtualHost := virtualHost_;
      ConnectionOpen_Reserved1 := reserved1_;
      ConnectionOpen_Reserved2 := bit bits 1 |}) data.

Definition ConnectionOpen_MarshalBuffer (f : ConnectionOpen) : writer :=
  write_shortstr "virtual-host" f.(ConnectionOpen_VirtualHost) +++
  write_shortstr "reserved-1" f.(ConnectionOpen_Reserved1) +++
  Ok [set_bit f.(ConnectionOpen_Reserved2) 1 0] +++
  Ok [].

Definition ConnectionOpen_all (T : option Struct → Prop) (f : ConnectionOpen) : Prop :=
  is_shortstr f.(ConnectionOpen_VirtualHost) ∧
  is_shortstr f.(ConnectionOpen_Reserved1).

Record ConnectionOpenOk : Type := {
  ConnectionOpenOk_Reserved1 : string;
}.

Definition ConnectionOpenOk_FixMethodMeta : MethodMeta := {| ClassID := ConnectionClass; MethodID := ConnectionOpenOkMethod |}.

Definition ConnectionOpenOk_Unmarshal (data : list Z) : result go_error ConnectionOpenOk :=
  read_all (
    reserved1_ ← read_shortstr "reserved-1";
    mret {| ConnectionOpenOk_Reserved1 := reserved1_ |}) data.

Definition ConnectionOpenOk_MarshalBuffer (f : ConnectionOpenOk) : writer :=
  write_shortstr "reserved-1" f.(ConnectionOpenOk_Reserved1) +++
  Ok [].

Definition ConnectionOpenOk_all (T : option Struct → Prop) (f : ConnectionOpenOk) : Prop :=
  is_shortstr f.(ConnectionOpenOk_Reserved1).

Record ConnectionClose : Type := {
  ConnectionClose_ReplyCode : Z;
  ConnectionClose_ReplyText : string;
  ConnectionClose_ClassID : Z;
  ConnectionClose_MethodID : Z;
}.

Definition ConnectionClose_FixMethodMeta : MethodMeta := {| ClassID := ConnectionClass; MethodID := ConnectionCloseMethod |}.

Definition ConnectionClose_Unmarshal (data : list Z) : result go_error ConnectionClose :=
  read_all (
    replyCode_ ← read_short "reply-code";
    replyText_ ← read_shortstr "reply-text";
    classID_ ← read_short "class-id";
    methodID_ ← read_short "method-id";
    mret {| ConnectionClose_ReplyCode := replyCode_;
      ConnectionClose_ReplyText := replyText_;
      ConnectionClose_ClassID := classID_;
      ConnectionClose_MethodID := methodID_ |}) data.

Definition ConnectionClose_MarshalBuffer (f : ConnectionClose) : writer :=
  write_short f.(ConnectionClose_ReplyCode) +++
  write_shortstr "reply-text" f.(ConnectionClose_ReplyText) +++
  write_short f.(ConnectionClose_ClassID) +++
  write_short f.(ConnectionClose_MethodID) +++
  Ok [].

Definition ConnectionClose_all (T : option Struct → Prop) (f : ConnectionClose) : Prop :=
  is_short f.(ConnectionClose_ReplyCode) ∧
  is_shortstr f.(ConnectionClose_ReplyText) ∧
  is_short f.(ConnectionClose_ClassID) ∧
  is_short f.(ConnectionClose_MethodID).

Record ConnectionCloseOk : Type := MkConnectionCloseOk {}.

Definition ConnectionCloseOk_FixMethodMeta : MethodMeta := {| ClassID := ConnectionClass; MethodID := ConnectionCloseOkMethod |}.

Definition ConnectionCloseOk_Unmarshal (data : list Z) : result go_error ConnectionCloseOk :=
  if (0 <? length data)%nat then Err (ErrNew "buffer not fully read, remains %d bytes") else Ok MkConnectionCloseOk.

Definition ConnectionCloseOk_MarshalBuffer (f : ConnectionCloseOk) : writer :=
  Ok [].

Definition ConnectionCloseOk_all (T : option Struct → Prop) (f : ConnectionCloseOk) : Prop :=
  True.

(** ** Channel *)

Definition ChannelClass : Z := 20.
Definition ChannelOpenMethod : Z := 10.
Definition ChannelOpenOkMethod : Z := 11.
Definition ChannelFlowMethod : Z := 20.
Definition ChannelFlowOkMethod : Z := 21.
Definition ChannelCloseMethod : Z := 40.
Definition ChannelCloseOkMethod : Z := 41.

Record ChannelOpen : Type := {
  ChannelOpen_Reserved1 : string;
}.

Definition ChannelOpen_FixMethodMeta : MethodMeta := {| ClassID := ChannelClass; MethodID := ChannelOpenMethod |}.

Definition ChannelOpen_Unmarshal (data : list Z) : result go_error ChannelOpen :=
  read_all (
    reserved1_ ← read_shortstr "reserved-1";
    mret {| ChannelOpen_Reserved1 := reserved1_ |}) data.

Definition ChannelOpen_MarshalBuffer (f : ChannelOpen) : writer :=
  write_shortstr "reserved-1" f.(ChannelOpen_Reserved1) +++
  Ok [].

Definition ChannelOpen_all (T : option Struct → Prop) (f : ChannelOpen) : Prop :=
  is_shortstr f.(ChannelOpen_Reserved1).

Record ChannelOpenOk : Type := {
  ChannelOpenOk_Reserved1 : string;
}.

Definition ChannelOpenOk_FixMethodMeta : MethodMeta := {| ClassID := ChannelClass; MethodID := ChannelOpenOkMethod |}.

Definition ChannelOpenOk_Unmarshal (data : list Z) : result go_error ChannelOpenOk :=
  read_all (
    reserved1_ ← read_longstr "reserved-1";
    mret {| ChannelOpenOk_Reserved1 := reserved1_ |}) data.

Definition ChannelOpenOk_MarshalBuffer (f : ChannelOpenOk) : writer :=
  write_longstr "reserved-1" f.(ChannelOpenOk_Reserved1) +++
  Ok [].

Definition ChannelOpenOk_all (T : option Struct → Prop) (f : ChannelOpenOk) : Prop :=
  is_longstr f.(ChannelOpenOk_Reserved1).

Record ChannelFlow : Type := {
  ChannelFlow_Active : bool;
}.

Definition ChannelFlow_FixMethodMeta : MethodMeta := {| ClassID := ChannelClass; MethodID := ChannelFlowMethod |}.

Definition ChannelFlow_Unmarshal (data : list Z) : result go_error ChannelFlow :=
  read_all (
    bits ← read_bits;
    mret {| ChannelFlow_Active := bit bits 1 |}) data.

Definition ChannelFlow_MarshalBuffer (f : ChannelFlow) : writer :=
  Ok [set_bit f.(ChannelFlow_Active) 1 0] +++
  Ok [].

Definition ChannelFlow_all (T : option Struct → Prop) (f : ChannelFlow) : Prop :=
  True.

Record ChannelFlowOk : Type := {
  ChannelFlowOk_Active : bool;
}.

Definition ChannelFlowOk_FixMethodMeta : MethodMeta := {| ClassID := ChannelClass; MethodID := ChannelFlowOkMethod |}.

Definition ChannelFlowOk_Unmarshal (data : list Z) : result go_error ChannelFlowOk :=
  read_all (
    bits ← read_bits;
    mret {| ChannelFlowOk_Active := bit bits 1 |}) data.

Definition ChannelFlowOk_MarshalBuffer (f : ChannelFlowOk) : writer :=
  Ok [set_bit f.(ChannelFlowOk_Active) 1 0] +++
  Ok [].

Definition ChannelFlowOk_all (T : option Struct → Prop) (f : ChannelFlowOk) : Prop :=
  True.

Record ChannelClose : Type := {
  ChannelClose_ReplyCode : Z;
  ChannelClose_ReplyText : string;
  ChannelClose_ClassID : Z;
  ChannelClose_MethodID : Z;
}.

Definition ChannelClose_FixMethodMeta : MethodMeta := {| ClassID := ChannelClass; MethodID := ChannelCloseMethod |}.

Definition ChannelClose_Unmarshal (data : list Z) : result go_error ChannelClose :=
  read_all (
    replyCode_ ← read_short "reply-code";
    replyText_ ← read_shortstr "reply-text";
    classID_ ← read_short "class-id";
    methodID_ ← read_short "method-id";
    mret {| ChannelClose_ReplyCode := replyCode_;
      ChannelClose_ReplyText := replyText_;
      ChannelClose_ClassID := classID_;
      ChannelClose_MethodID := methodID_ |}) data.

Definition ChannelClose_MarshalBuffer (f : ChannelClose) : writer :=
  write_short f.(ChannelClose_ReplyCode) +++
  write_shortstr "reply-text" f.(ChannelClose_ReplyText) +++
  write_short f.(ChannelClose_ClassID) +++
  write_short f.(ChannelClose_MethodID) +++
  Ok [].

Definition ChannelClose_all (T : option Struct → Prop) (f : ChannelClose) : Prop :=
  is_short f.(ChannelClose_ReplyCode) ∧
  is_shortstr f.(ChannelClose_ReplyText) ∧
  is_short f.(ChannelClose_ClassID) ∧
  is_short f.(ChannelClose_MethodID).

Record ChannelCloseOk : Type := MkChannelCloseOk {}.

Definition ChannelCloseOk_FixMethodMeta : MethodMeta := {| ClassID := ChannelClass; MethodID := ChannelCloseOkMethod |}.

Definition ChannelCloseOk_Unmarshal (data : list Z) : result go_error ChannelCloseOk :=
  if (0 <? length data)%nat then Err (ErrNew "buffer not fully read, remains %d bytes") else Ok MkChannelCloseOk.

Definition ChannelCloseOk_MarshalBuffer (f : ChannelCloseOk) : writer :=
  Ok [].

Definition ChannelCloseOk_all (T : option Struct → Prop) (f : ChannelCloseOk) : Prop :=
  True.

(** ** Exchange *)

Definition ExchangeClass : Z := 40.
Definition ExchangeDeclareMethod : Z := 10.
Definition ExchangeDeclareOkMethod : Z := 11.
Definition ExchangeDeleteMethod : Z := 20.
Definition ExchangeDeleteOkMethod : Z := 21.

Record ExchangeDeclare : Type := {
  ExchangeDeclare_Reserved1 : Z;
  ExchangeDeclare_Exchange : string;
  ExchangeDeclare_Type : string;
  ExchangeDeclare_Passive : bool;
  ExchangeDeclare_Durable : bool;
  ExchangeDeclare_AutoDelete : bool;
  ExchangeDeclare_Internal : bool;
  ExchangeDeclare_NoWait : bool;
  ExchangeDeclare_Arguments : option Struct;
}.

Definition ExchangeDeclare_FixMethodMeta : MethodMeta := {| ClassID := ExchangeClass; MethodID := ExchangeDeclareMethod |}.

Definition ExchangeDeclare_Unmarshal (data : list Z) : result go_error ExchangeDeclare :=
  read_all (
    reserved1_ ← read_short "reserved-1";
    exchange_ ← read_shortstr "exchange";
    type_ ← read_shortstr "type";
    bits ← read_bits;
    arguments_ ← read_table "arguments";
    mret {| ExchangeDeclare_Reserved1 := reserved1_;
      ExchangeDeclare_Exchange := exchange_;
      ExchangeDeclare_Type := type_;
      ExchangeDeclare_Passive := bit bits 1;
      ExchangeDeclare_Durable := bit bits 2;
      ExchangeDeclare_AutoDelete := bit bits 4;
      ExchangeDeclare_Internal := bit bits 8;
      ExchangeDeclare_NoWait := bit bits 16;
      ExchangeDeclare_Arguments := arguments_ |}) data.

Definition ExchangeDeclare_MarshalBuffer (f : ExchangeDeclare) : writer :=
  write_short f.(ExchangeDeclare_Reserved1) +++
  write_shortstr "exchange" f.(ExchangeDeclare_Exchange) +++
  write_shortstr "type" f.(ExchangeDeclare_Type) +++
  Ok [set_bit f.(ExchangeDeclare_NoWait) 16 (set_bit f.(ExchangeDeclare_Internal) 8 (set_bit f.(ExchangeDeclare_AutoDelete) 4 (set_bit f.(ExchangeDeclare_Durable) 2 (set_bit f.(ExchangeDeclare_Passive) 1 0))))] +++
  write_table "arguments" f.(ExchangeDeclare_Arguments) +++
  Ok [].

Definition ExchangeDeclare_all (T : option Struct → Prop) (f : ExchangeDeclare) : Prop :=
  is_short f.(ExchangeDeclare_Reserved1) ∧
  is_shortstr f.(ExchangeDeclare_Exchange) ∧
  is_shortstr f.(ExchangeDeclare_Type) ∧
  T f.(ExchangeDeclare_Arguments).

Definition ExchangeDeclare_canon (f : ExchangeDeclare) : ExchangeDeclare := {|
  ExchangeDeclare_Reserved1 := f.(ExchangeDeclare_Reserved1);
  ExchangeDeclare_Exchange := f.(ExchangeDeclare_Exchange);
  ExchangeDeclare_Type := f.(ExchangeDeclare_Type);
  ExchangeDeclare_Passive := f.(ExchangeDeclare_Passive);
  ExchangeDeclare_Durable := f.(ExchangeDeclare_Durable);
  ExchangeDeclare_AutoDelete := f.(ExchangeDeclare_AutoDelete);
  ExchangeDeclare_Internal := f.(ExchangeDeclare_Internal);
  ExchangeDeclare_NoWait := f.(ExchangeDeclare_NoWait);
  ExchangeDeclare_Arguments := table_canon f.(ExchangeDeclare_Arguments) |}.

Record ExchangeDeclareOk : Type := MkExchangeDeclareOk {}.

Definition ExchangeDeclareOk_FixMethodMeta : MethodMeta := {| ClassID := ExchangeClass; MethodID := ExchangeDeclareOkMethod |}.

Definition ExchangeDeclareOk_Unmarshal (data : list Z) : result go_error ExchangeDeclareOk :=
  if (0 <? length data)%nat then Err (ErrNew "buffer not fully read, remains %d bytes") else Ok MkExchangeDeclareOk.

Definition ExchangeDeclareOk_MarshalBuffer (f : ExchangeDeclareOk) : writer :=
  Ok [].

Definition ExchangeDeclareOk_all (T : option Struct → Prop) (f : ExchangeDeclareOk) : Prop :=
  True.

Record ExchangeDelete : Type := {
  ExchangeDelete_Reserved1 : Z;
  ExchangeDelete_Exchange : string;
  ExchangeDelete_IfUnused : bool;
  ExchangeDelete_NoWait : bool;
}.

Definition ExchangeDelete_FixMethodMeta : MethodMeta := {| ClassID := ExchangeClass; MethodID := ExchangeDeleteMethod |}.

Definition ExchangeDelete_Unmarshal (data : list Z) : result go_error ExchangeDelete :=
  read_all (
    reserved1_ ← read_short "reserved-1";
    exchange_ ← read_shortstr "exchange";
    bits ← read_bits;
    mret {| ExchangeDelete_Reserved1 := reserved1_;
      ExchangeDelete_Exchange := exchange_;
      ExchangeDelete_IfUnused := bit bits 1;
      ExchangeDelete_NoWait := bit bits 2 |}) data.

Definition ExchangeDelete_MarshalBuffer (f : ExchangeDelete) : writer :=
  write_short f.(ExchangeDelete_Reserved1) +++
  write_shortstr "exchange" f.(ExchangeDelete_Exchange) +++
  Ok [set_bit f.(ExchangeDelete_NoWait) 2 (set_bit f.(ExchangeDelete_IfUnused) 1 0)] +++
  Ok [].

Definition ExchangeDelete_all (T : option Struct → Prop) (f : ExchangeDelete) : Prop :=
  is_short f.(ExchangeDelete_Reserved1) ∧
  is_shortstr f.(ExchangeDelete_Exchange).

Record ExchangeDeleteOk : Type := MkExchangeDeleteOk {}.

Definition ExchangeDeleteOk_FixMethodMeta : MethodMeta := {| ClassID := ExchangeClass; MethodID := ExchangeDeleteOkMethod |}.

Definition ExchangeDeleteOk_Unmarshal (data : list Z) : result go_error ExchangeDeleteOk :=
  if (0 <? length data)%nat then Err (ErrNew "buffer not fully read, remains %d bytes") else Ok MkExchangeDeleteOk.

Definition ExchangeDeleteOk_MarshalBuffer (f : ExchangeDeleteOk) : writer :=
  Ok [].

Definition ExchangeDeleteOk_all (T : option Struct → Prop) (f : ExchangeDeleteOk) : Prop :=
  True.

(** ** Queue *)

Definition QueueClass : Z := 50.
Definition QueueDeclareMethod : Z := 10.
Definition QueueDeclareOkMethod : Z := 11.
Definition QueueBindMethod : Z := 20.
Definition QueueBindOkMethod : Z := 21.
Definition QueueUnbindMethod : Z := 50.
Definition QueueUnbindOkMethod : Z := 51.
Definition QueuePurgeMethod : Z := 30.
Definition QueuePurgeOkMethod : Z := 31.
Definition QueueDeleteMethod : Z := 40.
Definition QueueDeleteOkMethod : Z := 41.

Record QueueDeclare : Type := {
  QueueDeclare_Reserved1 : Z;
  QueueDeclare_Queue : string;
  QueueDeclare_Passive : bool;
  QueueDeclare_Durable : bool;
  QueueDeclare_Exclusive : bool;
  QueueDeclare_AutoDelete : bool;
  QueueDeclare_NoWait : bool;
  QueueDeclare_Arguments : option Struct;
}.

Definition QueueDeclare_FixMethodMeta : MethodMeta := {| ClassID := QueueClass; MethodID := QueueDeclareMethod |}.

Definition QueueDeclare_Unmarshal (data : list Z) : result go_error QueueDeclare :=
  read_all (
    reserved1_ ← read_short "reserved-1";
    queue_ ← read_shortstr "queue";
    bits ← read_bits;
    arguments_ ← read_table "arguments";
    mret {| QueueDeclare_Reserved1 := reserved1_;
      QueueDeclare_Queue := queue_;
      QueueDeclare_Passive := bit bits 1;
      QueueDeclare_Durable := bit bits 2;
      QueueDeclare_Exclusive := bit bits 4;
      QueueDeclare_AutoDelete := bit bits 8;
      QueueDeclare_NoWait := bit bits 16;
      QueueDeclare_Arguments := arguments_ |}) data.

Definition QueueDeclare_MarshalBuffer (f : QueueDeclare) : writer :=
  write_short f.(QueueDeclare_Reserved1) +++
  write_shortstr "queue" f.(QueueDeclare_Queue) +++
  Ok [set_bit f.(QueueDeclare_NoWait) 16 (set_bit f.(QueueDeclare_AutoDelete) 8 (set_bit f.(QueueDeclare_Exclusive) 4 (set_bit f.(QueueDeclare_Durable) 2 (set_bit f.(QueueDeclare_Passive) 1 0))))] +++
  write_table "arguments" f.(QueueDeclare_Arguments) +++
  Ok [].

Definition QueueDeclare_all (T : option Struct → Prop) (f : QueueDeclare) : Prop :=
  is_short f.(QueueDeclare_Reserved1) ∧
  is_shortstr f.(QueueDeclare_Queue) ∧
  T f.(QueueDeclare_Arguments).

Definition QueueDeclare_canon (f : QueueDeclare) : QueueDeclare := {|
  QueueDeclare_Reserved1 := f.(QueueDeclare_Reserved1);
  QueueDeclare_Queue := f.(QueueDeclare_Queue);
  QueueDeclare_Passive := f.(QueueDeclare_Passive);
  QueueDeclare_Durable := f.(QueueDeclare_Durable);
  QueueDeclare_Exclusive := f.(QueueDeclare_Exclusive);
  QueueDeclare_AutoDelete := f.(QueueDeclare_AutoDelete);
  QueueDeclare_NoWait := f.(QueueDeclare_NoWait);
  QueueDeclare_Arguments := table_canon f.(QueueDeclare_Arguments) |}.

Record QueueDeclareOk : Type := {
  QueueDeclareOk_Queue : string;
  QueueDeclareOk_MessageCount : Z;
  QueueDeclareOk_ConsumerCount : Z;
}.

Definition QueueDeclareOk_FixMethodMeta : MethodMeta := {| ClassID := QueueClass; MethodID := QueueDeclareOkMethod |}.

Definition QueueDeclareOk_Unmarshal (data : list Z) : result go_error QueueDeclareOk :=
  read_all (
    queue_ ← read_shortstr "queue";
    messageCount_ ← read_long "message-count";
    consumerCount_ ← read_long "consumer-count";
    mret {| QueueDeclareOk_Queue := queue_;
      QueueDeclareOk_MessageCount := messageCount_;
      QueueDeclareOk_ConsumerCount := consumerCount_ |}) data.

Definition QueueDeclareOk_MarshalBuffer (f : QueueDeclareOk) : writer :=
  write_shortstr "queue" f.(QueueDeclareOk_Queue) +++
  write_long f.(QueueDeclareOk_MessageCount) +++
  write_long f.(QueueDeclareOk_ConsumerCount) +++
  Ok [].

Definition QueueDeclareOk_all (T : option Struct → Prop) (f : QueueDeclareOk) : Prop :=
  is_shortstr f.(QueueDeclareOk_Queue) ∧
  is_long f.(QueueDeclareOk_MessageCount) ∧
  is_long f.(QueueDeclareOk_ConsumerCount).

Record QueueBind : Type := {
  QueueBind_Reserved1 : Z;
  QueueBind_Queue : string;
  QueueBind_Exchange : string;
  QueueBind_RoutingKey : string;
  QueueBind_NoWait : bool;
  QueueBind_Arguments : option Struct;
}.

Definition QueueBind_FixMethodMeta : MethodMeta := {| ClassID := QueueClass; MethodID := QueueBindMethod |}.

Definition QueueBind_Unmarshal (data : list Z) : result go_error QueueBind :=
  read_all (
    reserved1_ ← read_short "reserved-1";
    queue_ ← read_shortstr "queue";
    exchange_ ← read_shortstr "exchange";
    routingKey_ ← read_shortstr "routing-key";
    bits ← read_bits;
    arguments_ ← read_table "arguments";
    mret {| QueueBind_Reserved1 := reserved1_;
      QueueBind_Queue := queue_;
      QueueBind_Exchange := exchange_;
      QueueBind_RoutingKey := routingKey_;
      QueueBind_NoWait := bit bits 1;
      QueueBind_Arguments := arguments_ |}) data.

Definition QueueBind_MarshalBuffer (f : QueueBind) : writer :=
  write_short f.(QueueBind_Reserved1) +++
  write_shortstr "queue" f.(QueueBind_Queue) +++
  write_shortstr "exchange" f.(QueueBind_Exchange) +++
  write_shortstr "routing-key" f.(QueueBind_RoutingKey) +++
  Ok [set_bit f.(QueueBind_NoWait) 1 0] +++
  write_table "arguments" f.(QueueBind_Arguments) +++
  Ok [].

Definition QueueBind_all (T : option Struct → Prop) (f : QueueBind) : Prop :=
  is_short f.(QueueBind_Reserved1) ∧
  is_shortstr f.(QueueBind_Queue) ∧
  is_shortstr f.(QueueBind_Exchange) ∧
  is_shortstr f.(QueueBind_RoutingKey) ∧
  T f.(QueueBind_Arguments).

Definition QueueBind_canon (f : QueueBind) : QueueBind := {|
  QueueBind_Reserved1 := f.(QueueBind_Reserved1);
  QueueBind_Queue := f.(QueueBind_Queue);
  QueueBind_Exchange := f.(QueueBind_Exchange);
  QueueBind_RoutingKey := f.(QueueBind_RoutingKey);
  QueueBind_NoWait := f.(QueueBind_NoWait);
  QueueBind_Arguments := table_canon f.(QueueBind_Arguments) |}.

Record QueueBindOk : Type := MkQueueBindOk {}.

Definition QueueBindOk_FixMethodMeta : MethodMeta := {| ClassID := QueueClass; MethodID := QueueBindOkMethod |}.

Definition QueueBindOk_Unmarshal (data : list Z) : result go_error QueueBindOk :=
  if (0 <? length data)%nat then Err (ErrNew "buffer not fully read, remains %d bytes") else Ok MkQueueBindOk.

Definition QueueBindOk_MarshalBuffer (f : QueueBindOk) : writer :=
  Ok [].

Definition QueueBindOk_all (T : option Struct → Prop) (f : QueueBindOk) : Prop :=
  True.

Record QueueUnbind : Type := {
  QueueUnbind_Reserved1 : Z;
  QueueUnbind_Queue : string;
  QueueUnbind_Exchange : string;
  QueueUnbind_RoutingKey : string;
  QueueUnbind_Arguments : option Struct;
}.

Definition QueueUnbind_FixMethodMeta : MethodMeta := {| ClassID := QueueClass; MethodID := QueueUnbindMethod |}.

Definition QueueUnbind_Unmarshal (data : list Z) : result go_error QueueUnbind :=
  read_all (
    reserved1_ ← read_short "reserved-1";
    queue_ ← read_shortstr "queue";
    exchange_ ← read_shortstr "exchange";
    routingKey_ ← read_shortstr "routing-key";
    arguments_ ← read_table "arguments";
    mret {| QueueUnbind_Reserved1 := reserved1_;
      QueueUnbind_Queue := queue_;
      QueueUnbind_Exchange := exchange_;
      QueueUnbind_RoutingKey := routingKey_;
      QueueUnbind_Arguments := arguments_ |}) data.

Definition QueueUnbind_MarshalBuffer (f : QueueUnbind) : writer :=
  write_short f.(QueueUnbind_Reserved1) +++
  write_shortstr "queue" f.(QueueUnbind_Queue) +++
  write_shortstr "exchange" f.(QueueUnbind_Exchange) +++
  write_shortstr "routing-key" f.(QueueUnbind_RoutingKey) +++
  write_table "arguments" f.(QueueUnbind_Arguments) +++
  Ok [].

Definition QueueUnbind_all (T : option Struct → Prop) (f : QueueUnbind) : Prop :=
  is_short f.(QueueUnbind_Reserved1) ∧
  is_shortstr f.(QueueUnbind_Queue) ∧
  is_shortstr f.(QueueUnbind_Exchange) ∧
  is_shortstr f.(QueueUnbind_RoutingKey) ∧
  T f.(QueueUnbind_Arguments).

Definition QueueUnbind_canon (f : QueueUnbind) : QueueUnbind := {|
  QueueUnbind_Reserved1 := f.(QueueUnbind_Reserved1);
  QueueUnbind_Queue := f.(QueueUnbind_Queue);
  QueueUnbind_Exchange := f.(QueueUnbind_Exchange);
  QueueUnbind_RoutingKey := f.(QueueUnbind_RoutingKey);
  QueueUnbind_Arguments := table_canon f.(QueueUnbind_Arguments) |}.

Record QueueUnbindOk : Type := MkQueueUnbindOk {}.

Definition QueueUnbindOk_FixMethodMeta : MethodMeta := {| ClassID := QueueClass; MethodID := QueueUnbindOkMethod |}.

Definition QueueUnbindOk_Unmarshal (data : list Z) : result go_error QueueUnbindOk :=
  if (0 <? length data)%nat then Err (ErrNew "buffer not fully read, remains %d bytes") else Ok MkQueueUnbindOk.

Definition QueueUnbindOk_MarshalBuffer (f : QueueUnbindOk) : writer :=
  Ok [].

Definition QueueUnbindOk_all (T : option Struct → Prop) (f : QueueUnbindOk) : Prop :=
  True.

Record QueuePurge : Type := {
  QueuePurge_Reserved1 : Z;
  QueuePurge_Queue : string;
  QueuePurge_NoWait : bool;
}.

Definition QueuePurge_FixMethodMeta : MethodMeta := {| ClassID := QueueClass; MethodID := QueuePurgeMethod |}.

Definition QueuePurge_Unmarshal (data : list Z) : result go_error QueuePurge :=
  read_all (
    reserved1_ ← read_short "reserved-1";
    queue_ ← read_shortstr "queue";
    bits ← read_bits;
    mret {| QueuePurge_Reserved1 := reserved1_;
      QueuePurge_Queue := queue_;
      QueuePurge_NoWait := bit bits 1 |}) data.

Definition QueuePurge_MarshalBuffer (f : QueuePurge) : writer :=
  write_short f.(QueuePurge_Reserved1) +++
  write_shortstr "queue" f.(QueuePurge_Queue) +++
  Ok [set_bit f.(QueuePurge_NoWait) 1 0] +++
  Ok [].

Definition QueuePurge_all (T : option Struct → Prop) (f : QueuePurge) : Prop :=
  is_short f.(QueuePurge_Reserved1) ∧
  is_shortstr f.(QueuePurge_Queue).

Record QueuePurgeOk : Type := {
  QueuePurgeOk_MessageCount : Z;
}.

Definition QueuePurgeOk_FixMethodMeta : MethodMeta := {| ClassID := QueueClass; MethodID := QueuePurgeOkMethod |}.

Definition QueuePurgeOk_Unmarshal (data : list Z) : result go_error QueuePurgeOk :=
  read_all (
    messageCount_ ← read_long "message-count";
    mret {| QueuePurgeOk_MessageCount := messageCount_ |}) data.

Definition QueuePurgeOk_MarshalBuffer (f : QueuePurgeOk) : writer :=
  write_long f.(QueuePurgeOk_MessageCount) +++
  Ok [].

Definition QueuePurgeOk_all (T : option Struct → Prop) (f : QueuePurgeOk) : Prop :=
  is_long f.(QueuePurgeOk_MessageCount).

Record QueueDelete : Type := {
  QueueDelete_Reserved1 : Z;
  QueueDelete_Queue : string;
  QueueDelete_IfUnused : bool;
  QueueDelete_IfEmpty : bool;
  QueueDelete_NoWait : bool;
}.

Definition QueueDelete_FixMethodMeta : MethodMeta := {| ClassID := QueueClass; MethodID := QueueDeleteMethod |}.

Definition QueueDelete_Unmarshal (data : list Z) : result go_error QueueDelete :=
  read_all (
    reserved1_ ← read_short "reserved-1";
    queue_ ← read_shortstr "queue";
    bits ← read_bits;
    mret {| QueueDelete_Reserved1 := reserved1_;
      QueueDelete_Queue := queue_;
      QueueDelete_IfUnused := bit bits 1;
      QueueDelete_IfEmpty := bit bits 2;
      QueueDelete_NoWait := bit bits 4 |}) data.

Definition QueueDelete_MarshalBuffer (f : QueueDelete) : writer :=
  write_short f.(QueueDelete_Reserved1) +++
  write_shortstr "queue" f.(QueueDelete_Queue) +++
  Ok [set_bit f.(QueueDelete_NoWait) 4 (set_bit f.(QueueDelete_IfEmpty) 2 (set_bit f.(QueueDelete_IfUnused) 1 0))] +++
  Ok [].

Definition QueueDelete_all (T : option Struct → Prop) (f : QueueDelete) : Prop :=
  is_short f.(QueueDelete_Reserved1) ∧
  is_shortstr f.(QueueDelete_Queue).

Record QueueDeleteOk : Type := {
  QueueDeleteOk_MessageCount : Z;
}.

Definition QueueDeleteOk_FixMethodMeta : MethodMeta := {| ClassID := QueueClass; MethodID := QueueDeleteOkMethod |}.

Definition QueueDeleteOk_Unmarshal (data : list Z) : result go_error QueueDeleteOk :=
  read_all (
    messageCount_ ← read_long "message-count";
    mret {| QueueDeleteOk_MessageCount := messageCount_ |}) data.

Definition QueueDeleteOk_MarshalBuffer (f : QueueDeleteOk) : writer :=
  write_long f.(QueueDeleteOk_MessageCount) +++
  Ok [].

Definition QueueDeleteOk_all (T : option Struct → Prop) (f : QueueDeleteOk) : Prop :=
  is_long f.(QueueDeleteOk_MessageCount).

(** ** Basic *)

Definition BasicClass : Z := 60.
Definition BasicQosMethod : Z := 10.
Definition BasicQosOkMethod : Z := 11.
Definition BasicConsumeMethod : Z := 20.
Definition BasicConsumeOkMethod : Z := 21.
Definition BasicCancelMethod : Z := 30.
Definition BasicCancelOkMethod : Z := 31.
Definition BasicPublishMethod : Z := 40.
Definition BasicReturnMethod : Z := 50.
Definition BasicDeliverMethod : Z := 60.
Definition BasicGetMethod : Z := 70.
Definition BasicGetOkMethod : Z := 71.
Definition BasicGetEmptyMethod : Z := 72.
Definition BasicAckMethod : Z := 80.
Definition BasicRejectMethod : Z := 90.
Definition BasicRecoverAsyncMethod : Z := 100.
Definition BasicRecoverMethod : Z := 110.
Definition BasicRecoverOkMethod : Z := 111.
Definition BasicNackMethod : Z := 120.

Record BasicQos : Type := {
  BasicQos_PrefetchSize : Z;
  BasicQos_PrefetchCount : Z;
  BasicQos_Global : bool;
}.

Definition BasicQos_FixMethodMeta : MethodMeta := {| ClassID := BasicClass; MethodID := BasicQosMethod |}.

Definition BasicQos_Unmarshal (data : list Z) : result go_error BasicQos :=
  read_all (
    prefetchSize_ ← read_long "prefetch-size";
    prefetchCount_ ← read_short "prefetch-count";
    bits ← read_bits;
    mret {| BasicQos_PrefetchSize := prefetchSize_;
      BasicQos_PrefetchCount := prefetchCount_;
      BasicQos_Global := bit bits 1 |}) data.

Definition BasicQos_MarshalBuffer (f : BasicQos) : writer :=
  write_long f.(BasicQos_PrefetchSize) +++
  write_short f.(BasicQos_PrefetchCount) +++
  Ok [set_bit f.(BasicQos_Global) 1 0] +++
  Ok [].

Definition BasicQos_all (T : option Struct → Prop) (f : BasicQos) : Prop :=
  is_long f.(BasicQos_PrefetchSize) ∧
  is_short f.(BasicQos_PrefetchCount).

Record BasicQosOk : Type := MkBasicQosOk {}.

Definition BasicQosOk_FixMethodMeta : MethodMeta := {| ClassID := BasicClass; MethodID := BasicQosOkMethod |}.

Definition BasicQosOk_Unmarshal (data : list Z) : result go_error BasicQosOk :=
  if (0 <? length data)%nat then Err (ErrNew "buffer not fully read, remains %d bytes") else Ok MkBasicQosOk.

Definition BasicQosOk_MarshalBuffer (f : BasicQosOk) : writer :=
  Ok [].

Definition BasicQosOk_all (T : option Struct → Prop) (f : BasicQosOk) : Prop :=
  True.

Record BasicConsume : Type := {
  BasicConsume_Reserved1 : Z;
  BasicConsume_Queue : string;
  BasicConsume_ConsumerTag : string;
  BasicConsume_NoLocal : bool;
  BasicConsume_NoAck : bool;
  BasicConsume_Exclusive : bool;
  BasicConsume_NoWait : bool;
  BasicConsume_Arguments : option Struct;
}.

Definition BasicConsume_FixMethodMeta : MethodMeta := {| ClassID := BasicClass; MethodID := BasicConsumeMethod |}.

Definition BasicConsume_Unmarshal (data : list Z) : result go_error BasicConsume :=
  read_all (
    reserved1_ ← read_short "reserved-1";
    queue_ ← read_shortstr "queue";
    consumerTag_ ← read_shortstr "consumer-tag";
    bits ← read_bits;
    arguments_ ← read_table "arguments";
    mret {| BasicConsume_Reserved1 := reserved1_;
      BasicConsume_Queue := queue_;
      BasicConsume_ConsumerTag := consumerTag_;
      BasicConsume_NoLocal := bit bits 1;
      BasicConsume_NoAck := bit bits 2;
      BasicConsume_Exclusive := bit bits 4;
      BasicConsume_NoWait := bit bits 8;
      BasicConsume_Arguments := arguments_ |}) data.

Definition BasicConsume_MarshalBuffer (f : BasicConsume) : writer :=
  write_short f.(BasicConsume_Reserved1) +++
  write_shortstr "queue" f.(BasicConsume_Queue) +++
  write_shortstr "consumer-tag" f.(BasicConsume_ConsumerTag) +++
  Ok [set_bit f.(BasicConsume_NoWait) 8 (set_bit f.(BasicConsume_Exclusive) 4 (set_bit f.(BasicConsume_NoAck) 2 (set_bit f.(BasicConsume_NoLocal) 1 0)))] +++
  write_table "arguments" f.(BasicConsume_Arguments) +++
  Ok [].

Definition BasicConsume_all (T : option Struct → Prop) (f : BasicConsume) : Prop :=
  is_short f.(BasicConsume_Reserved1) ∧
  is_shortstr f.(BasicConsume_Queue) ∧
  is_shortstr f.(BasicConsume_ConsumerTag) ∧
  T f.(BasicConsume_Arguments).

Definition BasicConsume_canon (f : BasicConsume) : BasicConsume := {|
  BasicConsume_Reserved1 := f.(BasicConsume_Reserved1);
  BasicConsume_Queue := f.(BasicConsume_Queue);
  BasicConsume_ConsumerTag := f.(BasicConsume_ConsumerTag);
  BasicConsume_NoLocal := f.(BasicConsume_NoLocal);
  BasicConsume_NoAck := f.(BasicConsume_NoAck);
  BasicConsume_Exclusive := f.(BasicConsume_Exclusive);
  BasicConsume_NoWait := f.(BasicConsume_NoWait);
  BasicConsume_Arguments := table_canon f.(BasicConsume_Arguments) |}.

Record BasicConsumeOk : Type := {
  BasicConsumeOk_ConsumerTag : string;
}.

Definition BasicConsumeOk_FixMethodMeta : MethodMeta := {| ClassID := BasicClass; MethodID := BasicConsumeOkMethod |}.

Definition BasicConsumeOk_Unmarshal (data : list Z) : result go_error BasicConsumeOk :=
  read_all (
    consumerTag_ ← read_shortstr "consumer-tag";
    mret {| BasicConsumeOk_ConsumerTag := consumerTag_ |}) data.

Definition BasicConsumeOk_MarshalBuffer (f : BasicConsumeOk) : writer :=
  write_shortstr "consumer-tag" f.(BasicConsumeOk_ConsumerTag) +++
  Ok [].

Definition BasicConsumeOk_all (T : option Struct → Prop) (f : BasicConsumeOk) : Prop :=
  is_shortstr f.(BasicConsumeOk_ConsumerTag).

Record BasicCancel : Type := {
  BasicCancel_ConsumerTag : string;
  BasicCancel_NoWait : bool;
}.

Definition BasicCancel_FixMethodMeta : MethodMeta := {| ClassID := BasicClass; MethodID := BasicCancelMethod |}.

Definition BasicCancel_Unmarshal (data : list Z) : result go_error BasicCancel :=
  read_all (
    consumerTag_ ← read_shortstr "consumer-tag";
    bits ← read_bits;
    mret {| BasicCancel_ConsumerTag := consumerTag_;
      BasicCancel_NoWait := bit bits 1 |}) data.

Definition BasicCancel_MarshalBuffer (f : BasicCancel) : writer :=
  write_shortstr "consumer-tag" f.(BasicCancel_ConsumerTag) +++
  Ok [set_bit f.(BasicCancel_NoWait) 1 0] +++
  Ok [].

Definition BasicCancel_all (T : option Struct → Prop) (f : BasicCancel) : Prop :=
  is_shortstr f.(BasicCancel_ConsumerTag).

Record BasicCancelOk : Type := {
  BasicCancelOk_ConsumerTag : string;
}.

Definition BasicCancelOk_FixMethodMeta : MethodMeta := {| ClassID := BasicClass; MethodID := BasicCancelOkMethod |}.

Definition BasicCancelOk_Unmarshal (data : list Z) : result go_error BasicCancelOk :=
  read_all (
    consumerTag_ ← read_shortstr "consumer-tag";
    mret {| BasicCancelOk_ConsumerTag := consumerTag_ |}) data.

Definition BasicCancelOk_MarshalBuffer (f : BasicCancelOk) : writer :=
  write_shortstr "consumer-tag" f.(BasicCancelOk_ConsumerTag) +++
  Ok [].

Definition BasicCancelOk_all (T : option Struct → Prop) (f : BasicCancelOk) : Prop :=
  is_shortstr f.(BasicCancelOk_ConsumerTag).

Record BasicPublish : Type := {
  BasicPublish_Reserved1 : Z;
  BasicPublish_Exchange : string;
  BasicPublish_RoutingKey : string;
  BasicPublish_Mandatory : bool;
  BasicPublish_Immediate : bool;
}.

Definition BasicPublish_FixMethodMeta : MethodMeta := {| ClassID := BasicClass; MethodID := BasicPublishMethod |}.

Definition BasicPublish_Unmarshal (data : list Z) : result go_error BasicPublish :=
  read_all (
    reserved1_ ← read_short "reserved-1";
    exchange_ ← read_shortstr "exchange";
    routingKey_ ← read_shortstr "routing-key";
    bits ← read_bits;
    mret {| BasicPublish_Reserved1 := reserved1_;
      BasicPublish_Exchange := exchange_;
      BasicPublish_RoutingKey := routingKey_;
      BasicPublish_Mandatory := bit bits 1;
      BasicPublish_Immediate := bit bits 2 |}) data.

Definition BasicPublish_MarshalBuffer (f : BasicPublish) : writer :=
  write_short f.(BasicPublish_Reserved1) +++
  write_shortstr "exchange" f.(BasicPublish_Exchange) +++
  write_shortstr "routing-key" f.(BasicPublish_RoutingKey) +++
  Ok [set_bit f.(BasicPublish_Immediate) 2 (set_bit f.(BasicPublish_Mandatory) 1 0)] +++
  Ok [].

Definition BasicPublish_all (T : option Struct → Prop) (f : BasicPublish) : Prop :=
  is_short f.(BasicPublish_Reserved1) ∧
  is_shortstr f.(BasicPublish_Exchange) ∧
  is_shortstr f.(BasicPublish_RoutingKey).

Record BasicReturn : Type := {
  BasicReturn_ReplyCode : Z;
  BasicReturn_ReplyText : string;
  BasicReturn_Exchange : string;
  BasicReturn_RoutingKey : string;
}.

Definition BasicReturn_FixMethodMeta : MethodMeta := {| ClassID := BasicClass; MethodID := BasicReturnMethod |}.

Definition BasicReturn_Unmarshal (data : list Z) : result go_error BasicReturn :=
  read_all (
    replyCode_ ← read_short "reply-code";
    replyText_ ← read_shortstr "reply-text";
    exchange_ ← read_shortstr "exchange";
    routingKey_ ← read_shortstr "routing-key";
    mret {| BasicReturn_ReplyCode := replyCode_;
      BasicReturn_ReplyText := replyText_;
      BasicReturn_Exchange := exchange_;
      BasicReturn_RoutingKey := routingKey_ |}) data.

Definition BasicReturn_MarshalBuffer (f : BasicReturn) : writer :=
  write_short f.(BasicReturn_ReplyCode) +++
  write_shortstr "reply-text" f.(BasicReturn_ReplyText) +++
  write_shortstr "exchange" f.(BasicReturn_Exchange) +++
  write_shortstr "routing-key" f.(BasicReturn_RoutingKey) +++
  Ok [].

Definition BasicReturn_all (T : option Struct → Prop) (f : BasicReturn) : Prop :=
  is_short f.(BasicReturn_ReplyCode) ∧
  is_shortstr f.(BasicReturn_ReplyText) ∧
  is_shortstr f.(BasicReturn_Exchange) ∧
  is_shortstr f.(BasicReturn_RoutingKey).

Record BasicDeliver : Type := {
  BasicDeliver_ConsumerTag : string;
  BasicDeliver_DeliveryTag : Z;
  BasicDeliver_Redelivered : bool;
  BasicDeliver_Exchange : string;
  BasicDeliver_RoutingKey : string;
}.

Definition BasicDeliver_FixMethodMeta : MethodMeta := {| ClassID := BasicClass; MethodID := BasicDeliverMethod |}.

Definition BasicDeliver_Unmarshal (data : list Z) : result go_error BasicDeliver :=
  read_all (
    consumerTag_ ← read_shortstr "consumer-tag";
    deliveryTag_ ← read_longlong "delivery-tag";
    bits ← read_bits;
    exchange_ ← read_shortstr "exchange";
    routingKey_ ← read_shortstr "routing-key";
    mret {| BasicDeliver_ConsumerTag := consumerTag_;
      BasicDeliver_DeliveryTag := deliveryTag_;
      BasicDeliver_Redelivered := bit bits 1;
      BasicDeliver_Exchange := exchange_;
      BasicDeliver_RoutingKey := routingKey_ |}) data.

Definition BasicDeliver_MarshalBuffer (f : BasicDeliver) : writer :=
  write_shortstr "consumer-tag" f.(BasicDeliver_ConsumerTag) +++
  write_longlong f.(BasicDeliver_DeliveryTag) +++
  Ok [set_bit f.(BasicDeliver_Redelivered) 1 0] +++
  write_shortstr "exchange" f.(BasicDeliver_Exchange) +++
  write_shortstr "routing-key" f.(BasicDeliver_RoutingKey) +++
  Ok [].

Definition BasicDeliver_all (T : option Struct → Prop) (f : BasicDeliver) : Prop :=
  is_shortstr f.(BasicDeliver_ConsumerTag) ∧
  is_longlong f.(BasicDeliver_DeliveryTag) ∧
  is_shortstr f.(BasicDeliver_Exchange) ∧
  is_shortstr f.(BasicDeliver_RoutingKey).

Record BasicGet : Type := {
  BasicGet_Reserved1 : Z;
  BasicGet_Queue : string;
  BasicGet_NoAck : bool;
}.

Definition BasicGet_FixMethodMeta : MethodMeta := {| ClassID := BasicClass; MethodID := BasicGetMethod |}.

Definition BasicGet_Unmarshal (data : list Z) : result go_error BasicGet :=
  read_all (
    reserved1_ ← read_short "reserved-1";
    queue_ ← read_shortstr "queue";
    bits ← read_bits;
    mret {| BasicGet_Reserved1 := reserved1_;
      BasicGet_Queue := queue_;
      BasicGet_NoAck := bit bits 1 |}) data.

Definition BasicGet_MarshalBuffer (f : BasicGet) : writer :=
  write_short f.(BasicGet_Reserved1) +++
  write_shortstr "queue" f.(BasicGet_Queue) +++
  Ok [set_bit f.(BasicGet_NoAck) 1 0] +++
  Ok [].

Definition BasicGet_all (T : option Struct → Prop) (f : BasicGet) : Prop :=
  is_short f.(BasicGet_Reserved1) ∧
  is_shortstr f.(BasicGet_Queue).

Record BasicGetOk : Type := {
  BasicGetOk_DeliveryTag : Z;
  BasicGetOk_Redelivered : bool;
  BasicGetOk_Exchange : string;
  BasicGetOk_RoutingKey : string;
  BasicGetOk_MessageCount : Z;
}.

Definition BasicGetOk_FixMethodMeta : MethodMeta := {| ClassID := BasicClass; MethodID := BasicGetOkMethod |}.

Definition BasicGetOk_Unmarshal (data : list Z) : result go_error BasicGetOk :=
  read_all (
    deliveryTag_ ← read_longlong "delivery-tag";
    bits ← read_bits;
    exchange_ ← read_shortstr "exchange";
    routingKey_ ← read_shortstr "routing-key";
    messageCount_ ← read_long "message-count";
    mret {| BasicGetOk_DeliveryTag := deliveryTag_;
      BasicGetOk_Redelivered := bit bits 1;
      BasicGetOk_Exchange := exchange_;
      BasicGetOk_RoutingKey := routingKey_;
      BasicGetOk_MessageCount := messageCount_ |}) data.

Definition BasicGetOk_MarshalBuffer (f : BasicGetOk) : writer :=
  write_longlong f.(BasicGetOk_DeliveryTag) +++
  Ok [set_bit f.(BasicGetOk_Redelivered) 1 0] +++
  write_shortstr "exchange" f.(BasicGetOk_Exchange) +++
  write_shortstr "routing-key" f.(BasicGetOk_RoutingKey) +++
  write_long f.(BasicGetOk_MessageCount) +++
  Ok [].

Definition BasicGetOk_all (T : option Struct → Prop) (f : BasicGetOk) : Prop :=
  is_longlong f.(BasicGetOk_DeliveryTag) ∧
  is_shortstr f.(BasicGetOk_Exchange) ∧
  is_shortstr f.(BasicGetOk_RoutingKey) ∧
  is_long f.(BasicGetOk_MessageCount).

Record BasicGetEmpty : Type := {
  BasicGetEmpty_Reserved1 : string;
}.

Definition BasicGetEmpty_FixMethodMeta : MethodMeta := {| ClassID := BasicClass; MethodID := BasicGetEmptyMethod |}.

Definition BasicGetEmpty_Unmarshal (data : list Z) : result go_error BasicGetEmpty :=
  read_all (
    reserved1_ ← read_shortstr "reserved-1";
    mret {| BasicGetEmpty_Reserved1 := reserved1_ |}) data.

Definition BasicGetEmpty_MarshalBuffer (f : BasicGetEmpty) : writer :=
  write_shortstr "reserved-1" f.(BasicGetEmpty_Reserved1) +++
  Ok [].

Definition BasicGetEmpty_all (T : option Struct → Prop) (f : BasicGetEmpty) : Prop :=
  is_shortstr f.(BasicGetEmpty_Reserved1).

Record BasicAck : Type := {
  BasicAck_DeliveryTag : Z;
  BasicAck_Multiple : bool;
}.

Definition BasicAck_FixMethodMeta : MethodMeta := {| ClassID := BasicClass; MethodID := BasicAckMethod |}.

Definition BasicAck_Unmarshal (data : list Z) : result go_error BasicAck :=
  read_all (
    deliveryTag_ ← read_longlong "delivery-tag";
    bits ← read_bits;
    mret {| BasicAck_DeliveryTag := deliveryTag_;
      BasicAck_Multiple := bit bits 1 |}) data.

Definition BasicAck_MarshalBuffer (f : BasicAck) : writer :=
  write_longlong f.(BasicAck_DeliveryTag) +++
  Ok [set_bit f.(BasicAck_Multiple) 1 0] +++
  Ok [].

Definition BasicAck_all (T : option Struct → Prop) (f : BasicAck) : Prop :=
  is_longlong f.(BasicAck_DeliveryTag).

Record BasicReject : Type := {
  BasicReject_DeliveryTag : Z;
  BasicReject_Requeue : bool;
}.

Definition BasicReject_FixMethodMeta : MethodMeta := {| ClassID := BasicClass; MethodID := BasicRejectMethod |}.

Definition BasicReject_Unmarshal (data : list Z) : result go_error BasicReject :=
  read_all (
    deliveryTag_ ← read_longlong "delivery-tag";
    bits ← read_bits;
    mret {| BasicReject_DeliveryTag := deliveryTag_;
      BasicReject_Requeue := bit bits 1 |}) data.

Definition BasicReject_MarshalBuffer (f : BasicReject) : writer :=
  write_longlong f.(BasicReject_DeliveryTag) +++
  Ok [set_bit f.(BasicReject_Requeue) 1 0] +++
  Ok [].

Definition BasicReject_all (T : option Struct → Prop) (f : BasicReject) : Prop :=
  is_longlong f.(BasicReject_DeliveryTag).

Record BasicRecoverAsync : Type := {
  BasicRecoverAsync_Requeue : bool;
}.

Definition BasicRecoverAsync_FixMethodMeta : MethodMeta := {| ClassID := BasicClass; MethodID := BasicRecoverAsyncMethod |}.

Definition BasicRecoverAsync_Unmarshal (data : list Z) : result go_error BasicRecoverAsync :=
  read_all (
    bits ← read_bits;
    mret {| BasicRecoverAsync_Requeue := bit bits 1 |}) data.

Definition BasicRecoverAsync_MarshalBuffer (f : BasicRecoverAsync) : writer :=
  Ok [set_bit f.(BasicRecoverAsync_Requeue) 1 0] +++
  Ok [].

Definition BasicRecoverAsync_all (T : option Struct → Prop) (f : BasicRecoverAsync) : Prop :=
  True.

Record BasicRecover : Type := {
  BasicRecover_Requeue : bool;
}.

Definition BasicRecover_FixMethodMeta : MethodMeta := {| ClassID := BasicClass; MethodID := BasicRecoverMethod |}.

Definition BasicRecover_Unmarshal (data : list Z) : result go_error BasicRecover :=
  read_all (
    bits ← read_bits;
    mret {| BasicRecover_Requeue := bit bits 1 |}) data.

Definition BasicRecover_MarshalBuffer (f : BasicRecover) : writer :=
  Ok [set_bit f.(BasicRecover_Requeue) 1 0] +++
  Ok [].

Definition BasicRecover_all (T : option Struct → Prop) (f : BasicRecover) : Prop :=
  True.

Record BasicRecoverOk : Type := MkBasicRecoverOk {}.

Definition BasicRecoverOk_FixMethodMeta : MethodMeta := {| ClassID := BasicClass; MethodID := BasicRecoverOkMethod |}.

Definition BasicRecoverOk_Unmarshal (data : list Z) : result go_error BasicRecoverOk :=
  if (0 <? length data)%nat then Err (ErrNew "buffer not fully read, remains %d bytes") else Ok MkBasicRecoverOk.

Definition BasicRecoverOk_MarshalBuffer (f : BasicRecoverOk) : writer :=
  Ok [].

Definition BasicRecoverOk_all (T : option Struct → Prop) (f : BasicRecoverOk) : Prop :=
  True.

Record BasicNack : Type := {
  BasicNack_DeliveryTag : Z;
  BasicNack_Multiple : bool;
  BasicNack_Requeue : bool;
}.

Definition BasicNack_FixMethodMeta : MethodMeta := {| ClassID := BasicClass; MethodID := BasicNackMethod |}.

Definition BasicNack_Unmarshal (data : list Z) : result go_error BasicNack :=
  read_all (
    deliveryTag_ ← read_longlong "delivery-tag";
    bits ← read_bits;
    mret {| BasicNack_DeliveryTag := deliveryTag_;
      BasicNack_Multiple := bit bits 1;
      BasicNack_Requeue := bit bits 2 |}) data.

Definition BasicNack_MarshalBuffer (f : BasicNack) : writer :=
  write_longlong f.(BasicNack_DeliveryTag) +++
  Ok [set_bit f.(BasicNack_Requeue) 2 (set_bit f.(BasicNack_Multiple) 1 0)] +++
  Ok [].

Definition BasicNack_all (T : option Struct → Prop) (f : BasicNack) : Prop :=
  is_longlong f.(BasicNack_DeliveryTag).

(** ** Tx *)

Definition TxClass : Z := 90.
Definition TxSelectMethod : Z := 10.
Definition TxSelectOkMethod : Z := 11.
Definition TxCommitMethod : Z := 20.
Definition TxCommitOkMethod : Z := 21.
Definition TxRollbackMethod : Z := 30.
Definition TxRollbackOkMethod : Z := 31.

Record TxSelect : Type := MkTxSelect {}.

Definition TxSelect_FixMethodMeta : MethodMeta := {| ClassID := TxClass; MethodID := TxSelectMethod |}.

Definition TxSelect_Unmarshal (data : list Z) : result go_error TxSelect :=
  if (0 <? length data)%nat then Err (ErrNew "buffer not fully read, remains %d bytes") else Ok MkTxSelect.

Definition TxSelect_MarshalBuffer (f : TxSelect) : writer :=
  Ok [].

Definition TxSelect_all (T : option Struct → Prop) (f : TxSelect) : Prop :=
  True.

Record TxSelectOk : Type := MkTxSelectOk {}.

Definition TxSelectOk_FixMethodMeta : MethodMeta := {| ClassID := TxClass; MethodID := TxSelectOkMethod |}.

Definition TxSelectOk_Unmarshal (data : list Z) : result go_error TxSelectOk :=
  if (0 <? length data)%nat then Err (ErrNew "buffer not fully read, remains %d bytes") else Ok MkTxSelectOk.

Definition TxSelectOk_MarshalBuffer (f : TxSelectOk) : writer :=
  Ok [].

Definition TxSelectOk_all (T : option Struct → Prop) (f : TxSelectOk) : Prop :=
  True.

Record TxCommit : Type := MkTxCommit {}.

Definition TxCommit_FixMethodMeta : MethodMeta := {| ClassID := TxClass; MethodID := TxCommitMethod |}.

Definition TxCommit_Unmarshal (data : list Z) : result go_error TxCommit :=
  if (0 <? length data)%nat then Err (ErrNew "buffer not fully read, remains %d bytes") else Ok MkTxCommit.

Definition TxCommit_MarshalBuffer (f : TxCommit) : writer :=
  Ok [].

Definition TxCommit_all (T : option Struct → Prop) (f : TxCommit) : Prop :=
  True.

Record TxCommitOk : Type := MkTxCommitOk {}.

Definition TxCommitOk_FixMethodMeta : MethodMeta := {| ClassID := TxClass; MethodID := TxCommitOkMethod |}.

Definition TxCommitOk_Unmarshal (data : list Z) : result go_error TxCommitOk :=
  if (0 <? length data)%nat then Err (ErrNew "buffer not fully read, remains %d bytes") else Ok MkTxCommitOk.

Definition TxCommitOk_MarshalBuffer (f : TxCommitOk) : writer :=
  Ok [].

Definition TxCommitOk_all (T : option Struct → Prop) (f : TxCommitOk) : Prop :=
  True.

Record TxRollback : Type := MkTxRollback {}.

Definition TxRollback_FixMethodMeta : MethodMeta := {| ClassID := TxClass; MethodID := TxRollbackMethod |}.

Definition TxRollback_Unmarshal (data : list Z) : result go_error TxRollback :=
  if (0 <? length data)%nat then Err (ErrNew "buffer not fully read, remains %d bytes") else Ok MkTxRollback.

Definition TxRollback_MarshalBuffer (f : TxRollback) : writer :=
  Ok [].

Definition TxRollback_all (T : option Struct → Prop) (f : TxRollback) : Prop :=
  True.

Record TxRollbackOk : Type := MkTxRollbackOk {}.

Definition TxRollbackOk_FixMethodMeta : MethodMeta := {| ClassID := TxClass; MethodID := TxRollbackOkMethod |}.

Definition TxRollbackOk_Unmarshal (data : list Z) : result go_error TxRollbackOk :=
  if (0 <? length data)%nat then Err (ErrNew "buffer not fully read, remains %d bytes") else Ok MkTxRollbackOk.

Definition TxRollbackOk_MarshalBuffer (f : TxRollbackOk) : writer :=
  Ok [].

Definition TxRollbackOk_all (T : option Struct → Prop) (f : TxRollbackOk) : Prop :=
  True.
