(* ===== verification/AmqpV0Frames.v ===== *)
(** * AMQP 0-9-1: method frames

    The sum of the methods, the dispatch of [FixMethodMeta] and [MarshalBuffer] on it, and
    [decodeMethodFrame] (src/mq/amqp/v0/amqp0-9-1.go), with the theorems on all methods: what a method
    encodes to decodes to the method, what decodes is a well-typed method of the identifiers in the data,
    and decoding always returns. *)
From S2P Require Import Prelude Emq Bytes AmqpValues AmqpV0 AmqpV0Fields AmqpV0Methods.

Definition ErrMalformedFrame : go_error := ErrNew "malformed frame".

Record FrameMeta : Type := { FrameType : Z; Channel : Z; Size : Z }.

(** The types that implement [MethodFrame]. *)
Inductive Method : Type :=
| MConnectionStart (f : ConnectionStart)
| MConnectionStartOk (f : ConnectionStartOk)
| MConnectionSecure (f : ConnectionSecure)
| MConnectionSecureOk (f : ConnectionSecureOk)
| MConnectionTune (f : ConnectionTune)
| MConnectionTuneOk (f : ConnectionTuneOk)
| MConnectionOpen (f : ConnectionOpen)
| MConnectionOpenOk (f : ConnectionOpenOk)
| MConnectionClose (f : ConnectionClose)
| MConnectionCloseOk (f : ConnectionCloseOk)
| MChannelOpen (f : ChannelOpen)
| MChannelOpenOk (f : ChannelOpenOk)
| MChannelFlow (f : ChannelFlow)
| MChannelFlowOk (f : ChannelFlowOk)
| MChannelClose (f : ChannelClose)
| MChannelCloseOk (f : ChannelCloseOk)
| MExchangeDeclare (f : ExchangeDeclare)
| MExchangeDeclareOk (f : ExchangeDeclareOk)
| MExchangeDelete (f : ExchangeDelete)
| MExchangeDeleteOk (f : ExchangeDeleteOk)
| MQueueDeclare (f : QueueDeclare)
| MQueueDeclareOk (f : QueueDeclareOk)
| MQueueBind (f : QueueBind)
| MQueueBindOk (f : QueueBindOk)
| MQueueUnbind (f : QueueUnbind)
| MQueueUnbindOk (f : QueueUnbindOk)
| MQueuePurge (f : QueuePurge)
| MQueuePurgeOk (f : QueuePurgeOk)
| MQueueDelete (f : QueueDelete)
| MQueueDeleteOk (f : QueueDeleteOk)
| MBasicQos (f : BasicQos)
| MBasicQosOk (f : BasicQosOk)
| MBasicConsume (f : BasicConsume)
| MBasicConsumeOk (f : BasicConsumeOk)
| MBasicCancel (f : BasicCancel)
| MBasicCancelOk (f : BasicCancelOk)
| MBasicPublish (f : BasicPublish)
| MBasicReturn (f : BasicReturn)
| MBasicDeliver (f : BasicDeliver)
| MBasicGet (f : BasicGet)
| MBasicGetOk (f : BasicGetOk)
| MBasicGetEmpty (f : BasicGetEmpty)
| MBasicAck (f : BasicAck)
| MBasicReject (f : BasicReject)
| MBasicRecoverAsync (f : BasicRecoverAsync)
| MBasicRecover (f : BasicRecover)
| MBasicRecoverOk (f : BasicRecoverOk)
| MBasicNack (f : BasicNack)
| MTxSelect (f : TxSelect)
| MTxSelectOk (f : TxSelectOk)
| MTxCommit (f : TxCommit)
| MTxCommitOk (f : TxCommitOk)
| MTxRollback (f : TxRollback)
| MTxRollbackOk (f : TxRollbackOk).

Record MethodFrame : Type := {
  MethodFrame_FrameMeta : FrameMeta;
  MethodFrame_MethodMeta : MethodMeta;
  MethodFrame_Method : Method;
}.

(** [frame.FixMethodMeta()] *)
Definition FixMethodMeta (m : Method) : MethodMeta :=
  match m with
  | MConnectionStart _ => ConnectionStart_FixMethodMeta
  | MConnectionStartOk _ => ConnectionStartOk_FixMethodMeta
  | MConnectionSecure _ => ConnectionSecure_FixMethodMeta
  | MConnectionSecureOk _ => ConnectionSecureOk_FixMethodMeta
  | MConnectionTune _ => ConnectionTune_FixMethodMeta
  | MConnectionTuneOk _ => ConnectionTuneOk_FixMethodMeta
  | MConnectionOpen _ => ConnectionOpen_FixMethodMeta
  | MConnectionOpenOk _ => ConnectionOpenOk_FixMethodMeta
  | MConnectionClose _ => ConnectionClose_FixMethodMeta
  | MConnectionCloseOk _ => ConnectionCloseOk_FixMethodMeta
  | MChannelOpen _ => ChannelOpen_FixMethodMeta
  | MChannelOpenOk _ => ChannelOpenOk_FixMethodMeta
  | MChannelFlow _ => ChannelFlow_FixMethodMeta
  | MChannelFlowOk _ => ChannelFlowOk_FixMethodMeta
  | MChannelClose _ => ChannelClose_FixMethodMeta
  | MChannelCloseOk _ => ChannelCloseOk_FixMethodMeta
  | MExchangeDeclare _ => ExchangeDeclare_FixMethodMeta
  | MExchangeDeclareOk _ => ExchangeDeclareOk_FixMethodMeta
  | MExchangeDelete _ => ExchangeDelete_FixMethodMeta
  | MExchangeDeleteOk _ => ExchangeDeleteOk_FixMethodMeta
  | MQueueDeclare _ => QueueDeclare_FixMethodMeta
  | MQueueDeclareOk _ => QueueDeclareOk_FixMethodMeta
  | MQueueBind _ => QueueBind_FixMethodMeta
  | MQueueBindOk _ => QueueBindOk_FixMethodMeta
  | MQueueUnbind _ => QueueUnbind_FixMethodMeta
  | MQueueUnbindOk _ => QueueUnbindOk_FixMethodMeta
  | MQueuePurge _ => QueuePurge_FixMethodMeta
  | MQueuePurgeOk _ => QueuePurgeOk_FixMethodMeta
  | MQueueDelete _ => QueueDelete_FixMethodMeta
  | MQueueDeleteOk _ => QueueDeleteOk_FixMethodMeta
  | MBasicQos _ => BasicQos_FixMethodMeta
  | MBasicQosOk _ => BasicQosOk_FixMethodMeta
  | MBasicConsume _ => BasicConsume_FixMethodMeta
  | MBasicConsumeOk _ => BasicConsumeOk_FixMethodMeta
  | MBasicCancel _ => BasicCancel_FixMethodMeta
  | MBasicCancelOk _ => BasicCancelOk_FixMethodMeta
  | MBasicPublish _ => BasicPublish_FixMethodMeta
  | MBasicReturn _ => BasicReturn_FixMethodMeta
  | MBasicDeliver _ => BasicDeliver_FixMethodMeta
  | MBasicGet _ => BasicGet_FixMethodMeta
  | MBasicGetOk _ => BasicGetOk_FixMethodMeta
  | MBasicGetEmpty _ => BasicGetEmpty_FixMethodMeta
  | MBasicAck _ => BasicAck_FixMethodMeta
  | MBasicReject _ => BasicReject_FixMethodMeta
  | MBasicRecoverAsync _ => BasicRecoverAsync_FixMethodMeta
  | MBasicRecover _ => BasicRecover_FixMethodMeta
  | MBasicRecoverOk _ => BasicRecoverOk_FixMethodMeta
  | MBasicNack _ => BasicNack_FixMethodMeta
  | MTxSelect _ => TxSelect_FixMethodMeta
  | MTxSelectOk _ => TxSelectOk_FixMethodMeta
  | MTxCommit _ => TxCommit_FixMethodMeta
  | MTxCommitOk _ => TxCommitOk_FixMethodMeta
  | MTxRollback _ => TxRollback_FixMethodMeta
  | MTxRollbackOk _ => TxRollbackOk_FixMethodMeta
  end.

(** [frame.MarshalBuffer(buf)] *)
Definition MarshalBuffer (m : Method) : writer :=
  match m with
  | MConnectionStart f => ConnectionStart_MarshalBuffer f
  | MConnectionStartOk f => ConnectionStartOk_MarshalBuffer f
  | MConnectionSecure f => ConnectionSecure_MarshalBuffer f
  | MConnectionSecureOk f => ConnectionSecureOk_MarshalBuffer f
  | MConnectionTune f => ConnectionTune_MarshalBuffer f
  | MConnectionTuneOk f => ConnectionTuneOk_MarshalBuffer f
  | MConnectionOpen f => ConnectionOpen_MarshalBuffer f
  | MConnectionOpenOk f => ConnectionOpenOk_MarshalBuffer f
  | MConnectionClose f => ConnectionClose_MarshalBuffer f
  | MConnectionCloseOk f => ConnectionCloseOk_MarshalBuffer f
  | MChannelOpen f => ChannelOpen_MarshalBuffer f
  | MChannelOpenOk f => ChannelOpenOk_MarshalBuffer f
  | MChannelFlow f => ChannelFlow_MarshalBuffer f
  | MChannelFlowOk f => ChannelFlowOk_MarshalBuffer f
  | MChannelClose f => ChannelClose_MarshalBuffer f
  | MChannelCloseOk f => ChannelCloseOk_MarshalBuffer f
  | MExchangeDeclare f => ExchangeDeclare_MarshalBuffer f
  | MExchangeDeclareOk f => ExchangeDeclareOk_MarshalBuffer f
  | MExchangeDelete f => ExchangeDelete_MarshalBuffer f
  | MExchangeDeleteOk f => ExchangeDeleteOk_MarshalBuffer f
  | MQueueDeclare f => QueueDeclare_MarshalBuffer f
  | MQueueDeclareOk f => QueueDeclareOk_MarshalBuffer f
  | MQueueBind f => QueueBind_MarshalBuffer f
  | MQueueBindOk f => QueueBindOk_MarshalBuffer f
  | MQueueUnbind f => QueueUnbind_MarshalBuffer f
  | MQueueUnbindOk f => QueueUnbindOk_MarshalBuffer f
  | MQueuePurge f => QueuePurge_MarshalBuffer f
  | MQueuePurgeOk f => QueuePurgeOk_MarshalBuffer f
  | MQueueDelete f => QueueDelete_MarshalBuffer f
  | MQueueDeleteOk f => QueueDeleteOk_MarshalBuffer f
  | MBasicQos f => BasicQos_MarshalBuffer f
  | MBasicQosOk f => BasicQosOk_MarshalBuffer f
  | MBasicConsume f => BasicConsume_MarshalBuffer f
  | MBasicConsumeOk f => BasicConsumeOk_MarshalBuffer f
  | MBasicCancel f => BasicCancel_MarshalBuffer f
  | MBasicCancelOk f => BasicCancelOk_MarshalBuffer f
  | MBasicPublish f => BasicPublish_MarshalBuffer f
  | MBasicReturn f => BasicReturn_MarshalBuffer f
  | MBasicDeliver f => BasicDeliver_MarshalBuffer f
  | MBasicGet f => BasicGet_MarshalBuffer f
  | MBasicGetOk f => BasicGetOk_MarshalBuffer f
  | MBasicGetEmpty f => BasicGetEmpty_MarshalBuffer f
  | MBasicAck f => BasicAck_MarshalBuffer f
  | MBasicReject f => BasicReject_MarshalBuffer f
  | MBasicRecoverAsync f => BasicRecoverAsync_MarshalBuffer f
  | MBasicRecover f => BasicRecover_MarshalBuffer f
  | MBasicRecoverOk f => BasicRecoverOk_MarshalBuffer f
  | MBasicNack f => BasicNack_MarshalBuffer f
  | MTxSelect f => TxSelect_MarshalBuffer f
  | MTxSelectOk f => TxSelectOk_MarshalBuffer f
  | MTxCommit f => TxCommit_MarshalBuffer f
  | MTxCommitOk f => TxCommitOk_MarshalBuffer f
  | MTxRollback f => TxRollback_MarshalBuffer f
  | MTxRollbackOk f => TxRollbackOk_MarshalBuffer f
  end.

Definition decodeConnection (methodID : Z) (data : list Z) : result go_error Method :=
  if methodID =? ConnectionStartMethod then f ← ConnectionStart_Unmarshal data; Ok (MConnectionStart f)
  else if methodID =? ConnectionStartOkMethod then f ← ConnectionStartOk_Unmarshal data; Ok (MConnectionStartOk f)
  else if methodID =? ConnectionSecureMethod then f ← ConnectionSecure_Unmarshal data; Ok (MConnectionSecure f)
  else if methodID =? ConnectionSecureOkMethod then f ← ConnectionSecureOk_Unmarshal data; Ok (MConnectionSecureOk f)
  else if methodID =? ConnectionTuneMethod then f ← ConnectionTune_Unmarshal data; Ok (MConnectionTune f)
  else if methodID =? ConnectionTuneOkMethod then f ← ConnectionTuneOk_Unmarshal data; Ok (MConnectionTuneOk f)
  else if methodID =? ConnectionOpenMethod then f ← ConnectionOpen_Unmarshal data; Ok (MConnectionOpen f)
  else if methodID =? ConnectionOpenOkMethod then f ← ConnectionOpenOk_Unmarshal data; Ok (MConnectionOpenOk f)
  else if methodID =? ConnectionCloseMethod then f ← ConnectionClose_Unmarshal data; Ok (MConnectionClose f)
  else if methodID =? ConnectionCloseOkMethod then f ← ConnectionCloseOk_Unmarshal data; Ok (MConnectionCloseOk f)
  else Err (ErrNew "unhandled method ID %d of class connection").

Definition decodeChannel (methodID : Z) (data : list Z) : result go_error Method :=
  if methodID =? ChannelOpenMethod then f ← ChannelOpen_Unmarshal data; Ok (MChannelOpen f)
  else if methodID =? ChannelOpenOkMethod then f ← ChannelOpenOk_Unmarshal data; Ok (MChannelOpenOk f)
  else if methodID =? ChannelFlowMethod then f ← ChannelFlow_Unmarshal data; Ok (MChannelFlow f)
  else if methodID =? ChannelFlowOkMethod then f ← ChannelFlowOk_Unmarshal data; Ok (MChannelFlowOk f)
  else if methodID =? ChannelCloseMethod then f ← ChannelClose_Unmarshal data; Ok (MChannelClose f)
  else if methodID =? ChannelCloseOkMethod then f ← ChannelCloseOk_Unmarshal data; Ok (MChannelCloseOk f)
  else Err (ErrNew "unhandled method ID %d of class channel").

Definition decodeExchange (methodID : Z) (data : list Z) : result go_error Method :=
  if methodID =? ExchangeDeclareMethod then f ← ExchangeDeclare_Unmarshal data; Ok (MExchangeDeclare f)
  else if methodID =? ExchangeDeclareOkMethod then f ← ExchangeDeclareOk_Unmarshal data; Ok (MExchangeDeclareOk f)
  else if methodID =? ExchangeDeleteMethod then f ← ExchangeDelete_Unmarshal data; Ok (MExchangeDelete f)
  else if methodID =? ExchangeDeleteOkMethod then f ← ExchangeDeleteOk_Unmarshal data; Ok (MExchangeDeleteOk f)
  else Err (ErrNew "unhandled method ID %d of class exchange").

Definition decodeQueue (methodID : Z) (data : list Z) : result go_error Method :=
  if methodID =? QueueDeclareMethod then f ← QueueDeclare_Unmarshal data; Ok (MQueueDeclare f)
  else if methodID =? QueueDeclareOkMethod then f ← QueueDeclareOk_Unmarshal data; Ok (MQueueDeclareOk f)
  else if methodID =? QueueBindMethod then f ← QueueBind_Unmarshal data; Ok (MQueueBind f)
  else if methodID =? QueueBindOkMethod then f ← QueueBindOk_Unmarshal data; Ok (MQueueBindOk f)
  else if methodID =? QueueUnbindMethod then f ← QueueUnbind_Unmarshal data; Ok (MQueueUnbind f)
  else if methodID =? QueueUnbindOkMethod then f ← QueueUnbindOk_Unmarshal data; Ok (MQueueUnbindOk f)
  else if methodID =? QueuePurgeMethod then f ← QueuePurge_Unmarshal data; Ok (MQueuePurge f)
  else if methodID =? QueuePurgeOkMethod then f ← QueuePurgeOk_Unmarshal data; Ok (MQueuePurgeOk f)
  else if methodID =? QueueDeleteMethod then f ← QueueDelete_Unmarshal data; Ok (MQueueDelete f)
  else if methodID =? QueueDeleteOkMethod then f ← QueueDeleteOk_Unmarshal data; Ok (MQueueDeleteOk f)
  else Err (ErrNew "unhandled method ID %d of class queue").

Definition decodeBasicRest (methodID : Z) (data : list Z) : result go_error Method :=
  if methodID =? BasicGetOkMethod then f ← BasicGetOk_Unmarshal data; Ok (MBasicGetOk f)
  else if methodID =? BasicGetEmptyMethod then f ← BasicGetEmpty_Unmarshal data; Ok (MBasicGetEmpty f)
  else if methodID =? BasicAckMethod then f ← BasicAck_Unmarshal data; Ok (MBasicAck f)
  else if methodID =? BasicRejectMethod then f ← BasicReject_Unmarshal data; Ok (MBasicReject f)
  else if methodID =? BasicRecoverAsyncMethod then f ← BasicRecoverAsync_Unmarshal data; Ok (MBasicRecoverAsync f)
  else if methodID =? BasicRecoverMethod then f ← BasicRecover_Unmarshal data; Ok (MBasicRecover f)
  else if methodID =? BasicRecoverOkMethod then f ← BasicRecoverOk_Unmarshal data; Ok (MBasicRecoverOk f)
  else if methodID =? BasicNackMethod then f ← BasicNack_Unmarshal data; Ok (MBasicNack f)
  else Err (ErrNew "unhandled method ID %d of class basic").

Definition decodeBasic (methodID : Z) (data : list Z) : result go_error Method :=
  if methodID =? BasicQosMethod then f ← BasicQos_Unmarshal data; Ok (MBasicQos f)
  else if methodID =? BasicQosOkMethod then f ← BasicQosOk_Unmarshal data; Ok (MBasicQosOk f)
  else if methodID =? BasicConsumeMethod then f ← BasicConsume_Unmarshal data; Ok (MBasicConsume f)
  else if methodID =? BasicConsumeOkMethod then f ← BasicConsumeOk_Unmarshal data; Ok (MBasicConsumeOk f)
  else if methodID =? BasicCancelMethod then f ← BasicCancel_Unmarshal data; Ok (MBasicCancel f)
  else if methodID =? BasicCancelOkMethod then f ← BasicCancelOk_Unmarshal data; Ok (MBasicCancelOk f)
  else if methodID =? BasicPublishMethod then f ← BasicPublish_Unmarshal data; Ok (MBasicPublish f)
  else if methodID =? BasicReturnMethod then f ← BasicReturn_Unmarshal data; Ok (MBasicReturn f)
  else if methodID =? BasicDeliverMethod then f ← BasicDeliver_Unmarshal data; Ok (MBasicDeliver f)
  else if methodID =? BasicGetMethod then f ← BasicGet_Unmarshal data; Ok (MBasicGet f)
  else decodeBasicRest methodID data.

Definition decodeTx (methodID : Z) (data : list Z) : result go_error Method :=
  if methodID =? TxSelectMethod then f ← TxSelect_Unmarshal data; Ok (MTxSelect f)
  else if methodID =? TxSelectOkMethod then f ← TxSelectOk_Unmarshal data; Ok (MTxSelectOk f)
  else if methodID =? TxCommitMethod then f ← TxCommit_Unmarshal data; Ok (MTxCommit f)
  else if methodID =? TxCommitOkMethod then f ← TxCommitOk_Unmarshal data; Ok (MTxCommitOk f)
  else if methodID =? TxRollbackMethod then f ← TxRollback_Unmarshal data; Ok (MTxRollback f)
  else if methodID =? TxRollbackOkMethod then f ← TxRollbackOk_Unmarshal data; Ok (MTxRollbackOk f)
  else Err (ErrNew "unhandled method ID %d of class tx").

(** The switch over the classes. *)
Definition decodeMethod (classID methodID : Z) (data : list Z) : result go_error Method :=
  if classID =? ConnectionClass then decodeConnection methodID data
  else if classID =? ChannelClass then decodeChannel methodID data
  else if classID =? ExchangeClass then decodeExchange methodID data
  else if classID =? QueueClass then decodeQueue methodID data
  else if classID =? BasicClass then decodeBasic methodID data
  else if classID =? TxClass then decodeTx methodID data
  else Err (ErrNew "unhandled class ID %d").

Definition decodeMethodFrame (frameMeta : FrameMeta) (data : list Z) : result go_error MethodFrame :=
  if (length data <? 4)%nat then Err ErrMalformedFrame
  else
    let classID := get_be (take 2 data) in
    let methodID := get_be (take 2 (drop 2 data)) in
    method ← decodeMethod classID methodID (drop 4 data);
    Ok {| MethodFrame_FrameMeta := frameMeta;
      MethodFrame_MethodMeta := {| ClassID := classID; MethodID := methodID |};
      MethodFrame_Method := method |}.

(** ** Well-typed methods and the canonical form *)

Definition Method_all (T : option Struct → Prop) (m : Method) : Prop :=
  match m with
  | MConnectionStart f => ConnectionStart_all T f
  | MConnectionStartOk f => ConnectionStartOk_all T f
  | MConnectionSecure f => ConnectionSecure_all T f
  | MConnectionSecureOk f => ConnectionSecureOk_all T f
  | MConnectionTune f => ConnectionTune_all T f
  | MConnectionTuneOk f => ConnectionTuneOk_all T f
  | MConnectionOpen f => ConnectionOpen_all T f
  | MConnectionOpenOk f => ConnectionOpenOk_all T f
  | MConnectionClose f => ConnectionClose_all T f
  | MConnectionCloseOk f => ConnectionCloseOk_all T f
  | MChannelOpen f => ChannelOpen_all T f
  | MChannelOpenOk f => ChannelOpenOk_all T f
  | MChannelFlow f => ChannelFlow_all T f
  | MChannelFlowOk f => ChannelFlowOk_all T f
  | MChannelClose f => ChannelClose_all T f
  | MChannelCloseOk f => ChannelCloseOk_all T f
  | MExchangeDeclare f => ExchangeDeclare_all T f
  | MExchangeDeclareOk f => ExchangeDeclareOk_all T f
  | MExchangeDelete f => ExchangeDelete_all T f
  | MExchangeDeleteOk f => ExchangeDeleteOk_all T f
  | MQueueDeclare f => QueueDeclare_all T f
  | MQueueDeclareOk f => QueueDeclareOk_all T f
  | MQueueBind f => QueueBind_all T f
  | MQueueBindOk f => QueueBindOk_all T f
  | MQueueUnbind f => QueueUnbind_all T f
  | MQueueUnbindOk f => QueueUnbindOk_all T f
  | MQueuePurge f => QueuePurge_all T f
  | MQueuePurgeOk f => QueuePurgeOk_all T f
  | MQueueDelete f => QueueDelete_all T f
  | MQueueDeleteOk f => QueueDeleteOk_all T f
  | MBasicQos f => BasicQos_all T f
  | MBasicQosOk f => BasicQosOk_all T f
  | MBasicConsume f => BasicConsume_all T f
  | MBasicConsumeOk f => BasicConsumeOk_all T f
  | MBasicCancel f => BasicCancel_all T f
  | MBasicCancelOk f => BasicCancelOk_all T f
  | MBasicPublish f => BasicPublish_all T f
  | MBasicReturn f => BasicReturn_all T f
  | MBasicDeliver f => BasicDeliver_all T f
  | MBasicGet f => BasicGet_all T f
  | MBasicGetOk f => BasicGetOk_all T f
  | MBasicGetEmpty f => BasicGetEmpty_all T f
  | MBasicAck f => BasicAck_all T f
  | MBasicReject f => BasicReject_all T f
  | MBasicRecoverAsync f => BasicRecoverAsync_all T f
  | MBasicRecover f => BasicRecover_all T f
  | MBasicRecoverOk f => BasicRecoverOk_all T f
  | MBasicNack f => BasicNack_all T f
  | MTxSelect f => TxSelect_all T f
  | MTxSelectOk f => TxSelectOk_all T f
  | MTxCommit f => TxCommit_all T f
  | MTxCommitOk f => TxCommitOk_all T f
  | MTxRollback f => TxRollback_all T f
  | MTxRollbackOk f => TxRollbackOk_all T f
  end.

Definition Method_canon (m : Method) : Method :=
  match m with
  | MConnectionStart f => MConnectionStart (ConnectionStart_canon f)
  | MConnectionStartOk f => MConnectionStartOk (ConnectionStartOk_canon f)
  | MExchangeDeclare f => MExchangeDeclare (ExchangeDeclare_canon f)
  | MQueueDeclare f => MQueueDeclare (QueueDeclare_canon f)
  | MQueueBind f => MQueueBind (QueueBind_canon f)
  | MQueueUnbind f => MQueueUnbind (QueueUnbind_canon f)
  | MBasicConsume f => MBasicConsume (BasicConsume_canon f)
  | m => m
  end.

(** ** Automation over the methods *)

Create HintDb methods.
#[export] Hint Unfold
  ConnectionStart_MarshalBuffer ConnectionStartOk_MarshalBuffer ConnectionSecure_MarshalBuffer
    ConnectionSecureOk_MarshalBuffer ConnectionTune_MarshalBuffer ConnectionTuneOk_MarshalBuffer
    ConnectionOpen_MarshalBuffer ConnectionOpenOk_MarshalBuffer ConnectionClose_MarshalBuffer
    ConnectionCloseOk_MarshalBuffer ChannelOpen_MarshalBuffer ChannelOpenOk_MarshalBuffer
    ChannelFlow_MarshalBuffer ChannelFlowOk_MarshalBuffer ChannelClose_MarshalBuffer
    ChannelCloseOk_MarshalBuffer ExchangeDeclare_MarshalBuffer ExchangeDeclareOk_MarshalBuffer
    ExchangeDelete_MarshalBuffer ExchangeDeleteOk_MarshalBuffer QueueDeclare_MarshalBuffer
    QueueDeclareOk_MarshalBuffer QueueBind_MarshalBuffer QueueBindOk_MarshalBuffer QueueUnbind_MarshalBuffer
    QueueUnbindOk_MarshalBuffer QueuePurge_MarshalBuffer QueuePurgeOk_MarshalBuffer QueueDelete_MarshalBuffer
    QueueDeleteOk_MarshalBuffer BasicQos_MarshalBuffer BasicQosOk_MarshalBuffer BasicConsume_MarshalBuffer
    BasicConsumeOk_MarshalBuffer BasicCancel_MarshalBuffer BasicCancelOk_MarshalBuffer
    BasicPublish_MarshalBuffer BasicReturn_MarshalBuffer BasicDeliver_MarshalBuffer BasicGet_MarshalBuffer
    BasicGetOk_MarshalBuffer BasicGetEmpty_MarshalBuffer BasicAck_MarshalBuffer BasicReject_MarshalBuffer
    BasicRecoverAsync_MarshalBuffer BasicRecover_MarshalBuffer BasicRecoverOk_MarshalBuffer
    BasicNack_MarshalBuffer TxSelect_MarshalBuffer TxSelectOk_MarshalBuffer TxCommit_MarshalBuffer
    TxCommitOk_MarshalBuffer TxRollback_MarshalBuffer TxRollbackOk_MarshalBuffer : methods.
#[export] Hint Unfold
  ConnectionStart_Unmarshal ConnectionStartOk_Unmarshal ConnectionSecure_Unmarshal
    ConnectionSecureOk_Unmarshal ConnectionTune_Unmarshal ConnectionTuneOk_Unmarshal ConnectionOpen_Unmarshal
    ConnectionOpenOk_Unmarshal ConnectionClose_Unmarshal ConnectionCloseOk_Unmarshal ChannelOpen_Unmarshal
    ChannelOpenOk_Unmarshal ChannelFlow_Unmarshal ChannelFlowOk_Unmarshal ChannelClose_Unmarshal
    ChannelCloseOk_Unmarshal ExchangeDeclare_Unmarshal ExchangeDeclareOk_Unmarshal ExchangeDelete_Unmarshal
    ExchangeDeleteOk_Unmarshal QueueDeclare_Unmarshal QueueDeclareOk_Unmarshal QueueBind_Unmarshal
    QueueBindOk_Unmarshal QueueUnbind_Unmarshal QueueUnbindOk_Unmarshal QueuePurge_Unmarshal
    QueuePurgeOk_Unmarshal QueueDelete_Unmarshal QueueDeleteOk_Unmarshal BasicQos_Unmarshal
    BasicQosOk_Unmarshal BasicConsume_Unmarshal BasicConsumeOk_Unmarshal BasicCancel_Unmarshal
    BasicCancelOk_Unmarshal BasicPublish_Unmarshal BasicReturn_Unmarshal BasicDeliver_Unmarshal
    BasicGet_Unmarshal BasicGetOk_Unmarshal BasicGetEmpty_Unmarshal BasicAck_Unmarshal BasicReject_Unmarshal
    BasicRecoverAsync_Unmarshal BasicRecover_Unmarshal BasicRecoverOk_Unmarshal BasicNack_Unmarshal
    TxSelect_Unmarshal TxSelectOk_Unmarshal TxCommit_Unmarshal TxCommitOk_Unmarshal TxRollback_Unmarshal
    TxRollbackOk_Unmarshal : methods.
#[export] Hint Unfold
  ConnectionStart_all ConnectionStartOk_all ConnectionSecure_all ConnectionSecureOk_all ConnectionTune_all
    ConnectionTuneOk_all ConnectionOpen_all ConnectionOpenOk_all ConnectionClose_all ConnectionCloseOk_all
    ChannelOpen_all ChannelOpenOk_all ChannelFlow_all ChannelFlowOk_all ChannelClose_all ChannelCloseOk_all
    ExchangeDeclare_all ExchangeDeclareOk_all ExchangeDelete_all ExchangeDeleteOk_all QueueDeclare_all
    QueueDeclareOk_all QueueBind_all QueueBindOk_all QueueUnbind_all QueueUnbindOk_all QueuePurge_all
    QueuePurgeOk_all QueueDelete_all QueueDeleteOk_all BasicQos_all BasicQosOk_all BasicConsume_all
    BasicConsumeOk_all BasicCancel_all BasicCancelOk_all BasicPublish_all BasicReturn_all BasicDeliver_all
    BasicGet_all BasicGetOk_all BasicGetEmpty_all BasicAck_all BasicReject_all BasicRecoverAsync_all
    BasicRecover_all BasicRecoverOk_all BasicNack_all TxSelect_all TxSelectOk_all TxCommit_all TxCommitOk_all
    TxRollback_all TxRollbackOk_all : methods.

Lemma codec_ret_eq {A} (a b : A) : a = b → codec_law (Ok []) (mret a) b.
Proof. intros ->. apply codec_ret. Qed.

Lemma codec_empty {A} (a : A) :
  ∃ l, (Ok [] : writer) = Ok l ∧
    (if (0 <? length l)%nat then Err (ErrNew "buffer not fully read, remains %d bytes") else Ok a) = Ok a.
Proof. by exists []. Qed.

(** The struct of the goal. *)
Ltac destruct_frame :=
  match goal with f : ?T |- _ => lazymatch type of T with Prop => fail | _ => destruct f end end.

(** Field by field, and the fields that are bits of one byte by their values. *)
Ltac codec_fields :=
  repeat match goal with H : _ ∧ _ |- _ => destruct H end;
  repeat (eapply codec_bind; [solve [eauto with amqp]|]);
  apply codec_ret_eq; destruct_frame;
  repeat match goal with b : bool |- _ => destruct b end; reflexivity.

Ltac method_codec :=
  autounfold with methods in *;
  first [destruct_frame; apply codec_empty | apply codec_all; codec_fields].

(** ** Theorems *)

Lemma decode_Unmarshal {A} (r : list Z → result go_error A) (M : A → Method) (w : writer) a m :
  (∃ l, w = Ok l ∧ r l = Ok a) → M a = m → ∃ l, w = Ok l ∧ (f ← r l; Ok (M f)) = Ok m.
Proof. intros (k & Hw & Hr) <-. exists k. by rewrite Hr. Qed.

Lemma Method_codec m :
  Method_all table_encodable m →
  ∃ l, MarshalBuffer m = Ok l ∧ decodeMethod (FixMethodMeta m).(ClassID) (FixMethodMeta m).(MethodID) l = Ok (Method_canon m).
Proof.
  destruct m; intros Hm; cbn [MarshalBuffer FixMethodMeta Method_canon Method_all] in *.
  all: eapply decode_Unmarshal; [|reflexivity].
  all: method_codec.
Qed.

(** The bytes of a method frame: the identifiers and the fields. *)
Definition method_bytes (m : Method) (l : list Z) : list Z :=
  put_be 2 (FixMethodMeta m).(ClassID) ++ put_be 2 (FixMethodMeta m).(MethodID) ++ l.

Lemma decode_ids frameMeta classID methodID l :
  0 ≤ classID < 2 ^ 16 → 0 ≤ methodID < 2 ^ 16 →
  decodeMethodFrame frameMeta (put_be 2 classID ++ put_be 2 methodID ++ l) =
    (method ← decodeMethod classID methodID l;
     Ok {| MethodFrame_FrameMeta := frameMeta;
       MethodFrame_MethodMeta := {| ClassID := classID; MethodID := methodID |};
       MethodFrame_Method := method |}).
Proof.
  intros Hc Hm. unfold decodeMethodFrame.
  pose proof (length_put_be 2 classID) as L1. pose proof (length_put_be 2 methodID) as L2.
  destruct (Nat.ltb_spec (length (put_be 2 classID ++ put_be 2 methodID ++ l)) 4) as [Hl|_].
  { rewrite !length_app, L1, L2 in Hl. lia. }
  rewrite take_app_length' by done. rewrite (drop_app_length' (put_be 2 classID)) by done.
  rewrite take_app_length' by done. rewrite app_assoc, drop_app_length' by (by rewrite length_app, L1, L2).
  by rewrite !get_put_be_small by lia.
Qed.

Lemma FixMethodMeta_range m :
  0 ≤ (FixMethodMeta m).(ClassID) < 2 ^ 16 ∧ 0 ≤ (FixMethodMeta m).(MethodID) < 2 ^ 16.
Proof. destruct m; vm_compute; done. Qed.

Lemma method_codec_frame m :
  Method_all table_encodable m →
  ∃ l, MarshalBuffer m = Ok l ∧ ∀ frameMeta,
    decodeMethodFrame frameMeta (method_bytes m l) =
      Ok {| MethodFrame_FrameMeta := frameMeta; MethodFrame_MethodMeta := FixMethodMeta m; MethodFrame_Method := Method_canon m |}.
Proof.
  intros (l & Hl & Hd)%Method_codec. exists l. split; [done|]. intros frameMeta. destruct (FixMethodMeta_range m) as [Hc Hm].
  unfold method_bytes. rewrite decode_ids by done. rewrite Hd. by destruct (FixMethodMeta m).
Qed.

(** *** Decoding yields well-typed methods and always returns *)

Ltac reads_fields :=
  repeat (eapply reads_bind; [solve [eauto with amqp]|]; intros); apply reads_ret; autounfold with methods; cbn beta in *; auto 20.

Ltac total_fields :=
  repeat (apply total0_bind; [solve [eauto with amqp]|]; intros); apply total_ret.

(** The result of [decodeMethod], case by case. *)
Ltac decode_cases :=
  unfold decodeMethod, decodeConnection, decodeChannel, decodeExchange, decodeQueue, decodeBasic, decodeBasicRest, decodeTx;
  repeat match goal with |- context [?x =? ?y] => destruct (Z.eqb_spec x y) as [->|] end; try done;
  autounfold with methods.

Lemma bind_Ok_inv {E A B} (r : result E A) (f : A → result E B) b :
  (x ← r; f x) = Ok b → ∃ a, r = Ok a ∧ f a = Ok b.
Proof. destruct r; [eauto|done..]. Qed.

Lemma bind_Panic_inv {E A B} (r : result E A) (f : A → B) msg :
  (x ← r; Ok (f x)) = Panic msg → r = Panic msg.
Proof. destruct r; cbn; congruence. Qed.

Lemma decodeMethod_typed classID methodID data m :
  is_bytes data → decodeMethod classID methodID data = Ok m →
  Method_all (λ t, table_typed t = true) m ∧ FixMethodMeta m = {| ClassID := classID; MethodID := methodID |}.
Proof.
  intros Hb. decode_cases; intros (f & Hf & [= <-])%bind_Ok_inv; (split; [|done]); cbn [Method_all].
  all: lazymatch goal with |- ?P _ => first [exact I | apply (reads_all P) in Hf; [done| |done]; reads_fields] end.
Qed.

Lemma decodeMethod_total classID methodID data msg : decodeMethod classID methodID data ≠ Panic msg.
Proof.
  decode_cases; intros Hp%bind_Panic_inv; revert Hp.
  all: first [destruct (0 <? length data)%nat; done | apply total_all; total_fields].
Qed.

(** (C30) A decoded method frame is well typed: its method is the one of the two identifiers in the first
    four bytes, every number is in the range of its field, every short string has at most 255 bytes, and the
    values in its tables have a kind, float64 numbers and distinct names. *)
Theorem method_frame_typed frameMeta data f :
  is_bytes data → decodeMethodFrame frameMeta data = Ok f →
  Method_all (λ t, table_typed t = true) f.(MethodFrame_Method) ∧
  f.(MethodFrame_MethodMeta) = FixMethodMeta f.(MethodFrame_Method) ∧
  f.(MethodFrame_FrameMeta) = frameMeta ∧
  take 4 data = put_be 2 f.(MethodFrame_MethodMeta).(ClassID) ++ put_be 2 f.(MethodFrame_MethodMeta).(MethodID).
Proof.
  intros Hb. unfold decodeMethodFrame. destruct (Nat.ltb_spec (length data) 4) as [|Hl]; [done|].
  intros (m & Hm & [= <-])%bind_Ok_inv. cbn [MethodFrame_Method MethodFrame_MethodMeta MethodFrame_FrameMeta ClassID MethodID].
  apply decodeMethod_typed in Hm as [Ht Hi]; [|by apply Forall_drop]. split_and!; [done..|].
  rewrite !(put_get_be 2); [by rewrite take_take_drop|by apply Forall_take, Forall_drop| |by apply Forall_take|];
    rewrite length_take, ?length_drop; lia.
Qed.

Lemma method_frame_typed_witness :
  ∃ f, decodeMethodFrame {| FrameType := 1; Channel := 0; Size := 12 |} [0; 10; 0; 30; 0; 10; 0; 0; 16; 0; 0; 60] = Ok f ∧
    Method_all (λ t, table_typed t = true) f.(MethodFrame_Method).
Proof.
  eexists. split; [vm_compute; reflexivity|].
  eapply (method_frame_typed {| FrameType := 1; Channel := 0; Size := 12 |} [0; 10; 0; 30; 0; 10; 0; 0; 16; 0; 0; 60]).
  - repeat apply Forall_cons_2; (apply Forall_nil_2 || lia).
  - vm_compute. reflexivity.
Defined.

(** Decoding a method frame terminates on every input, with a frame or with an error: the recursion through
    nested tables and arrays ends and no index is out of range. *)
Theorem method_frame_total frameMeta data :
  (∃ f, decodeMethodFrame frameMeta data = Ok f) ∨ ∃ e, decodeMethodFrame frameMeta data = Err e.
Proof.
  unfold decodeMethodFrame. destruct (length data <? 4)%nat; [by eauto|].
  pose proof (decodeMethod_total (get_be (take 2 data)) (get_be (take 2 (drop 2 data))) (drop 4 data)) as Ht.
  destruct (decodeMethod _ _ _) as [m| |msg]; cbn; [by eauto..|]. by destruct (Ht msg).
Qed.
