(* ===== verification/AmqpV0Header.v ===== *)
(** * AMQP 0-9-1: content headers

    [ContentHeaderFrame] (src/mq/amqp/v0/amqp0-9-1.go): the properties of a message, each preceded by its
    bit in a word of flags.  A [time.Time] is the nanoseconds since the zero time, its location left out. *)
From S2P Require Import Prelude Emq Bytes AmqpValues AmqpV0 AmqpV0Fields AmqpV0Methods AmqpV0Frames.

Record ContentHeaderFrame : Type := {
  ContentHeaderFrame_ClassID : Z;
  ContentHeaderFrame_Weight : Z;
  ContentHeaderFrame_BodySize : Z;
  ContentHeaderFrame_ContentType : string;
  ContentHeaderFrame_ContentEncoding : string;
  ContentHeaderFrame_Headers : option Struct;
  ContentHeaderFrame_DeliveryMode : Z;
  ContentHeaderFrame_Priority : Z;
  ContentHeaderFrame_CorrelationID : string;
  ContentHeaderFrame_ReplyTo : string;
  ContentHeaderFrame_Expiration : string;
  ContentHeaderFrame_MessageID : string;
  ContentHeaderFrame_Timestamp : Z;
  ContentHeaderFrame_Type : string;
  ContentHeaderFrame_UserID : string;
  ContentHeaderFrame_AppID : string;
  ContentHeaderFrame_Reserved : string;
}.

(** ** Decoding *)

(** [if flags&m == m { read the field }] *)
Definition read_if {A} (flags m : Z) (zero : A) (r : decoder A) : decoder A := if bit flags m then r else mret zero.

Definition read_timestamp (name : string) : decoder Z :=
  x ← BufRead (read_msg name "timestamp") 8; mret (time_Unix (i64 (get_be x))).

Definition ContentHeaderFrame_properties (classID weight bodySize flags : Z) : decoder ContentHeaderFrame :=
  contentType_ ← read_if flags 1 ""%string (read_shortstr "content-type");
  contentEncoding_ ← read_if flags 2 ""%string (read_shortstr "content-encoding");
  headers_ ← read_if flags 4 None (read_table "headers");
  deliveryMode_ ← read_if flags 8 0 (read_octet "delivery-mode");
  priority_ ← read_if flags 16 0 (read_octet "priority");
  correlationID_ ← read_if flags 32 ""%string (read_shortstr "correlation-id");
  replyTo_ ← read_if flags 64 ""%string (read_shortstr "reply-to");
  expiration_ ← read_if flags 128 ""%string (read_shortstr "expiration");
  messageID_ ← read_if flags 256 ""%string (read_shortstr "message-id");
  timestamp_ ← read_if flags 512 0 (read_timestamp "timestamp");
  type_ ← read_if flags 1024 ""%string (read_shortstr "type");
  userID_ ← read_if flags 2048 ""%string (read_shortstr "user-id");
  appID_ ← read_if flags 4096 ""%string (read_shortstr "app-id");
  reserved_ ← read_if flags 8192 ""%string (read_shortstr "reserved");
  mret {|
    ContentHeaderFrame_ClassID := classID;
    ContentHeaderFrame_Weight := weight;
    ContentHeaderFrame_BodySize := bodySize;
    ContentHeaderFrame_ContentType := contentType_;
    ContentHeaderFrame_ContentEncoding := contentEncoding_;
    ContentHeaderFrame_Headers := headers_;
    ContentHeaderFrame_DeliveryMode := deliveryMode_;
    ContentHeaderFrame_Priority := priority_;
    ContentHeaderFrame_CorrelationID := correlationID_;
    ContentHeaderFrame_ReplyTo := replyTo_;
    ContentHeaderFrame_Expiration := expiration_;
    ContentHeaderFrame_MessageID := messageID_;
    ContentHeaderFrame_Timestamp := timestamp_;
    ContentHeaderFrame_Type := type_;
    ContentHeaderFrame_UserID := userID_;
    ContentHeaderFrame_AppID := appID_;
    ContentHeaderFrame_Reserved := reserved_ |}.

Definition read_class : decoder Z :=
  x ← BufRead "read class ID failed" 2;
  let id := get_be x in
  if negb (id =? BasicClass) then read_fail (ErrNew "expected class ID %d, got %d") else mret id.

Definition ContentHeaderFrame_Unmarshal (data : list Z) : result go_error ContentHeaderFrame :=
  read_all (
    classID ← read_class;
    weight ← (x ← BufRead "read weight failed" 2; mret (get_be x));
    bodySize ← (x ← BufRead "read body size failed" 8; mret (get_be x));
    flags ← (x ← BufRead "read flags failed" 2; mret (get_be x));
    ContentHeaderFrame_properties classID weight bodySize flags) data.

(** ** Encoding *)

Definition not_empty (s : string) : bool := negb (String.eqb s "").

(** [if present { write the field }] *)
Definition write_if (present : bool) (w : writer) : writer := if present then w else Ok [].

Definition write_timestamp (t : Z) : writer := Ok (put_be 8 (u64 (Unix t))).

Definition has_headers (f : ContentHeaderFrame) : bool :=
  match f.(ContentHeaderFrame_Headers) with Some _ => true | None => false end.

Definition ContentHeaderFrame_flags (f : ContentHeaderFrame) : Z :=
  set_bit (not_empty f.(ContentHeaderFrame_Reserved)) 8192 (
  set_bit (not_empty f.(ContentHeaderFrame_AppID)) 4096 (
  set_bit (not_empty f.(ContentHeaderFrame_UserID)) 2048 (
  set_bit (not_empty f.(ContentHeaderFrame_Type)) 1024 (
  set_bit (negb (f.(ContentHeaderFrame_Timestamp) =? 0)) 512 (
  set_bit (not_empty f.(ContentHeaderFrame_MessageID)) 256 (
  set_bit (not_empty f.(ContentHeaderFrame_Expiration)) 128 (
  set_bit (not_empty f.(ContentHeaderFrame_ReplyTo)) 64 (
  set_bit (not_empty f.(ContentHeaderFrame_CorrelationID)) 32 (
  set_bit (0 <? f.(ContentHeaderFrame_Priority)) 16 (
  set_bit (0 <? f.(ContentHeaderFrame_DeliveryMode)) 8 (
  set_bit (has_headers f) 4 (
  set_bit (not_empty f.(ContentHeaderFrame_ContentEncoding)) 2 (
  set_bit (not_empty f.(ContentHeaderFrame_ContentType)) 1 0))))))))))))).

Definition ContentHeaderFrame_fields (f : ContentHeaderFrame) : writer :=
  write_if (not_empty f.(ContentHeaderFrame_ContentType)) (write_shortstr "content-type" f.(ContentHeaderFrame_ContentType)) +++
  write_if (not_empty f.(ContentHeaderFrame_ContentEncoding))
    (write_shortstr "content-encoding" f.(ContentHeaderFrame_ContentEncoding)) +++
  write_if (has_headers f) (write_table "headers" f.(ContentHeaderFrame_Headers)) +++
  write_if (0 <? f.(ContentHeaderFrame_DeliveryMode)) (write_octet f.(ContentHeaderFrame_DeliveryMode)) +++
  write_if (0 <? f.(ContentHeaderFrame_Priority)) (write_octet f.(ContentHeaderFrame_Priority)) +++
  write_if (not_empty f.(ContentHeaderFrame_CorrelationID)) (write_shortstr "correlation-id" f.(ContentHeaderFrame_CorrelationID)) +++
  write_if (not_empty f.(ContentHeaderFrame_ReplyTo)) (write_shortstr "reply-to" f.(ContentHeaderFrame_ReplyTo)) +++
  write_if (not_empty f.(ContentHeaderFrame_Expiration)) (write_shortstr "expiration" f.(ContentHeaderFrame_Expiration)) +++
  write_if (not_empty f.(ContentHeaderFrame_MessageID)) (write_shortstr "message-id" f.(ContentHeaderFrame_MessageID)) +++
  write_if (negb (f.(ContentHeaderFrame_Timestamp) =? 0)) (write_timestamp f.(ContentHeaderFrame_Timestamp)) +++
  write_if (not_empty f.(ContentHeaderFrame_Type)) (write_shortstr "type" f.(ContentHeaderFrame_Type)) +++
  write_if (not_empty f.(ContentHeaderFrame_UserID)) (write_shortstr "user-id" f.(ContentHeaderFrame_UserID)) +++
  write_if (not_empty f.(ContentHeaderFrame_AppID)) (write_shortstr "app-id" f.(ContentHeaderFrame_AppID)) +++
  write_if (not_empty f.(ContentHeaderFrame_Reserved)) (write_shortstr "reserved" f.(ContentHeaderFrame_Reserved)) +++
  Ok [].

Definition ContentHeaderFrame_MarshalBuffer (f : ContentHeaderFrame) : writer :=
  buf ← ContentHeaderFrame_fields f;
  Ok (put_be 2 f.(ContentHeaderFrame_ClassID) ++ put_be 2 f.(ContentHeaderFrame_Weight) ++
    put_be 8 f.(ContentHeaderFrame_BodySize) ++ put_be 2 (ContentHeaderFrame_flags f) ++ buf).

(** ** Well-typed headers and the canonical form *)

(** A time of whole seconds that [time.Unix] can give. *)
Definition is_timestamp (t : Z) : Prop := ∃ sec, - 2 ^ 63 ≤ sec < 2 ^ 63 ∧ t = sec * 10 ^ 9.

Definition ContentHeaderFrame_all (T : option Struct → Prop) (f : ContentHeaderFrame) : Prop :=
  f.(ContentHeaderFrame_ClassID) = BasicClass ∧
  is_short f.(ContentHeaderFrame_Weight) ∧
  is_longlong f.(ContentHeaderFrame_BodySize) ∧
  is_shortstr f.(ContentHeaderFrame_ContentType) ∧
  is_shortstr f.(ContentHeaderFrame_ContentEncoding) ∧
  T f.(ContentHeaderFrame_Headers) ∧
  is_octet f.(ContentHeaderFrame_DeliveryMode) ∧
  is_octet f.(ContentHeaderFrame_Priority) ∧
  is_shortstr f.(ContentHeaderFrame_CorrelationID) ∧
  is_shortstr f.(ContentHeaderFrame_ReplyTo) ∧
  is_shortstr f.(ContentHeaderFrame_Expiration) ∧
  is_shortstr f.(ContentHeaderFrame_MessageID) ∧
  is_timestamp f.(ContentHeaderFrame_Timestamp) ∧
  is_shortstr f.(ContentHeaderFrame_Type) ∧
  is_shortstr f.(ContentHeaderFrame_UserID) ∧
  is_shortstr f.(ContentHeaderFrame_AppID) ∧
  is_shortstr f.(ContentHeaderFrame_Reserved).

Definition ContentHeaderFrame_canon (f : ContentHeaderFrame) : ContentHeaderFrame := {|
  ContentHeaderFrame_ClassID := f.(ContentHeaderFrame_ClassID);
  ContentHeaderFrame_Weight := f.(ContentHeaderFrame_Weight);
  ContentHeaderFrame_BodySize := f.(ContentHeaderFrame_BodySize);
  ContentHeaderFrame_ContentType := f.(ContentHeaderFrame_ContentType);
  ContentHeaderFrame_ContentEncoding := f.(ContentHeaderFrame_ContentEncoding);
  ContentHeaderFrame_Headers := table_canon f.(ContentHeaderFrame_Headers);
  ContentHeaderFrame_DeliveryMode := f.(ContentHeaderFrame_DeliveryMode);
  ContentHeaderFrame_Priority := f.(ContentHeaderFrame_Priority);
  ContentHeaderFrame_CorrelationID := f.(ContentHeaderFrame_CorrelationID);
  ContentHeaderFrame_ReplyTo := f.(ContentHeaderFrame_ReplyTo);
  ContentHeaderFrame_Expiration := f.(ContentHeaderFrame_Expiration);
  ContentHeaderFrame_MessageID := f.(ContentHeaderFrame_MessageID);
  ContentHeaderFrame_Timestamp := f.(ContentHeaderFrame_Timestamp);
  ContentHeaderFrame_Type := f.(ContentHeaderFrame_Type);
  ContentHeaderFrame_UserID := f.(ContentHeaderFrame_UserID);
  ContentHeaderFrame_AppID := f.(ContentHeaderFrame_AppID);
  ContentHeaderFrame_Reserved := f.(ContentHeaderFrame_Reserved);
|}.

(** ** Flags *)

Lemma bit_set_same b m x : m ≠ 0 → bit x m = false → bit (set_bit b m x) m = b.
Proof.
  intros Hm Hx. unfold bit, set_bit in *. destruct b; [|done]. apply Z.eqb_eq.
  apply Z.bits_inj'. intros i _. rewrite Z.land_spec, Z.lor_spec. by destruct (Z.testbit x i), (Z.testbit m i).
Qed.

Lemma bit_set_other b m m' x : Z.land m m' = 0 → bit (set_bit b m x) m' = bit x m'.
Proof.
  intros Hm. unfold bit, set_bit. destruct b; [|done]. by rewrite Z.land_lor_distr_l, Hm, Z.lor_0_r.
Qed.

Lemma set_bit_range b m x n : 0 ≤ n → 0 ≤ x < 2 ^ n → 0 ≤ m < 2 ^ n → 0 ≤ set_bit b m x < 2 ^ n.
Proof.
  intros Hn Hx Hm. unfold set_bit. destruct b; [|done]. assert (0 ≤ Z.lor x m) as H0 by (apply Z.lor_nonneg; lia).
  split; [done|]. destruct (decide (Z.lor x m = 0)) as [->|]; [lia|]. apply Z.log2_lt_pow2; [lia|].
  rewrite Z.log2_lor by lia. apply Z.max_lub_lt.
  - destruct (decide (x = 0)) as [->|]; [cbn|apply Z.log2_lt_pow2; lia].
    destruct (decide (n = 0)) as [->|]; [|lia]. assert (m = 0) by lia. subst. done.
  - destruct (decide (m = 0)) as [->|]; [cbn|apply Z.log2_lt_pow2; lia].
    destruct (decide (n = 0)) as [->|]; [|lia]. assert (x = 0) by lia. subst. done.
Qed.

Lemma flags_range f : is_short (ContentHeaderFrame_flags f).
Proof. unfold is_short, ContentHeaderFrame_flags. repeat apply set_bit_range; lia. Qed.

(** ** Decoding undoes encoding *)

Lemma codec_if {A} b w flags m zero (r : decoder A) a :
  bit flags m = b → (b = true → codec_law w r a) → (b = false → a = zero) → codec_law (write_if b w) (read_if flags m zero r) a.
Proof.
  intros Hb Ht Hf. unfold write_if, read_if. rewrite Hb. destruct b; [by apply Ht|]. rewrite (Hf eq_refl). apply codec_ret.
Qed.

Lemma codec_timestamp name t : is_timestamp t → codec_law (write_timestamp t) (read_timestamp name) t.
Proof.
  intros (sec & Hs & ->). eexists. split; [done|]. intros rest. unfold read_timestamp.
  erewrite decoder_bind_Ok by (apply BufRead_app; [apply length_put_be|lia]).
  rewrite get_put_be_small by (by apply mod_range). unfold Unix. rewrite Z.div_mul by lia.
  unfold mret, decoder_ret. do 2 f_equal. unfold time_Unix, i64, u64, wrap. f_equal.
  apply signed_unique; [lia..|]. rewrite Zplus_mod, !signed_mod, Zmod_mod, <- Zplus_mod by lia. f_equal. lia.
Qed.

Lemma not_empty_false s : not_empty s = false → s = ""%string.
Proof. unfold not_empty. destruct (String.eqb_spec s ""); done. Qed.

Lemma has_headers_false f : has_headers f = false → f.(ContentHeaderFrame_Headers) = None.
Proof. unfold has_headers. by destruct (ContentHeaderFrame_Headers f). Qed.

(** Every flag is the one its field set. *)
Ltac flag_of_field :=
  unfold ContentHeaderFrame_flags; rewrite ?bit_set_other by reflexivity; apply bit_set_same; [done|];
  rewrite ?bit_set_other by reflexivity; reflexivity.

Lemma codec_properties f :
  ContentHeaderFrame_all table_encodable f →
  codec_law (ContentHeaderFrame_fields f)
    (ContentHeaderFrame_properties f.(ContentHeaderFrame_ClassID) f.(ContentHeaderFrame_Weight)
      f.(ContentHeaderFrame_BodySize) (ContentHeaderFrame_flags f))
    (ContentHeaderFrame_canon f).
Proof.
  intros Hf. unfold ContentHeaderFrame_all in Hf. destruct_and?.
  unfold ContentHeaderFrame_fields, ContentHeaderFrame_properties.
  repeat (eapply codec_bind; [apply codec_if; [flag_of_field|intros _; by eauto using codec_timestamp with amqp|]|]).
  15: by apply codec_ret_eq.
  all: intros Hz; first [by apply not_empty_false | by rewrite (has_headers_false f Hz)
    | bool_to_prop; unfold is_octet in *; lia].
Qed.

Lemma codec_class id : id = BasicClass → codec_law (Ok (put_be 2 id)) read_class id.
Proof. intros ->. by eexists. Qed.

(** Decoding the encoding of a content header gives the header, up to the canonical form of its table. *)
Lemma content_header_codec f :
  ContentHeaderFrame_all table_encodable f →
  ∃ l, ContentHeaderFrame_MarshalBuffer f = Ok l ∧ ContentHeaderFrame_Unmarshal l = Ok (ContentHeaderFrame_canon f).
Proof.
  intros Hf. pose proof (codec_properties f Hf) as Hp. pose proof (flags_range f) as Hr.
  destruct Hf as (Hc & Hw & Hb & _). apply codec_all.
  assert (ContentHeaderFrame_MarshalBuffer f =
    Ok (put_be 2 f.(ContentHeaderFrame_ClassID)) +++ Ok (put_be 2 f.(ContentHeaderFrame_Weight)) +++
    Ok (put_be 8 f.(ContentHeaderFrame_BodySize)) +++ Ok (put_be 2 (ContentHeaderFrame_flags f)) +++
    ContentHeaderFrame_fields f) as ->.
  { unfold ContentHeaderFrame_MarshalBuffer. by destruct (ContentHeaderFrame_fields f). }
  eapply codec_bind; [by apply codec_class|].
  do 3 (eapply codec_bind; [by apply codec_be; [lia|]|]). exact Hp.
Qed.

(** ** Decoding yields well-typed headers and always returns *)

Lemma reads_if {A} (Q : A → Prop) flags m zero (r : decoder A) : Q zero → reads Q r → reads Q (read_if flags m zero r).
Proof. intros Hz Hr. unfold read_if. destruct (bit flags m); [done|]. by apply reads_ret. Qed.

Lemma reads_timestamp name : reads is_timestamp (read_timestamp name).
Proof.
  eapply reads_bind; [apply reads_Read|]. intros x _. apply reads_ret. unfold time_Unix.
  exists (i64 (i64 (get_be x) + unixToInternal)). split; [|done]. apply (signed_range 64). lia.
Qed.

Lemma reads_class : reads (λ id, id = BasicClass) read_class.
Proof.
  eapply reads_bind; [apply reads_Read|]. intros x _. cbn zeta. destruct (Z.eqb_spec (get_be x) BasicClass); cbn [negb];
    [by apply reads_ret|apply reads_fail].
Qed.

Lemma content_header_typed data f :
  is_bytes data → ContentHeaderFrame_Unmarshal data = Ok f → ContentHeaderFrame_all (λ t, table_typed t = true) f.
Proof.
  apply reads_all. eapply reads_bind; [apply reads_class|]. intros classID Hc.
  do 3 (eapply reads_bind; [apply reads_be|]; intros). unfold ContentHeaderFrame_properties.
  repeat (eapply reads_bind; [apply reads_if; [|by eauto using reads_timestamp with amqp]|]; intros).
  15: apply reads_ret; unfold ContentHeaderFrame_all; cbn beta in *; auto 30.
  all: first [done | by exists 0].
Qed.

Lemma total_if {A} flags m zero (r : decoder A) buf : total_at 0 r buf → total_at 0 (read_if flags m zero r) buf.
Proof. intros Hr. unfold read_if. destruct (bit flags m); [done|apply total_ret]. Qed.

Lemma content_header_total data msg : ContentHeaderFrame_Unmarshal data ≠ Panic msg.
Proof.
  apply total_all. apply total0_bind.
  { apply total0_bind; [eapply total0, total_Read|]. intros x rest. cbn zeta. destruct (negb _); [done|apply total_ret]. }
  intros classID buf. do 3 (apply total0_bind; [apply total_be|]; intros). unfold ContentHeaderFrame_properties.
  repeat (apply total0_bind; [apply total_if; solve [eauto with amqp | apply total0_bind; [eapply total0, total_Read|intros; apply total_ret]]|]; intros).
  apply total_ret.
Qed.
