(* ===== verification/AmqpV0Transport.v ===== *)
(** * AMQP 0-9-1: transport

    [Transport] (src/mq/amqp/v0/transport.go): frames on a connection.  The connection is the bytes that are
    still to be read and the bytes that were written; deadlines, and the errors of the socket other than the
    end of the input, are left out.  After an error the callers close the connection, so an error has no
    state.  A length or an index that a [uint32] cannot hold is wrapped as in the code. *)
From S2P Require Import Prelude Util Emq Bytes AmqpValues AmqpV0 AmqpV0Fields AmqpV0Methods AmqpV0Frames AmqpV0Header.

Inductive Frame : Type :=
| FMethod (frame : MethodFrame)
| FHeader (meta : FrameMeta) (frame : ContentHeaderFrame)
| FBody (meta : FrameMeta) (data : list Z)
| FHeartbeat (meta : FrameMeta).

Definition GetFrameMeta (frame : Frame) : FrameMeta :=
  match frame with
  | FMethod f => f.(MethodFrame_FrameMeta)
  | FHeader meta _ | FBody meta _ | FHeartbeat meta => meta
  end.

(** [data] is the length of the buffer that frames are read into. *)
Record Transport : Type := {
  t_input : list Z;
  t_output : list Z;
  t_data : Z;
  t_frameMax : Z;
}.

Definition NewTransport (input : list Z) : Transport :=
  {| t_input := input; t_output := []; t_data := NextPowerOfTwo32 FrameMinSize; t_frameMax := FrameMinSize |}.

Definition SetFrameMax (frameMax : Z) (t : Transport) : Transport :=
  {| t_input := t.(t_input); t_output := t.(t_output); t_data := t.(t_data); t_frameMax := frameMax |}.

Definition ErrFrameTooBig : go_error := ErrNew "frame size over limit".

(** ** Sending *)

(** The type of a frame, what follows the seven bytes of the header in the scratch buffer, and the payload. *)
Definition frame_payload (frame : Frame) : result go_error (Z * list Z * list Z) :=
  match frame with
  | FMethod f =>
    let mm := FixMethodMeta f.(MethodFrame_Method) in
    payload ← Wrap "method frame marshal failed" (MarshalBuffer f.(MethodFrame_Method));
    Ok (FrameMethod, put_be 2 mm.(ClassID) ++ put_be 2 mm.(MethodID), payload)
  | FHeader _ f =>
    payload ← Wrap "content header frame marshal failed" (ContentHeaderFrame_MarshalBuffer f);
    Ok (FrameHeader, [], payload)
  | FBody _ data => Ok (FrameBody, [], data)
  | FHeartbeat _ => Ok (FrameHeartbeat, [], [])
  end.

(** The bytes of a frame on the connection. *)
Definition frame_bytes (frameType channel : Z) (ids payload : list Z) : list Z :=
  frameType :: put_be 2 channel ++ put_be 4 (u32 (Z.of_nat (length payload) + Z.of_nat (length ids))) ++
    ids ++ payload ++ [FrameEnd].

Definition write (t : Transport) (bytes : list Z) : Transport :=
  {| t_input := t.(t_input); t_output := t.(t_output) ++ bytes; t_data := t.(t_data); t_frameMax := t.(t_frameMax) |}.

Definition Send (t : Transport) (frame : Frame) : result go_error Transport :=
  '(frameType, ids, payload) ← frame_payload frame;
  let end_ := 7 + Z.of_nat (length ids) in
  if (frameType =? FrameBody) && (t.(t_frameMax) <? u32 (Z.of_nat (length payload) + end_ + 1)) then Err ErrFrameTooBig
  else Ok (write t (frame_bytes frameType (GetFrameMeta frame).(Channel) ids payload)).

(** The loop of [SendBody]; every turn but the first starts where the last one ended, and [fuel] bounds the turns. *)
Fixpoint SendBody_loop (fuel : nat) (t : Transport) (channel : Z) (data : list Z) (length start end_ : Z)
    : result go_error Transport :=
  if start <? length then
    match fuel with
    | O => Panic "out of fuel"
    | S fuel =>
      let end_ := if length <? end_ then length else end_ in
      if end_ <? start then Panic "slice bounds out of range"
      else
        t' ← Send t (FBody {| FrameType := 0; Channel := channel; Size := 0 |}
                (take (Z.to_nat (end_ - start)) (drop (Z.to_nat start) data)));
        SendBody_loop fuel t' channel data length end_ (u32 (end_ + t.(t_frameMax)))
    end
  else Ok t.

Definition SendBody (t : Transport) (channel : Z) (data : list Z) : result go_error Transport :=
  SendBody_loop (S (length data)) t channel data (u32 (Z.of_nat (length data))) 0 t.(t_frameMax).

(** ** Receiving *)

(** [io.ReadFull(t.rw, t.data[:n])], where the buffer has [t_data] bytes. *)
Definition ReadFull (msg : string) (n : Z) (t : Transport) : result go_error (list Z * Transport) :=
  if t.(t_data) <? n then Panic "slice bounds out of range"
  else if Z.of_nat (length t.(t_input)) <? n then Err (ErrWrap EOF msg)
  else Ok (take (Z.to_nat n) t.(t_input),
    {| t_input := drop (Z.to_nat n) t.(t_input); t_output := t.(t_output); t_data := t.(t_data); t_frameMax := t.(t_frameMax) |}).

Definition grow (n : Z) (t : Transport) : Transport :=
  if t.(t_data) <? n then
    {| t_input := t.(t_input); t_output := t.(t_output); t_data := NextPowerOfTwo32 n; t_frameMax := t.(t_frameMax) |}
  else t.

(** The switch over the types of frames. *)
Definition decodeFrame (meta : FrameMeta) (payload : list Z) : result go_error Frame :=
  if meta.(FrameType) =? FrameMethod then f ← decodeMethodFrame meta payload; Ok (FMethod f)
  else if meta.(FrameType) =? FrameHeader then f ← ContentHeaderFrame_Unmarshal payload; Ok (FHeader meta f)
  else if meta.(FrameType) =? FrameBody then Ok (FBody meta payload)
  else if meta.(FrameType) =? FrameHeartbeat then
    if (0 <? length payload)%nat then Err ErrMalformedFrame else Ok (FHeartbeat meta)
  else Err ErrMalformedFrame.

Definition Receive (t : Transport) : result go_error (Frame * Transport) :=
  '(header, t) ← ReadFull "read frame header failed" 7 t;
  let frameType := get_be (take 1 header) in
  let channel := get_be (take 2 (drop 1 header)) in
  let size := get_be (take 4 (drop 3 header)) in
  if (frameType =? FrameBody) && (t.(t_frameMax) <? u32 (size + 8)) then Err ErrFrameTooBig
  else
    let t := grow (u32 (size + 1)) t in
    '(data, t) ← ReadFull "read frame payload failed" (u32 (size + 1)) t;
    if t.(t_data) <=? size then Panic "index out of range"
    else
      if negb (default 0 (data !! Z.to_nat size) =? FrameEnd) then Err ErrMalformedFrame
      else
        frame ← decodeFrame {| FrameType := frameType; Channel := channel; Size := size |} (take (Z.to_nat size) data);
        Ok (frame, t).

(** [Expect] and [Call]: the next frame has the type of the variable that it is assigned to. *)
Definition Expect (assignable : Frame → bool) (t : Transport) : result go_error (Frame * Transport) :=
  '(frame, t) ← Wrap "receive failed" (Receive t);
  if assignable frame then Ok (frame, t) else Err (ErrNew "expected frame of type %s, got %#v").

Definition Call (request : MethodFrame) (assignable : Frame → bool) (t : Transport) : result go_error (Frame * Transport) :=
  t ← Wrap "send failed" (Send t (FMethod request));
  Expect assignable t.

(** ** What is sent is received *)

(** The buffer holds a frame header, and grows by powers of two. *)
Definition buffer_ok (t : Transport) : Prop := 7 ≤ t.(t_data) ≤ 2 ^ 31.

Lemma grow_ok n t : buffer_ok t → 0 ≤ n ≤ 2 ^ 31 → buffer_ok (grow n t) ∧ n ≤ (grow n t).(t_data).
Proof.
  intros Ht Hn. unfold grow. destruct (Z.ltb_spec t.(t_data) n) as [Hlt|Hge]; [|done].
  unfold buffer_ok in *. cbn [t_data].
  destruct (NextPowerOfTwo32_spec n) as [(k & Hk & -> & Hle & _) _]; [lia..|].
  assert (2 ^ k ≤ 2 ^ 31) by (apply Z.pow_le_mono_r; lia). lia.
Qed.

Lemma grow_input n t : (grow n t).(t_input) = t.(t_input) ∧ (grow n t).(t_output) = t.(t_output) ∧ (grow n t).(t_frameMax) = t.(t_frameMax).
Proof. unfold grow. by destruct (_ <? _). Qed.

(** The receiver after a frame. *)
Definition received (t : Transport) (rest : list Z) (t' : Transport) : Prop :=
  t'.(t_input) = rest ∧ t'.(t_output) = t.(t_output) ∧ t'.(t_frameMax) = t.(t_frameMax) ∧ buffer_ok t'.

Lemma ReadFull_app msg t l rest :
  Z.of_nat (length l) ≤ t.(t_data) → t.(t_input) = l ++ rest →
  ReadFull msg (Z.of_nat (length l)) t =
    Ok (l, {| t_input := rest; t_output := t.(t_output); t_data := t.(t_data); t_frameMax := t.(t_frameMax) |}).
Proof.
  intros Hd Hi. unfold ReadFull. rewrite Hi, length_app, Nat2Z.id, take_app_length, drop_app_length.
  destruct (Z.ltb_spec t.(t_data) (Z.of_nat (length l))); [lia|].
  by destruct (Z.ltb_spec (Z.of_nat (length l + length rest)) (Z.of_nat (length l))); [lia|].
Qed.

Lemma header_fields frameType channel size :
  is_octet frameType → is_short channel → is_long size →
  let header := frameType :: put_be 2 channel ++ put_be 4 size in
  length header = 7%nat ∧ get_be (take 1 header) = frameType ∧ get_be (take 2 (drop 1 header)) = channel ∧
  get_be (take 4 (drop 3 header)) = size.
Proof.
  intros Ht Hc Hs header. unfold header. split_and!.
  - cbn [length]. by rewrite length_app, !length_put_be.
  - unfold get_be. cbn. lia.
  - change (drop 1 (frameType :: put_be 2 channel ++ put_be 4 size)) with (put_be 2 channel ++ put_be 4 size).
    rewrite take_app_length' by (by rewrite length_put_be). by apply get_put_be_small.
  - change (drop 3 (frameType :: put_be 2 channel ++ put_be 4 size)) with (drop 2 (put_be 2 channel ++ put_be 4 size)).
    rewrite drop_app_length' by (by rewrite length_put_be). rewrite take_ge by (by rewrite length_put_be).
    by apply get_put_be_small.
Qed.

Lemma Receive_frame t frameType channel body rest frame :
  let size := Z.of_nat (length body) in
  is_octet frameType → is_short channel → size < 2 ^ 31 → buffer_ok t →
  (frameType = FrameBody → size + 8 ≤ t.(t_frameMax)) →
  t.(t_input) = (frameType :: put_be 2 channel ++ put_be 4 size) ++ (body ++ [FrameEnd]) ++ rest →
  decodeFrame {| FrameType := frameType; Channel := channel; Size := size |} body = Ok frame →
  ∃ t', Receive t = Ok (frame, t') ∧ received t rest t'.
Proof.
  intros size Ht Hc Hs Hb Hmax Hi Hd. unfold Receive.
  destruct (header_fields frameType channel size) as (Hl & H1 & H2 & H3); [done|done|unfold is_long, size; lia|].
  set (header := frameType :: put_be 2 channel ++ put_be 4 size) in *.
  change 7 with (Z.of_nat 7). rewrite <- Hl, (ReadFull_app _ t header _) by (done || (unfold buffer_ok in Hb; lia)).
  cbn [mbind result_bind]. rewrite H1, H2, H3. cbn [t_frameMax].
  assert (u32 (size + 8) = size + 8) as -> by (apply u32_small; unfold size, MaxUint32; lia).
  assert (u32 (size + 1) = size + 1) as -> by (apply u32_small; unfold size, MaxUint32; lia).
  destruct ((frameType =? FrameBody) && _) eqn:E; [bool_to_prop; lia|].
  set (t1 := {| t_input := _ |}). destruct (grow_ok (size + 1) t1) as [Hg1 Hg2]; [done|unfold size; lia|].
  destruct (grow_input (size + 1) t1) as (Hi1 & Ho1 & Hf1). set (t2 := grow (size + 1) t1) in *.
  assert (size + 1 = Z.of_nat (length (body ++ [FrameEnd]))) as Hn by (rewrite length_app; cbn; unfold size; lia).
  rewrite Hn, (ReadFull_app _ t2 (body ++ [FrameEnd]) rest) by (done || lia). cbn [mbind result_bind t_data].
  destruct (Z.leb_spec t2.(t_data) size); [lia|]. unfold size. rewrite Nat2Z.id.
  rewrite lookup_app_r by lia. rewrite Nat.sub_diag. cbn [lookup list_lookup default negb Z.eqb].
  rewrite Z.eqb_refl. cbn [negb]. unfold size in Hd. rewrite take_app_length, Hd. cbn. eexists. split; [done|]. by split_and!.
Qed.

(** A frame that is sent and read back unchanged: its contents can be encoded without loss, its size is below 2^31, and
    a body fits the frame size. *)
Definition frame_encodable (frameMax : Z) (frame : Frame) : Prop :=
  is_short (GetFrameMeta frame).(Channel) ∧
  match frame with
  | FMethod f => Method_all table_encodable f.(MethodFrame_Method)
  | FHeader _ f => ContentHeaderFrame_all table_encodable f
  | FBody _ data => Z.of_nat (length data) + 8 ≤ frameMax
  | FHeartbeat _ => True
  end ∧
  match frame_payload frame with
  | Ok (_, ids, payload) => Z.of_nat (length (ids ++ payload)) < 2 ^ 31
  | _ => False
  end.

(** The frame as it is received: the type, the channel and the size are those on the wire. *)
Definition frame_received (frame : Frame) : Frame :=
  let meta frameType size := {| FrameType := frameType; Channel := (GetFrameMeta frame).(Channel); Size := size |} in
  match frame_payload frame with
  | Ok (frameType, ids, payload) =>
    let meta := meta frameType (Z.of_nat (length (ids ++ payload))) in
    match frame with
    | FMethod f => FMethod {| MethodFrame_FrameMeta := meta;
        MethodFrame_MethodMeta := FixMethodMeta f.(MethodFrame_Method);
        MethodFrame_Method := Method_canon f.(MethodFrame_Method) |}
    | FHeader _ f => FHeader meta (ContentHeaderFrame_canon f)
    | FBody _ data => FBody meta data
    | FHeartbeat _ => FHeartbeat meta
    end
  | _ => frame
  end.

Lemma frame_codec frameMax frame :
  frame_encodable frameMax frame →
  ∃ frameType ids payload,
    frame_payload frame = Ok (frameType, ids, payload) ∧ is_octet frameType ∧
    decodeFrame {| FrameType := frameType; Channel := (GetFrameMeta frame).(Channel);
      Size := Z.of_nat (length (ids ++ payload)) |} (ids ++ payload) = Ok (frame_received frame) ∧
    (frameType = FrameBody → Z.of_nat (length (ids ++ payload)) + 8 ≤ frameMax).
Proof.
  intros (_ & Hf & _). unfold frame_received. destruct frame as [f|meta f|meta data|meta]; cbn [frame_payload].
  - destruct (method_codec_frame _ Hf) as (l & Hl & Hd). rewrite Hl. eexists _, _, _. split; [done|]. split; [done|]. split; [|done].
    unfold decodeFrame. cbn [FrameType Z.eqb Pos.eqb FrameMethod]. unfold method_bytes in Hd. rewrite app_assoc in Hd.
    by rewrite Hd.
  - destruct (content_header_codec _ Hf) as (l & Hl & Hd). rewrite Hl. eexists _, _, _. split; [done|]. split; [done|].
    split; [|done]. unfold decodeFrame. cbn [FrameType Z.eqb Pos.eqb FrameMethod FrameHeader app]. by rewrite Hd.
  - eexists _, _, _. split; [done|]. by split_and!.
  - eexists _, _, _. split; [done|]. by split_and!.
Qed.

(** Sending and receiving several frames. *)
Fixpoint SendAll (t : Transport) (frames : list Frame) : result go_error Transport :=
  match frames with
  | [] => Ok t
  | frame :: frames => t ← Send t frame; SendAll t frames
  end.

Fixpoint ReceiveN (n : nat) (t : Transport) : result go_error (list Frame * Transport) :=
  match n with
  | O => Ok ([], t)
  | S n =>
    '(frame, t) ← Receive t;
    '(frames, t) ← ReceiveN n t;
    Ok (frame :: frames, t)
  end.

Lemma Send_frame t frame :
  frame_encodable t.(t_frameMax) frame →
  ∃ bytes, Send t frame = Ok (write t bytes) ∧
    ∀ r rest, r.(t_input) = bytes ++ rest → r.(t_frameMax) = t.(t_frameMax) → buffer_ok r →
      ∃ r', Receive r = Ok (frame_received frame, r') ∧ received r rest r'.
Proof.
  intros Hf. pose proof Hf as (Hc & _ & Hs).
  destruct (frame_codec _ _ Hf) as (frameType & ids & payload & Hp & Ht & Hd & Hmax).
  rewrite Hp in Hs. exists (frame_bytes frameType (GetFrameMeta frame).(Channel) ids payload). split.
  - unfold Send. rewrite Hp. cbn [mbind result_bind]. rewrite length_app in Hs, Hmax.
    destruct ((frameType =? FrameBody) && _) eqn:E; [|done]. exfalso. bool_to_prop. specialize (Hmax ltac:(done)).
    rewrite u32_small in * by (unfold MaxUint32; lia). lia.
  - intros r rest Hi Hm Hb. eapply (Receive_frame r frameType _ (ids ++ payload) rest); [done|done|done|done| | |done].
    + intros E. rewrite Hm. by apply Hmax.
    + rewrite Hi. unfold frame_bytes. rewrite length_app in *. rewrite u32_small by (unfold MaxUint32; lia).
      replace (Z.of_nat (length payload) + Z.of_nat (length ids)) with (Z.of_nat (length ids + length payload)) by lia.
      cbn [app]. by rewrite <- !app_assoc.
Qed.

Lemma write_app t l k : write (write t l) k = write t (l ++ k).
Proof. unfold write. cbn. by rewrite app_assoc. Qed.

Lemma send_receive t frames :
  Forall (frame_encodable t.(t_frameMax)) frames →
  ∃ bytes, SendAll t frames = Ok (write t bytes) ∧
    ∀ r rest, r.(t_input) = bytes ++ rest → r.(t_frameMax) = t.(t_frameMax) → buffer_ok r →
      ∃ r', ReceiveN (length frames) r = Ok (frame_received <$> frames, r') ∧ received r rest r'.
Proof.
  intros Hf. revert t Hf. induction frames as [|frame frames IH]; intros t Hf.
  { exists []. split; [|by intros r rest Hi Hm Hb; exists r]. cbn. unfold write. rewrite app_nil_r. by destruct t. }
  inversion Hf as [|? ? H1 H2]; subst. destruct (Send_frame t frame H1) as (b1 & Hs1 & Hr1).
  destruct (IH (write t b1) H2) as (b2 & Hs2 & Hr2). exists (b1 ++ b2). split.
  - cbn [SendAll]. rewrite Hs1. cbn. by rewrite Hs2, write_app.
  - intros r rest Hi Hm Hb. rewrite <- app_assoc in Hi. destruct (Hr1 r _ Hi Hm Hb) as (r1 & Hr & Hi1 & Ho1 & Hm1 & Hb1).
    destruct (Hr2 r1 rest Hi1 ltac:(cbn; congruence) Hb1) as (r2 & Hr' & Hi2 & Ho2 & Hm2 & Hb2).
    exists r2. cbn [length ReceiveN]. rewrite Hr. cbn. rewrite Hr'. cbn. split; [done|]. split_and!; [done|congruence..|done].
Qed.

(** ** Bodies *)

Lemma Send_body t meta data :
  Send t (FBody meta data) =
    if t.(t_frameMax) <? u32 (Z.of_nat (length data) + 7 + 1) then Err ErrFrameTooBig
    else Ok (write t (frame_bytes FrameBody meta.(Channel) [] data)).
Proof. unfold Send. cbn [frame_payload mbind result_bind length]. rewrite Z.add_0_r. done. Qed.

(** ** Sizes that the receiver cannot handle *)

Lemma decodeFrame_total meta payload msg : decodeFrame meta payload ≠ Panic msg.
Proof.
  unfold decodeFrame. destruct (_ =? _); [|destruct (_ =? _); [|by repeat case_if]].
  - intros Hp%bind_Panic_inv. revert Hp. unfold decodeMethodFrame. destruct (_ <? _)%nat; [done|].
    intros Hp%bind_Panic_inv. by apply decodeMethod_total in Hp.
  - intros Hp%bind_Panic_inv. by apply content_header_total in Hp.
Qed.

(** The seven bytes of a frame header, its size, and whether [Receive] rejects it for its size. *)
Definition frame_header (input : list Z) (header : list Z) : Prop := length header = 7%nat ∧ ∃ rest, input = header ++ rest.
Definition header_size (header : list Z) : Z := get_be (take 4 (drop 3 header)).
Definition header_rejected (t : Transport) (header : list Z) : Prop :=
  get_be (take 1 header) = FrameBody ∧ t.(t_frameMax) < u32 (header_size header + 8).

Lemma Receive_header t header rest :
  buffer_ok t → t.(t_input) = header ++ rest → length header = 7%nat → ¬ header_rejected t header →
  let t1 := {| t_input := rest; t_output := t.(t_output); t_data := t.(t_data); t_frameMax := t.(t_frameMax) |} in
  let size := header_size header in
  Receive t =
    ('(data, t2) ← ReadFull "read frame payload failed" (u32 (size + 1)) (grow (u32 (size + 1)) t1);
     if t2.(t_data) <=? size then Panic "index out of range"
     else
       if negb (default 0 (data !! Z.to_nat size) =? FrameEnd) then Err ErrMalformedFrame
       else
         frame ← decodeFrame {| FrameType := get_be (take 1 header); Channel := get_be (take 2 (drop 1 header)); Size := size |}
           (take (Z.to_nat size) data);
         Ok (frame, t2)).
Proof.
  intros Hb Hi Hl Hr t1 size. unfold Receive. change 7 with (Z.of_nat 7). rewrite <- Hl, (ReadFull_app _ t header rest);
    [|unfold buffer_ok in Hb; lia|done]. cbn [mbind result_bind]. fold t1. fold (header_size header). fold size.
  destruct ((_ =? FrameBody) && _) eqn:E; [|done]. destruct Hr. bool_to_prop. done.
Qed.

#[export] Instance header_rejected_dec t header : Decision (header_rejected t header).
Proof. unfold header_rejected. apply _. Defined.

Lemma Receive_rejected t header rest :
  buffer_ok t → t.(t_input) = header ++ rest → length header = 7%nat → header_rejected t header → ∃ e, Receive t = Err e.
Proof.
  intros Hb Hi Hl [Hr1 Hr2]. unfold Receive. change 7 with (Z.of_nat 7). rewrite <- Hl, (ReadFull_app _ t header rest);
    [|unfold buffer_ok in Hb; lia|done]. cbn [mbind result_bind]. fold (header_size header). rewrite Hr1, Z.eqb_refl.
  cbn [andb t_frameMax]. destruct (Z.ltb_spec t.(t_frameMax) (u32 (header_size header + 8))); [by eexists|lia].
Qed.

Lemma Receive_short t : buffer_ok t → (length t.(t_input) < 7)%nat → ∃ e, Receive t = Err e.
Proof.
  intros Hb Hl. unfold Receive, ReadFull. destruct (Z.ltb_spec t.(t_data) 7); [unfold buffer_ok in Hb; lia|].
  destruct (Z.ltb_spec (Z.of_nat (length t.(t_input))) 7); [by eexists|lia].
Qed.

Lemma ReadFull_no_panic msg n t msg' : n ≤ t.(t_data) → ReadFull msg n t ≠ Panic msg'.
Proof. intros Hn. unfold ReadFull. destruct (Z.ltb_spec t.(t_data) n); [lia|]. by destruct (_ <? _). Qed.

Lemma ReadFull_data msg n t data t' : ReadFull msg n t = Ok (data, t') → t'.(t_data) = t.(t_data).
Proof. unfold ReadFull. repeat case_if; try done. by intros [= _ <-]. Qed.

Lemma Receive_small t header rest :
  buffer_ok t → t.(t_input) = header ++ rest → length header = 7%nat → ¬ header_rejected t header →
  0 ≤ header_size header < 2 ^ 31 → ∀ msg, Receive t ≠ Panic msg.
Proof.
  intros Hb Hi Hl Hr Hs msg. rewrite (Receive_header t header rest) by done. cbv zeta.
  set (t1 := {| t_input := rest |}). set (size := header_size header) in *.
  rewrite u32_small by (unfold MaxUint32; lia). destruct (grow_ok (size + 1) t1) as [_ Hg]; [done|lia|].
  destruct (ReadFull _ _ _) as [[data t2]| |m] eqn:E; cbn; [|done|by apply ReadFull_no_panic in E].
  apply ReadFull_data in E. destruct (Z.leb_spec t2.(t_data) size); [lia|]. destruct (negb _); [done|].
  intros Hp%bind_Panic_inv. by apply decodeFrame_total in Hp.
Qed.

Lemma Receive_large t header rest :
  buffer_ok t → t.(t_input) = header ++ rest → length header = 7%nat → ¬ header_rejected t header →
  2 ^ 31 ≤ header_size header < 2 ^ 32 → ∃ msg, Receive t = Panic msg.
Proof.
  intros Hb Hi Hl Hr Hs. rewrite (Receive_header t header rest) by done. cbv zeta.
  set (t1 := {| t_input := rest |}). set (size := header_size header) in *. unfold buffer_ok in Hb.
  destruct (decide (size = 2 ^ 32 - 1)) as [->|Hne].
  - change (u32 (2 ^ 32 - 1 + 1)) with 0. unfold grow, ReadFull. cbn [t_data t1].
    destruct (Z.ltb_spec t.(t_data) 0); [lia|]. cbn [t_data t_input t1].
    destruct (Z.ltb_spec t.(t_data) 0); [lia|]. destruct (Z.ltb_spec (Z.of_nat (length rest)) 0); [lia|].
    cbn [mbind result_bind t_data]. destruct (Z.leb_spec t.(t_data) (2 ^ 32 - 1)); [by eexists|lia].
  - rewrite u32_small by (unfold MaxUint32; lia). unfold grow. cbn [t_data t1].
    destruct (Z.ltb_spec t.(t_data) (size + 1)); [|lia].
    destruct (NextPowerOfTwo32_spec (size + 1)) as [_ H0]; [lia|]. rewrite H0 by lia. unfold ReadFull. cbn [t_data].
    destruct (Z.ltb_spec 0 (size + 1)); [by eexists|lia].
Qed.

Lemma header_size_range header : is_bytes header → length header = 7%nat → 0 ≤ header_size header < 2 ^ 32.
Proof. intros Hb Hl. apply (get_be_range _ 4). split; [by apply Forall_take, Forall_drop|]. rewrite length_take, length_drop, Hl. done. Qed.

(** *** Theorems *)

(** (C20) Frames that AMQP 0.9.1 can carry arrive at the other transport, in their order: sending succeeds,
    and receiving as many frames from the bytes that were written gives each frame with the type, channel
    and size on the wire and its contents unchanged, up to the canonical form of tables (no negative zero, an empty table is nil), leaving no byte.
    The conditions on a frame are those of [frame_encodable], for a receiver with a buffer of 7 to 2^31 bytes, as a new one has: its payload is shorter than 2^31 bytes, and a body fits the frame
    size that both sides agreed on; integer fields are in the range of their type, and short strings have at most 255
    bytes; a content header is one of the class basic, and its timestamp is a whole number of seconds that fits an int64; the tables
    can be encoded, and the numbers in them are not infinite and the whole ones fit an int64.  [Send] also accepts infinities, larger
    numbers and parts of a second, and another value arrives: [infinity_becomes_integer] is an example. *)
Theorem transport_delivers (t : Transport) (frames : list Frame) :
  t.(t_output) = [] → Forall (frame_encodable t.(t_frameMax)) frames →
  ∃ t', SendAll t frames = Ok t' ∧
    ∀ r, r.(t_input) = t'.(t_output) → r.(t_frameMax) = t.(t_frameMax) → buffer_ok r →
      ∃ r', ReceiveN (length frames) r = Ok (frame_received <$> frames, r') ∧ r'.(t_input) = [].
Proof.
  intros Ho Hf. destruct (send_receive t frames Hf) as (bytes & Hs & Hr). eexists. split; [exact Hs|].
  intros r Hi Hm Hb. destruct (Hr r [] ltac:(by rewrite Hi, app_nil_r; cbn; rewrite Ho) Hm Hb) as (r' & Hr' & Hi' & _). eauto.
Qed.

(** A publication: a method, a content header with a table, and a body. *)
Definition example_meta : FrameMeta := {| FrameType := 0; Channel := 1; Size := 0 |}.
Definition example_publish : Method := MBasicPublish {|
  BasicPublish_Reserved1 := 0; BasicPublish_Exchange := "logs"; BasicPublish_RoutingKey := "eu.error";
  BasicPublish_Mandatory := false; BasicPublish_Immediate := true |}.
Definition example_header : ContentHeaderFrame := {|
  ContentHeaderFrame_ClassID := BasicClass; ContentHeaderFrame_Weight := 0; ContentHeaderFrame_BodySize := 3;
  ContentHeaderFrame_ContentType := "text/plain"; ContentHeaderFrame_ContentEncoding := "";
  ContentHeaderFrame_Headers := example_table; ContentHeaderFrame_DeliveryMode := 2; ContentHeaderFrame_Priority := 0;
  ContentHeaderFrame_CorrelationID := "42"; ContentHeaderFrame_ReplyTo := ""; ContentHeaderFrame_Expiration := "";
  ContentHeaderFrame_MessageID := ""; ContentHeaderFrame_Timestamp := time_Unix 1550000000; ContentHeaderFrame_Type := "";
  ContentHeaderFrame_UserID := ""; ContentHeaderFrame_AppID := "app"; ContentHeaderFrame_Reserved := "" |}.
Definition example_frames : list Frame := [
  FMethod {| MethodFrame_FrameMeta := example_meta; MethodFrame_MethodMeta := FixMethodMeta example_publish;
    MethodFrame_Method := example_publish |};
  FHeader example_meta example_header; FBody example_meta [1; 2; 3]; FHeartbeat {| FrameType := 0; Channel := 0; Size := 0 |}].

Lemma example_encodable : Forall (frame_encodable FrameMinSize) example_frames.
Proof.
  repeat apply Forall_cons_2; try apply Forall_nil_2; (split; [done|]); split.
  - by vm_compute.
  - by vm_compute.
  - unfold ContentHeaderFrame_all. split_and!; try done.
    + split; [by vm_compute|]. eexists. split; [by vm_compute|by vm_compute].
    + by exists 63685596800.
  - by vm_compute.
  - done.
  - by vm_compute.
  - done.
  - by vm_compute.
Qed.

Lemma transport_delivers_witness :
  ∃ t', SendAll (NewTransport []) example_frames = Ok t' ∧
    ∀ r, r.(t_input) = t'.(t_output) → r.(t_frameMax) = FrameMinSize → buffer_ok r →
      ∃ r', ReceiveN 4 r = Ok (frame_received <$> example_frames, r') ∧ r'.(t_input) = [].
Proof. apply (transport_delivers (NewTransport []) example_frames); [done|exact example_encodable]. Defined.

(** Receiving from any bytes returns a frame or an error, except for a frame whose size is 2^31 or more:
    that one, when its size does not make it a body over the limit, panics. *)
Theorem Receive_panics_iff (t : Transport) :
  is_bytes t.(t_input) → buffer_ok t →
  (∃ msg, Receive t = Panic msg) ↔
  ∃ header, frame_header t.(t_input) header ∧ 2 ^ 31 ≤ header_size header ∧ ¬ header_rejected t header.
Proof.
  intros Hb Ht. destruct (decide (length t.(t_input) < 7)%nat) as [Hs|Hs].
  { destruct (Receive_short t Ht Hs) as [e He]. split; [intros [msg Hm]; congruence|].
    intros (header & (Hl & rest & Hi) & _). rewrite Hi, length_app in Hs. lia. }
  set (header := take 7 t.(t_input)). set (rest := drop 7 t.(t_input)).
  assert (t.(t_input) = header ++ rest) as Hi by (symmetry; apply take_drop).
  assert (length header = 7%nat) as Hl by (unfold header; rewrite length_take; lia).
  assert (is_bytes header) as Hbh by (by apply Forall_take).
  pose proof (header_size_range header Hbh Hl) as Hr.
  assert (∀ header', frame_header t.(t_input) header' → header' = header) as Hu.
  { intros header' (Hl' & rest' & Hi'). unfold header. rewrite Hi', <- Hl', take_app_length. done. }
  destruct (decide (header_rejected t header)) as [Hj|Hj].
  { destruct (Receive_rejected t header rest Ht Hi Hl Hj) as [e He]. split; [intros [msg Hm]; congruence|].
    intros (header' & ->%Hu & _ & ?). done. }
  destruct (decide (2 ^ 31 ≤ header_size header)) as [Hsize|Hsize].
  - split; [intros _; exists header; split; [by split; [|exists rest]|done]|intros _]. apply (Receive_large t header rest); (done || lia).
  - split; [|by intros (header' & ->%Hu & ? & _)]. intros [msg Hm]. exfalso. revert Hm.
    apply (Receive_small t header rest); (done || lia).
Qed.

Lemma Receive_panics_iff_witness :
  let t := NewTransport [1; 0; 0; 128; 0; 0; 0] in
  (∃ msg, Receive t = Panic msg) ↔
  ∃ header, frame_header t.(t_input) header ∧ 2 ^ 31 ≤ header_size header ∧ ¬ header_rejected t header.
Proof.
  intros t. apply (Receive_panics_iff t); [|by vm_compute]. repeat apply Forall_cons_2; (apply Forall_nil_2 || lia).
Defined.

(** The largest size is not rejected for a body either: the sum with the framing wraps around. *)
Lemma Receive_body_wraps : ∃ msg, Receive (NewTransport [3; 0; 1; 255; 255; 255; 255]) = Panic msg.
Proof. eexists. vm_compute. reflexivity. Qed.

(** A body goes out as one frame when it fits in a frame with its eight bytes of framing, and no byte is sent for
    an empty body; every longer body is refused, since its first part alone is over the limit. *)
Theorem SendBody_spec (t : Transport) (channel : Z) (data : list Z) :
  0 ≤ t.(t_frameMax) < 2 ^ 32 → Z.of_nat (length data) < 2 ^ 32 - 8 →
  SendBody t channel data =
    if decide (data = []) then Ok t
    else if t.(t_frameMax) <? Z.of_nat (length data) + 8 then Err ErrFrameTooBig
    else Ok (write t (frame_bytes FrameBody channel [] data)).
Proof.
  intros Hm Hl. unfold SendBody. rewrite u32_small by (unfold MaxUint32; lia).
  destruct (decide (data = [])) as [->|Hne]; [done|].
  assert (0 < length data)%nat as Hpos by (destruct data; [done|cbn; lia]).
  cbn [SendBody_loop]. destruct (Z.ltb_spec 0 (Z.of_nat (length data))); [|lia].
  destruct (Z.ltb_spec t.(t_frameMax) (Z.of_nat (length data) + 8)) as [Hbig|Hfit].
  - set (end_ := if Z.of_nat (length data) <? t.(t_frameMax) then Z.of_nat (length data) else t.(t_frameMax)).
    assert (0 ≤ end_ ≤ Z.of_nat (length data) ∧ t.(t_frameMax) < end_ + 8) as [He Ho].
    { unfold end_. destruct (Z.ltb_spec (Z.of_nat (length data)) t.(t_frameMax)); lia. }
    clearbody end_. destruct (Z.ltb_spec end_ 0); [lia|]. rewrite Send_body, drop_0, length_take_le by lia.
    rewrite (u32_small (_ + 7 + 1)) by (unfold MaxUint32; lia). destruct (Z.ltb_spec t.(t_frameMax) (Z.of_nat (Z.to_nat (end_ - 0)) + 7 + 1)); [done|lia].
  - destruct (Z.ltb_spec (Z.of_nat (length data)) t.(t_frameMax)); [|lia].
    destruct (Z.ltb_spec (Z.of_nat (length data)) 0); [lia|]. rewrite Send_body, drop_0, take_ge by lia.
    rewrite (u32_small (_ + 7 + 1)) by (unfold MaxUint32; lia). destruct (Z.ltb_spec t.(t_frameMax) (Z.of_nat (length data) + 7 + 1)); [lia|].
    cbn [mbind result_bind]. destruct data as [|b data]; [done|]. cbn [length SendBody_loop].
    by destruct (Z.ltb_spec (Z.of_nat (S (length data))) (Z.of_nat (S (length data)))); [lia|].
Qed.

Lemma SendBody_spec_witness :
  SendBody (NewTransport []) 1 (replicate 4089 0) = Err ErrFrameTooBig.
Proof. rewrite (SendBody_spec (NewTransport []) 1 (replicate 4089 0)); [by vm_compute|by vm_compute|by vm_compute]. Defined.
