(* ===== verification/AmqpV0Server.v ===== *)
(** * AMQP 0-9-1: the server

    Models src/mq/server_amqp_v0.go and the handlers of the methods (server_amqp_v0_*.go): a connection with its
    channels, the assembly of published messages from frames, deliveries and their acknowledgement.  A handler is a
    [method] of its channel: frames that are sent and requests to the rest of the server are calls.  An error text has the
    format in place of what it formats. *)
From S2P Require Import Prelude Emq Bytes ClusterState ClusterOps Reconciler Requests Server StructValue Interaction Broker AmqpV0Methods AmqpV0Frames AmqpV0Header AmqpV0Transport.

(** ** Reply codes *)

Definition ReplySuccess : Z := 200.
Definition ConnectionForced : Z := 320.
Definition NotFound : Z := 404.
Definition PreconditionFailed : Z := 406.
Definition FrameError : Z := 501.
Definition SyntaxError : Z := 502.
Definition ChannelError : Z := 504.
Definition UnexpectedFrame : Z := 505.
Definition NotAllowed : Z := 530.
Definition NotImplemented : Z := 540.
Definition InternalError : Z := 541.

(** ** State *)

Inductive channel_state : Type :=
| channelStateReady
| channelStateClosing
| channelStateAwaitingHeader
| channelStateAwaitingBody.

#[export] Instance channel_state_eq_dec : EqDecision channel_state.
Proof. solve_decision. Defined.

Definition defaultExchangeTopicName : string := "default".

Record ChannelInflight : Type := {
  if_deliveryTag : Z; if_nodeID : Z; if_subscriptionID : Z; if_seqNo : Z }.

(** A consumer is known by a number that its start is answered with. *)
Record ServerChannel : Type := {
  ch_id : Z;
  ch_state : channel_state;
  ch_prefetchCount : Z;
  ch_publishExchange : string;
  ch_publishRoutingKey : string;
  ch_publishProperties : option Message_Properties;
  ch_publishHeaders : option Struct;
  ch_publishData : list Z;
  ch_publishRemaining : Z;
  ch_consumers : gmap string nat;
  ch_deliveryTag : Z;
  ch_inflight : list ChannelInflight;
}.

Definition new_channel (id : Z) : ServerChannel :=
  {| ch_id := id; ch_state := channelStateReady; ch_prefetchCount := 0; ch_publishExchange := ""; ch_publishRoutingKey := "";
     ch_publishProperties := None; ch_publishHeaders := None; ch_publishData := []; ch_publishRemaining := 0;
     ch_consumers := ∅; ch_deliveryTag := 0; ch_inflight := [] |}.

Definition set_state (state : channel_state) (ch : ServerChannel) : ServerChannel :=
  {| ch_id := ch_id ch; ch_state := state; ch_prefetchCount := ch_prefetchCount ch; ch_publishExchange := ch_publishExchange ch;
     ch_publishRoutingKey := ch_publishRoutingKey ch; ch_publishProperties := ch_publishProperties ch;
     ch_publishHeaders := ch_publishHeaders ch; ch_publishData := ch_publishData ch; ch_publishRemaining := ch_publishRemaining ch;
     ch_consumers := ch_consumers ch; ch_deliveryTag := ch_deliveryTag ch; ch_inflight := ch_inflight ch |}.

Definition set_publish (exchange routingKey : string) (properties : option Message_Properties) (headers : option Struct)
    (data : list Z) (remaining : Z) (ch : ServerChannel) : ServerChannel :=
  {| ch_id := ch_id ch; ch_state := ch_state ch; ch_prefetchCount := ch_prefetchCount ch; ch_publishExchange := exchange;
     ch_publishRoutingKey := routingKey; ch_publishProperties := properties; ch_publishHeaders := headers; ch_publishData := data;
     ch_publishRemaining := remaining; ch_consumers := ch_consumers ch; ch_deliveryTag := ch_deliveryTag ch; ch_inflight := ch_inflight ch |}.

Definition ResetPublish : ServerChannel → ServerChannel := set_publish "" "" None None [] 0.

Definition set_prefetch (n : Z) (ch : ServerChannel) : ServerChannel :=
  {| ch_id := ch_id ch; ch_state := ch_state ch; ch_prefetchCount := n; ch_publishExchange := ch_publishExchange ch;
     ch_publishRoutingKey := ch_publishRoutingKey ch; ch_publishProperties := ch_publishProperties ch;
     ch_publishHeaders := ch_publishHeaders ch; ch_publishData := ch_publishData ch; ch_publishRemaining := ch_publishRemaining ch;
     ch_consumers := ch_consumers ch; ch_deliveryTag := ch_deliveryTag ch; ch_inflight := ch_inflight ch |}.

Definition set_deliveries (consumers : gmap string nat) (deliveryTag : Z) (inflight : list ChannelInflight) (ch : ServerChannel) : ServerChannel :=
  {| ch_id := ch_id ch; ch_state := ch_state ch; ch_prefetchCount := ch_prefetchCount ch; ch_publishExchange := ch_publishExchange ch;
     ch_publishRoutingKey := ch_publishRoutingKey ch; ch_publishProperties := ch_publishProperties ch;
     ch_publishHeaders := ch_publishHeaders ch; ch_publishData := ch_publishData ch; ch_publishRemaining := ch_publishRemaining ch;
     ch_consumers := consumers; ch_deliveryTag := deliveryTag; ch_inflight := inflight |}.

Definition set_inflight (inflight : list ChannelInflight) (ch : ServerChannel) : ServerChannel :=
  set_deliveries (ch_consumers ch) (ch_deliveryTag ch) inflight ch.

(** ** Calls *)

Inductive v0_call : Type :=
| CallExpectOpen
| CallCurrent
| CallSend (frame : Frame)
| CallSendBody (channel : Z) (data : list Z)
| CallCreateTopic (request : TopicCreateRequest)
| CallDeleteTopic (request : TopicDeleteRequest)
| CallCreateConsumerGroup (request : ConsumerGroupCreateRequest)
| CallDeleteConsumerGroup (request : ConsumerGroupDeleteRequest)
| CallConsumerGroupWait (namespace name : string)
| CallPublish (request : TopicPublishRequest)
| CallAck (request : MessageAckRequest)
| CallNack (request : MessageAckRequest)
| CallUUID
| CallSubscribe (request : ConsumerGroupSubscribeRequest) (channel : Z) (consumerTag : string)
| CallReceive (consumer : nat) (* [delivery, ok := <-stream.C] *)
| CallCloseConsumer (consumer : nat).

(** [None] is a nil error. *)
Definition v0_answer (e : v0_call) : Type :=
  match e with
  | CallExpectOpen => result go_error ConnectionOpen
  | CallCurrent => ClusterState
  | CallUUID => result go_error string
  | CallSubscribe _ _ _ => nat
  | CallReceive _ => option SubscribeResponse
  | CallCloseConsumer _ => unit
  | _ => option go_error
  end.

Inductive handler_error : Type :=
| ConnClose (frame : ConnectionClose)
| ChanClose (frame : ChannelClose)
| OtherError (e : go_error).

Definition v0_method : Type → Type := method v0_answer ServerChannel handler_error.

Definition makeConnectionClose (code : Z) (err : go_error) : handler_error :=
  ConnClose {| ConnectionClose_ReplyCode := code; ConnectionClose_ReplyText := Error_text err; ConnectionClose_ClassID := 0; ConnectionClose_MethodID := 0 |}.

(** The frame is sent on the channel of the method. *)
Definition makeChannelClose (code : Z) (err : go_error) : handler_error :=
  ChanClose {| ChannelClose_ReplyCode := code; ChannelClose_ReplyText := Error_text err; ChannelClose_ClassID := 0; ChannelClose_MethodID := 0 |}.

Definition meta_on (channel : Z) : FrameMeta := {| FrameType := 0; Channel := channel; Size := 0 |}.

Definition method_on (channel : Z) (m : Method) : Frame :=
  FMethod {| MethodFrame_FrameMeta := meta_on channel; MethodFrame_MethodMeta := {| ClassID := 0; MethodID := 0 |}; MethodFrame_Method := m |}.

(** [return transport.Send(...)] *)
Definition reply_with (m : Method) : v0_method unit :=
  ch ← get; err ← ask (CallSend (method_on (ch_id ch) m)); fail_on err OtherError.

(** [if err != nil { return errors.Wrap(err, msg) }] *)
Definition wrap_error (msg : string) (err : option go_error) : v0_method unit := fail_on err (λ e, OtherError (ErrWrap e msg)).

Definition find_namespace (name : string) : v0_method ClusterNamespace :=
  state ← ask CallCurrent;
  match FindNamespace state name with
  | None => throw (makeChannelClose NotFound (ErrNew "vhost %q not found"))
  | Some (_, namespace) => mret namespace
  end.

Definition find_queue (namespace : ClusterNamespace) (name : string) : v0_method ClusterConsumerGroup :=
  match FindConsumerGroup namespace name with
  | None => throw (makeChannelClose NotFound (ErrNew "queue %q not found"))
  | Some (_, cg) => mret cg
  end.

Definition find_exchange (namespace : ClusterNamespace) (name : string) : v0_method ClusterTopic :=
  match FindTopic namespace name with
  | None => throw (makeChannelClose NotFound (ErrNew "exchange %q not found"))
  | Some (_, tp) => mret tp
  end.

(** A field of the arguments, or a syntax error. *)
Definition argument {A} (msg : string) (r : result go_error A) : v0_method A :=
  match r with
  | Ok a => mret a
  | Err e => throw (makeConnectionClose SyntaxError (ErrWrap e msg))
  | Panic msg => crash msg
  end.

(** ** Exchanges *)

Definition handleAMQPv0ExchangeDeclare `{DurationFormat} (namespaceName : string) (frame : ExchangeDeclare) : v0_method unit :=
  guard_not ((ExchangeDeclare_Exchange frame =? "")%string || (ExchangeDeclare_Exchange frame =? defaultExchangeTopicName)%string)
    (makeConnectionClose SyntaxError (ErrNew "trying to declare default exchange"));;
  guard_not (negb (ExchangeDeclare_Durable frame)) (makeConnectionClose NotImplemented (ErrNew "non-durable exchanges not implemented"));;
  guard_not (ExchangeDeclare_AutoDelete frame) (makeConnectionClose NotImplemented (ErrNew "auto-delete exchanges not implemented"));;
  guard_not (ExchangeDeclare_Internal frame) (makeConnectionClose NotImplemented (ErrNew "internal exchanges not implemented"));;
  shards ← argument "shards field failed" (Uint32 (ExchangeDeclare_Arguments frame) "shards" 1);
  replicationFactor ← argument "replication-factor field failed"
    (Uint32 (ExchangeDeclare_Arguments frame) "replication-factor" defaultReplicationFactor);
  retention ← argument "retention field failed" (Duration (ExchangeDeclare_Arguments frame) "retention" 1);
  let request := {| tcr_LeaderOnly := false; tcr_Topic := {|
    Topic_Namespace := namespaceName; Topic_Name := ExchangeDeclare_Exchange frame; Topic_Shards := shards;
    Topic_ReplicationFactor := replicationFactor; Topic_Retention := retention; Topic_DefaultExchangeType := ExchangeDeclare_Type frame |} |} in
  namespace ← find_namespace namespaceName;
  (if ExchangeDeclare_Passive frame then find_exchange namespace (ExchangeDeclare_Exchange frame);; mret ()
   else err ← ask (CallCreateTopic request); wrap_error "create failed" err);;
  if ExchangeDeclare_NoWait frame then mret () else reply_with (MExchangeDeclareOk MkExchangeDeclareOk).

Definition handleAMQPv0ExchangeDelete (namespaceName : string) (frame : ExchangeDelete) : v0_method unit :=
  guard_not ((ExchangeDelete_Exchange frame =? "")%string || (ExchangeDelete_Exchange frame =? defaultExchangeTopicName)%string)
    (makeConnectionClose SyntaxError (ErrNew "trying to delete default exchange"));;
  find_namespace namespaceName;;
  err ← ask (CallDeleteTopic {| tdr_LeaderOnly := false; tdr_Namespace := namespaceName; tdr_Name := ExchangeDelete_Exchange frame;
                                tdr_IfUnused := ExchangeDelete_IfUnused frame |});
  wrap_error "delete failed" err;;
  if ExchangeDelete_NoWait frame then mret () else reply_with (MExchangeDeleteOk MkExchangeDeleteOk).

(** ** Queues *)

(** [uuid.GenerateUUID()], if no name is given. *)
Definition generated_name (prefix msg name : string) : v0_method string :=
  if (name =? "")%string then
    generated ← ask CallUUID;
    match generated with
    | Ok generated => mret (prefix +:+ generated)
    | Err e => throw (OtherError (ErrWrap e msg))
    | Panic msg => crash msg
    end
  else mret name.

Definition default_topic (namespaceName : string) : Topic :=
  {| Topic_Namespace := namespaceName; Topic_Name := defaultExchangeTopicName; Topic_Shards := 1;
     Topic_ReplicationFactor := defaultReplicationFactor; Topic_Retention := 1; Topic_DefaultExchangeType := ExchangeTypeDirect |}.

(** The bindings that a declared queue is created with. *)
Definition declared_bindings (cg : option (nat * ClusterConsumerGroup)) (queue : string) : list ConsumerGroup_Binding :=
  match cg with
  | Some (_, cg) => convertClusterBinding <$> cg_Bindings cg
  | None => [{| Binding_TopicName := defaultExchangeTopicName; Binding_ExchangeType := ExchangeTypeDirect; Binding_by := By_RoutingKey queue |}]
  end.

(** The request that creates or changes a queue. *)
Definition group_request (namespaceName queue : string) (size : Z) (bindings : list ConsumerGroup_Binding) : ConsumerGroupCreateRequest :=
  {| gcr_LeaderOnly := false; gcr_ConsumerGroup := {|
       ConsumerGroup_Namespace := namespaceName; ConsumerGroup_Name := queue; ConsumerGroup_Bindings := bindings;
       ConsumerGroup_Size := size; ConsumerGroup_Since := 0 |} |}.

Definition handleAMQPv0QueueDeclare (namespaceName : string) (frame : QueueDeclare) : v0_method unit :=
  guard_not (negb (QueueDeclare_Durable frame)) (makeConnectionClose NotImplemented (ErrNew "non-durable queues not implemented"));;
  guard_not (QueueDeclare_Exclusive frame) (makeConnectionClose NotImplemented (ErrNew "exclusive queues not implemented"));;
  guard_not (QueueDeclare_AutoDelete frame) (makeConnectionClose NotImplemented (ErrNew "auto-delete queues not implemented"));;
  namespace ← find_namespace namespaceName;
  (match FindTopic namespace defaultExchangeTopicName with
   | Some _ => mret ()
   | None =>
     err ← ask (CallCreateTopic {| tcr_LeaderOnly := false; tcr_Topic := default_topic namespaceName |});
     wrap_error "create default exchange failed" err
   end);;
  size ← argument "size field failed" (Uint32 (QueueDeclare_Arguments frame) "size" defaultConsumerGroupSize);
  queue ← generated_name "amq-" "generate queue name failed" (QueueDeclare_Queue frame);
  let cg := FindConsumerGroup namespace queue in
  (if QueueDeclare_Passive frame then find_queue namespace queue;; mret ()
   else
     err ← ask (CallCreateConsumerGroup (group_request namespaceName queue size (declared_bindings cg queue)));
     wrap_error "create failed" err;;
     err ← ask (CallConsumerGroupWait namespaceName queue);
     wrap_error "wait failed" err);;
  if QueueDeclare_NoWait frame then mret ()
  else reply_with (MQueueDeclareOk {| QueueDeclareOk_Queue := queue; QueueDeclareOk_MessageCount := 0; QueueDeclareOk_ConsumerCount := 0 |}).

Definition handleAMQPv0QueueDelete (namespaceName : string) (frame : QueueDelete) : v0_method unit :=
  find_namespace namespaceName;;
  err ← ask (CallDeleteConsumerGroup {| gdr_LeaderOnly := false; gdr_Namespace := namespaceName; gdr_Name := QueueDelete_Queue frame |});
  wrap_error "delete failed" err;;
  if QueueDelete_NoWait frame then mret () else reply_with (MQueueDeleteOk {| QueueDeleteOk_MessageCount := 0 |}).

(** [delete(m, k)] *)
Definition map_delete {A} (k : string) (m : list (string * A)) : list (string * A) := filter (λ p, p.1 ≠ k) m.

(** The switch on the type of the exchange. *)
Definition binding_by (tp : ClusterTopic) (routingKey : string) (arguments : option Struct) : v0_method Binding_By :=
  if (topic_DefaultExchangeType tp =? ExchangeTypeFanout)%string then mret By_nil
  else if (topic_DefaultExchangeType tp =? ExchangeTypeDirect)%string || (topic_DefaultExchangeType tp =? ExchangeTypeTopic)%string then
    mret (By_RoutingKey routingKey)
  else if (topic_DefaultExchangeType tp =? ExchangeTypeHeaders)%string then
    match arguments ≫= Fields with
    | None => throw (makeConnectionClose SyntaxError (ErrNew "trying to bind to headers exchange, but arguments not set"))
    | Some fields =>
      algo ← argument "x-match field failed" (String_ arguments "x-match" "");
      let arguments := Some (MkStruct (Some (map_delete "x-match" fields))) in
      if (algo =? "")%string then throw (makeConnectionClose SyntaxError (ErrNew "trying to bind to headers exchange, but %q not set"))
      else if (algo =? "all")%string then mret (By_HeadersAll arguments)
      else if (algo =? "any")%string then mret (By_HeadersAny arguments)
      else throw (makeConnectionClose SyntaxError (ErrNew "unknown matching algorithm %q"))
    end
  else crash "unhandled exchange type".

(** [reflect.DeepEqual] on bindings. *)
Definition DeepEqual_headers (x y : option Struct) : bool :=
  match x, y with
  | None, None => true
  | Some x, Some y => DeepEqualStruct x y
  | _, _ => false
  end.

Definition DeepEqual_By (x y : Binding_By) : bool :=
  match x, y with
  | By_nil, By_nil => true
  | By_RoutingKey x, By_RoutingKey y => (x =? y)%string
  | By_HeadersAll x, By_HeadersAll y => DeepEqual_headers x y
  | By_HeadersAny x, By_HeadersAny y => DeepEqual_headers x y
  | _, _ => false
  end.

Definition DeepEqual_Binding (x y : ConsumerGroup_Binding) : bool :=
  (Binding_TopicName x =? Binding_TopicName y)%string && (Binding_ExchangeType x =? Binding_ExchangeType y)%string &&
  DeepEqual_By (Binding_by x) (Binding_by y).

Definition bind_to (bindings : list ConsumerGroup_Binding) (newBinding : ConsumerGroup_Binding) : list ConsumerGroup_Binding :=
  if existsb (λ clientBinding, DeepEqual_Binding clientBinding newBinding) bindings then bindings else bindings ++ [newBinding].

Definition unbind_from (bindings : list ConsumerGroup_Binding) (unbinding : ConsumerGroup_Binding) : list ConsumerGroup_Binding :=
  filter (λ clientBinding, DeepEqual_Binding clientBinding unbinding = false) bindings.

Definition handleAMQPv0QueueBind (namespaceName : string) (frame : QueueBind) : v0_method unit :=
  guard_not (QueueBind_Exchange frame =? "")%string (makeConnectionClose SyntaxError (ErrNew "trying to bind to default exchange"));;
  namespace ← find_namespace namespaceName;
  cg ← find_queue namespace (QueueBind_Queue frame);
  tp ← find_exchange namespace (QueueBind_Exchange frame);
  by_ ← binding_by tp (QueueBind_RoutingKey frame) (QueueBind_Arguments frame);
  let newBinding := {| Binding_TopicName := topic_Name tp; Binding_ExchangeType := topic_DefaultExchangeType tp; Binding_by := by_ |} in
  err ← ask (CallCreateConsumerGroup (group_request namespaceName (QueueBind_Queue frame) (cg_Size cg)
    (bind_to (convertClusterBinding <$> cg_Bindings cg) newBinding)));
  wrap_error "create failed" err;;
  if QueueBind_NoWait frame then mret () else reply_with (MQueueBindOk MkQueueBindOk).

Definition handleAMQPv0QueueUnbind (namespaceName : string) (frame : QueueUnbind) : v0_method unit :=
  guard_not (QueueUnbind_Exchange frame =? "")%string (makeConnectionClose SyntaxError (ErrNew "trying to unbind from default exchange"));;
  namespace ← find_namespace namespaceName;
  cg ← find_queue namespace (QueueUnbind_Queue frame);
  tp ← find_exchange namespace (QueueUnbind_Exchange frame);
  by_ ← binding_by tp (QueueUnbind_RoutingKey frame) (QueueUnbind_Arguments frame);
  let unbinding := {| Binding_TopicName := topic_Name tp; Binding_ExchangeType := topic_DefaultExchangeType tp; Binding_by := by_ |} in
  err ← ask (CallCreateConsumerGroup (group_request namespaceName (QueueUnbind_Queue frame) (cg_Size cg)
    (unbind_from (convertClusterBinding <$> cg_Bindings cg) unbinding)));
  wrap_error "create failed" err;;
  reply_with (MQueueUnbindOk MkQueueUnbindOk).

(** ** Publishing *)

Definition handleAMQPv0BasicPublish (namespaceName : string) (frame : BasicPublish) : v0_method unit :=
  guard_not (BasicPublish_Mandatory frame) (makeConnectionClose NotImplemented (ErrNew "mandatory publish not implemented"));;
  guard_not (BasicPublish_Immediate frame) (makeConnectionClose NotImplemented (ErrNew "immediate publish not implemented"));;
  find_namespace namespaceName;;
  modify (λ ch, set_publish (BasicPublish_Exchange frame) (BasicPublish_RoutingKey frame) (ch_publishProperties ch)
    (ch_publishHeaders ch) (ch_publishData ch) (ch_publishRemaining ch) ch);;
  modify (set_state channelStateAwaitingHeader).

Definition no_properties : Message_Properties :=
  {| ContentType := ""; ContentEncoding := ""; DeliveryMode := 0; Priority := 0; CorrelationID := ""; ReplyTo := ""; Expiration := ""; MessageID := ""; Timestamp := 0; MsgType := ""; UserID := ""; AppID := ""; To := ""; GroupID := ""; GroupSequence := 0; ReplyToGroupID := "" |}.

(** One assignment of the handler: [if set { if p == nil { p = &Message_Properties{} }; p.Field = ... }]. *)
Definition assign_if (set : bool) (f : Message_Properties → Message_Properties) (p : option Message_Properties) : option Message_Properties :=
  if set then Some (f (default no_properties p)) else p.

Definition set_ContentType (v : string) (p : Message_Properties) : Message_Properties :=
  {| ContentType := v; ContentEncoding := ContentEncoding p; DeliveryMode := DeliveryMode p; Priority := Priority p; CorrelationID := CorrelationID p; ReplyTo := ReplyTo p; Expiration := Expiration p; MessageID := MessageID p; Timestamp := Timestamp p; MsgType := MsgType p; UserID := UserID p; AppID := AppID p; To := To p; GroupID := GroupID p; GroupSequence := GroupSequence p; ReplyToGroupID := ReplyToGroupID p |}.

Definition set_ContentEncoding (v : string) (p : Message_Properties) : Message_Properties :=
  {| ContentType := ContentType p; ContentEncoding := v; DeliveryMode := DeliveryMode p; Priority := Priority p; CorrelationID := CorrelationID p; ReplyTo := ReplyTo p; Expiration := Expiration p; MessageID := MessageID p; Timestamp := Timestamp p; MsgType := MsgType p; UserID := UserID p; AppID := AppID p; To := To p; GroupID := GroupID p; GroupSequence := GroupSequence p; ReplyToGroupID := ReplyToGroupID p |}.

Definition set_DeliveryMode (v : Z) (p : Message_Properties) : Message_Properties :=
  {| ContentType := ContentType p; ContentEncoding := ContentEncoding p; DeliveryMode := v; Priority := Priority p; CorrelationID := CorrelationID p; ReplyTo := ReplyTo p; Expiration := Expiration p; MessageID := MessageID p; Timestamp := Timestamp p; MsgType := MsgType p; UserID := UserID p; AppID := AppID p; To := To p; GroupID := GroupID p; GroupSequence := GroupSequence p; ReplyToGroupID := ReplyToGroupID p |}.

Definition set_Priority (v : Z) (p : Message_Properties) : Message_Properties :=
  {| ContentType := ContentType p; ContentEncoding := ContentEncoding p; DeliveryMode := DeliveryMode p; Priority := v; CorrelationID := CorrelationID p; ReplyTo := ReplyTo p; Expiration := Expiration p; MessageID := MessageID p; Timestamp := Timestamp p; MsgType := MsgType p; UserID := UserID p; AppID := AppID p; To := To p; GroupID := GroupID p; GroupSequence := GroupSequence p; ReplyToGroupID := ReplyToGroupID p |}.

Definition set_CorrelationID (v : string) (p : Message_Properties) : Message_Properties :=
  {| ContentType := ContentType p; ContentEncoding := ContentEncoding p; DeliveryMode := DeliveryMode p; Priority := Priority p; CorrelationID := v; ReplyTo := ReplyTo p; Expiration := Expiration p; MessageID := MessageID p; Timestamp := Timestamp p; MsgType := MsgType p; UserID := UserID p; AppID := AppID p; To := To p; GroupID := GroupID p; GroupSequence := GroupSequence p; ReplyToGroupID := ReplyToGroupID p |}.

Definition set_ReplyTo (v : string) (p : Message_Properties) : Message_Properties :=
  {| ContentType := ContentType p; ContentEncoding := ContentEncoding p; DeliveryMode := DeliveryMode p; Priority := Priority p; CorrelationID := CorrelationID p; ReplyTo := v; Expiration := Expiration p; MessageID := MessageID p; Timestamp := Timestamp p; MsgType := MsgType p; UserID := UserID p; AppID := AppID p; To := To p; GroupID := GroupID p; GroupSequence := GroupSequence p; ReplyToGroupID := ReplyToGroupID p |}.

Definition set_Expiration (v : string) (p : Message_Properties) : Message_Properties :=
  {| ContentType := ContentType p; ContentEncoding := ContentEncoding p; DeliveryMode := DeliveryMode p; Priority := Priority p; CorrelationID := CorrelationID p; ReplyTo := ReplyTo p; Expiration := v; MessageID := MessageID p; Timestamp := Timestamp p; MsgType := MsgType p; UserID := UserID p; AppID := AppID p; To := To p; GroupID := GroupID p; GroupSequence := GroupSequence p; ReplyToGroupID := ReplyToGroupID p |}.

Definition set_MessageID (v : string) (p : Message_Properties) : Message_Properties :=
  {| ContentType := ContentType p; ContentEncoding := ContentEncoding p; DeliveryMode := DeliveryMode p; Priority := Priority p; CorrelationID := CorrelationID p; ReplyTo := ReplyTo p; Expiration := Expiration p; MessageID := v; Timestamp := Timestamp p; MsgType := MsgType p; UserID := UserID p; AppID := AppID p; To := To p; GroupID := GroupID p; GroupSequence := GroupSequence p; ReplyToGroupID := ReplyToGroupID p |}.

Definition set_Timestamp (v : Z) (p : Message_Properties) : Message_Properties :=
  {| ContentType := ContentType p; ContentEncoding := ContentEncoding p; DeliveryMode := DeliveryMode p; Priority := Priority p; CorrelationID := CorrelationID p; ReplyTo := ReplyTo p; Expiration := Expiration p; MessageID := MessageID p; Timestamp := v; MsgType := MsgType p; UserID := UserID p; AppID := AppID p; To := To p; GroupID := GroupID p; GroupSequence := GroupSequence p; ReplyToGroupID := ReplyToGroupID p |}.

Definition set_MsgType (v : string) (p : Message_Properties) : Message_Properties :=
  {| ContentType := ContentType p; ContentEncoding := ContentEncoding p; DeliveryMode := DeliveryMode p; Priority := Priority p; CorrelationID := CorrelationID p; ReplyTo := ReplyTo p; Expiration := Expiration p; MessageID := MessageID p; Timestamp := Timestamp p; MsgType := v; UserID := UserID p; AppID := AppID p; To := To p; GroupID := GroupID p; GroupSequence := GroupSequence p; ReplyToGroupID := ReplyToGroupID p |}.

Definition set_UserID (v : string) (p : Message_Properties) : Message_Properties :=
  {| ContentType := ContentType p; ContentEncoding := ContentEncoding p; DeliveryMode := DeliveryMode p; Priority := Priority p; CorrelationID := CorrelationID p; ReplyTo := ReplyTo p; Expiration := Expiration p; MessageID := MessageID p; Timestamp := Timestamp p; MsgType := MsgType p; UserID := v; AppID := AppID p; To := To p; GroupID := GroupID p; GroupSequence := GroupSequence p; ReplyToGroupID := ReplyToGroupID p |}.

Definition set_AppID (v : string) (p : Message_Properties) : Message_Properties :=
  {| ContentType := ContentType p; ContentEncoding := ContentEncoding p; DeliveryMode := DeliveryMode p; Priority := Priority p; CorrelationID := CorrelationID p; ReplyTo := ReplyTo p; Expiration := Expiration p; MessageID := MessageID p; Timestamp := Timestamp p; MsgType := MsgType p; UserID := UserID p; AppID := v; To := To p; GroupID := GroupID p; GroupSequence := GroupSequence p; ReplyToGroupID := ReplyToGroupID p |}.

Definition nonempty (s : string) : bool := negb (s =? "")%string.

(** The properties of a header, assigned field by field; a uint8 is an int32 as it is. *)
Definition header_properties (frame : ContentHeaderFrame) (p : option Message_Properties) : option Message_Properties :=
  let p := assign_if (nonempty (ContentHeaderFrame_ContentType frame)) (set_ContentType (ContentHeaderFrame_ContentType frame)) p in
  let p := assign_if (nonempty (ContentHeaderFrame_ContentEncoding frame)) (set_ContentEncoding (ContentHeaderFrame_ContentEncoding frame)) p in
  let p := assign_if (negb (ContentHeaderFrame_DeliveryMode frame =? 0)) (set_DeliveryMode (ContentHeaderFrame_DeliveryMode frame)) p in
  let p := assign_if (negb (ContentHeaderFrame_Priority frame =? 0)) (set_Priority (ContentHeaderFrame_Priority frame)) p in
  let p := assign_if (nonempty (ContentHeaderFrame_CorrelationID frame)) (set_CorrelationID (ContentHeaderFrame_CorrelationID frame)) p in
  let p := assign_if (nonempty (ContentHeaderFrame_ReplyTo frame)) (set_ReplyTo (ContentHeaderFrame_ReplyTo frame)) p in
  let p := assign_if (nonempty (ContentHeaderFrame_Expiration frame)) (set_Expiration (ContentHeaderFrame_Expiration frame)) p in
  let p := assign_if (nonempty (ContentHeaderFrame_MessageID frame)) (set_MessageID (ContentHeaderFrame_MessageID frame)) p in
  let p := assign_if (negb (ContentHeaderFrame_Timestamp frame =? 0)) (set_Timestamp (ContentHeaderFrame_Timestamp frame)) p in
  let p := assign_if (nonempty (ContentHeaderFrame_Type frame)) (set_MsgType (ContentHeaderFrame_Type frame)) p in
  let p := assign_if (nonempty (ContentHeaderFrame_UserID frame)) (set_UserID (ContentHeaderFrame_UserID frame)) p in
  let p := assign_if (nonempty (ContentHeaderFrame_AppID frame)) (set_AppID (ContentHeaderFrame_AppID frame)) p in
  p.

Definition handleAMQPv0ChannelContentHeader (frame : ContentHeaderFrame) : v0_method unit :=
  ch ← get;
  match ch_state ch with
  | channelStateClosing => mret ()
  | channelStateAwaitingHeader =>
    modify (set_publish (ch_publishExchange ch) (ch_publishRoutingKey ch) (header_properties frame (ch_publishProperties ch))
      (ContentHeaderFrame_Headers frame) (ch_publishData ch) (i64 (ContentHeaderFrame_BodySize frame)));;
    modify (set_state channelStateAwaitingBody)
  | _ => throw (makeConnectionClose UnexpectedFrame (ErrNew "expected header frame"))
  end.

(** The message that a channel has assembled. *)
Definition publish_request (namespaceName : string) (ch : ServerChannel) : TopicPublishRequest :=
  {| tpr_DoNotForward := false; tpr_Namespace := namespaceName; tpr_Name := ch_publishExchange ch;
     tpr_Message := Some {| RoutingKey := ch_publishRoutingKey ch; Properties := ch_publishProperties ch;
                            Headers := ch_publishHeaders ch; Data := ch_publishData ch |} |}.

Definition append_data (data : list Z) (ch : ServerChannel) : ServerChannel :=
  set_publish (ch_publishExchange ch) (ch_publishRoutingKey ch) (ch_publishProperties ch) (ch_publishHeaders ch)
    (ch_publishData ch ++ data) (ch_publishRemaining ch - Z.of_nat (length data)) ch.

Definition handleAMQPv0ChannelContentBody (namespaceName : string) (data : list Z) : v0_method unit :=
  ch ← get;
  match ch_state ch with
  | channelStateClosing => mret ()
  | channelStateAwaitingBody =>
    guard_not (ch_publishRemaining ch <? Z.of_nat (length data)) (makeConnectionClose FrameError (ErrNew "body remaining %d, got %d"));;
    modify (append_data data);;
    ch ← get;
    if 0 <? ch_publishRemaining ch then mret ()
    else
      err ← ask (CallPublish (publish_request namespaceName ch));
      fail_on err (λ e, makeConnectionClose InternalError (ErrWrap e "publish failed"));;
      modify ResetPublish;;
      modify (set_state channelStateReady)
  | _ => throw (makeConnectionClose UnexpectedFrame (ErrNew "expected body frame"))
  end.

(** ** Deliveries *)

Definition handleAMQPv0BasicQos (frame : BasicQos) : v0_method unit :=
  modify (set_prefetch (u32 (BasicQos_PrefetchCount frame)));;
  reply_with (MBasicQosOk MkBasicQosOk).

Definition handleAMQPv0BasicConsume (namespaceName : string) (frame : BasicConsume) : v0_method unit :=
  guard_not (BasicConsume_NoLocal frame) (makeConnectionClose NotImplemented (ErrNew "no-local not implemented"));;
  guard_not (BasicConsume_Exclusive frame) (makeConnectionClose NotImplemented (ErrNew "exclusive not implemented"));;
  namespace ← find_namespace namespaceName;
  find_queue namespace (BasicConsume_Queue frame);;
  consumerTag ← generated_name "ctag-" "generate consumer tag failed" (BasicConsume_ConsumerTag frame);
  ch ← get;
  match ch_consumers ch !! consumerTag with
  | Some _ => throw (makeChannelClose PreconditionFailed (ErrNew "consumer tag %s already registered"))
  | None =>
    stream ← ask (CallSubscribe {| gsr_DoNotForward := false; gsr_Namespace := namespaceName; gsr_Name := BasicConsume_Queue frame;
      gsr_Size := ch_prefetchCount ch; gsr_AutoAck := BasicConsume_NoAck frame; gsr_DoNotBlock := false; gsr_MaxMessages := 0 |}
      (ch_id ch) consumerTag);
    modify (λ ch, set_deliveries (<[consumerTag := stream]> (ch_consumers ch)) (ch_deliveryTag ch) (ch_inflight ch) ch);;
    if BasicConsume_NoWait frame then mret () else reply_with (MBasicConsumeOk {| BasicConsumeOk_ConsumerTag := consumerTag |})
  end.

(** [nil] has no fields. *)
Definition message_of (response : SubscribeResponse) : v0_method EmqMessage :=
  match resp_Message response with
  | Some message => mret message
  | None => crash "nil pointer dereference"
  end.

Definition convertAMQPv0ContentHeader (message : EmqMessage) : ContentHeaderFrame :=
  let p := default no_properties (Properties message) in
  {| ContentHeaderFrame_ClassID := BasicClass;
     ContentHeaderFrame_Weight := 0;
     ContentHeaderFrame_BodySize := Z.of_nat (length (Data message));
     ContentHeaderFrame_ContentType := ContentType p;
     ContentHeaderFrame_ContentEncoding := ContentEncoding p;
     ContentHeaderFrame_Headers := Headers message;
     ContentHeaderFrame_DeliveryMode := u8 (DeliveryMode p);
     ContentHeaderFrame_Priority := u8 (Priority p);
     ContentHeaderFrame_CorrelationID := CorrelationID p;
     ContentHeaderFrame_ReplyTo := ReplyTo p;
     ContentHeaderFrame_Expiration := Expiration p;
     ContentHeaderFrame_MessageID := MessageID p;
     ContentHeaderFrame_Timestamp := Timestamp p;
     ContentHeaderFrame_Type := MsgType p;
     ContentHeaderFrame_UserID := UserID p;
     ContentHeaderFrame_AppID := AppID p;
     ContentHeaderFrame_Reserved := "" |}.

(** [ch.deliveryTag++] *)
Definition next_tag (ch : ServerChannel) : ServerChannel :=
  set_deliveries (ch_consumers ch) (u64 (ch_deliveryTag ch + 1)) (ch_inflight ch) ch.

(** A message that must be acknowledged is tracked; the sequence number is zero when it need not be. *)
Definition track (response : SubscribeResponse) (ch : ServerChannel) : ServerChannel :=
  if resp_SeqNo response =? 0 then ch
  else set_inflight (ch_inflight ch ++ [{| if_deliveryTag := ch_deliveryTag ch; if_nodeID := resp_NodeID response;
    if_subscriptionID := resp_SubscriptionID response; if_seqNo := resp_SeqNo response |}]) ch.

(** Both kinds of delivery: a method with the tag, the header, the body. *)
Definition deliver_message (response : SubscribeResponse) (msg : string) (method : Z → EmqMessage → Method) : v0_method unit :=
  modify next_tag;;
  ch ← get;
  message ← message_of response;
  err ← ask (CallSend (method_on (ch_id ch) (method (ch_deliveryTag ch) message)));
  wrap_error msg err;;
  err ← ask (CallSend (FHeader (meta_on (ch_id ch)) (convertAMQPv0ContentHeader message)));
  wrap_error "send content header failed" err;;
  err ← ask (CallSendBody (ch_id ch) (Data message));
  wrap_error "send content body failed" err;;
  modify (track response).

Definition handleAMQPv0ChannelDelivery (consumerTag : string) (response : SubscribeResponse) : v0_method unit :=
  ch ← get;
  match ch_consumers ch !! consumerTag with
  | None => mret ()
  | Some _ =>
    deliver_message response "send basic.deliver failed" (λ tag message, MBasicDeliver {| BasicDeliver_ConsumerTag := consumerTag;
      BasicDeliver_DeliveryTag := tag; BasicDeliver_Redelivered := false; BasicDeliver_Exchange := resp_TopicName response;
      BasicDeliver_RoutingKey := RoutingKey message |})
  end.

Definition handleAMQPv0BasicGet (namespaceName : string) (frame : BasicGet) : v0_method unit :=
  namespace ← find_namespace namespaceName;
  find_queue namespace (BasicGet_Queue frame);;
  ch ← get;
  stream ← ask (CallSubscribe {| gsr_DoNotForward := false; gsr_Namespace := namespaceName; gsr_Name := BasicGet_Queue frame;
    gsr_Size := 1; gsr_AutoAck := BasicGet_NoAck frame; gsr_DoNotBlock := true; gsr_MaxMessages := 1 |} (ch_id ch) "");
  delivery ← ask (CallReceive stream);
  match delivery with
  | None => reply_with (MBasicGetEmpty {| BasicGetEmpty_Reserved1 := "" |})
  | Some response =>
    deliver_message response "send basic.get-ok failed" (λ tag message, MBasicGetOk {| BasicGetOk_DeliveryTag := tag;
      BasicGetOk_Redelivered := false; BasicGetOk_Exchange := resp_TopicName response; BasicGetOk_RoutingKey := RoutingKey message;
      BasicGetOk_MessageCount := 0 |})
  end.

Definition handleAMQPv0BasicCancel (frame : BasicCancel) : v0_method unit :=
  ch ← get;
  match ch_consumers ch !! BasicCancel_ConsumerTag frame with
  | None => throw (makeChannelClose PreconditionFailed (ErrNew "consumer tag %s not registered"))
  | Some consumer =>
    modify (λ ch, set_deliveries (delete (BasicCancel_ConsumerTag frame) (ch_consumers ch)) (ch_deliveryTag ch) (ch_inflight ch) ch);;
    ask (CallCloseConsumer consumer);;
    if BasicCancel_NoWait frame then mret ()
    else reply_with (MBasicCancelOk {| BasicCancelOk_ConsumerTag := BasicCancel_ConsumerTag frame |})
  end.

(** ** Acknowledgements *)

Definition ack_request (m : ChannelInflight) : MessageAckRequest :=
  {| mar_NodeID := if_nodeID m; mar_SubscriptionID := if_subscriptionID m; mar_SeqNo := if_seqNo m; mar_DoNotForward := false |}.

(** A message is acknowledged, or returned to the queue. *)
Definition settle (requeue : bool) (m : ChannelInflight) : v0_method unit :=
  if requeue then err ← ask (CallNack (ack_request m)); wrap_error "nack failed" err
  else err ← ask (CallAck (ack_request m)); wrap_error "ack failed" err.

Definition no_delivery : handler_error := makeChannelClose PreconditionFailed (ErrNew "delivery tag %d doesn't exist").

(** The loop over the deliveries up to a tag; [i] and [n] count together. *)
Fixpoint settle_upto (requeue : bool) (tag : Z) (l : list ChannelInflight) (i : nat) : v0_method nat :=
  match l with
  | [] => mret i
  | m :: l => if if_deliveryTag m <=? tag then settle requeue m;; settle_upto requeue tag l (S i) else mret i
  end.

Definition settle_multiple (requeue : bool) (tag : Z) : v0_method unit :=
  ch ← get;
  i ← settle_upto requeue tag (ch_inflight ch) 0;
  guard_not (i =? 0)%nat no_delivery;;
  modify (set_inflight (drop i (ch_inflight ch))).

Definition settle_single (requeue : bool) (tag : Z) : v0_method unit :=
  ch ← get;
  match find_first (λ m, if_deliveryTag m =? tag) (ch_inflight ch) with
  | None => throw no_delivery
  | Some (i, m) => settle requeue m;; modify (set_inflight (remove_at i (ch_inflight ch)))
  end.

Definition handleAMQPv0BasicAck (frame : BasicAck) : v0_method unit :=
  if BasicAck_Multiple frame then settle_multiple false (BasicAck_DeliveryTag frame) else settle_single false (BasicAck_DeliveryTag frame).

Definition handleAMQPv0BasicReject (frame : BasicReject) : v0_method unit :=
  settle_single (BasicReject_Requeue frame) (BasicReject_DeliveryTag frame).

Definition handleAMQPv0BasicNack (frame : BasicNack) : v0_method unit :=
  if BasicNack_Multiple frame then settle_multiple (BasicNack_Requeue frame) (BasicNack_DeliveryTag frame)
  else settle_single (BasicNack_Requeue frame) (BasicNack_DeliveryTag frame).

(** ** Dispatch *)

Definition not_implemented (what : string) : v0_method unit := throw (makeConnectionClose NotImplemented (ErrNew what)).

Definition handleAMQPv0ChannelMethod `{DurationFormat} (namespaceName : string) (frame : Method) : v0_method unit :=
  ch ← get;
  match ch_state ch with
  | channelStateClosing => mret ()
  | channelStateReady =>
    match frame with
    | MExchangeDeclare f => handleAMQPv0ExchangeDeclare namespaceName f
    | MExchangeDelete f => handleAMQPv0ExchangeDelete namespaceName f
    | MQueueDeclare f => handleAMQPv0QueueDeclare namespaceName f
    | MQueueDelete f => handleAMQPv0QueueDelete namespaceName f
    | MQueueBind f => handleAMQPv0QueueBind namespaceName f
    | MQueueUnbind f => handleAMQPv0QueueUnbind namespaceName f
    | MQueuePurge _ => not_implemented "queue.purge not implemented"
    | MBasicQos f => handleAMQPv0BasicQos f
    | MBasicConsume f => handleAMQPv0BasicConsume namespaceName f
    | MBasicCancel f => handleAMQPv0BasicCancel f
    | MBasicPublish f => handleAMQPv0BasicPublish namespaceName f
    | MBasicGet f => handleAMQPv0BasicGet namespaceName f
    | MBasicAck f => handleAMQPv0BasicAck f
    | MBasicReject f => handleAMQPv0BasicReject f
    | MBasicRecover _ => not_implemented "basic.recover not implemented"
    | MBasicRecoverAsync _ => not_implemented "basic.recover-async not implemented"
    | MBasicNack f => handleAMQPv0BasicNack f
    | MTxSelect _ => not_implemented "tx.select not implemented"
    | MTxCommit _ => not_implemented "tx.commit not implemented"
    | MTxRollback _ => not_implemented "tx.rollback not implemented"
    | _ => throw (makeConnectionClose SyntaxError (ErrNew "unexpected frame of type %T"))
    end
  | _ => throw (makeConnectionClose UnexpectedFrame (ErrNew "expected method frame"))
  end.
