(* ===== verification/AmqpV0ServerProps.v ===== *)
(** * AMQP 0-9-1: theorems about channels

    What acknowledgements settle, what a delivered message looks like, and the order of the tags of deliveries. *)
From S2P Require Import Prelude Emq Bytes ClusterState Requests Interaction StructValue Broker AmqpValues AmqpV0 AmqpV0Fields AmqpV0Methods AmqpV0Frames AmqpV0Header AmqpV0Transport AmqpV0Server.

Abbreviation v0_log := (list (call v0_answer)).

(** ** Acknowledgements *)

(** The call that settles a message, with its answer. *)
Definition settle_call (requeue : bool) (m : ChannelInflight) (err : option go_error) : call v0_answer :=
  if requeue then existT (CallNack (ack_request m)) err else existT (CallAck (ack_request m)) err.

Definition settle_error (requeue : bool) (e : go_error) : handler_error :=
  OtherError (ErrWrap e (if requeue then "nack failed" else "ack failed")).

(** What settling the messages [l] can do: all calls succeed, or one fails and is the last. *)
Definition settles (requeue : bool) (l : list ChannelInflight) (log : v0_log) (failure : option handler_error) : Prop :=
  (log = (λ m, settle_call requeue m None) <$> l ∧ failure = None) ∨
  ∃ l1 m l2 e, l = l1 ++ m :: l2 ∧ log = ((λ m, settle_call requeue m None) <$> l1) ++ [settle_call requeue m (Some e)] ∧
    failure = Some (settle_error requeue e).

Lemma settle_always requeue m ch :
  always (settle requeue m ch) (λ log x, ∃ err, log = [settle_call requeue m err] ∧
    x = (ch, match err with None => Ok () | Some e => Err (settle_error requeue e) end)).
Proof. destruct requeue; intros [e|]; cbn; (eexists; split; [|]; [reflexivity|done]). Qed.

Lemma settle_upto_always requeue tag ch l : ∀ i,
  sorted_by if_deliveryTag l →
  always (settle_upto requeue tag l i ch) (λ log x, ∃ failure, settles requeue (filter (λ m, if_deliveryTag m ≤ tag) l) log failure ∧
    x = (ch, match failure with None => Ok (i + length (filter (λ m, (if_deliveryTag m ≤ tag)%Z) l))%nat | Some e => Err e end)).
Proof.
  induction l as [|m l IH]; intros i Hs.
  { cbn. exists None. split; [by left|]. by rewrite Nat.add_0_r. }
  apply sorted_by_cons in Hs as [Hm Hl]. cbn [settle_upto]. destruct (Z.leb_spec (if_deliveryTag m) tag) as [Hle|Hgt].
  - rewrite filter_cons_True by done. apply always_method_bind. eapply always_mono; [|apply settle_always].
    intros log [s r] (err & -> & [= -> ->]). destruct err as [e|].
    + exists (Some (settle_error requeue e)). split; [|done]. right. by exists [], m, (filter (λ m, if_deliveryTag m ≤ tag) l), e.
    + eapply always_mono; [|by apply (IH (S i))]. intros log' x (failure & Hf & ->). exists failure. split.
      * destruct Hf as [[-> ->]|(l1 & m' & l2 & e & -> & -> & ->)]; [by left|]. right. by exists (m :: l1), m', l2, e.
      * destruct failure; [done|]. cbn [length]. do 2 f_equal. lia.
  - assert (filter (λ m, if_deliveryTag m ≤ tag) (m :: l) = []) as ->.
    { rewrite filter_cons_False by lia. apply list_filter_none. intros m' Hin. specialize (Hm m' Hin). lia. }
    cbn. exists None. split; [by left|]. by rewrite Nat.add_0_r.
Qed.

Lemma drop_filter_sorted tag l :
  sorted_by if_deliveryTag l →
  drop (length (filter (λ m, if_deliveryTag m ≤ tag) l)) l = filter (λ m, ¬ if_deliveryTag m ≤ tag) l.
Proof.
  induction l as [|m l IH]; [done|]. intros [Hm Hl]%sorted_by_cons. destruct (decide (if_deliveryTag m ≤ tag)) as [Hle|Hgt].
  - rewrite filter_cons_True, filter_cons_False by tauto. by apply IH.
  - rewrite filter_cons_False, filter_cons_True by tauto.
    assert (∀ m', m' ∈ l → ¬ if_deliveryTag m' ≤ tag) as H by (intros m' Hin; specialize (Hm m' Hin); lia).
    assert (filter (λ m, if_deliveryTag m ≤ tag) l = []) as ->.
    { by apply list_filter_none. }
    cbn [length drop]. f_equal. symmetry. by apply list_filter_all.
Qed.

(** The deliveries that a tag names. *)
Definition names (multiple : bool) (tag : Z) (m : ChannelInflight) : Prop :=
  if multiple then if_deliveryTag m ≤ tag else if_deliveryTag m = tag.

#[export] Instance names_dec multiple tag m : Decision (names multiple tag m).
Proof. unfold names. destruct multiple; apply _. Defined.

(** A method of the channel settles the messages [l] and leaves [rest]; it fails when there is nothing to settle, and
    when the broker fails; only in that case calls are made without effect on the channel. *)
Definition settles_exactly (requeue : bool) (l rest : list ChannelInflight) (ch : ServerChannel) (log : v0_log)
    (x : ServerChannel * result handler_error unit) : Prop :=
  (l = [] ∧ log = [] ∧ x = (ch, Err no_delivery)) ∨
  (l ≠ [] ∧ settles requeue l log None ∧ x = (set_inflight rest ch, Ok ())) ∨
  ∃ e, settles requeue l log (Some e) ∧ x = (ch, Err e).

Lemma settle_multiple_always requeue tag ch :
  sorted_by if_deliveryTag (ch_inflight ch) →
  always (settle_multiple requeue tag ch)
    (settles_exactly requeue (filter (names true tag) (ch_inflight ch)) (filter (λ m, ¬ names true tag m) (ch_inflight ch)) ch).
Proof.
  intros Hs. unfold settle_multiple. apply always_method_bind. cbn [always get]. apply always_method_bind.
  eapply always_mono; [|by apply settle_upto_always]. intros log x (failure & Hf & ->). cbn [names] in *.
  set (l := filter (λ m, if_deliveryTag m ≤ tag) (ch_inflight ch)) in *.
  change (filter (names true tag) (ch_inflight ch)) with l.
  destruct failure as [e|]; [right; right; by exists e|]. apply always_method_bind. cbn [Nat.add].
  destruct (length l =? 0)%nat eqn:E; bool_to_prop; cbn [guard_not throw always mret method_ret modify app].
  - apply nil_length_inv in E. left. split; [done|]. rewrite E in Hf.
    destruct Hf as [[-> _]|(l1 & ? & ? & ? & ? & _)]; [done|by destruct l1].
  - right. left. split; [by intros ->|]. rewrite app_nil_r. split; [done|]. f_equal. f_equal. by apply drop_filter_sorted.
Qed.

Lemma filter_tag_eq (l : list ChannelInflight) i m :
  sorted_by if_deliveryTag l → l !! i = Some m →
  filter (names false (if_deliveryTag m)) l = [m] ∧ filter (λ m', ¬ names false (if_deliveryTag m) m') l = remove_at i l.
Proof.
  intros Hs Hi. rewrite remove_at_delete, delete_take_drop. rewrite <-(take_drop_middle l i m Hi) at 1 2.
  rewrite <-(take_drop_middle l i m Hi) in Hs. apply sorted_by_app in Hs as (_ & [H2 _]%sorted_by_cons & H1).
  rewrite !filter_app, filter_cons_True, filter_cons_False by (cbn; tauto).
  assert (∀ m', m' ∈ take i l → ¬ names false (if_deliveryTag m) m') as Ha.
  { intros m' Hin. cbn. specialize (H1 m' m Hin ltac:(left)). lia. }
  assert (∀ m', m' ∈ drop (S i) l → ¬ names false (if_deliveryTag m) m') as Hb.
  { intros m' Hin. cbn. specialize (H2 m' Hin). lia. }
  assert (∀ k, (∀ m', m' ∈ k → ¬ names false (if_deliveryTag m) m') → filter (names false (if_deliveryTag m)) k = [] ∧
    filter (λ m', ¬ names false (if_deliveryTag m) m') k = k) as Hk.
  { intros k Hk. split; [by apply list_filter_none|by apply list_filter_all]. }
  destruct (Hk _ Ha) as [-> ->]. by destruct (Hk _ Hb) as [-> ->].
Qed.

Lemma settle_single_always requeue tag ch :
  sorted_by if_deliveryTag (ch_inflight ch) →
  always (settle_single requeue tag ch)
    (settles_exactly requeue (filter (names false tag) (ch_inflight ch)) (filter (λ m, ¬ names false tag m) (ch_inflight ch)) ch).
Proof.
  intros Hs. unfold settle_single. apply always_method_bind. cbn [always get].
  destruct (find_first _ _) as [[i m]|] eqn:E.
  - apply find_first_lookup in E as [Hi Htag]. bool_to_prop. subst tag. destruct (filter_tag_eq _ _ _ Hs Hi) as [-> ->].
    apply always_method_bind. eapply always_mono; [|apply settle_always]. intros log [s r] (err & -> & [= -> ->]).
    destruct err as [e|]; cbn.
    + right. right. exists (settle_error requeue e). split; [|done]. right. by exists [], m, [], e.
    + right. left. split_and!; [done|by left|done].
  - left. split; [|done]. apply elem_of_nil_inv. intros m [Htag Hin]%list_elem_of_filter.
    rewrite find_first_None in E. specialize (E m Hin). cbn in Htag. bool_to_prop. done.
Qed.

(** ** What is published is what is delivered *)

(** The header of a delivery for the header of a publishing. *)
Definition delivered_header (h : ContentHeaderFrame) (size : Z) : ContentHeaderFrame :=
  {| ContentHeaderFrame_ClassID := BasicClass; ContentHeaderFrame_Weight := 0; ContentHeaderFrame_BodySize := size;
     ContentHeaderFrame_ContentType := ContentHeaderFrame_ContentType h;
     ContentHeaderFrame_ContentEncoding := ContentHeaderFrame_ContentEncoding h;
     ContentHeaderFrame_Headers := ContentHeaderFrame_Headers h;
     ContentHeaderFrame_DeliveryMode := ContentHeaderFrame_DeliveryMode h;
     ContentHeaderFrame_Priority := ContentHeaderFrame_Priority h;
     ContentHeaderFrame_CorrelationID := ContentHeaderFrame_CorrelationID h;
     ContentHeaderFrame_ReplyTo := ContentHeaderFrame_ReplyTo h;
     ContentHeaderFrame_Expiration := ContentHeaderFrame_Expiration h;
     ContentHeaderFrame_MessageID := ContentHeaderFrame_MessageID h;
     ContentHeaderFrame_Timestamp := ContentHeaderFrame_Timestamp h;
     ContentHeaderFrame_Type := ContentHeaderFrame_Type h;
     ContentHeaderFrame_UserID := ContentHeaderFrame_UserID h;
     ContentHeaderFrame_AppID := ContentHeaderFrame_AppID h;
     ContentHeaderFrame_Reserved := "" |}.

Lemma default_assign_if (b : bool) f p q r :
  default no_properties p = q → (b = false → f q = q) → f q = r → default no_properties (assign_if b f p) = r.
Proof. intros <- Hf <-. destruct b; [done|]. symmetry. by apply Hf. Qed.

Lemma nonempty_false s : nonempty s = false → s = "".
Proof. unfold nonempty. intros. bool_to_prop. done. Qed.

Lemma nonzero_false z : negb (z =? 0) = false → z = 0.
Proof. intros. bool_to_prop. done. Qed.

(** Every property of the header, whether its field was assigned or left out. *)
Lemma header_properties_all h :
  default no_properties (header_properties h None) =
  {| ContentType := ContentHeaderFrame_ContentType h; ContentEncoding := ContentHeaderFrame_ContentEncoding h;
     DeliveryMode := ContentHeaderFrame_DeliveryMode h; Priority := ContentHeaderFrame_Priority h;
     CorrelationID := ContentHeaderFrame_CorrelationID h; ReplyTo := ContentHeaderFrame_ReplyTo h;
     Expiration := ContentHeaderFrame_Expiration h; MessageID := ContentHeaderFrame_MessageID h;
     Timestamp := ContentHeaderFrame_Timestamp h; MsgType := ContentHeaderFrame_Type h; UserID := ContentHeaderFrame_UserID h;
     AppID := ContentHeaderFrame_AppID h; To := ""; GroupID := ""; GroupSequence := 0; ReplyToGroupID := "" |}.
Proof.
  unfold header_properties. cbv zeta.
  repeat first [eapply default_assign_if | reflexivity].
  all: intros Hf; first [apply nonempty_false in Hf|apply nonzero_false in Hf]; rewrite Hf; reflexivity.
Qed.

(** The message that is assembled from the frames of a publishing. *)
Definition message_from (f : BasicPublish) (h : ContentHeaderFrame) (data : list Z) : EmqMessage :=
  {| RoutingKey := BasicPublish_RoutingKey f; Properties := header_properties h None; Headers := ContentHeaderFrame_Headers h; Data := data |}.

Lemma convert_message_from f h data :
  is_octet (ContentHeaderFrame_DeliveryMode h) → is_octet (ContentHeaderFrame_Priority h) →
  convertAMQPv0ContentHeader (message_from f h data) = delivered_header h (Z.of_nat (length data)).
Proof.
  intros Hd Hp. unfold convertAMQPv0ContentHeader, message_from. cbn [Properties Headers Data]. cbv zeta.
  rewrite header_properties_all. cbn -[u8 Z.of_nat]. unfold u8, wrap. by rewrite !Z.mod_small by done.
Qed.

(** The calls of a delivery that does not fail. *)
Definition delivery_calls (ch : ServerChannel) (m : Method) (message : EmqMessage) : v0_log :=
  [existT (CallSend (method_on (ch_id ch) m)) None; existT (CallSend (FHeader (meta_on (ch_id ch)) (convertAMQPv0ContentHeader message))) None;
   existT (CallSendBody (ch_id ch) (Data message)) None].

Lemma deliver_always response msg m ch :
  always (deliver_message response msg m ch) (λ log x,
    (x.1 = next_tag ch ∧ x.2 ≠ Ok () ∧ ∀ f, x.2 ≠ Err (ChanClose f)) ∨
    ∃ message, resp_Message response = Some message ∧ log = delivery_calls ch (m (u64 (ch_deliveryTag ch + 1)) message) message ∧
      x = (track response (next_tag ch), Ok ())).
Proof.
  unfold deliver_message, message_of. destruct (resp_Message response) as [message|]; cbn; [|by left].
  intros [e|]; cbn; [by left|]. intros [e|]; cbn; [by left|]. intros [e|]; cbn; [by left|]. right. by exists message.
Qed.

(** ** The invariant of a channel

    Tags of deliveries that are not settled are increasing and at most the last tag, which is at most [k]; nothing of an
    earlier message is left when the next one starts. *)
Record channel_inv (k : Z) (ch : ServerChannel) : Prop := {
  inv_sorted : sorted_by if_deliveryTag (ch_inflight ch);
  inv_tags : ∀ m, m ∈ ch_inflight ch → 1 ≤ if_deliveryTag m ≤ ch_deliveryTag ch;
  inv_last : 0 ≤ ch_deliveryTag ch ≤ k;
  inv_ready : ch_state ch = channelStateReady → ResetPublish ch = ch;
  inv_header : ch_state ch = channelStateAwaitingHeader →
    ch_publishProperties ch = None ∧ ch_publishHeaders ch = None ∧ ch_publishData ch = [] ∧ ch_publishRemaining ch = 0;
}.

Lemma new_channel_inv id k : 0 ≤ k → channel_inv k (new_channel id).
Proof. intros Hk. split; cbn; [apply sorted_by_nil|intros m []%elem_of_nil|lia|done|done]. Qed.

Lemma channel_inv_mono k k' ch : k ≤ k' → channel_inv k ch → channel_inv k' ch.
Proof. intros Hk []. split; try done. lia. Qed.

(** The fields of deliveries can be changed together. *)
Lemma channel_inv_deliveries k consumers tag inflight ch :
  channel_inv k ch → sorted_by if_deliveryTag inflight → (∀ m, m ∈ inflight → 1 ≤ if_deliveryTag m ≤ tag) → 0 ≤ tag ≤ k →
  channel_inv k (set_deliveries consumers tag inflight ch).
Proof.
  intros [_ _ _ Hr Hh] Hs Ht Hk. split; [done..| |done]. intros Hready. specialize (Hr Hready).
  unfold ResetPublish, set_publish, set_deliveries in *. destruct ch. cbn in *. congruence.
Qed.

(** In closing, the publishing is never resumed. *)
Lemma channel_inv_closing k ch : channel_inv k ch → channel_inv k (set_state channelStateClosing ch).
Proof. intros []. by split. Qed.

Lemma deliver_message_inv k response msg m ch :
  0 ≤ k < MaxUint64 → channel_inv k ch → always (deliver_message response msg m ch) (λ _ x, channel_inv (k + 1) x.1).
Proof.
  intros Hk Hinv. eapply always_mono; [|apply deliver_always].
  pose proof (channel_inv_mono k (k + 1) ch ltac:(lia) Hinv) as Hinv'. destruct Hinv as [Hs Ht Hl _ _].
  assert (u64 (ch_deliveryTag ch + 1) = ch_deliveryTag ch + 1) as Hu.
  { unfold u64, wrap. apply Z.mod_small. unfold MaxUint64 in Hk. lia. }
  intros log x [[-> _]|(message & _ & _ & ->)]; cbn [fst]; unfold track, next_tag, set_inflight.
  - rewrite Hu. apply channel_inv_deliveries; [done..| |lia]. intros m' Hm. specialize (Ht m' Hm). lia.
  - destruct (_ =? 0); cbn; rewrite Hu; [|apply (channel_inv_deliveries _ _ _ _ (set_deliveries _ _ _ ch))];
      try (apply channel_inv_deliveries; [done..| |lia]; intros m' Hm; specialize (Ht m' Hm); lia); [| |lia].
    + apply sorted_by_app. split_and!; [done|apply sorted_by_cons; split; [by intros ? ?%elem_of_nil|apply sorted_by_nil]|].
      intros x y Hx ->%list_elem_of_singleton. specialize (Ht x Hx). cbn. lia.
    + intros m' [Hm| ->%list_elem_of_singleton]%elem_of_app; [specialize (Ht m' Hm); lia|cbn; lia].
Qed.

(** ** Every handler keeps the invariant *)

Lemma find_namespace_always name ch :
  always (find_namespace name ch) (λ log x, ∃ state : ClusterState, log = [existT CallCurrent state] ∧
    x = (ch, match FindNamespace state name with
             | None => Err (makeChannelClose NotFound (ErrNew "vhost %q not found"))
             | Some (_, namespace) => Ok namespace
             end)).
Proof.
  unfold find_namespace. apply always_method_bind. intros state. cbn [always ask app].
  destruct (FindNamespace state name) as [[i namespace]|] eqn:E; exists state; by rewrite E.
Qed.

Lemma find_queue_always namespace name ch :
  always (find_queue namespace name ch) (λ log x, log = [] ∧
    x = (ch, match FindConsumerGroup namespace name with
             | None => Err (makeChannelClose NotFound (ErrNew "queue %q not found"))
             | Some (_, cg) => Ok cg
             end)).
Proof. unfold find_queue. by destruct (FindConsumerGroup namespace name) as [[??]|]. Qed.

Lemma keeps_reply (I : v0_log → ServerChannel → Prop) m :
  (∀ log f err ch, I log ch → I (log ++ [existT (CallSend f) err]) ch) → keeps I (reply_with m).
Proof.
  intros HI. apply keeps_get. intros log ch Hch. refine (keeps_bind I _ _ _ _ log ch Hch); repeat keeps_step.
  keeps_call. intros log' x ch' Hch'. exact (HI log' _ x ch' Hch').
Qed.

Lemma set_inflight_inv k l ch : sublist l (ch_inflight ch) → channel_inv k ch → channel_inv k (set_inflight l ch).
Proof.
  intros Hl Hinv. pose proof Hinv as [Hs Ht Hk _ _]. apply channel_inv_deliveries; [done|by eapply sorted_by_sublist| |done].
  intros m Hm. apply Ht. by eapply elem_of_sublist.
Qed.

Lemma settles_exactly_inv k requeue (P : ChannelInflight → Prop) `{∀ m, Decision (P m)} l ch log x :
  channel_inv k ch → settles_exactly requeue l (filter P (ch_inflight ch)) ch log x → channel_inv k x.1.
Proof.
  intros Hinv [(_ & _ & ->)|[(_ & _ & ->)|(e & _ & ->)]]; [done| |done]. apply set_inflight_inv; [apply sublist_filter|done].
Qed.

Section handlers.

Context `{DurationFormat} (k : Z) (namespaceName : string).

Abbreviation I := (λ (_ : v0_log) ch, channel_inv k ch).

#[local] Ltac keeps_inv := unfold binding_by, find_namespace, find_queue, find_exchange, argument, wrap_error, generated_name, not_implemented; repeat first [keeps_step | keeps_call; done | apply keeps_reply; done].

Lemma settle_multiple_inv requeue tag : keeps I (settle_multiple requeue tag).
Proof.
  intros log ch Hinv. eapply always_mono; [|apply settle_multiple_always, (inv_sorted k), Hinv].
  intros log' x. by apply settles_exactly_inv.
Qed.

Lemma settle_single_inv requeue tag : keeps I (settle_single requeue tag).
Proof.
  intros log ch Hinv. eapply always_mono; [|apply settle_single_always, (inv_sorted k), Hinv].
  intros log' x. by apply settles_exactly_inv.
Qed.

Lemma BasicConsume_inv f : keeps I (handleAMQPv0BasicConsume namespaceName f).
Proof.
  unfold handleAMQPv0BasicConsume. keeps_inv. match goal with Hinv : channel_inv k ?ch' |- _ => rename ch' into ch, Hinv into Hch end.
  destruct (ch_consumers ch !! _); [done|]. refine (keeps_bind I _ _ _ _ log ch Hch); keeps_inv.
  apply keeps_modify. intros _ ch' Hinv. pose proof Hinv as []. by apply channel_inv_deliveries.
Qed.

Lemma BasicCancel_inv f : keeps I (handleAMQPv0BasicCancel f).
Proof.
  apply keeps_get. intros log ch Hch. destruct (ch_consumers ch !! _); [|done].
  refine (keeps_bind I _ _ _ _ log ch Hch); keeps_inv.
  apply keeps_modify. intros _ ch' Hinv. pose proof Hinv as []. by apply channel_inv_deliveries.
Qed.

Lemma set_prefetch_inv n ch : channel_inv k ch → channel_inv k (set_prefetch n ch).
Proof.
  intros [Hs Ht Hk Hr Hh]. split; [done..| |done]. intros Hready. specialize (Hr Hready).
  unfold ResetPublish, set_publish, set_prefetch in *. destruct ch. cbn in *. congruence.
Qed.

(** A publishing starts on a channel that is ready. *)
Lemma BasicPublish_inv f log ch :
  channel_inv k ch → ch_state ch = channelStateReady →
  always (handleAMQPv0BasicPublish namespaceName f ch) (λ log' x, I (log ++ log') x.1).
Proof.
  intros Hinv Hready. unfold handleAMQPv0BasicPublish. apply always_method_bind.
  destruct (BasicPublish_Mandatory f); [done|]. cbn [guard_not always mret method_ret app]. apply always_method_bind.
  destruct (BasicPublish_Immediate f); [done|]. cbn [guard_not always mret method_ret app]. apply always_method_bind.
  eapply always_mono; [|apply find_namespace_always]. intros log' x (state & -> & ->).
  destruct (FindNamespace _ _) as [[??]|]; [|done]. cbn.
  destruct Hinv as [Hs Ht Hk Hr Hh]. split; [done..|]. intros _. specialize (Hr Hready).
  destruct ch. cbn in *. unfold ResetPublish, set_publish in Hr. cbn in Hr. injection Hr. naive_solver.
Qed.

Lemma ChannelContentHeader_inv f : keeps I (handleAMQPv0ChannelContentHeader f).
Proof. apply keeps_get. intros log ch Hch. destruct (ch_state ch); try done. cbn. destruct Hch. by split. Qed.

Lemma ChannelContentBody_inv data : keeps I (handleAMQPv0ChannelContentBody namespaceName data).
Proof.
  apply keeps_get. intros log ch Hch. destruct (ch_state ch) eqn:Hst; try done. destruct (ch_publishRemaining ch <? Z.of_nat (length data)) eqn:E1; [done|].
  cbn [guard_not]. apply always_method_bind. cbn [always mret method_ret modify]. apply always_method_bind. cbn [always modify get].
  apply always_method_bind. cbn [always get app].
  assert (channel_inv k (append_data data ch)) as Ha.
  { destruct Hch. split; try done; cbn; by rewrite Hst. }
  destruct (0 <? _); cbn; [done|]. intros [e|]; cbn; [done|]. destruct Hch. by split.
Qed.

(** At most one message is delivered by a method. *)
Lemma ChannelMethod_inv f ch :
  0 ≤ k < MaxUint64 → channel_inv k ch → always (handleAMQPv0ChannelMethod namespaceName f ch) (λ _ x, channel_inv (k + 1) x.1).
Proof.
  intros Hk Hinv. unfold handleAMQPv0ChannelMethod. apply always_method_bind. cbn [always get app].
  assert (∀ A (m : v0_method A), keeps I m → always (m ch) (λ _ x, channel_inv (k + 1) x.1)) as Hkeep.
  { intros A m Hm. eapply always_mono; [|by apply (Hm [] ch)]. intros log x. apply channel_inv_mono. lia. }
  destruct (ch_state ch) eqn:Hst; [|apply Hkeep; keeps_inv..].
  destruct f; try (apply Hkeep; unfold handleAMQPv0ExchangeDeclare, handleAMQPv0ExchangeDelete, handleAMQPv0QueueDeclare,
    handleAMQPv0QueueDelete, handleAMQPv0QueueBind, handleAMQPv0QueueUnbind; by keeps_inv).
  - apply Hkeep. unfold handleAMQPv0BasicQos. keeps_inv. apply keeps_modify. intros _ ch'. apply set_prefetch_inv.
  - apply Hkeep, BasicConsume_inv.
  - apply Hkeep, BasicCancel_inv.
  - eapply always_mono; [|by apply (BasicPublish_inv _ [] ch)]. intros log x. apply channel_inv_mono. lia.
  - pose proof (channel_inv_mono k (k + 1) ch ltac:(lia) Hinv). unfold handleAMQPv0BasicGet.
    apply always_method_bind. eapply always_mono; [|apply find_namespace_always]. intros log x (state & -> & ->).
    destruct (FindNamespace state _) as [[? namespace]|]; [|done]. apply always_method_bind.
    eapply always_mono; [|apply find_queue_always]. intros log x [-> ->]. destruct (FindConsumerGroup _ _) as [[??]|]; [|done].
    cbn -[deliver_message]. intros stream [response|]; [by apply deliver_message_inv|by intros [|]].
  - apply Hkeep. unfold handleAMQPv0BasicAck. destruct (BasicAck_Multiple _); [apply settle_multiple_inv|apply settle_single_inv].
  - apply Hkeep, settle_single_inv.
  - apply Hkeep. unfold handleAMQPv0BasicNack. destruct (BasicNack_Multiple _); [apply settle_multiple_inv|apply settle_single_inv].
Qed.

Lemma ChannelDelivery_inv consumerTag response ch :
  0 ≤ k < MaxUint64 → channel_inv k ch → always (handleAMQPv0ChannelDelivery consumerTag response ch) (λ _ x, channel_inv (k + 1) x.1).
Proof.
  intros Hk Hinv. unfold handleAMQPv0ChannelDelivery. apply always_method_bind. cbn [always get app].
  destruct (ch_consumers ch !! consumerTag); [by apply deliver_message_inv|]. apply (channel_inv_mono k); [lia|done].
Qed.

End handlers.

(** ** Theorems *)

(** (C9) Acknowledging is exact.  On a channel whose deliveries are in order of their tags, basic.ack, basic.nack and
    basic.reject settle, in this order, exactly the deliveries that the tag names (up to it if [multiple], the one with
    that tag otherwise): each is acknowledged, or returned to the queue if asked to, once, and exactly these are removed
    from the channel.  A tag that names nothing closes the channel and settles nothing; when the broker fails, the
    channel still tracks every delivery. *)
Theorem settle_exact ch :
  sorted_by if_deliveryTag (ch_inflight ch) →
  (∀ f, let named := names (BasicAck_Multiple f) (BasicAck_DeliveryTag f) in
    always (handleAMQPv0BasicAck f ch) (settles_exactly false (filter named (ch_inflight ch)) (filter (λ m, ¬ named m) (ch_inflight ch)) ch)) ∧
  (∀ f, let named := names (BasicNack_Multiple f) (BasicNack_DeliveryTag f) in
    always (handleAMQPv0BasicNack f ch) (settles_exactly (BasicNack_Requeue f) (filter named (ch_inflight ch)) (filter (λ m, ¬ named m) (ch_inflight ch)) ch)) ∧
  (∀ f, let named := names false (BasicReject_DeliveryTag f) in
    always (handleAMQPv0BasicReject f ch) (settles_exactly (BasicReject_Requeue f) (filter named (ch_inflight ch)) (filter (λ m, ¬ named m) (ch_inflight ch)) ch)).
Proof.
  intros Hs. unfold handleAMQPv0BasicAck, handleAMQPv0BasicNack, handleAMQPv0BasicReject. split_and!; intros [].
  - cbn. destruct BasicAck_Multiple; [by apply settle_multiple_always|by apply settle_single_always].
  - cbn. destruct BasicNack_Multiple; [by apply settle_multiple_always|by apply settle_single_always].
  - by apply settle_single_always.
Qed.

(** A channel with two deliveries that are not settled. *)
Definition example_channel : ServerChannel :=
  set_deliveries {[ "ctag" := 7%nat ]} 3 [{| if_deliveryTag := 1; if_nodeID := 1; if_subscriptionID := 1; if_seqNo := 5 |};
    {| if_deliveryTag := 3; if_nodeID := 1; if_subscriptionID := 1; if_seqNo := 9 |}] (new_channel 1).

Lemma example_channel_sorted : sorted_by if_deliveryTag (ch_inflight example_channel).
Proof. repeat (apply sorted_by_cons; split); [|by intros ? ?%elem_of_nil|apply sorted_by_nil]. by intros m ->%list_elem_of_singleton. Qed.

Lemma settle_exact_witness :
  sorted_by if_deliveryTag (ch_inflight example_channel) ∧
  always (handleAMQPv0BasicAck {| BasicAck_DeliveryTag := 3; BasicAck_Multiple := true |} example_channel)
    (settles_exactly false (ch_inflight example_channel) [] example_channel).
Proof.
  split; [apply example_channel_sorted|].
  exact (proj1 (settle_exact example_channel example_channel_sorted) {| BasicAck_DeliveryTag := 3; BasicAck_Multiple := true |}).
Defined.

(** (C21) What is published is what is delivered.  A message assembled from basic.publish, a content header and a body is
    delivered to a consumer with the routing key of its publishing, a header with the same properties and headers, and
    the same body, under the next tag; a message that must be acknowledged is tracked under that tag.  Whatever fails
    while it is sent, the channel is not ready to take the message for delivered. *)
Theorem published_is_delivered f h data consumerTag response ch :
  is_octet (ContentHeaderFrame_DeliveryMode h) → is_octet (ContentHeaderFrame_Priority h) →
  resp_Message response = Some (message_from f h data) → is_Some (ch_consumers ch !! consumerTag) →
  always (handleAMQPv0ChannelDelivery consumerTag response ch) (λ log x,
    match x.2 with
    | Ok _ =>
      log = [existT (CallSend (method_on (ch_id ch) (MBasicDeliver {| BasicDeliver_ConsumerTag := consumerTag;
               BasicDeliver_DeliveryTag := u64 (ch_deliveryTag ch + 1); BasicDeliver_Redelivered := false;
               BasicDeliver_Exchange := resp_TopicName response; BasicDeliver_RoutingKey := BasicPublish_RoutingKey f |}))) None;
             existT (CallSend (FHeader (meta_on (ch_id ch)) (delivered_header h (Z.of_nat (length data))))) None;
             existT (CallSendBody (ch_id ch) data) None] ∧
      ch_deliveryTag x.1 = u64 (ch_deliveryTag ch + 1) ∧
      ch_inflight x.1 = ch_inflight ch ++ (if resp_SeqNo response =? 0 then [] else
        [{| if_deliveryTag := u64 (ch_deliveryTag ch + 1); if_nodeID := resp_NodeID response;
            if_subscriptionID := resp_SubscriptionID response; if_seqNo := resp_SeqNo response |}])
    | _ => ch_inflight x.1 = ch_inflight ch
    end).
Proof.
  intros Hd Hp Hm [n Hc]. unfold handleAMQPv0ChannelDelivery. apply always_method_bind. cbn [always get app]. rewrite Hc.
  eapply always_mono; [|apply deliver_always]. intros log x [(E & Hno & _)|(message & Hm' & -> & ->)].
  - destruct x as [ch' [[]|e|msg]]; cbn [fst snd] in *; subst; done.
  - replace message with (message_from f h data) by congruence. unfold delivery_calls. rewrite convert_message_from by done.
    cbn [snd fst]. unfold track. destruct (resp_SeqNo response =? 0); [|done]. cbn. by rewrite app_nil_r.
Qed.

Definition example_header : ContentHeaderFrame :=
  {| ContentHeaderFrame_ClassID := BasicClass; ContentHeaderFrame_Weight := 0; ContentHeaderFrame_BodySize := 3;
     ContentHeaderFrame_ContentType := "text/plain"; ContentHeaderFrame_ContentEncoding := ""; ContentHeaderFrame_Headers := None;
     ContentHeaderFrame_DeliveryMode := 2; ContentHeaderFrame_Priority := 0; ContentHeaderFrame_CorrelationID := "";
     ContentHeaderFrame_ReplyTo := ""; ContentHeaderFrame_Expiration := ""; ContentHeaderFrame_MessageID := "m-1";
     ContentHeaderFrame_Timestamp := 0; ContentHeaderFrame_Type := ""; ContentHeaderFrame_UserID := ""; ContentHeaderFrame_AppID := "";
     ContentHeaderFrame_Reserved := "" |}.

Definition example_publish : BasicPublish :=
  {| BasicPublish_Reserved1 := 0; BasicPublish_Exchange := "orders"; BasicPublish_RoutingKey := "eu";
     BasicPublish_Mandatory := false; BasicPublish_Immediate := false |}.

Definition example_response : SubscribeResponse :=
  {| resp_NodeID := 1; resp_SubscriptionID := 1; resp_TopicNamespace := "default"; resp_TopicName := "orders";
     resp_Message := Some (message_from example_publish example_header [1; 2; 3]); resp_SeqNo := 11 |}.

Lemma published_is_delivered_witness :
  always (handleAMQPv0ChannelDelivery "ctag" example_response example_channel) (λ log x, x.2 = Ok () →
    length log = 3%nat ∧ length (ch_inflight x.1) = 3%nat).
Proof.
  eapply always_mono; [|apply (published_is_delivered example_publish example_header [1; 2; 3] "ctag" example_response example_channel)].
  - intros log [ch' r]. cbn [fst snd]. destruct r as [[]|e|msg]; [|done..]. intros (-> & _ & ->) _. split; reflexivity.
  - unfold is_octet. cbn. lia.
  - unfold is_octet. cbn. lia.
  - reflexivity.
  - by exists 7%nat.
Defined.

(** ** What the channels do not do *)

(** A tag of zero with [multiple] does not stand for all deliveries, as it does in the protocol. *)
Lemma multiple_zero_refused requeue k ch : channel_inv k ch → always (settle_multiple requeue 0 ch) (λ log x, log = [] ∧ x = (ch, Err no_delivery)).
Proof.
  intros Hinv. eapply always_mono; [|apply settle_multiple_always, (inv_sorted k), Hinv].
  intros log x. unfold settles_exactly. rewrite (list_filter_none (names true 0)).
  2: { intros m Hm. pose proof (inv_tags k ch Hinv m Hm). cbn. lia. }
  intros [(_ & -> & ->)|[(? & _)|(e & [[_ [=]]|(l1 & m & l2 & ? & E & _)] & ->)]]; [done|done|]. by destruct l1.
Qed.

(** A message without a body is not published by its header: the channel waits for a body frame, and the next method
    closes the connection. *)
Lemma empty_message_waits `{DurationFormat} namespaceName h m ch :
  ch_state ch = channelStateAwaitingHeader → ContentHeaderFrame_BodySize h = 0 →
  always ((handleAMQPv0ChannelContentHeader h;; handleAMQPv0ChannelMethod namespaceName m) ch) (λ log x,
    log = [] ∧ ch_state x.1 = channelStateAwaitingBody ∧ x.2 = Err (makeConnectionClose UnexpectedFrame (ErrNew "expected method frame"))).
Proof.
  intros Hst Hsize. apply always_method_bind. unfold handleAMQPv0ChannelContentHeader. apply always_method_bind.
  cbn [always get app]. by rewrite Hst.
Qed.

(** The exchange without a name is not the default topic when a message is published to it: the broker refuses it. *)
Lemma default_exchange_refused namespaceName ch :
  ch_publishExchange ch = "" → TopicPublishRequest_Validate (publish_request namespaceName ch) ≠ Ok ().
Proof.
  intros E. unfold TopicPublishRequest_Validate, publish_request. cbn [tpr_Namespace tpr_Name]. rewrite E.
  destruct (check_name "namespace" namespaceName); by cbn.
Qed.
