(* ===== verification/AmqpV0Conn.v ===== *)
(** * AMQP 0-9-1: a connection

    Models [ServeAMQPv0] of src/mq/server_amqp_v0.go.  What the loop selects from its channels (frames, errors of the
    receiver, errors of subscriptions, deliveries, the shutdown of the server) is a list of events, in any order.  The
    loop returns an error or nil; while it has not returned, the list of events has run out. *)
From S2P Require Import Prelude Emq Bytes ClusterState Interaction StructValue Broker AmqpV0 AmqpV0Methods AmqpV0Frames AmqpV0Header AmqpV0Transport AmqpV0Server.

(** ** Events and state *)

Inductive v0_event : Type :=
| EventClosed
| EventFrame (frame : Frame)
| EventReceiveError (err : go_error)
| EventSubscribeError (err : go_error)
| EventDelivery (channel : Z) (consumerTag : string) (response : SubscribeResponse).

Abbreviation Channels := (gmap Z ServerChannel).

(** An error is what the loop returns. *)
Definition conn_method : Type → Type := method v0_answer Channels (option go_error).

(** [errors.Cause] *)
Fixpoint Cause (e : go_error) : go_error :=
  match e with
  | ErrWrap cause _ => Cause cause
  | _ => e
  end.

#[export] Instance go_error_eq_dec : EqDecision go_error.
Proof. solve_decision. Defined.

Definition connection_close (code : Z) (text : string) : Frame :=
  method_on 0 (MConnectionClose {| ConnectionClose_ReplyCode := code; ConnectionClose_ReplyText := text;
    ConnectionClose_ClassID := 0; ConnectionClose_MethodID := 0 |}).

(** What [forceCloseAMQPv0] returns is what the loop returns, except for a malformed frame. *)
Definition forceCloseAMQPv0 (code : Z) (err : go_error) : conn_method (option go_error) :=
  err ← ask (CallSend (connection_close code (Error_text err))); mret (wrap_opt "force close failed" err).

Definition force_close {A} (code : Z) (err : go_error) : conn_method A := err ← forceCloseAMQPv0 code err; throw err.

(** [err := transport.Send(...); if err != nil { return s.forceCloseAMQPv0(...) }] *)
Definition send_or_close (frame : Frame) : conn_method unit :=
  err ← ask (CallSend frame);
  match err with
  | None => mret ()
  | Some e => force_close InternalError e
  end.

(** [ch.Close()] *)
Fixpoint close_consumers (l : list (string * nat)) : prog v0_answer unit :=
  match l with
  | [] => Ret ()
  | (_, consumer) :: l => Vis (CallCloseConsumer consumer) (λ _, close_consumers l)
  end.

Definition ServerChannel_Close (ch : ServerChannel) : prog v0_answer unit := close_consumers (map_to_list (ch_consumers ch)).

(** ** The loop *)

(** A handler runs on a channel; its error closes the channel or the connection. *)
Definition on_channel (id : Z) (ch : ServerChannel) (handler : v0_method unit) : conn_method unit := λ channels,
  prog_bind_aux (λ '(ch, r),
    match r with
    | Ok _ => Ret (<[id := ch]> channels, Ok ())
    | Err (ConnClose f) => (err ← ask (CallSend (method_on 0 (MConnectionClose f))); throw err : conn_method unit) (<[id := ch]> channels)
    | Err (ChanClose f) => send_or_close (method_on (ch_id ch) (MChannelClose f)) (<[id := set_state channelStateClosing ch]> channels)
    | Err (OtherError e) => force_close InternalError e (<[id := ch]> channels)
    | Panic msg => Ret (<[id := ch]> channels, Panic msg)
    end) (handler ch).

Definition on_open_channel (id : Z) (handler : v0_method unit) : conn_method unit :=
  channels ← get;
  match channels !! id with
  | None => force_close ChannelError (ErrNew "channel not open")
  | Some ch => on_channel id ch handler
  end.

(** A channel is forgotten and its consumers closed. *)
Definition drop_channel (id : Z) (ch : ServerChannel) : conn_method unit :=
  modify (delete id);;
  calls (ServerChannel_Close ch).

Definition serve_method `{DurationFormat} (namespace : string) (id : Z) (frame : Method) : conn_method unit :=
  if id =? 0 then
    match frame with
    | MConnectionClose f =>
      if negb (ConnectionClose_ReplyCode f =? 0) && negb (ConnectionClose_ReplyCode f =? ReplySuccess)
      then throw (Some (ErrNew "received connection error %q (%d)"))
      else err ← ask (CallSend (method_on 0 (MConnectionCloseOk MkConnectionCloseOk))); throw err
    | _ => force_close SyntaxError (ErrNew "non-close frame")
    end
  else
    channels ← get;
    match frame with
    | MChannelOpen _ =>
      match channels !! id with
      | Some _ => force_close ChannelError (ErrNew "channel already open")
      | None =>
        modify (<[id := new_channel id]>);;
        send_or_close (method_on id (MChannelOpenOk {| ChannelOpenOk_Reserved1 := "" |}))
      end
    | MChannelClose _ =>
      match channels !! id with
      | None => force_close ChannelError (ErrNew "trying to close channel that isn't open")
      | Some ch => drop_channel id ch;; send_or_close (method_on id (MChannelCloseOk MkChannelCloseOk))
      end
    | MChannelCloseOk _ =>
      match channels !! id with
      | None => force_close ChannelError (ErrNew "channel not open")
      | Some ch =>
        if bool_decide (ch_state ch = channelStateClosing) then drop_channel id ch
        else force_close SyntaxError (ErrNew "channel not closing")
      end
    | _ => on_open_channel id (handleAMQPv0ChannelMethod namespace frame)
    end.

Definition serve_event `{DurationFormat} (namespace : string) (event : v0_event) : conn_method unit :=
  match event with
  | EventClosed => force_close ConnectionForced (ErrNew "shutdown")
  | EventFrame (FMethod f) => serve_method namespace (Channel (MethodFrame_FrameMeta f)) (MethodFrame_Method f)
  | EventFrame (FHeader meta f) =>
    if Channel meta =? 0 then force_close SyntaxError (ErrNew "content header frame on zero channel")
    else on_open_channel (Channel meta) (handleAMQPv0ChannelContentHeader f)
  | EventFrame (FBody meta data) =>
    if Channel meta =? 0 then force_close SyntaxError (ErrNew "content body frame on zero channel")
    else on_open_channel (Channel meta) (handleAMQPv0ChannelContentBody namespace data)
  | EventFrame (FHeartbeat meta) =>
    if negb (Channel meta =? 0) then force_close SyntaxError (ErrNew "heartbeat frame on non-zero channel")
    else err ← ask (CallSend (FHeartbeat (meta_on 0))); throw err
  | EventReceiveError err =>
    if bool_decide (Cause err = ErrMalformedFrame) then
      err ← forceCloseAMQPv0 FrameError (ErrNew "malformed frame"); throw (wrap_opt "receive failed" err)
    else throw (wrap_opt "receive failed" (Some err))
  | EventSubscribeError err => force_close InternalError (ErrWrap err "subscribe failed")
  | EventDelivery id consumerTag response =>
    channels ← get;
    match channels !! id with
    | None => mret ()
    | Some ch => on_channel id ch (handleAMQPv0ChannelDelivery consumerTag response)
    end
  end.

Fixpoint serve_events `{DurationFormat} (namespace : string) (events : list v0_event) : conn_method unit :=
  match events with
  | [] => mret ()
  | event :: events => serve_event namespace event;; serve_events namespace events
  end.

(** The deferred function: when the loop is left, every channel is closed. *)
Fixpoint close_channels (l : list (Z * ServerChannel)) : prog v0_answer unit :=
  match l with
  | [] => Ret ()
  | (_, ch) :: l => prog_bind_aux (λ _, close_channels l) (ServerChannel_Close ch)
  end.

Definition serve_loop `{DurationFormat} (namespace : string) (events : list v0_event) : prog v0_answer (result (option go_error) unit) :=
  prog_bind_aux (λ '(channels, r),
    match r with
    | Ok _ => Ret (Ok ())
    | r => prog_bind_aux (λ _, Ret r) (close_channels (map_to_list channels))
    end) (serve_events namespace events ∅).

(** ** A connection *)

Definition namespace_of (virtualHost : string) : string := if (virtualHost =? "/")%string then DefaultNamespace else virtualHost.

(** [Ok] while the connection is served, [Err] when the function has returned. *)
Definition ServeAMQPv0 `{DurationFormat} (events : list v0_event) : prog v0_answer (result (option go_error) unit) :=
  open ← perform CallExpectOpen;
  match open with
  | Err e => mret (Err (Some (ErrWrap e "receive connection.open failed")))
  | Panic msg => mret (Panic msg)
  | Ok open =>
    let namespace := namespace_of (ConnectionOpen_VirtualHost open) in
    state ← perform CallCurrent;
    match FindNamespace state namespace with
    | None =>
      err ← perform (CallSend (connection_close NotAllowed "vhost %q doesn't exist"));
      mret (Err (wrap_opt "send connect.close failed" err))
    | Some _ =>
      err ← perform (CallSend (method_on 0 (MConnectionOpenOk {| ConnectionOpenOk_Reserved1 := "" |})));
      match err with
      | Some e => mret (Err (Some (ErrWrap e "send connection.open-ok failed")))
      | None => serve_loop namespace events
      end
    end
  end.
