(* ===== verification/AmqpV0ConnProps.v ===== *)
(** * AMQP 0-9-1: theorems about connections

    The invariant of the channels of a connection, the assembly of published messages from frames, and the release of
    consumers, for every order of events and every answer of the rest of the server. *)
From S2P Require Import Prelude Emq Bytes ClusterState Requests Interaction StructValue Broker AmqpValues AmqpV0 AmqpV0Fields AmqpV0Methods AmqpV0Frames AmqpV0Header AmqpV0Transport AmqpV0Server AmqpV0ServerProps AmqpV0Conn.

(** ** Handlers on a connection *)

(** What a handler leaves, whether it fails or not. *)
Lemma on_channel_keeps (P : v0_log → ServerChannel → Prop) (Q : v0_log → Channels → Prop) id ch h channels :
  always (h ch) (λ log x, P log x.1) →
  (∀ log ch' more, P log ch' → Forall (λ c, ∃ f err, c = existT (CallSend f) err) more → Q (log ++ more) (<[id := ch']> channels)) →
  (∀ log ch', P log ch' → P log (set_state channelStateClosing ch')) →
  always (on_channel id ch h channels) (λ log x, Q log x.1).
Proof.
  intros Hh HQ Hclosing. unfold on_channel. apply (always_bind _ (h ch)). eapply always_mono; [|apply Hh].
  intros log [ch' r]. cbn [fst]. intros HP. destruct r as [u|[f|f|e]|msg]; cbn.
  - by apply HQ.
  - intros err. apply HQ; [done|]. repeat constructor. by eexists _, _.
  - intros [e|]; cbn; [intros err2|]; (apply HQ; [by apply Hclosing|repeat constructor; by eexists _, _]).
  - intros err. apply HQ; [done|]. repeat constructor. by eexists _, _.
  - by apply HQ.
Qed.

(** What holds while the connection is served: the handler succeeds, or closes its channel. *)
Lemma on_channel_ok (Q : v0_log → Channels → Prop) id ch h channels :
  always (h ch) (λ log x,
    match x.2 with
    | Ok _ => Q log (<[id := x.1]> channels)
    | Err (ChanClose f) => Q (log ++ [existT (CallSend (method_on (ch_id x.1) (MChannelClose f))) None]) (<[id := set_state channelStateClosing x.1]> channels)
    | _ => True
    end) →
  always (on_channel id ch h channels) (λ log x, x.2 = Ok () → Q log x.1).
Proof.
  intros Hh. unfold on_channel. apply (always_bind _ (h ch)). eapply always_mono; [|apply Hh].
  intros log [ch' r]. cbn [fst snd]. destruct r as [u|[f|f|e]|msg]; cbn.
  - rewrite app_nil_r. by intros.
  - by intros _ err.
  - intros HP [e|]; cbn; [by intros err|by intros _].
  - by intros _ err.
  - by intros.
Qed.

(** A call to send a frame or to publish that succeeded. *)
Definition answered (c : call v0_answer) : Prop :=
  match c with
  | existT (CallSend _) (Some _) | existT (CallPublish _) (Some _) => False
  | _ => True
  end.

Lemma on_channel_served id ch h channels :
  always (h ch) (λ log x, Forall answered log → match x.2 with Ok _ | Err (ChanClose _) => True | _ => False end) →
  always (on_channel id ch h channels) (λ log x, Forall answered log → x.2 = Ok ()).
Proof.
  intros Hh. unfold on_channel. apply (always_bind _ (h ch)). eapply always_mono; [|apply Hh].
  intros log [ch' r]. cbn [fst snd]. destruct r as [u|[f|f|e]|msg]; cbn.
  - done.
  - intros HP err [? _]%Forall_app. by destruct HP.
  - intros _ [e|]; cbn; [|done]. intros err [_ [Hc _]%Forall_cons]%Forall_app. by destruct Hc.
  - intros HP err [? _]%Forall_app. by destruct HP.
  - rewrite app_nil_r. intros HP Hl. by destruct HP.
Qed.

(** A connection that is closed makes one call. *)
Lemma force_close_always {A} code err channels :
  always (force_close (A := A) code err channels) (λ log x, ∃ f e r, log = [existT (CallSend f) e] ∧ x = (channels, Err r)).
Proof. intros e. cbn. by eexists _, _, _. Qed.

(** ** The invariant *)

Definition conn_inv (k : Z) (channels : Channels) : Prop := ∀ id ch, channels !! id = Some ch → channel_inv k ch.

Lemma conn_inv_mono k k' channels : k ≤ k' → conn_inv k channels → conn_inv k' channels.
Proof. intros Hk Hinv id ch Hch. eapply channel_inv_mono; [done|by eapply Hinv]. Qed.

Lemma conn_inv_insert k id ch channels : channel_inv k ch → conn_inv k channels → conn_inv k (<[id := ch]> channels).
Proof. intros Hch Hinv id' ch' [[_ <-]|[_ H]]%lookup_insert_Some; [done|by eapply Hinv]. Qed.

Lemma conn_inv_delete k id channels : conn_inv k channels → conn_inv k (delete id channels).
Proof. intros Hinv id' ch' [_ H]%lookup_delete_Some. by eapply Hinv. Qed.

Section invariant.

Context `{DurationFormat} (k : Z) (namespace : string) (Hk : 0 ≤ k < MaxUint64).

Abbreviation next := (λ (_ : v0_log) (x : Channels * result (option go_error) unit), conn_inv (k + 1) x.1).

Lemma on_channel_inv id ch h channels :
  conn_inv k channels → always (h ch) (λ _ x, channel_inv (k + 1) x.1) → always (on_channel id ch h channels) next.
Proof.
  intros Hinv Hh. apply (on_channel_keeps (λ _, channel_inv (k + 1)) (λ _, conn_inv (k + 1))); [done| |].
  - intros log ch' more Hch _. apply conn_inv_insert; [done|]. apply (conn_inv_mono k); [lia|done].
  - intros log ch'. apply channel_inv_closing.
Qed.

Lemma on_open_channel_inv id h channels :
  conn_inv k channels → (∀ ch, channel_inv k ch → always (h ch) (λ _ x, channel_inv (k + 1) x.1)) →
  always (on_open_channel id h channels) next.
Proof.
  intros Hinv Hh. unfold on_open_channel. apply always_method_bind. cbn [always get].
  destruct (channels !! id) as [ch|] eqn:E; [by apply on_channel_inv, Hh, (Hinv id)|].
  intros err. cbn. apply (conn_inv_mono k); [lia|done].
Qed.

Lemma drop_channel_always id ch channels : always (drop_channel id ch channels) (λ log x, ∃ u, log = (λ p, existT (CallCloseConsumer p.2) ()) <$> map_to_list (ch_consumers ch) ∧ x = (delete id channels, Ok u)).
Proof.
  unfold drop_channel. apply always_method_bind. cbn [always modify app]. unfold calls, ServerChannel_Close.
  apply (always_bind _ (close_consumers _)). induction (map_to_list (ch_consumers ch)) as [|[tag n] l IH]; cbn; [by eexists|].
  intros []. eapply always_mono; [|apply IH]. intros log u (u' & E & [= ->]). exists u'. split; [|done]. by rewrite E.
Qed.

Lemma serve_method_inv id frame channels : conn_inv k channels → always (serve_method namespace id frame channels) next.
Proof.
  intros Hinv. pose proof (conn_inv_mono k (k + 1) channels ltac:(lia) Hinv) as Hinv'.
  assert (∀ ch, channel_inv k ch → always (handleAMQPv0ChannelMethod namespace frame ch) (λ _ x, channel_inv (k + 1) x.1)) as Hm.
  { intros ch Hch. by apply ChannelMethod_inv. }
  unfold serve_method. destruct (id =? 0).
  { destruct frame; try (intros err; done). destruct (_ && _); [done|]. by intros err. }
  apply always_method_bind. cbn [always get app]. destruct frame; try (by apply on_open_channel_inv); destruct (channels !! id) as [ch|] eqn:E.
  all: try (by intros err).
  - intros [err|]; [intros err'|]; cbn; (apply conn_inv_insert; [apply new_channel_inv; lia|done]).
  - apply always_method_bind. eapply always_mono; [|apply drop_channel_always]. intros log x (u & _ & ->).
    intros [err|]; [intros err'|]; cbn; by apply conn_inv_delete.
  - destruct (bool_decide _); [|by intros err]. eapply always_mono; [|apply drop_channel_always]. intros log x (u & _ & ->).
    by apply conn_inv_delete.
Qed.

Lemma serve_event_inv event channels : conn_inv k channels → always (serve_event namespace event channels) next.
Proof.
  intros Hinv. pose proof (conn_inv_mono k (k + 1) channels ltac:(lia) Hinv) as Hinv'.
  assert (∀ (m : v0_method unit) ch, keeps (λ _ ch, channel_inv k ch) m → channel_inv k ch → always (m ch) (λ _ x, channel_inv (k + 1) x.1)) as Hm.
  { intros m ch Hkeep Hch. eapply always_mono; [|by apply (Hkeep [] ch)]. intros log x. apply channel_inv_mono. lia. }
  destruct event as [|[f|meta f|meta data|meta]|err|err|id tag response]; cbn [serve_event].
  - by intros err.
  - by apply serve_method_inv.
  - destruct (_ =? _); [by intros err|]. apply on_open_channel_inv; [done|]. intros ch. apply Hm, ChannelContentHeader_inv.
  - destruct (_ =? _); [by intros err|]. apply on_open_channel_inv; [done|]. intros ch. apply Hm, ChannelContentBody_inv.
  - destruct (negb _); by intros err.
  - destruct (bool_decide _); [by intros err'|done].
  - by intros err'.
  - apply always_method_bind. cbn [always get app]. destruct (channels !! id) as [ch|] eqn:E; [|done].
    apply on_channel_inv; [done|]. apply ChannelDelivery_inv; [done|]. by apply (Hinv id).
Qed.

End invariant.

Lemma serve_events_inv `{DurationFormat} namespace events : ∀ k channels,
  0 ≤ k → k + Z.of_nat (length events) ≤ MaxUint64 → conn_inv k channels →
  always (serve_events namespace events channels) (λ _ x, conn_inv (k + Z.of_nat (length events)) x.1).
Proof.
  induction events as [|event events IH]; intros k channels H0 Hk Hinv; cbn [serve_events length] in *.
  { cbn. apply (conn_inv_mono k); [lia|done]. }
  apply always_method_bind. eapply always_mono; [|apply serve_event_inv; [|done]; lia].
  intros log [channels' [u|e|msg]] Hinv'; cbn [fst] in *; [|apply (conn_inv_mono (k + 1)); [lia|done]..].
  eapply always_mono; [|apply IH; [| |done]; lia]. intros log' x. apply conn_inv_mono. lia.
Qed.

(** ** Consumers are released *)

(** The consumer that a call starts for a client; the consumer of basic.get ends by itself. *)
Definition v0_started_of (c : call v0_answer) : option nat :=
  match projT1 c as e return v0_answer e → option nat with
  | CallSubscribe _ _ consumerTag => λ n, if (consumerTag =? "")%string then None else Some n
  | _ => λ _, None
  end (projT2 c).

Definition v0_closed_of (c : call v0_answer) : option nat :=
  match projT1 c with
  | CallCloseConsumer n => Some n
  | _ => None
  end.

Abbreviation v0_started := (started v0_started_of).
Abbreviation v0_closed := (closed v0_closed_of).

Definition channel_holds (ch : ServerChannel) (n : nat) : Prop := ∃ tag, ch_consumers ch !! tag = Some n.

Section handlers.

Context `{DurationFormat} (namespaceName : string) (first : nat → Prop).

Abbreviation I := (no_leak v0_started_of v0_closed_of channel_holds first).

Lemma keeps_call_no_leak e : (∀ x : v0_answer e, v0_started_of (existT e x) = None) → keeps (Er := handler_error) I (ask e).
Proof. intros He. apply keeps_ask. intros log x ch. apply no_leak_calls. cbn. by rewrite He. Qed.

Lemma keeps_modify_no_leak f : (∀ ch, ch_consumers (f ch) = ch_consumers ch) → keeps (Er := handler_error) I (modify f).
Proof.
  intros Hf. apply keeps_modify. intros log ch. apply no_leak_weaken. intros n [tag Ht]. exists tag. by rewrite Hf.
Qed.

#[local] Ltac no_leak_auto :=
  unfold binding_by, find_namespace, find_queue, find_exchange, argument, wrap_error, generated_name, not_implemented, reply_with, message_of in *;
  repeat first [keeps_step | match goal with |- keeps _ (ask ?e) => refine (keeps_call_no_leak e _); done end
    | apply keeps_modify_no_leak; done
    | match goal with Hl : I ?log ?ch |- always ((_ ≫= _) ?ch) _ => refine (keeps_bind I _ _ _ _ log ch Hl) end
    | match goal with Hl : I ?log ?ch |- always ((match ?x with _ => _ end) ?ch) _ => destruct x eqn:? end
    | match goal with Hl : I ?log ?ch |- always (mret _ ?ch) _ => exact (keeps_ret I _ log ch Hl) end
    | match goal with Hl : I ?log ?ch |- always (throw _ ?ch) _ => exact (keeps_throw I _ log ch Hl) end ].

Lemma track_consumers response ch : ch_consumers (track response ch) = ch_consumers ch.
Proof. unfold track. by destruct (_ =? _). Qed.

Lemma deliver_message_no_leak response msg m : keeps I (deliver_message response msg m).
Proof. unfold deliver_message. no_leak_auto. apply keeps_modify_no_leak. intros ch. apply track_consumers. Qed.

Lemma settle_no_leak requeue m : keeps I (settle requeue m).
Proof. unfold settle. no_leak_auto. Qed.

Lemma settle_upto_no_leak requeue tag l : ∀ i, keeps I (settle_upto requeue tag l i).
Proof. induction l as [|m l IH]; intros i; cbn [settle_upto]; no_leak_auto; [apply settle_no_leak|apply IH]. Qed.

Lemma settle_multiple_no_leak requeue tag : keeps I (settle_multiple requeue tag).
Proof. unfold settle_multiple. no_leak_auto. apply settle_upto_no_leak. Qed.

Lemma settle_single_no_leak requeue tag : keeps I (settle_single requeue tag).
Proof. unfold settle_single. no_leak_auto. apply settle_no_leak. Qed.

Lemma generated_name_nonempty prefix msg name ch :
  prefix ≠ "" → always (generated_name prefix msg name ch) (λ log x, omap v0_started_of log = [] ∧ x.1 = ch ∧ ∀ tag, x.2 = Ok tag → tag ≠ "").
Proof.
  intros Hp. unfold generated_name. destruct (name =? "")%string eqn:E; bool_to_prop; [|split_and!; [done..|]; by intros tag [= <-]].
  intros [s|e|m]; cbn; (split_and!; [done..|]); [|done..]. intros tag [= <-]. by destruct prefix.
Qed.

(** A consumer is registered under a tag that is free. *)
Lemma consume_no_leak request consumerTag log ch :
  I log ch → ch_consumers ch !! consumerTag = None → consumerTag ≠ "" →
  always (ask (Er := handler_error) (CallSubscribe request (ch_id ch) consumerTag) ch) (λ log' x, ∃ stream,
    x = (ch, Ok stream) ∧ I (log ++ log') (set_deliveries (<[consumerTag := stream]> (ch_consumers ch)) (ch_deliveryTag ch) (ch_inflight ch) ch)).
Proof.
  intros Hl Hfree Htag n. exists n. split; [done|]. intros n'. rewrite started_app, closed_app. unfold started at 2. cbn.
  destruct (consumerTag =? "")%string eqn:E; bool_to_prop; [done|]. rewrite list_elem_of_singleton. intros Hn.
  assert (n' = n ∨ channel_holds ch n' ∨ v0_closed log n') as [->|[[tag Ht]|Hc]]; [|left; exists consumerTag; apply lookup_insert_eq|left; exists tag|by right; left].
  - destruct Hn as [Hn|[Hn| ->]]; [right; by apply Hl; left|right; by apply Hl; right|by left].
  - cbn. rewrite lookup_insert_ne; [done|]. intros ->. congruence.
Qed.

Lemma BasicConsume_no_leak f : keeps I (handleAMQPv0BasicConsume namespaceName f).
Proof.
  unfold handleAMQPv0BasicConsume. do 4 (apply keeps_bind; [by no_leak_auto|intros ?]). intros log ch Hl. apply always_method_bind.
  eapply always_mono; [|by apply generated_name_nonempty]. intros log1 [ch1 r1] (H1 & [= ->] & Htag). cbn [snd] in Htag.
  pose proof (no_leak_calls _ _ _ _ _ log1 _ H1 Hl) as Hl1. destruct r1 as [consumerTag|e|msg]; [|done..].
  specialize (Htag consumerTag eq_refl). apply always_method_bind. cbn [always get app].
  destruct (ch_consumers ch !! consumerTag) eqn:Hfree; [cbn; by rewrite app_nil_r|]. apply always_method_bind.
  eapply always_mono; [|by apply (consume_no_leak _ _ (log ++ log1))]. intros log2 x (stream & -> & Hs).
  apply always_method_bind. cbn [always modify app].
  assert (keeps I (if BasicConsume_NoWait f then mret () else reply_with (MBasicConsumeOk {| BasicConsumeOk_ConsumerTag := consumerTag |}))) as Hk
    by no_leak_auto.
  eapply always_mono; [|by apply (Hk _ _ Hs)]. intros log3 x. cbn beta. by rewrite <-!app_assoc.
Qed.

Lemma BasicCancel_no_leak f : keeps I (handleAMQPv0BasicCancel f).
Proof.
  apply keeps_get. intros log ch Hl. destruct (ch_consumers ch !! _) as [consumer|] eqn:E; [|cbn; by rewrite app_nil_r].
  apply always_method_bind. cbn [always modify app]. apply always_method_bind. intros []. cbn [always ask app].
  set (ch' := set_deliveries _ _ _ ch). assert (I (log ++ [existT (CallCloseConsumer consumer) ()]) ch') as Hl'.
  { intros n. rewrite started_app, closed_app. intros [Hn|[Hn|[]%elem_of_nil]];
      (destruct (Hl n) as [[tag Ht]|Hc]; [tauto| |tauto]; destruct (decide (tag = BasicCancel_ConsumerTag f)) as [->|Hne]).
    all: try (right; right; replace n with consumer by congruence; by left).
    all: left; exists tag; cbn; by rewrite lookup_delete_ne. }
  assert (keeps I (if BasicCancel_NoWait f then mret () else reply_with (MBasicCancelOk {| BasicCancelOk_ConsumerTag := BasicCancel_ConsumerTag f |}))) as Hk
    by no_leak_auto.
  eapply always_mono; [|by apply (Hk _ _ Hl')]. intros log3 x. cbn beta. by rewrite <-!app_assoc.
Qed.

Lemma ChannelMethod_no_leak f : keeps I (handleAMQPv0ChannelMethod namespaceName f).
Proof.
  unfold handleAMQPv0ChannelMethod. apply keeps_get. intros log ch Hl.
  destruct (ch_state ch); [|cbn; by rewrite app_nil_r..].
  match goal with |- always (?m ch) _ => enough (keeps I m) as Hk by by apply (Hk log ch Hl) end. clear log ch Hl.
  destruct f; try (unfold handleAMQPv0ExchangeDeclare, handleAMQPv0ExchangeDelete, handleAMQPv0QueueDeclare, handleAMQPv0QueueDelete,
    handleAMQPv0QueueBind, handleAMQPv0QueueUnbind, handleAMQPv0BasicQos, handleAMQPv0BasicPublish; by no_leak_auto).
  - apply BasicConsume_no_leak.
  - apply BasicCancel_no_leak.
  - unfold handleAMQPv0BasicGet. no_leak_auto; apply deliver_message_no_leak.
  - unfold handleAMQPv0BasicAck. destruct (BasicAck_Multiple _); [apply settle_multiple_no_leak|apply settle_single_no_leak].
  - apply settle_single_no_leak.
  - unfold handleAMQPv0BasicNack. destruct (BasicNack_Multiple _); [apply settle_multiple_no_leak|apply settle_single_no_leak].
Qed.

Lemma ChannelContentHeader_no_leak f : keeps I (handleAMQPv0ChannelContentHeader f).
Proof. unfold handleAMQPv0ChannelContentHeader. no_leak_auto. Qed.

Lemma ChannelContentBody_no_leak data : keeps I (handleAMQPv0ChannelContentBody namespaceName data).
Proof. unfold handleAMQPv0ChannelContentBody. no_leak_auto. Qed.

Lemma ChannelDelivery_no_leak consumerTag response : keeps I (handleAMQPv0ChannelDelivery consumerTag response).
Proof. unfold handleAMQPv0ChannelDelivery. no_leak_auto. refine (deliver_message_no_leak _ _ _ _ _ _). done. Qed.

End handlers.

Definition conn_holds (channels : Channels) (n : nat) : Prop := ∃ id ch, channels !! id = Some ch ∧ channel_holds ch n.

Lemma sends_start_nothing (more : v0_log) : Forall (λ c, ∃ f err, c = existT (CallSend f) err) more → omap v0_started_of more = [].
Proof. induction 1 as [|c more (f & err & ->) _ IH]; [done|]. cbn. by rewrite IH. Qed.

Section release.

Context `{DurationFormat} (namespace : string) (first : nat → Prop).

Abbreviation I := (no_leak v0_started_of v0_closed_of conn_holds first).

Lemma on_channel_no_leak id ch h log channels :
  (∀ first, keeps (no_leak v0_started_of v0_closed_of channel_holds first) h) → channels !! id = Some ch → I log channels →
  always (on_channel id ch h channels) (λ log' x, I (log ++ log') x.1).
Proof.
  intros Hh Hid Hl. apply (on_channel_keeps (no_leak v0_started_of v0_closed_of channel_holds (channel_holds ch)) (λ log', I (log ++ log'))).
  - apply (Hh (channel_holds ch) [] ch). intros n [Hn|[]%elem_of_nil]. by left.
  - intros log' ch' more HP Hmore%sends_start_nothing. rewrite app_assoc. apply no_leak_calls; [done|].
    eapply (no_leak_part _ _ conn_holds channel_holds); [done|done|..].
    + intros n (id' & ch'' & Hid' & Hc). destruct (decide (id' = id)) as [->|Hne]; [left; by replace ch with ch'' by congruence|right].
      exists id', ch''. split; [by rewrite lookup_insert_ne by done|done].
    + intros n Hc. exists id, ch'. split; [apply lookup_insert_eq|done].
  - intros log' ch'. by apply no_leak_weaken.
Qed.

Lemma drop_channel_no_leak id ch log channels :
  channels !! id = Some ch → I log channels → always (drop_channel id ch channels) (λ log' x, I (log ++ log') x.1 ∧ x.2 = Ok ()).
Proof.
  intros Hid Hl. eapply always_mono; [|apply drop_channel_always]. intros log' x ([] & -> & ->). split; [|done]. cbn [fst].
  intros n. rewrite started_app, closed_app. intros Hn.
  assert (first n ∨ v0_started log n) as Hn'.
  { destruct Hn as [Hn|[Hn|Hn]]; [tauto..|]. exfalso. unfold started in Hn.
    induction (map_to_list (ch_consumers ch)); [by apply elem_of_nil in Hn|]. by apply IHl. }
  destruct (Hl n Hn') as [(id' & ch' & Hid' & tag & Ht)|Hc]; [|tauto]. destruct (decide (id' = id)) as [->|Hne].
  - right. right. unfold closed. apply list_elem_of_omap. exists (existT (CallCloseConsumer n) ()). split; [|done].
    replace ch' with ch in Ht by congruence.
    apply (list_elem_of_fmap_2 (λ p, existT (CallCloseConsumer p.2) () : call v0_answer) _ (tag, n)). by apply elem_of_map_to_list.
  - left. exists id', ch'. rewrite lookup_delete_ne by done. split; [done|]. by exists tag.
Qed.

Lemma keeps_conn_call e : (∀ x : v0_answer e, v0_started_of (existT e x) = None) → keeps (Er := option go_error) I (ask e).
Proof. intros He. apply keeps_ask. intros log x ch. apply no_leak_calls. cbn. by rewrite He. Qed.

Lemma keeps_conn_send f : keeps (Er := option go_error) I (ask (CallSend f)).
Proof. by apply keeps_conn_call. Qed.

Lemma force_close_no_leak {A} code err : keeps I (force_close (A := A) code err).
Proof. unfold force_close, forceCloseAMQPv0. repeat keeps_step. apply keeps_conn_send. Qed.

Lemma send_or_close_no_leak f : keeps I (send_or_close f).
Proof. unfold send_or_close. repeat keeps_step; [apply keeps_conn_send|apply force_close_no_leak]. Qed.

Lemma on_open_channel_no_leak id h : (∀ first, keeps (no_leak v0_started_of v0_closed_of channel_holds first) h) → keeps I (on_open_channel id h).
Proof.
  intros Hh. apply keeps_get. intros log channels Hl. destruct (channels !! id) as [ch|] eqn:E; [by apply on_channel_no_leak|].
  by apply force_close_no_leak.
Qed.

Lemma open_channel_no_leak id log channels : channels !! id = None → I log channels → I log (<[id := new_channel id]> channels).
Proof.
  intros Hid. apply no_leak_weaken. intros n (id' & ch & Hch & Hn). exists id', ch.
  rewrite lookup_insert_ne; [done|]. intros ->. congruence.
Qed.

Lemma serve_method_no_leak id frame : keeps I (serve_method namespace id frame).
Proof.
  unfold serve_method. destruct (id =? 0).
  { destruct frame; try apply force_close_no_leak. destruct (_ && _); repeat keeps_step. apply keeps_conn_send. }
  apply keeps_get. intros log channels Hl.
  destruct frame; try (refine (on_open_channel_no_leak _ _ _ log channels Hl); intros; apply ChannelMethod_no_leak).
  all: destruct (channels !! id) as [ch|] eqn:E; try by apply force_close_no_leak.
  - refine (send_or_close_no_leak _ log _ _). by apply open_channel_no_leak.
  - apply always_method_bind. eapply always_mono; [|by apply drop_channel_no_leak]. intros log' [channels' r] [Hl' [= ->]].
    eapply always_mono; [|by apply send_or_close_no_leak]. intros log'' x. cbn beta. by rewrite <-app_assoc.
  - destruct (bool_decide _); [|by apply force_close_no_leak]. eapply always_mono; [|by apply drop_channel_no_leak]. by intros log' x [? _].
Qed.

Lemma serve_event_no_leak event : keeps I (serve_event namespace event).
Proof.
  destruct event as [|[f|meta f|meta data|meta]|err|err|id tag response]; cbn [serve_event].
  - apply force_close_no_leak.
  - apply serve_method_no_leak.
  - destruct (_ =? _); [apply force_close_no_leak|]. apply on_open_channel_no_leak. intros. apply ChannelContentHeader_no_leak.
  - destruct (_ =? _); [apply force_close_no_leak|]. apply on_open_channel_no_leak. intros. apply ChannelContentBody_no_leak.
  - destruct (negb _); [apply force_close_no_leak|]. repeat keeps_step. apply keeps_conn_send.
  - unfold forceCloseAMQPv0. repeat keeps_step. apply keeps_conn_send.
  - apply force_close_no_leak.
  - apply keeps_get. intros log channels Hl. destruct (channels !! id) as [ch|] eqn:E; [|cbn; by rewrite app_nil_r].
    apply on_channel_no_leak; [|done..]. intros. apply ChannelDelivery_no_leak.
Qed.

Lemma serve_events_no_leak events : keeps I (serve_events namespace events).
Proof. induction events as [|event events IH]; cbn [serve_events]; repeat keeps_step; [apply serve_event_no_leak|apply IH]. Qed.

End release.

Lemma close_consumers_always l : always (close_consumers l) (λ log _, omap v0_started_of log = [] ∧ ∀ n, n ∈ l.*2 → v0_closed log n).
Proof.
  induction l as [|[tag n] l IH]; cbn [close_consumers always]; [split; [done|]; by intros n ?%elem_of_nil|].
  intros []. eapply always_mono; [|apply IH]. intros log _ [H1 H2]. split; [done|].
  intros n' [->|Hn]%elem_of_cons; [by left|]. right. by apply H2.
Qed.

Lemma close_channels_always l :
  always (close_channels l) (λ log _, omap v0_started_of log = [] ∧ ∀ id ch n, (id, ch) ∈ l → channel_holds ch n → v0_closed log n).
Proof.
  induction l as [|[id ch] l IH]; cbn [close_channels]; [split; [done|]; by intros ? ? ? ?%elem_of_nil|].
  apply (always_bind _ (ServerChannel_Close ch)). eapply always_mono; [|apply close_consumers_always]. intros log _ [H1 H2].
  eapply always_mono; [|apply IH]. intros log' _ [H3 H4]. split; [by rewrite omap_app, H1, H3|].
  intros id' ch' n [[= -> ->]|Hin]%elem_of_cons Hn; apply closed_app; [left|right; by eapply H4].
  destruct Hn as [tag Ht]. apply H2. apply (list_elem_of_fmap_2 snd _ (tag, n)). by apply elem_of_map_to_list.
Qed.

(** When the loop has returned or panicked, every consumer it started was closed. *)
Lemma serve_loop_closes `{DurationFormat} namespace events :
  always (serve_loop namespace events) (λ log r, r ≠ Ok () → ∀ n, v0_started log n → v0_closed log n).
Proof.
  unfold serve_loop. apply (always_bind _ (serve_events namespace events ∅)).
  assert (no_leak v0_started_of v0_closed_of conn_holds (λ _, False) [] ∅) as H0 by (intros n [[]|[]%elem_of_nil]).
  eapply always_mono; [|by apply (serve_events_no_leak namespace (λ _, False) events [] ∅)].
  intros log [channels r] Hl. cbn [fst app] in Hl.
  assert (∀ r', always (prog_bind_aux (λ _ : unit, Ret r') (close_channels (map_to_list channels)))
    (λ log' (r : result (option go_error) unit), r ≠ Ok () → ∀ n, v0_started (log ++ log') n → v0_closed (log ++ log') n)) as Hc.
  { intros r'. apply (always_bind _ (close_channels _)). eapply always_mono; [|apply close_channels_always].
    intros log' [] [H1 H2] _ n. cbn. rewrite app_nil_r, started_app, closed_app. unfold started at 2. rewrite H1, elem_of_nil.
    intros [Hn|[]]. destruct (Hl n) as [(id & ch & Hid & Hn')|Hn']; [by right| |by left]. right. eapply H2; [|done].
    by apply elem_of_map_to_list. }
  destruct r as [[]|e|msg]; [|apply Hc..]. by cbn.
Qed.

(** ** Publishing *)

(** What the assembly of a message asks of the rest of the server: the cluster state, and to publish. *)
Inductive asked : Type :=
| Looked (state : ClusterState)
| Asked (request : TopicPublishRequest).

Definition asked_of (c : call v0_answer) : option asked :=
  match c with
  | existT CallCurrent state => Some (Looked state)
  | existT (CallPublish request) _ => Some (Asked request)
  | _ => None
  end.

(** The states that were looked at and what was given to the broker, in order. *)
Definition publishes (log : v0_log) : list asked := omap asked_of log.

Lemma publishes_app log log' : publishes (log ++ log') = publishes log ++ publishes log'.
Proof. apply omap_app. Qed.

(** A frame without the type and the size of its header, which the server does not look at. *)
Definition strip (frame : Frame) : Frame :=
  match frame with
  | FMethod f => method_on (Channel (MethodFrame_FrameMeta f)) (MethodFrame_Method f)
  | FHeader meta h => FHeader (meta_on (Channel meta)) h
  | FBody meta data => FBody (meta_on (Channel meta)) data
  | FHeartbeat meta => FHeartbeat (meta_on (Channel meta))
  end.

Lemma serve_strip `{DurationFormat} namespace frame :
  serve_event namespace (EventFrame frame) = serve_event namespace (EventFrame (strip frame)).
Proof. by destruct frame. Qed.

(** The frames of a message whose body is cut into chunks. *)
Definition body_frames (id : Z) (chunks : list (list Z)) : list Frame := FBody (meta_on id) <$> chunks.

Definition publish_frames (id : Z) (f : BasicPublish) (h : ContentHeaderFrame) (chunks : list (list Z)) : list Frame :=
  method_on id (MBasicPublish f) :: FHeader (meta_on id) h :: body_frames id chunks.

(** Frames in their order, with deliveries in between. *)
Inductive interleaved : list Frame → list v0_event → Prop :=
| interleaved_nil : interleaved [] []
| interleaved_frame frame frames events : interleaved frames events → interleaved (strip frame :: frames) (EventFrame frame :: events)
| interleaved_delivery id tag response frames events : interleaved frames events → interleaved frames (EventDelivery id tag response :: events).

Lemma interleaved_frames frames : strip <$> frames = frames → interleaved frames (EventFrame <$> frames).
Proof. induction frames as [|frame frames IH]; [constructor|]. intros [= E1 E2]. rewrite <-E1 at 1. constructor. by apply IH. Qed.

Section assembly.

Context `{DurationFormat} (namespace : string) (id : Z) (f : BasicPublish) (h : ContentHeaderFrame) (chunks : list (list Z)).
Context (Hid : id ≠ 0) (Hsize : ContentHeaderFrame_BodySize h = Z.of_nat (length (concat chunks))) (Hmax : ContentHeaderFrame_BodySize h ≤ MaxInt64).

Definition assembled : TopicPublishRequest :=
  {| tpr_DoNotForward := false; tpr_Namespace := namespace; tpr_Name := BasicPublish_Exchange f;
     tpr_Message := Some (message_from f h (concat chunks)) |}.

(** The part of a channel that deliveries do not touch. *)
Definition publish_part (ch : ServerChannel) :=
  (ch_state ch, (ch_publishExchange ch, ch_publishRoutingKey ch, ch_publishProperties ch), (ch_publishHeaders ch, ch_publishData ch, ch_publishRemaining ch)).

Definition publish_frame (frame : Frame) : Prop :=
  (∃ f, frame = method_on id (MBasicPublish f)) ∨ (∃ h, frame = FHeader (meta_on id) h) ∨ ∃ data, frame = FBody (meta_on id) data.

(** The frames that are left, the channel, and what was asked.  The namespace is looked up in one state, with the method. *)
Inductive progress : list Frame → ServerChannel → list asked → Prop :=
| progress_start ch :
    publish_part ch = (channelStateReady, ("", "", None), (None, [], 0)) → progress (publish_frames id f h chunks) ch []
| progress_header ch state :
    is_Some (FindNamespace state namespace) →
    publish_part ch = (channelStateAwaitingHeader, (BasicPublish_Exchange f, BasicPublish_RoutingKey f, None), (None, [], 0)) →
    progress (FHeader (meta_on id) h :: body_frames id chunks) ch [Looked state]
| progress_body ch state data rest last :
    is_Some (FindNamespace state namespace) →
    publish_part ch = (channelStateAwaitingBody, (BasicPublish_Exchange f, BasicPublish_RoutingKey f, header_properties h None),
      (ContentHeaderFrame_Headers h, data, Z.of_nat (length (concat (rest ++ [last]))))) →
    data ++ concat (rest ++ [last]) = concat chunks → last ≠ [] → progress (body_frames id (rest ++ [last])) ch [Looked state]
| progress_done ch state :
    is_Some (FindNamespace state namespace) →
    publish_part ch = (channelStateReady, ("", "", None), (None, [], 0)) → progress [] ch [Looked state; Asked assembled]
| progress_closing frames ch state :
    FindNamespace state namespace = None → ch_state ch = channelStateClosing → Forall publish_frame frames → progress frames ch [Looked state].

Lemma progress_part frames ch ch' pubs : publish_part ch' = publish_part ch → progress frames ch pubs → progress frames ch' pubs.
Proof.
  intros E Hp. destruct Hp as [? Hp|? ? ? Hp|? ? ? ? ? ? Hp|? ? ? Hp|? ? ? ? Hst Hfr]; [rewrite <-E in Hp..|].
  - by apply progress_start.
  - by apply progress_header.
  - by eapply progress_body.
  - by apply progress_done.
  - apply progress_closing; [done| |done]. unfold publish_part in E. congruence.
Qed.

Definition progresses (frames : list Frame) (pubs : list asked) (log : v0_log) (channels : Channels) : Prop :=
  ∃ ch, channels !! id = Some ch ∧ progress frames ch (pubs ++ publishes log).

Lemma delivery_progress id' tag response channels frames pubs :
  progresses frames pubs [] channels →
  always (serve_event namespace (EventDelivery id' tag response) channels) (λ log x, x.2 = Ok () → progresses frames pubs log x.1).
Proof.
  intros (ch & Hch & Hp). cbn [serve_event]. apply always_method_bind. cbn [always get app].
  destruct (channels !! id') as [ch'|] eqn:E; [|by exists ch]. apply on_channel_ok. unfold handleAMQPv0ChannelDelivery.
  apply always_method_bind. cbn [always get app]. destruct (ch_consumers ch' !! tag).
  2: { cbn. exists ch. by rewrite insert_id. }
  eapply always_mono; [|apply deliver_always]. intros log x [(_ & Hno & Hcc)|(message & _ & -> & ->)].
  { destruct x.2 as [[]|[| |]|]; try done. by edestruct Hcc. }
  cbn [snd fst]. assert (∀ m, publishes (delivery_calls ch' m message) = []) as Hpub by done. unfold progresses. rewrite Hpub.
  destruct (decide (id' = id)) as [->|Hne].
  - eexists. split; [apply lookup_insert_eq|]. eapply progress_part; [|done]. replace ch' with ch by congruence.
    unfold track. by destruct (_ =? 0).
  - exists ch. by rewrite lookup_insert_ne.
Qed.

Lemma on_open_channel_ok (Q : v0_log → Channels → Prop) channels ch handler :
  channels !! id = Some ch →
  always (handler ch) (λ log x,
    match x.2 with
    | Ok _ => Q log (<[id := x.1]> channels)
    | Err (ChanClose f) => Q (log ++ [existT (CallSend (method_on (ch_id x.1) (MChannelClose f))) None]) (<[id := set_state channelStateClosing x.1]> channels)
    | _ => True
    end) →
  always (on_open_channel id handler channels) (λ log x, x.2 = Ok () → Q log x.1).
Proof. intros Hch Hh. unfold on_open_channel. apply always_method_bind. cbn [always get app]. rewrite Hch. by apply on_channel_ok. Qed.


(** Each kind of frame, on the handler of its channel. *)
Lemma publish_progress ch :
  publish_part ch = (channelStateReady, ("", "", None), (None, [], 0)) →
  always (handleAMQPv0ChannelMethod namespace (MBasicPublish f) ch) (λ log x,
    match x.2 with
    | Ok _ => progress (FHeader (meta_on id) h :: body_frames id chunks) x.1 (publishes log)
    | Err (ChanClose _) => ∃ state, publishes log = [Looked state] ∧ FindNamespace state namespace = None
    | _ => True
    end).
Proof.
  unfold publish_part. intros [= Hst He Hr Hp Hh Hd Hrem]. unfold handleAMQPv0ChannelMethod. apply always_method_bind. cbn [always get app].
  rewrite Hst. unfold handleAMQPv0BasicPublish. apply always_method_bind.
  destruct (BasicPublish_Mandatory f); [done|]. cbn [guard_not always mret method_ret app]. apply always_method_bind.
  destruct (BasicPublish_Immediate f); [done|]. cbn [guard_not always mret method_ret app]. apply always_method_bind.
  eapply always_mono; [|apply find_namespace_always]. intros log x (state & -> & ->).
  destruct (FindNamespace state namespace) as [[??]|] eqn:Hns; [|by exists state].
  apply (progress_header _ state); [by rewrite Hns|]. unfold publish_part. cbn. by rewrite Hp, Hh, Hd, Hrem.
Qed.

Lemma header_progress ch last rest state :
  is_Some (FindNamespace state namespace) →
  publish_part ch = (channelStateAwaitingHeader, (BasicPublish_Exchange f, BasicPublish_RoutingKey f, None), (None, [], 0)) →
  chunks = rest ++ [last] → last ≠ [] →
  always (handleAMQPv0ChannelContentHeader h ch) (λ log x, publishes log = [] ∧ x.2 = Ok () ∧ progress (body_frames id chunks) x.1 [Looked state]).
Proof.
  unfold publish_part. intros Hns [= Hst He Hr Hp Hh Hd Hrem] Hc Hl. unfold handleAMQPv0ChannelContentHeader. apply always_method_bind.
  cbn [always get app]. rewrite Hst. cbn -[body_frames i64]. split; [done|]. split; [done|].
  rewrite Hc. apply (progress_body _ state [] rest last); [done| |by rewrite Hc|done]. unfold publish_part. cbn -[i64].
  rewrite He, Hr, Hp, Hd, <-Hc, <-Hsize. do 2 f_equal. unfold i64, signed. rewrite Z.mod_small by (unfold MaxInt64 in Hmax; lia).
  destruct (Z.ltb_spec (ContentHeaderFrame_BodySize h) (2 ^ (64 - 1))) as [_|Hge]; [done|]. unfold MaxInt64 in Hmax. lia.
Qed.

Lemma body_progress ch data chunk rest last state :
  is_Some (FindNamespace state namespace) →
  publish_part ch = (channelStateAwaitingBody, (BasicPublish_Exchange f, BasicPublish_RoutingKey f, header_properties h None),
    (ContentHeaderFrame_Headers h, data, Z.of_nat (length (concat (chunk :: rest ++ [last]))))) →
  data ++ concat (chunk :: rest ++ [last]) = concat chunks → last ≠ [] →
  always (handleAMQPv0ChannelContentBody namespace chunk ch) (λ log x, publishes log = [] ∧ x.2 = Ok () ∧ progress (body_frames id (rest ++ [last])) x.1 [Looked state]).
Proof.
  unfold publish_part. intros Hns [= Hst He Hr Hp Hh Hd Hrem] Hc Hl. unfold handleAMQPv0ChannelContentBody. apply always_method_bind.
  cbn [always get app]. rewrite Hst, Hrem. cbn [concat]. rewrite length_app.
  assert (0 < Z.of_nat (length (concat (rest ++ [last])))) as Hpos.
  { rewrite concat_app. cbn. rewrite app_nil_r, length_app. destruct last; [done|cbn; lia]. }
  destruct (Z.ltb_spec (Z.of_nat (length chunk + length (concat (rest ++ [last])))) (Z.of_nat (length chunk))) as [Hlt|_]; [lia|].
  cbn [guard_not]. apply always_method_bind. cbn [always mret method_ret app]. apply always_method_bind. cbn [always modify app].
  apply always_method_bind. cbn [always get app]. unfold append_data at 1. cbn [ch_publishRemaining set_publish]. rewrite Hrem. cbn [concat]. rewrite length_app.
  match goal with |- context [0 <? ?a] => destruct (Z.ltb_spec 0 a); [|lia] end. cbn [always mret method_ret]. split; [done|]. split; [done|].
  apply (progress_body _ state (data ++ chunk)); [done| |by rewrite <-app_assoc|done]. unfold publish_part. cbn. rewrite Hst, He, Hr, Hp, Hh, Hd, Hrem. do 2 f_equal.
  cbn [concat]. rewrite length_app. lia.
Qed.

Lemma last_progress ch data chunk state :
  is_Some (FindNamespace state namespace) →
  publish_part ch = (channelStateAwaitingBody, (BasicPublish_Exchange f, BasicPublish_RoutingKey f, header_properties h None),
    (ContentHeaderFrame_Headers h, data, Z.of_nat (length (concat [chunk])))) →
  data ++ concat [chunk] = concat chunks →
  always (handleAMQPv0ChannelContentBody namespace chunk ch) (λ log x, publishes log = [Asked assembled] ∧
    (∀ f, x.2 ≠ Err (ChanClose f)) ∧ (x.2 = Ok () → progress [] x.1 [Looked state; Asked assembled])).
Proof.
  unfold publish_part. intros Hns [= Hst He Hr Hp Hh Hd Hrem] Hc. unfold handleAMQPv0ChannelContentBody. apply always_method_bind.
  cbn [always get app]. cbn [concat] in Hrem, Hc. rewrite app_nil_r in Hrem, Hc. rewrite Hst, Hrem.
  destruct (Z.ltb_spec (Z.of_nat (length chunk)) (Z.of_nat (length chunk))) as [Hlt|_]; [lia|].
  cbn [guard_not]. apply always_method_bind. cbn [always mret method_ret app]. apply always_method_bind. cbn [always modify app].
  apply always_method_bind. cbn [always get app]. unfold append_data at 1. cbn [ch_publishRemaining set_publish]. rewrite Hrem.
  match goal with |- context [0 <? ?a] => destruct (Z.ltb_spec 0 a); [lia|] end.
  assert (publish_request namespace (append_data chunk ch) = assembled) as ->.
  { unfold publish_request, assembled, message_from. cbn. by rewrite He, Hr, Hp, Hh, Hd, Hc. }
  intros [e|]; cbn; (split; [done|split; [done|]]); [done|]. intros _. by apply progress_done.
Qed.

Lemma last_served ch data chunk :
  publish_part ch = (channelStateAwaitingBody, (BasicPublish_Exchange f, BasicPublish_RoutingKey f, header_properties h None),
    (ContentHeaderFrame_Headers h, data, Z.of_nat (length (concat [chunk])))) →
  always (handleAMQPv0ChannelContentBody namespace chunk ch) (λ log x, Forall answered log → match x.2 with Ok _ | Err (ChanClose _) => True | _ => False end).
Proof.
  unfold publish_part. intros [= Hst He Hr Hp Hh Hd Hrem]. unfold handleAMQPv0ChannelContentBody. apply always_method_bind.
  cbn [always get app]. cbn [concat] in Hrem. rewrite app_nil_r in Hrem. rewrite Hst, Hrem.
  destruct (Z.ltb_spec (Z.of_nat (length chunk)) (Z.of_nat (length chunk))) as [Hlt|_]; [lia|].
  cbn [guard_not]. apply always_method_bind. cbn [always mret method_ret app]. apply always_method_bind. cbn [always modify app].
  apply always_method_bind. cbn [always get app]. unfold append_data at 1. cbn [ch_publishRemaining set_publish]. rewrite Hrem.
  match goal with |- context [0 <? ?a] => destruct (Z.ltb_spec 0 a); [lia|] end.
  intros [e|]; cbn; [|done]. intros [Hc _]%Forall_cons. by destruct Hc.
Qed.

Context (init : list (list Z)) (final : list Z) (Hchunks : chunks = init ++ [final]) (Hfinal : final ≠ []).

Lemma serve_publish_frame channels ch frame :
  channels !! id = Some ch → publish_frame frame →
  ∃ handler : v0_method unit, serve_event namespace (EventFrame frame) channels = on_open_channel id handler channels ∧
    (ch_state ch = channelStateClosing → handler ch = Ret (ch, Ok ())) ∧
    (∀ f, frame = method_on id (MBasicPublish f) → handler = handleAMQPv0ChannelMethod namespace (MBasicPublish f)) ∧
    (∀ h, frame = FHeader (meta_on id) h → handler = handleAMQPv0ChannelContentHeader h) ∧
    (∀ data, frame = FBody (meta_on id) data → handler = handleAMQPv0ChannelContentBody namespace data).
Proof.
  intros Hch [[f' ->]|[[h' ->]|[data ->]]].
  all: cbn [serve_event method_on MethodFrame_FrameMeta MethodFrame_Method meta_on Channel]; unfold serve_method;
    destruct (Z.eqb_spec id 0); try done.
  all: eexists; (split; [reflexivity|]).
  all: split; [|split; [|split]]; try (intros ? E; discriminate E); try (intros ? [= ->]; reflexivity).
  all: intros Hst; unfold handleAMQPv0ChannelMethod, handleAMQPv0ChannelContentHeader, handleAMQPv0ChannelContentBody, mbind, method_bind, get;
    cbn [prog_bind_aux]; by rewrite Hst.
Qed.

Lemma frame_progress frame frames channels pubs :
  progresses (frame :: frames) pubs [] channels →
  always (serve_event namespace (EventFrame frame) channels) (λ log x, x.2 = Ok () → progresses frames pubs log x.1).
Proof.
  intros (ch & Hch & Hp). unfold publishes at 1 in Hp. cbn [omap list_omap] in Hp. rewrite app_nil_r in Hp.
  remember (frame :: frames) as left eqn:Eleft. destruct Hp as [ch Hp|ch state Hns Hp|ch state data rest last Hns Hp Hd Hl|ch state Hns Hp|left ch state Hns Hst Hfr].
  - injection Eleft as <- <-. destruct (serve_publish_frame channels ch (method_on id (MBasicPublish f))) as (m & -> & _ & Hm & _); [done|left; by eexists|].
    rewrite (Hm f) by done. eapply on_open_channel_ok; [done|]. eapply always_mono; [|by apply publish_progress].
    intros log [ch' r] Hpub. cbn [snd fst] in *. destruct r as [[]|[| |]|]; try done.
    + eexists. split; [apply lookup_insert_eq|]. exact Hpub.
    + destruct Hpub as (state & Hpub & Hns). eexists. split; [apply lookup_insert_eq|]. rewrite publishes_app, Hpub. apply progress_closing; [done|done|].
      apply Forall_cons. split; [right; left; by eexists|]. apply Forall_fmap, Forall_forall. intros data _. right. right. by eexists.
  - injection Eleft as <- <-. destruct (serve_publish_frame channels ch (FHeader (meta_on id) h)) as (m & -> & _ & _ & Hm & _); [done|right; left; by eexists|].
    rewrite (Hm h) by done. eapply on_open_channel_ok; [done|]. eapply always_mono; [|by eapply header_progress].
    intros log [ch' r] (Hpub & [= ->] & Hok). cbn [snd fst]. eexists. split; [apply lookup_insert_eq|]. by rewrite Hpub.
  - destruct rest as [|chunk rest]; injection Eleft as <- <-.
    + destruct (serve_publish_frame channels ch (FBody (meta_on id) last)) as (m & -> & _ & _ & _ & Hm); [done|right; right; by eexists|].
      rewrite (Hm last) by done. eapply on_open_channel_ok; [done|]. eapply always_mono; [|by eapply last_progress].
      intros log [ch' r] (Hpub & Hcc & Hok). cbn [snd fst] in *. destruct r as [[]|[|cf|]|]; [|done|by destruct (Hcc cf)|done..].
      eexists. split; [apply lookup_insert_eq|]. rewrite Hpub. by apply Hok.
    + destruct (serve_publish_frame channels ch (FBody (meta_on id) chunk)) as (m & -> & _ & _ & _ & Hm); [done|right; right; by eexists|].
      rewrite (Hm chunk) by done. eapply on_open_channel_ok; [done|]. eapply always_mono; [|by eapply body_progress].
      intros log [ch' r] (Hpub & [= ->] & Hok). cbn [snd fst]. eexists. split; [apply lookup_insert_eq|]. by rewrite Hpub.
  - discriminate Eleft.
  - subst left. apply Forall_cons in Hfr as [Hf Hfr]. destruct (serve_publish_frame channels ch frame) as (m & -> & Hm & _); [done|done|].
    eapply on_open_channel_ok; [done|]. rewrite Hm by done. cbn. exists ch. split; [apply lookup_insert_eq|]. by apply progress_closing.
Qed.

(** A frame of a message that is not mandatory or immediate ends the connection only with a call that failed. *)
Lemma frame_served frame frames channels pubs :
  BasicPublish_Mandatory f = false → BasicPublish_Immediate f = false → progresses (frame :: frames) pubs [] channels →
  always (serve_event namespace (EventFrame frame) channels) (λ log x, Forall answered log → x.2 = Ok ()).
Proof.
  intros Hman Himm (ch & Hch & Hp). unfold publishes at 1 in Hp. cbn [omap list_omap] in Hp. rewrite app_nil_r in Hp.
  assert (publish_frame frame) as Hframe.
  { clear -Hp. remember (frame :: frames) as left eqn:El. destruct Hp as [| |? ? ? [|chunk rest]| |? ? ? ? ? Hfr]; [..|discriminate El|].
    5: { subst. by apply Forall_cons in Hfr as [? _]. }
    all: injection El as <- _. 1: left. 2: right; left. 3-4: right; right. all: by eexists. }
  destruct (serve_publish_frame channels ch frame Hch Hframe) as (m & -> & Hclosing & Hm & Hhead & Hbody).
  unfold on_open_channel. apply always_method_bind. cbn [always get app]. rewrite Hch. apply on_channel_served.
  remember (frame :: frames) as left eqn:Eleft. destruct Hp as [ch Hp|ch state Hns Hp|ch state data rest last Hns Hp Hd Hl|ch state Hns Hp|left ch state Hns Hst Hfr].
  - injection Eleft as <- <-. rewrite (Hm f) by done. unfold publish_part in Hp. injection Hp as Hst _ _ _ _ _ _.
    unfold handleAMQPv0ChannelMethod. apply always_method_bind. cbn [always get app]. rewrite Hst. unfold handleAMQPv0BasicPublish.
    rewrite Hman, Himm. do 2 (apply always_method_bind; cbn [guard_not always mret method_ret app]). apply always_method_bind.
    eapply always_mono; [|apply find_namespace_always]. intros log x (state & -> & ->). by destruct (FindNamespace state namespace) as [[??]|].
  - injection Eleft as <- <-. rewrite (Hhead h) by done. eapply always_mono; [|by eapply header_progress]. by intros log x (_ & -> & _) _.
  - destruct rest as [|chunk rest]; injection Eleft as <- <-; erewrite Hbody by done.
    + eapply always_mono; [|by apply (last_served ch data last)]. done.
    + eapply always_mono; [|by eapply body_progress]. by intros log x (_ & -> & _) _.
  - discriminate Eleft.
  - rewrite Hclosing by done. done.
Qed.

Lemma events_progress frames events : interleaved frames events → ∀ channels pubs,
  progresses frames pubs [] channels →
  always (serve_events namespace events channels) (λ log x, x.2 = Ok () → progresses [] pubs log x.1).
Proof.
  induction 1 as [|frame frames events _ IH|id' tag response frames events _ IH]; intros channels pubs Hp; cbn [serve_events].
  { by intros _. }
  all: apply always_method_bind; eapply always_mono; [|first [rewrite serve_strip; by eapply frame_progress|by apply delivery_progress]].
  all: intros log [channels' [[]|e|msg]]; cbn [fst snd]; [|done..]; intros Hp'; destruct (Hp' eq_refl) as (ch & Hch & Hpr).
  all: eapply always_mono; [|apply (IH channels' (pubs ++ publishes log)); exists ch; by rewrite app_nil_r].
  all: intros log' x Hok E; destruct (Hok E) as (ch' & Hch' & Hpr'); exists ch'; by rewrite publishes_app, app_assoc.
Qed.

Lemma events_served frames : ∀ channels pubs,
  strip <$> frames = frames → BasicPublish_Mandatory f = false → BasicPublish_Immediate f = false → progresses frames pubs [] channels →
  always (serve_events namespace (EventFrame <$> frames) channels) (λ log x, Forall answered log → x.2 = Ok ()).
Proof.
  induction frames as [|frame frames IH]; intros channels pubs Hstrip Hman Himm Hp; [done|]. injection Hstrip as Hs1 Hs2.
  rewrite fmap_cons. cbn [serve_events]. apply always_method_bind. eapply always_mono; [|apply always_and; [by eapply frame_served|by eapply frame_progress]].
  intros log [channels' [[]|e|msg]] [Hserved Hprog]; cbn [fst snd] in *.
  - destruct (Hprog eq_refl) as (ch & Hch & Hpr). eapply always_mono; [|apply (IH channels' (pubs ++ publishes log)); [done..|]; exists ch; by rewrite app_nil_r].
    intros log' x Hok [_ Hl]%Forall_app. by apply Hok.
  - intros Hl. by specialize (Hserved Hl).
  - intros Hl. by specialize (Hserved Hl).
Qed.

End assembly.

(** ** Theorems *)

(** What the frames of a message came to: the namespace was looked up in one state.  If it is there, one message was
    published, and the channel is ready for the next one; if not, the channel is closing, and nothing was published. *)
Definition frames_outcome (namespace : string) (request : TopicPublishRequest) (log : v0_log) (ch : ServerChannel) : Prop :=
  ∃ state,
    match FindNamespace state namespace with
    | Some _ => publishes log = [Looked state; Asked request] ∧ ch_state ch = channelStateReady ∧ ResetPublish ch = ch
    | None => publishes log = [Looked state] ∧ ch_state ch = channelStateClosing
    end.

(** (C4) A published message is assembled from its frames.  On a channel that is ready, the frames of a message (the
    method, the header, and the body in any number of chunks, the last one not empty and all together of the size in the header) arrive in
    their order, with deliveries to any channel in between.  If the connection is still served after them, the server looked
    at the cluster state once.  If the namespace of the connection is in that state, the broker was then asked to publish exactly one
    message, the one with the data of all chunks and the properties of the header, and the channel is ready for
    the next one; if the namespace is not in that state, the channel is closing and nothing was published.  If the
    frames arrive with no deliveries in between, and the method is neither mandatory nor immediate, the connection is still served unless
    sending a frame or publishing failed. *)
Theorem publish_assembled `{DurationFormat} namespace id f h init final events channels ch :
  id ≠ 0 → channels !! id = Some ch → ch_state ch = channelStateReady → ResetPublish ch = ch →
  ContentHeaderFrame_BodySize h = Z.of_nat (length (concat (init ++ [final]))) → ContentHeaderFrame_BodySize h ≤ MaxInt64 →
  final ≠ [] → interleaved (publish_frames id f h (init ++ [final])) events →
  always (serve_events namespace events channels) (λ log x, x.2 = Ok () → ∃ ch', x.1 !! id = Some ch' ∧
    frames_outcome namespace (assembled namespace f h (init ++ [final])) log ch') ∧
  (BasicPublish_Mandatory f = false → BasicPublish_Immediate f = false →
   always (serve_events namespace (EventFrame <$> publish_frames id f h (init ++ [final])) channels) (λ log x, Forall answered log → x.2 = Ok ())).
Proof.
  intros Hid Hch Hst Hreset Hsize Hmax Hfinal Hi.
  assert (progresses namespace id f h (init ++ [final]) (publish_frames id f h (init ++ [final])) [] [] channels) as Hp0.
  { exists ch. split; [done|]. apply progress_start. unfold publish_part. rewrite Hst, <-Hreset. reflexivity. }
  split.
  2: { intros Hman Himm. eapply (events_served namespace id f h (init ++ [final])); try done.
       unfold publish_frames. rewrite !fmap_cons. do 2 f_equal. unfold body_frames. by rewrite <-list_fmap_compose. }
  eapply always_mono; [|eapply (events_progress namespace id f h (init ++ [final]) Hid Hsize Hmax init final eq_refl Hfinal _ _ Hi channels [])].
  - intros log x Hok E. destruct (Hok E) as (ch' & Hch' & Hp). cbn [app] in Hp. exists ch'. split; [done|].
    inversion Hp as [| |? state data rest last _ _ _ _ Hf|? state [? Hns] Hpart|? ? state Hns Hclosing]; [|exists state; rewrite Hns..].
    + destruct rest; discriminate Hf.
    + unfold publish_part in Hpart. injection Hpart as Q1 Q2 Q3 Q4 Q5 Q6 Q7. split_and!; [done|done|].
      destruct ch'. cbn in *. subst. reflexivity.
    + done.
  - done.
Qed.

Lemma publish_assembled_witness :
  let no_duration : DurationFormat := λ _, Err (ErrNew "") in
  always (serve_events "default" (EventFrame <$> publish_frames 1 example_publish example_header [[1; 2]; [3]]) {[ 1 := new_channel 1 ]})
    (λ log x, x.2 = Ok () → ∃ ch', x.1 !! 1 = Some ch' ∧
      frames_outcome "default" (assembled "default" example_publish example_header [[1; 2]; [3]]) log ch') ∧
  always (serve_events "default" (EventFrame <$> publish_frames 1 example_publish example_header [[1; 2]; [3]]) {[ 1 := new_channel 1 ]})
    (λ log x, Forall answered log → x.2 = Ok ()).
Proof.
  intros no_duration.
  destruct (publish_assembled "default" 1 example_publish example_header [[1; 2]] [3]
    (EventFrame <$> publish_frames 1 example_publish example_header [[1; 2]; [3]]) {[ 1 := new_channel 1 ]} (new_channel 1)) as [H1 H2];
    try reflexivity; try done.
  - by apply interleaved_frames.
  - split; [exact H1|]. by apply H2.
Defined.

(** The channels of a connection are consistent.  After any events (fewer than 2^64), with any answers of the rest of
    the server, and also when the loop has returned: on every open channel the tags of the deliveries that
    are not settled are strictly increasing and at most the last tag, and a channel that is ready or awaits a header has nothing
    left of an earlier message. *)
Theorem serve_channels_inv `{DurationFormat} namespace events :
  Z.of_nat (length events) ≤ MaxUint64 →
  always (serve_events namespace events ∅) (λ _ x, ∀ id ch, x.1 !! id = Some ch → channel_inv (Z.of_nat (length events)) ch).
Proof.
  intros Hk. apply (serve_events_inv namespace events 0 ∅); [done|done|]. intros id ch Hch. by rewrite lookup_empty in Hch.
Qed.

Lemma serve_channels_inv_witness :
  let no_duration : DurationFormat := λ _, Err (ErrNew "") in
  always (serve_events "default" [EventFrame (method_on 1 (MChannelOpen {| ChannelOpen_Reserved1 := "" |}))] ∅)
    (λ _ x, ∀ id ch, x.1 !! id = Some ch → channel_inv 1 ch).
Proof. intros no_duration. apply serve_channels_inv. unfold MaxUint64. cbn. lia. Defined.

(** (C10) Consumers do not outlive their connection.  When the function that serves a connection has returned, or
    panicked, every consumer that was started on it by basic.consume was closed, whatever the events were and in
    whatever way the connection ended. *)
Theorem consumers_closed `{DurationFormat} events :
  always (ServeAMQPv0 events) (λ log r, r ≠ Ok () → ∀ n, v0_started log n → v0_closed log n).
Proof.
  unfold ServeAMQPv0. intros [open|e|msg]; cbn -[serve_loop]; [|by intros _ n ?%elem_of_nil..].
  intros state. match goal with |- context [FindNamespace ?s ?n] => destruct (FindNamespace s n) as [[? ns]|] end.
  2: { intros err. cbn. by intros _ n ?%elem_of_nil. }
  intros [e|]; [cbn; by intros _ c ?%elem_of_nil|]. eapply always_mono; [|apply serve_loop_closes]. intros log r Hc. apply Hc.
Qed.

(** ** What the connection does not do *)

(** A heartbeat of the client is answered, and then the connection ends. *)
Lemma heartbeat_ends_connection `{DurationFormat} namespace events channels :
  always (serve_events namespace (EventFrame (FHeartbeat (meta_on 0)) :: events) channels) (λ log x, ∃ err,
    log = [existT (CallSend (FHeartbeat (meta_on 0))) err] ∧ x = (channels, Err err)).
Proof. cbn [serve_events serve_event]. intros err. by exists err. Qed.

(** The consumer of basic.get is not a consumer of the channel: its message is not returned when the channel is closed. *)
Lemma get_not_registered namespaceName f ch :
  always (handleAMQPv0BasicGet namespaceName f ch) (λ _ x, ch_consumers x.1 = ch_consumers ch).
Proof.
  unfold handleAMQPv0BasicGet. apply always_method_bind. eapply always_mono; [|apply find_namespace_always].
  intros log x (state & -> & ->). destruct (FindNamespace state _) as [[? namespace]|]; [|done]. apply always_method_bind.
  eapply always_mono; [|apply find_queue_always]. intros log x [-> ->]. destruct (FindConsumerGroup _ _) as [[??]|]; [|done].
  cbn -[deliver_message]. intros stream [response|]; [|by intros [|]]. eapply always_mono; [|apply deliver_always].
  intros log [ch' r] [(E & _)|(message & _ & _ & [= -> _])]; [cbn in E; by subst|cbn [fst]; by rewrite track_consumers].
Qed.
