(* ===== verification/AmqpV1.v ===== *)
(** * AMQP 1.0: types

    The encodings of primitive types, maps, lists and arrays (src/mq/amqp/v1/marshal.go and unmarshal.go).
    A slice that can be nil is an option where the code tells nil from empty.  The nesting that the decoder of
    values can still follow is its argument; the callers give it one more than the bytes they have. *)
From Stdlib Require Import Ascii Floats.SpecFloat.
From S2P Require Import Prelude Emq Bytes AmqpValues.

(** [t.Format(...)] of a time in the zone of the machine. *)
Class TimeFormat : Type := time_Format : Z → string.

(** ** Constructors *)

Definition DescriptorEncoding : Z := 0.
Definition NullEncoding : Z := 64.
Definition BooleanEncoding : Z := 86.
Definition BooleanTrueEncoding : Z := 65.
Definition BooleanFalseEncoding : Z := 66.
Definition UbyteEncoding : Z := 80.
Definition UshortEncoding : Z := 96.
Definition UintEncoding : Z := 112.
Definition UintSmalluintEncoding : Z := 82.
Definition Uint0Encoding : Z := 67.
Definition UlongEncoding : Z := 128.
Definition UlongSmallulongEncoding : Z := 83.
Definition Ulong0Encoding : Z := 68.
Definition ByteEncoding : Z := 81.
Definition ShortEncoding : Z := 97.
Definition IntEncoding : Z := 113.
Definition IntSmallintEncoding : Z := 84.
Definition LongEncoding : Z := 129.
Definition LongSmalllongEncoding : Z := 85.
Definition FloatIeee754Encoding : Z := 114.
Definition DoubleIeee754Encoding : Z := 130.
Definition Decimal32Ieee754Encoding : Z := 116.
Definition Decimal64Ieee754Encoding : Z := 132.
Definition Decimal128Ieee754Encoding : Z := 148.
Definition CharUtf32Encoding : Z := 115.
Definition TimestampMs64Encoding : Z := 131.
Definition UUIDEncoding : Z := 152.
Definition BinaryVbin8Encoding : Z := 160.
Definition BinaryVbin32Encoding : Z := 176.
Definition StringStr8Utf8Encoding : Z := 161.
Definition StringStr32Utf8Encoding : Z := 177.
Definition SymbolSym8Encoding : Z := 163.
Definition SymbolSym32Encoding : Z := 179.
Definition List0Encoding : Z := 69.
Definition List8Encoding : Z := 192.
Definition List32Encoding : Z := 208.
Definition Map8Encoding : Z := 193.
Definition Map32Encoding : Z := 209.
Definition Array8Encoding : Z := 224.
Definition Array32Encoding : Z := 240.

(** ** Encoding *)

Definition marshalNull : list Z := [NullEncoding].
Definition marshalBoolean (src : bool) : list Z := [if src then BooleanTrueEncoding else BooleanFalseEncoding].
Definition marshalUbyte (src : Z) : list Z := [UbyteEncoding; src].
Definition marshalByte (src : Z) : list Z := [ByteEncoding; u8 src].
Definition marshalUshort (src : Z) : list Z := UshortEncoding :: put_be 2 src.
Definition marshalShort (src : Z) : list Z := ShortEncoding :: put_be 2 (u16 src).

Definition marshalUint (src : Z) : list Z :=
  if src =? 0 then [Uint0Encoding]
  else if src <=? MaxUint8 then [UintSmalluintEncoding; src]
  else UintEncoding :: put_be 4 src.

Definition is_int8 (src : Z) : bool := (- 2 ^ 7 <=? src) && (src <? 2 ^ 7).

Definition marshalInt (src : Z) : list Z :=
  if is_int8 src then [IntSmallintEncoding; u8 src] else IntEncoding :: put_be 4 (u32 src).

Definition marshalUlong (src : Z) : list Z :=
  if src =? 0 then [Ulong0Encoding]
  else if src <=? MaxUint8 then [UlongSmallulongEncoding; src]
  else UlongEncoding :: put_be 8 src.

Definition marshalLong (src : Z) : list Z :=
  if is_int8 src then [LongSmalllongEncoding; u8 src] else LongEncoding :: put_be 8 (u64 src).

Definition marshalDouble (src : spec_float) : list Z := DoubleIeee754Encoding :: put_be 8 (f64_bits src).
Definition marshalChar (src : Z) : list Z := CharUtf32Encoding :: put_be 4 (u32 src).

(** [t.UnixNano()] *)
Definition UnixNano (t : Z) : Z := i64 (t - unixToInternal * 10 ^ 9).

Definition marshalTimestamp (src : Z) : list Z :=
  let millis := UnixNano src `quot` 1000000 in
  TimestampMs64Encoding :: (if 0 <? millis then put_be 8 (u64 millis) else put_be 8 0).

Definition marshalUUID (src : list Z) : list Z := UUIDEncoding :: src.

(** A length of one byte, or of four, before the contents. *)
Definition marshal_var (enc8 enc32 : Z) (bytes : list Z) : list Z :=
  let l := Z.of_nat (length bytes) in
  if l <=? MaxUint8 then enc8 :: u8 l :: bytes else enc32 :: put_be 4 (u32 l) ++ bytes.

Definition marshalBinary (src : list Z) : list Z := marshal_var BinaryVbin8Encoding BinaryVbin32Encoding src.
Definition marshalString (src : string) : list Z := marshal_var StringStr8Utf8Encoding StringStr32Utf8Encoding (string_bytes src).

(** The constructor of a long symbol is that of a short one. *)
Definition marshalSymbol (src : string) : list Z := marshal_var SymbolSym8Encoding SymbolSym8Encoding (string_bytes src).

(** The header of a compound: the constructor, the size of the items with the count, and the count. *)
Definition marshal_compound (enc8 enc32 count : Z) (items : list Z) : list Z :=
  let l := Z.of_nat (length items) in
  (if (l + 1 <=? MaxUint8) && (count <=? MaxUint8) then [enc8; u8 (l + 1); u8 count]
   else enc32 :: put_be 4 (u32 (l + 4)) ++ put_be 4 (u32 count)) ++ items.

Section MarshalValue.

Context (marshalValue : Value → writer).

Fixpoint marshal_map_items (fields : list (string * Value)) : writer :=
  match fields with
  | [] => Ok []
  | (key, value) :: fields =>
    Ok (marshalString key) +++ Wrap ("marshal map item " ++ key ++ " value failed") (marshalValue value) +++
    marshal_map_items fields
  end.

Definition marshal_map (fields : list (string * Value)) : writer :=
  items ← marshal_map_items fields;
  Ok (marshal_compound Map8Encoding Map32Encoding (2 * Z.of_nat (length fields)) items).

Fixpoint marshal_list_items (values : list Value) : writer :=
  match values with
  | [] => Ok []
  | value :: values => Wrap "marshal list item at index %d failed" (marshalValue value) +++ marshal_list_items values
  end.

Definition marshal_list (values : list Value) : writer :=
  match values with
  | [] => Ok [List0Encoding]
  | _ =>
    items ← marshal_list_items values;
    Ok (marshal_compound List8Encoding List32Encoding (Z.of_nat (length values)) items)
  end.

End MarshalValue.

Definition marshalNumber (number : spec_float) : list Z :=
  if f64_is_int number then
    let intValue := f64_int64 number in
    if is_int8 intValue then marshalByte intValue
    else if (- 2 ^ 15 <=? intValue) && (intValue <? 2 ^ 15) then marshalShort intValue
    else if (- 2 ^ 31 <=? intValue) && (intValue <? 2 ^ 31) then marshalInt intValue
    else marshalLong intValue
  else marshalDouble number.

Fixpoint marshalValue (src : Value) : writer :=
  match src with
  | NullValue => Ok marshalNull
  | NumberValue number => Ok (marshalNumber number)
  | StringValue s => Ok (marshalString s)
  | BoolValue b => Ok (marshalBoolean b)
  | StructValue None | StructValue (Some (MkStruct None)) => Ok [Map8Encoding; 0]
  | StructValue (Some (MkStruct (Some fields))) => marshal_map marshalValue fields
  | ListValue None => Ok [List0Encoding]
  | ListValue (Some values) => marshal_list marshalValue values
  | KindNil => Err (ErrNew "unhandled kind %T")
  end.

Definition marshalMap (src : option Struct) : writer := marshalValue (StructValue src).

(** [marshalSymbolArray] and [marshalIETFLanguageTagArray]: lengths of one byte when the longest symbol allows it. *)
Definition symbols_max (src : list string) : Z := foldr (λ s max, Z.max (Z.of_nat (String.length s)) max) 0 src.

Definition marshal_symbol_item (max : Z) (s : string) : list Z :=
  let l := Z.of_nat (String.length s) in
  (if max <=? MaxUint8 then [u8 l] else put_be 4 (u32 l)) ++ string_bytes s.

Definition marshalSymbolArray (src : option (list string)) : list Z :=
  match src with
  | None => marshalNull
  | Some src =>
    let max := symbols_max src in
    let items := concat (marshal_symbol_item max <$> src) in
    let l := Z.of_nat (length items) in
    let count := Z.of_nat (length src) in
    (if (l + 2 <=? MaxUint8) && (count <=? MaxUint8) then [Array8Encoding; u8 (l + 2); u8 count]
     else Array32Encoding :: put_be 4 (u32 (l + 5)) ++ put_be 4 (u32 count)) ++
    [if max <=? MaxUint8 then SymbolSym8Encoding else SymbolSym32Encoding] ++ items
  end.

(** ** Decoding primitive types *)

Definition unexpected {A} (kind : string) : decoder A :=
  read_fail (ErrNew ("unmarshal " ++ kind ++ " failed: unexpected constructor 0x%02x")).

Definition failed (kind : string) : string := "unmarshal " ++ kind ++ " failed".

(** [if buf.Len() < n { underflow }; buf.Next(n)] *)
Definition take_n (kind : string) (n : Z) : decoder (list Z) := BufNext (failed kind ++ ": buffer underflow") n.

Definition unmarshalBoolean (constructor : Z) : decoder bool :=
  if constructor =? NullEncoding then mret false
  else if constructor =? BooleanEncoding then v ← ReadByte (failed "boolean"); mret (negb (v =? 0))
  else if constructor =? BooleanTrueEncoding then mret true
  else if constructor =? BooleanFalseEncoding then mret false
  else unexpected "boolean".

Definition unmarshalUbyte (constructor : Z) : decoder Z :=
  if constructor =? NullEncoding then mret 0
  else if constructor =? UbyteEncoding then ReadByte (failed "ubyte")
  else unexpected "ubyte".

Definition unmarshalByte (constructor : Z) : decoder Z :=
  if constructor =? NullEncoding then mret 0
  else if constructor =? ByteEncoding then v ← ReadByte (failed "byte"); mret (signed 8 v)
  else unexpected "byte".

Definition unmarshalUshort (constructor : Z) : decoder Z :=
  if constructor =? NullEncoding then mret 0
  else if constructor =? UshortEncoding then x ← take_n "ushort" 2; mret (get_be x)
  else unexpected "ushort".

Definition unmarshalShort (constructor : Z) : decoder Z :=
  if constructor =? NullEncoding then mret 0
  else if constructor =? ShortEncoding then x ← take_n "short" 2; mret (signed 16 (get_be x))
  else unexpected "short".

Definition unmarshalUint (constructor : Z) : decoder Z :=
  if constructor =? NullEncoding then mret 0
  else if constructor =? Uint0Encoding then mret 0
  else if constructor =? UintSmalluintEncoding then ReadByte (failed "uint")
  else if constructor =? UintEncoding then x ← take_n "uint" 4; mret (get_be x)
  else unexpected "uint".

Definition unmarshalInt (constructor : Z) : decoder Z :=
  if constructor =? NullEncoding then mret 0
  else if constructor =? IntSmallintEncoding then v ← ReadByte (failed "int"); mret (signed 8 v)
  else if constructor =? IntEncoding then x ← take_n "int" 4; mret (signed 32 (get_be x))
  else unexpected "int".

Definition unmarshalUlong (constructor : Z) : decoder Z :=
  if constructor =? NullEncoding then mret 0
  else if constructor =? Ulong0Encoding then mret 0
  else if constructor =? UlongSmallulongEncoding then ReadByte (failed "ulong")
  else if constructor =? UlongEncoding then x ← take_n "ulong" 8; mret (get_be x)
  else unexpected "ulong".

Definition unmarshalLong (constructor : Z) : decoder Z :=
  if constructor =? NullEncoding then mret 0
  else if constructor =? LongSmalllongEncoding then v ← ReadByte (failed "long"); mret (signed 8 v)
  else if constructor =? LongEncoding then x ← take_n "long" 8; mret (i64 (get_be x))
  else unexpected "long".

(** [float64(v)] of the float32 that was read. *)
Definition unmarshalFloat (constructor : Z) : decoder spec_float :=
  if constructor =? NullEncoding then mret (S754_zero false)
  else if constructor =? FloatIeee754Encoding then x ← take_n "float" 4; mret (f64_from_f32bits (get_be x))
  else unexpected "float".

Definition unmarshalDouble (constructor : Z) : decoder spec_float :=
  if constructor =? NullEncoding then mret (S754_zero false)
  else if constructor =? DoubleIeee754Encoding then x ← take_n "double" 8; mret (f64_frombits (get_be x))
  else unexpected "double".

Definition unmarshalChar (constructor : Z) : decoder Z :=
  if constructor =? NullEncoding then mret 0
  else if constructor =? CharUtf32Encoding then x ← take_n "char" 4; mret (signed 32 (get_be x))
  else unexpected "char".

(** [time.Unix(sec, nsec)] for nanoseconds between minus and plus one second. *)
Definition time_UnixNano (sec nsec : Z) : Z :=
  if nsec <? 0 then i64 (sec - 1 + unixToInternal) * 10 ^ 9 + (nsec + 10 ^ 9)
  else i64 (sec + unixToInternal) * 10 ^ 9 + nsec.

Definition unmarshalTimestamp (constructor : Z) : decoder Z :=
  if constructor =? NullEncoding then mret 0
  else if constructor =? TimestampMs64Encoding then
    x ← take_n "timestamp" 8;
    let millis := i64 (get_be x) in
    mret (time_UnixNano (millis `quot` 1000) (millis `rem` 1000 * 1000 * 1000))
  else unexpected "timestamp".

Definition unmarshalUUID (constructor : Z) : decoder (list Z) :=
  if constructor =? NullEncoding then mret (replicate 16 0)
  else if constructor =? UUIDEncoding then take_n "uuid" 16
  else unexpected "uuid".

(** A length of one byte, or of four, and as many bytes; [None] is the null constructor. *)
Definition unmarshal_var (kind : string) (enc8 enc32 constructor : Z) : decoder (option (list Z)) :=
  if constructor =? NullEncoding then mret None
  else if constructor =? enc8 then l ← ReadByte (failed kind); data ← take_n kind l; mret (Some data)
  else if constructor =? enc32 then x ← take_n kind 4; data ← take_n kind (get_be x); mret (Some data)
  else unexpected kind.

Definition unmarshalBinary (constructor : Z) : decoder (option (list Z)) :=
  unmarshal_var "binary" BinaryVbin8Encoding BinaryVbin32Encoding constructor.

Definition unmarshalString (constructor : Z) : decoder string :=
  data ← unmarshal_var "string" StringStr8Utf8Encoding StringStr32Utf8Encoding constructor;
  mret (bytes_string (default [] data)).

Definition unmarshalSymbol (constructor : Z) : decoder string :=
  data ← unmarshal_var "symbol" SymbolSym8Encoding SymbolSym32Encoding constructor;
  mret (bytes_string (default [] data)).

(** ** Strings for values that have no kind of their own *)

Definition hex_char (d : Z) : Z := if d <? 10 then 48 + d else 87 + d.
Definition hex_bytes (l : list Z) : list Z := concat ((λ b, [hex_char (b / 16); hex_char (b mod 16)]) <$> l).

Definition UUID_String (u : list Z) : string :=
  bytes_string (hex_bytes (take 4 u) ++ [45] ++ hex_bytes (take 2 (drop 4 u)) ++ [45] ++
    hex_bytes (take 2 (drop 6 u)) ++ [45] ++ hex_bytes (take 2 (drop 8 u)) ++ [45] ++ hex_bytes (drop 10 u)).

(** [base64.StdEncoding.EncodeToString] *)
Definition base64_char (d : Z) : Z :=
  if d <? 26 then 65 + d else if d <? 52 then 71 + d else if d <? 62 then d - 4 else if d =? 62 then 43 else 47.

Fixpoint base64_bytes (l : list Z) : list Z :=
  match l with
  | a :: b :: c :: l =>
    base64_char (a / 4) :: base64_char (a mod 4 * 16 + b / 16) :: base64_char (b mod 16 * 4 + c / 64) ::
      base64_char (c mod 64) :: base64_bytes l
  | [a; b] => [base64_char (a / 4); base64_char (a mod 4 * 16 + b / 16); base64_char (b mod 16 * 4); 61]
  | [a] => [base64_char (a / 4); base64_char (a mod 4 * 16); 61; 61]
  | [] => []
  end.

Definition base64 (l : list Z) : string := bytes_string (base64_bytes l).

Example base64_example : base64 (string_bytes "light work.") = "bGlnaHQgd29yay4="%string.
Proof. by vm_compute. Qed.

Example UUID_example : UUID_String [18; 62; 69; 103; 232; 155; 18; 211; 164; 86; 66; 102; 20; 23; 64; 0] = "123e4567-e89b-12d3-a456-426614174000"%string.
Proof. by vm_compute. Qed.

(** ** Decoding compounds *)

(** A decoder on a buffer of its own; what it leaves is dropped. *)
Definition within {A} (m : decoder A) (data : list Z) : decoder A := lift_result ('(a, _) ← m data; Ok a).

Definition WrapD {A} (msg : string) (m : decoder A) : decoder A := λ buf, Wrap msg (m buf).

(** [buf.Next(n)] without a check: as many bytes as there are, and a panic for a negative [n]. *)
Definition next_n (n : Z) : decoder (list Z) := λ buf,
  if n <? 0 then Panic "slice bounds out of range" else Ok (take (Z.to_nat n) buf, drop (Z.to_nat n) buf).

(** The size or the count of a map or a list, one byte or four by the constructor. *)
Definition sized_int (msg8 msg32 : string) (enc8 constructor : Z) : decoder Z :=
  if constructor =? enc8 then ReadByte msg8 else x ← BufNext msg32 4; mret (get_be x).

Definition compound_size (kind : string) : Z → Z → decoder Z := sized_int (failed kind) (failed kind ++ ": buffer underflow").

Section Compounds.

Context (unmarshalValue : decoder Value) (unmarshalValueWithConstructor : Z → decoder Value).

Fixpoint map_items (n : nat) (fields : list (string * Value)) : decoder (list (string * Value)) :=
  match n with
  | O => mret fields
  | S n =>
    key ← WrapD "unmarshal map item %d failed" unmarshalValue;
    match key with
    | StringValue key =>
      value ← WrapD ("unmarshal map item %d (key " ++ key ++ ") failed") unmarshalValue;
      map_items n (set_field key value fields)
    | _ => read_fail (ErrNew "unmarshal map item %d failed: non-string key %T")
    end
  end.

Definition map_contents (constructor : Z) : decoder (list (string * Value)) :=
  count ← compound_size "map" Map8Encoding constructor;
  if negb (count mod 2 =? 0) then read_fail (ErrNew "unmarshal map failed: must have even number of elements, got %d")
  else map_items (Z.to_nat (count / 2)) [].

Definition unmarshal_map (constructor : Z) : decoder (option Struct) :=
  if constructor =? NullEncoding then mret None
  else if (constructor =? Map8Encoding) || (constructor =? Map32Encoding) then
    size ← compound_size "map" Map8Encoding constructor;
    if size =? 0 then mret (Some (MkStruct (Some [])))
    else
      data ← take_n "map" size;
      fields ← within (map_contents constructor) data;
      mret (Some (MkStruct (Some fields)))
  else unexpected "map".

Fixpoint list_items (msg : string) (item : decoder Value) (n : nat) : decoder (list Value) :=
  match n with
  | O => mret []
  | S n =>
    value ← WrapD msg item;
    values ← list_items msg item n;
    mret (value :: values)
  end.

Definition list_contents (constructor : Z) : decoder (list Value) :=
  count ← compound_size "list" List8Encoding constructor;
  list_items "unmarshal list item %d failed" unmarshalValue (Z.to_nat count).

Definition unmarshalList (constructor : Z) : decoder (list Value) :=
  if constructor =? List0Encoding then mret []
  else if (constructor =? List8Encoding) || (constructor =? List32Encoding) then
    size ← compound_size "list" List8Encoding constructor;
    data ← take_n "list" size;
    within (list_contents constructor) data
  else unexpected "list".

(** The size, the count and the items of an array with their constructor. *)
Definition array_parts (kind : string) (constructor : Z) : decoder (Z * list Z) :=
  if constructor =? Array8Encoding then
    size ← ReadByte (failed kind);
    count ← ReadByte (failed kind);
    data ← next_n (size - 1);
    mret (count, data)
  else
    x ← take_n kind 8;
    data ← next_n (get_be (take 4 x) - 4);
    mret (get_be (drop 4 x), data).

Definition array_contents (count : Z) : decoder (list Value) :=
  valueConstructor ← ReadByte (failed "array");
  list_items "unmarshal array item %d failed" (unmarshalValueWithConstructor valueConstructor) (Z.to_nat count).

Definition unmarshalArray (constructor : Z) : decoder (option (list Value)) :=
  if constructor =? NullEncoding then mret None
  else if (constructor =? Array8Encoding) || (constructor =? Array32Encoding) then
    '(count, data) ← array_parts "array" constructor;
    if count =? 0 then mret (Some []) else values ← within (array_contents count) data; mret (Some values)
  else unexpected "array".

End Compounds.

(** [unmarshalSymbolArray] and [unmarshalIETFLanguageTagArray] *)
Fixpoint symbol_items (constructor : Z) (n : nat) : decoder (list string) :=
  match n with
  | O => mret []
  | S n =>
    s ← WrapD "unmarshal symbol array item %d failed" (unmarshalSymbol constructor);
    l ← symbol_items constructor n;
    mret (s :: l)
  end.

Definition symbol_contents (count : Z) : decoder (list string) :=
  valueConstructor ← ReadByte (failed "symbol array");
  symbol_items valueConstructor (Z.to_nat count).

Definition unmarshalSymbolArray (constructor : Z) : decoder (option (list string)) :=
  if constructor =? NullEncoding then mret None
  else if (constructor =? Array8Encoding) || (constructor =? Array32Encoding) then
    '(count, data) ← array_parts "symbol array" constructor;
    if count =? 0 then mret (Some []) else l ← within (symbol_contents count) data; mret (Some l)
  else unexpected "symbol array".

(** ** Decoding values *)

Section Values.

Context `{TimeFormat}.

Definition number {A} (f : A → spec_float) (m : decoder A) : decoder Value :=
  v ← WrapD "unmarshal value failed" m; mret (NumberValue (f v)).

Definition text {A} (f : A → string) (m : decoder A) : decoder Value :=
  v ← WrapD "unmarshal value failed" m; mret (StringValue (f v)).

Definition one_of (l : list Z) (constructor : Z) : bool := existsb (Z.eqb constructor) l.

(** The constructors of the types that hold no other value. *)
Definition unmarshal_primitive (constructor : Z) : option (decoder Value) :=
  if constructor =? NullEncoding then Some (mret NullValue)
  else if one_of [BooleanEncoding; BooleanFalseEncoding; BooleanTrueEncoding] constructor then
    Some (v ← WrapD "unmarshal value failed" (unmarshalBoolean constructor); mret (BoolValue v))
  else if constructor =? UbyteEncoding then Some (number f64_of_Z (unmarshalUbyte constructor))
  else if constructor =? ByteEncoding then Some (number f64_of_Z (unmarshalByte constructor))
  else if constructor =? UshortEncoding then Some (number f64_of_Z (unmarshalUshort constructor))
  else if constructor =? ShortEncoding then Some (number f64_of_Z (unmarshalShort constructor))
  else if one_of [Uint0Encoding; UintSmalluintEncoding; UintEncoding] constructor then
    Some (number f64_of_Z (unmarshalUint constructor))
  else if one_of [IntSmallintEncoding; IntEncoding] constructor then Some (number f64_of_Z (unmarshalInt constructor))
  else if one_of [Ulong0Encoding; UlongSmallulongEncoding; UlongEncoding] constructor then
    Some (number f64_of_Z (unmarshalUlong constructor))
  else if one_of [LongSmalllongEncoding; LongEncoding] constructor then Some (number f64_of_Z (unmarshalLong constructor))
  else if constructor =? FloatIeee754Encoding then Some (number id (unmarshalFloat constructor))
  else if constructor =? DoubleIeee754Encoding then Some (number id (unmarshalDouble constructor))
  else if one_of [Decimal32Ieee754Encoding; Decimal64Ieee754Encoding; Decimal128Ieee754Encoding] constructor then
    Some (read_fail (ErrNew "unmarshal value failed: decimals not implemented"))
  else if constructor =? CharUtf32Encoding then Some (number f64_of_Z (unmarshalChar constructor))
  else if constructor =? TimestampMs64Encoding then Some (text time_Format (unmarshalTimestamp constructor))
  else if constructor =? UUIDEncoding then Some (text UUID_String (unmarshalUUID constructor))
  else if one_of [BinaryVbin8Encoding; BinaryVbin32Encoding] constructor then
    Some (text (λ v, base64 (default [] v)) (unmarshalBinary constructor))
  else if one_of [StringStr8Utf8Encoding; StringStr32Utf8Encoding] constructor then Some (text id (unmarshalString constructor))
  else if one_of [SymbolSym8Encoding; SymbolSym32Encoding] constructor then Some (text id (unmarshalSymbol constructor))
  else None.

(** [unmarshalValue], given the decoder for a constructor. *)
Definition read_value (withConstructor : Z → decoder Value) : decoder Value :=
  constructor ← ReadByte "read constructor failed"; withConstructor constructor.

Fixpoint unmarshalValueWithConstructor (nesting : nat) (constructor : Z) : decoder Value :=
  match nesting with
  | O => λ _, Panic "out of fuel"
  | S nesting =>
    match unmarshal_primitive constructor with
    | Some m => m
    | None =>
      let item := read_value (unmarshalValueWithConstructor nesting) in
      if one_of [List0Encoding; List8Encoding; List32Encoding] constructor then
        v ← WrapD "unmarshal value failed" (unmarshalList item constructor); mret (ListValue (Some v))
      else if one_of [Map8Encoding; Map32Encoding] constructor then
        v ← WrapD "unmarshal value failed" (unmarshal_map item constructor); mret (StructValue v)
      else if one_of [Array8Encoding; Array32Encoding] constructor then
        v ← WrapD "unmarshal value failed" (unmarshalArray (unmarshalValueWithConstructor nesting) constructor);
        mret (ListValue v)
      else read_fail (ErrNew "unmarshal value failed: unexpected constructor 0x%02x")
    end
  end.

Definition unmarshalValue (nesting : nat) : decoder Value := read_value (unmarshalValueWithConstructor nesting).

(** The decoder of maps for the fields of composites: every nesting that the bytes allow. *)
Definition unmarshalMap (constructor : Z) : decoder (option Struct) := λ buf,
  unmarshal_map (unmarshalValue (S (length buf))) constructor buf.

End Values.
