(* ===== verification/AmqpV1Laws.v ===== *)
(** * AMQP 1.0: decoding undoes encoding

    The laws of the primitive types, of symbol arrays and of header values, and that decoding a value never
    exhausts the nesting it is given. *)
From Stdlib Require Import Floats.SpecFloat.
From S2P Require Import Prelude Emq Bytes AmqpValues AmqpV1.

(** [bytes] are a constructor with contents from which the decoder [u] of that constructor reads [a]. *)
Definition con_law {A} (bytes : list Z) (u : Z → decoder A) (a : A) : Prop :=
  ∃ c l, bytes = c :: l ∧ ∀ rest, u c (l ++ rest) = Ok (a, rest).

Lemma take_n_app kind n l rest : Z.of_nat (length l) = n → take_n kind n (l ++ rest) = Ok (l, rest).
Proof. intros <-. apply BufNext_app. Qed.

Lemma buf_be_app msg k n v rest :
  n = Z.of_nat k → 0 ≤ v < 2 ^ (8 * n) → (x ← BufNext msg n; mret (get_be x)) (put_be k v ++ rest) = Ok (v, rest).
Proof.
  intros -> Hv. rewrite <- (length_put_be k v) at 1. erewrite decoder_bind_Ok by apply BufNext_app. by rewrite get_put_be_small.
Qed.

Lemma take_be_app kind k n v rest :
  n = Z.of_nat k → 0 ≤ v < 2 ^ (8 * n) → (x ← take_n kind n; mret (get_be x)) (put_be k v ++ rest) = Ok (v, rest).
Proof.
  intros -> Hv. erewrite decoder_bind_Ok by (apply take_n_app; by rewrite length_put_be). by rewrite get_put_be_small.
Qed.

Lemma take_be_map {A} kind k n v rest (f : Z → A) :
  n = Z.of_nat k → 0 ≤ v < 2 ^ (8 * n) → (x ← take_n kind n; mret (f (get_be x))) (put_be k v ++ rest) = Ok (f v, rest).
Proof.
  intros -> Hv. erewrite decoder_bind_Ok by (apply take_n_app; by rewrite length_put_be). by rewrite get_put_be_small.
Qed.

(** *** Primitive types *)

Lemma con_boolean b : con_law (marshalBoolean b) unmarshalBoolean b.
Proof. eexists _, _. split; [done|]. by destruct b. Qed.

Lemma con_ubyte v : con_law (marshalUbyte v) unmarshalUbyte v.
Proof. by eexists _, _. Qed.

Lemma is_int8_range v : is_int8 v = true ↔ - 2 ^ 7 ≤ v < 2 ^ 7.
Proof. unfold is_int8. rewrite andb_true_iff, Z.leb_le, Z.ltb_lt. done. Qed.

Lemma con_byte v : is_int8 v = true → con_law (marshalByte v) unmarshalByte v.
Proof.
  intros Hv%is_int8_range. eexists _, _. split; [done|]. intros rest.
  change (Ok (signed 8 (v mod 2 ^ 8), rest) = Ok (E := go_error) (v, rest)). by rewrite signed_wrap.
Qed.

Lemma con_ushort v : 0 ≤ v < 2 ^ 16 → con_law (marshalUshort v) unmarshalUshort v.
Proof. intros Hv. eexists _, _. split; [done|]. intros rest. by apply take_be_app. Qed.

Lemma con_short v : - 2 ^ 15 ≤ v < 2 ^ 15 → con_law (marshalShort v) unmarshalShort v.
Proof.
  intros Hv. eexists _, _. split; [done|]. intros rest. unfold unmarshalShort. cbn [Z.eqb Pos.eqb ShortEncoding NullEncoding].
  rewrite take_be_map; [|done|by apply mod_range]. unfold u16, wrap. by rewrite signed_wrap.
Qed.

Lemma con_uint v : 0 ≤ v < 2 ^ 32 → con_law (marshalUint v) unmarshalUint v.
Proof.
  intros Hv. unfold marshalUint, MaxUint8. destruct (Z.eqb_spec v 0) as [->|]; [by eexists _, _|].
  destruct (Z.leb_spec v 255); [by eexists _, _|]. eexists _, _. split; [done|]. intros rest. by apply take_be_app.
Qed.

Lemma con_ulong v : 0 ≤ v < 2 ^ 64 → con_law (marshalUlong v) unmarshalUlong v.
Proof.
  intros Hv. unfold marshalUlong, MaxUint8. destruct (Z.eqb_spec v 0) as [->|]; [by eexists _, _|].
  destruct (Z.leb_spec v 255); [by eexists _, _|]. eexists _, _. split; [done|]. intros rest. by apply take_be_app.
Qed.

Lemma con_int v : - 2 ^ 31 ≤ v < 2 ^ 31 → con_law (marshalInt v) unmarshalInt v.
Proof.
  intros Hv. unfold marshalInt. destruct (is_int8 v) eqn:E; (eexists _, _; split; [done|]; intros rest).
  - apply is_int8_range in E. change (Ok (signed 8 (v mod 2 ^ 8), rest) = Ok (E := go_error) (v, rest)). by rewrite signed_wrap.
  - unfold unmarshalInt. cbn [Z.eqb Pos.eqb IntEncoding IntSmallintEncoding NullEncoding].
    rewrite take_be_map; [|done|by apply mod_range]. unfold u32, wrap. by rewrite signed_wrap.
Qed.

Lemma con_long v : - 2 ^ 63 ≤ v < 2 ^ 63 → con_law (marshalLong v) unmarshalLong v.
Proof.
  intros Hv. unfold marshalLong. destruct (is_int8 v) eqn:E; (eexists _, _; split; [done|]; intros rest).
  - apply is_int8_range in E. change (Ok (signed 8 (v mod 2 ^ 8), rest) = Ok (E := go_error) (v, rest)). by rewrite signed_wrap.
  - unfold unmarshalLong. cbn [Z.eqb Pos.eqb LongEncoding LongSmalllongEncoding NullEncoding].
    rewrite take_be_map; [|done|by apply mod_range]. unfold u64, i64, wrap. by rewrite signed_wrap.
Qed.

Lemma con_double f : f64_ok f = true → con_law (marshalDouble f) unmarshalDouble f.
Proof.
  intros Hf. eexists _, _. split; [done|]. intros rest. unfold unmarshalDouble.
  cbn [Z.eqb Pos.eqb DoubleIeee754Encoding NullEncoding].
  rewrite take_be_map; [|done|by apply f64_bits_range]. by rewrite f64_frombits_bits.
Qed.

Lemma con_uuid u : length u = 16%nat → con_law (marshalUUID u) unmarshalUUID u.
Proof. intros Hu. eexists _, _. split; [done|]. intros rest. by apply take_n_app; rewrite Hu. Qed.

(** A time of whole milliseconds from 1970 on. *)
Definition is_millis (t : Z) : Prop := ∃ millis, 0 ≤ millis < 2 ^ 63 / 1000000 ∧ t = (unixToInternal * 1000 + millis) * 1000000.

Lemma con_timestamp t : is_millis t → con_law (marshalTimestamp t) unmarshalTimestamp t.
Proof.
  intros (ms & Hms & ->). assert (ms < 9223372036855) as Hms' by (change (2 ^ 63 / 1000000) with 9223372036854 in Hms; lia).
  eexists _, _. split; [done|]. intros rest.
  assert (UnixNano ((unixToInternal * 1000 + ms) * 1000000) `quot` 1000000 = ms) as ->.
  { unfold UnixNano, i64. rewrite (signed_unique 64 (ms * 1000000)); [by apply Z.quot_mul|done| |f_equal; lia].
    change (2 ^ 63 / 1000000) with 9223372036854 in Hms. lia. }
  assert ((if 0 <? ms then put_be 8 (u64 ms) else put_be 8 0) = put_be 8 ms) as ->.
  { destruct (Z.ltb_spec 0 ms); [|by replace ms with 0 by lia]. unfold u64, wrap. by rewrite Z.mod_small by lia. }
  unfold unmarshalTimestamp. cbn [Z.eqb Pos.eqb TimestampMs64Encoding NullEncoding].
  erewrite decoder_bind_Ok by (apply take_n_app; by rewrite length_put_be).
  rewrite get_put_be_small by lia. cbv zeta. unfold mret, decoder_ret. do 2 f_equal.
  unfold i64. rewrite (signed_unique 64 ms) by (done || lia). unfold time_UnixNano.
  rewrite Z.quot_div_nonneg, Z.rem_mod_nonneg by lia. pose proof (Z.div_mod ms 1000 ltac:(lia)).
  pose proof (Z.mod_pos_bound ms 1000 ltac:(lia)). pose proof (Z.div_pos ms 1000 ltac:(lia) ltac:(lia)).
  destruct (Z.ltb_spec (ms mod 1000 * 1000 * 1000) 0); [lia|].
  unfold i64. rewrite (signed_unique 64 (ms / 1000 + unixToInternal)); [lia|done| |done]. unfold unixToInternal. lia.
Qed.

(** *** Binaries, strings and symbols *)

Lemma con_var kind enc8 enc32 bytes :
  NullEncoding ≠ enc8 → NullEncoding ≠ enc32 → (enc8 = enc32 → Z.of_nat (length bytes) ≤ MaxUint8) →
  Z.of_nat (length bytes) < 2 ^ 32 → con_law (marshal_var enc8 enc32 bytes) (unmarshal_var kind enc8 enc32) (Some bytes).
Proof.
  intros H8 H32 Hd Hl. unfold marshal_var. destruct (Z.leb_spec (Z.of_nat (length bytes)) MaxUint8) as [Hs|Hs];
    (eexists _, _; split; [done|]); intros rest; unfold unmarshal_var.
  - destruct (Z.eqb_spec enc8 NullEncoding); [congruence|]. rewrite Z.eqb_refl. cbn [app].
    erewrite decoder_bind_Ok by apply ReadByte_cons. unfold u8, wrap. rewrite Z.mod_small by (unfold MaxUint8 in Hs; lia).
    by erewrite decoder_bind_Ok by (by apply take_n_app).
  - destruct (Z.eqb_spec enc32 NullEncoding); [congruence|]. destruct (Z.eqb_spec enc32 enc8); [specialize (Hd ltac:(done)); lia|].
    rewrite Z.eqb_refl, <- app_assoc. erewrite decoder_bind_Ok by (apply take_n_app; by rewrite length_put_be).
    unfold u32, wrap. rewrite Z.mod_small, get_put_be_small by lia. by erewrite decoder_bind_Ok by (by apply take_n_app).
Qed.

Lemma con_bind {A B} bytes (u : Z → decoder A) a (f : A → B) :
  con_law bytes u a → con_law bytes (λ c, x ← u c; mret (f x)) (f a).
Proof. intros (c & l & -> & H). eexists _, _. split; [done|]. intros rest. by erewrite decoder_bind_Ok by apply H. Qed.

Lemma con_binary l : Z.of_nat (length l) < 2 ^ 32 → con_law (marshalBinary l) unmarshalBinary (Some l).
Proof. intros Hl. by apply con_var. Qed.

Lemma con_string s : Z.of_nat (String.length s) < 2 ^ 32 → con_law (marshalString s) unmarshalString s.
Proof.
  intros Hl. rewrite <- (string_bytes_roundtrip s) at 2. rewrite <- length_string_bytes in Hl.
  by apply (con_bind _ _ (Some (string_bytes s)) (λ d, bytes_string (default [] d))), con_var.
Qed.

Lemma con_symbol s : Z.of_nat (String.length s) ≤ MaxUint8 → con_law (marshalSymbol s) unmarshalSymbol s.
Proof.
  intros Hl. rewrite <- (string_bytes_roundtrip s) at 2. rewrite <- length_string_bytes in Hl.
  assert (Z.of_nat (length (string_bytes s)) < 2 ^ 32) by (unfold MaxUint8 in Hl; lia).
  assert (marshalSymbol s = marshal_var SymbolSym8Encoding SymbolSym32Encoding (string_bytes s)) as ->.
  { unfold marshalSymbol, marshal_var. by destruct (Z.leb_spec (Z.of_nat (length (string_bytes s))) MaxUint8); [|lia]. }
  by apply (con_bind _ _ (Some (string_bytes s)) (λ d, bytes_string (default [] d))), con_var.
Qed.

(** A symbol of more than 255 bytes is not read back: the first byte of its length is taken for the whole. *)
Lemma long_symbol_lost :
  let s := bytes_string (replicate 256 97) in
  ∃ c l, marshalSymbol s = c :: l ∧ unmarshalSymbol c l = Ok (""%string, drop 1 l).
Proof. eexists _, _. split; vm_compute; reflexivity. Qed.

(** *** Arrays of symbols *)

Lemma WrapD_Ok {A} msg (m : decoder A) buf r : m buf = Ok r → WrapD msg m buf = Ok r.
Proof. intros H. unfold WrapD. by rewrite H. Qed.

Lemma within_Ok {A} (m : decoder A) data a rest buf : m data = Ok (a, rest) → within m data buf = Ok (a, buf).
Proof. intros H. unfold within. by rewrite H. Qed.

Lemma symbols_max_ge src s : s ∈ src → Z.of_nat (String.length s) ≤ symbols_max src.
Proof. unfold symbols_max. induction src as [|x src IH]; [by intros ?%elem_of_nil|]. cbn. intros [->|H]%elem_of_cons; [lia|]. specialize (IH H). lia. Qed.

Definition symbol_constructor (max : Z) : Z := if max <=? MaxUint8 then SymbolSym8Encoding else SymbolSym32Encoding.

Lemma symbol_item_law max s rest :
  Z.of_nat (String.length s) ≤ max → Z.of_nat (String.length s) < 2 ^ 32 →
  unmarshalSymbol (symbol_constructor max) (marshal_symbol_item max s ++ rest) = Ok (s, rest).
Proof.
  intros Hm Hl. unfold symbol_constructor, marshal_symbol_item, unmarshalSymbol.
  assert (unmarshal_var "symbol" SymbolSym8Encoding SymbolSym32Encoding
    (if max <=? MaxUint8 then SymbolSym8Encoding else SymbolSym32Encoding)
    (((if max <=? MaxUint8 then [u8 (Z.of_nat (String.length s))] else put_be 4 (u32 (Z.of_nat (String.length s)))) ++ string_bytes s) ++ rest)
    = Ok (Some (string_bytes s), rest)) as Hv.
  { rewrite <- app_assoc. rewrite <- length_string_bytes in *. unfold unmarshal_var.
    destruct (Z.leb_spec max MaxUint8); cbn [Z.eqb Pos.eqb SymbolSym8Encoding SymbolSym32Encoding NullEncoding].
    - cbn [app]. erewrite decoder_bind_Ok by apply ReadByte_cons. unfold u8, wrap. rewrite Z.mod_small by (unfold MaxUint8 in *; lia).
      by erewrite decoder_bind_Ok by (by apply take_n_app).
    - erewrite decoder_bind_Ok by (apply take_n_app; by rewrite length_put_be).
      unfold u32, wrap. rewrite Z.mod_small, get_put_be_small by lia. by erewrite decoder_bind_Ok by (by apply take_n_app). }
  erewrite decoder_bind_Ok by exact Hv. change (Ok (bytes_string (string_bytes s), rest) = Ok (E := go_error) (s, rest)). by rewrite string_bytes_roundtrip.
Qed.

Lemma symbol_items_law max src rest :
  Forall (λ s, Z.of_nat (String.length s) ≤ max ∧ Z.of_nat (String.length s) < 2 ^ 32) src →
  symbol_items (symbol_constructor max) (length src) (concat (marshal_symbol_item max <$> src) ++ rest) = Ok (src, rest).
Proof.
  induction 1 as [|s src [Hm Hl] _ IH]; [done|]. cbn [length symbol_items fmap list_fmap concat]. rewrite <- app_assoc.
  erewrite decoder_bind_Ok by (by apply WrapD_Ok, symbol_item_law). by erewrite decoder_bind_Ok by exact IH.
Qed.

Lemma length_concat_ge {A B} (f : A → list B) (l : list A) :
  (∀ x, x ∈ l → (1 ≤ length (f x))%nat) → (length l ≤ length (concat (f <$> l)))%nat.
Proof.
  induction l as [|x l IH]; intros Hf; cbn; [lia|]. rewrite length_app. pose proof (Hf x ltac:(left)).
  specialize (IH ltac:(intros y Hy; apply Hf; by right)). lia.
Qed.

Lemma length_symbol_item max s : (1 ≤ length (marshal_symbol_item max s))%nat.
Proof. unfold marshal_symbol_item. rewrite length_app. destruct (_ <=? _); rewrite ?length_put_be; cbn; lia. Qed.

Lemma symbol_items_ge max src s :
  s ∈ src → (length (string_bytes s) ≤ length (concat (marshal_symbol_item max <$> src)))%nat.
Proof.
  induction src as [|x src IH]; [by intros ?%elem_of_nil|]. cbn. rewrite length_app. intros [->|Hin]%elem_of_cons.
  - unfold marshal_symbol_item. rewrite length_app. lia.
  - specialize (IH Hin). lia.
Qed.

Lemma next_n_app n l rest : Z.of_nat (length l) = n → next_n n (l ++ rest) = Ok (l, rest).
Proof.
  intros <-. unfold next_n. destruct (Z.ltb_spec (Z.of_nat (length l)) 0); [lia|].
  by rewrite Nat2Z.id, take_app_length, drop_app_length.
Qed.

(** The parts of an array are read back. *)
Lemma array_parts_law kind l count (data : list Z) :
  l = Z.of_nat (length data) - 1 → 0 ≤ l → l + 5 < 2 ^ 32 → 0 ≤ count < 2 ^ 32 →
  ∃ c k, (if (l + 2 <=? MaxUint8) && (count <=? MaxUint8) then [Array8Encoding; u8 (l + 2); u8 count]
     else Array32Encoding :: put_be 4 (u32 (l + 5)) ++ put_be 4 (u32 count)) ++ data = c :: k ∧
    (c = Array8Encoding ∨ c = Array32Encoding) ∧ ∀ rest, array_parts kind c (k ++ rest) = Ok ((count, data), rest).
Proof.
  intros Hl Hl0 Hl5 Hc. destruct ((l + 2 <=? MaxUint8) && (count <=? MaxUint8)) eqn:E.
  - bool_to_prop. eexists _, _. split; [done|]. split; [by left|]. intros rest. unfold array_parts, MaxUint8 in *.
    rewrite Z.eqb_refl. cbn [app]. do 2 (erewrite decoder_bind_Ok by apply ReadByte_cons).
    unfold u8, wrap. rewrite !Z.mod_small by lia. by erewrite decoder_bind_Ok by (apply next_n_app; lia).
  - eexists _, _. split; [done|]. split; [by right|]. intros rest. unfold array_parts.
    cbn [Z.eqb Pos.eqb Array8Encoding Array32Encoding]. unfold u32, wrap. rewrite !Z.mod_small by lia.
    rewrite <- app_assoc. erewrite decoder_bind_Ok by (apply take_n_app; by rewrite length_app, !length_put_be).
    rewrite take_app_length', drop_app_length' by (by rewrite length_put_be). rewrite !get_put_be_small by lia.
    by erewrite decoder_bind_Ok by (apply next_n_app; lia).
Qed.

Lemma con_symbol_array src :
  Z.of_nat (length (marshalSymbolArray (Some src))) < 2 ^ 32 → con_law (marshalSymbolArray (Some src)) unmarshalSymbolArray (Some src).
Proof.
  intros Hs. cbv [marshalSymbolArray] in *. set (max := symbols_max src) in *.
  set (items := concat (marshal_symbol_item max <$> src)) in *. set (hdr := if (_ && _) : bool then _ else _) in Hs.
  assert (Forall (λ s, Z.of_nat (String.length s) ≤ max ∧ Z.of_nat (String.length s) < 2 ^ 32) src) as Hf.
  { apply Forall_forall. intros s Hin. split; [by apply symbols_max_ge|].
    pose proof (symbol_items_ge max src s Hin) as Hle. fold items in Hle.
    rewrite length_string_bytes in Hle. rewrite !length_app in Hs. lia. }
  assert (length src ≤ length items)%nat as Hc by (apply length_concat_ge; intros s _; apply length_symbol_item).
  assert (5 ≤ length hdr ∨ length hdr = 3 ∧ length items ≤ 253)%nat as Hh.
  { unfold hdr. destruct ((Z.of_nat (length items) + 2 <=? MaxUint8) && _) eqn:E; [right|left; cbn; lia].
    bool_to_prop. unfold MaxUint8 in *. cbn. lia. }
  rewrite !length_app in Hs. cbn [length] in Hs.
  destruct (array_parts_law "symbol array" (Z.of_nat (length items)) (Z.of_nat (length src)) (symbol_constructor max :: items))
    as (c & k & Hk & Hcon & Hp); [cbn [length]; lia|lia|lia|lia|].
  exists c, k. split; [exact Hk|]. intros rest. unfold unmarshalSymbolArray.
  assert ((c =? NullEncoding) = false ∧ (c =? Array8Encoding) || (c =? Array32Encoding) = true) as [-> ->] by (by destruct Hcon as [-> | ->]).
  erewrite decoder_bind_Ok by apply Hp. cbv beta iota. destruct (Z.eqb_spec (Z.of_nat (length src)) 0) as [H0|H0].
  - destruct src; [done|cbn in H0; lia].
  - erewrite decoder_bind_Ok; [done|]. eapply within_Ok. unfold symbol_contents.
    erewrite decoder_bind_Ok by apply ReadByte_cons. rewrite Nat2Z.id.
    pose proof (symbol_items_law max src [] Hf) as Hi. rewrite app_nil_r in Hi. exact Hi.
Qed.

(** *** Header values *)

(** What decoding the encoding of a value gives: a nil map or list becomes an empty one. *)
Fixpoint v1_canon (v : Value) : Value :=
  match v with
  | NumberValue f => NumberValue (number_canon f)
  | StructValue (Some (MkStruct (Some fields))) => StructValue (Some (MkStruct (Some (prod_map id v1_canon <$> fields))))
  | StructValue _ => StructValue (Some (MkStruct (Some [])))
  | ListValue (Some values) => ListValue (Some (v1_canon <$> values))
  | ListValue None => ListValue (Some [])
  | v => v
  end.

Definition map_canon (m : option Struct) : option Struct :=
  match v1_canon (StructValue m) with
  | StructValue m => m
  | _ => None
  end.

(** The header of a compound is read in two steps: the size, and in as many bytes the count. *)
Lemma compound_law msg8 msg32 enc8 enc32 count items :
  enc8 ≠ enc32 → 0 ≤ count < 2 ^ 32 → Z.of_nat (length items) + 4 < 2 ^ 32 →
  ∃ c l data, marshal_compound enc8 enc32 count items = c :: l ∧ (c = enc8 ∨ c = enc32) ∧
    (∀ rest, sized_int msg8 msg32 enc8 c (l ++ rest) = Ok (Z.of_nat (length data), data ++ rest)) ∧
    sized_int msg8 msg32 enc8 c data = Ok (count, items) ∧ (length items < length data < length l)%nat.
Proof.
  intros He Hc Hl. unfold marshal_compound.
  destruct ((Z.of_nat (length items) + 1 <=? MaxUint8) && (count <=? MaxUint8)) eqn:E.
  - bool_to_prop. unfold MaxUint8 in *. exists enc8, (u8 (Z.of_nat (length items) + 1) :: u8 count :: items), (u8 count :: items).
    split; [done|]. split; [by left|]. unfold sized_int. rewrite Z.eqb_refl. unfold u8, wrap. rewrite !Z.mod_small by lia.
    split_and!; [|done|cbn; lia|cbn; lia]. intros rest. cbn [app]. rewrite ReadByte_cons. do 2 f_equal. cbn [length]. lia.
  - exists enc32, (put_be 4 (u32 (Z.of_nat (length items) + 4)) ++ put_be 4 (u32 count) ++ items), (put_be 4 (u32 count) ++ items).
    split; [cbn [app]; by rewrite <- app_assoc|]. split; [by right|]. unfold sized_int.
    destruct (Z.eqb_spec enc32 enc8); [congruence|]. unfold u32, wrap. rewrite !Z.mod_small by lia.
    split_and!; [|by apply buf_be_app|rewrite !length_app, !length_put_be; lia..].
    intros rest. rewrite <- app_assoc, buf_be_app by (done || lia). do 2 f_equal. rewrite length_app, length_put_be. lia.
Qed.

Section ValueLaws.

Context `{TimeFormat}.

Lemma read_value_cons (u : Z → decoder Value) c l : read_value u (c :: l) = u c l.
Proof. done. Qed.

Lemma primitive_law {A} n bytes (u : Z → decoder A) a (f : A → Value) rest :
  con_law bytes u a →
  (∀ c l, bytes = c :: l → unmarshal_primitive c = Some (v ← WrapD "unmarshal value failed" (u c); mret (f v))) →
  unmarshalValue (S n) (bytes ++ rest) = Ok (f a, rest).
Proof.
  intros (c & l & Hb & Hd) Hp. rewrite Hb. cbn [app]. unfold unmarshalValue. rewrite read_value_cons. cbn [unmarshalValueWithConstructor].
  rewrite (Hp c l Hb). by erewrite decoder_bind_Ok by (apply WrapD_Ok, Hd).
Qed.

Lemma v1_unmarshal_number n f rest :
  number_exact f = true → unmarshalValue (S n) (marshalNumber f ++ rest) = Ok (NumberValue (number_canon f), rest).
Proof.
  unfold number_exact. intros [Hok Hf]%andb_true_iff. unfold marshalNumber. destruct (f64_is_int f) eqn:Ei.
  - assert (- 2 ^ 63 ≤ f64_int64 f < 2 ^ 63 ∧ f64_of_Z (f64_int64 f) = number_canon f) as [Hr Hz].
    { destruct f as [s|s| |s m e]; [done..|]. unfold f64_int64. cbn [negb orb] in Hf. rewrite Hf. bool_to_prop.
      split; [lia|by rewrite f64_of_trunc]. }
    rewrite <- Hz. set (z := f64_int64 f) in *. clearbody z. clear f Hok Hf Ei Hz.
    destruct (is_int8 z) eqn:E8; [|destruct ((- 2 ^ 15 <=? z) && (z <? 2 ^ 15)) eqn:E15;
      [|destruct ((- 2 ^ 31 <=? z) && (z <? 2 ^ 31)) eqn:E31]].
    + eapply (primitive_law n _ unmarshalByte z (λ z, NumberValue (f64_of_Z z))); [by apply con_byte|]. by intros c l [= <- <-].
    + eapply (primitive_law n _ unmarshalShort z (λ z, NumberValue (f64_of_Z z))); [apply con_short; bool_to_prop; lia|].
      by intros c l [= <- <-].
    + eapply (primitive_law n _ unmarshalInt z (λ z, NumberValue (f64_of_Z z))); [apply con_int; bool_to_prop; lia|].
      unfold marshalInt. rewrite E8. by intros c l [= <- <-].
    + eapply (primitive_law n _ unmarshalLong z (λ z, NumberValue (f64_of_Z z))); [by apply con_long|].
      unfold marshalLong. rewrite E8. by intros c l [= <- <-].
  - replace (number_canon f) with f by (by destruct f).
    eapply (primitive_law n _ unmarshalDouble f NumberValue); [by apply con_double|]. by intros c l [= <- <-].
Qed.

Lemma v1_unmarshal_string n s rest :
  Z.of_nat (String.length s) < 2 ^ 32 → unmarshalValue (S n) (marshalString s ++ rest) = Ok (StringValue s, rest).
Proof.
  intros Hs. eapply (primitive_law n _ unmarshalString s StringValue); [by apply con_string|].
  unfold marshalString, marshal_var. destruct (_ <=? _); by intros c l [= <- <-].
Qed.

Definition v1_roundtrips (v : Value) : Prop :=
  ∀ l nesting rest, value_exact v = true → marshalValue v = Ok l → Z.of_nat (length l) < 2 ^ 32 → (length l ≤ nesting)%nat →
    unmarshalValue nesting (l ++ rest) = Ok (v1_canon v, rest) ∧ (0 < length l)%nat.

Lemma list_items_law msg values : ∀ nesting l,
  Forall v1_roundtrips values → Forall (λ v, value_exact v = true) values →
  marshal_list_items marshalValue values = Ok l → Z.of_nat (length l) < 2 ^ 32 → (length l ≤ nesting)%nat →
  list_items msg (unmarshalValue nesting) (length values) l = Ok (v1_canon <$> values, []) ∧ (length values ≤ length l)%nat.
Proof.
  induction values as [|v values IH]; intros nesting l Hr Hv Hm Hl Hn.
  { cbn in Hm. injection Hm as <-. done. }
  inversion Hr as [|? ? Hr1 Hr2]; subst. inversion Hv as [|? ? Hv1 Hv2]; subst.
  cbn [marshal_list_items] in Hm. apply wapp_Ok in Hm as (l1 & l2 & H1%Wrap_Ok & H2 & ->).
  rewrite length_app in Hl, Hn. destruct (Hr1 l1 nesting l2) as [Hu Hpos]; [done..|lia|lia|].
  destruct (IH nesting l2) as [IH1 IH2]; [done..|lia|lia|]. split; [|cbn; rewrite length_app; lia].
  cbn [length list_items]. erewrite decoder_bind_Ok by (by apply WrapD_Ok). by erewrite decoder_bind_Ok by exact IH1.
Qed.

Lemma length_marshalString s : (String.length s < length (marshalString s))%nat.
Proof.
  unfold marshalString, marshal_var. rewrite <- length_string_bytes.
  destruct (_ <=? _); cbn [length]; rewrite ?length_app; lia.
Qed.

Lemma map_items_law fields : ∀ nesting l acc,
  Forall (λ p, v1_roundtrips p.2) fields → Forall (λ p, value_exact p.2 = true) fields →
  NoDup (acc.*1 ++ fields.*1) →
  marshal_map_items marshalValue fields = Ok l → Z.of_nat (length l) < 2 ^ 32 → (length l ≤ nesting)%nat →
  map_items (unmarshalValue nesting) (length fields) acc l = Ok (acc ++ (prod_map id v1_canon <$> fields), []) ∧
  (2 * length fields ≤ length l)%nat.
Proof.
  induction fields as [|[key v] fields IH]; intros nesting l acc Hr Hv Hnd Hm Hl Hn.
  { cbn in Hm. injection Hm as <-. cbn. rewrite app_nil_r. done. }
  inversion Hr as [|? ? Hr1 Hr2]; subst. inversion Hv as [|? ? Hv1 Hv2]; subst. cbn [snd] in *.
  cbn [marshal_map_items] in Hm. apply wapp_Ok in Hm as (l0 & l12 & <-%Ok_inj & H12 & ->).
  apply wapp_Ok in H12 as (l1 & l2 & H1%Wrap_Ok & H2 & ->).
  rewrite !length_app in Hl, Hn. pose proof (length_marshalString key) as Hk.
  destruct (Hr1 l1 nesting l2) as [Hu Hpos]; [done..|lia|lia|]. destruct nesting as [|nesting]; [lia|].
  assert (key ∉ acc.*1) as Hnew.
  { intros Hin. apply NoDup_app in Hnd as (_ & Hd & _). apply (Hd key Hin). rewrite fmap_cons. left. }
  destruct (IH (S nesting) l2 (acc ++ [(key, v1_canon v)])) as [IH1 IH2]; [done|done| |done|lia|lia|].
  { rewrite fmap_app. cbn. rewrite <- app_assoc. done. }
  split; [|cbn [length]; rewrite !length_app; lia].
  cbn [length map_items]. erewrite decoder_bind_Ok by (apply WrapD_Ok, v1_unmarshal_string; lia). cbv beta iota.
  erewrite decoder_bind_Ok by (by apply WrapD_Ok). rewrite set_field_new by done. rewrite IH1, <- app_assoc. done.
Qed.

(** A compound read with the decoder [contents] of its items. *)
Lemma list_compound_law nesting values items rest :
  values ≠ [] → Forall v1_roundtrips values → Forall (λ v, value_exact v = true) values →
  marshal_list_items marshalValue values = Ok items → Z.of_nat (length items) + 4 < 2 ^ 32 → (length items ≤ nesting)%nat →
  unmarshalValue (S nesting) (marshal_compound List8Encoding List32Encoding (Z.of_nat (length values)) items ++ rest) =
    Ok (ListValue (Some (v1_canon <$> values)), rest).
Proof.
  intros Hne Hr Hv Hm Hl Hn.
  destruct (list_items_law "unmarshal list item %d failed" values nesting items) as [Hi Hc]; [done..|lia|lia|].
  destruct (compound_law (failed "list") (failed "list" ++ ": buffer underflow") List8Encoding List32Encoding (Z.of_nat (length values)) items)
    as (c & l & data & -> & Hcon & Hsize & Hcount & Hlen); [done|lia|lia|].
  cbn [app]. unfold unmarshalValue. rewrite read_value_cons. cbn [unmarshalValueWithConstructor].
  assert (unmarshal_primitive c = None ∧ one_of [List0Encoding; List8Encoding; List32Encoding] c = true ∧
    (c =? List0Encoding) = false ∧ (c =? List8Encoding) || (c =? List32Encoding) = true) as (-> & -> & H0 & H1)
    by (by destruct Hcon as [-> | ->]).
  erewrite decoder_bind_Ok; [done|]. apply WrapD_Ok. unfold unmarshalList. rewrite H0, H1.
  erewrite decoder_bind_Ok by apply Hsize. erewrite decoder_bind_Ok by (by apply take_n_app).
  eapply within_Ok. unfold list_contents. erewrite decoder_bind_Ok by exact Hcount. rewrite Nat2Z.id. exact Hi.
Qed.

Lemma unmarshal_map_law nesting fields items :
  Forall (λ p, v1_roundtrips p.2) fields → fields_all number_exact fields →
  marshal_map_items marshalValue fields = Ok items → Z.of_nat (length items) + 4 < 2 ^ 32 → (length items ≤ nesting)%nat →
  ∃ c l, marshal_compound Map8Encoding Map32Encoding (2 * Z.of_nat (length fields)) items = c :: l ∧
    (c = Map8Encoding ∨ c = Map32Encoding) ∧
    ∀ rest, unmarshal_map (unmarshalValue nesting) c (l ++ rest) =
      Ok (Some (MkStruct (Some (prod_map id v1_canon <$> fields))), rest).
Proof.
  intros Hr [Hnd Hv] Hm Hl Hn.
  destruct (map_items_law fields nesting items []) as [Hi Hc]; [done..|lia|lia|].
  destruct (compound_law (failed "map") (failed "map" ++ ": buffer underflow") Map8Encoding Map32Encoding (2 * Z.of_nat (length fields)) items)
    as (c & l & data & -> & Hcon & Hsize & Hcount & Hlen); [done|lia|lia|].
  exists c, l. split; [done|]. split; [done|]. intros rest. unfold unmarshal_map.
  assert ((c =? NullEncoding) = false ∧ (c =? Map8Encoding) || (c =? Map32Encoding) = true) as (-> & ->)
    by (by destruct Hcon as [-> | ->]).
  erewrite decoder_bind_Ok by apply Hsize. destruct (Z.eqb_spec (Z.of_nat (length data)) 0); [lia|].
  erewrite decoder_bind_Ok by (by apply take_n_app). erewrite decoder_bind_Ok; [done|]. eapply within_Ok.
  unfold map_contents. erewrite decoder_bind_Ok by exact Hcount. rewrite Z.mul_comm, Z.mod_mul, Z.div_mul by lia.
  cbn [negb Z.eqb]. rewrite Nat2Z.id. exact Hi.
Qed.

Lemma length_compound enc8 enc32 count items : (length items + 3 ≤ length (marshal_compound enc8 enc32 count items))%nat.
Proof. unfold marshal_compound. rewrite length_app. destruct (_ && _); cbn; lia. Qed.

Lemma compound_size_ok enc8 enc32 count items :
  Z.of_nat (length (marshal_compound enc8 enc32 count items)) < 2 ^ 32 → Z.of_nat (length items) + 4 < 2 ^ 32.
Proof.
  unfold marshal_compound. rewrite length_app. destruct ((_ <=? _) && _) eqn:E.
  - bool_to_prop. unfold MaxUint8 in *. lia.
  - cbn [length]. rewrite length_app, !length_put_be. lia.
Qed.

(** Decoding the encoding of a value gives the value, up to the canonical form. *)
Lemma v1_value_roundtrip v : v1_roundtrips v.
Proof.
  induction v as [| |f|s|b| | |fields IH| |values IH] using Value_nested_ind;
    intros l nesting rest Hv Hm Hl Hn; cbn [marshalValue] in Hm; try done.
  - apply Ok_inj in Hm as <-. destruct nesting as [|nesting]; [cbn in Hn; lia|]. split; [done|cbn; lia].
  - apply Ok_inj in Hm as <-. assert (0 < length (marshalNumber f))%nat as Hpos.
    { unfold marshalNumber, marshalByte, marshalShort, marshalInt, marshalLong, marshalDouble. repeat case_match; cbn; lia. }
    destruct nesting as [|nesting]; [lia|]. split; [by apply v1_unmarshal_number|done].
  - apply Ok_inj in Hm as <-. pose proof (length_marshalString s) as Hs.
    destruct nesting as [|nesting]; [lia|]. split; [apply v1_unmarshal_string; lia|lia].
  - apply Ok_inj in Hm as <-. destruct nesting as [|nesting]; [cbn in Hn; lia|]. split; [by destruct b|cbn; lia].
  - apply Ok_inj in Hm as <-. destruct nesting as [|nesting]; [cbn in Hn; lia|]. split; [done|cbn; lia].
  - apply Ok_inj in Hm as <-. destruct nesting as [|nesting]; [cbn in Hn; lia|]. split; [done|cbn; lia].
  - unfold marshal_map in Hm. destruct (marshal_map_items _ _) as [items| |] eqn:Hi; [|done..]. apply Ok_inj in Hm as <-.
    pose proof (length_compound Map8Encoding Map32Encoding (2 * Z.of_nat (length fields)) items) as Hc.
    split; [|lia]. destruct nesting as [|nesting]; [lia|]. unfold value_exact in Hv. rewrite value_all_fields in Hv.
    destruct (unmarshal_map_law nesting fields items) as (c & l & Hb & Hcon & Hu);
      [done..|by eapply compound_size_ok|lia|]. rewrite Hb. cbn [app].
    unfold unmarshalValue. rewrite read_value_cons. cbn [unmarshalValueWithConstructor].
    assert (unmarshal_primitive c = None ∧ one_of [List0Encoding; List8Encoding; List32Encoding] c = false ∧
      one_of [Map8Encoding; Map32Encoding] c = true) as (-> & -> & ->) by (by destruct Hcon as [-> | ->]).
    by erewrite decoder_bind_Ok by (apply WrapD_Ok, Hu).
  - destruct values as [|v values]; cbn [marshal_list] in Hm.
    { apply Ok_inj in Hm as <-. destruct nesting as [|nesting]; [cbn in Hn; lia|]. split; [done|cbn; lia]. }
    destruct (marshal_list_items _ _) as [items| |] eqn:Hi; [|done..]. apply Ok_inj in Hm as <-.
    pose proof (length_compound List8Encoding List32Encoding (Z.of_nat (length (v :: values))) items) as Hc.
    split; [|lia]. destruct nesting as [|nesting]; [lia|]. unfold value_exact in Hv. rewrite value_all_list in Hv.
    rewrite (list_compound_law nesting (v :: values) items rest); [done..|by eapply compound_size_ok|lia].
Qed.

(** A map field, nil or not. *)
Lemma con_map m l :
  table_exact m = true → marshalMap m = Ok l → Z.of_nat (length l) < 2 ^ 32 → con_law l unmarshalMap (map_canon m).
Proof.
  intros Ht Hm Hl. destruct m as [[[fields|]]|]; cbn [marshalMap marshalValue] in Hm.
  - cbn in Hm. unfold marshal_map in Hm. destruct (marshal_map_items _ _) as [items| |] eqn:Hi; [|done..]. apply Ok_inj in Hm as <-.
    pose proof (length_compound Map8Encoding Map32Encoding (2 * Z.of_nat (length fields)) items) as Hc.
    assert (Forall (λ p, v1_roundtrips p.2) fields) as Hr by (apply Forall_forall; intros p _; apply v1_value_roundtrip).
    assert (fields_all number_exact fields) as Hf by (by apply value_all_fields).
    destruct (unmarshal_map_law (length (marshal_compound Map8Encoding Map32Encoding (2 * Z.of_nat (length fields)) items)) fields items)
      as (c & l & Hb & Hcon & Hu); [done..|by eapply compound_size_ok|lia|].
    exists c, l. split; [done|]. intros rest. unfold unmarshalMap.
    destruct (unmarshal_map_law (S (length (l ++ rest))) fields items)
      as (c' & l' & Hb' & _ & Hu'); [done..|by eapply compound_size_ok| |].
    { rewrite Hb in Hc. cbn [length] in Hc. rewrite length_app. lia. }
    rewrite Hb in Hb'. injection Hb' as <- <-. apply Hu'.
  - injection Hm as <-. by eexists _, _.
  - injection Hm as <-. by eexists _, _.
Qed.

End ValueLaws.
