(* ===== verification/AmqpV1Fields.v ===== *)
(** * AMQP 1.0: composites

    What the generated methods of src/mq/amqp/v1/amqp1-0-0.go have in common: a descriptor, then a list whose
    items are the fields up to the last one that is present, with a null for an absent field before it.
    The laws say that a decoder reads what the encoder of the same field wrote. *)
From Stdlib Require Import Floats.SpecFloat.
From S2P Require Import Prelude Emq Bytes AmqpValues AmqpV1 AmqpV1Laws.

Definition not_empty (s : string) : bool := negb (String.eqb s "").

Definition is_nil {A} (x : option A) : bool := match x with None => true | Some _ => false end.

(** [len(x) > 0] *)
Definition has_items {A} (x : option (list A)) : bool := match x with Some (_ :: _) => true | _ => false end.

(** ** Encoding *)

(** [count] is the index of the last field that is present, plus one. *)
Fixpoint fields_count_from (i count : Z) (present : list bool) : Z :=
  match present with
  | [] => count
  | p :: present => fields_count_from (i + 1) (if p then i + 1 else count) present
  end.
Definition fields_count (present : list bool) : Z := fields_count_from 0 0 present.

(** [if count > i { write the field }] *)
Definition item (count i : Z) (w : writer) : writer := if i <? count then w else Ok [].

(** [if present { write the field } else { write null }] *)
Definition optional (present : bool) (w : writer) : writer := if present then w else Ok marshalNull.

Definition marshal_composite (descriptor count : Z) (items : writer) : writer :=
  Ok (DescriptorEncoding :: marshalUlong descriptor) +++
  if count =? 0 then Ok [List0Encoding]
  else itemBuf ← items; Ok (marshal_compound List8Encoding List32Encoding count itemBuf).

(** ** Decoding *)

Definition errNull : go_error := ErrNew "composite is null".

Definition is_errNull (e : go_error) : bool :=
  match e with
  | ErrNew msg => String.eqb msg "composite is null"
  | _ => false
  end.

Definition read_descriptor (descriptor : Z) : decoder () :=
  constructor ← ReadByte "read descriptor failed";
  if constructor =? NullEncoding then read_fail errNull
  else if negb (constructor =? DescriptorEncoding) then read_fail (ErrNew "expected descriptor, got constructor 0x%02x")
  else
    constructor ← ReadByte "read descriptor failed";
    d ← WrapD "read descriptor failed" (unmarshalUlong constructor);
    if negb (d =? descriptor) then read_fail (ErrNew "unexpected descriptor 0x%08x:0x%08x") else mret ().

Definition list_length : Z → decoder Z := sized_int "read length failed" "read length failed: buffer underflow" List8Encoding.

Definition unmarshal_composite {A} (name : string) (descriptor : Z) (zero : A) (fields : Z → decoder A) : decoder A :=
  _ ← read_descriptor descriptor;
  constructor ← ReadByte "read constructor failed";
  if (constructor =? NullEncoding) || (constructor =? List0Encoding) then mret zero
  else if (constructor =? List8Encoding) || (constructor =? List32Encoding) then
    size ← list_length constructor;
    data ← BufNext "buffer underflow" size;
    within (count ← list_length constructor; fields count) data
  else read_fail (ErrNew ("unmarshal " ++ name ++ " failed: unexpected constructor 0x%02x")).

(** [if count > i { read the field }] *)
Definition upto {A} (count i : Z) (zero : A) (m : decoder A) : decoder A := if i <? count then m else mret zero.

Definition field_msg (name : string) : string := "unmarshal field " ++ name ++ " failed".

(** A field of a primitive type: the constructor and the contents. *)
Definition field {A} (name : string) (u : Z → decoder A) : decoder A :=
  constructor ← ReadByte (field_msg name); WrapD (field_msg name) (u constructor).

(** A field of a type with an [UnmarshalBuffer] of its own. *)
Definition field_buf {A} (name : string) (m : decoder A) : decoder A := WrapD (field_msg name) m.

(** A pointer to a composite: [errNull] comes from the first byte, the null constructor, and gives nil. *)
Definition field_ptr {A} (name : string) (m : decoder A) : decoder (option A) := λ buf,
  match m buf with
  | Ok (a, rest) => Ok (Some a, rest)
  | Err e => if is_errNull e then Ok (None, drop 1 buf) else Err (ErrWrap e (field_msg name))
  | Panic msg => Panic msg
  end.

(** A primitive type whose null has a value of its own. *)
Definition or_null {A} (null : A) (u : Z → decoder A) (constructor : Z) : decoder A :=
  if constructor =? NullEncoding then mret null else u constructor.

(** [UnmarshalBuffer] of a named primitive type. *)
Definition named {A} (u : Z → decoder A) : decoder A := constructor ← ReadByte "read constructor failed"; u constructor.

(** The same bytes are read again by the next decoder. *)
Definition peek {A} (m : decoder A) : decoder A := λ buf, '(a, _) ← m buf; Ok (a, buf).

(** The descriptor of a described type, read ahead. *)
Definition peek_descriptor (msg : string) : decoder Z :=
  peek (constructor ← ReadByte msg;
    if negb (constructor =? DescriptorEncoding) then read_fail (ErrNew (msg ++ ": unexpected constructor 0x%02x"))
    else constructor ← ReadByte msg; WrapD msg (unmarshalUlong constructor)).

(** ** Laws *)

(** What [w] writes, when it succeeds with less than 4 GiB, is read back by [r] as [a]. *)
Definition dec_law {A} (w : writer) (r : decoder A) (a : A) : Prop :=
  ∀ l, w = Ok l → Z.of_nat (length l) < 2 ^ 32 → ∀ rest, r (l ++ rest) = Ok (a, rest).

Lemma dec_bind {A B} w1 w2 (r1 : decoder A) (f : A → decoder B) a b :
  dec_law w1 r1 a → dec_law w2 (f a) b → dec_law (w1 +++ w2) (x ← r1; f x) b.
Proof.
  intros H1 H2 l (l1 & l2 & E1 & E2 & ->)%wapp_Ok Hl rest. rewrite length_app in Hl. rewrite <- app_assoc.
  erewrite decoder_bind_Ok by (apply H1; [done|lia]). apply H2; [done|lia].
Qed.

Lemma dec_ret {A} (a b : A) : a = b → dec_law (Ok []) (mret a) b.
Proof. by intros -> l [= <-] _ rest. Qed.

Lemma dec_upto {A} count i w zero (r : decoder A) a :
  (i < count → dec_law w r a) → (count ≤ i → a = zero) → dec_law (item count i w) (upto count i zero r) a.
Proof.
  intros Hp Ha l. unfold item, upto. destruct (Z.ltb_spec i count) as [Hi|Hi]; [by apply Hp|].
  intros [= <-] _ rest. by rewrite (Ha Hi).
Qed.

Lemma dec_optional {A} (p : bool) w (r : decoder A) a :
  (p = true → dec_law w r a) → (p = false → ∀ rest, r (NullEncoding :: rest) = Ok (a, rest)) → dec_law (optional p w) r a.
Proof. intros Ht Hf. destruct p; [by apply Ht|]. intros l [= <-] _ rest. by apply Hf. Qed.

Lemma dec_field {A} name bytes (u : Z → decoder A) a :
  (Z.of_nat (length bytes) < 2 ^ 32 → con_law bytes u a) → dec_law (Ok bytes) (field name u) a.
Proof.
  intros Hc l [= <-] Hl rest. destruct (Hc Hl) as (c & k & -> & Hd). cbn [app]. unfold field.
  erewrite decoder_bind_Ok by apply ReadByte_cons. by apply WrapD_Ok.
Qed.

Lemma dec_named {A} name bytes (u : Z → decoder A) a :
  (Z.of_nat (length bytes) < 2 ^ 32 → con_law bytes u a) → dec_law (Ok bytes) (field_buf name (named u)) a.
Proof.
  intros Hc l [= <-] Hl rest. destruct (Hc Hl) as (c & k & -> & Hd). cbn [app]. apply WrapD_Ok. unfold named.
  by erewrite decoder_bind_Ok by apply ReadByte_cons.
Qed.

Lemma con_or_null {A} bytes (u : Z → decoder A) a null :
  con_law bytes u a → (∀ l, bytes ≠ NullEncoding :: l) → con_law bytes (or_null null u) a.
Proof.
  intros (c & l & -> & Hd) Hn. exists c, l. split; [done|]. intros rest. unfold or_null.
  destruct (Z.eqb_spec c NullEncoding) as [->|]; [by destruct (Hn l)|done].
Qed.

Lemma count_mono present : ∀ i count, count ≤ i → count ≤ fields_count_from i count present.
Proof.
  induction present as [|p present IH]; intros i count Hc; cbn; [lia|].
  destruct p; [specialize (IH (i + 1) (i + 1)); lia|specialize (IH (i + 1) count); lia].
Qed.

(** A field after the count is absent. *)
Lemma count_absent present : ∀ k p i count,
  count ≤ i → present !! k = Some p → fields_count_from i count present ≤ i + Z.of_nat k → p = false.
Proof.
  induction present as [|q present IH]; intros k p i count Hi Hk Hc; [done|]. destruct k as [|k]; cbn in Hk, Hc.
  - injection Hk as ->. destruct p; [|done]. pose proof (count_mono present (i + 1) (i + 1) ltac:(lia)). lia.
  - apply (IH k p (i + 1) (if q then i + 1 else count)); [destruct q; lia|done|lia].
Qed.

Lemma fields_count_absent present k p :
  present !! k = Some p → fields_count present ≤ Z.of_nat k → p = false.
Proof. intros Hk Hc. by apply (count_absent present k p 0 0). Qed.

Lemma fields_count_bound present : 0 ≤ fields_count present ≤ Z.of_nat (length present).
Proof.
  assert (∀ i count, count ≤ i → fields_count_from i count present ≤ i + Z.of_nat (length present)) as H.
  { induction present as [|p present IH]; intros i count Hc; cbn; [lia|].
    specialize (IH (i + 1) (if p then i + 1 else count) ltac:(destruct p; lia)). lia. }
  unfold fields_count. split; [apply count_mono; lia|]. specialize (H 0 0). lia.
Qed.

Lemma read_descriptor_law descriptor rest :
  0 ≤ descriptor < 2 ^ 64 → read_descriptor descriptor ((DescriptorEncoding :: marshalUlong descriptor) ++ rest) = Ok (tt, rest).
Proof.
  intros Hd. destruct (con_ulong descriptor Hd) as (c & l & -> & Hu). cbn [app]. unfold read_descriptor.
  erewrite decoder_bind_Ok by apply ReadByte_cons. cbn [Z.eqb negb DescriptorEncoding NullEncoding].
  erewrite decoder_bind_Ok by apply ReadByte_cons. erewrite decoder_bind_Ok by (apply WrapD_Ok, Hu). by rewrite Z.eqb_refl.
Qed.

(** A composite whose fields have the law has it too. *)
Lemma composite_law {A} name descriptor zero (fields : Z → decoder A) count items a :
  0 ≤ descriptor < 2 ^ 64 → 0 ≤ count < 2 ^ 32 → fields 0 [] = Ok (zero, []) → (count = 0 → items = Ok []) →
  dec_law items (fields count) a →
  dec_law (marshal_composite descriptor count items) (unmarshal_composite name descriptor zero fields) a.
Proof.
  intros Hd Hc Hz H0 Hf l E Hl rest. unfold marshal_composite in E. apply wapp_Ok in E as (l1 & l2 & <-%Ok_inj & E2 & ->). rewrite <- app_assoc. unfold unmarshal_composite.
  erewrite decoder_bind_Ok by (by apply read_descriptor_law). destruct (Z.eqb_spec count 0) as [->|Hne].
  - injection E2 as <-. cbn [app]. erewrite decoder_bind_Ok by apply ReadByte_cons.
    specialize (Hf [] (H0 eq_refl) ltac:(done) []). rewrite app_nil_r, Hz in Hf. injection Hf as ->. done.
  - destruct items as [itemBuf| |]; [|done..]. apply Ok_inj in E2 as <-. rewrite length_app in Hl.
    assert (Z.of_nat (length itemBuf) + 4 < 2 ^ 32) as Hi.
    { apply (compound_size_ok List8Encoding List32Encoding count). lia. }
    destruct (compound_law "read length failed" "read length failed: buffer underflow" List8Encoding List32Encoding count itemBuf)
      as (c & k & data & -> & Hcon & Hsize & Hcount & Hlen); [done|lia|lia|].
    cbn [app]. erewrite decoder_bind_Ok by apply ReadByte_cons.
    assert ((c =? NullEncoding) || (c =? List0Encoding) = false ∧ (c =? List8Encoding) || (c =? List32Encoding) = true) as (-> & ->)
      by (by destruct Hcon as [-> | ->]).
    erewrite decoder_bind_Ok by apply Hsize. erewrite decoder_bind_Ok by apply BufNext_app.
    eapply (within_Ok _ _ _ []). erewrite decoder_bind_Ok by exact Hcount.
    rewrite <- (app_nil_r itemBuf). apply Hf; [done|lia].
Qed.

(** *** Laws by the type of the field *)

Lemma opt_field {A} name (p : bool) bytes (u : Z → decoder A) a :
  (p = true → Z.of_nat (length bytes) < 2 ^ 32 → con_law bytes u a) →
  (p = false → ∀ rest, u NullEncoding rest = Ok (a, rest)) → dec_law (optional p (Ok bytes)) (field name u) a.
Proof.
  intros Ht Hf. apply dec_optional; [intros Hp; by apply dec_field, Ht|]. intros Hp rest. unfold field.
  erewrite decoder_bind_Ok by apply ReadByte_cons. by apply WrapD_Ok, Hf.
Qed.

Lemma opt_named {A} name (p : bool) bytes (u : Z → decoder A) a :
  (p = true → Z.of_nat (length bytes) < 2 ^ 32 → con_law bytes u a) →
  (p = false → ∀ rest, u NullEncoding rest = Ok (a, rest)) → dec_law (optional p (Ok bytes)) (field_buf name (named u)) a.
Proof.
  intros Ht Hf. apply dec_optional; [intros Hp; by apply dec_named, Ht|]. intros Hp rest. apply WrapD_Ok. unfold named.
  erewrite decoder_bind_Ok by apply ReadByte_cons. by apply Hf.
Qed.

Lemma absent_string s : not_empty s = false → s = ""%string.
Proof. unfold not_empty. destruct (String.eqb_spec s ""); done. Qed.

Lemma negb_eqb_false x y : negb (x =? y) = false → x = y.
Proof. intros H%negb_false_iff. by apply Z.eqb_eq. Qed.

(** A symbol that is encoded with the right constructor. *)
Definition is_symbol (s : string) : Prop := Z.of_nat (String.length s) ≤ MaxUint8.

Definition is_uint8 (v : Z) : Prop := 0 ≤ v < 2 ^ 8.
Definition is_uint16 (v : Z) : Prop := 0 ≤ v < 2 ^ 16.
Definition is_uint32 (v : Z) : Prop := 0 ≤ v < 2 ^ 32.
Definition is_uint64 (v : Z) : Prop := 0 ≤ v < 2 ^ 64.

(** The zero time, or whole milliseconds from 1970 on. *)
Definition is_time (t : Z) : Prop := t = 0 ∨ is_millis t.

Lemma string_size s : Z.of_nat (length (marshalString s)) < 2 ^ 32 → con_law (marshalString s) unmarshalString s.
Proof. intros Hl. apply con_string. pose proof (length_marshalString s). lia. Qed.

Lemma opt_string name s : dec_law (optional (not_empty s) (Ok (marshalString s))) (field name unmarshalString) s.
Proof. apply opt_field; [intros _; apply string_size|]. intros ->%absent_string. done. Qed.

Lemma man_string name s : dec_law (Ok (marshalString s)) (field name unmarshalString) s.
Proof. apply dec_field, string_size. Qed.

Lemma opt_symbol name s : is_symbol s → dec_law (optional (not_empty s) (Ok (marshalSymbol s))) (field name unmarshalSymbol) s.
Proof. intros Hs. apply opt_field; [intros _ _; by apply con_symbol|]. intros ->%absent_string. done. Qed.

Lemma man_symbol name s : is_symbol s → dec_law (Ok (marshalSymbol s)) (field name unmarshalSymbol) s.
Proof. intros Hs. apply dec_field. intros _. by apply con_symbol. Qed.

Lemma opt_named_symbol name s :
  is_symbol s → dec_law (optional (not_empty s) (Ok (marshalSymbol s))) (field_buf name (named unmarshalSymbol)) s.
Proof. intros Hs. apply opt_named; [intros _ _; by apply con_symbol|]. intros ->%absent_string. done. Qed.

Lemma opt_boolean name (b : bool) : dec_law (optional b (Ok (marshalBoolean b))) (field name unmarshalBoolean) b.
Proof. apply opt_field; [intros _ _; apply con_boolean|]. by intros ->. Qed.

Lemma man_named_boolean name b : dec_law (Ok (marshalBoolean b)) (field_buf name (named unmarshalBoolean)) b.
Proof. apply dec_named. intros _. apply con_boolean. Qed.

Lemma man_boolean name b : dec_law (Ok (marshalBoolean b)) (field name unmarshalBoolean) b.
Proof. apply dec_field. intros _. apply con_boolean. Qed.

Lemma opt_ubyte name v : dec_law (optional (negb (v =? 0)) (Ok (marshalUbyte v))) (field name unmarshalUbyte) v.
Proof. apply opt_field; [intros _ _; apply con_ubyte|]. by intros ->%negb_eqb_false. Qed.

Lemma man_named_ubyte name v : dec_law (Ok (marshalUbyte v)) (field_buf name (named unmarshalUbyte)) v.
Proof. apply dec_named. intros _. apply con_ubyte. Qed.

Lemma opt_ushort name v : is_uint16 v → dec_law (optional (negb (v =? 0)) (Ok (marshalUshort v))) (field name unmarshalUshort) v.
Proof. intros Hv. apply opt_field; [intros _ _; by apply con_ushort|]. by intros ->%negb_eqb_false. Qed.

Lemma opt_ushort_null name v null :
  is_uint16 v → dec_law (optional (negb (v =? null)) (Ok (marshalUshort v))) (field name (or_null null unmarshalUshort)) v.
Proof.
  intros Hv. apply opt_field; [intros _ _; by apply con_or_null; [apply con_ushort|]|]. by intros ->%negb_eqb_false.
Qed.

Lemma opt_uint name v : is_uint32 v → dec_law (optional (negb (v =? 0)) (Ok (marshalUint v))) (field name unmarshalUint) v.
Proof. intros Hv. apply opt_field; [intros _ _; by apply con_uint|]. by intros ->%negb_eqb_false. Qed.

Lemma man_uint name v : is_uint32 v → dec_law (Ok (marshalUint v)) (field name unmarshalUint) v.
Proof. intros Hv. apply dec_field. intros _. by apply con_uint. Qed.

Lemma opt_named_uint name v :
  is_uint32 v → dec_law (optional (negb (v =? 0)) (Ok (marshalUint v))) (field_buf name (named unmarshalUint)) v.
Proof. intros Hv. apply opt_named; [intros _ _; by apply con_uint|]. by intros ->%negb_eqb_false. Qed.

Lemma man_named_uint name v : is_uint32 v → dec_law (Ok (marshalUint v)) (field_buf name (named unmarshalUint)) v.
Proof. intros Hv. apply dec_named. intros _. by apply con_uint. Qed.

Lemma uint_not_null v l : marshalUint v ≠ NullEncoding :: l.
Proof. unfold marshalUint. repeat case_match; by intros [=]. Qed.

Lemma opt_named_uint_null name v null :
  is_uint32 v → dec_law (optional (negb (v =? null)) (Ok (marshalUint v))) (field_buf name (named (or_null null unmarshalUint))) v.
Proof.
  intros Hv. apply opt_named; [intros _ _; apply con_or_null; [by apply con_uint|apply uint_not_null]|]. by intros ->%negb_eqb_false.
Qed.

Lemma man_named_uint_null name v null :
  is_uint32 v → dec_law (Ok (marshalUint v)) (field_buf name (named (or_null null unmarshalUint))) v.
Proof. intros Hv. apply dec_named. intros _. apply con_or_null; [by apply con_uint|apply uint_not_null]. Qed.

Lemma opt_named_ubyte_null name v null :
  dec_law (optional (negb (v =? null)) (Ok (marshalUbyte v))) (field_buf name (named (or_null null unmarshalUbyte))) v.
Proof.
  apply opt_named; [intros _ _; by apply con_or_null; [apply con_ubyte|]|]. by intros ->%negb_eqb_false.
Qed.

Lemma opt_ulong name v : is_uint64 v → dec_law (optional (negb (v =? 0)) (Ok (marshalUlong v))) (field name unmarshalUlong) v.
Proof. intros Hv. apply opt_field; [intros _ _; by apply con_ulong|]. by intros ->%negb_eqb_false. Qed.

Lemma man_ulong name v : is_uint64 v → dec_law (Ok (marshalUlong v)) (field name unmarshalUlong) v.
Proof. intros Hv. apply dec_field. intros _. by apply con_ulong. Qed.

Lemma binary_size l : Z.of_nat (length (marshalBinary l)) < 2 ^ 32 → con_law (marshalBinary l) unmarshalBinary (Some l).
Proof.
  intros Hl. apply con_binary. revert Hl. unfold marshalBinary, marshal_var.
  destruct (_ <=? _); cbn [length]; rewrite ?length_app; lia.
Qed.

Lemma opt_binary name x :
  dec_law (optional (negb (is_nil x)) (Ok (marshalBinary (default [] x)))) (field name unmarshalBinary) x.
Proof. apply opt_field; destruct x; try done. intros _. apply binary_size. Qed.

Lemma man_binary name x : is_Some x → dec_law (Ok (marshalBinary (default [] x))) (field name unmarshalBinary) x.
Proof. intros [l ->]. apply dec_field, binary_size. Qed.

Lemma opt_named_binary name x :
  dec_law (optional (negb (is_nil x)) (Ok (marshalBinary (default [] x)))) (field_buf name (named unmarshalBinary)) x.
Proof. apply opt_named; destruct x; try done. intros _. apply binary_size. Qed.

Lemma opt_timestamp name t :
  is_time t → dec_law (optional (negb (t =? 0)) (Ok (marshalTimestamp t))) (field name unmarshalTimestamp) t.
Proof.
  intros Ht. apply opt_field; [|by intros ->%negb_eqb_false]. intros Hn _. destruct Ht as [->|Ht]; [done|]. by apply con_timestamp.
Qed.

(** An empty array of symbols becomes nil. *)
Definition symbols_canon (x : option (list string)) : option (list string) := if has_items x then x else None.

Lemma opt_symbols name x :
  dec_law (optional (has_items x) (Ok (marshalSymbolArray x))) (field name unmarshalSymbolArray) (symbols_canon x).
Proof.
  unfold symbols_canon. apply opt_field; destruct x as [[|s l]|]; try done. intros _. apply con_symbol_array.
Qed.

Lemma man_symbols name x : is_Some x → dec_law (Ok (marshalSymbolArray x)) (field name unmarshalSymbolArray) x.
Proof. intros [l ->]. apply dec_field, con_symbol_array. Qed.

(** A pointer to a composite. *)
Definition marshal_ptr {A} (f : A → writer) (x : option A) : writer :=
  match x with
  | Some a => f a
  | None => Err (ErrNew "<nil> receiver")
  end.

Lemma opt_ptr {A} msg name (f : A → writer) (m : decoder A) (canon : A → A) x :
  (∀ a, x = Some a → dec_law (f a) m (canon a)) → (∀ rest, m (NullEncoding :: rest) = Err errNull) →
  dec_law (optional (negb (is_nil x)) (Wrap msg (marshal_ptr f x))) (field_ptr name m) (canon <$> x).
Proof.
  intros Hf Hn. destruct x as [a|].
  - apply dec_optional; [|done]. intros _ l Hl%Wrap_Ok Hs rest. unfold field_ptr. by rewrite (Hf a eq_refl l Hl Hs rest).
  - apply dec_optional; [done|]. intros _ rest. unfold field_ptr. by rewrite Hn.
Qed.

Section MapFields.

Context `{TimeFormat}.

(** A nil map stays nil, another map has its canonical form. *)
Definition map_field_canon (m : option Struct) : option Struct :=
  match m with
  | None => None
  | m => map_canon m
  end.

Lemma opt_map msg name m :
  table_exact m = true →
  dec_law (optional (negb (is_nil m)) (Wrap msg (marshalMap m))) (field name unmarshalMap) (map_field_canon m).
Proof.
  intros Ht. destruct m as [s|].
  - apply dec_optional; [|done]. intros _ l Hl%Wrap_Ok Hs rest.
    by apply (dec_field name l unmarshalMap (map_canon (Some s)) (λ _, con_map (Some s) l Ht Hl Hs) l).
  - by apply dec_optional; [|intros _ rest].
Qed.

End MapFields.
