(* ===== verification/AmqpV1Types.v ===== *)
(** * AMQP 1.0: the types of the protocol

    The named types, the composites and the unions of src/mq/amqp/v1/amqp1-0-0.go and the hand-written
    decoders of unions in unmarshal.go.  For a composite: its struct, its zero value (the reset at the start
    of [UnmarshalBuffer]), the count of the fields that are written, the items of the list, and the decoder of
    the items.  A pointer or an interface that can be nil is an option; a field has its struct's name as prefix. *)
From S2P Require Import Prelude Emq Bytes AmqpValues AmqpV1 AmqpV1Fields.

Section Types.

Context `{TimeFormat}.

Definition RemoteChannelNull : Z := 65535.
Definition TransferNumberNull : Z := 4294967295.
Definition HandleNull : Z := 4294967295.
Definition SenderSettleModeNull : Z := 254.
Definition ReceiverSettleModeNull : Z := 254.

(** ** Named types *)

Definition Role_MarshalBuffer (t : bool) : list Z := marshalBoolean t.
Definition Role_UnmarshalBuffer : decoder bool := named unmarshalBoolean.

Definition SenderSettleMode_MarshalBuffer (t : Z) : list Z := marshalUbyte t.
Definition SenderSettleMode_UnmarshalBuffer : decoder Z := named (or_null SenderSettleModeNull unmarshalUbyte).

Definition ReceiverSettleMode_MarshalBuffer (t : Z) : list Z := marshalUbyte t.
Definition ReceiverSettleMode_UnmarshalBuffer : decoder Z := named (or_null ReceiverSettleModeNull unmarshalUbyte).

Definition Handle_MarshalBuffer (t : Z) : list Z := marshalUint t.
Definition Handle_UnmarshalBuffer : decoder Z := named (or_null HandleNull unmarshalUint).

Definition Seconds_MarshalBuffer (t : Z) : list Z := marshalUint t.
Definition Seconds_UnmarshalBuffer : decoder Z := named unmarshalUint.

Definition Milliseconds_MarshalBuffer (t : Z) : list Z := marshalUint t.
Definition Milliseconds_UnmarshalBuffer : decoder Z := named unmarshalUint.

Definition DeliveryTag_MarshalBuffer (t : option (list Z)) : list Z := marshalBinary (default [] t).
Definition DeliveryTag_UnmarshalBuffer : decoder (option (list Z)) := named unmarshalBinary.

Definition DeliveryNumber_MarshalBuffer (t : Z) : list Z := marshalUint t.
Definition DeliveryNumber_UnmarshalBuffer : decoder Z := named unmarshalUint.

Definition TransferNumber_MarshalBuffer (t : Z) : list Z := marshalUint t.
Definition TransferNumber_UnmarshalBuffer : decoder Z := named (or_null TransferNumberNull unmarshalUint).

Definition SequenceNo_MarshalBuffer (t : Z) : list Z := marshalUint t.
Definition SequenceNo_UnmarshalBuffer : decoder Z := named unmarshalUint.

Definition MessageFormat_MarshalBuffer (t : Z) : list Z := marshalUint t.
Definition MessageFormat_UnmarshalBuffer : decoder Z := named unmarshalUint.

Definition IETFLanguageTag_MarshalBuffer (t : string) : list Z := marshalSymbol t.
Definition IETFLanguageTag_UnmarshalBuffer : decoder string := named unmarshalSymbol.

Definition AMQPError_MarshalBuffer (t : string) : list Z := marshalSymbol t.
Definition AMQPError_UnmarshalBuffer : decoder string := named unmarshalSymbol.

Definition ConnectionError_MarshalBuffer (t : string) : list Z := marshalSymbol t.
Definition ConnectionError_UnmarshalBuffer : decoder string := named unmarshalSymbol.

Definition SessionError_MarshalBuffer (t : string) : list Z := marshalSymbol t.
Definition SessionError_UnmarshalBuffer : decoder string := named unmarshalSymbol.

Definition LinkError_MarshalBuffer (t : string) : list Z := marshalSymbol t.
Definition LinkError_UnmarshalBuffer : decoder string := named unmarshalSymbol.

Definition MessageIDUlong_MarshalBuffer (t : Z) : list Z := marshalUlong t.
Definition MessageIDUlong_UnmarshalBuffer : decoder Z := named unmarshalUlong.

Definition MessageIDUUID_MarshalBuffer (t : list Z) : list Z := marshalUUID t.
Definition MessageIDUUID_UnmarshalBuffer : decoder (list Z) := named unmarshalUUID.

Definition MessageIDBinary_MarshalBuffer (t : option (list Z)) : list Z := marshalBinary (default [] t).
Definition MessageIDBinary_UnmarshalBuffer : decoder (option (list Z)) := named unmarshalBinary.

Definition MessageIDString_MarshalBuffer (t : string) : list Z := marshalString t.
Definition MessageIDString_UnmarshalBuffer : decoder string := named unmarshalString.

Definition AddressString_MarshalBuffer (t : string) : list Z := marshalString t.
Definition AddressString_UnmarshalBuffer : decoder string := named unmarshalString.

Definition TerminusDurability_MarshalBuffer (t : Z) : list Z := marshalUint t.
Definition TerminusDurability_UnmarshalBuffer : decoder Z := named unmarshalUint.

Definition TerminusExpiryPolicy_MarshalBuffer (t : string) : list Z := marshalSymbol t.
Definition TerminusExpiryPolicy_UnmarshalBuffer : decoder string := named unmarshalSymbol.

Definition StdDistMode_MarshalBuffer (t : string) : list Z := marshalSymbol t.
Definition StdDistMode_UnmarshalBuffer : decoder string := named unmarshalSymbol.

Definition SASLCode_MarshalBuffer (t : Z) : list Z := marshalUbyte t.
Definition SASLCode_UnmarshalBuffer : decoder Z := named unmarshalUbyte.

(** ** Named maps: a null in place of the map is dereferenced *)

Definition deref (m : option Struct) : decoder Struct :=
  match m with
  | Some s => mret s
  | None => λ _, Panic "nil pointer dereference"
  end.

Definition Fields_MarshalBuffer (t : option Struct) : writer := marshalMap t.
Definition Fields_UnmarshalBuffer : decoder Struct := m ← named unmarshalMap; deref m.

Definition Annotations_MarshalBuffer (t : option Struct) : writer := marshalMap t.
Definition Annotations_UnmarshalBuffer : decoder Struct := m ← named unmarshalMap; deref m.

Definition FilterSet_MarshalBuffer (t : option Struct) : writer := marshalMap t.
Definition FilterSet_UnmarshalBuffer : decoder Struct := m ← named unmarshalMap; deref m.

Definition NodeProperties_MarshalBuffer (t : option Struct) : writer := marshalMap t.
Definition NodeProperties_UnmarshalBuffer : decoder Struct := m ← named unmarshalMap; deref m.

(** ** Error conditions *)

Inductive ErrorCondition : Type :=
| AMQPError (s : string)
| ConnectionError (s : string)
| SessionError (s : string)
| LinkError (s : string).

Definition ErrorCondition_string (c : ErrorCondition) : string :=
  match c with
  | AMQPError s | ConnectionError s | SessionError s | LinkError s => s
  end.

(** [t.Condition.MarshalBuffer(buf)] on an interface that may be nil. *)
Definition ErrorCondition_MarshalBuffer (t : option ErrorCondition) : writer :=
  match t with
  | Some (AMQPError s) => Ok (AMQPError_MarshalBuffer s)
  | Some (ConnectionError s) => Ok (ConnectionError_MarshalBuffer s)
  | Some (SessionError s) => Ok (SessionError_MarshalBuffer s)
  | Some (LinkError s) => Ok (LinkError_MarshalBuffer s)
  | None => Panic "nil pointer dereference"
  end.

(** [strings.HasPrefix] *)
Definition HasPrefix (s prefix : string) : bool := String.prefix prefix s.

Definition classify_condition (s : string) : ErrorCondition :=
  if HasPrefix s "amqp:connection:" then ConnectionError s
  else if HasPrefix s "amqp:session:" then SessionError s
  else if HasPrefix s "amqp:link:" then LinkError s
  else AMQPError s.

Definition unmarshalErrorCondition (constructor : Z) : decoder (option ErrorCondition) :=
  if constructor =? NullEncoding then mret None
  else s ← WrapD "unmarshal error-condition failed" (unmarshalSymbol constructor); mret (Some (classify_condition s)).

(** ** Outcomes and delivery states *)

(** *** Error *)

Record Error : Type := {
  Error_Condition : option ErrorCondition;
  Error_Description : string;
  Error_Info : option Struct;
}.

Definition ErrorDescriptor : Z := 29.

Definition Error_zero : Error := {|
  Error_Condition := None;
  Error_Description := ""%string;
  Error_Info := None |}.

Definition Error_count (t : Error) : Z :=
  fields_count [true;
    not_empty t.(Error_Description);
    negb (is_nil t.(Error_Info))].

Definition Error_items (t : Error) (count : Z) : writer :=
  item count 0 (Wrap "marshal field condition failed" (ErrorCondition_MarshalBuffer t.(Error_Condition))) +++
  item count 1 (optional (not_empty t.(Error_Description)) (Ok (marshalString t.(Error_Description)))) +++
  item count 2 (optional (negb (is_nil t.(Error_Info))) (Wrap "marshal field info failed" (Fields_MarshalBuffer t.(Error_Info)))) +++
  Ok [].

Definition Error_MarshalBuffer (t : Error) : writer :=
  marshal_composite ErrorDescriptor (Error_count t) (Error_items t (Error_count t)).

Definition Error_fields (count : Z) : decoder Error :=
  condition_ ← upto count 0 None (field "condition" unmarshalErrorCondition);
  description_ ← upto count 1 ""%string (field "description" unmarshalString);
  info_ ← upto count 2 None (field "info" unmarshalMap);
  mret {| Error_Condition := condition_;
    Error_Description := description_;
    Error_Info := info_ |}.

Definition Error_UnmarshalBuffer : decoder Error := unmarshal_composite "error" ErrorDescriptor Error_zero Error_fields.

(** *** Received *)

Record Received : Type := {
  Received_SectionNumber : Z;
  Received_SectionOffset : Z;
}.

Definition ReceivedDescriptor : Z := 35.

Definition Received_zero : Received := {|
  Received_SectionNumber := 0;
  Received_SectionOffset := 0 |}.

Definition Received_count (_ : Received) : Z :=
  fields_count [true;
    true].

Definition Received_items (t : Received) (count : Z) : writer :=
  item count 0 (Ok (marshalUint t.(Received_SectionNumber))) +++
  item count 1 (Ok (marshalUlong t.(Received_SectionOffset))) +++
  Ok [].

Definition Received_MarshalBuffer (t : Received) : writer :=
  marshal_composite ReceivedDescriptor (Received_count t) (Received_items t (Received_count t)).

Definition Received_fields (count : Z) : decoder Received :=
  sectionNumber_ ← upto count 0 0 (field "section-number" unmarshalUint);
  sectionOffset_ ← upto count 1 0 (field "section-offset" unmarshalUlong);
  mret {| Received_SectionNumber := sectionNumber_;
    Received_SectionOffset := sectionOffset_ |}.

Definition Received_UnmarshalBuffer : decoder Received := unmarshal_composite "received" ReceivedDescriptor Received_zero Received_fields.

(** *** Accepted *)

Record Accepted : Type := MkAccepted {}.

Definition AcceptedDescriptor : Z := 36.

Definition Accepted_zero : Accepted := MkAccepted.

Definition Accepted_count (_ : Accepted) : Z :=
  fields_count [].

Definition Accepted_items (_ : Accepted) (_ : Z) : writer :=
  Ok [].

Definition Accepted_MarshalBuffer (t : Accepted) : writer :=
  marshal_composite AcceptedDescriptor (Accepted_count t) (Accepted_items t (Accepted_count t)).

Definition Accepted_fields (_ : Z) : decoder Accepted := mret MkAccepted.

Definition Accepted_UnmarshalBuffer : decoder Accepted := unmarshal_composite "accepted" AcceptedDescriptor Accepted_zero Accepted_fields.

(** *** Rejected *)

Record Rejected : Type := {
  Rejected_Error : option Error;
}.

Definition RejectedDescriptor : Z := 37.

Definition Rejected_zero : Rejected := {|
  Rejected_Error := None |}.

Definition Rejected_count (t : Rejected) : Z :=
  fields_count [negb (is_nil t.(Rejected_Error))].

Definition Rejected_items (t : Rejected) (count : Z) : writer :=
  item count 0 (optional (negb (is_nil t.(Rejected_Error))) (Wrap "marshal field error failed" (marshal_ptr Error_MarshalBuffer t.(Rejected_Error)))) +++
  Ok [].

Definition Rejected_MarshalBuffer (t : Rejected) : writer :=
  marshal_composite RejectedDescriptor (Rejected_count t) (Rejected_items t (Rejected_count t)).

Definition Rejected_fields (count : Z) : decoder Rejected :=
  error_ ← upto count 0 None (field_ptr "error" Error_UnmarshalBuffer);
  mret {| Rejected_Error := error_ |}.

Definition Rejected_UnmarshalBuffer : decoder Rejected := unmarshal_composite "rejected" RejectedDescriptor Rejected_zero Rejected_fields.

(** *** Released *)

Record Released : Type := MkReleased {}.

Definition ReleasedDescriptor : Z := 38.

Definition Released_zero : Released := MkReleased.

Definition Released_count (_ : Released) : Z :=
  fields_count [].

Definition Released_items (_ : Released) (_ : Z) : writer :=
  Ok [].

Definition Released_MarshalBuffer (t : Released) : writer :=
  marshal_composite ReleasedDescriptor (Released_count t) (Released_items t (Released_count t)).

Definition Released_fields (_ : Z) : decoder Released := mret MkReleased.

Definition Released_UnmarshalBuffer : decoder Released := unmarshal_composite "released" ReleasedDescriptor Released_zero Released_fields.

(** *** Modified *)

Record Modified : Type := {
  Modified_DeliveryFailed : bool;
  Modified_UndeliverableHere : bool;
  Modified_MessageAnnotations : option Struct;
}.

Definition ModifiedDescriptor : Z := 39.

Definition Modified_zero : Modified := {|
  Modified_DeliveryFailed := false;
  Modified_UndeliverableHere := false;
  Modified_MessageAnnotations := None |}.

Definition Modified_count (t : Modified) : Z :=
  fields_count [t.(Modified_DeliveryFailed);
    t.(Modified_UndeliverableHere);
    negb (is_nil t.(Modified_MessageAnnotations))].

Definition Modified_items (t : Modified) (count : Z) : writer :=
  item count 0 (optional t.(Modified_DeliveryFailed) (Ok (marshalBoolean t.(Modified_DeliveryFailed)))) +++
  item count 1 (optional t.(Modified_UndeliverableHere) (Ok (marshalBoolean t.(Modified_UndeliverableHere)))) +++
  item count 2 (optional (negb (is_nil t.(Modified_MessageAnnotations))) (Wrap "marshal field message-annotations failed" (Fields_MarshalBuffer t.(Modified_MessageAnnotations)))) +++
  Ok [].

Definition Modified_MarshalBuffer (t : Modified) : writer :=
  marshal_composite ModifiedDescriptor (Modified_count t) (Modified_items t (Modified_count t)).

Definition Modified_fields (count : Z) : decoder Modified :=
  deliveryFailed_ ← upto count 0 false (field "delivery-failed" unmarshalBoolean);
  undeliverableHere_ ← upto count 1 false (field "undeliverable-here" unmarshalBoolean);
  messageAnnotations_ ← upto count 2 None (field "message-annotations" unmarshalMap);
  mret {| Modified_DeliveryFailed := deliveryFailed_;
    Modified_UndeliverableHere := undeliverableHere_;
    Modified_MessageAnnotations := messageAnnotations_ |}.

Definition Modified_UnmarshalBuffer : decoder Modified := unmarshal_composite "modified" ModifiedDescriptor Modified_zero Modified_fields.

(** ** Unions *)

Inductive DeliveryState : Type :=
| DeliveryAccepted (t : Accepted)
| DeliveryModified (t : Modified)
| DeliveryReceived (t : Received)
| DeliveryRejected (t : Rejected)
| DeliveryReleased (t : Released).

Inductive Outcome : Type :=
| OutcomeAccepted (t : Accepted)
| OutcomeModified (t : Modified)
| OutcomeRejected (t : Rejected)
| OutcomeReleased (t : Released).

Inductive MessageID : Type :=
| MessageIDBinary (v : list Z)
| MessageIDString (v : string)
| MessageIDUUID (v : list Z)
| MessageIDUlong (v : Z).

Inductive Address : Type := AddressString (v : string).

Definition marshalDeliveryStateUnion (src : option DeliveryState) : writer :=
  match src with
  | None => Err (ErrNew "marshal delivery-state failed: %T is not marshaler")
  | Some src => Wrap "marshal delivery-state failed" (
      match src with
      | DeliveryAccepted t => Accepted_MarshalBuffer t
      | DeliveryModified t => Modified_MarshalBuffer t
      | DeliveryReceived t => Received_MarshalBuffer t
      | DeliveryRejected t => Rejected_MarshalBuffer t
      | DeliveryReleased t => Released_MarshalBuffer t
      end)
  end.

Definition marshalOutcomeUnion (src : option Outcome) : writer :=
  match src with
  | None => Err (ErrNew "marshal outcome failed: %T is not marshaler")
  | Some src => Wrap "marshal outcome failed" (
      match src with
      | OutcomeAccepted t => Accepted_MarshalBuffer t
      | OutcomeModified t => Modified_MarshalBuffer t
      | OutcomeRejected t => Rejected_MarshalBuffer t
      | OutcomeReleased t => Released_MarshalBuffer t
      end)
  end.

Definition marshalMessageIDUnion (src : option MessageID) : writer :=
  match src with
  | Some (MessageIDBinary v) => Ok (marshalBinary v)
  | Some (MessageIDString v) => Ok (marshalString v)
  | Some (MessageIDUUID v) => Ok (marshalUUID v)
  | Some (MessageIDUlong v) => Ok (marshalUlong v)
  | None => Err (ErrNew "marshal message-id failed: %T not handled")
  end.

Definition marshalAddressUnion (src : option Address) : writer :=
  match src with
  | Some (AddressString v) => Ok (marshalString v)
  | None => Err (ErrNew "marshal address failed: %T not handled")
  end.

(** The composite of the descriptor, its error wrapped. *)
Definition union_member {A B} (msg : string) (m : decoder A) (f : A → B) : decoder (option B) :=
  a ← WrapD msg m; mret (Some (f a)).

Definition unmarshalDeliveryStateUnion : decoder (option DeliveryState) :=
  let msg := "unmarshal delivery-state failed"%string in
  descriptor ← peek_descriptor msg;
  if descriptor =? AcceptedDescriptor then union_member msg Accepted_UnmarshalBuffer DeliveryAccepted
  else if descriptor =? ModifiedDescriptor then union_member msg Modified_UnmarshalBuffer DeliveryModified
  else if descriptor =? ReceivedDescriptor then union_member msg Received_UnmarshalBuffer DeliveryReceived
  else if descriptor =? RejectedDescriptor then union_member msg Rejected_UnmarshalBuffer DeliveryRejected
  else if descriptor =? ReleasedDescriptor then union_member msg Released_UnmarshalBuffer DeliveryReleased
  else read_fail (ErrNew "unmarshal delivery-state failed: unhandled descriptor 0x%08x:0x%08x").

Definition unmarshalOutcomeUnion : decoder (option Outcome) :=
  let msg := "unmarshal outcome failed"%string in
  descriptor ← peek_descriptor msg;
  if descriptor =? AcceptedDescriptor then union_member msg Accepted_UnmarshalBuffer OutcomeAccepted
  else if descriptor =? ModifiedDescriptor then union_member msg Modified_UnmarshalBuffer OutcomeModified
  else if descriptor =? RejectedDescriptor then union_member msg Rejected_UnmarshalBuffer OutcomeRejected
  else if descriptor =? ReleasedDescriptor then union_member msg Released_UnmarshalBuffer OutcomeReleased
  else read_fail (ErrNew "unmarshal outcome failed: unhandled descriptor 0x%08x:0x%08x").

Definition unmarshalMessageIDUnion : decoder (option MessageID) :=
  let msg := "unmarshal message-id failed"%string in
  constructor ← ReadByte msg;
  if constructor =? NullEncoding then mret None
  else if one_of [BinaryVbin8Encoding; BinaryVbin32Encoding] constructor then
    v ← WrapD msg (unmarshalBinary constructor); mret (Some (MessageIDBinary (default [] v)))
  else if one_of [StringStr8Utf8Encoding; StringStr32Utf8Encoding] constructor then
    v ← WrapD msg (unmarshalString constructor); mret (Some (MessageIDString v))
  else if constructor =? UUIDEncoding then v ← WrapD msg (unmarshalUUID constructor); mret (Some (MessageIDUUID v))
  else if one_of [Ulong0Encoding; UlongSmallulongEncoding; UlongEncoding] constructor then
    v ← WrapD msg (unmarshalUlong constructor); mret (Some (MessageIDUlong v))
  else read_fail (ErrNew "unmarshal message-id failed: unexpected constructor 0x%02x").

Definition unmarshalAddressUnion : decoder (option Address) :=
  let msg := "unmarshal address failed"%string in
  constructor ← ReadByte msg;
  if constructor =? NullEncoding then mret None
  else if one_of [StringStr8Utf8Encoding; StringStr32Utf8Encoding] constructor then
    v ← WrapD msg (unmarshalString constructor); mret (Some (AddressString v))
  else read_fail (ErrNew "unmarshal address failed: unexpected constructor 0x%02x").

(** ** Termini, frames and the parts of messages *)

(** *** Source *)

Record Source : Type := {
  Source_Address : option Address;
  Source_Durable : Z;
  Source_ExpiryPolicy : string;
  Source_Timeout : Z;
  Source_Dynamic : bool;
  Source_DynamicNodeProperties : option Struct;
  Source_DistributionMode : string;
  Source_Filter : option Struct;
  Source_DefaultOutcome : option Outcome;
  Source_Outcomes : option (list string);
  Source_Capabilities : option (list string);
}.

Definition SourceDescriptor : Z := 40.

Definition Source_zero : Source := {|
  Source_Address := None;
  Source_Durable := 0;
  Source_ExpiryPolicy := ""%string;
  Source_Timeout := 0;
  Source_Dynamic := false;
  Source_DynamicNodeProperties := None;
  Source_DistributionMode := ""%string;
  Source_Filter := None;
  Source_DefaultOutcome := None;
  Source_Outcomes := None;
  Source_Capabilities := None |}.

Definition Source_count (t : Source) : Z :=
  fields_count [negb (is_nil t.(Source_Address));
    negb (t.(Source_Durable) =? 0);
    not_empty t.(Source_ExpiryPolicy);
    negb (t.(Source_Timeout) =? 0);
    t.(Source_Dynamic);
    negb (is_nil t.(Source_DynamicNodeProperties));
    not_empty t.(Source_DistributionMode);
    negb (is_nil t.(Source_Filter));
    negb (is_nil t.(Source_DefaultOutcome));
    has_items t.(Source_Outcomes);
    has_items t.(Source_Capabilities)].

Definition Source_items (t : Source) (count : Z) : writer :=
  item count 0 (optional (negb (is_nil t.(Source_Address))) (Wrap "marshal field address failed" (marshalAddressUnion t.(Source_Address)))) +++
  item count 1 (optional (negb (t.(Source_Durable) =? 0)) (Ok (TerminusDurability_MarshalBuffer t.(Source_Durable)))) +++
  item count 2 (optional (not_empty t.(Source_ExpiryPolicy)) (Ok (TerminusExpiryPolicy_MarshalBuffer t.(Source_ExpiryPolicy)))) +++
  item count 3 (optional (negb (t.(Source_Timeout) =? 0)) (Ok (Seconds_MarshalBuffer t.(Source_Timeout)))) +++
  item count 4 (optional t.(Source_Dynamic) (Ok (marshalBoolean t.(Source_Dynamic)))) +++
  item count 5 (optional (negb (is_nil t.(Source_DynamicNodeProperties))) (Wrap "marshal field dynamic-node-properties failed" (NodeProperties_MarshalBuffer t.(Source_DynamicNodeProperties)))) +++
  item count 6 (optional (not_empty t.(Source_DistributionMode)) (Ok (marshalSymbol t.(Source_DistributionMode)))) +++
  item count 7 (optional (negb (is_nil t.(Source_Filter))) (Wrap "marshal field filter failed" (FilterSet_MarshalBuffer t.(Source_Filter)))) +++
  item count 8 (optional (negb (is_nil t.(Source_DefaultOutcome))) (Wrap "marshal field default-outcome failed" (marshalOutcomeUnion t.(Source_DefaultOutcome)))) +++
  item count 9 (optional (has_items t.(Source_Outcomes)) (Ok (marshalSymbolArray t.(Source_Outcomes)))) +++
  item count 10 (optional (has_items t.(Source_Capabilities)) (Ok (marshalSymbolArray t.(Source_Capabilities)))) +++
  Ok [].

Definition Source_MarshalBuffer (t : Source) : writer :=
  marshal_composite SourceDescriptor (Source_count t) (Source_items t (Source_count t)).

Definition Source_fields (count : Z) : decoder Source :=
  address_ ← upto count 0 None (field_buf "address" unmarshalAddressUnion);
  durable_ ← upto count 1 0 (field_buf "durable" TerminusDurability_UnmarshalBuffer);
  expiryPolicy_ ← upto count 2 ""%string (field_buf "expiry-policy" TerminusExpiryPolicy_UnmarshalBuffer);
  timeout_ ← upto count 3 0 (field_buf "timeout" Seconds_UnmarshalBuffer);
  dynamic_ ← upto count 4 false (field "dynamic" unmarshalBoolean);
  dynamicNodeProperties_ ← upto count 5 None (field "dynamic-node-properties" unmarshalMap);
  distributionMode_ ← upto count 6 ""%string (field "distribution-mode" unmarshalSymbol);
  filter_ ← upto count 7 None (field "filter" unmarshalMap);
  defaultOutcome_ ← upto count 8 None (field_buf "default-outcome" unmarshalOutcomeUnion);
  outcomes_ ← upto count 9 None (field "outcomes" unmarshalSymbolArray);
  capabilities_ ← upto count 10 None (field "capabilities" unmarshalSymbolArray);
  mret {| Source_Address := address_;
    Source_Durable := durable_;
    Source_ExpiryPolicy := expiryPolicy_;
    Source_Timeout := timeout_;
    Source_Dynamic := dynamic_;
    Source_DynamicNodeProperties := dynamicNodeProperties_;
    Source_DistributionMode := distributionMode_;
    Source_Filter := filter_;
    Source_DefaultOutcome := defaultOutcome_;
    Source_Outcomes := outcomes_;
    Source_Capabilities := capabilities_ |}.

Definition Source_UnmarshalBuffer : decoder Source := unmarshal_composite "source" SourceDescriptor Source_zero Source_fields.

(** *** Target *)

Record Target : Type := {
  Target_Address : option Address;
  Target_Durable : Z;
  Target_ExpiryPolicy : string;
  Target_Timeout : Z;
  Target_Dynamic : bool;
  Target_DynamicNodeProperties : option Struct;
  Target_Capabilities : option (list string);
}.

Definition TargetDescriptor : Z := 41.

Definition Target_zero : Target := {|
  Target_Address := None;
  Target_Durable := 0;
  Target_ExpiryPolicy := ""%string;
  Target_Timeout := 0;
  Target_Dynamic := false;
  Target_DynamicNodeProperties := None;
  Target_Capabilities := None |}.

Definition Target_count (t : Target) : Z :=
  fields_count [negb (is_nil t.(Target_Address));
    negb (t.(Target_Durable) =? 0);
    not_empty t.(Target_ExpiryPolicy);
    negb (t.(Target_Timeout) =? 0);
    t.(Target_Dynamic);
    negb (is_nil t.(Target_DynamicNodeProperties));
    has_items t.(Target_Capabilities)].

Definition Target_items (t : Target) (count : Z) : writer :=
  item count 0 (optional (negb (is_nil t.(Target_Address))) (Wrap "marshal field address failed" (marshalAddressUnion t.(Target_Address)))) +++
  item count 1 (optional (negb (t.(Target_Durable) =? 0)) (Ok (TerminusDurability_MarshalBuffer t.(Target_Durable)))) +++
  item count 2 (optional (not_empty t.(Target_ExpiryPolicy)) (Ok (TerminusExpiryPolicy_MarshalBuffer t.(Target_ExpiryPolicy)))) +++
  item count 3 (optional (negb (t.(Target_Timeout) =? 0)) (Ok (Seconds_MarshalBuffer t.(Target_Timeout)))) +++
  item count 4 (optional t.(Target_Dynamic) (Ok (marshalBoolean t.(Target_Dynamic)))) +++
  item count 5 (optional (negb (is_nil t.(Target_DynamicNodeProperties))) (Wrap "marshal field dynamic-node-properties failed" (NodeProperties_MarshalBuffer t.(Target_DynamicNodeProperties)))) +++
  item count 6 (optional (has_items t.(Target_Capabilities)) (Ok (marshalSymbolArray t.(Target_Capabilities)))) +++
  Ok [].

Definition Target_MarshalBuffer (t : Target) : writer :=
  marshal_composite TargetDescriptor (Target_count t) (Target_items t (Target_count t)).

Definition Target_fields (count : Z) : decoder Target :=
  address_ ← upto count 0 None (field_buf "address" unmarshalAddressUnion);
  durable_ ← upto count 1 0 (field_buf "durable" TerminusDurability_UnmarshalBuffer);
  expiryPolicy_ ← upto count 2 ""%string (field_buf "expiry-policy" TerminusExpiryPolicy_UnmarshalBuffer);
  timeout_ ← upto count 3 0 (field_buf "timeout" Seconds_UnmarshalBuffer);
  dynamic_ ← upto count 4 false (field "dynamic" unmarshalBoolean);
  dynamicNodeProperties_ ← upto count 5 None (field "dynamic-node-properties" unmarshalMap);
  capabilities_ ← upto count 6 None (field "capabilities" unmarshalSymbolArray);
  mret {| Target_Address := address_;
    Target_Durable := durable_;
    Target_ExpiryPolicy := expiryPolicy_;
    Target_Timeout := timeout_;
    Target_Dynamic := dynamic_;
    Target_DynamicNodeProperties := dynamicNodeProperties_;
    Target_Capabilities := capabilities_ |}.

Definition Target_UnmarshalBuffer : decoder Target := unmarshal_composite "target" TargetDescriptor Target_zero Target_fields.

(** *** Open *)

Record Open : Type := {
  Open_ContainerID : string;
  Open_Hostname : string;
  Open_MaxFrameSize : Z;
  Open_ChannelMax : Z;
  Open_IdleTimeOut : Z;
  Open_OutgoingLocales : option (list string);
  Open_IncomingLocales : option (list string);
  Open_OfferedCapabilities : option (list string);
  Open_DesiredCapabilities : option (list string);
  Open_Properties : option Struct;
}.

Definition OpenDescriptor : Z := 16.

Definition Open_zero : Open := {|
  Open_ContainerID := ""%string;
  Open_Hostname := ""%string;
  Open_MaxFrameSize := 0;
  Open_ChannelMax := 0;
  Open_IdleTimeOut := 0;
  Open_OutgoingLocales := None;
  Open_IncomingLocales := None;
  Open_OfferedCapabilities := None;
  Open_DesiredCapabilities := None;
  Open_Properties := None |}.

Definition Open_count (t : Open) : Z :=
  fields_count [true;
    not_empty t.(Open_Hostname);
    negb (t.(Open_MaxFrameSize) =? 0);
    negb (t.(Open_ChannelMax) =? 0);
    negb (t.(Open_IdleTimeOut) =? 0);
    has_items t.(Open_OutgoingLocales);
    has_items t.(Open_IncomingLocales);
    has_items t.(Open_OfferedCapabilities);
    has_items t.(Open_DesiredCapabilities);
    negb (is_nil t.(Open_Properties))].

Definition Open_items (t : Open) (count : Z) : writer :=
  item count 0 (Ok (marshalString t.(Open_ContainerID))) +++
  item count 1 (optional (not_empty t.(Open_Hostname)) (Ok (marshalString t.(Open_Hostname)))) +++
  item count 2 (optional (negb (t.(Open_MaxFrameSize) =? 0)) (Ok (marshalUint t.(Open_MaxFrameSize)))) +++
  item count 3 (optional (negb (t.(Open_ChannelMax) =? 0)) (Ok (marshalUshort t.(Open_ChannelMax)))) +++
  item count 4 (optional (negb (t.(Open_IdleTimeOut) =? 0)) (Ok (Milliseconds_MarshalBuffer t.(Open_IdleTimeOut)))) +++
  item count 5 (optional (has_items t.(Open_OutgoingLocales)) (Ok (marshalSymbolArray t.(Open_OutgoingLocales)))) +++
  item count 6 (optional (has_items t.(Open_IncomingLocales)) (Ok (marshalSymbolArray t.(Open_IncomingLocales)))) +++
  item count 7 (optional (has_items t.(Open_OfferedCapabilities)) (Ok (marshalSymbolArray t.(Open_OfferedCapabilities)))) +++
  item count 8 (optional (has_items t.(Open_DesiredCapabilities)) (Ok (marshalSymbolArray t.(Open_DesiredCapabilities)))) +++
  item count 9 (optional (negb (is_nil t.(Open_Properties))) (Wrap "marshal field properties failed" (Fields_MarshalBuffer t.(Open_Properties)))) +++
  Ok [].

Definition Open_MarshalBuffer (t : Open) : writer :=
  marshal_composite OpenDescriptor (Open_count t) (Open_items t (Open_count t)).

Definition Open_fields (count : Z) : decoder Open :=
  containerID_ ← upto count 0 ""%string (field "container-id" unmarshalString);
  hostname_ ← upto count 1 ""%string (field "hostname" unmarshalString);
  maxFrameSize_ ← upto count 2 0 (field "max-frame-size" unmarshalUint);
  channelMax_ ← upto count 3 0 (field "channel-max" unmarshalUshort);
  idleTimeOut_ ← upto count 4 0 (field_buf "idle-time-out" Milliseconds_UnmarshalBuffer);
  outgoingLocales_ ← upto count 5 None (field "outgoing-locales" unmarshalSymbolArray);
  incomingLocales_ ← upto count 6 None (field "incoming-locales" unmarshalSymbolArray);
  offeredCapabilities_ ← upto count 7 None (field "offered-capabilities" unmarshalSymbolArray);
  desiredCapabilities_ ← upto count 8 None (field "desired-capabilities" unmarshalSymbolArray);
  properties_ ← upto count 9 None (field "properties" unmarshalMap);
  mret {| Open_ContainerID := containerID_;
    Open_Hostname := hostname_;
    Open_MaxFrameSize := maxFrameSize_;
    Open_ChannelMax := channelMax_;
    Open_IdleTimeOut := idleTimeOut_;
    Open_OutgoingLocales := outgoingLocales_;
    Open_IncomingLocales := incomingLocales_;
    Open_OfferedCapabilities := offeredCapabilities_;
    Open_DesiredCapabilities := desiredCapabilities_;
    Open_Properties := properties_ |}.

Definition Open_UnmarshalBuffer : decoder Open := unmarshal_composite "open" OpenDescriptor Open_zero Open_fields.

(** *** Begin *)

Record Begin : Type := {
  Begin_RemoteChannel : Z;
  Begin_NextOutgoingID : Z;
  Begin_IncomingWindow : Z;
  Begin_OutgoingWindow : Z;
  Begin_HandleMax : Z;
  Begin_OfferedCapabilities : option (list string);
  Begin_DesiredCapabilities : option (list string);
  Begin_Properties : option Struct;
}.

Definition BeginDescriptor : Z := 17.

Definition Begin_zero : Begin := {|
  Begin_RemoteChannel := RemoteChannelNull;
  Begin_NextOutgoingID := TransferNumberNull;
  Begin_IncomingWindow := 0;
  Begin_OutgoingWindow := 0;
  Begin_HandleMax := HandleNull;
  Begin_OfferedCapabilities := None;
  Begin_DesiredCapabilities := None;
  Begin_Properties := None |}.

Definition Begin_count (t : Begin) : Z :=
  fields_count [true;
    true;
    true;
    true;
    negb (t.(Begin_HandleMax) =? HandleNull);
    has_items t.(Begin_OfferedCapabilities);
    has_items t.(Begin_DesiredCapabilities);
    negb (is_nil t.(Begin_Properties))].

Definition Begin_items (t : Begin) (count : Z) : writer :=
  item count 0 (optional (negb (t.(Begin_RemoteChannel) =? RemoteChannelNull)) (Ok (marshalUshort t.(Begin_RemoteChannel)))) +++
  item count 1 (Ok (TransferNumber_MarshalBuffer t.(Begin_NextOutgoingID))) +++
  item count 2 (Ok (marshalUint t.(Begin_IncomingWindow))) +++
  item count 3 (Ok (marshalUint t.(Begin_OutgoingWindow))) +++
  item count 4 (optional (negb (t.(Begin_HandleMax) =? HandleNull)) (Ok (Handle_MarshalBuffer t.(Begin_HandleMax)))) +++
  item count 5 (optional (has_items t.(Begin_OfferedCapabilities)) (Ok (marshalSymbolArray t.(Begin_OfferedCapabilities)))) +++
  item count 6 (optional (has_items t.(Begin_DesiredCapabilities)) (Ok (marshalSymbolArray t.(Begin_DesiredCapabilities)))) +++
  item count 7 (optional (negb (is_nil t.(Begin_Properties))) (Wrap "marshal field properties failed" (Fields_MarshalBuffer t.(Begin_Properties)))) +++
  Ok [].

Definition Begin_MarshalBuffer (t : Begin) : writer :=
  marshal_composite BeginDescriptor (Begin_count t) (Begin_items t (Begin_count t)).

Definition Begin_fields (count : Z) : decoder Begin :=
  remoteChannel_ ← upto count 0 RemoteChannelNull (field "remote-channel" (or_null RemoteChannelNull unmarshalUshort));
  nextOutgoingID_ ← upto count 1 TransferNumberNull (field_buf "next-outgoing-id" TransferNumber_UnmarshalBuffer);
  incomingWindow_ ← upto count 2 0 (field "incoming-window" unmarshalUint);
  outgoingWindow_ ← upto count 3 0 (field "outgoing-window" unmarshalUint);
  handleMax_ ← upto count 4 HandleNull (field_buf "handle-max" Handle_UnmarshalBuffer);
  offeredCapabilities_ ← upto count 5 None (field "offered-capabilities" unmarshalSymbolArray);
  desiredCapabilities_ ← upto count 6 None (field "desired-capabilities" unmarshalSymbolArray);
  properties_ ← upto count 7 None (field "properties" unmarshalMap);
  mret {| Begin_RemoteChannel := remoteChannel_;
    Begin_NextOutgoingID := nextOutgoingID_;
    Begin_IncomingWindow := incomingWindow_;
    Begin_OutgoingWindow := outgoingWindow_;
    Begin_HandleMax := handleMax_;
    Begin_OfferedCapabilities := offeredCapabilities_;
    Begin_DesiredCapabilities := desiredCapabilities_;
    Begin_Properties := properties_ |}.

Definition Begin_UnmarshalBuffer : decoder Begin := unmarshal_composite "begin" BeginDescriptor Begin_zero Begin_fields.

(** *** Attach *)

Record Attach : Type := {
  Attach_Name : string;
  Attach_Handle : Z;
  Attach_Role : bool;
  Attach_SndSettleMode : Z;
  Attach_RcvSettleMode : Z;
  Attach_Source : option Source;
  Attach_Target : option Target;
  Attach_Unsettled : option Struct;
  Attach_IncompleteUnsettled : bool;
  Attach_InitialDeliveryCount : Z;
  Attach_MaxMessageSize : Z;
  Attach_OfferedCapabilities : option (list string);
  Attach_DesiredCapabilities : option (list string);
  Attach_Properties : option Struct;
}.

Definition AttachDescriptor : Z := 18.

Definition Attach_zero : Attach := {|
  Attach_Name := ""%string;
  Attach_Handle := HandleNull;
  Attach_Role := false;
  Attach_SndSettleMode := SenderSettleModeNull;
  Attach_RcvSettleMode := ReceiverSettleModeNull;
  Attach_Source := None;
  Attach_Target := None;
  Attach_Unsettled := None;
  Attach_IncompleteUnsettled := false;
  Attach_InitialDeliveryCount := 0;
  Attach_MaxMessageSize := 0;
  Attach_OfferedCapabilities := None;
  Attach_DesiredCapabilities := None;
  Attach_Properties := None |}.

Definition Attach_count (t : Attach) : Z :=
  fields_count [true;
    true;
    true;
    negb (t.(Attach_SndSettleMode) =? SenderSettleModeNull);
    negb (t.(Attach_RcvSettleMode) =? ReceiverSettleModeNull);
    negb (is_nil t.(Attach_Source));
    negb (is_nil t.(Attach_Target));
    negb (is_nil t.(Attach_Unsettled));
    t.(Attach_IncompleteUnsettled);
    negb (t.(Attach_InitialDeliveryCount) =? 0);
    negb (t.(Attach_MaxMessageSize) =? 0);
    has_items t.(Attach_OfferedCapabilities);
    has_items t.(Attach_DesiredCapabilities);
    negb (is_nil t.(Attach_Properties))].

Definition Attach_items (t : Attach) (count : Z) : writer :=
  item count 0 (Ok (marshalString t.(Attach_Name))) +++
  item count 1 (Ok (Handle_MarshalBuffer t.(Attach_Handle))) +++
  item count 2 (Ok (Role_MarshalBuffer t.(Attach_Role))) +++
  item count 3 (optional (negb (t.(Attach_SndSettleMode) =? SenderSettleModeNull)) (Ok (SenderSettleMode_MarshalBuffer t.(Attach_SndSettleMode)))) +++
  item count 4 (optional (negb (t.(Attach_RcvSettleMode) =? ReceiverSettleModeNull)) (Ok (ReceiverSettleMode_MarshalBuffer t.(Attach_RcvSettleMode)))) +++
  item count 5 (optional (negb (is_nil t.(Attach_Source))) (Wrap "marshal field source failed" (marshal_ptr Source_MarshalBuffer t.(Attach_Source)))) +++
  item count 6 (optional (negb (is_nil t.(Attach_Target))) (Wrap "marshal field target failed" (marshal_ptr Target_MarshalBuffer t.(Attach_Target)))) +++
  item count 7 (optional (negb (is_nil t.(Attach_Unsettled))) (Wrap "marshal field unsettled failed" (marshalMap t.(Attach_Unsettled)))) +++
  item count 8 (optional t.(Attach_IncompleteUnsettled) (Ok (marshalBoolean t.(Attach_IncompleteUnsettled)))) +++
  item count 9 (optional (negb (t.(Attach_InitialDeliveryCount) =? 0)) (Ok (SequenceNo_MarshalBuffer t.(Attach_InitialDeliveryCount)))) +++
  item count 10 (optional (negb (t.(Attach_MaxMessageSize) =? 0)) (Ok (marshalUlong t.(Attach_MaxMessageSize)))) +++
  item count 11 (optional (has_items t.(Attach_OfferedCapabilities)) (Ok (marshalSymbolArray t.(Attach_OfferedCapabilities)))) +++
  item count 12 (optional (has_items t.(Attach_DesiredCapabilities)) (Ok (marshalSymbolArray t.(Attach_DesiredCapabilities)))) +++
  item count 13 (optional (negb (is_nil t.(Attach_Properties))) (Wrap "marshal field properties failed" (Fields_MarshalBuffer t.(Attach_Properties)))) +++
  Ok [].

Definition Attach_MarshalBuffer (t : Attach) : writer :=
  marshal_composite AttachDescriptor (Attach_count t) (Attach_items t (Attach_count t)).

Definition Attach_fields (count : Z) : decoder Attach :=
  name_ ← upto count 0 ""%string (field "name" unmarshalString);
  handle_ ← upto count 1 HandleNull (field_buf "handle" Handle_UnmarshalBuffer);
  role_ ← upto count 2 false (field_buf "role" Role_UnmarshalBuffer);
  sndSettleMode_ ← upto count 3 SenderSettleModeNull (field_buf "snd-settle-mode" SenderSettleMode_UnmarshalBuffer);
  rcvSettleMode_ ← upto count 4 ReceiverSettleModeNull (field_buf "rcv-settle-mode" ReceiverSettleMode_UnmarshalBuffer);
  source_ ← upto count 5 None (field_ptr "source" Source_UnmarshalBuffer);
  target_ ← upto count 6 None (field_ptr "target" Target_UnmarshalBuffer);
  unsettled_ ← upto count 7 None (field "unsettled" unmarshalMap);
  incompleteUnsettled_ ← upto count 8 false (field "incomplete-unsettled" unmarshalBoolean);
  initialDeliveryCount_ ← upto count 9 0 (field_buf "initial-delivery-count" SequenceNo_UnmarshalBuffer);
  maxMessageSize_ ← upto count 10 0 (field "max-message-size" unmarshalUlong);
  offeredCapabilities_ ← upto count 11 None (field "offered-capabilities" unmarshalSymbolArray);
  desiredCapabilities_ ← upto count 12 None (field "desired-capabilities" unmarshalSymbolArray);
  properties_ ← upto count 13 None (field "properties" unmarshalMap);
  mret {| Attach_Name := name_;
    Attach_Handle := handle_;
    Attach_Role := role_;
    Attach_SndSettleMode := sndSettleMode_;
    Attach_RcvSettleMode := rcvSettleMode_;
    Attach_Source := source_;
    Attach_Target := target_;
    Attach_Unsettled := unsettled_;
    Attach_IncompleteUnsettled := incompleteUnsettled_;
    Attach_InitialDeliveryCount := initialDeliveryCount_;
    Attach_MaxMessageSize := maxMessageSize_;
    Attach_OfferedCapabilities := offeredCapabilities_;
    Attach_DesiredCapabilities := desiredCapabilities_;
    Attach_Properties := properties_ |}.

Definition Attach_UnmarshalBuffer : decoder Attach := unmarshal_composite "attach" AttachDescriptor Attach_zero Attach_fields.

(** *** Flow *)

Record Flow : Type := {
  Flow_NextIncomingID : Z;
  Flow_IncomingWindow : Z;
  Flow_NextOutgoingID : Z;
  Flow_OutgoingWindow : Z;
  Flow_Handle : Z;
  Flow_DeliveryCount : Z;
  Flow_LinkCredit : Z;
  Flow_Available : Z;
  Flow_Drain : bool;
  Flow_Echo : bool;
  Flow_Properties : option Struct;
}.

Definition FlowDescriptor : Z := 19.

Definition Flow_zero : Flow := {|
  Flow_NextIncomingID := TransferNumberNull;
  Flow_IncomingWindow := 0;
  Flow_NextOutgoingID := TransferNumberNull;
  Flow_OutgoingWindow := 0;
  Flow_Handle := HandleNull;
  Flow_DeliveryCount := 0;
  Flow_LinkCredit := 0;
  Flow_Available := 0;
  Flow_Drain := false;
  Flow_Echo := false;
  Flow_Properties := None |}.

Definition Flow_count (t : Flow) : Z :=
  fields_count [true;
    true;
    true;
    true;
    negb (t.(Flow_Handle) =? HandleNull);
    negb (t.(Flow_DeliveryCount) =? 0);
    negb (t.(Flow_LinkCredit) =? 0);
    negb (t.(Flow_Available) =? 0);
    t.(Flow_Drain);
    t.(Flow_Echo);
    negb (is_nil t.(Flow_Properties))].

Definition Flow_items (t : Flow) (count : Z) : writer :=
  item count 0 (optional (negb (t.(Flow_NextIncomingID) =? TransferNumberNull)) (Ok (TransferNumber_MarshalBuffer t.(Flow_NextIncomingID)))) +++
  item count 1 (Ok (marshalUint t.(Flow_IncomingWindow))) +++
  item count 2 (Ok (TransferNumber_MarshalBuffer t.(Flow_NextOutgoingID))) +++
  item count 3 (Ok (marshalUint t.(Flow_OutgoingWindow))) +++
  item count 4 (optional (negb (t.(Flow_Handle) =? HandleNull)) (Ok (Handle_MarshalBuffer t.(Flow_Handle)))) +++
  item count 5 (optional (negb (t.(Flow_DeliveryCount) =? 0)) (Ok (SequenceNo_MarshalBuffer t.(Flow_DeliveryCount)))) +++
  item count 6 (optional (negb (t.(Flow_LinkCredit) =? 0)) (Ok (marshalUint t.(Flow_LinkCredit)))) +++
  item count 7 (optional (negb (t.(Flow_Available) =? 0)) (Ok (marshalUint t.(Flow_Available)))) +++
  item count 8 (optional t.(Flow_Drain) (Ok (marshalBoolean t.(Flow_Drain)))) +++
  item count 9 (optional t.(Flow_Echo) (Ok (marshalBoolean t.(Flow_Echo)))) +++
  item count 10 (optional (negb (is_nil t.(Flow_Properties))) (Wrap "marshal field properties failed" (Fields_MarshalBuffer t.(Flow_Properties)))) +++
  Ok [].

Definition Flow_MarshalBuffer (t : Flow) : writer :=
  marshal_composite FlowDescriptor (Flow_count t) (Flow_items t (Flow_count t)).

Definition Flow_fields (count : Z) : decoder Flow :=
  nextIncomingID_ ← upto count 0 TransferNumberNull (field_buf "next-incoming-id" TransferNumber_UnmarshalBuffer);
  incomingWindow_ ← upto count 1 0 (field "incoming-window" unmarshalUint);
  nextOutgoingID_ ← upto count 2 TransferNumberNull (field_buf "next-outgoing-id" TransferNumber_UnmarshalBuffer);
  outgoingWindow_ ← upto count 3 0 (field "outgoing-window" unmarshalUint);
  handle_ ← upto count 4 HandleNull (field_buf "handle" Handle_UnmarshalBuffer);
  deliveryCount_ ← upto count 5 0 (field_buf "delivery-count" SequenceNo_UnmarshalBuffer);
  linkCredit_ ← upto count 6 0 (field "link-credit" unmarshalUint);
  available_ ← upto count 7 0 (field "available" unmarshalUint);
  drain_ ← upto count 8 false (field "drain" unmarshalBoolean);
  echo_ ← upto count 9 false (field "echo" unmarshalBoolean);
  properties_ ← upto count 10 None (field "properties" unmarshalMap);
  mret {| Flow_NextIncomingID := nextIncomingID_;
    Flow_IncomingWindow := incomingWindow_;
    Flow_NextOutgoingID := nextOutgoingID_;
    Flow_OutgoingWindow := outgoingWindow_;
    Flow_Handle := handle_;
    Flow_DeliveryCount := deliveryCount_;
    Flow_LinkCredit := linkCredit_;
    Flow_Available := available_;
    Flow_Drain := drain_;
    Flow_Echo := echo_;
    Flow_Properties := properties_ |}.

Definition Flow_UnmarshalBuffer : decoder Flow := unmarshal_composite "flow" FlowDescriptor Flow_zero Flow_fields.

(** *** Transfer *)

Record Transfer : Type := {
  Transfer_Handle : Z;
  Transfer_DeliveryID : Z;
  Transfer_DeliveryTag : option (list Z);
  Transfer_MessageFormat : Z;
  Transfer_Settled : bool;
  Transfer_More : bool;
  Transfer_RcvSettleMode : Z;
  Transfer_State : option DeliveryState;
  Transfer_Resume : bool;
  Transfer_Aborted : bool;
  Transfer_Batchable : bool;
}.

Definition TransferDescriptor : Z := 20.

Definition Transfer_zero : Transfer := {|
  Transfer_Handle := HandleNull;
  Transfer_DeliveryID := 0;
  Transfer_DeliveryTag := None;
  Transfer_MessageFormat := 0;
  Transfer_Settled := false;
  Transfer_More := false;
  Transfer_RcvSettleMode := ReceiverSettleModeNull;
  Transfer_State := None;
  Transfer_Resume := false;
  Transfer_Aborted := false;
  Transfer_Batchable := false |}.

Definition Transfer_count (t : Transfer) : Z :=
  fields_count [true;
    negb (t.(Transfer_DeliveryID) =? 0);
    negb (is_nil t.(Transfer_DeliveryTag));
    negb (t.(Transfer_MessageFormat) =? 0);
    t.(Transfer_Settled);
    t.(Transfer_More);
    negb (t.(Transfer_RcvSettleMode) =? ReceiverSettleModeNull);
    negb (is_nil t.(Transfer_State));
    t.(Transfer_Resume);
    t.(Transfer_Aborted);
    t.(Transfer_Batchable)].

Definition Transfer_items (t : Transfer) (count : Z) : writer :=
  item count 0 (Ok (Handle_MarshalBuffer t.(Transfer_Handle))) +++
  item count 1 (optional (negb (t.(Transfer_DeliveryID) =? 0)) (Ok (DeliveryNumber_MarshalBuffer t.(Transfer_DeliveryID)))) +++
  item count 2 (optional (negb (is_nil t.(Transfer_DeliveryTag))) (Ok (DeliveryTag_MarshalBuffer t.(Transfer_DeliveryTag)))) +++
  item count 3 (optional (negb (t.(Transfer_MessageFormat) =? 0)) (Ok (MessageFormat_MarshalBuffer t.(Transfer_MessageFormat)))) +++
  item count 4 (optional t.(Transfer_Settled) (Ok (marshalBoolean t.(Transfer_Settled)))) +++
  item count 5 (optional t.(Transfer_More) (Ok (marshalBoolean t.(Transfer_More)))) +++
  item count 6 (optional (negb (t.(Transfer_RcvSettleMode) =? ReceiverSettleModeNull)) (Ok (ReceiverSettleMode_MarshalBuffer t.(Transfer_RcvSettleMode)))) +++
  item count 7 (optional (negb (is_nil t.(Transfer_State))) (Wrap "marshal field state failed" (marshalDeliveryStateUnion t.(Transfer_State)))) +++
  item count 8 (optional t.(Transfer_Resume) (Ok (marshalBoolean t.(Transfer_Resume)))) +++
  item count 9 (optional t.(Transfer_Aborted) (Ok (marshalBoolean t.(Transfer_Aborted)))) +++
  item count 10 (optional t.(Transfer_Batchable) (Ok (marshalBoolean t.(Transfer_Batchable)))) +++
  Ok [].

Definition Transfer_MarshalBuffer (t : Transfer) : writer :=
  marshal_composite TransferDescriptor (Transfer_count t) (Transfer_items t (Transfer_count t)).

Definition Transfer_fields (count : Z) : decoder Transfer :=
  handle_ ← upto count 0 HandleNull (field_buf "handle" Handle_UnmarshalBuffer);
  deliveryID_ ← upto count 1 0 (field_buf "delivery-id" DeliveryNumber_UnmarshalBuffer);
  deliveryTag_ ← upto count 2 None (field_buf "delivery-tag" DeliveryTag_UnmarshalBuffer);
  messageFormat_ ← upto count 3 0 (field_buf "message-format" MessageFormat_UnmarshalBuffer);
  settled_ ← upto count 4 false (field "settled" unmarshalBoolean);
  more_ ← upto count 5 false (field "more" unmarshalBoolean);
  rcvSettleMode_ ← upto count 6 ReceiverSettleModeNull (field_buf "rcv-settle-mode" ReceiverSettleMode_UnmarshalBuffer);
  state_ ← upto count 7 None (field_buf "state" unmarshalDeliveryStateUnion);
  resume_ ← upto count 8 false (field "resume" unmarshalBoolean);
  aborted_ ← upto count 9 false (field "aborted" unmarshalBoolean);
  batchable_ ← upto count 10 false (field "batchable" unmarshalBoolean);
  mret {| Transfer_Handle := handle_;
    Transfer_DeliveryID := deliveryID_;
    Transfer_DeliveryTag := deliveryTag_;
    Transfer_MessageFormat := messageFormat_;
    Transfer_Settled := settled_;
    Transfer_More := more_;
    Transfer_RcvSettleMode := rcvSettleMode_;
    Transfer_State := state_;
    Transfer_Resume := resume_;
    Transfer_Aborted := aborted_;
    Transfer_Batchable := batchable_ |}.

Definition Transfer_UnmarshalBuffer : decoder Transfer := unmarshal_composite "transfer" TransferDescriptor Transfer_zero Transfer_fields.

(** *** Disposition *)

Record Disposition : Type := {
  Disposition_Role : bool;
  Disposition_First : Z;
  Disposition_Last : Z;
  Disposition_Settled : bool;
  Disposition_State : option DeliveryState;
  Disposition_Batchable : bool;
}.

Definition DispositionDescriptor : Z := 21.

Definition Disposition_zero : Disposition := {|
  Disposition_Role := false;
  Disposition_First := 0;
  Disposition_Last := 0;
  Disposition_Settled := false;
  Disposition_State := None;
  Disposition_Batchable := false |}.

Definition Disposition_count (t : Disposition) : Z :=
  fields_count [true;
    true;
    negb (t.(Disposition_Last) =? 0);
    t.(Disposition_Settled);
    negb (is_nil t.(Disposition_State));
    t.(Disposition_Batchable)].

Definition Disposition_items (t : Disposition) (count : Z) : writer :=
  item count 0 (Ok (Role_MarshalBuffer t.(Disposition_Role))) +++
  item count 1 (Ok (DeliveryNumber_MarshalBuffer t.(Disposition_First))) +++
  item count 2 (optional (negb (t.(Disposition_Last) =? 0)) (Ok (DeliveryNumber_MarshalBuffer t.(Disposition_Last)))) +++
  item count 3 (optional t.(Disposition_Settled) (Ok (marshalBoolean t.(Disposition_Settled)))) +++
  item count 4 (optional (negb (is_nil t.(Disposition_State))) (Wrap "marshal field state failed" (marshalDeliveryStateUnion t.(Disposition_State)))) +++
  item count 5 (optional t.(Disposition_Batchable) (Ok (marshalBoolean t.(Disposition_Batchable)))) +++
  Ok [].

Definition Disposition_MarshalBuffer (t : Disposition) : writer :=
  marshal_composite DispositionDescriptor (Disposition_count t) (Disposition_items t (Disposition_count t)).

Definition Disposition_fields (count : Z) : decoder Disposition :=
  role_ ← upto count 0 false (field_buf "role" Role_UnmarshalBuffer);
  first_ ← upto count 1 0 (field_buf "first" DeliveryNumber_UnmarshalBuffer);
  last_ ← upto count 2 0 (field_buf "last" DeliveryNumber_UnmarshalBuffer);
  settled_ ← upto count 3 false (field "settled" unmarshalBoolean);
  state_ ← upto count 4 None (field_buf "state" unmarshalDeliveryStateUnion);
  batchable_ ← upto count 5 false (field "batchable" unmarshalBoolean);
  mret {| Disposition_Role := role_;
    Disposition_First := first_;
    Disposition_Last := last_;
    Disposition_Settled := settled_;
    Disposition_State := state_;
    Disposition_Batchable := batchable_ |}.

Definition Disposition_UnmarshalBuffer : decoder Disposition := unmarshal_composite "disposition" DispositionDescriptor Disposition_zero Disposition_fields.

(** *** Detach *)

Record Detach : Type := {
  Detach_Handle : Z;
  Detach_Closed : bool;
  Detach_Error : option Error;
}.

Definition DetachDescriptor : Z := 22.

Definition Detach_zero : Detach := {|
  Detach_Handle := HandleNull;
  Detach_Closed := false;
  Detach_Error := None |}.

Definition Detach_count (t : Detach) : Z :=
  fields_count [true;
    t.(Detach_Closed);
    negb (is_nil t.(Detach_Error))].

Definition Detach_items (t : Detach) (count : Z) : writer :=
  item count 0 (Ok (Handle_MarshalBuffer t.(Detach_Handle))) +++
  item count 1 (optional t.(Detach_Closed) (Ok (marshalBoolean t.(Detach_Closed)))) +++
  item count 2 (optional (negb (is_nil t.(Detach_Error))) (Wrap "marshal field error failed" (marshal_ptr Error_MarshalBuffer t.(Detach_Error)))) +++
  Ok [].

Definition Detach_MarshalBuffer (t : Detach) : writer :=
  marshal_composite DetachDescriptor (Detach_count t) (Detach_items t (Detach_count t)).

Definition Detach_fields (count : Z) : decoder Detach :=
  handle_ ← upto count 0 HandleNull (field_buf "handle" Handle_UnmarshalBuffer);
  closed_ ← upto count 1 false (field "closed" unmarshalBoolean);
  error_ ← upto count 2 None (field_ptr "error" Error_UnmarshalBuffer);
  mret {| Detach_Handle := handle_;
    Detach_Closed := closed_;
    Detach_Error := error_ |}.

Definition Detach_UnmarshalBuffer : decoder Detach := unmarshal_composite "detach" DetachDescriptor Detach_zero Detach_fields.

(** *** End *)

Record End : Type := {
  End_Error : option Error;
}.

Definition EndDescriptor : Z := 23.

Definition End_zero : End := {|
  End_Error := None |}.

Definition End_count (t : End) : Z :=
  fields_count [negb (is_nil t.(End_Error))].

Definition End_items (t : End) (count : Z) : writer :=
  item count 0 (optional (negb (is_nil t.(End_Error))) (Wrap "marshal field error failed" (marshal_ptr Error_MarshalBuffer t.(End_Error)))) +++
  Ok [].

Definition End_MarshalBuffer (t : End) : writer :=
  marshal_composite EndDescriptor (End_count t) (End_items t (End_count t)).

Definition End_fields (count : Z) : decoder End :=
  error_ ← upto count 0 None (field_ptr "error" Error_UnmarshalBuffer);
  mret {| End_Error := error_ |}.

Definition End_UnmarshalBuffer : decoder End := unmarshal_composite "end" EndDescriptor End_zero End_fields.

(** *** Close *)

Record Close : Type := {
  Close_Error : option Error;
}.

Definition CloseDescriptor : Z := 24.

Definition Close_zero : Close := {|
  Close_Error := None |}.

Definition Close_count (t : Close) : Z :=
  fields_count [negb (is_nil t.(Close_Error))].

Definition Close_items (t : Close) (count : Z) : writer :=
  item count 0 (optional (negb (is_nil t.(Close_Error))) (Wrap "marshal field error failed" (marshal_ptr Error_MarshalBuffer t.(Close_Error)))) +++
  Ok [].

Definition Close_MarshalBuffer (t : Close) : writer :=
  marshal_composite CloseDescriptor (Close_count t) (Close_items t (Close_count t)).

Definition Close_fields (count : Z) : decoder Close :=
  error_ ← upto count 0 None (field_ptr "error" Error_UnmarshalBuffer);
  mret {| Close_Error := error_ |}.

Definition Close_UnmarshalBuffer : decoder Close := unmarshal_composite "close" CloseDescriptor Close_zero Close_fields.

(** *** Header *)

Record Header : Type := {
  Header_Durable : bool;
  Header_Priority : Z;
  Header_Ttl : Z;
  Header_FirstAcquirer : bool;
  Header_DeliveryCount : Z;
}.

Definition HeaderDescriptor : Z := 112.

Definition Header_zero : Header := {|
  Header_Durable := false;
  Header_Priority := 0;
  Header_Ttl := 0;
  Header_FirstAcquirer := false;
  Header_DeliveryCount := 0 |}.

Definition Header_count (t : Header) : Z :=
  fields_count [t.(Header_Durable);
    negb (t.(Header_Priority) =? 0);
    negb (t.(Header_Ttl) =? 0);
    t.(Header_FirstAcquirer);
    negb (t.(Header_DeliveryCount) =? 0)].

Definition Header_items (t : Header) (count : Z) : writer :=
  item count 0 (optional t.(Header_Durable) (Ok (marshalBoolean t.(Header_Durable)))) +++
  item count 1 (optional (negb (t.(Header_Priority) =? 0)) (Ok (marshalUbyte t.(Header_Priority)))) +++
  item count 2 (optional (negb (t.(Header_Ttl) =? 0)) (Ok (Milliseconds_MarshalBuffer t.(Header_Ttl)))) +++
  item count 3 (optional t.(Header_FirstAcquirer) (Ok (marshalBoolean t.(Header_FirstAcquirer)))) +++
  item count 4 (optional (negb (t.(Header_DeliveryCount) =? 0)) (Ok (marshalUint t.(Header_DeliveryCount)))) +++
  Ok [].

Definition Header_MarshalBuffer (t : Header) : writer :=
  marshal_composite HeaderDescriptor (Header_count t) (Header_items t (Header_count t)).

Definition Header_fields (count : Z) : decoder Header :=
  durable_ ← upto count 0 false (field "durable" unmarshalBoolean);
  priority_ ← upto count 1 0 (field "priority" unmarshalUbyte);
  ttl_ ← upto count 2 0 (field_buf "ttl" Milliseconds_UnmarshalBuffer);
  firstAcquirer_ ← upto count 3 false (field "first-acquirer" unmarshalBoolean);
  deliveryCount_ ← upto count 4 0 (field "delivery-count" unmarshalUint);
  mret {| Header_Durable := durable_;
    Header_Priority := priority_;
    Header_Ttl := ttl_;
    Header_FirstAcquirer := firstAcquirer_;
    Header_DeliveryCount := deliveryCount_ |}.

Definition Header_UnmarshalBuffer : decoder Header := unmarshal_composite "header" HeaderDescriptor Header_zero Header_fields.

(** *** Properties *)

Record Properties : Type := {
  Properties_MessageID : option MessageID;
  Properties_UserID : option (list Z);
  Properties_To : option Address;
  Properties_Subject : string;
  Properties_ReplyTo : option Address;
  Properties_CorrelationID : option MessageID;
  Properties_ContentType : string;
  Properties_ContentEncoding : string;
  Properties_AbsoluteExpiryTime : Z;
  Properties_CreationTime : Z;
  Properties_GroupID : string;
  Properties_GroupSequence : Z;
  Properties_ReplyToGroupID : string;
}.

Definition PropertiesDescriptor : Z := 115.

Definition Properties_zero : Properties := {|
  Properties_MessageID := None;
  Properties_UserID := None;
  Properties_To := None;
  Properties_Subject := ""%string;
  Properties_ReplyTo := None;
  Properties_CorrelationID := None;
  Properties_ContentType := ""%string;
  Properties_ContentEncoding := ""%string;
  Properties_AbsoluteExpiryTime := 0;
  Properties_CreationTime := 0;
  Properties_GroupID := ""%string;
  Properties_GroupSequence := 0;
  Properties_ReplyToGroupID := ""%string |}.

Definition Properties_count (t : Properties) : Z :=
  fields_count [negb (is_nil t.(Properties_MessageID));
    negb (is_nil t.(Properties_UserID));
    negb (is_nil t.(Properties_To));
    not_empty t.(Properties_Subject);
    negb (is_nil t.(Properties_ReplyTo));
    negb (is_nil t.(Properties_CorrelationID));
    not_empty t.(Properties_ContentType);
    not_empty t.(Properties_ContentEncoding);
    negb (t.(Properties_AbsoluteExpiryTime) =? 0);
    negb (t.(Properties_CreationTime) =? 0);
    not_empty t.(Properties_GroupID);
    negb (t.(Properties_GroupSequence) =? 0);
    not_empty t.(Properties_ReplyToGroupID)].

Definition Properties_items (t : Properties) (count : Z) : writer :=
  item count 0 (optional (negb (is_nil t.(Properties_MessageID))) (Wrap "marshal field message-id failed" (marshalMessageIDUnion t.(Properties_MessageID)))) +++
  item count 1 (optional (negb (is_nil t.(Properties_UserID))) (Ok (marshalBinary (default [] t.(Properties_UserID))))) +++
  item count 2 (optional (negb (is_nil t.(Properties_To))) (Wrap "marshal field to failed" (marshalAddressUnion t.(Properties_To)))) +++
  item count 3 (optional (not_empty t.(Properties_Subject)) (Ok (marshalString t.(Properties_Subject)))) +++
  item count 4 (optional (negb (is_nil t.(Properties_ReplyTo))) (Wrap "marshal field reply-to failed" (marshalAddressUnion t.(Properties_ReplyTo)))) +++
  item count 5 (optional (negb (is_nil t.(Properties_CorrelationID))) (Wrap "marshal field correlation-id failed" (marshalMessageIDUnion t.(Properties_CorrelationID)))) +++
  item count 6 (optional (not_empty t.(Properties_ContentType)) (Ok (marshalSymbol t.(Properties_ContentType)))) +++
  item count 7 (optional (not_empty t.(Properties_ContentEncoding)) (Ok (marshalSymbol t.(Properties_ContentEncoding)))) +++
  item count 8 (optional (negb (t.(Properties_AbsoluteExpiryTime) =? 0)) (Ok (marshalTimestamp t.(Properties_AbsoluteExpiryTime)))) +++
  item count 9 (optional (negb (t.(Properties_CreationTime) =? 0)) (Ok (marshalTimestamp t.(Properties_CreationTime)))) +++
  item count 10 (optional (not_empty t.(Properties_GroupID)) (Ok (marshalString t.(Properties_GroupID)))) +++
  item count 11 (optional (negb (t.(Properties_GroupSequence) =? 0)) (Ok (SequenceNo_MarshalBuffer t.(Properties_GroupSequence)))) +++
  item count 12 (optional (not_empty t.(Properties_ReplyToGroupID)) (Ok (marshalString t.(Properties_ReplyToGroupID)))) +++
  Ok [].

Definition Properties_MarshalBuffer (t : Properties) : writer :=
  marshal_composite PropertiesDescriptor (Properties_count t) (Properties_items t (Properties_count t)).

Definition Properties_fields (count : Z) : decoder Properties :=
  messageID_ ← upto count 0 None (field_buf "message-id" unmarshalMessageIDUnion);
  userID_ ← upto count 1 None (field "user-id" unmarshalBinary);
  to_ ← upto count 2 None (field_buf "to" unmarshalAddressUnion);
  subject_ ← upto count 3 ""%string (field "subject" unmarshalString);
  replyTo_ ← upto count 4 None (field_buf "reply-to" unmarshalAddressUnion);
  correlationID_ ← upto count 5 None (field_buf "correlation-id" unmarshalMessageIDUnion);
  contentType_ ← upto count 6 ""%string (field "content-type" unmarshalSymbol);
  contentEncoding_ ← upto count 7 ""%string (field "content-encoding" unmarshalSymbol);
  absoluteExpiryTime_ ← upto count 8 0 (field "absolute-expiry-time" unmarshalTimestamp);
  creationTime_ ← upto count 9 0 (field "creation-time" unmarshalTimestamp);
  groupID_ ← upto count 10 ""%string (field "group-id" unmarshalString);
  groupSequence_ ← upto count 11 0 (field_buf "group-sequence" SequenceNo_UnmarshalBuffer);
  replyToGroupID_ ← upto count 12 ""%string (field "reply-to-group-id" unmarshalString);
  mret {| Properties_MessageID := messageID_;
    Properties_UserID := userID_;
    Properties_To := to_;
    Properties_Subject := subject_;
    Properties_ReplyTo := replyTo_;
    Properties_CorrelationID := correlationID_;
    Properties_ContentType := contentType_;
    Properties_ContentEncoding := contentEncoding_;
    Properties_AbsoluteExpiryTime := absoluteExpiryTime_;
    Properties_CreationTime := creationTime_;
    Properties_GroupID := groupID_;
    Properties_GroupSequence := groupSequence_;
    Properties_ReplyToGroupID := replyToGroupID_ |}.

Definition Properties_UnmarshalBuffer : decoder Properties := unmarshal_composite "properties" PropertiesDescriptor Properties_zero Properties_fields.

(** *** DeleteOnClose *)

Record DeleteOnClose : Type := MkDeleteOnClose {}.

Definition DeleteOnCloseDescriptor : Z := 43.

Definition DeleteOnClose_zero : DeleteOnClose := MkDeleteOnClose.

Definition DeleteOnClose_count (_ : DeleteOnClose) : Z :=
  fields_count [].

Definition DeleteOnClose_items (_ : DeleteOnClose) (_ : Z) : writer :=
  Ok [].

Definition DeleteOnClose_MarshalBuffer (t : DeleteOnClose) : writer :=
  marshal_composite DeleteOnCloseDescriptor (DeleteOnClose_count t) (DeleteOnClose_items t (DeleteOnClose_count t)).

Definition DeleteOnClose_fields (_ : Z) : decoder DeleteOnClose := mret MkDeleteOnClose.

Definition DeleteOnClose_UnmarshalBuffer : decoder DeleteOnClose := unmarshal_composite "delete-on-close" DeleteOnCloseDescriptor DeleteOnClose_zero DeleteOnClose_fields.

(** *** DeleteOnNoLinks *)

Record DeleteOnNoLinks : Type := MkDeleteOnNoLinks {}.

Definition DeleteOnNoLinksDescriptor : Z := 44.

Definition DeleteOnNoLinks_zero : DeleteOnNoLinks := MkDeleteOnNoLinks.

Definition DeleteOnNoLinks_count (_ : DeleteOnNoLinks) : Z :=
  fields_count [].

Definition DeleteOnNoLinks_items (_ : DeleteOnNoLinks) (_ : Z) : writer :=
  Ok [].

Definition DeleteOnNoLinks_MarshalBuffer (t : DeleteOnNoLinks) : writer :=
  marshal_composite DeleteOnNoLinksDescriptor (DeleteOnNoLinks_count t) (DeleteOnNoLinks_items t (DeleteOnNoLinks_count t)).

Definition DeleteOnNoLinks_fields (_ : Z) : decoder DeleteOnNoLinks := mret MkDeleteOnNoLinks.

Definition DeleteOnNoLinks_UnmarshalBuffer : decoder DeleteOnNoLinks := unmarshal_composite "delete-on-no-links" DeleteOnNoLinksDescriptor DeleteOnNoLinks_zero DeleteOnNoLinks_fields.

(** *** DeleteOnNoMessages *)

Record DeleteOnNoMessages : Type := MkDeleteOnNoMessages {}.

Definition DeleteOnNoMessagesDescriptor : Z := 45.

Definition DeleteOnNoMessages_zero : DeleteOnNoMessages := MkDeleteOnNoMessages.

Definition DeleteOnNoMessages_count (_ : DeleteOnNoMessages) : Z :=
  fields_count [].

Definition DeleteOnNoMessages_items (_ : DeleteOnNoMessages) (_ : Z) : writer :=
  Ok [].

Definition DeleteOnNoMessages_MarshalBuffer (t : DeleteOnNoMessages) : writer :=
  marshal_composite DeleteOnNoMessagesDescriptor (DeleteOnNoMessages_count t) (DeleteOnNoMessages_items t (DeleteOnNoMessages_count t)).

Definition DeleteOnNoMessages_fields (_ : Z) : decoder DeleteOnNoMessages := mret MkDeleteOnNoMessages.

Definition DeleteOnNoMessages_UnmarshalBuffer : decoder DeleteOnNoMessages := unmarshal_composite "delete-on-no-messages" DeleteOnNoMessagesDescriptor DeleteOnNoMessages_zero DeleteOnNoMessages_fields.

(** *** DeleteOnNoLinksOrMessages *)

Record DeleteOnNoLinksOrMessages : Type := MkDeleteOnNoLinksOrMessages {}.

Definition DeleteOnNoLinksOrMessagesDescriptor : Z := 46.

Definition DeleteOnNoLinksOrMessages_zero : DeleteOnNoLinksOrMessages := MkDeleteOnNoLinksOrMessages.

Definition DeleteOnNoLinksOrMessages_count (_ : DeleteOnNoLinksOrMessages) : Z :=
  fields_count [].

Definition DeleteOnNoLinksOrMessages_items (_ : DeleteOnNoLinksOrMessages) (_ : Z) : writer :=
  Ok [].

Definition DeleteOnNoLinksOrMessages_MarshalBuffer (t : DeleteOnNoLinksOrMessages) : writer :=
  marshal_composite DeleteOnNoLinksOrMessagesDescriptor (DeleteOnNoLinksOrMessages_count t) (DeleteOnNoLinksOrMessages_items t (DeleteOnNoLinksOrMessages_count t)).

Definition DeleteOnNoLinksOrMessages_fields (_ : Z) : decoder DeleteOnNoLinksOrMessages := mret MkDeleteOnNoLinksOrMessages.

Definition DeleteOnNoLinksOrMessages_UnmarshalBuffer : decoder DeleteOnNoLinksOrMessages := unmarshal_composite "delete-on-no-links-or-messages" DeleteOnNoLinksOrMessagesDescriptor DeleteOnNoLinksOrMessages_zero DeleteOnNoLinksOrMessages_fields.

(** *** SASLMechanisms *)

Record SASLMechanisms : Type := {
  SASLMechanisms_SASLServerMechanisms : option (list string);
}.

Definition SASLMechanismsDescriptor : Z := 64.

Definition SASLMechanisms_zero : SASLMechanisms := {|
  SASLMechanisms_SASLServerMechanisms := None |}.

Definition SASLMechanisms_count (_ : SASLMechanisms) : Z :=
  fields_count [true].

Definition SASLMechanisms_items (t : SASLMechanisms) (count : Z) : writer :=
  item count 0 (Ok (marshalSymbolArray t.(SASLMechanisms_SASLServerMechanisms))) +++
  Ok [].

Definition SASLMechanisms_MarshalBuffer (t : SASLMechanisms) : writer :=
  marshal_composite SASLMechanismsDescriptor (SASLMechanisms_count t) (SASLMechanisms_items t (SASLMechanisms_count t)).

Definition SASLMechanisms_fields (count : Z) : decoder SASLMechanisms :=
  sASLServerMechanisms_ ← upto count 0 None (field "sasl-server-mechanisms" unmarshalSymbolArray);
  mret {| SASLMechanisms_SASLServerMechanisms := sASLServerMechanisms_ |}.

Definition SASLMechanisms_UnmarshalBuffer : decoder SASLMechanisms := unmarshal_composite "sasl-mechanisms" SASLMechanismsDescriptor SASLMechanisms_zero SASLMechanisms_fields.

(** *** SASLInit *)

Record SASLInit : Type := {
  SASLInit_Mechanism : string;
  SASLInit_InitialResponse : option (list Z);
  SASLInit_Hostname : string;
}.

Definition SASLInitDescriptor : Z := 65.

Definition SASLInit_zero : SASLInit := {|
  SASLInit_Mechanism := ""%string;
  SASLInit_InitialResponse := None;
  SASLInit_Hostname := ""%string |}.

Definition SASLInit_count (t : SASLInit) : Z :=
  fields_count [true;
    negb (is_nil t.(SASLInit_InitialResponse));
    not_empty t.(SASLInit_Hostname)].

Definition SASLInit_items (t : SASLInit) (count : Z) : writer :=
  item count 0 (Ok (marshalSymbol t.(SASLInit_Mechanism))) +++
  item count 1 (optional (negb (is_nil t.(SASLInit_InitialResponse))) (Ok (marshalBinary (default [] t.(SASLInit_InitialResponse))))) +++
  item count 2 (optional (not_empty t.(SASLInit_Hostname)) (Ok (marshalString t.(SASLInit_Hostname)))) +++
  Ok [].

Definition SASLInit_MarshalBuffer (t : SASLInit) : writer :=
  marshal_composite SASLInitDescriptor (SASLInit_count t) (SASLInit_items t (SASLInit_count t)).

Definition SASLInit_fields (count : Z) : decoder SASLInit :=
  mechanism_ ← upto count 0 ""%string (field "mechanism" unmarshalSymbol);
  initialResponse_ ← upto count 1 None (field "initial-response" unmarshalBinary);
  hostname_ ← upto count 2 ""%string (field "hostname" unmarshalString);
  mret {| SASLInit_Mechanism := mechanism_;
    SASLInit_InitialResponse := initialResponse_;
    SASLInit_Hostname := hostname_ |}.

Definition SASLInit_UnmarshalBuffer : decoder SASLInit := unmarshal_composite "sasl-init" SASLInitDescriptor SASLInit_zero SASLInit_fields.

(** *** SASLChallenge *)

Record SASLChallenge : Type := {
  SASLChallenge_Challenge : option (list Z);
}.

Definition SASLChallengeDescriptor : Z := 66.

Definition SASLChallenge_zero : SASLChallenge := {|
  SASLChallenge_Challenge := None |}.

Definition SASLChallenge_count (_ : SASLChallenge) : Z :=
  fields_count [true].

Definition SASLChallenge_items (t : SASLChallenge) (count : Z) : writer :=
  item count 0 (Ok (marshalBinary (default [] t.(SASLChallenge_Challenge)))) +++
  Ok [].

Definition SASLChallenge_MarshalBuffer (t : SASLChallenge) : writer :=
  marshal_composite SASLChallengeDescriptor (SASLChallenge_count t) (SASLChallenge_items t (SASLChallenge_count t)).

Definition SASLChallenge_fields (count : Z) : decoder SASLChallenge :=
  challenge_ ← upto count 0 None (field "challenge" unmarshalBinary);
  mret {| SASLChallenge_Challenge := challenge_ |}.

Definition SASLChallenge_UnmarshalBuffer : decoder SASLChallenge := unmarshal_composite "sasl-challenge" SASLChallengeDescriptor SASLChallenge_zero SASLChallenge_fields.

(** *** SASLResponse *)

Record SASLResponse : Type := {
  SASLResponse_Response : option (list Z);
}.

Definition SASLResponseDescriptor : Z := 67.

Definition SASLResponse_zero : SASLResponse := {|
  SASLResponse_Response := None |}.

Definition SASLResponse_count (_ : SASLResponse) : Z :=
  fields_count [true].

Definition SASLResponse_items (t : SASLResponse) (count : Z) : writer :=
  item count 0 (Ok (marshalBinary (default [] t.(SASLResponse_Response)))) +++
  Ok [].

Definition SASLResponse_MarshalBuffer (t : SASLResponse) : writer :=
  marshal_composite SASLResponseDescriptor (SASLResponse_count t) (SASLResponse_items t (SASLResponse_count t)).

Definition SASLResponse_fields (count : Z) : decoder SASLResponse :=
  response_ ← upto count 0 None (field "response" unmarshalBinary);
  mret {| SASLResponse_Response := response_ |}.

Definition SASLResponse_UnmarshalBuffer : decoder SASLResponse := unmarshal_composite "sasl-response" SASLResponseDescriptor SASLResponse_zero SASLResponse_fields.

(** *** SASLOutcome *)

Record SASLOutcome : Type := {
  SASLOutcome_Code : Z;
  SASLOutcome_AdditionalData : option (list Z);
}.

Definition SASLOutcomeDescriptor : Z := 68.

Definition SASLOutcome_zero : SASLOutcome := {|
  SASLOutcome_Code := 0;
  SASLOutcome_AdditionalData := None |}.

Definition SASLOutcome_count (t : SASLOutcome) : Z :=
  fields_count [true;
    negb (is_nil t.(SASLOutcome_AdditionalData))].

Definition SASLOutcome_items (t : SASLOutcome) (count : Z) : writer :=
  item count 0 (Ok (SASLCode_MarshalBuffer t.(SASLOutcome_Code))) +++
  item count 1 (optional (negb (is_nil t.(SASLOutcome_AdditionalData))) (Ok (marshalBinary (default [] t.(SASLOutcome_AdditionalData))))) +++
  Ok [].

Definition SASLOutcome_MarshalBuffer (t : SASLOutcome) : writer :=
  marshal_composite SASLOutcomeDescriptor (SASLOutcome_count t) (SASLOutcome_items t (SASLOutcome_count t)).

Definition SASLOutcome_fields (count : Z) : decoder SASLOutcome :=
  code_ ← upto count 0 0 (field_buf "code" SASLCode_UnmarshalBuffer);
  additionalData_ ← upto count 1 None (field "additional-data" unmarshalBinary);
  mret {| SASLOutcome_Code := code_;
    SASLOutcome_AdditionalData := additionalData_ |}.

Definition SASLOutcome_UnmarshalBuffer : decoder SASLOutcome := unmarshal_composite "sasl-outcome" SASLOutcomeDescriptor SASLOutcome_zero SASLOutcome_fields.

(** ** Described maps and binaries: sections of a message *)

Definition DeliveryAnnotationsDescriptor : Z := 113.

Definition DeliveryAnnotations_MarshalBuffer (t : option Struct) : writer :=
  Ok (DescriptorEncoding :: marshalUlong DeliveryAnnotationsDescriptor) +++ marshalMap t.

Definition DeliveryAnnotations_UnmarshalBuffer : decoder Struct :=
  _ ← read_descriptor DeliveryAnnotationsDescriptor;
  m ← named unmarshalMap;
  deref m.

Definition MessageAnnotationsDescriptor : Z := 114.

Definition MessageAnnotations_MarshalBuffer (t : option Struct) : writer :=
  Ok (DescriptorEncoding :: marshalUlong MessageAnnotationsDescriptor) +++ marshalMap t.

Definition MessageAnnotations_UnmarshalBuffer : decoder Struct :=
  _ ← read_descriptor MessageAnnotationsDescriptor;
  m ← named unmarshalMap;
  deref m.

Definition ApplicationPropertiesDescriptor : Z := 116.

Definition ApplicationProperties_MarshalBuffer (t : option Struct) : writer :=
  Ok (DescriptorEncoding :: marshalUlong ApplicationPropertiesDescriptor) +++ marshalMap t.

Definition ApplicationProperties_UnmarshalBuffer : decoder Struct :=
  _ ← read_descriptor ApplicationPropertiesDescriptor;
  m ← named unmarshalMap;
  deref m.

Definition FooterDescriptor : Z := 120.

Definition Footer_MarshalBuffer (t : option Struct) : writer :=
  Ok (DescriptorEncoding :: marshalUlong FooterDescriptor) +++ marshalMap t.

Definition Footer_UnmarshalBuffer : decoder Struct :=
  _ ← read_descriptor FooterDescriptor;
  m ← named unmarshalMap;
  deref m.

Definition DataDescriptor : Z := 117.

Definition Data_MarshalBuffer (t : list Z) : writer :=
  Ok (DescriptorEncoding :: marshalUlong DataDescriptor) +++ Ok (marshalBinary t).

Definition Data_UnmarshalBuffer : decoder (option (list Z)) :=
  _ ← read_descriptor DataDescriptor;
  named unmarshalBinary.

(** ** Sections of a message *)

Inductive MessageSection : Type :=
| SectionHeader (t : Header)
| SectionDeliveryAnnotations (t : Struct)
| SectionMessageAnnotations (t : Struct)
| SectionProperties (t : Properties)
| SectionApplicationProperties (t : Struct)
| SectionData (t : option (list Z))
| SectionFooter (t : Struct).

Definition Section_MarshalBuffer (s : MessageSection) : writer :=
  match s with
  | SectionHeader t => Header_MarshalBuffer t
  | SectionDeliveryAnnotations t => DeliveryAnnotations_MarshalBuffer (Some t)
  | SectionMessageAnnotations t => MessageAnnotations_MarshalBuffer (Some t)
  | SectionProperties t => Properties_MarshalBuffer t
  | SectionApplicationProperties t => ApplicationProperties_MarshalBuffer (Some t)
  | SectionData t => Data_MarshalBuffer (default [] t)
  | SectionFooter t => Footer_MarshalBuffer (Some t)
  end.

(** What [unmarshalBinary] has not consumed when it fails. *)
Definition binary_left (constructor : Z) (buf : list Z) : list Z :=
  if constructor =? BinaryVbin8Encoding then drop 1 buf
  else if constructor =? BinaryVbin32Encoding then if (length buf <? 4)%nat then buf else drop 4 buf
  else buf.

(** The error of [unmarshalBinary] is not looked at: the data stays nil. *)
Definition binary_or_nil (constructor : Z) : decoder (option (list Z)) := λ buf,
  match unmarshalBinary constructor buf with
  | Ok r => Ok r
  | Err _ => Ok (None, binary_left constructor buf)
  | Panic msg => Panic msg
  end.

Definition skip_descriptor (msg : string) : decoder () :=
  _ ← ReadByte msg; constructor ← ReadByte msg; _ ← unmarshalUlong constructor; mret ().

Definition UnmarshalSection : decoder MessageSection :=
  let msg := "unmarshal section failed"%string in
  descriptor ← peek_descriptor msg;
  if descriptor =? HeaderDescriptor then t ← WrapD msg Header_UnmarshalBuffer; mret (SectionHeader t)
  else if descriptor =? DeliveryAnnotationsDescriptor then
    t ← WrapD msg DeliveryAnnotations_UnmarshalBuffer; mret (SectionDeliveryAnnotations t)
  else if descriptor =? MessageAnnotationsDescriptor then
    t ← WrapD msg MessageAnnotations_UnmarshalBuffer; mret (SectionMessageAnnotations t)
  else if descriptor =? PropertiesDescriptor then t ← WrapD msg Properties_UnmarshalBuffer; mret (SectionProperties t)
  else if descriptor =? ApplicationPropertiesDescriptor then
    t ← WrapD msg ApplicationProperties_UnmarshalBuffer; mret (SectionApplicationProperties t)
  else if descriptor =? DataDescriptor then
    _ ← skip_descriptor msg;
    constructor ← ReadByte msg;
    data ← binary_or_nil constructor;
    mret (SectionData data)
  else if descriptor =? FooterDescriptor then t ← WrapD msg Footer_UnmarshalBuffer; mret (SectionFooter t)
  else read_fail (ErrNew "unmarshal section failed: unhandled descriptor 0x%08x:0x%08x").

End Types.
