(* ===== verification/AmqpV1TypesLaws.v ===== *)
(** * AMQP 1.0: the types of the protocol are read back

    For every composite [X]: [X_ok], what its fields have to satisfy to survive the encoding, [X_canon], what
    is read in place of a value (an empty array is absent, a map has its canonical form), and [X_law], that
    [UnmarshalBuffer] reads what [MarshalBuffer] wrote and leaves what follows. *)
From S2P Require Import Prelude Emq Bytes AmqpValues AmqpV1 AmqpV1Laws AmqpV1Fields AmqpV1Types.

Create HintDb v1.

(** The encoding of a field of a named type is the encoding of the type it names. *)
#[local] Hint Unfold Role_MarshalBuffer Role_UnmarshalBuffer SenderSettleMode_MarshalBuffer SenderSettleMode_UnmarshalBuffer ReceiverSettleMode_MarshalBuffer ReceiverSettleMode_UnmarshalBuffer Handle_MarshalBuffer Handle_UnmarshalBuffer Seconds_MarshalBuffer Seconds_UnmarshalBuffer Milliseconds_MarshalBuffer Milliseconds_UnmarshalBuffer DeliveryTag_MarshalBuffer DeliveryTag_UnmarshalBuffer DeliveryNumber_MarshalBuffer DeliveryNumber_UnmarshalBuffer TransferNumber_MarshalBuffer TransferNumber_UnmarshalBuffer SequenceNo_MarshalBuffer SequenceNo_UnmarshalBuffer MessageFormat_MarshalBuffer MessageFormat_UnmarshalBuffer TerminusDurability_MarshalBuffer TerminusDurability_UnmarshalBuffer TerminusExpiryPolicy_MarshalBuffer TerminusExpiryPolicy_UnmarshalBuffer SASLCode_MarshalBuffer SASLCode_UnmarshalBuffer Fields_MarshalBuffer Annotations_MarshalBuffer FilterSet_MarshalBuffer NodeProperties_MarshalBuffer : v1.

#[local] Hint Resolve opt_string man_string opt_symbol man_symbol opt_named_symbol opt_boolean man_boolean man_named_boolean
  opt_ubyte man_named_ubyte opt_ushort opt_ushort_null opt_uint man_uint opt_named_uint man_named_uint
  opt_named_uint_null man_named_uint_null opt_named_ubyte_null opt_ulong man_ulong opt_binary man_binary
  opt_named_binary opt_timestamp opt_symbols man_symbols opt_map : v1.

Lemma absent_option {A B} (f : A → B) (x : option A) : negb (is_nil x) = false → f <$> x = None.
Proof. by destruct x. Qed.

Lemma absent_nil {A} (x : option A) : negb (is_nil x) = false → x = None.
Proof. by destruct x. Qed.

Lemma absent_map (m : option Struct) : negb (is_nil m) = false → map_field_canon m = None.
Proof. by destruct m. Qed.

Lemma absent_symbols x : has_items x = false → symbols_canon x = None.
Proof. unfold symbols_canon. by intros ->. Qed.

Lemma absent_mandatory {A} (x y : A) : true = false → x = y.
Proof. done. Qed.

#[local] Hint Resolve absent_string negb_eqb_false absent_option absent_nil absent_map absent_symbols absent_mandatory : v1.

Lemma ptr_law {A} (P : A → Prop) (f : A → writer) (m : decoder A) (canon : A → A) x :
  from_option P True x → (∀ a, P a → dec_law (f a) m (canon a)) → ∀ a, x = Some a → dec_law (f a) m (canon a).
Proof. intros Hx Hl a ->. by apply Hl. Qed.

(** A field past the count is absent, and its zero value is its canonical form. *)
Ltac absent_field count :=
  let Hc := fresh in
  intros Hc; unfold count in Hc;
  match type of Hc with
  | fields_count ?present ≤ ?k =>
    let n := eval cbv in (Z.to_nat k) in
    apply (fields_count_absent present n _ eq_refl) in Hc; eauto 2 with v1
  end.

(** The law of a field by its hint; a pointer to a composite has the law of the composite. *)
Ltac present_field :=
  let Hc := fresh "Hc" in
  intros Hc; autounfold with v1;
  first [ solve [eauto 2 with v1] | eapply opt_ptr; [eapply ptr_law; [eassumption | intros; eauto 2 with v1] | auto 1 with v1] ].

Tactic Notation "composite_laws" reference(ok) reference(marshal) reference(unmarshal) reference(count) reference(items)
    reference(fields) reference(canon) :=
  let H := fresh in
  intros H; unfold ok in H; destruct_and? H; unfold marshal, unmarshal;
  apply composite_law;
  [ done | unfold count; match goal with |- 0 ≤ fields_count ?p < _ => pose proof (fields_count_bound p); cbn [length] in *; lia end
  | done | by intros -> |];
  unfold items, fields, canon;
  repeat (eapply dec_bind; [apply dec_upto; [present_field | absent_field count]|]);
  apply dec_ret; first [done | match goal with |- _ = ?t => by destruct t end].

Section TypesLaws.

Context `{TimeFormat}.

(** ** Error conditions *)

(** The prefix of the condition agrees with its type. *)
Definition ErrorCondition_ok (x : option ErrorCondition) : Prop :=
  match x with
  | Some c => is_symbol (ErrorCondition_string c) ∧ classify_condition (ErrorCondition_string c) = c
  | None => False
  end.

Lemma symbol_not_null s l : marshalSymbol s ≠ NullEncoding :: l.
Proof. unfold marshalSymbol, marshal_var. case_match; by intros [=]. Qed.

Lemma ErrorCondition_law msg name x :
  ErrorCondition_ok x → dec_law (Wrap msg (ErrorCondition_MarshalBuffer x)) (field name unmarshalErrorCondition) x.
Proof.
  destruct x as [c|]; [|done]. intros (Hs & Hc).
  assert (ErrorCondition_MarshalBuffer (Some c) = Ok (marshalSymbol (ErrorCondition_string c))) as -> by (by destruct c).
  apply dec_field. intros _. destruct (con_symbol (ErrorCondition_string c) Hs) as (k & l & E & Hd). rewrite E. exists k, l.
  split; [done|]. intros rest. unfold unmarshalErrorCondition.
  destruct (Z.eqb_spec k NullEncoding) as [->|]; [by apply symbol_not_null in E|].
  erewrite decoder_bind_Ok by (apply WrapD_Ok, Hd). by rewrite Hc.
Qed.

#[local] Hint Resolve ErrorCondition_law : v1.

(** ** Outcomes and delivery states *)

(** *** Error *)

Definition Error_ok (t : Error) : Prop :=
  ErrorCondition_ok t.(Error_Condition) ∧
  table_exact t.(Error_Info) = true.

Definition Error_canon (t : Error) : Error := {|
  Error_Condition := t.(Error_Condition);
  Error_Description := t.(Error_Description);
  Error_Info := map_field_canon t.(Error_Info) |}.

Lemma Error_law t : Error_ok t → dec_law (Error_MarshalBuffer t) Error_UnmarshalBuffer (Error_canon t).
Proof. composite_laws Error_ok Error_MarshalBuffer Error_UnmarshalBuffer Error_count Error_items Error_fields Error_canon. Qed.

Lemma Error_null rest : Error_UnmarshalBuffer (NullEncoding :: rest) = Err errNull.
Proof. done. Qed.

#[local] Hint Resolve Error_law Error_null : v1.

(** *** Received *)

Definition Received_ok (t : Received) : Prop :=
  is_uint32 t.(Received_SectionNumber) ∧
  is_uint64 t.(Received_SectionOffset).

Definition Received_canon (t : Received) : Received := {|
  Received_SectionNumber := t.(Received_SectionNumber);
  Received_SectionOffset := t.(Received_SectionOffset) |}.

Lemma Received_law t : Received_ok t → dec_law (Received_MarshalBuffer t) Received_UnmarshalBuffer (Received_canon t).
Proof. composite_laws Received_ok Received_MarshalBuffer Received_UnmarshalBuffer Received_count Received_items Received_fields Received_canon. Qed.

Lemma Received_null rest : Received_UnmarshalBuffer (NullEncoding :: rest) = Err errNull.
Proof. done. Qed.

#[local] Hint Resolve Received_law Received_null : v1.

(** *** Accepted *)

Definition Accepted_ok (_ : Accepted) : Prop :=
  True.

Definition Accepted_canon (t : Accepted) : Accepted := t.

Lemma Accepted_law t : Accepted_ok t → dec_law (Accepted_MarshalBuffer t) Accepted_UnmarshalBuffer (Accepted_canon t).
Proof. composite_laws Accepted_ok Accepted_MarshalBuffer Accepted_UnmarshalBuffer Accepted_count Accepted_items Accepted_fields Accepted_canon. Qed.

Lemma Accepted_null rest : Accepted_UnmarshalBuffer (NullEncoding :: rest) = Err errNull.
Proof. done. Qed.

#[local] Hint Resolve Accepted_law Accepted_null : v1.

(** *** Rejected *)

Definition Rejected_ok (t : Rejected) : Prop :=
  from_option Error_ok True t.(Rejected_Error).

Definition Rejected_canon (t : Rejected) : Rejected := {|
  Rejected_Error := Error_canon <$> t.(Rejected_Error) |}.

Lemma Rejected_law t : Rejected_ok t → dec_law (Rejected_MarshalBuffer t) Rejected_UnmarshalBuffer (Rejected_canon t).
Proof. composite_laws Rejected_ok Rejected_MarshalBuffer Rejected_UnmarshalBuffer Rejected_count Rejected_items Rejected_fields Rejected_canon. Qed.

Lemma Rejected_null rest : Rejected_UnmarshalBuffer (NullEncoding :: rest) = Err errNull.
Proof. done. Qed.

#[local] Hint Resolve Rejected_law Rejected_null : v1.

(** *** Released *)

Definition Released_ok (_ : Released) : Prop :=
  True.

Definition Released_canon (t : Released) : Released := t.

Lemma Released_law t : Released_ok t → dec_law (Released_MarshalBuffer t) Released_UnmarshalBuffer (Released_canon t).
Proof. composite_laws Released_ok Released_MarshalBuffer Released_UnmarshalBuffer Released_count Released_items Released_fields Released_canon. Qed.

Lemma Released_null rest : Released_UnmarshalBuffer (NullEncoding :: rest) = Err errNull.
Proof. done. Qed.

#[local] Hint Resolve Released_law Released_null : v1.

(** *** Modified *)

Definition Modified_ok (t : Modified) : Prop :=
  table_exact t.(Modified_MessageAnnotations) = true.

Definition Modified_canon (t : Modified) : Modified := {|
  Modified_DeliveryFailed := t.(Modified_DeliveryFailed);
  Modified_UndeliverableHere := t.(Modified_UndeliverableHere);
  Modified_MessageAnnotations := map_field_canon t.(Modified_MessageAnnotations) |}.

Lemma Modified_law t : Modified_ok t → dec_law (Modified_MarshalBuffer t) Modified_UnmarshalBuffer (Modified_canon t).
Proof. composite_laws Modified_ok Modified_MarshalBuffer Modified_UnmarshalBuffer Modified_count Modified_items Modified_fields Modified_canon. Qed.

Lemma Modified_null rest : Modified_UnmarshalBuffer (NullEncoding :: rest) = Err errNull.
Proof. done. Qed.

#[local] Hint Resolve Modified_law Modified_null : v1.

(** ** Unions *)

Lemma dec_wrap {A} msg w (r : decoder A) a : dec_law w r a → dec_law (Wrap msg w) r a.
Proof. intros Hw l Hl%Wrap_Ok. by apply Hw. Qed.

Lemma dec_wrapD {A} msg w (r : decoder A) a : dec_law w r a → dec_law w (WrapD msg r) a.
Proof. intros Hw l Hl Hs rest. by apply WrapD_Ok, Hw. Qed.

Lemma peek_descriptor_law msg descriptor rest :
  0 ≤ descriptor < 2 ^ 64 →
  peek_descriptor msg ((DescriptorEncoding :: marshalUlong descriptor) ++ rest) =
    Ok (descriptor, (DescriptorEncoding :: marshalUlong descriptor) ++ rest).
Proof.
  intros Hd. destruct (con_ulong descriptor Hd) as (c & l & -> & Hu). cbn [app]. unfold peek_descriptor, peek.
  erewrite decoder_bind_Ok by apply ReadByte_cons. cbn [Z.eqb negb DescriptorEncoding].
  erewrite decoder_bind_Ok by apply ReadByte_cons. by erewrite WrapD_Ok by apply Hu.
Qed.

(** A described type is read by the decoder that its descriptor selects. *)
Lemma described_law {A} msg descriptor w tail (body : Z → decoder A) a :
  w = Ok (DescriptorEncoding :: marshalUlong descriptor) +++ tail → 0 ≤ descriptor < 2 ^ 64 →
  dec_law w (body descriptor) a → dec_law w (d ← peek_descriptor msg; body d) a.
Proof.
  intros Hw Hd Hb l Hl Hs rest. specialize (Hb l Hl Hs rest). rewrite Hw in Hl.
  apply wapp_Ok in Hl as (l1 & l2 & <-%Ok_inj & _ & ->).
  rewrite <- app_assoc in *. by erewrite decoder_bind_Ok by (by apply peek_descriptor_law).
Qed.

Lemma union_member_law {A B} msg w (m : decoder A) a (f : A → B) : dec_law w m a → dec_law w (union_member msg m f) (Some (f a)).
Proof.
  intros Hm l Hl Hs rest. unfold union_member. by erewrite decoder_bind_Ok by (by apply WrapD_Ok, Hm).
Qed.

Definition DeliveryState_ok (s : DeliveryState) : Prop :=
  match s with
  | DeliveryAccepted t => Accepted_ok t
  | DeliveryModified t => Modified_ok t
  | DeliveryReceived t => Received_ok t
  | DeliveryRejected t => Rejected_ok t
  | DeliveryReleased t => Released_ok t
  end.

Definition DeliveryState_canon (s : DeliveryState) : DeliveryState :=
  match s with
  | DeliveryAccepted t => DeliveryAccepted (Accepted_canon t)
  | DeliveryModified t => DeliveryModified (Modified_canon t)
  | DeliveryReceived t => DeliveryReceived (Received_canon t)
  | DeliveryRejected t => DeliveryRejected (Rejected_canon t)
  | DeliveryReleased t => DeliveryReleased (Released_canon t)
  end.

Definition Outcome_ok (s : Outcome) : Prop :=
  match s with
  | OutcomeAccepted t => Accepted_ok t
  | OutcomeModified t => Modified_ok t
  | OutcomeRejected t => Rejected_ok t
  | OutcomeReleased t => Released_ok t
  end.

Definition Outcome_canon (s : Outcome) : Outcome :=
  match s with
  | OutcomeAccepted t => OutcomeAccepted (Accepted_canon t)
  | OutcomeModified t => OutcomeModified (Modified_canon t)
  | OutcomeRejected t => OutcomeRejected (Rejected_canon t)
  | OutcomeReleased t => OutcomeReleased (Released_canon t)
  end.

Ltac union_member_laws :=
  cbn [DeliveryState_canon Outcome_canon]; apply dec_wrap;
  eapply described_law; [reflexivity | done | apply union_member_law; auto with v1].

Lemma DeliveryState_law s :
  DeliveryState_ok s → dec_law (marshalDeliveryStateUnion (Some s)) unmarshalDeliveryStateUnion (Some (DeliveryState_canon s)).
Proof. destruct s; intros Hs; union_member_laws. Qed.

Lemma Outcome_law s : Outcome_ok s → dec_law (marshalOutcomeUnion (Some s)) unmarshalOutcomeUnion (Some (Outcome_canon s)).
Proof. destruct s; intros Hs; union_member_laws. Qed.

(** A union that has no null: the field has to be present, or past the count. *)
Lemma opt_union {A} msg name (P : A → Prop) (canon : A → A) (f : option A → writer) (r : decoder (option A)) x count k :
  (is_Some x ∨ count ≤ k) → from_option P True x → (∀ a, P a → dec_law (f (Some a)) r (Some (canon a))) → k < count →
  dec_law (optional (negb (is_nil x)) (Wrap msg (f x))) (field_buf name r) (canon <$> x).
Proof. intros [[a ->]|?] Hp Hl ?; [|lia]. by apply dec_wrapD, dec_wrap, Hl. Qed.

Lemma opt_delivery_state msg name x count k :
  (is_Some x ∨ count ≤ k) → from_option DeliveryState_ok True x → k < count →
  dec_law (optional (negb (is_nil x)) (Wrap msg (marshalDeliveryStateUnion x)))
    (field_buf name unmarshalDeliveryStateUnion) (DeliveryState_canon <$> x).
Proof. intros. eapply opt_union; eauto using DeliveryState_law. Qed.

Lemma opt_outcome msg name x count k :
  (is_Some x ∨ count ≤ k) → from_option Outcome_ok True x → k < count →
  dec_law (optional (negb (is_nil x)) (Wrap msg (marshalOutcomeUnion x))) (field_buf name unmarshalOutcomeUnion) (Outcome_canon <$> x).
Proof. intros. eapply opt_union; eauto using Outcome_law. Qed.

(** [UUID] is an array of 16 bytes. *)
Definition MessageID_ok (x : MessageID) : Prop :=
  match x with
  | MessageIDUUID v => length v = 16%nat
  | MessageIDUlong v => is_uint64 v
  | _ => True
  end.

(** A member of a union that is told by its constructors. *)
Lemma choice_law {A B} msg bytes (u : Z → decoder A) a (f : A → option B) (body : Z → decoder (option B)) :
  (Z.of_nat (length bytes) < 2 ^ 32 → con_law bytes u a) →
  (∀ c l, bytes = c :: l → body c = (v ← WrapD msg (u c); mret (f v))) →
  dec_law (Ok bytes) (c ← ReadByte msg; body c) (f a).
Proof.
  intros Hc Hb l <-%Ok_inj Hs rest. destruct (Hc Hs) as (c & k & -> & Hd). cbn [app].
  erewrite decoder_bind_Ok by apply ReadByte_cons. rewrite (Hb c k eq_refl).
  by erewrite decoder_bind_Ok by (apply WrapD_Ok, Hd).
Qed.

Ltac choice := intros c l; unfold marshalBinary, marshalString, marshalUUID, marshalUlong, marshal_var; repeat case_match; intros [= <- _]; done.

Lemma MessageID_law x :
  MessageID_ok x → dec_law (marshalMessageIDUnion (Some x)) unmarshalMessageIDUnion (Some x).
Proof.
  destruct x as [v|v|v|v]; intros Hx; cbn [marshalMessageIDUnion]; unfold unmarshalMessageIDUnion.
  - apply (choice_law _ _ unmarshalBinary (Some v) (λ d, Some (MessageIDBinary (default [] d)))); [apply binary_size|choice].
  - apply (choice_law _ _ unmarshalString v (λ d, Some (MessageIDString d))); [apply string_size|choice].
  - apply (choice_law _ _ unmarshalUUID v (λ d, Some (MessageIDUUID d))); [intros _; by apply con_uuid|choice].
  - apply (choice_law _ _ unmarshalUlong v (λ d, Some (MessageIDUlong d))); [intros _; by apply con_ulong|choice].
Qed.

Lemma opt_message_id msg name x :
  from_option MessageID_ok True x →
  dec_law (optional (negb (is_nil x)) (Wrap msg (marshalMessageIDUnion x))) (field_buf name unmarshalMessageIDUnion) x.
Proof.
  destruct x as [x|]; intros Hx; [by apply dec_wrapD, dec_wrap, MessageID_law|]. by apply dec_optional; [|intros _ rest].
Qed.

Lemma Address_law x : dec_law (marshalAddressUnion (Some x)) unmarshalAddressUnion (Some x).
Proof.
  destruct x as [v]. apply (choice_law _ _ unmarshalString v (λ d, Some (AddressString d))); [apply string_size|choice].
Qed.

Lemma opt_address msg name x :
  dec_law (optional (negb (is_nil x)) (Wrap msg (marshalAddressUnion x))) (field_buf name unmarshalAddressUnion) x.
Proof. destruct x as [x|]; [by apply dec_wrapD, dec_wrap, Address_law|]. by apply dec_optional; [|intros _ rest]. Qed.

#[local] Hint Resolve opt_message_id opt_address opt_delivery_state opt_outcome : v1.

(** ** Termini, frames and the parts of messages *)

(** *** Source *)

Definition Source_ok (t : Source) : Prop :=
  is_uint32 t.(Source_Durable) ∧
  is_symbol t.(Source_ExpiryPolicy) ∧
  is_uint32 t.(Source_Timeout) ∧
  table_exact t.(Source_DynamicNodeProperties) = true ∧
  is_symbol t.(Source_DistributionMode) ∧
  table_exact t.(Source_Filter) = true ∧
  (is_Some t.(Source_DefaultOutcome) ∨ Source_count t ≤ 8) ∧
  from_option Outcome_ok True t.(Source_DefaultOutcome).

Definition Source_canon (t : Source) : Source := {|
  Source_Address := t.(Source_Address);
  Source_Durable := t.(Source_Durable);
  Source_ExpiryPolicy := t.(Source_ExpiryPolicy);
  Source_Timeout := t.(Source_Timeout);
  Source_Dynamic := t.(Source_Dynamic);
  Source_DynamicNodeProperties := map_field_canon t.(Source_DynamicNodeProperties);
  Source_DistributionMode := t.(Source_DistributionMode);
  Source_Filter := map_field_canon t.(Source_Filter);
  Source_DefaultOutcome := Outcome_canon <$> t.(Source_DefaultOutcome);
  Source_Outcomes := symbols_canon t.(Source_Outcomes);
  Source_Capabilities := symbols_canon t.(Source_Capabilities) |}.

Lemma Source_law t : Source_ok t → dec_law (Source_MarshalBuffer t) Source_UnmarshalBuffer (Source_canon t).
Proof. composite_laws Source_ok Source_MarshalBuffer Source_UnmarshalBuffer Source_count Source_items Source_fields Source_canon. Qed.

Lemma Source_null rest : Source_UnmarshalBuffer (NullEncoding :: rest) = Err errNull.
Proof. done. Qed.

#[local] Hint Resolve Source_law Source_null : v1.

(** *** Target *)

Definition Target_ok (t : Target) : Prop :=
  is_uint32 t.(Target_Durable) ∧
  is_symbol t.(Target_ExpiryPolicy) ∧
  is_uint32 t.(Target_Timeout) ∧
  table_exact t.(Target_DynamicNodeProperties) = true.

Definition Target_canon (t : Target) : Target := {|
  Target_Address := t.(Target_Address);
  Target_Durable := t.(Target_Durable);
  Target_ExpiryPolicy := t.(Target_ExpiryPolicy);
  Target_Timeout := t.(Target_Timeout);
  Target_Dynamic := t.(Target_Dynamic);
  Target_DynamicNodeProperties := map_field_canon t.(Target_DynamicNodeProperties);
  Target_Capabilities := symbols_canon t.(Target_Capabilities) |}.

Lemma Target_law t : Target_ok t → dec_law (Target_MarshalBuffer t) Target_UnmarshalBuffer (Target_canon t).
Proof. composite_laws Target_ok Target_MarshalBuffer Target_UnmarshalBuffer Target_count Target_items Target_fields Target_canon. Qed.

Lemma Target_null rest : Target_UnmarshalBuffer (NullEncoding :: rest) = Err errNull.
Proof. done. Qed.

#[local] Hint Resolve Target_law Target_null : v1.

(** *** Open *)

Definition Open_ok (t : Open) : Prop :=
  is_uint32 t.(Open_MaxFrameSize) ∧
  is_uint16 t.(Open_ChannelMax) ∧
  is_uint32 t.(Open_IdleTimeOut) ∧
  table_exact t.(Open_Properties) = true.

Definition Open_canon (t : Open) : Open := {|
  Open_ContainerID := t.(Open_ContainerID);
  Open_Hostname := t.(Open_Hostname);
  Open_MaxFrameSize := t.(Open_MaxFrameSize);
  Open_ChannelMax := t.(Open_ChannelMax);
  Open_IdleTimeOut := t.(Open_IdleTimeOut);
  Open_OutgoingLocales := symbols_canon t.(Open_OutgoingLocales);
  Open_IncomingLocales := symbols_canon t.(Open_IncomingLocales);
  Open_OfferedCapabilities := symbols_canon t.(Open_OfferedCapabilities);
  Open_DesiredCapabilities := symbols_canon t.(Open_DesiredCapabilities);
  Open_Properties := map_field_canon t.(Open_Properties) |}.

Lemma Open_law t : Open_ok t → dec_law (Open_MarshalBuffer t) Open_UnmarshalBuffer (Open_canon t).
Proof. composite_laws Open_ok Open_MarshalBuffer Open_UnmarshalBuffer Open_count Open_items Open_fields Open_canon. Qed.

Lemma Open_null rest : Open_UnmarshalBuffer (NullEncoding :: rest) = Err errNull.
Proof. done. Qed.

#[local] Hint Resolve Open_law Open_null : v1.

(** *** Begin *)

Definition Begin_ok (t : Begin) : Prop :=
  is_uint16 t.(Begin_RemoteChannel) ∧
  is_uint32 t.(Begin_NextOutgoingID) ∧
  is_uint32 t.(Begin_IncomingWindow) ∧
  is_uint32 t.(Begin_OutgoingWindow) ∧
  is_uint32 t.(Begin_HandleMax) ∧
  table_exact t.(Begin_Properties) = true.

Definition Begin_canon (t : Begin) : Begin := {|
  Begin_RemoteChannel := t.(Begin_RemoteChannel);
  Begin_NextOutgoingID := t.(Begin_NextOutgoingID);
  Begin_IncomingWindow := t.(Begin_IncomingWindow);
  Begin_OutgoingWindow := t.(Begin_OutgoingWindow);
  Begin_HandleMax := t.(Begin_HandleMax);
  Begin_OfferedCapabilities := symbols_canon t.(Begin_OfferedCapabilities);
  Begin_DesiredCapabilities := symbols_canon t.(Begin_DesiredCapabilities);
  Begin_Properties := map_field_canon t.(Begin_Properties) |}.

Lemma Begin_law t : Begin_ok t → dec_law (Begin_MarshalBuffer t) Begin_UnmarshalBuffer (Begin_canon t).
Proof. composite_laws Begin_ok Begin_MarshalBuffer Begin_UnmarshalBuffer Begin_count Begin_items Begin_fields Begin_canon. Qed.

Lemma Begin_null rest : Begin_UnmarshalBuffer (NullEncoding :: rest) = Err errNull.
Proof. done. Qed.

#[local] Hint Resolve Begin_law Begin_null : v1.

(** *** Attach *)

Definition Attach_ok (t : Attach) : Prop :=
  is_uint32 t.(Attach_Handle) ∧
  is_uint8 t.(Attach_SndSettleMode) ∧
  is_uint8 t.(Attach_RcvSettleMode) ∧
  from_option Source_ok True t.(Attach_Source) ∧
  from_option Target_ok True t.(Attach_Target) ∧
  table_exact t.(Attach_Unsettled) = true ∧
  is_uint32 t.(Attach_InitialDeliveryCount) ∧
  is_uint64 t.(Attach_MaxMessageSize) ∧
  table_exact t.(Attach_Properties) = true.

Definition Attach_canon (t : Attach) : Attach := {|
  Attach_Name := t.(Attach_Name);
  Attach_Handle := t.(Attach_Handle);
  Attach_Role := t.(Attach_Role);
  Attach_SndSettleMode := t.(Attach_SndSettleMode);
  Attach_RcvSettleMode := t.(Attach_RcvSettleMode);
  Attach_Source := Source_canon <$> t.(Attach_Source);
  Attach_Target := Target_canon <$> t.(Attach_Target);
  Attach_Unsettled := map_field_canon t.(Attach_Unsettled);
  Attach_IncompleteUnsettled := t.(Attach_IncompleteUnsettled);
  Attach_InitialDeliveryCount := t.(Attach_InitialDeliveryCount);
  Attach_MaxMessageSize := t.(Attach_MaxMessageSize);
  Attach_OfferedCapabilities := symbols_canon t.(Attach_OfferedCapabilities);
  Attach_DesiredCapabilities := symbols_canon t.(Attach_DesiredCapabilities);
  Attach_Properties := map_field_canon t.(Attach_Properties) |}.

Lemma Attach_law t : Attach_ok t → dec_law (Attach_MarshalBuffer t) Attach_UnmarshalBuffer (Attach_canon t).
Proof. composite_laws Attach_ok Attach_MarshalBuffer Attach_UnmarshalBuffer Attach_count Attach_items Attach_fields Attach_canon. Qed.

Lemma Attach_null rest : Attach_UnmarshalBuffer (NullEncoding :: rest) = Err errNull.
Proof. done. Qed.

#[local] Hint Resolve Attach_law Attach_null : v1.

(** *** Flow *)

Definition Flow_ok (t : Flow) : Prop :=
  is_uint32 t.(Flow_NextIncomingID) ∧
  is_uint32 t.(Flow_IncomingWindow) ∧
  is_uint32 t.(Flow_NextOutgoingID) ∧
  is_uint32 t.(Flow_OutgoingWindow) ∧
  is_uint32 t.(Flow_Handle) ∧
  is_uint32 t.(Flow_DeliveryCount) ∧
  is_uint32 t.(Flow_LinkCredit) ∧
  is_uint32 t.(Flow_Available) ∧
  table_exact t.(Flow_Properties) = true.

Definition Flow_canon (t : Flow) : Flow := {|
  Flow_NextIncomingID := t.(Flow_NextIncomingID);
  Flow_IncomingWindow := t.(Flow_IncomingWindow);
  Flow_NextOutgoingID := t.(Flow_NextOutgoingID);
  Flow_OutgoingWindow := t.(Flow_OutgoingWindow);
  Flow_Handle := t.(Flow_Handle);
  Flow_DeliveryCount := t.(Flow_DeliveryCount);
  Flow_LinkCredit := t.(Flow_LinkCredit);
  Flow_Available := t.(Flow_Available);
  Flow_Drain := t.(Flow_Drain);
  Flow_Echo := t.(Flow_Echo);
  Flow_Properties := map_field_canon t.(Flow_Properties) |}.

Lemma Flow_law t : Flow_ok t → dec_law (Flow_MarshalBuffer t) Flow_UnmarshalBuffer (Flow_canon t).
Proof. composite_laws Flow_ok Flow_MarshalBuffer Flow_UnmarshalBuffer Flow_count Flow_items Flow_fields Flow_canon. Qed.

Lemma Flow_null rest : Flow_UnmarshalBuffer (NullEncoding :: rest) = Err errNull.
Proof. done. Qed.

#[local] Hint Resolve Flow_law Flow_null : v1.

(** *** Transfer *)

Definition Transfer_ok (t : Transfer) : Prop :=
  is_uint32 t.(Transfer_Handle) ∧
  is_uint32 t.(Transfer_DeliveryID) ∧
  is_uint32 t.(Transfer_MessageFormat) ∧
  is_uint8 t.(Transfer_RcvSettleMode) ∧
  (is_Some t.(Transfer_State) ∨ Transfer_count t ≤ 7) ∧
  from_option DeliveryState_ok True t.(Transfer_State).

Definition Transfer_canon (t : Transfer) : Transfer := {|
  Transfer_Handle := t.(Transfer_Handle);
  Transfer_DeliveryID := t.(Transfer_DeliveryID);
  Transfer_DeliveryTag := t.(Transfer_DeliveryTag);
  Transfer_MessageFormat := t.(Transfer_MessageFormat);
  Transfer_Settled := t.(Transfer_Settled);
  Transfer_More := t.(Transfer_More);
  Transfer_RcvSettleMode := t.(Transfer_RcvSettleMode);
  Transfer_State := DeliveryState_canon <$> t.(Transfer_State);
  Transfer_Resume := t.(Transfer_Resume);
  Transfer_Aborted := t.(Transfer_Aborted);
  Transfer_Batchable := t.(Transfer_Batchable) |}.

Lemma Transfer_law t : Transfer_ok t → dec_law (Transfer_MarshalBuffer t) Transfer_UnmarshalBuffer (Transfer_canon t).
Proof. composite_laws Transfer_ok Transfer_MarshalBuffer Transfer_UnmarshalBuffer Transfer_count Transfer_items Transfer_fields Transfer_canon. Qed.

Lemma Transfer_null rest : Transfer_UnmarshalBuffer (NullEncoding :: rest) = Err errNull.
Proof. done. Qed.

#[local] Hint Resolve Transfer_law Transfer_null : v1.

(** *** Disposition *)

Definition Disposition_ok (t : Disposition) : Prop :=
  is_uint32 t.(Disposition_First) ∧
  is_uint32 t.(Disposition_Last) ∧
  (is_Some t.(Disposition_State) ∨ Disposition_count t ≤ 4) ∧
  from_option DeliveryState_ok True t.(Disposition_State).

Definition Disposition_canon (t : Disposition) : Disposition := {|
  Disposition_Role := t.(Disposition_Role);
  Disposition_First := t.(Disposition_First);
  Disposition_Last := t.(Disposition_Last);
  Disposition_Settled := t.(Disposition_Settled);
  Disposition_State := DeliveryState_canon <$> t.(Disposition_State);
  Disposition_Batchable := t.(Disposition_Batchable) |}.

Lemma Disposition_law t : Disposition_ok t → dec_law (Disposition_MarshalBuffer t) Disposition_UnmarshalBuffer (Disposition_canon t).
Proof. composite_laws Disposition_ok Disposition_MarshalBuffer Disposition_UnmarshalBuffer Disposition_count Disposition_items Disposition_fields Disposition_canon. Qed.

Lemma Disposition_null rest : Disposition_UnmarshalBuffer (NullEncoding :: rest) = Err errNull.
Proof. done. Qed.

#[local] Hint Resolve Disposition_law Disposition_null : v1.

(** *** Detach *)

Definition Detach_ok (t : Detach) : Prop :=
  is_uint32 t.(Detach_Handle) ∧
  from_option Error_ok True t.(Detach_Error).

Definition Detach_canon (t : Detach) : Detach := {|
  Detach_Handle := t.(Detach_Handle);
  Detach_Closed := t.(Detach_Closed);
  Detach_Error := Error_canon <$> t.(Detach_Error) |}.

Lemma Detach_law t : Detach_ok t → dec_law (Detach_MarshalBuffer t) Detach_UnmarshalBuffer (Detach_canon t).
Proof. composite_laws Detach_ok Detach_MarshalBuffer Detach_UnmarshalBuffer Detach_count Detach_items Detach_fields Detach_canon. Qed.

Lemma Detach_null rest : Detach_UnmarshalBuffer (NullEncoding :: rest) = Err errNull.
Proof. done. Qed.

#[local] Hint Resolve Detach_law Detach_null : v1.

(** *** End *)

Definition End_ok (t : End) : Prop :=
  from_option Error_ok True t.(End_Error).

Definition End_canon (t : End) : End := {|
  End_Error := Error_canon <$> t.(End_Error) |}.

Lemma End_law t : End_ok t → dec_law (End_MarshalBuffer t) End_UnmarshalBuffer (End_canon t).
Proof. composite_laws End_ok End_MarshalBuffer End_UnmarshalBuffer End_count End_items End_fields End_canon. Qed.

Lemma End_null rest : End_UnmarshalBuffer (NullEncoding :: rest) = Err errNull.
Proof. done. Qed.

#[local] Hint Resolve End_law End_null : v1.

(** *** Close *)

Definition Close_ok (t : Close) : Prop :=
  from_option Error_ok True t.(Close_Error).

Definition Close_canon (t : Close) : Close := {|
  Close_Error := Error_canon <$> t.(Close_Error) |}.

Lemma Close_law t : Close_ok t → dec_law (Close_MarshalBuffer t) Close_UnmarshalBuffer (Close_canon t).
Proof. composite_laws Close_ok Close_MarshalBuffer Close_UnmarshalBuffer Close_count Close_items Close_fields Close_canon. Qed.

Lemma Close_null rest : Close_UnmarshalBuffer (NullEncoding :: rest) = Err errNull.
Proof. done. Qed.

#[local] Hint Resolve Close_law Close_null : v1.

(** *** Header *)

Definition Header_ok (t : Header) : Prop :=
  is_uint8 t.(Header_Priority) ∧
  is_uint32 t.(Header_Ttl) ∧
  is_uint32 t.(Header_DeliveryCount).

Definition Header_canon (t : Header) : Header := {|
  Header_Durable := t.(Header_Durable);
  Header_Priority := t.(Header_Priority);
  Header_Ttl := t.(Header_Ttl);
  Header_FirstAcquirer := t.(Header_FirstAcquirer);
  Header_DeliveryCount := t.(Header_DeliveryCount) |}.

Lemma Header_law t : Header_ok t → dec_law (Header_MarshalBuffer t) Header_UnmarshalBuffer (Header_canon t).
Proof. composite_laws Header_ok Header_MarshalBuffer Header_UnmarshalBuffer Header_count Header_items Header_fields Header_canon. Qed.

Lemma Header_null rest : Header_UnmarshalBuffer (NullEncoding :: rest) = Err errNull.
Proof. done. Qed.

#[local] Hint Resolve Header_law Header_null : v1.

(** *** Properties *)

Definition Properties_ok (t : Properties) : Prop :=
  from_option MessageID_ok True t.(Properties_MessageID) ∧
  from_option MessageID_ok True t.(Properties_CorrelationID) ∧
  is_symbol t.(Properties_ContentType) ∧
  is_symbol t.(Properties_ContentEncoding) ∧
  is_time t.(Properties_AbsoluteExpiryTime) ∧
  is_time t.(Properties_CreationTime) ∧
  is_uint32 t.(Properties_GroupSequence).

Definition Properties_canon (t : Properties) : Properties := {|
  Properties_MessageID := t.(Properties_MessageID);
  Properties_UserID := t.(Properties_UserID);
  Properties_To := t.(Properties_To);
  Properties_Subject := t.(Properties_Subject);
  Properties_ReplyTo := t.(Properties_ReplyTo);
  Properties_CorrelationID := t.(Properties_CorrelationID);
  Properties_ContentType := t.(Properties_ContentType);
  Properties_ContentEncoding := t.(Properties_ContentEncoding);
  Properties_AbsoluteExpiryTime := t.(Properties_AbsoluteExpiryTime);
  Properties_CreationTime := t.(Properties_CreationTime);
  Properties_GroupID := t.(Properties_GroupID);
  Properties_GroupSequence := t.(Properties_GroupSequence);
  Properties_ReplyToGroupID := t.(Properties_ReplyToGroupID) |}.

Lemma Properties_law t : Properties_ok t → dec_law (Properties_MarshalBuffer t) Properties_UnmarshalBuffer (Properties_canon t).
Proof. composite_laws Properties_ok Properties_MarshalBuffer Properties_UnmarshalBuffer Properties_count Properties_items Properties_fields Properties_canon. Qed.

Lemma Properties_null rest : Properties_UnmarshalBuffer (NullEncoding :: rest) = Err errNull.
Proof. done. Qed.

#[local] Hint Resolve Properties_law Properties_null : v1.

(** *** DeleteOnClose *)

Definition DeleteOnClose_ok (_ : DeleteOnClose) : Prop :=
  True.

Definition DeleteOnClose_canon (t : DeleteOnClose) : DeleteOnClose := t.

Lemma DeleteOnClose_law t : DeleteOnClose_ok t → dec_law (DeleteOnClose_MarshalBuffer t) DeleteOnClose_UnmarshalBuffer (DeleteOnClose_canon t).
Proof. composite_laws DeleteOnClose_ok DeleteOnClose_MarshalBuffer DeleteOnClose_UnmarshalBuffer DeleteOnClose_count DeleteOnClose_items DeleteOnClose_fields DeleteOnClose_canon. Qed.

Lemma DeleteOnClose_null rest : DeleteOnClose_UnmarshalBuffer (NullEncoding :: rest) = Err errNull.
Proof. done. Qed.

#[local] Hint Resolve DeleteOnClose_law DeleteOnClose_null : v1.

(** *** DeleteOnNoLinks *)

Definition DeleteOnNoLinks_ok (_ : DeleteOnNoLinks) : Prop :=
  True.

Definition DeleteOnNoLinks_canon (t : DeleteOnNoLinks) : DeleteOnNoLinks := t.

Lemma DeleteOnNoLinks_law t : DeleteOnNoLinks_ok t → dec_law (DeleteOnNoLinks_MarshalBuffer t) DeleteOnNoLinks_UnmarshalBuffer (DeleteOnNoLinks_canon t).
Proof. composite_laws DeleteOnNoLinks_ok DeleteOnNoLinks_MarshalBuffer DeleteOnNoLinks_UnmarshalBuffer DeleteOnNoLinks_count DeleteOnNoLinks_items DeleteOnNoLinks_fields DeleteOnNoLinks_canon. Qed.

Lemma DeleteOnNoLinks_null rest : DeleteOnNoLinks_UnmarshalBuffer (NullEncoding :: rest) = Err errNull.
Proof. done. Qed.

#[local] Hint Resolve DeleteOnNoLinks_law DeleteOnNoLinks_null : v1.

(** *** DeleteOnNoMessages *)

Definition DeleteOnNoMessages_ok (_ : DeleteOnNoMessages) : Prop :=
  True.

Definition DeleteOnNoMessages_canon (t : DeleteOnNoMessages) : DeleteOnNoMessages := t.

Lemma DeleteOnNoMessages_law t : DeleteOnNoMessages_ok t → dec_law (DeleteOnNoMessages_MarshalBuffer t) DeleteOnNoMessages_UnmarshalBuffer (DeleteOnNoMessages_canon t).
Proof. composite_laws DeleteOnNoMessages_ok DeleteOnNoMessages_MarshalBuffer DeleteOnNoMessages_UnmarshalBuffer DeleteOnNoMessages_count DeleteOnNoMessages_items DeleteOnNoMessages_fields DeleteOnNoMessages_canon. Qed.

Lemma DeleteOnNoMessages_null rest : DeleteOnNoMessages_UnmarshalBuffer (NullEncoding :: rest) = Err errNull.
Proof. done. Qed.

#[local] Hint Resolve DeleteOnNoMessages_law DeleteOnNoMessages_null : v1.

(** *** DeleteOnNoLinksOrMessages *)

Definition DeleteOnNoLinksOrMessages_ok (_ : DeleteOnNoLinksOrMessages) : Prop :=
  True.

Definition DeleteOnNoLinksOrMessages_canon (t : DeleteOnNoLinksOrMessages) : DeleteOnNoLinksOrMessages := t.

Lemma DeleteOnNoLinksOrMessages_law t : DeleteOnNoLinksOrMessages_ok t → dec_law (DeleteOnNoLinksOrMessages_MarshalBuffer t) DeleteOnNoLinksOrMessages_UnmarshalBuffer (DeleteOnNoLinksOrMessages_canon t).
Proof. composite_laws DeleteOnNoLinksOrMessages_ok DeleteOnNoLinksOrMessages_MarshalBuffer DeleteOnNoLinksOrMessages_UnmarshalBuffer DeleteOnNoLinksOrMessages_count DeleteOnNoLinksOrMessages_items DeleteOnNoLinksOrMessages_fields DeleteOnNoLinksOrMessages_canon. Qed.

Lemma DeleteOnNoLinksOrMessages_null rest : DeleteOnNoLinksOrMessages_UnmarshalBuffer (NullEncoding :: rest) = Err errNull.
Proof. done. Qed.

#[local] Hint Resolve DeleteOnNoLinksOrMessages_law DeleteOnNoLinksOrMessages_null : v1.

(** *** SASLMechanisms *)

Definition SASLMechanisms_ok (t : SASLMechanisms) : Prop :=
  is_Some t.(SASLMechanisms_SASLServerMechanisms).

Definition SASLMechanisms_canon (t : SASLMechanisms) : SASLMechanisms := {|
  SASLMechanisms_SASLServerMechanisms := t.(SASLMechanisms_SASLServerMechanisms) |}.

Lemma SASLMechanisms_law t : SASLMechanisms_ok t → dec_law (SASLMechanisms_MarshalBuffer t) SASLMechanisms_UnmarshalBuffer (SASLMechanisms_canon t).
Proof. composite_laws SASLMechanisms_ok SASLMechanisms_MarshalBuffer SASLMechanisms_UnmarshalBuffer SASLMechanisms_count SASLMechanisms_items SASLMechanisms_fields SASLMechanisms_canon. Qed.

Lemma SASLMechanisms_null rest : SASLMechanisms_UnmarshalBuffer (NullEncoding :: rest) = Err errNull.
Proof. done. Qed.

#[local] Hint Resolve SASLMechanisms_law SASLMechanisms_null : v1.

(** *** SASLInit *)

Definition SASLInit_ok (t : SASLInit) : Prop :=
  is_symbol t.(SASLInit_Mechanism).

Definition SASLInit_canon (t : SASLInit) : SASLInit := {|
  SASLInit_Mechanism := t.(SASLInit_Mechanism);
  SASLInit_InitialResponse := t.(SASLInit_InitialResponse);
  SASLInit_Hostname := t.(SASLInit_Hostname) |}.

Lemma SASLInit_law t : SASLInit_ok t → dec_law (SASLInit_MarshalBuffer t) SASLInit_UnmarshalBuffer (SASLInit_canon t).
Proof. composite_laws SASLInit_ok SASLInit_MarshalBuffer SASLInit_UnmarshalBuffer SASLInit_count SASLInit_items SASLInit_fields SASLInit_canon. Qed.

Lemma SASLInit_null rest : SASLInit_UnmarshalBuffer (NullEncoding :: rest) = Err errNull.
Proof. done. Qed.

#[local] Hint Resolve SASLInit_law SASLInit_null : v1.

(** *** SASLChallenge *)

Definition SASLChallenge_ok (t : SASLChallenge) : Prop :=
  is_Some t.(SASLChallenge_Challenge).

Definition SASLChallenge_canon (t : SASLChallenge) : SASLChallenge := {|
  SASLChallenge_Challenge := t.(SASLChallenge_Challenge) |}.

Lemma SASLChallenge_law t : SASLChallenge_ok t → dec_law (SASLChallenge_MarshalBuffer t) SASLChallenge_UnmarshalBuffer (SASLChallenge_canon t).
Proof. composite_laws SASLChallenge_ok SASLChallenge_MarshalBuffer SASLChallenge_UnmarshalBuffer SASLChallenge_count SASLChallenge_items SASLChallenge_fields SASLChallenge_canon. Qed.

Lemma SASLChallenge_null rest : SASLChallenge_UnmarshalBuffer (NullEncoding :: rest) = Err errNull.
Proof. done. Qed.

#[local] Hint Resolve SASLChallenge_law SASLChallenge_null : v1.

(** *** SASLResponse *)

Definition SASLResponse_ok (t : SASLResponse) : Prop :=
  is_Some t.(SASLResponse_Response).

Definition SASLResponse_canon (t : SASLResponse) : SASLResponse := {|
  SASLResponse_Response := t.(SASLResponse_Response) |}.

Lemma SASLResponse_law t : SASLResponse_ok t → dec_law (SASLResponse_MarshalBuffer t) SASLResponse_UnmarshalBuffer (SASLResponse_canon t).
Proof. composite_laws SASLResponse_ok SASLResponse_MarshalBuffer SASLResponse_UnmarshalBuffer SASLResponse_count SASLResponse_items SASLResponse_fields SASLResponse_canon. Qed.

Lemma SASLResponse_null rest : SASLResponse_UnmarshalBuffer (NullEncoding :: rest) = Err errNull.
Proof. done. Qed.

#[local] Hint Resolve SASLResponse_law SASLResponse_null : v1.

(** *** SASLOutcome *)

Definition SASLOutcome_ok (t : SASLOutcome) : Prop :=
  is_uint8 t.(SASLOutcome_Code).

Definition SASLOutcome_canon (t : SASLOutcome) : SASLOutcome := {|
  SASLOutcome_Code := t.(SASLOutcome_Code);
  SASLOutcome_AdditionalData := t.(SASLOutcome_AdditionalData) |}.

Lemma SASLOutcome_law t : SASLOutcome_ok t → dec_law (SASLOutcome_MarshalBuffer t) SASLOutcome_UnmarshalBuffer (SASLOutcome_canon t).
Proof. composite_laws SASLOutcome_ok SASLOutcome_MarshalBuffer SASLOutcome_UnmarshalBuffer SASLOutcome_count SASLOutcome_items SASLOutcome_fields SASLOutcome_canon. Qed.

Lemma SASLOutcome_null rest : SASLOutcome_UnmarshalBuffer (NullEncoding :: rest) = Err errNull.
Proof. done. Qed.

#[local] Hint Resolve SASLOutcome_law SASLOutcome_null : v1.
(** ** Sections of messages *)

Definition struct_canon (s : Struct) : Struct := default s (map_canon (Some s)).

Lemma map_canon_Some s : map_canon (Some s) = Some (struct_canon s).
Proof. by destruct s as [[fields|]]. Qed.

Lemma described_map_law descriptor s :
  0 ≤ descriptor < 2 ^ 64 → table_exact (Some s) = true →
  dec_law (Ok (DescriptorEncoding :: marshalUlong descriptor) +++ marshalMap (Some s))
    (_ ← read_descriptor descriptor; m ← named unmarshalMap; deref m) (struct_canon s).
Proof.
  intros Hd Hs. apply (dec_bind _ _ _ _ tt). { intros l <-%Ok_inj _ rest. by apply read_descriptor_law. }
  intros l Hm Hl rest. destruct (con_map (Some s) l Hs Hm Hl) as (c & k & -> & Hc). rewrite map_canon_Some in Hc.
  cbn [app]. erewrite decoder_bind_Ok; [|unfold named; erewrite decoder_bind_Ok by apply ReadByte_cons; apply Hc]. done.
Qed.

Lemma DeliveryAnnotations_law s :
  table_exact (Some s) = true → dec_law (DeliveryAnnotations_MarshalBuffer (Some s)) DeliveryAnnotations_UnmarshalBuffer (struct_canon s).
Proof. by apply described_map_law. Qed.

Lemma MessageAnnotations_law s :
  table_exact (Some s) = true → dec_law (MessageAnnotations_MarshalBuffer (Some s)) MessageAnnotations_UnmarshalBuffer (struct_canon s).
Proof. by apply described_map_law. Qed.

Lemma ApplicationProperties_law s :
  table_exact (Some s) = true → dec_law (ApplicationProperties_MarshalBuffer (Some s)) ApplicationProperties_UnmarshalBuffer (struct_canon s).
Proof. by apply described_map_law. Qed.

Lemma Footer_law s : table_exact (Some s) = true → dec_law (Footer_MarshalBuffer (Some s)) Footer_UnmarshalBuffer (struct_canon s).
Proof. by apply described_map_law. Qed.

#[local] Hint Resolve DeliveryAnnotations_law MessageAnnotations_law ApplicationProperties_law Footer_law : v1.

(** The data of a section is read through [binary_or_nil], after the descriptor is skipped. *)
Lemma Data_law msg l :
  dec_law (Data_MarshalBuffer l) (_ ← skip_descriptor msg; c ← ReadByte msg; data ← binary_or_nil c; mret (SectionData data))
    (SectionData (Some l)).
Proof.
  apply (dec_bind _ _ _ _ tt).
  - intros k <-%Ok_inj _ rest. destruct (con_ulong DataDescriptor) as (c & k & -> & Hu); [done|]. cbn [app]. unfold skip_descriptor.
    do 2 erewrite decoder_bind_Ok by apply ReadByte_cons. by erewrite decoder_bind_Ok by apply Hu.
  - intros k <-%Ok_inj Hl rest. destruct (binary_size l Hl) as (c & k & -> & Hc). cbn [app].
    erewrite decoder_bind_Ok by apply ReadByte_cons. erewrite decoder_bind_Ok; [|unfold binary_or_nil; by rewrite Hc]. done.
Qed.

Definition Section_ok (s : MessageSection) : Prop :=
  match s with
  | SectionHeader t => Header_ok t
  | SectionProperties t => Properties_ok t
  | SectionData _ => True
  | SectionDeliveryAnnotations t | SectionMessageAnnotations t | SectionApplicationProperties t | SectionFooter t =>
    table_exact (Some t) = true
  end.

Definition Section_canon (s : MessageSection) : MessageSection :=
  match s with
  | SectionHeader t => SectionHeader (Header_canon t)
  | SectionDeliveryAnnotations t => SectionDeliveryAnnotations (struct_canon t)
  | SectionMessageAnnotations t => SectionMessageAnnotations (struct_canon t)
  | SectionProperties t => SectionProperties (Properties_canon t)
  | SectionApplicationProperties t => SectionApplicationProperties (struct_canon t)
  | SectionData t => SectionData (Some (default [] t))
  | SectionFooter t => SectionFooter (struct_canon t)
  end.

Lemma section_member {A} msg w (m : decoder A) a (f : A → MessageSection) :
  dec_law w m a → dec_law w (t ← WrapD msg m; mret (f t)) (f a).
Proof. intros Hm l Hl Hs rest. by erewrite decoder_bind_Ok by (by apply WrapD_Ok, Hm). Qed.

Lemma Section_law s : Section_ok s → dec_law (Section_MarshalBuffer s) UnmarshalSection (Section_canon s).
Proof.
  destruct s; intros Hs; cbn [Section_MarshalBuffer Section_canon]; unfold UnmarshalSection; cbv zeta;
    (eapply described_law; [reflexivity|done|]); try (apply section_member; auto with v1); apply Data_law.
Qed.

End TypesLaws.

#[export] Hint Resolve Open_law Begin_law Attach_law Flow_law Transfer_law Disposition_law Detach_law End_law Close_law SASLMechanisms_law SASLInit_law SASLChallenge_law SASLResponse_law SASLOutcome_law : v1.
