(* ===== verification/AmqpV1Transport.v ===== *)
(** * AMQP 1.0: transport

    [Transport] (src/mq/amqp/v1/transport.go): frames on a connection.  The connection is the bytes that are
    still to be read and the bytes that were written; deadlines, buffering of the reader and the errors of the
    socket other than the end of the input are left out.  After an error the callers close the connection, so
    an error has no state.  Sizes are [uint32] and wrap as in the code. *)
From S2P Require Import Prelude Util Emq Bytes AmqpValues AmqpV1 AmqpV1Fields AmqpV1Types.

Record FrameMeta : Type := {
  Size : Z;
  DataOffset : Z;
  FrameMeta_Type : Z;
  Channel : Z;
  Payload : list Z;
}.

(** The types with a [FrameMeta]: a nil payload is an empty one. *)
Inductive Frame : Type :=
| FrameOpen (meta : FrameMeta) (t : Open)
| FrameBegin (meta : FrameMeta) (t : Begin)
| FrameAttach (meta : FrameMeta) (t : Attach)
| FrameFlow (meta : FrameMeta) (t : Flow)
| FrameTransfer (meta : FrameMeta) (t : Transfer)
| FrameDisposition (meta : FrameMeta) (t : Disposition)
| FrameDetach (meta : FrameMeta) (t : Detach)
| FrameEnd (meta : FrameMeta) (t : End)
| FrameClose (meta : FrameMeta) (t : Close)
| FrameSASLMechanisms (meta : FrameMeta) (t : SASLMechanisms)
| FrameSASLInit (meta : FrameMeta) (t : SASLInit)
| FrameSASLChallenge (meta : FrameMeta) (t : SASLChallenge)
| FrameSASLResponse (meta : FrameMeta) (t : SASLResponse)
| FrameSASLOutcome (meta : FrameMeta) (t : SASLOutcome).

Definition GetFrameMeta (frame : Frame) : FrameMeta :=
  match frame with
  | FrameOpen meta _ | FrameBegin meta _ | FrameAttach meta _ | FrameFlow meta _ | FrameTransfer meta _ | FrameDisposition meta _ | FrameDetach meta _ | FrameEnd meta _ | FrameClose meta _ | FrameSASLMechanisms meta _ | FrameSASLInit meta _ | FrameSASLChallenge meta _ | FrameSASLResponse meta _ | FrameSASLOutcome meta _ => meta
  end.

Definition Frame_MarshalBuffer (frame : Frame) : writer :=
  match frame with
  | FrameOpen _ t => Open_MarshalBuffer t
  | FrameBegin _ t => Begin_MarshalBuffer t
  | FrameAttach _ t => Attach_MarshalBuffer t
  | FrameFlow _ t => Flow_MarshalBuffer t
  | FrameTransfer _ t => Transfer_MarshalBuffer t
  | FrameDisposition _ t => Disposition_MarshalBuffer t
  | FrameDetach _ t => Detach_MarshalBuffer t
  | FrameEnd _ t => End_MarshalBuffer t
  | FrameClose _ t => Close_MarshalBuffer t
  | FrameSASLMechanisms _ t => SASLMechanisms_MarshalBuffer t
  | FrameSASLInit _ t => SASLInit_MarshalBuffer t
  | FrameSASLChallenge _ t => SASLChallenge_MarshalBuffer t
  | FrameSASLResponse _ t => SASLResponse_MarshalBuffer t
  | FrameSASLOutcome _ t => SASLOutcome_MarshalBuffer t
  end.

(** [frame.(type)] is [SASLFrame]; the other frames are [AMQPFrame]. *)
Definition is_SASLFrame (frame : Frame) : bool :=
  match frame with
  | FrameSASLMechanisms _ _ | FrameSASLInit _ _ | FrameSASLChallenge _ _ | FrameSASLResponse _ _ | FrameSASLOutcome _ _ => true
  | _ => false
  end.

Definition AMQPFrameType : Z := 0.
Definition SASLFrameType : Z := 1.
Definition MinMaxFrameSize : Z := 512.

Definition ErrMalformedFrame : go_error := ErrNew "malformed frame".
Definition ErrFrameTooBig : go_error := ErrNew "frame size over limit".

(** [t_data] is the buffer that frames are read into, with what earlier frames left in it. *)
Record Transport : Type := {
  t_input : list Z;
  t_output : list Z;
  t_data : list Z;
  t_frameMax : Z;
}.

(** [make([]byte, n)] *)
Definition make_bytes (n : Z) : list Z := replicate (Z.to_nat n) 0.

Definition NewTransport (input : list Z) : Transport :=
  {| t_input := input; t_output := []; t_data := make_bytes (NextPowerOfTwo32 MinMaxFrameSize); t_frameMax := MinMaxFrameSize |}.

Definition GetFrameMax (t : Transport) : Z := t.(t_frameMax).

Definition SetFrameMax (frameMax : Z) (t : Transport) : Transport :=
  {| t_input := t.(t_input); t_output := t.(t_output); t_data := t.(t_data); t_frameMax := frameMax |}.

(** ** Sending *)

Definition write (t : Transport) (bytes : list Z) : Transport :=
  {| t_input := t.(t_input); t_output := t.(t_output) ++ bytes; t_data := t.(t_data); t_frameMax := t.(t_frameMax) |}.

(** The scratch buffer: size, data offset, type and channel. *)
Definition frame_header_bytes (size frameType channel : Z) : list Z :=
  put_be 4 size ++ [2; frameType] ++ put_be 2 channel.

Definition Send (t : Transport) (frame : option Frame) : result go_error Transport :=
  match frame with
  | None =>
    if t.(t_frameMax) <? 8 then Err ErrFrameTooBig
    else Ok (write t (frame_header_bytes 8 AMQPFrameType 0))
  | Some frame =>
    let meta := GetFrameMeta frame in
    data ← Wrap "marshal failed" (Frame_MarshalBuffer frame);
    let size := u32 (u32 (8 + u32 (Z.of_nat (length data))) + u32 (Z.of_nat (length meta.(Payload)))) in
    if t.(t_frameMax) <? size then Err ErrFrameTooBig
    else
      let frameType := if is_SASLFrame frame then SASLFrameType else AMQPFrameType in
      Ok (write t (frame_header_bytes size frameType meta.(Channel) ++ data ++ meta.(Payload)))
  end.

(** ** Receiving *)

(** [io.ReadFull(t.r, t.data[:n])]: the bytes go to the start of the buffer. *)
Definition ReadFull (msg : string) (n : Z) (t : Transport) : result go_error Transport :=
  if Z.of_nat (length t.(t_data)) <? n then Panic "slice bounds out of range"
  else if Z.of_nat (length t.(t_input)) <? n then Err (ErrWrap EOF msg)
  else Ok {| t_input := drop (Z.to_nat n) t.(t_input); t_output := t.(t_output);
    t_data := take (Z.to_nat n) t.(t_input) ++ drop (Z.to_nat n) t.(t_data); t_frameMax := t.(t_frameMax) |}.

Definition grow (n : Z) (t : Transport) : Transport :=
  if Z.of_nat (length t.(t_data)) <? n then
    {| t_input := t.(t_input); t_output := t.(t_output); t_data := make_bytes (NextPowerOfTwo32 n); t_frameMax := t.(t_frameMax) |}
  else t.

Definition read_meta (data : list Z) : FrameMeta :=
  {| Size := get_be (take 4 data); DataOffset := get_be (take 1 (drop 4 data)); FrameMeta_Type := get_be (take 1 (drop 5 data));
     Channel := get_be (take 2 (drop 6 data)); Payload := [] |}.

Definition set_payload (payload : list Z) (meta : FrameMeta) : FrameMeta :=
  {| Size := meta.(Size); DataOffset := meta.(DataOffset); FrameMeta_Type := meta.(FrameMeta_Type);
     Channel := meta.(Channel); Payload := payload |}.

Section Receiving.

Context `{TimeFormat}.

(** The decoder of the frame that has the descriptor. *)
Definition frame_decoder (descriptor : Z) : option (decoder (FrameMeta → Frame)) :=
  let frame {A} (m : decoder A) (f : FrameMeta → A → Frame) := Some (a ← m; mret (λ meta, f meta a)) in
  if descriptor =? OpenDescriptor then frame Open_UnmarshalBuffer FrameOpen
  else if descriptor =? BeginDescriptor then frame Begin_UnmarshalBuffer FrameBegin
  else if descriptor =? AttachDescriptor then frame Attach_UnmarshalBuffer FrameAttach
  else if descriptor =? FlowDescriptor then frame Flow_UnmarshalBuffer FrameFlow
  else if descriptor =? TransferDescriptor then frame Transfer_UnmarshalBuffer FrameTransfer
  else if descriptor =? DispositionDescriptor then frame Disposition_UnmarshalBuffer FrameDisposition
  else if descriptor =? DetachDescriptor then frame Detach_UnmarshalBuffer FrameDetach
  else if descriptor =? EndDescriptor then frame End_UnmarshalBuffer FrameEnd
  else if descriptor =? CloseDescriptor then frame Close_UnmarshalBuffer FrameClose
  else if descriptor =? SASLMechanismsDescriptor then frame SASLMechanisms_UnmarshalBuffer FrameSASLMechanisms
  else if descriptor =? SASLInitDescriptor then frame SASLInit_UnmarshalBuffer FrameSASLInit
  else if descriptor =? SASLChallengeDescriptor then frame SASLChallenge_UnmarshalBuffer FrameSASLChallenge
  else if descriptor =? SASLResponseDescriptor then frame SASLResponse_UnmarshalBuffer FrameSASLResponse
  else if descriptor =? SASLOutcomeDescriptor then frame SASLOutcome_UnmarshalBuffer FrameSASLOutcome
  else None.

(** The descriptor of the frame, in the bytes that are decoded. *)
Definition frame_descriptor : decoder Z :=
  b ← ReadByte "read descriptor failed";
  if negb (b =? DescriptorEncoding) then read_fail ErrMalformedFrame
  else b ← ReadByte "read descriptor failed"; WrapD "read descriptor failed" (unmarshalUlong b).

(** The frame, with what its decoder left as payload. *)
Definition decodeFrame (meta : FrameMeta) (buf : list Z) : result go_error Frame :=
  '(descriptor, _) ← frame_descriptor buf;
  match frame_decoder descriptor with
  | None => Err ErrMalformedFrame
  | Some m => '(frame, payload) ← Wrap "unmarshal failed" (m buf); Ok (frame (set_payload payload meta))
  end.

Definition Receive (t : Transport) : result go_error (option Frame * Transport) :=
  t ← ReadFull "read frame header failed" 8 t;
  let meta := read_meta t.(t_data) in
  if t.(t_frameMax) <? meta.(Size) then Err ErrFrameTooBig
  else
    let dataSize := u32 (meta.(Size) - 8) in
    let t := grow dataSize t in
    if dataSize =? 0 then
      if meta.(FrameMeta_Type) =? AMQPFrameType then Ok (None, t) else Err ErrMalformedFrame
    else
      t ← ReadFull "read frame content failed" dataSize t;
      if (meta.(FrameMeta_Type) =? AMQPFrameType) || (meta.(FrameMeta_Type) =? SASLFrameType) then
        let n := u32 (dataSize - u32 (4 * meta.(DataOffset) - 8)) in
        if Z.of_nat (length t.(t_data)) <? n then Panic "slice bounds out of range"
        else frame ← decodeFrame meta (take (Z.to_nat n) t.(t_data)); Ok (Some frame, t)
      else Err ErrMalformedFrame.

(** [Expect] and [Call]: the next frame has the type of the variable that it is assigned to.  A heartbeat has
    no type: [reflect.ValueOf(nil).Type()] panics. *)
Definition Expect (assignable : Frame → bool) (t : Transport) : result go_error (Frame * Transport) :=
  '(frame, t) ← Wrap "receive failed" (Receive t);
  match frame with
  | None => Panic "reflect: call of reflect.Value.Type on zero Value"
  | Some frame => if assignable frame then Ok (frame, t) else Err (ErrNew "expected frame of type %s, got %#v")
  end.

Definition Call (request : option Frame) (assignable : Frame → bool) (t : Transport) : result go_error (Frame * Transport) :=
  t ← Wrap "send failed" (Send t request);
  Expect assignable t.

End Receiving.
