(* ===== verification/AmqpV1Props.v ===== *)
(** * AMQP 1.0: what is sent is received

    The laws of the types lifted to the frames of the transport (AmqpV1Transport): a list of frames, heartbeats
    included, arrives in order, and the sections of a message are read back. *)
From S2P Require Import Prelude Util Emq Bytes AmqpValues AmqpV1 AmqpV1Laws AmqpV1Fields AmqpV1Types AmqpV1TypesLaws AmqpV1Transport.

(** ** Frames *)

Definition Frame_ok (frame : Frame) : Prop :=
  match frame with
  | FrameOpen _ t => Open_ok t
  | FrameBegin _ t => Begin_ok t
  | FrameAttach _ t => Attach_ok t
  | FrameFlow _ t => Flow_ok t
  | FrameTransfer _ t => Transfer_ok t
  | FrameDisposition _ t => Disposition_ok t
  | FrameDetach _ t => Detach_ok t
  | FrameEnd _ t => End_ok t
  | FrameClose _ t => Close_ok t
  | FrameSASLMechanisms _ t => SASLMechanisms_ok t
  | FrameSASLInit _ t => SASLInit_ok t
  | FrameSASLChallenge _ t => SASLChallenge_ok t
  | FrameSASLResponse _ t => SASLResponse_ok t
  | FrameSASLOutcome _ t => SASLOutcome_ok t
  end.

(** The frame as it is received: the meta data on the wire, and the canonical form of the contents. *)
Definition frame_with (meta : FrameMeta) (frame : Frame) : Frame :=
  match frame with
  | FrameOpen _ t => FrameOpen meta (Open_canon t)
  | FrameBegin _ t => FrameBegin meta (Begin_canon t)
  | FrameAttach _ t => FrameAttach meta (Attach_canon t)
  | FrameFlow _ t => FrameFlow meta (Flow_canon t)
  | FrameTransfer _ t => FrameTransfer meta (Transfer_canon t)
  | FrameDisposition _ t => FrameDisposition meta (Disposition_canon t)
  | FrameDetach _ t => FrameDetach meta (Detach_canon t)
  | FrameEnd _ t => FrameEnd meta (End_canon t)
  | FrameClose _ t => FrameClose meta (Close_canon t)
  | FrameSASLMechanisms _ t => FrameSASLMechanisms meta (SASLMechanisms_canon t)
  | FrameSASLInit _ t => FrameSASLInit meta (SASLInit_canon t)
  | FrameSASLChallenge _ t => FrameSASLChallenge meta (SASLChallenge_canon t)
  | FrameSASLResponse _ t => FrameSASLResponse meta (SASLResponse_canon t)
  | FrameSASLOutcome _ t => FrameSASLOutcome meta (SASLOutcome_canon t)
  end.

Section Frames.

Context `{TimeFormat}.

Lemma frame_member {A} w (m : decoder A) a (f : FrameMeta → A → Frame) :
  dec_law w m a → dec_law w (x ← m; mret (λ meta, f meta x)) (λ meta, f meta a).
Proof. intros Hm l Hl Hs rest. by erewrite decoder_bind_Ok by (by apply Hm). Qed.

Lemma frame_descriptor_law descriptor rest :
  0 ≤ descriptor < 2 ^ 64 → frame_descriptor ((DescriptorEncoding :: marshalUlong descriptor) ++ rest) = Ok (descriptor, rest).
Proof.
  intros Hd. destruct (con_ulong descriptor Hd) as (c & l & -> & Hu). cbn [app]. unfold frame_descriptor.
  erewrite decoder_bind_Ok by apply ReadByte_cons. cbn [Z.eqb negb DescriptorEncoding].
  erewrite decoder_bind_Ok by apply ReadByte_cons. apply WrapD_Ok, Hu.
Qed.

(** The encoding of a frame starts with its descriptor, which selects a decoder that has the law. *)
Lemma frame_law frame :
  Frame_ok frame →
  ∃ descriptor tail m, Frame_MarshalBuffer frame = Ok (DescriptorEncoding :: marshalUlong descriptor) +++ tail ∧
    0 ≤ descriptor < 2 ^ 64 ∧ frame_decoder descriptor = Some m ∧
    dec_law (Frame_MarshalBuffer frame) m (λ meta, frame_with meta frame).
Proof.
  destruct frame; intros Hok; (eexists _, _, _; split; [reflexivity|]; split; [done|]; split; [reflexivity|]);
    cbn [Frame_MarshalBuffer frame_with]; apply frame_member; auto with v1.
Qed.

Lemma decodeFrame_law meta frame data payload :
  Frame_ok frame → Frame_MarshalBuffer frame = Ok data → Z.of_nat (length data) < 2 ^ 32 →
  decodeFrame meta (data ++ payload) = Ok (frame_with (set_payload payload meta) frame).
Proof.
  intros Hok Hd Hl. destruct (frame_law frame Hok) as (descriptor & tail & m & Hw & Hr & Hm & Hlaw).
  unfold decodeFrame. pose proof (Hlaw data Hd Hl payload) as E. rewrite Hw in Hd.
  apply wapp_Ok in Hd as (l1 & l2 & <-%Ok_inj & _ & ->). rewrite <- app_assoc in *.
  rewrite frame_descriptor_law by done. cbn [mbind result_bind]. rewrite Hm, E. done.
Qed.

(** ** The transport *)

(** The buffer holds a frame header, and grows by powers of two. *)
Definition v1_buffer_ok (t : Transport) : Prop := 8 ≤ Z.of_nat (length t.(t_data)) ≤ 2 ^ 31.

Lemma v1_grow_ok n t :
  v1_buffer_ok t → 0 ≤ n ≤ 2 ^ 31 → v1_buffer_ok (grow n t) ∧ n ≤ Z.of_nat (length (grow n t).(t_data)).
Proof.
  intros Ht Hn. unfold grow. destruct (Z.ltb_spec (Z.of_nat (length t.(t_data))) n) as [Hlt|Hge]; [|done].
  unfold v1_buffer_ok in *. cbn [t_data]. unfold make_bytes. rewrite length_replicate.
  destruct (NextPowerOfTwo32_spec n) as [(k & Hk & -> & Hle & _) _]; [lia..|].
  assert (2 ^ k ≤ 2 ^ 31) by (apply Z.pow_le_mono_r; lia). lia.
Qed.

Lemma v1_grow_input n t :
  (grow n t).(t_input) = t.(t_input) ∧ (grow n t).(t_output) = t.(t_output) ∧ (grow n t).(t_frameMax) = t.(t_frameMax).
Proof. unfold grow. by destruct (_ <? _). Qed.

Lemma v1_ReadFull_app msg t l rest :
  Z.of_nat (length l) ≤ Z.of_nat (length t.(t_data)) → t.(t_input) = l ++ rest →
  ReadFull msg (Z.of_nat (length l)) t =
    Ok {| t_input := rest; t_output := t.(t_output); t_data := l ++ drop (length l) t.(t_data); t_frameMax := t.(t_frameMax) |}.
Proof.
  intros Hd Hi. unfold ReadFull. rewrite Hi, length_app, Nat2Z.id, take_app_length, drop_app_length.
  destruct (Z.ltb_spec (Z.of_nat (length t.(t_data))) (Z.of_nat (length l))); [lia|].
  by destruct (Z.ltb_spec (Z.of_nat (length l + length rest)) (Z.of_nat (length l))); [lia|].
Qed.

Lemma v1_ReadFull_header msg t header rest :
  v1_buffer_ok t → t.(t_input) = header ++ rest → length header = 8%nat →
  ReadFull msg 8 t =
    Ok {| t_input := rest; t_output := t.(t_output); t_data := header ++ drop 8 t.(t_data); t_frameMax := t.(t_frameMax) |}.
Proof.
  intros Hb Hi Hh. pose proof (v1_ReadFull_app msg t header rest) as E. rewrite Hh in E. apply E; [|done].
  unfold v1_buffer_ok in Hb. lia.
Qed.

Definition wire_meta (size frameType channel : Z) : FrameMeta :=
  {| Size := size; DataOffset := 2; FrameMeta_Type := frameType; Channel := channel; Payload := [] |}.

Lemma length_frame_header size frameType channel : length (frame_header_bytes size frameType channel) = 8%nat.
Proof. unfold frame_header_bytes. by rewrite !length_app, !length_put_be. Qed.

Lemma read_meta_law size frameType channel rest :
  is_uint32 size → is_uint16 channel →
  read_meta (frame_header_bytes size frameType channel ++ rest) = wire_meta size frameType channel.
Proof.
  intros Hs Hc. unfold read_meta, frame_header_bytes, wire_meta.
  assert (∃ a b c d, put_be 4 size = [a; b; c; d]) as (a & b & c & d & E) by (by eexists _, _, _, _).
  assert (∃ x y, put_be 2 channel = [x; y]) as (x & y & E') by (by eexists _, _).
  pose proof (get_put_be_small 4 size Hs) as H4. pose proof (get_put_be_small 2 channel Hc) as H2.
  rewrite E in *. rewrite E' in *. f_equal; [exact H4|exact H2].
Qed.

(** The receiver after a frame. *)
Definition v1_received (t : Transport) (rest : list Z) (t' : Transport) : Prop :=
  t'.(t_input) = rest ∧ t'.(t_output) = t.(t_output) ∧ t'.(t_frameMax) = t.(t_frameMax) ∧ v1_buffer_ok t'.

(** [Receive] on a header and the bytes that it announces. *)
Lemma v1_Receive_content t frameType channel body rest :
  let size := 8 + Z.of_nat (length body) in
  is_uint16 channel → Z.of_nat (length body) ≤ 2 ^ 31 → size ≤ t.(t_frameMax) → v1_buffer_ok t → (0 < length body)%nat →
  frameType = AMQPFrameType ∨ frameType = SASLFrameType →
  t.(t_input) = frame_header_bytes size frameType channel ++ body ++ rest →
  ∃ t', v1_received t rest t' ∧
    Receive t = (frame ← decodeFrame (wire_meta size frameType channel) body; Ok (Some frame, t')).
Proof.
  intros size Hc Hl Hm Hb Hne Ht Hi. unfold Receive. set (header := frame_header_bytes size frameType channel) in *.
  assert (length header = 8%nat) as Hh by apply length_frame_header.
  rewrite (v1_ReadFull_header _ t header (body ++ rest)) by done.
  cbn [mbind result_bind t_data t_frameMax]. unfold header. rewrite read_meta_law by (done || (unfold is_uint32, size; lia)).
  change (Size (wire_meta size frameType channel)) with size.
  change (FrameMeta_Type (wire_meta size frameType channel)) with frameType.
  change (DataOffset (wire_meta size frameType channel)) with 2. fold header.
  destruct (Z.ltb_spec t.(t_frameMax) size); [lia|].
  assert (u32 (size - 8) = Z.of_nat (length body)) as -> by (rewrite u32_small; unfold size, MaxUint32; lia).
  set (t1 := {| t_input := _ |}).
  assert (v1_buffer_ok t1) as Hb1.
  { unfold v1_buffer_ok, t1 in *. cbn [t_data]. rewrite length_app, length_drop, Hh. lia. }
  destruct (v1_grow_ok (Z.of_nat (length body)) t1 Hb1) as [Hg1 Hg2]; [lia|].
  destruct (v1_grow_input (Z.of_nat (length body)) t1) as (Hi1 & Ho1 & Hf1). set (t2 := grow _ t1) in *.
  destruct (Z.eqb_spec (Z.of_nat (length body)) 0); [lia|].
  rewrite (v1_ReadFull_app _ t2 body rest) by done. cbn [mbind result_bind t_data].
  assert ((frameType =? AMQPFrameType) || (frameType =? SASLFrameType) = true) as -> by (by destruct Ht as [-> | ->]).
  change (u32 (4 * 2 - 8)) with 0. rewrite Z.sub_0_r, u32_small by (unfold MaxUint32; lia).
  rewrite length_app, length_drop. match goal with |- context [Z.ltb ?a (Z.of_nat (length body))] => destruct (Z.ltb_spec a (Z.of_nat (length body))); [lia|] end.
  rewrite Nat2Z.id, take_app_length. eexists. split; [|reflexivity]. split_and!; [done..|].
  unfold v1_buffer_ok in *. cbn [t_data]. rewrite length_app, length_drop. lia.
Qed.

(** A frame that is sent and can be read back; a heartbeat needs only room for its header. *)
Definition v1_sendable (frameMax : Z) (frame : option Frame) : Prop :=
  match frame with
  | None => 8 ≤ frameMax
  | Some frame =>
    Frame_ok frame ∧ is_uint16 (GetFrameMeta frame).(Channel) ∧
    match Frame_MarshalBuffer frame with
    | Ok data =>
      let n := Z.of_nat (length data) + Z.of_nat (length (GetFrameMeta frame).(Payload)) in n ≤ 2 ^ 31 ∧ 8 + n ≤ frameMax
    | _ => False
    end
  end.

(** What the other side receives: a frame with its meta data on the wire. *)
Definition v1_frame_received (frame : Frame) : Frame :=
  match Frame_MarshalBuffer frame with
  | Ok data =>
    let meta := GetFrameMeta frame in
    let size := 8 + Z.of_nat (length (data ++ meta.(Payload))) in
    let frameType := if is_SASLFrame frame then SASLFrameType else AMQPFrameType in
    frame_with (set_payload meta.(Payload) (wire_meta size frameType meta.(Channel))) frame
  | _ => frame
  end.

(** A heartbeat stays one. *)
Definition v1_delivered (frame : option Frame) : option Frame := v1_frame_received <$> frame.

Lemma frame_data_nonempty frame data : Frame_MarshalBuffer frame = Ok data → (0 < length data)%nat.
Proof.
  assert (∃ d tail, Frame_MarshalBuffer frame = Ok (DescriptorEncoding :: marshalUlong d) +++ tail) as (d & tail & ->)
    by (destruct frame; by eexists _, _).
  intros (l1 & l2 & <-%Ok_inj & _ & ->)%wapp_Ok. cbn. lia.
Qed.

Lemma v1_Send_heartbeat t :
  8 ≤ t.(t_frameMax) →
  ∃ bytes, Send t None = Ok (write t bytes) ∧
    ∀ r rest, r.(t_input) = bytes ++ rest → r.(t_frameMax) = t.(t_frameMax) → v1_buffer_ok r →
      ∃ r', Receive r = Ok (None, r') ∧ v1_received r rest r'.
Proof.
  intros Hm. exists (frame_header_bytes 8 AMQPFrameType 0). split.
  { unfold Send. by destruct (Z.ltb_spec t.(t_frameMax) 8); [lia|]. }
  intros r rest Hi Hr Hb. unfold Receive. rewrite (v1_ReadFull_header _ r _ rest Hb Hi) by apply length_frame_header.
  cbn [mbind result_bind t_data t_frameMax]. rewrite read_meta_law by done. cbn [wire_meta Size FrameMeta_Type].
  destruct (Z.ltb_spec r.(t_frameMax) 8); [lia|]. change (u32 (8 - 8)) with 0. unfold grow. cbn [t_data].
  match goal with |- context [Z.ltb ?a 0] => destruct (Z.ltb_spec a 0); [lia|] end. eexists. split; [reflexivity|]. split_and!; [done..|].
  unfold v1_buffer_ok in *. cbn [t_data]. rewrite length_app, length_drop, length_frame_header. lia.
Qed.

Lemma v1_Send_frame t frame :
  v1_sendable t.(t_frameMax) frame →
  ∃ bytes, Send t frame = Ok (write t bytes) ∧
    ∀ r rest, r.(t_input) = bytes ++ rest → r.(t_frameMax) = t.(t_frameMax) → v1_buffer_ok r →
      ∃ r', Receive r = Ok (v1_delivered frame, r') ∧ v1_received r rest r'.
Proof.
  destruct frame as [frame|]; [|apply v1_Send_heartbeat]. intros (Hok & Hc & Hs).
  destruct (Frame_MarshalBuffer frame) as [data| |] eqn:Hd; [|done..]. cbv zeta in Hs.
  pose proof (frame_data_nonempty _ _ Hd) as Hne. set (meta := GetFrameMeta frame) in *.
  set (size := 8 + Z.of_nat (length (data ++ meta.(Payload)))). rewrite <- Nat2Z.inj_add, <- length_app in Hs.
  exists (frame_header_bytes size (if is_SASLFrame frame then SASLFrameType else AMQPFrameType) meta.(Channel) ++ data ++ meta.(Payload)).
  split.
  - unfold Send. rewrite Hd. cbn [Wrap mbind result_bind]. fold meta.
    assert (u32 (u32 (8 + u32 (Z.of_nat (length data))) + u32 (Z.of_nat (length meta.(Payload)))) = size) as ->.
    { unfold size. rewrite length_app in *. rewrite (u32_small (Z.of_nat (length data))), (u32_small (Z.of_nat (length meta.(Payload)))) by (unfold MaxUint32; lia).
      rewrite (u32_small (8 + _)) by (unfold MaxUint32; lia). rewrite u32_small; [|unfold MaxUint32]; lia. }
    by destruct (Z.ltb_spec t.(t_frameMax) size); [unfold size in *; lia|].
  - intros r rest Hi Hr Hb. rewrite <- app_assoc in Hi.
    edestruct (v1_Receive_content r (if is_SASLFrame frame then SASLFrameType else AMQPFrameType) meta.(Channel)
      (data ++ meta.(Payload)) rest) as (r' & Hrec & E); [done|lia|rewrite Hr; lia|done|rewrite length_app; lia| |exact Hi|].
    { destruct (is_SASLFrame frame); auto. }
    exists r'. split; [|done]. rewrite E, (decodeFrame_law _ frame data); [|done..|rewrite length_app in Hs; lia].
    cbn. unfold v1_delivered, v1_frame_received. cbn. rewrite Hd. done.
Qed.

Fixpoint v1_SendAll (t : Transport) (frames : list (option Frame)) : result go_error Transport :=
  match frames with
  | [] => Ok t
  | frame :: frames => t ← Send t frame; v1_SendAll t frames
  end.

Fixpoint v1_ReceiveN (n : nat) (t : Transport) : result go_error (list (option Frame) * Transport) :=
  match n with
  | O => Ok ([], t)
  | S n =>
    '(frame, t) ← Receive t;
    '(frames, t) ← v1_ReceiveN n t;
    Ok (frame :: frames, t)
  end.

Lemma v1_send_receive t frames :
  Forall (v1_sendable t.(t_frameMax)) frames →
  ∃ bytes, v1_SendAll t frames = Ok (write t bytes) ∧
    ∀ r rest, r.(t_input) = bytes ++ rest → r.(t_frameMax) = t.(t_frameMax) → v1_buffer_ok r →
      ∃ r', v1_ReceiveN (length frames) r = Ok (v1_delivered <$> frames, r') ∧ v1_received r rest r'.
Proof.
  intros Hf. revert t Hf. induction frames as [|frame frames IH]; intros t Hf.
  { exists []. split; [|by intros r rest Hi Hm Hb; exists r]. cbn. unfold write. rewrite app_nil_r. by destruct t. }
  inversion Hf as [|? ? H1 H2]; subst. destruct (v1_Send_frame t frame H1) as (b1 & Hs1 & Hr1).
  destruct (IH (write t b1) H2) as (b2 & Hs2 & Hr2). exists (b1 ++ b2). split.
  - cbn [v1_SendAll]. rewrite Hs1. cbn. rewrite Hs2. unfold write. cbn. by rewrite app_assoc.
  - intros r rest Hi Hm Hb. rewrite <- app_assoc in Hi. destruct (Hr1 r _ Hi Hm Hb) as (r1 & Hr & Hi1 & Ho1 & Hm1 & Hb1).
    destruct (Hr2 r1 rest Hi1 ltac:(cbn; congruence) Hb1) as (r2 & Hr' & Hi2 & Ho2 & Hm2 & Hb2).
    exists r2. cbn [length v1_ReceiveN]. rewrite Hr. cbn. rewrite Hr'. cbn. split; [done|]. split_and!; [done|congruence..|done].
Qed.

(** ** Messages: sections one after the other *)

Fixpoint marshal_sections (sections : list MessageSection) : writer :=
  match sections with
  | [] => Ok []
  | s :: sections => Section_MarshalBuffer s +++ marshal_sections sections
  end.

Fixpoint unmarshal_sections (n : nat) : decoder (list MessageSection) :=
  match n with
  | O => mret []
  | S n => s ← UnmarshalSection; sections ← unmarshal_sections n; mret (s :: sections)
  end.

Lemma sections_law sections :
  Forall Section_ok sections →
  dec_law (marshal_sections sections) (unmarshal_sections (length sections)) (Section_canon <$> sections).
Proof.
  induction 1 as [|s sections Hs _ IH]; [by apply dec_ret|]. cbn [marshal_sections length unmarshal_sections].
  eapply dec_bind; [by apply Section_law|]. intros l Hl Hn rest. by erewrite decoder_bind_Ok by (by apply IH).
Qed.

(** *** Theorems *)

(** (C17) Well-formed frames that one AMQP 1.0 transport sends arrive at the other, in their order: sending succeeds,
    and receiving as many frames from the bytes that were written gives every heartbeat as such, and every
    frame with the size, type and channel on the wire, its payload unchanged and its fields unchanged up to the
    canonical form of maps and empty arrays (no negative zero, no nil map or list inside of a map), leaving no byte.  The conditions on a frame
    are those of [v1_sendable], for a receiver with a buffer of 8 to 2^31 bytes, as a new one has: it fits the frame size that both sides agreed on, and 2^31 bytes; integer fields are
    in the range of their type; the expiry policies, the distribution mode, the error condition and the SASL mechanism, which are symbols, have at most 255 bytes; the prefix of an error condition agrees with its type, and an error has a condition; numbers in maps are not infinite and the
    whole ones fit an int64; the lists of mechanisms, challenges and responses of SASL are present; and where a transfer or a disposition has no state, or a source
    no default outcome, no later field is set.  [Send] also accepts frames outside of these conditions, and they do not arrive:
    [null_state_unreadable] and [long_symbol_lost] are examples. *)
Theorem v1_transport_delivers (t : Transport) (frames : list (option Frame)) :
  t.(t_output) = [] → Forall (v1_sendable t.(t_frameMax)) frames →
  ∃ t', v1_SendAll t frames = Ok t' ∧
    ∀ r, r.(t_input) = t'.(t_output) → r.(t_frameMax) = t.(t_frameMax) → v1_buffer_ok r →
      ∃ r', v1_ReceiveN (length frames) r = Ok (v1_delivered <$> frames, r') ∧ r'.(t_input) = [].
Proof.
  intros Ho Hf. destruct (v1_send_receive t frames Hf) as (bytes & Hs & Hr). eexists. split; [exact Hs|].
  intros r Hi Hm Hb. destruct (Hr r [] ltac:(by rewrite Hi, app_nil_r; cbn; rewrite Ho) Hm Hb) as (r' & Hr' & Hi' & _). eauto.
Qed.

(** The sections of a message are read back: when the sections can be encoded in less than 4 GiB, decoding
    as many sections from the bytes, whatever follows them, gives each section in its place, header, properties
    and maps in canonical form and data byte for byte, and leaves exactly what follows. *)
Theorem message_roundtrip (sections : list MessageSection) bytes rest :
  Forall Section_ok sections → marshal_sections sections = Ok bytes → Z.of_nat (length bytes) < 2 ^ 32 →
  unmarshal_sections (length sections) (bytes ++ rest) = Ok (Section_canon <$> sections, rest).
Proof. intros Hs Hm Hl. by apply sections_law. Qed.

(** A frame header with a size below eight crashes the connection: the size of the contents wraps to almost
    2^32, no buffer of that size can be made, and [Receive] panics on every transport, for every type, channel and
    data offset in the header and whatever follows it. *)
Theorem v1_Receive_size_underflow (t : Transport) header rest :
  v1_buffer_ok t → t.(t_input) = header ++ rest → length header = 8%nat → is_bytes header →
  get_be (take 4 header) < 8 ≤ t.(t_frameMax) → Receive t = Panic "slice bounds out of range".
Proof.
  intros Hb Hi Hl Hbytes [Hs Hm]. unfold Receive. rewrite (v1_ReadFull_header _ t header rest) by done.
  cbn [mbind result_bind t_data t_frameMax].
  assert (0 ≤ get_be (take 4 header)) as H0.
  { apply (get_be_range _ 4). split; [by apply Forall_take|]. by rewrite length_take, Hl. }
  set (data := header ++ _). assert (Size (read_meta data) = get_be (take 4 header)) as ->.
  { unfold read_meta, data. cbn [Size]. by rewrite take_app_le by lia. }
  destruct (Z.ltb_spec t.(t_frameMax) (get_be (take 4 header))); [lia|].
  assert (u32 (get_be (take 4 header) - 8) = get_be (take 4 header) - 8 + 2 ^ 32) as Hu.
  { unfold u32. symmetry. apply (Z.mod_unique _ _ (-1)); [left|]; lia. }
  rewrite Hu. set (n := get_be (take 4 header) - 8 + 2 ^ 32) in *. assert (2 ^ 31 < n < 2 ^ 32) as Hn by (unfold n; lia). clearbody n.
  assert (grow n {| t_input := rest; t_output := t.(t_output); t_data := data; t_frameMax := t.(t_frameMax) |} =
    {| t_input := rest; t_output := t.(t_output); t_data := []; t_frameMax := t.(t_frameMax) |}) as ->.
  { unfold grow. cbn [t_data]. assert (Z.of_nat (length data) ≤ 2 ^ 31) by (unfold data, v1_buffer_ok in *; rewrite length_app, length_drop; lia).
    destruct (Z.ltb_spec (Z.of_nat (length data)) n); [|lia]. cbn [t_input t_output t_frameMax].
    destruct (NextPowerOfTwo32_spec n) as [_ H32]; [lia|]. by rewrite H32 by lia. }
  destruct (Z.eqb_spec n 0); [lia|]. unfold ReadFull. cbn [t_data length]. by destruct (Z.ltb_spec (Z.of_nat 0) n); [|lia].
Qed.

End Frames.

(** ** Concrete frames *)

(** Some way to write a time; the examples have none. *)
Definition plain_time : TimeFormat := λ _, ""%string.
#[local] Existing Instance plain_time.

Definition meta_on (channel : Z) (payload : list Z) : FrameMeta :=
  {| Size := 0; DataOffset := 0; FrameMeta_Type := 0; Channel := channel; Payload := payload |}.

Definition example_open : Open := {|
  Open_ContainerID := "container-id"; Open_Hostname := "hostname"; Open_MaxFrameSize := 131072; Open_ChannelMax := 1024;
  Open_IdleTimeOut := 10000; Open_OutgoingLocales := Some ["en_US"; "cs_CZ"]; Open_IncomingLocales := Some ["cs_CZ"; "en_GB"];
  Open_OfferedCapabilities := Some ["foo"; "bar"; "baz"]; Open_DesiredCapabilities := Some ["qux"];
  Open_Properties := Some (MkStruct (Some [("answer", NumberValue (f64_of_Z 42))])) |}%string.

Definition example_transfer : Transfer := {|
  Transfer_Handle := 3; Transfer_DeliveryID := 7; Transfer_DeliveryTag := Some [0; 0; 0; 7]; Transfer_MessageFormat := 0;
  Transfer_Settled := false; Transfer_More := false; Transfer_RcvSettleMode := ReceiverSettleModeNull;
  Transfer_State := Some (DeliveryAccepted MkAccepted); Transfer_Resume := false; Transfer_Aborted := false;
  Transfer_Batchable := true |}.

Definition example_init : SASLInit :=
  {| SASLInit_Mechanism := "PLAIN"; SASLInit_InitialResponse := Some [0; 97; 0; 98]; SASLInit_Hostname := "localhost" |}.

Definition example_v1_frames : list (option Frame) :=
  [Some (FrameSASLInit (meta_on 0 []) example_init); Some (FrameOpen (meta_on 0 []) example_open); None;
   Some (FrameTransfer (meta_on 1 [104; 105]) example_transfer)].

Lemma example_v1_sendable : Forall (v1_sendable (NewTransport []).(t_frameMax)) example_v1_frames.
Proof.
  repeat apply Forall_cons_2; [..|apply Forall_nil_2]; cbn [v1_sendable]; [| |done|]; (split; [|split; [done|by vm_compute]]);
    cbn [Frame_ok]; unfold SASLInit_ok, Open_ok, Transfer_ok; try split_and!; try (by vm_compute); left; by eexists.
Qed.

Lemma v1_transport_delivers_witness :
  ∃ t', v1_SendAll (NewTransport []) example_v1_frames = Ok t' ∧
    ∀ r, r.(t_input) = t'.(t_output) → r.(t_frameMax) = MinMaxFrameSize → v1_buffer_ok r →
      ∃ r', v1_ReceiveN 4 r = Ok (v1_delivered <$> example_v1_frames, r') ∧ r'.(t_input) = [].
Proof. apply (v1_transport_delivers (NewTransport []) example_v1_frames); [done|exact example_v1_sendable]. Defined.

Definition example_sections : list MessageSection :=
  [SectionApplicationProperties (MkStruct (Some [("retries", NumberValue (f64_of_Z 3))])); SectionData (Some [1; 2; 3])]%string.

Lemma message_roundtrip_witness :
  unmarshal_sections 2 (match marshal_sections example_sections with Ok l => l | _ => [] end ++ [9]) = Ok (example_sections, [9]).
Proof.
  apply (message_roundtrip example_sections); [|by vm_compute..].
  apply Forall_cons_2; [by vm_compute|]. apply Forall_cons_2; [done|apply Forall_nil_2].
Defined.

Lemma v1_Receive_size_underflow_witness : Receive (NewTransport [0; 0; 0; 7; 2; 0; 0; 1]) = Panic "slice bounds out of range".
Proof.
  apply (v1_Receive_size_underflow _ [0; 0; 0; 7; 2; 0; 0; 1] []); [by vm_compute|done|done| |by vm_compute].
  repeat apply Forall_cons_2; (apply Forall_nil_2 || lia).
Defined.

(** ** What the encoding loses *)

Definition refused {A} (r : result go_error A) : bool := match r with Err _ => true | _ => false end.

(** A field after an absent delivery state: the null that is written in its place is not a described type. *)
Lemma null_state_unreadable :
  let t := {| Transfer_Handle := 3; Transfer_DeliveryID := 7; Transfer_DeliveryTag := None; Transfer_MessageFormat := 0;
    Transfer_Settled := false; Transfer_More := false; Transfer_RcvSettleMode := ReceiverSettleModeNull; Transfer_State := None;
    Transfer_Resume := false; Transfer_Aborted := false; Transfer_Batchable := true |} in
  refused (bytes ← Transfer_MarshalBuffer t; Transfer_UnmarshalBuffer bytes) = true ∧ refused (Transfer_MarshalBuffer t) = false.
Proof. by vm_compute. Qed.

(** An array without room for its count. *)
Lemma empty_array_panics : Open_UnmarshalBuffer [0; 83; 16; 192; 11; 6; 161; 1; 97; 64; 64; 64; 64; 224; 0; 0] = Panic "slice bounds out of range".
Proof. by vm_compute. Qed.

(** A section whose map is null. *)
Lemma null_footer_panics : UnmarshalSection [0; 83; 120; 64] = Panic "nil pointer dereference".
Proof. by vm_compute. Qed.

(** The error of a data section that is cut short is lost. *)
Lemma short_data_accepted : UnmarshalSection [0; 83; 117; 160; 5; 1; 2] = Ok (SectionData None, [1; 2]).
Proof. by vm_compute. Qed.

(** An extended header is not skipped: the contents lose their last four bytes in its place. *)
Lemma extended_header_refused :
  refused (Receive (NewTransport ([0; 0; 0; 16; 3; 0; 0; 0] ++ [0; 0; 0; 0] ++ [0; 83; 24; 69]))) = true.
Proof. by vm_compute. Qed.

(** A heartbeat where a frame is expected. *)
Lemma heartbeat_unexpected assignable : 
  Expect assignable (NewTransport [0; 0; 0; 8; 2; 0; 0; 0]) = Panic "reflect: call of reflect.Value.Type on zero Value".
Proof. by vm_compute. Qed.
