(* ===== verification/AmqpV1Total.v ===== *)
(** * AMQP 1.0: decoding ends

    Nothing that a peer sends makes a decoder recurse without an end: values nest in each other, and each
    nesting takes bytes of its own.  A decoder returns a value, an error, or panics as Go does. *)
From S2P Require Import Prelude Util Emq Bytes AmqpValues AmqpV1 AmqpV1Fields AmqpV1Types AmqpV1Transport.

(** The run-time panics of the decoders. *)
Definition go_panic (msg : string) : Prop := msg = "slice bounds out of range"%string ∨ msg = "nil pointer dereference"%string.

(** The decoder ends, and does not give back more bytes than it got. *)
Definition ends {A} (m : decoder A) (buf : list Z) : Prop :=
  match m buf with
  | Ok (_, rest) => (length rest ≤ length buf)%nat
  | Err _ => True
  | Panic msg => go_panic msg
  end.

Create HintDb ends.

Lemma ends_bind {A B} (m : decoder A) (f : A → decoder B) buf :
  ends m buf → (∀ a rest, m buf = Ok (a, rest) → (length rest ≤ length buf)%nat → ends (f a) rest) → ends (x ← m; f x) buf.
Proof.
  unfold ends, mbind, decoder_bind. destruct (m buf) as [[a rest]| |]; [|done..].
  intros H1 H2. specialize (H2 a rest eq_refl H1). destruct (f a rest) as [[b rest']| |]; [lia|done..].
Qed.

(** When the continuation ends on every buffer. *)
Lemma ends_bind_all {A B} (m : decoder A) (f : A → decoder B) buf :
  ends m buf → (∀ a rest, ends (f a) rest) → ends (x ← m; f x) buf.
Proof. intros Hm Hf. apply ends_bind; auto. Qed.

Lemma ends_ret {A} (a : A) buf : ends (mret a) buf.
Proof. unfold ends. cbn. lia. Qed.

Lemma ends_fail {A} e buf : ends (read_fail (A := A) e) buf.
Proof. done. Qed.

Lemma ends_ReadByte msg buf : ends (ReadByte msg) buf.
Proof. unfold ends, ReadByte. destruct buf; cbn; [done|lia]. Qed.

Lemma ends_BufNext msg n buf : ends (BufNext msg n) buf.
Proof. unfold ends, BufNext. destruct (_ <? _); [done|]. rewrite length_drop. lia. Qed.

Lemma ends_take_n kind n buf : ends (take_n kind n) buf.
Proof. apply ends_BufNext. Qed.

Lemma ends_next_n n buf : ends (next_n n) buf.
Proof. unfold ends, next_n. destruct (_ <? _); [by left|]. rewrite length_drop. lia. Qed.

Lemma ends_WrapD {A} msg (m : decoder A) buf : ends m buf → ends (WrapD msg m) buf.
Proof. unfold ends, WrapD. by destruct (m buf) as [[? ?]| |]. Qed.

Lemma ends_within {A} (m : decoder A) data buf : ends m data → ends (within m data) buf.
Proof. unfold ends, within. destruct (m data) as [[? ?]| |]; cbn; auto with lia. Qed.

Lemma ends_unexpected {A} kind buf : ends (unexpected (A := A) kind) buf.
Proof. done. Qed.

#[local] Hint Resolve ends_ret ends_fail ends_ReadByte ends_BufNext ends_take_n ends_next_n ends_WrapD ends_unexpected : ends.

(** Binds and branches, down to the decoders of the hint database. *)
Ltac ends_step :=
  match goal with
  | |- ends (x ← _; _) _ => apply ends_bind_all; [|intros ? ?]
  | |- ends (mbind _ _) _ => apply ends_bind_all; [|intros ? ?]
  | |- ends (if ?b then _ else _) _ => destruct b
  | |- ends (match ?x with _ => _ end) _ => destruct x
  | |- ends (let _ := _ in _) _ => cbv zeta
  | |- ends (WrapD _ _) _ => apply ends_WrapD
  | |- ends (within _ _) _ => apply ends_within
  | |- ends _ _ => solve [auto 2 with ends]
  end.
Ltac ends_auto := repeat ends_step.

(** ** Primitive types *)

Lemma ends_var kind e8 e32 c buf : ends (unmarshal_var kind e8 e32 c) buf.
Proof. unfold unmarshal_var. ends_auto. Qed.

#[local] Hint Resolve ends_var : ends.

Lemma ends_primitives c buf :
  ends (unmarshalBoolean c) buf ∧ ends (unmarshalUbyte c) buf ∧ ends (unmarshalUshort c) buf ∧ ends (unmarshalUint c) buf ∧
  ends (unmarshalUlong c) buf ∧ ends (unmarshalByte c) buf ∧ ends (unmarshalShort c) buf ∧ ends (unmarshalInt c) buf ∧
  ends (unmarshalLong c) buf ∧ ends (unmarshalFloat c) buf ∧ ends (unmarshalDouble c) buf ∧ ends (unmarshalChar c) buf ∧
  ends (unmarshalTimestamp c) buf ∧ ends (unmarshalUUID c) buf ∧ ends (unmarshalBinary c) buf ∧
  ends (unmarshalString c) buf ∧ ends (unmarshalSymbol c) buf.
Proof.
  unfold unmarshalBoolean, unmarshalUbyte, unmarshalUshort, unmarshalUint, unmarshalUlong, unmarshalByte, unmarshalShort,
    unmarshalInt, unmarshalLong, unmarshalFloat, unmarshalDouble, unmarshalChar, unmarshalTimestamp, unmarshalUUID,
    unmarshalBinary, unmarshalString, unmarshalSymbol.
  split_and!; ends_auto.
Qed.

(** Each of them by itself. *)
#[local] Hint Extern 1 (ends (_ _) _) => apply ends_primitives : ends.

Lemma ends_sized_int msg8 msg32 e8 c buf : ends (sized_int msg8 msg32 e8 c) buf.
Proof. unfold sized_int. ends_auto. Qed.

#[local] Hint Resolve ends_sized_int : ends.

Lemma ends_array_parts kind c buf : ends (array_parts kind c) buf.
Proof. unfold array_parts. ends_auto. Qed.

#[local] Hint Resolve ends_array_parts : ends.

Lemma ends_symbol_items c n buf : ends (symbol_items c n) buf.
Proof. revert buf. induction n as [|n IH]; intros buf; cbn [symbol_items]; ends_auto. Qed.

#[local] Hint Resolve ends_symbol_items : ends.

Lemma ends_symbol_array c buf : ends (unmarshalSymbolArray c) buf.
Proof. unfold unmarshalSymbolArray, symbol_contents. ends_auto. Qed.

#[local] Hint Resolve ends_symbol_array : ends.

(** ** Values: every nesting takes at least a byte *)

Section ValuesEnd.

Context `{TimeFormat}.

Lemma sized_int_shorter msg8 msg32 e8 c buf n rest : sized_int msg8 msg32 e8 c buf = Ok (n, rest) → (length rest < length buf)%nat.
Proof.
  unfold sized_int. destruct (c =? e8).
  - intros ->%ReadByte_inv. cbn. lia.
  - intros (x & rest' & [-> Hl]%BufNext_inv & [= _ <-])%decoder_bind_inv. rewrite length_app. lia.
Qed.

Lemma take_n_shorter kind n buf l rest : take_n kind n buf = Ok (l, rest) → (length l ≤ length buf)%nat.
Proof. intros [-> _]%BufNext_inv. rewrite length_app. lia. Qed.

Lemma array_parts_shorter kind c buf count data rest :
  array_parts kind c buf = Ok ((count, data), rest) → (length data < length buf)%nat.
Proof.
  unfold array_parts. destruct (c =? _).
  - intros (s & b1 & ->%ReadByte_inv & (k & b2 & ->%ReadByte_inv & (d & b3 & E & [= _ <- _])%decoder_bind_inv)%decoder_bind_inv)%decoder_bind_inv.
    unfold next_n in E. destruct (_ <? 0); [done|]. injection E as <- <-. rewrite length_take. cbn. lia.
  - intros (x & b1 & [-> Hl]%BufNext_inv & (d & b2 & E & [= _ <- _])%decoder_bind_inv)%decoder_bind_inv.
    unfold next_n in E. destruct (_ <? 0); [done|]. injection E as <- <-. rewrite length_take, length_app. lia.
Qed.

(** Items that end on every part of the buffer. *)
Lemma ends_list_items msg item n buf :
  (∀ buf', (length buf' ≤ length buf)%nat → ends item buf') → ends (list_items msg item n) buf.
Proof.
  revert buf. induction n as [|n IH]; intros buf Hi; cbn [list_items]; [apply ends_ret|].
  apply ends_bind; [apply ends_WrapD, Hi; lia|]. intros v rest _ Hl. apply ends_bind_all; [|intros; apply ends_ret].
  apply IH. intros buf' Hb. apply Hi. lia.
Qed.

Lemma ends_map_items item n fields buf :
  (∀ buf', (length buf' ≤ length buf)%nat → ends item buf') → ends (map_items item n fields) buf.
Proof.
  revert fields buf. induction n as [|n IH]; intros fields buf Hi; cbn [map_items]; [apply ends_ret|].
  apply ends_bind; [apply ends_WrapD, Hi; lia|]. intros v rest _ Hl. destruct v; try apply ends_fail.
  apply ends_bind; [apply ends_WrapD, Hi; lia|]. intros v rest' _ Hl'. apply IH. intros buf' Hb. apply Hi. lia.
Qed.

Lemma ends_unmarshal_map item c buf :
  (∀ buf', (length buf' < length buf)%nat → ends item buf') → ends (unmarshal_map item c) buf.
Proof.
  intros Hi. unfold unmarshal_map. destruct (_ =? _); [apply ends_ret|]. destruct (_ || _); [|apply ends_unexpected].
  apply ends_bind; [apply ends_sized_int|]. intros size rest Hs%sized_int_shorter _. destruct (_ =? _); [apply ends_ret|].
  apply ends_bind; [apply ends_take_n|]. intros data rest' Hd%take_n_shorter _. apply ends_bind_all; [|intros; apply ends_ret].
  apply ends_within. unfold map_contents. apply ends_bind; [apply ends_sized_int|]. intros count rest'' _ Hc.
  destruct (negb _); [apply ends_fail|]. apply ends_map_items. intros buf' Hb. apply Hi. lia.
Qed.

Lemma ends_unmarshalList item c buf :
  (∀ buf', (length buf' < length buf)%nat → ends item buf') → ends (unmarshalList item c) buf.
Proof.
  intros Hi. unfold unmarshalList. destruct (_ =? _); [apply ends_ret|]. destruct (_ || _); [|apply ends_unexpected].
  apply ends_bind; [apply ends_sized_int|]. intros size rest Hs%sized_int_shorter _.
  apply ends_bind; [apply ends_take_n|]. intros data rest' Hd%take_n_shorter _.
  apply ends_within. unfold list_contents. apply ends_bind; [apply ends_sized_int|]. intros count rest'' _ Hc.
  apply ends_list_items. intros buf' Hb. apply Hi. lia.
Qed.

Lemma ends_unmarshalArray item c buf :
  (∀ c' buf', (length buf' < length buf)%nat → ends (item c') buf') → ends (unmarshalArray item c) buf.
Proof.
  intros Hi. unfold unmarshalArray. destruct (_ =? _); [apply ends_ret|]. destruct (_ || _); [|apply ends_unexpected].
  apply ends_bind; [apply ends_array_parts|]. intros [count data] rest Hs%array_parts_shorter _. destruct (_ =? _); [apply ends_ret|].
  apply ends_bind_all; [|intros; apply ends_ret]. apply ends_within. unfold array_contents.
  apply ends_bind; [apply ends_ReadByte|]. intros c' rest' _ Hc. apply ends_list_items. intros buf' Hb. apply Hi. lia.
Qed.

Lemma ends_primitive c m buf : unmarshal_primitive c = Some m → ends m buf.
Proof.
  unfold unmarshal_primitive, number, text. repeat case_match; intros [= <-]; ends_auto.
Qed.

Lemma ends_value n : ∀ c buf, (length buf < n)%nat → ends (unmarshalValueWithConstructor n c) buf.
Proof.
  induction n as [|n IH]; intros c buf Hn; [lia|]. cbn [unmarshalValueWithConstructor].
  destruct (unmarshal_primitive c) as [m|] eqn:E; [by eapply ends_primitive|]. cbv zeta.
  assert (∀ buf', (length buf' < length buf)%nat → ends (read_value (unmarshalValueWithConstructor n)) buf') as Hi.
  { intros buf' Hb. unfold read_value. apply ends_bind; [apply ends_ReadByte|]. intros c' rest _ Hl. apply IH. lia. }
  destruct (one_of _ _); [|destruct (one_of _ _); [|destruct (one_of _ _); [|apply ends_fail]]];
    (apply ends_bind_all; [apply ends_WrapD|intros; apply ends_ret]).
  - by apply ends_unmarshalList.
  - by apply ends_unmarshal_map.
  - apply ends_unmarshalArray. intros c' buf' Hb. apply IH. lia.
Qed.

Lemma ends_map c buf : ends (unmarshalMap c) buf.
Proof.
  unfold ends, unmarshalMap. fold (ends (unmarshal_map (unmarshalValue (S (length buf))) c) buf).
  apply ends_unmarshal_map. intros buf' Hb. unfold unmarshalValue, read_value.
  apply ends_bind; [apply ends_ReadByte|]. intros c' rest _ Hl. apply ends_value. lia.
Qed.

#[local] Hint Resolve ends_map : ends.

(** ** Composites *)

Lemma ends_field {A} name (u : Z → decoder A) buf : (∀ c buf, ends (u c) buf) → ends (field name u) buf.
Proof. intros Hu. unfold field. ends_auto. Qed.

Lemma ends_named {A} (u : Z → decoder A) buf : (∀ c buf, ends (u c) buf) → ends (named u) buf.
Proof. intros Hu. unfold named. ends_auto. Qed.

Lemma ends_or_null {A} null (u : Z → decoder A) c buf : (∀ c buf, ends (u c) buf) → ends (or_null null u c) buf.
Proof. intros Hu. unfold or_null. ends_auto. Qed.

Lemma ends_field_buf {A} name (m : decoder A) buf : ends m buf → ends (field_buf name m) buf.
Proof. apply ends_WrapD. Qed.

Lemma ends_field_ptr {A} name (m : decoder A) buf : ends m buf → ends (field_ptr name m) buf.
Proof.
  unfold ends, field_ptr. destruct (m buf) as [[? ?]|e|]; [done| |done]. destruct (is_errNull e); [|done].
  rewrite length_drop. lia.
Qed.

Lemma ends_upto {A} count i (zero : A) m buf : ends m buf → ends (upto count i zero m) buf.
Proof. unfold upto. intros Hm. ends_auto. Qed.

Lemma ends_peek {A} (m : decoder A) buf : ends m buf → ends (peek m) buf.
Proof. unfold ends, peek. destruct (m buf) as [[? ?]| |]; cbn; [lia|done..]. Qed.

Lemma ends_peek_descriptor msg buf : ends (peek_descriptor msg) buf.
Proof. unfold peek_descriptor. apply ends_peek. ends_auto. Qed.

Lemma ends_read_descriptor d buf : ends (read_descriptor d) buf.
Proof. unfold read_descriptor. ends_auto. Qed.

#[local] Hint Resolve ends_field ends_named ends_or_null ends_field_buf ends_field_ptr ends_upto ends_peek_descriptor
  ends_read_descriptor : ends.

Lemma ends_unmarshal_composite {A} name d (zero : A) fields buf :
  (∀ count data, ends (fields count) data) → ends (unmarshal_composite name d zero fields) buf.
Proof. intros Hf. unfold unmarshal_composite, list_length. ends_auto. Qed.

Lemma ends_error_condition c buf : ends (unmarshalErrorCondition c) buf.
Proof. unfold unmarshalErrorCondition. ends_auto. Qed.

Lemma ends_named_types buf :
  ends Role_UnmarshalBuffer buf ∧ ends SenderSettleMode_UnmarshalBuffer buf ∧ ends ReceiverSettleMode_UnmarshalBuffer buf ∧
  ends Handle_UnmarshalBuffer buf ∧ ends Seconds_UnmarshalBuffer buf ∧ ends Milliseconds_UnmarshalBuffer buf ∧
  ends DeliveryTag_UnmarshalBuffer buf ∧ ends DeliveryNumber_UnmarshalBuffer buf ∧ ends TransferNumber_UnmarshalBuffer buf ∧
  ends SequenceNo_UnmarshalBuffer buf ∧ ends MessageFormat_UnmarshalBuffer buf ∧ ends TerminusDurability_UnmarshalBuffer buf ∧
  ends TerminusExpiryPolicy_UnmarshalBuffer buf ∧ ends SASLCode_UnmarshalBuffer buf.
Proof. split_and!; apply ends_named; intros; auto 4 with ends. Qed.

#[local] Hint Resolve ends_error_condition : ends.
#[local] Hint Extern 1 (ends _ _) => apply ends_named_types : ends.

Tactic Notation "ends_composite" reference(unmarshal) reference(fields) :=
  unfold unmarshal; apply ends_unmarshal_composite; intros ? ?; unfold fields;
  repeat (apply ends_bind_all; [solve [auto 6 with ends]|intros ? ?]); apply ends_ret.


Lemma Error_ends buf : ends Error_UnmarshalBuffer buf.
Proof. ends_composite Error_UnmarshalBuffer Error_fields. Qed.
#[local] Hint Resolve Error_ends : ends.

Lemma Received_ends buf : ends Received_UnmarshalBuffer buf.
Proof. ends_composite Received_UnmarshalBuffer Received_fields. Qed.
#[local] Hint Resolve Received_ends : ends.

Lemma Accepted_ends buf : ends Accepted_UnmarshalBuffer buf.
Proof. ends_composite Accepted_UnmarshalBuffer Accepted_fields. Qed.
#[local] Hint Resolve Accepted_ends : ends.

Lemma Rejected_ends buf : ends Rejected_UnmarshalBuffer buf.
Proof. ends_composite Rejected_UnmarshalBuffer Rejected_fields. Qed.
#[local] Hint Resolve Rejected_ends : ends.

Lemma Released_ends buf : ends Released_UnmarshalBuffer buf.
Proof. ends_composite Released_UnmarshalBuffer Released_fields. Qed.
#[local] Hint Resolve Released_ends : ends.

Lemma Modified_ends buf : ends Modified_UnmarshalBuffer buf.
Proof. ends_composite Modified_UnmarshalBuffer Modified_fields. Qed.
#[local] Hint Resolve Modified_ends : ends.

Lemma ends_unions buf :
  ends unmarshalDeliveryStateUnion buf ∧ ends unmarshalOutcomeUnion buf ∧ ends unmarshalMessageIDUnion buf ∧
  ends unmarshalAddressUnion buf.
Proof.
  unfold unmarshalDeliveryStateUnion, unmarshalOutcomeUnion, unmarshalMessageIDUnion, unmarshalAddressUnion, union_member.
  split_and!; ends_auto.
Qed.
#[local] Hint Extern 1 (ends _ _) => apply ends_unions : ends.

Lemma Source_ends buf : ends Source_UnmarshalBuffer buf.
Proof. ends_composite Source_UnmarshalBuffer Source_fields. Qed.
#[local] Hint Resolve Source_ends : ends.

Lemma Target_ends buf : ends Target_UnmarshalBuffer buf.
Proof. ends_composite Target_UnmarshalBuffer Target_fields. Qed.
#[local] Hint Resolve Target_ends : ends.

Lemma Open_ends buf : ends Open_UnmarshalBuffer buf.
Proof. ends_composite Open_UnmarshalBuffer Open_fields. Qed.
#[local] Hint Resolve Open_ends : ends.

Lemma Begin_ends buf : ends Begin_UnmarshalBuffer buf.
Proof. ends_composite Begin_UnmarshalBuffer Begin_fields. Qed.
#[local] Hint Resolve Begin_ends : ends.

Lemma Attach_ends buf : ends Attach_UnmarshalBuffer buf.
Proof. ends_composite Attach_UnmarshalBuffer Attach_fields. Qed.
#[local] Hint Resolve Attach_ends : ends.

Lemma Flow_ends buf : ends Flow_UnmarshalBuffer buf.
Proof. ends_composite Flow_UnmarshalBuffer Flow_fields. Qed.
#[local] Hint Resolve Flow_ends : ends.

Lemma Transfer_ends buf : ends Transfer_UnmarshalBuffer buf.
Proof. ends_composite Transfer_UnmarshalBuffer Transfer_fields. Qed.
#[local] Hint Resolve Transfer_ends : ends.

Lemma Disposition_ends buf : ends Disposition_UnmarshalBuffer buf.
Proof. ends_composite Disposition_UnmarshalBuffer Disposition_fields. Qed.
#[local] Hint Resolve Disposition_ends : ends.

Lemma Detach_ends buf : ends Detach_UnmarshalBuffer buf.
Proof. ends_composite Detach_UnmarshalBuffer Detach_fields. Qed.
#[local] Hint Resolve Detach_ends : ends.

Lemma End_ends buf : ends End_UnmarshalBuffer buf.
Proof. ends_composite End_UnmarshalBuffer End_fields. Qed.
#[local] Hint Resolve End_ends : ends.

Lemma Close_ends buf : ends Close_UnmarshalBuffer buf.
Proof. ends_composite Close_UnmarshalBuffer Close_fields. Qed.
#[local] Hint Resolve Close_ends : ends.

Lemma Header_ends buf : ends Header_UnmarshalBuffer buf.
Proof. ends_composite Header_UnmarshalBuffer Header_fields. Qed.
#[local] Hint Resolve Header_ends : ends.

Lemma Properties_ends buf : ends Properties_UnmarshalBuffer buf.
Proof. ends_composite Properties_UnmarshalBuffer Properties_fields. Qed.
#[local] Hint Resolve Properties_ends : ends.

Lemma DeleteOnClose_ends buf : ends DeleteOnClose_UnmarshalBuffer buf.
Proof. ends_composite DeleteOnClose_UnmarshalBuffer DeleteOnClose_fields. Qed.
#[local] Hint Resolve DeleteOnClose_ends : ends.

Lemma DeleteOnNoLinks_ends buf : ends DeleteOnNoLinks_UnmarshalBuffer buf.
Proof. ends_composite DeleteOnNoLinks_UnmarshalBuffer DeleteOnNoLinks_fields. Qed.
#[local] Hint Resolve DeleteOnNoLinks_ends : ends.

Lemma DeleteOnNoMessages_ends buf : ends DeleteOnNoMessages_UnmarshalBuffer buf.
Proof. ends_composite DeleteOnNoMessages_UnmarshalBuffer DeleteOnNoMessages_fields. Qed.
#[local] Hint Resolve DeleteOnNoMessages_ends : ends.

Lemma DeleteOnNoLinksOrMessages_ends buf : ends DeleteOnNoLinksOrMessages_UnmarshalBuffer buf.
Proof. ends_composite DeleteOnNoLinksOrMessages_UnmarshalBuffer DeleteOnNoLinksOrMessages_fields. Qed.
#[local] Hint Resolve DeleteOnNoLinksOrMessages_ends : ends.

Lemma SASLMechanisms_ends buf : ends SASLMechanisms_UnmarshalBuffer buf.
Proof. ends_composite SASLMechanisms_UnmarshalBuffer SASLMechanisms_fields. Qed.
#[local] Hint Resolve SASLMechanisms_ends : ends.

Lemma SASLInit_ends buf : ends SASLInit_UnmarshalBuffer buf.
Proof. ends_composite SASLInit_UnmarshalBuffer SASLInit_fields. Qed.
#[local] Hint Resolve SASLInit_ends : ends.

Lemma SASLChallenge_ends buf : ends SASLChallenge_UnmarshalBuffer buf.
Proof. ends_composite SASLChallenge_UnmarshalBuffer SASLChallenge_fields. Qed.
#[local] Hint Resolve SASLChallenge_ends : ends.

Lemma SASLResponse_ends buf : ends SASLResponse_UnmarshalBuffer buf.
Proof. ends_composite SASLResponse_UnmarshalBuffer SASLResponse_fields. Qed.
#[local] Hint Resolve SASLResponse_ends : ends.

Lemma SASLOutcome_ends buf : ends SASLOutcome_UnmarshalBuffer buf.
Proof. ends_composite SASLOutcome_UnmarshalBuffer SASLOutcome_fields. Qed.
#[local] Hint Resolve SASLOutcome_ends : ends.

(** ** Sections and frames *)

Lemma ends_deref m buf : ends (deref m) buf.
Proof. destruct m; [apply ends_ret|by right]. Qed.

#[local] Hint Resolve ends_deref : ends.

Lemma ends_binary_or_nil c buf : ends (binary_or_nil c) buf.
Proof.
  unfold ends, binary_or_nil. assert (ends (unmarshalBinary c) buf) as Hb by apply ends_primitives. unfold ends in Hb.
  destruct (unmarshalBinary c buf) as [[? ?]| |]; [done| |done]. unfold binary_left. repeat case_match; rewrite ?length_drop; lia.
Qed.

#[local] Hint Resolve ends_binary_or_nil : ends.

Lemma ends_section buf : ends UnmarshalSection buf.
Proof.
  unfold UnmarshalSection, skip_descriptor, DeliveryAnnotations_UnmarshalBuffer, MessageAnnotations_UnmarshalBuffer,
    ApplicationProperties_UnmarshalBuffer, Footer_UnmarshalBuffer.
  ends_auto.
Qed.

(** A section takes at least the byte that says that it is a described type. *)
Definition takes {A} (k : nat) (m : decoder A) (buf : list Z) : Prop := ∀ a rest, m buf = Ok (a, rest) → (length rest + k ≤ length buf)%nat.

Lemma takes_bind {A B} k1 k2 (m : decoder A) (f : A → decoder B) buf :
  takes k1 m buf → (∀ a rest, takes k2 (f a) rest) → takes (k1 + k2) (x ← m; f x) buf.
Proof.
  intros Hm Hf b rest (a & rest1 & Ha & Hr)%decoder_bind_inv. apply Hm in Ha. apply Hf in Hr. lia.
Qed.

Lemma takes_0 {A} (m : decoder A) buf : ends m buf → takes 0 m buf.
Proof. unfold ends, takes. intros Hm a rest E. rewrite E in Hm. lia. Qed.

Lemma takes_WrapD {A} k msg (m : decoder A) buf : takes k m buf → takes k (WrapD msg m) buf.
Proof. intros Hm a rest. unfold WrapD. rewrite Wrap_Ok. apply Hm. Qed.

Lemma takes_ReadByte msg buf : takes 1 (ReadByte msg) buf.
Proof. intros a rest. unfold ReadByte. destruct buf as [|b buf]; [done|]. intros [= <- <-]. cbn. lia. Qed.

Lemma takes_read_descriptor d buf : takes 1 (read_descriptor d) buf.
Proof. apply (takes_bind 1 0); [apply takes_ReadByte|]. intros c rest. apply takes_0. ends_auto. Qed.

Lemma takes_within {A} (m : decoder A) data buf : takes 0 (within m data) buf.
Proof. intros a rest. unfold within. destruct (m data) as [[? ?]| |]; [|done..]. intros [= _ <-]. lia. Qed.

Lemma takes_composite {A} name d (zero : A) fields buf : takes 1 (unmarshal_composite name d zero fields) buf.
Proof.
  apply (takes_bind 1 0); [apply takes_read_descriptor|]. intros _ rest. apply (takes_bind 0 0); [apply takes_0; ends_auto|].
  intros c rest1. destruct (_ || _); [apply takes_0; ends_auto|]. destruct (_ || _); [|apply takes_0; ends_auto].
  apply (takes_bind 0 0); [apply takes_0; unfold list_length; ends_auto|]. intros size rest2.
  apply (takes_bind 0 0); [apply takes_0; ends_auto|]. intros data rest3. apply takes_within.
Qed.

Lemma takes_map_section d buf : takes 1 (_ ← read_descriptor d; m ← named unmarshalMap; deref m) buf.
Proof. apply (takes_bind 1 0); [apply takes_read_descriptor|]. intros _ rest. apply takes_0. ends_auto. Qed.

Lemma section_takes buf : takes 1 UnmarshalSection buf.
Proof.
  unfold UnmarshalSection. cbv zeta. apply (takes_bind 0 1); [apply takes_0; ends_auto|]. intros d rest.
  assert (∀ A msg (m : decoder A) (f : A → MessageSection), takes 1 m rest → takes 1 (t ← WrapD msg m; mret (f t)) rest) as Hw.
  { intros A msg m f Hm. apply (takes_bind 1 0); [by apply takes_WrapD|]. intros a rest'. apply takes_0. ends_auto. }
  repeat match goal with |- takes 1 (if ?b then _ else _) _ => destruct b end; try (apply Hw; first [apply takes_composite|apply takes_map_section]).
  - apply (takes_bind 1 0); [|intros _ rest'; apply takes_0; ends_auto]. unfold skip_descriptor.
    apply (takes_bind 1 0); [apply takes_ReadByte|]. intros c rest'. apply takes_0. ends_auto.
  - by intros a rest'.
Qed.

Lemma ends_frame_descriptor buf : ends frame_descriptor buf.
Proof. unfold frame_descriptor. ends_auto. Qed.

Lemma ends_frame_decoder descriptor m buf : frame_decoder descriptor = Some m → ends m buf.
Proof. unfold frame_decoder. repeat case_match; intros [= <-]; ends_auto. Qed.

Lemma decodeFrame_ends meta buf msg : decodeFrame meta buf = Panic msg → go_panic msg.
Proof.
  unfold decodeFrame. pose proof (ends_frame_descriptor buf) as Hd. unfold ends in Hd.
  destruct (frame_descriptor buf) as [[d rest]| |]; cbn; [|done|by intros [= <-]].
  destruct (frame_decoder d) as [m|] eqn:E; [|done]. pose proof (ends_frame_decoder d m buf E) as Hm. unfold ends in Hm.
  destruct (m buf) as [[f rest']| |]; cbn; [done..|]. by intros [= <-].
Qed.

End ValuesEnd.

(** *** Theorems *)

(** (C29) Receiving an AMQP 1.0 frame and decoding a section of a message end on every input: the recursion over
    nested lists, maps and arrays is bounded by the bytes at hand, so the result is a value, an error, or one of
    the panics that Go raises for a slice out of its bounds or a nil pointer. *)
Theorem v1_decoding_ends `{TimeFormat} (t : Transport) (buf : list Z) :
  match Receive t with
  | Panic msg => go_panic msg
  | _ => True
  end ∧ ends UnmarshalSection buf.
Proof.
  split; [|apply ends_section]. destruct (Receive t) as [|e|msg] eqn:E; [done..|]. revert E. unfold Receive.
  assert (∀ m n t, ReadFull m n t = Panic msg → go_panic msg) as Hr.
  { intros m n t'. unfold ReadFull. repeat case_match; try done. intros [= <-]. by left. }
  destruct (ReadFull _ 8 t) as [t1| |m1] eqn:E1; cbn [mbind result_bind]; [|done|intros [= ->]; by eapply Hr].
  cbv zeta. destruct (t_frameMax t1 <? _); [done|]. destruct (_ =? 0); [by destruct (_ =? _)|].
  destruct (ReadFull "read frame content failed" _ _) as [t2| |m2] eqn:E2; cbn [mbind result_bind]; [|done|intros [= ->]; by eapply Hr].
  destruct (_ || _); [|done]. destruct (_ <? _); [intros [= <-]; by left|].
  destruct (decodeFrame _ _) as [| |m3] eqn:E3; [done..|]. intros [= ->]. by eapply decodeFrame_ends.
Qed.
