(* ===== verification/AmqpV1Server.v ===== *)
(** * AMQP 1.0: the server

    Models src/mq/server_amqp_v1*.go: a connection with its sessions and links.  Frames that are sent and requests to
    the rest of the server are calls ([v1_call]).  A link to a consumer group is an object of its own, which the goroutine
    that delivers messages shares with the loop of the connection (AmqpV1Sender.v); the loop calls its methods.  The
    windows of a session that this goroutine changes too are changed between two frames by [EventSenders]. *)
From Stdlib Require Import Ascii.
From stdpp Require Import pretty.
From S2P Require Import Prelude Emq Bytes ClusterState Requests StructValue Interaction Broker AmqpValues AmqpV1 AmqpV1Fields AmqpV1Types AmqpV1Transport.

(** ** Constants *)

Definition SenderRole : bool := false.
Definition ReceiverRole : bool := true.
Definition UnsettledSenderSettleMode : Z := 0.
Definition SettledSenderSettleMode : Z := 1.
Definition SecondReceiverSettleMode : Z := 1.
Definition ChannelMax : Z := 65534.
Definition HandleMax : Z := 4294967294.
Definition MaxUint16 : Z := 65535.

Definition InternalErrorAMQPError : ErrorCondition := AMQPError "amqp:internal-error".
Definition NotFoundAMQPError : ErrorCondition := AMQPError "amqp:not-found".
Definition DecodeErrorAMQPError : ErrorCondition := AMQPError "amqp:decode-error".
Definition ResourceLimitExceededAMQPError : ErrorCondition := AMQPError "amqp:resource-limit-exceeded".
Definition InvalidFieldAMQPError : ErrorCondition := AMQPError "amqp:invalid-field".
Definition NotImplementedAMQPError : ErrorCondition := AMQPError "amqp:not-implemented".
Definition IllegalStateAMQPError : ErrorCondition := AMQPError "amqp:illegal-state".
Definition ConnectionForcedConnectionError : ErrorCondition := ConnectionError "amqp:connection:forced".
Definition FramingErrorConnectionError : ErrorCondition := ConnectionError "amqp:connection:framing-error".
Definition WindowViolationSessionError : ErrorCondition := SessionError "amqp:session:window-violation".
Definition HandleInUseSessionError : ErrorCondition := SessionError "amqp:session:handle-in-use".
Definition UnattachedHandleSessionError : ErrorCondition := SessionError "amqp:session:unattached-handle".
Definition DetachForcedLinkError : ErrorCondition := LinkError "amqp:link:detach-forced".
Definition TransferLimitExceededLinkError : ErrorCondition := LinkError "amqp:link:transfer-limit-exceeded".

Definition error_of (condition : ErrorCondition) (description : string) : Error :=
  {| Error_Condition := Some condition; Error_Description := description; Error_Info := None |}.

(** ** State *)

Inductive link_state : Type :=
| linkStateReady
| linkStateDetaching.

#[export] Instance link_state_eq_dec : EqDecision link_state.
Proof. solve_decision. Defined.

Record TopicLink : Type := {
  tl_state : link_state;
  tl_handle : Z;
  tl_role : bool;
  tl_deliveryCount : Z;
  tl_linkCredit : Z;
  tl_initialLinkCredit : Z;
  tl_namespace : string;
  tl_name : string;
  tl_currentTransfer : option Transfer;
  tl_buf : list Z;
}.

(** The object of a link to a consumer group. *)
Record GroupLink : Type := {
  gl_state : link_state;
  gl_handle : Z;
  gl_role : bool;
  gl_deliveryCount : Z;
  gl_linkCredit : Z;
  gl_namespace : string;
  gl_name : string;
  gl_autoAck : bool;
  gl_subscriptionSize : Z;
}.

(** A link to a consumer group is known by a number that its creation is answered with. *)
Inductive link : Type :=
| LinkTopic (l : TopicLink)
| LinkGroup (n : nat).

Inductive session_state : Type :=
| sessionStateReady
| sessionStateEnding.

#[export] Instance session_state_eq_dec : EqDecision session_state.
Proof. solve_decision. Defined.

Record SessionInflight : Type := {
  sf_deliveryID : Z; sf_nodeID : Z; sf_subscriptionID : Z; sf_seqNo : Z }.

Record Session : Type := {
  ss_state : session_state;
  ss_remoteChannel : Z;
  ss_channel : Z;
  ss_nextIncomingID : Z;
  ss_incomingWindow : Z;
  ss_nextOutgoingID : Z;
  ss_outgoingWindow : Z;
  ss_remoteIncomingWindow : Z;
  ss_remoteOutgoingWindow : Z;
  ss_initialIncomingWindow : Z;
  ss_initialOutgoingWindow : Z;
  ss_initialOutgoingID : Z;
  ss_namespace : string;
  ss_links : gmap Z link;
  ss_deliveryID : Z;
  ss_inflight : list SessionInflight;
}.

Definition set_session_state (state : session_state) (s : Session) : Session :=
    {| ss_state := state; ss_remoteChannel := ss_remoteChannel s; ss_channel := ss_channel s; ss_nextIncomingID := ss_nextIncomingID s;
     ss_incomingWindow := ss_incomingWindow s; ss_nextOutgoingID := ss_nextOutgoingID s; ss_outgoingWindow := ss_outgoingWindow s;
     ss_remoteIncomingWindow := ss_remoteIncomingWindow s; ss_remoteOutgoingWindow := ss_remoteOutgoingWindow s; ss_initialIncomingWindow :=
     ss_initialIncomingWindow s; ss_initialOutgoingWindow := ss_initialOutgoingWindow s; ss_initialOutgoingID := ss_initialOutgoingID s;
     ss_namespace := ss_namespace s; ss_links := ss_links s; ss_deliveryID := ss_deliveryID s; ss_inflight := ss_inflight s |}.

(** The windows of the frames that are received. *)
Definition set_incoming (nextIncomingID incomingWindow remoteOutgoingWindow : Z) (s : Session) : Session :=
    {| ss_state := ss_state s; ss_remoteChannel := ss_remoteChannel s; ss_channel := ss_channel s; ss_nextIncomingID := nextIncomingID;
     ss_incomingWindow := incomingWindow; ss_nextOutgoingID := ss_nextOutgoingID s; ss_outgoingWindow := ss_outgoingWindow s;
     ss_remoteIncomingWindow := ss_remoteIncomingWindow s; ss_remoteOutgoingWindow := remoteOutgoingWindow; ss_initialIncomingWindow :=
     ss_initialIncomingWindow s; ss_initialOutgoingWindow := ss_initialOutgoingWindow s; ss_initialOutgoingID := ss_initialOutgoingID s;
     ss_namespace := ss_namespace s; ss_links := ss_links s; ss_deliveryID := ss_deliveryID s; ss_inflight := ss_inflight s |}.

(** What the senders of the session change. *)
Definition set_outgoing (nextOutgoingID outgoingWindow remoteIncomingWindow deliveryID : Z) (inflight : list SessionInflight) (s : Session) : Session :=
    {| ss_state := ss_state s; ss_remoteChannel := ss_remoteChannel s; ss_channel := ss_channel s; ss_nextIncomingID := ss_nextIncomingID s;
     ss_incomingWindow := ss_incomingWindow s; ss_nextOutgoingID := nextOutgoingID; ss_outgoingWindow := outgoingWindow;
     ss_remoteIncomingWindow := remoteIncomingWindow; ss_remoteOutgoingWindow := ss_remoteOutgoingWindow s; ss_initialIncomingWindow :=
     ss_initialIncomingWindow s; ss_initialOutgoingWindow := ss_initialOutgoingWindow s; ss_initialOutgoingID := ss_initialOutgoingID s;
     ss_namespace := ss_namespace s; ss_links := ss_links s; ss_deliveryID := deliveryID; ss_inflight := inflight |}.

Definition set_links (links : gmap Z link) (s : Session) : Session :=
    {| ss_state := ss_state s; ss_remoteChannel := ss_remoteChannel s; ss_channel := ss_channel s; ss_nextIncomingID := ss_nextIncomingID s;
     ss_incomingWindow := ss_incomingWindow s; ss_nextOutgoingID := ss_nextOutgoingID s; ss_outgoingWindow := ss_outgoingWindow s;
     ss_remoteIncomingWindow := ss_remoteIncomingWindow s; ss_remoteOutgoingWindow := ss_remoteOutgoingWindow s; ss_initialIncomingWindow :=
     ss_initialIncomingWindow s; ss_initialOutgoingWindow := ss_initialOutgoingWindow s; ss_initialOutgoingID := ss_initialOutgoingID s;
     ss_namespace := ss_namespace s; ss_links := links; ss_deliveryID := ss_deliveryID s; ss_inflight := ss_inflight s |}.

Definition set_link (handle : Z) (l : link) (s : Session) : Session := set_links (<[handle := l]> (ss_links s)) s.

Definition set_link_state (state : link_state) (l : TopicLink) : TopicLink :=
    {| tl_state := state; tl_handle := tl_handle l; tl_role := tl_role l; tl_deliveryCount := tl_deliveryCount l; tl_linkCredit :=
     tl_linkCredit l; tl_initialLinkCredit := tl_initialLinkCredit l; tl_namespace := tl_namespace l; tl_name := tl_name l;
     tl_currentTransfer := tl_currentTransfer l; tl_buf := tl_buf l |}.

Definition set_credit (deliveryCount linkCredit : Z) (l : TopicLink) : TopicLink :=
    {| tl_state := tl_state l; tl_handle := tl_handle l; tl_role := tl_role l; tl_deliveryCount := deliveryCount; tl_linkCredit :=
     linkCredit; tl_initialLinkCredit := tl_initialLinkCredit l; tl_namespace := tl_namespace l; tl_name := tl_name l; tl_currentTransfer :=
     tl_currentTransfer l; tl_buf := tl_buf l |}.

Definition set_transfer (currentTransfer : option Transfer) (buf : list Z) (l : TopicLink) : TopicLink :=
    {| tl_state := tl_state l; tl_handle := tl_handle l; tl_role := tl_role l; tl_deliveryCount := tl_deliveryCount l; tl_linkCredit :=
     tl_linkCredit l; tl_initialLinkCredit := tl_initialLinkCredit l; tl_namespace := tl_namespace l; tl_name := tl_name l;
     tl_currentTransfer := currentTransfer; tl_buf := buf |}.

Abbreviation Sessions := (gmap Z Session).

(** ** Calls *)

Inductive v1_call : Type :=
| DoExpectOpen
| DoSetFrameMax (frameMax : Z)
| DoSetReceiveTimeout (d : Z)
| DoSetSendTimeout (d : Z)
| DoCurrent
| DoSend (frame : option Frame)
| DoPublish (request : TopicPublishRequest)
| DoAck (request : MessageAckRequest)
| DoNack (request : MessageAckRequest)
| DoLeftover (* what a decoder that failed left in the buffer of a link *)
| DoNewLink (l : GroupLink)
| DoStartLink (n : nat) (* [go link.Receive()] *)
| DoLinkState (n : nat)
| DoLinkCredit (n : nat)
| DoLinkFlow (n : nat) (frame : Flow)
| DoLinkClose (n : nat).

(** [None] is a nil error. *)
Definition v1_answer (e : v1_call) : Type :=
  match e with
  | DoExpectOpen => result go_error Open
  | DoSetFrameMax _ => unit
  | DoCurrent => ClusterState
  | DoLeftover => list Z
  | DoNewLink _ => nat
  | DoStartLink _ | DoLinkFlow _ _ | DoLinkClose _ => unit
  | DoLinkState _ => link_state
  | DoLinkCredit _ => Z * Z
  | _ => option go_error
  end.

Definition session_method : Type → Type := method v1_answer Session go_error.

Definition v1_meta (channel : Z) : FrameMeta := {| Size := 0; DataOffset := 0; FrameMeta_Type := 0; Channel := channel; Payload := [] |}.

(** [s.Send(frame)] *)
Definition session_Send (frame : FrameMeta → Frame) : session_method (option go_error) :=
  s ← get; ask (DoSend (Some (frame (v1_meta (ss_channel s))))).

(** [return s.Send(frame)] *)
Definition return_Send (frame : FrameMeta → Frame) : session_method unit := err ← session_Send frame; fail_on err (λ e, e).

(** [if err != nil { return errors.Wrap(err, msg) }] *)
Definition wrap_err {S} (msg : string) (err : option go_error) : method v1_answer S go_error unit := fail_on err (λ e, ErrWrap e msg).

Definition end_frame (error : option Error) (meta : FrameMeta) : Frame := FrameEnd meta {| End_Error := error |}.

(** The session is ended with an error. *)
Definition end_session (condition : ErrorCondition) (description : string) : session_method unit :=
  modify (set_session_state sessionStateEnding);;
  return_Send (end_frame (Some (error_of condition description))).

Definition detach_frame (handle : Z) (error : option Error) (meta : FrameMeta) : Frame :=
  FrameDetach meta {| Detach_Handle := handle; Detach_Closed := true; Detach_Error := error |}.

(** A flow frame of the session, and of a link. *)
Definition flow_frame (s : Session) (handle deliveryCount linkCredit : Z) (meta : FrameMeta) : Frame :=
  FrameFlow meta {| Flow_NextIncomingID := ss_nextIncomingID s; Flow_IncomingWindow := ss_incomingWindow s;
    Flow_NextOutgoingID := ss_nextOutgoingID s; Flow_OutgoingWindow := ss_outgoingWindow s; Flow_Handle := handle;
    Flow_DeliveryCount := deliveryCount; Flow_LinkCredit := linkCredit; Flow_Available := 0; Flow_Drain := false; Flow_Echo := false;
    Flow_Properties := None |}.

(** ** Attaching links *)

(** [strings.SplitN(s, "/", 2)] with two parts. *)
Fixpoint split_slash (s : string) : option (string * string) :=
  match s with
  | EmptyString => None
  | String c s =>
    if Ascii.eqb c "/"%char then Some ("", s)
    else '(namespace, name) ← split_slash s; Some (String c namespace, name)
  end.

(** The namespace and the name of an address. *)
Definition parse_address (s : Session) (address : option Address) (properties : option Struct) : result go_error (string * string) :=
  match address with
  | None => Err (ErrNew "unhandled address type %T")
  | Some (AddressString (String "/"%char rest)) =>
    match split_slash rest with
    | None => Err (ErrNew "address %q has bad format")
    | Some parts => Ok parts
    end
  | Some (AddressString name) =>
    match String_ properties "namespace" (ss_namespace s) with
    | Ok namespace => Ok (namespace, name)
    | Err e => Err (ErrWrap e "get namespace failed")
    | Panic msg => Panic msg
    end
  end.

Definition set_channel (channel : Z) (meta : FrameMeta) : FrameMeta :=
  {| Size := meta.(Size); DataOffset := meta.(DataOffset); FrameMeta_Type := meta.(FrameMeta_Type); Channel := channel; Payload := meta.(Payload) |}.

Definition set_role (role : bool) (sndSettleMode : Z) (frame : Attach) : Attach :=
  {| Attach_Name := Attach_Name frame; Attach_Handle := Attach_Handle frame; Attach_Role := role; Attach_SndSettleMode := sndSettleMode;
     Attach_RcvSettleMode := Attach_RcvSettleMode frame; Attach_Source := Attach_Source frame; Attach_Target := Attach_Target frame;
     Attach_Unsettled := Attach_Unsettled frame; Attach_IncompleteUnsettled := Attach_IncompleteUnsettled frame;
     Attach_InitialDeliveryCount := Attach_InitialDeliveryCount frame; Attach_MaxMessageSize := Attach_MaxMessageSize frame;
     Attach_OfferedCapabilities := Attach_OfferedCapabilities frame; Attach_DesiredCapabilities := Attach_DesiredCapabilities frame;
     Attach_Properties := Attach_Properties frame |}.

(** The attach frame of a refused link is sent back, with the other role, and detached. *)
Definition detachImmediately (meta : FrameMeta) (frame : Attach) (condition : ErrorCondition) (description : go_error) : session_method unit :=
  let frame := set_role (negb (Attach_Role frame)) (Attach_SndSettleMode frame) frame in
  s ← get;
  sendErr ← ask (DoSend (Some (FrameAttach (set_channel (ss_channel s) meta) frame)));
  wrap_err "immediate detach because of (%v) failed" sendErr;;
  sendErr ← session_Send (detach_frame (Attach_Handle frame) (Some (error_of condition (Error_text description))));
  wrap_err "immediate detach because of (%v) failed" sendErr.

(** The attach frame that answers a frame. *)
Definition attach_reply (frame : Attach) (meta : FrameMeta) : Frame :=
  FrameAttach meta {| Attach_Name := Attach_Name frame; Attach_Handle := Attach_Handle frame; Attach_Role := negb (Attach_Role frame);
    Attach_SndSettleMode := Attach_SndSettleMode frame; Attach_RcvSettleMode := Attach_RcvSettleMode frame;
    Attach_Source := Attach_Source frame; Attach_Target := Attach_Target frame; Attach_Unsettled := None;
    Attach_IncompleteUnsettled := false; Attach_InitialDeliveryCount := 0; Attach_MaxMessageSize := 0;
    Attach_OfferedCapabilities := None; Attach_DesiredCapabilities := None; Attach_Properties := None |}.

Definition new_topic_link (frame : Attach) (namespace name : string) : TopicLink :=
  {| tl_state := linkStateReady; tl_handle := Attach_Handle frame; tl_role := negb (Attach_Role frame);
     tl_deliveryCount := Attach_InitialDeliveryCount frame; tl_linkCredit := MaxUint16; tl_initialLinkCredit := MaxUint16;
     tl_namespace := namespace; tl_name := name; tl_currentTransfer := None; tl_buf := [] |}.

Definition attachTopic (meta : FrameMeta) (frame : Attach) : session_method unit :=
  let refuse := detachImmediately meta frame in
  match Attach_Target frame with
  | None => refuse InvalidFieldAMQPError (ErrNew "link has no target")
  | Some target =>
    s ← get;
    match parse_address s (Target_Address target) (Attach_Properties frame) with
    | Panic msg => crash msg
    | Err e => refuse InvalidFieldAMQPError e
    | Ok (namespace, name) =>
      state ← ask DoCurrent;
      match FindNamespace state namespace with
      | None => refuse NotFoundAMQPError (ErrNew "namespace %q not found")
      | Some (_, ns) =>
        match FindTopic ns name with
        | None => refuse NotFoundAMQPError (ErrNew "topic %q not found")
        | Some _ =>
          let l := new_topic_link frame namespace name in
          modify (set_link (Attach_Handle frame) (LinkTopic l));;
          err ← session_Send (attach_reply frame);
          wrap_err "send attach failed" err;;
          s ← get;
          err ← session_Send (flow_frame s (Attach_Handle frame) 0 (tl_linkCredit l));
          wrap_err "send flow failed" err
        end
      end
    end
  end.

Definition new_group_link (frame : Attach) (namespace name : string) : GroupLink :=
  {| gl_state := linkStateReady; gl_handle := Attach_Handle frame; gl_role := negb (Attach_Role frame); gl_deliveryCount := 0;
     gl_linkCredit := 0; gl_namespace := namespace; gl_name := name;
     gl_autoAck := Attach_SndSettleMode frame =? SettledSenderSettleMode; gl_subscriptionSize := 1 |}.

Definition attachConsumerGroup (meta : FrameMeta) (frame : Attach) : session_method unit :=
  let frame := if Attach_SndSettleMode frame =? SenderSettleModeNull then set_role (Attach_Role frame) UnsettledSenderSettleMode frame else frame in
  let refuse := detachImmediately meta frame in
  match Attach_Source frame with
  | None => refuse InvalidFieldAMQPError (ErrNew "link has no source")
  | Some source =>
    s ← get;
    match parse_address s (Source_Address source) (Attach_Properties frame) with
    | Panic msg => crash msg
    | Err e => refuse InvalidFieldAMQPError e
    | Ok (namespace, name) =>
      state ← ask DoCurrent;
      match FindNamespace state namespace with
      | None => refuse NotFoundAMQPError (ErrNew "namespace %q not found")
      | Some (_, ns) =>
        match FindConsumerGroup ns name with
        | None => refuse NotFoundAMQPError (ErrNew "consumer group %q not found")
        | Some _ =>
          n ← ask (DoNewLink (new_group_link frame namespace name));
          modify (set_link (Attach_Handle frame) (LinkGroup n));;
          err ← session_Send (attach_reply frame);
          wrap_err "send attach failed" err;;
          ask (DoStartLink n);;
          mret ()
        end
      end
    end
  end.

Definition session_Attach (meta : FrameMeta) (frame : Attach) : session_method unit :=
  s ← get;
  if bool_decide (is_Some (ss_links s !! Attach_Handle frame)) then end_session HandleInUseSessionError "link handle %v already in use"
  else if Attach_Handle frame =? HandleNull then end_session InvalidFieldAMQPError "handle is null"
  else if Attach_RcvSettleMode frame =? SecondReceiverSettleMode then end_session NotImplementedAMQPError "rcv-settle-mode second not implemented"
  else if Bool.eqb (Attach_Role frame) SenderRole then attachTopic meta frame
  else attachConsumerGroup meta frame.

(** ** Detaching links *)

Definition link_State (l : link) : session_method link_state :=
  match l with
  | LinkTopic l => mret (tl_state l)
  | LinkGroup n => ask (DoLinkState n)
  end.

(** [link.Close()] returns nil. *)
Definition link_Close (l : link) : prog v1_answer unit :=
  match l with
  | LinkTopic _ => Ret ()
  | LinkGroup n => Vis (DoLinkClose n) (λ _, Ret ())
  end.

Definition session_Detach (frame : Detach) : session_method unit :=
  s ← get;
  match ss_links s !! Detach_Handle frame with
  | None => end_session UnattachedHandleSessionError "link handle %v not found"
  | Some l =>
    modify (set_links (delete (Detach_Handle frame) (ss_links s)));;
    linkState ← link_State l;
    calls (link_Close l);;
    match linkState with
    | linkStateDetaching => mret ()
    | linkStateReady =>
      err ← session_Send (detach_frame (Detach_Handle frame) None);
      wrap_err "send detach failed" err
    end
  end.

(** ** Flow *)

Definition session_Flow (frame : Flow) (s : Session) : Session :=
  let base := if Flow_NextIncomingID frame =? TransferNumberNull then ss_initialOutgoingID s else Flow_NextIncomingID frame in
  let s := set_incoming (Flow_NextOutgoingID frame) (ss_incomingWindow s) (Flow_OutgoingWindow frame) s in
  set_outgoing (ss_nextOutgoingID s) (ss_outgoingWindow s) (u32 (base + Flow_IncomingWindow frame - ss_nextOutgoingID s))
    (ss_deliveryID s) (ss_inflight s) s.

(** A link to a consumer group takes the credit. *)
Definition link_Flow (l : link) (frame : Flow) : session_method unit :=
  match l with
  | LinkTopic _ => throw (ErrNew "did not expect flow on topic link")
  | LinkGroup n => ask (DoLinkFlow n frame);; mret ()
  end.

Definition link_Credit (l : link) : session_method (Z * Z) :=
  match l with
  | LinkTopic l => mret (tl_deliveryCount l, tl_linkCredit l)
  | LinkGroup n => ask (DoLinkCredit n)
  end.

(** The answer to a flow frame that asks for one; the handle of a frame without a link is left zero. *)
Definition send_echo (frame : Flow) (l : option link) : session_method unit :=
  if Flow_Echo frame then
    s ← get;
    echo ← match l with
           | None => mret (flow_frame s 0 0 0)
           | Some l => '(deliveryCount, linkCredit) ← link_Credit l; mret (flow_frame s (Flow_Handle frame) deliveryCount linkCredit)
           end;
    err ← session_Send echo;
    wrap_err "send flow echo failed" err
  else mret ().

Definition handle_not_found : session_method unit := end_session UnattachedHandleSessionError "link handle %v not found".

(** [errors.Wrap] of the error of a method. *)
Definition wrap_method {S A} (msg : string) (m : method v1_answer S go_error A) : method v1_answer S go_error A := λ s,
  prog_bind_aux (λ '(s, r), Ret (s, match r with
                                    | Ok a => Ok a
                                    | Err e => Err (ErrWrap e msg)
                                    | Panic m => Panic m
                                    end)) (m s).

Definition process_flow (frame : Flow) : session_method unit :=
  modify (session_Flow frame);;
  if Flow_Handle frame =? HandleNull then send_echo frame None
  else
    s ← get;
    match ss_links s !! Flow_Handle frame with
    | None => handle_not_found
    | Some l => wrap_method "link flow failed" (link_Flow l frame);; send_echo frame (Some l)
    end.

(** ** Dispositions *)

Definition inflight_request (m : SessionInflight) : MessageAckRequest :=
  {| mar_NodeID := sf_nodeID m; mar_SubscriptionID := sf_subscriptionID m; mar_SeqNo := sf_seqNo m; mar_DoNotForward := false |}.

(** One delivery is acknowledged or released; other states are not implemented. *)
Definition settle_delivery (state : option DeliveryState) (m : SessionInflight) : session_method (option (ErrorCondition * go_error)) :=
  match state with
  | Some (DeliveryAccepted _) =>
    err ← ask (DoAck (inflight_request m)); mret ((λ e, (InternalErrorAMQPError, ErrWrap e "(n)ack failed")) <$> err)
  | Some (DeliveryReleased _) =>
    err ← ask (DoNack (inflight_request m)); mret ((λ e, (InternalErrorAMQPError, ErrWrap e "(n)ack failed")) <$> err)
  | _ => mret (Some (NotImplementedAMQPError, ErrNew "state %T not implemented"))
  end.

(** The loop; [range] is [firstIndex] and [lastIndex], [None] while they are -1. *)
Fixpoint disposition_loop (frame : Disposition) (l : list SessionInflight) (i : nat) (range : option (nat * nat)) :
    session_method (option (nat * nat) + (ErrorCondition * go_error)) :=
  match l with
  | [] => mret (inl range)
  | m :: l =>
    if sf_deliveryID m <? Disposition_First frame then disposition_loop frame l (S i) range
    else if negb (Disposition_Last frame =? 0) && (Disposition_Last frame <? sf_deliveryID m) then mret (inl range)
    else
      failure ← settle_delivery (Disposition_State frame) m;
      match failure with
      | Some failure => mret (inr failure)
      | None => disposition_loop frame l (S i) (Some (default i (fst <$> range), i))
      end
  end.

Definition session_Disposition (frame : Disposition) : session_method unit :=
  let fails condition err := end_session condition (Error_text err) in
  if negb (Bool.eqb (Disposition_Role frame) ReceiverRole) then fails InvalidFieldAMQPError (ErrNew "send role not expected")
  else if negb (Disposition_Settled frame) then fails NotImplementedAMQPError (ErrNew "unsettled disposition not implemented")
  else
    s ← get;
    r ← disposition_loop frame (ss_inflight s) 0 None;
    match r with
    | inr (condition, err) => fails condition err
    | inl None => crash "slice bounds out of range"
    | inl (Some (firstIndex, lastIndex)) =>
      modify (set_outgoing (ss_nextOutgoingID s) (ss_outgoingWindow s) (ss_remoteIncomingWindow s) (ss_deliveryID s)
        (take firstIndex (ss_inflight s) ++ drop lastIndex (ss_inflight s)))
    end.

(** ** Transfers to a topic *)

Section transfer.

Context `{TimeFormat}.

Definition MessageID_text (id : MessageID) : string :=
  match id with
  | MessageIDBinary v => bytes_string v
  | MessageIDString v => v
  | MessageIDUUID v => UUID_String v
  | MessageIDUlong v => pretty v
  end.

Definition Address_text (address : Address) : string := match address with AddressString v => v end.

Definition emq_no_properties : Message_Properties :=
  {| ContentType := ""; ContentEncoding := ""; DeliveryMode := 0; Priority := 0; CorrelationID := ""; ReplyTo := ""; Expiration := "";
     Emq.MessageID := ""; Timestamp := 0; MsgType := ""; UserID := ""; AppID := ""; To := ""; GroupID := ""; GroupSequence := 0;
     ReplyToGroupID := "" |}.

(** The properties of a message, and whether there are any: [count > 0]. *)
Definition message_properties (section : Properties) : option Message_Properties :=
  if bool_decide (is_Some (Properties_MessageID section)) || bool_decide (is_Some (Properties_UserID section)) ||
     bool_decide (is_Some (Properties_To section)) || bool_decide (is_Some (Properties_ReplyTo section)) ||
     bool_decide (is_Some (Properties_CorrelationID section)) || negb (Properties_ContentType section =? "")%string ||
     negb (Properties_ContentEncoding section =? "")%string || negb (Properties_AbsoluteExpiryTime section =? 0) ||
     negb (Properties_CreationTime section =? 0) || negb (Properties_GroupID section =? "")%string ||
     negb (Properties_GroupSequence section =? 0) || negb (Properties_ReplyToGroupID section =? "")%string
  then Some
    {| ContentType := Properties_ContentType section; ContentEncoding := Properties_ContentEncoding section; DeliveryMode := 0; Priority := 0;
       CorrelationID := from_option MessageID_text "" (Properties_CorrelationID section);
       ReplyTo := from_option Address_text "" (Properties_ReplyTo section);
       Expiration := if Properties_AbsoluteExpiryTime section =? 0 then "" else time_Format (Properties_AbsoluteExpiryTime section);
       Emq.MessageID := from_option MessageID_text "" (Properties_MessageID section);
       Timestamp := Properties_CreationTime section; MsgType := "";
       UserID := from_option bytes_string "" (Properties_UserID section); AppID := "";
       To := from_option Address_text "" (Properties_To section); GroupID := Properties_GroupID section;
       GroupSequence := u32 (Properties_GroupSequence section); ReplyToGroupID := Properties_ReplyToGroupID section |}
  else None.

(** A section changes the message; the properties of an earlier section stay if this one has none. *)
Definition apply_section (section : MessageSection) (m : EmqMessage) : EmqMessage :=
  match section with
  | SectionProperties section =>
    {| RoutingKey := Properties_Subject section;
       Emq.Properties := match message_properties section with Some p => Some p | None => Emq.Properties m end;
       Headers := Headers m; Data := Data m |}
  | SectionApplicationProperties section =>
    {| RoutingKey := RoutingKey m; Emq.Properties := Emq.Properties m; Headers := Some section; Data := Data m |}
  | SectionData data =>
    {| RoutingKey := RoutingKey m; Emq.Properties := Emq.Properties m; Headers := Headers m; Data := default [] data |}
  | _ => m
  end.

(** The loop over the sections; [fuel] bounds its turns. *)
Fixpoint parse_message (fuel : nat) (buf : list Z) (m : EmqMessage) : result go_error EmqMessage :=
  match buf with
  | [] => Ok m
  | _ =>
    match fuel with
    | O => Panic "out of fuel"
    | S fuel => '(section, buf) ← UnmarshalSection buf; parse_message fuel buf (apply_section section m)
    end
  end.

Definition empty_message : EmqMessage := {| RoutingKey := ""; Emq.Properties := None; Headers := None; Data := [] |}.

Definition link_method : Type → Type := method v1_answer TopicLink go_error.

(** [Detach:] *)
Definition detach_link (s : Session) (condition : ErrorCondition) (err : go_error) : link_method unit :=
  modify (set_link_state linkStateDetaching);;
  l ← get;
  err ← ask (DoSend (Some (detach_frame (tl_handle l) (Some (error_of condition (Error_text err))) (v1_meta (ss_channel s)))));
  fail_on err (λ e, e).

(** The credit of the link is granted again when half of it is used. *)
Definition replenish_credit (s : Session) (frame : Transfer) : link_method unit :=
  l ← get;
  if tl_linkCredit l <=? tl_initialLinkCredit l / 2 then
    modify (set_credit (tl_deliveryCount l) (tl_initialLinkCredit l));;
    err ← ask (DoSend (Some (flow_frame s (Transfer_Handle frame) (tl_deliveryCount l) (tl_initialLinkCredit l) (v1_meta (ss_channel s)))));
    wrap_err "send link flow failed" err
  else mret ().

(** What follows when the message is published. *)
Definition transfer_published (s : Session) (frame currentTransfer : Transfer) : link_method unit :=
  l ← get;
  (if Transfer_Settled currentTransfer then mret ()
   else
     err ← ask (DoSend (Some (FrameDisposition (v1_meta (ss_channel s)) {| Disposition_Role := tl_role l;
       Disposition_First := Transfer_DeliveryID currentTransfer; Disposition_Last := 0; Disposition_Settled := true;
       Disposition_State := Some (DeliveryAccepted MkAccepted); Disposition_Batchable := false |})));
     wrap_err "send disposition failed" err);;
  replenish_credit s frame;;
  modify (set_transfer None []).

(** The message is complete. *)
Definition transfer_complete (s : Session) (frame currentTransfer : Transfer) : link_method unit :=
  l ← get;
  match parse_message (length (tl_buf l)) (tl_buf l) empty_message with
  | Panic msg => crash msg
  | Err e =>
    left ← ask DoLeftover;
    modify (set_transfer (Some currentTransfer) left);;
    detach_link s DecodeErrorAMQPError (ErrWrap e "malformed message")
  | Ok message =>
    modify (set_transfer (Some currentTransfer) []);;
    err ← ask (DoPublish {| tpr_DoNotForward := false; tpr_Namespace := tl_namespace l; tpr_Name := tl_name l; tpr_Message := Some message |});
    match err with
    | Some e => detach_link s InternalErrorAMQPError (ErrWrap e "publish failed")
    | None => transfer_published s frame currentTransfer
    end
  end.

(** The payload of a frame is added to the message. *)
Definition transfer_payload (s : Session) (payload : list Z) (frame currentTransfer : Transfer) : link_method unit :=
  if Transfer_Aborted frame then modify (set_transfer None [])
  else
    modify (λ l, set_transfer (tl_currentTransfer l) (tl_buf l ++ payload) l);;
    if Transfer_More frame then mret () else transfer_complete s frame currentTransfer.

(** The first frame of a message takes a credit of the link. *)
Definition topic_Transfer (s : Session) (payload : list Z) (frame : Transfer) : link_method unit :=
  if negb (Transfer_MessageFormat frame =? 0) then detach_link s DetachForcedLinkError (ErrNew "message format 0x%02x not implemented")
  else
    l ← get;
    match tl_currentTransfer l with
    | Some currentTransfer =>
      if negb (Transfer_DeliveryID currentTransfer =? Transfer_DeliveryID frame) then detach_link s DetachForcedLinkError (ErrNew "mixed delivery ids")
      else transfer_payload s payload frame currentTransfer
    | None =>
      if tl_linkCredit l =? 0 then detach_link s TransferLimitExceededLinkError (ErrNew "link credit zero")
      else if ss_incomingWindow s =? 0 then detach_link s WindowViolationSessionError (ErrNew "incoming window zero")
      else
        modify (set_credit (u32 (tl_deliveryCount l + 1)) (u32 (tl_linkCredit l - 1)));;
        modify (set_transfer (Some frame) []);;
        transfer_payload s payload frame frame
    end.

(** [link.Transfer(ctx, frame)]; the link is changed in the table. *)
Definition link_Transfer (l : link) (payload : list Z) (frame : Transfer) : session_method unit :=
  match l with
  | LinkGroup _ => throw (ErrNew "did not expect transfer on consumer group link")
  | LinkTopic l => λ s,
    prog_bind_aux (λ '(l, r), Ret (set_link (Transfer_Handle frame) (LinkTopic l) s, r)) (topic_Transfer s payload frame l)
  end.

(** ** Processing frames *)

(** The windows after a transfer. *)
Definition count_transfer (s : Session) : Session :=
  set_incoming (u32 (ss_nextIncomingID s + 1)) (u32 (ss_incomingWindow s - 1)) (u32 (ss_remoteOutgoingWindow s - 1)) s.

Definition process_transfer (payload : list Z) (frame : Transfer) : session_method unit :=
  modify count_transfer;;
  s ← get;
  let doFlow := ss_incomingWindow s <=? ss_initialIncomingWindow s / 2 in
  match ss_links s !! Transfer_Handle frame with
  | None => handle_not_found
  | Some l =>
    wrap_method "transfer failed" (link_Transfer l payload frame);;
    if doFlow then
      modify (λ s, set_incoming (ss_nextIncomingID s) (ss_initialIncomingWindow s) (ss_remoteOutgoingWindow s) s);;
      s ← get;
      err ← session_Send (flow_frame s HandleNull 0 0);
      wrap_err "send session flow failed" err
    else mret ()
  end.

Definition Process (frame : Frame) : session_method unit :=
  s ← get;
  match ss_state s with
  | sessionStateEnding => mret ()
  | sessionStateReady =>
    match frame with
    | FrameAttach meta f => session_Attach meta f
    | FrameDetach _ f => session_Detach f
    | FrameFlow _ f => process_flow f
    | FrameDisposition _ f => session_Disposition f
    | FrameTransfer meta f => process_transfer (Payload meta) f
    | _ => throw (ErrNew "unexpected frame %T")
    end
  end.

(** ** Connections *)

(** An error is what [Run] returns. *)
Definition v1_conn_method : Type → Type := method v1_answer Sessions (option go_error).

Definition conn_Send (frame : option Frame) : v1_conn_method (option go_error) := ask (DoSend frame).

Definition close_frame (error : option Error) : Frame := FrameClose (v1_meta 0) {| Close_Error := error |}.

(** The error of [forceClose] is that of the sending; nil when the close frame was sent. *)
Definition forceClose (condition : ErrorCondition) (description : go_error) : v1_conn_method (option go_error) :=
  err ← conn_Send (Some (close_frame (Some (error_of condition (Error_text description)))));
  mret (wrap_opt "force close failed" err).

(** [err = f(); if err != nil { return err }] *)
Definition returns_on (err : option go_error) : v1_conn_method unit :=
  match err with
  | None => mret ()
  | Some _ => throw err
  end.

Definition new_session (channel : Z) (frame : Begin) (namespace : string) : Session :=
  {| ss_state := sessionStateReady; ss_remoteChannel := channel; ss_channel := channel; ss_nextIncomingID := Begin_NextOutgoingID frame;
     ss_incomingWindow := MaxUint16; ss_nextOutgoingID := 0; ss_outgoingWindow := MaxUint16;
     ss_remoteIncomingWindow := Begin_IncomingWindow frame; ss_remoteOutgoingWindow := Begin_OutgoingWindow frame;
     ss_initialIncomingWindow := MaxUint16; ss_initialOutgoingWindow := MaxUint16; ss_initialOutgoingID := 0;
     ss_namespace := namespace; ss_links := ∅; ss_deliveryID := 0; ss_inflight := [] |}.

Definition begin_frame (s : Session) : Frame :=
  FrameBegin (v1_meta (ss_channel s)) {| Begin_RemoteChannel := ss_remoteChannel s; Begin_NextOutgoingID := ss_nextOutgoingID s;
    Begin_IncomingWindow := ss_incomingWindow s; Begin_OutgoingWindow := ss_outgoingWindow s; Begin_HandleMax := HandleMax;
    Begin_OfferedCapabilities := None; Begin_DesiredCapabilities := None; Begin_Properties := None |}.

Definition conn_Begin (channel : Z) (frame : Begin) : v1_conn_method (option go_error) :=
  sessions ← get;
  match sessions !! channel with
  | Some _ => forceClose IllegalStateAMQPError (ErrNew "received begin on channel %d, but session already begun")
  | None =>
    match String_ (Begin_Properties frame) "namespace" DefaultNamespace with
    | Panic msg => crash msg
    | Err e => forceClose InvalidFieldAMQPError (ErrWrap e "get namespace failed")
    | Ok namespace =>
      let session := new_session channel frame namespace in
      modify (<[ss_remoteChannel session := session]>);;
      err ← conn_Send (Some (begin_frame session));
      mret (wrap_opt "send begin failed" err)
    end
  end.

Fixpoint close_links (l : list (Z * link)) : prog v1_answer unit :=
  match l with
  | [] => Ret ()
  | (_, l1) :: l => prog_bind_aux (λ _, close_links l) (link_Close l1)
  end.

(** [session.Close()] returns nil. *)
Definition session_Close (s : Session) : prog v1_answer unit := close_links (map_to_list (ss_links s)).

Definition conn_End (channel : Z) (frame : End) : v1_conn_method (option go_error) :=
  sessions ← get;
  match sessions !! channel with
  | None => forceClose IllegalStateAMQPError (ErrNew "received end on channel %d, but no session begun")
  | Some session =>
    modify (delete channel);;
    calls (session_Close session);;
    match ss_state session with
    | sessionStateEnding => mret None
    | sessionStateReady =>
      err ← conn_Send (Some (end_frame None (v1_meta (ss_channel session))));
      mret (wrap_opt "send end failed" err)
    end
  end.

Definition RespondClose (frame : Close) : v1_conn_method (option go_error) :=
  err ← conn_Send (Some (close_frame None));
  mret (wrap_opt "send close failed" err).

(** A frame of a session; an error of its handler ends the session. *)
Definition process_on (channel : Z) (session : Session) (frame : Frame) : v1_conn_method unit := λ sessions,
  prog_bind_aux (λ '(session, r),
    match r with
    | Ok _ => Ret (<[channel := session]> sessions, Ok ())
    | Panic msg => Ret (<[channel := session]> sessions, Panic msg)
    | Err e =>
      (err ← conn_Send (Some (end_frame (Some (error_of InternalErrorAMQPError (Error_text e))) (v1_meta (ss_channel session))));
       returns_on (wrap_opt "send end failed" err)) (<[channel := set_session_state sessionStateEnding session]> sessions)
    end) (Process frame session).

(** What the loop of [Run] selects; [EventSenders] is what the senders of a session change between two frames. *)
Inductive v1_event : Type :=
| V1Closed
| V1Heartbeat
| V1ReceiveError (err : go_error)
| V1Frame (frame : Frame)
| EventSenders (channel : Z) (nextOutgoingID outgoingWindow remoteIncomingWindow deliveryID : Z) (inflight : list SessionInflight).

Definition run_frame (frame : Frame) : v1_conn_method unit :=
  let channel := Channel (GetFrameMeta frame) in
  match frame with
  | FrameClose _ f => err ← RespondClose f; throw err
  | FrameBegin _ f => err ← conn_Begin channel f; returns_on err
  | FrameEnd _ f => err ← conn_End channel f; returns_on err
  | _ =>
    sessions ← get;
    match sessions !! channel with
    | None => err ← forceClose IllegalStateAMQPError (ErrNew "received frame %T on channel %d, but no session begun"); throw err
    | Some session => process_on channel session frame
    end
  end.

Definition run_event (event : v1_event) : v1_conn_method unit :=
  match event with
  | V1Closed => err ← forceClose ConnectionForcedConnectionError (ErrNew "shutdown"); throw err
  | V1Heartbeat => err ← conn_Send None; returns_on (wrap_opt "send heartbeat failed" err)
  | V1ReceiveError e => err ← forceClose FramingErrorConnectionError (ErrWrap e "receive failed"); throw err
  | V1Frame frame => run_frame frame
  | EventSenders channel nextOutgoingID outgoingWindow remoteIncomingWindow deliveryID inflight =>
    modify (alter (set_outgoing nextOutgoingID outgoingWindow remoteIncomingWindow deliveryID inflight) channel)
  end.

Fixpoint run_events (events : list v1_event) : v1_conn_method unit :=
  match events with
  | [] => mret ()
  | event :: events => run_event event;; run_events events
  end.

(** [connection.Close()], which is deferred. *)
Fixpoint close_sessions (l : list (Z * Session)) : prog v1_answer unit :=
  match l with
  | [] => Ret ()
  | (_, session) :: l => prog_bind_aux (λ _, close_sessions l) (session_Close session)
  end.

Definition Run (events : list v1_event) : prog v1_answer (result (option go_error) unit) :=
  prog_bind_aux (λ '(sessions, r),
    match r with
    | Ok _ => Ret (Ok ())
    | r => prog_bind_aux (λ _, Ret r) (close_sessions (map_to_list sessions))
    end) (run_events events ∅).

(** ** Opening *)

Definition about_properties : Struct :=
  MkStruct (Some [("product", StringValue "EventterMQ"); ("version", StringValue "dev")]).

Definition server_open (maxFrameSize idleTimeOut : Z) : Frame :=
  FrameOpen (v1_meta 0) {| Open_ContainerID := "EventterMQ"; Open_Hostname := ""; Open_MaxFrameSize := maxFrameSize; Open_ChannelMax := ChannelMax;
    Open_IdleTimeOut := idleTimeOut; Open_OutgoingLocales := None; Open_IncomingLocales := None; Open_OfferedCapabilities := None;
    Open_DesiredCapabilities := None; Open_Properties := Some about_properties |}.

(** [Ok] while the connection is served, [Err] when the function has returned. *)
Definition ServeAMQPv1 (events : list v1_event) : prog v1_answer (result (option go_error) unit) :=
  open ← perform DoExpectOpen;
  match open with
  | Err e => mret (Err (Some (ErrWrap e "expect open failed")))
  | Panic msg => mret (Panic msg)
  | Ok clientOpen =>
    let maxFrameSize := if Open_MaxFrameSize clientOpen =? 0 then MaxUint32 else Open_MaxFrameSize clientOpen in
    let timeout := Open_IdleTimeOut clientOpen in
    perform (DoSetFrameMax maxFrameSize);;
    let refuse description :=
      err ← perform (DoSend (Some (server_open maxFrameSize 60000)));
      match err with
      | Some e => mret (Err (Some (ErrWrap e "send open failed")))
      | None =>
        err ← perform (DoSend (Some (close_frame (Some (error_of ResourceLimitExceededAMQPError description)))));
        mret (Err (wrap_opt "close failed" err))
      end in
    if timeout <? 1000 then refuse "client timeout too short"%string
    else if 3600 * 1000 <? timeout then refuse "client timeout too long"%string
    else
      err ← perform (DoSend (Some (server_open maxFrameSize timeout)));
      match err with
      | Some e => mret (Err (Some (ErrWrap e "send open failed")))
      | None =>
        let heartbeat := timeout * 1000000 / 2 in
        err ← perform (DoSetReceiveTimeout (heartbeat * 2));
        match err with
        | Some e => mret (Err (Some (ErrWrap e "set receive timeout failed")))
        | None =>
          err ← perform (DoSetSendTimeout (heartbeat / 2));
          match err with
          | Some e => mret (Err (Some (ErrWrap e "set send timeout failed")))
          | None => Run events
          end
        end
      end
  end.

End transfer.
