(* ===== verification/AmqpV1ServerProps.v ===== *)
(** * AMQP 1.0: theorems about connections

    The windows of sessions and the credit of links, the release of links, and the assembly of published messages, for
    every order of events and every answer of the rest of the server. *)
From S2P Require Import Prelude Emq Bytes ClusterState Requests StructValue Interaction Broker AmqpValues AmqpV1 AmqpV1Fields AmqpV1Types AmqpV1Transport AmqpV1Server.

Abbreviation v1_log := (list (call v1_answer)).

(** ** Windows and credit *)

(** A link to a topic: its credit is within what was granted, and nothing of an earlier message is left when none is
    being received. *)
Record topic_inv (h : Z) (l : TopicLink) : Prop := {
  ti_handle : tl_handle l = h;
  ti_initial : tl_initialLinkCredit l = MaxUint16;
  ti_credit : 0 ≤ tl_linkCredit l ≤ MaxUint16;
  ti_buf : tl_currentTransfer l = None → tl_buf l = [];
}.

(** A session that is ready has a window of at least [lo]. *)
Record session_inv (lo : Z) (s : Session) : Prop := {
  si_initial : ss_initialIncomingWindow s = MaxUint16;
  si_window : ss_state s = sessionStateReady → lo ≤ ss_incomingWindow s ≤ MaxUint16;
  si_links : ∀ h l, ss_links s !! h = Some (LinkTopic l) → topic_inv h l;
}.

Lemma set_credit_inv h count credit l : topic_inv h l → 0 ≤ credit ≤ MaxUint16 → topic_inv h (set_credit count credit l).
Proof. intros [] Hc. by split. Qed.

Lemma set_transfer_inv h t buf l : topic_inv h l → (t = None → buf = []) → topic_inv h (set_transfer t buf l).
Proof. intros [] Hb. by split. Qed.

Lemma set_link_state_inv h state l : topic_inv h l → topic_inv h (set_link_state state l).
Proof. intros []. by split. Qed.

Lemma detach_link_keeps (I : v1_log → TopicLink → Prop) s condition err :
  (∀ log l, I log l → I log (set_link_state linkStateDetaching l)) →
  (∀ log f err l, I log l → I (log ++ [existT (DoSend f) err]) l) → keeps I (detach_link s condition err).
Proof.
  intros Hd Hs. unfold detach_link. apply keeps_bind; [by apply keeps_modify|]. intros _. apply keeps_get. intros log l Hl.
  refine (keeps_bind I _ _ _ _ log l Hl); repeat keeps_step. keeps_call. intros log' x l' Hl'. exact (Hs log' _ x l' Hl').
Qed.

Section links.

Context `{TimeFormat} (h : Z) (s : Session).

Abbreviation I := (λ (_ : v1_log) l, topic_inv h l).

#[local] Ltac keeps_topic := repeat first [keeps_step | keeps_call; done | apply detach_link_keeps; [intros _ ?; apply set_link_state_inv|done]].

Lemma replenish_credit_inv frame : keeps I (replenish_credit s frame).
Proof.
  unfold replenish_credit, wrap_err. apply keeps_get. intros log l Hl. destruct (_ <=? _); [|exact (keeps_ret I () log l Hl)].
  refine (keeps_bind I _ _ _ _ log l Hl); keeps_topic. apply keeps_modify. intros _ l' Hl'. apply set_credit_inv; [done|].
  pose proof (ti_initial h l Hl). unfold MaxUint16 in *. lia.
Qed.

Lemma transfer_published_inv frame current : keeps I (transfer_published s frame current).
Proof.
  unfold transfer_published, wrap_err. apply keeps_get. intros log l Hl. refine (keeps_bind I _ _ _ _ log l Hl); keeps_topic.
  - apply replenish_credit_inv.
  - apply keeps_modify. intros _ l' Hl'. by apply set_transfer_inv.
Qed.

Lemma transfer_complete_inv frame current : keeps I (transfer_complete s frame current).
Proof.
  unfold transfer_complete. apply keeps_get. intros log l Hl. destruct (parse_message _ _ _) as [m|e|msg]; [| |done].
  - refine (keeps_bind I _ _ _ _ log l Hl); keeps_topic; [|apply transfer_published_inv].
    apply keeps_modify. intros _ l' Hl'. by apply set_transfer_inv.
  - refine (keeps_bind I _ _ _ _ log l Hl); keeps_topic. apply keeps_modify. intros _ l' Hl'. by apply set_transfer_inv.
Qed.

Lemma transfer_payload_inv payload frame current log l :
  topic_inv h l → is_Some (tl_currentTransfer l) →
  always (transfer_payload s payload frame current l) (λ log' x, I (log ++ log') x.1).
Proof.
  intros Hl [t Ht]. unfold transfer_payload. destruct (Transfer_Aborted frame); [by apply set_transfer_inv|].
  apply always_method_bind. cbn [always modify app]. rewrite Ht.
  assert (topic_inv h (set_transfer (Some t) (tl_buf l ++ payload) l)) as Hl' by by apply set_transfer_inv.
  destruct (Transfer_More frame); [done|]. by apply (transfer_complete_inv _ _ log).
Qed.

Lemma topic_Transfer_inv payload frame : keeps I (topic_Transfer s payload frame).
Proof.
  unfold topic_Transfer. keeps_topic.
  match goal with Hi : topic_inv h ?l' |- _ => rename l' into l, Hi into Hl end.
  destruct (tl_currentTransfer l) as [t|] eqn:Ht.
  - destruct (negb _); [|by apply (transfer_payload_inv _ _ _ log)].
    match goal with |- always (?m l) _ => enough (keeps I m) as Hk by by apply (Hk log l Hl) end. keeps_topic.
  - destruct (Z.eqb_spec (tl_linkCredit l) 0) as [E|Hne].
    { match goal with |- always (?m l) _ => enough (keeps I m) as Hk by by apply (Hk log l Hl) end. keeps_topic. }
    destruct (_ =? 0).
    { match goal with |- always (?m l) _ => enough (keeps I m) as Hk by by apply (Hk log l Hl) end. keeps_topic. }
    apply always_method_bind. cbn [always modify app]. apply always_method_bind. cbn [always modify app].
    apply (transfer_payload_inv _ _ _ log); [|done]. apply set_transfer_inv; [|done]. apply set_credit_inv; [done|].
    pose proof (ti_credit h l Hl). unfold u32, wrap, MaxUint16 in *. rewrite Z.mod_small; lia.
Qed.

End links.

(** ** Sessions *)

Lemma wrap_method_keeps {S A} (I : v1_log → S → Prop) msg (m : method v1_answer S go_error A) : keeps I m → keeps I (wrap_method msg m).
Proof.
  intros Hm log s Hs. unfold wrap_method. apply (always_bind _ (m s)). eapply always_mono; [|by apply Hm].
  intros log' [s' r]. cbn. by rewrite app_nil_r.
Qed.

Lemma set_session_state_inv lo s : session_inv lo s → session_inv lo (set_session_state sessionStateEnding s).
Proof. intros []. by split. Qed.

Lemma set_outgoing_inv lo a b c d e s : session_inv lo s → session_inv lo (set_outgoing a b c d e s).
Proof. intros []. by split. Qed.

Lemma set_incoming_inv lo lo' a w b s :
  session_inv lo s → (ss_state s = sessionStateReady → lo' ≤ w ≤ MaxUint16) → session_inv lo' (set_incoming a w b s).
Proof. intros [] Hw. by split. Qed.

Lemma set_link_inv lo h l s : session_inv lo s → (∀ t, l = LinkTopic t → topic_inv h t) → session_inv lo (set_link h l s).
Proof.
  intros [Hi Hw Hl] Ht. split; [done|done|]. cbn [set_link set_links ss_links]. intros h' l' [[<- ->]|[_ Hl']]%lookup_insert_Some; [by apply Ht|by apply Hl].
Qed.

Lemma set_links_inv lo links s : session_inv lo s → links ⊆ ss_links s → session_inv lo (set_links links s).
Proof. intros [Hi Hw Hl] Hs. split; [done|done|]. intros h l Hh. apply Hl. by eapply lookup_weaken. Qed.

Lemma session_inv_mono lo lo' s : lo' ≤ lo → session_inv lo s → session_inv lo' s.
Proof. intros Hlo [Hi Hw Hl]. split; [done| |done]. intros Hst. specialize (Hw Hst). lia. Qed.

(** The rest of the proof is about any invariant that these changes keep. *)
Section sessions.

Context `{TimeFormat} (lo : Z).

Abbreviation I := (λ (_ : v1_log) s, session_inv lo s).

Lemma session_Send_inv f : keeps I (session_Send f).
Proof. apply keeps_get. intros log s Hs. by refine (keeps_ask I _ _ log s Hs). Qed.

Lemma return_Send_inv f : keeps I (return_Send f).
Proof. unfold return_Send. repeat keeps_step. apply session_Send_inv. Qed.

Lemma end_session_inv condition description : keeps I (end_session condition description).
Proof.
  unfold end_session. apply keeps_bind; [|intros _; apply return_Send_inv]. apply keeps_modify. intros _ s. apply set_session_state_inv.
Qed.

#[local] Ltac keeps_session := unfold wrap_err, handle_not_found in *; repeat first [keeps_step | keeps_call; done | apply session_Send_inv | apply return_Send_inv | apply end_session_inv
  | match goal with Hl : session_inv lo ?s |- always ((_ ≫= _) ?s) _ => refine (keeps_bind I _ _ _ _ [] s Hl) end
  | match goal with Hl : session_inv lo ?s |- always ((match ?x with _ => _ end) ?s) _ => destruct x eqn:? end
  | match goal with Hl : session_inv lo ?s |- always ((if ?x then _ else _) ?s) _ => destruct x eqn:? end
  | match goal with Hl : session_inv lo ?s |- always (mret _ ?s) _ => exact (keeps_ret I _ [] s Hl) end
  | match goal with Hl : session_inv lo ?s |- always (crash _ ?s) _ => exact (keeps_crash I _ [] s Hl) end
  | match goal with Hl : session_inv lo ?s |- always (end_session _ _ ?s) _ => exact (end_session_inv _ _ [] s Hl) end ].

Lemma detachImmediately_inv meta frame condition description : keeps I (detachImmediately meta frame condition description).
Proof. unfold detachImmediately. keeps_session. Qed.

Lemma attachTopic_inv meta frame : keeps I (attachTopic meta frame).
Proof.
  unfold attachTopic. keeps_session; try match goal with |- keeps _ _ => apply detachImmediately_inv end.
  - apply keeps_modify. intros _ s' Hs'. apply set_link_inv; [done|]. intros l' [= <-]. split; cbn; [done|done|unfold MaxUint16; lia|done].
  - match goal with Hi : session_inv lo ?s |- _ => by apply (detachImmediately_inv _ _ _ _ [] s) end.
Qed.

Lemma attachConsumerGroup_inv meta frame : keeps I (attachConsumerGroup meta frame).
Proof.
  unfold attachConsumerGroup. keeps_session; try match goal with |- keeps _ _ => apply detachImmediately_inv end.
  - apply keeps_modify. intros _ s' Hs'. by apply set_link_inv.
  - match goal with Hi : session_inv lo ?s |- _ => by apply (detachImmediately_inv _ _ _ _ [] s) end.
Qed.

Lemma session_Attach_inv meta frame : keeps I (session_Attach meta frame).
Proof.
  apply keeps_get. intros log s Hs. repeat match goal with |- always ((if ?b then _ else _) s) _ => destruct b end.
  1-3: by apply (end_session_inv _ _ log). by apply (attachTopic_inv _ _ log). by apply (attachConsumerGroup_inv _ _ log).
Qed.

Lemma link_Close_inv l : keeps (Er := go_error) I (calls (link_Close l)).
Proof. intros log s Hs. destruct l; [done|by intros []]. Qed.

Lemma session_Detach_inv frame : keeps I (session_Detach frame).
Proof.
  apply keeps_get. intros log s Hs. destruct (ss_links s !! _) as [l|]; [|by apply (end_session_inv _ _ log)].
  apply always_method_bind. cbn [always modify app].
  assert (session_inv lo (set_links (delete (Detach_Handle frame) (ss_links s)) s)) as Hs' by (apply set_links_inv; [done|apply delete_subseteq]).
  match goal with |- always (?m ?s') _ => enough (keeps I m) as Hk by by apply (Hk log s' Hs') end.
  unfold link_State. keeps_session. apply link_Close_inv.
Qed.

Lemma session_Flow_inv frame s : session_inv lo s → session_inv lo (session_Flow frame s).
Proof. intros Hs. unfold session_Flow. apply set_outgoing_inv. eapply set_incoming_inv; [done|]. apply Hs. Qed.

Lemma send_echo_inv frame l : keeps I (send_echo frame l).
Proof. unfold send_echo, link_Credit. keeps_session. Qed.

Lemma process_flow_inv frame : keeps I (process_flow frame).
Proof.
  unfold process_flow. apply keeps_bind; [apply keeps_modify; intros _ s; apply session_Flow_inv|]. intros _.
  destruct (_ =? _); [apply send_echo_inv|]. apply keeps_get. intros log s Hs.
  destruct (ss_links s !! _) as [l|]; [|by apply (end_session_inv _ _ log)].
  refine (keeps_bind I _ _ _ _ log s Hs); [|intros; apply send_echo_inv]. apply wrap_method_keeps. unfold link_Flow. keeps_session.
Qed.

Lemma disposition_loop_inv frame l : ∀ i range, keeps I (disposition_loop frame l i range).
Proof. induction l as [|m l IH]; intros i range; cbn [disposition_loop]; unfold settle_delivery; keeps_session; apply IH. Qed.

Lemma session_Disposition_inv frame : keeps I (session_Disposition frame).
Proof.
  unfold session_Disposition. keeps_session; [apply disposition_loop_inv|].
  apply keeps_modify. intros _ s'. apply set_outgoing_inv.
Qed.

Lemma link_Transfer_inv s payload frame l :
  session_inv lo s → ss_links s !! Transfer_Handle frame = Some l →
  always (link_Transfer l payload frame s) (λ _ x, session_inv lo x.1 ∧ ss_state x.1 = ss_state s ∧ ss_incomingWindow x.1 = ss_incomingWindow s).
Proof.
  intros Hs Hl. destruct l as [l|n]; [|done]. cbn [link_Transfer]. apply (always_bind _ (topic_Transfer s payload frame l)).
  eapply always_mono; [|apply (topic_Transfer_inv (Transfer_Handle frame) s payload frame []); by apply (si_links lo s Hs)].
  intros log' [l' r] Hl'. cbn. split; [|done]. apply set_link_inv; [done|]. by intros t [= <-].
Qed.

End sessions.

Lemma end_session_ends condition description s :
  always (end_session condition description s) (λ _ x, x.1 = set_session_state sessionStateEnding s).
Proof. unfold end_session. apply always_method_bind. cbn. by intros [e|]. Qed.

(** What a session is after a frame; a session with an error is going to end. *)
Definition processed (x : Session * result go_error unit) : Prop :=
  match x.2 with
  | Ok _ => session_inv 32768 x.1
  | Err _ => session_inv 32768 (set_session_state sessionStateEnding x.1)
  | Panic _ => True
  end.

Lemma session_inv_ending lo lo' s : session_inv lo s → session_inv lo' (set_session_state sessionStateEnding s).
Proof. intros []. by split. Qed.

Lemma process_transfer_inv `{TimeFormat} payload frame s :
  session_inv 32768 s → ss_state s = sessionStateReady → always (process_transfer payload frame s) (λ _ x, processed x).
Proof.
  intros Hs Hst. unfold process_transfer. apply always_method_bind. cbn [always modify app]. apply always_method_bind. cbn [always get app].
  pose proof (si_window _ s Hs Hst) as Hw. pose proof (si_initial _ s Hs) as Hi. unfold MaxUint16 in Hw, Hi.
  assert (u32 (ss_incomingWindow s - 1) = ss_incomingWindow s - 1) as Hu by (unfold u32, wrap; apply Z.mod_small; lia).
  assert (session_inv 32767 (count_transfer s)) as Hs1.
  { eapply set_incoming_inv; [done|]. intros _. rewrite Hu. unfold MaxUint16. lia. }
  destruct (ss_links (count_transfer s) !! Transfer_Handle frame) as [l|] eqn:Hl.
  2: { eapply always_mono; [|apply end_session_ends]. intros log [s' r] Es. cbn in Es. subst s'. unfold processed. cbn [fst snd].
       destruct r; [by eapply (session_inv_ending 32767)|by eapply (session_inv_ending 0), (session_inv_ending 32767)|done]. }
  apply always_method_bind. unfold wrap_method. apply (always_bind _ (link_Transfer l payload frame (count_transfer s))).
  eapply always_mono; [|by apply (link_Transfer_inv 32767)]. intros log [s2 r] (Hs2 & Hst2 & Hw2). cbn [fst snd always] in *.
  destruct r as [[]|e|msg]; [|unfold processed; by eapply session_inv_ending|done].
  destruct (Z.leb_spec (ss_incomingWindow (count_transfer s)) (ss_initialIncomingWindow (count_transfer s) / 2)) as [Hle|Hgt].
  - apply always_method_bind. cbn [always modify app]. set (s3 := set_incoming _ _ _ s2).
    assert (session_inv 32768 s3) as Hs3.
    { eapply set_incoming_inv; [done|]. intros _. pose proof (si_initial _ _ Hs2). unfold MaxUint16 in *. lia. }
    unfold session_Send, wrap_err. cbn. intros [e|]; cbn; [by eapply session_inv_ending|done].
  - unfold processed. cbn. destruct Hs2 as [Hi2 _ Hl2]. split; [done| |done]. intros _. rewrite Hw2.
    change (ss_initialIncomingWindow (count_transfer s)) with (ss_initialIncomingWindow s) in Hgt. rewrite Hi in Hgt.
    change (65535 / 2) with 32767 in Hgt. change (ss_incomingWindow (count_transfer s)) with (u32 (ss_incomingWindow s - 1)) in *. unfold MaxUint16. lia.
Qed.

Lemma Process_inv `{TimeFormat} frame s : session_inv 32768 s → always (Process frame s) (λ _ x, processed x).
Proof.
  intros Hs. unfold Process. apply always_method_bind. cbn [always get app].
  assert (∀ m : session_method unit, keeps (λ _ s, session_inv 32768 s) m → always (m s) (λ _ x, processed x)) as Hk.
  { intros m Hm. eapply always_mono; [|by apply (Hm [] s)]. intros log [s' r] Hs'. cbn in Hs'. unfold processed. cbn.
    destruct r; [done|by eapply session_inv_ending|done]. }
  destruct (ss_state s) eqn:Hst; [|done]. destruct frame; try (apply (Hk (throw _)), keeps_throw).
  - apply Hk, session_Attach_inv.
  - apply Hk, process_flow_inv.
  - by apply process_transfer_inv.
  - apply Hk, session_Disposition_inv.
  - apply Hk, session_Detach_inv.
Qed.

(** ** The sessions of a connection *)

Definition sessions_inv (sessions : Sessions) : Prop := ∀ channel s, sessions !! channel = Some s → session_inv 32768 s.

(** Between two frames; a panic ends the process. *)
Definition served (x : Sessions * result (option go_error) unit) : Prop :=
  match x.2 with
  | Panic _ => True
  | _ => sessions_inv x.1
  end.

Lemma sessions_inv_insert channel s sessions : session_inv 32768 s → sessions_inv sessions → sessions_inv (<[channel := s]> sessions).
Proof. intros Hs Hi c s' [[_ <-]|[_ Hc]]%lookup_insert_Some; [done|by eapply Hi]. Qed.

Lemma process_on_inv `{TimeFormat} channel s frame sessions :
  sessions_inv sessions → sessions !! channel = Some s → always (process_on channel s frame sessions) (λ _ x, served x).
Proof.
  intros Hi Hc. unfold process_on. apply (always_bind _ (Process frame s)). eapply always_mono; [|by apply Process_inv, (Hi channel)].
  intros log [s' r] Hs'. unfold processed in Hs'. cbn [fst snd] in Hs'. destruct r as [[]|e|msg]; [by apply sessions_inv_insert| |done].
  intros [e'|]; by apply sessions_inv_insert.
Qed.

Lemma new_session_inv channel frame namespace : session_inv 32768 (new_session channel frame namespace).
Proof. split; [done|intros _; cbn; unfold MaxUint16; lia|]. cbn [new_session ss_links]. intros h l. by rewrite lookup_empty. Qed.

Lemma session_Close_always s Q : (∀ log, always (Ret (ans := v1_answer) ()) (λ log', Q (log ++ log'))) → always (session_Close s) Q.
Proof.
  unfold session_Close. revert Q. induction (map_to_list (ss_links s)) as [|[h l] ls IH]; intros Q HQ; [apply (HQ [])|].
  cbn [close_links]. apply (always_bind _ (link_Close l)). destruct l as [l|n]; cbn.
  - apply IH. intros log. apply (HQ log).
  - intros []. apply IH. intros log. apply (HQ (_ :: log)).
Qed.

Lemma run_event_inv `{TimeFormat} event sessions : sessions_inv sessions → always (run_event event sessions) (λ _ x, served x).
Proof.
  intros Hi. destruct event as [| |e|frame|channel a b c d inflight]; cbn [run_event].
  - by intros [e|].
  - by intros [e|].
  - by intros [e'|].
  - unfold run_frame. destruct frame;
      try (apply always_method_bind; cbn [always get app]; destruct (sessions !! _) as [s|] eqn:E; [by apply process_on_inv|by intros [e|]]).
    + apply always_method_bind. unfold conn_Begin. apply always_method_bind. cbn [always get app].
      destruct (sessions !! _) as [s|] eqn:E; [by intros [e|]|]. destruct (String_ _ _ _) as [namespace|e|msg]; [|by intros [e'|]|done].
      apply always_method_bind. cbn [always modify app]. intros [e|]; (apply sessions_inv_insert; [apply new_session_inv|done]).
    + apply always_method_bind. unfold conn_End. apply always_method_bind. cbn [always get app].
      destruct (sessions !! _) as [s|] eqn:E; [|by intros [e|]]. apply always_method_bind. cbn [always modify app].
      assert (sessions_inv (delete (Channel (GetFrameMeta (AmqpV1Transport.FrameEnd meta t))) sessions)) as Hd.
      { intros c s' [_ Hc]%lookup_delete_Some. by eapply Hi. }
      apply always_method_bind. unfold calls. apply (always_bind _ (session_Close s)). apply session_Close_always. intros log. cbn.
      destruct (ss_state s); [by intros [e|]|done].
    + by intros [e|].
  - cbn. intros c' s' Hs'. rewrite lookup_alter_Some in Hs'. destruct Hs' as [(-> & s & Hs & ->)|(_ & Hs)]; [|by eapply Hi].
    apply set_outgoing_inv. by eapply Hi.
Qed.

Lemma run_events_inv `{TimeFormat} events : ∀ sessions, sessions_inv sessions → always (run_events events sessions) (λ _ x, served x).
Proof.
  induction events as [|event events IH]; intros sessions Hi; [done|]. cbn [run_events]. apply always_method_bind.
  eapply always_mono; [|by apply run_event_inv]. intros log [sessions' [[]|e|msg]] Hs; [|done..].
  eapply always_mono; [|by apply IH]. by intros log' x.
Qed.

(** ** Links are released *)

(** The link whose subscription a call starts, or ends. *)
Definition v1_started_of (c : call v1_answer) : option nat :=
  match projT1 c with
  | DoStartLink n => Some n
  | _ => None
  end.

Definition v1_closed_of (c : call v1_answer) : option nat :=
  match projT1 c with
  | DoLinkClose n => Some n
  | _ => None
  end.

Abbreviation v1_started := (started v1_started_of).
Abbreviation v1_closed := (closed v1_closed_of).
Abbreviation v1_no_leak := (no_leak v1_started_of v1_closed_of).

Definition session_holds (s : Session) (n : nat) : Prop := ∃ h, ss_links s !! h = Some (LinkGroup n).

Section release.

Context `{TimeFormat} (first : nat → Prop).

Abbreviation I := (v1_no_leak session_holds first).

Lemma keeps_v1_call e : (∀ x, v1_started_of (existT e x) = None) → keeps (Er := go_error) I (ask e).
Proof. intros He. apply keeps_ask. intros log x s. apply no_leak_calls. cbn. by rewrite He. Qed.

Lemma keeps_v1_modify f : (∀ s, ss_links (f s) = ss_links s) → keeps (Er := go_error) I (modify f).
Proof. intros Hf. apply keeps_modify. intros log s. apply no_leak_weaken. intros n [h Hh]. exists h. by rewrite Hf. Qed.

#[local] Ltac v1_no_leak_auto :=
  unfold handle_not_found, end_session, return_Send, session_Send, wrap_err, settle_delivery, link_State, link_Credit in *;
  repeat first [keeps_step | match goal with |- keeps _ (ask ?e) => refine (keeps_v1_call e _); done end
    | apply keeps_v1_modify; done
    | match goal with Hl : I ?log ?s |- always ((_ ≫= _) ?s) _ => refine (keeps_bind I _ _ _ _ log s Hl) end
    | match goal with Hl : I ?log ?s |- always (ask ?e ?s) _ => refine (keeps_v1_call e _ log s Hl); done end
    | match goal with Hl : I ?log ?s |- always ((match ?x with _ => _ end) ?s) _ => destruct x eqn:? end
    | match goal with Hl : I ?log ?s |- always ((if ?x then _ else _) ?s) _ => destruct x eqn:? end
    | match goal with Hl : I ?log ?s |- always (mret _ ?s) _ => exact (keeps_ret I _ log s Hl) end
    | match goal with Hl : I ?log ?s |- always (throw _ ?s) _ => exact (keeps_throw I _ log s Hl) end
    | match goal with Hl : I ?log ?s |- always (crash _ ?s) _ => exact (keeps_crash I _ log s Hl) end ].

Lemma end_session_no_leak condition description : keeps I (end_session condition description).
Proof. v1_no_leak_auto. Qed.

Lemma detachImmediately_no_leak meta frame condition description : keeps I (detachImmediately meta frame condition description).
Proof. unfold detachImmediately. v1_no_leak_auto. Qed.

(** A link is added under a handle that is free. *)
Lemma set_link_no_leak h l log s : ss_links s !! h = None → I log s → I log (set_link h l s).
Proof.
  intros Hfree. apply no_leak_weaken. intros n [h' Hh]. exists h'. cbn [set_link set_links ss_links].
  rewrite lookup_insert_ne; [done|]. intros ->. congruence.
Qed.

Lemma start_no_leak h n log s : ss_links s !! h = Some (LinkGroup n) → I log s → I (log ++ [existT (DoStartLink n) ()]) s.
Proof.
  intros Hh Hl n'. rewrite started_app, closed_app. unfold started at 2. cbn. rewrite list_elem_of_singleton. intros [Hn|[Hn| ->]].
  - destruct (Hl n'); tauto.
  - destruct (Hl n'); tauto.
  - left. by exists h.
Qed.

Lemma attachTopic_no_leak meta frame log s :
  ss_links s !! Attach_Handle frame = None → I log s → always (attachTopic meta frame s) (λ log' x, I (log ++ log') x.1).
Proof.
  intros Hfree Hl. unfold attachTopic. destruct (Attach_Target frame) as [target|]; [|by apply (detachImmediately_no_leak _ _ _ _ log)].
  apply always_method_bind. cbn [always get app]. destruct (parse_address _ _ _) as [[namespace name]|e|msg];
    [|by apply (detachImmediately_no_leak _ _ _ _ log)|by apply (keeps_crash I _ log)].
  apply always_method_bind. intros state. cbn [always ask app].
  assert (I (log ++ [existT DoCurrent state]) s) as Hl1 by by apply no_leak_calls.
  eapply (always_mono _ (λ log' x, I ((log ++ [existT DoCurrent state]) ++ log') x.1)); [intros log' x; by rewrite <-app_assoc|].
  destruct (FindNamespace state namespace) as [[i1 ns]|]; [|by apply detachImmediately_no_leak].
  destruct (FindTopic ns name) as [[? tp]|]; [|by apply detachImmediately_no_leak].
  apply always_method_bind. cbn [always modify app].
  match goal with |- always (?m ?s') _ => enough (keeps I m) as Hk by (apply Hk; by apply set_link_no_leak) end. v1_no_leak_auto.
Qed.

Lemma attachConsumerGroup_no_leak meta frame log s :
  ss_links s !! Attach_Handle frame = None → I log s → always (attachConsumerGroup meta frame s) (λ log' x, I (log ++ log') x.1).
Proof.
  unfold attachConsumerGroup.
  set (frame' := if Attach_SndSettleMode frame =? SenderSettleModeNull then set_role (Attach_Role frame) UnsettledSenderSettleMode frame else frame).
  intros Hfree.
  assert (Attach_Handle frame' = Attach_Handle frame) as Hh by (unfold frame'; by destruct (_ =? _)). rewrite <-Hh in Hfree.
  clearbody frame'. clear Hh. intros Hl. destruct (Attach_Source frame') as [source|]; [|by apply (detachImmediately_no_leak _ _ _ _ log)].
  apply always_method_bind. cbn [always get app]. destruct (parse_address _ _ _) as [[namespace name]|e|msg];
    [|by apply (detachImmediately_no_leak _ _ _ _ log)|by apply (keeps_crash I _ log)].
  apply always_method_bind. intros state. cbn [always ask app].
  assert (I (log ++ [existT DoCurrent state]) s) as Hl1 by by apply no_leak_calls.
  eapply (always_mono _ (λ log' x, I ((log ++ [existT DoCurrent state]) ++ log') x.1)); [intros log' x; by rewrite <-app_assoc|].
  destruct (FindNamespace state namespace) as [[i1 ns]|]; [|by apply detachImmediately_no_leak].
  destruct (FindConsumerGroup ns name) as [[i2 cg]|]; [|by apply detachImmediately_no_leak].
  apply always_method_bind. intros n. cbn [always ask app]. apply always_method_bind. cbn [always modify app].
  set (link := new_group_link frame' namespace name). set (s1 := set_link _ _ s).
  assert (ss_links s1 !! Attach_Handle frame' = Some (LinkGroup n)) as Hn by apply lookup_insert_eq.
  assert (I ((log ++ [existT DoCurrent state]) ++ [existT (DoNewLink link) n]) s1) as Hl2
    by (apply no_leak_calls; [done|by apply set_link_no_leak]).
  clearbody s1. unfold session_Send, wrap_err. cbn.
  assert (∀ err, I ((log ++ [existT DoCurrent state]) ++ [existT (DoNewLink link) n; existT (DoSend (Some (attach_reply frame' (v1_meta (ss_channel s1))))) err]) s1) as Hl3.
  { intros err. pose proof (no_leak_calls v1_started_of v1_closed_of session_holds _ _ [existT (DoSend (Some (attach_reply frame' (v1_meta (ss_channel s1))))) err] _ eq_refl Hl2) as Hl3.
    by rewrite <-app_assoc in Hl3. }
  intros [e|]; cbn; [by apply Hl3|]. intros []. pose proof (start_no_leak _ _ _ _ Hn (Hl3 None)) as Hl4. by rewrite <-app_assoc in Hl4.
Qed.

Lemma session_Attach_no_leak meta frame : keeps I (session_Attach meta frame).
Proof.
  apply keeps_get. intros log s Hl. case_bool_decide as Hfree; [by apply end_session_no_leak|]. rewrite <-eq_None_not_Some in Hfree.
  destruct (_ =? HandleNull); [by apply end_session_no_leak|]. destruct (_ =? _); [by apply end_session_no_leak|].
  destruct (Bool.eqb _ _); [by apply attachTopic_no_leak|by apply attachConsumerGroup_no_leak].
Qed.

Lemma session_Detach_no_leak frame : keeps I (session_Detach frame).
Proof.
  apply keeps_get. intros log s Hl. destruct (ss_links s !! _) as [l|] eqn:Hh; [|by apply end_session_no_leak].
  apply always_method_bind. cbn [always modify app]. set (s1 := set_links _ s).
  assert (∀ n, session_holds s n → l = LinkGroup n ∨ session_holds s1 n) as Hs1.
  { intros n [h Hn]. destruct (decide (h = Detach_Handle frame)) as [->|Hne]; [left; congruence|].
    right. exists h. cbn. by rewrite lookup_delete_ne. }
  assert (∀ m : link_state → session_method unit, (∀ st, keeps I (m st)) →
    always ((linkState ← link_State l; calls (link_Close l);; m linkState) s1) (λ log' x, I (log ++ log') x.1)) as Hk.
  { intros m Hm. destruct l as [l|n]; cbn [link_State].
    - apply always_method_bind. cbn [always mret method_ret]. apply always_method_bind. cbn [calls link_Close prog_bind_aux always].
      apply Hm. eapply no_leak_weaken; [|done]. intros n Hn. by destruct (Hs1 n Hn).
    - apply always_method_bind. intros st. cbn [always ask]. apply always_method_bind. intros []. cbn [prog_bind_aux always app].
      eapply always_mono; [|apply (Hm st (log ++ [existT (DoLinkState n) st; existT (DoLinkClose n) ()]))].
      + intros log' x. cbn beta. by rewrite <-app_assoc.
      + intros n'. rewrite started_app, closed_app. intros Hn.
        assert (first n' ∨ v1_started log n') as Hn' by (destruct Hn as [?|[?|[]%elem_of_nil]]; tauto).
        destruct (Hl n' Hn') as [Hs|Hc]; [|tauto]. destruct (Hs1 n' Hs) as [[= ->]|Hs']; [|tauto]. right. right. by left. }
  apply Hk. intros st. v1_no_leak_auto.
Qed.

Lemma process_flow_no_leak frame : keeps I (process_flow frame).
Proof.
  unfold process_flow. apply keeps_bind; [by apply keeps_v1_modify|]. intros _. unfold send_echo. destruct (_ =? _); [v1_no_leak_auto|].
  apply keeps_get. intros log s Hl. destruct (ss_links s !! _) as [l|]; [|by apply end_session_no_leak].
  refine (keeps_bind I _ _ _ _ log s Hl); [apply wrap_method_keeps; unfold link_Flow|intros _]; v1_no_leak_auto.
Qed.

Lemma session_Disposition_no_leak frame : keeps I (session_Disposition frame).
Proof.
  assert (∀ l i range, keeps I (disposition_loop frame l i range)) as Hloop.
  { induction l as [|m l IH]; intros i range; cbn [disposition_loop]; v1_no_leak_auto; apply IH. }
  unfold session_Disposition. v1_no_leak_auto. apply Hloop.
Qed.

(** A transfer to a topic starts and closes nothing. *)
Lemma topic_Transfer_starts s payload frame l :
  always (topic_Transfer s payload frame l) (λ log _, omap v1_started_of log = []).
Proof.
  enough (keeps (λ log _, omap v1_started_of log = []) (topic_Transfer s payload frame)) as Hk by by apply (Hk [] l).
  set (J := λ (log : v1_log) (_ : TopicLink), omap v1_started_of log = []).
  assert (∀ f, keeps (Er := go_error) J (modify f)) as Hmod by (intros f; by apply keeps_modify).
  assert (∀ e, (∀ x, v1_started_of (existT e x) = None) → keeps (Er := go_error) J (ask e)) as Hask.
  { intros e He. apply keeps_ask. intros log x ? Hlog. unfold J in *. rewrite omap_app, Hlog. cbn. by rewrite He. }
  assert (∀ A (f : TopicLink → link_method A), (∀ l', keeps J (f l')) → keeps J (get ≫= f)) as Hget.
  { intros A f Hf. apply keeps_get. intros log l' Hlog. by apply Hf. }
  unfold topic_Transfer, transfer_payload, transfer_complete, transfer_published, replenish_credit, detach_link, wrap_err.
  repeat first [match goal with |- keeps _ (get ≫= _) => apply Hget end | keeps_step | apply Hmod
    | match goal with |- keeps _ (ask ?e) => refine (Hask e _); done end].
Qed.

Lemma process_transfer_no_leak payload frame : keeps I (process_transfer payload frame).
Proof.
  unfold process_transfer. apply keeps_bind; [by apply keeps_v1_modify|]. intros _. apply keeps_get. intros log s Hl.
  destruct (ss_links s !! _) as [l|] eqn:Hh; [|by apply end_session_no_leak]. apply always_method_bind. unfold wrap_method.
  apply (always_bind _ (link_Transfer l payload frame s)).
  assert (always (link_Transfer l payload frame s) (λ log' x, I (log ++ log') x.1)) as Ht.
  { destruct l as [l|n]; [|by apply (keeps_throw I _ log)]. cbn [link_Transfer]. apply (always_bind _ (topic_Transfer s payload frame l)).
    eapply always_mono; [|apply topic_Transfer_starts]. intros log' [l' r] Hlog'. cbn. rewrite app_nil_r. apply no_leak_calls; [done|].
    eapply no_leak_weaken; [|done]. intros n [h Hn]. exists h. cbn. rewrite lookup_insert_ne; [done|]. intros <-. congruence. }
  eapply always_mono; [|apply Ht]. intros log' [s' r] Hl'. cbn [fst always] in *. rewrite app_nil_r.
  destruct r as [[]|e|msg]; [|done..]. eapply always_mono; [intros log'' x; rewrite app_assoc; exact (λ H, H)|].
  match goal with |- always (?m s') _ => enough (keeps I m) as Hk by by apply (Hk (log ++ log')) end. v1_no_leak_auto.
Qed.

Lemma Process_no_leak frame : keeps I (Process frame).
Proof.
  unfold Process. apply keeps_get. intros log s Hl. destruct (ss_state s); [|by apply (keeps_ret I)].
  match goal with |- always (?m s) _ => enough (keeps I m) as Hk by by apply (Hk log) end.
  destruct frame; try apply keeps_throw.
  - apply session_Attach_no_leak.
  - apply process_flow_no_leak.
  - apply process_transfer_no_leak.
  - apply session_Disposition_no_leak.
  - apply session_Detach_no_leak.
Qed.

End release.

Definition sessions_hold (sessions : Sessions) (n : nat) : Prop := ∃ channel s, sessions !! channel = Some s ∧ session_holds s n.

(** What closing links does: each link to a consumer group is closed. *)
Lemma close_links_always l :
  always (close_links l) (λ log _, omap v1_started_of log = [] ∧ ∀ n, LinkGroup n ∈ l.*2 → v1_closed log n).
Proof.
  induction l as [|[h l1] l IH]; cbn [close_links]; [split; [done|]; by intros n ?%elem_of_nil|].
  apply (always_bind _ (link_Close l1)). destruct l1 as [l1|n]; cbn.
  - eapply always_mono; [|apply IH]. intros log _ [H1 H2]. split; [done|]. intros n [[=]|Hn]%elem_of_cons. by apply H2.
  - intros []. eapply always_mono; [|apply IH]. intros log _ [H1 H2]. split; [done|].
    intros n' [[= ->]|Hn]%elem_of_cons; [by left|]. right. by apply H2.
Qed.

Lemma session_Close_closes s : always (session_Close s) (λ log _, omap v1_started_of log = [] ∧ ∀ n, session_holds s n → v1_closed log n).
Proof.
  eapply always_mono; [|apply close_links_always]. intros log _ [H1 H2]. split; [done|]. intros n [h Hn]. apply H2.
  apply (list_elem_of_fmap_2 snd _ (h, LinkGroup n)). by apply elem_of_map_to_list.
Qed.

Lemma close_sessions_closes l :
  always (close_sessions l) (λ log _, omap v1_started_of log = [] ∧ ∀ c s n, (c, s) ∈ l → session_holds s n → v1_closed log n).
Proof.
  induction l as [|[c s] l IH]; cbn [close_sessions]; [split; [done|]; by intros ? ? ? ?%elem_of_nil|].
  apply (always_bind _ (session_Close s)). eapply always_mono; [|apply session_Close_closes]. intros log _ [H1 H2].
  eapply always_mono; [|apply IH]. intros log' _ [H3 H4]. split; [by rewrite omap_app, H1, H3|].
  intros c' s' n [[= -> ->]|Hin]%elem_of_cons Hn; apply closed_app; [left; by apply H2|right; by eapply H4].
Qed.

Section connection_release.

Context `{TimeFormat} (first : nat → Prop).

Abbreviation I := (v1_no_leak sessions_hold first).

Lemma keeps_conn1_call e : (∀ x, v1_started_of (existT e x) = None) → keeps (Er := option go_error) I (ask e).
Proof. intros He. apply keeps_ask. intros log x s. apply no_leak_calls. cbn. by rewrite He. Qed.

#[local] Ltac conn_auto := unfold RespondClose, forceClose, conn_Send, returns_on in *; repeat first [keeps_step
  | match goal with |- keeps _ (ask ?e) => refine (keeps_conn1_call e _); done end].

Lemma process_on_no_leak channel s frame log sessions :
  sessions !! channel = Some s → I log sessions → always (process_on channel s frame sessions) (λ log' x, I (log ++ log') x.1).
Proof.
  intros Hc Hl. unfold process_on. apply (always_bind _ (Process frame s)).
  eapply always_mono; [|apply (Process_no_leak (session_holds s) frame [] s); by intros n [Hn|[]%elem_of_nil]; left].
  intros log' [s' r] Hp. cbn [fst app] in Hp.
  assert (∀ s'', ss_links s'' = ss_links s' → I (log ++ log') (<[channel := s'']> sessions)) as Hl'.
  { intros s'' Hlinks. eapply (no_leak_part _ _ sessions_hold session_holds); [done|done|..].
    - intros n (c & s1 & Hc1 & Hn). destruct (decide (c = channel)) as [->|Hne]; [left; by replace s with s1 by congruence|right].
      exists c, s1. split; [by rewrite lookup_insert_ne by done|done].
    - intros n [h Hn]. exists channel, s''. split; [apply lookup_insert_eq|]. exists h. by rewrite Hlinks. }
  destruct r as [[]|e|msg]; cbn [always]; [rewrite app_nil_r; by apply Hl'| |rewrite app_nil_r; by apply Hl'].
  eapply always_mono; [intros log'' x; rewrite app_assoc; exact (λ H, H)|].
  match goal with |- always (?m _) _ => enough (keeps I m) as Hk by by apply Hk, Hl' end. conn_auto.
Qed.

Lemma conn_Begin_no_leak channel frame : keeps I (conn_Begin channel frame).
Proof.
  apply keeps_get. intros log sessions Hl. destruct (sessions !! channel) as [s|] eqn:E.
  { match goal with |- always (?m _) _ => enough (keeps I m) as Hk by by apply (Hk log) end. conn_auto. }
  destruct (String_ _ _ _) as [namespace|e|msg]; [| |by apply (keeps_crash I _ log)].
  2: { match goal with |- always (?m _) _ => enough (keeps I m) as Hk by by apply (Hk log) end. conn_auto. }
  apply always_method_bind. cbn [always modify app].
  match goal with |- always (?m ?sessions') _ => enough (keeps I m) as Hk; [apply Hk|conn_auto] end.
  eapply no_leak_weaken; [|done]. intros n (c & s & Hc & Hn). exists c, s. split; [|done]. rewrite lookup_insert_ne; [done|].
  cbn. intros ->. congruence.
Qed.

Lemma conn_End_no_leak channel frame : keeps I (conn_End channel frame).
Proof.
  apply keeps_get. intros log sessions Hl. destruct (sessions !! channel) as [s|] eqn:E.
  2: { match goal with |- always (?m _) _ => enough (keeps I m) as Hk by by apply (Hk log) end. conn_auto. }
  apply always_method_bind. cbn [always modify app]. apply always_method_bind. unfold calls. apply (always_bind _ (session_Close s)).
  eapply always_mono; [|apply session_Close_closes]. intros log' [] [H1 H2]. cbn [always]. rewrite app_nil_r.
  assert (I (log ++ log') (delete channel sessions)) as Hl'.
  { intros n. rewrite started_app, closed_app. unfold started at 2. rewrite H1, elem_of_nil. intros Hn.
    assert (first n ∨ v1_started log n) as Hn' by tauto. destruct (Hl n Hn') as [(c & s' & Hc & Hh)|Hc]; [|tauto].
    destruct (decide (c = channel)) as [->|Hne]; [right; right; apply H2; by replace s with s' by congruence|left].
    exists c, s'. by rewrite lookup_delete_ne. }
  eapply always_mono; [intros log'' x; rewrite app_assoc; exact (λ H, H)|].
  match goal with |- always (?m _) _ => enough (keeps I m) as Hk by by apply Hk end. conn_auto.
Qed.

Lemma run_frame_no_leak frame : keeps I (run_frame frame).
Proof.
  unfold run_frame. destruct frame;
    try (apply keeps_get; intros log sessions Hl; destruct (sessions !! _) as [s|] eqn:E; [by apply process_on_no_leak|];
         match goal with |- always (?m _) _ => enough (keeps I m) as Hk by by apply (Hk log) end; by conn_auto).
  - apply keeps_bind; [apply conn_Begin_no_leak|]. intros. conn_auto.
  - apply keeps_bind; [apply conn_End_no_leak|]. intros. conn_auto.
  - conn_auto.
Qed.

Lemma run_event_no_leak event : keeps I (run_event event).
Proof.
  destruct event as [| |e|frame|channel a b c d inflight]; cbn [run_event]; [conn_auto..|apply run_frame_no_leak|].
  apply keeps_modify. intros log sessions. apply no_leak_weaken. intros n (ch & s & Hc & h & Hn).
  destruct (decide (ch = channel)) as [->|Hne].
  - eexists channel, _. split; [by rewrite lookup_alter_eq, Hc|]. by exists h.
  - exists ch, s. split; [by rewrite lookup_alter_ne|by exists h].
Qed.

Lemma run_events_no_leak events : keeps I (run_events events).
Proof. induction events as [|event events IH]; cbn [run_events]; repeat keeps_step; [apply run_event_no_leak|apply IH]. Qed.

End connection_release.

Lemma Run_closes `{TimeFormat} events : always (Run events) (λ log r, r ≠ Ok () → ∀ n, v1_started log n → v1_closed log n).
Proof.
  unfold Run. apply (always_bind _ (run_events events ∅)).
  assert (v1_no_leak sessions_hold (λ _, False) [] ∅) as H0 by (intros n [[]|[]%elem_of_nil]).
  eapply always_mono; [|by apply (run_events_no_leak (λ _, False) events [] ∅)]. intros log [sessions r] Hl. cbn [fst app] in Hl.
  assert (∀ r', always (prog_bind_aux (λ _ : unit, Ret r') (close_sessions (map_to_list sessions)))
    (λ log' (r : result (option go_error) unit), r ≠ Ok () → ∀ n, v1_started (log ++ log') n → v1_closed (log ++ log') n)) as Hc.
  { intros r'. apply (always_bind _ (close_sessions _)). eapply always_mono; [|apply close_sessions_closes].
    intros log' [] [H1 H2] _ n. cbn. rewrite app_nil_r, started_app, closed_app. unfold started at 2. rewrite H1, elem_of_nil.
    intros [Hn|[]]. destruct (Hl n) as [(c & s & Hc & Hn')|Hn']; [by right| |by left]. right. eapply H2; [|done].
    by apply elem_of_map_to_list. }
  destruct r as [[]|e|msg]; [by cbn|apply Hc..].
Qed.

(** The windows and the credit are kept open.  While a connection is served, whatever the client sends, each session
    that is ready grants the client an incoming window of at least 32768 and at most 65535 transfers, and the credit of
    each link to a topic is at most what was granted; nothing of an earlier message is left in a link that receives
    none. *)
Theorem v1_windows_inv `{TimeFormat} events :
  always (run_events events ∅) (λ _ x, (∃ msg, x.2 = Panic msg) ∨ ∀ channel s, x.1 !! channel = Some s →
    (ss_state s = sessionStateReady → 32768 ≤ ss_incomingWindow s ≤ 65535) ∧
    ∀ h l, ss_links s !! h = Some (LinkTopic l) → tl_handle l = h ∧ 0 ≤ tl_linkCredit l ≤ 65535 ∧ (tl_currentTransfer l = None → tl_buf l = [])).
Proof.
  eapply always_mono; [|apply run_events_inv]. 2: { intros channel s. by rewrite lookup_empty. }
  intros _ [sessions r] Hs. destruct r as [[]|e|msg]; [right|right|left; by eexists]; intros channel s Hc; destruct (Hs channel s Hc) as [_ Hw Hl];
    (split; [done|]; intros h l Hh; by destruct (Hl h l Hh)).
Qed.

(** Links do not outlive their connection.  When the function that serves a connection has returned, or panicked,
    the subscription of every link to a consumer group that was started on it was cancelled, whatever the events were
    and in whatever way the connection ended. *)
Theorem v1_links_closed `{TimeFormat} events :
  always (ServeAMQPv1 events) (λ log r, r ≠ Ok () → ∀ n, v1_started log n → v1_closed log n).
Proof.
  unfold ServeAMQPv1. intros [open|e|msg]; cbn -[Run]; [|by intros _ n ?%elem_of_nil..]. intros [].
  repeat case_match; repeat (intros [?|]; cbn -[Run]); try by intros _ n ?%elem_of_nil.
  all: eapply always_mono; [|apply Run_closes]; intros log r Hc; apply Hc.
Qed.
