(* ===== verification/AmqpV1Assembly.v ===== *)
(** * AMQP 1.0: publishing a message

    The transfer frames of one delivery make one message, which is published once and accepted only when it was
    published. *)
From S2P Require Import Prelude Emq Bytes ClusterState Requests StructValue Interaction Broker AmqpValues AmqpV1 AmqpV1Fields AmqpV1Types AmqpV1Transport AmqpV1Total AmqpV1Server AmqpV1ServerProps.

(** ** The sections of a message *)

Section parse.

Context `{TimeFormat}.

(** The fuel of the loop is enough: with more of it the result is the same. *)
Lemma parse_message_fuel fuel : ∀ buf m, (length buf ≤ fuel)%nat → parse_message fuel buf m = parse_message (length buf) buf m.
Proof.
  induction fuel as [fuel IH] using lt_wf_ind. intros buf m Hf.
  destruct buf as [|b buf]; [by destruct fuel|]. destruct fuel as [|fuel]; [cbn in Hf; lia|].
  cbn [parse_message length]. destruct (UnmarshalSection (b :: buf)) as [[section rest]|e|msg] eqn:E; [|done..].
  apply section_takes in E. cbn [length] in E, Hf. change (parse_message fuel rest (apply_section section m) = parse_message (length buf) rest (apply_section section m)).
  rewrite (IH fuel) by lia. destruct (decide (length buf = fuel)) as [->|Hne]; [by rewrite (IH fuel) by lia|].
  rewrite (IH (length buf)); [done|lia|lia].
Qed.

(** The loop ends with a message or an error, or with a panic of the decoder. *)
Lemma parse_message_ends buf : ∀ m msg, parse_message (length buf) buf m = Panic msg → go_panic msg.
Proof.
  induction buf as [buf IH] using (induction_ltof1 _ length). intros m msg. destruct buf as [|b buf]; [done|].
  cbn [parse_message length]. destruct (UnmarshalSection (b :: buf)) as [[section rest]|e|msg'] eqn:E.
  - pose proof (section_takes _ _ _ E) as Hl. cbn [length] in Hl.
    change (parse_message (length buf) rest (apply_section section m) = Panic msg → go_panic msg).
    rewrite parse_message_fuel by lia. apply IH. unfold ltof. cbn. lia.
  - done.
  - intros [= <-]. pose proof (ends_section (b :: buf)) as He. unfold ends in He. rewrite E in He. done.
Qed.

End parse.

(** ** What a delivery does *)

Inductive effect : Type :=
| Published (request : TopicPublishRequest) (ok : bool)
| Accepted (deliveryID : Z)
| Detached (handle : Z).

(** The effects of a call; flow frames have none. *)
Definition effect_of (c : call v1_answer) : option effect :=
  let 'existT e x := c in
  match e return v1_answer e → option effect with
  | DoPublish request => λ err, Some (Published request (bool_decide (err = None)))
  | DoSend (Some (FrameDisposition _ f)) => λ _,
    match Disposition_State f with
    | Some (DeliveryAccepted _) => Some (Accepted (Disposition_First f))
    | _ => None
    end
  | DoSend (Some (FrameDetach _ f)) => λ _, Some (Detached (Detach_Handle f))
  | _ => λ _, None
  end x.

Definition effects (log : v1_log) : list effect := omap effect_of log.

Lemma effects_app log log' : effects (log ++ log') = effects log ++ effects log'.
Proof. apply omap_app. Qed.

(** The frames of one delivery on a link; all but the last say that there are more. *)
Fixpoint delivery (handle deliveryID : Z) (frames : list (FrameMeta * Transfer)) : Prop :=
  match frames with
  | [] => False
  | (_, f) :: frames =>
    (Transfer_Handle f = handle ∧ Transfer_DeliveryID f = deliveryID ∧ Transfer_MessageFormat f = 0 ∧ Transfer_Aborted f = false) ∧
    match frames with
    | [] => Transfer_More f = false
    | _ => Transfer_More f = true ∧ delivery handle deliveryID frames
    end
  end.

(** The bytes of the message. *)
Definition delivery_bytes (frames : list (FrameMeta * Transfer)) : list Z := concat ((λ '(meta, _), Payload meta) <$> frames).

Section assembly.

Context `{TimeFormat}.

Fixpoint process_transfers (frames : list (FrameMeta * Transfer)) : session_method unit :=
  match frames with
  | [] => mret ()
  | (meta, f) :: frames => Process (FrameTransfer meta f);; process_transfers frames
  end.

(** What the delivery of the bytes [buf] does, when publishing succeeds or fails. *)
Definition outcome (l : TopicLink) (deliveryID : Z) (settled : bool) (buf : list Z) (ok : bool) : list effect :=
  match parse_message (length buf) buf empty_message with
  | Ok message =>
    Published {| tpr_DoNotForward := false; tpr_Namespace := tl_namespace l; tpr_Name := tl_name l; tpr_Message := Some message |} ok ::
    (if ok then if settled then [] else [Accepted deliveryID] else [Detached (tl_handle l)])
  | Err _ => [Detached (tl_handle l)]
  | Panic _ => []
  end.

(** The link after a message was published: it waits for another, and has at least half of its credit. *)
Record link_published (l l' : TopicLink) : Prop := {
  lp_current : tl_currentTransfer l' = None;
  lp_buf : tl_buf l' = [];
  lp_state : tl_state l' = tl_state l;
  lp_count : tl_deliveryCount l' = tl_deliveryCount l;
  lp_credit : tl_linkCredit l' = if tl_linkCredit l <=? tl_initialLinkCredit l / 2 then tl_initialLinkCredit l else tl_linkCredit l;
}.

(** What a run did: all of the outcome, or a part of it when a frame could not be sent. *)
Definition did (l : TopicLink) (deliveryID : Z) (settled : bool) (buf : list Z) (es : list effect) (l' : TopicLink) (r : result go_error unit) : Prop :=
  ∃ ok, es `prefix_of` outcome l deliveryID settled buf ok ∧
    (r = Ok () → es = outcome l deliveryID settled buf ok ∧ (∀ request, Published request true ∈ es → link_published l l')) ∧
    (∀ msg, r = Panic msg → go_panic msg).

(** The outcome is complete. *)
Lemma did_all l deliveryID settled buf es l' r ok :
  es = outcome l deliveryID settled buf ok → (∀ msg, r ≠ Panic msg) →
  (r = Ok () → ∀ request, Published request true ∈ es → link_published l l') → did l deliveryID settled buf es l' r.
Proof. intros He Hr Hp. exists ok. split; [by rewrite He|]. split; [intros E; by split; [|apply Hp]|]. intros msg Hm. by destruct (Hr msg). Qed.

(** A frame could not be sent. *)
Lemma did_part l deliveryID settled buf es l' e ok :
  es `prefix_of` outcome l deliveryID settled buf ok → did l deliveryID settled buf es l' (Err e).
Proof. intros He. by exists ok. Qed.

(** What the link has received so far does not matter. *)
Lemma did_set_transfer t b l deliveryID settled buf es l' r : did (set_transfer t b l) deliveryID settled buf es l' r → did l deliveryID settled buf es l' r.
Proof.
  intros (ok & Hpre & Hok & Hp). exists ok. split; [done|]. split; [|done]. intros E. destruct (Hok E) as [He Hl].
  split; [done|]. intros request Hr. by destruct (Hl request Hr).
Qed.

(** The link is detached at the end of the outcome. *)
Lemma detach_did l l1 deliveryID settled buf s condition err log ok :
  tl_handle l1 = tl_handle l → outcome l deliveryID settled buf ok = effects log ++ [Detached (tl_handle l)] →
  (∀ request, Published request true ∉ effects log) →
  always (detach_link s condition err l1) (λ log' x, did l deliveryID settled buf (effects (log ++ log')) x.1 x.2).
Proof.
  intros Hh Ho Hn. unfold detach_link. apply always_method_bind. cbn [always modify app]. apply always_method_bind. cbn [always get app].
  intros err'. destruct err'; apply (did_all _ _ _ _ _ _ _ ok); rewrite ?Ho, ?effects_app; cbn; rewrite ?Hh; try done.
  intros _ request. intros [Hr|Hr]%elem_of_app; [by destruct (Hn request)|]. by apply list_elem_of_singleton in Hr.
Qed.

(** The credit is granted again; [l] is the link when its last frame came. *)
Lemma replenish_did s frame deliveryID settled t b l buf log :
  effects log = outcome l deliveryID settled buf true →
  always ((replenish_credit s frame;; modify (set_transfer None [])) (set_transfer t b l))
    (λ log' x, did l deliveryID settled buf (effects (log ++ log')) x.1 x.2).
Proof.
  intros Hlog. unfold replenish_credit. apply always_method_bind, always_method_bind. cbn [always get app set_transfer tl_linkCredit tl_initialLinkCredit].
  destruct (tl_linkCredit l <=? tl_initialLinkCredit l / 2) eqn:Hc; [intros [e|]|].
  - apply did_part with true. rewrite effects_app, Hlog. cbn. by rewrite app_nil_r.
  - apply did_all with true; [rewrite effects_app, Hlog; cbn; by rewrite app_nil_r|done|]. intros _ request _. split; try done. cbn. by rewrite Hc.
  - apply did_all with true; [by rewrite app_nil_r|done|]. intros _ request _. split; try done. cbn. by rewrite Hc.
Qed.

(** After the message was published. *)
Lemma published_did s frame current t b l buf message log :
  parse_message (length buf) buf empty_message = Ok message →
  effects log = [Published {| tpr_DoNotForward := false; tpr_Namespace := tl_namespace l; tpr_Name := tl_name l; tpr_Message := Some message |} true] →
  always (transfer_published s frame current (set_transfer t b l))
    (λ log' x, did l (Transfer_DeliveryID current) (Transfer_Settled current) buf (effects (log ++ log')) x.1 x.2).
Proof.
  intros Hm He. unfold transfer_published. apply always_method_bind. cbn [always get app].
  assert (∀ settled, outcome l (Transfer_DeliveryID current) settled buf true =
    effects log ++ if settled then [] else [Accepted (Transfer_DeliveryID current)]) as Ho
    by (intros settled; unfold outcome; by rewrite Hm, He).
  apply always_method_bind. destruct (Transfer_Settled current) eqn:Hs.
  - cbn [always mret method_ret]. eapply always_mono; [|apply replenish_did]; [intros log0 x0 Hd; exact Hd|]. by rewrite Ho, app_nil_r.
  - apply always_method_bind. intros err. cbn [always ask app]. unfold wrap_err. destruct err as [e|]; cbn [fail_on throw mret method_ret always app fst snd].
    + apply did_part with true. rewrite effects_app, Ho. done.
    + match goal with |- always _ (λ log' _, did _ _ _ _ (effects (_ ++ ?c :: log')) _ _) =>
        eapply always_mono; [|eapply (replenish_did _ _ _ _ _ _ _ _ (log ++ [c]))] end.
      * intros log' x. cbn beta. by rewrite <-app_assoc.
      * by rewrite effects_app, Ho.
Qed.

(** The message is complete. *)
Lemma complete_did s frame current l :
  always (transfer_complete s frame current l)
    (λ log' x, did l (Transfer_DeliveryID current) (Transfer_Settled current) (tl_buf l) (effects log') x.1 x.2).
Proof.
  unfold transfer_complete. apply always_method_bind. cbn [always get app].
  pose proof (parse_message_ends (tl_buf l) empty_message) as Hp.
  destruct (parse_message _ (tl_buf l) empty_message) as [message|e|msg] eqn:Hm.
  - apply always_method_bind. cbn [always modify app]. apply always_method_bind. intros err. cbn [always ask app].
    destruct err as [e|].
    + match goal with |- always _ (λ log' _, did _ _ _ _ (effects (?c :: log')) _ _) => apply (detach_did l _ _ _ _ _ _ _ [c] false) end.
      * done.
      * unfold outcome. by rewrite Hm.
      * intros request Hr. by apply list_elem_of_singleton in Hr.
    + match goal with |- always _ (λ log' _, did _ _ _ _ (effects (?c :: log')) _ _) => apply (published_did _ _ _ _ _ _ _ message [c]) end; done.
  - apply always_method_bind. intros left. cbn [always ask app]. apply always_method_bind. cbn [always modify app].
    match goal with |- always _ (λ log' _, did _ _ _ _ (effects (?c :: log')) _ _) => apply (detach_did l _ _ _ _ _ _ _ [c] false) end.
    + done.
    + unfold outcome. by rewrite Hm.
    + intros request Hr. by apply elem_of_nil in Hr.
  - exists true. cbn. split; [apply prefix_nil|]. split; [done|]. intros msg' [= <-]. by apply Hp.
Qed.

(** What a frame does to a link is what it does to the session, apart from the windows. *)
Lemma process_transfer_effects meta f s l P :
  session_inv 32768 s → ss_state s = sessionStateReady → ss_links s !! Transfer_Handle f = Some (LinkTopic l) →
  always (topic_Transfer (count_transfer s) (Payload meta) f l) (λ log x, P (effects log) x.1 x.2) →
  always (Process (FrameTransfer meta f) s) (λ log x, ∃ l' r, P (effects log) l' r ∧ ss_links x.1 !! Transfer_Handle f = Some (LinkTopic l') ∧
    ss_state x.1 = sessionStateReady ∧ (x.2 = Ok () → r = Ok () ∧ session_inv 32768 x.1) ∧ (∀ msg, x.2 = Panic msg → r = Panic msg)).
Proof.
  intros Hs Hst Hl Ht. pose proof (Process_inv (FrameTransfer meta f) s Hs) as Hinv.
  assert (always (Process (FrameTransfer meta f) s) (λ log x, ∃ l' r, P (effects log) l' r ∧
    ss_links x.1 !! Transfer_Handle f = Some (LinkTopic l') ∧ ss_state x.1 = sessionStateReady ∧ (x.2 = Ok () → r = Ok ()) ∧
    (∀ msg, x.2 = Panic msg → r = Panic msg))) as Hx; [clear Hinv|].
  2: { eapply always_mono; [|exact (always_and _ _ _ Hinv Hx)]. intros log x [Hp (l' & r & H1 & H2 & H3 & H4 & H5)]. exists l', r.
       do 3 (split; [done|]). split; [|done]. intros E. split; [by apply H4|]. unfold processed in Hp. by rewrite E in Hp. }
  unfold Process.
  apply always_method_bind. cbn [always get app]. rewrite Hst. unfold process_transfer.
  apply always_method_bind. cbn [always modify app]. apply always_method_bind. cbn [always get app].
  change (ss_links (count_transfer s)) with (ss_links s). rewrite Hl.
  apply always_method_bind. unfold wrap_method. apply (always_bind _ (link_Transfer _ _ _ _)). cbn [link_Transfer].
  apply (always_bind _ (topic_Transfer _ _ _ _)). eapply always_mono; [|exact Ht]. intros log [l' r] Hp. cbn [always fst snd].
  assert (∀ links, <[Transfer_Handle f := LinkTopic l']> links !! Transfer_Handle f = Some (LinkTopic l')) as Hlook by (intros; apply lookup_insert_eq).
  rewrite !app_nil_r. destruct r as [[]|e|msg].
  - destruct (_ <=? _).
    + unfold session_Send, wrap_err. intros [e|]; exists l', (Ok ()); rewrite effects_app; cbn; rewrite app_nil_r; done.
    + exists l', (Ok ()). cbn. rewrite app_nil_r. done.
  - exists l', (Err e). split; [done|]. split; [by cbn|]. done.
  - exists l', (Panic msg). split; [done|]. split; [by cbn|]. split; [done|]. split; [done|]. by intros msg' [= <-].
Qed.

(** A frame on a link that receives the message [current]; [l0] is the link before the payload is added. *)
Definition receives (f : Transfer) (l : TopicLink) (current : Transfer) (l0 : TopicLink) : Prop :=
  tl_currentTransfer l0 = Some current ∧
  ∀ s payload, ss_incomingWindow s ≠ 0 → topic_Transfer s payload f l = transfer_payload s payload f current l0.

(** The first frame of a message takes a credit. *)
Definition begun (f : Transfer) (l : TopicLink) : TopicLink :=
  set_transfer (Some f) [] (set_credit (u32 (tl_deliveryCount l + 1)) (u32 (tl_linkCredit l - 1)) l).

Lemma receives_first f l :
  Transfer_MessageFormat f = 0 → tl_currentTransfer l = None → tl_linkCredit l ≠ 0 → receives f l f (begun f l).
Proof.
  intros Hf Hc Hl. split; [done|]. intros s payload Hw. unfold topic_Transfer. rewrite Hf. cbn [negb Z.eqb].
  unfold mbind, method_bind, get. cbn [prog_bind_aux]. rewrite Hc.
  destruct (Z.eqb_spec (tl_linkCredit l) 0); [done|]. by destruct (Z.eqb_spec (ss_incomingWindow s) 0).
Qed.

Lemma receives_next f l current :
  Transfer_MessageFormat f = 0 → tl_currentTransfer l = Some current → Transfer_DeliveryID current = Transfer_DeliveryID f → receives f l current l.
Proof.
  intros Hf Hc Hid. split; [done|]. intros s payload _. unfold topic_Transfer. rewrite Hf. cbn [negb Z.eqb].
  unfold mbind, method_bind, get. cbn [prog_bind_aux]. by rewrite Hc, Hid, Z.eqb_refl.
Qed.

Lemma count_transfer_window s : session_inv 32768 s → ss_state s = sessionStateReady → ss_incomingWindow (count_transfer s) ≠ 0.
Proof.
  intros Hs Hst. pose proof (si_window _ s Hs Hst). cbn. unfold MaxUint16, u32, wrap in *. rewrite Z.mod_small; lia.
Qed.

Lemma delivery_did h id frames : ∀ s l current l0,
  session_inv 32768 s → ss_state s = sessionStateReady → ss_links s !! h = Some (LinkTopic l) →
  delivery h id frames → Transfer_DeliveryID current = id → (∀ meta f, head frames = Some (meta, f) → receives f l current l0) →
  always (process_transfers frames s) (λ log x, ∃ l', ss_links x.1 !! h = Some (LinkTopic l') ∧
    did l0 id (Transfer_Settled current) (tl_buf l0 ++ delivery_bytes frames) (effects log) l' x.2).
Proof.
  induction frames as [|[meta f] frames IH]; intros s l current l0 Hs Hst Hl Hd Hid Hr; [done|].
  destruct Hd as [(Hh & Hf & Hfmt & Hab) Hd]. subst h. destruct (Hr meta f eq_refl) as [Hc Ht].
  pose proof (count_transfer_window s Hs Hst) as Hw. cbn [process_transfers]. apply always_method_bind.
  destruct frames as [|[meta' f'] frames].
  - eapply always_mono; [|eapply (process_transfer_effects _ _ _ _ (λ es l' r, did l0 id (Transfer_Settled current) (tl_buf l0 ++ Payload meta) es l' r));
      [done..|]].
    + intros log [s' r'] (l' & r & Hdid & Hl' & _ & Hok & Hp). cbn [fst snd] in *.
      replace (delivery_bytes [(meta, f)]) with (Payload meta) by (unfold delivery_bytes; cbn; by rewrite app_nil_r).
      destruct r' as [[]|e|msg]; cbn; rewrite ?app_nil_r; exists l'; (split; [done|]).
      * by destruct (Hok eq_refl) as [-> _].
      * destruct Hdid as (ok & Hpre & _). by apply did_part with ok.
      * by rewrite (Hp _ eq_refl) in Hdid.
    + rewrite Ht by done. unfold transfer_payload. rewrite Hab, Hd. apply always_method_bind. cbn [always modify app]. rewrite <-Hid.
      eapply always_mono; [|apply (complete_did (count_transfer s) f current)]. intros log x. apply did_set_transfer.
  - destruct Hd as [Hm Hd]. set (l1 := set_transfer (Some current) (tl_buf l0 ++ Payload meta) l0).
    eapply always_mono; [|eapply (process_transfer_effects _ _ _ _ (λ es l' r, es = [] ∧ l' = l1 ∧ r = Ok ())); [done..|]].
    + intros log [s' r'] (l' & r & (He & -> & ->) & Hl' & Hst' & Hok & Hp). cbn [fst snd] in *. destruct r' as [[]|e|msg].
      * destruct (Hok eq_refl) as [_ Hs']. eapply always_mono; [|apply (IH s' l1 current l1); try done].
        -- intros log' x (l' & Hx & Hdid). exists l'. split; [done|]. rewrite effects_app, He.
           replace (delivery_bytes _) with (Payload meta ++ delivery_bytes ((meta', f') :: frames)) by done.
           rewrite app_assoc. by apply did_set_transfer in Hdid.
        -- intros meta1 f1 [= <- <-]. destruct Hd as [(_ & Hf' & Hfmt' & _) _]. apply receives_next; [done|done|]. by rewrite Hid, Hf'.
      * exists l1. split; [done|]. rewrite He. apply did_part with true, prefix_nil.
      * by specialize (Hp msg eq_refl).
    + rewrite Ht by done. unfold transfer_payload. rewrite Hab, Hm. apply always_method_bind. cbn [always modify app]. by rewrite Hc.
Qed.

(** (C5) A message is published once, and accepted only when it was published.  The frames of one delivery on a link
    to a topic publish exactly one message: the one that the sections in all of their payloads make.  If it is
    published, an unsettled delivery is accepted, after that, and the link waits for another message with at least half
    of its credit; if it cannot be published or the bytes are malformed, the link is detached and nothing is
    accepted.  When a frame cannot be sent, what was done is a part of this. *)
Theorem v1_publish_assembled h id frames meta f s l :
  session_inv 32768 s → ss_state s = sessionStateReady → ss_links s !! h = Some (LinkTopic l) →
  tl_currentTransfer l = None → tl_linkCredit l ≠ 0 → delivery h id frames → head frames = Some (meta, f) →
  always (process_transfers frames s) (λ log x, ∃ l', ss_links x.1 !! h = Some (LinkTopic l') ∧
    did (begun f l) id (Transfer_Settled f) (delivery_bytes frames) (effects log) l' x.2).
Proof.
  intros Hs Hst Hl Hc Hcr Hd Hf.
  assert (Transfer_MessageFormat f = 0 ∧ Transfer_DeliveryID f = id) as [Hfmt Hid].
  { destruct frames as [|[meta1 f1] frames]; [done|]. injection Hf as -> ->. by destruct Hd as [(_ & ? & ? & _) _]. }
  apply (delivery_did h id frames s l f (begun f l)); try done.
  intros meta1 f1 Hf1. rewrite Hf in Hf1. injection Hf1 as <- <-. by apply receives_first.
Qed.

End assembly.

(** ** A delivery in two frames *)

Definition sample_transfer (deliveryID : Z) (more : bool) : Transfer :=
  {| Transfer_Handle := 1; Transfer_DeliveryID := deliveryID; Transfer_DeliveryTag := None; Transfer_MessageFormat := 0; Transfer_Settled := false;
     Transfer_More := more; Transfer_RcvSettleMode := 0; Transfer_State := None; Transfer_Resume := false; Transfer_Aborted := false;
     Transfer_Batchable := false |}.

Definition sample_topic : TopicLink :=
  {| tl_state := linkStateReady; tl_handle := 1; tl_role := ReceiverRole; tl_deliveryCount := 0; tl_linkCredit := MaxUint16;
     tl_initialLinkCredit := MaxUint16; tl_namespace := "default"; tl_name := "topic"; tl_currentTransfer := None; tl_buf := [] |}.

Definition sample_begin : Begin :=
  {| Begin_RemoteChannel := 0; Begin_NextOutgoingID := 0; Begin_IncomingWindow := 10; Begin_OutgoingWindow := 10; Begin_HandleMax := 1;
     Begin_OfferedCapabilities := None; Begin_DesiredCapabilities := None; Begin_Properties := None |}.

Definition sample_session : Session := set_link 1 (LinkTopic sample_topic) (new_session 0 sample_begin "default").

(** A data section with the bytes 1, 2 and 3. *)
Definition sample_delivery : list (FrameMeta * Transfer) :=
  [(set_payload [0; 83; 117; 160; 3; 1] (v1_meta 0), sample_transfer 7 true); (set_payload [2; 3] (v1_meta 0), sample_transfer 7 false)].

Lemma sample_session_inv : session_inv 32768 sample_session.
Proof.
  apply set_link_inv; [apply new_session_inv|]. intros t [= <-]. split; cbn; [done|done|unfold MaxUint16; lia|done].
Qed.

#[local] Instance no_time : TimeFormat := λ _, ""%string.

Lemma v1_publish_assembled_witness :
  always (process_transfers sample_delivery sample_session) (λ log x, ∃ l', ss_links x.1 !! 1 = Some (LinkTopic l') ∧
    did (begun (sample_transfer 7 true) sample_topic) 7 false (delivery_bytes sample_delivery) (effects log) l' x.2).
Proof.
  apply (v1_publish_assembled 1 7 sample_delivery (set_payload [0; 83; 117; 160; 3; 1] (v1_meta 0)) (sample_transfer 7 true));
    [apply sample_session_inv|done..|by cbn|done].
Defined.

(** The outcome of this delivery. *)
Example sample_outcome :
  outcome (begun (sample_transfer 7 true) sample_topic) 7 false (delivery_bytes sample_delivery) true =
  [Published {| tpr_DoNotForward := false; tpr_Namespace := "default"; tpr_Name := "topic";
     tpr_Message := Some {| RoutingKey := ""; Emq.Properties := None; Headers := None; Data := [1; 2; 3] |} |} true; Accepted 7].
Proof. vm_compute. reflexivity. Qed.

(** ** What a link does not do *)

(** A frame of the same delivery without the delivery identifier detaches the link. *)
Lemma omitted_delivery_id_detaches `{TimeFormat} s payload f l current :
  tl_currentTransfer l = Some current → Transfer_DeliveryID current ≠ Transfer_DeliveryID f → Transfer_MessageFormat f = 0 →
  always (topic_Transfer s payload f l) (λ log x, effects log = [Detached (tl_handle l)] ∧ tl_state x.1 = linkStateDetaching).
Proof.
  intros Hc Hid Hf. unfold topic_Transfer. rewrite Hf. cbn [negb Z.eqb]. apply always_method_bind. cbn [always get app]. rewrite Hc.
  destruct (Z.eqb_spec (Transfer_DeliveryID current) (Transfer_DeliveryID f)); [done|]. by intros [e|].
Qed.

(** An aborted delivery uses a credit, which is not granted again. *)
Lemma aborted_uses_credit `{TimeFormat} s payload f l :
  Transfer_MessageFormat f = 0 → Transfer_Aborted f = true → tl_currentTransfer l = None → 0 < tl_linkCredit l < 2 ^ 32 → ss_incomingWindow s ≠ 0 →
  ∃ l', topic_Transfer s payload f l = Ret (l', Ok ()) ∧ tl_linkCredit l' = tl_linkCredit l - 1.
Proof.
  intros Hf Ha Hc Hl Hw. destruct (receives_first f l) as [_ Ht]; [done|done|lia|]. rewrite Ht by done. unfold transfer_payload. rewrite Ha.
  eexists. split; [reflexivity|]. cbn. unfold u32, wrap. rewrite Z.mod_small; lia.
Qed.

(** The bytes of several data sections are not joined: the last one is the message. *)
Lemma last_data_section_wins `{TimeFormat} :
  parse_message 14 [0; 83; 117; 160; 2; 1; 2; 0; 83; 117; 160; 2; 3; 4] empty_message =
  Ok {| RoutingKey := ""; Emq.Properties := None; Headers := None; Data := [3; 4] |}.
Proof. vm_compute. reflexivity. Qed.
