(* ===== verification/AmqpV1Sender.v ===== *)
(** * AMQP 1.0: delivering messages

    Models the links to consumer groups of src/mq/server_amqp_v1_link.go.  [Receive] subscribes to the group and [Send] is
    called with each message, in a goroutine of its own.  The steps of [Send] that hold the lock of the link or of the
    session are calls; what they do to the link and to the session is a function of its own ([take_credit],
    [take_window], ...), which has no result while the code waits. *)
From stdpp Require Import pretty.
From S2P Require Import Prelude Emq Bytes Requests Interaction Broker AmqpValues AmqpV1 AmqpV1Fields AmqpV1Types AmqpV1Transport AmqpV1Server.

(** [time.Parse] of the Go library, with the layout of the code. *)
Class TimeParse : Type := time_Parse : string → Z * option go_error.

(** A time that cannot be parsed is the zero time. *)
Class TimeParseLaw `{TimeParse} : Prop := time_Parse_zero s t e : time_Parse s = (t, Some e) → t = 0.

(** ** Locks *)

Definition set_group_credit (deliveryCount linkCredit subscriptionSize : Z) (l : GroupLink) : GroupLink :=
  {| gl_state := gl_state l; gl_handle := gl_handle l; gl_role := gl_role l; gl_deliveryCount := deliveryCount; gl_linkCredit := linkCredit;
     gl_namespace := gl_namespace l; gl_name := gl_name l; gl_autoAck := gl_autoAck l; gl_subscriptionSize := subscriptionSize |}.

(** [Flow] of the link. *)
Definition group_Flow (frame : Flow) (l : GroupLink) : GroupLink :=
  set_group_credit (gl_deliveryCount l) (u32 (Flow_DeliveryCount frame + Flow_LinkCredit frame - gl_deliveryCount l)) (gl_subscriptionSize l) l.

(** One credit is taken; the new size of the subscription if it must be resized. *)
Definition take_credit (l : GroupLink) : option (GroupLink * option Z) :=
  if gl_linkCredit l =? 0 then None
  else
    let resizeSubscription := gl_subscriptionSize l <? gl_linkCredit l in
    let size := if resizeSubscription then gl_linkCredit l else gl_subscriptionSize l in
    Some (set_group_credit (u32 (gl_deliveryCount l + 1)) (u32 (gl_linkCredit l - 1)) size l, if resizeSubscription then Some size else None).

(** The next delivery identifier of the session. *)
Definition next_delivery (s : Session) : Session * Z :=
  let deliveryID := u32 (ss_deliveryID s + 1) in
  (set_outgoing (ss_nextOutgoingID s) (ss_outgoingWindow s) (ss_remoteIncomingWindow s) deliveryID (ss_inflight s) s, deliveryID).

(** One transfer is taken from the window of the receiver, and the delivery recorded; whether to send a flow frame. *)
Definition take_window (inflight : option SessionInflight) (s : Session) : option (Session * bool) :=
  if ss_remoteIncomingWindow s =? 0 then None
  else
    let outgoingWindow := u32 (ss_outgoingWindow s - 1) in
    Some (set_outgoing (u32 (ss_nextOutgoingID s + 1)) outgoingWindow (u32 (ss_remoteIncomingWindow s - 1)) (ss_deliveryID s)
            (ss_inflight s ++ option_list inflight) s,
          outgoingWindow <=? ss_initialOutgoingWindow s / 2).

Definition reset_outgoing (s : Session) : Session :=
  set_outgoing (ss_nextOutgoingID s) (ss_initialIncomingWindow s) (ss_remoteIncomingWindow s) (ss_deliveryID s) (ss_inflight s) s.

(** ** The message *)

Section sender.

Context `{TimeParse}.

Definition id_of (s : string) : option MessageID := if (s =? "")%string then None else Some (MessageIDString s).
Definition address_of (s : string) : option Address := if (s =? "")%string then None else Some (AddressString s).

Definition send_properties (m : EmqMessage) : Properties :=
  match Emq.Properties m with
  | None =>
    {| Properties_MessageID := None; Properties_UserID := None; Properties_To := None; Properties_Subject := RoutingKey m;
       Properties_ReplyTo := None; Properties_CorrelationID := None; Properties_ContentType := ""; Properties_ContentEncoding := "";
       Properties_AbsoluteExpiryTime := 0; Properties_CreationTime := 0; Properties_GroupID := ""; Properties_GroupSequence := 0;
       Properties_ReplyToGroupID := "" |}
  | Some p =>
    {| Properties_MessageID := id_of (Emq.MessageID p);
       Properties_UserID := if (UserID p =? "")%string then None else Some (string_bytes (UserID p));
       Properties_To := address_of (To p);
       Properties_Subject := RoutingKey m;
       Properties_ReplyTo := address_of (ReplyTo p);
       Properties_CorrelationID := id_of (CorrelationID p);
       Properties_ContentType := ContentType p;
       Properties_ContentEncoding := ContentEncoding p;
       (* [if t, err := time.Parse(...); err != nil { AbsoluteExpiryTime = t }] *)
       Properties_AbsoluteExpiryTime :=
         if (Expiration p =? "")%string then 0 else match time_Parse (Expiration p) with (t, Some _) => t | (_, None) => 0 end;
       Properties_CreationTime := Timestamp p;
       Properties_GroupID := GroupID p;
       Properties_GroupSequence := GroupSequence p;
       Properties_ReplyToGroupID := ReplyToGroupID p |}
  end.

(** The bytes of a message. *)
Definition marshal_message (m : EmqMessage) : result go_error (list Z) :=
  Wrap "marshal properties section failed" (Properties_MarshalBuffer (send_properties m)) +++
  match Headers m with
  | None => Ok []
  | Some headers => Wrap "marshal headers section failed" (ApplicationProperties_MarshalBuffer (Some headers))
  end +++
  Wrap "marshal data section failed" (Data_MarshalBuffer (Data m)).

(** ** [Send] *)

Inductive s_call : Type :=
| SCredit (* [take_credit], when there is one *)
| SResize (request : SubscriptionResizeRequest)
| SNextID (* [next_delivery] *)
| SWindow (inflight : option SessionInflight) (* [take_window], when it is open *)
| SReset (* [reset_outgoing], and the session for a flow frame *)
| SSend (frame : Frame)
| SSubscribe (request : ConsumerGroupSubscribeRequest)
| SDetaching.

Definition s_answer (e : s_call) : Type :=
  match e with
  | SCredit => option Z
  | SNextID => Z
  | SWindow _ => bool
  | SReset => Session
  | SDetaching => unit
  | _ => option go_error
  end.

Definition delivery_transfer (handle deliveryID : Z) (tag : option (list Z)) (settled more : bool) : Transfer :=
  {| Transfer_Handle := handle; Transfer_DeliveryID := deliveryID; Transfer_DeliveryTag := tag; Transfer_MessageFormat := 0;
     Transfer_Settled := settled; Transfer_More := more; Transfer_RcvSettleMode := 0; Transfer_State := None; Transfer_Resume := false;
     Transfer_Aborted := false; Transfer_Batchable := false |}.

(** [strconv.Itoa(int(deliveryID))] *)
Definition delivery_tag (deliveryID : Z) : list Z := string_bytes (pretty deliveryID).

(** What is left of a frame for the payload; a transfer has at most 34 bytes before its tag. *)
Definition approxPayloadMax (frameMax : Z) (tag : list Z) : Z :=
  frameMax - (8 + 1 + 1 + 8 + 1 + 4 + 1 + 4 + 1 + 4 + 1 + 1 + Z.of_nat (length tag) + 1 + 4 + 1 + 1 + 0).

Definition payload_meta (channel : Z) (payload : list Z) : FrameMeta := set_payload payload (v1_meta channel).

(** The loop over the payload; [fuel] bounds its turns. *)
Fixpoint transfer_loop (fuel : nat) (channel max handle deliveryID : Z) (tag : option (list Z)) (settled : bool) (inflight : SessionInflight)
    (buf : list Z) : prog s_answer (result go_error unit) :=
  match buf with
  | [] => mret (Ok ())
  | _ =>
    match fuel with
    | O => mret (Panic "out of fuel")
    | S fuel =>
      if max <? 0 then mret (Panic "slice bounds out of range")
      else
        let payload := take (Z.to_nat max) buf in
        let buf := drop (Z.to_nat max) buf in
        let more := (0 <? length buf)%nat in
        doFlow ← perform (SWindow (if negb settled && bool_decide (is_Some tag) then Some inflight else None));
        err ← perform (SSend (FrameTransfer (payload_meta channel payload) (delivery_transfer handle deliveryID tag settled more)));
        match err with
        | Some e => mret (Err (ErrWrap e "send transfer failed"))
        | None =>
          if doFlow : bool then
            s ← perform SReset;
            err ← perform (SSend (flow_frame s HandleNull 0 0 (v1_meta channel)));
            match err with
            | Some e => mret (Err (ErrWrap e "send flow failed"))
            | None => transfer_loop fuel channel max handle deliveryID None settled inflight buf
            end
          else transfer_loop fuel channel max handle deliveryID None settled inflight buf
        end
    end
  end.

Definition inflight_of (deliveryID : Z) (response : SubscribeResponse) : SessionInflight :=
  {| sf_deliveryID := deliveryID; sf_nodeID := resp_NodeID response; sf_subscriptionID := resp_SubscriptionID response;
     sf_seqNo := resp_SeqNo response |}.

Definition group_Send (channel handle frameMax : Z) (response : SubscribeResponse) : prog s_answer (result go_error unit) :=
  match resp_Message response with
  | None => mret (Panic "nil pointer dereference")
  | Some message =>
    match marshal_message message with
    | Panic msg => mret (Panic msg)
    | Err e => mret (Err e)
    | Ok buf =>
      resize ← perform SCredit;
      err ← match resize with
            | None => mret None
            | Some size => perform (SResize {| rsr_NodeID := resp_NodeID response; rsr_SubscriptionID := resp_SubscriptionID response;
                                               rsr_Size := size; rsr_DoNotForward := false |})
            end;
      match err with
      | Some e => mret (Err (ErrWrap e "resize subscription failed"))
      | None =>
        deliveryID ← perform SNextID;
        let tag := delivery_tag deliveryID in
        transfer_loop (length buf) channel (approxPayloadMax frameMax tag) handle deliveryID (Some tag) (resp_SeqNo response =? 0)
          (inflight_of deliveryID response) buf
      end
    end
  end.

(** [Receive]: a subscription that fails detaches the link. *)
Definition group_Receive (channel : Z) (l : GroupLink) : prog s_answer unit :=
  err ← perform (SSubscribe {| gsr_DoNotForward := false; gsr_Namespace := gl_namespace l; gsr_Name := gl_name l;
    gsr_Size := gl_subscriptionSize l; gsr_AutoAck := gl_autoAck l; gsr_DoNotBlock := false; gsr_MaxMessages := 0 |});
  match err with
  | None => mret ()
  | Some e =>
    perform SDetaching;;
    perform (SSend (detach_frame (gl_handle l) (Some (error_of InternalErrorAMQPError (Error_text e))) (v1_meta channel)));;
    mret ()
  end.

End sender.
