(* ===== verification/AmqpV1SenderProps.v ===== *)
(** * AMQP 1.0: theorems about delivering messages

    What is sent for a message, and how much may be sent. *)
From stdpp Require Import pretty.
From S2P Require Import Prelude Emq Bytes Requests Interaction Broker AmqpValues AmqpV1 AmqpV1Fields AmqpV1Types AmqpV1Transport AmqpV1Total AmqpV1Server AmqpV1ServerProps AmqpV1Assembly AmqpV1Sender.

Abbreviation s_log := (list (call s_answer)).

(** ** The frames of a message *)

(** The payloads: [max] bytes each, but the last. *)
Fixpoint chunks (fuel : nat) (max : nat) (buf : list Z) : list (list Z) :=
  match buf, fuel with
  | [], _ | _, O => []
  | _, S fuel => take max buf :: chunks fuel max (drop max buf)
  end.

(** The frames with these payloads; the delivery tag is in the first one. *)
Fixpoint chunk_frames (channel handle deliveryID : Z) (tag : option (list Z)) (settled : bool) (payloads : list (list Z)) : list (FrameMeta * Transfer) :=
  match payloads with
  | [] => []
  | payload :: payloads =>
    (payload_meta channel payload, delivery_transfer handle deliveryID tag settled (bool_decide (payloads ≠ []))) ::
    chunk_frames channel handle deliveryID None settled payloads
  end.

Definition transfer_of (c : call s_answer) : option (FrameMeta * Transfer) :=
  match projT1 c with
  | SSend (FrameTransfer meta f) => Some (meta, f)
  | _ => None
  end.

(** The transfers of a run, whether they were sent or could not be sent. *)
Definition transfers (log : s_log) : list (FrameMeta * Transfer) := omap transfer_of log.

Definition window_of (c : call s_answer) : option (option SessionInflight) :=
  match projT1 c with
  | SWindow inflight => Some inflight
  | _ => None
  end.

Definition is_credit (c : call s_answer) : option unit :=
  match projT1 c with
  | SCredit => Some ()
  | _ => None
  end.

(** What a run takes from the window of the session; the delivery is recorded with the first transfer. *)
Definition windows (log : s_log) : list (option SessionInflight) := omap window_of log.

Definition credits (log : s_log) : nat := length (omap is_credit log).

(** The delivery identifiers that a run takes. *)
Definition id_taken (c : call s_answer) : option Z :=
  let 'existT e x := c in
  match e return s_answer e → option Z with
  | SNextID => Some
  | _ => λ _, None
  end x.

Definition delivery_ids (log : s_log) : list Z := omap id_taken log.

Lemma chunks_nil fuel max : chunks fuel max [] = [].
Proof. by destruct fuel. Qed.

Lemma chunks_cons fuel max buf : buf ≠ [] → chunks (S fuel) max buf = take max buf :: chunks fuel max (drop max buf).
Proof. by destruct buf. Qed.

Lemma chunks_concat max fuel : ∀ buf, (0 < max)%nat → (length buf ≤ fuel)%nat → concat (chunks fuel max buf) = buf.
Proof.
  induction fuel as [|fuel IH]; intros buf Hm Hf; [by destruct buf; cbn in Hf; [|lia]|].
  destruct (decide (buf = [])) as [->|Hne]; [done|]. rewrite chunks_cons by done. cbn [concat].
  rewrite IH; [apply take_drop|done|]. rewrite length_drop. destruct buf; [done|]. cbn in *. lia.
Qed.

Lemma chunks_length max fuel : ∀ buf, Forall (λ payload, (length payload ≤ max)%nat) (chunks fuel max buf).
Proof.
  induction fuel as [|fuel IH]; intros buf; [by destruct buf; constructor|].
  destruct (decide (buf = [])) as [->|Hne]; [constructor|]. rewrite chunks_cons by done. constructor; [|done].
  rewrite length_take. lia.
Qed.

Lemma chunk_frames_bytes channel handle deliveryID settled payloads : ∀ tag,
  delivery_bytes (chunk_frames channel handle deliveryID tag settled payloads) = concat payloads.
Proof.
  induction payloads as [|payload payloads IH]; intros tag; [done|]. unfold delivery_bytes in *. cbn [chunk_frames fmap list_fmap concat].
  by rewrite IH.
Qed.

Lemma chunk_frames_delivery channel handle deliveryID settled payloads : ∀ tag,
  payloads ≠ [] → delivery handle deliveryID (chunk_frames channel handle deliveryID tag settled payloads).
Proof.
  induction payloads as [|payload payloads IH]; intros tag Hne; [done|]. cbn [chunk_frames delivery]. split; [done|].
  destruct payloads as [|payload' payloads]; [done|]. cbn [chunk_frames]. split; [done|]. by apply IH.
Qed.

(** What is recorded with a transfer. *)
Definition record_of (inflight : SessionInflight) (frame : FrameMeta * Transfer) : option SessionInflight :=
  if negb (Transfer_Settled frame.2) && bool_decide (is_Some (Transfer_DeliveryTag frame.2)) then Some inflight else None.

(** The frames were sent, or the first ones of them when one could not be sent. *)
Definition sends (inflight : SessionInflight) (frames : list (FrameMeta * Transfer)) (log : s_log) (r : result go_error unit) : Prop :=
  transfers log `prefix_of` frames ∧ (r = Ok () → transfers log = frames) ∧ windows log = record_of inflight <$> transfers log ∧
  (∀ msg, r ≠ Panic msg).

Lemma sends_cons inflight frame frames log log' r :
  transfers log = [frame] → windows log = [record_of inflight frame] → sends inflight frames log' r →
  sends inflight (frame :: frames) (log ++ log') r.
Proof.
  unfold sends, transfers, windows. intros Ht Hw (Hp & Hok & Hw' & Hr). rewrite !omap_app, Ht, Hw, Hw'.
  split; [by apply (prefix_app [frame])|]. split; [intros E; by rewrite (Hok E)|done].
Qed.

Lemma sends_stop inflight frame frames log e :
  transfers log = [frame] → windows log = [record_of inflight frame] → sends inflight (frame :: frames) log (Err e).
Proof. intros Ht Hw. rewrite <-(app_nil_r log). apply sends_cons; try done. by split; [apply prefix_nil|]. Qed.

(** The loop takes no credit and no identifier. *)
Lemma transfer_loop_takes channel max handle deliveryID settled inflight fuel : ∀ tag buf,
  always (transfer_loop fuel channel max handle deliveryID tag settled inflight buf) (λ log _, credits log = 0%nat ∧ delivery_ids log = []).
Proof.
  induction fuel as [|fuel IH]; intros tag [|b buf]; cbn [transfer_loop]; [done..|]. destruct (_ <? _); [done|].
  intros doFlow [e|]; [done|]. cbn [always]. destruct doFlow; [intros s [e|]; [done|]|]; (eapply always_mono; [|apply IH]); done.
Qed.

Lemma transfer_loop_sends channel max handle deliveryID settled inflight fuel : ∀ tag buf,
  0 < max → (length buf ≤ fuel)%nat →
  always (transfer_loop fuel channel max handle deliveryID tag settled inflight buf)
    (sends inflight (chunk_frames channel handle deliveryID tag settled (chunks fuel (Z.to_nat max) buf))).
Proof.
  induction fuel as [|fuel IH]; intros tag buf Hm Hf.
  { destruct buf; [|cbn in Hf; lia]. by repeat split. }
  destruct (decide (buf = [])) as [->|Hne]; [by repeat split|]. rewrite chunks_cons by done. cbn [chunk_frames].
  set (rest := drop (Z.to_nat max) buf). assert (length rest ≤ fuel)%nat as Hrest.
  { unfold rest. rewrite length_drop. destruct buf; [done|]. cbn in *. lia. }
  assert (0 <? length rest = bool_decide (chunks fuel (Z.to_nat max) rest ≠ []))%nat as Hmore.
  { pose proof (chunks_concat (Z.to_nat max) fuel rest ltac:(lia) Hrest) as Hc. destruct rest as [|b rest']; [by rewrite chunks_nil|].
    rewrite bool_decide_true; [done|]. intros E. by rewrite E in Hc. }
  destruct buf as [|b buf']; [done|]. cbn [transfer_loop]. destruct (Z.ltb_spec max 0); [lia|]. fold rest. rewrite Hmore.
  set (frame := delivery_transfer _ _ tag _ _). set (payload := take _ _).
  intros doFlow [e|]; [by apply sends_stop|]. cbn [always].
  destruct doFlow.
  - intros s [e|]; [by apply sends_stop|]. cbn [always].
    match goal with |- always _ (λ log' r, sends _ _ (?a :: ?b :: ?c :: ?d :: log') r) =>
      eapply always_mono; [intros log r Hs; exact (sends_cons inflight (payload_meta channel payload, frame) _ [a; b; c; d] log r eq_refl eq_refl Hs)|] end.
    by apply IH.
  - match goal with |- always _ (λ log' r, sends _ _ (?a :: ?b :: log') r) =>
      eapply always_mono; [intros log r Hs; exact (sends_cons inflight (payload_meta channel payload, frame) _ [a; b] log r eq_refl eq_refl Hs)|] end.
    by apply IH.
Qed.

(** ** The size of the frames *)

Lemma marshalUint_length n : (length (marshalUint n) ≤ 5)%nat.
Proof. unfold marshalUint. repeat case_match; cbn -[put_be]; rewrite ?length_put_be; lia. Qed.

Lemma marshal_var_length enc8 enc32 bytes : (length (marshal_var enc8 enc32 bytes) ≤ 5 + length bytes)%nat.
Proof. unfold marshal_var. case_match; cbn -[put_be]; rewrite ?length_app, ?length_put_be; lia. Qed.

Lemma marshal_compound_length enc8 enc32 count items : (length (marshal_compound enc8 enc32 count items) ≤ 9 + length items)%nat.
Proof. unfold marshal_compound. case_match; cbn -[put_be]; rewrite ?length_app, ?length_put_be; cbn; rewrite ?length_app, ?length_put_be; lia. Qed.

Lemma Transfer_count_sent handle deliveryID tag settled more : Transfer_count (delivery_transfer handle deliveryID tag settled more) = 7.
Proof. unfold Transfer_count. cbn -[fields_count Z.eqb]. destruct (deliveryID =? 0), tag, settled, more; reflexivity. Qed.

Lemma Transfer_sent_length handle deliveryID tag settled more : ∃ data,
  Transfer_MarshalBuffer (delivery_transfer handle deliveryID tag settled more) = Ok data ∧ (length data ≤ 32 + length (default [] tag))%nat.
Proof.
  unfold Transfer_MarshalBuffer, marshal_composite. rewrite Transfer_count_sent. unfold Transfer_items.
  set (w1 := optional (negb _) _). set (w2 := optional (negb (is_nil _)) _).
  assert (∃ l1, w1 = Ok l1 ∧ (length l1 ≤ 5)%nat) as (l1 & -> & H1).
  { unfold w1, optional. case_match; eexists; (split; [done|]); [apply marshalUint_length|cbn; lia]. }
  assert (∃ l2, w2 = Ok l2 ∧ (length l2 ≤ 5 + length (default [] tag))%nat) as (l2 & -> & H2).
  { unfold w2, optional. case_match; eexists; (split; [done|]); [apply marshal_var_length|cbn; lia]. }
  assert (∃ b1 b2, optional settled (Ok (marshalBoolean settled)) = Ok [b1] ∧ optional more (Ok (marshalBoolean more)) = Ok [b2]) as (b1 & b2 & E1 & E2).
  { destruct settled, more; by do 2 eexists. }
  cbn -[marshal_compound Handle_MarshalBuffer optional marshalBoolean]. rewrite E1, E2. cbn -[marshal_compound Handle_MarshalBuffer].
  eexists. split; [reflexivity|]. cbn [length app].
  match goal with |- context [marshal_compound ?a ?b ?c ?l] => pose proof (marshal_compound_length a b c l) as H3 end.
  rewrite !length_app in H3. cbn [length] in H3. pose proof (marshalUint_length handle). unfold Handle_MarshalBuffer in *. lia.
Qed.

(** A number below [10 ^ k] has at most [k] digits. *)
Lemma pretty_N_go_length k : ∀ x s, (x < 10 ^ N.of_nat k)%N → (String.length (pretty_N_go x s) ≤ k + String.length s)%nat.
Proof.
  induction k as [|k IH]; intros x s Hx.
  - replace x with 0%N by (cbn in Hx; lia). by rewrite pretty_N_go_0.
  - destruct (decide (x = 0)%N) as [->|Hne]; [rewrite pretty_N_go_0; lia|]. rewrite pretty_N_go_step by lia.
    etrans; [apply IH|cbn; lia]. apply N.Div0.div_lt_upper_bound. replace (N.of_nat (S k)) with (N.succ (N.of_nat k)) in Hx by lia.
    rewrite N.pow_succ_r' in Hx. lia.
Qed.

Lemma delivery_tag_length deliveryID : 0 ≤ deliveryID < 2 ^ 32 → (length (delivery_tag deliveryID) ≤ 10)%nat.
Proof.
  intros Hid. unfold delivery_tag. rewrite length_string_bytes. destruct deliveryID as [|p|p]; [cbn; lia| |lia].
  change (String.length (pretty (Npos p)) ≤ 10)%nat. unfold pretty, pretty_N. rewrite decide_False by done.
  etrans; [apply (pretty_N_go_length 10)|cbn; lia]. cbn. lia.
Qed.

(** The frames fit: the transport does not refuse them. *)
Lemma transfer_fits t channel payload handle deliveryID tag settled more :
  (length (default [] tag) ≤ length (delivery_tag deliveryID))%nat → t_frameMax t < 2 ^ 32 →
  Z.of_nat (length payload) ≤ approxPayloadMax (t_frameMax t) (delivery_tag deliveryID) →
  ∃ t', AmqpV1Transport.Send t (Some (FrameTransfer (payload_meta channel payload) (delivery_transfer handle deliveryID tag settled more))) = Ok t'.
Proof.
  intros Htag Hmax Hp. destruct (Transfer_sent_length handle deliveryID tag settled more) as (data & Hd & Hl).
  unfold AmqpV1Transport.Send. cbn [GetFrameMeta Frame_MarshalBuffer]. rewrite Hd. cbn [mbind result_bind Wrap payload_meta set_payload Payload].
  unfold approxPayloadMax in Hp. rewrite (u32_small (Z.of_nat (length data))), (u32_small (Z.of_nat (length payload))),
    (u32_small (8 + Z.of_nat (length data))), u32_small by (unfold MaxUint32; lia).
  destruct (Z.ltb_spec (t_frameMax t) (8 + Z.of_nat (length data) + Z.of_nat (length payload))); [lia|]. by eexists.
Qed.

(** ** [Send] *)

Section send.

Context `{TimeParse}.

Lemma marshal_message_not_empty m buf : marshal_message m = Ok buf → buf ≠ [].
Proof.
  unfold marshal_message. intros (la & lb & Ha & _ & ->)%wapp_Ok. unfold Properties_MarshalBuffer, marshal_composite in Ha.
  destruct (_ +++ _) as [l|e|msg] eqn:E; [|done..]. apply wapp_Ok in E as (l1 & l2 & [= <-] & _ & ->). by injection Ha as <-.
Qed.

(** What is sent for one message with the identifier [deliveryID]. *)
Record delivered (t : Transport) (handle deliveryID : Z) (response : SubscribeResponse) (buf : list Z) (log : s_log) (r : result go_error unit)
    (frames : list (FrameMeta * Transfer)) : Prop := {
  dl_delivery : delivery handle deliveryID frames;
  dl_bytes : delivery_bytes frames = buf;
  dl_fits : ∀ meta f, (meta, f) ∈ frames → ∃ t', AmqpV1Transport.Send t (Some (FrameTransfer meta f)) = Ok t';
  dl_settled : ∀ meta f, (meta, f) ∈ frames → Transfer_Settled f = (resp_SeqNo response =? 0);
  dl_part : transfers log `prefix_of` frames;
  dl_all : r = Ok () → transfers log = frames;
  dl_windows : length (windows log) = length (transfers log);
  dl_inflight : omap id (windows log) = if (resp_SeqNo response =? 0) || bool_decide (transfers log = []) then [] else [inflight_of deliveryID response];
  dl_total : ∀ msg, r ≠ Panic msg;
}.

Lemma chunk_frames_in channel handle deliveryID settled payloads : ∀ tag meta f,
  (meta, f) ∈ chunk_frames channel handle deliveryID tag settled payloads → ∃ payload tag' more, payload ∈ payloads ∧ (tag' = tag ∨ tag' = None) ∧
    meta = payload_meta channel payload ∧ f = delivery_transfer handle deliveryID tag' settled more.
Proof.
  induction payloads as [|payload payloads IH]; intros tag meta f; cbn [chunk_frames]; [by intros ?%elem_of_nil|].
  intros [[= -> ->]|Hin]%elem_of_cons.
  - eexists payload, tag, _. split; [by left|]. by split; [left|].
  - destruct (IH _ _ _ Hin) as (p & tag' & more & Hp & Ht & Hm & Hf). exists p, tag', more. split; [by right|]. split; [tauto|done].
Qed.

(** Only the first frame is recorded. *)
Lemma records_rest inflight channel handle deliveryID settled payloads frames :
  frames `prefix_of` chunk_frames channel handle deliveryID None settled payloads → omap id (record_of inflight <$> frames) = [].
Proof.
  revert frames. induction payloads as [|payload payloads IH]; intros frames Hf; cbn [chunk_frames] in Hf.
  - by apply prefix_nil_inv in Hf as ->.
  - destruct frames as [|frame frames]; [done|]. pose proof (prefix_cons_inv_1 _ _ _ _ Hf) as ->. apply prefix_cons_inv_2 in Hf.
    cbn [fmap list_fmap]. unfold record_of at 1. cbn. rewrite andb_false_r. by apply IH.
Qed.

Lemma records_first inflight channel handle deliveryID tag settled payloads frames :
  frames `prefix_of` chunk_frames channel handle deliveryID (Some tag) settled payloads →
  omap id (record_of inflight <$> frames) = if settled || bool_decide (frames = []) then [] else [inflight].
Proof.
  destruct payloads as [|payload payloads]; intros Hf; cbn [chunk_frames] in Hf.
  - apply prefix_nil_inv in Hf as ->. by rewrite orb_true_r.
  - destruct frames as [|frame frames]; [by rewrite orb_true_r|]. pose proof (prefix_cons_inv_1 _ _ _ _ Hf) as ->. apply prefix_cons_inv_2 in Hf.
    rewrite orb_false_r. pose proof (records_rest inflight _ _ _ _ _ _ Hf) as Hr. cbn [fmap list_fmap]. unfold record_of at 1. cbn.
    rewrite andb_true_r. destruct settled; cbn; by rewrite Hr.
Qed.

Lemma delivery_id_taken t channel handle deliveryID response buf log r :
  53 ≤ t_frameMax t < 2 ^ 32 → 0 ≤ deliveryID < 2 ^ 32 → buf ≠ [] →
  let frames := chunk_frames channel handle deliveryID (Some (delivery_tag deliveryID)) (resp_SeqNo response =? 0)
    (chunks (length buf) (Z.to_nat (approxPayloadMax (t_frameMax t) (delivery_tag deliveryID))) buf) in
  sends (inflight_of deliveryID response) frames log r → delivered t handle deliveryID response buf log r frames.
Proof.
  intros Hmax Hid Hne frames (Hp & Hok & Hw & Hr). pose proof (delivery_tag_length deliveryID Hid) as Htag.
  set (max := approxPayloadMax (t_frameMax t) (delivery_tag deliveryID)) in *.
  assert (0 < max) as Hpos by (unfold max, approxPayloadMax in *; lia).
  pose proof (chunks_concat (Z.to_nat max) (length buf) buf ltac:(lia) ltac:(lia)) as Hc.
  split; try done.
  - apply chunk_frames_delivery. intros E. rewrite E in Hc. by cbn in Hc.
  - unfold frames. by rewrite chunk_frames_bytes.
  - intros meta f (payload & tag & more & Hin & Ht & -> & ->)%chunk_frames_in. apply transfer_fits; [by destruct Ht as [-> | ->]; cbn; lia|lia|].
    pose proof (chunks_length (Z.to_nat max) (length buf) buf) as Hl. rewrite Forall_forall in Hl. specialize (Hl payload Hin). fold max. lia.
  - by intros meta f (payload & tag & more & _ & _ & _ & ->)%chunk_frames_in.
  - by rewrite Hw, length_fmap.
  - rewrite Hw. by eapply records_first.
Qed.

(** (C6) What is sent for a message.  One credit of the link is taken; the transfers that follow are the frames of one
    delivery whose payloads are, together, the bytes of the message, and each fits in the frames that the client
    accepts (the frame that opens the connection alone takes more than 53 bytes).  Every transfer was taken from the window of the session, and a delivery that is not settled was recorded
    once.  When a call fails, what was sent is the beginning of this. *)
Theorem v1_delivery_exact t channel handle response message buf :
  resp_Message response = Some message → marshal_message message = Ok buf → 53 ≤ t_frameMax t < 2 ^ 32 →
  always (group_Send channel handle (t_frameMax t) response) (λ log r, credits log = 1%nat ∧
    match delivery_ids log with
    | [] => transfers log = [] ∧ r ≠ Ok ()
    | deliveryID :: ids => ids = [] ∧ (0 ≤ deliveryID < 2 ^ 32 → ∃ frames, delivered t handle deliveryID response buf log r frames)
    end).
Proof.
  intros Hm Hb Hmax. unfold group_Send. rewrite Hm, Hb. pose proof (marshal_message_not_empty _ _ Hb) as Hne.
  intros [size|]; [intros [e|]|]; [done|..]; intros deliveryID; cbn [always].
  all: destruct (decide (0 ≤ deliveryID < 2 ^ 32)) as [Hid|Hid]; [|eapply always_mono; [|apply transfer_loop_takes];
    intros log r [Hc Hi]; cbn; unfold credits, delivery_ids in Hc, Hi; rewrite Hi, Hc; by split].
  all: eapply always_mono; [|apply always_and; [apply transfer_loop_takes|
    apply transfer_loop_sends; [pose proof (delivery_tag_length deliveryID Hid); unfold approxPayloadMax in *; lia|done]]].
  all: intros log r [[Hc Hi] Hs]; cbn; unfold credits, delivery_ids in Hc, Hi; rewrite Hi, Hc; (split; [done|]); (split; [done|]);
    intros _; eexists; by apply (delivery_id_taken t channel).
Qed.

End send.

#[local] Instance no_parse : TimeParse := λ _, (0, None).

(** A message of three bytes, which is not settled. *)
Definition sample_response : SubscribeResponse :=
  {| resp_NodeID := 1; resp_SubscriptionID := 2; resp_SeqNo := 3; resp_TopicNamespace := ""; resp_TopicName := "";
     resp_Message := Some {| RoutingKey := "key"; Emq.Properties := None; Headers := None; Data := [1; 2; 3] |} |}.

Lemma v1_delivery_exact_witness :
  let buf := [0; 83; 115; 192; 9; 4; 64; 64; 64; 161; 3; 107; 101; 121; 0; 83; 117; 160; 3; 1; 2; 3] in
  always (group_Send 0 1 MinMaxFrameSize sample_response) (λ log r, credits log = 1%nat ∧
    match delivery_ids log with
    | [] => transfers log = [] ∧ r ≠ Ok ()
    | deliveryID :: ids => ids = [] ∧ (0 ≤ deliveryID < 2 ^ 32 → ∃ frames, delivered (NewTransport []) 1 deliveryID sample_response buf log r frames)
    end).
Proof.
  intros buf. apply (v1_delivery_exact (NewTransport []) 0 1 sample_response {| RoutingKey := "key"; Emq.Properties := None; Headers := None; Data := [1; 2; 3] |});
    [reflexivity|vm_compute; reflexivity|vm_compute; split; [discriminate|reflexivity]].
Defined.
