(* ===== verification/AmqpV1Flow.v ===== *)
(** * AMQP 1.0: flow control

    The credit of a link and the window of a session limit what is sent.  Several goroutines change them, each step while
    it holds a lock; a history is a list of steps in any order.  Settling deliveries is in this file too: it changes
    what the senders of a session recorded. *)
From S2P Require Import Prelude Bytes Requests Interaction Broker AmqpValues AmqpV1 AmqpV1Fields AmqpV1Types AmqpV1Transport AmqpV1Server AmqpV1ServerProps AmqpV1Sender.

(** ** Steps *)

(** The steps of the senders of a session, of which one is the sender of the link, and of the loop of the connection. *)
Inductive flow_step : Type :=
| StepCredit
| StepNextID
| StepWindow (inflight : option SessionInflight)
| StepReset
| StepIncoming (nextIncomingID incomingWindow remoteOutgoingWindow : Z)
| StepSettled (inflight : list SessionInflight).

(** A step has no result while the code waits. *)
Definition take_step (step : flow_step) (x : GroupLink * Session) : option (GroupLink * Session) :=
  let '(l, s) := x in
  match step with
  | StepCredit => '(l, _) ← take_credit l; Some (l, s)
  | StepNextID => Some (l, (next_delivery s).1)
  | StepWindow inflight => '(s, _) ← take_window inflight s; Some (l, s)
  | StepReset => Some (l, reset_outgoing s)
  | StepIncoming a w b => Some (l, set_incoming a w b s)
  | StepSettled inflight =>
    Some (l, set_outgoing (ss_nextOutgoingID s) (ss_outgoingWindow s) (ss_remoteIncomingWindow s) (ss_deliveryID s) inflight s)
  end.

Fixpoint take_steps (steps : list flow_step) (x : GroupLink * Session) : option (GroupLink * Session) :=
  match steps with
  | [] => Some x
  | step :: steps => x ← take_step step x; take_steps steps x
  end.

(** The deliveries and the transfers of a history. *)
Definition is_delivery (step : flow_step) : bool := match step with StepCredit => true | _ => false end.
Definition is_transfer (step : flow_step) : bool := match step with StepWindow _ => true | _ => false end.
Definition count_steps (p : flow_step → bool) (steps : list flow_step) : Z := Z.of_nat (length (base.filter (λ step, p step = true) steps)).

Lemma count_steps_cons p step steps : count_steps p (step :: steps) = (if p step then 1 else 0) + count_steps p steps.
Proof. unfold count_steps. rewrite filter_cons. destruct (p step); [rewrite decide_True by done; cbn [length]; lia|by rewrite decide_False]. Qed.

Lemma count_steps_pos p steps : 0 ≤ count_steps p steps.
Proof. unfold count_steps. lia. Qed.

Lemma u32_add_l a b : u32 (u32 a + b) = u32 (a + b).
Proof. unfold u32, wrap. by rewrite Zplus_mod_idemp_l. Qed.

Lemma u32_idem a : u32 (u32 a) = u32 a.
Proof. unfold u32, wrap. by rewrite Zmod_mod. Qed.

Lemma u32_range a : 0 ≤ u32 a < 2 ^ 32.
Proof. unfold u32, wrap. by apply Z.mod_pos_bound. Qed.

(** Every delivery takes a credit, and every transfer a place in the window. *)
Lemma take_steps_exact steps : ∀ l s l' s',
  0 ≤ gl_linkCredit l < 2 ^ 32 → 0 ≤ ss_remoteIncomingWindow s < 2 ^ 32 → take_steps steps (l, s) = Some (l', s') →
  gl_linkCredit l' = gl_linkCredit l - count_steps is_delivery steps ∧ 0 ≤ gl_linkCredit l' ∧
  u32 (gl_deliveryCount l') = u32 (gl_deliveryCount l + count_steps is_delivery steps) ∧
  ss_remoteIncomingWindow s' = ss_remoteIncomingWindow s - count_steps is_transfer steps ∧ 0 ≤ ss_remoteIncomingWindow s' ∧
  u32 (ss_nextOutgoingID s') = u32 (ss_nextOutgoingID s + count_steps is_transfer steps).
Proof.
  induction steps as [|step steps IH]; intros l s l' s' Hl Hs.
  { intros [= <- <-]. unfold count_steps. cbn. rewrite !Z.add_0_r, !Z.sub_0_r. lia. }
  cbn [take_steps]. destruct (take_step step (l, s)) as [[l1 s1]|] eqn:E; [|done]. intros Ht. rewrite !count_steps_cons.
  assert (gl_linkCredit l1 = gl_linkCredit l - (if is_delivery step then 1 else 0) ∧ 0 ≤ gl_linkCredit l1 ∧
    u32 (gl_deliveryCount l1) = u32 (gl_deliveryCount l + if is_delivery step then 1 else 0) ∧
    ss_remoteIncomingWindow s1 = ss_remoteIncomingWindow s - (if is_transfer step then 1 else 0) ∧ 0 ≤ ss_remoteIncomingWindow s1 ∧
    u32 (ss_nextOutgoingID s1) = u32 (ss_nextOutgoingID s + if is_transfer step then 1 else 0)) as (H1 & H2 & H3 & H4 & H5 & H6).
  { destruct step; cbn in E; unfold take_credit, take_window in E.
    1: destruct (Z.eqb_spec (gl_linkCredit l) 0) as [|Hne]; [done|]; injection E as <- <-.
    3: destruct (Z.eqb_spec (ss_remoteIncomingWindow s) 0) as [|Hne]; [done|]; injection E as <- <-.
    2, 4-6: injection E as <- <-.
    all: cbn; rewrite ?Z.add_0_r, ?Z.sub_0_r, ?(u32_small (_ - 1)) by (unfold MaxUint32; lia);
      repeat split; try lia; apply u32_idem. }
  assert (0 ≤ (if is_delivery step then 1 else 0)) as Hd by (by destruct (is_delivery step)).
  assert (0 ≤ (if is_transfer step then 1 else 0)) as Hw by (by destruct (is_transfer step)).
  destruct (IH l1 s1 l' s') as (I1 & I2 & I3 & I4 & I5 & I6); [lia..|done|].
  rewrite I3, I6, <-u32_add_l, H3, u32_add_l, <-(u32_add_l (ss_nextOutgoingID s1)), H6, u32_add_l.
  repeat split; try lia; f_equal; lia.
Qed.

(** What was granted, of which [used] is used already. *)
Lemma granted_credit base granted used : 0 ≤ granted < 2 ^ 32 → u32 (used - base) ≤ granted → u32 (base + granted - used) = granted - u32 (used - base).
Proof.
  intros Hg Hu. pose proof (u32_range (used - base)). rewrite <-(u32_small (granted - u32 (used - base))) by (unfold MaxUint32; lia).
  unfold u32, wrap. rewrite Zminus_mod_idemp_r. f_equal. lia.
Qed.

(** What is used after [n] more, which were taken from what was left. *)
Lemma granted_used base granted used used' n :
  0 ≤ granted < 2 ^ 32 → u32 used' = u32 (used + n) → 0 ≤ n ≤ granted - u32 (used - base) → u32 (used' - base) = u32 (used - base) + n.
Proof.
  intros Hg Hu Hn. pose proof (u32_range (used - base)) as Hr. rewrite <-(u32_small (u32 (used - base) + n)) by (unfold MaxUint32; lia).
  rewrite u32_add_l. replace (used' - base) with (used' + - base) by lia. rewrite <-u32_add_l, Hu, u32_add_l. f_equal. lia.
Qed.

(** The identifier that the window of a flow frame counts from. *)
Definition flow_base (frame : Flow) (s : Session) : Z :=
  if Flow_NextIncomingID frame =? TransferNumberNull then ss_initialOutgoingID s else Flow_NextIncomingID frame.

(** What may be used after a flow frame that grants [granted] from a count at which [used] of it are used: the rest, or,
    if the frame grants less than what is used already, what is left of it modulo 2^32. *)
Definition may_use (granted used : Z) : Z := if granted <? used then 2 ^ 32 - (used - granted) else granted - used.

Lemma may_use_exact base granted used : 0 ≤ granted < 2 ^ 32 → u32 (base + granted - used) = may_use granted (u32 (used - base)).
Proof.
  intros Hg. unfold may_use. pose proof (u32_range (used - base)).
  destruct (Z.ltb_spec granted (u32 (used - base))); [|by apply granted_credit].
  rewrite <-(u32_small (2 ^ 32 - (u32 (used - base) - granted))) by (unfold MaxUint32; lia).
  replace (2 ^ 32 - (u32 (used - base) - granted)) with (granted - u32 (used - base) + 1 * 2 ^ 32) by lia.
  unfold u32, wrap. rewrite Z_mod_plus_full, Zminus_mod_idemp_r. f_equal. lia.
Qed.

(** (C8) What a sender makes of a flow frame of the client, until the next one, in any order of the steps of all senders and of the
    loop of the connection.  It makes at most as many deliveries on the link, and transfers on the session, as it may, and waits
    exactly when it has made them all.  If the credit of the frame covers the deliveries that the client had not counted, then these
    and the new ones never exceed the credit, and a sender waits exactly when they are equal to it; the same holds of
    the window and the transfers.  If the frame grants less than what is used already, then the sender is not stopped: it may go on for 2^32
    less the excess, since the code subtracts without a check. *)
Theorem v1_flow_control frame l s steps l' s' :
  0 ≤ Flow_LinkCredit frame < 2 ^ 32 → 0 ≤ Flow_IncomingWindow frame < 2 ^ 32 →
  take_steps steps (group_Flow frame l, session_Flow frame s) = Some (l', s') →
  let credit := Flow_LinkCredit frame in let window := Flow_IncomingWindow frame in
  let delivered := u32 (gl_deliveryCount l - Flow_DeliveryCount frame) in
  let transferred := u32 (ss_nextOutgoingID s - flow_base frame s) in
  let deliveries := count_steps is_delivery steps in let transfers := count_steps is_transfer steps in
  (deliveries ≤ may_use credit delivered ∧ (take_credit l' = None ↔ deliveries = may_use credit delivered)) ∧
  (transfers ≤ may_use window transferred ∧ (∀ inflight, take_window inflight s' = None ↔ transfers = may_use window transferred)) ∧
  (delivered ≤ credit →
     let delivered' := u32 (gl_deliveryCount l' - Flow_DeliveryCount frame) in
     delivered' = delivered + deliveries ∧ delivered' ≤ credit ∧ (take_credit l' = None ↔ delivered' = credit)) ∧
  (transferred ≤ window →
     let transferred' := u32 (ss_nextOutgoingID s' - flow_base frame s) in
     transferred' = transferred + transfers ∧ transferred' ≤ window ∧ (∀ inflight, take_window inflight s' = None ↔ transferred' = window)).
Proof.
  intros Hc Hw Hsteps credit window delivered transferred deliveries transfers.
  assert (ss_remoteIncomingWindow (session_Flow frame s) = u32 (flow_base frame s + Flow_IncomingWindow frame - ss_nextOutgoingID s)) as Es by done.
  destruct (take_steps_exact steps (group_Flow frame l) (session_Flow frame s) l' s'
    (u32_range (_ + _ - _)) ltac:(rewrite Es; apply u32_range) Hsteps) as (H1 & H2 & H3 & H4 & H5 & H6).
  cbn [group_Flow set_group_credit gl_linkCredit gl_deliveryCount] in H1, H3. rewrite Es in H4. rewrite (may_use_exact _ _ _ Hc) in H1.
  rewrite (may_use_exact _ _ _ Hw) in H4. change (ss_nextOutgoingID (session_Flow frame s)) with (ss_nextOutgoingID s) in H6.
  fold credit delivered deliveries in H1, H3. fold window transferred transfers in H4, H6.
  pose proof (count_steps_pos is_delivery steps : 0 ≤ deliveries). pose proof (count_steps_pos is_transfer steps : 0 ≤ transfers).
  assert (take_credit l' = None ↔ deliveries = may_use credit delivered) as Hcredit.
  { unfold take_credit. destruct (Z.eqb_spec (gl_linkCredit l') 0); split; [lia|done|done|lia]. }
  assert (∀ inflight, take_window inflight s' = None ↔ transfers = may_use window transferred) as Hwindow.
  { intros inflight. unfold take_window. destruct (Z.eqb_spec (ss_remoteIncomingWindow s') 0); split; [lia|done|done|lia]. }
  split; [split; [lia|done]|]. split; [split; [lia|done]|]. unfold may_use in *. split; intros Hle; cbv zeta.
  - destruct (Z.ltb_spec credit delivered); [lia|].
    assert (u32 (gl_deliveryCount l' - Flow_DeliveryCount frame) = delivered + deliveries) as -> by (eapply granted_used; [apply Hc|done|unfold credit, delivered in *; lia]).
    rewrite Hcredit. split_and!; lia.
  - destruct (Z.ltb_spec window transferred); [lia|].
    assert (u32 (ss_nextOutgoingID s' - flow_base frame s) = transferred + transfers) as -> by (eapply granted_used; [apply Hw|done|unfold window, transferred in *; lia]).
    split_and!; [done|lia|]. intros inflight. rewrite Hwindow. lia.
Qed.

(** Five deliveries are granted, in a window of two transfers. *)
Definition sample_flow : Flow :=
  {| Flow_NextIncomingID := 0; Flow_IncomingWindow := 2; Flow_NextOutgoingID := 0; Flow_OutgoingWindow := 0; Flow_Handle := 1;
     Flow_DeliveryCount := 0; Flow_LinkCredit := 5; Flow_Available := 0; Flow_Drain := false; Flow_Echo := false; Flow_Properties := None |}.

Definition sample_begin1 : Begin :=
  {| Begin_RemoteChannel := 0; Begin_NextOutgoingID := 0; Begin_IncomingWindow := 0; Begin_OutgoingWindow := 0; Begin_HandleMax := 1;
     Begin_OfferedCapabilities := None; Begin_DesiredCapabilities := None; Begin_Properties := None |}.

Definition sample_group : GroupLink :=
  {| gl_state := linkStateReady; gl_handle := 1; gl_role := SenderRole; gl_deliveryCount := 0; gl_linkCredit := 0; gl_namespace := "default";
     gl_name := "group"; gl_autoAck := false; gl_subscriptionSize := 1 |}.

Definition sample_steps : list flow_step := [StepCredit; StepNextID; StepWindow None; StepWindow None].

Lemma v1_flow_control_witness :
  let s := new_session 0 sample_begin1 "default" in
  ∃ l' s', take_steps sample_steps (group_Flow sample_flow sample_group, session_Flow sample_flow s) = Some (l', s') ∧
    u32 (gl_deliveryCount l' - 0) = 1 ∧ u32 (ss_nextOutgoingID s' - 0) = 2 ∧ ∀ inflight, take_window inflight s' = None.
Proof.
  intros s. eexists _, _. split; [reflexivity|]. split; [reflexivity|]. split; [reflexivity|].
  destruct (v1_flow_control sample_flow sample_group s sample_steps _ _ ltac:(done) ltac:(done) eq_refl) as (_ & (_ & Hw) & _).
  intros inflight. by apply Hw.
Defined.

(** ** Settling deliveries *)

(** Whether a disposition is about a delivery, as the loop decides. *)
Definition in_range (frame : Disposition) (m : SessionInflight) : bool :=
  (Disposition_First frame <=? sf_deliveryID m) && ((Disposition_Last frame =? 0) || (sf_deliveryID m <=? Disposition_Last frame)).

(** A disposition without its last identifier, which the protocol says is then the first one, is about all later deliveries. *)
Lemma omitted_last_settles_all frame m : Disposition_Last frame = 0 → in_range frame m = (Disposition_First frame <=? sf_deliveryID m).
Proof. intros Hl. unfold in_range. rewrite Hl. cbn. by rewrite andb_true_r. Qed.

Definition accepted_disposition (first last : Z) : Disposition :=
  {| Disposition_Role := ReceiverRole; Disposition_First := first; Disposition_Last := last; Disposition_Settled := true;
     Disposition_State := Some (DeliveryAccepted MkAccepted); Disposition_Batchable := false |}.

(** A disposition that is about no delivery panics. *)
Lemma disposition_unknown_panics first last s :
  Forall (λ m, sf_deliveryID m < first) (ss_inflight s) →
  session_Disposition (accepted_disposition first last) s = Ret (s, Panic "slice bounds out of range").
Proof.
  intros Hlt. assert (∀ l i, Forall (λ m, sf_deliveryID m < first) l →
    disposition_loop (accepted_disposition first last) l i None s = Ret (s, Ok (inl None))) as Hloop.
  { induction l as [|m l IH]; intros i Hl; [done|]. inversion_clear Hl. cbn [disposition_loop]. cbn [accepted_disposition Disposition_First].
    destruct (Z.ltb_spec (sf_deliveryID m) first); [by apply IH|lia]. }
  unfold session_Disposition. cbn [accepted_disposition Disposition_Role Disposition_Settled negb Bool.eqb ReceiverRole].
  unfold mbind, method_bind, get. cbn [prog_bind_aux]. by rewrite (Hloop (ss_inflight s) 0%nat Hlt).
Qed.

(** The last delivery that was settled is still recorded. *)
Lemma disposition_keeps_last m s :
  ss_inflight s = [m] →
  always (session_Disposition (accepted_disposition (sf_deliveryID m) (sf_deliveryID m)) s) (λ log x,
    ∃ err, hd_error log = Some (existT (DoAck (inflight_request m)) err) ∧ ss_inflight x.1 = [m]).
Proof.
  intros Hm. unfold session_Disposition. cbn [accepted_disposition Disposition_Role Disposition_Settled negb Bool.eqb ReceiverRole].
  apply always_method_bind. cbn [always get app]. apply always_method_bind. rewrite Hm. cbn [disposition_loop accepted_disposition Disposition_First Disposition_Last].
  rewrite Z.ltb_irrefl, andb_false_r. intros [e|]; cbn.
  - intros [e'|]; cbn; by exists (Some e).
  - by exists None.
Qed.

(** A flow frame that takes credit back grants almost all there is. *)
Lemma lowered_credit_wraps :
  gl_linkCredit (group_Flow {| Flow_NextIncomingID := 0; Flow_IncomingWindow := 2; Flow_NextOutgoingID := 0; Flow_OutgoingWindow := 0; Flow_Handle := 1;
     Flow_DeliveryCount := 0; Flow_LinkCredit := 0; Flow_Available := 0; Flow_Drain := false; Flow_Echo := false; Flow_Properties := None |}
    (set_group_credit 1 4 5 sample_group)) = 2 ^ 32 - 1.
Proof. reflexivity. Qed.
