(* ===== verification/AmqpV1Relay.v ===== *)
(** * AMQP 1.0: a message that is delivered can be published

    The bytes that a link to a consumer group sends for a message are read back by a link to a topic. *)
From stdpp Require Import pretty.
From S2P Require Import Prelude Emq Bytes Requests Interaction Broker AmqpValues AmqpV1 AmqpV1Laws AmqpV1Fields AmqpV1Types AmqpV1TypesLaws AmqpV1Transport AmqpV1Props AmqpV1Total AmqpV1Server AmqpV1ServerProps AmqpV1Assembly AmqpV1Sender.

#[export] Instance Message_Properties_eq_dec : EqDecision Message_Properties.
Proof. solve_decision. Defined.

(** The properties that AMQP 1.0 has; an expiration is not sent. *)
Definition kept_properties (p : Message_Properties) : Message_Properties :=
  {| ContentType := ContentType p; ContentEncoding := ContentEncoding p; DeliveryMode := 0; Priority := 0; CorrelationID := CorrelationID p;
     ReplyTo := ReplyTo p; Expiration := ""; Emq.MessageID := Emq.MessageID p; Timestamp := Timestamp p; MsgType := ""; UserID := UserID p;
     AppID := ""; To := To p; GroupID := GroupID p; GroupSequence := GroupSequence p; ReplyToGroupID := ReplyToGroupID p |}.

(** What is left of a message; properties that are all empty are none. *)
Definition relayed (m : EmqMessage) : EmqMessage :=
  {| RoutingKey := RoutingKey m;
     Emq.Properties := p ← Emq.Properties m; if decide (kept_properties p = emq_no_properties) then None else Some (kept_properties p);
     Headers := struct_canon <$> Headers m;
     Data := Data m |}.

(** The values that AMQP 1.0 can carry: symbols of at most 255 bytes, whole milliseconds, 32 bits for the group sequence,
    and numbers that are not infinite and fit an int64 if they are whole. *)
Record relayable (m : EmqMessage) : Prop := {
  ry_properties p : Emq.Properties m = Some p →
    is_symbol (ContentType p) ∧ is_symbol (ContentEncoding p) ∧ is_time (Timestamp p) ∧ is_uint32 (GroupSequence p);
  ry_headers : table_exact (Headers m) = true;
}.

(** A text, or a number, that is none. *)
#[local] Ltac by_empty :=
  match goal with
  | |- ?x = ""%string => first [by apply dec_stable | apply String.eqb_eq; by apply negb_false_iff |
      match goal with Hn : ¬ is_Some (if (?x =? "")%string then None else _) |- _ => destruct (String.eqb_spec x ""); [done|]; by destruct Hn end]
  | |- ?x = 0 => apply Z.eqb_eq; by apply negb_false_iff
  end.

Section relay.

Context `{TimeFormat, TimeParse, !TimeParseLaw}.

Lemma send_expiry p : (if (Expiration p =? "")%string then 0 else match time_Parse (Expiration p) with (t, Some _) => t | (_, None) => 0 end) = 0.
Proof. destruct (_ =? _)%string; [done|]. destruct (time_Parse (Expiration p)) as [t [e|]] eqn:E; [by eapply time_Parse_zero|done]. Qed.

Lemma id_text s : from_option MessageID_text "" (id_of s) = s.
Proof. unfold id_of. by destruct (String.eqb_spec s "") as [->|]. Qed.

Lemma address_text s : from_option Address_text "" (address_of s) = s.
Proof. unfold address_of. by destruct (String.eqb_spec s "") as [->|]. Qed.

Lemma id_of_None s : is_Some (id_of s) ↔ s ≠ "".
Proof. unfold id_of. destruct (String.eqb_spec s "") as [->|]; split; [by intros []|done|done|by eexists]. Qed.

Lemma address_of_None s : is_Some (address_of s) ↔ s ≠ "".
Proof. unfold address_of. destruct (String.eqb_spec s "") as [->|]; split; [by intros []|done|done|by eexists]. Qed.

(** The properties of a section that was sent. *)
Lemma message_properties_sent m p :
  Emq.Properties m = Some p → is_uint32 (GroupSequence p) →
  message_properties (send_properties m) = if decide (kept_properties p = emq_no_properties) then None else Some (kept_properties p).
Proof.
  intros Hp Hg. unfold send_properties. rewrite Hp, send_expiry. unfold message_properties. cbn -[kept_properties].
  rewrite !id_text, !address_text, u32_small by (unfold is_uint32, MaxUint32 in *; lia).
  replace (from_option bytes_string "" (if (UserID p =? "")%string then None else Some (string_bytes (UserID p)))) with (UserID p)
    by (destruct (String.eqb_spec (UserID p) "") as [->|]; [done|cbn; by rewrite string_bytes_roundtrip]).
  fold (kept_properties p).
  match goal with |- (if ?b then _ else _) = _ => destruct b eqn:Hb end; (destruct (decide _) as [E|E]; [|done]) || (rewrite decide_True; [done|]).
  - exfalso. injection E as E1 E2 E3 E4 E5 E6 E7 E8 E9 E10 E11. rewrite E1, E2, E3, E4, E5, E6, E7, E8, E9, E10, E11 in Hb. done.
  - rewrite !orb_false_iff, !bool_decide_eq_false, !id_of_None, !address_of_None in Hb. destruct Hb as (((((((((((?&?)&?)&?)&?)&?)&?)&?)&?)&?)&?)&?).
    unfold kept_properties, emq_no_properties. f_equal; by_empty.
Qed.

(** A section that was written is read. *)
Lemma parse_section fuel section l rest m :
  Section_ok section → Section_MarshalBuffer section = Ok l → Z.of_nat (length l) < 2 ^ 32 →
  parse_message (S fuel) (l ++ rest) m = parse_message fuel rest (apply_section (Section_canon section) m).
Proof.
  intros Hok Hm Hl. pose proof (Section_law section Hok l Hm Hl rest) as Hd. cbn [parse_message].
  destruct (l ++ rest) as [|b bytes] eqn:E; [by vm_compute in Hd|]. by rewrite Hd.
Qed.

Lemma parse_nil fuel m : parse_message fuel [] m = Ok m.
Proof. by destruct fuel. Qed.

Lemma send_properties_ok m : relayable m → Properties_ok (send_properties m).
Proof.
  intros [Hp _]. unfold send_properties. destruct (Emq.Properties m) as [p|]; [|by repeat split; try (left; done)].
  destruct (Hp p eq_refl) as (Ht & He & Hs & Hg). rewrite send_expiry. unfold Properties_ok, id_of. cbn.
  repeat split; try done; try (by repeat case_match); try (by left); apply Hg.
Qed.

(** An expiration that can be parsed is not sent: the condition on the error of [time.Parse] is the wrong way round. *)
Lemma expiration_not_sent m : Properties_AbsoluteExpiryTime (send_properties m) = 0.
Proof. unfold send_properties. destruct (Emq.Properties m) as [p|]; [apply send_expiry|done]. Qed.

(** (C22) A message that was delivered over AMQP 1.0 and is published again is the same message, as far as AMQP 1.0 can carry it.  The bytes that a link
    to a consumer group sends are read by a link to a topic as a message with the same routing key and data,
    the headers in their canonical form (no negative zero, empty maps and lists for nil ones),
    and the same properties except the expiration, the delivery mode, the priority, the type and the application identifier, which are lost; properties that
    are then all empty become none.  The conditions are those of [relayable], and that the encoding has less than 4 GiB: the content type and the content
    encoding have at most 255 bytes (longer ones are corrupted), the timestamp is zero or a whole number of
    milliseconds since 1970, the group sequence fits 32 bits, and the numbers in the headers are not infinite and the whole
    ones fit an int64. *)
Theorem v1_relay_roundtrip m buf :
  relayable m → marshal_message m = Ok buf → Z.of_nat (length buf) < 2 ^ 32 →
  parse_message (length buf) buf empty_message = Ok (relayed m).
Proof.
  intros Hm. pose proof (send_properties_ok m Hm) as Hp. unfold marshal_message.
  intros (l1 & lb & E1%Wrap_Ok & (l2 & l3 & E2 & E3%Wrap_Ok & ->)%wapp_Ok & ->)%wapp_Ok Hl. rewrite !length_app in Hl.
  rewrite <-(parse_message_fuel (S (S (S (length (l1 ++ l2 ++ l3)))))) by lia.
  rewrite (parse_section _ (SectionProperties (send_properties m)) l1) by (done || lia). cbn [Section_canon apply_section].
  replace (Properties_canon (send_properties m)) with (send_properties m) by (by destruct (send_properties m)).
  rewrite <-(app_nil_r l3). unfold relayed.
  assert (∀ fuel m', parse_message (S fuel) (l3 ++ []) m' = parse_message fuel [] (apply_section (SectionData (Some (Data m))) m')) as H3'
    by (intros fuel m'; apply (parse_section _ (SectionData (Some (Data m))) l3); [done|done|lia]).
  assert (match message_properties (send_properties m) with Some p => Some p | None => None end =
    (p ← Emq.Properties m; if decide (kept_properties p = emq_no_properties) then None else Some (kept_properties p))) as Hprops.
  { destruct (Emq.Properties m) as [p|] eqn:Ep.
    - rewrite (message_properties_sent m p Ep) by apply (ry_properties m Hm p Ep). cbn. by destruct (decide _).
    - unfold send_properties. by rewrite Ep. }
  assert (RoutingKey m = Properties_Subject (send_properties m)) as Hkey by (unfold send_properties; by destruct (Emq.Properties m)).
  rewrite <-Hprops, Hkey. destruct (Headers m) as [headers|] eqn:Hh.
  - rewrite (parse_section _ (SectionApplicationProperties headers) l2); [|change (table_exact (Some headers) = true); rewrite <-Hh; apply Hm|by apply Wrap_Ok in E2|lia].
    by rewrite H3', parse_nil.
  - injection E2 as <-. by rewrite app_nil_l, H3', parse_nil.
Qed.

End relay.

#[local] Instance no_time : TimeFormat := λ _, ""%string.
#[local] Instance no_parse : TimeParse := λ _, (0, None).
#[local] Instance no_parse_law : TimeParseLaw.
Proof. done. Defined.

(** A message with a reply address, a priority, a header and data. *)
Definition sample_message : EmqMessage :=
  {| RoutingKey := "key";
     Emq.Properties := Some {| ContentType := "text/plain"; ContentEncoding := ""; DeliveryMode := 0; Priority := 5; CorrelationID := ""; ReplyTo := "/default/replies";
       Expiration := ""; Emq.MessageID := "1"; Timestamp := 0; MsgType := ""; UserID := ""; AppID := ""; To := ""; GroupID := ""; GroupSequence := 7; ReplyToGroupID := "" |};
     Headers := Some (MkStruct (Some [("color", StringValue "red")])); Data := [1; 2; 3] |}.

Lemma v1_relay_roundtrip_witness :
  match marshal_message sample_message with
  | Ok buf => parse_message (length buf) buf empty_message = Ok (relayed sample_message)
  | _ => False
  end.
Proof.
  destruct (marshal_message sample_message) as [buf|e|msg] eqn:E; [|vm_compute in E; discriminate..].
  apply (v1_relay_roundtrip sample_message buf); [|exact E|vm_compute in E; injection E as <-; vm_compute; reflexivity].
  split; [|vm_compute; reflexivity]. intros p [= <-]. repeat split; try (left; reflexivity); vm_compute; congruence.
Defined.
