(* ===== verification/Listener.v ===== *)
(** * The AMQP listener and SASL

    Models src/mq/amqp/server*.go and src/mq/sasl: a connection is accepted, its protocol header decides on the
    version, the client is authenticated by one of the providers, limits are negotiated, and the handler of the version
    is called.  Calls of the transports and of the user directory are answered by the environment.

    The providers and the loop over challenges come first, then each version's negotiation, then [handle]. *)
From S2P Require Import Prelude Emq Bytes StructValue Interaction AmqpValues AmqpV0 AmqpV0Methods AmqpV0Transport AmqpV1Types.

(** ** Tokens and calls *)

Inductive Token : Type :=
| AnonymousToken
| UsernamePasswordToken (Username Password : string).

Definition Subject (token : Token) : string :=
  match token with
  | AnonymousToken => "<anonymous>"
  | UsernamePasswordToken username _ => username
  end.

(** A context is nil, or has a token, which can be nil. *)
Inductive l_call : Type :=
| LVerify (username password : string)
| LSetDeadline (timeout : Z)
| LReadHeader
| LWrite (proto : list Z)
| LStart (f : ConnectionStart)
| LSecure (f : ConnectionSecure)
| LTune (f : ConnectionTune)
| LSetFrameMax (frameMax : Z)
| LSetReceiveTimeout (d : Z)
| LSetSendTimeout (d : Z)
| LMechanisms (f : SASLMechanisms)
| LOutcome (f : SASLOutcome)
| LChallenge (f : SASLChallenge)
| LSetBuffered
| LServeV0 (token : Token)
| LServeV1 (ctx : option (option Token)).

Definition l_answer (e : l_call) : Type :=
  match e with
  | LVerify _ _ => result go_error bool
  | LReadHeader => result go_error (list Z)
  | LStart _ => result go_error ConnectionStartOk
  | LSecure _ => result go_error ConnectionSecureOk
  | LTune _ => result go_error ConnectionTuneOk
  | LSetFrameMax _ => unit
  | LMechanisms _ => result go_error SASLInit
  | LChallenge _ => result go_error SASLResponse
  | _ => option go_error
  end.

(** There is no object: a method is a sequence of calls that can fail. *)
Definition l_method : Type → Type := method l_answer unit go_error.

(** [if err != nil { return errors.Wrap(err, msg) }] *)
Definition checked (msg : string) (err : option go_error) : l_method unit := fail_on err (λ e, ErrWrap e msg).

(** A value or an error, which is wrapped. *)
Definition value {A} (msg : string) (r : result go_error A) : l_method A :=
  match r with
  | Ok a => mret a
  | Err e => throw (ErrWrap e msg)
  | Panic m => crash m
  end.

(** The result of a method, errors included. *)
Definition attempt {A} (m : l_method A) : l_method (result go_error A) := λ s, prog_bind_aux (λ '(s, r), Ret (s, Ok r)) (m s).

Definition wrapped {A} (msg : string) (m : l_method A) : l_method A := r ← attempt m; value msg r.

(** ** Providers *)

(** [sasl.Provider]; a token, a challenge, or neither when the client is refused. *)
Record Provider : Type := {
  Mechanism : string;
  Authenticate : option (list Z) → list Z → l_method (option Token * option (list Z));
}.

Definition NewANONYMOUS : Provider :=
  {| Mechanism := "ANONYMOUS"; Authenticate := λ _ _, mret (Some AnonymousToken, None) |}.

(** What [PLAIN] and [AMQPLAIN] do with a user name and a password. *)
Definition verify (username password : string) : l_method (option Token * option (list Z)) :=
  ok ← ask (LVerify username password);
  ok ← value "authentication failed" ok;
  mret (if ok : bool then Some (UsernamePasswordToken username password) else None, None).

(** [bytes.Split(response, []byte{0})] *)
Fixpoint split_zero (bytes : list Z) : list (list Z) :=
  match bytes with
  | [] => [[]]
  | b :: bytes =>
    match split_zero bytes with
    | part :: parts => if b =? 0 then [] :: part :: parts else (b :: part) :: parts
    | [] => []
    end
  end.

Definition plain_Authenticate (challenge : option (list Z)) (response : list Z) : l_method (option Token * option (list Z)) :=
  match split_zero response with
  | [_; username; password] => verify (bytes_string username) (bytes_string password)
  | _ => throw (ErrNew "expected %d parts, got %d parts")
  end.

Definition NewPLAIN : Provider := {| Mechanism := "PLAIN"; Authenticate := plain_Authenticate |}.

Definition amqplain_Authenticate (challenge : option (list Z)) (response : list Z) : l_method (option Token * option (list Z)) :=
  table ← value "unmarshal failed" (UnmarshalTable response);
  username ← value "get LOGIN failed" (String_ table "LOGIN" "");
  if (username =? "")%string then throw (ErrNew "LOGIN not found / empty")
  else
    password ← value "get PASSWORD failed" (String_ table "PASSWORD" "");
    if (password =? "")%string then throw (ErrNew "PASSWORD not found / empty")
    else verify username password.

Definition NewAMQPLAIN : Provider := {| Mechanism := "AMQPLAIN"; Authenticate := amqplain_Authenticate |}.

(** ** The server *)

(** A handler that is nil is absent. *)
Record ListenerConfig : Type := {
  lc_Name : string;
  lc_Version : string;
  lc_ConnectTimeout : Z;
  lc_SASLProviders : list Provider;
  lc_SASLRequired : bool;
  lc_HeartbeatV0 : Z;
  lc_CapabilitiesV0 : list string;
  lc_HandlerV0 : bool;
  lc_HandlerV1 : bool;
}.

Definition time_Second : Z := 10 ^ 9.
Definition defaultConnectTimeout : Z := 10 * time_Second.
Definition defaultHeartbeat : Z := 60 * time_Second.

(** The first mechanism that occurs twice. *)
Fixpoint duplicate_mechanism (seen : list string) (providers : list Provider) : option string :=
  match providers with
  | [] => None
  | p :: providers => if decide (Mechanism p ∈ seen) then Some (Mechanism p) else duplicate_mechanism (Mechanism p :: seen) providers
  end.

Definition server_init (s : ListenerConfig) : result go_error ListenerConfig :=
  if negb (lc_HandlerV0 s) && negb (lc_HandlerV1 s) then Err (ErrNew "no handler")
  else
    let connectTimeout := if lc_ConnectTimeout s =? 0 then defaultConnectTimeout else lc_ConnectTimeout s in
    if (length (lc_SASLProviders s) =? 0)%nat && (lc_SASLRequired s || lc_HandlerV0 s) then Err (ErrNew "no SASL provider")
    else
      match duplicate_mechanism [] (lc_SASLProviders s) with
      | Some mechanism => Err (ErrNew ("multiple SASL providers for mechanism " +:+ mechanism))
      | None =>
        if negb (lc_HeartbeatV0 s =? 0) && (65535 <? Z.quot (lc_HeartbeatV0 s) time_Second) then Err (ErrNew "heartbeat %d out of bounds (max %d seconds)")
        else Ok {| lc_Name := lc_Name s; lc_Version := lc_Version s; lc_ConnectTimeout := connectTimeout; lc_SASLProviders := lc_SASLProviders s;
          lc_SASLRequired := lc_SASLRequired s; lc_HeartbeatV0 := if lc_HeartbeatV0 s =? 0 then defaultHeartbeat else lc_HeartbeatV0 s;
          lc_CapabilitiesV0 := lc_CapabilitiesV0 s; lc_HandlerV0 := lc_HandlerV0 s; lc_HandlerV1 := lc_HandlerV1 s |}
      end.

Fixpoint find_provider (mechanism : string) (providers : list Provider) : option Provider :=
  match providers with
  | [] => None
  | p :: providers => if (Mechanism p =? mechanism)%string then Some p else find_provider mechanism providers
  end.

(** ** Version 0.9.1 *)

Definition server_properties (s : ListenerConfig) : Struct :=
  MkStruct (Some (
    (if (lc_Name s =? "")%string then [] else [("product", StringValue (lc_Name s))]) ++
    (if (lc_Version s =? "")%string then [] else [("version", StringValue (lc_Version s))]) ++
    match lc_CapabilitiesV0 s with
    | [] => []
    | capabilities => [("capabilities", StructValue (Some (MkStruct (Some ((λ c, (c, BoolValue true)) <$> remove_dups capabilities)))))]
    end)).

(** The loop over challenges; [fuel] bounds its turns.  The response is that of the first frame in every turn. *)
Fixpoint authenticate_v0 (fuel : nat) (provider : Provider) (challenge : option (list Z)) (response : list Z) : l_method Token :=
  match fuel with
  | O => crash "out of fuel"
  | S fuel =>
    r ← attempt (Authenticate provider challenge response);
    match r with
    | Err e => throw (ErrWrap e "SASL provider failed")
    | Panic msg => crash msg
    | Ok (Some token, _) => mret token
    | Ok (None, None) => throw (ErrNew "not authenticated")
    | Ok (None, Some challenge) =>
      secureOk ← ask (LSecure {| ConnectionSecure_Challenge := bytes_string challenge |});
      value "call connection.secure failed" secureOk;;
      authenticate_v0 fuel provider (Some challenge) response
    end
  end.

Definition server_tune (s : ListenerConfig) : ConnectionTune :=
  {| ConnectionTune_ChannelMax := 2047; ConnectionTune_FrameMax := MaxUint32; ConnectionTune_Heartbeat := u16 (Z.quot (lc_HeartbeatV0 s) time_Second) |}.

(** The frame size that is agreed on. *)
Definition negotiate (tune : ConnectionTune) (tuneOk : ConnectionTuneOk) : result go_error Z :=
  if negb (ConnectionTuneOk_ChannelMax tuneOk =? 0) && (ConnectionTune_ChannelMax tune <? ConnectionTuneOk_ChannelMax tuneOk)
  then Err (ErrNew "client tried to raise channel max (server=%d, client=%d)")
  else if ConnectionTuneOk_FrameMax tuneOk =? 0 then Ok (ConnectionTune_FrameMax tune)
  else if ConnectionTuneOk_FrameMax tuneOk <? FrameMinSize then Err (ErrNew "client tried to negotiate frame max size %d, less than mandatory minimum")
  else if ConnectionTune_FrameMax tune <? ConnectionTuneOk_FrameMax tuneOk then Err (ErrNew "client tried to raise frame max (server=%d, client=%d)")
  else Ok (ConnectionTuneOk_FrameMax tuneOk).

Definition initV0 (fuel : nat) (s : ListenerConfig) : l_method Token :=
  startOk ← ask (LStart {| ConnectionStart_VersionMajor := 0; ConnectionStart_VersionMinor := 9; ConnectionStart_ServerProperties := Some (server_properties s);
    ConnectionStart_Mechanisms := String.concat " " (Mechanism <$> lc_SASLProviders s); ConnectionStart_Locales := "en_US" |});
  startOk ← value "call connection.start failed" startOk;
  match find_provider (ConnectionStartOk_Mechanism startOk) (lc_SASLProviders s) with
  | None => throw (ErrNew "client selected unknown SASL mechanism %s")
  | Some provider =>
    token ← authenticate_v0 fuel provider None (string_bytes (ConnectionStartOk_Response startOk));
    let tune := server_tune s in
    tuneOk ← ask (LTune tune);
    tuneOk ← value "call connection.tune failed" tuneOk;
    match negotiate tune tuneOk with
    | Err e => throw e
    | Panic msg => crash msg
    | Ok frameMax =>
      let heartbeat := ConnectionTuneOk_Heartbeat tuneOk * time_Second in
      ask (LSetFrameMax frameMax);;
      err ← ask (LSetReceiveTimeout (heartbeat * 2));
      checked "set receive timeout failed" err;;
      err ← ask (LSetSendTimeout (Z.quot heartbeat 2));
      checked "set send timeout failed" err;;
      mret token
    end
  end.

(** ** Version 1.0.0 *)

Definition protoPlain : Z := 0.
Definition protoSASL : Z := 3.

(** The bytes "AMQP", the protocol and the version. *)
Definition proto_header (protoID major minor revision : Z) : list Z := [65; 77; 81; 80; protoID; major; minor; revision].

(** The protocol of a header with a version, if it is one. *)
Definition proto_of (major minor revision : Z) (proto : list Z) : option Z :=
  match proto with
  | [a; m; q; p; protoID; x; y; z] =>
    if (a =? 65) && (m =? 77) && (q =? 81) && (p =? 80) && (x =? major) && (y =? minor) && (z =? revision) then Some protoID else None
  | _ => None
  end.

Definition v1_header (protoID : Z) : list Z := proto_header protoID 1 0 0.

Definition OkSASLCode : Z := 0.
Definition AuthSASLCode : Z := 1.
Definition SysSASLCode : Z := 2.

Definition outcome_frame (code : Z) : SASLOutcome := {| SASLOutcome_Code := code; SASLOutcome_AdditionalData := None |}.

(** The loop over challenges, with the outcome that the client is told. *)
Fixpoint authenticate_v1 (fuel : nat) (provider : Provider) (challenge : option (list Z)) (response : list Z) : l_method Token :=
  match fuel with
  | O => crash "out of fuel"
  | S fuel =>
    r ← attempt (Authenticate provider challenge response);
    match r with
    | Err e =>
      outcomeErr ← ask (LOutcome (outcome_frame SysSASLCode));
      checked ("SASL provider failed with (" +:+ Error_text e +:+ ") & send SASL outcome failed") outcomeErr;;
      throw (ErrWrap e "SASL provider failed")
    | Panic msg => crash msg
    | Ok (Some token, _) =>
      err ← ask (LOutcome (outcome_frame OkSASLCode));
      checked "send SASL outcome failed" err;;
      mret token
    | Ok (None, None) =>
      err ← ask (LOutcome (outcome_frame AuthSASLCode));
      checked "send SASL outcome failed" err;;
      throw (ErrNew "not authenticated")
    | Ok (None, Some challenge) =>
      saslResponse ← ask (LChallenge {| SASLChallenge_Challenge := Some challenge |});
      value "send SASL challenge failed" saslResponse;;
      authenticate_v1 fuel provider (Some challenge) response
    end
  end.

(** The client is told which header it should send; the context that is returned is nil, and so is the error. *)
Definition refuse_header (protoID : Z) : l_method (option (option Token)) :=
  err ← ask (LWrite (v1_header protoID));
  checked "write protocol header failed" err;;
  mret None.

(** [Start:]; [fuel] bounds how often the client authenticates, and the turns of each authentication. *)
Fixpoint initV1 (fuel : nat) (s : ListenerConfig) (token : option Token) (protoID : Z) : l_method (option (option Token)) :=
  match fuel with
  | O => crash "out of fuel"
  | S fuel =>
    if protoID =? protoPlain then
      if bool_decide (token = None) && lc_SASLRequired s then refuse_header protoSASL
      else
        err ← ask (LWrite (v1_header protoID));
        checked "echo protocol header failed" err;;
        err ← ask LSetBuffered;
        checked "start of transport buffering failed" err;;
        mret (Some token)
    else if protoID =? protoSASL then
      if (length (lc_SASLProviders s) =? 0)%nat then refuse_header protoPlain
      else
        err ← ask (LWrite (v1_header protoID));
        checked "echo protocol header failed" err;;
        saslInit ← ask (LMechanisms {| SASLMechanisms_SASLServerMechanisms := Some (Mechanism <$> lc_SASLProviders s) |});
        saslInit ← value "SASL failed: send mechanisms" saslInit;
        match find_provider (SASLInit_Mechanism saslInit) (lc_SASLProviders s) with
        | None => throw (ErrNew "client selected unknown SASL mechanism %s")
        | Some provider =>
          token ← authenticate_v1 (S fuel) provider None (default [] (SASLInit_InitialResponse saslInit));
          proto ← ask LReadHeader;
          proto ← value "read protocol header after SASL failed" proto;
          match proto_of 1 0 0 proto with
          | Some protoID => initV1 fuel s (Some token) protoID
          | None => refuse_header (if lc_SASLRequired s then protoSASL else protoPlain)
          end
        end
    else refuse_header (if lc_SASLRequired s then protoSASL else protoPlain)
  end.

(** ** A connection *)

(** The header that the server offers to a client with another version. *)
Definition offered_header (s : ListenerConfig) : list Z :=
  if lc_HandlerV1 s then proto_header (if lc_SASLRequired s then protoSASL else 0) 1 0 0
  else if lc_HandlerV0 s then proto_header 0 0 9 1
  else proto_header 0 0 0 0.

Definition serve_v0 (fuel : nat) (s : ListenerConfig) : l_method unit :=
  token ← wrapped "init v0.9.1 connection failed" (initV0 fuel s);
  err ← ask (LServeV0 token);
  fail_on err (λ e, e).

Definition serve_v1 (fuel : nat) (s : ListenerConfig) (protoID : Z) : l_method unit :=
  ctx ← wrapped "init v1.0.0 connection failed" (initV1 fuel s None protoID);
  err ← ask (LServeV1 ctx);
  fail_on err (λ e, e).

Definition offer (s : ListenerConfig) : l_method unit :=
  err ← ask (LWrite (offered_header s));
  checked "write protocol header failed" err.

Definition handle (fuel : nat) (s : ListenerConfig) : l_method unit :=
  err ← ask (LSetDeadline (lc_ConnectTimeout s));
  checked "set deadline failed" err;;
  proto ← ask LReadHeader;
  proto ← value "read protocol header failed" proto;
  if bool_decide (proto_of 0 9 1 proto = Some 0) && lc_HandlerV0 s then serve_v0 fuel s
  else
    match proto_of 1 0 0 proto with
    | Some protoID => if lc_HandlerV1 s then serve_v1 fuel s protoID else offer s
    | None => offer s
    end.
