(* ===== verification/ListenerProps.v ===== *)
(** * The AMQP listener: theorems

    With which context a handler is called: one with a token that a provider vouches for, or none, and when. *)
From S2P Require Import Prelude Emq Bytes StructValue Interaction AmqpValues AmqpV0 AmqpV0Methods AmqpV0Transport AmqpV1Types Listener.

Abbreviation l_log := (list (call l_answer)).

(** ** Providers *)

(** The directory was asked about the credentials of the token, and accepted them; anonymous users are let in. *)
Definition verified (providers : list Provider) (log : l_log) (token : Token) : Prop :=
  match token with
  | AnonymousToken => NewANONYMOUS ∈ providers
  | UsernamePasswordToken username password => existT (LVerify username password) (Ok true) ∈ log
  end.

(** A handler is called. *)
Definition is_serve (c : call l_answer) : Prop :=
  match projT1 c with
  | LServeV0 _ | LServeV1 _ => True
  | _ => False
  end.

Definition quiet (log : l_log) : Prop := Forall (λ c, ¬ is_serve c) log.

(** A part of the negotiation: it calls no handler, and what it returns satisfies [Q]. *)
Definition negotiates {A} (m : l_method A) (Q : l_log → A → Prop) : Prop :=
  always (m ()) (λ log x, quiet log ∧ ∀ a, x.2 = Ok a → Q log a).

Lemma verified_app_l providers log log' token : verified providers log token → verified providers (log ++ log') token.
Proof. destruct token; [done|]. cbn. rewrite elem_of_app. by left. Qed.

Lemma verified_app_r providers log log' token : verified providers log' token → verified providers (log ++ log') token.
Proof. destruct token; [done|]. cbn. rewrite elem_of_app. by right. Qed.

Lemma verified_one p providers log token : p ∈ providers → verified [p] log token → verified providers log token.
Proof. intros Hp. destruct token; [|done]. cbn. by intros ->%list_elem_of_singleton. Qed.

Lemma quiet_app log log' : quiet log → quiet log' → quiet (log ++ log').
Proof. unfold quiet. rewrite Forall_app. done. Qed.

Lemma negotiates_bind {A B} (m : l_method A) (f : A → l_method B) Q R :
  negotiates m Q → (∀ log a, Q log a → negotiates (f a) (λ log' b, R (log ++ log') b)) → negotiates (m ≫= f) R.
Proof.
  intros Hm Hf. apply always_method_bind. eapply always_mono; [|exact Hm]. intros log [[] r] [Hq Hr].
  destruct r as [a|e|msg]; [|done..]. eapply always_mono; [|by apply (Hf log a), Hr].
  intros log' [[] r'] [Hq' Hr']. split; [by apply quiet_app|]. intros b Hb. by apply Hr'.
Qed.

Lemma negotiates_ret {A} (a : A) (Q : l_log → A → Prop) : Q [] a → negotiates (mret a) Q.
Proof. intros Ha. split; [constructor|]. by intros ? [= <-]. Qed.

Lemma negotiates_throw {A} e (Q : l_log → A → Prop) : negotiates (throw e) Q.
Proof. by split; [constructor|]. Qed.

Lemma negotiates_crash {A} msg (Q : l_log → A → Prop) : negotiates (crash msg) Q.
Proof. by split; [constructor|]. Qed.

Lemma negotiates_ask e (Q : l_log → l_answer e → Prop) :
  match e with LServeV0 _ | LServeV1 _ => False | _ => True end → (∀ x, Q [existT e x] x) → negotiates (ask e) Q.
Proof.
  intros He HQ x. split; [|by intros ? [= <-]]. constructor; [|constructor]. unfold is_serve. cbn. destruct e; first [by intros []|done].
Qed.

Lemma negotiates_checked msg err (Q : l_log → unit → Prop) : Q [] () → negotiates (checked msg err) Q.
Proof. intros HQ. destruct err; [apply negotiates_throw|by apply negotiates_ret]. Qed.

Lemma negotiates_value {A} msg (r : result go_error A) (Q : l_log → A → Prop) : (∀ a, r = Ok a → Q [] a) → negotiates (value msg r) Q.
Proof. intros HQ. destruct r; [by apply negotiates_ret, HQ|apply negotiates_throw|apply negotiates_crash]. Qed.

Lemma negotiates_mono {A} (m : l_method A) (Q R : l_log → A → Prop) : (∀ log a, Q log a → R log a) → negotiates m Q → negotiates m R.
Proof. intros HQR Hm. eapply always_mono; [|exact Hm]. intros log x [Hq Hx]. split; [done|]. intros a Ha. by apply HQR, Hx. Qed.

(** What a provider promises: a token has verified credentials, or is the one for anonymous users. *)
Class SoundProvider (p : Provider) : Prop := provider_verifies challenge response :
  negotiates (Authenticate p challenge response) (λ log r, ∀ token, r.1 = Some token → verified [p] log token).

Lemma verify_sound p username password :
  negotiates (verify username password) (λ log r, ∀ token, r.1 = Some token → verified [p] log token).
Proof.
  intros [b|e|msg]; (split; [constructor; [by intros []|constructor]|]); [|done..]. intros a [= <-] token. cbn. destruct b; [|done].
  intros [= <-]. by left.
Qed.

#[export] Instance anonymous_sound : SoundProvider NewANONYMOUS.
Proof. intros challenge response. apply negotiates_ret. intros token [= <-]. by left. Qed.

#[export] Instance plain_sound : SoundProvider NewPLAIN.
Proof.
  intros challenge response. cbn [Authenticate NewPLAIN]. unfold plain_Authenticate.
  repeat case_match; first [apply negotiates_throw|apply verify_sound].
Qed.

#[export] Instance amqplain_sound : SoundProvider NewAMQPLAIN.
Proof.
  intros challenge response. cbn [Authenticate NewAMQPLAIN]. unfold amqplain_Authenticate.
  eapply negotiates_bind; [by apply (negotiates_value _ _ (λ log _, log = []))|]. intros log table ->.
  eapply negotiates_bind; [by apply (negotiates_value _ _ (λ log _, log = []))|]. intros log username ->.
  destruct (_ =? _)%string; [apply negotiates_throw|].
  eapply negotiates_bind; [by apply (negotiates_value _ _ (λ log _, log = []))|]. intros log password ->.
  destruct (_ =? _)%string; [apply negotiates_throw|]. apply verify_sound.
Qed.

(** ** Authentication *)

Lemma negotiates_attempt {A} (m : l_method A) Q : negotiates m Q → negotiates (attempt m) (λ log r, ∀ a, r = Ok a → Q log a).
Proof.
  intros Hm. apply (always_bind _ (m ())). eapply always_mono; [|exact Hm]. intros log [[] r] [Hq Hr]. cbn. rewrite app_nil_r.
  split; [done|]. intros ? [= <-] a ->. by apply Hr.
Qed.

#[local] Ltac negotiate_step := first
  [ apply negotiates_throw | apply negotiates_crash
  | eapply negotiates_bind; [first [match goal with |- negotiates (ask ?e) _ => exact (negotiates_ask e (λ _ _, True) I (λ _, I)) end | by apply (negotiates_value _ _ (λ _ _, True))
                                   | by apply (negotiates_checked _ _ (λ _ _, True))]|intros ? ? _]].

(** The loops return a token that was verified in one of their turns. *)
Lemma authenticate_v0_sound p fuel : SoundProvider p → ∀ challenge response, negotiates (authenticate_v0 fuel p challenge response) (verified [p]).
Proof.
  intros Hp. induction fuel as [|fuel IH]; intros challenge response; [apply negotiates_crash|]. cbn [authenticate_v0].
  eapply negotiates_bind; [apply negotiates_attempt, Hp|]. intros log [[[token|] [next|]]|e|msg] Hr; repeat negotiate_step.
  1-2: apply negotiates_ret; rewrite app_nil_r; by eapply Hr.
  eapply negotiates_mono; [|apply IH]. intros log' token Hv. by repeat apply verified_app_r.
Qed.

Lemma authenticate_v1_sound p fuel : SoundProvider p → ∀ challenge response, negotiates (authenticate_v1 fuel p challenge response) (verified [p]).
Proof.
  intros Hp. induction fuel as [|fuel IH]; intros challenge response; [apply negotiates_crash|]. cbn [authenticate_v1].
  eapply negotiates_bind; [apply negotiates_attempt, Hp|]. intros log [[[token|] [next|]]|e|msg] Hr; repeat negotiate_step.
  1-2: apply negotiates_ret; apply verified_app_l; by eapply Hr.
  eapply negotiates_mono; [|apply IH]. intros log' token Hv. by repeat apply verified_app_r.
Qed.

Lemma find_provider_in mechanism providers p : find_provider mechanism providers = Some p → p ∈ providers.
Proof.
  induction providers as [|p' providers IH]; [done|]. cbn [find_provider]. destruct (_ =? _)%string; [intros [= ->]; by left|].
  intros Hp. right. by apply IH.
Qed.

(** ** Negotiation *)

Section negotiation.

Context (s : ListenerConfig) (Hproviders : Forall SoundProvider (lc_SASLProviders s)).

Lemma provider_sound mechanism p : find_provider mechanism (lc_SASLProviders s) = Some p → SoundProvider p.
Proof. intros Hp%find_provider_in. by eapply Forall_forall in Hp. Qed.

Lemma initV0_verified fuel : negotiates (initV0 fuel s) (verified (lc_SASLProviders s)).
Proof.
  unfold initV0. do 2 negotiate_step. destruct (find_provider _ _) as [p|] eqn:Hp; [|apply negotiates_throw].
  eapply negotiates_bind; [by eapply authenticate_v0_sound, provider_sound|]. intros log1 token Hv. do 2 negotiate_step.
  destruct (negotiate _ _); repeat negotiate_step. apply negotiates_ret. do 2 apply verified_app_r. apply verified_app_l. by eapply verified_one, Hv; eapply find_provider_in.
Qed.

(** The last thing the client got is a header with the protocol it should use: SASL, or plain when there are no
    providers or none is required. *)
Definition refused (log : l_log) : Prop :=
  ∃ before protoID, log = before ++ [existT (LWrite (v1_header protoID)) None] ∧
    (protoID = protoSASL ∨ protoID = protoPlain ∧ (lc_SASLRequired s = false ∨ lc_SASLProviders s = [])).

(** A context: with no token only if none is required, and nil only for a client that was refused. *)
Definition context_ok (log : l_log) (ctx : option (option Token)) : Prop :=
  match ctx with
  | None => refused log
  | Some None => lc_SASLRequired s = false
  | Some (Some token) => verified (lc_SASLProviders s) log token
  end.

Lemma context_ok_app log log' ctx : context_ok log' ctx → context_ok (log ++ log') ctx.
Proof.
  destruct ctx as [[token|]|]; [apply verified_app_r|done|]. intros (before & protoID & -> & Hid). exists (log ++ before), protoID. by rewrite app_assoc.
Qed.

Lemma refuse_header_ok protoID log :
  protoID = protoSASL ∨ protoID = protoPlain ∧ (lc_SASLRequired s = false ∨ lc_SASLProviders s = []) →
  negotiates (refuse_header protoID) (λ log' ctx, context_ok (log ++ log') ctx).
Proof.
  intros Hid [e|]; cbn.
  - split; [|done]. constructor; [by intros []|constructor].
  - split; [constructor; [by intros []|constructor]|]. intros ctx [= <-]. by exists log, protoID.
Qed.

Lemma refuse_required log :
  negotiates (refuse_header (if lc_SASLRequired s then protoSASL else protoPlain)) (λ log' ctx, context_ok (log ++ log') ctx).
Proof. apply refuse_header_ok. destruct (lc_SASLRequired s); [by left|right; auto]. Qed.

Lemma initV1_ok fuel : ∀ token protoID log,
  (∀ tok, token = Some tok → verified (lc_SASLProviders s) log tok) → negotiates (initV1 fuel s token protoID) (λ log' ctx, context_ok (log ++ log') ctx).
Proof.
  induction fuel as [|fuel IH]; intros token protoID log Ht; [apply negotiates_crash|]. cbn [initV1].
  destruct (protoID =? protoPlain).
  - destruct (bool_decide _ && _) eqn:Hn; [apply refuse_header_ok; by left|]. repeat negotiate_step. apply negotiates_ret.
    destruct token as [tok|]; cbn; [by apply verified_app_l, Ht|]. by rewrite bool_decide_true in Hn.
  - destruct (protoID =? protoSASL); [|apply refuse_required]. destruct (length (lc_SASLProviders s) =? 0)%nat eqn:Hlen.
    { apply refuse_header_ok. right. split; [done|right]. apply Nat.eqb_eq in Hlen. by apply nil_length_inv. }
    do 4 negotiate_step. destruct (find_provider _ _) as [p|] eqn:Hp; [|apply negotiates_throw].
    eapply negotiates_bind; [by eapply authenticate_v1_sound, provider_sound|]. intros logv tok Hv. do 2 negotiate_step.
    apply find_provider_in in Hp. pose proof (verified_one _ _ _ _ Hp Hv) as Hv'.
    destruct (proto_of _ _ _ _) as [id|].
    + eapply negotiates_mono; [|apply (IH (Some tok) id (logv ++ log4 ++ log5)); intros ? [= <-]; by apply verified_app_l].
      intros log' ctx Hc. do 5 apply context_ok_app. cbn beta in Hc. by rewrite <-!app_assoc in Hc.
    + eapply negotiates_mono; [|apply (refuse_required [])]. intros log' ctx Hc. by repeat apply context_ok_app.
Qed.

End negotiation.

(** ** Connections *)

(** What is known when a handler is called; it is the last call. *)
Definition call_ok (s : ListenerConfig) (log : l_log) (c : call l_answer) : Prop :=
  match projT1 c with
  | LServeV0 token => verified (lc_SASLProviders s) log token
  | LServeV1 ctx => context_ok s log ctx
  | _ => True
  end.

Definition calls_ok (s : ListenerConfig) (log : l_log) : Prop :=
  ∀ before c after, log = before ++ c :: after → is_serve c → after = [] ∧ call_ok s before c.

Lemma quiet_calls_ok s log : quiet log → calls_ok s log.
Proof. intros Hq before c after -> Hc. apply Forall_app in Hq as [_ Hq]. by apply Forall_cons in Hq as [[] _]. Qed.

Lemma last_call_ok s log c : quiet log → call_ok s log c → calls_ok s (log ++ [c]).
Proof.
  intros Hq Hc before c' after E Hs. destruct (decide (after = [])) as [->|Hne].
  - apply app_inj_tail in E as [<- <-]. done.
  - destruct (exists_last Hne) as (after' & c1 & ->). rewrite app_comm_cons, app_assoc in E. apply app_inj_tail in E as [-> _].
    apply Forall_app in Hq as [_ Hq]. by apply Forall_cons in Hq as [[] _].
Qed.

(** A negotiation and then a handler. *)
Lemma serve_calls_ok {A} s (m : l_method A) (e : A → l_call) (k : ∀ a, l_answer (e a) → l_method unit) Q :
  negotiates m Q → (∀ log a x, Q log a → call_ok s log (existT (e a) x)) → (∀ a x, ∃ r, k a x () = Ret ((), r)) →
  always ((a ← m; x ← ask (e a); k a x) ()) (λ log _, calls_ok s log).
Proof.
  intros Hm Hs Hk. apply always_method_bind. eapply always_mono; [|exact Hm]. intros log [[] r] [Hq Hr].
  destruct r as [a|err|msg]; [|by apply quiet_calls_ok..]. intros x. cbn [prog_bind_aux]. destruct (Hk a x) as [r ->]. cbn.
  apply last_call_ok; [done|]. by apply Hs, Hr.
Qed.

Lemma negotiates_wrapped {A} msg (m : l_method A) Q : negotiates m Q → negotiates (wrapped msg m) Q.
Proof.
  intros Hm. eapply negotiates_bind; [by apply negotiates_attempt|]. intros log r Hr. apply negotiates_value.
  intros a ->. rewrite app_nil_r. by apply Hr.
Qed.

Lemma call_ok_app s log log' c : call_ok s log' c → call_ok s (log ++ log') c.
Proof. unfold call_ok. destruct (projT1 c); try done; [apply verified_app_r|apply context_ok_app]. Qed.

Lemma calls_ok_app s log log' : quiet log → calls_ok s log' → calls_ok s (log ++ log').
Proof.
  intros Hq Hl before c after E Hs. apply app_eq_inv in E as [(l & -> & E)|(l & -> & E)].
  - destruct l as [|c' l].
    + destruct (Hl [] c after (eq_sym E) Hs) as [-> Hc]. split; [done|]. rewrite <-(app_nil_r before). by apply call_ok_app.
    + injection E as <- E. apply Forall_app in Hq as [_ Hq]. by apply Forall_cons in Hq as [[] _].
  - destruct (Hl l c after E Hs) as [-> Hc]. split; [done|]. by apply call_ok_app.
Qed.

(** Calls that negotiate, and then a method. *)
Lemma then_calls_ok {A B} s (m : l_method A) (f : A → l_method B) Q :
  negotiates m Q → (∀ a, always (f a ()) (λ log _, calls_ok s log)) → always ((m ≫= f) ()) (λ log _, calls_ok s log).
Proof.
  intros Hm Hf. apply always_method_bind. eapply always_mono; [|exact Hm]. intros log [[] r] [Hq Hr].
  destruct r as [a|e|msg]; [|by apply quiet_calls_ok..]. eapply always_mono; [|apply Hf]. intros log' x. by apply calls_ok_app.
Qed.

Section connection.

Context (s : ListenerConfig) (Hproviders : Forall SoundProvider (lc_SASLProviders s)).

Lemma serve_v0_ok fuel : always (serve_v0 fuel s ()) (λ log _, calls_ok s log).
Proof.
  apply (serve_calls_ok s _ LServeV0 (λ _ err, fail_on err (λ e, e)) (verified (lc_SASLProviders s))).
  - by apply negotiates_wrapped, initV0_verified.
  - done.
  - intros token [e|]; by eexists.
Qed.

Lemma serve_v1_ok fuel protoID : always (serve_v1 fuel s protoID ()) (λ log _, calls_ok s log).
Proof.
  apply (serve_calls_ok s _ LServeV1 (λ _ err, fail_on err (λ e, e)) (context_ok s)).
  - apply negotiates_wrapped. by apply (initV1_ok s Hproviders fuel None protoID []).
  - done.
  - intros ctx [e|]; by eexists.
Qed.

Lemma handle_ok fuel : always (handle fuel s ()) (λ log _, calls_ok s log).
Proof.
  unfold handle. apply (then_calls_ok s _ _ (λ _ _, True)); [exact (negotiates_ask (LSetDeadline _) _ I (λ _, I))|]. intros err.
  apply (then_calls_ok s _ _ (λ _ _, True)); [by apply negotiates_checked|]. intros _.
  apply (then_calls_ok s _ _ (λ _ _, True)); [exact (negotiates_ask LReadHeader _ I (λ _, I))|]. intros r.
  apply (then_calls_ok s _ _ (λ _ _, True)); [by apply negotiates_value|]. intros proto.
  assert (always (offer s ()) (λ log _, calls_ok s log)) as Hoffer.
  { apply (then_calls_ok s _ _ (λ _ _, True)); [exact (negotiates_ask (LWrite _) _ I (λ _, I))|].
    intros [e|]; apply quiet_calls_ok; constructor. }
  destruct (_ && _); [apply serve_v0_ok|]. destruct (proto_of _ _ _ _); [|done]. destruct (lc_HandlerV1 s); [apply serve_v1_ok|done].
Qed.

End connection.

(** (C7) With what a handler is called.  With the providers of the server, a connection is given to at most one handler, as the last
    call.  The handler of AMQP 0-9-1 always gets a token; a token is a user's only if the directory was asked about
    exactly its user name and password on this connection and accepted them, and it is anonymous only if anonymous users are let in.  The
    handler of AMQP 1.0 gets such a token, or a context without a token if authentication is not required, or a nil
    context.  It gets a nil context, also when authentication is required, only right after the client was refused: the last thing that the
    server wrote is the header with the protocol that the client should use instead. *)
Theorem listener_contexts fuel s :
  (∀ p, p ∈ lc_SASLProviders s → p = NewANONYMOUS ∨ p = NewPLAIN ∨ p = NewAMQPLAIN) →
  always (handle fuel s ()) (λ log _, ∀ before c after, log = before ++ c :: after →
    match projT1 c with
    | LServeV0 token => after = [] ∧ verified (lc_SASLProviders s) before token
    | LServeV1 (Some (Some token)) => after = [] ∧ verified (lc_SASLProviders s) before token
    | LServeV1 (Some None) => after = [] ∧ lc_SASLRequired s = false
    | LServeV1 None => after = [] ∧ refused s before
    | _ => True
    end).
Proof.
  intros Hp. apply (always_mono _ (λ log _, calls_ok s log)); [|apply handle_ok].
  - intros log _ Hl before c after E. specialize (Hl before c after E). unfold is_serve, call_ok in Hl.
    destruct (projT1 c) as [| | | | | | | | | | | | | | |[[token|]|]]; try done; by apply Hl.
  - apply Forall_forall. intros p Hin. destruct (Hp p Hin) as [->|[->| ->]]; apply _.
Qed.

(** The configuration of the program, with authentication required. *)
Definition sample_config : ListenerConfig :=
  {| lc_Name := "EventterMQ"; lc_Version := "dev"; lc_ConnectTimeout := defaultConnectTimeout;
     lc_SASLProviders := [NewANONYMOUS; NewPLAIN; NewAMQPLAIN]; lc_SASLRequired := true; lc_HeartbeatV0 := defaultHeartbeat;
     lc_CapabilitiesV0 := ["basic.nack"]; lc_HandlerV0 := true; lc_HandlerV1 := true |}.

Lemma listener_contexts_witness :
  always (handle 3 sample_config ()) (λ log _, ∀ before c after, log = before ++ c :: after →
    match projT1 c with
    | LServeV0 token => after = [] ∧ verified [NewANONYMOUS; NewPLAIN; NewAMQPLAIN] before token
    | LServeV1 (Some (Some token)) => after = [] ∧ verified [NewANONYMOUS; NewPLAIN; NewAMQPLAIN] before token
    | LServeV1 (Some None) => after = [] ∧ true = false
    | LServeV1 None => after = [] ∧ refused sample_config before
    | _ => True
    end).
Proof.
  apply (listener_contexts 3 sample_config). intros p. cbn [sample_config lc_SASLProviders].
  rewrite !elem_of_cons, elem_of_nil. tauto.
Defined.

(** ** Credentials *)

Lemma split_zero_not_nil bytes : split_zero bytes ≠ [].
Proof. induction bytes as [|b bytes IH]; cbn [split_zero]; [done|]. destruct (split_zero bytes); [done|]. by destruct (_ =? _). Qed.

Lemma split_zero_app part rest : 0 ∉ part → split_zero (part ++ 0 :: rest) = part :: split_zero rest.
Proof.
  induction part as [|b part IH]; intros Hz.
  - cbn [app split_zero]. destruct (split_zero rest) eqn:E; [|done]. by apply split_zero_not_nil in E.
  - apply not_elem_of_cons in Hz as [Hb Hz]. cbn [app split_zero]. rewrite IH by done. by destruct (Z.eqb_spec b 0).
Qed.

Lemma split_zero_last part : 0 ∉ part → split_zero part = [part].
Proof.
  induction part as [|b part IH]; intros Hz; [done|]. apply not_elem_of_cons in Hz as [Hb Hz]. cbn [split_zero]. rewrite IH by done.
  by destruct (Z.eqb_spec b 0).
Qed.

(** The response of a client of [PLAIN]: the directory is asked about its user name and password. *)
Lemma plain_credentials challenge authzid username password :
  0 ∉ authzid → 0 ∉ string_bytes username → 0 ∉ string_bytes password →
  plain_Authenticate challenge (authzid ++ 0 :: string_bytes username ++ 0 :: string_bytes password) = verify username password.
Proof.
  intros Ha Hu Hp. unfold plain_Authenticate. rewrite !split_zero_app, split_zero_last by done. by rewrite !string_bytes_roundtrip.
Qed.

(** The response of a client of [AMQPLAIN], which is a table. *)
Lemma amqplain_credentials challenge username password data s :
  username ≠ ""%string → password ≠ ""%string →
  MarshalTable (Some (MkStruct (Some [("LOGIN", StringValue username); ("PASSWORD", StringValue password)])) ) = Ok data →
  amqplain_Authenticate challenge data s = verify username password s.
Proof.
  intros Hu Hp Hm. apply table_roundtrip in Hm; [|done]. unfold amqplain_Authenticate. rewrite Hm. cbn -[verify String.eqb].
  change ((if (username =? "")%string then throw (ErrNew "LOGIN not found / empty")
    else password ← mret password; if (password =? "")%string then throw (ErrNew "PASSWORD not found / empty") else verify username password) s =
    verify username password s).
  destruct (String.eqb_spec username "") as [|_]; [done|].
  change ((if (password =? "")%string then throw (ErrNew "PASSWORD not found / empty") else verify username password) s = verify username password s).
  by destruct (String.eqb_spec password "").
Qed.

(** ** Limits *)

(** The frame size that is agreed on is at least the smallest one, and at most what the server proposed. *)
Lemma negotiate_bounds s tuneOk frameMax :
  negotiate (server_tune s) tuneOk = Ok frameMax →
  FrameMinSize ≤ frameMax ≤ MaxUint32 ∧ ConnectionTuneOk_ChannelMax tuneOk ≤ 2047 ∧
  (ConnectionTuneOk_FrameMax tuneOk ≠ 0 → frameMax = ConnectionTuneOk_FrameMax tuneOk).
Proof.
  unfold negotiate, server_tune. cbn [ConnectionTune_ChannelMax ConnectionTune_FrameMax].
  destruct (Z.eqb_spec (ConnectionTuneOk_ChannelMax tuneOk) 0), (Z.ltb_spec 2047 (ConnectionTuneOk_ChannelMax tuneOk)),
    (Z.eqb_spec (ConnectionTuneOk_FrameMax tuneOk) 0), (Z.ltb_spec (ConnectionTuneOk_FrameMax tuneOk) FrameMinSize),
    (Z.ltb_spec MaxUint32 (ConnectionTuneOk_FrameMax tuneOk)); cbn; intros [= <-]; unfold FrameMinSize, MaxUint32 in *; lia.
Qed.

Lemma duplicate_mechanism_None providers : ∀ seen,
  duplicate_mechanism seen providers = None → NoDup (Mechanism <$> providers) ∧ ∀ p, p ∈ providers → Mechanism p ∉ seen.
Proof.
  induction providers as [|p providers IH]; intros seen; cbn [duplicate_mechanism]; [intros _; split; [constructor|by intros ? ?%elem_of_nil]|].
  destruct (decide _) as [|Hs]; [done|]. intros Hd. destruct (IH _ Hd) as [Hn Hi]. split.
  - cbn. constructor; [|done]. intros (p' & E & Hp')%list_elem_of_fmap. apply (Hi p' Hp'). rewrite <-E. by left.
  - intros p' [->|Hp']%elem_of_cons; [done|]. intros Hm. apply (Hi p' Hp'). by right.
Qed.

(** A server that starts has a handler, providers when it needs them, one for each mechanism, and a heartbeat of at most 65535 seconds. *)
Lemma server_init_ok s s' :
  server_init s = Ok s' →
  (lc_HandlerV0 s' || lc_HandlerV1 s') = true ∧ ((lc_SASLRequired s' || lc_HandlerV0 s') = true → lc_SASLProviders s' ≠ []) ∧
  NoDup (Mechanism <$> lc_SASLProviders s') ∧ lc_ConnectTimeout s' ≠ 0 ∧ Z.quot (lc_HeartbeatV0 s') time_Second ≤ 65535.
Proof.
  unfold server_init. destruct (lc_HandlerV0 s) eqn:H0, (lc_HandlerV1 s) eqn:H1; cbn [negb andb]; try done.
  all: destruct (_ && _) eqn:Hp; [done|]; destruct (duplicate_mechanism _ _) eqn:Hd; [done|]; destruct (negb _ && _) eqn:Hh; [done|].
  all: intros [= <-]; cbn; rewrite ?H0, ?H1; apply duplicate_mechanism_None in Hd as [Hd _].
  all: split; [done|]; (split; [intros Hr E; rewrite E in Hp; cbn in Hp, Hr; congruence|]); (split; [done|]);
    (split; [by destruct (Z.eqb_spec (lc_ConnectTimeout s) 0)|]); destruct (Z.eqb_spec (lc_HeartbeatV0 s) 0); cbn in Hh; bool_to_prop; (done || lia).
Qed.

(** ** What the listener does not do *)

(** A client that is refused is served: the context and the error are nil, and the handler is called without a context. *)
Lemma refused_header_is_served fuel s :
  lc_SASLRequired s = true →
  always (serve_v1 (S fuel) s protoPlain ()) (λ log x, (projT1 <$> log) `prefix_of` [LWrite (v1_header protoSASL); LServeV1 None] ∧
    (x.2 = Ok () → projT1 <$> log = [LWrite (v1_header protoSASL); LServeV1 None])).
Proof.
  intros Hr. unfold serve_v1, wrapped. cbn [initV1]. rewrite Hr, bool_decide_true by done.
  intros [err|]; [|intros [err|]]; simpl; (split; [by eexists|done]).
Qed.
