(* ===== verification/NodeConfig.v ===== *)
(** * The configuration of a node

    src/mq/config.go: [Init] completes the configuration when the process starts.  A node is known to the cluster by its identifier, which
    is kept in a file of its directory: the theorem is that it never changes once it is there. *)
From S2P Require Import Prelude Util Bytes Interaction.

Record Config : Type := {
  cfg_ID : Z;
  cfg_BindHost : string;
  cfg_AdvertiseHost : string;
  cfg_Port : Z;
  cfg_AMQPPort : Z;
  cfg_Dir : string;
  cfg_DirPerm : Z;
}.

Definition set_ID (id : Z) (c : Config) : Config :=
  {| cfg_ID := id; cfg_BindHost := cfg_BindHost c; cfg_AdvertiseHost := cfg_AdvertiseHost c; cfg_Port := cfg_Port c;
     cfg_AMQPPort := cfg_AMQPPort c; cfg_Dir := cfg_Dir c; cfg_DirPerm := cfg_DirPerm c |}.
Definition set_AdvertiseHost (host : string) (c : Config) : Config :=
  {| cfg_ID := cfg_ID c; cfg_BindHost := cfg_BindHost c; cfg_AdvertiseHost := host; cfg_Port := cfg_Port c;
     cfg_AMQPPort := cfg_AMQPPort c; cfg_Dir := cfg_Dir c; cfg_DirPerm := cfg_DirPerm c |}.
Definition set_AMQPPort (port : Z) (c : Config) : Config :=
  {| cfg_ID := cfg_ID c; cfg_BindHost := cfg_BindHost c; cfg_AdvertiseHost := cfg_AdvertiseHost c; cfg_Port := cfg_Port c;
     cfg_AMQPPort := port; cfg_Dir := cfg_Dir c; cfg_DirPerm := cfg_DirPerm c |}.

(** What the system answers; the file with the identifier, if there is one, is [disk] below.  A write that fails leaves something. *)
Inductive write_outcome : Type :=
| FileWritten
| WriteFailed (e : go_error) (rest : option string).

Record system : Type := {
  sys_MkdirAll : option go_error;
  sys_Stat : option go_error; (* an error other than that the file does not exist *)
  sys_ReadFile : option go_error;
  sys_WriteFile : write_outcome;
  sys_Uint64 : Z; (* [rand.New(rand.NewSource(time.Now().UnixNano())).Uint64()] *)
  sys_Hostname : result go_error string;
}.

(** [strings.Trim(s, " \r\n")] *)
Definition in_cutset (c : Ascii.ascii) : bool :=
  let n := Ascii.nat_of_ascii c in (n =? 32)%nat || (n =? 13)%nat || (n =? 10)%nat.
Fixpoint trim_left (l : list Ascii.ascii) : list Ascii.ascii :=
  match l with
  | [] => []
  | c :: l' => if in_cutset c then trim_left l' else l
  end.
Definition Trim (s : string) : string :=
  String.string_of_list_ascii (rev (trim_left (rev (trim_left (String.list_ascii_of_string s))))).

Definition ErrNotExist : go_error := ErrNew "no such file or directory".
Definition newline : string := String (Ascii.ascii_of_nat 10) "".

Definition ReadFile (sys : system) (disk : option string) : result go_error string :=
  match sys_ReadFile sys, disk with
  | Some e, _ => Err e
  | None, None => Err ErrNotExist
  | None, Some buf => Ok buf
  end.

Definition read_id (sys : system) (disk : option string) (cannot_read cannot_parse : string) : result go_error Z :=
  match ReadFile sys disk with
  | Ok buf =>
    match NodeIDFromString (Trim buf) with
    | Some id => Ok id
    | None => Err (ErrWrap (ErrNew "invalid syntax") cannot_parse)
    end
  | Err e => Err (ErrWrap e cannot_read)
  | Panic msg => Panic msg
  end.

Definition write_id (sys : system) (disk : option string) (id : Z) : option string * option go_error :=
  match sys_WriteFile sys with
  | FileWritten => (Some (NodeIDToString id +:+ newline), None)
  | WriteFailed e rest => (rest, Some (ErrWrap e "could not write ID to file"))
  end.

(** The part of [Init] that finds the identifier. *)
Definition init_id (sys : system) (disk : option string) (c : Config) : Config * option string * option go_error :=
  let idFileExists := match sys_Stat sys with Some _ => true | None => bool_decide (is_Some disk) end in
  if cfg_ID c =? 0 then
    if idFileExists then
      match read_id sys disk "could not read ID from file" "could not parse ID from file" with
      | Ok id => (set_ID id c, disk, None)
      | Err e => (c, disk, Some e)
      | Panic msg => (c, disk, Some (ErrNew msg))
      end
    else
      let c := set_ID (sys_Uint64 sys) c in
      let '(disk, err) := write_id sys disk (cfg_ID c) in
      (c, disk, err)
  else if idFileExists then
    match read_id sys disk "could not read ID for check" "could not parse ID for check" with
    | Ok id =>
      if negb (id =? cfg_ID c) then
        (c, disk, Some (ErrNew ("configured with ID [" +:+ NodeIDToString (cfg_ID c) +:+ "], however, persisted ID is [" +:+
                                NodeIDToString id +:+ "]")))
      else (c, disk, None)
    | Err e => (c, disk, Some e)
    | Panic msg => (c, disk, Some (ErrNew msg))
    end
  else
    let '(disk, err) := write_id sys disk (cfg_ID c) in
    (c, disk, err).

Definition init_host (sys : system) (c : Config) : Config * option go_error :=
  if bool_decide (cfg_AdvertiseHost c = "") then
    if bool_decide (cfg_BindHost c = "") || bool_decide (cfg_BindHost c = "0.0.0.0") || bool_decide (cfg_BindHost c = "[::]") then
      match sys_Hostname sys with
      | Ok hostname => (set_AdvertiseHost hostname c, None)
      | Err e => (c, Some (ErrWrap e "could not get hostname"))
      | Panic msg => (c, Some (ErrNew msg))
      end
    else (set_AdvertiseHost (cfg_BindHost c) c, None)
  else (c, None).

(** [Init]: the configuration, the file and the error after it. *)
Definition Init (sys : system) (disk : option string) (c : Config) : Config * option string * option go_error :=
  let c := if (cfg_AMQPPort c =? 0) && negb (cfg_Port c =? 0) then set_AMQPPort (cfg_Port c + 1) c else c in
  if bool_decide (cfg_Dir c = "") then (c, disk, Some (ErrNew "dir not set"))
  else
    match sys_MkdirAll sys with
    | Some e => (c, disk, Some (ErrWrap e "could not create dir"))
    | None =>
      match init_id sys disk c with
      | (c, disk, Some e) => (c, disk, Some e)
      | (c, disk, None) => let '(c, err) := init_host sys c in (c, disk, err)
      end
    end.

(** The address that a node tells the others, of those that its host name has: the first of IPv4, or the first (src/mq/cmd/cmd.go). *)
Inductive IP : Type :=
| IPv4 (ip : string)
| IPv6 (ip : string).
Definition To4 (ip : IP) : option IP := match ip with IPv4 _ => Some ip | IPv6 _ => None end.
Definition advertise_ip (ips : list IP) : result go_error IP :=
  match find_first (λ ip, bool_decide (is_Some (To4 ip))) ips with
  | Some (_, ip) => Ok ip
  | None => match ips with [] => Panic "index out of range" | ip :: _ => Ok ip end
  end.

(** ** Trimming *)

Lemma trim_left_none l : Forall (λ c, in_cutset c = false) l → trim_left l = l.
Proof. by intros [|c l' Hc]; [|cbn; rewrite Hc]. Qed.

Lemma hex_not_cut c v : hex_value c = Some v → in_cutset c = false.
Proof. by destruct c as [[] [] [] [] [] [] [] []]. Qed.

Lemma parse_not_cut s : ∀ acc id, parse_hex s acc = Some id → Forall (λ c, in_cutset c = false) (String.list_ascii_of_string s).
Proof.
  induction s as [|c s IH]; intros acc id; cbn; [constructor|]. destruct (hex_value c) eqn:Hc; [|done]. case_match; [done|].
  intros Hp. constructor; [by eapply hex_not_cut|by eapply IH].
Qed.

Lemma Trim_line s id : ParseUint16 s = Some id → Trim (s +:+ newline) = s.
Proof.
  intros H. assert (Forall (λ c, in_cutset c = false) (String.list_ascii_of_string s)) as Hs by (destruct s; [done|by eapply parse_not_cut]).
  unfold Trim. assert (String.list_ascii_of_string (s +:+ newline) = String.list_ascii_of_string s ++ [Ascii.ascii_of_nat 10]) as ->.
  { clear. induction s as [|c s IH]; [done|]. exact (f_equal (cons c) IH). }
  assert (trim_left (String.list_ascii_of_string s ++ [Ascii.ascii_of_nat 10]) = String.list_ascii_of_string s ++ [Ascii.ascii_of_nat 10]) as ->.
  { destruct (String.list_ascii_of_string s) as [|c l] eqn:E; [by destruct s|]. inversion Hs as [|? ? Hc]; subst. cbn. by rewrite Hc. }
  rewrite rev_unit. cbn [trim_left in_cutset]. change (in_cutset (Ascii.ascii_of_nat 10)) with true. cbv iota.
  rewrite trim_left_none by (by apply Forall_rev). rewrite rev_involutive. apply String.string_of_list_ascii_of_string.
Qed.

(** ** The identifier of a node *)

(** The file holds an identifier. *)
Definition holds (disk : option string) (id : Z) : Prop := ∃ buf, disk = Some buf ∧ NodeIDFromString (Trim buf) = Some id.

Definition valid_id (id : Z) : Prop := 0 ≤ id ≤ MaxUint64.

Lemma read_id_holds sys disk id m1 m2 : read_id sys disk m1 m2 = Ok id → holds disk id.
Proof.
  unfold read_id, ReadFile. destruct (sys_ReadFile sys); [done|]. destruct disk as [buf|]; [|done].
  destruct (NodeIDFromString (Trim buf)) as [i|] eqn:E; [|done]. intros [= ->]. by exists buf.
Qed.

Lemma write_id_holds sys disk id disk' : valid_id id → write_id sys disk id = (disk', None) → holds disk' id.
Proof.
  unfold write_id. destruct (sys_WriteFile sys); [|done]. intros Hid [= <-]. eexists. split; [done|].
  pose proof (pad16_parse id Hid) as Hp. by rewrite (Trim_line _ id).
Qed.

Lemma init_id_holds sys disk c c' disk' :
  valid_id (cfg_ID c) → valid_id (sys_Uint64 sys) → init_id sys disk c = (c', disk', None) → holds disk' (cfg_ID c').
Proof.
  intros Hc Hr. unfold init_id. set (e := match sys_Stat sys with Some _ => _ | None => _ end). destruct (cfg_ID c =? 0).
  - destruct e; [|destruct (write_id _ _ _) as [d err] eqn:E; intros [= <- -> ->]; by eapply write_id_holds].
    destruct (read_id _ _ _ _) as [id| |] eqn:E; [|done..]. intros [= <- <-]. by eapply read_id_holds.
  - destruct e; [|destruct (write_id _ _ _) as [d err] eqn:E; intros [= <- -> ->]; by eapply write_id_holds].
    destruct (read_id _ _ _ _) as [id| |] eqn:E; [|done..]. destruct (Z.eqb_spec id (cfg_ID c)) as [->|]; [|done].
    intros [= <- <-]. by eapply read_id_holds.
Qed.

(** With an identifier in the file, it is taken or checked, and the file stays. *)
Lemma init_id_stays sys disk c id : holds disk id →
  (init_id sys disk c).1.2 = disk ∧
  ((init_id sys disk c).2 = None → cfg_ID (init_id sys disk c).1.1 = id) ∧
  ((init_id sys disk c).2 = None → cfg_ID c = 0 ∨ cfg_ID c = id) ∧
  (cfg_ID c = 0 ∨ cfg_ID c = id → sys_ReadFile sys = None → (init_id sys disk c).2 = None).
Proof.
  intros (buf & -> & Hid). unfold init_id. assert (match sys_Stat sys with Some _ => true | None => bool_decide (is_Some (Some buf)) end = true) as ->.
  { destruct (sys_Stat sys); [done|]. by apply bool_decide_true. }
  unfold read_id, ReadFile. destruct (Z.eqb_spec (cfg_ID c) 0), (sys_ReadFile sys); try (split_and!; naive_solver); rewrite Hid; try (split_and!; naive_solver).
  destruct (Z.eqb_spec id (cfg_ID c)); cbn; split_and!; naive_solver.
Qed.

Lemma init_host_ID sys c : cfg_ID (init_host sys c).1 = cfg_ID c.
Proof. unfold init_host. by repeat case_match. Qed.

(** The configuration on which [Init] looks for the identifier. *)
Definition with_port (c : Config) : Config := if (cfg_AMQPPort c =? 0) && negb (cfg_Port c =? 0) then set_AMQPPort (cfg_Port c + 1) c else c.

(** What [Init] reports is what one of its parts does. *)
Lemma Init_cases sys disk c : ∃ c',
  cfg_ID c' = cfg_ID c ∧
  ((Init sys disk c).2 = None → Init sys disk c = (let '(c2, d, _) := init_id sys disk c' in ((init_host sys c2).1, d, None)) ∧ (init_id sys disk c').2 = None) ∧
  ((Init sys disk c).1.2 = disk ∨ (Init sys disk c).1.2 = (init_id sys disk c').1.2) ∧
  (cfg_Dir c ≠ "" → sys_MkdirAll sys = None → (∃ h, sys_Hostname sys = Ok h) → (init_id sys disk c').2 = None → (Init sys disk c).2 = None).
Proof.
  exists (with_port c). split; [unfold with_port; by case_match|]. unfold Init. fold (with_port c). cbv zeta.
  assert (cfg_Dir (with_port c) = cfg_Dir c) as -> by (unfold with_port; by case_match).
  case_bool_decide; [cbn; split_and!; naive_solver|]. destruct (sys_MkdirAll sys); [cbn; split_and!; naive_solver|].
  destruct (init_id sys disk (with_port c)) as [[c2 d] [e|]]; [cbn; split_and!; naive_solver|].
  destruct (init_host sys c2) as [c3 err] eqn:E. cbn. split_and!; [by intros ->|by right|]. intros _ _ [h Hh] _.
  revert E. unfold init_host. rewrite Hh. repeat case_match; naive_solver.
Qed.

(** (C37) The identifier of a node never changes.  After a start that succeeds, the file in the directory of the node holds the
    identifier of the node.  Whatever happens in later starts, the file stays as it is; a start succeeds only with that identifier, and only when no
    other was configured; and it does succeed then, when the directory, the file and the name of the host can be read. *)
Theorem node_id_stable sys disk c c1 disk1 :
  valid_id (cfg_ID c) → valid_id (sys_Uint64 sys) → Init sys disk c = (c1, disk1, None) →
  holds disk1 (cfg_ID c1) ∧
  ∀ sys' c', let '(c2, disk2, err) := Init sys' disk1 c' in
    disk2 = disk1 ∧
    (err = None → cfg_ID c2 = cfg_ID c1 ∧ (cfg_ID c' = 0 ∨ cfg_ID c' = cfg_ID c1)) ∧
    (cfg_ID c' = 0 ∨ cfg_ID c' = cfg_ID c1 → cfg_Dir c' ≠ "" → sys_MkdirAll sys' = None → sys_ReadFile sys' = None →
     (∃ hostname, sys_Hostname sys' = Ok hostname) → err = None).
Proof.
  intros Hc Hr E. assert (holds disk1 (cfg_ID c1)) as Hd.
  { destruct (Init_cases sys disk c) as (ci & Hi & Hok & _). rewrite E in Hok. destruct (Hok eq_refl) as [Hok1 Hok2].
    destruct (init_id sys disk ci) as [[c2 d] err] eqn:Ei. cbn in Hok2. subst err. injection Hok1 as -> ->. rewrite init_host_ID.
    eapply init_id_holds; [..|exact Ei]; congruence. }
  split; [done|]. intros sys' c'. destruct (Init_cases sys' disk1 c') as (ci & Hi & Hok & Hdisk & Hlive).
  destruct (init_id_stays sys' disk1 ci _ Hd) as (S1 & S2 & S3 & S4). destruct (Init sys' disk1 c') as [[c2 disk2] err]. cbn in Hdisk, Hlive, Hok.
  split_and!; [destruct Hdisk; congruence| |]; [|intros; apply Hlive; try done; apply S4; congruence].
  intros ->. destruct (Hok eq_refl) as [Hok1 Hok2]. rewrite <- Hi. split; [|by apply S3].
  destruct (init_id sys' disk1 ci) as [[c3 d3] err3]. injection Hok1 as -> ->. rewrite init_host_ID. by apply S2.
Qed.

Definition demo_system : system :=
  {| sys_MkdirAll := None; sys_Stat := None; sys_ReadFile := None; sys_WriteFile := FileWritten; sys_Uint64 := 3054;
     sys_Hostname := Ok "node-1" |}.
Definition demo_config (id : Z) : Config :=
  {| cfg_ID := id; cfg_BindHost := ""; cfg_AdvertiseHost := ""; cfg_Port := 16000; cfg_AMQPPort := 0; cfg_Dir := "/data"; cfg_DirPerm := 493 |}.

Lemma node_id_stable_witness : holds (Some ("0000000000000bee" +:+ newline)) 3054.
Proof.
  refine (proj1 (node_id_stable demo_system None (demo_config 0)
    {| cfg_ID := 3054; cfg_BindHost := ""; cfg_AdvertiseHost := "node-1"; cfg_Port := 16000; cfg_AMQPPort := 16001; cfg_Dir := "/data";
       cfg_DirPerm := 493 |} _ _ _ _)); [split; vm_compute; discriminate..|by vm_compute].
Defined.
