(* ===== verification/LiveReload.v ===== *)
(** * Live reload: master and worker

    src/livereload: a master process that watches the sources of a program, rebuilds it and replaces the worker process.  This file has the parts
    without shared state: how [New] decides what a process is (livereload.go), the address of the master that a worker gets in its environment and
    the connection it makes to it (master_start.go, worker.go), the routes of the master (master_http.go), the command line of a build
    (master_build.go) and which packages are watched (master_watch.go).  The master itself is in LiveReloadMaster.v. *)
From Stdlib Require Import Ascii.
From stdpp Require Import pretty.
From S2P Require Import Prelude Bytes Interaction.

(** ** Strings *)

Notation prefixed s p := (String.prefix p s).

Fixpoint contains (c : Ascii.ascii) (s : string) : bool :=
  match s with
  | EmptyString => false
  | String c' s => bool_decide (c = c') || contains c s
  end.

(** What is before and after the first [c]. *)
Fixpoint cut (c : Ascii.ascii) (s : string) : string * option string :=
  match s with
  | EmptyString => ("", None)
  | String c' s => if bool_decide (c = c') then ("", Some s) else let '(before, after) := cut c s in (String c' before, after)
  end.

(** [strings.Split] with a separator of one byte, and [strings.Join] *)
Fixpoint Split (c : Ascii.ascii) (s : string) : list string :=
  match s with
  | EmptyString => [""]
  | String c' s =>
    if bool_decide (c = c') then "" :: Split c s
    else match Split c s with w :: ws => String c' w :: ws | [] => [String c' ""] end
  end.
Fixpoint Join (sep : string) (l : list string) : string :=
  match l with
  | [] => ""
  | [s] => s
  | s :: l => s +:+ sep +:+ Join sep l
  end.

(** [s[n:]] *)
Definition from_index (n : nat) (s : string) : string := String.substring n (String.length s - n) s.

(** [strconv.FormatUint(n, 10)], [strconv.Itoa]; [strconv.ParseUint(s, 10, 64)] *)
Definition Itoa (n : Z) : string := pretty n.
Definition digit (c : Ascii.ascii) : option Z :=
  let z := Z.of_nat (Ascii.nat_of_ascii c) in if (48 <=? z) && (z <=? 57) then Some (z - 48) else None.
Fixpoint parse_dec (s : string) (acc : Z) : option Z :=
  match s with
  | EmptyString => Some acc
  | String c s =>
    match digit c with
    | Some v => let acc := acc * 10 + v in if MaxUint64 <? acc then None else parse_dec s acc
    | None => None
    end
  end.
Definition ParseUint64 (s : string) : option Z := match s with EmptyString => None | _ => parse_dec s 0 end.

(** ** Configuration *)

Definition MasterEnv : string := "LIVERELOAD_MASTER".
Definition ConfigHashEnv : string := "LIVERELOAD_MASTER_CONFIG_HASH".
Definition BuildTagsEnv : string := "LIVERELOAD_BUILD_TAGS".
Definition BuildArgsEnv : string := "LIVERELOAD_BUILD_ARGS".
Definition DefaultPort : Z := 20123.
Definition DefaultReadyTimeout : Z := 10 * 1000000000.
Definition ConfigHashMismatchExitCode : Z := 3.

Record ListenerDefinition : Type := { ld_Network : string; ld_Address : string }.

Inductive Logger : Type :=
| GivenLogger
| DefaultLogger (noColors : bool).

Record Config : Type := {
  cfg_Live : bool;
  cfg_Network : string;
  cfg_Address : string;
  cfg_Package : string;
  cfg_BuildTags : option (list string); (* nil or a slice *)
  cfg_BuildArgs : option (list string);
  cfg_ReadyTimeout : Z;
  cfg_Listeners : list ListenerDefinition;
  cfg_Logger : option Logger;
  cfg_NoColors : bool;
}.

Definition default_address (network address : string) : string * string :=
  let '(network, address) := if bool_decide (address = "") then ("tcp", ":" +:+ Itoa DefaultPort) else (network, address) in
  if bool_decide (network = "") then
    if contains "/"%char address || negb (contains ":"%char address) then ("unix", address) else ("tcp", address)
  else (network, address).

Definition default_list (sep : Ascii.ascii) (value : string) (l : option (list string)) : option (list string) :=
  match l with
  | Some l => Some l
  | None => if bool_decide (value = "") then None else Some (Split sep value)
  end.

(** What [New] fills in. *)
Definition with_defaults (Getenv : string → string) (config : Config) : Config :=
  let '(network, address) := default_address (cfg_Network config) (cfg_Address config) in
  {| cfg_Live := cfg_Live config; cfg_Network := network; cfg_Address := address; cfg_Package := cfg_Package config;
     cfg_BuildTags := default_list ","%char (Getenv BuildTagsEnv) (cfg_BuildTags config);
     cfg_BuildArgs := default_list " "%char (Getenv BuildArgsEnv) (cfg_BuildArgs config);
     cfg_ReadyTimeout := if cfg_ReadyTimeout config =? 0 then DefaultReadyTimeout else cfg_ReadyTimeout config;
     cfg_Listeners := cfg_Listeners config;
     cfg_Logger := Some (default (DefaultLogger (cfg_NoColors config)) (cfg_Logger config));
     cfg_NoColors := cfg_NoColors config |}.

(** [fnv.New64] *)
Definition fnv64 (bytes : list Z) : Z := fold_left (λ h b, Z.lxor (u64 (h * 1099511628211)) b) bytes 14695981039346656037.

(** ** URLs (net/url), as far as the address of the master needs them *)

Record URL : Type := { url_Scheme : string; url_Host : string; url_Path : string }.

Definition is_letter (c : Ascii.ascii) : bool :=
  let z := Z.of_nat (Ascii.nat_of_ascii c) in ((97 <=? z) && (z <=? 122)) || ((65 <=? z) && (z <=? 90)).
Definition ToLower (c : Ascii.ascii) : Ascii.ascii :=
  let z := Z.of_nat (Ascii.nat_of_ascii c) in if (65 <=? z) && (z <=? 90) then Ascii.ascii_of_nat (Z.to_nat (z + 32)) else c.

(** [getscheme]: the scheme and the rest; without a scheme, all of [whole]. *)
Fixpoint getscheme (whole acc s : string) : result go_error (string * string) :=
  match s with
  | EmptyString => Ok ("", whole)
  | String c s =>
    if is_letter c then getscheme whole (acc +:+ String (ToLower c) "") s
    else if bool_decide (is_Some (digit c)) || contains c "+-." then
      if bool_decide (acc = "") then Ok ("", whole) else getscheme whole (acc +:+ String c "") s
    else if bool_decide (c = ":"%char) then
      if bool_decide (acc = "") then Err (ErrNew "missing protocol scheme") else Ok (acc, s)
    else Ok ("", whole)
  end.

Definition unhex (c : Ascii.ascii) : option Z :=
  let z := Z.of_nat (Ascii.nat_of_ascii c) in
  if (48 <=? z) && (z <=? 57) then Some (z - 48)
  else if (97 <=? z) && (z <=? 102) then Some (z - 87)
  else if (65 <=? z) && (z <=? 70) then Some (z - 55)
  else None.

(** [unescape]: [allowed] says which bytes may be as they are, [escaped] which may be written with a percent sign. *)
Fixpoint unescape (allowed : Ascii.ascii → bool) (escaped : Z → bool) (s : string) : result go_error string :=
  match s with
  | EmptyString => Ok ""
  | String c s =>
    if bool_decide (c = "%"%char) then
      match s with
      | String h (String l s) =>
        match unhex h, unhex l with
        | Some h, Some l =>
          if escaped (16 * h + l) then s ← unescape allowed escaped s; Ok (String (Ascii.ascii_of_nat (Z.to_nat (16 * h + l))) s)
          else Err (ErrNew "invalid URL escape")
        | _, _ => Err (ErrNew "invalid URL escape")
        end
      | _ => Err (ErrNew "invalid URL escape")
      end
    else if allowed c then s ← unescape allowed escaped s; Ok (String c s)
    else Err (ErrNew "invalid character in host name")
  end.

Definition any_char (c : Ascii.ascii) : bool := true.
Definition any_escape (z : Z) : bool := true.

(** In a host, a byte of ASCII must not need escaping, and only others (and the percent sign itself) may be escaped. *)
Definition host_char (c : Ascii.ascii) : bool :=
  is_letter c || bool_decide (is_Some (digit c)) || contains c "-_.~!$&'()*+,;=:[]<>" || bool_decide (c = Ascii.ascii_of_nat 34) ||
  (128 <=? Z.of_nat (Ascii.nat_of_ascii c)).
Definition host_escape (z : Z) : bool := (128 <=? z) || (z =? 37).

Definition validOptionalPort (s : string) : bool :=
  match s with
  | EmptyString => true
  | String c s => bool_decide (c = ":"%char) && forallb (λ c, bool_decide (is_Some (digit c))) (String.list_ascii_of_string s)
  end.

(** What is before and after the last [c]. *)
Fixpoint cut_last (c : Ascii.ascii) (s : string) : option (string * string) :=
  match s with
  | EmptyString => None
  | String c' s =>
    match cut_last c s with
    | Some (before, after) => Some (String c' before, after)
    | None => if bool_decide (c = c') then Some ("", s) else None
    end
  end.

(** [parseHost], without zones *)
Definition parseHost (host : string) : result go_error string :=
  if prefixed host "[" then
    match cut_last "]"%char host with
    | None => Err (ErrNew "missing ']' in host")
    | Some (_, port) => if validOptionalPort port then unescape host_char host_escape host else Err (ErrNew "invalid port after host")
    end
  else unescape host_char host_escape host.

Definition userinfo_char (c : Ascii.ascii) : bool :=
  is_letter c || bool_decide (is_Some (digit c)) || contains c "-._:~!$&'()*+,;=%@".

(** [parseAuthority] *)
Definition parseAuthority (authority : string) : result go_error string :=
  match cut_last "@"%char authority with
  | None => parseHost authority
  | Some (userinfo, host) =>
    host ← parseHost host;
    if forallb userinfo_char (String.list_ascii_of_string userinfo) then _ ← unescape any_char any_escape userinfo; Ok host
    else Err (ErrNew "net/url: invalid userinfo")
  end.

(** [url.Parse] *)
Definition url_Parse (rawurl : string) : result go_error URL :=
  let '(u, frag) := cut "#"%char rawurl in
  url ← (if bool_decide (u = "*") then Ok {| url_Scheme := ""; url_Host := ""; url_Path := "*" |}
         else
           '(scheme, rest) ← getscheme u "" u;
           let '(rest, _) := cut "?"%char rest in
           if negb (prefixed rest "/") && negb (bool_decide (scheme = "")) then Ok {| url_Scheme := scheme; url_Host := ""; url_Path := "" |}
           else if negb (prefixed rest "/") && contains ":"%char (cut "/"%char rest).1 then Err (ErrNew "first path segment in URL cannot contain colon")
           else
             '(host, rest) ← (if (negb (bool_decide (scheme = "")) || negb (prefixed rest "///")) && prefixed rest "//" then
                                let '(authority, path) := cut "/"%char (from_index 2 rest) in
                                host ← parseAuthority authority; Ok (host, match path with Some path => "/" +:+ path | None => "" end)
                              else Ok ("", rest));
             path ← unescape any_char any_escape rest;
             Ok {| url_Scheme := scheme; url_Host := host; url_Path := path |});
  match frag with
  | None => Ok url
  | Some frag => _ ← unescape any_char any_escape frag; Ok url
  end.

(** ** The address of the master *)

(** The value of [LIVERELOAD_MASTER] that [start] gives to a worker. *)
Definition master_url (config : Config) : result go_error string :=
  let network := cfg_Network config in
  let address := cfg_Address config in
  if bool_decide (network = "tcp") || bool_decide (network = "tcp4") || bool_decide (network = "tcp6") then
    if prefixed address ":" then Ok (network +:+ "://localhost" +:+ address +:+ "/")
    else if prefixed address "0.0.0.0:" then Ok (network +:+ "://localhost" +:+ from_index 7 address +:+ "/")
    else if prefixed address "[::]:" then Ok (network +:+ "://localhost" +:+ from_index 4 address +:+ "/")
    else Ok (network +:+ "://" +:+ address +:+ "/")
  else if bool_decide (network = "unix") || bool_decide (network = "unixpacket") then
    let path := if negb (prefixed address "/") then "/./" +:+ address else address in
    Ok ("unix://" +:+ path)
  else Panic "cannot happen, net.Listen() would've failed".

(** The environment of a worker. *)
Definition worker_env (config : Config) (configHash : Z) (environ : list string) : result go_error (list string) :=
  url ← master_url config; Ok (environ ++ [MasterEnv +:+ "=" +:+ url; ConfigHashEnv +:+ "=" +:+ Itoa configHash]).

(** [os.Getenv] in a process that was started with an environment; of a variable that is given twice, [exec.Cmd] keeps the last value. *)
Definition Getenv_of (environ : list string) (key : string) : string :=
  foldl (λ value entry, match cut "="%char entry with (k, Some v) => if bool_decide (k = key) then v else value | (_, None) => value end) "" environ.

(** ** The sockets of a worker *)

(** A socket that listens; the number tells sockets apart. *)
Record socket : Type := { sock_id : nat; sock_network : string; sock_address : string }.

(** What the calls for one listener answer: [net.Listen], the test for a method [File], and that method. *)
Inductive listen_answer : Type :=
| ListenFails (e : go_error)
| ListenNoFile
| ListenFileFails (e : go_error)
| Listens (id : nat).

(** The loop of [Run] over the listeners of the configuration: [m.listenerFiles], which are files of the sockets, and the error that ends
    [Run].  The files are closed when [Run] returns. *)
Fixpoint open_listeners (answers : nat → listen_answer) (i : nat) (listeners : list ListenerDefinition) (listenerFiles : list socket) :
    result go_error unit * list socket :=
  match listeners with
  | [] => (Ok (), listenerFiles)
  | l :: listeners =>
    match answers i with
    | ListenFails e => (Err (ErrWrap e ("could not create listener for [" +:+ ld_Network l +:+ ":" +:+ ld_Address l +:+ "]")), listenerFiles)
    | ListenNoFile => (Err (ErrNew "listener cannot be converted to file"), listenerFiles)
    | ListenFileFails e => (Err (ErrWrap e "could not convert listener to file"), listenerFiles)
    | Listens id =>
      open_listeners answers (S i) listeners
        (listenerFiles ++ [{| sock_id := id; sock_network := ld_Network l; sock_address := ld_Address l |}])
    end
  end.

(** The command that [start] runs: its environment and [ExtraFiles]. *)
Record command : Type := { cmd_Env : list string; cmd_ExtraFiles : list socket }.
Definition worker_command (config : Config) (configHash : Z) (environ : list string) (listenerFiles : list socket) : result go_error command :=
  env ← worker_env config configHash environ; Ok {| cmd_Env := env; cmd_ExtraFiles := listenerFiles |}.

(** What [exec.Cmd] opens for the process: after the three standard descriptors the entries of [ExtraFiles], in order. *)
Definition descriptor (c : command) (fd : Z) : option socket := if fd <? 3 then None else cmd_ExtraFiles c !! Z.to_nat (fd - 3).

Record worker : Type := { w_config : Config; w_masterURL : URL; w_httpHost : string }.

Definition newWorker (config : Config) (master : string) : result go_error worker :=
  match url_Parse master with
  | Ok masterURL =>
    Ok {| w_config := config; w_masterURL := masterURL;
          w_httpHost := if negb (bool_decide (url_Host masterURL = "")) then url_Host masterURL else "master" |}
  | Err e => Err (ErrWrap e ("could not parse master URL [" +:+ master +:+ "]"))
  | Panic msg => Panic msg
  end.

(** [DialContext] of the worker's client: the network and the address that it dials. *)
Definition worker_dial (w : worker) : result go_error (string * string) :=
  let scheme := url_Scheme (w_masterURL w) in
  if bool_decide (scheme = "tcp") || bool_decide (scheme = "tcp4") || bool_decide (scheme = "tcp6") then Ok (scheme, url_Host (w_masterURL w))
  else if bool_decide (scheme = "unix") || bool_decide (scheme = "unixpacket") then
    let path := url_Path (w_masterURL w) in
    Ok (scheme, if prefixed path "/./" then from_index 3 path else path)
  else Err (ErrNew ("could not dial network [" +:+ scheme +:+ "]")).

(** [Listen]: the descriptor of the [i]-th listener and its name, and the socket behind the descriptor, if it is one. *)
Definition firstListenFd : Z := 3.
Definition worker_Listen (w : worker) (i : Z) : result go_error (Z * string) :=
  if i <? 0 then Panic "index out of range"
  else
    match cfg_Listeners (w_config w) !! Z.to_nat i with
    | None => Panic "index out of range"
    | Some l => Ok (firstListenFd + i, ld_Network l +:+ ":" +:+ ld_Address l)
    end.
Definition worker_listener (open : Z → option socket) (w : worker) (i : Z) : result go_error socket :=
  '(fd, _) ← worker_Listen w i;
  match open fd with
  | Some s => Ok s
  | None => Err (ErrNew "file file+net: not a socket")
  end.

(** [Ready]: the path of the request, and what the answer means. *)
Definition ready_path (pid : Z) : string := "/livereload/workers/" +:+ Itoa pid +:+ "/ready".
Definition worker_Ready (response : result go_error Z) : option go_error :=
  match response with
  | Ok status => if (status <? 200) || (299 <? status) then Some (ErrNew ("master responded with [" +:+ Itoa status +:+ "]")) else None
  | Err e => Some e
  | Panic msg => Some (ErrNew msg)
  end.

(** Without live reload the process is its own worker. *)
Definition masterWorker_Listen (config : Config) (i : Z) : result go_error (string * string) :=
  if i <? 0 then Panic "index out of range"
  else match cfg_Listeners config !! Z.to_nat i with
       | None => Panic "index out of range"
       | Some l => Ok (ld_Network l, ld_Address l)
       end.
Definition masterWorker_Ready : option go_error := None.

(** ** What a process is *)

Inductive instance : Type :=
| IsMaster (config : Config) (configHash : Z)
| IsWorker (w : worker)
| IsMasterWorker (config : Config).

Inductive new_outcome : Type :=
| Created (i : instance)
| NewFailed (e : go_error)
| Exited (code : Z).

Section new.

(** [json.NewEncoder(h).Encode(c)]: the bytes that go into the hash, or an error. *)
Context (json_Encode : Config → result go_error (list Z)).

Definition config_hash (c : Config) : result go_error Z :=
  match json_Encode c with
  | Ok bytes => Ok (fnv64 bytes)
  | Err e => Err (ErrWrap e "config hash")
  | Panic msg => Panic msg
  end.

Definition newMaster (config : Config) : result go_error instance := Wrap "compute config hash" (config_hash config) ≫= λ h, Ok (IsMaster config h).

(** The check of a process that has a master: its configuration must be the one that the master has. *)
Definition check_hash (config : Config) (configHashEnv : string) : result go_error bool :=
  match ParseUint64 configHashEnv with
  | None =>
    Err (ErrWrap (ErrNew "invalid syntax")
           ("could not parse env variable [" +:+ ConfigHashEnv +:+ "] with value [" +:+ configHashEnv +:+ "]"))
  | Some masterConfigHash =>
    thisConfigHash ← Wrap "could not create hash for config" (config_hash config); Ok (thisConfigHash =? masterConfigHash)
  end.

Definition created (r : result go_error instance) : new_outcome :=
  match r with Ok i => Created i | Err e => NewFailed e | Panic msg => NewFailed (ErrNew msg) end.

Definition New (Getenv : string → string) (config : Config) : new_outcome :=
  let config := with_defaults Getenv config in
  let masterEnv := Getenv MasterEnv in
  let instance :=
    if negb (cfg_Live config) then Created (IsMasterWorker config)
    else if bool_decide (masterEnv = "") then created (newMaster config)
    else created (w ← newWorker config masterEnv; Ok (IsWorker w)) in
  if negb (bool_decide (masterEnv = "")) then
    match check_hash config (Getenv ConfigHashEnv) with
    | Ok true => instance
    | Ok false => Exited ConfigHashMismatchExitCode
    | Err e => NewFailed e
    | Panic msg => NewFailed (ErrNew msg)
    end
  else instance.

End new.

(** ** Routes *)

Inductive route : Type :=
| RouteReady (pid : Z)
| RouteEvents
| RouteNotFound.

Fixpoint span_digits (s : string) : string * string :=
  match s with
  | EmptyString => ("", "")
  | String c s' => if bool_decide (is_Some (digit c)) then let '(d, rest) := span_digits s' in (String c d, rest) else ("", s)
  end.

(** [^/livereload/workers/(?P<pid>\d+)/ready] *)
Definition match_ready (path : string) : option string :=
  if prefixed path "/livereload/workers/" then
    let '(pid, rest) := span_digits (from_index 20 path) in
    if negb (bool_decide (pid = "")) && prefixed rest "/ready" then Some pid else None
  else None.

(** [strconv.Atoi] on digits, with the error ignored: a number that is too large becomes the largest. *)
Definition Atoi (digits : string) : Z :=
  match ParseUint64 digits with Some n => if MaxInt64 <? n then MaxInt64 else n | None => MaxInt64 end.

(** [ServeHTTP] *)
Definition route_of (method path : string) : route :=
  match match_ready path with
  | Some pid => if bool_decide (method = "PUT") then RouteReady (Atoi pid)
                else if bool_decide (method = "GET") && bool_decide (path = "/livereload/events") then RouteEvents else RouteNotFound
  | None => if bool_decide (method = "GET") && bool_decide (path = "/livereload/events") then RouteEvents else RouteNotFound
  end.

(** ** Paths (path/filepath) *)

(** [filepath.Clean]: [stack] holds the elements so far, the last one first. *)
Fixpoint clean_elements (rooted : bool) (elements stack : list string) : list string :=
  match elements with
  | [] => rev stack
  | e :: elements =>
    if bool_decide (e = "") || bool_decide (e = ".") then clean_elements rooted elements stack
    else if bool_decide (e = "..") then
      match stack with
      | top :: stack' =>
        if bool_decide (top = "..") then clean_elements rooted elements (e :: stack) else clean_elements rooted elements stack'
      | [] => if rooted then clean_elements rooted elements [] else clean_elements rooted elements [e]
      end
    else clean_elements rooted elements (e :: stack)
  end.
Definition Clean (path : string) : string :=
  let rooted := prefixed path "/" in
  let s := (if rooted then "/" else "") +:+ Join "/" (clean_elements rooted (Split "/"%char path) []) in
  if bool_decide (s = "") then "." else s.

Definition Dir (path : string) : string :=
  match cut_last "/"%char path with Some (before, _) => Clean (before +:+ "/") | None => "." end.

Fixpoint trim_slashes (l : list ascii) : list ascii :=
  match l with [] => [] | c :: l' => if bool_decide (c = "/"%char) then trim_slashes l' else l end.
Definition Base (path : string) : string :=
  if bool_decide (path = "") then "."
  else
    let path := String.string_of_list_ascii (rev (trim_slashes (rev (String.list_ascii_of_string path)))) in
    let path := match cut_last "/"%char path with Some (_, after) => after | None => path end in
    if bool_decide (path = "") then "/" else path.
Definition Ext (path : string) : string :=
  let name := match cut_last "/"%char path with Some (_, after) => after | None => path end in
  match cut_last "."%char name with Some (_, ext) => "." +:+ ext | None => "" end.
Definition path_Join (elements : list string) : string :=
  match List.filter (λ e, negb (bool_decide (e = ""))) elements with [] => "" | l => Clean (Join "/" l) end.

(** ** Builds *)

Definition new_executable (executablePath : string) (now : Z) : string :=
  path_Join [Dir executablePath; "." +:+ Base executablePath +:+ "." +:+ Itoa now].

(** The arguments of the [go] command of [build]. *)
Definition build_args (config : Config) (newExecutablePath : string) : list string :=
  ["build"] ++ match cfg_BuildTags config with Some tags => ["-tags=" +:+ Join "," tags] | None => [] end ++
  match cfg_BuildArgs config with Some args => args | None => ["-v"] end ++ ["-o=" +:+ newExecutablePath; cfg_Package config].

(** ** Watched packages *)

(** A package of the loader (golang.org/x/tools/go/packages), with the identifiers of its imports in the order in which the loop sees them. *)
Record Package : Type := { pkg_ID : string; pkg_GoFiles : list string; pkg_OtherFiles : list string; pkg_Imports : list string }.

Definition getPackageDir (pkg : Package) : string :=
  match pkg_GoFiles pkg with
  | f :: _ => Dir f
  | [] => match pkg_OtherFiles pkg with f :: _ => Dir f | [] => "" end
  end.

Section watch.

(** The loaded packages by identifier, and the directory of the Go installation. *)
Context (graph : gmap string Package) (goroot : string).

(** The loop over the imports of a package. *)
Fixpoint watch_imports (owner : string) (imports : list string) (processed : gset string) (queue : list Package) :
    result go_error (gset string * list Package) :=
  match imports with
  | [] => Ok (processed, queue)
  | id :: imports =>
    if bool_decide (id ∈ processed) then watch_imports owner imports processed queue
    else
      match graph !! id with
      | None => Panic "nil pointer dereference"
      | Some importedPkg =>
        let processed := {[id]} ∪ processed in
        let importedPkgDir := getPackageDir importedPkg in
        if bool_decide (importedPkgDir = "") then Err (ErrNew ("could not determine package dir of [" +:+ owner +:+ "]"))
        else if prefixed importedPkgDir goroot then watch_imports owner imports processed queue
        else watch_imports owner imports processed (queue ++ [importedPkg])
      end
  end.

(** The loop over the queue; also the directories that are given to the watcher, in their order. *)
Fixpoint watch_loop (fuel : nat) (processed : gset string) (queue : list Package) (watched : gmap string string) (added : list string) :
    result go_error unit * gmap string string * list string :=
  match fuel, queue with
  | _, [] => (Ok (), watched, added)
  | O, _ => (Panic "out of fuel", watched, added)
  | S fuel, pkg :: queue =>
    let pkgDir := getPackageDir pkg in
    if bool_decide (pkgDir = "") then (Err (ErrNew ("could not determine package directory of [" +:+ pkg_ID pkg +:+ "]")), watched, added)
    else if prefixed pkgDir goroot then watch_loop fuel processed queue watched added
    else
      match watch_imports (pkg_ID pkg) (pkg_Imports pkg) processed queue with
      | Ok (processed, queue) => watch_loop fuel processed queue (<[pkgDir := pkg_ID pkg]> watched) (added ++ [pkgDir])
      | Err e => (Err e, watched, added)
      | Panic msg => (Panic msg, watched, added)
      end
  end.

(** [watchPackage] for a path that was loaded as [root]; every package is in the queue once. *)
Definition watchPackage (loaded : result go_error (list string)) (path : string) (watched : gmap string string) :
    result go_error unit * gmap string string * list string :=
  match loaded with
  | Err e => (Err (ErrWrap e ("loading package [" +:+ path +:+ "] failed")), watched, [])
  | Panic msg => (Panic msg, watched, [])
  | Ok [id] =>
    match graph !! id with
    | None => (Panic "nil pointer dereference", watched, [])
    | Some pkg => watch_loop (S (size graph)) ({[pkg_ID pkg]} ∪ {["C"]} ∪ {["unsafe"]}) [pkg] watched []
    end
  | Ok _ => (Ok (), watched, []) (* [errors.Wrapf] of a nil error is nil *)
  end.

End watch.
