(* ===== verification/LiveReloadProps.v ===== *)
(** * Live reload: theorems about master and worker

    The worker that a master starts finds the master again ([worker_joins_master]), and the sources that are watched are those that the program is
    made of ([watch_exact]). *)
From Stdlib Require Import Ascii.
From stdpp Require Import pretty.
From S2P Require Import Prelude Bytes Interaction LiveReload.

Notation prefixed s p := (String.prefix p s).

(** ** Numbers *)

Lemma digit_pretty n : (n < 10)%N → digit (pretty_N_char n) = Some (Z.of_N n).
Proof.
  intros Hn. assert (n ∈ [0;1;2;3;4;5;6;7;8;9]%N) as Hin by (rewrite !elem_of_cons; lia).
  repeat (apply elem_of_cons in Hin as [->|Hin]; [done|]). by apply elem_of_nil in Hin.
Qed.

Lemma parse_dec_pretty s n : (Z.of_N n ≤ MaxUint64) → parse_dec (pretty_N_go n s) 0 = parse_dec s (Z.of_N n).
Proof.
  revert s. induction (N.lt_wf_0 n) as [n _ IH]. intros s Hn. destruct (decide (n = 0)%N) as [->|Hz]; [by rewrite pretty_N_go_0|].
  rewrite pretty_N_go_step by lia. rewrite IH; [|apply N.div_lt; lia|rewrite N2Z.inj_div; pose proof (Z.div_le_upper_bound (Z.of_N n) (Z.of_N 10) (Z.of_N n)); lia].
  cbn [parse_dec]. rewrite digit_pretty by (apply N.mod_lt; lia).
  assert (Z.of_N (n / 10) * 10 + Z.of_N (n `mod` 10) = Z.of_N n) as -> by (rewrite (N.div_mod n 10) at 3 by lia; lia).
  cbv zeta. by rewrite (proj2 (Z.ltb_ge _ _)).
Qed.

Lemma pretty_N_go_not_empty n s : s ≠ "" → pretty_N_go n s ≠ "".
Proof.
  revert s. induction (N.lt_wf_0 n) as [n _ IH]. intros s Hs. destruct (decide (n = 0)%N) as [->|Hz]; [by rewrite pretty_N_go_0|].
  rewrite pretty_N_go_step by lia. apply IH; [apply N.div_lt; lia|done].
Qed.

Lemma ParseUint64_Itoa n : 0 ≤ n ≤ MaxUint64 → ParseUint64 (Itoa n) = Some n.
Proof.
  intros [Hn0 Hn]. unfold ParseUint64, Itoa, pretty, pretty_Z. destruct n as [|p|p]; [done| |lia].
  change (pretty p) with (pretty (Npos p)). unfold pretty, pretty_N. rewrite decide_False by done.
  pose proof (parse_dec_pretty "" (Npos p) Hn) as H.
  assert (pretty_N_go (Npos p) "" ≠ "") as Hne.
  { rewrite pretty_N_go_step by lia. by apply pretty_N_go_not_empty. }
  destruct (pretty_N_go (Npos p) ""); [done|]. exact H.
Qed.

(** ** Strings *)

Lemma contains_app c a b : contains c (a +:+ b) = contains c a || contains c b.
Proof. induction a as [|x a IH]; [done|]. change (contains c (String x a +:+ b)) with (bool_decide (c = x) || contains c (a +:+ b)). rewrite IH. by rewrite orb_assoc. Qed.

Lemma cut_none c s : contains c s = false → cut c s = (s, None).
Proof. induction s as [|x s IH]; cbn; [done|]. intros [H1 H2]%orb_false_iff. rewrite H1. by rewrite IH. Qed.

Lemma cut_app c a b : contains c a = false → cut c (a +:+ String c b) = (a, Some b).
Proof.
  induction a as [|x a IH]; [intros _|]. { change ((if bool_decide (c = c) then ("", Some b) else let '(u, v) := cut c b in (String c u, v)) = ("", Some b)). by rewrite bool_decide_true. }
  cbn [contains]. intros [H1 H2]%orb_false_iff.
  change (cut c (String x a +:+ String c b)) with (if bool_decide (c = x) then ("", Some (a +:+ String c b)) else let '(u, v) := cut c (a +:+ String c b) in (String x u, v)).
  by rewrite H1, IH.
Qed.

Lemma cut_last_none c s : contains c s = false → cut_last c s = None.
Proof. induction s as [|x s IH]; cbn; [done|]. intros [H1 H2]%orb_false_iff. by rewrite IH, H1. Qed.

Lemma substring_all s : String.substring 0 (String.length s) s = s.
Proof. induction s as [|c s IH]; cbn; congruence. Qed.

Lemma from_index_app a b : from_index (String.length a) (a +:+ b) = b.
Proof.
  unfold from_index. induction a as [|c a IH]; [cbn; rewrite Nat.sub_0_r; apply substring_all|]. exact IH.
Qed.

Lemma prefixed_app a b : prefixed (a +:+ b) a = true.
Proof. induction a as [|c a IH]; [by destruct b|]. change (String c a +:+ b) with (String c (a +:+ b)). cbn [String.prefix]. by destruct (ascii_dec c c). Qed.

Lemma prefixed_split s a : prefixed s a = true → ∃ b, s = a +:+ b.
Proof.
  revert s. induction a as [|c a IH]; intros s; [by exists s|]. destruct s as [|x s]; [done|]. cbn. destruct (ascii_dec c x) as [->|]; [|done].
  intros (b & ->)%IH. by exists b.
Qed.

Lemma app_nil_r_string s : s +:+ "" = s.
Proof. induction s as [|c s IH]; [done|exact (f_equal (String c) IH)]. Qed.

Lemma app_assoc_string a b c : (a +:+ b) +:+ c = a +:+ b +:+ c.
Proof. induction a as [|x a IH]; [done|exact (f_equal (String x) IH)]. Qed.

(** All characters of a string. *)
Fixpoint all_chars (P : ascii → bool) (s : string) : bool :=
  match s with EmptyString => true | String c s => P c && all_chars P s end.

Lemma all_contains P c s : all_chars P s = true → P c = false → contains c s = false.
Proof.
  intros Hs Hc. induction s as [|x s IH]; cbn in *; [done|]. apply andb_true_iff in Hs as [H1 H2]. rewrite IH by done.
  rewrite bool_decide_false; [done|]. intros <-. congruence.
Qed.

Lemma all_mono (P Q : ascii → bool) s : (∀ c, P c = true → Q c = true) → all_chars P s = true → all_chars Q s = true.
Proof. intros HPQ. induction s as [|x s IH]; cbn; [done|]. rewrite !andb_true_iff. naive_solver. Qed.

Lemma unescape_plain allowed escaped s :
  all_chars (λ c, allowed c && negb (bool_decide (c = "%"%char))) s = true → unescape allowed escaped s = Ok s.
Proof.
  induction s as [|c s IH]; cbn; [done|]. rewrite !andb_true_iff. intros [[H1 H2] H3]. apply negb_true_iff in H2. rewrite H2, H1, (IH H3). done.
Qed.

(** ** The URL of the master *)

Lemma host_not_percent c : host_char c = true → host_char c && negb (bool_decide (c = "%"%char)) = true.
Proof. by destruct c as [[] [] [] [] [] [] [] []]. Qed.

(** A host, with or without a port, that is written as it is. *)
Definition good_host (s : string) : bool :=
  all_chars host_char s &&
  (negb (prefixed s "[") || match cut_last "]"%char s with Some (_, port) => validOptionalPort port | None => false end).

Lemma parseAuthority_host host : good_host host = true → parseAuthority host = Ok host.
Proof.
  intros [Hc Hb]%andb_true_iff. unfold parseAuthority. rewrite cut_last_none by by eapply all_contains. unfold parseHost.
  assert (unescape host_char host_escape host = Ok host) as Hu.
  { apply unescape_plain. revert Hc. apply all_mono, host_not_percent. }
  destruct (prefixed host "["); cbn in Hb; [|done]. destruct (cut_last _ host) as [[? port]|]; [|done]. by rewrite Hb.
Qed.

(** [tcp] and its versions. *)
Definition tcp_network (network : string) : Prop := network = "tcp" ∨ network = "tcp4" ∨ network = "tcp6".

Lemma url_Parse_host network host :
  tcp_network network → good_host host = true →
  url_Parse (network +:+ "://" +:+ host +:+ "/") = Ok {| url_Scheme := network; url_Host := host; url_Path := "/" |}.
Proof.
  intros Hn Hh. pose proof Hh as [Hc _]%andb_true_iff.
  assert (∀ c, host_char c = false → c ≠ "/"%char → c ≠ ":"%char → contains c network = false → contains c (network +:+ "://" +:+ host +:+ "/") = false) as Hno.
  { intros c H1 H2 H3 H4. rewrite !contains_app, H4, (all_contains host_char c host) by done. cbn [contains]. by rewrite !bool_decide_false by done. }
  unfold url_Parse. rewrite cut_none by (apply Hno; try done; by destruct Hn as [->|[->| ->]]).
  rewrite bool_decide_false by (by destruct Hn as [->|[->| ->]]).
  assert (getscheme (network +:+ "://" +:+ host +:+ "/") "" (network +:+ "://" +:+ host +:+ "/") = Ok (network, "//" +:+ host +:+ "/")) as ->.
  { by destruct Hn as [->|[->| ->]]. }
  cbn [mbind result_bind]. rewrite (cut_none "?"%char).
  2: { rewrite !contains_app, (all_contains host_char _ host) by done. done. }
  change (prefixed ("//" +:+ host +:+ "/") "/") with true. rewrite (prefixed_app "//" (host +:+ "/")).
  rewrite (bool_decide_false (network = "")) by (by destruct Hn as [->|[->| ->]]). cbn [negb andb orb].
  rewrite (from_index_app "//"). rewrite cut_app by by eapply all_contains. rewrite parseAuthority_host by done. done.
Qed.

Definition path_char (c : ascii) : bool := negb (contains c "#?%").

Lemma url_Parse_path path :
  all_chars path_char path = true → url_Parse ("unix:///" +:+ path) = Ok {| url_Scheme := "unix"; url_Host := ""; url_Path := "/" +:+ path |}.
Proof.
  intros Hp. unfold url_Parse. rewrite cut_none by (rewrite contains_app, (all_contains path_char _ path); done).
  rewrite bool_decide_false by done. change (getscheme _ "" _) with (Ok (E := go_error) ("unix", "///" +:+ path)). cbn [mbind result_bind].
  rewrite cut_none by (rewrite contains_app, (all_contains path_char _ path); done).
  change (prefixed ("///" +:+ path) "/") with true. change (prefixed ("///" +:+ path) "//") with true. rewrite (bool_decide_false ("unix" = "")) by done.
  cbn [negb andb orb]. change ("///" +:+ path) with ("//" +:+ ("/" +:+ path)).
  change 2%nat with (String.length "//"). rewrite from_index_app. change (cut "/"%char ("/" +:+ path)) with ("", Some path).
  cbv iota beta. rewrite parseAuthority_host by done. cbn [mbind result_bind]. rewrite unescape_plain; [done|].
  change (all_chars (λ c, any_char c && negb (bool_decide (c = "%"%char))) path = true). revert Hp. apply all_mono. by intros [[] [] [] [] [] [] [] []].
Qed.

(** ** A worker finds its master *)

(** The values that [start] adds to the environment. *)
Definition worker_Getenv (Getenv : string → string) (url : string) (configHash : Z) (name : string) : string :=
  if bool_decide (name = MasterEnv) then url else if bool_decide (name = ConfigHashEnv) then Itoa configHash else Getenv name.

(** An address that a worker can reach: of a host, or a path that is not taken for a relative one. *)
Inductive reachable_address : string → string → string → Prop :=
| Reach_port network port : tcp_network network → good_host ("localhost:" +:+ port) = true →
    reachable_address network (":" +:+ port) ("localhost:" +:+ port)
| Reach_any4 network port : tcp_network network → good_host ("localhost:" +:+ port) = true →
    reachable_address network ("0.0.0.0:" +:+ port) ("localhost:" +:+ port)
| Reach_any6 network port : tcp_network network → good_host ("localhost:" +:+ port) = true →
    reachable_address network ("[::]:" +:+ port) ("localhost:" +:+ port)
| Reach_host network host : tcp_network network → good_host host = true →
    prefixed host ":" = false → prefixed host "0.0.0.0:" = false → prefixed host "[::]:" = false →
    reachable_address network host host
| Reach_absolute path : all_chars path_char path = true → prefixed path "./" = false → reachable_address "unix" ("/" +:+ path) ("/" +:+ path)
| Reach_relative path : all_chars path_char path = true → prefixed path "/" = false → reachable_address "unix" path path.

Lemma reachable_url config to : reachable_address (cfg_Network config) (cfg_Address config) to → ∃ url u,
  master_url config = Ok url ∧ url ≠ "" ∧ url_Parse url = Ok u ∧
  ∀ w, w_masterURL w = u → worker_dial w = Ok (cfg_Network config, to).
Proof.
  unfold master_url. assert (∀ network, tcp_network network →
    bool_decide (network = "tcp") || bool_decide (network = "tcp4") || bool_decide (network = "tcp6") = true) as Htcp.
  { by intros ? [->|[->| ->]]. }
  assert (∀ network host, tcp_network network → good_host host = true → ∃ u,
    network +:+ "://" +:+ host +:+ "/" ≠ "" ∧ url_Parse (network +:+ "://" +:+ host +:+ "/") = Ok u ∧
    ∀ w, w_masterURL w = u → worker_dial w = Ok (network, host)) as Hhost.
  { intros network host Hn Hh. eexists. split_and!; [by destruct Hn as [->|[->| ->]]|by apply url_Parse_host|].
    intros w Hw. unfold worker_dial. rewrite Hw. cbn [url_Scheme url_Host]. by rewrite Htcp. }
  destruct 1 as [network port Hn Hh|network port Hn Hh|network port Hn Hh|network host Hn Hh H1 H2 H3|path Hp Hd|path Hp Hd].
  - rewrite Htcp by done. destruct (Hhost network ("localhost:" +:+ port) Hn Hh) as (u & Hu). eexists _, u. split; [|exact Hu].
    by rewrite (prefixed_app ":").
  - rewrite Htcp by done. destruct (Hhost network ("localhost:" +:+ port) Hn Hh) as (u & Hu). eexists _, u. split; [|exact Hu].
    change (prefixed ("0.0.0.0:" +:+ port) ":") with false. rewrite prefixed_app.
    change ("0.0.0.0:" +:+ port) with ("0.0.0.0" +:+ (":" +:+ port)). change 7%nat with (String.length "0.0.0.0"). by rewrite from_index_app.
  - rewrite Htcp by done. destruct (Hhost network ("localhost:" +:+ port) Hn Hh) as (u & Hu). eexists _, u. split; [|exact Hu].
    change (prefixed ("[::]:" +:+ port) ":") with false. change (prefixed ("[::]:" +:+ port) "0.0.0.0:") with false. rewrite prefixed_app.
    change ("[::]:" +:+ port) with ("[::]" +:+ (":" +:+ port)). change 4%nat with (String.length "[::]"). by rewrite from_index_app.
  - rewrite Htcp, H1, H2, H3 by done. destruct (Hhost network host Hn Hh) as (u & Hu). eexists _, u. split; [|exact Hu]. done.
  - rewrite (prefixed_app "/"). eexists _, _. split_and!; [done|done|by apply (url_Parse_path path)|].
    intros w Hw. unfold worker_dial. rewrite Hw. cbn [url_Scheme url_Path]. repeat rewrite bool_decide_true by done.
    assert (prefixed ("/" +:+ path) "/./" = false) as ->; [|done]. change (prefixed path "./" = false). done.
  - rewrite Hd. eexists _, _. split_and!; [done|done|apply (url_Parse_path ("./" +:+ path)); exact Hp|].
    intros w Hw. unfold worker_dial. rewrite Hw. cbn [url_Scheme url_Path].
    assert (prefixed ("/" +:+ "./" +:+ path) "/./" = true) as -> by apply (prefixed_app "/./" path).
    assert (from_index 3 ("/" +:+ "./" +:+ path) = path) as -> by apply (from_index_app "/./" path). done.
Qed.

Lemma lxor_range n a b : 0 ≤ n → 0 ≤ a < 2 ^ n → 0 ≤ b < 2 ^ n → 0 ≤ Z.lxor a b < 2 ^ n.
Proof.
  intros Hn Ha Hb. assert (0 ≤ Z.lxor a b) as H0 by (apply Z.lxor_nonneg; lia). split; [done|].
  destruct (Z.eq_dec (Z.lxor a b) 0) as [->|Hz]; [lia|]. apply Z.log2_lt_pow2; [lia|]. pose proof (Z.log2_lxor a b ltac:(lia) ltac:(lia)).
  assert (∀ x, 0 ≤ x < 2 ^ n → Z.log2 x < n ∨ x = 0) as Hl.
  { intros x Hx. destruct (Z.eq_dec x 0); [by right|]. left. apply Z.log2_lt_pow2; lia. }
  pose proof (Z.log2_nonneg (Z.lxor a b)).
  assert (0 < n). { destruct (Z.eq_dec n 0) as [->|]; [|lia]. assert (a = 0) as -> by lia. assert (b = 0) as -> by lia. done. }
  destruct (Hl a Ha) as [| ->], (Hl b Hb) as [| ->]; cbn in *; lia.
Qed.

Lemma fnv64_range bytes : is_bytes bytes → 0 ≤ fnv64 bytes ≤ MaxUint64.
Proof.
  intros Hb. assert (∀ h, 0 ≤ h < 2 ^ 64 → 0 ≤ fold_left (λ h b, Z.lxor (u64 (h * 1099511628211)) b) bytes h < 2 ^ 64) as H.
  { induction Hb as [|b bytes Hb _ IH]; intros h Hh; cbn [fold_left]; [done|]. apply IH, lxor_range; [lia| |lia].
    unfold u64, wrap. apply Z.mod_pos_bound. lia. }
  specialize (H 14695981039346656037 ltac:(lia)). unfold fnv64, MaxUint64. lia.
Qed.

Lemma with_defaults_ext Getenv Getenv' config :
  Getenv BuildTagsEnv = Getenv' BuildTagsEnv → Getenv BuildArgsEnv = Getenv' BuildArgsEnv → with_defaults Getenv config = with_defaults Getenv' config.
Proof. unfold with_defaults. by intros -> ->. Qed.

Section joins.

Context (json_Encode : Config → result go_error (list Z)) (json_bytes : ∀ c bytes, json_Encode c = Ok bytes → is_bytes bytes).

Lemma New_IsMaster Getenv config c h : New json_Encode Getenv config = Created (IsMaster c h) →
  c = with_defaults Getenv config ∧ cfg_Live c = true ∧ config_hash json_Encode c = Ok h ∧ 0 ≤ h ≤ MaxUint64.
Proof.
  unfold New. set (cfg := with_defaults Getenv config). case_bool_decide as Hm; cbn [negb].
  2: { destruct (check_hash _ _ _) as [[]| |]; [|done..]. destruct (negb (cfg_Live cfg)); [done|]. by destruct (newWorker _ _). }
  destruct (cfg_Live cfg) eqn:Hl; cbn [negb]; [|done]. unfold newMaster, config_hash. destruct (json_Encode cfg) as [bytes|e|msg] eqn:Hj; [|done..].
  cbn. intros [= <- <-]. rewrite Hj. split_and!; [done..| | ]; by apply fnv64_range, (json_bytes cfg).
Qed.

Lemma New_with_master Getenv config url h h' c :
  c = with_defaults Getenv config → url ≠ "" → config_hash json_Encode c = Ok h → 0 ≤ h' ≤ MaxUint64 →
  New json_Encode (worker_Getenv Getenv url h') config =
    if negb (h =? h') then Exited ConfigHashMismatchExitCode
    else if negb (cfg_Live c) then Created (IsMasterWorker c)
    else created (w ← newWorker c url; Ok (IsWorker w)).
Proof.
  intros -> Hu Hh Hr. unfold New. rewrite <- (with_defaults_ext Getenv) by done. change (worker_Getenv Getenv url h' MasterEnv) with url.
  change (worker_Getenv Getenv url h' ConfigHashEnv) with (Itoa h'). rewrite (bool_decide_false (url = "")) by done. cbn [negb].
  unfold check_hash. rewrite ParseUint64_Itoa by done. rewrite (proj2 (Wrap_Ok _ _ _) Hh). cbn [mbind result_bind]. by destruct (h =? h').
Qed.

End joins.

(** ** Routes *)

Definition is_digit (c : ascii) : bool := bool_decide (is_Some (digit c)).

Lemma all_digits_go n s : all_chars is_digit s = true → all_chars is_digit (pretty_N_go n s) = true.
Proof.
  revert s. induction (N.lt_wf_0 n) as [n _ IH]. intros s Hs. destruct (decide (n = 0)%N) as [->|]; [by rewrite pretty_N_go_0|].
  rewrite pretty_N_go_step by lia. apply IH; [apply N.div_lt; lia|]. cbn [all_chars]. rewrite Hs, andb_true_r. unfold is_digit.
  rewrite digit_pretty by (apply N.mod_lt; lia). by apply bool_decide_true.
Qed.

Lemma all_digits_Itoa n : 0 ≤ n → all_chars is_digit (Itoa n) = true.
Proof.
  intros Hn. unfold Itoa, pretty, pretty_Z. destruct n as [|p|p]; [done| |lia]. change (pretty p) with (pretty (Npos p)). unfold pretty, pretty_N.
  rewrite decide_False by done. by apply all_digits_go.
Qed.

Lemma span_digits_app d rest : all_chars is_digit d = true → prefixed rest "/" = true → span_digits (d +:+ rest) = (d, rest).
Proof.
  induction d as [|c d IH]; cbn [all_chars].
  - intros _ (b & ->)%prefixed_split. done.
  - intros [H1 H2]%andb_true_iff Hr. change (String c d +:+ rest) with (String c (d +:+ rest)). cbn [span_digits]. unfold is_digit in H1. rewrite H1. by rewrite IH.
Qed.

(** The request of [Ready] gets to the handler with the process id. *)
Lemma ready_routed pid : 0 ≤ pid ≤ MaxInt64 → route_of "PUT" (ready_path pid) = RouteReady pid.
Proof.
  intros Hp. unfold route_of, match_ready, ready_path. rewrite prefixed_app. change 20%nat with (String.length "/livereload/workers/").
  rewrite from_index_app, span_digits_app by (try apply all_digits_Itoa; try done; lia).
  assert (ParseUint64 (Itoa pid) = Some pid) as Hi by (apply ParseUint64_Itoa; unfold MaxUint64, MaxInt64 in *; lia).
  rewrite bool_decide_false by (intros E; by rewrite E in Hi). cbn [negb andb]. change (prefixed "/ready" "/ready") with true. rewrite (bool_decide_true ("PUT" = "PUT")) by done.
  unfold Atoi. rewrite Hi. by rewrite (proj2 (Z.ltb_ge _ _)) by lia.
Qed.

(** ** Listeners *)

(** The sockets of the master are those of its listeners, in their order. *)
Lemma open_listeners_spec answers listeners : ∀ i files files',
  open_listeners answers i listeners files = (Ok (), files') →
  ∃ new, files' = files ++ new ∧ length new = length listeners ∧
    ∀ k l, listeners !! k = Some l → ∃ s, new !! k = Some s ∧ answers (i + k)%nat = Listens (sock_id s) ∧
      sock_network s = ld_Network l ∧ sock_address s = ld_Address l.
Proof.
  induction listeners as [|l listeners IH]; intros i files files'; cbn [open_listeners].
  { intros [= ->]. exists []. by rewrite app_nil_r. }
  destruct (answers i) as [e| |e|id] eqn:Ha; [done..|]. intros (new & -> & Hlen & Hnew)%IH. eexists. rewrite <-app_assoc. split; [done|].
  split; [cbn; by rewrite Hlen|]. intros [|k] l'; cbn [lookup list_lookup].
  - intros [= <-]. eexists. split; [done|]. by rewrite Nat.add_0_r.
  - intros (s & Hs & Hid & Hd)%Hnew. exists s. by rewrite Nat.add_succ_r.
Qed.

(** ** Environments *)

Lemma Getenv_of_worker environ url h key :
  Getenv_of (environ ++ [MasterEnv +:+ "=" +:+ url; ConfigHashEnv +:+ "=" +:+ Itoa h]) key = worker_Getenv (Getenv_of environ) url h key.
Proof.
  assert (cut "="%char (MasterEnv +:+ "=" +:+ url) = (MasterEnv, Some url)) as H1 by done.
  assert (cut "="%char (ConfigHashEnv +:+ "=" +:+ Itoa h) = (ConfigHashEnv, Some (Itoa h))) as H2 by done.
  unfold Getenv_of. rewrite foldl_app. cbn [foldl]. rewrite H1, H2. unfold worker_Getenv. by repeat case_bool_decide; subst.
Qed.

Lemma New_ext json_Encode Getenv Getenv' config : (∀ key, Getenv key = Getenv' key) → New json_Encode Getenv config = New json_Encode Getenv' config.
Proof. intros He. unfold New. by rewrite (with_defaults_ext Getenv Getenv'), !He. Qed.

(** (C38) The worker that a master starts finds it.  A process that becomes a master, on an address that can be reached, and has opened its listeners, starts the
    same program with an environment in which it becomes a worker with the same configuration; the worker dials the address of the master; its i-th listener is
    the socket that the master opened for the i-th listener of the configuration, on its network and address; and its report that it is ready gets to the handler of
    the master with its process id.  A program whose configuration has another hash exits with the code that makes the master restart. *)
Theorem worker_joins_master json_Encode environ config c h to answers files :
  (∀ c bytes, json_Encode c = Ok bytes → is_bytes bytes) →
  New json_Encode (Getenv_of environ) config = Created (IsMaster c h) →
  reachable_address (cfg_Network c) (cfg_Address c) to →
  open_listeners answers 0 (cfg_Listeners c) [] = (Ok (), files) →
  ∃ cmd w,
    worker_command c h environ files = Ok cmd ∧
    New json_Encode (Getenv_of (cmd_Env cmd)) config = Created (IsWorker w) ∧
    w_config w = c ∧ worker_dial w = Ok (cfg_Network c, to) ∧
    (∀ i l, cfg_Listeners c !! i = Some l → ∃ s, worker_listener (descriptor cmd) w (Z.of_nat i) = Ok s ∧
       answers i = Listens (sock_id s) ∧ sock_network s = ld_Network l ∧ sock_address s = ld_Address l) ∧
    (∀ pid, 0 ≤ pid ≤ MaxInt64 → route_of "PUT" (ready_path pid) = RouteReady pid) ∧
    ∀ other h', config_hash json_Encode (with_defaults (Getenv_of environ) other) = Ok h' → h' ≠ h →
      New json_Encode (Getenv_of (cmd_Env cmd)) other = Exited ConfigHashMismatchExitCode.
Proof.
  intros Hjson Hnew Hto Hfiles. destruct (New_IsMaster json_Encode Hjson _ _ _ _ Hnew) as (Hc & Hlive & Hh & Hr).
  destruct (reachable_url _ _ Hto) as (url & u & Hurl & Hne & Hparse & Hdial).
  pose proof (New_with_master json_Encode (Getenv_of environ) config url h h c Hc Hne Hh Hr) as Hw.
  rewrite Z.eqb_refl, Hlive in Hw. unfold newWorker in Hw. rewrite Hparse in Hw.
  eexists _, _. split; [unfold worker_command, worker_env; by rewrite Hurl|]. cbn [cmd_Env].
  split; [rewrite (New_ext _ _ _ _ (Getenv_of_worker environ url h)); exact Hw|]. split_and!; [done|by apply Hdial| |apply ready_routed|].
  - intros i l Hl. apply open_listeners_spec in Hfiles as (new & -> & Hlen & Hnew'). destruct (Hnew' i l Hl) as (s & Hs & Hid & Hd1 & Hd2). exists s.
    unfold worker_listener, worker_Listen. rewrite (proj2 (Z.ltb_ge _ _)) by lia. rewrite Nat2Z.id. cbn [w_config]. rewrite Hl. cbn [mbind result_bind].
    unfold descriptor, firstListenFd. rewrite (proj2 (Z.ltb_ge _ _)) by lia. cbn [cmd_ExtraFiles app]. rewrite Z.add_simpl_l, Nat2Z.id, Hs. by split_and!.
  - intros other h' Hh' Hne'. rewrite (New_ext _ _ _ _ (Getenv_of_worker environ url h)).
    rewrite (New_with_master json_Encode (Getenv_of environ) other url h' h _ eq_refl) by done. by rewrite (proj2 (Z.eqb_neq _ _)).
Qed.

Definition demo_json (c : Config) : result go_error (list Z) := Ok (string_bytes (cfg_Network c +:+ cfg_Address c)).

Definition demo_reload : Config :=
  {| cfg_Live := true; cfg_Network := ""; cfg_Address := "./livereload.sock"; cfg_Package := "eventter.io/mq"; cfg_BuildTags := None; cfg_BuildArgs := None;
     cfg_ReadyTimeout := 0; cfg_Listeners := [{| ld_Network := "tcp"; ld_Address := ":8080" |}]; cfg_Logger := None; cfg_NoColors := false |}.

Definition demo_socket : socket := {| sock_id := 7; sock_network := "tcp"; sock_address := ":8080" |}.

Lemma worker_joins_master_witness : ∃ cmd w,
  New demo_json (Getenv_of (cmd_Env cmd)) demo_reload = Created (IsWorker w) ∧
  worker_dial w = Ok ("unix", "./livereload.sock") ∧ ∃ s, worker_listener (descriptor cmd) w 0 = Ok s ∧ sock_address s = ":8080".
Proof.
  destruct (worker_joins_master demo_json ["HOME=/"] demo_reload (with_defaults (λ _, "") demo_reload) (fnv64 (string_bytes "unix./livereload.sock"))
    "./livereload.sock" (λ _, Listens 7) [demo_socket]) as (cmd & w & _ & H1 & _ & H2 & H3 & _).
  - intros c bytes [= <-]. apply Forall_fmap, Forall_true. intros a. cbn. pose proof (N_ascii_bounded a). lia.
  - by vm_compute.
  - apply Reach_relative; by vm_compute.
  - reflexivity.
  - exists cmd, w. split; [exact H1|]. split; [exact H2|]. destruct (H3 0%nat _ eq_refl) as (s & Hs & _ & _ & Ha). exists s. split; [exact Hs|exact Ha].
Defined.

(** ** Addresses that cannot be reached *)

(** A master that listens on a socket of the network [unixpacket] tells its workers to dial [unix]. *)
Lemma unixpacket_dialed_as_unix : ∃ url w,
  let c := {| cfg_Live := true; cfg_Network := "unixpacket"; cfg_Address := "/run/reload"; cfg_Package := ""; cfg_BuildTags := None; cfg_BuildArgs := None;
              cfg_ReadyTimeout := 1; cfg_Listeners := []; cfg_Logger := None; cfg_NoColors := false |} in
  master_url c = Ok url ∧ newWorker c url = Ok w ∧ worker_dial w = Ok ("unix", "/run/reload").
Proof. do 2 eexists. split_and!; [by vm_compute..|]. by vm_compute. Qed.

(** A path with a percent sign is not written as a URL needs it. *)
Lemma escaped_path_dialed : ∃ url w,
  let c := {| cfg_Live := true; cfg_Network := "unix"; cfg_Address := "/run/a%41"; cfg_Package := ""; cfg_BuildTags := None; cfg_BuildArgs := None;
              cfg_ReadyTimeout := 1; cfg_Listeners := []; cfg_Logger := None; cfg_NoColors := false |} in
  master_url c = Ok url ∧ newWorker c url = Ok w ∧ worker_dial w = Ok ("unix", "/run/aA").
Proof. do 2 eexists. split_and!; [by vm_compute..|]. by vm_compute. Qed.

(** ** Watched packages *)

Section watch.

Context (graph : gmap string Package) (goroot : string) (root : Package).

Notation standard p := (String.prefix goroot (getPackageDir p)) (only parsing).

(** The packages that the program is made of, without those of the Go installation and what only those import. *)
Inductive part_of : Package → Prop :=
| Part_root : standard root = false → part_of root
| Part_import p id q : part_of p → id ∈ pkg_Imports p → id ≠ "C" → id ≠ "unsafe" → graph !! id = Some q → standard q = false → part_of q.

(** The packages that are looked at: the root, and what the parts of the program import. *)
Definition looked_at (p : Package) : Prop :=
  p = root ∨ ∃ q id, part_of q ∧ id ∈ pkg_Imports q ∧ id ≠ "C" ∧ id ≠ "unsafe" ∧ graph !! id = Some p.

(** What the loader returns: packages by their identifiers, with all that they import.  A package that could not be found has no files. *)
Record graph_ok : Prop := {
  go_root : graph !! pkg_ID root = Some root;
  go_ids id p : graph !! id = Some p → pkg_ID p = id;
  go_closed id p i : graph !! id = Some p → i ∈ pkg_Imports p → i = "C" ∨ i = "unsafe" ∨ is_Some (graph !! i);
}.

(** Within the loop: [done] has left the queue, and the imports of [closed] have been seen. *)
Record watch_inv (processed : gset string) (queue done closed : list Package) : Prop := {
  wi_nodup : NoDup (pkg_ID <$> queue ++ done);
  wi_graph p : p ∈ queue ++ done → graph !! pkg_ID p = Some p ∧ pkg_ID p ∈ processed;
  wi_part p : p ∈ queue ++ done → standard p = false → part_of p;
  wi_known id : id ∈ processed → id = "C" ∨ id = "unsafe" ∨ ∃ p, graph !! id = Some p ∧ (standard p = true ∧ getPackageDir p ≠ "" ∨ p ∈ queue ++ done);
  wi_closed p id : p ∈ closed → standard p = false → id ∈ pkg_Imports p → id ∈ processed;
  wi_start : {["C"; "unsafe"; pkg_ID root]} ⊆ processed;
  wi_root : root ∈ queue ++ done;
  wi_dirs p : p ∈ done → p ∈ closed → getPackageDir p ≠ "";
}.

Context (Hg : graph_ok).

(** The loop over imports adds each to the queue at most once, or finds one without a directory. *)
Lemma watch_imports_spec owner p done closed : graph !! pkg_ID p = Some p → part_of p → ∀ imports processed queue,
  (∀ id, id ∈ imports → id ∈ pkg_Imports p) → watch_inv processed queue done closed →
  match watch_imports graph goroot owner imports processed queue with
  | Ok (processed', queue') =>
    watch_inv processed' queue' done closed ∧ processed ⊆ processed' ∧ (∀ id, id ∈ imports → id ∈ processed') ∧ ∃ new, queue' = queue ++ new
  | Err _ => ∃ q, looked_at q ∧ getPackageDir q = ""
  | Panic _ => False
  end.
Proof.
  intros Hp Hpart imports. induction imports as [|id imports IH]; intros processed queue Hsub Hinv; cbn [watch_imports].
  { split_and!; [done|done|by intros ? ?%elem_of_nil|by exists []; rewrite app_nil_r]. }
  assert (∀ i, i ∈ imports → i ∈ pkg_Imports p) as Hsub' by (intros; apply Hsub; by right).
  case_bool_decide as Hin.
  { specialize (IH processed queue Hsub' Hinv). destruct (watch_imports _ _ _ _ _ _) as [[pr q]|e|msg]; [|done..].
    destruct IH as (H1 & H2 & H3 & H4). split_and!; [done|done| |done]. intros i [->|Hi]%elem_of_cons; [by apply H2|by apply H3]. }
  assert (id ≠ "C" ∧ id ≠ "unsafe") as [HC HU] by (pose proof (wi_start _ _ _ _ Hinv); set_solver).
  destruct (go_closed Hg (pkg_ID p) p id Hp) as [|[|[q Hq]]]; [by apply Hsub; left|done|done|]. rewrite Hq.
  pose proof (go_ids Hg id q Hq) as Hid. case_bool_decide as Hdir.
  { exists q. split; [|done]. right. exists p, id. split_and!; [done|apply Hsub; by left|done..]. }
  destruct (standard q) eqn:Hs.
  - ospecialize* (IH ({[id]} ∪ processed) queue Hsub').
    { destruct Hinv as [N G P K C S W D]. split; [done| | | |set_solver|set_solver|done|done].
      - intros p' Hp'. destruct (G p' Hp'). split; [done|set_solver].
      - done.
      - intros i [->%elem_of_singleton|Hi]%elem_of_union; [|by apply K]. right. right. exists q. split; [done|by left]. }
    destruct (watch_imports _ _ _ _ _ _) as [[pr q']|e|msg]; [|done..]. destruct IH as (H1 & H2 & H3 & H4).
    split_and!; [done|set_solver| |done]. intros i [->|Hi]%elem_of_cons; [set_solver|by apply H3].
  - ospecialize* (IH ({[id]} ∪ processed) (queue ++ [q]) Hsub').
    { assert (∀ p', p' ∈ (queue ++ [q]) ++ done ↔ p' = q ∨ p' ∈ queue ++ done) as Hel by (intros; rewrite !elem_of_app, list_elem_of_singleton; tauto).
      destruct Hinv as [N G P K C S W D]. split; [| | | |set_solver|set_solver|apply Hel; by right|done].
      - rewrite <- app_assoc, fmap_app. cbn [app]. rewrite fmap_cons. apply NoDup_app. rewrite fmap_app in N. apply NoDup_app in N as (N1 & N2 & N3).
        assert (∀ l : list Package, (∀ x, x ∈ l → x ∈ queue ++ done) → pkg_ID q ∉ (pkg_ID <$> l)) as Hnew.
        { intros l Hl (x & Ex & Hx)%list_elem_of_fmap. destruct (G x (Hl x Hx)) as [_ G2]. congruence. }
        split_and!; [done| |].
        + intros i Hi [->|Hi']%elem_of_cons; [|by eapply N2]. revert Hi. apply Hnew. intros. apply elem_of_app. by left.
        + constructor; [|done]. apply Hnew. intros. apply elem_of_app. by right.
      - intros p' [->|Hp']%Hel; [rewrite Hid; split; [done|set_solver]|]. destruct (G p' Hp'). split; [done|set_solver].
      - intros p' [->|Hp']%Hel; [|by apply P]. intros _. eapply Part_import; [done|apply Hsub; by left|done..].
      - intros i [->%elem_of_singleton|Hi]%elem_of_union.
        + right. right. exists q. split; [done|]. right. apply Hel. by left.
        + destruct (K i Hi) as [|[|(x & Hx & [|])]]; [by left|by right; left|right; right; exists x; split; [done|by left]|].
          right. right. exists x. split; [done|]. right. apply Hel. by right. }
    destruct (watch_imports _ _ _ _ _ _) as [[pr q']|e|msg]; [|done..]. destruct IH as (H1 & H2 & H3 & [new H4]).
    split_and!; [done|set_solver| |rewrite H4, <- app_assoc; by eexists]. intros i [->|Hi]%elem_of_cons; [set_solver|by apply H3].
Qed.

(** The queue holds each package of the graph once. *)
Lemma watch_inv_size processed queue done closed : watch_inv processed queue done closed → (length queue + length done ≤ size graph)%nat.
Proof.
  intros Hinv. rewrite <- length_app, <- (length_fmap pkg_ID (queue ++ done)), <- size_dom, <- (size_list_to_set (C := gset string)); [|by apply Hinv].
  apply subseteq_size. intros id (p & -> & Hp)%elem_of_list_to_set%list_elem_of_fmap. apply elem_of_dom. destruct (wi_graph _ _ _ _ Hinv p Hp). by eexists.
Qed.

(** What has been recorded for the packages that left the queue, the last one first. *)
Record recorded (done : list Package) (before watched : gmap string string) (added : list string) : Prop := {
  rec_added : added = getPackageDir <$> reverse (List.filter (λ p, negb (standard p)) done);
  rec_watched d : d ∈ added → ∃ p, p ∈ done ∧ standard p = false ∧ getPackageDir p = d ∧ watched !! d = Some (pkg_ID p);
  rec_rest d : d ∉ added → watched !! d = before !! d;
}.

(** How the loop ends, with the packages that left the queue. *)
Definition watched_all (before : gmap string string) (x : result go_error unit * gmap string string * list string) : Prop :=
  let '(r, watched, added) := x in
  ∃ done, NoDup (pkg_ID <$> done) ∧ (∀ p, p ∈ done → standard p = false → part_of p) ∧ recorded done before watched added ∧
    match r with
    | Ok _ => ∃ processed, watch_inv processed [] done done
    | Err _ => ∃ q, looked_at q ∧ getPackageDir q = ""
    | Panic _ => False
    end.

Lemma watch_inv_done processed queue done closed : watch_inv processed queue done closed →
  NoDup (pkg_ID <$> done) ∧ ∀ p, p ∈ done → standard p = false → part_of p.
Proof.
  intros [N _ P _ _ _ _ _]. rewrite fmap_app in N. apply NoDup_app in N as (_ & _ & N). split; [done|].
  intros p Hp. apply P. rewrite elem_of_app. by right.
Qed.

(** What the loop over imports adds to the queue has a directory. *)
Lemma watch_imports_queue owner imports : ∀ processed queue,
  (∀ p, p ∈ queue → p = root ∨ standard p = false ∧ getPackageDir p ≠ "") →
  match watch_imports graph goroot owner imports processed queue with
  | Ok (_, queue') => ∀ p, p ∈ queue' → p = root ∨ standard p = false ∧ getPackageDir p ≠ ""
  | _ => True
  end.
Proof.
  induction imports as [|id imports IH]; intros processed queue Hq; cbn [watch_imports]; [done|].
  case_bool_decide; [by apply IH|]. destruct (graph !! id) as [q|]; [|done]. case_bool_decide; [done|]. destruct (standard q) eqn:Hs; [by apply IH|].
  apply IH. intros p [?| ->%list_elem_of_singleton]%elem_of_app; [by apply Hq|by right].
Qed.

Lemma watch_loop_spec before : ∀ fuel processed queue done watched added,
  watch_inv processed queue done done → (∀ p, p ∈ queue → p = root ∨ standard p = false ∧ getPackageDir p ≠ "") → recorded done before watched added →
  (size graph < fuel + length done)%nat →
  watched_all before (watch_loop graph goroot fuel processed queue watched added).
Proof.
  induction fuel as [|fuel IH]; intros processed queue done watched added Hinv Hqueue Hrec Hfuel.
  { pose proof (watch_inv_size _ _ _ _ Hinv). lia. }
  destruct (watch_inv_done _ _ _ _ Hinv) as [Hnd Hparts].
  destruct queue as [|pkg queue]; cbn [watch_loop]; [exists done; split_and!; [done..|by exists processed]|].
  case_bool_decide as Hdir.
  { exists done. split_and!; [done..|]. exists pkg. split; [|done]. destruct (Hqueue pkg ltac:(left)) as [->|[_ ?]]; [by left|done]. }
  destruct (wi_graph _ _ _ _ Hinv pkg ltac:(left)) as [Hpkg Hpr].
  assert (∀ p', p' ∈ queue ++ pkg :: done ↔ p' ∈ (pkg :: queue) ++ done) as Hel by (intros; rewrite !elem_of_app, !elem_of_cons; tauto).
  assert (∀ p', p' ∈ queue → p' = root ∨ standard p' = false ∧ getPackageDir p' ≠ "") as Hqueue' by (intros; apply Hqueue; by right).
  assert (watch_inv processed queue (pkg :: done) done) as Hinv'.
  { destruct Hinv as [N G P K C S W D]. split; [|intros p' Hp'; by apply G, Hel|intros p' Hp'; by apply P, Hel| |done|done|by apply Hel|].
    - by rewrite <- (Permutation_middle queue done pkg).
    - intros i Hi. destruct (K i Hi) as [|[|(x & Hx & Hx')]]; [tauto..|]. right. right. exists x. rewrite Hel. tauto.
    - intros p' [->|Hp']%elem_of_cons; [done|by apply D]. }
  destruct (standard pkg) eqn:Hs.
  - apply (IH processed queue (pkg :: done)); [|done| |cbn [length]; lia].
    + destruct Hinv' as [N G P K C S W D]. split; [done..| |done|done|].
      * intros p' i [->|Hp']%elem_of_cons; [congruence|by apply C].
      * intros p' [->|Hp']%elem_of_cons _; [done|]. by apply (wi_dirs _ _ _ _ Hinv).
    + destruct Hrec as [R1 R2 R3]. split; [by cbn [List.filter]; rewrite Hs| |done].
      intros d Hd. destruct (R2 d Hd) as (x & Hx & Hx'). exists x. split; [by right|done].
  - assert (part_of pkg) as Hpart by (apply (wi_part _ _ _ _ Hinv); [by left|done]).
    pose proof (watch_imports_spec (pkg_ID pkg) pkg (pkg :: done) done Hpkg Hpart (pkg_Imports pkg) processed queue ltac:(done) Hinv') as Himp.
    pose proof (watch_imports_queue (pkg_ID pkg) (pkg_Imports pkg) processed queue Hqueue') as Hq.
    destruct (watch_imports _ _ _ _ _ _) as [[pr q]|e|msg]; [|by exists done|done]. destruct Himp as (H1 & H2 & H3 & new & ->).
    apply (IH pr (queue ++ new) (pkg :: done)); [|done| |cbn [length]; lia].
    + destruct H1 as [N G P K C S W D]. split; [done..| |done|done|].
      * intros p' i [->|Hp']%elem_of_cons; [intros _; apply H3|by apply C].
      * intros p' [->|Hp']%elem_of_cons _; [done|]. by apply (wi_dirs _ _ _ _ Hinv).
    + destruct Hrec as [R1 R2 R3]. split.
      * cbn [List.filter]. rewrite Hs. cbn [negb]. by rewrite reverse_cons, fmap_app, <-R1.
      * intros d [Hd| ->%list_elem_of_singleton]%elem_of_app; [|exists pkg; rewrite lookup_insert_eq; split; [by left|done]].
        destruct (decide (d = getPackageDir pkg)) as [->|Hne]; [exists pkg; rewrite lookup_insert_eq; split; [by left|done]|].
        destruct (R2 d Hd) as (x & Hx & Hx'). exists x. rewrite lookup_insert_ne by done. split; [by right|done].
      * intros d Hd. rewrite elem_of_app, list_elem_of_singleton in Hd. rewrite lookup_insert_ne by (intros <-; tauto). apply R3. tauto.
Qed.

Lemma part_done processed done : watch_inv processed [] done done → ∀ p, part_of p → p ∈ done.
Proof.
  intros Hinv p. assert (∀ id q, id ∈ processed → id ≠ "C" → id ≠ "unsafe" → graph !! id = Some q → standard q = false → q ∈ done) as Hk.
  { intros id q Hid HC HU Hq Hs. destruct (wi_known _ _ _ _ Hinv id Hid) as [|[|(x & Hx & [[]|])]]; [done|done|congruence|]. by simplify_eq. }
  induction 1 as [Hs|p id q Hp IH Hid HC HU Hq Hs].
  - apply (wi_root _ _ _ _ Hinv).
  - apply (Hk id q); try done. eapply wi_closed; [done|exact IH|by inversion Hp|done].
Qed.

(** When the queue is empty, everything that is looked at has a directory. *)
Lemma looked_done processed done : watch_inv processed [] done done → ∀ p, looked_at p → getPackageDir p ≠ "".
Proof.
  intros Hinv p. assert (∀ q, q ∈ done → getPackageDir q ≠ "") as Hd by (intros q Hq; by apply (wi_dirs _ _ _ _ Hinv)).
  intros [->|(q & id & Hq & Hid & HC & HU & Hp)]; [apply Hd, (wi_root _ _ _ _ Hinv)|].
  assert (id ∈ processed) as Hpr.
  { eapply wi_closed; [done|by eapply part_done|by inversion Hq|done]. }
  destruct (wi_known _ _ _ _ Hinv id Hpr) as [|[|(x & Hx & [[_ ?]|Hin])]]; [done|done|congruence|]. apply Hd. by simplify_eq.
Qed.

(** (C39) What is watched is what the program is made of.  For packages as the loader returns them (under their identifiers, with every package that they import except C and unsafe), [watchPackage] ends, with an error exactly when
    a package that it looks at (the root, and what the parts of the program import) has no files.  The directories that it gives to the watcher are those of
    parts of the program, of each part at most once; each of them is recorded with such a part, and what was recorded for other directories
    stays.  Without an error, the directory of every part of the program is given to the watcher. *)
Theorem watch_exact path watched :
  ∃ r watched' pkgs,
    watchPackage graph goroot (Ok [pkg_ID root]) path watched = (r, watched', getPackageDir <$> pkgs) ∧
    (r = Ok () ∨ ∃ e, r = Err e) ∧ (r = Ok () ↔ ∀ p, looked_at p → getPackageDir p ≠ "") ∧
    NoDup (pkg_ID <$> pkgs) ∧ (∀ p, p ∈ pkgs → part_of p) ∧ (r = Ok () → ∀ p, part_of p → p ∈ pkgs) ∧
    (∀ d, d ∈ getPackageDir <$> pkgs → ∃ p, part_of p ∧ getPackageDir p = d ∧ watched' !! d = Some (pkg_ID p)) ∧
    ∀ d, d ∉ getPackageDir <$> pkgs → watched' !! d = watched !! d.
Proof.
  unfold watchPackage. rewrite (go_root Hg).
  opose proof* (watch_loop_spec watched (S (size graph)) ({[pkg_ID root]} ∪ {["C"]} ∪ {["unsafe"]}) [root] [] watched []) as Hall.
  { split; [apply NoDup_singleton| | | |by intros ? ? ?%elem_of_nil|set_solver|by left|by intros ? ?%elem_of_nil].
    - intros p ->%list_elem_of_singleton. split; [apply Hg|set_solver].
    - intros p ->%list_elem_of_singleton. apply Part_root.
    - intros id Hid. rewrite !elem_of_union, !elem_of_singleton in Hid. destruct Hid as [[->| ->]| ->]; [|tauto..].
      right. right. exists root. split; [apply Hg|right; by left]. }
  { intros p ->%list_elem_of_singleton. by left. }
  { split; [done|by intros ? ?%elem_of_nil|done]. }
  { cbn. lia. }
  destruct (watch_loop _ _ _ _ _ _ _) as [[r watched'] added]. destruct Hall as (done & Hnd & Hparts & [-> R2 R3] & Hr).
  set (pkgs := reverse _) in *. exists r, watched', pkgs.
  assert (∀ p, p ∈ pkgs ↔ p ∈ done ∧ standard p = false) as Hpkgs.
  { intros p. unfold pkgs. rewrite elem_of_reverse, elem_of_bfilter, negb_true_iff. tauto. }
  split_and!; [done| | | |intros p [? ?]%Hpkgs; by apply Hparts| | |done].
  - destruct r; [left; by destruct a|right; by eexists|done].
  - destruct r as [[]|e|msg]; [|split; [done|]|done].
    + split; [|done]. intros _. destruct Hr as [pr Hr]. by eapply looked_done.
    + destruct Hr as (q & Hq & Hd). intros Hno. by destruct (Hno q Hq).
  - unfold pkgs. rewrite fmap_reverse, reverse_Permutation. eapply sublist_NoDup; [exact Hnd|]. apply fmap_sublist, sublist_bfilter.
  - intros ->. destruct Hr as [pr Hr]. intros p Hp. apply Hpkgs. split; [by eapply part_done|by inversion Hp].
  - intros d (p & Hp & Hs & Hd & Hw)%R2. eauto.
Qed.

End watch.

(** A program of two packages, one of which imports the library. *)
Definition demo_graph : gmap string Package :=
  {["fmt" := {| pkg_ID := "fmt"; pkg_GoFiles := ["/go/src/fmt/print.go"]; pkg_OtherFiles := []; pkg_Imports := [] |};
    "app" := {| pkg_ID := "app"; pkg_GoFiles := ["/home/app/main.go"]; pkg_OtherFiles := []; pkg_Imports := ["fmt"; "app/db"; "unsafe"] |};
    "app/db" := {| pkg_ID := "app/db"; pkg_GoFiles := []; pkg_OtherFiles := ["/home/app/db/x.s"]; pkg_Imports := ["fmt"] |}]}.

Lemma watch_exact_witness : ∃ watched' pkgs,
  watchPackage demo_graph "/go" (Ok ["app"]) "app" ∅ = (Ok (), watched', ["/home/app"; "/home/app/db"]) ∧
  getPackageDir <$> pkgs = ["/home/app"; "/home/app/db"] ∧ NoDup (pkg_ID <$> pkgs).
Proof.
  destruct (watch_exact demo_graph "/go" {| pkg_ID := "app"; pkg_GoFiles := ["/home/app/main.go"]; pkg_OtherFiles := [];
    pkg_Imports := ["fmt"; "app/db"; "unsafe"] |}) with (path := "app") (watched := ∅ : gmap string string) as (r & watched' & pkgs & E & _ & _ & Hnd & _).
  { assert (map_Forall (λ id p, pkg_ID p = id ∧ Forall (λ i, i = "C" ∨ i = "unsafe" ∨ is_Some (demo_graph !! i)) (pkg_Imports p))
      demo_graph) as H by (refine (bool_decide_unpack _ _); by vm_compute).
    split; [done|by intros id p (?&?)%H|intros id p i (?&Hi)%H; by apply (proj1 (Forall_forall _ _) Hi)]. }
  assert (watchPackage demo_graph "/go" (Ok ["app"]) "app" ∅ = (Ok (), watched', ["/home/app"; "/home/app/db"])) as E'.
  { cbn [pkg_ID] in E. rewrite E. apply (f_equal2 pair); [apply (f_equal2 pair); [|reflexivity]|].
    - etrans; [symmetry; exact (f_equal (λ x, x.1.1) E)|]. by vm_compute.
    - etrans; [symmetry; exact (f_equal snd E)|]. by vm_compute. }
  exists watched', pkgs. split; [exact E'|]. split; [|exact Hnd]. etrans; [symmetry; exact (f_equal snd E)|]. by vm_compute.
Defined.

(** When the loader finds no package, or several, nothing is watched and no error is returned. *)
Lemma watch_nothing_silently graph goroot path watched : watchPackage graph goroot (Ok []) path watched = (Ok (), watched, []).
Proof. done. Qed.
