(* ===== verification/LiveReloadMaster.v ===== *)
(** * Live reload: the master

    The master of src/livereload (master.go, master_start.go, master_build.go, master_events.go, master_http.go): its main loop, and the goroutines and
    HTTP handlers that share its fields.  What each does between taking and releasing the lock is a function; the processes together are a step
    relation, in which sending to a full channel and taking a lock wait. *)
From Stdlib Require Import Ascii.
From S2P Require Import Prelude Bytes Interaction LiveReload.

(** ** Data *)

(** A [*exec.Cmd] that has been started, and the process id. *)
Record Cmd : Type := { cmd_id : nat; cmd_Pid : Z }.
#[export] Instance Cmd_eq_dec : EqDecision Cmd.
Proof. solve_decision. Defined.

Inductive signal : Type :=
| SIGKILL
| SIGTERM.

Record event : Type := { ev_name : string; ev_data : string }.

Definition buildStartEvent : string := "build:start".
Definition buildStdoutEvent : string := "build:stdout".
Definition buildStderrEvent : string := "build:stderr".
Definition buildOkEvent : string := "build:ok".
Definition buildErrorEvent : string := "build:error".
Definition workerStartEvent : string := "worker:start".
Definition workerStdoutEvent : string := "worker:stdout".
Definition workerStderrEvent : string := "worker:stderr".
Definition workerReadyEvent : string := "worker:ready".
Definition workerErrorEvent : string := "worker:error".

(** The channel of a client: what is buffered, and what has been read from it. *)
Record client : Type := { cl_buffer : list event; cl_read : list event }.

Record master : Type := {
  m_startingWorker : option Cmd;
  m_runningWorker : option Cmd;
  m_eventC : list event;
  m_eventClients : gmap nat client;
  m_restartC : bool; (* one element is buffered *)
}.

Definition channel_size : nat := 16.

Definition set_workers (starting running : option Cmd) (m : master) : master :=
  {| m_startingWorker := starting; m_runningWorker := running; m_eventC := m_eventC m; m_eventClients := m_eventClients m; m_restartC := m_restartC m |}.
Definition set_eventC (c : list event) (m : master) : master :=
  {| m_startingWorker := m_startingWorker m; m_runningWorker := m_runningWorker m; m_eventC := c; m_eventClients := m_eventClients m;
     m_restartC := m_restartC m |}.
Definition set_clients (c : gmap nat client) (m : master) : master :=
  {| m_startingWorker := m_startingWorker m; m_runningWorker := m_runningWorker m; m_eventC := m_eventC m; m_eventClients := c; m_restartC := m_restartC m |}.
Definition set_restartC (b : bool) (m : master) : master :=
  {| m_startingWorker := m_startingWorker m; m_runningWorker := m_runningWorker m; m_eventC := m_eventC m; m_eventClients := m_eventClients m;
     m_restartC := b |}.

(** [newMaster] *)
Definition new_master : master :=
  {| m_startingWorker := None; m_runningWorker := None; m_eventC := []; m_eventClients := ∅; m_restartC := false |}.

(** [emit]: [None] when the sender has to wait. *)
Definition emit (ev : event) (m : master) : option master :=
  if (length (m_eventC m) <? channel_size)%nat then Some (set_eventC (m_eventC m ++ [ev]) m) else None.

(** ** What is done under the lock *)

Definition signals : Type := list (Cmd * signal).

Definition kill (w : option Cmd) : signals := match w with Some w => [(w, SIGKILL)] | None => [] end.

(** [start], up to the first event: the answers of the system are errors of the pipes, or the process. *)
Definition start_locked (started : result go_error Cmd) (m : master) : master * signals * result go_error event :=
  let killed := kill (m_startingWorker m) in
  let m := set_workers None (m_runningWorker m) m in
  match started with
  | Ok worker => (set_workers (Some worker) (m_runningWorker m) m, killed, Ok {| ev_name := workerStartEvent; ev_data := Itoa (cmd_Pid worker) |})
  | Err e => (m, killed, Err e)
  | Panic msg => (m, killed, Panic msg)
  end.

(** The goroutine that waits for [ReadyTimeout]. *)
Definition timeout_locked (worker : Cmd) (m : master) : master * signals * option event :=
  if negb (bool_decide (m_startingWorker m = Some worker)) then (m, [], None)
  else (set_workers None (m_runningWorker m) m, [(worker, SIGKILL)], Some {| ev_name := workerErrorEvent; ev_data := Itoa (cmd_Pid worker) |}).

(** The goroutine that waits for a worker, after an exit with an error. *)
Definition exited_locked (worker : Cmd) (m : master) : option event :=
  if bool_decide (m_startingWorker m = Some worker) || bool_decide (m_runningWorker m = Some worker) then
    Some {| ev_name := workerErrorEvent; ev_data := Itoa (cmd_Pid worker) |}
  else None.

(** [handleWorkerReady]: also the status of the response. *)
Definition ready_locked (pid : Z) (m : master) : master * signals * Z * option event :=
  match m_startingWorker m with
  | Some worker =>
    if negb (cmd_Pid worker =? pid) then (m, [], 400, None)
    else
      (set_workers None (Some worker) m, match m_runningWorker m with Some old => [(old, SIGTERM)] | None => [] end, 200,
       Some {| ev_name := workerReadyEvent; ev_data := Itoa pid |})
  | None => (m, [], 400, None)
  end.

(** The end of the master: a signal, or a worker with another configuration. *)
Definition stop_locked (m : master) : master * signals :=
  (set_workers None None m, kill (m_startingWorker m) ++ kill (m_runningWorker m)).

(** An event goes to every client that has room. *)
Definition offer (ev : event) (c : client) : client :=
  if (length (cl_buffer c) <? channel_size)%nat then {| cl_buffer := cl_buffer c ++ [ev]; cl_read := cl_read c |} else c.
Definition distribute (ev : event) (m : master) : master := set_clients (offer ev <$> m_eventClients m) m.

Definition register (c : nat) (m : master) : master := set_clients (<[c := {| cl_buffer := []; cl_read := [] |}]> (m_eventClients m)) m.
Definition unregister (c : nat) (m : master) : master := set_clients (delete c (m_eventClients m)) m.

(** What [handleEvents] writes before it registers. *)
Definition first_event (m : master) : option event :=
  (λ w, {| ev_name := workerReadyEvent; ev_data := Itoa (cmd_Pid w) |}) <$> m_runningWorker m.

(** [writeEvent] *)
Definition newline : string := String (ascii_of_nat 10) "".
Definition writeEvent (ev : event) : string :=
  "event: " +:+ ev_name ev +:+ newline +:+ "data: " +:+ ev_data ev +:+ newline +:+ newline.

(** ** Changes of files *)

Record watch_state : Type := { ws_buildC : bool; ws_startC : bool; ws_dirty : gset string }.

(** A package whose directory is [dir], in the order in which the loop over the map comes to it. *)
Definition package_of (watched : list (string * string)) (dir : string) : option string := snd ∘ snd <$> find_first (λ x, bool_decide (x.1 = dir)) watched.

(** An event of the watcher: [chmod] when that is all it is. *)
Definition watch_event (watched : list (string * string)) (executablePath : string) (chmod : bool) (name : string) (s : watch_state) : watch_state :=
  if chmod then s
  else if bool_decide (name = executablePath) then {| ws_buildC := ws_buildC s; ws_startC := true; ws_dirty := ws_dirty s |}
  else if negb (bool_decide (Ext name = ".go")) || prefixed (Base name) "." then s
  else
    match package_of watched (Dir name) with
    | Some pkg => {| ws_buildC := true; ws_startC := ws_startC s; ws_dirty := {[pkg]} ∪ ws_dirty s |}
    | None => s
    end.

(** ** The processes *)

(** The lock: free, held for writing by a goroutine that is about to send an event before it releases it (the main loop, in [start], or another),
    or held for reading by goroutines that are. *)
Inductive lock : Type :=
| Free
| Held (ev : event) (main : bool)
| Shared (evs : list event).

(** [Shared []] is not used. *)
Definition shared (evs : list event) : lock := match evs with [] => Free | _ => Shared evs end.

(** Where [build] is: before it sends the first event, waiting for the compiler, before it sends the last event. *)
Inductive building : Type :=
| BuildStarted
| BuildRunning
| BuildFailed (fatal : bool)
| BuildOk.

(** Where the main loop is; it ends with [stop_locked], or with an error. *)
Inductive main_loop : Type :=
| Selecting
| Distributing (ev : event)
| Starting
| Building (b : building)
| Stopped (clean : bool).

(** The master with its goroutines; of the last fields nothing depends: the processes that were started and those that reported ready, in their order, the
    signals that were sent, and the events that were sent and distributed. *)
Record sys : Type := {
  s_master : master;
  s_lock : lock;
  s_main : main_loop;
  s_watch : watch_state;
  s_started : list Cmd;
  s_ready : list Cmd;
  s_signals : signals;
  s_emitted : list event;
  s_distributed : list event;
}.

Definition with_main (main : main_loop) (s : sys) : sys :=
  {| s_master := s_master s; s_lock := s_lock s; s_main := main; s_watch := s_watch s; s_started := s_started s; s_ready := s_ready s;
     s_signals := s_signals s; s_emitted := s_emitted s; s_distributed := s_distributed s |}.
Definition with_lock (l : lock) (s : sys) : sys :=
  {| s_master := s_master s; s_lock := l; s_main := s_main s; s_watch := s_watch s; s_started := s_started s; s_ready := s_ready s;
     s_signals := s_signals s; s_emitted := s_emitted s; s_distributed := s_distributed s |}.
Definition with_watch (w : watch_state) (s : sys) : sys :=
  {| s_master := s_master s; s_lock := s_lock s; s_main := s_main s; s_watch := w; s_started := s_started s; s_ready := s_ready s;
     s_signals := s_signals s; s_emitted := s_emitted s; s_distributed := s_distributed s |}.
Definition with_master (m : master) (s : sys) : sys :=
  {| s_master := m; s_lock := s_lock s; s_main := s_main s; s_watch := s_watch s; s_started := s_started s; s_ready := s_ready s;
     s_signals := s_signals s; s_emitted := s_emitted s; s_distributed := s_distributed s |}.
Definition with_workers (m : master) (started ready : list Cmd) (sent : signals) (s : sys) : sys :=
  {| s_master := m; s_lock := s_lock s; s_main := s_main s; s_watch := s_watch s; s_started := s_started s ++ started; s_ready := s_ready s ++ ready;
     s_signals := s_signals s ++ sent; s_emitted := s_emitted s; s_distributed := s_distributed s |}.

(** A send on [eventC]. *)
Definition send (ev : event) (s : sys) : option sys :=
  m ← emit ev (s_master s);
  Some {| s_master := m; s_lock := s_lock s; s_main := s_main s; s_watch := s_watch s; s_started := s_started s; s_ready := s_ready s;
          s_signals := s_signals s; s_emitted := s_emitted s ++ [ev]; s_distributed := s_distributed s |}.

(** The main loop takes an event, and distributes it. *)
Definition receive (ev : event) (rest : list event) (s : sys) : sys := with_main (Distributing ev) (with_master (set_eventC rest (s_master s)) s).
Definition distributed (ev : event) (s : sys) : sys :=
  {| s_master := distribute ev (s_master s); s_lock := s_lock s; s_main := Selecting; s_watch := s_watch s; s_started := s_started s; s_ready := s_ready s;
     s_signals := s_signals s; s_emitted := s_emitted s; s_distributed := s_distributed s ++ [ev] |}.

(** [start] in the main loop. *)
Definition start (started : result go_error Cmd) (s : sys) : sys :=
  match start_locked started (s_master s) with
  | (m, killed, Ok ev) =>
    with_lock (Held ev true) (with_main Starting (with_workers m (match started with Ok w => [w] | _ => [] end) [] killed s))
  | (m, killed, _) => with_main (Stopped false) (with_workers m [] [] killed s)
  end.

Definition timeout (w : Cmd) (s : sys) : sys :=
  match timeout_locked w (s_master s) with
  | (m, killed, Some ev) => with_lock (Held ev false) (with_workers m [] [] killed s)
  | (m, killed, None) => s
  end.

Definition ready (pid : Z) (s : sys) : sys :=
  match ready_locked pid (s_master s) with
  | (m, sent, _, Some ev) =>
    with_lock (Held ev false) (with_workers m [] (match m_startingWorker (s_master s) with Some w => [w] | None => [] end) sent s)
  | (_, _, _, None) => s
  end.

(** A worker has exited with an error. *)
Definition exited (w : Cmd) (evs : list event) (s : sys) : sys :=
  match exited_locked w (s_master s) with Some ev => with_lock (Shared (ev :: evs)) s | None => s end.

Definition stop (s : sys) : sys := let '(m, killed) := stop_locked (s_master s) in with_main (Stopped true) (with_workers m [] [] killed s).

(** Before the main loop: the first worker has been started. *)
Definition boot (w : Cmd) : sys :=
  start (Ok w)
    {| s_master := new_master; s_lock := Free; s_main := Selecting; s_watch := {| ws_buildC := false; ws_startC := false; ws_dirty := ∅ |};
       s_started := []; s_ready := []; s_signals := []; s_emitted := []; s_distributed := [] |}.

Definition main_is_up (s : sys) : bool := match s_main s with Stopped _ => false | _ => true end.

(** The events of the readers of a build's and of a worker's output. *)
Definition output_event (name : string) : Prop := name ∈ [buildStdoutEvent; buildStderrEvent; workerStdoutEvent; workerStderrEvent].

Definition readable (l : lock) : option (list event) := match l with Free => Some [] | Held _ _ => None | Shared evs => Some evs end.

Inductive step (s : sys) : sys → Prop :=
(* goroutines that read output *)
| Step_line name data s' : output_event name → send {| ev_name := name; ev_data := data |} s = Some s' → step s s'
(* whoever holds the lock *)
| Step_send_held ev main s' : s_lock s = Held ev main → send ev s = Some s' →
    step s (with_lock Free (if main then with_main Selecting s' else s'))
| Step_send_shared l1 ev l2 s' : s_lock s = Shared (l1 ++ ev :: l2) → send ev s = Some s' → step s (with_lock (shared (l1 ++ l2)) s')
(* workers *)
| Step_ready pid : s_lock s = Free → step s (ready pid s)
| Step_timeout w : s_lock s = Free → w ∈ s_started s → step s (timeout w s)
| Step_exit w evs : readable (s_lock s) = Some evs → w ∈ s_started s → step s (exited w evs s)
| Step_exit_mismatch w : w ∈ s_started s → m_restartC (s_master s) = false → step s (with_master (set_restartC true (s_master s)) s)
(* clients *)
| Step_register c : s_lock s = Free → m_eventClients (s_master s) !! c = None → step s (with_master (register c (s_master s)) s)
| Step_unregister c : s_lock s = Free → step s (with_master (unregister c (s_master s)) s)
| Step_client_read c ev buffer read : m_eventClients (s_master s) !! c = Some {| cl_buffer := ev :: buffer; cl_read := read |} →
    step s (with_master (set_clients (<[c := {| cl_buffer := buffer; cl_read := read ++ [ev] |}]> (m_eventClients (s_master s))) (s_master s)) s)
(* the main loop *)
| Step_receive ev rest : s_main s = Selecting → m_eventC (s_master s) = ev :: rest → step s (receive ev rest s)
| Step_distribute ev : s_main s = Distributing ev → is_Some (readable (s_lock s)) → step s (distributed ev s)
| Step_watch watched executablePath chmod name : s_main s = Selecting →
    step s (with_watch (watch_event watched executablePath chmod name (s_watch s)) s)
| Step_start w : s_main s = Selecting → ws_startC (s_watch s) = true → s_lock s = Free → w ∉ s_started s →
    step s (start (Ok w) (with_watch {| ws_buildC := ws_buildC (s_watch s); ws_startC := false; ws_dirty := ws_dirty (s_watch s) |} s))
| Step_start_fails e : s_main s = Selecting → ws_startC (s_watch s) = true → s_lock s = Free → step s (start (Err e) s)
| Step_build : s_main s = Selecting → ws_buildC (s_watch s) = true →
    step s (with_main (Building BuildStarted) (with_watch {| ws_buildC := false; ws_startC := ws_startC (s_watch s); ws_dirty := ∅ |} s))
| Step_build_event s' : s_main s = Building BuildStarted → send {| ev_name := buildStartEvent; ev_data := "" |} s = Some s' →
    step s (with_main (Building BuildRunning) s')
| Step_build_exit b : s_main s = Building BuildRunning → b ∈ [BuildFailed false; BuildFailed true; BuildOk] → step s (with_main (Building b) s)
| Step_build_error fatal s' : s_main s = Building (BuildFailed fatal) → send {| ev_name := buildErrorEvent; ev_data := "" |} s = Some s' →
    step s (with_main (if fatal then Stopped false else Selecting) s')
| Step_build_ok s' : s_main s = Building BuildOk → send {| ev_name := buildOkEvent; ev_data := "" |} s = Some s' → step s (with_main Selecting s')
(* a signal; a worker with another configuration *)
| Step_interrupt : s_main s = Selecting → s_lock s = Free → step s (stop s)
| Step_restart : s_main s = Selecting → m_restartC (s_master s) = true → s_lock s = Free → step s (stop s)
(* an error of the watcher, of the server, of a build that cannot be run or renamed *)
| Step_error : s_main s = Selecting ∨ s_main s = Building BuildRunning → step s (with_main (Stopped false) s).

Inductive reachable : sys → Prop :=
| Reach_boot w : reachable (boot w)
| Reach_step s s' : reachable s → main_is_up s = true → step s s' → reachable s'.
