(* ===== verification/LiveReloadMasterProps.v ===== *)
(** * Live reload: theorems about the master

    Workers replace each other without a gap and none is forgotten ([workers_safe]); clients see the events in their order ([events_in_order]); and the
    ways in which the master stops working ([blocked_build], [blocked_ready], [error_leaves_workers]). *)
From S2P Require Import Prelude Bytes Interaction LiveReload LiveReloadMaster.

(** ** Workers *)

(** The workers in the master and those that were started, those that reported ready, and the signals that were sent. *)
Record workers_ok (starting running : option Cmd) (started ready : list Cmd) (sent : signals) : Prop := {
  wo_started : NoDup started;
  wo_once : NoDup ready;
  wo_ready w : w ∈ ready → w ∈ started;
  wo_running : running = last ready;
  wo_starting w : starting = Some w → w ∈ started ∧ w ∉ ready ∧ (w, SIGKILL) ∉ sent;
  wo_all w : w ∈ started → starting = Some w ∨ w ∈ ready ∨ (w, SIGKILL) ∈ sent;
  wo_term w : (w, SIGTERM) ∈ sent ↔ ∃ l1 w' l2, ready = l1 ++ w :: w' :: l2;
  wo_kill w : (w, SIGKILL) ∈ sent → w ∈ started ∧ w ∉ ready;
}.

Lemma workers_ok_nil : workers_ok None None [] [] [].
Proof. split; [constructor..|by intros ? ?%elem_of_nil|done|done|by intros ? ?%elem_of_nil| |by intros ? ?%elem_of_nil]. intros w. split; [by intros ?%elem_of_nil|]. by intros ([] & ? & ? & ?). Qed.

Lemma kill_elem w x sig : (x, sig) ∈ kill w ↔ w = Some x ∧ sig = SIGKILL.
Proof. destruct w as [w|]; cbn; [rewrite list_elem_of_singleton|rewrite elem_of_nil]; naive_solver. Qed.

(** A starting worker is killed. *)
Lemma workers_ok_kill starting running started ready sent :
  workers_ok starting running started ready sent → workers_ok None running started ready (sent ++ kill starting).
Proof.
  intros [N1 N2 R U S A T K]. split; [done..| | |].
  - intros w Hw. rewrite elem_of_app, kill_elem. destruct (A w Hw) as [|[|]]; tauto.
  - intros w. rewrite elem_of_app, kill_elem, T. split; [intros [|[_ [=]]]; done|by left].
  - intros w. rewrite elem_of_app, kill_elem. intros [?|[Hw _]]; [by apply K|]. destruct (S w Hw). tauto.
Qed.

(** A worker is started. *)
Lemma workers_ok_start running started ready sent w :
  workers_ok None running started ready sent → w ∉ started → workers_ok (Some w) running (started ++ [w]) ready sent.
Proof.
  intros [N1 N2 R U S A T K] Hw. split; [|done|intros x Hx; apply elem_of_app; left; by apply R|done| | |done|].
  - apply NoDup_app. split_and!; [done| |apply NoDup_singleton]. by intros x Hx ->%list_elem_of_singleton.
  - intros x [= <-]. rewrite elem_of_app, list_elem_of_singleton. split_and!; [by right|intros ?%R; done|]. by intros [? _]%K.
  - intros x [Hx| ->%list_elem_of_singleton]%elem_of_app; [|by left]. right. destruct (A x Hx) as [|[|]]; [done|tauto..].
  - intros x [H1 H2]%K. rewrite elem_of_app. tauto.
Qed.

Lemma two_last {A} (l : list A) w : (∃ l1 w' l2, l ++ [w] = l1 ++ w :: w' :: l2) → ¬ NoDup (l ++ [w]).
Proof.
  intros (l1 & w' & l2 & E) H. rewrite E in H. apply NoDup_app in H as (_ & _ & H). apply NoDup_cons in H as [H _]. apply H.
  destruct (exists_last (l := w' :: l2)) as (l3 & x & E3); [done|]. rewrite E3 in E |- *.
  assert (x = w) as ->; [|apply elem_of_app; right; by left].
  change (l1 ++ w :: l3 ++ [x]) with (l1 ++ (w :: l3) ++ [x]) in E. rewrite app_assoc in E. by apply app_inj_tail in E as [_ ->].
Qed.

(** The starting worker reports ready, and the running one is told to terminate. *)
Lemma workers_ok_ready w running started ready sent :
  workers_ok (Some w) running started ready sent →
  workers_ok None (Some w) started (ready ++ [w]) (sent ++ match running with Some old => [(old, SIGTERM)] | None => [] end).
Proof.
  intros [N1 N2 R U S A T K]. destruct (S w eq_refl) as (S1 & S2 & S3).
  assert (∀ x, (x, SIGKILL) ∈ sent ++ match running with Some old => [(old, SIGTERM)] | None => [] end ↔ (x, SIGKILL) ∈ sent) as Hk.
  { intros x. rewrite elem_of_app. destruct running; [rewrite list_elem_of_singleton|rewrite elem_of_nil]; naive_solver. }
  split; [done| | | |done| | |].
  - apply NoDup_app. split_and!; [done| |apply NoDup_singleton]. by intros x Hx ->%list_elem_of_singleton.
  - intros x [Hx| ->%list_elem_of_singleton]%elem_of_app; [by apply R|done].
  - by rewrite last_snoc.
  - intros x Hx. rewrite Hk, elem_of_app, list_elem_of_singleton. destruct (A x Hx) as [[= <-]|[|]]; tauto.
  - intros x. rewrite elem_of_app, T. split.
    + intros [(l1 & w' & l2 & ->)|Hx]; [exists l1, w', (l2 ++ [w]); by rewrite <- app_assoc|].
      destruct running as [old|]; [|by apply elem_of_nil in Hx]. apply list_elem_of_singleton in Hx as [= ->].
      symmetry in U. apply last_Some in U as (l & ->). exists l, w, []. by rewrite <- app_assoc.
    + intros (l1 & w' & l2 & E). destruct (exists_last (l := w' :: l2)) as (l3 & y & E3); [done|]. rewrite E3 in E.
      rewrite (app_assoc l1 (x :: l3) [y] : l1 ++ x :: l3 ++ [y] = _) in E. apply app_inj_tail in E as [E <-]. destruct l3 as [|z l3].
      * right. rewrite U, E, last_snoc. by left.
      * left. exists l1, z, l3. done.
  - intros x. rewrite Hk, elem_of_app, list_elem_of_singleton. intros Hx. destruct (K x Hx). split; [done|]. by intros [| ->].
Qed.

(** After [stop] every worker has been told to end. *)
Lemma workers_ok_stop starting running started ready sent w :
  workers_ok starting running started ready sent → w ∈ started → ∃ sig, (w, sig) ∈ sent ++ kill starting ++ kill running.
Proof.
  intros [N1 N2 R U S A T K] Hw. setoid_rewrite elem_of_app. setoid_rewrite elem_of_app. setoid_rewrite kill_elem. destruct (A w Hw) as [|[Hr|]]; [naive_solver| |naive_solver].
  apply list_elem_of_split in Hr as (l1 & l2 & ->). destruct l2 as [|w' l2].
  - exists SIGKILL. right. right. by rewrite U, last_snoc.
  - exists SIGTERM. left. apply T. by exists l1, w', l2.
Qed.

Definition system_workers_ok (s : sys) : Prop :=
  workers_ok (m_startingWorker (s_master s)) (m_runningWorker (s_master s)) (s_started s) (s_ready s) (s_signals s).

Lemma send_workers ev s s' : send ev s = Some s' → system_workers_ok s → system_workers_ok s' ∧ s_main s' = s_main s.
Proof. unfold send, emit. case_match; [|done]. by intros [= <-] Hs. Qed.

Lemma start_workers started s : system_workers_ok s → (∀ w, started = Ok w → w ∉ s_started s) → system_workers_ok (start started s).
Proof.
  intros H Hw. unfold start, start_locked. apply workers_ok_kill in H.
  destruct started as [w|e|msg]; unfold system_workers_ok; cbn; rewrite ?app_nil_r; [|done..]. apply workers_ok_start; [done|by apply Hw].
Qed.

Definition all_signalled (s : sys) : Prop := ∀ w, w ∈ s_started s → ∃ sig, (w, sig) ∈ s_signals s.

Lemma ready_workers pid s : system_workers_ok s → system_workers_ok (ready pid s) ∧ s_main (ready pid s) = s_main s.
Proof.
  intros Hs. unfold ready, ready_locked. destruct (m_startingWorker (s_master s)) as [w|] eqn:Hw; [|done]. destruct (cmd_Pid w =? pid); cbn; [|done].
  split; [|done]. unfold system_workers_ok in *. rewrite Hw in Hs. cbn. rewrite app_nil_r. by apply workers_ok_ready.
Qed.

Lemma timeout_workers w s : system_workers_ok s → system_workers_ok (timeout w s) ∧ s_main (timeout w s) = s_main s.
Proof.
  intros Hs. unfold timeout, timeout_locked. case_bool_decide as Hw; cbn; [|done]. split; [|done].
  unfold system_workers_ok in *. apply workers_ok_kill in Hs. rewrite Hw in Hs. cbn. by rewrite !app_nil_r.
Qed.

Lemma exited_workers w evs s : system_workers_ok s → system_workers_ok (exited w evs s) ∧ s_main (exited w evs s) = s_main s.
Proof. intros Hs. unfold exited. by destruct (exited_locked _ _). Qed.

Lemma stop_workers s : system_workers_ok s → all_signalled (stop s).
Proof. intros Hs w Hw. cbn in Hw |- *. rewrite app_nil_r in Hw. by eapply workers_ok_stop. Qed.

Lemma step_workers s s' : system_workers_ok s → s_main s ≠ Stopped true → step s s' →
  (s_main s' = Stopped true ∧ all_signalled s') ∨ (s_main s' ≠ Stopped true ∧ system_workers_ok s').
Proof.
  intros Hs Hm Hstep.
  destruct Hstep; try (match goal with H : send _ _ = Some _ |- _ => destruct (send_workers _ _ _ H Hs) as [Hs' Hm'] end);
    try (left; split; [done|by apply stop_workers]); right.
  all: try (split; [try done; congruence|exact Hs'] || (split; [try done; cbn; congruence|exact Hs])).
  - destruct main; split; try done. cbn. congruence.
  - split; [cbn; congruence|done].
  - destruct (ready_workers pid s Hs). split; [congruence|done].
  - destruct (timeout_workers w s Hs). split; [congruence|done].
  - destruct (exited_workers w evs s Hs). split; [congruence|done].
  - split; [done|]. apply start_workers; [done|]. by intros x [= <-].
  - split; [done|]. by apply start_workers.
  - destruct fatal; by split.
Qed.

(** (C40) Workers are replaced without a gap, and none is forgotten.  Whatever the workers, the builds and the clients do: every worker that was started is the one that
    is starting, or has reported ready, or has been killed before it did; the running worker is the last one that reported ready; those before it, and
    nobody else, have been told to terminate, which is after their successor was ready; a worker that is ready is not killed.  When a signal or a changed
    configuration ends the master, every worker has been sent a signal. *)
Theorem workers_safe s : reachable s →
  match s_main s with
  | Stopped true => ∀ w, w ∈ s_started s → ∃ sig, (w, sig) ∈ s_signals s
  | _ => workers_ok (m_startingWorker (s_master s)) (m_runningWorker (s_master s)) (s_started s) (s_ready s) (s_signals s)
  end.
Proof.
  intros Hr. assert ((s_main s = Stopped true ∧ all_signalled s) ∨ (s_main s ≠ Stopped true ∧ system_workers_ok s)) as H.
  { induction Hr as [w|s s' Hr IH Hup Hstep].
    - right. split; [done|]. apply start_workers; [apply workers_ok_nil|]. by intros x _ ?%elem_of_nil.
    - destruct IH as [[E _]|[Hn Hs]]; [unfold main_is_up in Hup; by rewrite E in Hup|]. by eapply step_workers. }
  destruct H as [[-> H]|[Hn H]]; [exact H|]. by destruct (s_main s) as [| | | |[]].
Qed.

Definition first_worker : Cmd := {| cmd_id := 0; cmd_Pid := 4711 |}.

(** The first worker has been started. *)
Definition demo_started : sys := match send {| ev_name := workerStartEvent; ev_data := "4711" |} (boot first_worker) with Some s => with_lock Free (with_main Selecting s) | None => boot first_worker end.

Lemma demo_started_reachable : reachable demo_started.
Proof.
  eapply Reach_step; [apply (Reach_boot first_worker)|done|].
  apply (Step_send_held (boot first_worker) {| ev_name := workerStartEvent; ev_data := "4711" |} true); [done|by vm_compute].
Qed.

Lemma workers_safe_witness : m_runningWorker (s_master (ready 4711 demo_started)) = last (s_ready (ready 4711 demo_started)).
Proof.
  apply (wo_running _ _ _ _ _ (workers_safe (ready 4711 demo_started)
    (Reach_step demo_started _ demo_started_reachable eq_refl (Step_ready demo_started 4711 eq_refl)))).
Defined.

(** ** Events *)

Definition in_transit (main : main_loop) : list event := match main with Distributing ev => [ev] | _ => [] end.

Record events_ok (s : sys) : Prop := {
  eo_fifo : s_emitted s = s_distributed s ++ in_transit (s_main s) ++ m_eventC (s_master s);
  eo_size : (length (m_eventC (s_master s)) ≤ channel_size)%nat;
  eo_clients c cl : m_eventClients (s_master s) !! c = Some cl →
    (length (cl_buffer cl) ≤ channel_size)%nat ∧ sublist (cl_read cl ++ cl_buffer cl) (s_distributed s);
  eo_lock ev : s_lock s = Held ev true → s_main s = Starting;
}.

Lemma send_events ev s s' : send ev s = Some s' → events_ok s → events_ok s' ∧ s_lock s' = s_lock s ∧ s_main s' = s_main s.
Proof.
  unfold send, emit. destruct (Nat.ltb_spec (length (m_eventC (s_master s))) channel_size) as [Hlt|]; [|done]. intros [= <-] [F L C K]. split; [|done].
  split; [|cbn; rewrite length_app; cbn; lia|done|done]. cbn. by rewrite F, <- !app_assoc.
Qed.

(** A change of the place of the main loop, and of the lock, without an event in hand. *)
Lemma with_main_events main s : events_ok s → in_transit (s_main s) = in_transit main → (∀ ev, s_lock s = Held ev true → main = Starting) → events_ok (with_main main s).
Proof. intros [F L C K] E H. split; [cbn; by rewrite <- E|done..]. Qed.
Lemma with_lock_events l s : events_ok s → (∀ ev, l = Held ev true → s_main s = Starting) → events_ok (with_lock l s).
Proof. intros [F L C K] H. by split. Qed.

Lemma start_events started s : events_ok s → s_main s = Selecting → s_lock s = Free → events_ok (start started s).
Proof. intros [F L C K] Hm Hl. unfold start, start_locked. destruct started as [w|e|msg]; split; cbn; try done; try (by rewrite F, Hm); congruence. Qed.

Lemma distributed_events ev s : events_ok s → s_main s = Distributing ev → is_Some (readable (s_lock s)) → events_ok (distributed ev s).
Proof.
  intros [F L C K] Hm Hl. split; [cbn; by rewrite F, Hm, <- app_assoc|done| |].
  - cbn. intros c cl. rewrite lookup_fmap. destruct (m_eventClients (s_master s) !! c) as [cl0|] eqn:E; [|done]. intros [= <-]. destruct (C c cl0 E) as [C1 C2].
    unfold offer. destruct (Nat.ltb_spec (length (cl_buffer cl0)) channel_size); cbn.
    + rewrite length_app. cbn. split; [lia|]. rewrite app_assoc. by apply sublist_app.
    + split; [done|]. by apply sublist_inserts_r.
  - cbn. intros e He. rewrite He in Hl. by destruct Hl.
Qed.

Lemma step_events s s' : events_ok s → step s s' → events_ok s'.
Proof.
  intros Hs Hstep. pose proof (eo_lock _ Hs) as HK.
  assert (∀ s1 main, events_ok s1 → in_transit main = [] → in_transit (s_main s1) = [] → s_main s1 ≠ Starting → events_ok (with_main main s1)) as Hmain.
  { intros s1 main H1 H2 H3 H4. apply with_main_events; [done|congruence|]. intros ev Hev. by apply (eo_lock _ H1) in Hev. }
  destruct Hstep as [name data s' Hn Hsend|ev main s' Hl Hsend|l1 ev l2 s' Hl Hsend|pid Hl|w Hl Hw|w evs Hl Hw|w Hw Hc|c Hl Hc|c Hl|c ev buffer read Hc|ev rest Hm Hc
    |ev Hm Hl|watched executablePath chmod name Hm|w Hm Hc Hl Hw|e Hm Hc Hl|Hm Hc|s' Hm Hsend|b Hm Hb|fatal s' Hm Hsend|s' Hm Hsend|Hm Hl|Hm Hc Hl|Hm];
    try (destruct (send_events _ _ _ Hsend Hs) as (Hs' & Hl' & Hm')); try done.
  - destruct main; [|by apply with_lock_events]. change (events_ok (with_main Selecting (with_lock Free s'))).
    apply with_main_events; [by apply with_lock_events|cbn; by rewrite Hm', (HK ev)|done].
  - apply with_lock_events; [done|]. intros e. unfold shared. by case_match.
  - unfold ready. destruct (ready_locked pid (s_master s)) as [[[m sent] status] [e|]] eqn:E; [|done]. apply with_lock_events; [|done].
    revert E. unfold ready_locked. destruct (m_startingWorker _); [|done]. case_match; [done|]. intros [= <- <- _ _]. by destruct Hs.
  - unfold timeout, timeout_locked. case_bool_decide; [|done]. cbn. apply with_lock_events; [|done]. by destruct Hs.
  - unfold exited. destruct (exited_locked _ _); [|done]. by apply with_lock_events.
  - by destruct Hs.
  - destruct Hs as [F L C K]. split; [done..| |done]. cbn. intros c' cl [[<- <-]|[Hne Hcl]]%lookup_insert_Some; [|by apply (C c')].
    split; [cbn; lia|]. apply sublist_nil_l.
  - destruct Hs as [F L C K]. split; [done..| |done]. cbn. intros c' cl [Hne Hcl]%lookup_delete_Some. by apply (C c').
  - destruct Hs as [F L C K]. split; [done..| |done]. cbn. intros c' cl [[<- <-]|[Hne Hcl]]%lookup_insert_Some; [|by apply (C c')].
    destruct (C c _ Hc) as [C1 C2]. cbn in *. split; [lia|]. by rewrite <- app_assoc.
  - destruct Hs as [F L C K]. split; [cbn; by rewrite F, Hm, Hc|cbn; rewrite Hc in L; cbn in L; lia|done|]. cbn. intros e He. rewrite (K e He) in Hm. done.
  - by apply distributed_events.
  - by destruct Hs.
  - apply start_events; [by destruct Hs|done..].
  - by apply start_events.
  - apply Hmain; [by destruct Hs|done|cbn; by rewrite Hm..].
  - apply Hmain; [done|done|by rewrite Hm', Hm..].
  - apply Hmain; [done|done|by rewrite Hm..].
  - apply Hmain; [done|by destruct fatal|by rewrite Hm', Hm..].
  - apply Hmain; [done|done|by rewrite Hm', Hm..].
  - apply Hmain; [by destruct Hs|done|cbn; by rewrite Hm..].
  - apply Hmain; [by destruct Hs|done|cbn; by rewrite Hm..].
  - apply Hmain; [done|done|by destruct Hm as [-> | ->]..].
Qed.

(** Clients see the events in their order.  What has been sent on the channel of the master is what it has distributed, then the event
    that it is about to distribute, then what waits in the channel, which never holds more than sixteen; and what a client has read,
    with what waits in its own channel, is a part of the distributed events, in their order, none of them twice. *)
Theorem events_in_order s : reachable s →
  s_emitted s = s_distributed s ++ in_transit (s_main s) ++ m_eventC (s_master s) ∧
  (length (m_eventC (s_master s)) ≤ channel_size)%nat ∧
  ∀ c cl, m_eventClients (s_master s) !! c = Some cl →
    (length (cl_buffer cl) ≤ channel_size)%nat ∧ sublist (cl_read cl ++ cl_buffer cl) (s_distributed s).
Proof.
  intros Hr. assert (events_ok s) as [F L C _]; [|done]. induction Hr as [w|s s' Hr IH _ Hstep]; [|by eapply step_events].
  split; [done|cbn; lia|done|done].
Qed.

Lemma events_in_order_witness : s_emitted demo_started = [{| ev_name := workerStartEvent; ev_data := "4711" |}].
Proof. etrans; [apply (events_in_order demo_started demo_started_reachable)|by vm_compute]. Defined.

(** ** How the master stops working *)

Definition full (s : sys) : Prop := length (m_eventC (s_master s)) = channel_size.

Lemma full_send ev s : full s → send ev s = None.
Proof. unfold full, send, emit. by intros ->. Qed.

(** The main loop is the only receiver of the events, and waits to send one itself. *)
Definition sending (main : main_loop) : bool := match main with Building BuildRunning => false | Building _ => true | _ => false end.
Definition blocked_sending (s : sys) : Prop := full s ∧ sending (s_main s) = true.

(** It has taken an event, and waits for the lock of a handler that waits to send one. *)
Definition blocked_locked (s : sys) : Prop := full s ∧ ∃ ev ev', s_main s = Distributing ev ∧ s_lock s = Held ev' false.

Lemma blocked_sending_stays s s' : blocked_sending s → step s s' → blocked_sending s'.
Proof.
  intros [Hf Hm] Hstep. destruct Hstep; try (match goal with H : send _ _ = Some _ |- _ => by rewrite full_send in H end);
    try (match goal with H : s_main _ = _ |- _ => by rewrite H in Hm end); try by split.
  - unfold ready, ready_locked. destruct (m_startingWorker _); [|done]. by destruct (negb _).
  - unfold timeout, timeout_locked. by destruct (negb _).
  - unfold exited. by destruct (exited_locked _ _).
  - by match goal with H : _ ∨ _ |- _ => destruct H as [H|H]; rewrite H in Hm end.
Qed.

Lemma blocked_locked_stays s s' : blocked_locked s → step s s' → blocked_locked s'.
Proof.
  intros (Hf & ev & ev' & Hm & Hl) Hstep. destruct Hstep; try (match goal with H : send _ _ = Some _ |- _ => by rewrite full_send in H end);
    try congruence; try (split; [done|]; by exists ev, ev').
  - by match goal with H : readable _ = _ |- _ => rewrite Hl in H end.
  - by match goal with H : is_Some (readable _) |- _ => rewrite Hl in H; destruct H end.
  - by match goal with H : _ ∨ _ |- _ => destruct H as [H|H]; rewrite H in Hm end.
Qed.

(** Lines that the compiler prints. *)
Fixpoint print (n : nat) (s : sys) : option sys :=
  match n with
  | O => Some s
  | S n => s ← send {| ev_name := buildStderrEvent; ev_data := "eventter.io/mq" |} s; print n s
  end.

Lemma print_reachable n : ∀ s s', reachable s → main_is_up s = true → print n s = Some s' → reachable s'.
Proof.
  induction n as [|n IH]; intros s s' Hr Hu; cbn [print]; [by intros [= <-]|]. destruct (send _ s) as [s1|] eqn:E; [|done]. cbn. apply IH.
  - eapply Reach_step; [done..|]. eapply Step_line; [|exact E]. unfold output_event. set_solver.
  - revert E. unfold send, emit. case_match; [|done]. by intros [= <-].
Qed.

(** The master after that, with nothing left to distribute. *)
Definition demo_idle : sys := distributed {| ev_name := workerStartEvent; ev_data := "4711" |} (receive {| ev_name := workerStartEvent; ev_data := "4711" |} [] demo_started).

Lemma demo_idle_reachable : reachable demo_idle.
Proof.
  apply (Reach_step (receive {| ev_name := workerStartEvent; ev_data := "4711" |} [] demo_started)); [|done|by apply Step_distribute; [|eexists]].
  apply (Reach_step demo_started); [apply demo_started_reachable|done|by apply Step_receive].
Qed.

(** A source file has changed, and the build has begun. *)
Definition demo_building : option sys :=
  let s := with_watch (watch_event [("/app", "app")] "/bin/app" false "/app/main.go" (s_watch demo_idle)) demo_idle in
  s ← send {| ev_name := buildStartEvent; ev_data := "" |}
        (with_main (Building BuildStarted) (with_watch {| ws_buildC := false; ws_startC := ws_startC (s_watch s); ws_dirty := ∅ |} s));
  Some (with_main (Building BuildRunning) s).

Lemma demo_building_reachable s : demo_building = Some s → reachable s.
Proof.
  unfold demo_building. set (s1 := with_watch _ demo_idle). set (s2 := with_main (Building BuildStarted) _). cbv zeta.
  destruct (send _ s2) as [s3|] eqn:E; [|done]. cbn [mbind option_bind]. intros [= <-]. apply (Reach_step s2); [|done|by apply Step_build_event].
  apply (Reach_step s1); [|done|apply Step_build; by vm_compute].
  apply (Reach_step demo_idle); [apply demo_idle_reachable|done|by apply Step_watch].
Qed.

(** A build that prints fifteen lines before the compiler exits stops the master for good: no event is ever received again. *)
Lemma blocked_build : ∃ s, reachable s ∧ blocked_sending s.
Proof.
  destruct demo_building as [s1|] eqn:E1; [|by vm_compute in E1]. pose proof (demo_building_reachable s1 E1) as R1.
  assert (∃ s2, print 15 s1 = Some s2 ∧ s_main s2 = Building BuildRunning ∧ full s2) as (s2 & E2 & M2 & F2).
  { vm_compute in E1. injection E1 as <-. eexists. split_and!; by vm_compute. }
  assert (main_is_up s1 = true) as U1 by (vm_compute in E1; by injection E1 as <-).
  exists (with_main (Building BuildOk) s2). split; [|done]. apply (Reach_step s2); [by apply (print_reachable 15 s1)|unfold main_is_up; by rewrite M2|].
  apply Step_build_exit; [done|set_solver].
Qed.

(** So does a worker that reports ready while its output fills the channel. *)
Lemma blocked_ready : ∃ s, reachable s ∧ blocked_locked s.
Proof.
  destruct (print 15 demo_started) as [s1|] eqn:E1; [|by vm_compute in E1].
  assert (reachable s1) as R1 by by apply (print_reachable 15 demo_started); [apply demo_started_reachable|..].
  assert (∃ ev rest s3, s_lock s1 = Free ∧ main_is_up s1 = true ∧ main_is_up (ready 4711 s1) = true ∧ s_main (ready 4711 s1) = Selecting ∧ m_eventC (s_master (ready 4711 s1)) = ev :: rest ∧
    print 1 (receive ev rest (ready 4711 s1)) = Some s3 ∧ blocked_locked s3) as (ev & rest & s3 & L1 & U1 & U2 & M2 & C2 & E3 & B3).
  { vm_compute in E1. injection E1 as <-. do 3 eexists. split_and!; [by vm_compute..|]. split; [by vm_compute|]. do 2 eexists. split; by vm_compute. }
  exists s3. split; [|done]. apply (print_reachable 1 (receive ev rest (ready 4711 s1))); [|done|done].
  apply (Reach_step (ready 4711 s1)); [|done|by apply Step_receive]. apply (Reach_step s1); [done|done|by apply Step_ready].
Qed.

(** An error ends the master without a signal to its workers. *)
Lemma error_leaves_workers : ∃ s, reachable s ∧ s_main s = Stopped false ∧ s_started s = [first_worker] ∧ s_signals s = [].
Proof.
  exists (with_main (Stopped false) demo_idle). split; [|done]. apply (Reach_step demo_idle); [apply demo_idle_reachable|done|]. apply Step_error. by left.
Qed.
